(* ===== verification/_CoqProject ===== *)
-Q . S2P
Prelude.v
Go.v
Bits.v
JtagTap.v
JtagConn.v
JtagConnFacts.v
JtagChain.v
JtagChainFacts.v
JtagProps.v
SwdFrame.v
SwdConn.v
SwdConnFacts.v
SwdLifecycle.v
SwdLifecycleFacts.v
SwdSim.v
SwdRefine.v
SwdBatch.v
SwdBatchFacts.v
SwdProps.v
CoreSight.v
CoreSightFacts.v
CoreSightProps.v
CortexM.v
CortexMFacts.v
CortexMControl.v
CortexMRelease.v
CortexMProps.v
CortexMGroup.v
CortexMGroupFacts.v
CortexMGroupLife.v
CortexMGroupProps.v
DapTypes.v
DapErrors.v
DapPlan.v
DapPlanFacts.v
DapBlock.v
DapBlockFacts.v
DapPort.v
DapJtag.v
DapSwd.v
DapAccess.v
DapLifecycle.v
DapTxn.v
DapMemAP.v
DapSwdFacts.v
DapAccessFacts.v
DapTxnFacts.v
DapTxnRefine.v
DapMemFacts.v
DapProps.v
DapSim.v
DapSimFacts.v
DapStack.v
Usb.v
UsbFacts.v
UsbProps.v
UsbHost.v
Ftdi.v
Mpsse.v
FtdiFacts.v
FtdiChannel.v
FtdiChannelFacts.v
FtdiChannelLife.v
FtdiProps.v
Cmsis.v
CmsisSwd.v
CmsisRegister.v
CmsisFacts.v
CmsisSwdFacts.v
CmsisLife.v
CmsisRegFacts.v
CmsisProps.v
JLink.v
JLinkWire.v
JLinkSession.v
JLinkFacts.v
JLinkScan.v
JLinkLife.v
JLinkProps.v
Ownership.v
