(* ===== verification/Prelude.v ===== *)
(** * Ostiole verification library

    Ostiole drives Arm debug hardware from a host.  This library models its
    packages as Rocq functions, translated from the Go source under src/, and
    proves what each of them promises.

    ** The program's parts

    From the bottom up:
    - jtag: connections that clock a JTAG wire, track the TAP controller's state,
      scan registers, discover and measure a chain; validated chains and the TAPs
      they lend.
    - swd: framing, connections that own the wire's response grammar (simple, or
      with ORUNDETECT), batches of requests; swd/sim is a behavioral wire.
    - dap: debug ports over an SWD connection, a transport that completes
      registers by itself or a JTAG chain; access ports, transactions, MEM-APs;
      dap/sim is a simulated debug port for the behavioral wire.
    - coresight: components and ROM tables read through a scalar reader.
    - target/cortexm: halting debug of one processor through a memory, and of
      groups of them.
    - usb, cmsisdap, jlink, ftdi: what carries the wires: configuration descriptors
      of a USB device; sessions with a CMSIS-DAP probe, its SWD streams and
      register transfers; sessions with a J-Link and its SWD and JTAG scans;
      channels of FTDI chips with their MPSSE command streams.
    - probe, internal/probeusb, armdebug: who owns what: a probe that lends one
      surface of its backend, the USB attachment below it, and the connection that
      owns a probe, the debug port on it and the MEM-APs opened through it.
    Each package calls the ones above it through small interfaces; here every
    such interface is a type class (a wire, a link, a reader, a memory), its
    clients are proved against any instance, and the classes state no more than
    the interface documents.

    ** How Go is modelled

    Prelude.v (this file) has slices, machine integers ([Z] with the wrap-around
    written out) and list lemmas.  Go.v has errors ([error], with sentinels,
    wrapping, [errors_Is], [errors_Join]), contexts, whose end is decided by the
    outside world each time they are asked, and the monad [GoM] of a method:
    state passing, with panics and exhausted fuel as outcomes of their own.  [wp]
    is total correctness (the method returns), [wlp] partial correctness.  Bits.v
    has packed bit buffers.  Loops whose recursion is not structural take a fuel;
    a theorem that a method returns names the fuel that is enough.  Error texts
    keep their format string but not the interpolated values.

    ** Files

    - jtag: JtagTap (state.go: states, transitions, the breadth-first [path]),
      JtagConn (conn.go, scan.go, discover.go, measure.go, options.go), JtagChain
      (layout.go, chain.go, tap.go); JtagConnFacts (discovery and the tracked state
      included) and JtagChainFacts are their lemmas, JtagProps their contract.
    - swd: SwdFrame (sequence.go and the frames of transfer.go), SwdConn
      (connection.go, transfer.go, sequences.go), SwdLifecycle (lifecycle.go,
      dormant.go), SwdBatch (batch.go), SwdSim (sim/wire.go); SwdConnFacts,
      SwdLifecycleFacts, SwdRefine and SwdBatchFacts are their lemmas, SwdProps
      their contract.
    - coresight: CoreSight (component.go, rom.go, walk.go), CoreSightFacts,
      CoreSightProps.
    - target/cortexm: CortexM (all of the single-target files), CortexMFacts
      (what returns when), CortexMControl (halting, registers), CortexMRelease
      (stepping, release), CortexMProps; CortexMGroup (group.go, group_control.go,
      group_access.go), CortexMGroupFacts (members, selections, loops),
      CortexMGroupLife (acquiring and releasing), CortexMGroupProps.
    - dap: DapTypes (types.go, ap.go, apv2.go, state.go, identity.go), DapErrors
      (errors.go and the predicates on outcomes), DapPort (the transports as
      classes, the state [PSt] of a port), DapJtag (jtag_*.go), DapSwd (wait.go,
      swddp.go, register_executor.go, swd_executor.go), DapAccess (ap.go, apv2.go,
      swd_ap.go, debugspace.go), DapLifecycle (lifecycle.go,
      register_lifecycle.go), DapPlan (the planner of txn.go), DapTxn (txn.go,
      txn_serial.go), DapBlock (sizes, lanes and segments of memap.go and
      memap_block.go), DapMemAP (memap.go, memap_block.go, memap_debugbase.go,
      enumerate.go); DapPlanFacts starts with the abstract port a plan is
      judged against, DapPlanFacts, DapBlockFacts, DapSwdFacts, DapAccessFacts,
      DapTxnFacts, DapTxnRefine and DapMemFacts are lemmas, DapProps the
      contract.  DapSim (dap/sim), DapSimFacts (its registers
      and memory, and how it implements the abstract port), DapStack (a debug port
      over a connection over the wire over the simulated port, with the contract
      of the whole).
    - usb: Usb (configuration.go); UsbFacts (with the descriptors a configuration
      is read from), UsbProps.
    - ftdi: Ftdi (clock.go, the encoders of swd.go and jtag.go, the decoding of
      bulk.go), FtdiChannel (channel.go, bulk.go, session.go, open.go, sync.go and
      the wire operations of swd.go and jtag.go); Mpsse is the command processor
      they are judged against; FtdiFacts (streams), FtdiChannelFacts (the receiver
      as a step relation, exchanges), FtdiChannelLife (closing, opening), FtdiProps.
    - cmsisdap: UsbHost (the device as sessions use it), Cmsis (interface.go,
      types.go, transport.go, protocol.go, config.go, resync.go, session.go),
      CmsisSwd (swd.go, swj.go), CmsisRegister (register*.go);
      DAP_SWD_Sequence as a probe executes it is at the end of Mpsse, a host with
      such a probe at the end of CmsisSwdFacts; CmsisFacts, CmsisSwdFacts,
      CmsisLife (opening included) and CmsisRegFacts are lemmas, CmsisProps the
      contract.
    - jlink: JLink (discovery.go, candidates.go, types.go, transport.go),
      JLinkWire (swd.go, jtag.go), JLinkSession (session.go, resync.go, probe.go);
      JLinkFacts (streams, configuration), JLinkScan (bits, scans over any host)
      and JLinkLife (closing, opening) are lemmas, JLinkProps a host with a probe
      that executes scans and the contract.
    - probe, internal/probeusb, armdebug: Ownership (the model, its lemmas and its
      contract).

    The state of a Go object is a record with the source's fields, its methods
    are definitions with the source's names; [x_body] is the part of [x] after
    its guards or under its deferred calls, [x_loop] a loop of [x].  Where a method
    calls back into a recovery that calls it (dap/wait.go: abortWait, transfer,
    reenter), the recovery is a parameter and the knot is tied once, as deep as
    the code allows it to recurse.  The goroutine that receives for an FTDI channel
    is a program counter beside the channel; before each action of the caller it
    takes as many steps as the scheduler, a part of the world, says, and a select
    with several ready cases asks the scheduler for one.

    ** What the theorems show

    JTAG: [path] is shortest; whatever is clocked, the tracked state is the
    target's; clocking in chunks is transparent; scans capture what the target
    shifted; discovery and measurement decode what is there; a connected chain is
    the described one, lent TAPs scan exactly their own bits, and stale TAPs
    touch nothing.
    SWD: bit frames over the behavioral wire refine register accesses, one at a
    time and packed, and a committed batch performs its requests; the connection's ownership of ORUNDETECT is invariant;
    Connect and Release keep their contracts over every wire; every queued result
    of a batch is resolved; invalid batches and refused transfers send nothing.
    CoreSight: ROM entries are decoded exactly; a walk is bounded and visits what
    the tables list, depth first.
    Cortex-M: until a target closes nothing is in flight or in doubt and every
    write has its reason; halt, resume, step and register transfers mean what
    they return; release restores what was found.  In a group every member keeps
    that invariant; an operation asks exactly the selected members, in their
    order, reports each one's outcome and the first error, and a failed member
    does not keep the others from their turn; acquiring fails with every member it
    acquired released or still reported, and releasing tries every member that is
    pending, whatever the ones before it returned.
    DAP: the planner inserts what the hardware needs: its requests never use an
    unsettled selection and deliver what the operations mean one after the other;
    over a link without faults, committing a transaction gives each caller that
    value; over any link, Commit returns and resolves every result, and every
    operation of a port returns and keeps its state consistent; Connect and
    Release keep their contracts; block segments tile the range asked for and the
    byte lanes lose nothing; block transfers of a MEM-AP move every byte once or
    say how far they came, and its release restores what opening found.  End to
    end, transactions over a connection, its batches, the bits of the wire and the
    simulated port mean their operations; memory behind the simulated MEM-AP keeps
    what is written to it, in every size and byte order.
    USB: what the descriptor parser accepts is well formed, and it reads back
    exactly the configuration that was described.
    FTDI: over a device that runs the command processor, under any schedule of the
    receiver and any split of the transfers, SWD and JTAG streams clock exactly the
    stream asked for and return the target's samples, or fail and leave a channel
    that refuses further streams; opening ends with an idle, synchronized and
    configured channel or closed as far as it could be; closing waits for the
    receiver before the interface is given up and restores the adapter or says so.
    CMSIS-DAP: plans of SWD packets clock exactly the stream asked for, and SWDIO
    over a working probe returns the target's samples; over any host, commands are
    sent at most once and in order, and a stream that is cut short poisons the
    session; opening ends, and opening, configuring and closing leave nothing
    owned that is not reported; a register access sends at most one command, its
    status and error agree as package dap requires, and ORUNDETECT is given up
    only when it was restored.
    J-Link: over a working probe, in packets of any size, SWD and JTAG scans clock
    exactly the stream asked for and return the target's samples, those of SWD
    delayed by one undriven clock across calls; over any host, a scan that failed
    was not sent or leaves a session that refuses to scan; a configured clock is
    within its ceiling and its field; opening ends, and opening and closing leave
    nothing owned that is not reported.
    Ownership: a probe lends one surface at most, never asks for an attachment it
    handed over, and forgets its backend only when nothing is left; an Arm
    connection releases its target before its probe and in the reverse order of
    acquisition, keeps what a failed release can still restore, and reports what
    it had to abandon.

    ** Fuel and bounds

    Loops that retry after WAIT are limited by the port's own limit on WAITs
    ([pre]: at least one, at most the fuel; a limit of zero means no limit, and
    then the code may retry for ever).  Polling loops end with their context:
    [Clock] and [deadline] say that asking a context that has a deadline uses up
    time, and fuel above that time is enough.  A transaction of operations [l]
    needs [steps_bound l] rounds for each WAIT allowed ([fuelled]).  Resynchronizing a
    CMSIS-DAP probe or a J-Link ends with its one-second context ([Timed]), and a
    J-Link's wait for a configuration with the caller's.  Loops over the bits
    of a stream take as many turns as it has bits; filling a J-Link response takes
    at most three turns for each byte, since two empty packets in a row end it.
    Waiting for an FTDI response ends with its context ([Patient], with a budget of
    waits below the fuel).  The receiver of a closing channel ends within
    [drain_fuel] waits: the host completes an aborted transfer, and the one the
    receiver may have submitted after the abort, within [L] waits each ([Drains]).

    ** Not modelled

    The processor simulator (target/cortexm/sim) is a test double; targets are
    proved against any memory instead.  The operating-system access below the
    probes (usb: usbfs, IOKit, WinUSB) is system calls; what the probes use of it
    is the interface they are proved against.  Probe discovery registers providers
    and filters lists of devices; command-line tools parse flags and print;
    internal/ci checks pull requests.  The theorems about debug ports cover the
    SWD and register transports; the JTAG executor and access-port enumeration are
    modelled but have no theorem. *)

From stdpp Require Export base tactics list numbers option strings.
From Stdlib Require Export ZArith Lia.

Local Open Scope Z_scope.

(** ** Go slices

    A slice index outside its bounds panics; the pure parts of the code are
    written in the option monad, [None] being that panic. *)

Definition index {A} (l : list A) (i : Z) : option A :=
  if i <? 0 then None else l !! Z.to_nat i.

Definition store {A} (l : list A) (i : Z) (x : A) : option (list A) :=
  if (i <? 0) || (Z.of_nat (length l) <=? i) then None
  else Some (<[Z.to_nat i := x]> l).

Definition len {A} (l : list A) : Z := Z.of_nat (length l).

(** [make([]byte, n)] *)
Definition make_bytes (n : Z) : list Z := replicate (Z.to_nat n) 0.

(** [for i := range n { body }], in the option monad. *)
Fixpoint forN {A} (n : nat) (i : Z) (body : Z -> A -> option A) (a : A) : option A :=
  match n with
  | O => Some a
  | S n => a' ← body i a; forN n (i + 1) body a'
  end.

Definition for_range {A} (n : Z) (body : Z -> A -> option A) (a : A) : option A :=
  forN (Z.to_nat n) 0 body a.

Lemma forN_inv {A} (I : Z -> A -> Prop) (body : Z -> A -> option A) n lo a :
  (forall i a, lo <= i < lo + Z.of_nat n -> I i a ->
     exists a', body i a = Some a' /\ I (i + 1) a') ->
  I lo a ->
  exists a', forN n lo body a = Some a' /\ I (lo + Z.of_nat n) a'.
Proof.
  revert lo a. induction n as [|n IH]; intros lo a Hstep Hlo; simpl.
  - exists a. rewrite Z.add_0_r. auto.
  - destruct (Hstep lo a) as (a1 & -> & H1); [lia|done|]. simpl.
    destruct (IH (lo + 1) a1) as (a2 & -> & H2); [|done|].
    + intros i a' Hi. apply Hstep. lia.
    + exists a2. split; [done|]. by replace (lo + Z.of_nat (S n)) with (lo + 1 + Z.of_nat n) by lia.
Qed.

Lemma for_range_inv {A} (I : Z -> A -> Prop) (body : Z -> A -> option A) n a :
  0 <= n ->
  (forall i a, 0 <= i < n -> I i a -> exists a', body i a = Some a' /\ I (i + 1) a') ->
  I 0 a ->
  exists a', for_range n body a = Some a' /\ I n a'.
Proof.
  intros Hn Hstep H0.
  destruct (forN_inv I body (Z.to_nat n) 0 a) as (a' & Ha & HI); [|done|].
  - intros i a' Hi. apply Hstep. lia.
  - exists a'. split; [exact Ha|]. by replace n with (0 + Z.of_nat (Z.to_nat n)) by lia.
Qed.

Lemma index_Some {A} (l : list A) i x :
  index l i = Some x <-> 0 <= i /\ l !! Z.to_nat i = Some x.
Proof. unfold index. destruct (Z.ltb_spec i 0); split; intros; [done|lia|auto|tauto]. Qed.

Lemma index_lookup {A} (l : list A) i :
  0 <= i -> index l i = l !! Z.to_nat i.
Proof. intros. unfold index. by destruct (Z.ltb_spec i 0); [lia|]. Qed.

Lemma index_is_Some {A} (l : list A) i :
  is_Some (index l i) <-> 0 <= i < len l.
Proof.
  unfold index, len. destruct (Z.ltb_spec i 0).
  - split; [intros [? ?]; done|lia].
  - rewrite lookup_lt_is_Some. lia.
Qed.

Lemma store_in {A} (l : list A) i x :
  0 <= i < len l -> store l i x = Some (<[Z.to_nat i := x]> l).
Proof.
  unfold store, len. intros.
  destruct (Z.ltb_spec i 0), (Z.leb_spec (Z.of_nat (length l)) i); simpl; try lia. done.
Qed.

Lemma len_nonneg {A} (l : list A) : 0 <= len l.
Proof. unfold len. lia. Qed.

Lemma len_make_bytes n : 0 <= n -> len (make_bytes n) = n.
Proof. unfold len, make_bytes. rewrite length_replicate. lia. Qed.

Lemma len_insert {A} (l : list A) i x : len (<[i := x]> l) = len l.
Proof. unfold len. by rewrite length_insert. Qed.

Lemma len_app {A} (l k : list A) : len (l ++ k) = len l + len k.
Proof. unfold len. rewrite length_app. lia. Qed.

(** ** Machine integers *)

Definition uint8 (x : Z) : Z := x mod 2 ^ 8.
Definition uint16 (x : Z) : Z := x mod 2 ^ 16.
Definition uint32 (x : Z) : Z := x mod 2 ^ 32.
Definition uint64 (x : Z) : Z := x mod 2 ^ 64.

(** [x &^ y] *)
Definition and_not (x y : Z) : Z := Z.ldiff x y.

(** [x & mask != 0] *)
Definition any_bits (x mask : Z) : bool := negb (Z.land x mask =? 0).

Definition maxUint32 : Z := 0xffffffff.

Lemma uint32_small x : 0 <= x < 2 ^ 32 -> uint32 x = x.
Proof. intros. by apply Z.mod_small. Qed.
Lemma uint64_small x : 0 <= x < 2 ^ 64 -> uint64 x = x.
Proof. intros. by apply Z.mod_small. Qed.
Lemma uint32_range x : 0 <= uint32 x < 2 ^ 32.
Proof. apply Z.mod_pos_bound. done. Qed.
Lemma uint64_range x : 0 <= uint64 x < 2 ^ 64.
Proof. apply Z.mod_pos_bound. done. Qed.

Lemma testbit_high x n i : 0 <= x < 2 ^ n -> n <= i -> Z.testbit x i = false.
Proof.
  intros Hx Hi. destruct (Z.lt_ge_cases n 0).
  - rewrite Z.pow_neg_r in Hx by lia. lia.
  - destruct (Z.eq_dec x 0) as [->|]; [apply Z.testbit_0_l|].
    apply Z.bits_above_log2; [lia|]. assert (Z.log2 x < n); [|lia].
    apply Z.log2_lt_pow2; lia.
Qed.

Lemma bits_lt_pow2 x n :
  0 <= n -> 0 <= x -> (forall i, n <= i -> Z.testbit x i = false) -> x < 2 ^ n.
Proof.
  intros Hn Hx Hb. destruct (Z.lt_ge_cases x (2 ^ n)) as [|Hge]; [done|exfalso].
  assert (2 ^ n > 0) by (apply Z.lt_gt, Z.pow_pos_nonneg; lia).
  assert (n <= Z.log2 x) by (apply Z.log2_le_pow2; lia).
  specialize (Hb (Z.log2 x) H0). rewrite Z.bit_log2 in Hb; [done|lia].
Qed.

Lemma land_1_testbit x i :
  0 <= i -> Z.land (Z.shiftr x i) 1 = Z.b2z (Z.testbit x i).
Proof.
  intros. change 1 with (Z.ones 1). rewrite Z.land_ones, Z.shiftr_div_pow2 by lia.
  rewrite Z.testbit_spec' by lia. done.
Qed.

Lemma any_bits_bit x i : 0 <= i -> any_bits x (2 ^ i) = Z.testbit x i.
Proof.
  intros Hi. unfold any_bits.
  assert (Z.land x (2 ^ i) = if Z.testbit x i then 2 ^ i else 0) as ->.
  { apply Z.bits_inj'. intros n Hn. rewrite Z.land_spec, Z.pow2_bits_eqb by done.
    destruct (Z.eqb_spec i n) as [<-|Hne].
    - destruct (Z.testbit x i); [by rewrite Z.pow2_bits_true|by rewrite Z.testbit_0_l].
    - rewrite andb_false_r. destruct (Z.testbit x i); [by rewrite Z.pow2_bits_false|by rewrite Z.testbit_0_l]. }
  destruct (Z.testbit x i); [|done].
  assert (0 < 2 ^ i) by (apply Z.pow_pos_nonneg; lia).
  destruct (Z.eqb_spec (2 ^ i) 0); [lia|done].
Qed.

(** Case analysis on the integer comparisons of a boolean goal. *)
Ltac zcmp :=
  repeat match goal with
    | |- context [?a <? ?b] => destruct (Z.ltb_spec a b); try lia
    | |- context [?a <=? ?b] => destruct (Z.leb_spec a b); try lia
    | |- context [?a =? ?b] => destruct (Z.eqb_spec a b); try lia
    end;
  subst; simpl; rewrite ?andb_false_r, ?andb_true_r, ?orb_false_r, ?orb_true_r; try done.
