(* ===== verification/Go.v ===== *)
(** * The Go runtime the packages rely on

    Errors with their wrapping, contexts, and the state monad in which every
    stateful method is written.  A method either returns ([Done]), panics
    ([Panicked]: an index out of range or a nil dereference) or, when it polls
    in a loop without a bound of its own, exhausts the fuel it was given
    ([OutOfFuel]). *)

From S2P Require Import Prelude.
Local Open Scope Z_scope.

(** ** Errors *)

Inductive ctxError := Canceled | DeadlineExceeded.

(** The package-level error variables that code compares with or matches. *)
Inductive sentinel :=
| context_Err (e : ctxError)
| jtag_ErrInstructionChanged
| jtag_ErrChainInvalid
| jtag_ErrStateUnknown
| jtag_ErrDiscoveryLimit
| jtag_ErrNoChain
| swd_ErrWait
| swd_ErrFault
| swd_ErrParity
| swd_ErrProtocol
| swd_ErrResultPending
| swd_ErrBatchCommitted
| swd_ErrNotExecuted
| swd_ErrIndeterminate
| coresight_ErrNotROMTable
| coresight_ErrWalkLimit
| coresight_ErrRepeatedTable
| coresight_ErrPowerDomain
| dap_ErrWait
| dap_ErrFault
| dap_ErrProtocol
| dap_ErrResultPending
| dap_ErrTxnCommitted
| dap_ErrNotExecuted
| dap_ErrIndeterminate
| dap_errAddressIncrementUnsupported
| io_ErrUnexpectedEOF
| io_ErrNoProgress
| usb_ErrNotConfigured
| usb_ErrDeviceGone
| cmsisdap_ErrNoV2Interface
| cmsisdap_ErrSessionPoisoned
| jlink_ErrSessionPoisoned
| ftdi_ErrChannelPoisoned
| dapsim_ErrBusFault
| dapsim_ErrDeviceFailure
| probe_ErrUnsupportedSWD
| probe_ErrUnsupportedRegisterSWD
| probe_ErrUnsupportedJTAG
| probe_errInactiveRegisterSWD
| armdebug_ErrRestorationAbandoned.

#[global] Instance ctxError_eq_dec : EqDecision ctxError.
Proof. solve_decision. Defined.
#[global] Instance sentinel_eq_dec : EqDecision sentinel.
Proof. solve_decision. Defined.

(** The error types packages dap and dap/sim declare around one cause. *)
Inductive wrapper :=
| requestNotSentError
| rejectedRequestError
| completedRegisterError
| completedReleaseError
| portError
| canceledWAITError
| deviceFailure.

#[global] Instance wrapper_eq_dec : EqDecision wrapper.
Proof. solve_decision. Defined.

(** The fields of a [dap.FaultError] other than its cause. *)
Record faultState := mkFault { fault_CTRLSTAT : Z; StateValid : bool; cleared : bool }.

(** Error types without a cause: [usb.configurationChangedError] and
    [jlink.ScanError]. *)
Inductive detail :=
| configurationChangedError (from to : Z)
| ScanError (Status : Z).

(** [New] is [errors.New] or a [fmt.Errorf] with no [%w]; [Errorf] wraps its
    [%w] operands; [Join] is a non-empty [errors.Join]; [Wrap] and [FaultError]
    are the error types of package dap.  Messages keep the format string, not
    its formatted operands. *)
Inductive error :=
| Sentinel (s : sentinel)
| New (msg : string)
| Errorf (msg : string) (causes : list error)
| Join (causes : list error)
| Wrap (w : wrapper) (cause : error)
| FaultError (f : faultState) (cause : option error)
| Detail (d : detail).

(** A Go [error] result: [None] is [nil]. *)
Abbreviation err := (option error).

(** [errors.Is(e, target)] for a package-level target: the error itself, its
    [Is] method, then whatever it unwraps to.  A [canceledWAITError] and a
    [deviceFailure] have an [Is] method and do not unwrap. *)
Fixpoint Is (e : error) (target : sentinel) : bool :=
  match e with
  | Sentinel s => bool_decide (s = target)
  | New _ => false
  | Errorf _ causes | Join causes => existsb (fun c => Is c target) causes
  | Wrap portError c =>
      match target with
      | dap_ErrWait => Is c swd_ErrWait
      | dap_ErrFault => Is c swd_ErrFault
      | dap_ErrProtocol => Is c swd_ErrProtocol
      | _ => false
      end || Is c target
  | Wrap canceledWAITError c =>
      negb (bool_decide (target = dap_ErrWait)) && negb (bool_decide (target = swd_ErrWait)) && Is c target
  | Wrap deviceFailure c =>
      match target with
      | dapsim_ErrDeviceFailure => true
      | context_Err _ => Is c target
      | _ => false
      end
  | Wrap _ c => Is c target
  | FaultError _ c =>
      bool_decide (target = dap_ErrFault) || match c with Some c => Is c target | None => false end
  | Detail (configurationChangedError _ to) => (to =? 0) && bool_decide (target = usb_ErrNotConfigured)
  | Detail _ => false
  end.

(** [errors.As(e, &w)] for a wrapper type: whether the chain has one. *)
Fixpoint As_wrapper (w : wrapper) (e : error) : bool :=
  match e with
  | Sentinel _ | New _ | Detail _ => false
  | Errorf _ causes | Join causes => existsb (As_wrapper w) causes
  | Wrap deviceFailure _ => bool_decide (deviceFailure = w)
  | Wrap w' c => bool_decide (w' = w) || As_wrapper w c
  | FaultError _ c => match c with Some c => As_wrapper w c | None => false end
  end.

(** The first result of [f] along a list. *)
Definition first_some {A B} (f : A -> option B) : list A -> option B :=
  fix go l := match l with [] => None | x :: l => match f x with Some y => Some y | None => go l end end.

(** [errors.As(e, &fault)]: the first [FaultError] of the chain, depth first. *)
Fixpoint As_fault (e : error) : option faultState :=
  match e with
  | Sentinel _ | New _ | Detail _ => None
  | Errorf _ causes | Join causes => first_some As_fault causes
  | Wrap deviceFailure _ => None
  | Wrap _ c => As_fault c
  | FaultError f _ => Some f
  end.

Definition errors_Is (e : err) (target : sentinel) : bool :=
  match e with Some e => Is e target | None => false end.

(** [err == target] *)
Definition err_eqb (e : err) (target : sentinel) : bool :=
  match e with Some (Sentinel s) => bool_decide (s = target) | _ => false end.

Definition is_nil (e : err) : bool := match e with None => true | Some _ => false end.

(** [errors.Join] drops nil operands and is nil when all are. *)
Definition errors_Join (es : list err) : err :=
  match omap id es with
  | [] => None
  | es' => Some (Join es')
  end.

Lemma errors_Join_None es : errors_Join es = None <-> Forall (fun e => e = None) es.
Proof.
  unfold errors_Join. induction es as [|[e|] es IH]; simpl.
  - split; auto.
  - split; [done|]. intros H. inversion H. done.
  - rewrite IH. split; [auto|]. intros H. by inversion H.
Qed.

Lemma err_eqb_true e s : err_eqb e s = true <-> e = Some (Sentinel s).
Proof.
  destruct e as [[]|]; simpl; split; try done; intros H.
  - apply bool_decide_eq_true in H. by subst.
  - apply bool_decide_eq_true. congruence.
Qed.

(** ** Contexts *)

Inductive context :=
| NilContext
| Background
| Caller (id : nat)
| WithoutCancel (parent : context)
| WithTimeout (parent : context) (timeout : Z)
| CanceledContext (parent : context).

Definition ctx_nil (ctx : context) : bool :=
  match ctx with NilContext => true | _ => false end.

(** What the outside world decides: whether a context has ended when it is
    asked.  Asking may move the world on, so a context can end between any two
    steps of the code. *)
Class Env (W : Type) := {
  ctx_Err : context -> W -> option ctxError * W
}.

(** ** The state monad *)

Inductive outcome (A : Type) :=
| Done (a : A)
| Panicked
| OutOfFuel.
Arguments Done {A} a.
Arguments Panicked {A}.
Arguments OutOfFuel {A}.

Definition GoM (S A : Type) : Type := S -> outcome (A * S).

#[global] Instance GoM_ret S : MRet (GoM S) := fun A a s => Done (a, s).
#[global] Instance GoM_bind S : MBind (GoM S) := fun A B f m s =>
  match m s with
  | Done (a, s') => f a s'
  | Panicked => Panicked
  | OutOfFuel => OutOfFuel
  end.

Definition gets {S A} (f : S -> A) : GoM S A := fun s => Done (f s, s).
Definition modify {S} (f : S -> S) : GoM S unit := fun s => Done (tt, f s).
Definition panic {S A} : GoM S A := fun _ => Panicked.
Definition out_of_fuel {S A} : GoM S A := fun _ => OutOfFuel.

(** Pure code that can panic. *)
Definition lift {S A} (o : option A) : GoM S A := fun s =>
  match o with Some a => Done (a, s) | None => Panicked end.

(** Total-correctness weakest precondition: the method returns and [Q] holds
    of its results and the final state. *)
Definition wp {S A} (m : GoM S A) (Q : A -> S -> Prop) (s : S) : Prop :=
  match m s with
  | Done (a, s') => Q a s'
  | _ => False
  end.

Section WP.
Context {S : Type}.

Lemma wp_ret {A} (a : A) (Q : A -> S -> Prop) s : Q a s -> wp (mret a) Q s.
Proof. done. Qed.

Lemma wp_bind {A B} (m : GoM S A) (f : A -> GoM S B) Q s :
  wp m (fun a s' => wp (f a) Q s') s -> wp (mbind f m) Q s.
Proof. unfold wp, mbind, GoM_bind. by destruct (m s) as [[a s']| |]. Qed.

Lemma wp_mono {A} (m : GoM S A) (P Q : A -> S -> Prop) s :
  wp m P s -> (forall a s', P a s' -> Q a s') -> wp m Q s.
Proof. unfold wp. destruct (m s) as [[a s']| |]; auto. Qed.

Lemma wp_and {A} (m : GoM S A) (P Q : A -> S -> Prop) s :
  wp m P s -> wp m Q s -> wp m (fun a s' => P a s' /\ Q a s') s.
Proof. unfold wp. destruct (m s) as [[a s']| |]; auto. Qed.

Lemma wp_gets {A} (f : S -> A) Q s : Q (f s) s -> wp (gets f) Q s.
Proof. done. Qed.

Lemma wp_modify f (Q : unit -> S -> Prop) s : Q tt (f s) -> wp (modify f) Q s.
Proof. done. Qed.

Lemma wp_lift {A} (o : option A) (a : A) Q s :
  o = Some a -> Q a s -> wp (S := S) (lift o) Q s.
Proof. by intros ->. Qed.

Lemma wp_elim {A} (m : GoM S A) (Q : A -> S -> Prop) s a s' :
  wp m Q s -> m s = Done (a, s') -> Q a s'.
Proof. unfold wp. intros Hw E. by rewrite E in Hw. Qed.

Lemma wp_done {A} (m : GoM S A) Q s :
  wp m Q s <-> exists a s', m s = Done (a, s') /\ Q a s'.
Proof.
  unfold wp. destruct (m s) as [[a s']| |]; split; try done.
  - eauto.
  - intros (? & ? & [= <- <-] & ?). done.
  - intros (? & ? & ? & ?). done.
  - intros (? & ? & ? & ?). done.
Qed.
End WP.

(** Partial correctness: the method does not panic, and if it returns then [Q]
    holds.  Used for loops that poll until the outside world lets them end;
    [wp_of_wlp] adds that they do. *)
Definition wlp {S A} (m : GoM S A) (Q : A -> S -> Prop) (s : S) : Prop :=
  match m s with
  | Done (a, s') => Q a s'
  | Panicked => False
  | OutOfFuel => True
  end.

Section WLP.
Context {S : Type}.

Lemma wlp_ret {A} (a : A) (Q : A -> S -> Prop) s : Q a s -> wlp (mret a) Q s.
Proof. done. Qed.

Lemma wlp_bind {A B} (m : GoM S A) (f : A -> GoM S B) Q s :
  wlp m (fun a s' => wlp (f a) Q s') s -> wlp (mbind f m) Q s.
Proof. unfold wlp, mbind, GoM_bind. by destruct (m s) as [[a s']| |]. Qed.

Lemma wlp_mono {A} (m : GoM S A) (P Q : A -> S -> Prop) s :
  wlp m P s -> (forall a s', P a s' -> Q a s') -> wlp m Q s.
Proof. unfold wlp. destruct (m s) as [[a s']| |]; auto. Qed.

Lemma wlp_and {A} (m : GoM S A) (P Q : A -> S -> Prop) s :
  wlp m P s -> wlp m Q s -> wlp m (fun a s' => P a s' /\ Q a s') s.
Proof. unfold wlp. destruct (m s) as [[a s']| |]; auto. Qed.

Lemma wlp_gets {A} (f : S -> A) Q s : Q (f s) s -> wlp (gets f) Q s.
Proof. done. Qed.

Lemma wlp_modify f (Q : unit -> S -> Prop) s : Q tt (f s) -> wlp (modify f) Q s.
Proof. done. Qed.

Lemma wlp_elim {A} (m : GoM S A) (Q : A -> S -> Prop) s a s' :
  wlp m Q s -> m s = Done (a, s') -> Q a s'.
Proof. unfold wlp. intros Hw E. by rewrite E in Hw. Qed.

Lemma wp_of_wlp {A} (m : GoM S A) (P Q : A -> S -> Prop) s :
  wlp m Q s -> wp m P s -> wp m Q s.
Proof. unfold wlp, wp. by destruct (m s) as [[a s']| |]. Qed.
End WLP.

(** ** What holds if a method returns *)

Definition ends {S A} (m : GoM S A) (Q : A -> S -> Prop) (s : S) : Prop :=
  match m s with Done (a, s') => Q a s' | _ => True end.

Section Ends.
Context {S : Type}.

Lemma ends_ret {A} (a : A) (Q : A -> S -> Prop) s : Q a s -> ends (mret a) Q s.
Proof. done. Qed.

Lemma ends_bind {A B} (m : GoM S A) (f : A -> GoM S B) Q s : ends m (fun a s' => ends (f a) Q s') s -> ends (mbind f m) Q s.
Proof. unfold ends, mbind, GoM_bind. by destruct (m s) as [[a s']| |]. Qed.

Lemma ends_mono {A} (m : GoM S A) (P Q : A -> S -> Prop) s : ends m P s -> (forall a s', P a s' -> Q a s') -> ends m Q s.
Proof. unfold ends. destruct (m s) as [[a s']| |]; auto. Qed.

Lemma wp_ends {A} (m : GoM S A) (P Q : A -> S -> Prop) s : wp m P s -> ends m Q s -> wp m (fun a s' => P a s' /\ Q a s') s.
Proof. unfold wp, ends. by destruct (m s) as [[a s']| |]. Qed.

Lemma wlp_ends {A} (m : GoM S A) (P Q : A -> S -> Prop) s : wlp m P s -> ends m Q s -> wlp m (fun a s' => P a s' /\ Q a s') s.
Proof. unfold wlp, ends. by destruct (m s) as [[a s']| |]. Qed.
End Ends.


(** One step of a method body. *)
Ltac wp_step :=
  match goal with
  | |- wp (mret _) _ _ => apply wp_ret
  | |- wp (mbind _ _) _ _ => apply wp_bind
  | |- wp (gets _) _ _ => apply wp_gets
  | |- wp (modify _) _ _ => apply wp_modify
  | |- wp (if ?b then _ else _) _ _ => let E := fresh "E" in destruct b eqn:E
  | |- wp (match ?e with Some _ => _ | None => _ end) _ _ =>
      let E := fresh "E" in destruct e eqn:E
  end.

Ltac wlp_step :=
  match goal with
  | |- wlp (mret _) _ _ => apply wlp_ret
  | |- wlp (mbind _ _) _ _ => apply wlp_bind
  | |- wlp (gets _) _ _ => apply wlp_gets
  | |- wlp (modify _) _ _ => apply wlp_modify
  | |- wlp (if ?b then _ else _) _ _ => let E := fresh "E" in destruct b eqn:E
  | |- wlp (match ?e with Some _ => _ | None => _ end) _ _ =>
      let E := fresh "E" in destruct e eqn:E
  end.
