(* ===== verification/Bits.v ===== *)
(** * Packed bit buffers

    Wire buffers pack the earliest bit in bit zero of byte zero.  [gbit] is the
    bit a buffer holds at a position; [blit] is the copying loop that the jtag
    and swd packages write with their own accessors.  Each package's accessors
    are defined in its own file and related to [gbit] there. *)

From S2P Require Import Prelude.
Local Open Scope Z_scope.

Definition is_byte (b : Z) : Prop := 0 <= b < 256.
Abbreviation bytes := (Forall is_byte).

Definition gbit (buf : list Z) (i : Z) : bool :=
  Z.testbit (default 0 (buf !! Z.to_nat (i / 8))) (i mod 8).

(** [buf[i/8] |= v << (i%8)], for a [v] of one bit. *)
Definition or_bit (buf : list Z) (i v : Z) : option (list Z) :=
  b ← index buf (i / 8); store buf (i / 8) (Z.lor b (uint8 (Z.shiftl v (i mod 8)))).

(** Bytes needed for [n] bits. *)
Definition bytes_for (n : Z) : Z := (n + 7) / 8.

Lemma bytes_for_bound n : 0 <= n -> n <= 8 * bytes_for n < n + 8.
Proof. unfold bytes_for. intros. Z.to_euclidean_division_equations. lia. Qed.

Lemma bytes_for_nonneg n : 0 <= n -> 0 <= bytes_for n.
Proof. intros. pose proof (bytes_for_bound n). lia. Qed.

Lemma gbit_out buf i : 8 * len buf <= i -> gbit buf i = false.
Proof.
  unfold gbit, len. intros Hi. rewrite lookup_ge_None_2; [apply Z.testbit_0_l|].
  Z.to_euclidean_division_equations. lia.
Qed.

Lemma gbit_make_bytes n i : gbit (make_bytes n) i = false.
Proof.
  unfold gbit, make_bytes. destruct (replicate _ _ !! _) as [x|] eqn:E.
  - apply lookup_replicate in E as [-> _]. apply Z.testbit_0_l.
  - apply Z.testbit_0_l.
Qed.

Lemma index_bit buf i :
  0 <= i < 8 * len buf -> index buf (i / 8) = Some (default 0 (buf !! Z.to_nat (i / 8))).
Proof.
  unfold len. intros Hi. assert (0 <= i / 8 < Z.of_nat (length buf)) as Hb.
  { Z.to_euclidean_division_equations. lia. }
  rewrite index_lookup by lia.
  destruct (lookup_lt_is_Some_2 buf (Z.to_nat (i / 8))) as [x ->]; [lia|done].
Qed.

Lemma bytes_default buf i : bytes buf -> is_byte (default 0 (buf !! i)).
Proof.
  intros Hb. destruct (buf !! i) eqn:E; simpl; [|unfold is_byte; lia].
  eapply Forall_lookup_1 in Hb; done.
Qed.

Lemma bytes_make n : bytes (make_bytes n).
Proof. apply Forall_replicate. unfold is_byte. lia. Qed.

Lemma byte_bits_high b i : is_byte b -> 8 <= i -> Z.testbit b i = false.
Proof. intros Hb. apply testbit_high. exact Hb. Qed.

Lemma is_byte_lor a b : is_byte a -> is_byte b -> is_byte (Z.lor a b).
Proof.
  intros Ha Hb. unfold is_byte in *. split; [apply Z.lor_nonneg; lia|].
  change 256 with (2 ^ 8). apply bits_lt_pow2; [lia|apply Z.lor_nonneg; lia|].
  intros i Hi. rewrite Z.lor_spec, !byte_bits_high; done.
Qed.

Lemma is_byte_uint8 x : is_byte (uint8 x).
Proof. unfold is_byte, uint8. pose proof (Z.mod_pos_bound x (2 ^ 8)). lia. Qed.

(** A bit shifted into a byte. *)
Lemma shifted_bit (v : bool) k j :
  0 <= k < 8 -> 0 <= j -> Z.testbit (uint8 (Z.shiftl (Z.b2z v) k)) j = v && (j =? k).
Proof.
  intros Hk Hj. unfold uint8. destruct v; simpl Z.b2z.
  - rewrite Z.shiftl_1_l, Z.mod_small.
    + rewrite Z.pow2_bits_eqb by lia. apply Z.eqb_sym.
    + split; [apply Z.pow_nonneg; lia|apply Z.pow_lt_mono_r; lia].
  - rewrite Z.shiftl_0_l, Z.mod_0_l by done. apply Z.testbit_0_l.
Qed.

Lemma or_bit_spec buf i v :
  0 <= i < 8 * len buf -> bytes buf ->
  exists buf', or_bit buf i (Z.b2z v) = Some buf' /\ bytes buf' /\ len buf' = len buf /\
    forall j, 0 <= j -> gbit buf' j = gbit buf j || (v && (j =? i)).
Proof.
  intros Hi Hb. unfold or_bit. rewrite index_bit by done. cbn [mbind option_bind].
  assert (0 <= i / 8 < len buf) as Hd by (unfold len in *; Z.to_euclidean_division_equations; lia).
  rewrite store_in by done. eexists. split; [done|]. split_and!.
  - apply Forall_insert; [done|]. apply is_byte_lor; [by apply bytes_default|apply is_byte_uint8].
  - apply len_insert.
  - intros j Hj. unfold gbit. destruct (decide (j / 8 = i / 8)) as [E|E].
    + rewrite E, list_lookup_insert_eq by (unfold len in Hd; lia). simpl.
      rewrite Z.lor_spec, shifted_bit.
      2,3: Z.to_euclidean_division_equations; lia.
      do 2 f_equal. destruct (Z.eqb_spec (j mod 8) (i mod 8)), (Z.eqb_spec j i); try done;
        Z.to_euclidean_division_equations; lia.
    + rewrite list_lookup_insert_ne by (Z.to_euclidean_division_equations; lia).
      destruct (Z.eqb_spec j i) as [->|]; [done|]. by rewrite andb_false_r, orb_false_r.
Qed.

Lemma or_bit_0 buf i : 0 <= i < 8 * len buf -> or_bit buf i 0 = Some buf.
Proof.
  intros Hi. unfold or_bit. rewrite index_bit by done. cbn [mbind option_bind].
  assert (0 <= i / 8 < len buf) as Hd by (unfold len in *; Z.to_euclidean_division_equations; lia).
  rewrite store_in by done. rewrite Z.shiftl_0_l. change (uint8 0) with 0. rewrite Z.lor_0_r.
  f_equal. apply list_insert_id. pose proof (index_bit buf i Hi) as E.
  rewrite index_lookup in E by lia. exact E.
Qed.

(** [dst |= bits of src], the loop
    [for i := range n { put(dst, i + to, get(src, i + from)) }]. *)
Lemma blit_spec (body : Z -> list Z -> option (list Z)) (f : Z -> bool) (to n : Z) dst :
  0 <= n -> 0 <= to -> to + n <= 8 * len dst -> bytes dst ->
  (forall i d, 0 <= i < n -> len d = len dst -> body i d = or_bit d (to + i) (Z.b2z (f i))) ->
  exists dst',
    for_range n body dst = Some dst' /\ bytes dst' /\ len dst' = len dst /\
    forall j, 0 <= j ->
      gbit dst' j = gbit dst j || ((to <=? j) && (j <? to + n) && f (j - to)).
Proof.
  intros Hn Hto Hlen Hb Hbody.
  destruct (for_range_inv (fun i d => bytes d /\ len d = len dst /\
      forall j, 0 <= j -> gbit d j = gbit dst j || ((to <=? j) && (j <? to + i) && f (j - to)))
    body n dst) as (d & Hd & H1 & H2 & H3).
  - done.
  - intros i d Hi (Hd & Hl & Hg). rewrite Hbody by done.
    destruct (or_bit_spec d (to + i) (f i)) as (d' & -> & Hb' & Hl' & Hg'); [lia|done|].
    exists d'. split_and!; [done|done|lia|]. intros j Hj. rewrite Hg', Hg by done.
    destruct (Z.eqb_spec j (to + i)) as [->|].
    + replace (to + i - to) with i by lia. destruct (f i); rewrite ?andb_false_r, ?orb_false_r; [|done].
      destruct (Z.leb_spec to (to + i)), (Z.ltb_spec (to + i) (to + (i + 1))); try lia; destruct (gbit dst (to + i)); done.
    + rewrite andb_false_r, orb_false_r.
      destruct (Z.leb_spec to j), (Z.ltb_spec j (to + i)), (Z.ltb_spec j (to + (i + 1))); try lia; done.
  - split_and!; [done|done|]. intros j Hj.
    destruct (Z.leb_spec to j), (Z.ltb_spec j (to + 0)); try lia; simpl; by rewrite orb_false_r.
  - eauto.
Qed.

(** Buffers of equal length with equal bits are equal. *)
Lemma buf_ext a b :
  bytes a -> bytes b -> len a = len b ->
  (forall i, 0 <= i < 8 * len a -> gbit a i = gbit b i) -> a = b.
Proof.
  intros Ha Hb Hl Hg. apply list_eq_same_length with (length a).
  { unfold len in Hl. lia. } { done. }
  intros i x y Hi Hx Hy. apply Z.bits_inj'. intros n Hn.
  assert (is_byte x) by (by eapply Forall_lookup_1 in Ha).
  assert (is_byte y) by (by eapply Forall_lookup_1 in Hb).
  destruct (Z.lt_ge_cases n 8).
  - specialize (Hg (8 * Z.of_nat i + n)). unfold gbit in Hg.
    assert ((8 * Z.of_nat i + n) / 8 = Z.of_nat i) as E1 by (Z.to_euclidean_division_equations; lia).
    assert ((8 * Z.of_nat i + n) mod 8 = n) as E2 by (Z.to_euclidean_division_equations; lia).
    rewrite E1, E2, Nat2Z.id, Hx, Hy in Hg. apply Hg. unfold len. lia.
  - by rewrite !byte_bits_high.
Qed.

(** ** Numbers assembled from bits *)

(** Little-endian value of the first [n] bits of [f]. *)
Fixpoint bits_value (n : nat) (f : Z -> bool) : Z :=
  match n with
  | O => 0
  | S k => Z.lor (bits_value k f) (Z.shiftl (Z.b2z (f (Z.of_nat k))) (Z.of_nat k))
  end.

Lemma bits_value_testbit n f j :
  0 <= j -> Z.testbit (bits_value n f) j = (j <? Z.of_nat n) && f j.
Proof.
  intros Hj. induction n as [|n IH]; cbn [bits_value].
  - rewrite Z.testbit_0_l. destruct (Z.ltb_spec j (Z.of_nat 0)); [lia|done].
  - rewrite Z.lor_spec, IH, Z.shiftl_spec by done.
    destruct (Z.lt_trichotomy j (Z.of_nat n)) as [Hlt|[->|Hgt]].
    + rewrite (Z.testbit_neg_r _ (j - _)) by lia.
      destruct (Z.ltb_spec j (Z.of_nat n)), (Z.ltb_spec j (Z.of_nat (S n))); try lia.
      by rewrite orb_false_r.
    + rewrite Z.sub_diag. destruct (Z.ltb_spec (Z.of_nat n) (Z.of_nat n)), (Z.ltb_spec (Z.of_nat n) (Z.of_nat (S n))); try lia.
      simpl. by destruct (f (Z.of_nat n)).
    + destruct (Z.ltb_spec j (Z.of_nat n)), (Z.ltb_spec j (Z.of_nat (S n))); try lia.
      simpl. replace (j - Z.of_nat n) with (Z.succ (j - Z.of_nat n - 1)) by lia.
      destruct (f (Z.of_nat n)); simpl Z.b2z; [|apply Z.testbit_0_l].
      rewrite (testbit_high 1 1); [done|lia|lia].
Qed.

Lemma bits_value_nonneg n f : 0 <= bits_value n f.
Proof.
  induction n as [|n IH]; simpl; [done|]. apply Z.lor_nonneg. split; [done|].
  apply Z.shiftl_nonneg. destruct (f _); simpl; lia.
Qed.

Lemma bits_value_range n f : 0 <= bits_value n f < 2 ^ Z.of_nat n.
Proof.
  split; [apply bits_value_nonneg|]. apply bits_lt_pow2; [lia|apply bits_value_nonneg|].
  intros i Hi. rewrite bits_value_testbit by lia.
  destruct (Z.ltb_spec i (Z.of_nat n)); [lia|done].
Qed.

Lemma bits_value_of v n f :
  0 <= v < 2 ^ Z.of_nat n -> (forall i, 0 <= i < Z.of_nat n -> f i = Z.testbit v i) ->
  bits_value n f = v.
Proof.
  intros Hv Hf. apply Z.bits_inj'. intros j Hj. rewrite bits_value_testbit by done.
  destruct (Z.ltb_spec j (Z.of_nat n)); simpl; [by rewrite Hf|].
  symmetry. by eapply testbit_high.
Qed.

Lemma bits_value_ext n f g :
  (forall i, 0 <= i < Z.of_nat n -> f i = g i) -> bits_value n f = bits_value n g.
Proof.
  intros Hfg. apply Z.bits_inj'. intros j Hj. rewrite !bits_value_testbit by done.
  destruct (Z.ltb_spec j (Z.of_nat n)); simpl; [apply Hfg; lia|done].
Qed.

(** The loop [for i := range n { value |= bit(i) << i }]. *)
Lemma collect_spec (body : Z -> Z -> option Z) (f : Z -> bool) n :
  0 <= n ->
  (forall i v, 0 <= i < n -> body i v = Some (Z.lor v (Z.shiftl (Z.b2z (f i)) i))) ->
  for_range n body 0 = Some (bits_value (Z.to_nat n) f).
Proof.
  intros Hn Hbody.
  destruct (for_range_inv (fun i v => v = bits_value (Z.to_nat i) f) body n 0) as (v & Hv & ->); try done.
  intros i v Hi ->. rewrite Hbody by done. eexists. split; [done|].
  replace (Z.to_nat (i + 1)) with (S (Z.to_nat i)) by lia. cbn [bits_value].
  by rewrite Z2Nat.id by lia.
Qed.

(** ** Streams of bit pairs *)

(** The pairs of bits two buffers hold from position [start], [n] clocks: (TMS, TDI)
    for a JTAG wire, (driven, value) for an SWD wire. *)
Definition stream (tms tdi : list Z) (start n : Z) : list (bool * bool) :=
  (fun i => (gbit tms (start + i), gbit tdi (start + i))) <$> seqZ 0 n.

Lemma length_stream tms tdi start n : 0 <= n -> length (stream tms tdi start n) = Z.to_nat n.
Proof. intros. unfold stream. by rewrite length_fmap, length_seqZ. Qed.

Lemma stream_app tms tdi start n m :
  0 <= n -> 0 <= m ->
  stream tms tdi start (n + m) = stream tms tdi start n ++ stream tms tdi (start + n) m.
Proof.
  intros Hn Hm. unfold stream. rewrite seqZ_app by lia. rewrite fmap_app. f_equal.
  rewrite Z.add_0_l. rewrite <- (Z.add_0_r n) at 1. rewrite <- (fmap_add_seqZ n 0 m), <- list_fmap_compose.
  apply list_fmap_ext. intros ? i _. simpl. by rewrite Z.add_assoc.
Qed.

Lemma stream_ext tms tdi ms di start n :
  (forall i, 0 <= i < n -> gbit ms i = gbit tms (start + i)) ->
  (forall i, 0 <= i < n -> gbit di i = gbit tdi (start + i)) ->
  stream ms di 0 n = stream tms tdi start n.
Proof.
  intros Hm Hd. apply list_fmap_ext. intros k i Hi%lookup_seqZ. simpl.
  rewrite Hm, Hd by lia. done.
Qed.

(** ** Little-endian words (encoding/binary) *)

Fixpoint le_value (l : list Z) : Z :=
  match l with
  | [] => 0
  | b :: l => b + 256 * le_value l
  end.

Fixpoint le_bytes (n : nat) (v : Z) : list Z :=
  match n with
  | O => []
  | S n => v mod 256 :: le_bytes n (v / 256)
  end.

Lemma le_value_range l : bytes l -> 0 <= le_value l < 2 ^ (8 * len l).
Proof.
  induction l as [|b l IH]; simpl; [unfold len; simpl; lia|]. intros [Hb Hl]%Forall_cons. specialize (IH Hl). unfold is_byte in Hb.
  replace (8 * len (b :: l)) with (8 + 8 * len l) by (unfold len; simpl length; lia).
  rewrite Z.pow_add_r by (unfold len; lia). change (2 ^ 8) with 256. lia.
Qed.

Lemma le_bytes_value l : bytes l -> le_bytes (length l) (le_value l) = l.
Proof.
  induction l as [|b l IH]; simpl; [done|]. intros [Hb Hl]%Forall_cons. unfold is_byte in Hb.
  replace ((b + 256 * le_value l) mod 256) with b by (Z.to_euclidean_division_equations; lia).
  replace ((b + 256 * le_value l) / 256) with (le_value l) by (Z.to_euclidean_division_equations; lia).
  by rewrite IH.
Qed.
