(* ===== verification/JtagTap.v ===== *)
(** * TAP controller states and paths (jtag/state.go)

    The IEEE 1149.1 state machine, the breadth-first search for a TMS path and
    its correctness: every path reaches its destination, keeps out of
    Test-Logic-Reset unless that is the destination, and is as short as any
    path with those properties. *)

From S2P Require Import Prelude.

Inductive State :=
| Unknown | Reset | Idle
| SelectDR | CaptureDR | ShiftDR | Exit1DR | PauseDR | Exit2DR | UpdateDR
| SelectIR | CaptureIR | ShiftIR | Exit1IR | PauseIR | Exit2IR | UpdateIR.

#[global] Instance State_eq_dec : EqDecision State.
Proof. solve_decision. Defined.

(** [transitions[s][tms]]; the row of [Unknown] is the zero value. *)
Definition transitions (s : State) (tms : bool) : State :=
  match s, tms with
  | Unknown, _ => Unknown
  | Reset, false => Idle | Reset, true => Reset
  | Idle, false => Idle | Idle, true => SelectDR
  | SelectDR, false => CaptureDR | SelectDR, true => SelectIR
  | CaptureDR, false => ShiftDR | CaptureDR, true => Exit1DR
  | ShiftDR, false => ShiftDR | ShiftDR, true => Exit1DR
  | Exit1DR, false => PauseDR | Exit1DR, true => UpdateDR
  | PauseDR, false => PauseDR | PauseDR, true => Exit2DR
  | Exit2DR, false => ShiftDR | Exit2DR, true => UpdateDR
  | UpdateDR, false => Idle | UpdateDR, true => SelectDR
  | SelectIR, false => CaptureIR | SelectIR, true => Reset
  | CaptureIR, false => ShiftIR | CaptureIR, true => Exit1IR
  | ShiftIR, false => ShiftIR | ShiftIR, true => Exit1IR
  | Exit1IR, false => PauseIR | Exit1IR, true => UpdateIR
  | PauseIR, false => PauseIR | PauseIR, true => Exit2IR
  | Exit2IR, false => ShiftIR | Exit2IR, true => UpdateIR
  | UpdateIR, false => Idle | UpdateIR, true => SelectDR
  end.

Record route := mkRoute { r_state : State; r_bits : list bool }.

(** The body of [for bit, next := range transitions[r.state]]. *)
Definition visit (to : State) (r : route) (bit : bool)
    (acc : list route * list State) : list route * list State :=
  let '(queue, seen) := acc in
  let next := transitions (r_state r) bit in
  if bool_decide (next = Reset) && negb (bool_decide (to = Reset)) then (queue, seen)
  else if bool_decide (next ∈ seen) then (queue, seen)
  else (queue ++ [mkRoute next (r_bits r ++ [bit])], next :: seen).

(** The queue loop; [None] is fuel exhaustion.  A nil path and an empty path are
    the same Go value. *)
Fixpoint path_loop (fuel : nat) (to : State) (queue : list route) (seen : list State)
    : option (list bool) :=
  match fuel with
  | O => None
  | S fuel =>
      match queue with
      | [] => Some []
      | r :: queue =>
          if bool_decide (r_state r = to) then Some (r_bits r)
          else
            let '(queue, seen) := visit to r true (visit to r false (queue, seen)) in
            path_loop fuel to queue seen
      end
  end.

(** Each of the 17 states enters the queue at most once. *)
Definition path (from to : State) : option (list bool) :=
  path_loop 18 to [mkRoute from []] [from].

(** The state reached by clocking TMS bits. *)
Definition walk (s : State) (tms : list bool) : State := foldl transitions s tms.

(** The states entered on the way, the last one included. *)
Fixpoint entered (s : State) (tms : list bool) : list State :=
  match tms with
  | [] => []
  | b :: tms => transitions s b :: entered (transitions s b) tms
  end.

Definition all_states : list State :=
  [Reset; Idle; SelectDR; CaptureDR; ShiftDR; Exit1DR; PauseDR; Exit2DR; UpdateDR;
   SelectIR; CaptureIR; ShiftIR; Exit1IR; PauseIR; Exit2IR; UpdateIR].

(** A TMS stream that reaches [to] without entering Reset on the way. *)
Definition acceptable (from to : State) (tms : list bool) : bool :=
  bool_decide (walk from tms = to) &&
  (bool_decide (to = Reset) || bool_decide (Reset ∉ entered from tms)).

(** All TMS streams of length [n]. *)
Fixpoint streams (n : nat) : list (list bool) :=
  match n with
  | O => [[]]
  | S n => map (cons false) (streams n) ++ map (cons true) (streams n)
  end.

Lemma streams_complete l : l ∈ streams (length l).
Proof.
  induction l as [|b l IH]; simpl; [by left|].
  rewrite elem_of_app, !list_elem_of_fmap. destruct b; [right|left]; eauto.
Qed.

Lemma all_states_complete s : s <> Unknown -> s ∈ all_states.
Proof. intros Hs. apply list_elem_of_In. destruct s; try done; simpl; tauto. Qed.

(** Executable statement of the path contract for one pair of states. *)
Definition path_ok (from to : State) : bool :=
  match path from to with
  | None => false
  | Some bits =>
      acceptable from to bits &&
      forallb (fun n => forallb (fun l => negb (acceptable from to l)) (streams n))
        (seq 0 (length bits))
  end.

Lemma path_ok_all :
  forallb (fun from => forallb (path_ok from) all_states) all_states = true.
Proof. vm_compute. reflexivity. Qed.

Lemma path_ok_each from to : from <> Unknown -> to <> Unknown -> path_ok from to = true.
Proof.
  intros Hf Ht. pose proof path_ok_all as H.
  rewrite forallb_forall in H. specialize (H from).
  rewrite forallb_forall in H. apply H; apply list_elem_of_In; by apply all_states_complete.
Qed.

(** A found path does reach its destination. *)
Lemma path_walk from to :
  from <> Unknown -> to <> Unknown ->
  exists bits, path from to = Some bits /\ walk from bits = to /\ (length bits <= 8)%nat.
Proof.
  intros Hf Ht. destruct from; try done; destruct to; try done;
    (eexists; split; [vm_compute; reflexivity|split; [reflexivity|simpl; lia]]).
Qed.

Lemma transitions_known s b : s <> Unknown -> transitions s b <> Unknown.
Proof. destruct s, b; done. Qed.

Lemma walk_known s l : s <> Unknown -> walk s l <> Unknown.
Proof. revert s. induction l as [|b l IH]; intros s Hs; simpl; [done|]. by apply IH, transitions_known. Qed.

Lemma walk_unknown l : walk Unknown l = Unknown.
Proof. induction l; simpl; auto. Qed.

Lemma walk_app s l k : walk s (l ++ k) = walk (walk s l) k.
Proof. unfold walk. apply foldl_app. Qed.

(** Five TMS-high clocks reset the controller from anywhere. *)
Lemma reset_from_anywhere s : s <> Unknown -> walk s (replicate 5 true) = Reset.
Proof. by destruct s. Qed.
