(* ===== verification/JtagConnFacts.v ===== *)
(** * What the JTAG connection's operations do

    [clock] is related to an abstract bit stream: whatever relation [R] a wire's
    successful calls satisfy for one chunk, [clock] satisfies for the whole
    stream, however the wire limits its calls.  The rest of the file reads the
    operations of the connection off that relation. *)

From S2P Require Import Prelude Go Bits JtagTap JtagConn.
Local Open Scope Z_scope.

(** ** Accessors *)

Lemma get_spec data i :
  0 <= i < 8 * len data -> get data i = Some (Z.b2z (gbit data i)).
Proof.
  intros Hi. unfold get. rewrite index_bit by done. cbn [mbind option_bind].
  rewrite land_1_testbit; [done|]. Z.to_euclidean_division_equations. lia.
Qed.

Lemma put_spec buf i v :
  0 <= i < 8 * len buf -> bytes buf ->
  exists buf', put buf i (Z.b2z v) = Some buf' /\ bytes buf' /\ len buf' = len buf /\
    forall j, 0 <= j -> gbit buf' j = gbit buf j || (v && (j =? i)).
Proof. exact (or_bit_spec buf i v). Qed.

Lemma b2z_neqb0 v : negb (Z.b2z v =? 0) = v.
Proof. by destruct v. Qed.

Lemma word_spec data offset :
  0 <= offset -> offset + 32 <= 8 * len data ->
  word data offset = Some (bits_value 32 (fun i => gbit data (offset + i))).
Proof.
  intros Ho Hl. apply (collect_spec _ (fun i => gbit data (offset + i)) 32); [done|].
  intros i v Hi. rewrite get_spec by lia. done.
Qed.

Lemma bytes_ones n : bytes (ones n).
Proof. apply Forall_replicate. unfold is_byte. lia. Qed.

Lemma len_ones n : 0 <= n -> len (ones n) = bytes_for n.
Proof. intros. unfold len, ones. rewrite length_replicate. pose proof (bytes_for_nonneg n). unfold bytes_for in *. lia. Qed.

Lemma gbit_ones n i : 0 <= i < 8 * bytes_for n -> gbit (ones n) i = true.
Proof.
  intros Hi. unfold gbit, ones. rewrite lookup_replicate_2.
  - simpl. change 255 with (Z.ones 8). apply Z.ones_spec_low. Z.to_euclidean_division_equations. lia.
  - unfold bytes_for in Hi. Z.to_euclidean_division_equations. lia.
Qed.

(** ** Chunks *)

Lemma chunk_spec tms tdi start n :
  0 <= n -> 0 <= start -> start + n <= 8 * len tms -> start + n <= 8 * len tdi ->
  exists ms di, chunk tms tdi start n = Some (ms, di) /\
    bytes ms /\ bytes di /\ len ms = bytes_for n /\ len di = bytes_for n /\
    (forall i, 0 <= i < n -> gbit ms i = gbit tms (start + i)) /\
    (forall i, 0 <= i < n -> gbit di i = gbit tdi (start + i)).
Proof.
  intros Hn Hs Hm Hd. unfold chunk. set (z := make_bytes _).
  assert (len z = bytes_for n) as Hz by (by apply len_make_bytes, bytes_for_nonneg).
  pose proof (bytes_for_bound n Hn) as Hbf.
  destruct (for_range_inv (fun k p => bytes p.1 /\ bytes p.2 /\ len p.1 = bytes_for n /\ len p.2 = bytes_for n /\
      (forall i, 0 <= i -> gbit p.1 i = (i <? k) && gbit tms (start + i)) /\
      (forall i, 0 <= i -> gbit p.2 i = (i <? k) && gbit tdi (start + i)))
    (fun i '(ms, di) =>
      m ← get tms (start + i); ms ← put ms i m;
      d ← get tdi (start + i); di ← put di i d; Some (ms, di)) n (z, z))
    as ([ms di] & E & H1 & H2 & H3 & H4 & H5 & H6); [done| | |].
  - intros k [ms di] Hk (H1 & H2 & H3 & H4 & H5 & H6). simpl in *.
    rewrite !get_spec by lia. cbn [mbind option_bind].
    destruct (put_spec ms k (gbit tms (start + k))) as (ms' & -> & ? & ? & G1); [lia|done|].
    cbn [mbind option_bind].
    destruct (put_spec di k (gbit tdi (start + k))) as (di' & -> & ? & ? & G2); [lia|done|].
    exists (ms', di'). split_and!; simpl; try done; try lia.
    + intros i Hi. rewrite G1, H5 by done. zcmp.
    + intros i Hi. rewrite G2, H6 by done. zcmp.
  - split_and!; simpl; try done; try apply bytes_make; intros i Hi; unfold z; rewrite gbit_make_bytes; zcmp.
  - simpl in *. exists ms, di. split_and!; try done.
    + intros i Hi. rewrite H5 by lia. zcmp.
    + intros i Hi. rewrite H6 by lia. zcmp.
Qed.

Lemma absorb_spec ms do_ start n output st :
  0 <= n -> 0 <= start -> n <= 8 * len ms -> n <= 8 * len do_ ->
  start + n <= 8 * len output -> bytes output ->
  exists output', absorb ms do_ start n output st =
      Some (output', walk st ((gbit ms) <$> seqZ 0 n)) /\
    bytes output' /\ len output' = len output /\
    forall j, 0 <= j -> gbit output' j =
      gbit output j || ((start <=? j) && (j <? start + n) && gbit do_ (j - start)).
Proof.
  intros Hn Hs Hm Hd Ho Hb. unfold absorb.
  match goal with |- context [for_range n ?f] => set (body := f) end.
  destruct (for_range_inv (fun k p => p.2 = walk st (gbit ms <$> seqZ 0 k) /\ bytes p.1 /\ len p.1 = len output /\
      forall j, 0 <= j -> gbit p.1 j = gbit output j || ((start <=? j) && (j <? start + k) && gbit do_ (j - start)))
    body n (output, st)) as ([o' st'] & E & H1 & H2 & H3 & H4); [done| | |].
  - intros k [o s] Hk (Hst & H2 & H3 & H4). unfold body. simpl in *. subst s.
    rewrite !get_spec by lia. cbn [mbind option_bind].
    destruct (put_spec o (start + k) (gbit do_ k)) as (o' & -> & ? & ? & G); [lia|done|].
    cbn [mbind option_bind]. eexists. split; [done|]. simpl. split_and!; [|done|lia|].
    + rewrite seqZ_app, fmap_app, walk_app by lia. simpl.
      case_bool_decide as Eu.
      * by rewrite Eu.
      * by rewrite b2z_neqb0.
    + intros j Hj. rewrite G, H4 by done.
      destruct (Z.eqb_spec j (start + k)) as [->|Hne].
      * replace (start + k - start) with k by lia. zcmp.
      * zcmp.
  - simpl. split_and!; [done|done|done|]. intros j Hj. zcmp.
  - simpl in *. subst. eauto.
Qed.

(** ** Clocking a stream *)

Section Clock.
Context {W : Type} `{Env W} `{Wire W}.

(** [R p w outs w']: clocking the pairs [p] takes the world [w] to [w'] and
    samples [outs].  The laws say what one successful wire call means. *)
Record StreamLaws (R : list (bool * bool) -> W -> list bool -> W -> Prop) : Prop := {
  law_nil w : R [] w [] w;
  law_app p q w w1 w2 o o' : R p w o w1 -> R q w1 o' w2 -> R (p ++ q) w (o ++ o') w2;
  law_ctx ctx p w o w' : R p (snd (ctx_Err ctx w)) o w' -> R p w o w';
  law_io ctx ms di n w do_ w' :
    JTAGIO ctx ms di n w = ((do_, None), w') -> len do_ = len di ->
    0 <= n <= 8 * len ms -> 0 <= n <= 8 * len di ->
    R (stream ms di 0 n) w (gbit do_ <$> seqZ 0 n) w'
}.

Context (R : list (bool * bool) -> W -> list bool -> W -> Prop) (HR : StreamLaws R).

(** The connection's fixed configuration. *)
Definition same_config (s s' : St W) : Prop :=
  wire (conn s') = wire (conn s) /\ completionTimeout (conn s') = completionTimeout (conn s).

(** The state follows a prefix of the stream that the wire confirmed, or is
    unknown. *)
Definition follows (full : list (bool * bool)) (s s' : St W) : Prop :=
  state (conn s') = Unknown \/
  exists p outs, p `prefix_of` full /\ R p (world s) outs (world s') /\
    state (conn s') = walk (state (conn s)) p.*1.

Definition clock_post (full : list (bool * bool)) (bits : Z) (s : St W)
    (r : option (list Z) * err) (s' : St W) : Prop :=
  same_config s s' /\
  match snd r with
  | None => exists o, fst r = Some o /\ bytes o /\ len o = bytes_for bits /\
      R full (world s) (gbit o <$> seqZ 0 bits) (world s') /\
      state (conn s') = walk (state (conn s)) full.*1
  | Some _ => fst r = None /\ follows full s s'
  end.

Lemma wp_jtag_ctxErr ctx (Q : option ctxError -> St W -> Prop) s :
  ctx_nil ctx = false ->
  (forall e, Q e (mkSt (conn s) (snd (ctx_Err ctx (world s))))) -> wp (ctxErr ctx) Q s.
Proof.
  intros Hn HQ. unfold wp, ctxErr. rewrite Hn.
  destruct (ctx_Err ctx (world s)) as [e w] eqn:E. specialize (HQ e). exact HQ.
Qed.

Lemma law_ctx_post ctx p w outs w' :
  R p w outs w' -> R p w outs (snd (ctx_Err ctx w')).
Proof.
  intros HRp. rewrite <- (app_nil_r p), <- (app_nil_r outs).
  eapply (law_app R HR); [done|]. apply (law_ctx R HR ctx), (law_nil R HR).
Qed.

Lemma clock_loop_spec fuel ctx tms tdi bits limit start output outs0 s0 s :
  ctx_nil ctx = false -> 0 < limit ->
  0 <= start <= bits -> bits <= 8 * len tms -> bits <= 8 * len tdi ->
  bits - start <= Z.of_nat fuel ->
  bytes output -> len output = bytes_for bits ->
  (forall j, start <= j -> gbit output j = false) ->
  outs0 = gbit output <$> seqZ 0 start ->
  same_config s0 s ->
  R (stream tms tdi 0 start) (world s0) outs0 (world s) ->
  state (conn s) = walk (state (conn s0)) (stream tms tdi 0 start).*1 ->
  wp (clock_loop fuel ctx tms tdi bits limit start output)
    (clock_post (stream tms tdi 0 bits) bits s0) s.
Proof.
  intros Hctx Hlim. revert start output outs0 s.
  induction fuel as [|fuel IH];
    intros start output outs0 s Hst Ht Hd Hf Hb Hl Hz -> Hcfg HRs Hstate; cbn [clock_loop].
  all: destruct (Z.leb_spec bits start); [|].
  1,3: apply wp_ret; assert (start = bits) as -> by lia; split; [done|]; exists output; done.
  { lia. }
  apply wp_bind, wp_jtag_ctxErr; [done|]. intros e. destruct e as [e|].
  { apply wp_ret. split; [done|]. split; [done|]. right.
    exists (stream tms tdi 0 start), (gbit output <$> seqZ 0 start).
    split_and!; [|by apply law_ctx_post|done].
    replace bits with (start + (bits - start)) by lia. rewrite stream_app by lia. by apply prefix_app_r. }
  set (n := Z.min limit (bits - start)). assert (0 < n <= bits - start) by lia.
  destruct (chunk_spec tms tdi start n) as (ms & di & Ec & Hms & Hdi & Lm & Ld & Gm & Gd); [lia..|].
  pose proof (bytes_for_bound n ltac:(lia)) as Hbn. pose proof (bytes_for_bound bits ltac:(lia)) as Hbb.
  eapply wp_bind, wp_lift; [exact Ec|]. apply wp_bind. unfold wp at 1, wireIO. cbn [world conn].
  destruct (JTAGIO ctx ms di n _) as [[do_ ioe] w2] eqn:Eio.
  apply wp_bind, wp_modify. cbn [conn world].
  destruct ioe as [ioe|]; cbn [is_nil andb].
  { apply wp_bind, wp_modify, wp_ret. split; [done|]. split; [done|]. by left. }
  destruct (Z.eqb_spec (len do_) (len di)) as [Elen|]; cbn [negb].
  2: { apply wp_bind, wp_modify, wp_ret. split; [done|]. split; [done|]. by left. }
  apply wp_bind, wp_gets. cbn [conn].
  destruct (absorb_spec ms do_ start n output (state (conn s))) as (o' & Ea & Hb' & Hl' & G'); [lia..|done|].
  eapply wp_bind, wp_lift; [exact Ea|]. apply wp_bind, wp_modify. cbn [conn world set_state].
  assert (gbit o' <$> seqZ 0 (start + n) = (gbit output <$> seqZ 0 start) ++ (gbit do_ <$> seqZ 0 n)) as Eo.
  { rewrite seqZ_app, fmap_app by lia. f_equal.
    - apply list_fmap_ext. intros k j Hj%lookup_seqZ. rewrite G' by lia. zcmp.
    - rewrite Z.add_0_l, <- (Z.add_0_r start) at 1. rewrite <- (fmap_add_seqZ start 0 n), <- list_fmap_compose.
      apply list_fmap_ext. intros k j Hj%lookup_seqZ. simpl. rewrite G', Hz by lia.
      replace (start + j - start) with j by lia. zcmp. }
  eapply IH; [lia|done|done|lia|done|lia| |symmetry; exact Eo|done| |].
  - intros j Hj. rewrite G', Hz by lia. zcmp.
  - cbn [world]. rewrite stream_app by lia. eapply (law_app R HR); [by apply law_ctx_post|].
    rewrite Z.add_0_l, <- (stream_ext tms tdi ms di start n) by done.
    eapply (law_io R HR); [exact Eio|done|lia..].
  - change (walk (state (conn s)) (gbit ms <$> seqZ 0 n) =
            walk (state (conn s0)) (stream tms tdi 0 (start + n)).*1).
    rewrite Hstate, stream_app, fmap_app, walk_app, Z.add_0_l by lia. f_equal.
    rewrite <- (stream_ext tms tdi ms di start n) by done. unfold stream.
    by rewrite <- list_fmap_compose.
Qed.

(** ** Reachable connection states *)

(** The tracked state is unknown or was reached by a stream the wire clocked. *)
Definition reach (s s' : St W) : Prop :=
  same_config s s' /\
  (state (conn s') = Unknown \/
   exists p outs, R p (world s) outs (world s') /\ state (conn s') = walk (state (conn s)) p.*1).

Lemma reach_refl s : reach s s.
Proof. split; [done|]. right. exists [], []. split; [apply (law_nil R HR)|done]. Qed.

Lemma reach_trans s1 s2 s3 : reach s1 s2 -> reach s2 s3 -> reach s1 s3.
Proof.
  intros [[C1 C2] H12] [[C3 C4] H23]. split; [split; congruence|].
  destruct H23 as [?|(q & o2 & R2 & E2)]; [by left|].
  destruct H12 as [E1|(p & o1 & R1 & E1)].
  - left. by rewrite E2, E1, walk_unknown.
  - right. exists (p ++ q), (o1 ++ o2). split; [by eapply (law_app R HR)|].
    by rewrite E2, E1, fmap_app, walk_app.
Qed.

Lemma reach_ctx ctx s : reach s (mkSt (conn s) (snd (ctx_Err ctx (world s)))).
Proof.
  split; [done|]. right. exists [], []. split; [|done]. apply law_ctx_post, (law_nil R HR).
Qed.

Lemma clock_post_reach full bits s r s' : clock_post full bits s r s' -> reach s s'.
Proof.
  intros [Hc Hr]. split; [done|]. destruct (snd r).
  - destruct Hr as [_ [?|(p & o & _ & ? & ?)]]; [by left|right; eauto].
  - destruct Hr as (o & _ & _ & _ & ? & ?). right. eauto.
Qed.

(** Only contexts were asked: no traffic, the connection unchanged. *)
Definition quiet (s s' : St W) : Prop :=
  conn s' = conn s /\ R [] (world s) [] (world s').

Lemma quiet_refl s : quiet s s.
Proof. split; [done|apply (law_nil R HR)]. Qed.

Lemma quiet_trans s1 s2 s3 : quiet s1 s2 -> quiet s2 s3 -> quiet s1 s3.
Proof.
  intros [E1 R1] [E2 R2]. split; [congruence|]. exact (law_app R HR _ _ _ _ _ _ _ R1 R2).
Qed.

Lemma quiet_ctx ctx s : quiet s (mkSt (conn s) (snd (ctx_Err ctx (world s)))).
Proof. split; [done|]. apply law_ctx_post, (law_nil R HR). Qed.

Lemma quiet_reach s s' : quiet s s' -> reach s s'.
Proof.
  intros [E HRq]. split; [unfold same_config; by rewrite E|]. right. exists [], []. by rewrite E.
Qed.

Lemma quiet_pre p s s1 o w' : quiet s s1 -> R p (world s1) o w' -> R p (world s) o w'.
Proof. intros [_ HRq]. apply (law_app R HR [] p _ _ _ [] o HRq). Qed.

Lemma quiet_clock_post full bits s s1 r s' :
  quiet s s1 -> clock_post full bits s1 r s' -> clock_post full bits s r s'.
Proof.
  intros Hq [Hc Hr]. pose proof Hq as [E _]. split; [unfold same_config in *; by rewrite <- E|].
  destruct (snd r).
  - destruct Hr as [? Hf]. split; [done|]. destruct Hf as [?|(p & o & ? & ? & Es)]; [by left|].
    right. exists p, o. split_and!; [done|by eapply quiet_pre|by rewrite <- E].
  - destruct Hr as (o & ? & ? & ? & ? & Es). exists o. rewrite <- E.
    split_and!; try done. by eapply quiet_pre.
Qed.

Lemma wp_validate ctx (Q : Z * err -> St W -> Prop) s :
  (forall s', quiet s s' ->
     (forall n, 0 < n -> ctx_nil ctx = false -> wire (conn s) = true -> Q (n, None) s') /\
     (forall e, Q (0, Some e) s')) ->
  wp (validate ctx) Q s.
Proof.
  intros HQ. unfold validate. destruct (ctx_nil ctx) eqn:Hn.
  { apply wp_ret. by apply (HQ s), quiet_refl. }
  apply wp_bind, wp_jtag_ctxErr; [done|]. intros e.
  specialize (HQ _ (quiet_ctx ctx s)) as [Hok Herr].
  destruct e; [by apply wp_ret|]. apply wp_bind, wp_gets. cbn [conn].
  destruct (wire (conn s)) eqn:Hw; cbn [negb]; [|by apply wp_ret].
  apply wp_bind, wp_gets. destruct (_ <=? 0); [by apply wp_ret|].
  destruct MaxTransferBits as [limit|]; [|by apply wp_ret, Hok].
  apply wp_bind, wp_gets.
  destruct (Z.leb_spec (limit (world (mkSt (conn s) (snd (ctx_Err ctx (world s)))))) 0);
    [by apply wp_ret|by apply wp_ret, Hok].
Qed.

Lemma clock_spec ctx tms tdi bits s :
  0 <= bits -> bits <= 8 * len tms -> bits <= 8 * len tdi ->
  wp (clock ctx tms tdi bits) (clock_post (stream tms tdi 0 bits) bits s) s.
Proof.
  intros Hb Ht Hd. unfold clock. apply wp_bind, wp_validate. intros s1 Hq. split.
  - intros n Hn Hctx _. eapply wp_mono.
    + apply clock_loop_spec with (outs0 := []) (s0 := s1); try done; try lia.
      * apply bytes_make.
      * by apply len_make_bytes, bytes_for_nonneg.
      * intros. apply gbit_make_bytes.
      * apply (law_nil R HR).
    + intros r s' Hp. by eapply quiet_clock_post.
  - intros e. apply wp_ret. eapply quiet_clock_post; [done|]. split; [done|]. split; [done|].
    right. exists [], []. split_and!; [apply prefix_nil|apply (law_nil R HR)|done].
Qed.

(** ** Moving *)

Lemma tms_of_spec bits :
  exists tms, tms_of bits = Some tms /\ len tms = bytes_for (len bits) /\
    (stream tms (make_bytes (len tms)) 0 (len bits)).*1 = bits.
Proof.
  unfold tms_of. pose proof (len_nonneg bits) as Hn. pose proof (bytes_for_bound _ Hn) as Hbf.
  assert (len (make_bytes ((len bits + 7) / 8)) = bytes_for (len bits)) as Hmk
    by (by apply len_make_bytes, bytes_for_nonneg).
  destruct (blit_spec (fun i tms => b ← index bits i; if b : bool then put tms i 1 else Some tms)
    (fun i => default false (bits !! Z.to_nat i)) 0 (len bits) (make_bytes ((len bits + 7) / 8)))
    as (tms & E & Hb & Hl & G); [done|done|lia|apply bytes_make| |].
  { intros i d Hi Hd. rewrite index_lookup by lia.
    destruct (lookup_lt_is_Some_2 bits (Z.to_nat i)) as [b ->]; [unfold len in Hi; lia|].
    cbn [mbind option_bind default]. destruct b; [done|]. symmetry. apply or_bit_0. lia. }
  exists tms. split_and!; [exact E|lia|]. apply list_eq. intros k.
  unfold stream. rewrite <- list_fmap_compose, list_lookup_fmap.
  destruct (decide (k < length bits)%nat) as [Hk|Hk].
  - rewrite lookup_seqZ_lt by (unfold len; lia). simpl.
    rewrite G, gbit_make_bytes by lia.
    destruct (lookup_lt_is_Some_2 bits k Hk) as [b Eb].
    replace (0 + (0 + Z.of_nat k)) with (Z.of_nat k) by lia.
    replace (Z.to_nat (Z.of_nat k - 0)) with k by lia. rewrite Eb. simpl.
    f_equal. unfold len. zcmp.
  - rewrite !lookup_ge_None_2; [done|lia|rewrite length_seqZ; unfold len; lia].
Qed.

(** A successful move clocks a stream that reaches the target. *)
Definition move_post (target : State) (s : St W) (e : err) (s' : St W) : Prop :=
  match e with
  | None => same_config s s' /\ state (conn s) <> Unknown /\ target <> Unknown /\
      exists p outs, R p (world s) outs (world s') /\
        path (state (conn s)) target = Some p.*1 /\ Forall (fun b => b = false) p.*2 /\
        state (conn s') = target /\ walk (state (conn s)) p.*1 = target
  | Some _ => reach s s'
  end.

Lemma move_post_reach target s e s' : move_post target s e s' -> reach s s'.
Proof.
  destruct e; simpl; [done|]. intros (Hc & _ & _ & p & o & HRp & _ & _ & E1 & E2).
  split; [done|]. right. exists p, o. split; [done|congruence].
Qed.

Lemma move_spec ctx target s : wp (Move ctx target) (move_post target s) s.
Proof.
  unfold Move. apply wp_bind, wp_validate. intros s1 Hq. split.
  2: { intros e. apply wp_ret. by apply quiet_reach. }
  intros _ _ _ _. case_bool_decide as Et.
  { apply wp_ret. by apply quiet_reach. }
  apply wp_bind, wp_gets. case_bool_decide as Es.
  { apply wp_ret. by apply quiet_reach. }
  destruct (path_walk (state (conn s1)) target Es Et) as (bits & Hp & Hwalk & _). rewrite Hp.
  destruct (tms_of_spec bits) as (tms & Etms & Hl & Hs).
  pose proof (bytes_for_bound (len bits) (len_nonneg bits)) as Hbf.
  eapply wp_bind, wp_lift; [exact Etms|]. apply wp_bind. eapply wp_mono.
  { apply clock_spec; [apply len_nonneg|lia|]. rewrite len_make_bytes by apply len_nonneg. lia. }
  intros [out e] s' Hpost. apply wp_ret. apply (quiet_clock_post _ _ s) in Hpost; [|done].
  destruct e as [e|]; [by eapply clock_post_reach|].
  destruct Hpost as [Hc (o & _ & _ & _ & HRp & Est)]. pose proof Hq as [Eq _].
  split_and!; [done|congruence|done|]. rewrite Eq in Hp, Hwalk.
  eexists _, _. split_and!; [exact HRp|congruence| |congruence|congruence].
  unfold stream. rewrite <- list_fmap_compose. apply Forall_fmap, Forall_true.
  intros i. simpl. apply gbit_make_bytes.
Qed.

Lemma reset_spec ctx s :
  wp (Reset_ ctx) (fun e s' => match e with
    | None => same_config s s' /\ state (conn s') = Reset /\
        exists outs, R (replicate 5 (true, false)) (world s) outs (world s')
    | Some _ => reach s s' end) s.
Proof.
  unfold Reset_. apply wp_bind, wp_validate. intros s1 Hq. split.
  2: { intros e. apply wp_ret. by apply quiet_reach. }
  intros _ _ _ _. apply wp_bind. eapply wp_mono; [apply clock_spec; unfold len; simpl; lia|].
  intros [out e] s' Hpost. apply (quiet_clock_post _ _ s) in Hpost; [|done].
  destruct e as [e|]; [apply wp_ret; by eapply clock_post_reach|].
  destruct Hpost as [Hc (o & _ & _ & _ & HRp & _)]. apply wp_bind, wp_modify, wp_ret.
  split_and!; [done|done|]. eexists. exact HRp.
Qed.

(** ** Scans *)

(** The shift phase: TMS is high on the last bit only. *)
Definition shift_phase (data : list Z) (bits : Z) : list (bool * bool) :=
  (fun i => (i =? bits - 1, gbit data i)) <$> seqZ 0 bits.

(** A completed scan entered [shift] through Idle, clocked the data once with
    TMS high on its last bit, returned to Idle, and captured exactly the TDO
    samples of the shift phase. *)
Definition scanned (data : list Z) (bits : Z) (shift : State) (s : St W) (o : list Z) (s' : St W) : Prop :=
  same_config s s' /\ bytes o /\ len o = bytes_for bits /\ state (conn s') = Idle /\
  exists pre post opre opost,
    walk (state (conn s)) pre.*1 = shift /\
    walk shift (shift_phase data bits ++ post).*1 = Idle /\
    R (pre ++ shift_phase data bits ++ post) (world s)
      (opre ++ (gbit o <$> seqZ 0 bits) ++ opost) (world s').

Lemma shift_tms_spec bits :
  0 < bits ->
  exists tms, put (make_bytes ((bits + 7) / 8)) (bits - 1) 1 = Some tms /\ len tms = bytes_for bits /\
    forall data, stream tms data 0 bits = shift_phase data bits.
Proof.
  intros Hb. pose proof (bytes_for_bound bits ltac:(lia)) as Hbf.
  assert (len (make_bytes ((bits + 7) / 8)) = bytes_for bits) as Hl by (apply len_make_bytes, bytes_for_nonneg; lia).
  destruct (put_spec (make_bytes ((bits + 7) / 8)) (bits - 1) true) as (tms & E & _ & Hl' & G); [lia|apply bytes_make|].
  exists tms. split_and!; [exact E|lia|]. intros data. apply list_fmap_ext.
  intros k i Hi%lookup_seqZ. simpl. rewrite G, gbit_make_bytes by lia. done.
Qed.

Lemma scan_body_spec ctx data bits shift s :
  0 < bits -> len data >= bytes_for bits -> shift = ShiftIR \/ shift = ShiftDR ->
  wp (scan_body ctx data bits shift) (fun r s' => match snd r with
      | None => exists o, fst r = Some o /\ scanned data bits shift s o s'
      | Some _ => fst r = None /\ reach s s' end) s.
Proof.
  intros Hb Hd Hsh. pose proof (bytes_for_bound bits ltac:(lia)) as Hbf. unfold scan_body.
  apply wp_bind. eapply wp_mono; [apply move_spec|]. intros e s1 H1.
  pose proof (move_post_reach _ _ _ _ H1) as R1. destruct e as [e|]; [by apply wp_ret|].
  apply wp_bind. eapply wp_mono; [apply move_spec|]. intros e s2 H2.
  pose proof (move_post_reach _ _ _ _ H2) as R2. pose proof (reach_trans _ _ _ R1 R2) as R12.
  destruct e as [e|]; [by apply wp_ret|].
  destruct (shift_tms_spec bits Hb) as (tms & Etms & Hl & Hs).
  eapply wp_bind, wp_lift; [exact Etms|]. apply wp_bind.
  eapply wp_mono; [apply (clock_spec ctx tms data bits); lia|]. rewrite Hs. intros [out e] s3 H3.
  pose proof (reach_trans _ _ _ R12 (clock_post_reach _ _ _ _ _ H3)) as R3.
  destruct e as [e|]; [by apply wp_ret|].
  apply wp_bind. eapply wp_mono; [apply move_spec|]. intros e s4 H4.
  pose proof (reach_trans _ _ _ R3 (move_post_reach _ _ _ _ H4)) as R4.
  destruct e as [e|]; [by apply wp_ret|]. apply wp_ret. simpl.
  destruct H1 as (_ & _ & _ & p1 & o1 & HR1 & _ & _ & E1 & W1).
  destruct H2 as (_ & _ & _ & p2 & o2 & HR2 & _ & _ & E2 & W2).
  destruct H3 as [_ (o & Eo & Hbo & Hlo & HR3 & E3)]. simpl in Eo.
  destruct H4 as (_ & _ & _ & p4 & o4 & HR4 & _ & _ & E4 & W4).
  exists o. split; [done|]. split_and!; [apply R4|done|done|done|].
  exists (p1 ++ p2), p4, (o1 ++ o2), o4. split_and!.
  - rewrite fmap_app, walk_app. congruence.
  - rewrite fmap_app, walk_app, <- E2, <- E3. exact W4.
  - rewrite <- !app_assoc. repeat (eapply (law_app R HR); [eassumption|]). done.
Qed.

Lemma scanned_quiet data bits shift s s1 o s2 s3 :
  quiet s s1 -> scanned data bits shift s1 o s2 -> quiet s2 s3 -> scanned data bits shift s o s3.
Proof.
  intros Hq (Hc & ? & ? & ? & pre & post & o1 & o2 & Hw & Hw' & HRp) Hq'.
  pose proof Hq as [E _]. pose proof Hq' as [E' Hr']. unfold scanned, same_config in *. rewrite E', <- E.
  split_and!; try done; try apply Hc. exists pre, post, o1, o2. split_and!; [done|done|].
  eapply quiet_pre; [done|]. rewrite <- (app_nil_r (pre ++ _)), <- (app_nil_r (o1 ++ _)).
  by eapply (law_app R HR).
Qed.

Lemma scanned_reach data bits shift s o s' : scanned data bits shift s o s' -> reach s s'.
Proof.
  intros (Hc & _ & _ & Ei & pre & post & o1 & o2 & Hw & Hw' & HRp). split; [done|].
  right. eexists _, _. split; [exact HRp|]. by rewrite Ei, fmap_app, walk_app, Hw.
Qed.

Definition scan_post (data : list Z) (bits : Z) (shift : State) (s : St W)
    (r : option (list Z) * err) (s' : St W) : Prop :=
  match fst r with
  | Some o => scanned data bits shift s o s'
  | None => snd r <> None /\ reach s s'
  end.

Lemma scan_post_reach data bits shift s r s' : scan_post data bits shift s r s' -> reach s s'.
Proof. unfold scan_post. destruct (fst r); [apply scanned_reach|tauto]. Qed.

Lemma scan_spec ctx data bits shift s :
  shift = ShiftIR \/ shift = ShiftDR ->
  wp (scan ctx data bits shift) (scan_post data bits shift s) s.
Proof.
  intros Hsh. unfold scan. apply wp_bind, wp_validate. intros s1 Hq. split.
  2: { intros e. apply wp_ret. split; [done|]. by apply quiet_reach. }
  intros _ _ Hctx _. destruct (Z.leb_spec bits 0); cbn [orb].
  { apply wp_ret. split; [done|]. by apply quiet_reach. }
  destruct (MaxScanBits <? bits); cbn [orb].
  { apply wp_ret. split; [done|]. by apply quiet_reach. }
  destruct (Z.ltb_spec (len data) ((bits + 7) / 8)).
  { apply wp_ret. split; [done|]. by apply quiet_reach. }
  apply wp_bind, wp_gets. apply wp_bind, wp_gets. apply wp_bind.
  eapply wp_mono; [apply scan_body_spec; unfold bytes_for; [lia|lia|done]|].
  intros [out e] s2 Hbody. apply wp_bind. unfold finishScan.
  apply wp_bind, wp_gets, wp_bind.
  apply (wp_mono _ (fun _ s3 => match e with
    | None => s3 = s2
    | Some _ => reach s2 s3 end)).
  { destruct e as [e|]; cbn [is_nil negb andb].
    - destruct (negb _); [|apply wp_ret, reach_refl]. apply wp_modify. split; [done|]. by left.
    - by apply wp_ret. }
  intros _ s3 H3. apply wp_bind, wp_jtag_ctxErr; [done|]. intros cause.
  pose proof (quiet_ctx ctx s3) as Hq3.
  assert (forall e' s4, quiet s3 s4 -> (is_nil e = false -> e' <> None) ->
    scan_post data bits shift s (out, e') s4) as Hfin.
  { intros e' s4 Hq4 He'. destruct e as [e|]; simpl in Hbody.
    - destruct Hbody as [-> Hr]. split; [by apply He'|].
      eapply reach_trans; [by apply quiet_reach|]. eapply reach_trans; [exact Hr|].
      eapply reach_trans; [exact H3|by apply quiet_reach].
    - destruct Hbody as (o & -> & Hsc). subst s3. by eapply scanned_quiet. }
  destruct cause as [c|].
  - destruct (negb (errors_Is e (context_Err c))).
    + apply wp_ret, wp_ret, Hfin; [done|]. intros _. destruct e; done.
    + apply wp_ret, wp_ret, Hfin; [done|]. by destruct e.
  - apply wp_ret, wp_ret, Hfin; [done|]. by destruct e.
Qed.
End Clock.

(** * Decoding a reset chain and a marker (jtag/discover.go, measure.go)

    The decoder of reset data registers recovers exactly the TAPs whose
    registers were shifted out, and the marker search accepts exactly the
    outputs with one zero in range.  Neither reads outside its buffer. *)

(** ** Reset registers *)

(** What a TAP shifts out after reset: a zero bypass bit, or its IDCODE. *)
Definition reset_bits (t : ObservedTAP) : list bool :=
  if Bypass_ t then [false] else Z.testbit (IDCODE_ t) <$> seqZ 0 32.

(** The TAPs that the IEEE 1149.1 reset state can present. *)
Definition presentable (t : ObservedTAP) : Prop :=
  if Bypass_ t then IDCODE_ t = 0
  else 0 <= IDCODE_ t < 2 ^ 32 /\ Z.testbit (IDCODE_ t) 0 = true /\ IDCODE_ t <> maxUint32.

(** [data] holds the registers of [taps], then ones. *)
Definition chain_data (data : list Z) (taps : list ObservedTAP) (maxTAPs offset : Z) : Prop :=
  4 * (maxTAPs + 1) <= len data /\
  forall i, offset <= i < 32 * (maxTAPs + 1) ->
    gbit data i = default true ((taps ≫= reset_bits) !! Z.to_nat (i - offset)).

Lemma length_reset_bits t : (1 <= length (reset_bits t) <= 32)%nat.
Proof. unfold reset_bits. destruct (Bypass_ t); [simpl; lia|]. rewrite length_fmap, length_seqZ. lia. Qed.

Lemma chain_data_tail data t taps maxTAPs offset :
  0 <= offset -> chain_data data (t :: taps) maxTAPs offset ->
  chain_data data taps maxTAPs (offset + len (reset_bits t)).
Proof.
  intros Ho [Hl Hd]. split; [done|]. intros i Hi. unfold len in *.
  rewrite Hd by lia. rewrite bind_cons, lookup_app_r by lia. do 2 f_equal. lia.
Qed.

(** The word at a TAP's register. *)
Lemma word_bypass data taps t maxTAPs offset :
  0 <= offset -> offset + 32 <= 32 * (maxTAPs + 1) ->
  Bypass_ t = true -> chain_data data (t :: taps) maxTAPs offset ->
  exists v, word data offset = Some v /\ Z.testbit v 0 = false.
Proof.
  intros Ho Hm Hb [Hl Hd]. rewrite word_spec by lia. eexists. split; [done|].
  rewrite bits_value_testbit by lia. simpl. rewrite Z.add_0_r, Hd by lia.
  rewrite Z.sub_diag, bind_cons. unfold reset_bits at 1. by rewrite Hb.
Qed.

Lemma word_idcode data taps t maxTAPs offset :
  0 <= offset -> offset + 32 <= 32 * (maxTAPs + 1) ->
  Bypass_ t = false -> presentable t -> chain_data data (t :: taps) maxTAPs offset ->
  word data offset = Some (IDCODE_ t).
Proof.
  intros Ho Hm Hb Hp [Hl Hd]. unfold presentable in Hp. rewrite Hb in Hp.
  rewrite word_spec by lia. f_equal. apply bits_value_of; [apply Hp|].
  intros i Hi. rewrite Hd by lia. rewrite bind_cons. unfold reset_bits at 1. rewrite Hb.
  replace (offset + i - offset) with i by lia.
  rewrite lookup_app_l by (rewrite length_fmap, length_seqZ; lia).
  rewrite list_lookup_fmap, lookup_seqZ_lt by lia. simpl. f_equal. lia.
Qed.

Lemma word_ones data maxTAPs offset :
  0 <= offset -> offset + 32 <= 32 * (maxTAPs + 1) ->
  chain_data data [] maxTAPs offset -> word data offset = Some maxUint32.
Proof.
  intros Ho Hm [Hl Hd]. rewrite word_spec by lia. f_equal. apply bits_value_of; [done|].
  intros i Hi. rewrite Hd by lia. simpl.
  change maxUint32 with (Z.ones 32). rewrite Z.ones_spec_low by lia. done.
Qed.

Definition observed (found taps : list ObservedTAP) (maxTAPs : Z) : list ObservedTAP * err :=
  if Z.of_nat (length (found ++ taps)) <=? maxTAPs then
    (if bool_decide (found ++ taps = []) then ([], Some (Sentinel jtag_ErrNoChain))
     else (found ++ taps, None))
  else (take (Z.to_nat maxTAPs) (found ++ taps), Some (Sentinel jtag_ErrDiscoveryLimit)).

Lemma land1_testbit v : (Z.land v 1 =? 0) = negb (Z.testbit v 0).
Proof.
  rewrite <- (Z.shiftr_0_r v) at 1. rewrite land_1_testbit by lia. by destruct (Z.testbit v 0).
Qed.

Lemma observations_loop_spec fuel data maxTAPs taps found offset :
  Forall presentable taps ->
  0 <= offset <= 32 * len found -> len found <= maxTAPs ->
  maxTAPs - len found < Z.of_nat fuel ->
  chain_data data taps maxTAPs offset ->
  observations_loop fuel data maxTAPs found offset = Done (observed found taps maxTAPs).
Proof.
  intros Hp. revert fuel found offset. induction Hp as [|t taps Ht Hp IH];
    intros fuel found offset Ho Hf Hfuel Hd; (destruct fuel as [|fuel]; [lia|]); cbn [observations_loop].
  - rewrite (word_ones data maxTAPs offset) by (lia || done).
    rewrite Z.eqb_refl. unfold observed. rewrite app_nil_r. unfold len in Hf.
    destruct (Z.leb_spec (Z.of_nat (length found)) maxTAPs); [done|lia].
  - assert (exists v, word data offset = Some v /\ v <> maxUint32 /\
       (Z.land v 1 =? 0) = Bypass_ t /\ (Bypass_ t = false -> v = IDCODE_ t)) as (v & -> & Hv1 & Hv2 & Hv3).
    { destruct (Bypass_ t) eqn:Eb.
      - destruct (word_bypass data taps t maxTAPs offset) as (v & E & Hv); [lia|lia|done|done|].
        exists v. split_and!; [done| |by rewrite land1_testbit, Hv|done]. intros ->. done.
      - rewrite (word_idcode data taps t maxTAPs offset) by (lia || done).
        unfold presentable in Ht. rewrite Eb in Ht. destruct Ht as (? & Hb & ?).
        exists (IDCODE_ t). split_and!; [done|done|by rewrite land1_testbit, Hb|done]. }
    destruct (Z.eqb_spec v maxUint32); [done|].
    destruct (Z.eqb_spec (len found) maxTAPs) as [Hmax|Hmax].
    + unfold observed. rewrite length_app. unfold len in Hmax. simpl length.
      destruct (Z.leb_spec (Z.of_nat (length found + S (length taps))) maxTAPs); [lia|].
      do 2 f_equal. rewrite <- Hmax, Nat2Z.id. by rewrite take_app_length.
    + pose proof (chain_data_tail _ _ _ _ _ (proj1 Ho) Hd) as Hd'.
      assert (observed found (t :: taps) maxTAPs = observed (found ++ [t]) taps maxTAPs) as ->.
      { unfold observed. by rewrite <- app_assoc. }
      pose proof (length_reset_bits t) as Hlr. rewrite Hv2.
      destruct t as [id bp]. cbn [Bypass_ IDCODE_] in *. destruct bp; cbn [reset_bits Bypass_] in *.
      * unfold presentable in Ht. simpl in Ht. subst id.
        apply IH; unfold len in *; rewrite ?length_app; simpl in *; try lia. done.
      * rewrite Hv3 by done.
        apply IH; unfold len in *; rewrite ?length_app; simpl in *; try lia. done.
Qed.

Lemma observations_spec data maxTAPs taps :
  Forall presentable taps -> 0 <= maxTAPs -> chain_data data taps maxTAPs 0 ->
  observations data maxTAPs = Done (observed [] taps maxTAPs).
Proof. intros. apply observations_loop_spec; unfold len; simpl; try lia; done. Qed.

(** Any buffer long enough decodes without a panic, in bounded time. *)
Lemma observations_loop_total fuel data maxTAPs found offset :
  4 * (maxTAPs + 1) <= len data ->
  0 <= offset <= 32 * len found -> len found <= maxTAPs ->
  maxTAPs - len found < Z.of_nat fuel ->
  exists r, observations_loop fuel data maxTAPs found offset = Done r.
Proof.
  intros Hl. revert found offset. induction fuel as [|fuel IH]; intros found offset Ho Hf Hfuel; [lia|].
  cbn [observations_loop]. rewrite word_spec by lia.
  destruct (_ =? maxUint32); [eauto|]. destruct (Z.eqb_spec (len found) maxTAPs); [eauto|].
  destruct (_ =? 0); apply IH; unfold len in *; rewrite ?length_app; simpl; lia.
Qed.

(** ** The marker *)

Lemma markerLength_spec output maxBits :
  0 <= maxBits < 8 * len output ->
  exists n e, markerLength output maxBits = Some (n, e) /\
    (e = None <->
      2 <= n <= maxBits /\ gbit output n = false /\
      forall i, 0 <= i <= maxBits -> i <> n -> gbit output i = true).
Proof.
  intros Hm. unfold markerLength.
  match goal with |- context [for_range _ ?f _] => set (body := f) end.
  destruct (for_range_inv (fun k (acc : Z + error) => match acc with
      | inl 0 => forall i, 0 <= i < k -> gbit output i = true
      | inl n => 2 <= n < k /\ gbit output n = false /\
          forall i, 0 <= i < k -> i <> n -> gbit output i = true
      | inr _ => exists i j, 0 <= i < k /\ 0 <= j < k /\ gbit output i = false /\ gbit output j = false /\
          (i < 2 \/ i <> j)
      end) body (maxBits + 1) (inl 0)) as (acc & E & HI); [lia| | |].
  - intros i acc Hi HI. unfold body. destruct acc as [n|e].
    + rewrite get_spec by lia. cbn [mbind option_bind]. destruct (gbit output i) eqn:Eg; simpl.
      * eexists. split; [done|]. simpl. destruct n as [|n|n]; simpl in *.
        -- intros j Hj. destruct (Z.eq_dec j i) as [->|]; [done|apply HI; lia].
        -- destruct HI as (? & ? & HI). split_and!; [lia|lia|done|]. intros j Hj Hne.
           destruct (Z.eq_dec j i) as [->|]; [done|apply HI; lia].
        -- lia.
      * destruct n as [|n|n]; simpl in *.
        -- destruct (Z.ltb_spec i 2); simpl; eexists; (split; [done|]); simpl.
           ++ exists i, i. split_and!; (lia || done).
           ++ destruct i; [lia| |lia]. split_and!; [lia|lia|done|]. intros j Hj Hne. apply HI. lia.
        -- destruct HI as (? & ? & HI). eexists. split; [done|]. simpl.
           exists (Z.pos n), i. split_and!; (lia || done).
        -- lia.
    + exists (inr e). split; [done|]. simpl in *. destruct HI as (a & b & ? & ? & ? & ? & ?).
      exists a, b. split_and!; (lia || done).
  - simpl. lia.
  - rewrite E. cbn [mbind option_bind]. destruct acc as [n|e].
    + destruct n as [|n|n]; simpl.
      * eexists _, _. split; [done|]. split; [done|]. intros ((? & ?) & Hf & _). rewrite HI in Hf; [done|lia].
      * eexists _, _. split; [done|]. split; [intros _|done]. destruct HI as (? & ? & HI).
        split_and!; [lia|lia|done|]. intros i Hi. apply HI. lia.
      * lia.
    + eexists _, _. split; [done|]. split; [done|].
      intros ((? & ?) & _ & Hall). destruct HI as (i & j & ? & ? & Hi & Hj & Hor).
      assert (i = 0) as ->.
      { destruct (Z.eq_dec i 0); [done|]. rewrite Hall in Hi; [done|lia|done]. }
      assert (j = 0) as ->.
      { destruct (Z.eq_dec j 0); [done|]. rewrite Hall in Hj; [done|lia|done]. }
      lia.
Qed.

(** * The tracked TAP state (jtag/conn.go)

    Over any wire whose successful calls clock the target's TAP, every
    operation, on every path including failures and cancellation, leaves the
    connection's state either [Unknown] or equal to the target's.  Operations
    are total: they return without a panic whatever the wire answers. *)

Section Reach.
Context {W : Type} `{Env W} `{Wire W}.
Context (R : list (bool * bool) -> W -> list bool -> W -> Prop) (HR : StreamLaws R).

Abbreviation reach := (reach R).

Lemma idle_spec ctx cycles s : wp (Idle_ ctx cycles) (fun _ s' => reach s s') s.
Proof.
  unfold Idle_. apply wp_bind, (wp_validate R HR). intros s1 Hq.
  pose proof (quiet_reach R s s1 Hq) as R1.
  split; [|intros e; by apply wp_ret]. intros _ _ _ _.
  destruct ((cycles <? 0) || (MaxScanBits <? cycles)) eqn:Eb; [by apply wp_ret|].
  apply orb_false_iff in Eb as [Hc%Z.ltb_ge _].
  destruct (cycles =? 0); [by apply wp_ret|].
  apply wp_bind. eapply wp_mono; [apply (move_spec R HR)|]. intros e s2 H2.
  pose proof (reach_trans R HR _ _ _ R1 (move_post_reach R _ _ _ _ H2)) as R2.
  destruct e; [by apply wp_ret|].
  pose proof (bytes_for_bound cycles Hc) as Hb. apply wp_bind.
  eapply wp_mono; [apply (clock_spec R HR)|]; [lia|rewrite len_make_bytes; unfold bytes_for in *; lia..|].
  intros [o e] s3 H3. apply wp_ret. eapply (reach_trans R HR); [exact R2|].
  by eapply clock_post_reach.
Qed.

Lemma marker_buffers maxBits :
  2 <= maxBits ->
  exists b0 input tms,
    index (ones (maxBits + 1)) 0 = Some b0 /\
    store (ones (maxBits + 1)) 0 (and_not b0 1) = Some input /\
    put (make_bytes ((maxBits + 8) / 8)) maxBits 1 = Some tms /\
    maxBits + 1 <= 8 * len tms /\ maxBits + 1 <= 8 * len input /\
    (forall i, 0 <= i <= maxBits -> gbit input i = negb (i =? 0)) /\
    (forall i, 0 <= i <= maxBits -> gbit tms i = (i =? maxBits)).
Proof.
  intros Hm. pose proof (bytes_for_bound (maxBits + 1) ltac:(lia)) as Hb.
  assert (len (ones (maxBits + 1)) = bytes_for (maxBits + 1)) as Hl.
  { unfold len, ones. rewrite length_replicate. unfold bytes_for in *. lia. }
  assert ((maxBits + 8) / 8 = bytes_for (maxBits + 1)) as E8 by (unfold bytes_for; f_equal; lia).
  assert (len (make_bytes ((maxBits + 8) / 8)) = bytes_for (maxBits + 1)) as Hlm.
  { rewrite len_make_bytes; lia. }
  destruct (put_spec (make_bytes ((maxBits + 8) / 8)) maxBits true) as (tms & Et & _ & Hlt & Gt);
    [lia|apply bytes_make|].
  exists 255, (<[Z.to_nat 0 := and_not 255 1]> (ones (maxBits + 1))), tms.
  assert (forall i, 0 <= i < bytes_for (maxBits + 1) -> ones (maxBits + 1) !! Z.to_nat i = Some 255) as Hone.
  { intros i Hi. unfold ones. apply lookup_replicate. split; [done|]. unfold bytes_for in Hi. lia. }
  split_and!.
  - rewrite index_lookup by lia. apply Hone. lia.
  - apply store_in. lia.
  - exact Et.
  - lia.
  - rewrite len_insert. lia.
  - intros i Hi. unfold gbit. destruct (decide (i / 8 = 0)) as [E|E].
    + rewrite E, list_lookup_insert_eq by (unfold len in Hl; lia). simpl.
      assert (i = 0 \/ i = 1 \/ i = 2 \/ i = 3 \/ i = 4 \/ i = 5 \/ i = 6 \/ i = 7) as Hc
        by (Z.to_euclidean_division_equations; lia).
      destruct Hc as [->|[->|[->|[->|[->|[->|[->| ->]]]]]]]; done.
    + rewrite list_lookup_insert_ne by (Z.to_euclidean_division_equations; lia).
      rewrite Hone by (Z.to_euclidean_division_equations; lia). simpl.
      change 255 with (Z.ones 8). rewrite Z.ones_spec_low by (Z.to_euclidean_division_equations; lia).
      destruct (Z.eqb_spec i 0) as [->|]; [done|done].
  - intros i Hi. rewrite Gt, gbit_make_bytes by lia. done.
Qed.

(** A measured length: in Shift-IR the chain was filled with ones, then a
    single zero was shifted through it and came out after exactly [n] clocks. *)
Definition measured (maxBits n : Z) (s s' : St W) : Prop :=
  2 <= n <= maxBits /\
  exists pre fill marker post o1 o2 o o4,
    walk (state (conn s)) pre.*1 = ShiftIR /\
    fill = replicate (Z.to_nat maxBits) (false, true) /\
    marker = ((fun i => (i =? maxBits, negb (i =? 0))) <$> seqZ 0 (maxBits + 1)) /\
    gbit o <$> seqZ 0 (maxBits + 1) = ((fun i => negb (i =? n)) <$> seqZ 0 (maxBits + 1)) /\
    R (pre ++ fill ++ marker ++ post) (world s)
      (o1 ++ o2 ++ (gbit o <$> seqZ 0 (maxBits + 1)) ++ o4) (world s') /\
    state (conn s') = Idle.

Lemma fill_stream maxBits :
  0 <= maxBits ->
  stream (make_bytes ((maxBits + 7) / 8)) (ones maxBits) 0 maxBits = replicate (Z.to_nat maxBits) (false, true).
Proof.
  intros Hm. pose proof (bytes_for_bound maxBits Hm). unfold stream.
  rewrite <- (length_seqZ 0 maxBits), <- (const_fmap (fun _ => (false, true))) by done.
  apply list_fmap_ext. intros k i Hi%lookup_seqZ. rewrite gbit_make_bytes.
  rewrite gbit_ones; [done|]. lia.
Qed.

Lemma measure_spec ctx maxBits s :
  wp (MeasureIR ctx maxBits) (fun r s' => reach s s' /\
    match snd r with None => measured maxBits (fst r) s s' | Some _ => True end) s.
Proof.
  unfold MeasureIR. apply wp_bind, (wp_validate R HR). intros s1 Hq.
  pose proof (quiet_reach R s s1 Hq) as R1.
  split; [|intros e; by apply wp_ret]. intros _ _ _ _.
  destruct ((maxBits <? 2) || (65536 <? maxBits)) eqn:Eb; [by apply wp_ret|].
  apply orb_false_iff in Eb as [Hc%Z.ltb_ge _].
  apply wp_bind. eapply wp_mono; [apply (move_spec R HR)|]. intros e s2 H2.
  pose proof (reach_trans R HR _ _ _ R1 (move_post_reach R _ _ _ _ H2)) as R2.
  destruct e; [by apply wp_ret|].
  apply wp_bind. eapply wp_mono; [apply (move_spec R HR)|]. intros e s3 H3.
  pose proof (reach_trans R HR _ _ _ R2 (move_post_reach R _ _ _ _ H3)) as R3.
  destruct e; [by apply wp_ret|].
  pose proof (bytes_for_bound maxBits ltac:(lia)) as Hb. apply wp_bind.
  eapply wp_mono; [apply (clock_spec R HR)|]; [lia|rewrite len_make_bytes; unfold bytes_for in *; lia| |].
  { rewrite len_ones; lia. }
  intros [o e] s4 H4. pose proof (reach_trans R HR _ _ _ R3 (clock_post_reach R _ _ _ _ _ H4)) as R4.
  destruct e; [by apply wp_ret|].
  destruct (marker_buffers maxBits Hc) as (b0 & input & tms & E1 & E2 & E3 & L1 & L2 & G2 & G1).
  eapply wp_bind, wp_lift; [exact E1|]. eapply wp_bind, wp_lift; [exact E2|].
  eapply wp_bind, wp_lift; [exact E3|]. apply wp_bind.
  eapply wp_mono; [apply (clock_spec R HR); lia|]. intros [o' e] s5 H5.
  pose proof (reach_trans R HR _ _ _ R4 (clock_post_reach R _ _ _ _ _ H5)) as R5.
  destruct e as [e|]; [by apply wp_ret|].
  apply wp_bind. eapply wp_mono; [apply (move_spec R HR)|]. intros e s6 H6.
  pose proof (reach_trans R HR _ _ _ R5 (move_post_reach R _ _ _ _ H6)) as R6.
  destruct e; [by apply wp_ret|].
  destruct H5 as [_ (out & Eo & _ & Hlo & HR5 & E5)]. simpl in Eo. subst o'. cbn [default].
  pose proof (bytes_for_bound (maxBits + 1) ltac:(lia)) as Hb1.
  destruct (markerLength_spec out maxBits) as (n & e & Em & Hn); [lia|].
  eapply wp_lift; [exact Em|]. split; [done|]. destruct e; [done|].
  destruct (proj1 Hn eq_refl) as (Hn1 & Hn2 & Hn3). split; [done|].
  destruct H2 as (_ & _ & _ & p2 & o2 & HR2 & _ & _ & E2' & W2).
  destruct H3 as (_ & _ & _ & p3 & o3 & HR3 & _ & _ & E3' & W3).
  destruct H4 as [_ (o4 & _ & _ & _ & HR4 & E4)].
  destruct H6 as (_ & _ & _ & p6 & o6 & HR6 & _ & _ & E6 & _). pose proof Hq as [Eq _].
  rewrite fill_stream in HR4 by lia.
  assert (stream tms input 0 (maxBits + 1) =
    ((fun i => (i =? maxBits, negb (i =? 0))) <$> seqZ 0 (maxBits + 1))) as Em'.
  { apply list_fmap_ext. intros k i Hi%lookup_seqZ. by rewrite G1, G2 by lia. }
  rewrite Em' in HR5.
  exists (p2 ++ p3), (replicate (Z.to_nat maxBits) (false, true)),
    ((fun i => (i =? maxBits, negb (i =? 0))) <$> seqZ 0 (maxBits + 1)), p6,
    (o2 ++ o3), (gbit o4 <$> seqZ 0 maxBits), out, o6.
  split_and!; [|done|done| | |done].
  - rewrite fmap_app, walk_app, <- Eq. congruence.
  - apply list_fmap_ext. intros k i Hi%lookup_seqZ.
    cbn [fst]. destruct (Z.eqb_spec i n) as [->|]; [done|]. apply Hn3; lia.
  - eapply (quiet_pre R HR); [exact Hq|]. rewrite <- !app_assoc.
    repeat (eapply (law_app R HR); [eassumption|]). done.
Qed.

(** A discovered chain: after a reset, scanning ones out of the data registers
    captured a buffer that decodes to [found]. *)
Definition discovered (maxTAPs : Z) (found : list ObservedTAP) (s s' : St W) : Prop :=
  exists s1 outs o, state (conn s1) = Reset /\
    R (replicate 5 (true, false)) (world s) outs (world s1) /\
    scanned R (replicate (Z.to_nat (32 * (maxTAPs + 1) / 8)) 255) (32 * (maxTAPs + 1)) ShiftDR s1 o s' /\
    observations o maxTAPs = Done (found, None).

(** Discovery starts with a reset, so its state is that of a fresh walk. *)
Lemma discover_spec ctx maxTAPs s :
  wp (Discover ctx maxTAPs) (fun r s' => (reach s s' \/
      exists s1 outs, state (conn s1) = Reset /\
        R (replicate 5 (true, false)) (world s) outs (world s1) /\ reach s1 s') /\
    match snd r with None => discovered maxTAPs (fst r) s s' | Some _ => True end) s.
Proof.
  unfold Discover. apply wp_bind, (wp_validate R HR). intros s1 Hq.
  pose proof (quiet_reach R s s1 Hq) as R1.
  split; [|intros e; apply wp_ret; split; [by left|done]]. intros _ _ _ _.
  destruct ((maxTAPs <? 1) || (1024 <? maxTAPs)) eqn:Eb; [apply wp_ret; split; [by left|done]|].
  apply orb_false_iff in Eb as [Hc%Z.ltb_ge _].
  apply wp_bind. eapply wp_mono; [apply (reset_spec R HR)|]. intros e s2 H2.
  destruct e. { apply wp_ret. split; [|done]. left. by eapply (reach_trans R HR). }
  destruct H2 as (_ & Es2 & outs & HR2). assert (R (replicate 5 (true, false)) (world s) outs (world s2)) as HR2'.
  { by eapply quiet_pre. }
  apply wp_bind. eapply wp_mono; [apply (scan_spec R HR); by right|]. intros [data e] s3 H3.
  pose proof (scan_post_reach R _ _ _ _ _ _ H3) as R3.
  assert (forall s4, s4 = s3 -> reach s s4 \/ exists s1 outs, state (conn s1) = Reset /\
      R (replicate 5 (true, false)) (world s) outs (world s1) /\ reach s1 s4) as Hfin.
  { intros s4 ->. right. eauto. }
  destruct e as [e|]; [apply wp_ret; split; [by apply Hfin|done]|].
  unfold scan_post in H3. simpl in H3. destruct data as [o|]; [|by destruct H3].
  pose proof H3 as (_ & _ & Hlo & _). simpl default.
  assert (4 * (maxTAPs + 1) <= len o) as Hl4.
  { rewrite Hlo. unfold bytes_for. Z.to_euclidean_division_equations. lia. }
  destruct (observations_loop_total (S (Z.to_nat maxTAPs)) o maxTAPs [] 0) as [r Er];
    [done|unfold len; simpl; lia..|].
  unfold wp, observations. rewrite Er. split; [by apply Hfin|].
  destruct r as [found [e|]]; [done|]. exists s2, outs, o. by unfold observations.
Qed.
End Reach.

(** ** Tracking *)

Section Track.
Context {W : Type} `{Env W} `{Wire W}.

(** The target's TAP controller, and that successful wire calls clock it. *)
Context (tap : W -> State).

Record ClocksTAP : Prop := {
  tap_known w : tap w <> Unknown;
  tap_ctx ctx w : tap (snd (ctx_Err ctx w)) = tap w;
  tap_io ctx ms di n w do_ w' :
    JTAGIO ctx ms di n w = ((do_, None), w') -> len do_ = len di ->
    0 <= n <= 8 * len ms -> tap w' = walk (tap w) (gbit ms <$> seqZ 0 n)
}.

Context (HT : ClocksTAP).

Definition follows_tap (p : list (bool * bool)) (w : W) (_ : list bool) (w' : W) : Prop :=
  tap w' = walk (tap w) p.*1.

Lemma follows_tap_laws : StreamLaws follows_tap.
Proof.
  unfold follows_tap. split.
  - done.
  - intros p q w w1 w2 _ _ -> ->. by rewrite fmap_app, walk_app.
  - intros ctx p w _ w' ->. by rewrite (tap_ctx HT).
  - intros ctx ms di n w do_ w' Hio Hl Hn _. unfold stream. rewrite <- list_fmap_compose.
    by eapply (tap_io HT).
Qed.

Definition tracked (s : St W) : Prop :=
  state (conn s) = Unknown \/ state (conn s) = tap (world s).

Lemma reach_tracked s s' : tracked s -> reach follows_tap s s' -> tracked s'.
Proof.
  intros Ht [_ [?|(p & o & HRp & E)]]; [by left|].
  destruct Ht as [Eu|Et]; [left|right]; rewrite E.
  - by rewrite Eu, walk_unknown.
  - by rewrite HRp, Et.
Qed.

(** One call of any operation of the connection. *)
Inductive conn_step (s : St W) : St W -> Prop :=
| step_Reset ctx e s' : Reset_ ctx s = Done (e, s') -> conn_step s s'
| step_Move ctx t e s' : Move ctx t s = Done (e, s') -> conn_step s s'
| step_ScanIR ctx d n r s' : ScanIR ctx d n s = Done (r, s') -> conn_step s s'
| step_ScanDR ctx d n r s' : ScanDR ctx d n s = Done (r, s') -> conn_step s s'
| step_Idle ctx n e s' : Idle_ ctx n s = Done (e, s') -> conn_step s s'
| step_Discover ctx n r s' : Discover ctx n s = Done (r, s') -> conn_step s s'
| step_MeasureIR ctx n r s' : MeasureIR ctx n s = Done (r, s') -> conn_step s s'.

Lemma after_reset s1 w outs :
  state (conn s1) = Reset -> follows_tap (replicate 5 (true, false)) w outs (world s1) -> tracked s1.
Proof.
  intros Es HRp. right. rewrite Es, HRp. symmetry.
  change ((replicate 5 (true, false)).*1) with (replicate 5 true).
  apply reset_from_anywhere, (tap_known HT).
Qed.

Lemma conn_step_tracked s s' : tracked s -> conn_step s s' -> tracked s'.
Proof.
  pose proof follows_tap_laws as L. intros Ht Hs.
  destruct Hs as [ctx e s' E|ctx t e s' E|ctx d n r s' E|ctx d n r s' E|ctx n e s' E|ctx n r s' E|ctx n r s' E].
  - pose proof (wp_elim _ _ _ _ _ (reset_spec _ L ctx s) E) as Hp. destruct e.
    + by eapply reach_tracked.
    + destruct Hp as (_ & Es & outs & HRp). by eapply after_reset.
  - eapply reach_tracked; [done|]. eapply move_post_reach. exact (wp_elim _ _ _ _ _ (move_spec _ L ctx t s) E).
  - eapply reach_tracked; [done|]. eapply scan_post_reach.
    exact (wp_elim _ _ _ _ _ (scan_spec _ L ctx d n ShiftIR s (or_introl eq_refl)) E).
  - eapply reach_tracked; [done|]. eapply scan_post_reach.
    exact (wp_elim _ _ _ _ _ (scan_spec _ L ctx d n ShiftDR s (or_intror eq_refl)) E).
  - eapply reach_tracked; [done|]. exact (wp_elim _ _ _ _ _ (idle_spec _ L ctx n s) E).
  - destruct (wp_elim _ _ _ _ _ (discover_spec _ L ctx n s) E) as [[Hr|(s1 & outs & Es & HRp & Hr)] _].
    + by eapply reach_tracked.
    + eapply reach_tracked; [|done]. by eapply after_reset.
  - eapply reach_tracked; [done|]. exact (proj1 (wp_elim _ _ _ _ _ (measure_spec _ L ctx n s) E)).
Qed.

(** Any sequence of calls. *)
Inductive conn_run (s : St W) : St W -> Prop :=
| run_refl : conn_run s s
| run_step s1 s2 : conn_run s s1 -> conn_step s1 s2 -> conn_run s s2.

Lemma conn_run_tracked s s' : tracked s -> conn_run s s' -> tracked s'.
Proof. intros Ht Hr. induction Hr; [done|]. by eapply conn_step_tracked. Qed.
End Track.
