(* ===== verification/JtagChain.v ===== *)
(** * Validated scan chains and borrowed TAPs (jtag/layout.go, chain.go, tap.go) *)

From S2P Require Import Prelude Go Bits JtagTap JtagConn JtagConnFacts.
Local Open Scope Z_scope.

(** ** Layouts *)

Record TAPSpec := mkSpec { ir : Z; reset : ObservedTAP }.

Definition zeroSpec : TAPSpec := mkSpec 0 (mkObserved 0 false).

Definition IDCODE (irBits id : Z) : TAPSpec * err :=
  if (irBits <? 2) || (64 <? irBits) || (Z.land id 1 =? 0) || (id =? maxUint32)
  then (zeroSpec, Some (New "jtag: invalid IR length or IDCODE"))
  else (mkSpec irBits (mkObserved id false), None).

Definition Bypass (irBits : Z) : TAPSpec * err :=
  if (irBits <? 2) || (64 <? irBits)
  then (zeroSpec, Some (New "jtag: invalid IR length"))
  else (mkSpec irBits (mkObserved 0 true), None).

Definition IRBits (s : TAPSpec) : Z := ir s.
Definition ResetRegister (s : TAPSpec) : ObservedTAP := reset s.

Definition Layout := list TAPSpec.

Definition Validate (l : Layout) : err :=
  if (len l =? 0) || (1024 <? len l) then Some (New "jtag: bounded nonempty layout required")
  else if existsb (fun spec => (ir spec <? 2) || (64 <? ir spec)) l
  then Some (New "jtag: invalid TAP specification")
  else None.

(** ** Chains *)

Record Chain := mkChain {
  has_conn : bool;
  layout : Layout;
  irBits : Z;
  cserial : Z;
  generation : Z;
  valid : bool;
  released : bool;
  selected : Z
}.

Definition set_cserial x c := mkChain (has_conn c) (layout c) (irBits c) x (generation c) (valid c) (released c) (selected c).
Definition set_generation x c := mkChain (has_conn c) (layout c) (irBits c) (cserial c) x (valid c) (released c) (selected c).
Definition set_valid x c := mkChain (has_conn c) (layout c) (irBits c) (cserial c) (generation c) x (released c) (selected c).
Definition set_released x c := mkChain (has_conn c) (layout c) (irBits c) (cserial c) (generation c) (valid c) x (selected c).
Definition set_selected x c := mkChain (has_conn c) (layout c) (irBits c) (cserial c) (generation c) (valid c) (released c) x.

(** Total IR length of a layout. *)
Definition ir_total (l : Layout) : Z := foldr (fun s n => ir s + n) 0 l.

Definition NewChain (conn_present : bool) (l : Layout) : option Chain * err :=
  if negb conn_present then (None, Some (New "jtag: connection required"))
  else match Validate l with
       | Some e => (None, Some e)
       | None => (Some (mkChain true l (ir_total l) 0 0 false true (-1)), None)
       end.

(** A borrowed position: the chain is the state the operations act on. *)
Record TAP := mkTAP { t_index : Z; t_generation : Z }.

Definition extract (data : list Z) (offset bits : Z) : option (list Z) :=
  for_range bits (fun i result => b ← get data (offset + i); put result i b)
    (make_bytes ((bits + 7) / 8)).

(** The loop of [checkIR]. *)
Fixpoint checkIR_loop (specs : Layout) (capture : list Z) (offset : Z) : option (Z + error) :=
  match specs with
  | [] => Some (inl offset)
  | spec :: specs =>
      b0 ← get capture offset;
      if negb (b0 =? 1) then Some (inr (New "jtag: IR capture mismatch at TAP"))
      else
        b1 ← get capture (offset + 1);
        if negb (b1 =? 0) then Some (inr (New "jtag: IR capture mismatch at TAP"))
        else checkIR_loop specs capture (offset + ir spec)
  end.

Definition checkIR (l : Layout) (capture : list Z) : option err :=
  r ← checkIR_loop l capture 0;
  match r with
  | inr e => Some (Some e)
  | inl offset =>
      w ← word capture offset;
      Some (if negb (w =? maxUint32) then Some (New "jtag: IR chain exceeds supplied layout") else None)
  end.

(** The loop of [Connect] comparing reset registers; indices are in range since
    the lengths were compared first. *)
Definition reset_mismatch (l : Layout) (found : list ObservedTAP) : bool :=
  existsb (fun '(spec, f) => negb (bool_decide (f = reset spec))) (zip l found).

(** Bit offset of the TAP at [index] in the IR chain. *)
Definition ir_offset (l : Layout) (index : Z) : Z := ir_total (take (Z.to_nat index) l).

(** The instruction buffer of [TAP.ScanIR]: all ones but the selected TAP's
    instruction, cleared bit by bit and then written. *)
Definition instruction_data (total offset bits : Z) (instruction : list Z) : option (list Z) :=
  for_range bits (fun i data =>
    b ← index data ((offset + i) / 8);
    data ← store data ((offset + i) / 8) (and_not b (uint8 (Z.shiftl 1 ((offset + i) mod 8))));
    v ← get instruction i;
    put data (offset + i) v) (ones total).

Definition bad_instruction (instruction : list Z) (bits : Z) : option bool :=
  if negb (len instruction =? (bits + 7) / 8) then Some true
  else if bits mod 8 =? 0 then Some false
  else
    b ← index instruction (len instruction - 1);
    Some (negb (Z.shiftr b (bits mod 8) =? 0)).

Section Ops.
Context {W : Type} `{Env W} `{Wire W}.

Record CSt := mkCSt { chain : Chain; jst : St W }.

Abbreviation M := (GoM CSt).

Definition chget {A} (f : Chain -> A) : M A := gets (fun s => f (chain s)).
Definition chmod (f : Chain -> Chain) : M unit := modify (fun s => mkCSt (f (chain s)) (jst s)).

(** A call of the connection the chain owns. *)
Definition on_conn {A} (m : GoM (St W) A) : M A := fun s =>
  match m (jst s) with
  | Done (a, j) => Done (a, mkCSt (chain s) j)
  | Panicked => Panicked
  | OutOfFuel => OutOfFuel
  end.

Definition conn_serial : M Z := gets (fun s => serial (conn (jst s))).

Definition ready : M bool := gets (fun s =>
  has_conn (chain s) && valid (chain s) && (cserial (chain s) =? serial (conn (jst s)))).

Definition Connect_body (ctx : context) : M err :=
  l ← chget layout;
  '(found, e) ← on_conn (Discover ctx (len l));
  match e with
  | Some e => mret (Some e)
  | None =>
      if negb (len found =? len l) then mret (Some (New "jtag: TAP count mismatch"))
      else if reset_mismatch l found then mret (Some (New "jtag: reset register mismatch at TAP"))
      else
        '(length, e) ← on_conn (MeasureIR ctx 65536);
        match e with
        | Some e => mret (Some e)
        | None =>
            bits ← chget irBits;
            if negb (length =? bits) then mret (Some (New "jtag: total IR length mismatch"))
            else
              '(capture, e) ← on_conn (ScanIR ctx (ones (bits + 32)) (bits + 32));
              match e with
              | Some e => mret (Some e)
              | None =>
                  e ← lift (checkIR l (default [] capture));
                  match e with
                  | Some e => mret (Some e)
                  | None =>
                      now ← conn_serial;
                      chmod (fun c => set_valid true (set_cserial now c));;
                      mret None
                  end
              end
        end
  end.

Definition Connect (ctx : context) : M err :=
  present ← chget has_conn;
  if negb present then mret (Some (Sentinel jtag_ErrChainInvalid))
  else
    chmod (fun c => set_selected (-1) (set_valid false c));;
    serial0 ← conn_serial;
    chmod (fun c => set_generation (uint64 (generation c + 1)) c);;
    e ← Connect_body ctx;
    now ← conn_serial;
    (if negb (now =? serial0) then chmod (set_released false) else mret tt);;
    mret e.

Definition Release (ctx : context) : M err :=
  done_ ← chget released;
  if done_ : bool then mret None
  else
    ok ← ready;
    e ← (if ok : bool then mret None else Connect ctx);
    match e with
    | Some e => mret (Some e)
    | None =>
        chmod (set_valid false);;
        chmod (fun c => set_generation (uint64 (generation c + 1)) c);;
        bits ← chget irBits;
        '(capture, e) ← on_conn (ScanIR ctx (ones bits) bits);
        chmod (set_released (match capture with Some _ => true | None => false end));;
        mret e
    end.

Definition CleanupPending : M bool := gets (fun s => has_conn (chain s) && negb (released (chain s))).

(** [Chain.TAP] *)
Definition TAP_ (index : Z) : M (TAP * err) :=
  ok ← ready;
  if negb ok then mret (mkTAP 0 0, Some (Sentinel jtag_ErrChainInvalid))
  else
    l ← chget layout;
    if (index <? 0) || (len l <=? index)
    then mret (mkTAP 0 0, Some (New "jtag: TAP index out of range"))
    else g ← chget generation; mret (mkTAP index g, None).

Definition tap_valid (t : TAP) : M bool :=
  ok ← ready; g ← chget generation; mret (ok && (t_generation t =? g)).

Definition complete (e : err) : M err :=
  now ← conn_serial;
  chmod (set_cserial now);;
  (if is_nil e then mret tt else chmod (fun c => set_selected (-1) (set_valid false c)));;
  mret e.

Definition tap_ScanIR (t : TAP) (ctx : context) (instruction : list Z) : M (option (list Z) * err) :=
  ok ← tap_valid t;
  if negb ok then mret (None, Some (Sentinel jtag_ErrChainInvalid))
  else
    l ← chget layout;
    spec ← lift (index l (t_index t));
    let bits := ir spec in
    bad ← lift (bad_instruction instruction bits);
    if bad : bool then mret (None, Some (New "jtag: invalid instruction buffer"))
    else
      total ← chget irBits;
      let offset := ir_offset l (t_index t) in
      data ← lift (instruction_data total offset bits instruction);
      '(capture, e) ← on_conn (ScanIR ctx data total);
      e ← complete e;
      match e with
      | Some e => mret (None, Some e)
      | None =>
          chmod (set_selected (t_index t));;
          r ← lift (extract (default [] capture) offset bits);
          mret (Some r, None)
      end.

Definition dr_input (data : list Z) (index bits total : Z) : option (list Z) :=
  for_range bits (fun i input => b ← get data i; put input (index + i) b)
    (make_bytes ((total + 7) / 8)).

Definition tap_ScanDR (t : TAP) (ctx : context) (data : list Z) (bits : Z) : M (option (list Z) * err) :=
  ok ← tap_valid t;
  if negb ok then mret (None, Some (Sentinel jtag_ErrChainInvalid))
  else
    sel ← chget selected;
    if negb (sel =? t_index t) then mret (None, Some (Sentinel jtag_ErrInstructionChanged))
    else
      l ← chget layout;
      if (bits <=? 0) || (MaxScanBits - len l + 1 <? bits) || (len data <? (bits + 7) / 8)
      then mret (None, Some (New "jtag: invalid selected scan length or buffer"))
      else
        let total := bits + len l - 1 in
        input ← lift (dr_input data (t_index t) bits total);
        '(capture, e) ← on_conn (ScanDR ctx input total);
        e ← complete e;
        match e with
        | Some e => mret (None, Some e)
        | None =>
            r ← lift (extract (default [] capture) (t_index t) bits);
            mret (Some r, None)
        end.

Definition tap_Idle (t : TAP) (ctx : context) (cycles : Z) : M err :=
  ok ← tap_valid t;
  if negb ok then mret (Some (Sentinel jtag_ErrChainInvalid))
  else e ← on_conn (Idle_ ctx cycles); complete e.
End Ops.
Arguments CSt W : clear implicits.
