(* ===== verification/JtagChainFacts.v ===== *)
(** * What a validated chain's operations do

    Instruction and data buffers place the selected TAP's bits at its position
    and keep every other TAP in BYPASS; captures are cut out at the same place;
    a failed operation, a reconnection, a release or foreign traffic invalidates
    the borrowed TAPs. *)

From S2P Require Import Prelude Go Bits JtagTap JtagConn JtagConnFacts JtagChain.
Local Open Scope Z_scope.

(** ** Layouts *)

Definition spec_ok (s : TAPSpec) : Prop := 2 <= ir s <= 64.

Lemma Validate_None l :
  Validate l = None <-> 0 < len l <= 1024 /\ Forall spec_ok l.
Proof.
  unfold Validate. pose proof (len_nonneg l).
  destruct (Z.eqb_spec (len l) 0); cbn [orb]; [split; [done|lia]|].
  destruct (Z.ltb_spec 1024 (len l)); [split; [done|lia]|].
  destruct (existsb _ l) eqn:E.
  - split; [done|]. intros [_ Hf]. apply existsb_exists in E as (s & Hin & Hs).
    apply list_elem_of_In in Hin. eapply Forall_forall in Hf; [|done]. unfold spec_ok in Hf. lia.
  - split; [intros _|done]. split; [lia|]. apply Forall_forall. intros s Hin.
    assert ((ir s <? 2) || (64 <? ir s) = false) as Hs.
    { destruct (_ || _) eqn:Ee; [|done]. rewrite <- E. symmetry. apply existsb_exists.
      exists s. split; [by apply list_elem_of_In|done]. }
    unfold spec_ok. lia.
Qed.

Lemma ir_total_app l k : ir_total (l ++ k) = ir_total l + ir_total k.
Proof. induction l; simpl; lia. Qed.

Lemma ir_total_nonneg l : Forall spec_ok l -> 0 <= ir_total l <= 64 * len l.
Proof.
  unfold len. induction 1 as [|s l Hs Hl IH]; simpl; [lia|]. unfold spec_ok in Hs. lia.
Qed.

Lemma ir_offset_bound l i s :
  Forall spec_ok l -> index l i = Some s ->
  0 <= ir_offset l i /\ ir_offset l i + ir s <= ir_total l.
Proof.
  intros Hl [Hi Hs]%index_Some. unfold ir_offset.
  rewrite <- (take_drop_middle l (Z.to_nat i) s Hs) at 3. rewrite ir_total_app. simpl.
  pose proof (ir_total_nonneg (take (Z.to_nat i) l) (Forall_take _ _ _ Hl)).
  pose proof (ir_total_nonneg (drop (S (Z.to_nat i)) l) (Forall_drop _ _ _ Hl)). lia.
Qed.

(** ** Buffers *)

Lemma clear_bit_spec buf i :
  0 <= i < 8 * len buf -> bytes buf ->
  exists b buf', index buf (i / 8) = Some b /\
    store buf (i / 8) (and_not b (uint8 (Z.shiftl 1 (i mod 8)))) = Some buf' /\
    bytes buf' /\ len buf' = len buf /\
    forall j, 0 <= j -> gbit buf' j = gbit buf j && negb (j =? i).
Proof.
  intros Hi Hb. assert (0 <= i / 8 < len buf) as Hd by (unfold len in *; Z.to_euclidean_division_equations; lia).
  eexists _, _. split; [by apply index_bit|]. split; [by apply store_in|].
  assert (forall b, is_byte b -> is_byte (and_not b (uint8 (Z.shiftl 1 (i mod 8))))) as Hby.
  { intros b Hbb. unfold and_not, is_byte in *. assert (0 <= Z.ldiff b (uint8 (Z.shiftl 1 (i mod 8)))) by (apply Z.ldiff_nonneg; lia).
    split; [done|]. change 256 with (2 ^ 8). apply bits_lt_pow2; [lia|done|].
    intros k Hk. by rewrite Z.ldiff_spec, byte_bits_high. }
  split_and!.
  - apply Forall_insert; [done|]. by apply Hby, bytes_default.
  - apply len_insert.
  - intros j Hj. unfold gbit. destruct (decide (j / 8 = i / 8)) as [E|E].
    + rewrite E, list_lookup_insert_eq by (unfold len in Hd; lia). simpl. unfold and_not.
      rewrite Z.ldiff_spec. change 1 with (Z.b2z true). rewrite shifted_bit.
      2,3: Z.to_euclidean_division_equations; lia. simpl. do 2 f_equal.
      destruct (Z.eqb_spec (j mod 8) (i mod 8)), (Z.eqb_spec j i); try done; Z.to_euclidean_division_equations; lia.
    + rewrite list_lookup_insert_ne by (Z.to_euclidean_division_equations; lia).
      destruct (Z.eqb_spec j i) as [->|]; [done|]. by rewrite andb_true_r.
Qed.

Lemma instruction_data_spec total offset bits instruction :
  0 <= offset -> 0 <= bits -> offset + bits <= total -> bits <= 8 * len instruction ->
  exists data, instruction_data total offset bits instruction = Some data /\
    len data = bytes_for total /\
    forall j, 0 <= j < total ->
      gbit data j = if (offset <=? j) && (j <? offset + bits) then gbit instruction (j - offset) else true.
Proof.
  intros Ho Hb Ht Hi. unfold instruction_data.
  pose proof (bytes_for_bound total ltac:(lia)) as Hbf.
  match goal with |- context [for_range _ ?f _] => set (body := f) end.
  destruct (for_range_inv (fun k d => bytes d /\ len d = bytes_for total /\
      forall j, 0 <= j < total -> gbit d j =
        if (offset <=? j) && (j <? offset + k) then gbit instruction (j - offset) else true)
    body bits (ones total)) as (d & E & _ & Hl & G); [done| | |eauto].
  - intros k d Hk (H1 & H2 & H3). unfold body.
    destruct (clear_bit_spec d (offset + k)) as (b & d1 & -> & E1 & Hb1 & Hl1 & G1); [lia|done|].
    cbn [mbind option_bind]. rewrite E1. cbn [mbind option_bind].
    rewrite get_spec by lia. cbn [mbind option_bind].
    destruct (put_spec d1 (offset + k) (gbit instruction k)) as (d2 & -> & Hb2 & Hl2 & G2); [lia|done|].
    exists d2. split_and!; [done|done|lia|]. intros j Hj. rewrite G2, G1, H3 by lia.
    destruct (Z.eqb_spec j (offset + k)) as [->|].
    + replace (offset + k - offset) with k by lia. zcmp.
    + zcmp.
  - split_and!; [apply bytes_ones|apply len_ones; lia|]. intros j Hj. rewrite gbit_ones by lia. zcmp.
Qed.

Lemma extract_spec data offset bits :
  0 <= offset -> 0 <= bits -> offset + bits <= 8 * len data ->
  exists r, extract data offset bits = Some r /\ len r = bytes_for bits /\ bytes r /\
    forall i, 0 <= i < bits -> gbit r i = gbit data (offset + i).
Proof.
  intros Ho Hb Hl. unfold extract. pose proof (bytes_for_bound bits Hb) as Hbf.
  assert (len (make_bytes ((bits + 7) / 8)) = bytes_for bits) as Hm by (by apply len_make_bytes, bytes_for_nonneg).
  destruct (blit_spec (fun i result => b ← get data (offset + i); put result i b)
    (fun i => gbit data (offset + i)) 0 bits (make_bytes ((bits + 7) / 8))) as (r & E & Hb' & Hl' & G);
    [done|done|lia|apply bytes_make| |].
  - intros i d Hi _. by rewrite get_spec by lia.
  - exists r. split_and!; [done|lia|done|]. intros i Hi. rewrite G, gbit_make_bytes by lia.
    rewrite Z.sub_0_r. zcmp.
Qed.

Lemma dr_input_spec data index bits total :
  0 <= index -> 0 <= bits -> index + bits <= total -> bits <= 8 * len data ->
  exists input, dr_input data index bits total = Some input /\ len input = bytes_for total /\
    forall j, 0 <= j < total ->
      gbit input j = (index <=? j) && (j <? index + bits) && gbit data (j - index).
Proof.
  intros Hi Hb Ht Hd. unfold dr_input. pose proof (bytes_for_bound total ltac:(lia)) as Hbf.
  assert (len (make_bytes ((total + 7) / 8)) = bytes_for total) as Hm by (apply len_make_bytes, bytes_for_nonneg; lia).
  destruct (blit_spec (fun i input => b ← get data i; put input (index + i) b)
    (gbit data) index bits (make_bytes ((total + 7) / 8))) as (r & E & Hb' & Hl' & G);
    [done|done|lia|apply bytes_make| |].
  - intros i d Hk _. by rewrite get_spec by lia.
  - exists r. split_and!; [done|lia|]. intros j Hj. by rewrite G, gbit_make_bytes by lia.
Qed.

Lemma checkIR_total l capture offset :
  Forall spec_ok l -> 0 <= offset -> offset + ir_total l + 32 <= 8 * len capture ->
  exists r, checkIR_loop l capture offset = Some r /\
    (forall o, r = inl o -> o = offset + ir_total l /\
       forall k s, l !! k = Some s ->
         gbit capture (offset + ir_total (take k l)) = true /\
         gbit capture (offset + ir_total (take k l) + 1) = false).
Proof.
  intros Hl. revert offset. induction Hl as [|s l Hs Hl IH]; intros offset Ho Hc; simpl in *.
  - eexists. split; [done|]. intros o [= <-]. split; [lia|]. intros k s Hk. by rewrite lookup_nil in Hk.
  - unfold spec_ok in Hs. pose proof (ir_total_nonneg l Hl). rewrite (get_spec capture offset) by lia. cbn [mbind option_bind].
    destruct (gbit capture offset) eqn:E0; simpl; [|eexists; split; [reflexivity|]; by intros o [=]].
    rewrite (get_spec capture (offset + 1)) by lia. cbn [mbind option_bind].
    destruct (gbit capture (offset + 1)) eqn:E1; simpl; [eexists; split; [reflexivity|]; by intros o [=]|].
    destruct (IH (offset + ir s)) as (r & Er & Hr); [lia|lia|].
    exists r. split; [done|]. intros o Eo. destruct (Hr o Eo) as [-> Hk]. split; [lia|].
    intros [|k] t Et; simpl in *.
    + rewrite Z.add_0_r. done.
    + replace (offset + (ir s + ir_total (take k l))) with (offset + ir s + ir_total (take k l)) by lia.
      by apply Hk with t.
Qed.

Lemma checkIR_spec l capture :
  Forall spec_ok l -> ir_total l + 32 <= 8 * len capture ->
  exists e, checkIR l capture = Some e /\
    (e = None ->
       (forall k s, l !! k = Some s ->
          gbit capture (ir_total (take k l)) = true /\ gbit capture (ir_total (take k l) + 1) = false) /\
       (forall i, 0 <= i < 32 -> gbit capture (ir_total l + i) = true)).
Proof.
  intros Hl Hc. unfold checkIR. destruct (checkIR_total l capture 0) as (r & -> & Hr); [done|lia|lia|].
  cbn [mbind option_bind]. destruct r as [o|e]; [|eexists; split; [done|done]].
  destruct (Hr o eq_refl) as [-> Hk]. rewrite Z.add_0_l. pose proof (ir_total_nonneg l Hl).
  rewrite word_spec by lia. cbn [mbind option_bind]. eexists. split; [done|].
  destruct (Z.eqb_spec (bits_value 32 (fun i => gbit capture (ir_total l + i))) maxUint32) as [E|]; [|done].
  intros _. split; [intros k s Hs; apply (Hk k s Hs)|]. intros i Hi.
  assert (Z.testbit (bits_value 32 (fun i => gbit capture (ir_total l + i))) i = true) as Hb.
  { rewrite E. change maxUint32 with (Z.ones 32). by apply Z.ones_spec_low. }
  rewrite bits_value_testbit in Hb by lia. by apply andb_true_iff in Hb as [_ ?].
Qed.

(** ** Operations *)

(** What [NewChain] establishes and every operation keeps. *)
Definition chain_wf (c : Chain) : Prop :=
  has_conn c = true /\ 0 < len (layout c) <= 1024 /\ Forall spec_ok (layout c) /\
  irBits c = ir_total (layout c) /\ 0 <= generation c < 2 ^ 64.

Lemma NewChain_wf present l c : NewChain present l = (Some c, None) -> chain_wf c.
Proof.
  unfold NewChain. destruct present; [|done]. cbn [negb].
  destruct (Validate l) eqn:Ev; [done|]. intros [= <-]. apply Validate_None in Ev as [Hl Hs].
  done.
Qed.

Section Chain.
Context {W : Type} `{Env W} `{Wire W}.
Context (R : list (bool * bool) -> W -> list bool -> W -> Prop) (HR : StreamLaws R).

Lemma wp_on_conn {A} (m : GoM (St W) A) (Q : A -> CSt W -> Prop) s :
  wp m (fun a j => Q a (mkCSt (chain s) j)) (jst s) -> wp (on_conn m) Q s.
Proof. unfold wp, on_conn. by destruct (m (jst s)) as [[a j]| |]. Qed.

(** Fields the chain never changes after construction. *)
Definition same_chain (c c' : Chain) : Prop :=
  has_conn c' = has_conn c /\ layout c' = layout c /\ irBits c' = irBits c.

Lemma ir_total_max c : chain_wf c -> 2 <= irBits c <= 65536.
Proof.
  intros (_ & Hl & Hs & -> & _). pose proof (ir_total_nonneg _ Hs).
  destruct (layout c) as [|a l]; [unfold len in Hl; simpl in Hl; lia|].
  inversion Hs; subst. pose proof (ir_total_nonneg l ltac:(done)). simpl in *. unfold spec_ok in *. lia.
Qed.

Definition ready_b (s : CSt W) : bool :=
  has_conn (chain s) && valid (chain s) && (cserial (chain s) =? serial (conn (jst s))).

Definition live (t : TAP) (s : CSt W) : bool :=
  ready_b s && (t_generation t =? generation (chain s)).

Lemma wp_tap_valid t (Q : bool -> CSt W -> Prop) s : Q (live t s) s -> wp (tap_valid t) Q s.
Proof. done. Qed.

(** [complete] resynchronises after success and invalidates after failure. *)
Lemma wp_complete e (Q : err -> CSt W -> Prop) s :
  Q e (mkCSt (if is_nil e then set_cserial (serial (conn (jst s))) (chain s)
              else set_selected (-1) (set_valid false (set_cserial (serial (conn (jst s))) (chain s)))) (jst s)) ->
  wp (complete e) Q s.
Proof. unfold complete. intros HQ. by destruct e. Qed.

(** The bits the selected TAP sends and receives sit at [offset] of the scan. *)
Definition placed (data : list Z) (total offset bits : Z) (mine : list Z) (rest : bool) : Prop :=
  len data = bytes_for total /\
  forall j, 0 <= j < total ->
    gbit data j = if (offset <=? j) && (j <? offset + bits) then gbit mine (j - offset) else rest.

Definition cut (out cap : list Z) (offset bits : Z) : Prop :=
  bytes out /\ len out = bytes_for bits /\ forall i, 0 <= i < bits -> gbit out i = gbit cap (offset + i).

Definition tap_scan_post (shift : State) (offset bits total : Z) (mine : list Z) (rest : bool)
    (sel : Z) (s : CSt W) (r : option (list Z) * err) (s' : CSt W) : Prop :=
  same_chain (chain s) (chain s') /\ generation (chain s') = generation (chain s) /\
  match snd r with
  | None => exists out data cap, fst r = Some out /\
      placed data total offset bits mine rest /\
      scanned R data total shift (jst s) cap (jst s') /\ cut out cap offset bits /\
      selected (chain s') = sel /\ ready_b s' = true
  | Some _ => fst r = None /\
      (s' = s \/ ready_b s = true /\ valid (chain s') = false /\ reach R (jst s) (jst s'))
  end.

Lemma wp_conn_scan shift ctx data total offset bits mine rest sel
    (fin : option (list Z) -> GoM (CSt W) (option (list Z) * err)) s :
  shift = ShiftIR \/ shift = ShiftDR -> ready_b s = true ->
  0 <= offset -> 0 <= bits -> offset + bits <= total ->
  placed data total offset bits mine rest ->
  (forall cap s1, total <= 8 * len cap -> same_chain (chain s) (chain s1) ->
     generation (chain s1) = generation (chain s) -> ready_b s1 = true ->
     selected (chain s1) = selected (chain s) ->
     wp (fin (Some cap)) (fun r s2 => exists out, r = (Some out, None) /\ cut out cap offset bits /\
        jst s2 = jst s1 /\ same_chain (chain s1) (chain s2) /\ generation (chain s2) = generation (chain s1) /\
        ready_b s2 = true /\ selected (chain s2) = sel) s1) ->
  wp ('(capture, e) ← on_conn (scan ctx data total shift);
      e ← complete e;
      match e with
      | Some e => mret (None, Some e)
      | None => fin capture
      end) (tap_scan_post shift offset bits total mine rest sel s) s.
Proof.
  intros Hsh Hr Ho Hb Ht Hpl Hfin. apply wp_bind, wp_on_conn.
  eapply wp_mono; [by apply (scan_spec R HR)|]. intros [cap e] j Hsc.
  apply wp_bind, wp_complete. destruct e as [e|]; cbn [is_nil].
  { apply wp_ret. split; [done|]. split; [done|]. split; [done|]. right.
    split_and!; [done|done|]. cbn [jst]. by eapply scan_post_reach. }
  unfold scan_post in Hsc. simpl in Hsc. destruct cap as [cap|]; [|tauto].
  assert (len cap = bytes_for total) as Hl by apply Hsc.
  pose proof (bytes_for_bound total ltac:(lia)).
  eapply wp_mono; [apply Hfin; try done; [lia|]|].
  { unfold ready_b in *. simpl. apply andb_true_iff in Hr as [Hr _]. by rewrite Hr, Z.eqb_refl. }
  intros r s2 (out & -> & Hcut & Ej & (S1 & S2 & S3) & Eg & Er & Esel). simpl in *.
  split; [done|]. split; [done|]. exists out, data, cap. by rewrite Ej.
Qed.

Lemma bad_instruction_total instruction bits :
  2 <= bits -> exists b, bad_instruction instruction bits = Some b /\
    (b = false -> len instruction = bytes_for bits /\
       (bits mod 8 <> 0 -> Z.shiftr (List.last instruction 0) (bits mod 8) = 0)).
Proof.
  intros Hb. unfold bad_instruction. pose proof (bytes_for_bound bits ltac:(lia)).
  destruct (Z.eqb_spec (len instruction) ((bits + 7) / 8)) as [E|]; cbn [negb]; [|by eexists].
  destruct (Z.eqb_spec (bits mod 8) 0); [eexists; split; [done|]; done|].
  assert (0 < len instruction) by (unfold bytes_for in *; lia).
  destruct instruction as [|a l] using rev_ind; [unfold len in *; simpl in *; lia|].
  rewrite len_app. replace (len l + len [a] - 1) with (len l) by (unfold len; simpl; lia).
  rewrite index_lookup by apply len_nonneg. unfold len at 1. rewrite Nat2Z.id, lookup_app_r by lia.
  rewrite Nat.sub_diag. simpl. eexists. split; [done|]. intros Hz%negb_false_iff%Z.eqb_eq.
  rewrite List.last_last. split; [|done]. rewrite len_app in E. done.
Qed.

Lemma tap_ScanIR_spec t ctx instruction s spec :
  chain_wf (chain s) -> index (layout (chain s)) (t_index t) = Some spec ->
  wp (tap_ScanIR t ctx instruction)
    (tap_scan_post ShiftIR (ir_offset (layout (chain s)) (t_index t)) (ir spec)
       (irBits (chain s)) instruction true (t_index t) s) s.
Proof.
  intros Hwf Hi. pose proof Hwf as (_ & _ & Hs & Hir & _).
  destruct (ir_offset_bound _ _ _ Hs Hi) as [Ho Hob]. rewrite <- Hir in Hob.
  assert (spec_ok spec) as Hok.
  { apply index_Some in Hi as [_ Hi]. by eapply Forall_lookup_1 in Hs. }
  unfold spec_ok in Hok. unfold tap_ScanIR. apply wp_bind, wp_tap_valid.
  destruct (live t s) eqn:El; cbn [negb].
  2: { apply wp_ret. split_and!; [done|done|]. split; [done|by left]. }
  apply andb_true_iff in El as [Er _]. apply wp_bind, wp_gets. eapply wp_bind, wp_lift; [exact Hi|].
  destruct (bad_instruction_total instruction (ir spec)) as (bad & Eb & Hbad); [lia|].
  eapply wp_bind, wp_lift; [exact Eb|]. destruct bad.
  { apply wp_ret. split_and!; [done|done|]. split; [done|by left]. }
  destruct (Hbad eq_refl) as [Hlen _]. pose proof (bytes_for_bound (ir spec) ltac:(lia)).
  apply wp_bind, wp_gets.
  destruct (instruction_data_spec (irBits (chain s)) (ir_offset (layout (chain s)) (t_index t)) (ir spec) instruction)
    as (data & Ed & Hpl); [lia..|].
  eapply wp_bind, wp_lift; [exact Ed|]. eapply wp_conn_scan; [by left|done|lia|lia|lia|exact Hpl|].
  intros cap s1 Hc Hs1 Hg Hr1 _. apply wp_bind, wp_modify. cbn [default].
  destruct (extract_spec cap (ir_offset (layout (chain s)) (t_index t)) (ir spec)) as (out & Ex & Hlo & Hbo & Hg'); [lia..|].
  eapply wp_bind, wp_lift; [exact Ex|]. apply wp_ret. exists out. split_and!; try done.
Qed.

Lemma tap_ScanDR_spec t ctx data bits s spec :
  chain_wf (chain s) -> index (layout (chain s)) (t_index t) = Some spec ->
  wp (tap_ScanDR t ctx data bits)
    (fun r s' => tap_scan_post ShiftDR (t_index t) bits (bits + len (layout (chain s)) - 1)
       data false (selected (chain s)) s r s' /\
       (snd r = None -> selected (chain s) = t_index t)) s.
Proof.
  intros Hwf Hi. pose proof Hwf as (_ & Hln & _).
  assert (0 <= t_index t < len (layout (chain s))) as Hti by (apply index_is_Some; eauto).
  unfold tap_ScanDR. apply wp_bind, wp_tap_valid.
  destruct (live t s) eqn:El; cbn [negb].
  2: { apply wp_ret. split; [|done]. split_and!; [done|done|]. split; [done|by left]. }
  apply andb_true_iff in El as [Er _]. apply wp_bind, wp_gets.
  destruct (Z.eqb_spec (selected (chain s)) (t_index t)) as [Esel|]; cbn [negb].
  2: { apply wp_ret. split; [|done]. split_and!; [done|done|]. split; [done|by left]. }
  apply wp_bind, wp_gets. destruct ((bits <=? 0) || _ || _) eqn:Eb.
  { apply wp_ret. split; [|done]. split_and!; [done|done|]. split; [done|by left]. }
  apply orb_false_iff in Eb as [[Hb%Z.leb_gt _]%orb_false_iff Hd%Z.ltb_ge].
  pose proof (bytes_for_bound bits ltac:(lia)). fold (bytes_for bits) in Hd.
  destruct (dr_input_spec data (t_index t) bits (bits + len (layout (chain s)) - 1)) as (input & Ein & Hlin & Hgin); [lia..|].
  eapply wp_bind, wp_lift; [exact Ein|]. eapply wp_mono.
  - eapply (wp_conn_scan ShiftDR ctx input _ (t_index t) bits data false (selected (chain s))); [by right|done|lia|lia|lia| |].
    { split; [done|]. intros j Hj. rewrite Hgin by done. by destruct (_ <=? _), (_ <? _). }
    intros cap s1 Hc Hs1 Hg Hr1 Hsel. cbn [default].
    destruct (extract_spec cap (t_index t) bits) as (out & Ex & Hlo & Hbo & Hg'); [lia..|].
    eapply wp_bind, wp_lift; [exact Ex|]. apply wp_ret. exists out. split_and!; try done.
  - intros r s' Hp. split; [exact Hp|done].
Qed.

Lemma reset_mismatch_false l found :
  length found = length l -> reset_mismatch l found = false -> found = reset <$> l.
Proof.
  unfold reset_mismatch. revert found. induction l as [|a l IH]; intros [|f found] Hl; try done.
  simpl. intros [Hf Hr]%orb_false_iff. apply negb_false_iff, bool_decide_eq_true in Hf.
  f_equal; [done|]. apply IH; [by injection Hl|done].
Qed.

(** Everything a successful validation observed on the wire. *)
Definition validated (l : Layout) (j j' : St W) : Prop :=
  exists j1 j2 cap,
    discovered R (len l) (reset <$> l) j j1 /\ measured R 65536 (ir_total l) j1 j2 /\
    scanned R (ones (ir_total l + 32)) (ir_total l + 32) ShiftIR j2 cap j' /\
    (forall k s, l !! k = Some s ->
       gbit cap (ir_total (take k l)) = true /\ gbit cap (ir_total (take k l) + 1) = false) /\
    (forall i, 0 <= i < 32 -> gbit cap (ir_total l + i) = true).

Lemma connect_body_spec ctx s :
  chain_wf (chain s) -> valid (chain s) = false ->
  wp (Connect_body ctx) (fun e s' =>
    match e with
    | None => chain s' = set_valid true (set_cserial (serial (conn (jst s'))) (chain s)) /\
        validated (layout (chain s)) (jst s) (jst s')
    | Some _ => chain s' = chain s
    end) s.
Proof.
  intros Hwf Hv. pose proof Hwf as (_ & Hl & Hok & Hir & _). pose proof (ir_total_max _ Hwf) as Hmax.
  unfold Connect_body. apply wp_bind, wp_gets. apply wp_bind, wp_on_conn.
  eapply wp_mono; [apply (discover_spec R HR)|]. intros [found e] j1 [_ H1]. simpl in H1.
  destruct e; [by apply wp_ret|]. destruct (Z.eqb_spec (len found) (len (layout (chain s)))) as [El|]; [|by apply wp_ret].
  cbn [negb]. destruct (reset_mismatch _ _) eqn:Em; [by apply wp_ret|].
  apply reset_mismatch_false in Em; [|unfold len in El; lia]. subst found.
  apply wp_bind, wp_on_conn. eapply wp_mono; [apply (measure_spec R HR)|]. intros [n e] j2 [_ H2]. simpl in H2.
  destruct e; [by apply wp_ret|]. apply wp_bind, wp_gets. cbn [chain].
  destruct (Z.eqb_spec n (irBits (chain s))) as [->|]; cbn [negb]; [|by apply wp_ret].
  apply wp_bind, wp_on_conn. eapply wp_mono; [apply (scan_spec R HR); by left|].
  intros [cap e] j3 H3. destruct e; [by apply wp_ret|].
  unfold scan_post in H3. simpl in H3. destruct cap as [cap|]; [|tauto].
  pose proof (bytes_for_bound (irBits (chain s) + 32) ltac:(lia)).
  assert (len cap = bytes_for (irBits (chain s) + 32)) as Hlc by apply H3.
  destruct (checkIR_spec (layout (chain s)) cap) as (e & Ee & Hcap); [done|lia|].
  eapply wp_bind, wp_lift; [exact Ee|]. destruct e as [e|]; [by apply wp_ret|].
  apply wp_bind, wp_gets, wp_bind, wp_modify, wp_ret. split; [done|].
  destruct (Hcap eq_refl) as [Hb1 Hb2]. exists j1, j2, cap. rewrite Hir in *. done.
Qed.

Definition connect_post (s : CSt W) (e : err) (s' : CSt W) : Prop :=
  same_chain (chain s) (chain s') /\ generation (chain s') = uint64 (generation (chain s) + 1) /\
  selected (chain s') = -1 /\
  (serial (conn (jst s')) <> serial (conn (jst s)) -> released (chain s') = false) /\
  (serial (conn (jst s')) = serial (conn (jst s)) -> released (chain s') = released (chain s)) /\
  match e with
  | None => ready_b s' = true /\ validated (layout (chain s)) (jst s) (jst s')
  | Some _ => valid (chain s') = false
  end.

Lemma chain_wf_step c g v sel :
  chain_wf c -> 0 <= g < 2 ^ 64 -> chain_wf (set_generation g (set_selected sel (set_valid v c))).
Proof. intros (? & ? & ? & ? & ?) ?. unfold chain_wf; simpl; split_and!; first [done|lia]. Qed.

Lemma connect_spec ctx s :
  chain_wf (chain s) -> wp (Connect ctx) (connect_post s) s.
Proof.
  intros Hwf. unfold Connect. apply wp_bind, wp_gets. pose proof Hwf as (-> & _). cbn [negb].
  apply wp_bind, wp_modify, wp_bind, wp_gets, wp_bind, wp_modify, wp_bind. cbn [chain jst].
  eapply wp_mono.
  { apply connect_body_spec; [|done]. apply chain_wf_step; [done|apply uint64_range]. }
  intros e s' Hb. cbn [chain jst] in Hb. apply wp_bind, wp_gets, wp_bind.
  assert (chain s' = (match e with None => set_valid true ∘ set_cserial (serial (conn (jst s'))) | Some _ => id end)
    (set_generation (uint64 (generation (chain s) + 1)) (set_selected (-1) (set_valid false (chain s))))) as Ec.
  { by destruct e; [|destruct Hb]. }
  assert (ready_b (mkCSt (set_valid true (set_cserial (serial (conn (jst s')))
     (set_generation (uint64 (generation (chain s) + 1)) (set_selected (-1) (set_valid false (chain s)))))) (jst s')) = true) as Hrd.
  { destruct Hwf as (Hh & _). unfold ready_b. simpl. by rewrite Hh, Z.eqb_refl. }
  destruct s' as [c' j']. cbn [chain jst] in *. subst c'.
  destruct (Z.eqb_spec (serial (conn j')) (serial (conn (jst s)))) as [Es|Es]; cbn [negb].
  - apply wp_ret, wp_ret. unfold connect_post. destruct e; simpl; split_and!; try done; try (by intros []); apply Hb.
  - apply wp_modify, wp_ret. unfold connect_post. destruct e; simpl; split_and!; try done; apply Hb.
Qed.

(** [g'] follows [g] by one or two increments of a uint64. *)
Definition advanced (g g' : Z) : Prop := g' = uint64 (g + 1) \/ g' = uint64 (uint64 (g + 1) + 1).

Definition release_post (s : CSt W) (e : err) (s' : CSt W) : Prop :=
  if released (chain s) then e = None /\ s' = s
  else same_chain (chain s) (chain s') /\ advanced (generation (chain s)) (generation (chain s')) /\
    valid (chain s') = false /\ (e = None -> released (chain s') = true) /\
    (released (chain s') = true -> exists j cap,
       scanned R (ones (irBits (chain s))) (irBits (chain s)) ShiftIR j cap (jst s')).

Lemma release_park ctx s :
  wp (chmod (set_valid false);;
      chmod (fun c => set_generation (uint64 (generation c + 1)) c);;
      bits ← chget irBits;
      '(capture, e) ← on_conn (ScanIR ctx (ones bits) bits);
      chmod (set_released (match capture with Some _ => true | None => false end));;
      mret e)
    (fun e s' => same_chain (chain s) (chain s') /\
       generation (chain s') = uint64 (generation (chain s) + 1) /\ valid (chain s') = false /\
       (e = None -> released (chain s') = true) /\
       (released (chain s') = true -> exists cap,
          scanned R (ones (irBits (chain s))) (irBits (chain s)) ShiftIR (jst s) cap (jst s'))) s.
Proof.
  apply wp_bind, wp_modify, wp_bind, wp_modify, wp_bind, wp_gets. cbn [chain jst].
  apply wp_bind, wp_on_conn. eapply wp_mono; [apply (scan_spec R HR); by left|].
  intros [cap e] j Hsc. apply wp_bind, wp_modify, wp_ret. unfold scan_post in Hsc. simpl in *.
  split_and!; try done.
  - intros ->. destruct cap; [done|tauto].
  - destruct cap as [cap|]; [|done]. intros _. by exists cap.
Qed.

Lemma release_spec ctx s :
  chain_wf (chain s) -> wp (Release ctx) (release_post s) s.
Proof.
  intros Hwf. unfold Release, release_post. apply wp_bind, wp_gets.
  destruct (released (chain s)) eqn:Er; [by apply wp_ret|].
  apply wp_bind, wp_gets, wp_bind.
  apply (wp_mono _ (fun e s1 => match e with
    | None => same_chain (chain s) (chain s1) /\ (generation (chain s1) = generation (chain s) \/
        generation (chain s1) = uint64 (generation (chain s) + 1))
    | Some _ => connect_post s e s1 end)).
  - destruct (_ && _ && _); [apply wp_ret; split; [done|by left]|].
    eapply wp_mono; [by apply connect_spec|]. intros [e|] s1 Hc; [done|].
    destruct Hc as (? & ? & _). split; [done|by right].
  - intros [e|] s1 H1.
    + destruct H1 as (? & Hg & _ & Hr1 & Hr2 & Hv). apply wp_ret.
      assert (released (chain s1) = false) as Hr.
      { destruct (decide (serial (conn (jst s1)) = serial (conn (jst s)))); [by rewrite Hr2|by apply Hr1]. }
      split_and!; [done|by left|done|done|congruence].
    + destruct H1 as [(S1 & S2 & S3) Hg]. eapply wp_mono; [apply release_park|].
      intros e s' ((T1 & T2 & T3) & Hg' & Hv & He & Hs). split_and!; [split_and!; congruence| |done|done|].
      * unfold advanced. destruct Hg as [<-|<-]; [by left|by right].
      * intros Hr. destruct (Hs Hr) as [cap Hcap]. exists (jst s1), cap. by rewrite <- S3.
Qed.

Lemma tap_Idle_spec t ctx cycles s :
  wp (tap_Idle t ctx cycles) (fun e s' =>
    same_chain (chain s) (chain s') /\ generation (chain s') = generation (chain s) /\
    (s' = s \/ live t s = true /\ reach R (jst s) (jst s') /\
      match e with None => ready_b s' = true /\ selected (chain s') = selected (chain s)
                 | Some _ => valid (chain s') = false end)) s.
Proof.
  unfold tap_Idle. apply wp_bind, wp_tap_valid. destruct (live t s) eqn:El; cbn [negb].
  2: { apply wp_ret. split_and!; [done..|by left]. }
  apply wp_bind, wp_on_conn. eapply wp_mono; [apply (idle_spec R HR)|]. intros e j Hr.
  apply wp_complete. cbn [jst chain]. apply andb_true_iff in El as [[Hrd _]%andb_true_iff _].
  destruct e; simpl; split_and!; try done; right; split_and!; try done.
  unfold ready_b. simpl. by rewrite Hrd, Z.eqb_refl.
Qed.
End Chain.

(** ** Stale TAPs *)

Section Stale.
Context {W : Type} `{Env W} `{Wire W}.

(** One call on the chain or on a TAP it lent. *)
Inductive chain_step (s : CSt W) : CSt W -> Prop :=
| cstep_Connect ctx e s' : Connect ctx s = Done (e, s') -> chain_step s s'
| cstep_Release ctx e s' : Release ctx s = Done (e, s') -> chain_step s s'
| cstep_TAP i r s' : TAP_ i s = Done (r, s') -> chain_step s s'
| cstep_ScanIR t ctx d r s' : 0 <= t_index t < len (layout (chain s)) ->
    tap_ScanIR t ctx d s = Done (r, s') -> chain_step s s'
| cstep_ScanDR t ctx d n r s' : 0 <= t_index t < len (layout (chain s)) ->
    tap_ScanDR t ctx d n s = Done (r, s') -> chain_step s s'
| cstep_Idle t ctx n e s' : tap_Idle t ctx n s = Done (e, s') -> chain_step s s'.

(** [n] calls. *)
Inductive chain_run (s : CSt W) : Z -> CSt W -> Prop :=
| crun_refl : chain_run s 0 s
| crun_step n s1 s2 : chain_run s n s1 -> chain_step s1 s2 -> chain_run s (n + 1) s2.

(** A TAP that is not live, and of no later generation than the chain's. *)
Definition stale (t : TAP) (s : CSt W) : Prop :=
  t_generation t <= generation (chain s) /\
  (ready_b s = true -> t_generation t < generation (chain s)).

Definition anything (_ : list (bool * bool)) (_ : W) (_ : list bool) (_ : W) : Prop := True.

Lemma anything_laws : StreamLaws anything.
Proof. by split. Qed.

Definition kept (s s' : CSt W) : Prop :=
  same_chain (chain s) (chain s') /\
  (generation (chain s') = generation (chain s) /\ (s' = s \/ ready_b s = true) \/
   advanced (generation (chain s)) (generation (chain s'))).

Lemma chain_step_kept s s' : chain_wf (chain s) -> chain_step s s' -> kept s s'.
Proof.
  pose proof anything_laws as L. intros Hwf Hs.
  destruct Hs as [ctx e s' E|ctx e s' E|i r s' E|t ctx d r s' Hi E|t ctx d n r s' Hi E|t ctx n e s' E].
  - destruct (wp_elim _ _ _ _ _ (connect_spec _ L ctx s Hwf) E) as (? & ? & _). split; [done|]. right. by left.
  - pose proof (wp_elim _ _ _ _ _ (release_spec _ L ctx s Hwf) E) as Hp. unfold release_post in Hp.
    destruct (released (chain s)); [destruct Hp as [_ ->]; split; [done|]; left; auto|].
    destruct Hp as (? & ? & _). split; [done|]. by right.
  - assert (s' = s) as ->; [|split; [done|]; left; auto].
    unfold TAP_, ready, chget, gets, mbind, GoM_bind, mret, GoM_ret in E.
    destruct (_ && _ && _); simpl in E; [destruct (_ || _)|]; by injection E.
  - apply index_is_Some in Hi as [spec Hi].
    destruct (wp_elim _ _ _ _ _ (tap_ScanIR_spec _ L t ctx d s spec Hwf Hi) E) as (? & ? & Hm).
    split; [done|]. left. split; [done|]. destruct (snd r) eqn:Er.
    + destruct Hm as [_ [?|(? & _)]]; auto.
    + right. destruct (live t s) eqn:El; [by apply andb_true_iff in El as [? _]|].
      unfold tap_ScanIR, tap_valid, ready, chget, gets, mbind, GoM_bind, mret, GoM_ret in E. fold (ready_b s) in E.
      unfold live in El. rewrite El in E. injection E as <- _. done.
  - apply index_is_Some in Hi as [spec Hi].
    destruct (wp_elim _ _ _ _ _ (tap_ScanDR_spec _ L t ctx d n s spec Hwf Hi) E) as ((? & ? & Hm) & _).
    split; [done|]. left. split; [done|]. destruct (snd r) eqn:Er.
    + destruct Hm as [_ [?|(? & _)]]; auto.
    + right. destruct (live t s) eqn:El; [by apply andb_true_iff in El as [? _]|].
      unfold tap_ScanDR, tap_valid, ready, chget, gets, mbind, GoM_bind, mret, GoM_ret in E. fold (ready_b s) in E.
      unfold live in El. rewrite El in E. injection E as <- _. done.
  - destruct (wp_elim _ _ _ _ _ (tap_Idle_spec _ L t ctx n s) E) as (? & ? & Hm).
    split; [done|]. left. split; [done|]. destruct Hm as [?|(El & _)]; [auto|].
    right. by apply andb_true_iff in El as [? _].
Qed.

Lemma kept_wf s s' : chain_wf (chain s) -> kept s s' -> chain_wf (chain s').
Proof.
  intros (H1 & H2 & H3 & H4 & H5) [(S1 & S2 & S3) Hg]. unfold chain_wf. rewrite S1, S2, S3.
  split_and!; try done; try lia; destruct Hg as [[-> _]|[->| ->]]; try lia; apply uint64_range.
Qed.

Lemma chain_run_stale t n s s' :
  chain_wf (chain s) -> stale t s -> chain_run s n s' -> generation (chain s) + 2 * n < 2 ^ 64 ->
  chain_wf (chain s') /\ stale t s' /\ generation (chain s) <= generation (chain s') <= generation (chain s) + 2 * n.
Proof.
  intros Hwf Hst Hr. induction Hr as [|n s1 s2 Hr IH Hs]; intros Hn; [split_and!; [done|done|lia|lia]|].
  destruct IH as (Hwf1 & [Hle Hlt] & Hg1); [lia|]. pose proof (chain_step_kept s1 s2 Hwf1 Hs) as Hk.
  split; [by eapply kept_wf|]. destruct Hwf1 as (_ & _ & _ & _ & Hb).
  destruct Hk as [_ [[Eg Hor]|Hadv]].
  - split; [|lia]. unfold stale. rewrite Eg. split; [done|].
    destruct Hor as [->|Hrd]; [done|]. intros _. by apply Hlt.
  - assert (generation (chain s1) < generation (chain s2) <= generation (chain s1) + 2) as Hadv'.
    { destruct Hadv as [->| ->]; rewrite ?(uint64_small (generation (chain s1) + 1)), ?uint64_small by lia; lia. }
    split; [|lia]. split; [lia|]. intros _. lia.
Qed.
End Stale.
