(* ===== verification/JtagProps.v ===== *)
(** * The JTAG package's contract

    The properties of jtag: the path search, the tracked TAP state, clocking in
    limited chunks, scans, discovery, measurement, and validated chains with
    their borrowed TAPs.  Every statement is total: [wp] says that the operation
    returns, without a panic, whatever the wire answers.  Witnesses use a small
    wire, three clocks per call at most, that echoes TDI and walks one TAP. *)

From S2P Require Import Prelude Go Bits JtagTap JtagConn JtagConnFacts JtagChain JtagChainFacts.
Local Open Scope Z_scope.

(** ** A target clocked bit by bit *)

Section Ticks.
Context {W T : Type} (target : W -> T) (tick : T -> bool * bool -> bool * T).

Fixpoint run_ticks (t : T) (p : list (bool * bool)) : list bool * T :=
  match p with
  | [] => ([], t)
  | x :: p => let '(o, t1) := tick t x in let '(os, t2) := run_ticks t1 p in (o :: os, t2)
  end.

Definition ticked (p : list (bool * bool)) (w : W) (outs : list bool) (w' : W) : Prop :=
  run_ticks (target w) p = (outs, target w').

(** Contexts do not touch the target, and a successful wire call clocks it
    once for each bit of its buffers and returns what it samples. *)
Record TickWire `{Env W} `{Wire W} : Prop := {
  tick_ctx ctx w : target (snd (ctx_Err ctx w)) = target w;
  tick_io ctx ms di n w do_ w' :
    JTAGIO ctx ms di n w = ((do_, None), w') -> len do_ = len di ->
    0 <= n <= 8 * len ms -> 0 <= n <= 8 * len di ->
    run_ticks (target w) (stream ms di 0 n) = (gbit do_ <$> seqZ 0 n, target w')
}.

Lemma run_ticks_app t p q :
  run_ticks t (p ++ q) =
    let '(o1, t1) := run_ticks t p in let '(o2, t2) := run_ticks t1 q in (o1 ++ o2, t2).
Proof.
  revert t. induction p as [|x p IH]; intros t; simpl; [by destruct (run_ticks t q)|].
  destruct (tick t x) as [o t1]. rewrite IH. destruct (run_ticks t1 p) as [o1 t2].
  by destruct (run_ticks t2 q).
Qed.

Lemma ticked_laws `{Env W} `{Wire W} : TickWire -> StreamLaws ticked.
Proof.
  intros [Hc Hio]. unfold ticked. split.
  - done.
  - intros p q w w1 w2 o o' H1 H2. by rewrite run_ticks_app, H1, H2.
  - intros ctx p w o w'. by rewrite Hc.
  - eauto.
Qed.
End Ticks.

(** ** The wire of the witnesses *)

(** Everything clocked since power-on, when the TAP is in Reset. *)
Record Loop := mkLoop { loop_log : list (bool * bool) }.

#[global] Instance Loop_Env : Env Loop := {| ctx_Err := fun _ w => (None, w) |}.

#[global] Instance Loop_Wire : Wire Loop := {|
  JTAGIO := fun _ tms tdi bits w => ((tdi, None), mkLoop (loop_log w ++ stream tms tdi 0 bits));
  MaxTransferBits := Some (fun _ => 3)
|}.

Definition loop_tap (w : Loop) : State := walk Reset (loop_log w).*1.
Definition loop_tick (t : list (bool * bool)) (x : bool * bool) : bool * list (bool * bool) := (x.2, t ++ [x]).

Lemma loop_ticks t p : run_ticks loop_tick t p = (p.*2, t ++ p).
Proof.
  revert t. induction p as [|x p IH]; intros t; simpl; [by rewrite app_nil_r|].
  by rewrite IH, <- app_assoc.
Qed.

Lemma Loop_TickWire : TickWire loop_log loop_tick.
Proof.
  split; [done|]. intros ctx ms di n w do_ w' [= <- <-] _ _ _. rewrite loop_ticks. simpl.
  unfold stream. by rewrite <- list_fmap_compose.
Qed.

Lemma Loop_ClocksTAP : ClocksTAP loop_tap.
Proof.
  split; [intros w; by apply walk_known|done|].
  intros ctx ms di n w do_ w' [= <- <-] _ _. unfold loop_tap, stream. simpl.
  by rewrite fmap_app, walk_app, <- list_fmap_compose.
Qed.

Definition loop_start : St Loop := mkSt (New_ true []) (mkLoop []).

(** Two TAPs: a four-bit IR with an IDCODE, then a five-bit IR in BYPASS. *)
Definition loop_layout : Layout :=
  [mkSpec 4 (mkObserved 0x4ba00477 false); mkSpec 5 (mkObserved 0 true)].

Definition loop_chain (v : bool) (sel : Z) : CSt Loop :=
  mkCSt (mkChain true loop_layout 9 0 1 v false sel) (mkSt (set_state Idle (New_ true [])) (mkLoop [])).

Lemma loop_chain_wf v sel : chain_wf (chain (loop_chain v sel)).
Proof.
  unfold chain_wf, len, spec_ok, loop_layout. simpl. split_and!; try done; try lia.
  repeat constructor; simpl; lia.
Qed.

(** ** Movement *)

(** [path] returns, for every pair of TAP states, a TMS stream that reaches
    the destination without entering Reset unless Reset is the destination, and
    no shorter stream does. *)
Theorem path_shortest from to :
  from <> Unknown -> to <> Unknown ->
  exists bits, path from to = Some bits /\ acceptable from to bits = true /\
    forall tms, acceptable from to tms = true -> (length bits <= length tms)%nat.
Proof.
  intros Hf Ht. pose proof (path_ok_each from to Hf Ht) as Hp. unfold path_ok in Hp.
  destruct (path from to) as [bits|]; [|done]. apply andb_true_iff in Hp as [Ha Hs].
  exists bits. split_and!; [done|done|]. intros tms Htms.
  destruct (decide (length bits <= length tms)%nat) as [|Hlt]; [done|exfalso].
  rewrite forallb_forall in Hs. specialize (Hs (length tms)). rewrite forallb_forall in Hs.
  assert (negb (acceptable from to tms) = true) as Hn.
  { apply Hs; [apply in_seq; lia|]. apply list_elem_of_In, streams_complete. }
  by rewrite Htms in Hn.
Qed.

(** C7: over a wire whose successful calls clock the target, any sequence of
    connection operations, failed and cancelled ones included, keeps the tracked
    state either Unknown or equal to the target's TAP state. *)
Theorem state_tracks_target {W} `{Env W} `{Wire W} (tap : W -> State) (s s' : St W) :
  ClocksTAP tap -> state (conn s) = Unknown -> conn_run s s' ->
  state (conn s') = Unknown \/ state (conn s') = tap (world s').
Proof. intros HT Hs. apply (conn_run_tracked tap HT). by left. Qed.

Lemma state_tracks_target_witness :
  exists s', conn_run loop_start s' /\ state (conn s') = ShiftDR /\
    (state (conn s') = Unknown \/ state (conn s') = loop_tap (world s')).
Proof.
  assert (exists s1, Reset_ Background loop_start = Done (None, s1) /\
    exists s2, Move Background ShiftDR s1 = Done (None, s2) /\ state (conn s2) = ShiftDR) as (s1 & E1 & s2 & E2 & E3).
  { eexists. split; [vm_compute; reflexivity|]. eexists. split; [vm_compute; reflexivity|reflexivity]. }
  assert (conn_run loop_start s2) as Hr.
  { eapply run_step; [eapply run_step; [apply run_refl|]|]; [eapply step_Reset, E1|eapply step_Move, E2]. }
  exists s2. split; [exact Hr|]. split; [exact E3|].
  apply (state_tracks_target loop_tap loop_start s2); [exact Loop_ClocksTAP|reflexivity|exact Hr].
Defined.

(** ** Clocking *)

(** Clocking a stream is independent of the wire's transfer limit: on
    success the samples are those of clocking the target once per bit of the
    whole stream, in order, and the target has seen exactly that stream; on
    failure the tracked state is Unknown or follows a prefix of it. *)
Theorem clock_chunks_transparent {W T} `{Env W} `{Wire W} (target : W -> T) tick ctx tms tdi bits (s : St W) :
  TickWire target tick -> 0 <= bits -> bits <= 8 * len tms -> bits <= 8 * len tdi ->
  wp (clock ctx tms tdi bits) (fun r s' =>
    match snd r with
    | None => exists o, fst r = Some o /\ len o = bytes_for bits /\
        run_ticks tick (target (world s)) (stream tms tdi 0 bits) = (gbit o <$> seqZ 0 bits, target (world s')) /\
        state (conn s') = walk (state (conn s)) (stream tms tdi 0 bits).*1
    | Some _ => fst r = None /\ follows (ticked target tick) (stream tms tdi 0 bits) s s'
    end) s.
Proof.
  intros HT Hb Hm Hd. eapply wp_mono; [apply (clock_spec _ (ticked_laws target tick HT)); done|].
  intros r s' [_ Hr]. destruct (snd r); [done|]. destruct Hr as (o & ? & _ & ? & ? & ?). eauto.
Qed.



(** ** Discovery *)

(** Decoding the captured reset registers is the inverse of presenting them:
    a buffer holding the IDCODE and BYPASS registers of [taps] and then ones
    yields those TAPs, no chain when there are none, and the first [maxTAPs] with
    the limit error when there are more. *)
Theorem observations_roundtrip data maxTAPs taps :
  Forall presentable taps -> 0 <= maxTAPs -> chain_data data taps maxTAPs 0 ->
  observations data maxTAPs = Done (
    if len taps <=? maxTAPs then
      (taps, if bool_decide (taps = []) then Some (Sentinel jtag_ErrNoChain) else None)
    else (take (Z.to_nat maxTAPs) taps, Some (Sentinel jtag_ErrDiscoveryLimit))).
Proof.
  intros Hp Hm Hd. rewrite (observations_spec data maxTAPs taps Hp Hm Hd). unfold observed, len. simpl.
  destruct (_ <=? _); [|done]. case_bool_decide as E; [by subst|done].
Qed.

(** [MeasureIR] succeeds with [n] only when, in Shift-IR and after the chain
    was filled with ones, a single zero shifted in came back after exactly [n]
    clocks and nothing else did, with 2 <= n <= maxBits, and the TAP was parked
    in Idle; on every other path the tracked state still follows the wire. *)
Theorem measure_exact {W} `{Env W} `{Wire W} R ctx maxBits (s : St W) :
  StreamLaws R ->
  wp (MeasureIR ctx maxBits) (fun r s' => reach R s s' /\
    match snd r with None => measured R maxBits (fst r) s s' | Some _ => True end) s.
Proof. intros HR. apply (measure_spec R HR). Qed.

(** ** Validated chains *)

(** [Chain.Connect] succeeds only after the wire presented exactly the
    layout: its reset registers in order after a reset, its total IR length, the
    two fixed capture bits at each TAP's offset and ones beyond the last TAP.
    Every attempt advances the generation and deselects; a failed one leaves the
    chain invalid; and cleanup is owed exactly when traffic was sent. *)
Theorem connect_validates {W} `{Env W} `{Wire W} R ctx (s : CSt W) :
  StreamLaws R -> chain_wf (chain s) ->
  wp (Connect ctx) (fun e s' =>
    same_chain (chain s) (chain s') /\
    generation (chain s') = uint64 (generation (chain s) + 1) /\ selected (chain s') = -1 /\
    (serial (conn (jst s')) <> serial (conn (jst s)) -> released (chain s') = false) /\
    (serial (conn (jst s')) = serial (conn (jst s)) -> released (chain s') = released (chain s)) /\
    match e with
    | None => ready_b s' = true /\ validated R (layout (chain s)) (jst s) (jst s')
    | Some _ => valid (chain s') = false
    end) s.
Proof. intros HR Hwf. apply (connect_spec R HR ctx s Hwf). Qed.

(** [TAP.ScanIR] on a lent TAP scans the whole IR chain with the caller's
    instruction at the TAP's offset and ones, the BYPASS instruction, everywhere
    else, returns exactly the capture bits of that TAP and records the selection.
    Rejected calls change nothing; failures invalidate the chain. *)
Theorem tap_instruction_placed {W} `{Env W} `{Wire W} R t ctx instruction (s : CSt W) spec :
  StreamLaws R -> chain_wf (chain s) -> index (layout (chain s)) (t_index t) = Some spec ->
  let offset := ir_offset (layout (chain s)) (t_index t) in
  wp (tap_ScanIR t ctx instruction) (fun r s' =>
    generation (chain s') = generation (chain s) /\
    match snd r with
    | None => exists out data cap, fst r = Some out /\
        placed data (irBits (chain s)) offset (ir spec) instruction true /\
        scanned R data (irBits (chain s)) ShiftIR (jst s) cap (jst s') /\
        cut out cap offset (ir spec) /\ selected (chain s') = t_index t /\ ready_b s' = true
    | Some _ => fst r = None /\
        (s' = s \/ ready_b s = true /\ valid (chain s') = false /\ reach R (jst s) (jst s'))
    end) s.
Proof.
  intros HR Hwf Hi offset. eapply wp_mono; [by apply (tap_ScanIR_spec R HR t ctx instruction s spec)|].
  intros r s' (_ & Hg & Hm). done.
Qed.

(** [TAP.ScanDR] runs only for the TAP whose instruction was selected last;
    it gives every other TAP one bypass bit, puts the caller's data at the TAP's
    position with zeros around it, and returns the bits captured there. *)
Theorem tap_data_placed {W} `{Env W} `{Wire W} R t ctx data bits (s : CSt W) spec :
  StreamLaws R -> chain_wf (chain s) -> index (layout (chain s)) (t_index t) = Some spec ->
  let total := bits + len (layout (chain s)) - 1 in
  wp (tap_ScanDR t ctx data bits) (fun r s' =>
    generation (chain s') = generation (chain s) /\
    match snd r with
    | None => selected (chain s) = t_index t /\ exists out input cap, fst r = Some out /\
        placed input total (t_index t) bits data false /\
        scanned R input total ShiftDR (jst s) cap (jst s') /\
        cut out cap (t_index t) bits /\ selected (chain s') = selected (chain s) /\ ready_b s' = true
    | Some _ => fst r = None /\
        (s' = s \/ ready_b s = true /\ valid (chain s') = false /\ reach R (jst s) (jst s'))
    end) s.
Proof.
  intros HR Hwf Hi total. eapply wp_mono; [by apply (tap_ScanDR_spec R HR t ctx data bits s spec)|].
  intros r s' [(_ & Hg & Hm) Hs]. split; [done|]. destruct (snd r); [done|]. split; [by apply Hs|done].
Qed.

(** A borrowed TAP that was invalidated (by a failed operation, a
    reconnection, a release or raw traffic) never becomes valid again: after any
    further calls on the chain, its scans and idles are refused with
    ErrChainInvalid and change nothing.  The bound excludes only a wrap of the
    uint64 generation. *)
Theorem stale_tap_refused {W} `{Env W} `{Wire W} t n (s s' : CSt W) :
  chain_wf (chain s) -> stale t s -> chain_run s n s' -> generation (chain s) + 2 * n < 2 ^ 64 ->
  forall ctx data bits,
    tap_ScanIR t ctx data s' = Done ((None, Some (Sentinel jtag_ErrChainInvalid)), s') /\
    tap_ScanDR t ctx data bits s' = Done ((None, Some (Sentinel jtag_ErrChainInvalid)), s') /\
    tap_Idle t ctx bits s' = Done (Some (Sentinel jtag_ErrChainInvalid), s').
Proof.
  intros Hwf Hst Hr Hn ctx data bits. destruct (chain_run_stale t n s s' Hwf Hst Hr Hn) as (_ & [_ Hlt] & _).
  assert (live t s' = false) as El.
  { unfold live. destruct (ready_b s') eqn:Er; [|done]. simpl. apply Z.eqb_neq. specialize (Hlt eq_refl). lia. }
  unfold live, ready_b in El.
  unfold tap_ScanIR, tap_ScanDR, tap_Idle, tap_valid, ready, chget, gets, mbind, GoM_bind, mret, GoM_ret.
  by rewrite El.
Qed.

(** [Chain.Release] on a chain that owes cleanup invalidates every TAP, and
    clears the obligation only after an IR scan of ones parked all TAPs in
    BYPASS/Idle; success always clears it.  A chain that owes nothing is left
    untouched, without traffic. *)
Theorem release_parks {W} `{Env W} `{Wire W} R ctx (s : CSt W) :
  StreamLaws R -> chain_wf (chain s) ->
  wp (Release ctx) (fun e s' =>
    if released (chain s) then e = None /\ s' = s
    else same_chain (chain s) (chain s') /\ advanced (generation (chain s)) (generation (chain s')) /\
      valid (chain s') = false /\ (e = None -> released (chain s') = true) /\
      (released (chain s') = true -> exists j cap,
         scanned R (ones (irBits (chain s))) (irBits (chain s)) ShiftIR j cap (jst s'))) s.
Proof. intros HR Hwf. apply (release_spec R HR ctx s Hwf). Qed.

