(* ===== verification/SwdFrame.v ===== *)
(** * SWD framing (swd/sequence.go, connection.go, transfer.go)

    Direction-explicit bit sequences, requests and their header byte, the fixed
    54-bit frame of the overrun response grammar, and the decoding of
    acknowledgements and data.  Indexing outside a buffer panics, so the
    functions that index are written in the option monad. *)

From S2P Require Import Prelude Go Bits.
Local Open Scope Z_scope.

(** ** Bits of a buffer *)

Definition bitAt (buf : list Z) (bit : Z) : option bool :=
  b ← index buf (bit / 8); Some (negb (Z.land (Z.shiftr b (bit mod 8)) 1 =? 0)).

Definition setBit (buf : list Z) (bit : Z) (value : bool) : option (list Z) :=
  if value then
    b ← index buf (bit / 8); store buf (bit / 8) (Z.lor b (uint8 (Z.shiftl 1 (bit mod 8))))
  else Some buf.

(** ** Sequences *)

Record sequence := mkSeq { direction : list Z; output : list Z; bits : Z }.

Definition empty : sequence := mkSeq [] [] 0.

Definition append (s : sequence) (driven value : bool) : option sequence :=
  let d := if bits s mod 8 =? 0 then direction s ++ [0] else direction s in
  let o := if bits s mod 8 =? 0 then output s ++ [0] else output s in
  d ← setBit d (bits s) driven;
  o ← setBit o (bits s) value;
  Some (mkSeq d o (bits s + 1)).

Definition appendN (s : sequence) (n : Z) (driven value : bool) : option sequence :=
  for_range n (fun _ s => append s driven value) s.

Definition appendByte (s : sequence) (driven : bool) (value : Z) : option sequence :=
  for_range 8 (fun bit s => append s driven (negb (Z.land (Z.shiftr value bit) 1 =? 0))) s.

Definition appendSequence (s other : sequence) : option sequence :=
  for_range (bits other) (fun bit s =>
    d ← bitAt (direction other) bit; o ← bitAt (output other) bit; append s d o) s.

(** The loop that appends a 32-bit word, least significant bit first. *)
Definition appendWord (s : sequence) (value : Z) : option sequence :=
  for_range 32 (fun bit s => append s true (negb (Z.land (Z.shiftr value bit) 1 =? 0))) s.

(** ** Requests *)

Record request := mkReq { ap : bool; read : bool; addr : Z }.

Definition newRequest (ap read : bool) (addr : Z) : request * err :=
  if negb (addr =? 0x00) && negb (addr =? 0x04) && negb (addr =? 0x08) && negb (addr =? 0x0c)
  then (mkReq false false 0, Some (New "swd: invalid register address"))
  else (mkReq ap read addr, None).

Definition isAP (r : request) : bool := ap r.
Definition isRead (r : request) : bool := read r.
Definition address (r : request) : Z := addr r.

(** [for value != 0]: a 32-bit value is exhausted after 32 turns. *)
Fixpoint parity_loop (fuel : nat) (value : Z) (parity : bool) : bool :=
  if value =? 0 then parity
  else match fuel with
       | O => parity
       | S fuel => parity_loop fuel (Z.shiftr value 1) (xorb parity (any_bits value 1))
       end.

Definition parity32 (value : Z) : bool := parity_loop 32 value false.

Definition requestByte (req : request) : Z :=
  let fields := address req in
  let fields := if isAP req then Z.lor fields 1 else fields in
  let fields := if isRead req then Z.lor fields 2 else fields in
  let header := Z.lor 0x81 (uint8 (Z.shiftl fields 1)) in
  if parity32 fields then Z.lor header (Z.shiftl 1 5) else header.

(** ** Responses *)

Definition readACK (input : list Z) (offset : Z) : option Z :=
  for_range 3 (fun bit ack => b ← bitAt input (offset + bit);
    Some (if b : bool then Z.lor ack (Z.shiftl 1 bit) else ack)) 0.

Definition ackError (ack : Z) : err :=
  if ack =? 1 then None
  else if ack =? 2 then Some (Sentinel swd_ErrWait)
  else if ack =? 4 then Some (Sentinel swd_ErrFault)
  else Some (Sentinel swd_ErrProtocol).

Definition extractUint32At (buf : list Z) (offset : Z) : option Z :=
  for_range 32 (fun bit value => b ← bitAt buf (offset + bit);
    Some (if b : bool then Z.lor value (Z.shiftl 1 bit) else value)) 0.

Definition extractUint32 (buf : list Z) : option Z := extractUint32At buf 0.

Definition decodeFixedFrame (input : list Z) (offset : Z) (req : request) : option (Z * err) :=
  ack ← readACK input (offset + 9);
  match ackError ack with
  | Some e => Some (0, Some e)
  | None =>
      if negb (isRead req) then Some (0, None)
      else
        data ← extractUint32At input (offset + 12);
        p ← bitAt input (offset + 12 + 32);
        Some (if Bool.eqb p (parity32 data) then (data, None) else (0, Some (Sentinel swd_ErrParity)))
  end.

(** [Conn.fixedFrame], for the connection's turnaround and idle cycles. *)
Definition fixedFrame (turnaround idleCycles : Z) (req : request) (value : Z) : option sequence :=
  frame ← appendByte empty true (requestByte req);
  frame ← appendN frame (turnaround + 3) false false;
  frame ← (if isRead req then appendN frame (33 + turnaround) false false
           else frame ← appendN frame turnaround false false;
                frame ← appendWord frame value;
                append frame true (parity32 value));
  appendN frame idleCycles true false.

(** ** What the sequences hold *)

Definition view (s : sequence) : list (bool * bool) := stream (direction s) (output s) 0 (bits s).

(** A buffer of exactly the bytes its [n] bits need, clear past them. *)
Definition buf_wf (buf : list Z) (n : Z) : Prop :=
  bytes buf /\ len buf = bytes_for n /\ forall j, n <= j -> gbit buf j = false.

Definition seq_wf (s : sequence) : Prop :=
  0 <= bits s /\ buf_wf (direction s) (bits s) /\ buf_wf (output s) (bits s).

(** [s] extended by [l] gives [s']. *)
Definition extends (s : sequence) (l : list (bool * bool)) (s' : sequence) : Prop :=
  seq_wf s' /\ bits s' = bits s + len l /\ view s' = view s ++ l.

Lemma bitAt_spec buf i : 0 <= i < 8 * len buf -> bitAt buf i = Some (gbit buf i).
Proof.
  intros Hi. unfold bitAt. rewrite index_bit by done. cbn [mbind option_bind].
  rewrite land_1_testbit by (Z.to_euclidean_division_equations; lia). f_equal.
  unfold gbit. by destruct (Z.testbit _ _).
Qed.

Lemma setBit_or buf i v : 0 <= i < 8 * len buf -> setBit buf i v = or_bit buf i (Z.b2z v).
Proof. intros Hi. destruct v; [done|]. symmetry. by apply or_bit_0. Qed.

Lemma gbit_snoc0 buf i : 0 <= i -> gbit (buf ++ [0]) i = gbit buf i.
Proof.
  intros Hi. unfold gbit. destruct (decide (Z.to_nat (i / 8) < length buf)%nat).
  - by rewrite lookup_app_l.
  - rewrite lookup_app_r, (lookup_ge_None_2 buf) by lia.
    destruct (decide (Z.to_nat (i / 8) - length buf = 0)%nat) as [->|]; [done|].
    by rewrite lookup_ge_None_2 by (simpl; lia).
Qed.

Lemma append_side buf n v :
  0 <= n -> buf_wf buf n ->
  exists buf', setBit (if n mod 8 =? 0 then buf ++ [0] else buf) n v = Some buf' /\
    buf_wf buf' (n + 1) /\ forall j, 0 <= j -> gbit buf' j = gbit buf j || (v && (j =? n)).
Proof.
  intros Hn (Hb & Hl & Ht). set (buf1 := if n mod 8 =? 0 then buf ++ [0] else buf).
  assert (bytes buf1 /\ len buf1 = bytes_for (n + 1) /\ forall j, 0 <= j -> gbit buf1 j = gbit buf j) as (Hb1 & Hl1 & Hg1).
  { unfold buf1. destruct (Z.eqb_spec (n mod 8) 0) as [E|E].
    - split_and!; [apply Forall_app; split; [done|]; constructor; [unfold is_byte; lia|done]| |].
      + rewrite len_app, Hl. unfold bytes_for, len. simpl. Z.to_euclidean_division_equations. lia.
      + intros j Hj. by apply gbit_snoc0.
    - split_and!; [done| |done]. rewrite Hl. unfold bytes_for. Z.to_euclidean_division_equations. lia. }
  pose proof (bytes_for_bound (n + 1) ltac:(lia)).
  rewrite setBit_or by lia. destruct (or_bit_spec buf1 n v) as (b' & -> & ? & ? & G); [lia|done|].
  assert (forall j, 0 <= j -> gbit b' j = gbit buf j || (v && (j =? n))) as G'.
  { intros j Hj. by rewrite G, Hg1. }
  exists b'. split; [done|]. split; [|done]. split; [done|]. split; [lia|].
  intros j Hj. rewrite G', Ht by lia. zcmp.
Qed.

Lemma append_spec s d v : seq_wf s -> exists s', append s d v = Some s' /\ extends s [(d, v)] s'.
Proof.
  intros (Hn & Hd & Ho). unfold append.
  destruct (append_side (direction s) (bits s) d Hn Hd) as (d' & -> & Hd' & Gd). cbn [mbind option_bind].
  destruct (append_side (output s) (bits s) v Hn Ho) as (o' & -> & Ho' & Go). cbn [mbind option_bind].
  eexists. split; [done|]. split; [|split; [done|]].
  - split; [simpl; lia|]. simpl. done.
  - unfold view. simpl. rewrite stream_app by lia. f_equal.
    + apply list_fmap_ext. intros k i Hi%lookup_seqZ. simpl. rewrite Gd, Go by lia. f_equal; zcmp.
    + unfold stream. simpl. rewrite Z.add_0_r, Gd, Go by lia. destruct Hd as (_ & _ & Hd), Ho as (_ & _ & Ho).
      rewrite Hd, Ho, Z.eqb_refl by lia. by rewrite !andb_true_r.
Qed.

Lemma extends_nil s : seq_wf s -> extends s [] s.
Proof. intros Hs. split; [done|]. split; [unfold len; simpl; lia|]. by rewrite app_nil_r. Qed.

Lemma extends_trans s l s1 k s2 : extends s l s1 -> extends s1 k s2 -> extends s (l ++ k) s2.
Proof.
  intros (_ & B1 & V1) (Hw & B2 & V2). split; [done|]. rewrite len_app. split; [lia|].
  by rewrite V2, V1, app_assoc.
Qed.

Lemma empty_wf : seq_wf empty.
Proof. split; [done|]. split; (split; [constructor|]; split; [done|]; intros j Hj; apply gbit_out; unfold len; simpl in *; lia). Qed.

(** A loop that appends one pair per turn. *)
Lemma append_loop n (f : Z -> bool * bool) (body : Z -> sequence -> option sequence) s :
  0 <= n -> seq_wf s ->
  (forall i t, 0 <= i < n -> body i t = append t (f i).1 (f i).2) ->
  exists s', for_range n body s = Some s' /\ extends s (f <$> seqZ 0 n) s'.
Proof.
  intros Hn Hs Hb.
  destruct (for_range_inv (fun i t => extends s (f <$> seqZ 0 i) t) body n s) as (s' & E & H'); [done| | |eauto].
  - intros i t Hi Ht. rewrite Hb by done. destruct (append_spec t (f i).1 (f i).2) as (t' & -> & Ht'); [apply Ht|].
    exists t'. split; [done|]. rewrite seqZ_app, fmap_app by lia. eapply extends_trans; [done|].
    simpl. replace (Z.of_nat 0 + (0 + i)) with i by lia. by destruct (f i).
  - by apply extends_nil.
Qed.

Lemma appendN_spec s n d v :
  0 <= n -> seq_wf s -> exists s', appendN s n d v = Some s' /\ extends s (replicate (Z.to_nat n) (d, v)) s'.
Proof.
  intros Hn Hs. destruct (append_loop n (fun _ => (d, v)) (fun _ t => append t d v) s) as (s' & E & H'); [done..|].
  exists s'. split; [done|]. rewrite (const_fmap (fun _ => (d, v)) _ (d, v)) in H' by done. by rewrite length_seqZ in H'.
Qed.

(** The [n] low bits of a number, least significant first. *)
Definition word_bits (n v : Z) : list bool := Z.testbit v <$> seqZ 0 n.

Lemma length_word_bits n v : length (word_bits n v) = Z.to_nat n.
Proof. unfold word_bits. by rewrite length_fmap, length_seqZ. Qed.

Lemma shiftr_bit v i : 0 <= i -> negb (Z.land (Z.shiftr v i) 1 =? 0) = Z.testbit v i.
Proof. intros Hi. rewrite land_1_testbit by done. by destruct (Z.testbit v i). Qed.

Lemma appendByte_spec s d v :
  seq_wf s -> exists s', appendByte s d v = Some s' /\ extends s ((fun b => (d, b)) <$> word_bits 8 v) s'.
Proof.
  intros Hs. unfold appendByte, word_bits. rewrite <- list_fmap_compose.
  apply append_loop; [done|done|]. intros i t Hi. simpl. by rewrite shiftr_bit by lia.
Qed.

Lemma appendWord_spec s v :
  seq_wf s -> exists s', appendWord s v = Some s' /\ extends s ((fun b => (true, b)) <$> word_bits 32 v) s'.
Proof.
  intros Hs. unfold appendWord, word_bits. rewrite <- list_fmap_compose.
  apply append_loop; [done|done|]. intros i t Hi. simpl. by rewrite shiftr_bit by lia.
Qed.

Lemma appendSequence_spec s other :
  seq_wf s -> seq_wf other -> exists s', appendSequence s other = Some s' /\ extends s (view other) s'.
Proof.
  intros Hs (Hn & (_ & Hld & _) & (_ & Hlo & _)). pose proof (bytes_for_bound _ Hn). unfold appendSequence, view, stream.
  apply append_loop; [done|done|]. intros i t Hi. rewrite !bitAt_spec by lia. done.
Qed.

(** One step of building a sequence: run the next append and collect what it adds. *)
Ltac seq_next :=
  match goal with
  | Hs : seq_wf ?s |- context [appendN ?s ?n ?d ?v] =>
      let s' := fresh "s" in let E := fresh "E" in let He := fresh "He" in
      destruct (appendN_spec s n d v ltac:(lia) Hs) as (s' & E & He); rewrite E; clear E;
      pose proof (proj1 He); cbn [mbind option_bind]
  | Hs : seq_wf ?s |- context [append ?s ?d ?v] =>
      let s' := fresh "s" in let E := fresh "E" in let He := fresh "He" in
      destruct (append_spec s d v Hs) as (s' & E & He); rewrite E; clear E;
      pose proof (proj1 He); cbn [mbind option_bind]
  | Hs : seq_wf ?s |- context [appendByte ?s ?d ?v] =>
      let s' := fresh "s" in let E := fresh "E" in let He := fresh "He" in
      destruct (appendByte_spec s d v Hs) as (s' & E & He); rewrite E; clear E;
      pose proof (proj1 He); cbn [mbind option_bind]
  | Hs : seq_wf ?s |- context [appendWord ?s ?v] =>
      let s' := fresh "s" in let E := fresh "E" in let He := fresh "He" in
      destruct (appendWord_spec s v Hs) as (s' & E & He); rewrite E; clear E;
      pose proof (proj1 He); cbn [mbind option_bind]
  end.

(** Chain the collected extensions. *)
Ltac seq_join :=
  repeat match goal with
  | H1 : extends ?s ?l ?t, H2 : extends ?t ?k ?u |- _ =>
      pose proof (extends_trans _ _ _ _ _ H1 H2); clear H1 H2
  end.

(** The view of a sequence built from nothing. *)
Definition built (s : sequence) (l : list (bool * bool)) : Prop :=
  seq_wf s /\ bits s = len l /\ view s = l.

Lemma extends_empty l s : extends empty l s -> built s l.
Proof. intros (Hw & Hb & Hv). split; [done|]. split; [exact Hb|]. exact Hv. Qed.

(** Finish a sequence built from nothing. *)
Ltac seq_done :=
  seq_join; eexists; split; [reflexivity|];
  match goal with
  | H : extends empty ?l ?s |- built ?s ?k =>
      replace k with l by (rewrite <- ?app_assoc; reflexivity); apply extends_empty, H
  end.

(** ** Frames *)

Definition drive (l : list bool) : list (bool * bool) := (fun b => (true, b)) <$> l.
Definition listen (n : nat) : list (bool * bool) := replicate n (false, false).
Definition idle (n : nat) : list (bool * bool) := replicate n (true, false).

(** The frame of the overrun grammar: header, turnaround and acknowledgement,
    then either 32 data bits, parity and turnaround sampled, or a turnaround and
    32 data bits with their parity driven, and eight idle clocks. *)
Definition frame_bits (req : request) (value : Z) : list (bool * bool) :=
  drive (word_bits 8 (requestByte req)) ++ listen 4 ++
  (if isRead req then listen 34
   else listen 1 ++ drive (word_bits 32 value) ++ drive [parity32 value]) ++ idle 8.

Lemma fixedFrame_spec req value :
  exists s, fixedFrame 1 8 req value = Some s /\ built s (frame_bits req value).
Proof.
  unfold fixedFrame. pose proof empty_wf as Hw. seq_next. seq_next.
  unfold frame_bits. destruct (isRead req).
  - seq_next. seq_next. seq_done.
  - seq_next. seq_next. seq_next. seq_next. seq_done.
Qed.

Lemma frame_bits_length req value : length (frame_bits req value) = 54%nat.
Proof.
  unfold frame_bits, drive, listen, idle. rewrite !length_app, length_fmap, length_word_bits, !length_replicate.
  destruct (isRead req); rewrite ?length_app, ?length_fmap, ?length_word_bits, ?length_replicate; done.
Qed.

(** ** Parity *)

Lemma parity_loop_shift fuel v p :
  0 <= v < 2 ^ Z.of_nat fuel ->
  parity_loop fuel v p = xorb p (foldr xorb false (word_bits (Z.of_nat fuel) v)).
Proof.
  revert v p. induction fuel as [|fuel IH]; intros v p Hv; cbn [parity_loop].
  - simpl in *. destruct (Z.eqb_spec v 0); by rewrite xorb_false_r.
  - assert (word_bits (Z.of_nat (S fuel)) v = Z.testbit v 0 :: word_bits (Z.of_nat fuel) (Z.shiftr v 1)) as ->.
    { unfold word_bits. replace (Z.of_nat (S fuel)) with (1 + Z.of_nat fuel) by lia.
      rewrite seqZ_app, fmap_app by lia. simpl. f_equal. rewrite <- (fmap_add_seqZ 1 0), <- list_fmap_compose.
      apply list_fmap_ext. intros k i Hi%lookup_seqZ. simpl. rewrite Z.shiftr_spec by lia. f_equal. lia. }
    simpl foldr. destruct (Z.eqb_spec v 0) as [->|].
    + assert (forall l, Forall (eq false) l -> foldr xorb false l = false) as Hz.
      { induction 1 as [|x l <- _ IHl]; simpl; [done|]. by rewrite IHl. }
      rewrite ?Z.testbit_0_l, ?Z.shiftr_0_l, Hz by (apply Forall_fmap, Forall_true; intros; symmetry; apply Z.testbit_0_l).
      simpl. by rewrite xorb_false_r.
    + rewrite IH.
      * rewrite (any_bits_bit v 0 ltac:(done) : any_bits v 1 = _). by rewrite xorb_assoc.
      * rewrite Z.shiftr_div_pow2 by lia. rewrite Nat2Z.inj_succ, Z.pow_succ_r in Hv by lia.
        split; [apply Z.div_pos; lia|]. apply Z.div_lt_upper_bound; lia.
Qed.

(** Odd parity of the bits of a word. *)
Definition parity_of (l : list bool) : bool := foldr xorb false l.

Lemma parity32_spec v : 0 <= v < 2 ^ 32 -> parity32 v = parity_of (word_bits 32 v).
Proof. intros Hv. unfold parity32. rewrite (parity_loop_shift 32) by done. apply xorb_false_l. Qed.

(** ** Decoding *)

Lemma collect_bits n buf offset :
  0 <= n -> 0 <= offset -> offset + n <= 8 * len buf ->
  for_range n (fun bit v => b ← bitAt buf (offset + bit);
    Some (if b : bool then Z.lor v (Z.shiftl 1 bit) else v)) 0 =
  Some (bits_value (Z.to_nat n) (fun i => gbit buf (offset + i))).
Proof.
  intros Hn Ho Hl. apply collect_spec; [done|]. intros i v Hi. rewrite bitAt_spec by lia.
  cbn [mbind option_bind]. destruct (gbit buf (offset + i)); [done|].
  by rewrite Z.shiftl_0_l, Z.lor_0_r.
Qed.

Lemma extractUint32At_spec buf offset :
  0 <= offset -> offset + 32 <= 8 * len buf ->
  extractUint32At buf offset = Some (bits_value 32 (fun i => gbit buf (offset + i))).
Proof. intros. apply (collect_bits 32); lia. Qed.

Lemma readACK_spec buf offset :
  0 <= offset -> offset + 3 <= 8 * len buf ->
  readACK buf offset = Some (bits_value 3 (fun i => gbit buf (offset + i))).
Proof. intros. apply (collect_bits 3); lia. Qed.

Lemma decodeFixedFrame_total input offset req :
  0 <= offset -> offset + 54 <= 8 * len input ->
  exists v e, decodeFixedFrame input offset req = Some (v, e) /\ 0 <= v < 2 ^ 32 /\
    (e <> None -> v = 0).
Proof.
  intros Ho Hl. unfold decodeFixedFrame. rewrite readACK_spec by lia. cbn [mbind option_bind].
  destruct (ackError _); [by eexists _, _|]. destruct (isRead req); cbn [negb]; [|by eexists _, _].
  rewrite extractUint32At_spec, bitAt_spec by lia. cbn [mbind option_bind].
  destruct (Bool.eqb _ _); [|by eexists _, _]. eexists _, _. split; [done|]. split; [|done].
  apply (bits_value_range 32).
Qed.
