(* ===== verification/SwdConn.v ===== *)
(** * SWD connections and register transfers
    (swd/connection.go, options.go, sequences.go, transfer.go)

    [Conn] owns one transaction stream over a wire.  A register operation is
    validated against the tracked DP bank, sent once in the connection's response
    grammar, and its outcome observed. *)

From S2P Require Import Prelude Go Bits SwdFrame.
Local Open Scope Z_scope.

(** [Wire], with the optional [TransferLimits] it may implement. *)
Class Wire (W : Type) := {
  SWDIO : context -> list Z -> list Z -> Z -> W -> (list Z * err) * W;
  MaxTransferBits : option (W -> Z)
}.

Inductive responseMode := responseSimple | responseOverrun.
Inductive connectionState := connectionIdle | connectionReady | connectionRepair.

#[global] Instance responseMode_eq_dec : EqDecision responseMode.
Proof. solve_decision. Defined.
#[global] Instance connectionState_eq_dec : EqDecision connectionState.
Proof. solve_decision. Defined.

Record bankSelection := mkBank { bank_ : Z; bank_valid : bool }.

Definition noBank : bankSelection := mkBank 0 false.

Record Conn := mkConn {
  wire : bool;  (** whether a wire is bound *)
  turnaround : Z;
  idleCycles : Z;
  response : responseMode;
  state : connectionState;
  identity : Z;
  identityKnown : bool;
  originalOverrun : bool;
  originalKnown : bool;
  bank : bankSelection;
  priorBank : bankSelection;
  selectPending : bool;
  completionTimeout : Z
}.

Definition set_response x c := mkConn (wire c) (turnaround c) (idleCycles c) x (state c) (identity c) (identityKnown c)
  (originalOverrun c) (originalKnown c) (bank c) (priorBank c) (selectPending c) (completionTimeout c).
Definition set_state x c := mkConn (wire c) (turnaround c) (idleCycles c) (response c) x (identity c) (identityKnown c)
  (originalOverrun c) (originalKnown c) (bank c) (priorBank c) (selectPending c) (completionTimeout c).
Definition set_identity x known c := mkConn (wire c) (turnaround c) (idleCycles c) (response c) (state c) x known
  (originalOverrun c) (originalKnown c) (bank c) (priorBank c) (selectPending c) (completionTimeout c).
Definition set_original x known c := mkConn (wire c) (turnaround c) (idleCycles c) (response c) (state c) (identity c) (identityKnown c)
  x known (bank c) (priorBank c) (selectPending c) (completionTimeout c).
Definition set_bank b prior pending c := mkConn (wire c) (turnaround c) (idleCycles c) (response c) (state c) (identity c) (identityKnown c)
  (originalOverrun c) (originalKnown c) b prior pending (completionTimeout c).
Definition set_completionTimeout x c := mkConn (wire c) (turnaround c) (idleCycles c) (response c) (state c) (identity c) (identityKnown c)
  (originalOverrun c) (originalKnown c) (bank c) (priorBank c) (selectPending c) x.

Record Option_ := mkOption { opt_completionTimeout : Z; opt_completionSet : bool }.

Definition WithCompletionTimeout (timeout : Z) : Option_ := mkOption timeout true.

Definition second : Z := 1000000000.

(** [New] *)
Definition New_ (has_wire : bool) (options : list Option_) : Conn :=
  foldl (fun c o => if opt_completionSet o then set_completionTimeout (opt_completionTimeout o) c else c)
    (mkConn has_wire 1 8 responseSimple connectionIdle 0 false false false noBank noBank false second) options.

(** ** Bank tracking *)

Definition confirmBank (c : Conn) : Conn := set_bank (bank c) noBank false c.

Definition invalidateBank (c : Conn) : Conn := confirmBank (set_bank noBank (priorBank c) (selectPending c) c).

Definition requireRepair (c : Conn) : Conn :=
  if bool_decide (state c = connectionIdle) then c
  else invalidateBank (set_state connectionRepair c).

Definition isAbortWrite (req : request) : bool := negb (isAP req) && negb (isRead req) && (address req =? 0x00).

Definition isDPIDRRead (req : request) : bool := negb (isAP req) && isRead req && (address req =? 0x00).

Definition isBankZeroCTRLSTATRead (req : request) (b prior : bankSelection) : bool :=
  negb (isAP req) && isRead req && (address req =? 0x04) && bank_valid b && (bank_ b =? 0) &&
  bank_valid prior && (bank_ prior =? 0).

Definition isPossibleCTRLSTATRead (req : request) (prior : bankSelection) : bool :=
  negb (isAP req) && isRead req && (address req =? 0x04) && (negb (bank_valid prior) || (bank_ prior =? 0)).

Definition completeTransfer (e : err) : bool :=
  is_nil e || err_eqb e swd_ErrWait || err_eqb e swd_ErrFault || err_eqb e swd_ErrParity.

Definition overrunDetect : Z := Z.shiftl 1 0.
Definition stickyOverrun : Z := Z.shiftl 1 1.
Definition stickyCompare : Z := Z.shiftl 1 4.
Definition stickyError : Z := Z.shiftl 1 5.
Definition writeDataErr : Z := Z.shiftl 1 7.
Definition clearStickyCompare : Z := Z.shiftl 1 1.
Definition clearStickyError : Z := Z.shiftl 1 2.
Definition clearWriteDataError : Z := Z.shiftl 1 3.
Definition clearStickyOverrun : Z := Z.shiftl 1 4.

Definition resolveBankZeroCTRLSTAT (result : Z) (e : err) (c : Conn) : Conn :=
  if negb (is_nil e) then c
  else if any_bits result writeDataErr then invalidateBank c
  else confirmBank c.

Definition observePendingSelection (req : request) (result : Z) (e : err) (c : Conn) : Conn :=
  if isAbortWrite req then (if is_nil e then invalidateBank c else c)
  else if isDPIDRRead req then c
  else if isBankZeroCTRLSTATRead req (bank c) (priorBank c) then resolveBankZeroCTRLSTAT result e c
  else if isPossibleCTRLSTATRead req (priorBank c) then c
  else if is_nil e || err_eqb e swd_ErrParity then confirmBank c
  else c.

Definition observeTransfer (req : request) (result data : Z) (e : err) (c : Conn) : Conn :=
  if negb (completeTransfer e) then requireRepair c
  else
    let c := if selectPending c then observePendingSelection req result e c else c in
    if negb (isAP req) && negb (isRead req) && (address req =? 0x08) && is_nil e
    then set_bank (mkBank (uint8 (Z.land data 0x0f)) true) (bank c) true c
    else c.

Definition validateTransfer (req : request) (value : Z) (c : Conn) : err :=
  if isAP req || isRead req || negb (address req =? 0x04) then None
  else if selectPending c || negb (bank_valid (bank c))
  then Some (New "swd: DP bank is unknown before write at address 0x04")
  else if (bank_ (bank c) =? 0) &&
          negb (Bool.eqb (any_bits value 1) (bool_decide (response c = responseOverrun)))
  then Some (New "swd: CTRL/STAT.ORUNDETECT is owned by the connection")
  else if (bank_ (bank c) =? 1) && any_bits value (Z.shiftl 3 8)
  then Some (New "swd: DLCR turnaround changes are not supported")
  else None.

Definition notExecuted (cause : error) : error := Errorf "%w: %w" [Sentinel swd_ErrNotExecuted; cause].

Definition validateCompletion (c : Conn) : err :=
  if completionTimeout c <=? 0 then Some (New "swd: completion timeout must be positive") else None.

Definition CleanupPending (c : Conn) : bool := originalKnown c.

(** ** Traffic *)

Section Ops.
Context {W : Type} `{Env W} `{Wire W}.

Record St := mkSt { conn : Conn; world : W }.

Abbreviation M := (GoM St).

Definition cget {A} (f : Conn -> A) : M A := gets (fun s => f (conn s)).
Definition cmod (f : Conn -> Conn) : M unit := modify (fun s => mkSt (f (conn s)) (world s)).

(** [ctx.Err()]; a nil context panics. *)
Definition ctxErr (ctx : context) : M (option ctxError) := fun s =>
  if ctx_nil ctx then Panicked
  else let '(e, w) := ctx_Err ctx (world s) in Done (e, mkSt (conn s) w).

Definition wireIO (ctx : context) (direction output : list Z) (bits : Z) : M (list Z * err) := fun s =>
  let '(r, w) := SWDIO ctx direction output bits (world s) in Done (r, mkSt (conn s) w).

Definition exchange (ctx : context) (seq : sequence) : M (list Z * err) :=
  has_wire ← cget wire;
  if negb has_wire then mret ([], Some (New "swd: nil wire"))
  else
    e ← cget validateCompletion;
    match e with
    | Some e => mret ([], Some e)
    | None =>
        e ← ctxErr ctx;
        match e with
        | Some e => mret ([], Some (Sentinel (context_Err e)))
        | None =>
            '(input, e) ← wireIO ctx (direction seq) (output seq) (bits seq);
            match e with
            | Some e => mret ([], Some e)
            | None =>
                if len input <? (bits seq + 7) / 8
                then mret ([], Some (New "swd: wire returned too few bytes"))
                else mret (input, None)
            end
        end
    end.

Definition completionContext (ctx : context) : M (context * err) :=
  e ← ctxErr ctx;
  match e with
  | Some e => mret (NilContext, Some (Sentinel (context_Err e)))
  | None =>
      e ← cget validateCompletion;
      match e with
      | Some e => mret (NilContext, Some e)
      | None =>
          timeout ← cget completionTimeout;
          mret (WithTimeout (WithoutCancel ctx) timeout, None)
      end
  end.

Definition completionError (ctx : context) (e : err) : M err :=
  cause ← ctxErr ctx;
  match cause with
  | Some c => if negb (errors_Is e (context_Err c))
              then mret (errors_Join [e; Some (Sentinel (context_Err c))]) else mret e
  | None => mret e
  end.

(** *** Protocol entry *)

Definition line_reset_seq : option sequence :=
  seq ← appendN empty 56 true true; appendN seq 8 true false.

Definition LineReset (ctx : context) : M err :=
  cmod requireRepair;;
  seq ← lift line_reset_seq;
  '(_, e) ← exchange ctx seq;
  mret e.

Definition enter_seq : option sequence :=
  seq ← appendN empty 56 true true;
  seq ← appendByte seq true 0x9e;
  seq ← appendByte seq true 0xe7;
  seq ← appendN seq 56 true true;
  appendN seq 8 true false.

Definition enterSWD (ctx : context) : M err :=
  seq ← lift enter_seq;
  '(_, e) ← exchange ctx seq;
  mret e.

Definition JTAGToSWD (ctx : context) : M err :=
  cmod requireRepair;;
  enterSWD ctx.

(** *** Frames *)

Definition transferOverrun (ctx : context) (req : request) (value : Z) : M (Z * err) :=
  t ← cget turnaround; idle ← cget idleCycles;
  frame ← lift (fixedFrame t idle req value);
  '(input, e) ← exchange ctx frame;
  match e with
  | Some e => mret (0, Some e)
  | None => lift (decodeFixedFrame input 0 req)
  end.

Definition finish_seq (turnaround idleCycles : Z) (protocol : bool) : option sequence :=
  finish ← appendN empty (if protocol then 33 + turnaround else turnaround) false false;
  appendN finish idleCycles true false.

Definition finishFailed (ctx : context) (ackErr : error) : M error :=
  t ← cget turnaround; idle ← cget idleCycles;
  finish ← lift (finish_seq t idle (err_eqb (Some ackErr) swd_ErrProtocol));
  '(_, e) ← exchange ctx finish;
  match e with
  | Some e => mret (Join [ackErr; e])
  | None => mret ackErr
  end.

Definition read_seq (turnaround idleCycles : Z) : option sequence :=
  data ← appendN empty (33 + turnaround) false false;
  appendN data idleCycles true false.

Definition readData (ctx : context) : M (Z * err) :=
  t ← cget turnaround; idle ← cget idleCycles;
  data ← lift (read_seq t idle);
  '(input, e) ← exchange ctx data;
  match e with
  | Some e => mret (0, Some e)
  | None =>
      value ← lift (extractUint32 input);
      p ← lift (bitAt input 32);
      mret (if Bool.eqb p (parity32 value) then (value, None) else (0, Some (Sentinel swd_ErrParity)))
  end.

Definition write_seq (turnaround idleCycles value : Z) : option sequence :=
  data ← appendN empty turnaround false false;
  data ← appendWord data value;
  data ← append data true (parity32 value);
  appendN data idleCycles true false.

Definition writeData (ctx : context) (value : Z) : M err :=
  t ← cget turnaround; idle ← cget idleCycles;
  data ← lift (write_seq t idle value);
  '(_, e) ← exchange ctx data;
  mret e.

Definition header_seq (turnaround : Z) (req : request) : option sequence :=
  header ← appendByte empty true (requestByte req);
  appendN header (turnaround + 3) false false.

Definition transferFrame (ctx : context) (req : request) (value : Z) : M (Z * err) :=
  mode ← cget response;
  if bool_decide (mode = responseOverrun) then transferOverrun ctx req value
  else
    t ← cget turnaround;
    header ← lift (header_seq t req);
    '(input, e) ← exchange ctx header;
    match e with
    | Some e => mret (0, Some e)
    | None =>
        ack ← lift (readACK input (8 + t));
        match ackError ack with
        | Some e => e ← finishFailed ctx e; mret (0, Some e)
        | None =>
            if isRead req then readData ctx
            else e ← writeData ctx value; mret (0, e)
        end
    end.

Definition abortRequest : request := mkReq false false 0x00.

Definition clearOverrunAfterWAIT (ctx : context) : M err :=
  '(_, e) ← transferFrame ctx abortRequest (Z.shiftl 1 4);
  match e with
  | Some e => cmod requireRepair;; mret (Some (Errorf "swd: clear STICKYORUN after WAIT: %w" [e]))
  | None => mret None
  end.

Definition executeFrame (ctx : context) (req : request) (value : Z) : M (Z * err) :=
  '(result, e) ← transferFrame ctx req value;
  mode ← cget response;
  match e with
  | Some e0 =>
      if negb (bool_decide (mode = responseOverrun)) || negb (err_eqb e swd_ErrWait) then mret (result, e)
      else if isAbortWrite req then
        cmod requireRepair;;
        mret (result, Some (Join [e0; New "swd: ABORT returned WAIT; STICKYORUN cleanup is unavailable"]))
      else
        cleanupErr ← clearOverrunAfterWAIT ctx;
        match cleanupErr with
        | Some ce => mret (0, Some (Join [e0; ce]))
        | None =>
            pending ← cget selectPending;
            (if pending : bool then cmod requireRepair else mret tt);;
            mret (result, e)
        end
  | None => mret (result, None)
  end.

Definition execute (ctx : context) (req : request) (value : Z) : M (Z * err) :=
  '(completionCtx, e) ← completionContext ctx;
  match e with
  | Some e => mret (0, Some (notExecuted e))
  | None => executeFrame completionCtx req value
  end.

Definition transfer (ctx : context) (req : request) (value : Z) : M (Z * err) :=
  st ← cget state;
  if negb (bool_decide (st = connectionReady))
  then mret (0, Some (notExecuted (New "swd: connection is not ready; call Connect")))
  else
    e ← ctxErr ctx;
    match e with
    | Some e => mret (0, Some (notExecuted (Sentinel (context_Err e))))
    | None =>
        e ← cget (validateTransfer req value);
        match e with
        | Some e => mret (0, Some (notExecuted e))
        | None =>
            '(completionCtx, e) ← completionContext ctx;
            match e with
            | Some e => mret (0, Some (notExecuted e))
            | None =>
                '(result, e) ← executeFrame completionCtx req value;
                cmod (observeTransfer req result value e);;
                e ← completionError ctx e;
                mret (result, e)
            end
        end
    end.

(** [read] and [write] *)
Definition read_ (ctx : context) (ap : bool) (addr : Z) : M (Z * err) :=
  let '(req, e) := newRequest ap true addr in
  match e with
  | Some e => mret (0, Some (notExecuted e))
  | None => transfer ctx req 0
  end.

Definition write_ (ctx : context) (ap : bool) (addr value : Z) : M err :=
  let '(req, e) := newRequest ap false addr in
  match e with
  | Some e => mret (Some (notExecuted e))
  | None => '(_, e) ← transfer ctx req value; mret e
  end.

Definition ReadDP ctx addr := read_ ctx false addr.
Definition WriteDP ctx addr value := write_ ctx false addr value.
Definition ReadAP ctx addr := read_ ctx true addr.
Definition WriteAP ctx addr value := write_ ctx true addr value.
End Ops.
Arguments St W : clear implicits.
