(* ===== verification/SwdConnFacts.v ===== *)
(** * What SWD register operations do to the connection

    Facts that hold over every wire: frames never panic and never touch the
    connection, execution at most asks for repair, and the ownership facts of a
    connection survive every operation.  [Keeps] packages the last as a
    compositional predicate that automation proves for whole methods. *)

From S2P Require Import Prelude Go Bits SwdFrame SwdConn.
Local Open Scope Z_scope.

(** The framing parameters [New] sets and nothing changes. *)
Definition framing (c : Conn) : Prop := turnaround c = 1 /\ idleCycles c = 8.

(** ** Ownership *)

(** A known identity has its constant bit set. *)
Definition identity_ok (c : Conn) : Prop := identityKnown c = true -> Z.testbit (identity c) 0 = true.

Definition bank_ok (c : Conn) : Prop := selectPending c = true -> bank_valid (bank c) = true.

(** What an operation that neither captures nor completes a restoration may do:
    the captured ORUNDETECT setting and a known identity stay, no operation makes
    the connection ready, and a strict one never makes it idle, another only when
    it knows no identity. *)
Record keeps_ (strict : bool) (c c' : Conn) : Prop := {
  k_wire : wire c' = wire c;
  k_turnaround : turnaround c' = turnaround c;
  k_idleCycles : idleCycles c' = idleCycles c;
  k_timeout : completionTimeout c' = completionTimeout c;
  k_known : originalKnown c' = originalKnown c;
  k_overrun : originalOverrun c' = originalOverrun c;
  k_identity : identityKnown c = true -> identityKnown c' = true /\ identity c' = identity c;
  k_ready : state c' = connectionReady -> state c = connectionReady;
  k_idle : state c' = connectionIdle ->
    state c = connectionIdle \/ (strict = false /\ identityKnown c = false);
  k_identity_ok : identity_ok c -> identity_ok c';
  k_bank_ok : bank_ok c -> bank_ok c'
}.

Section Keeps.
Context {strict : bool}.
Abbreviation keeps := (keeps_ strict).

Lemma keeps_refl c : keeps c c.
Proof. split; tauto. Qed.

Lemma keeps_trans c1 c2 c3 : keeps c1 c2 -> keeps c2 c3 -> keeps c1 c3.
Proof.
intros K1 K2. split.
- by rewrite (k_wire _ _ _ K2), (k_wire _ _ _ K1).
- by rewrite (k_turnaround _ _ _ K2), (k_turnaround _ _ _ K1).
- by rewrite (k_idleCycles _ _ _ K2), (k_idleCycles _ _ _ K1).
- by rewrite (k_timeout _ _ _ K2), (k_timeout _ _ _ K1).
- by rewrite (k_known _ _ _ K2), (k_known _ _ _ K1).
- by rewrite (k_overrun _ _ _ K2), (k_overrun _ _ _ K1).
- intros Hk. destruct (k_identity _ _ _ K1 Hk) as [H1 E1]. destruct (k_identity _ _ _ K2 H1) as [H2 E2].
  split; [done|congruence].
- intros Hr. by apply (k_ready _ _ _ K1), (k_ready _ _ _ K2).
- intros Hi. destruct (k_idle _ _ _ K2 Hi) as [H2|[Hs H2]]; [by apply (k_idle _ _ _ K1)|].
  right. split; [done|]. destruct (identityKnown c1) eqn:E; [|done]. destruct (k_identity _ _ _ K1 E) as [H1 _]. congruence.
- intros Hi. by apply (k_identity_ok _ _ _ K2), (k_identity_ok _ _ _ K1).
- intros Hi. by apply (k_bank_ok _ _ _ K2), (k_bank_ok _ _ _ K1).
Qed.

Lemma keeps_framing c c' : keeps c c' -> framing c -> framing c'.
Proof. intros K [H1 H2]. split; [by rewrite (k_turnaround _ _ _ K)|by rewrite (k_idleCycles _ _ _ K)]. Qed.

Lemma keeps_bank b prior pending c :
(pending = true -> bank_valid b = true) -> keeps c (set_bank b prior pending c).
Proof. intros Hp. split; simpl; try tauto; by unfold identity_ok, bank_ok. Qed.

Lemma keeps_response x c : keeps c (set_response x c).
Proof. split; simpl; try tauto; by unfold identity_ok, bank_ok. Qed.

Lemma keeps_repair_state c : keeps c (set_state connectionRepair c).
Proof. split; simpl; try tauto; try discriminate; by unfold identity_ok, bank_ok. Qed.

Lemma keeps_confirmBank c : keeps c (confirmBank c).
Proof. by apply keeps_bank. Qed.

Lemma keeps_invalidateBank c : keeps c (invalidateBank c).
Proof. split; simpl; try tauto; by unfold identity_ok, bank_ok. Qed.

Lemma keeps_requireRepair c : keeps c (requireRepair c).
Proof.
unfold requireRepair. case_bool_decide; [apply keeps_refl|].
eapply keeps_trans; [apply keeps_repair_state|apply keeps_invalidateBank].
Qed.

Lemma keeps_observeTransfer req result data e c : keeps c (observeTransfer req result data e c).
Proof.
unfold observeTransfer. destruct (negb (completeTransfer e)); [apply keeps_requireRepair|].
assert (keeps c (if selectPending c then observePendingSelection req result e c else c)) as K.
{ destruct (selectPending c); [|apply keeps_refl]. unfold observePendingSelection, resolveBankZeroCTRLSTAT.
  repeat case_match; auto using keeps_refl, keeps_confirmBank, keeps_invalidateBank. }
cbv zeta. set (c1 := if selectPending c then _ else c) in *.
destruct (_ && _ && _ && _); [|done]. eapply keeps_trans; [exact K|]. by apply keeps_bank.
Qed.
End Keeps.

Create HintDb swd discriminated.
#[export] Hint Constants Opaque : swd.
#[export] Hint Resolve keeps_refl keeps_response keeps_repair_state keeps_confirmBank keeps_invalidateBank
  keeps_requireRepair keeps_observeTransfer : swd.

Lemma keeps_weaken strict c c' : keeps_ true c c' -> keeps_ strict c c'.
Proof.
  intros [? ? ? ? ? ? ? ? Hi ? ?]. split; try assumption. intros H. destruct (Hi H) as [|[? _]]; [by left|done].
Qed.

(** ** Operations *)

Section Facts.
Context {W : Type} `{Env W} `{Wire W} {strict : bool}.

Abbreviation M := (GoM (St W)).
Abbreviation keeps := (keeps_ strict).

Lemma wp_swd_ctxErr ctx (Q : option ctxError -> St W -> Prop) s :
  ctx_nil ctx = false ->
  (forall e, Q e (mkSt (conn s) (snd (ctx_Err ctx (world s))))) -> wp (ctxErr ctx) Q s.
Proof.
  intros Hn HQ. unfold wp, ctxErr. rewrite Hn.
  destruct (ctx_Err ctx (world s)) as [e w] eqn:E. specialize (HQ e). exact HQ.
Qed.

Lemma wp_exchange ctx seq (Q : list Z * err -> St W -> Prop) s :
  ctx_nil ctx = false ->
  (forall e w, Q ([], Some e) (mkSt (conn s) w)) ->
  (forall input w, bytes_for (bits seq) <= len input -> Q (input, None) (mkSt (conn s) w)) ->
  wp (exchange ctx seq) Q s.
Proof.
  intros Hn He Ho. destruct s as [c w0]. cbn [conn] in *. unfold exchange.
  apply wp_bind, wp_gets. cbn [conn]. destruct (wire c); cbn [negb]; [|apply wp_ret, He].
  apply wp_bind, wp_gets. cbn [conn]. destruct (validateCompletion c); [apply wp_ret, He|].
  apply wp_bind, wp_swd_ctxErr; [done|]. intros [e|]; [apply wp_ret, He|]. cbn [conn world].
  apply wp_bind. unfold wp at 1, wireIO. cbn [conn world].
  destruct (SWDIO ctx (direction seq) (output seq) (bits seq) _) as [[input e] w].
  destruct e as [e|]; [apply wp_ret, He|].
  destruct (Z.ltb_spec (len input) ((bits seq + 7) / 8)); [apply wp_ret, He|].
  apply wp_ret, Ho. done.
Qed.

(** A result of one frame: a word, zero with an error. *)
Definition frame_result (r : Z * err) : Prop := 0 <= fst r < 2 ^ 32 /\ (snd r <> None -> fst r = 0).

Lemma frame_error e : frame_result (0, Some e).
Proof. split; simpl; [lia|done]. Qed.

Lemma frame_value v : 0 <= v < 2 ^ 32 -> frame_result (v, None).
Proof. intros Hv. split; [exact Hv|]. intros Hn. by destruct Hn. Qed.

Lemma finish_seq_ok protocol : exists s, finish_seq 1 8 protocol = Some s.
Proof. destruct protocol; (eexists; vm_compute; reflexivity). Qed.

Lemma wp_finishFailed ctx e (Q : error -> St W -> Prop) s :
  framing (conn s) -> ctx_nil ctx = false ->
  (forall e' w, (exists e2, e' = Join [e; e2]) \/ e' = e -> Q e' (mkSt (conn s) w)) -> wp (finishFailed ctx e) Q s.
Proof.
  intros [Ht Hi] Hn HQ. unfold finishFailed. apply wp_bind, wp_gets, wp_bind, wp_gets. rewrite Ht, Hi.
  destruct (finish_seq_ok (err_eqb (Some e) swd_ErrProtocol)) as [q Eq].
  eapply wp_bind, wp_lift; [exact Eq|]. apply wp_bind, wp_exchange; [done| |].
  - intros e2 w. apply wp_ret, HQ. left. by exists e2.
  - intros input w _. apply wp_ret, HQ. by right.
Qed.

Lemma wp_readData ctx (Q : Z * err -> St W -> Prop) s :
  framing (conn s) -> ctx_nil ctx = false ->
  (forall r w, frame_result r -> Q r (mkSt (conn s) w)) -> wp (readData ctx) Q s.
Proof.
  intros [Ht Hi] Hn HQ. unfold readData. apply wp_bind, wp_gets, wp_bind, wp_gets. rewrite Ht, Hi.
  assert (exists q, read_seq 1 8 = Some q /\ bits q = 42) as (q & Eq & Hq).
  { eexists. split; [vm_compute; reflexivity|done]. }
  eapply wp_bind, wp_lift; [exact Eq|]. apply wp_bind, wp_exchange; [done| |].
  - intros e2 w. apply wp_ret, HQ, frame_error.
  - intros input w Hl. rewrite Hq in Hl. change (bytes_for 42) with 6 in Hl.
    pose proof (extractUint32At_spec input 0 ltac:(lia) ltac:(lia)) as Ex.
    pose proof (bitAt_spec input 32 ltac:(lia)) as Ep. unfold extractUint32.
    pose proof (bits_value_range 32 (fun i => gbit input (0 + i))) as Hv.
    revert Ex Hv. generalize (bits_value 32 (fun i => gbit input (0 + i))). intros v Ex Hv.
    eapply wp_bind, wp_lift; [exact Ex|]. eapply wp_bind, wp_lift; [exact Ep|]. apply wp_ret, HQ.
    destruct (Bool.eqb _ _); [|apply frame_error]. apply frame_value. exact Hv.
Qed.

Lemma write_seq_built v : exists s, write_seq 1 8 v = Some s /\
  built s (listen 1 ++ drive (word_bits 32 v) ++ drive [parity32 v] ++ idle 8).
Proof. unfold write_seq. pose proof empty_wf. seq_next. seq_next. seq_next. seq_next. seq_done. Qed.

Lemma header_seq_built req : exists s, header_seq 1 req = Some s /\
  built s (drive (word_bits 8 (requestByte req)) ++ listen 4).
Proof. unfold header_seq. pose proof empty_wf. seq_next. seq_next. seq_done. Qed.

Lemma wp_writeData ctx v (Q : err -> St W -> Prop) s :
  framing (conn s) -> ctx_nil ctx = false ->
  (forall e w, Q e (mkSt (conn s) w)) -> wp (writeData ctx v) Q s.
Proof.
  intros [Ht Hi] Hn HQ. unfold writeData. apply wp_bind, wp_gets, wp_bind, wp_gets. rewrite Ht, Hi.
  destruct (write_seq_built v) as (q & Eq & _).
  eapply wp_bind, wp_lift; [exact Eq|]. apply wp_bind, wp_exchange; [done| |]; intros; by apply wp_ret, HQ.
Qed.

(** One frame leaves the connection alone and returns a word or an error. *)
Lemma wp_transferFrame ctx req v (Q : Z * err -> St W -> Prop) s :
  framing (conn s) -> ctx_nil ctx = false ->
  (forall r w, frame_result r -> Q r (mkSt (conn s) w)) -> wp (transferFrame ctx req v) Q s.
Proof.
  intros [Ht Hi] Hn HQ. unfold transferFrame. apply wp_bind, wp_gets. case_bool_decide.
  - unfold transferOverrun. apply wp_bind, wp_gets, wp_bind, wp_gets. rewrite Ht, Hi.
    destruct (fixedFrame_spec req v) as (q & Eq & (_ & Hb & _)). unfold len in Hb.
    rewrite frame_bits_length in Hb. eapply wp_bind, wp_lift; [exact Eq|].
    apply wp_bind, wp_exchange; [done| |].
    + intros e w. apply wp_ret, HQ, frame_error.
    + intros input w Hl. rewrite Hb in Hl. change (bytes_for (Z.of_nat 54)) with 7 in Hl.
      destruct (decodeFixedFrame_total input 0 req) as (r & e & Er & Hr & He); [lia|lia|].
      eapply wp_lift; [exact Er|]. apply HQ. by split.
  - apply wp_bind, wp_gets. rewrite Ht. destruct (header_seq_built req) as (q & Eq & (_ & Hb & _)).
    eapply wp_bind, wp_lift; [exact Eq|]. apply wp_bind, wp_exchange; [done| |].
    + intros e w. apply wp_ret, HQ, frame_error.
    + intros input w Hl. assert (bits q = 12) as Hq.
      { rewrite Hb. unfold len, drive, listen. rewrite length_app, length_fmap, length_word_bits, length_replicate. done. }
      rewrite Hq in Hl. change (bytes_for 12) with 2 in Hl.
      pose proof (readACK_spec input (8 + 1) ltac:(lia) ltac:(lia)) as Ea.
      eapply wp_bind, wp_lift; [exact Ea|]. destruct (ackError _) as [e|].
      * apply wp_bind, wp_finishFailed; [by split|done|]. intros e' w' _. apply wp_ret, HQ, frame_error.
      * destruct (isRead req).
        -- apply wp_readData; [by split|done|]. intros r w' Hr. by apply HQ.
        -- apply wp_bind, wp_writeData; [by split|done|]. intros e w'. apply wp_ret, HQ. by split.
Qed.

(** Execution may ask for repair, and then only with an error and in the
    overrun grammar. *)
Definition exec_conn (r : Z * err) (c c' : Conn) : Prop :=
  c' = c \/ (response c = responseOverrun /\ snd r <> None /\ c' = requireRepair c).

Lemma wp_executeFrame ctx req v (Q : Z * err -> St W -> Prop) s :
  framing (conn s) -> ctx_nil ctx = false ->
  (forall r c w, frame_result r -> exec_conn r (conn s) c -> Q r (mkSt c w)) ->
  wp (executeFrame ctx req v) Q s.
Proof.
  intros Hf Hn HQ. unfold executeFrame. apply wp_bind, wp_transferFrame; [done|done|].
  intros [r e] w Hr. apply wp_bind, wp_gets. cbn [conn]. destruct e as [e|]; [|apply wp_ret, HQ; [done|by left]].
  case_bool_decide as Hm; cbn [negb orb]; [|apply wp_ret, HQ; [done|by left]].
  destruct (err_eqb (Some e) swd_ErrWait); cbn [negb]; [|apply wp_ret, HQ; [done|by left]].
  destruct Hr as [Hr1 Hr2]. simpl in Hr1, Hr2.
  destruct (isAbortWrite req).
  { apply wp_bind, wp_modify, wp_ret, HQ; [by split; [|auto]|]. right. done. }
  apply wp_bind. unfold clearOverrunAfterWAIT. apply wp_bind, wp_transferFrame; [done|done|].
  intros [r' e'] w' _. destruct e' as [e'|].
  { apply wp_bind, wp_modify, wp_ret, wp_ret, HQ; [apply frame_error|]. right. done. }
  apply wp_ret, wp_bind, wp_gets. cbn [conn]. destruct (selectPending (conn s)).
  - apply wp_bind, wp_modify, wp_ret, HQ; [by split; [|auto]|]. right. done.
  - apply wp_bind, wp_ret, wp_ret, HQ; [by split; [|auto]|]. by left.
Qed.

Lemma exec_conn_keeps r c c' : exec_conn r c c' -> keeps c c'.
Proof. intros [->|(_ & _ & ->)]; [apply keeps_refl|apply keeps_requireRepair]. Qed.

Lemma wp_completionContext ctx (Q : context * err -> St W -> Prop) s :
  ctx_nil ctx = false ->
  (forall w e, Q (NilContext, Some e) (mkSt (conn s) w)) ->
  (forall w, 0 < completionTimeout (conn s) ->
     Q (WithTimeout (WithoutCancel ctx) (completionTimeout (conn s)), None) (mkSt (conn s) w)) ->
  wp (completionContext ctx) Q s.
Proof.
  intros Hn He Ho. unfold completionContext. apply wp_bind, wp_swd_ctxErr; [done|].
  intros [e|]; [apply wp_ret, He|]. apply wp_bind, wp_gets. cbn [conn].
  unfold validateCompletion. destruct (Z.leb_spec (completionTimeout (conn s)) 0); [apply wp_ret, He|].
  apply wp_bind, wp_gets, wp_ret, Ho. lia.
Qed.

Lemma wp_execute ctx req v (Q : Z * err -> St W -> Prop) s :
  framing (conn s) -> ctx_nil ctx = false ->
  (forall r c w, frame_result r -> exec_conn r (conn s) c -> Q r (mkSt c w)) ->
  wp (execute ctx req v) Q s.
Proof.
  intros Hf Hn HQ. unfold execute. apply wp_bind, wp_completionContext; [done| |].
  - intros w e. apply wp_ret, HQ; [apply frame_error|by left].
  - intros w _. by apply wp_executeFrame.
Qed.

Lemma wp_completionError ctx e (Q : err -> St W -> Prop) s :
  ctx_nil ctx = false ->
  (forall w e', (e <> None -> e' <> None) -> Q e' (mkSt (conn s) w)) ->
  wp (completionError ctx e) Q s.
Proof.
  intros Hn HQ. unfold completionError. apply wp_bind, wp_swd_ctxErr; [done|]. intros [c|]; [|by apply wp_ret, HQ].
  destruct (negb _); [|by apply wp_ret, HQ]. apply wp_ret, HQ. by destruct e.
Qed.

(** ** Methods that keep ownership *)

Definition Keeps {A} (m : M A) : Prop :=
  forall s, framing (conn s) -> wp m (fun _ s' => keeps (conn s) (conn s')) s.

Lemma Keeps_ret {A} (a : A) : Keeps (mret a).
Proof. intros s _. apply wp_ret, keeps_refl. Qed.

Lemma Keeps_bind {A B} (m : M A) (f : A -> M B) : Keeps m -> (forall a, Keeps (f a)) -> Keeps (mbind f m).
Proof.
  intros Hm Hf s Hs. apply wp_bind. eapply wp_mono; [by apply Hm|]. intros a s1 K1.
  eapply wp_mono; [apply Hf; exact (keeps_framing _ _ K1 Hs)|]. intros b s2. by apply keeps_trans.
Qed.

Lemma Keeps_cget {A} (f : Conn -> A) : Keeps (cget f).
Proof. intros s _. apply wp_gets, keeps_refl. Qed.

Lemma Keeps_cmod f : (forall c, keeps c (f c)) -> Keeps (cmod f).
Proof. intros Hf s _. by apply wp_modify. Qed.

Lemma Keeps_ctxErr ctx : ctx_nil ctx = false -> Keeps (ctxErr ctx).
Proof. intros Hn s _. apply wp_swd_ctxErr; [done|]. intros. apply keeps_refl. Qed.

Lemma Keeps_lift {A} (o : option A) : is_Some o -> Keeps (lift o).
Proof. intros [a Ho] s _. eapply wp_lift; [done|apply keeps_refl]. Qed.

Lemma Keeps_exchange ctx seq : ctx_nil ctx = false -> Keeps (exchange ctx seq).
Proof. intros Hn s _. apply wp_exchange; [done| |]; intros; apply keeps_refl. Qed.

Lemma Keeps_execute ctx req v : ctx_nil ctx = false -> Keeps (execute ctx req v).
Proof. intros Hn s Hs. apply wp_execute; [done|done|]. intros r c w _ K. by eapply exec_conn_keeps. Qed.

Lemma Keeps_completionError ctx e : ctx_nil ctx = false -> Keeps (completionError ctx e).
Proof. intros Hn s _. apply wp_completionError; [done|]. intros. apply keeps_refl. Qed.

Lemma Keeps_transfer ctx req v : ctx_nil ctx = false -> Keeps (transfer ctx req v).
Proof.
  intros Hn s Hs. unfold transfer. apply wp_bind, wp_gets. destruct (negb _); [apply wp_ret, keeps_refl|].
  apply wp_bind, wp_swd_ctxErr; [done|]. intros [e|]; [apply wp_ret, keeps_refl|].
  apply wp_bind, wp_gets. cbn [conn]. destruct (validateTransfer _ _ _); [apply wp_ret, keeps_refl|].
  apply wp_bind, wp_completionContext; [done|intros; apply wp_ret, keeps_refl|]. intros w _.
  apply wp_bind, wp_executeFrame; [done|done|]. intros [r e] c w' _ K%exec_conn_keeps. cbn [conn] in K.
  apply wp_bind, wp_modify. cbn [conn]. apply wp_bind, wp_completionError; [done|]. intros w2 e' _.
  apply wp_ret. eapply keeps_trans; [exact K|]. apply keeps_observeTransfer.
Qed.
End Facts.
Arguments Keeps {W} strict {A} m.

#[export] Hint Resolve Keeps_ctxErr Keeps_exchange Keeps_execute Keeps_completionError Keeps_transfer : swd.

(** Split a method into its steps and solve each from the database. *)
Ltac keeps_step :=
  lazymatch goal with
  | |- Keeps _ (mbind _ _) => apply Keeps_bind; [|intros ?]
  | |- Keeps _ (if ?b then _ else _) => destruct b
  | |- Keeps _ (match ?x with _ => _ end) => destruct x
  | |- Keeps _ (let '(_, _) := ?x in _) => destruct x
  | |- Keeps _ (mret _) => apply Keeps_ret
  | |- Keeps _ (cget _) => apply Keeps_cget
  | |- Keeps _ (cmod _) => apply Keeps_cmod; intros ?; auto with swd nocore
  | |- Keeps _ (lift _) => apply Keeps_lift; auto with swd nocore
  | |- Keeps _ _ => solve [auto with swd nocore]
  end.
Ltac keeps_solve := repeat keeps_step.
