(* ===== verification/SwdLifecycle.v ===== *)
(** * SWD connection lifecycle (swd/lifecycle.go, dormant.go, connect_options.go)

    [Connect] enters the protocol, identifies the DP, captures the inherited
    ORUNDETECT setting and establishes the response grammar; [Release] restores
    the setting.  Both work over any wire. *)

From S2P Require Import Prelude Go Bits SwdFrame SwdConn.
Local Open Scope Z_scope.

Definition connectWaitLimit : Z := 100.

(** A [ConnectOption] is [None] when nil, or sets the cleanup timeout. *)
Definition cleanupTimeout (options : list (option Z)) : Z :=
  foldl (fun t o => match o with Some t' => t' | None => t end) second options.

Definition finishRelease (c : Conn) : Conn :=
  invalidateBank (set_original false false (set_identity 0 false (set_response responseSimple (set_state connectionIdle c)))).

Definition setResponse (overrun : bool) (c : Conn) : Conn :=
  set_response (if overrun then responseOverrun else responseSimple) c.

Definition bankZero : bankSelection := mkBank 0 true.

(** [c.bank = bankSelection{valid: true}] *)
Definition selectBankZero (c : Conn) : Conn := set_bank bankZero (priorBank c) (selectPending c) c.

Section Ops.
Context {W : Type} `{Env W} `{Wire W}.

Abbreviation M := (GoM (St W)).

Definition wrap (msg : string) (e : error) : err := Some (Errorf msg [e]).

(** [readRaw] and [writeRaw] are only called with register addresses. *)
Definition readRaw (ctx : context) (addr : Z) : M (Z * err) :=
  let '(req, e) := newRequest false true addr in
  match e with Some e => mret (0, Some e) | None => execute ctx req 0 end.

Definition writeRaw (ctx : context) (addr value : Z) : M err :=
  let '(req, e) := newRequest false false addr in
  match e with Some e => mret (Some e) | None => '(_, e) ← execute ctx req value; mret e end.

(** *** Dormant activation *)

Definition dormant_entry_seq : option sequence :=
  entry ← appendN empty 9 true true;
  for_range 31 (fun bit s => append s true (any_bits 0x33bbbbba (Z.shiftl 1 bit))) entry.

Definition alert_bytes : list Z :=
  [0x92; 0xf3; 0x09; 0x62; 0x95; 0x2d; 0x85; 0x86;
   0xe9; 0xaf; 0xdd; 0xe3; 0xa2; 0x0e; 0xbc; 0x19].

Definition alert_seq : option sequence :=
  alert ← appendN empty 8 true true;
  foldl (fun s v => s ← s; appendByte s true v) (Some alert) alert_bytes.

Definition activation_seq : option sequence :=
  a ← appendN empty 4 true false;
  a ← appendByte a true 0x1a;
  a ← appendN a 56 true true;
  appendN a 8 true false.

Definition enterThroughDormant (ctx : context) : M err :=
  entry ← lift dormant_entry_seq;
  '(_, e) ← exchange ctx entry;
  match e with
  | Some e => mret (Some e)
  | None =>
      alert ← lift alert_seq;
      '(_, e) ← exchange ctx alert;
      match e with
      | Some e => mret (Some e)
      | None =>
          activation ← lift activation_seq;
          '(_, e) ← exchange ctx activation;
          mret e
      end
  end.

Definition readEntryIdentity (ctx : context) : M (Z * err) :=
  '(dpidr, e) ← readRaw ctx 0x00;
  if negb (err_eqb e swd_ErrProtocol) then mret (dpidr, e)
  else
    c ← ctxErr ctx;
    match c with
    | Some c => mret (0, Some (Sentinel (context_Err c)))
    | None =>
        e ← enterThroughDormant ctx;
        match e with
        | Some e => mret (0, Some (Join [Sentinel swd_ErrProtocol; Errorf "swd: dormant activation: %w" [e]]))
        | None => readRaw ctx 0x00
        end
    end.

(** *** Bootstrap *)

Definition bootstrap_clear (abort : bool) (dpidr : Z) : Z :=
  let clear := Z.lor (Z.lor clearStickyError clearWriteDataError) clearStickyOverrun in
  let clear := if abort then Z.lor clear 1 else clear in
  if Z.land (Z.shiftr dpidr 16) 1 =? 0 then Z.lor clear clearStickyCompare else clear.

Definition bootstrapAttempt (ctx : context) (abort : bool) : M (Z * err) :=
  '(dpidr, e) ← readEntryIdentity ctx;
  match e with
  | Some e => cmod requireRepair;; mret (0, wrap "swd: read DPIDR: %w" e)
  | None =>
      if Z.land dpidr 1 =? 0 then
        known ← cget identityKnown;
        (if known : bool then cmod requireRepair
         else cmod (fun c => invalidateBank (set_response responseSimple (set_state connectionIdle c))));;
        mret (0, Some (New "swd: invalid DPIDR: constant bit is clear"))
      else
        known ← cget identityKnown; id ← cget identity;
        if known && negb (dpidr =? id) then
          cmod requireRepair;; mret (0, Some (New "swd: DPIDR changed"))
        else
          cmod (set_identity dpidr true);;
          e ← writeRaw ctx 0x00 (bootstrap_clear abort dpidr);
          match e with
          | Some e => cmod requireRepair;; mret (0, wrap "swd: clear sticky state: %w" e)
          | None =>
              e ← writeRaw ctx 0x08 0;
              match e with
              | Some e => cmod requireRepair;; mret (0, wrap "swd: select DP bank zero: %w" e)
              | None =>
                  '(_, e) ← readRaw ctx 0x0c;
                  match e with
                  | Some e => cmod requireRepair;; mret (0, wrap "swd: settle DP bank zero: %w" e)
                  | None => cmod selectBankZero;; mret (dpidr, None)
                  end
              end
          end
  end.

Definition bootstrap (ctx : context) : M (Z * err) :=
  '(dpidr, e) ← bootstrapAttempt ctx false;
  if negb (errors_Is e swd_ErrWait) then mret (dpidr, e)
  else
    cmod (fun c => invalidateBank (set_response responseSimple c));;
    retryErr ← enterSWD ctx;
    match retryErr with
    | Some re => mret (0, errors_Join [e; wrap "swd: re-enter after bootstrap WAIT: %w" re])
    | None =>
        '(dpidr, retryErr) ← bootstrapAttempt ctx true;
        match retryErr with
        | Some re => mret (0, errors_Join [e; Some re])
        | None => mret (dpidr, None)
        end
    end.

(** *** Changing ORUNDETECT *)

Definition overrun_clear (identity state : Z) : Z :=
  let clear := 0 in
  let clear := if any_bits state stickyOverrun then Z.lor clear clearStickyOverrun else clear in
  let clear := if any_bits state stickyError then Z.lor clear clearStickyError else clear in
  let clear := if any_bits state writeDataErr then Z.lor clear clearWriteDataError else clear in
  if any_bits state stickyCompare && (Z.land (Z.shiftr identity 16) 1 =? 0)
  then Z.lor clear clearStickyCompare else clear.

Definition prepareOverrunWrite (ctx : context) (state : Z) : M (Z * err) :=
  id ← cget identity;
  let clear := overrun_clear id state in
  if clear =? 0 then mret (state, None)
  else
    e ← writeRaw ctx 0x00 clear;
    match e with
    | Some e => cmod requireRepair;; mret (0, Some e)
    | None =>
        let state := if any_bits clear clearStickyCompare then and_not state stickyCompare else state in
        mret (and_not state (Z.lor (Z.lor stickyOverrun stickyError) writeDataErr), None)
    end.

Definition verifyOverrunChange (ctx : context) (enabled allowFallback : bool) : M (bool * err) :=
  cmod (setResponse enabled);;
  '(state, e) ← readRaw ctx 0x04;
  match e with
  | Some e => cmod requireRepair;; mret (false, Some e)
  | None =>
      if Bool.eqb (any_bits state overrunDetect) enabled then mret (true, None)
      else
        cmod (set_response responseSimple);;
        if allowFallback then mret (false, None)
        else cmod requireRepair;; mret (false, Some (New "CTRL/STAT.ORUNDETECT did not change"))
  end.

Definition recoverAbandonedOverrunWrite (ctx : context) : M (Z * err) :=
  '(state, e) ← readRaw ctx 0x04;
  match e with
  | Some e => cmod requireRepair;; mret (0, Some e)
  | None =>
      if negb (any_bits state writeDataErr) then mret (state, None)
      else
        e ← writeRaw ctx 0x00 clearWriteDataError;
        match e with
        | Some e => cmod requireRepair;; mret (0, Some e)
        | None => mret (and_not state writeDataErr, None)
        end
  end.

Definition clearOverrunTransitionFault (ctx : context) (state : Z) : M err :=
  let clear := 0 in
  let clear := if any_bits state writeDataErr then Z.lor clear clearWriteDataError else clear in
  let clear := if any_bits state stickyOverrun then Z.lor clear clearStickyOverrun else clear in
  if clear =? 0 then mret None
  else
    e ← writeRaw ctx 0x00 clear;
    match e with
    | Some e => cmod requireRepair;; mret (Some e)
    | None => mret None
    end.

(** (applied, retry, observed, err) *)
Record settled := mkSettled { applied : bool; retry : bool; observed : Z; settle_err : err }.

Definition resolveOverrunFault (ctx : context) (enabled allowFallback : bool) : M settled :=
  '(state, e) ← readRaw ctx 0x04;
  match e with
  | Some e => cmod requireRepair;; mret (mkSettled false false 0 (Some (Join [Sentinel swd_ErrFault; e])))
  | None =>
      cmod (setResponse (any_bits state overrunDetect));;
      e ← clearOverrunTransitionFault ctx state;
      match e with
      | Some e => mret (mkSettled false false 0 (Some (Join [Sentinel swd_ErrFault; e])))
      | None =>
          let applied := Bool.eqb (any_bits state overrunDetect) enabled in
          if applied || allowFallback then mret (mkSettled applied false 0 None)
          else mret (mkSettled false true (and_not state (Z.lor writeDataErr stickyOverrun)) None)
      end
  end.

Definition resolveOverrunBarrier (ctx : context) (barrierErr : err) (enabled allowFallback : bool) : M settled :=
  if is_nil barrierErr || err_eqb barrierErr swd_ErrParity then
    '(a, e) ← verifyOverrunChange ctx enabled allowFallback;
    mret (mkSettled a false 0 e)
  else if err_eqb barrierErr swd_ErrWait then
    '(state, e) ← recoverAbandonedOverrunWrite ctx;
    mret (mkSettled false true state e)
  else if err_eqb barrierErr swd_ErrFault then resolveOverrunFault ctx enabled allowFallback
  else cmod requireRepair;; mret (mkSettled false false 0 barrierErr).

(** [for attempts := 0; attempts <= connectWaitLimit; attempts++] *)
Fixpoint settle_loop (n : nat) (ctx : context) (enabled allowFallback : bool) : M settled :=
  match n with
  | O => cmod requireRepair;;
         mret (mkSettled false false 0 (Some (New "ORUNDETECT barrier retry limit exceeded")))
  | S n =>
      '(_, e) ← readRaw ctx 0x0c;
      mode ← cget response;
      if err_eqb e swd_ErrWait && bool_decide (mode = responseSimple)
      then settle_loop n ctx enabled allowFallback
      else resolveOverrunBarrier ctx e enabled allowFallback
  end.

Definition settleOverrunWrite (ctx : context) (enabled allowFallback : bool) : M settled :=
  settle_loop (Z.to_nat (connectWaitLimit + 1)) ctx enabled allowFallback.

Fixpoint change_loop (n : nat) (ctx : context) (state : Z) (enabled allowFallback : bool) : M (bool * err) :=
  match n with
  | O => cmod requireRepair;; mret (false, Some (New "ORUNDETECT transition retry limit exceeded"))
  | S n =>
      '(state, e) ← prepareOverrunWrite ctx state;
      match e with
      | Some e => mret (false, Some e)
      | None =>
          let value := if enabled then Z.lor state overrunDetect else and_not state overrunDetect in
          e ← writeRaw ctx 0x04 value;
          match e with
          | Some e => cmod requireRepair;; mret (false, Some e)
          | None =>
              r ← settleOverrunWrite ctx enabled allowFallback;
              if negb (is_nil (settle_err r)) || negb (retry r) then mret (applied r, settle_err r)
              else change_loop n ctx (observed r) enabled allowFallback
          end
      end
  end.

Definition changeOverrun (ctx : context) (state : Z) (enabled allowFallback : bool) : M (bool * err) :=
  change_loop (Z.to_nat (connectWaitLimit + 1)) ctx state enabled allowFallback.

(** *** Release *)

Definition reenterForRelease (ctx : context) : M err :=
  cmod (fun c => invalidateBank (set_response responseSimple c));;
  e ← enterSWD ctx;
  match e with
  | Some e => cmod requireRepair;; mret (wrap "swd: re-enter protocol for release: %w" e)
  | None =>
      '(_, e) ← bootstrap ctx;
      match e with
      | Some e => mret (wrap "swd: bootstrap release: %w" e)
      | None =>
          '(state, e) ← readRaw ctx 0x04;
          match e with
          | Some e => cmod requireRepair;; mret (wrap "swd: read CTRL/STAT for release: %w" e)
          | None =>
              (if any_bits state overrunDetect then cmod (set_response responseOverrun) else mret tt);;
              mret None
          end
      end
  end.

Definition prepareRelease (ctx : context) : M err :=
  usable ← cget (fun c => bool_decide (state c = connectionReady) && bank_valid (bank c) && negb (selectPending c));
  e ← (if usable : bool then mret None else reenterForRelease ctx);
  match e with
  | Some e => mret (Some e)
  | None =>
      b ← cget bank;
      if bank_ b =? 0 then mret None
      else
        e ← writeRaw ctx 0x08 0;
        match e with
        | Some e => cmod requireRepair;; mret (wrap "swd: select DP bank zero for release: %w" e)
        | None =>
            '(_, e) ← readRaw ctx 0x0c;
            match e with
            | Some e => cmod requireRepair;; mret (wrap "swd: settle DP bank zero for release: %w" e)
            | None => cmod selectBankZero;; mret None
            end
        end
  end.

Definition restoreOverrun (ctx : context) : M err :=
  '(state, e) ← readRaw ctx 0x04;
  match e with
  | Some e => cmod requireRepair;; mret (wrap "swd: read CTRL/STAT for release: %w" e)
  | None =>
      known ← cget originalKnown; original ← cget originalOverrun;
      let want := if known : bool then original else any_bits state overrunDetect in
      if Bool.eqb (any_bits state overrunDetect) want then mret None
      else
        '(_, e) ← changeOverrun ctx state want false;
        match e with
        | Some e => mret (wrap "swd: restore overrun detection: %w" e)
        | None => mret None
        end
  end.

(** The body of [Release] under its deferred completion error. *)
Definition Release_body (ctx : context) : M err :=
  e ← prepareRelease ctx;
  match e with
  | Some e => mret (Some e)
  | None =>
      e ← restoreOverrun ctx;
      match e with
      | Some e => mret (Some e)
      | None => cmod finishRelease;; mret None
      end
  end.

Definition Release (ctx : context) : M err :=
  nothing ← cget (fun c => negb (wire c) || bool_decide (state c = connectionIdle));
  if nothing : bool then mret None
  else
    e ← ctxErr ctx;
    match e with
    | Some e => mret (Some (notExecuted (Sentinel (context_Err e))))
    | None => e ← Release_body ctx; completionError ctx e
    end.

(** *** Connect *)

Definition prepareConnection (ctx : context) : M (Z * Z * err) :=
  cmod (fun c => invalidateBank (set_response responseSimple (set_state connectionRepair c)));;
  e ← enterSWD ctx;
  match e with
  | Some e => mret (0, 0, wrap "swd: enter protocol: %w" e)
  | None =>
      '(dpidr, e) ← bootstrap ctx;
      match e with
      | Some e => mret (0, 0, Some e)
      | None =>
          '(state, e) ← readRaw ctx 0x04;
          match e with
          | Some e => cmod requireRepair;; mret (0, 0, wrap "swd: read CTRL/STAT: %w" e)
          | None => mret (dpidr, state, None)
          end
      end
  end.

Definition cleanupFailedConnect (connectErr : err) (timeout : Z) : M err :=
  match connectErr with
  | None => mret None
  | Some ce =>
      known ← cget originalKnown;
      if negb known then cmod finishRelease;; mret (Some ce)
      else
        st ← cget state;
        if bool_decide (st = connectionIdle) then mret (Some ce)
        else
          e ← Release (WithTimeout Background timeout);
          match e with
          | Some e => mret (Some (Join [ce; Errorf "swd: clean up failed Connect: %w" [e]]))
          | None => mret (Some ce)
          end
  end.

(** The body of [Connect] under its deferred functions. *)
Definition Connect_body (ctx : context) : M (Z * err) :=
  '(dpidr, state, e) ← prepareConnection ctx;
  match e with
  | Some e => mret (0, Some e)
  | None =>
      let inherited := any_bits state overrunDetect in
      cmod (fun c => if originalKnown c then c else set_original inherited true c);;
      e ← (if inherited then cmod (set_response responseOverrun);; mret None
           else '(_, e) ← changeOverrun ctx state true true; mret e);
      match e with
      | Some e => mret (0, wrap "swd: enable overrun detection: %w" e)
      | None => cmod (set_state connectionReady);; mret (dpidr, None)
      end
  end.

Definition Connect (ctx : context) (options : list (option Z)) : M (Z * err) :=
  has_wire ← cget wire;
  if negb has_wire then mret (0, Some (New "swd: nil connection"))
  else
    e ← ctxErr ctx;
    match e with
    | Some e => mret (0, Some (Sentinel (context_Err e)))
    | None =>
        let timeout := cleanupTimeout options in
        if timeout <=? 0 then mret (0, Some (New "swd: cleanup timeout must be positive"))
        else
          '(dpidr, e) ← Connect_body ctx;
          e ← completionError ctx e;
          e ← cleanupFailedConnect e timeout;
          mret (dpidr, e)
    end.
End Ops.
