(* ===== verification/SwdLifecycleFacts.v ===== *)
(** * What Connect and Release do to the connection, over every wire *)

From S2P Require Import Prelude Go Bits SwdFrame SwdConn SwdConnFacts SwdLifecycle.
Local Open Scope Z_scope.

Lemma keeps_setResponse strict b c : keeps_ strict c (setResponse b c).
Proof. apply keeps_response. Qed.

Lemma keeps_selectBankZero strict c : keeps_ strict c (selectBankZero c).
Proof. by apply keeps_bank. Qed.

Lemma keeps_resetGrammar strict c : keeps_ strict c (invalidateBank (set_response responseSimple c)).
Proof. eapply keeps_trans; [apply keeps_response|apply keeps_invalidateBank]. Qed.

#[export] Hint Resolve keeps_setResponse keeps_selectBankZero keeps_resetGrammar : swd.

Lemma enter_seq_ok : is_Some enter_seq.
Proof. eexists. vm_compute. reflexivity. Qed.
Lemma line_reset_seq_ok : is_Some line_reset_seq.
Proof. eexists. vm_compute. reflexivity. Qed.
Lemma dormant_entry_seq_ok : is_Some dormant_entry_seq.
Proof. eexists. vm_compute. reflexivity. Qed.
Lemma alert_seq_ok : is_Some alert_seq.
Proof. eexists. vm_compute. reflexivity. Qed.
Lemma activation_seq_ok : is_Some activation_seq.
Proof. eexists. vm_compute. reflexivity. Qed.

#[export] Hint Resolve enter_seq_ok line_reset_seq_ok dormant_entry_seq_ok alert_seq_ok activation_seq_ok : swd.

Section Raw.
Context {W : Type} `{Env W} `{Wire W} {strict : bool}.
Context (ctx : context) (Hctx : ctx_nil ctx = false).

Hint Resolve Hctx : swd.

Lemma Keeps_readRaw addr : Keeps (W := W) strict (readRaw ctx addr).
Proof. unfold readRaw. keeps_solve. Qed.
Lemma Keeps_writeRaw addr v : Keeps (W := W) strict (writeRaw ctx addr v).
Proof. unfold writeRaw. keeps_solve. Qed.
Hint Resolve Keeps_readRaw Keeps_writeRaw : swd.

Lemma Keeps_enterSWD : Keeps (W := W) strict (enterSWD ctx).
Proof. unfold enterSWD. keeps_solve. Qed.
Lemma Keeps_LineReset : Keeps (W := W) strict (LineReset ctx).
Proof. unfold LineReset. keeps_solve. Qed.
Hint Resolve Keeps_enterSWD : swd.
Lemma Keeps_JTAGToSWD : Keeps (W := W) strict (JTAGToSWD ctx).
Proof. unfold JTAGToSWD. keeps_solve. Qed.
Lemma Keeps_enterThroughDormant : Keeps (W := W) strict (enterThroughDormant ctx).
Proof. unfold enterThroughDormant. keeps_solve. Qed.
Hint Resolve Keeps_enterThroughDormant : swd.
Lemma Keeps_readEntryIdentity : Keeps (W := W) strict (readEntryIdentity ctx).
Proof. unfold readEntryIdentity. keeps_solve. Qed.
Hint Resolve Keeps_readEntryIdentity : swd.

Lemma Keeps_prepareOverrunWrite v : Keeps (W := W) strict (prepareOverrunWrite ctx v).
Proof. unfold prepareOverrunWrite. keeps_solve. Qed.
Lemma Keeps_verifyOverrunChange e a : Keeps (W := W) strict (verifyOverrunChange ctx e a).
Proof. unfold verifyOverrunChange. keeps_solve. Qed.
Lemma Keeps_recoverAbandonedOverrunWrite : Keeps (W := W) strict (recoverAbandonedOverrunWrite ctx).
Proof. unfold recoverAbandonedOverrunWrite. keeps_solve. Qed.
Lemma Keeps_clearOverrunTransitionFault v : Keeps (W := W) strict (clearOverrunTransitionFault ctx v).
Proof. unfold clearOverrunTransitionFault. cbv zeta. keeps_solve. Qed.
Hint Resolve Keeps_prepareOverrunWrite Keeps_verifyOverrunChange Keeps_recoverAbandonedOverrunWrite
  Keeps_clearOverrunTransitionFault : swd.
Lemma Keeps_resolveOverrunFault e a : Keeps (W := W) strict (resolveOverrunFault ctx e a).
Proof. unfold resolveOverrunFault. keeps_solve. Qed.
Hint Resolve Keeps_resolveOverrunFault : swd.
Lemma Keeps_resolveOverrunBarrier b e a : Keeps (W := W) strict (resolveOverrunBarrier ctx b e a).
Proof. unfold resolveOverrunBarrier. keeps_solve. Qed.
Hint Resolve Keeps_resolveOverrunBarrier : swd.
Lemma Keeps_settle_loop n e a : Keeps (W := W) strict (settle_loop n ctx e a).
Proof. induction n; cbn [settle_loop]; keeps_solve. Qed.
Lemma Keeps_settleOverrunWrite e a : Keeps (W := W) strict (settleOverrunWrite ctx e a).
Proof. apply Keeps_settle_loop. Qed.
Hint Resolve Keeps_settleOverrunWrite : swd.
Lemma Keeps_change_loop n v e a : Keeps (W := W) strict (change_loop n ctx v e a).
Proof. revert v. induction n; intros v; cbn [change_loop]; keeps_solve. Qed.
Lemma Keeps_changeOverrun v e a : Keeps (W := W) strict (changeOverrun ctx v e a).
Proof. apply Keeps_change_loop. Qed.
End Raw.
#[export] Hint Resolve Keeps_readRaw Keeps_writeRaw Keeps_enterSWD Keeps_enterThroughDormant Keeps_readEntryIdentity
  Keeps_changeOverrun Keeps_LineReset Keeps_JTAGToSWD : swd.

(** ** Identification *)

Definition identified (d : Z) (c : Conn) : Prop :=
  identityKnown c = true /\ identity c = d /\ Z.testbit d 0 = true.

(** A known identity survives every step. *)
Lemma identified_keeps strict d c1 c2 : identified d c1 -> keeps_ strict c1 c2 -> identified d c2.
Proof. intros (Hk & <- & Hb) K. destruct (k_identity _ _ _ K Hk). unfold identified. split_and!; congruence. Qed.

Lemma keeps_set_identity strict d c :
  (identityKnown c = true -> d = identity c) -> Z.testbit d 0 = true -> keeps_ strict c (set_identity d true c).
Proof.
  intros Hd Hb. split; simpl; try tauto; try (by unfold bank_ok). intros _ _. exact Hb.
Qed.

Lemma keeps_forget c :
  identityKnown c = false -> keeps_ false c (invalidateBank (set_response responseSimple (set_state connectionIdle c))).
Proof. intros Hk. split; simpl; try tauto; try discriminate; by unfold bank_ok. Qed.

Lemma odd_bit v : (Z.land v 1 =? 0) = false -> Z.testbit v 0 = true.
Proof.
  intros Hv. change v with (Z.shiftr v 0) in Hv. rewrite land_1_testbit in Hv by done.
  by destruct (Z.testbit v 0).
Qed.

Section Facts.
Context {W : Type} `{Env W} `{Wire W}.
Context (ctx : context) (Hctx : ctx_nil ctx = false).

Hint Resolve Hctx : swd.

(** One step of a method that keeps ownership, followed to its result. *)
Lemma wp_keeps {A} strict (m : GoM (St W) A) (Q : A -> St W -> Prop) c0 s :
  Keeps strict m -> framing (conn s) -> keeps_ strict c0 (conn s) ->
  (forall a s1, framing (conn s1) -> keeps_ strict c0 (conn s1) -> keeps_ strict (conn s) (conn s1) -> Q a s1) ->
  wp m Q s.
Proof.
  intros Hm Hf K0 HQ. eapply wp_mono; [by apply Hm|]. intros a s1 K1.
  apply HQ; [exact (keeps_framing _ _ K1 Hf)|exact (keeps_trans _ _ _ K0 K1)|done].
Qed.

(** Identification failed for good when the constant bit is clear; only then
    can the connection become idle. *)
Definition bootstrap_post (c : Conn) (r : Z * err) (s' : St W) : Prop :=
  keeps_ false c (conn s') /\
  (errors_Is (snd r) swd_ErrWait = true -> keeps_ true c (conn s')) /\
  (snd r = None -> keeps_ true c (conn s') /\ identified (fst r) (conn s')).

Lemma bootstrap_error c e (s' : St W) :
  keeps_ true c (conn s') -> bootstrap_post c (0, Some e) s'.
Proof. intros K. split; [by apply keeps_weaken|]. split; [done|by intros]. Qed.

Lemma bootstrapAttempt_spec abort s :
  framing (conn s) -> wp (bootstrapAttempt ctx abort) (bootstrap_post (conn s)) s.
Proof.
  intros Hf. set (c0 := conn s). assert (keeps_ true c0 (conn s)) as K0 by apply keeps_refl.
  assert (forall e s1, keeps_ true c0 (conn s1) ->
    wp (cmod requireRepair;; mret (0, Some e)) (bootstrap_post c0) s1) as Hfail.
  { intros e s1 K. apply wp_bind, wp_modify, wp_ret, bootstrap_error. eapply keeps_trans; [exact K|apply keeps_requireRepair]. }
  unfold bootstrapAttempt, wrap. apply wp_bind. eapply (wp_keeps true _ _ c0); [auto with swd nocore|done|done|].
  intros [dpidr e] s1 Hf1 K1 _. destruct e as [e|]; [by apply Hfail|].
  destruct (Z.land dpidr 1 =? 0) eqn:Eb.
  { apply wp_bind, wp_gets. destruct (identityKnown (conn s1)) eqn:Ek; [by apply Hfail|].
    apply wp_bind, wp_modify, wp_ret. split; [|split; [by intros|by intros]].
    eapply keeps_trans; [by apply keeps_weaken|by apply keeps_forget]. }
  apply odd_bit in Eb. apply wp_bind, wp_gets, wp_bind, wp_gets.
  destruct (identityKnown (conn s1) && negb (dpidr =? identity (conn s1))) eqn:Eid; [by apply Hfail|].
  apply wp_bind, wp_modify. set (s2 := mkSt _ _).
  assert (keeps_ true c0 (conn s2)) as K2.
  { eapply keeps_trans; [exact K1|]. apply keeps_set_identity; [|done]. intros Hk. rewrite Hk in Eid. simpl in Eid.
    apply negb_false_iff, Z.eqb_eq in Eid. done. }
  assert (identified dpidr (conn s2)) as I2 by (by split_and!).
  apply wp_bind. eapply (wp_keeps true _ _ c0); [auto with swd nocore|done|done|]. intros e s3 Hf3 K3 L3.
  destruct e as [e|]; [by apply Hfail|].
  apply wp_bind. eapply (wp_keeps true _ _ c0); [auto with swd nocore|done|done|]. intros e s4 Hf4 K4 L4.
  destruct e as [e|]; [by apply Hfail|].
  apply wp_bind. eapply (wp_keeps true _ _ c0); [auto with swd nocore|done|done|]. intros [v e] s5 Hf5 K5 L5.
  destruct e as [e|]; [by apply Hfail|]. apply wp_bind, wp_modify, wp_ret.
  assert (keeps_ true c0 (selectBankZero (conn s5))) as K6.
  { eapply keeps_trans; [exact K5|apply keeps_selectBankZero]. }
  split; [by apply keeps_weaken|]. split; [done|]. intros _. split; [done|].
  pose proof (keeps_trans _ _ _ L3 (keeps_trans _ _ _ L4 (keeps_trans _ _ _ L5 (keeps_selectBankZero true _)))) as L6.
  exact (identified_keeps _ _ _ _ I2 L6).
Qed.

Lemma bootstrap_spec s :
  framing (conn s) ->
  wp (bootstrap ctx) (fun r s' => keeps_ false (conn s) (conn s') /\
    (snd r = None -> keeps_ true (conn s) (conn s') /\ identified (fst r) (conn s'))) s.
Proof.
  intros Hf. unfold bootstrap, wrap. apply wp_bind. eapply wp_mono; [by apply bootstrapAttempt_spec|].
  intros [d e] s1 Hp1. destruct (errors_Is e swd_ErrWait) eqn:Ew; cbn [negb].
  2: { apply wp_ret. destruct Hp1 as (? & _ & ?). done. }
  destruct Hp1 as (_ & K1 & _). specialize (K1 Ew). destruct e as [e|]; [|discriminate Ew].
  apply wp_bind, wp_modify. set (s2 := mkSt _ _).
  assert (keeps_ true (conn s) (conn s2)) as K2 by (eapply keeps_trans; [exact K1|apply keeps_resetGrammar]).
  pose proof (keeps_framing _ _ K2 Hf) as Hf2.
  apply wp_bind. eapply (wp_keeps true _ _ (conn s)); [auto with swd nocore|done|done|]. intros re s3 Hf3 K3 _.
  destruct re as [re|]; [apply wp_ret; split; [apply keeps_weaken, K3|intros E; discriminate E]|].
  apply wp_bind. eapply wp_mono; [by apply bootstrapAttempt_spec|]. intros [d' re] s4 (K4 & _ & Kn).
  destruct re as [re|]; apply wp_ret.
  - split; [exact (keeps_trans _ _ _ (keeps_weaken false _ _ K3) K4)|intros E; discriminate E].
  - destruct (Kn eq_refl) as [K5 I5]. assert (keeps_ true (conn s) (conn s4)) as K6 by exact (keeps_trans _ _ _ K3 K5).
    split; [apply keeps_weaken, K6|]. intros _. exact (conj K6 I5).
Qed.

Lemma Keeps_bootstrap : Keeps (W := W) false (bootstrap ctx).
Proof. intros s Hs. eapply wp_mono; [by apply bootstrap_spec|]. by intros r s' []. Qed.
Hint Resolve Keeps_bootstrap : swd.

Lemma Keeps_reenterForRelease : Keeps (W := W) false (reenterForRelease ctx).
Proof. unfold reenterForRelease. keeps_solve. Qed.
Hint Resolve Keeps_reenterForRelease : swd.
Lemma Keeps_prepareRelease : Keeps (W := W) false (prepareRelease ctx).
Proof. unfold prepareRelease. keeps_solve. Qed.
Lemma Keeps_restoreOverrun : Keeps (W := W) false (restoreOverrun ctx).
Proof. unfold restoreOverrun. keeps_solve. Qed.

(** ** Release *)

(** A released connection: idle, owning nothing, keeping its configuration. *)
Definition released (c c' : Conn) : Prop := exists c1, keeps_ false c c1 /\ c' = finishRelease c1.

Definition release_post (c : Conn) (e : err) (s' : St W) : Prop :=
  released c (conn s') \/ (e <> None /\ keeps_ false c (conn s')).

Lemma Release_body_spec s :
  framing (conn s) -> wp (Release_body ctx) (release_post (conn s)) s.
Proof.
  intros Hf. unfold Release_body. apply wp_bind. eapply wp_mono; [by apply Keeps_prepareRelease|].
  intros e s1 K1. destruct e as [e|]; [apply wp_ret; by right|].
  apply wp_bind. eapply wp_mono; [apply Keeps_restoreOverrun; exact (keeps_framing _ _ K1 Hf)|].
  intros e s2 K2. pose proof (keeps_trans _ _ _ K1 K2). destruct e as [e|]; [apply wp_ret; by right|].
  apply wp_bind, wp_modify, wp_ret. left. by exists (conn s2).
Qed.

Lemma Release_spec s :
  framing (conn s) ->
  wp (Release ctx) (fun e s' =>
    if negb (wire (conn s)) || bool_decide (state (conn s) = connectionIdle) then e = None /\ s' = s
    else release_post (conn s) e s') s.
Proof.
  intros Hf. unfold Release. apply wp_bind, wp_gets. destruct (_ || _); [by apply wp_ret|].
  apply wp_bind, wp_swd_ctxErr; [done|]. intros [e|].
  { apply wp_ret. right. split; [done|apply keeps_refl]. }
  apply wp_bind. eapply wp_mono; [by apply Release_body_spec|]. intros e s1 Hr. cbn [conn] in Hr.
  apply wp_completionError; [done|]. intros w e' He'. cbn [conn]. destruct Hr as [Hr|[Hn Hk]]; [by left|].
  right. split; [by apply He'|done].
Qed.

(** ** Connect *)

Lemma keeps_not_ready c c' : keeps_ false c c' -> state c <> connectionReady -> state c' <> connectionReady.
Proof. intros K Hs Hr. by apply Hs, (k_ready _ _ _ K). Qed.

Lemma prepareConnection_spec s :
  framing (conn s) ->
  wp (prepareConnection ctx) (fun r s' => keeps_ false (conn s) (conn s') /\ state (conn s') <> connectionReady /\
    (snd r = None -> state (conn s') <> connectionIdle /\ identified (fst (fst r)) (conn s'))) s.
Proof.
  intros Hf. unfold prepareConnection, wrap. apply wp_bind, wp_modify. set (s1 := mkSt _ _).
  assert (keeps_ true (conn s) (conn s1)) as K1.
  { eapply keeps_trans; [apply keeps_repair_state|apply keeps_resetGrammar]. }
  assert (forall a b e (s' : St W), keeps_ false (conn s1) (conn s') ->
    keeps_ false (conn s) (conn s') /\ state (conn s') <> connectionReady /\
    (snd (a : Z, b : Z, Some e : err) = None -> state (conn s') <> connectionIdle /\ identified (fst (a, b)) (conn s'))) as Hfail.
  { intros a b e s' K. split; [exact (keeps_trans _ _ _ (keeps_weaken false _ _ K1) K)|].
    split; [|intros E; discriminate E]. eapply keeps_not_ready; [exact K|]. discriminate. }
  apply wp_bind. eapply (wp_keeps true _ _ (conn s1)); [auto with swd nocore|exact (keeps_framing _ _ K1 Hf)|apply keeps_refl|].
  intros e s2 Hf2 K2 _. destruct e as [e|]; [apply wp_ret, Hfail, keeps_weaken, K2|].
  apply wp_bind. eapply wp_mono; [apply bootstrap_spec, Hf2|]. intros [d e] s3 [K3 I3].
  pose proof (keeps_trans _ _ _ (keeps_weaken false _ _ K2) K3) as K03.
  pose proof (keeps_framing _ _ K3 Hf2) as Hf3.
  destruct e as [e|]; [apply wp_ret, Hfail, K03|]. destruct (I3 eq_refl) as [K3' I3'].
  apply wp_bind. eapply (wp_keeps true _ _ (conn s3)); [auto with swd nocore|exact Hf3|apply keeps_refl|].
  intros [v e] s4 Hf4 K4 _. pose proof (keeps_trans _ _ _ K03 (keeps_weaken false _ _ K4)) as K04.
  destruct e as [e|].
  { apply wp_bind, wp_modify, wp_ret, Hfail. cbn [conn]. eapply keeps_trans; [exact K04|apply keeps_requireRepair]. }
  apply wp_ret. destruct (Hfail 0 0 (New "swd") s4 K04) as (H1 & H2 & _). split; [exact H1|]. split; [exact H2|].
  intros _. split; [|exact (identified_keeps _ _ _ _ I3' K4)].
  intros Hi. destruct (k_idle _ _ _ (keeps_trans _ _ _ K2 (keeps_trans _ _ _ K3' K4)) Hi) as [E|[E _]]; discriminate E.
Qed.

(** What the attempt has established when it fails or succeeds. *)
Definition attempted (c : Conn) (r : Z * err) (c' : Conn) : Prop :=
  framing c' /\ wire c' = wire c /\ completionTimeout c' = completionTimeout c /\
  identity_ok c' /\ bank_ok c' /\
  (identityKnown c = true -> identityKnown c' = true /\ identity c' = identity c) /\
  (originalKnown c = true -> originalKnown c' = true /\ originalOverrun c' = originalOverrun c) /\
  (originalKnown c' = true -> originalKnown c = true \/ (state c' <> connectionIdle /\ identityKnown c' = true)) /\
  (state c' = connectionIdle -> state c = connectionIdle \/ identityKnown c = false) /\
  (snd r = None -> state c' = connectionReady /\ originalKnown c' = true /\ identified (fst r) c') /\
  (snd r <> None -> state c' <> connectionReady).

Lemma keeps_attempted c c' e :
  framing c -> identity_ok c -> bank_ok c -> state c' <> connectionReady ->
  keeps_ false c c' -> attempted c (0, Some e) c'.
Proof.
  intros Hf Hi Hb Hr K. split_and!.
  - exact (keeps_framing _ _ K Hf).
  - apply (k_wire _ _ _ K).
  - apply (k_timeout _ _ _ K).
  - exact (k_identity_ok _ _ _ K Hi).
  - exact (k_bank_ok _ _ _ K Hb).
  - exact (k_identity _ _ _ K).
  - intros Ho. rewrite (k_known _ _ _ K), (k_overrun _ _ _ K). done.
  - intros Ho. left. by rewrite <- (k_known _ _ _ K).
  - intros Hs. destruct (k_idle _ _ _ K Hs) as [|[_ ?]]; auto.
  - intros E. discriminate E.
  - intros _. exact Hr.
Qed.

Lemma Connect_body_spec s :
  framing (conn s) -> identity_ok (conn s) -> bank_ok (conn s) ->
  wp (Connect_body ctx) (fun r s' => attempted (conn s) r (conn s')) s.
Proof.
  intros Hf Hid Hbk. unfold Connect_body, wrap. apply wp_bind.
  eapply wp_mono; [apply prepareConnection_spec, Hf|].
  intros [[d v] e] s1 (K1 & Hr1 & I1). pose proof (keeps_framing _ _ K1 Hf) as Hf1. destruct e as [e|]; [apply wp_ret; by apply keeps_attempted|].
  destruct (I1 eq_refl) as [Hs1 Hi1]. cbn [fst] in Hi1. apply wp_bind, wp_modify. set (s2 := mkSt _ _).
  assert (originalKnown (conn s2) = true /\ framing (conn s2) /\ state (conn s2) = state (conn s1) /\
    identified d (conn s2) /\ wire (conn s2) = wire (conn s1) /\ completionTimeout (conn s2) = completionTimeout (conn s1) /\
    bank_ok (conn s2) /\ (originalKnown (conn s1) = true -> originalOverrun (conn s2) = originalOverrun (conn s1)))
    as (Ho2 & Hf2 & Hs2 & Hi2 & Hw2 & Ht2 & Hb2 & Hov2).
  { pose proof (k_bank_ok _ _ _ K1 Hbk). subst s2. cbn [conn].
    destruct (originalKnown (conn s1)) eqn:Eo; [by split_and!|]. split_and!; done. }
  assert (forall r (s3 : St W), keeps_ true (conn s2) (conn s3) -> snd r <> None -> state (conn s3) <> connectionReady ->
    attempted (conn s) r (conn s3)) as Hfin.
  { intros r s3 K3 He Hr3. destruct (k_identity _ _ _ K3 (proj1 Hi2)) as [Hk3 Hid3]. split_and!.
    - exact (keeps_framing _ _ K3 Hf2).
    - by rewrite (k_wire _ _ _ K3), Hw2, (k_wire _ _ _ K1).
    - by rewrite (k_timeout _ _ _ K3), Ht2, (k_timeout _ _ _ K1).
    - intros _. destruct (identified_keeps _ _ _ _ Hi2 K3) as (_ & E & Hbit). by rewrite E.
    - exact (k_bank_ok _ _ _ K3 Hb2).
    - intros Hk. destruct (k_identity _ _ _ K1 Hk) as [_ E1]. split; [done|]. destruct Hi1 as (_ & Ed1 & _), Hi2 as (_ & Ed2 & _). congruence.
    - intros Hk. rewrite (k_known _ _ _ K3), (k_overrun _ _ _ K3). split; [done|].
      rewrite Hov2 by (by rewrite (k_known _ _ _ K1)). apply (k_overrun _ _ _ K1).
    - intros _. right. split; [|done]. intros Hi. destruct (k_idle _ _ _ K3 Hi) as [Hi'|[? _]]; [|discriminate].
      rewrite Hs2 in Hi'. by apply Hs1.
    - intros Hi. destruct (k_idle _ _ _ K3 Hi) as [Hi'|[? _]]; [|discriminate]. rewrite Hs2 in Hi'. by destruct Hs1.
    - intros E. by destruct He.
    - intros _. exact Hr3. }
  assert (forall s3 : St W, keeps_ true (conn s2) (conn s3) ->
    wp (cmod (set_state connectionReady);; mret (d, None)) (fun r s' => attempted (conn s) r (conn s')) s3) as Hok.
  { intros s3 K3. apply wp_bind, wp_modify, wp_ret. cbn [conn].
    assert (state (conn s3) <> connectionReady) as Hr3.
    { intros E. apply (k_ready _ _ _ K3) in E. congruence. }
    assert (attempted (conn s) (0, Some (New "swd")) (conn s3)) as A by (apply Hfin; [exact K3|discriminate|exact Hr3]).
    destruct A as (A1 & A2 & A3 & A4 & A5 & A6 & A7 & A8 & A9 & _ & _).
    destruct (identified_keeps _ _ _ _ Hi2 K3) as (I3 & E3 & B3).
    split_and!; try done.
    - intros _. right. done.
    - intros _. split_and!; [done| |by split_and!]. simpl. by rewrite (k_known _ _ _ K3). }
  apply wp_bind. destruct (any_bits v overrunDetect).
  - apply wp_bind, wp_modify, wp_ret. apply Hok. cbn [conn]. apply keeps_response.
  - apply wp_bind. eapply wp_mono; [apply (Keeps_changeOverrun (strict := true) ctx Hctx); exact Hf2|]. intros [b e] s3 K3.
    apply wp_ret. destruct e as [e|]; [|exact (Hok s3 K3)]. apply wp_ret. apply (Hfin _ s3 K3); [discriminate|].
    intros E. apply (k_ready _ _ _ K3) in E. congruence.
Qed.
End Facts.

(** ** The ownership invariant *)

Record inv (c : Conn) : Prop := {
  i_framing : framing c;
  i_identity : identity_ok c;
  i_bank : bank_ok c;
  i_owner : originalKnown c = true -> identityKnown c = true;
  i_idle : state c = connectionIdle -> originalKnown c = false;
  i_ready : state c = connectionReady -> originalKnown c = true
}.

Lemma inv_New has_wire options : inv (New_ has_wire options).
Proof.
  assert (forall c, inv c -> originalKnown c = false -> inv (foldl (fun c o =>
    if opt_completionSet o then set_completionTimeout (opt_completionTimeout o) c else c) c options) /\
    originalKnown (foldl (fun c o =>
    if opt_completionSet o then set_completionTimeout (opt_completionTimeout o) c else c) c options) = false) as Hg.
  { induction options as [|o l IH]; intros c Hc Ho; [done|]. simpl. apply IH; destruct (opt_completionSet o); try done.
    destruct Hc. by split. }
  apply Hg; [|done]. by split.
Qed.

Lemma keeps_inv c c' : keeps_ false c c' -> inv c -> inv c'.
Proof.
  intros K [H1 H2 H3 H4 H5 H6]. split.
  - exact (keeps_framing _ _ K H1).
  - exact (k_identity_ok _ _ _ K H2).
  - exact (k_bank_ok _ _ _ K H3).
  - rewrite (k_known _ _ _ K). intros Ho. by apply (k_identity _ _ _ K), H4.
  - rewrite (k_known _ _ _ K). intros Hs. destruct (k_idle _ _ _ K Hs) as [?|[_ Hn]]; [by apply H5|].
    destruct (originalKnown c); [|done]. rewrite H4 in Hn; done.
  - rewrite (k_known _ _ _ K). intros Hs. by apply H6, (k_ready _ _ _ K).
Qed.

Lemma inv_finishRelease c : framing c -> inv (finishRelease c).
Proof. intros Hf. by split. Qed.

(** The connection owns nothing. *)
Definition idle_conn (c : Conn) : Prop :=
  state c = connectionIdle /\ originalKnown c = false /\ identityKnown c = false /\ response c = responseSimple.

Lemma released_idle c c' : framing c -> released c c' -> inv c' /\ idle_conn c' /\ wire c' = wire c.
Proof.
  intros Hf (c1 & K & ->). split; [apply inv_finishRelease; exact (keeps_framing _ _ K Hf)|].
  split; [done|]. apply (k_wire _ _ _ K).
Qed.

Definition retained (c c' : Conn) : Prop :=
  originalKnown c' = true /\ (originalKnown c = true -> originalOverrun c' = originalOverrun c).

Definition connect_post (c : Conn) (r : Z * err) (c' : Conn) : Prop :=
  inv c' /\ wire c' = wire c /\
  match snd r with
  | None => state c' = connectionReady /\ retained c c' /\ identified (fst r) c' /\
      (identityKnown c = true -> fst r = identity c)
  | Some _ => c' = c \/ idle_conn c' \/ retained c c'
  end.

Lemma attempted_inv c r c' : inv c -> attempted c r c' -> inv c'.
Proof.
  intros [H1 H2 H3 H4 H5 H6] (A1 & A2 & A3 & A4 & A5 & A6 & A7 & A8 & A9 & A10 & A11). split; try done.
  - intros Ho. destruct (A8 Ho) as [?|[_ ?]]; [|done]. by apply A6, H4.
  - intros Hs. destruct (originalKnown c') eqn:Eo; [|done]. destruct (A8 eq_refl) as [Hc|[Hn _]]; [|done].
    exfalso. destruct (A9 Hs) as [Hi|Hk]; [rewrite H5 in Hc; done|]. rewrite H4 in Hk; done.
  - intros Hr. destruct (snd r) eqn:Er; [by destruct A11|by apply A10].
Qed.

Section Connect.
Context {W : Type} `{Env W} `{Wire W}.

Lemma attempted_retained c r c' : attempted c r c' -> originalKnown c' = true -> retained c c'.
Proof. intros (_ & _ & _ & _ & _ & _ & A7 & _) Ho. split; [done|]. intros Hc. by apply A7. Qed.

Lemma cleanup_spec c r e timeout (s : St W) :
  inv c -> attempted c r (conn s) -> wire c = true -> e <> None ->
  wp (cleanupFailedConnect e timeout) (fun e' s' => e' <> None /\ inv (conn s') /\ wire (conn s') = wire c /\
    (idle_conn (conn s') \/ retained c (conn s'))) s.
Proof.
  intros Hc Ha Hw He. pose proof (attempted_inv _ _ _ Hc Ha) as Hi. destruct e as [ce|]; [|by destruct He].
  pose proof (i_framing _ Hi) as Hf. assert (wire (conn s) = wire c) as Hw' by apply Ha.
  unfold cleanupFailedConnect. apply wp_bind, wp_gets. destruct (originalKnown (conn s)) eqn:Eo; cbn [negb].
  2: { apply wp_bind, wp_modify, wp_ret. split_and!; [discriminate|by apply inv_finishRelease|exact Hw'|by left]. }
  pose proof (attempted_retained _ _ _ Ha Eo) as Hr.
  apply wp_bind, wp_gets. case_bool_decide as Es.
  { apply wp_ret. rewrite (i_idle _ Hi Es) in Eo. discriminate Eo. }
  apply wp_bind. eapply wp_mono; [by apply Release_spec|]. intros e s' Hp. cbv beta in Hp.
  rewrite Hw', Hw, (bool_decide_eq_false_2 _ Es) in Hp. simpl in Hp.
  assert (inv (conn s') /\ wire (conn s') = wire c /\ (idle_conn (conn s') \/ retained c (conn s'))) as (P1 & P2 & P3).
  { destruct Hp as [Hrel|[_ K]].
    - destruct (released_idle _ _ Hf Hrel) as (? & ? & ?). split_and!; [done|congruence|by left].
    - split_and!; [by eapply keeps_inv|rewrite (k_wire _ _ _ K); congruence|]. right. destruct Hr as [_ Hr].
      split; [by rewrite (k_known _ _ _ K)|]. intros Hk. rewrite (k_overrun _ _ _ K). by apply Hr. }
  destruct e; apply wp_ret; split_and!; done.
Qed.

Lemma Connect_spec ctx options (s : St W) :
  ctx_nil ctx = false -> inv (conn s) ->
  wp (Connect ctx options) (fun r s' => connect_post (conn s) r (conn s')) s.
Proof.
  intros Hctx Hi. assert (forall e, connect_post (conn s) (0, Some e) (conn s)) as Hrej.
  { intros e. split; [exact Hi|]. split; [reflexivity|]. by left. }
  unfold Connect. apply wp_bind, wp_gets. destruct (wire (conn s)) eqn:Ew; cbn [negb]; [|apply wp_ret, Hrej].
  apply wp_bind, wp_swd_ctxErr; [done|]. intros [e|]; [apply wp_ret, Hrej|].
  destruct (_ <=? 0); [apply wp_ret, Hrej|].
  apply wp_bind. eapply wp_mono; [apply (Connect_body_spec ctx Hctx); cbn [conn]; apply Hi|].
  intros [d e] s1 Ha. cbn [conn] in Ha. apply wp_bind, wp_completionError; [done|]. intros w e' He'.
  apply wp_bind. destruct e' as [e'|].
  - eapply wp_mono; [eapply (cleanup_spec (conn s) (d, e) _ _ (mkSt (conn s1) w)); [exact Hi|exact Ha|exact Ew|discriminate]|].
    intros e2 s2 (Hn & H1 & H2 & H3). apply wp_ret. destruct e2 as [e2|]; [|by destruct Hn].
    split; [exact H1|]. split; [exact H2|]. by right.
  - assert (e = None) as -> by (destruct e; [exfalso; by apply He'|done]).
    cbn [cleanupFailedConnect]. apply wp_ret, wp_ret. cbn [conn].
    pose proof (attempted_inv _ _ _ Hi Ha) as Hi'. pose proof Ha as (_ & Hw & _ & _ & _ & A6 & _ & _ & _ & A10 & _).
    destruct (A10 eq_refl) as (Hr & Ho & Hid). cbn [fst] in Hid.
    split; [exact Hi'|]. split; [exact Hw|]. cbn [snd fst].
    split_and!; [exact Hr|by eapply attempted_retained|exact Hid|].
    intros Hk. destruct (A6 Hk) as [_ <-]. by destruct Hid as (_ & -> & _).
Qed.

(** ** Runs *)

(** One call of the connection's interface. *)
Inductive step (s : St W) : St W -> Prop :=
| step_Connect ctx options r s' : ctx_nil ctx = false -> Connect ctx options s = Done (r, s') -> step s s'
| step_Release ctx e s' : ctx_nil ctx = false -> Release ctx s = Done (e, s') -> step s s'
| step_Read ctx ap addr r s' : ctx_nil ctx = false -> read_ ctx ap addr s = Done (r, s') -> step s s'
| step_Write ctx ap addr v e s' : ctx_nil ctx = false -> write_ ctx ap addr v s = Done (e, s') -> step s s'
| step_LineReset ctx e s' : ctx_nil ctx = false -> LineReset ctx s = Done (e, s') -> step s s'
| step_JTAGToSWD ctx e s' : ctx_nil ctx = false -> JTAGToSWD ctx s = Done (e, s') -> step s s'.

Lemma Keeps_read ctx a addr : ctx_nil ctx = false -> Keeps (W := W) false (read_ ctx a addr).
Proof. intros Hctx. unfold read_. keeps_solve. Qed.
Lemma Keeps_write ctx a addr v : ctx_nil ctx = false -> Keeps (W := W) false (write_ ctx a addr v).
Proof. intros Hctx. unfold write_. keeps_solve. Qed.

(** The captured setting is kept until a release completes. *)
Definition obligation_kept (c c' : Conn) : Prop :=
  originalKnown c = true ->
  (originalKnown c' = true /\ originalOverrun c' = originalOverrun c) \/ idle_conn c'.

Lemma Keeps_step {A} (m : GoM (St W) A) s a s' :
  Keeps false m -> inv (conn s) -> m s = Done (a, s') -> inv (conn s') /\ obligation_kept (conn s) (conn s').
Proof.
  intros HK Hi E. pose proof (wp_elim _ _ _ _ _ (HK s (i_framing _ Hi)) E) as K. cbv beta in K.
  split; [by eapply keeps_inv|]. intros Ho. left. by rewrite (k_known _ _ _ K), (k_overrun _ _ _ K).
Qed.

Lemma step_inv s s' : inv (conn s) -> step s s' -> inv (conn s') /\ obligation_kept (conn s) (conn s').
Proof.
  intros Hi Hs. destruct Hs as [ctx o r s' Hc E|ctx e s' Hc E|ctx a addr r s' Hc E|ctx a addr v e s' Hc E|ctx e s' Hc E|ctx e s' Hc E].
  - destruct (wp_elim _ _ _ _ _ (Connect_spec ctx o s Hc Hi) E) as (Hi' & _ & Hp). split; [done|]. intros Ho.
    destruct (snd r).
    + destruct Hp as [->|[?|[? Hr]]]; [by left|by right|left; auto].
    + destruct Hp as (_ & [? Hr] & _). left. auto.
  - pose proof (wp_elim _ _ _ _ _ (Release_spec ctx Hc s (i_framing _ Hi)) E) as Hp. cbv beta in Hp.
    destruct (_ || _); [destruct Hp as [_ ->]; split; [done|by left]|].
    destruct Hp as [Hrel|[_ K]].
    + destruct (released_idle _ _ (i_framing _ Hi) Hrel) as (? & ? & _). split; [done|]. by right.
    + split; [by eapply keeps_inv|]. intros Ho. left. by rewrite (k_known _ _ _ K), (k_overrun _ _ _ K).
  - eapply Keeps_step; [by apply Keeps_read|done|exact E].
  - eapply Keeps_step; [by apply Keeps_write|done|exact E].
  - eapply Keeps_step; [by apply Keeps_LineReset|done|exact E].
  - eapply Keeps_step; [by apply Keeps_JTAGToSWD|done|exact E].
Qed.

Inductive run (s : St W) : St W -> Prop :=
| run_refl : run s s
| run_step s1 s2 : run s s1 -> step s1 s2 -> run s s2.

Lemma run_inv s s' : inv (conn s) -> run s s' -> inv (conn s').
Proof. intros Hi Hr. induction Hr as [|s1 s2 _ IH Hs]; [done|]. by apply (step_inv s1 s2). Qed.
End Connect.

(** ** Changing ORUNDETECT *)

Section Change.
Context {W : Type} `{Env W} `{Wire W}.
Context (ctx : context) (Hctx : ctx_nil ctx = false).

Hint Resolve Hctx : swd.

Lemma wp_any {A} (m : GoM (St W) A) (Q : A -> St W -> Prop) s :
  Keeps true m -> framing (conn s) -> (forall a s1, framing (conn s1) -> Q a s1) -> wp m Q s.
Proof.
  intros Hm Hf HQ. eapply wp_mono; [by apply Hm|]. intros a s1 K. apply HQ. exact (keeps_framing _ _ K Hf).
Qed.

(** Without fallback, settling without an error or a retry means applied. *)
Definition settled_ok (fallback : bool) (r : settled) : Prop :=
  settle_err r = None -> retry r = false -> fallback = false -> applied r = true.

Lemma verify_spec enabled fallback s :
  framing (conn s) ->
  wp (verifyOverrunChange (W := W) ctx enabled fallback)
    (fun r s' => framing (conn s') /\ (snd r = None -> fallback = false -> fst r = true)) s.
Proof.
  intros Hf. unfold verifyOverrunChange. apply wp_bind, wp_modify.
  apply wp_bind, wp_any; [auto with swd nocore|exact Hf|]. intros [v e] s1 Hf1.
  destruct e as [e|]; [apply wp_bind, wp_modify, wp_ret; split; [exact (keeps_framing _ _ (keeps_requireRepair (strict := true) _) Hf1)|by intros]|].
  destruct (Bool.eqb _ _); [by apply wp_ret|]. apply wp_bind, wp_modify.
  destruct fallback; [apply wp_ret; split; [exact Hf1|by intros]|].
  apply wp_bind, wp_modify, wp_ret. split; [|by intros].
  exact (keeps_framing _ _ (keeps_requireRepair (strict := true) _) (Hf1 : framing (set_response responseSimple (conn s1)))).
Qed.

Lemma barrier_spec b enabled fallback s :
  framing (conn s) ->
  wp (resolveOverrunBarrier (W := W) ctx b enabled fallback) (fun r s' => framing (conn s') /\ settled_ok fallback r) s.
Proof.
  intros Hf. unfold resolveOverrunBarrier. destruct (is_nil b || err_eqb b swd_ErrParity) eqn:En.
  { apply wp_bind. eapply wp_mono; [by apply verify_spec|]. intros [a e] s1 [Hf1 Ha]. apply wp_ret.
    split; [exact Hf1|]. intros He _ Hfb. by apply Ha. }
  destruct (err_eqb b swd_ErrWait).
  { apply wp_bind, wp_any; [by apply Keeps_recoverAbandonedOverrunWrite|exact Hf|]. intros [v e] s1 Hf1.
    apply wp_ret. split; [exact Hf1|]. by intros ? ?. }
  destruct (err_eqb b swd_ErrFault).
  2: { apply wp_bind, wp_modify, wp_ret. split; [exact (keeps_framing _ _ (keeps_requireRepair (strict := true) _) Hf)|].
       destruct b; [by intros|discriminate En]. }
  unfold resolveOverrunFault. apply wp_bind, wp_any; [auto with swd nocore|exact Hf|]. intros [v e] s1 Hf1.
  destruct e as [e|]; [apply wp_bind, wp_modify, wp_ret; split; [exact (keeps_framing _ _ (keeps_requireRepair (strict := true) _) Hf1)|by intros]|].
  apply wp_bind, wp_modify, wp_bind, wp_any; [by apply Keeps_clearOverrunTransitionFault|exact Hf1|]. intros e s2 Hf2.
  destruct e as [e|]; [apply wp_ret; split; [exact Hf2|by intros]|]. cbv zeta.
  destruct (Bool.eqb (any_bits v overrunDetect) enabled) eqn:Ea; cbn [orb].
  { apply wp_ret. split; [exact Hf2|]. by intros. }
  destruct fallback; apply wp_ret; (split; [exact Hf2|]); by intros.
Qed.

Lemma settle_spec n enabled fallback s :
  framing (conn s) ->
  wp (settle_loop (W := W) n ctx enabled fallback) (fun r s' => framing (conn s') /\ settled_ok fallback r) s.
Proof.
  revert s. induction n as [|n IH]; intros s Hf; cbn [settle_loop].
  { apply wp_bind, wp_modify, wp_ret. split; [exact (keeps_framing _ _ (keeps_requireRepair (strict := true) _) Hf)|by intros]. }
  apply wp_bind, wp_any; [auto with swd nocore|exact Hf|]. intros [v e] s1 Hf1. apply wp_bind, wp_gets.
  destruct (_ && _); [by apply IH|by apply barrier_spec].
Qed.

Lemma change_spec n v enabled s :
  framing (conn s) ->
  wp (change_loop (W := W) n ctx v enabled false) (fun r _ => snd r = None -> fst r = true) s.
Proof.
  revert v s. induction n as [|n IH]; intros v s Hf; cbn [change_loop].
  { apply wp_bind, wp_modify, wp_ret. by intros. }
  apply wp_bind, wp_any; [by apply Keeps_prepareOverrunWrite|exact Hf|]. intros [v1 e] s1 Hf1.
  destruct e as [e|]; [apply wp_ret; by intros|]. cbv zeta.
  apply wp_bind, wp_any; [auto with swd nocore|exact Hf1|]. intros e s2 Hf2.
  destruct e as [e|]; [apply wp_bind, wp_modify, wp_ret; by intros|].
  apply wp_bind. eapply wp_mono; [by apply settle_spec|]. intros r s3 [Hf3 Hr].
  destruct (is_nil (settle_err r)) eqn:Ei; cbn [negb orb].
  - destruct (retry r) eqn:Et; cbn [negb]; [by apply IH|]. apply wp_ret. intros He. by apply Hr.
  - apply wp_ret. intros He. cbn [snd] in He. by rewrite He in Ei.
Qed.
End Change.
