(* ===== verification/SwdSim.v ===== *)
(** * The behavioral SWD wire (swd/sim/wire.go)

    [Wire] decodes the traffic of a connection bit by bit, checks its directions,
    parity and idle clocks, and turns it into register accesses of a target.  The
    target is an interface: its optional methods are [None] when a target does
    not implement them. *)

From S2P Require Import Prelude Go Bits SwdFrame SwdConn.
Local Open Scope Z_scope.

Record Request := mkRequest { AP : bool; Read_ : bool; Addr : Z }.

(** [Target] with the optional [Acknowledger], [OverrunDetector],
    [ResponseObserver] and [LineResetObserver]. *)
Class Target (T : Type) := {
  Read : context -> Request -> T -> (Z * err) * T;
  Write : context -> Request -> Z -> T -> err * T;
  Acknowledge : option (context -> Request -> T -> err * T);
  OverrunDetectEnabled : option (T -> bool);
  ObserveResponse : option (sentinel -> T -> T);
  ObserveLineReset : option (T -> T)
}.

(** [Wire]; a nil target is [None]. *)
Record SimWire (T : Type) := mkWire {
  target : option T;
  active : bool;
  pending : option Request;
  pendingACK : Z;
  maxBits : Z
}.
Arguments mkWire {T}. Arguments target {T}. Arguments active {T}. Arguments pending {T}.
Arguments pendingACK {T}. Arguments maxBits {T}.

(** [New] *)
Definition NewWire {T} (t : option T) : SimWire T := mkWire t false None 0 0.

Definition SetMaxTransferBits {T} (bits : Z) (w : SimWire T) : err * SimWire T :=
  if bits <? 0 then (Some (New "swd/sim: negative transfer limit"), w)
  else (None, mkWire (target w) (active w) (pending w) (pendingACK w) bits).

Definition simMaxTransferBits {T} (w : SimWire T) : Z := if maxBits w =? 0 then 16384 else maxBits w.

(** ** Bits *)

Fixpoint allBits_loop (n : nat) (buf : list Z) (bit : Z) (want : bool) : option bool :=
  match n with
  | O => Some true
  | S n => b ← bitAt buf bit;
           if negb (Bool.eqb b want) then Some false else allBits_loop n buf (bit + 1) want
  end.

Definition allBits (buf : list Z) (offset count : Z) (want : bool) : option bool :=
  allBits_loop (Z.to_nat count) buf offset want.

Definition byteAt (buf : list Z) (offset : Z) : option Z :=
  for_range 8 (fun bit value => b ← bitAt buf (offset + bit);
    Some (if b : bool then Z.lor value (Z.shiftl 1 bit) else value)) 0.

Definition uint32At (buf : list Z) (offset : Z) : option Z :=
  for_range 32 (fun bit value => b ← bitAt buf (offset + bit);
    Some (if b : bool then Z.lor value (Z.shiftl 1 bit) else value)) 0.

Definition setUint32At (buf : list Z) (offset value : Z) : option (list Z) :=
  for_range 32 (fun bit buf => setBit buf (offset + bit) (negb (Z.land (Z.shiftr value bit) 1 =? 0))) buf.

(** The parity fold. *)
Definition sim_parity32 (value : Z) : bool :=
  let value := Z.lxor value (Z.shiftr value 16) in
  let value := Z.lxor value (Z.shiftr value 8) in
  let value := Z.lxor value (Z.shiftr value 4) in
  let value := Z.lxor value (Z.shiftr value 2) in
  let value := Z.lxor value (Z.shiftr value 1) in
  any_bits value 1.

Definition decodeRequest (header : Z) : Request * err :=
  let fields := Z.land (Z.shiftr header 1) 0x0f in
  if negb (Z.land header 0xc1 =? 0x81) ||
     negb (Bool.eqb (any_bits (Z.shiftr header 5) 1) (sim_parity32 fields))
  then (mkRequest false false 0, Some (New "swd/sim: invalid request header"))
  else (mkRequest (any_bits fields 1) (any_bits fields 2) (Z.shiftl (Z.shiftr fields 2) 2), None).

(** [a && b] over indexing expressions. *)
Definition and_then (a b : option bool) : option bool :=
  x ← a; if x : bool then b else Some false.

Definition lineReset (direction output : list Z) (bits : Z) : option bool :=
  if negb (bits =? 64) then Some false
  else and_then (allBits direction 0 bits true)
         (and_then (allBits output 0 56 true) (allBits output 56 8 false)).

Definition jtagToSWD (direction output : list Z) (bits : Z) : option bool :=
  if negb (bits =? 136) then Some false
  else and_then (allBits direction 0 bits true)
        (and_then (allBits output 0 56 true)
        (and_then (b ← byteAt output 56; Some (b =? 0x9e))
        (and_then (b ← byteAt output 64; Some (b =? 0xe7))
        (and_then (allBits output 72 56 true) (allBits output 128 8 false))))).

Definition protocolEntryResets (direction output : list Z) (bits : Z) : option Z :=
  r ← lineReset direction output bits;
  if r : bool then Some 1
  else j ← jtagToSWD direction output bits; Some (if j : bool then 2 else 0).

Definition validateFixedDirection (req : Request) (direction : list Z) (offset : Z) : option err :=
  if Read_ req then
    ok ← and_then (allBits direction (offset + 12) 34 false) (allBits direction (offset + 46) 8 true);
    Some (if ok : bool then None else Some (New "swd/sim: invalid fixed read direction"))
  else
    ok ← and_then (allBits direction (offset + 12) 1 false) (allBits direction (offset + 13) 41 true);
    Some (if ok : bool then None else Some (New "swd/sim: invalid fixed write direction")).

(** [for bit := range 3 { setBit(input, offset+bit, ack>>bit&1 != 0) }] *)
Definition setACK (input : list Z) (offset ack : Z) : option (list Z) :=
  for_range 3 (fun bit input => setBit input (offset + bit) (negb (Z.land (Z.shiftr ack bit) 1 =? 0))) input.

(** ** Target access *)

Section Sim.
Context {T : Type} `{Target T}.

Definition overrunEnabled (t : T) : bool :=
  match OverrunDetectEnabled with Some f => f t | None => false end.

Definition observeResponse (ack : Z) (t : T) : T :=
  match ObserveResponse with
  | None => t
  | Some f =>
      if ack =? 1 then t
      else if ack =? 2 then f swd_ErrWait t
      else if ack =? 4 then f swd_ErrFault t
      else f swd_ErrProtocol t
  end.

Definition observeLineReset (resets : Z) (t : T) : T :=
  match ObserveLineReset with
  | None => t
  | Some f => Nat.iter (Z.to_nat resets) f t
  end.

Definition acknowledge (ctx : context) (req : Request) (t : T) : (Z * err) * T :=
  match Acknowledge with
  | None => ((1, None), t)
  | Some f =>
      let '(e, t) := f ctx req t in
      match e with
      | None => ((1, None), t)
      | Some _ =>
          if errors_Is e swd_ErrFault then ((4, None), t)
          else if errors_Is e swd_ErrWait then ((2, None), t)
          else ((0, e), t)
      end
  end.

Context `{Env (SimWire T)}.

Abbreviation M := (GoM (SimWire T)).

Definition set_target (t : T) : M unit := modify (fun w =>
  mkWire (Some t) (active w) (pending w) (pendingACK w) (maxBits w)).
Definition set_pending (p : option Request) : M unit := modify (fun w =>
  mkWire (target w) (active w) p (pendingACK w) (maxBits w)).

(** A method of a target that is present. *)
Definition on_target {A} (t : T) (f : T -> A * T) : M A :=
  let '(a, t') := f t in set_target t';; mret a.

Definition simCtxErr (ctx : context) : M (option ctxError) := fun w =>
  if ctx_nil ctx then Panicked else Done (ctx_Err ctx w).

Definition validateSWDIO (ctx : context) (direction output : list Z) (bits : Z) : M err :=
  e ← simCtxErr ctx;
  match e with
  | Some e => mret (Some (Sentinel (context_Err e)))
  | None =>
      limit ← gets simMaxTransferBits;
      mret (if bits <? 0 then Some (New "swd/sim: negative bit count")
            else if limit <? bits then Some (New "swd/sim: stream exceeds transfer limit")
            else if (len direction <? (bits + 7) / 8) || (len output <? (bits + 7) / 8)
            then Some (New "swd/sim: direction or output is too short")
            else None)
  end.

Definition request_ (ctx : context) (direction output : list Z) (bits : Z) : M (list Z * err) :=
  ok ← lift (if negb (bits =? 12) then Some false
             else and_then (allBits direction 0 8 true) (allBits direction 8 4 false));
  if negb ok then mret ([], Some (New "swd/sim: invalid request direction"))
  else
    h ← lift (byteAt output 0);
    let '(req, e) := decodeRequest h in
    match e with
    | Some e => mret ([], Some e)
    | None =>
        tgt ← gets target;
        match tgt with
        | None => mret ([], Some (New "swd/sim: no target is configured"))
        | Some t =>
            '(ack, e) ← on_target t (acknowledge ctx req);
            match e with
            | Some e => mret ([], Some e)
            | None =>
                modify (fun w => mkWire (observeResponse ack <$> target w) (active w) (Some req) ack (maxBits w));;
                input ← lift (setACK (make_bytes 2) 9 ack);
                mret (input, None)
            end
        end
    end.

Definition failedACK (direction output : list Z) (bits : Z) : option (list Z * err) :=
  ok ← (if negb (bits =? 9) then Some false
        else and_then (b ← bitAt direction 0; Some (negb b))
               (and_then (allBits direction 1 8 true) (allBits output 1 8 false)));
  Some (if ok : bool then (make_bytes 2, None)
        else ([], Some (New "swd/sim: invalid transfer cleanup after WAIT or FAULT"))).

Definition simRead (ctx : context) (direction output : list Z) (bits : Z) (t : T) (req : Request) : M (list Z * err) :=
  ok ← lift (if negb (bits =? 42) then Some false
             else and_then (allBits direction 0 34 false)
                    (and_then (allBits direction 34 8 true) (allBits output 34 8 false)));
  if negb ok then mret ([], Some (New "swd/sim: invalid read-data direction"))
  else
    '(value, e) ← on_target t (Read ctx req);
    if negb (is_nil e) && negb (err_eqb e swd_ErrParity) then mret ([], e)
    else
      input ← lift (setUint32At (make_bytes 6) 0 value);
      input ← lift (setBit input 32 (negb (Bool.eqb (sim_parity32 value) (err_eqb e swd_ErrParity))));
      mret (input, None).

Definition simWrite (ctx : context) (direction output : list Z) (bits : Z) (t : T) (req : Request) : M (list Z * err) :=
  ok ← lift (if negb (bits =? 42) then Some false
             else and_then (b ← bitAt direction 0; Some (negb b))
                    (and_then (allBits direction 1 41 true) (allBits output 34 8 false)));
  if negb ok then mret ([], Some (New "swd/sim: invalid write-data direction"))
  else
    value ← lift (uint32At output 1);
    p ← lift (bitAt output 33);
    if negb (Bool.eqb p (sim_parity32 value)) then mret ([], Some (New "swd/sim: invalid write-data parity"))
    else e ← on_target t (Write ctx req value); mret (make_bytes 6, e).

(** [data]: a pending request implies a target. *)
Definition data (ctx : context) (direction output : list Z) (bits : Z) (req : Request) : M (list Z * err) :=
  set_pending None;;
  tgt ← gets target; ack ← gets pendingACK;
  match tgt with
  | None => panic
  | Some t =>
      if negb (ack =? 1) then
        if overrunEnabled t then mret ([], Some (New "swd/sim: overrun response requires a data phase"))
        else lift (failedACK direction output bits)
      else if Read_ req then simRead ctx direction output bits t req
      else simWrite ctx direction output bits t req
  end.

Definition fixedRead (ctx : context) (input : list Z) (t : T) (req : Request) (offset : Z) : M (list Z * err) :=
  '(value, e) ← on_target t (Read ctx req);
  if negb (is_nil e) && negb (err_eqb e swd_ErrParity) then mret (input, e)
  else
    input ← lift (setUint32At input (offset + 12) value);
    input ← lift (setBit input (offset + 44) (negb (Bool.eqb (sim_parity32 value) (err_eqb e swd_ErrParity))));
    mret (input, None).

Definition fixedWrite (ctx : context) (input output : list Z) (t : T) (req : Request) (offset : Z) : M (list Z * err) :=
  value ← lift (uint32At output (offset + 13));
  p ← lift (bitAt output (offset + 45));
  if negb (Bool.eqb p (sim_parity32 value)) then mret (input, Some (New "swd/sim: invalid fixed write-data parity"))
  else e ← on_target t (Write ctx req value); mret (input, e).

(** [fixedFrame] updates [input], which it returns with its error. *)
Definition simFixedFrame (ctx : context) (direction output input : list Z) (offset : Z) : M (list Z * err) :=
  tgt ← gets target;
  let overrun := match tgt with Some t => overrunEnabled t | None => false end in
  ok ← lift (and_then (allBits direction offset 8 true) (allBits direction (offset + 8) 4 false));
  if negb ok then mret (input, Some (New "swd/sim: invalid fixed request direction"))
  else
    h ← lift (byteAt output offset);
    let '(req, e) := decodeRequest h in
    match e with
    | Some e => mret (input, Some e)
    | None =>
        match tgt with
        | None => mret (input, Some (New "swd/sim: no target is configured"))
        | Some t =>
            e ← lift (validateFixedDirection req direction offset);
            match e with
            | Some e => mret (input, Some e)
            | None =>
                idle ← lift (allBits output (offset + 46) 8 false);
                if negb idle then mret (input, Some (New "swd/sim: fixed frame idle cycles must be low"))
                else
                  '(ack, e) ← on_target t (acknowledge ctx req);
                  match e with
                  | Some e => mret (input, Some e)
                  | None =>
                      tgt ← gets target;
                      match tgt with
                      | None => panic
                      | Some t =>
                          let t := observeResponse ack t in
                          set_target t;;
                          input ← lift (setACK input (offset + 9) ack);
                          if negb (ack =? 1) then
                            mret (input, if overrun then None
                                         else Some (New "swd/sim: fixed response frame requires ORUNDETECT"))
                          else if Read_ req then fixedRead ctx input t req offset
                          else fixedWrite ctx input output t req offset
                      end
                  end
            end
        end
    end.

(** [for offset := 0; offset < bits; offset += 54], [bits] a multiple of 54. *)
Fixpoint fixed_loop (n : nat) (ctx : context) (direction output input : list Z) (offset : Z) : M (list Z * err) :=
  match n with
  | O => mret (input, None)
  | S n =>
      '(input, e) ← simFixedFrame ctx direction output input offset;
      match e with
      | Some e => mret ([], Some e)
      | None => fixed_loop n ctx direction output input (offset + 54)
      end
  end.

Definition fixed (ctx : context) (direction output : list Z) (bits : Z) : M (list Z * err) :=
  fixed_loop (Z.to_nat (bits / 54)) ctx direction output (make_bytes ((bits + 7) / 8)) 0.

Definition simSWDIO (ctx : context) (direction output : list Z) (bits : Z) : M (list Z * err) :=
  e ← validateSWDIO ctx direction output bits;
  match e with
  | Some e => mret ([], Some e)
  | None =>
      if bits =? 0 then mret ([], None)
      else
        resets ← lift (protocolEntryResets direction output bits);
        if negb (resets =? 0) then
          p ← gets pending;
          match p with
          | Some _ => mret ([], Some (New "swd/sim: protocol entry during a pending data phase"))
          | None =>
              modify (fun w => mkWire (observeLineReset resets <$> target w) true None (pendingACK w) (maxBits w));;
              mret (make_bytes ((bits + 7) / 8), None)
          end
        else
          on ← gets active;
          if negb on then mret ([], Some (New "swd/sim: protocol entry is required"))
          else
            p ← gets pending;
            match p with
            | None =>
                if (54 <=? bits) && (bits mod 54 =? 0) then fixed ctx direction output bits
                else request_ ctx direction output bits
            | Some req => data ctx direction output bits req
            end
  end.

(** The wire of a connection.  A panic of the simulator has no result; the
    connection never causes one. *)
#[global] Instance SimWire_Wire : Wire (SimWire T) := {|
  SWDIO := fun ctx direction output bits w =>
    match simSWDIO ctx direction output bits w with
    | Done r => r
    | _ => (([], Some (New "panic")), w)
    end;
  MaxTransferBits := Some simMaxTransferBits
|}.
End Sim.
