(* ===== verification/SwdRefine.v ===== *)
(** * Frames over the behavioral wire refine register accesses

    One frame of a connection, sent bit by bit over the simulated wire in either
    response grammar, is exactly one register access of the target: the same
    acknowledgement, value and error, and the same target afterwards. *)

From Stdlib Require Import Ring.
From S2P Require Import Prelude Go Bits SwdFrame SwdConn SwdConnFacts SwdSim.
Local Open Scope Z_scope.

(** ** Parity *)

(** Folding halves the distance each time, so bit zero collects all 32 bits. *)
Lemma sim_parity32_spec v : 0 <= v < 2 ^ 32 -> sim_parity32 v = parity_of (word_bits 32 v).
Proof.
  intros Hv. unfold sim_parity32. set (v1 := Z.lxor v (Z.shiftr v 16)). set (v2 := Z.lxor v1 (Z.shiftr v1 8)).
  set (v3 := Z.lxor v2 (Z.shiftr v2 4)). set (v4 := Z.lxor v3 (Z.shiftr v3 2)). set (v5 := Z.lxor v4 (Z.shiftr v4 1)).
  change 1 with (2 ^ 0). rewrite any_bits_bit by done.
  assert (forall a k j, 0 <= j -> 0 <= k -> Z.testbit (Z.lxor a (Z.shiftr a k)) j = xorb (Z.testbit a j) (Z.testbit a (j + k))) as Hx.
  { intros. by rewrite Z.lxor_spec, Z.shiftr_spec. }
  unfold v5. rewrite Hx by lia. unfold v4. rewrite !Hx by lia. unfold v3. rewrite !Hx by lia.
  unfold v2. rewrite !Hx by lia. unfold v1. rewrite !Hx by lia.
  unfold word_bits, parity_of. generalize (Z.testbit v). intros f. cbv -[xorb]. ring.
Qed.

Lemma parity_agree v : 0 <= v < 2 ^ 32 -> parity32 v = sim_parity32 v.
Proof. intros Hv. by rewrite parity32_spec, sim_parity32_spec. Qed.

(** ** Requests *)

Definition request_ok (req : request) : Prop := addr req ∈ [0x00; 0x04; 0x08; 0x0c].

Lemma newRequest_ok a r x req : newRequest a r x = (req, None) -> request_ok req /\ req = mkReq a r x.
Proof.
  unfold newRequest, request_ok. rewrite !elem_of_cons.
  destruct (Z.eqb_spec x 0x00), (Z.eqb_spec x 0x04), (Z.eqb_spec x 0x08), (Z.eqb_spec x 0x0c); simpl;
    intros [= <-]; simpl; auto 6.
Qed.

Definition sim_request (req : request) : Request := mkRequest (ap req) (read req) (addr req).

Lemma decode_header req :
  request_ok req -> decodeRequest (requestByte req) = (sim_request req, None) /\ 0 <= requestByte req < 256.
Proof.
  destruct req as [a r x]. unfold request_ok. simpl. rewrite !elem_of_cons, elem_of_nil.
  intros [->|[->|[->|[->|[]]]]]; destruct a, r; (split; [vm_compute; reflexivity|vm_compute; split; [discriminate|reflexivity]]).
Qed.

(** ** Reading what a sequence holds *)

Lemma built_bits s l i :
  built s l -> 0 <= i < len l ->
  gbit (direction s) i = default false (l.*1 !! Z.to_nat i) /\
  gbit (output s) i = default false (l.*2 !! Z.to_nat i).
Proof.
  intros (Hw & Hb & Hv) Hi. subst l. unfold view, stream. rewrite <- !list_fmap_compose, !list_lookup_fmap.
  rewrite lookup_seqZ_lt by lia. simpl. replace (0 + (0 + Z.of_nat (Z.to_nat i))) with i by lia. done.
Qed.

Lemma built_len s l : built s l -> bits s = len l /\ len (direction s) = bytes_for (len l) /\ len (output s) = bytes_for (len l).
Proof. intros ((_ & (_ & Hd & _) & (_ & Ho & _)) & Hb & _). by rewrite Hb in *. Qed.

(** A buffer whose first bits are those of a list. *)
Definition holds (buf : list Z) (l : list bool) : Prop :=
  len buf = bytes_for (len l) /\ forall i, 0 <= i < len l -> gbit buf i = default false (l !! Z.to_nat i).

Lemma built_holds s l : built s l -> holds (direction s) l.*1 /\ holds (output s) l.*2.
Proof.
  intros Hb. destruct (built_len s l Hb) as (_ & Hd & Ho). unfold holds, len in *. rewrite !length_fmap.
  split; (split; [done|]); intros i Hi; by apply (built_bits s l i Hb).
Qed.

Lemma allBits_holds buf l off n want :
  holds buf l -> 0 <= off -> 0 <= n -> off + n <= len l ->
  allBits buf off n want = Some (forallb (Bool.eqb want) (take (Z.to_nat n) (drop (Z.to_nat off) l))).
Proof.
  intros [Hl Hg]. unfold allBits. remember (Z.to_nat n) as k eqn:Ek. revert n off Ek.
  pose proof (bytes_for_bound (len l) (len_nonneg l)) as Hbf.
  induction k as [|k IH]; intros n off Ek Ho Hn Hle; simpl; [done|].
  rewrite bitAt_spec, Hg by lia. cbn [mbind option_bind].
  destruct (lookup_lt_is_Some_2 l (Z.to_nat off)) as [b Eb]; [unfold len in Hle; lia|].
  rewrite (drop_S l b) by done. rewrite Eb. simpl.
  destruct b, want; simpl; try done; rewrite (IH (n - 1)) by lia;
    replace (Z.to_nat (off + 1)) with (S (Z.to_nat off)) by lia; done.
Qed.

(** The number held by [n] bits from [off]. *)
Lemma collect_holds buf l off n v :
  holds buf l -> 0 <= off -> 0 <= n -> off + n <= len l -> 0 <= v < 2 ^ n ->
  take (Z.to_nat n) (drop (Z.to_nat off) l) = word_bits n v ->
  for_range n (fun bit value => b ← bitAt buf (off + bit);
    Some (if b : bool then Z.lor value (Z.shiftl 1 bit) else value)) 0 = Some v.
Proof.
  intros [Hl Hg] Ho Hn Hle Hv Hw. pose proof (bytes_for_bound (len l) (len_nonneg l)).
  rewrite collect_bits by lia. f_equal. apply bits_value_of; [by rewrite Z2Nat.id|].
  intros i Hi. rewrite Z2Nat.id in Hi by lia. rewrite Hg by lia.
  assert (take (Z.to_nat n) (drop (Z.to_nat off) l) !! Z.to_nat i = l !! Z.to_nat (off + i)) as E.
  { rewrite lookup_take_lt, lookup_drop by lia. f_equal. lia. }
  rewrite <- E, Hw. unfold word_bits. rewrite list_lookup_fmap, lookup_seqZ_lt by lia. simpl. f_equal. lia.
Qed.

Lemma bitAt_holds buf l i b : holds buf l -> 0 <= i -> l !! Z.to_nat i = Some b -> bitAt buf i = Some b.
Proof.
  intros [Hl Hg] Hi Hb. pose proof (bytes_for_bound (len l) (len_nonneg l)).
  assert (i < len l) by (apply lookup_lt_Some in Hb; unfold len; lia).
  rewrite bitAt_spec, Hg by lia. by rewrite Hb.
Qed.

(** ** Writing a response *)

(** A response under construction: a buffer of bytes and what its bits are. *)
Definition response_ (buf : list Z) (n : Z) (f : Z -> bool) : Prop :=
  bytes buf /\ len buf = bytes_for n /\ forall j, 0 <= j -> gbit buf j = f j.

Lemma response_make n : 0 <= n -> response_ (make_bytes ((n + 7) / 8)) n (fun _ => false).
Proof.
  intros Hn. split; [apply bytes_make|]. split; [by apply len_make_bytes, bytes_for_nonneg|]. intros. apply gbit_make_bytes.
Qed.

Lemma setBit_response buf n f i v :
  response_ buf n f -> 0 <= i < n ->
  exists buf', setBit buf i v = Some buf' /\ response_ buf' n (fun j => f j || (v && (j =? i))).
Proof.
  intros (Hb & Hl & Hg) Hi. pose proof (bytes_for_bound n ltac:(lia)). rewrite setBit_or by lia.
  destruct (or_bit_spec buf i v) as (b' & -> & ? & ? & G); [lia|done|]. exists b'. split; [done|].
  split; [done|]. split; [lia|]. intros j Hj. by rewrite G, Hg.
Qed.

Lemma setBits_response k buf n f off v :
  response_ buf n f -> 0 <= k -> 0 <= off -> off + k <= n ->
  exists buf', for_range k (fun bit buf => setBit buf (off + bit) (negb (Z.land (Z.shiftr v bit) 1 =? 0))) buf = Some buf' /\
    response_ buf' n (fun j => f j || ((off <=? j) && (j <? off + k) && Z.testbit v (j - off))).
Proof.
  intros (Hb & Hl & Hg) Hk Ho Hle. pose proof (bytes_for_bound n ltac:(lia)).
  destruct (blit_spec (fun bit buf => setBit buf (off + bit) (negb (Z.land (Z.shiftr v bit) 1 =? 0)))
    (Z.testbit v) off k buf) as (b' & E & ? & ? & G); [done|done|lia|done| |].
  - intros i d Hi Hd. rewrite shiftr_bit by lia. apply setBit_or. lia.
  - exists b'. split; [done|]. split; [done|]. split; [lia|]. intros j Hj. by rewrite G, Hg.
Qed.

(** What the connection reads back. *)
Lemma readACK_response buf n f off ack :
  response_ buf n f -> 0 <= off -> off + 3 <= n -> 0 <= ack < 8 ->
  (forall i, 0 <= i < 3 -> f (off + i) = Z.testbit ack i) -> readACK buf off = Some ack.
Proof.
  intros (_ & Hl & Hg) Ho Hle Ha Hf. pose proof (bytes_for_bound n ltac:(lia)). rewrite readACK_spec by lia.
  f_equal. apply bits_value_of; [done|]. intros i Hi. rewrite Hg by lia. by apply Hf.
Qed.

Lemma extract_response buf n f off v :
  response_ buf n f -> 0 <= off -> off + 32 <= n -> 0 <= v < 2 ^ 32 ->
  (forall i, 0 <= i < 32 -> f (off + i) = Z.testbit v i) -> extractUint32At buf off = Some v.
Proof.
  intros (_ & Hl & Hg) Ho Hle Ha Hf. pose proof (bytes_for_bound n ltac:(lia)). rewrite extractUint32At_spec by lia.
  f_equal. apply bits_value_of; [done|]. intros i Hi. rewrite Hg by lia. by apply Hf.
Qed.

Lemma bitAt_response buf n f i : response_ buf n f -> 0 <= i < n -> bitAt buf i = Some (f i).
Proof.
  intros (_ & Hl & Hg) Hi. pose proof (bytes_for_bound n ltac:(lia)). rewrite bitAt_spec by lia. by rewrite Hg by lia.
Qed.

(** ** The simulated wire *)

Lemma bind_Done {S A B} (m : GoM S A) (f : A -> GoM S B) s a s' :
  m s = Done (a, s') -> mbind f m s = f a s'.
Proof. intros E. unfold mbind, GoM_bind. by rewrite E. Qed.

Section Refine.
Context {T : Type} `{Target T} `{Env (SimWire T)}.

(** Contexts that have not ended, a target whose words are 32 bits wide, and
    whose acknowledgement does not itself change ORUNDETECT. *)
Record SimLaws : Prop := {
  law_alive ctx w : ctx_Err ctx w = (None, w);
  law_word ctx req t : 0 <= fst (fst (Read ctx req t)) < 2 ^ 32;
  law_overrun ctx req t ack :
    overrunEnabled (observeResponse ack (snd (acknowledge ctx req t))) = overrunEnabled t
}.

(** One register access. *)
Definition access (ctx : context) (req : request) (value : Z) (t : T) : (Z * err) * T :=
  let '((ack, e), t1) := acknowledge ctx (sim_request req) t in
  match e with
  | Some e => ((0, Some e), t1)
  | None =>
      let t2 := observeResponse ack t1 in
      match ackError ack with
      | Some e => ((0, Some e), t2)
      | None =>
          if isRead req then
            let '((v, e), t3) := Read ctx (sim_request req) t2 in
            (match e with Some e => (0, Some e) | None => (v, None) end, t3)
          else
            let '(e, t3) := Write ctx (sim_request req) value t2 in ((0, e), t3)
      end
  end.

Context (HL : SimLaws).

Lemma acknowledge_cases ctx req t :
  exists ack e t1, acknowledge ctx req t = ((ack, e), t1) /\
    (e = None -> ack = 1 \/ ack = 2 \/ ack = 4).
Proof.
  unfold acknowledge. destruct Acknowledge as [f|]; [|by eexists _, _, _; auto].
  destruct (f ctx req t) as [[e|] t1]; [|by eexists _, _, _; auto].
  destruct (errors_Is _ swd_ErrFault); [eexists _, _, _; auto|].
  destruct (errors_Is _ swd_ErrWait); [eexists _, _, _; auto|]. by eexists _, _, _.
Qed.

(** An idle, entered wire with a target. *)
Definition ready_wire (t : T) (pa limit : Z) : SimWire T := mkWire (Some t) true None pa limit.

Lemma validate_ok ctx d o n w :
  ctx_nil ctx = false -> 0 <= n <= simMaxTransferBits w -> len d = bytes_for n -> len o = bytes_for n ->
  validateSWDIO ctx d o n w = Done (None, w).
Proof.
  intros Hn Hl Hd Ho. unfold validateSWDIO, simCtxErr. rewrite (bind_Done _ _ _ None w).
  - unfold gets, mbind, GoM_bind, mret, GoM_ret. rewrite Hd, Ho. unfold bytes_for.
    destruct (Z.ltb_spec n 0), (Z.ltb_spec (simMaxTransferBits w) n), (Z.ltb_spec ((n + 7) / 8) ((n + 7) / 8)); try lia. done.
  - rewrite Hn. by rewrite (law_alive HL).
Qed.

Lemma not_entry d o n : n <> 64 -> n <> 136 -> protocolEntryResets d o n = Some 0.
Proof.
  intros H1 H2. unfold protocolEntryResets, lineReset, jtagToSWD.
  destruct (Z.eqb_spec n 64), (Z.eqb_spec n 136); try lia. done.
Qed.

(** Traffic that is neither empty nor protocol entry reaches the frame decoder. *)
Lemma simSWDIO_frame ctx d o n t p pa limit :
  let w := mkWire (Some t) true p pa limit in
  ctx_nil ctx = false -> 0 < n <= simMaxTransferBits w -> n <> 64 -> n <> 136 ->
  len d = bytes_for n -> len o = bytes_for n ->
  simSWDIO ctx d o n w =
    match p with
    | None => if (54 <=? n) && (n mod 54 =? 0) then fixed ctx d o n w else request_ ctx d o n w
    | Some req => data ctx d o n req w
    end.
Proof.
  intros w Hc Hn H1 H2 Hd Ho. unfold simSWDIO.
  rewrite (bind_Done _ _ _ None w) by (apply validate_ok; [done|lia|done|done]).
  destruct (Z.eqb_spec n 0); [lia|]. rewrite not_entry by done.
  unfold lift, gets, mbind, GoM_bind, mret, GoM_ret. simpl. destruct p; [done|].
  by destruct ((54 <=? n) && (n mod 54 =? 0)).
Qed.

(** ** Exchanges *)

Definition usable (c : Conn) : Prop := framing c /\ wire c = true /\ 0 < completionTimeout c.

Lemma exchange_sim ctx seq c w r w' :
  usable c -> ctx_nil ctx = false -> simSWDIO ctx (direction seq) (output seq) (bits seq) w = Done (r, w') ->
  (snd r = None -> bytes_for (bits seq) <= len (fst r)) ->
  exchange ctx seq (mkSt c w) = Done (match snd r with None => (fst r, None) | Some e => ([], Some e) end, mkSt c w').
Proof.
  intros (_ & Hw & Ht) Hc E Hl. unfold exchange, cget, gets, mbind, GoM_bind, mret, GoM_ret. cbn [conn].
  rewrite Hw. cbn [negb]. unfold validateCompletion. cbn [conn].
  destruct (Z.leb_spec (completionTimeout c) 0); [lia|]. unfold ctxErr. rewrite Hc. cbn [world conn].
  rewrite (law_alive HL). unfold wireIO. cbn [world conn SWDIO SimWire_Wire].
  rewrite E. destruct r as [input [e|]]; simpl in *; [done|].
  fold (bytes_for (bits seq)). destruct (Z.ltb_spec (len input) (bytes_for (bits seq))); [specialize (Hl eq_refl); lia|done].
Qed.

Lemma length_header req : len (drive (word_bits 8 (requestByte req)) ++ listen 4) = 12.
Proof. done. Qed.

(** The request phase of the simple grammar. *)
Lemma request_sim ctx req s t pa limit :
  request_ok req -> built s (drive (word_bits 8 (requestByte req)) ++ listen 4) ->
  exists ack e t1, acknowledge ctx (sim_request req) t = ((ack, e), t1) /\
    (e = None -> ack = 1 \/ ack = 2 \/ ack = 4) /\
    match e with
    | Some e => request_ ctx (direction s) (output s) 12 (ready_wire t pa limit) =
                  Done (([], Some e), ready_wire t1 pa limit)
    | None => exists input, response_ input 12 (fun j => (9 <=? j) && (j <? 12) && Z.testbit ack (j - 9)) /\
                request_ ctx (direction s) (output s) 12 (ready_wire t pa limit) =
                  Done ((input, None), mkWire (Some (observeResponse ack t1)) true (Some (sim_request req)) ack limit)
    end.
Proof.
  intros Hok Hs. destruct (acknowledge_cases ctx (sim_request req) t) as (ack & e & t1 & Ea & Hack).
  exists ack, e, t1. split; [done|]. split; [done|].
  destruct (built_holds _ _ Hs) as [Hd Ho]. destruct (decode_header req Hok) as [Hdec Hr].
  assert (byteAt (output s) 0 = Some (requestByte req)) as Hby.
  { apply (collect_holds (output s) _ 0 8 (requestByte req) Ho); [lia|lia|vm_compute; discriminate|exact Hr|reflexivity]. }
  unfold request_. cbn [Z.eqb Pos.eqb negb].
  rewrite (allBits_holds _ _ 0 8 true Hd), (allBits_holds _ _ 8 4 false Hd) by (try lia; vm_compute; discriminate).
  rewrite (bind_Done _ _ _ true (ready_wire t pa limit)) by reflexivity. cbn [negb].
  rewrite Hby, (bind_Done _ _ _ (requestByte req) (ready_wire t pa limit)) by reflexivity. rewrite Hdec.
  rewrite (bind_Done _ _ _ (Some t) (ready_wire t pa limit)) by reflexivity.
  unfold on_target. rewrite Ea. rewrite (bind_Done _ _ _ (ack, e) (ready_wire t1 pa limit)) by reflexivity.
  destruct e as [e|]; [reflexivity|].
  destruct (setBits_response 3 (make_bytes 2) 12 (fun _ => false) 9 ack) as (input & Ein & Hin); [apply (response_make 12); lia|lia|lia|lia|].
  exists input. split; [exact Hin|]. unfold setACK. rewrite Ein. reflexivity.
Qed.

Lemma data_failed ctx s t req ack limit :
  built s (listen 1 ++ idle 8) -> ack <> 1 -> overrunEnabled t = false ->
  data ctx (direction s) (output s) 9 req (mkWire (Some t) true (Some req) ack limit) =
    Done ((make_bytes 2, None), ready_wire t ack limit).
Proof.
  intros Hs Hack Hov. destruct (built_holds _ _ Hs) as [Hd Ho].
  unfold data, set_pending, modify, gets, mbind, GoM_bind, mret, GoM_ret. cbn [target active pending pendingACK maxBits].
  destruct (Z.eqb_spec ack 1); [done|]. cbn [negb]. rewrite Hov. unfold failedACK. cbn [Z.eqb Pos.eqb negb].
  rewrite (bitAt_holds _ _ 0 false Hd), (allBits_holds _ _ 1 8 true Hd), (allBits_holds _ _ 1 8 false Ho)
    by (try lia; vm_compute; first [reflexivity|discriminate]).
  reflexivity.
Qed.

Lemma data_read ctx s t req limit :
  built s (listen 34 ++ idle 8) -> isRead req = true ->
  let '((v, e), t3) := Read ctx (sim_request req) t in
  (is_nil e || err_eqb e swd_ErrParity = false ->
     data ctx (direction s) (output s) 42 (sim_request req) (mkWire (Some t) true (Some (sim_request req)) 1 limit) =
       Done (([], e), ready_wire t3 1 limit)) /\
  (is_nil e || err_eqb e swd_ErrParity = true ->
     exists input, response_ input 42 (fun j => ((0 <=? j) && (j <? 32) && Z.testbit v (j - 0)) ||
         (negb (Bool.eqb (sim_parity32 v) (err_eqb e swd_ErrParity)) && (j =? 32))) /\
       data ctx (direction s) (output s) 42 (sim_request req) (mkWire (Some t) true (Some (sim_request req)) 1 limit) =
       Done ((input, None), ready_wire t3 1 limit)).
Proof.
  intros Hs Hrd. destruct (built_holds _ _ Hs) as [Hd Ho].
  destruct (Read ctx (sim_request req) t) as [[v e] t3] eqn:Er.
  assert (forall (P : outcome ((list Z * err) * SimWire T)),
    (('(value, e) ← on_target t (Read ctx (sim_request req));
      if negb (is_nil e) && negb (err_eqb e swd_ErrParity) then mret ([], e)
      else
        input ← lift (setUint32At (make_bytes 6) 0 value);
        input ← lift (setBit input 32 (negb (Bool.eqb (sim_parity32 value) (err_eqb e swd_ErrParity))));
        mret (input, None)) (ready_wire t 1 limit) = P) ->
    data ctx (direction s) (output s) 42 (sim_request req) (mkWire (Some t) true (Some (sim_request req)) 1 limit) = P) as Hred.
  { intros P <-. unfold data, set_pending, modify, gets, mbind, GoM_bind, mret, GoM_ret.
    cbn [target active pending pendingACK maxBits Z.eqb Pos.eqb negb]. unfold sim_request at 1. cbn [Read_].
    unfold isRead in Hrd. rewrite Hrd. unfold simRead. cbn [Z.eqb Pos.eqb negb].
    rewrite (allBits_holds _ _ 0 34 false Hd), (allBits_holds _ _ 34 8 true Hd), (allBits_holds _ _ 34 8 false Ho)
      by (try lia; vm_compute; discriminate).
    reflexivity. }
  unfold on_target in Hred. rewrite Er in Hred.
  split; intros He; [|].
  - apply Hred. rewrite (bind_Done _ _ _ (v, e) (ready_wire t3 1 limit)) by reflexivity.
    rewrite <- negb_orb, He. reflexivity.
  - destruct (setBits_response 32 (make_bytes 6) 42 (fun _ => false) 0 v) as (in1 & E1 & Hin1); [apply (response_make 42); lia|lia|lia|lia|].
    destruct (setBit_response in1 42 _ 32 (negb (Bool.eqb (sim_parity32 v) (err_eqb e swd_ErrParity))) Hin1) as (in2 & E2 & Hin2); [lia|].
    exists in2. split; [exact Hin2|]. apply Hred.
    rewrite (bind_Done _ _ _ (v, e) (ready_wire t3 1 limit)) by reflexivity.
    rewrite <- negb_orb, He. cbn [negb]. unfold setUint32At. rewrite E1.
    rewrite (bind_Done _ _ _ in1 (ready_wire t3 1 limit)) by reflexivity. rewrite E2. reflexivity.
Qed.

Lemma data_write ctx s t req v limit :
  built s (listen 1 ++ drive (word_bits 32 v) ++ drive [parity32 v] ++ idle 8) -> isRead req = false -> 0 <= v < 2 ^ 32 ->
  data ctx (direction s) (output s) 42 (sim_request req) (mkWire (Some t) true (Some (sim_request req)) 1 limit) =
    let '(e, t3) := Write ctx (sim_request req) v t in Done ((make_bytes 6, e), ready_wire t3 1 limit).
Proof.
  intros Hs Hrd Hv. destruct (built_holds _ _ Hs) as [Hd Ho].
  assert (uint32At (output s) 1 = Some v) as Hu.
  { apply (collect_holds (output s) _ 1 32 v Ho); [lia|lia|vm_compute; discriminate|exact Hv|reflexivity]. }
  unfold data, set_pending, modify, gets, mbind, GoM_bind, mret, GoM_ret.
  cbn [target active pending pendingACK maxBits Z.eqb Pos.eqb negb]. unfold sim_request at 1. cbn [Read_].
  unfold isRead in Hrd. rewrite Hrd. unfold simWrite. cbn [Z.eqb Pos.eqb negb].
  rewrite (bitAt_holds _ _ 0 false Hd) by (try lia; reflexivity). cbn [mbind option_bind and_then negb].
  rewrite (allBits_holds _ _ 1 41 true Hd), (allBits_holds _ _ 34 8 false Ho) by (try lia; vm_compute; discriminate).
  rewrite (bind_Done _ _ _ true (ready_wire t 1 limit)) by reflexivity. cbn [negb].
  rewrite Hu, (bind_Done _ _ _ v (ready_wire t 1 limit)) by reflexivity.
  rewrite (bitAt_holds _ _ 33 (parity32 v) Ho) by (try lia; reflexivity).
  rewrite (bind_Done _ _ _ (parity32 v) (ready_wire t 1 limit)) by reflexivity.
  rewrite parity_agree, eqb_reflx by done. cbn [negb]. unfold on_target.
  destruct (Write ctx (sim_request req) v t) as [e t3]. reflexivity.
Qed.

(** ** Fixed frames *)

(** [F] is what [buf] holds from [off]. *)
Definition holds_at (buf : list Z) (off : Z) (F : list bool) : Prop :=
  exists l, holds buf l /\ 0 <= off /\ 0 < len F /\ take (length F) (drop (Z.to_nat off) l) = F.

Lemma sub_slice {A} (l F : list A) off k n :
  0 <= off -> 0 < len F -> 0 <= k -> 0 <= n -> k + n <= len F -> take (length F) (drop (Z.to_nat off) l) = F ->
  take (Z.to_nat n) (drop (Z.to_nat (off + k)) l) = take (Z.to_nat n) (drop (Z.to_nat k) F) /\ off + k + n <= len l.
Proof.
  unfold len. intros Ho HF Hk Hn Hle E.
  assert (length F <= length l - Z.to_nat off)%nat as Hl.
  { rewrite <- E at 1. rewrite length_take, length_drop. lia. }
  split; [|lia].
  transitivity (take (Z.to_nat n) (drop (Z.to_nat k) (take (length F) (drop (Z.to_nat off) l)))); [|by rewrite E].
  rewrite skipn_firstn_comm, drop_drop, take_take. f_equal; [lia|f_equal; lia].
Qed.

Lemma allBits_at buf off F k n want :
  holds_at buf off F -> 0 <= k -> 0 <= n -> k + n <= len F ->
  allBits buf (off + k) n want = Some (forallb (Bool.eqb want) (take (Z.to_nat n) (drop (Z.to_nat k) F))).
Proof.
  intros (l & Hl & Ho & HF & E) Hk Hn Hle. destruct (sub_slice l F off k n Ho HF Hk Hn Hle E) as [Es Hlen].
  rewrite (allBits_holds buf l) by (done || lia). by rewrite Es.
Qed.

Lemma collect_at buf off F k n v :
  holds_at buf off F -> 0 <= k -> 0 <= n -> k + n <= len F -> 0 <= v < 2 ^ n ->
  take (Z.to_nat n) (drop (Z.to_nat k) F) = word_bits n v ->
  for_range n (fun bit value => b ← bitAt buf (off + k + bit);
    Some (if b : bool then Z.lor value (Z.shiftl 1 bit) else value)) 0 = Some v.
Proof.
  intros (l & Hl & Ho & HF & E) Hk Hn Hle Hv Ew. destruct (sub_slice l F off k n Ho HF Hk Hn Hle E) as [Es Hlen].
  apply (collect_holds buf l); (done || lia || congruence).
Qed.

Lemma bitAt_at buf off F k b :
  holds_at buf off F -> 0 <= k -> F !! Z.to_nat k = Some b -> bitAt buf (off + k) = Some b.
Proof.
  intros (l & Hl & Ho & HF & E) Hk Hb. apply (bitAt_holds buf l); [done|lia|].
  rewrite <- E in Hb. rewrite lookup_take_Some, lookup_drop in Hb. destruct Hb as [Hb _].
  rewrite <- Hb. f_equal. lia.
Qed.

Definition frame_response (ack v : Z) (p read : bool) (j : Z) : bool :=
  ((9 <=? j) && (j <? 12) && Z.testbit ack (j - 9)) ||
  (read && (((12 <=? j) && (j <? 44) && Z.testbit v (j - 12)) || (p && (j =? 44)))).

(** A response that holds a frame's bits decodes to its result. *)
Lemma decode_response input n g off req ack v (bad : bool) :
  response_ input n g -> 0 <= off -> off + 54 <= n -> 0 <= v < 2 ^ 32 -> ack = 1 \/ ack = 2 \/ ack = 4 ->
  (forall j, 0 <= j < 54 -> g (off + j) =
     frame_response ack v (negb (Bool.eqb (sim_parity32 v) bad)) ((ack =? 1) && isRead req) j) ->
  decodeFixedFrame input off req = Some (
    match ackError ack with
    | Some e => (0, Some e)
    | None => if isRead req then (if bad then (0, Some (Sentinel swd_ErrParity)) else (v, None)) else (0, None)
    end).
Proof.
  intros Hr Ho Hn Hv Hack Hg. unfold decodeFixedFrame.
  rewrite (readACK_response input n g (off + 9) ack Hr) by
    (try lia; intros i Hi; replace (off + 9 + i) with (off + (9 + i)) by lia; rewrite Hg by lia;
     unfold frame_response; replace (9 + i - 9) with i by lia; zcmp).
  cbn [mbind option_bind]. destruct (ackError ack) eqn:Ea; [done|].
  assert (ack = 1) as -> by (destruct Hack as [->|[->| ->]]; done). cbn [Z.eqb Pos.eqb andb] in Hg.
  destruct (isRead req); cbn [negb]; [|done].
  rewrite (extract_response input n g (off + 12) v Hr) by
    (try lia; intros i Hi; replace (off + 12 + i) with (off + (12 + i)) by lia; rewrite Hg by lia;
     unfold frame_response; replace (12 + i - 12) with i by lia; zcmp).
  cbn [mbind option_bind]. rewrite (bitAt_response input n g (off + 12 + 32) Hr) by lia. cbn [mbind option_bind].
  replace (off + 12 + 32) with (off + 44) by lia. rewrite Hg by lia. unfold frame_response. simpl.
  rewrite andb_true_r, parity_agree by done.
  by destruct (sim_parity32 v), bad.
Qed.

(** What one frame leaves in the response buffer: outside its 54 bits nothing,
    inside them something that decodes to the result of the access. *)
Definition answered (req : request) (off n : Z) (f : Z -> bool) (r : Z * err) (input' : list Z) : Prop :=
  exists f', response_ input' n f' /\
    (forall j, 0 <= j -> j < off \/ off + 54 <= j -> f' j = f j) /\
    forall inp n' g, response_ inp n' g -> off + 54 <= n' ->
      (forall j, off <= j < off + 54 -> g j = f' j) -> decodeFixedFrame inp off req = Some r.

Lemma answered_intro req off n f input' ack v bad r :
  0 <= off -> 0 <= v < 2 ^ 32 -> ack = 1 \/ ack = 2 \/ ack = 4 ->
  (forall j, off <= j -> f j = false) ->
  response_ input' n (fun j => f j || ((off <=? j) && (j <? off + 54) &&
    frame_response ack v (negb (Bool.eqb (sim_parity32 v) bad)) ((ack =? 1) && isRead req) (j - off))) ->
  r = match ackError ack with
      | Some e => (0, Some e)
      | None => if isRead req then (if bad then (0, Some (Sentinel swd_ErrParity)) else (v, None)) else (0, None)
      end ->
  answered req off n f r input'.
Proof.
  intros Ho Hv Hack Hf Hr ->. eexists. split; [exact Hr|]. split.
  - intros j Hj Hout. cbv beta. zcmp.
  - intros inp n' g Hg Hn' Hj. apply (decode_response inp n' g off req ack v bad); try done.
    intros j Hj'. rewrite Hj by lia. cbv beta. rewrite Hf by lia. replace (off + j - off) with j by lia. zcmp.
Qed.

Lemma response_ext input n f g : response_ input n f -> (forall j, 0 <= j -> f j = g j) -> response_ input n g.
Proof. intros (H1 & H2 & H3) Hfg. split; [done|]. split; [done|]. intros j Hj. by rewrite H3, Hfg. Qed.

Lemma fixedRead_sim ctx input t req off n f pa limit :
  isRead req = true -> 0 <= off -> off + 54 <= n -> (forall j, off <= j -> f j = false) ->
  response_ input n (fun j => f j || ((off + 9 <=? j) && (j <? off + 9 + 3) && Z.testbit 1 (j - (off + 9)))) ->
  let '((v, e), t3) := Read ctx (sim_request req) t in
  let r := match e with Some e => (0, Some e) | None => (v, None) end in
  exists input' e', fixedRead ctx input t (sim_request req) off (ready_wire t pa limit) =
      Done ((input', e'), ready_wire t3 pa limit) /\
    (e' = None -> answered req off n f r input') /\ (e' <> None -> r = (0, e')) /\
    (is_nil e || err_eqb e swd_ErrParity = true -> e' = None).
Proof.
  intros Hrd Ho Hn Hf Hin. pose proof (law_word HL ctx (sim_request req) t) as Hv.
  destruct (Read ctx (sim_request req) t) as [[v e] t3] eqn:Er. cbn [fst] in Hv.
  unfold fixedRead, on_target. rewrite Er. rewrite (bind_Done _ _ _ (v, e) (ready_wire t3 pa limit)) by reflexivity.
  rewrite <- negb_orb. destruct (is_nil e || err_eqb e swd_ErrParity) eqn:He; cbn [negb].
  2: { exists input, e. split; [reflexivity|]. destruct e as [e|]; [|done]. split_and!; [intros E; discriminate E|done|intros E; discriminate E]. }
  destruct (setBits_response 32 input n _ (off + 12) v Hin) as (in1 & E1 & Hin1); [lia..|].
  destruct (setBit_response in1 n _ (off + 44) (negb (Bool.eqb (sim_parity32 v) (err_eqb e swd_ErrParity))) Hin1)
    as (in2 & E2 & Hin2); [lia|].
  unfold setUint32At. rewrite E1. rewrite (bind_Done _ _ _ in1 (ready_wire t3 pa limit)) by reflexivity.
  rewrite E2. exists in2, None. split; [reflexivity|]. split; [intros _|split; [by intros []|done]].
  apply (answered_intro req off n f in2 1 v (err_eqb e swd_ErrParity)); try done; [by left| |].
  - eapply response_ext; [exact Hin2|]. intros j Hj. cbv beta. unfold frame_response. rewrite Hrd.
    replace (j - off - 9) with (j - (off + 9)) by lia. replace (j - off - 12) with (j - (off + 12)) by lia.
    destruct (f j) eqn:Efj; [by rewrite orb_true_l|]. cbn [orb]. zcmp.
  - rewrite Hrd. cbn [ackError Z.eqb Pos.eqb]. destruct e as [e|]; [|done].
    cbn [is_nil orb] in He. rewrite He. apply err_eqb_true in He. congruence.
Qed.

Lemma fixedWrite_sim ctx input output t req value off n f pa limit :
  isRead req = false -> 0 <= value < 2 ^ 32 -> off + 54 <= n -> (forall j, off <= j -> f j = false) ->
  holds_at output off (frame_bits req value).*2 ->
  response_ input n (fun j => f j || ((off + 9 <=? j) && (j <? off + 9 + 3) && Z.testbit 1 (j - (off + 9)))) ->
  let '(e, t3) := Write ctx (sim_request req) value t in
  exists input', fixedWrite ctx input output t (sim_request req) off (ready_wire t pa limit) =
      Done ((input', e), ready_wire t3 pa limit) /\
    (e = None -> answered req off n f (0, None) input').
Proof.
  intros Hrd Hv Hn Hf Ho Hin. unfold fixedWrite.
  assert (exists l, frame_bits req value = l /\ l = drive (word_bits 8 (requestByte req)) ++ listen 4 ++
    (listen 1 ++ drive (word_bits 32 value) ++ drive [parity32 value]) ++ idle 8) as (l & El & Hl).
  { eexists. split; [reflexivity|]. unfold frame_bits. by rewrite Hrd. }
  rewrite El in Ho. clear El. assert (0 <= off) by (destruct Ho as (? & _ & ? & _); done).
  assert (uint32At output (off + 13) = Some value) as ->.
  { apply (collect_at output off l.*2 13 32 value Ho); [lia|lia|subst l; vm_compute; discriminate|done|subst l; reflexivity]. }
  rewrite (bind_Done _ _ _ value (ready_wire t pa limit)) by reflexivity.
  rewrite (bitAt_at output off l.*2 45 (parity32 value) Ho) by (try lia; subst l; reflexivity).
  rewrite (bind_Done _ _ _ (parity32 value) (ready_wire t pa limit)) by reflexivity.
  rewrite parity_agree, eqb_reflx by done. cbn [negb]. unfold on_target.
  destruct (Write ctx (sim_request req) value t) as [e t3]. exists input. split; [reflexivity|]. intros _.
  apply (answered_intro req off n f input 1 0 false); try done; [by left| |by rewrite Hrd].
  eapply response_ext; [exact Hin|]. intros j Hj. cbv beta. unfold frame_response. rewrite Hrd.
  replace (j - off - 9) with (j - (off + 9)) by lia. destruct (f j); [by rewrite orb_true_l|]. cbn [orb andb Z.eqb Pos.eqb].
  zcmp.
Qed.

(** The access does not fail the physical exchange: a target answers OK, WAIT
    or FAULT, reads return a value with or without its parity error, writes
    succeed. *)
Definition soft (ctx : context) (req : request) (value : Z) (t : T) : bool :=
  let '((ack, e), t1) := acknowledge ctx (sim_request req) t in
  is_nil e && (negb (ack =? 1) ||
    (if isRead req then
       let e := snd (fst (Read ctx (sim_request req) (observeResponse ack t1))) in is_nil e || err_eqb e swd_ErrParity
     else is_nil (fst (Write ctx (sim_request req) value (observeResponse ack t1))))).

(** One fixed frame over the wire is one register access. *)
Lemma fixedFrame_sim ctx d o input req value t off n f pa limit :
  request_ok req -> 0 <= value < 2 ^ 32 -> overrunEnabled t = true -> off + 54 <= n ->
  (forall j, off <= j -> f j = false) ->
  holds_at d off (frame_bits req value).*1 -> holds_at o off (frame_bits req value).*2 ->
  response_ input n f ->
  exists input' e, simFixedFrame ctx d o input off (ready_wire t pa limit) =
      Done ((input', e), ready_wire (snd (access ctx req value t)) pa limit) /\
    (e = None -> answered req off n f (fst (access ctx req value t)) input') /\
    (e <> None -> fst (access ctx req value t) = (0, e)) /\
    (soft ctx req value t = true -> e = None).
Proof.
  intros Hok Hv Hov Hn Hf Hd Ho Hin. assert (0 <= off) as Hoff by (destruct Hd as (? & _ & ? & _); done).
  destruct (decode_header req Hok) as [Hdec Hrb].
  assert (forall A B (l : list (A * B)), length l.*1 = length l /\ length l.*2 = length l) as Hlen by (intros; by rewrite !length_fmap).
  assert (len (frame_bits req value).*1 = 54 /\ len (frame_bits req value).*2 = 54) as [L1 L2].
  { unfold len. rewrite !length_fmap, frame_bits_length. done. }
  unfold simFixedFrame. rewrite (bind_Done _ _ _ (Some t) (ready_wire t pa limit)) by reflexivity. rewrite Hov.
  assert (and_then (allBits d off 8 true) (allBits d (off + 8) 4 false) = Some true) as ->.
  { pose proof (allBits_at d off _ 0 8 true Hd) as E1. rewrite Z.add_0_r in E1.
    rewrite E1, (allBits_at d off _ 8 4 false Hd) by lia. unfold frame_bits. by destruct (isRead req). }
  rewrite (bind_Done _ _ _ true (ready_wire t pa limit)) by reflexivity. cbn [negb].
  assert (byteAt o off = Some (requestByte req)) as ->.
  { pose proof (collect_at o off _ 0 8 (requestByte req) Ho) as E1. rewrite Z.add_0_r in E1.
    apply E1; [lia|lia|lia|exact Hrb|]. unfold frame_bits. by destruct (isRead req). }
  rewrite (bind_Done _ _ _ (requestByte req) (ready_wire t pa limit)) by reflexivity. rewrite Hdec.
  assert (validateFixedDirection (sim_request req) d off = Some None) as ->.
  { unfold validateFixedDirection, sim_request. cbn [Read_]. destruct (read req) eqn:Er.
    - rewrite (allBits_at d off _ 12 34 false Hd), (allBits_at d off _ 46 8 true Hd) by lia.
      unfold frame_bits, isRead. by rewrite Er.
    - rewrite (allBits_at d off _ 12 1 false Hd), (allBits_at d off _ 13 41 true Hd) by lia.
      unfold frame_bits, isRead. by rewrite Er. }
  rewrite (bind_Done _ _ _ None (ready_wire t pa limit)) by reflexivity.
  assert (allBits o (off + 46) 8 false = Some true) as ->.
  { rewrite (allBits_at o off _ 46 8 false Ho) by lia. unfold frame_bits. by destruct (isRead req). }
  rewrite (bind_Done _ _ _ true (ready_wire t pa limit)) by reflexivity. cbn [negb].
  destruct (acknowledge_cases ctx (sim_request req) t) as (ack & e & t1 & Ea & Hack).
  unfold on_target, access, soft. rewrite Ea.
  rewrite (bind_Done _ _ _ (ack, e) (ready_wire t1 pa limit)) by reflexivity.
  destruct e as [e|].
  { exists input, (Some e). split; [reflexivity|]. split_and!; [intros E; discriminate E|done|intros E; discriminate E]. }
  specialize (Hack eq_refl). rewrite (bind_Done _ _ _ (Some t1) (ready_wire t1 pa limit)) by reflexivity. cbv zeta.
  set (t2 := observeResponse ack t1).
  rewrite (bind_Done _ _ _ tt (ready_wire t2 pa limit)) by reflexivity.
  destruct (setBits_response 3 input n f (off + 9) ack Hin) as (in1 & E1 & Hin1); [lia..|].
  unfold setACK. rewrite E1. rewrite (bind_Done _ _ _ in1 (ready_wire t2 pa limit)) by reflexivity.
  destruct (Z.eqb_spec ack 1) as [->|Hne]; cbn [negb].
  - cbn [ackError Z.eqb Pos.eqb]. replace (Read_ (sim_request req)) with (isRead req) by done.
    destruct (isRead req) eqn:Er.
    + pose proof (fixedRead_sim ctx in1 t2 req off n f pa limit Er Hoff Hn Hf Hin1) as Hr.
      destruct (Read ctx (sim_request req) t2) as [[v e] t3]. destruct Hr as (input' & e' & E' & Hok' & Herr' & Hsoft').
      exists input', e'. split; [exact E'|]. split_and!; [exact Hok'|exact Herr'|]. cbn [is_nil andb orb fst snd]. exact Hsoft'.
    + pose proof (fixedWrite_sim ctx in1 o t2 req value off n f pa limit Er Hv Hn Hf Ho Hin1) as Hr.
      destruct (Write ctx (sim_request req) value t2) as [e t3]. destruct Hr as (input' & E' & Hok').
      exists input', e. split; [exact E'|]. split_and!; [intros ->; by apply Hok'|done|]. cbn [fst]. by destruct e.
  - assert (exists e, ackError ack = Some e) as [e Ee] by (destruct Hack as [->|[->| ->]]; [done|by eexists|by eexists]).
    rewrite Ee. exists in1, None. split; [reflexivity|]. split; [intros _|split; [by intros []|done]].
    apply (answered_intro req off n f in1 ack 0 false); try done; [|by rewrite Ee].
    eapply response_ext; [exact Hin1|]. intros j Hj. cbv beta. unfold frame_response.
    destruct (Z.eqb_spec ack 1); [done|]. cbn [andb]. rewrite orb_false_r.
    replace (j - off - 9) with (j - (off + 9)) by lia. destruct (f j); [by rewrite orb_true_l|]. cbn [orb]. zcmp.
Qed.

(** ** Frames of a connection *)

Lemma built_holds_at s l : built s l -> 0 < len l -> holds_at (direction s) 0 l.*1 /\ holds_at (output s) 0 l.*2.
Proof.
  intros Hb Hl. destruct (built_holds s l Hb) as [Hd Ho]. unfold holds_at, len in *.
  split; (eexists; split; [eassumption|]; rewrite length_fmap; split_and!; [done|done|]; simpl;
    rewrite drop_0, take_ge; [done|by rewrite length_fmap]).
Qed.

Lemma transferOverrun_sim ctx req value c t pa limit :
  usable c -> ctx_nil ctx = false -> request_ok req -> 0 <= value < 2 ^ 32 -> overrunEnabled t = true ->
  54 <= simMaxTransferBits (ready_wire t pa limit) ->
  transferOverrun ctx req value (mkSt c (ready_wire t pa limit)) =
    Done (fst (access ctx req value t), mkSt c (ready_wire (snd (access ctx req value t)) pa limit)).
Proof.
  intros Hu Hc Hok Hv Hov Hlim. pose proof Hu as ([Ht Hi] & _).
  destruct (fixedFrame_spec req value) as (q & Eq & Hq).
  assert (len (frame_bits req value) = 54) as Hl by (unfold len; by rewrite frame_bits_length).
  destruct (built_len q _ Hq) as (Hb & Hld & Hlo). rewrite Hl in Hb, Hld, Hlo.
  destruct (built_holds_at q _ Hq) as [Hd Ho]; [lia|].
  destruct (fixedFrame_sim ctx (direction q) (output q) (make_bytes ((54 + 7) / 8)) req value t 0 54 (fun _ => false) pa limit)
    as (input & e & E & Hans & Herr & _); try done; [apply (response_make 54); lia|].
  unfold transferOverrun, cget. rewrite (bind_Done _ _ _ 1 (mkSt c (ready_wire t pa limit))) by (unfold gets; cbn [conn]; by rewrite Ht).
  rewrite (bind_Done _ _ _ 8 (mkSt c (ready_wire t pa limit))) by (unfold gets; cbn [conn]; by rewrite Hi).
  rewrite Eq. rewrite (bind_Done _ _ _ q (mkSt c (ready_wire t pa limit))) by reflexivity.
  assert (simSWDIO ctx (direction q) (output q) (bits q) (ready_wire t pa limit) =
    Done (match e with None => (input, None) | Some e => ([], Some e) end, ready_wire (snd (access ctx req value t)) pa limit)) as Eio.
  { rewrite Hb, (simSWDIO_frame ctx _ _ 54 t None pa limit) by (done || lia).
    cbn [Z.leb Z.compare Pos.compare Pos.compare_cont andb]. change (54 mod 54 =? 0) with true. cbn [andb].
    unfold fixed. change (Z.to_nat (54 / 54)) with 1%nat. cbn [fixed_loop].
    rewrite (bind_Done _ _ _ _ _ E). by destruct e. }
  destruct e as [e|].
  - rewrite (bind_Done _ _ _ _ _ (exchange_sim ctx q c _ _ _ Hu Hc Eio ltac:(discriminate))). cbn [fst snd].
    rewrite Herr by discriminate. reflexivity.
  - destruct (Hans eq_refl) as (f' & Hresp & _ & Hdec).
    rewrite (bind_Done _ _ _ _ _ (exchange_sim ctx q c _ _ _ Hu Hc Eio ltac:(intros _; destruct Hresp as (_ & Hl' & _); cbn [fst]; rewrite Hb; lia))).
    cbn [fst snd]. rewrite (Hdec input 54 f') by (done || lia). reflexivity.
Qed.

Lemma exchange_step {B} (k : list Z * err -> GoM (St (SimWire T)) B) ctx seq c w r w' :
  usable c -> ctx_nil ctx = false -> simSWDIO ctx (direction seq) (output seq) (bits seq) w = Done (r, w') ->
  (snd r = None -> bytes_for (bits seq) <= len (fst r)) ->
  (exchange ctx seq ≫= k) (mkSt c w) = k (match snd r with None => (fst r, None) | Some e => ([], Some e) end) (mkSt c w').
Proof. intros. erewrite bind_Done; [reflexivity|]. by apply exchange_sim. Qed.

Lemma readData_sim ctx c t req limit :
  usable c -> ctx_nil ctx = false -> isRead req = true -> 54 <= simMaxTransferBits (ready_wire t 1 limit) ->
  readData ctx (mkSt c (mkWire (Some t) true (Some (sim_request req)) 1 limit)) =
    let '((v, e), t3) := Read ctx (sim_request req) t in
    Done (match e with Some e => (0, Some e) | None => (v, None) end, mkSt c (ready_wire t3 1 limit)).
Proof.
  intros Hu Hc Hrd Hlim. pose proof Hu as ([Ht Hi] & _).
  assert (exists q, read_seq 1 8 = Some q /\ built q (listen 34 ++ idle 8)) as (q & Eq & Hq).
  { unfold read_seq. pose proof empty_wf. seq_next. seq_next. seq_done. }
  destruct (built_len q _ Hq) as (Hb & Hld & Hlo). change (len (listen 34 ++ idle 8)) with 42 in *.
  pose proof (law_word HL ctx (sim_request req) t) as Hv.
  pose proof (data_read ctx q t req limit Hq Hrd) as Hdata.
  destruct (Read ctx (sim_request req) t) as [[v e] t3]. cbn [fst] in Hv. destruct Hdata as [Hbad Hgood].
  set (s := mkSt c (mkWire (Some t) true (Some (sim_request req)) 1 limit)).
  unfold readData, cget. rewrite (bind_Done _ _ _ 1 s) by (unfold gets; cbn [conn s]; by rewrite Ht).
  rewrite (bind_Done _ _ _ 8 s) by (unfold gets; cbn [conn s]; by rewrite Hi).
  rewrite Eq, (bind_Done _ _ _ q s) by reflexivity.
  assert (simSWDIO ctx (direction q) (output q) (bits q) (world s) =
    data ctx (direction q) (output q) 42 (sim_request req) (world s)) as Eio.
  { rewrite Hb. apply (simSWDIO_frame ctx _ _ 42 t (Some (sim_request req)) 1 limit); [exact Hc| |discriminate|discriminate|exact Hld|exact Hlo].
    unfold simMaxTransferBits in *. cbn [maxBits ready_wire] in *. lia. }
  destruct (is_nil e || err_eqb e swd_ErrParity) eqn:He.
  - destruct (Hgood eq_refl) as (input & Hresp & Ed). unfold s in *. cbn [world] in Eio. rewrite Ed in Eio.
    rewrite (exchange_step _ ctx q c _ _ _ Hu Hc Eio) by
      (intros _; destruct Hresp as (_ & Hl' & _); cbn [fst]; rewrite Hb; lia).
    cbn [fst snd]. unfold extractUint32. rewrite (extract_response input 42 _ 0 v Hresp) by
      (try lia; intros i Hi'; cbv beta; rewrite Z.sub_0_r, Z.add_0_l; zcmp).
    rewrite (bind_Done _ _ _ v (mkSt c (ready_wire t3 1 limit))) by reflexivity.
    rewrite (bitAt_response input 42 _ 32 Hresp) by lia.
    rewrite (bind_Done _ _ _ _ (mkSt c (ready_wire t3 1 limit)) eq_refl). cbn [Z.leb Z.ltb Z.eqb Z.compare Pos.compare Pos.compare_cont Pos.eqb andb orb].
    rewrite andb_true_r, parity_agree by done. unfold mret, GoM_ret.
    destruct e as [e|]; cbn [is_nil orb] in He.
    + rewrite He. apply err_eqb_true in He as [= ->]. by destruct (sim_parity32 v).
    + cbn [err_eqb]. by destruct (sim_parity32 v).
  - unfold s in *. cbn [world] in Eio. rewrite (Hbad eq_refl) in Eio. destruct e as [e|]; [|discriminate He].
    rewrite (exchange_step _ ctx q c _ _ _ Hu Hc Eio) by discriminate. reflexivity.
Qed.

Lemma writeData_sim ctx c t req value limit :
  usable c -> ctx_nil ctx = false -> isRead req = false -> 0 <= value < 2 ^ 32 ->
  54 <= simMaxTransferBits (ready_wire t 1 limit) ->
  writeData ctx value (mkSt c (mkWire (Some t) true (Some (sim_request req)) 1 limit)) =
    let '(e, t3) := Write ctx (sim_request req) value t in Done (e, mkSt c (ready_wire t3 1 limit)).
Proof.
  intros Hu Hc Hrd Hv Hlim. pose proof Hu as ([Ht Hi] & _).
  destruct (write_seq_built value) as (q & Eq & Hq). destruct (built_len q _ Hq) as (Hb & Hld & Hlo).
  assert (len (listen 1 ++ drive (word_bits 32 value) ++ drive [parity32 value] ++ idle 8) = 42) as E42 by reflexivity.
  rewrite E42 in Hb, Hld, Hlo.
  pose proof (data_write ctx q t req value limit Hq Hrd Hv) as Hdata.
  set (s := mkSt c (mkWire (Some t) true (Some (sim_request req)) 1 limit)).
  unfold writeData, cget. rewrite (bind_Done _ _ _ 1 s) by (unfold gets; cbn [conn s]; by rewrite Ht).
  rewrite (bind_Done _ _ _ 8 s) by (unfold gets; cbn [conn s]; by rewrite Hi).
  rewrite Eq, (bind_Done _ _ _ q s) by reflexivity.
  assert (simSWDIO ctx (direction q) (output q) (bits q) (world s) =
    data ctx (direction q) (output q) 42 (sim_request req) (world s)) as Eio.
  { rewrite Hb. apply (simSWDIO_frame ctx _ _ 42 t (Some (sim_request req)) 1 limit); [exact Hc| |discriminate|discriminate|exact Hld|exact Hlo].
    unfold simMaxTransferBits in *. cbn [maxBits ready_wire] in *. lia. }
  unfold s in Eio. cbn [world] in Eio. rewrite Hdata in Eio. destruct (Write ctx (sim_request req) value t) as [e t3]. unfold s.
  rewrite (exchange_step _ ctx q c _ _ _ Hu Hc Eio) by (intros _; cbn [fst]; rewrite Hb; vm_compute; discriminate).
  by destruct e.
Qed.

Lemma finishFailed_sim ctx c t req ack limit :
  usable c -> ctx_nil ctx = false -> ack = 2 \/ ack = 4 -> overrunEnabled t = false ->
  54 <= simMaxTransferBits (ready_wire t ack limit) ->
  forall e, ackError ack = Some e ->
  finishFailed ctx e (mkSt c (mkWire (Some t) true (Some (sim_request req)) ack limit)) =
    Done (e, mkSt c (ready_wire t ack limit)).
Proof.
  intros Hu Hc Hack Hov Hlim e He. pose proof Hu as ([Ht Hi] & _).
  assert (err_eqb (Some e) swd_ErrProtocol = false) as Hne by (destruct Hack as [->| ->]; injection He as <-; done).
  assert (exists q, finish_seq 1 8 false = Some q /\ built q (listen 1 ++ idle 8)) as (q & Eq & Hq).
  { unfold finish_seq. pose proof empty_wf. seq_next. seq_next. seq_done. }
  destruct (built_len q _ Hq) as (Hb & Hld & Hlo). change (len (listen 1 ++ idle 8)) with 9 in *.
  set (s := mkSt c (mkWire (Some t) true (Some (sim_request req)) ack limit)).
  unfold finishFailed, cget. rewrite Hne. rewrite (bind_Done _ _ _ 1 s) by (unfold gets; cbn [conn s]; by rewrite Ht).
  rewrite (bind_Done _ _ _ 8 s) by (unfold gets; cbn [conn s]; by rewrite Hi).
  rewrite Eq, (bind_Done _ _ _ q s) by reflexivity.
  assert (simSWDIO ctx (direction q) (output q) (bits q) (world s) =
    data ctx (direction q) (output q) 9 (sim_request req) (world s)) as Eio.
  { rewrite Hb. apply (simSWDIO_frame ctx _ _ 9 t (Some (sim_request req)) ack limit); [exact Hc| |discriminate|discriminate|exact Hld|exact Hlo].
    unfold simMaxTransferBits in *. cbn [maxBits ready_wire] in *. lia. }
  unfold s in Eio. cbn [world] in Eio. 
  rewrite (data_failed ctx q t (sim_request req) ack limit Hq ltac:(lia) Hov) in Eio. unfold s.
  rewrite (exchange_step _ ctx q c _ _ _ Hu Hc Eio) by (intros _; cbn [fst]; rewrite Hb; vm_compute; discriminate).
  reflexivity.
Qed.

(** The response grammar matches the target's ORUNDETECT. *)
Definition matched (c : Conn) (t : T) : Prop :=
  response c = if overrunEnabled t then responseOverrun else responseSimple.

Lemma transferFrame_sim ctx req value c t pa limit :
  usable c -> ctx_nil ctx = false -> request_ok req -> 0 <= value < 2 ^ 32 -> matched c t ->
  54 <= simMaxTransferBits (ready_wire t pa limit) ->
  exists pa', transferFrame ctx req value (mkSt c (ready_wire t pa limit)) =
    Done (fst (access ctx req value t), mkSt c (ready_wire (snd (access ctx req value t)) pa' limit)).
Proof.
  intros Hu Hc Hok Hv Hm Hlim. unfold transferFrame, cget.
  rewrite (bind_Done _ _ _ (response c) (mkSt c (ready_wire t pa limit))) by reflexivity. unfold matched in Hm.
  destruct (overrunEnabled t) eqn:Hov; rewrite Hm.
  { exists pa. rewrite bool_decide_eq_true_2 by done. by apply transferOverrun_sim. }
  rewrite bool_decide_eq_false_2 by done. pose proof Hu as ([Ht Hi] & _).
  rewrite (bind_Done _ _ _ 1 (mkSt c (ready_wire t pa limit))) by (unfold gets; cbn [conn]; by rewrite Ht).
  destruct (header_seq_built req) as (q & Eq & Hq). destruct (built_len q _ Hq) as (Hb & Hld & Hlo).
  change (len (drive (word_bits 8 (requestByte req)) ++ listen 4)) with 12 in *.
  rewrite Eq, (bind_Done _ _ _ q (mkSt c (ready_wire t pa limit))) by reflexivity.
  assert (simSWDIO ctx (direction q) (output q) (bits q) (ready_wire t pa limit) =
    request_ ctx (direction q) (output q) 12 (ready_wire t pa limit)) as Eio.
  { rewrite Hb. apply (simSWDIO_frame ctx _ _ 12 t None pa limit); [exact Hc|unfold ready_wire in Hlim; lia|discriminate|discriminate|exact Hld|exact Hlo]. }
  destruct (request_sim ctx req q t pa limit Hok Hq) as (ack & e & t1 & Ea & Hack & Hreq).
  pose proof (law_overrun HL ctx (sim_request req) t ack) as Hst. rewrite Ea in Hst. cbn [snd] in Hst.
  rewrite Hov in Hst. unfold access. rewrite Ea. destruct e as [e|].
  { exists pa. rewrite Hreq in Eio. rewrite (exchange_step _ ctx q c _ _ _ Hu Hc Eio) by discriminate. reflexivity. }
  specialize (Hack eq_refl). destruct Hreq as (input & Hresp & Er). rewrite Er in Eio. exists ack.
  rewrite (exchange_step _ ctx q c _ _ _ Hu Hc Eio) by
    (intros _; destruct Hresp as (_ & Hl' & _); cbn [fst]; rewrite Hb; lia).
  cbn [fst snd]. set (t2 := observeResponse ack t1) in *.
  rewrite (readACK_response input 12 _ (8 + 1) ack Hresp) by
    (try lia; intros i Hi'; cbv beta; replace (8 + 1 + i - 9) with i by lia; zcmp).
  rewrite (bind_Done _ _ _ ack (mkSt c (mkWire (Some t2) true (Some (sim_request req)) ack limit))) by reflexivity.
  assert (54 <= simMaxTransferBits (ready_wire t2 ack limit)) as Hlim2 by done.
  destruct (ackError ack) as [e|] eqn:Ee.
  - rewrite (bind_Done _ _ _ _ _ (finishFailed_sim ctx c t2 req ack limit Hu Hc
      ltac:(destruct Hack as [->|[->| ->]]; [discriminate Ee|by left|by right]) Hst Hlim2 e Ee)). reflexivity.
  - assert (ack = 1) as -> by (destruct Hack as [->|[->| ->]]; done).
    destruct (isRead req) eqn:Erd.
    + rewrite (readData_sim ctx c t2 req limit Hu Hc Erd Hlim2).
      destruct (Read ctx (sim_request req) t2) as [[v e] t3]. reflexivity.
    + unfold mbind, GoM_bind. rewrite (writeData_sim ctx c t2 req value limit Hu Hc Erd Hv Hlim2).
      destruct (Write ctx (sim_request req) value t2) as [e t3]. reflexivity.
Qed.
End Refine.
