(* ===== verification/SwdBatch.v ===== *)
(** * SWD batches (swd/batch.go)

    A batch queues raw register operations and commits them once.  Results are
    shared between the batch and its caller: they live in a heap, and an
    operation holds the address of its result. *)

From S2P Require Import Prelude Go Bits SwdFrame SwdConn SwdConnFacts.
Local Open Scope Z_scope.

Definition fixedFrameBits : Z := 54.

Record batchResult := mkResult { resolved : bool; value : Z; result_err : err }.

Record batchOp := mkOp {
  op_ap : bool;
  op_read : bool;
  op_addr : Z;
  op_data : Z;
  op_req : request;
  op_result : nat;
  op_err : err
}.

Definition set_req (r : request) (e : err) (op : batchOp) : batchOp :=
  mkOp (op_ap op) (op_read op) (op_addr op) (op_data op) r (op_result op) e.
Definition set_err (e : err) (op : batchOp) : batchOp := set_req (op_req op) e op.

Record Batch := mkBatch { has_conn : bool; ops : list batchOp; committed : bool }.

(** [NewBatch] *)
Definition NewBatch : Batch := mkBatch true [] false.

(** ** Results *)

Definition resolve (v : Z) (e : err) (r : batchResult) : batchResult :=
  if resolved r then r else mkResult true v e.

Definition Value (r : batchResult) : Z * err :=
  if negb (resolved r) then (0, Some (Sentinel swd_ErrResultPending)) else (value r, result_err r).

Definition Err (r : batchResult) : err :=
  if negb (resolved r) then Some (Sentinel swd_ErrResultPending) else result_err r.

Definition noRequest : request := mkReq false false 0.

(** ** Pure parts of Commit *)

Definition annotate (e : error) : error := Errorf "swd: operation: %w" [e].

(** The first loop of [validate]. *)
Definition validate_request (op : batchOp) : batchOp :=
  let '(r, e) := newRequest (op_ap op) (op_read op) (op_addr op) in
  set_req r (annotate <$> e) op.

(** The second loop, over a copy of the connection. *)
Fixpoint validate_shadow (shadow : Conn) (l : list batchOp) : list batchOp :=
  match l with
  | [] => []
  | op :: l =>
      match validateTransfer (op_req op) (op_data op) shadow with
      | Some e => set_err (Some (annotate e)) op :: validate_shadow shadow l
      | None => set_err None op :: validate_shadow (observeTransfer (op_req op) 0 (op_data op) None shadow) l
      end
  end.

(** [errors.Join] of the operations' errors. *)
Definition op_errors (l : list batchOp) : err := errors_Join (op_err <$> l).

(** [overrunChunkEnd], over the operations from [i] on. *)
Fixpoint chunk_end (shadow : Conn) (l : list batchOp) (i limit : Z) : Z :=
  match l with
  | [] => limit
  | op :: l =>
      if limit <=? i then limit
      else
        let boundary := selectPending shadow && isPossibleCTRLSTATRead (op_req op) (priorBank shadow) in
        let shadow := observeTransfer (op_req op) 0 (op_data op) None shadow in
        if boundary || isAbortWrite (op_req op) then i + 1 else chunk_end shadow l (i + 1) limit
  end.

Definition overrunChunkEnd (c : Conn) (l : list batchOp) (start limit : Z) : Z :=
  chunk_end c (drop (Z.to_nat start) l) start limit.

Definition stickyExempt (c : Conn) (req : request) : bool :=
  if isDPIDRRead req || isAbortWrite req then true
  else
    let bankZero := bank_valid (bank c) && (bank_ (bank c) =? 0) in
    let bankZero := if selectPending c then bankZero && bank_valid (priorBank c) && (bank_ (priorBank c) =? 0)
                    else bankZero in
    negb (isAP req) && isRead req && (address req =? 0x04) && bankZero.

(** Index of the first error that is one of [matches], or -1. *)
Fixpoint firstFrameError (errs : list err) (matches : list sentinel) (i : Z) : Z :=
  match errs with
  | [] => -1
  | e :: errs => if existsb (err_eqb e) matches then i else firstFrameError errs matches (i + 1)
  end.

(** The packed frames of a chunk. *)
Fixpoint packed (turnaround idleCycles : Z) (l : list batchOp) (seq : sequence) : option sequence :=
  match l with
  | [] => Some seq
  | op :: l =>
      frame ← fixedFrame turnaround idleCycles (op_req op) (op_data op);
      seq ← appendSequence seq frame;
      packed turnaround idleCycles l seq
  end.

Fixpoint decodeOverrunChunk (input : list Z) (l : list batchOp) (offset : Z) : option (list (Z * err)) :=
  match l with
  | [] => Some []
  | op :: l =>
      r ← decodeFixedFrame input offset (op_req op);
      rs ← decodeOverrunChunk input l (offset + fixedFrameBits);
      Some (r :: rs)
  end.

(** Operations [start, end) *)
Definition slice {A} (l : list A) (start stop : Z) : list A :=
  take (Z.to_nat (stop - start)) (drop (Z.to_nat start) l).

Section Ops.
Context {W : Type} `{Env W} `{Wire W}.

Record BSt := mkBSt { batch : Batch; heap : list batchResult; cst : St W }.

Abbreviation M := (GoM BSt).

Definition on_conn {A} (m : GoM (St W) A) : M A := fun s =>
  match m (cst s) with
  | Done (a, c) => Done (a, mkBSt (batch s) (heap s) c)
  | Panicked => Panicked
  | OutOfFuel => OutOfFuel
  end.

Definition set_ops (f : list batchOp -> list batchOp) : M unit := modify (fun s =>
  mkBSt (mkBatch (has_conn (batch s)) (f (ops (batch s))) (committed (batch s))) (heap s) (cst s)).

(** [op.result.resolve(v, e)] *)
Definition resolveResult (p : nat) (v : Z) (e : err) : M unit := modify (fun s =>
  mkBSt (batch s) (alter (resolve v e) p (heap s)) (cst s)).

(** [op.result.err = f(op.result.err)] *)
Definition updateErr (p : nat) (f : err -> err) : M unit := modify (fun s =>
  mkBSt (batch s) (alter (fun r => mkResult (resolved r) (value r) (f (result_err r))) p (heap s)) (cst s)).

Definition resultErr (p : nat) : M err := gets (fun s =>
  match heap s !! p with Some r => result_err r | None => None end).

Fixpoint mapM_ {A} (f : A -> M unit) (l : list A) : M unit :=
  match l with
  | [] => mret tt
  | a :: l => f a;; mapM_ f l
  end.

(** *** Queueing *)

Definition queue (ap read : bool) (addr data : Z) : M nat :=
  p ← gets (fun s => length (heap s));
  done_ ← gets (fun s => committed (batch s));
  if done_ : bool then
    modify (fun s => mkBSt (batch s) (heap s ++ [mkResult true 0 (Some (Sentinel swd_ErrBatchCommitted))]) (cst s));;
    mret p
  else
    modify (fun s => mkBSt (batch s) (heap s ++ [mkResult false 0 None]) (cst s));;
    set_ops (fun l => l ++ [mkOp ap read addr data noRequest p None]);;
    mret p.

Definition queueReadDP addr := queue false true addr 0.
Definition queueWriteDP addr v := queue false false addr v.
Definition queueReadAP addr := queue true true addr 0.
Definition queueWriteAP addr v := queue true false addr v.

(** *** Commit *)

Definition getOps : M (list batchOp) := gets (fun s => ops (batch s)).

Definition validate (ctx : context) : M err :=
  set_ops (map validate_request);;
  l ← getOps;
  match op_errors l with
  | Some e => mret (Some e)
  | None =>
      present ← gets (fun s => has_conn (batch s));
      if negb present then mret (Some (New "swd: nil connection"))
      else
        st ← on_conn (cget state);
        if negb (bool_decide (st = connectionReady))
        then mret (Some (New "swd: connection is not ready; call Connect"))
        else
          e ← on_conn (ctxErr ctx);
          match e with
          | Some e => mret (Some (Sentinel (context_Err e)))
          | None =>
              e ← on_conn (cget validateCompletion);
              match e with
              | Some e => mret (Some e)
              | None =>
                  shadow ← gets (fun s => conn (cst s));
                  set_ops (validate_shadow shadow);;
                  l ← getOps;
                  mret (op_errors l)
              end
          end
  end.

Definition resolveInvalid : M unit :=
  l ← getOps;
  mapM_ (fun op => resolveResult (op_result op) 0
    (match op_err op with Some e => Some e | None => Some (Sentinel swd_ErrNotExecuted) end)) l.

Definition resolveSuffix (start : Z) : M unit :=
  l ← getOps;
  mapM_ (fun op => resolveResult (op_result op) 0 (Some (Sentinel swd_ErrNotExecuted))) (drop (Z.to_nat start) l).

Definition validateRuntimeOperation (i : Z) : M err :=
  l ← getOps;
  op ← lift (index l i);
  e ← on_conn (cget (validateTransfer (op_req op) (op_data op)));
  match e with
  | Some e =>
      set_ops (alter (set_err (Some (annotate e))) (Z.to_nat i));;
      resolveResult (op_result op) 0 (Some (annotate e));;
      mret (Some (annotate e))
  | None => mret None
  end.

(** The loop of [commitSequential] from index [i], [n] operations left. *)
Fixpoint sequential_loop (n : nat) (ctx : context) (i : Z) : M err :=
  match n with
  | O => mret None
  | S n =>
      e ← on_conn (ctxErr ctx);
      match e with
      | Some e => resolveSuffix i;; mret (Some (Sentinel (context_Err e)))
      | None =>
          e ← validateRuntimeOperation i;
          match e with
          | Some e => resolveSuffix (i + 1);; mret (Some e)
          | None =>
              l ← getOps;
              op ← lift (index l i);
              '(v, e) ← on_conn (transfer (WithoutCancel ctx) (op_req op) (op_data op));
              let e := match e with
                       | Some e0 => if completeTransfer e then e else Some (Join [Sentinel swd_ErrIndeterminate; e0])
                       | None => None
                       end in
              resolveResult (op_result op) v e;;
              match e with
              | Some e =>
                  resolveSuffix (i + 1);;
                  on_conn (completionError ctx (Some (Errorf "swd: batch stopped at operation: %w" [e])))
              | None =>
                  e ← on_conn (ctxErr ctx);
                  match e with
                  | Some e => resolveSuffix (i + 1);; mret (Some (Sentinel (context_Err e)))
                  | None => sequential_loop n ctx (i + 1)
                  end
              end
          end
      end
  end.

Definition commitSequential (ctx : context) : M err :=
  l ← getOps; sequential_loop (length l) ctx 0.

Definition failOverrunExchange (start stop : Z) (e : error) : M err :=
  on_conn (cmod requireRepair);;
  l ← getOps;
  mapM_ (fun op => resolveResult (op_result op) 0 (Some (Join [Sentinel swd_ErrIndeterminate; e]))) (slice l start stop);;
  mret (Some (Errorf "swd: batch chunk at operation: %w" [e])).

(** The loop of [observeOverrunChunk]. *)
Fixpoint observe_loop (l : list batchOp) (rs : list (Z * err)) (waitWithPending : bool) : M (bool * list bool) :=
  match l, rs with
  | op :: l, (v, e) :: rs =>
      c ← gets (fun s => conn (cst s));
      let exempt := stickyExempt c (op_req op) in
      let waiting := err_eqb e swd_ErrWait && selectPending c in
      (if waiting then mret tt else on_conn (cmod (observeTransfer (op_req op) v (op_data op) e)));;
      resolveResult (op_result op) v e;;
      '(w, ex) ← observe_loop l rs (waitWithPending || waiting);
      mret (w, exempt :: ex)
  | _, _ => mret (waitWithPending, [])
  end.

Definition markIndeterminate (start stop : Z) (cause : error) : M unit :=
  l ← getOps;
  mapM_ (fun op => updateErr (op_result op) (fun e => errors_Join [Some (Sentinel swd_ErrIndeterminate); e; Some cause]))
    (slice l start stop).

(** The loop of [validateAbandonedSuffix] from index [i]. *)
Fixpoint abandoned_loop (l : list batchOp) (exempt : list bool) (i stop : Z) : M err :=
  match l, exempt with
  | op :: l, x :: exempt =>
      e ← resultErr (op_result op);
      if err_eqb e swd_ErrFault || (x && (is_nil e || err_eqb e swd_ErrParity))
      then abandoned_loop l exempt (i + 1) stop
      else
        on_conn (cmod requireRepair);;
        markIndeterminate i stop (New "swd: request after WAIT or FAULT was not abandoned");;
        mret (Some (New "swd: operation completed unexpectedly after operation failed"))
  | _, _ => mret None
  end.

Definition validateAbandonedSuffix (first stop start : Z) (exempt : list bool) : M err :=
  l ← getOps;
  abandoned_loop (slice l (first + 1) stop) (drop (Z.to_nat (first + 1 - start)) exempt) (first + 1) stop.

Definition cleanupPackedWAIT (ctx : context) (i : Z) (waitWithPending : bool) : M unit :=
  l ← getOps;
  op ← lift (index l i);
  e ← (if isAbortWrite (op_req op) then
         on_conn (cmod requireRepair);;
         mret (Some (New "swd: ABORT returned WAIT; STICKYORUN cleanup is unavailable"))
       else on_conn (clearOverrunAfterWAIT ctx));
  (match e with
   | Some e => updateErr (op_result op) (fun e0 => errors_Join [e0; Some e])
   | None => mret tt
   end);;
  if waitWithPending then on_conn (cmod requireRepair) else mret tt.

Fixpoint result_errors (l : list batchOp) : M (list err) :=
  match l with
  | [] => mret []
  | op :: l =>
      e ← resultErr (op_result op);
      es ← result_errors l;
      mret ((match e with Some e => Some (annotate e) | None => None end) :: es)
  end.

Definition finishOverrunChunk (ctx : context) (start stop : Z) (errs : list err)
    (waitWithPending : bool) (exempt : list bool) : M err :=
  let protocol := firstFrameError errs [swd_ErrProtocol] 0 in
  let abandonedEnd := if 0 <=? protocol then start + protocol else stop in
  (if 0 <=? protocol then
     on_conn (cmod requireRepair);; markIndeterminate abandonedEnd stop (Sentinel swd_ErrProtocol)
   else mret tt);;
  let failed := firstFrameError errs [swd_ErrWait; swd_ErrFault] 0 in
  suffixErr ← (if 0 <=? failed then validateAbandonedSuffix (start + failed) abandonedEnd start exempt else mret None);
  let waited := firstFrameError errs [swd_ErrWait] 0 in
  st ← on_conn (cget state);
  (if (0 <=? waited) && bool_decide (st = connectionReady)
   then cleanupPackedWAIT ctx (start + waited) waitWithPending else mret tt);;
  l ← getOps;
  es ← result_errors (slice l start stop);
  match errors_Join (es ++ [suffixErr]) with
  | Some e => mret (Some (Errorf "swd: batch chunk at operation: %w" [e]))
  | None => mret None
  end.

Definition commitOverrunChunk (ctx : context) (start stop : Z) : M err :=
  '(completionCtx, e) ← on_conn (completionContext ctx);
  match e with
  | Some e => resolveSuffix start;; mret (Some e)
  | None =>
      l ← getOps;
      t ← on_conn (cget turnaround); idle ← on_conn (cget idleCycles);
      seq ← lift (packed t idle (slice l start stop) empty);
      '(input, e) ← on_conn (exchange completionCtx seq);
      match e with
      | Some e => e ← failOverrunExchange start stop e; on_conn (completionError ctx e)
      | None =>
          rs ← lift (decodeOverrunChunk input (slice l start stop) 0);
          '(waitWithPending, exempt) ← observe_loop (slice l start stop) rs false;
          e ← finishOverrunChunk completionCtx start stop (snd <$> rs) waitWithPending exempt;
          on_conn (completionError ctx e)
      end
  end.

(** Each turn commits at least one operation. *)
Fixpoint overrun_loop (n : nat) (ctx : context) (frames start : Z) : M err :=
  l ← getOps;
  if len l <=? start then mret None
  else
    match n with
    | O => out_of_fuel
    | S n =>
        e ← on_conn (ctxErr ctx);
        match e with
        | Some e => resolveSuffix start;; mret (Some (Sentinel (context_Err e)))
        | None =>
            e ← validateRuntimeOperation start;
            match e with
            | Some e => resolveSuffix (start + 1);; mret (Some e)
            | None =>
                l ← getOps;
                c ← gets (fun s => conn (cst s));
                let stop := overrunChunkEnd c l start (Z.min (start + frames) (len l)) in
                e ← commitOverrunChunk ctx start stop;
                match e with
                | Some e => resolveSuffix stop;; mret (Some e)
                | None => overrun_loop n ctx frames stop
                end
            end
        end
    end.

Definition commitOverrun (ctx : context) (limit : Z) : M err :=
  l ← getOps; overrun_loop (length l) ctx (limit / fixedFrameBits) 0.

Definition transferLimit : M (Z * err) :=
  match MaxTransferBits with
  | None => mret (fixedFrameBits, None)
  | Some limits =>
      limit ← gets (fun s => limits (world (cst s)));
      if limit <? fixedFrameBits
      then mret (0, Some (New "swd: wire transfer limit is smaller than one frame"))
      else mret (limit / fixedFrameBits * fixedFrameBits, None)
  end.

Definition Commit (ctx : context) : M err :=
  done_ ← gets (fun s => committed (batch s));
  if done_ : bool then mret (Some (Sentinel swd_ErrBatchCommitted))
  else
    modify (fun s => mkBSt (mkBatch (has_conn (batch s)) (ops (batch s)) true) (heap s) (cst s));;
    l ← getOps;
    if bool_decide (l = []) then mret None
    else
      e ← validate ctx;
      match e with
      | Some e => resolveInvalid;; mret (Some e)
      | None =>
          mode ← on_conn (cget response);
          if bool_decide (mode = responseSimple) then commitSequential ctx
          else
            '(limit, e) ← transferLimit;
            match e with
            | Some e => resolveSuffix 0;; mret (Some e)
            | None => commitOverrun ctx limit
            end
      end.
End Ops.
Arguments BSt W : clear implicits.
