(* ===== verification/SwdBatchFacts.v ===== *)
(** * What committing a batch does

    [Commit] is total over every wire and resolves every queued result, on every
    path; packed chunks are whole frames within the wire's limit and advance. *)

From S2P Require Import Prelude Go Bits SwdFrame SwdConn SwdConnFacts SwdBatch.
From S2P Require Import SwdSim SwdRefine.
Local Open Scope Z_scope.

(** ** Chunks *)

Lemma chunk_end_bound c l i limit :
  i < limit -> limit <= i + len l -> i < chunk_end c l i limit <= limit.
Proof.
  revert c i. induction l as [|op l IH]; intros c i Hi Hl; [unfold len in Hl; simpl in Hl; lia|].
  cbn [chunk_end]. destruct (Z.leb_spec limit i); [lia|]. cbv zeta. destruct (_ || _); [lia|].
  destruct (decide (i + 1 < limit)).
  - specialize (IH (observeTransfer (op_req op) 0 (op_data op) None c) (i + 1)).
    unfold len in *. simpl in Hl. lia.
  - destruct l as [|op' l']; cbn [chunk_end]; [lia|]. destruct (Z.leb_spec limit (i + 1)); [lia|]. lia.
Qed.

(** An ABORT is only ever the last operation of a chunk. *)
Lemma chunk_end_abort c l i limit k op :
  i < limit -> l !! k = Some op -> isAbortWrite (op_req op) = true -> i + Z.of_nat k < chunk_end c l i limit ->
  chunk_end c l i limit = i + Z.of_nat k + 1.
Proof.
  revert c i k. induction l as [|op' l IH]; intros c i k Hi Hk Ha Hlt; [by rewrite lookup_nil in Hk|].
  cbn [chunk_end] in *. destruct (Z.leb_spec limit i); [lia|]. cbv zeta in *.
  destruct k as [|k]; simpl in Hk.
  - injection Hk as ->. rewrite Ha, orb_true_r. lia.
  - destruct (_ || _); [lia|].
    destruct (decide (i + 1 < limit)).
    + specialize (IH (observeTransfer (op_req op') 0 (op_data op') None c) (i + 1) k ltac:(lia) Hk Ha). lia.
    + exfalso. destruct l as [|op2 l2]; [by rewrite lookup_nil in Hk|]. cbn [chunk_end] in Hlt.
      destruct (Z.leb_spec limit (i + 1)); lia.
Qed.

Lemma length_slice {A} (l : list A) start stop :
  0 <= start <= stop -> stop <= len l -> length (slice l start stop) = Z.to_nat (stop - start).
Proof. unfold slice, len. intros. rewrite length_take, length_drop. lia. Qed.

Lemma lookup_slice {A} (l : list A) start stop k :
  0 <= start -> (Z.of_nat k < stop - start) -> slice l start stop !! k = l !! (Z.to_nat start + k)%nat.
Proof. intros. unfold slice. rewrite lookup_take_lt, lookup_drop by lia. done. Qed.

(** The packed chunk is the concatenation of its frames. *)
Lemma packed_spec l s :
  seq_wf s -> exists s', packed 1 8 l s = Some s' /\
    extends s (mjoin ((fun op => frame_bits (op_req op) (op_data op)) <$> l)) s'.
Proof.
  revert s. induction l as [|op l IH]; intros s Hs; cbn [packed].
  - exists s. split; [done|]. by apply extends_nil.
  - destruct (fixedFrame_spec (op_req op) (op_data op)) as (f & -> & (Hf & _ & Hv)). cbn [mbind option_bind].
    destruct (appendSequence_spec s f Hs Hf) as (s1 & -> & He1). cbn [mbind option_bind].
    destruct (IH s1 (proj1 He1)) as (s2 & -> & He2). exists s2. split; [done|].
    rewrite Hv in He1. exact (extends_trans _ _ _ _ _ He1 He2).
Qed.

Lemma frames_length l : length (mjoin ((fun op => frame_bits (op_req op) (op_data op)) <$> l)) = (54 * length l)%nat.
Proof.
  induction l as [|op l IH]; [done|]. rewrite fmap_cons.
  transitivity (length (frame_bits (op_req op) (op_data op) ++ mjoin ((fun op => frame_bits (op_req op) (op_data op)) <$> l))); [done|].
  rewrite length_app, frame_bits_length, IH. simpl length. lia.
Qed.

Lemma packed_bits l : exists s, packed 1 8 l empty = Some s /\ bits s = 54 * len l.
Proof.
  destruct (packed_spec l empty empty_wf) as (s & E & (_ & Hb & _)). exists s. split; [done|].
  rewrite Hb. simpl. unfold len. rewrite frames_length. lia.
Qed.

Lemma decode_total input l off :
  0 <= off -> off + 54 * len l <= 8 * len input ->
  exists rs, decodeOverrunChunk input l off = Some rs /\ length rs = length l.
Proof.
  revert off. induction l as [|op l IH]; intros off Ho Hl; cbn [decodeOverrunChunk]; [by exists []|].
  assert (54 + 54 * len l = 54 * len (op :: l)) by (unfold len; simpl; lia).
  pose proof (len_nonneg l).
  destruct (decodeFixedFrame_total input off (op_req op)) as (v & e & -> & _); [lia|lia|]. cbn [mbind option_bind].
  destruct (IH (off + fixedFrameBits)) as (rs & -> & Hrs); [unfold fixedFrameBits; lia|unfold fixedFrameBits; lia|].
  eexists. split; [done|]. simpl. by rewrite Hrs.
Qed.

(** ** Results *)

Section Facts.
Context {W : Type} `{Env W} `{Wire W}.

Definition ptrs (s : BSt W) : list nat := op_result <$> ops (batch s).

Definition done_at (s : BSt W) (p : nat) : Prop := exists r, heap s !! p = Some r /\ resolved r = true.

(** The framing of the connection, and addresses inside the heap. *)
Definition batch_ok (s : BSt W) : Prop :=
  framing (conn (cst s)) /\ Forall (fun p => (p < length (heap s))%nat) (ptrs s).

(** Operations keep the queue and the heap, and results stay resolved. *)
Record grows (s s' : BSt W) : Prop := {
  g_ptrs : ptrs s' = ptrs s;
  g_heap : length (heap s') = length (heap s);
  g_done p : done_at s p -> done_at s' p;
  g_framing : framing (conn (cst s)) -> framing (conn (cst s'))
}.

Lemma grows_refl s : grows s s.
Proof. by split. Qed.

Lemma grows_trans s1 s2 s3 : grows s1 s2 -> grows s2 s3 -> grows s1 s3.
Proof.
  intros [A1 A2 A3 A4] [B1 B2 B3 B4]. split; [congruence|congruence|auto|auto].
Qed.

Lemma grows_ok s s' : grows s s' -> batch_ok s -> batch_ok s'.
Proof. intros [A1 A2 A3 A4] [B1 B2]. split; [auto|]. by rewrite A1, A2. Qed.

Definition Grows {A} (m : GoM (BSt W) A) : Prop :=
  forall s, batch_ok s -> wp m (fun _ s' => grows s s') s.

Lemma Grows_ret {A} (a : A) : Grows (mret a).
Proof. intros s _. apply wp_ret, grows_refl. Qed.

Lemma Grows_bind {A B} (m : GoM (BSt W) A) (f : A -> GoM (BSt W) B) :
  Grows m -> (forall a, Grows (f a)) -> Grows (mbind f m).
Proof.
  intros Hm Hf s Hs. apply wp_bind. eapply wp_mono; [by apply Hm|]. intros a s1 G1.
  eapply wp_mono; [apply Hf; exact (grows_ok _ _ G1 Hs)|]. intros b s2 G2. exact (grows_trans _ _ _ G1 G2).
Qed.

Lemma Grows_gets {A} (f : BSt W -> A) : Grows (gets f).
Proof. intros s _. apply wp_gets, grows_refl. Qed.

Lemma Grows_on_conn {A} (m : GoM (St W) A) : Keeps true m -> Grows (on_conn m).
Proof.
  intros Hm s [Hf _]. specialize (Hm (cst s) Hf). unfold wp, on_conn in *.
  destruct (m (cst s)) as [[a c]| |]; [|done|done]. split; try done. intros _. exact (keeps_framing _ _ Hm Hf).
Qed.

Lemma Grows_set_ops f : (forall l, op_result <$> f l = op_result <$> l) -> Grows (set_ops f).
Proof. intros Hf s _. apply wp_modify. split; try done. unfold ptrs. simpl. apply Hf. Qed.

Lemma done_at_alter s p v e q :
  done_at s q -> done_at (mkBSt (batch s) (alter (resolve v e) p (heap s)) (cst s)) q.
Proof.
  intros (r & Er & Hr). unfold done_at. simpl. destruct (decide (p = q)) as [->|Hne].
  - rewrite list_lookup_alter_eq, Er. simpl. eexists. split; [done|]. unfold resolve. by rewrite Hr.
  - rewrite list_lookup_alter_ne by done. eauto.
Qed.

Lemma wp_resolve p v e (Q : unit -> BSt W -> Prop) s :
  (forall s', grows s s' -> ((p < length (heap s))%nat -> done_at s' p) -> Q tt s') -> wp (resolveResult p v e) Q s.
Proof.
  intros HQ. apply wp_modify, HQ.
  - split; try done; [simpl; by rewrite length_alter|]. intros q. apply done_at_alter.
  - intros Hp. destruct (lookup_lt_is_Some_2 _ _ Hp) as [r Er]. unfold done_at. simpl.
    rewrite list_lookup_alter_eq, Er. simpl. eexists. split; [done|]. unfold resolve. by destruct (resolved r) eqn:E.
Qed.

Lemma Grows_resolve p v e : Grows (resolveResult p v e).
Proof. intros s _. apply wp_resolve. by intros. Qed.

Lemma Grows_updateErr p f : Grows (updateErr p f).
Proof.
  intros s _. apply wp_modify. split; try done; [simpl; by rewrite length_alter|]. intros q (r & Er & Hr).
  unfold done_at. simpl. destruct (decide (p = q)) as [->|Hne].
  - rewrite list_lookup_alter_eq, Er. simpl. eexists. split; [done|]. exact Hr.
  - rewrite list_lookup_alter_ne by done. eauto.
Qed.

Lemma Grows_mapM {A} (f : A -> GoM (BSt W) unit) l : (forall a, Grows (f a)) -> Grows (mapM_ f l).
Proof. intros Hf. induction l as [|a l IH]; cbn [mapM_]; [apply Grows_ret|]. apply Grows_bind; [done|by intros]. Qed.

(** A loop that resolves one result per operation resolves them all. *)
Lemma mapM_resolves (v : batchOp -> Z) (e : batchOp -> err) l s :
  batch_ok s -> Forall (fun op => (op_result op < length (heap s))%nat) l ->
  wp (mapM_ (fun op => resolveResult (op_result op) (v op) (e op)) l)
    (fun _ s' => grows s s' /\ Forall (fun op => done_at s' (op_result op)) l) s.
Proof.
  intros Hs Hl. revert s Hs Hl. induction l as [|op l IH]; intros s Hs Hl; cbn [mapM_].
  - apply wp_ret. split; [apply grows_refl|constructor].
  - inversion Hl as [|? ? Hp Hl']; subst. apply wp_bind, wp_resolve. intros s1 G1 D1.
    eapply wp_mono; [apply IH; [exact (grows_ok _ _ G1 Hs)|by rewrite (g_heap _ _ G1)]|].
    intros _ s2 [G2 D2]. split; [exact (grows_trans _ _ _ G1 G2)|]. constructor; [|done].
    apply (g_done _ _ G2), D1, Hp.
Qed.

(** Every operation from index [i] up to [j] has its result. *)
Definition done_range (s : BSt W) (i j : Z) : Prop :=
  forall k p, i <= Z.of_nat k < j -> ptrs s !! k = Some p -> done_at s p.

Lemma done_range_grows s s' i j : grows s s' -> done_range s i j -> done_range s' i j.
Proof. intros G Hd k p Hk Hp. apply (g_done _ _ G), (Hd k); [done|]. by rewrite <- (g_ptrs _ _ G). Qed.

Lemma done_range_app s i j k : done_range s i j -> done_range s j k -> done_range s i k.
Proof. intros H1 H2 n p Hn Hp. destruct (decide (Z.of_nat n < j)); [apply (H1 n)|apply (H2 n)]; (done || lia). Qed.

Lemma batch_ok_ops s : batch_ok s -> Forall (fun op => (op_result op < length (heap s))%nat) (ops (batch s)).
Proof. intros [_ Hp]. unfold ptrs in Hp. by rewrite Forall_fmap in Hp. Qed.

Lemma resolveSuffix_spec start s :
  0 <= start -> batch_ok s ->
  wp (resolveSuffix start) (fun _ s' => grows s s' /\ done_range s' start (len (ptrs s'))) s.
Proof.
  intros Hst Hs. unfold resolveSuffix. apply wp_bind, wp_gets.
  eapply wp_mono; [apply mapM_resolves; [done|by apply Forall_drop, batch_ok_ops]|].
  intros _ s' [G D]. split; [done|]. intros k p Hk Hp. rewrite (g_ptrs _ _ G) in Hp. unfold ptrs in Hp.
  rewrite list_lookup_fmap in Hp. destruct (ops (batch s) !! k) as [op|] eqn:Eop; [|done]. injection Hp as <-.
  rewrite Forall_lookup in D. apply (D (k - Z.to_nat start)%nat). rewrite lookup_drop. rewrite <- Eop. f_equal. lia.
Qed.

Lemma Grows_resolveSuffix start : 0 <= start -> Grows (resolveSuffix start).
Proof. intros Hst s Hs. eapply wp_mono; [by apply resolveSuffix_spec|]. by intros _ s' []. Qed.

Lemma Grows_markIndeterminate a b e : Grows (markIndeterminate a b e).
Proof. apply Grows_bind; [apply Grows_gets|]. intros l. apply Grows_mapM. intros. apply Grows_updateErr. Qed.

Lemma Keeps_requireRepair : Keeps (W := W) true (cmod requireRepair).
Proof. apply Keeps_cmod. apply keeps_requireRepair. Qed.

Lemma Grows_abandoned l ex i stop : Grows (abandoned_loop l ex i stop).
Proof.
  revert ex i. induction l as [|op l IH]; intros ex i; cbn [abandoned_loop]; [apply Grows_ret|].
  destruct ex as [|x ex]; [apply Grows_ret|]. apply Grows_bind; [apply Grows_gets|]. intros e.
  destruct (_ || _); [apply IH|]. apply Grows_bind; [apply Grows_on_conn, Keeps_requireRepair|]. intros _.
  apply Grows_bind; [apply Grows_markIndeterminate|]. intros _. apply Grows_ret.
Qed.

Lemma Grows_result_errors l : Grows (result_errors l).
Proof.
  induction l as [|op l IH]; cbn [result_errors]; [apply Grows_ret|].
  apply Grows_bind; [apply Grows_gets|]. intros e. apply Grows_bind; [done|]. intros. apply Grows_ret.
Qed.

(** ** Chunks of a commit *)

Lemma Keeps_clearOverrunAfterWAIT ctx : ctx_nil ctx = false -> Keeps (W := W) true (clearOverrunAfterWAIT ctx).
Proof.
  intros Hn s Hs. unfold clearOverrunAfterWAIT. apply wp_bind, wp_transferFrame; [done|done|]. intros [r e] w _.
  destruct e; [apply wp_bind, wp_modify, wp_ret, keeps_requireRepair|apply wp_ret, keeps_refl].
Qed.

Lemma observe_loop_spec l rs w0 s :
  batch_ok s -> length rs = length l -> Forall (fun op => (op_result op < length (heap s))%nat) l ->
  wp (observe_loop l rs w0) (fun r s' => grows s s' /\ length (snd r) = length l /\
    Forall (fun op => done_at s' (op_result op)) l) s.
Proof.
  revert rs w0 s. induction l as [|op l IH]; intros rs w0 s Hs Hl Hp; cbn [observe_loop].
  { destruct rs; [|done]. apply wp_ret. split_and!; [apply grows_refl|done|constructor]. }
  destruct rs as [|[v e] rs]; [done|]. inversion Hp as [|? ? Hp1 Hp2]; subst. apply wp_bind, wp_gets. cbv zeta.
  apply wp_bind. apply (wp_mono _ (fun _ s1 => grows s s1)).
  { destruct (_ && _); [apply wp_ret, grows_refl|]. apply Grows_on_conn; [|done]. apply Keeps_cmod, keeps_observeTransfer. }
  intros _ s1 G1. apply wp_bind, wp_resolve. intros s2 G2 D2. pose proof (grows_trans _ _ _ G1 G2) as G02.
  apply wp_bind. eapply wp_mono; [apply IH; [exact (grows_ok _ _ G02 Hs)|by injection Hl|by rewrite (g_heap _ _ G02)]|].
  intros [w ex] s3 (G3 & L3 & D3). apply wp_ret. split_and!; [exact (grows_trans _ _ _ G02 G3)|simpl in *; lia|].
  constructor; [|done]. apply (g_done _ _ G3), D2. by rewrite (g_heap _ _ G1).
Qed.

Lemma firstFrameError_bound errs ms i : 
  firstFrameError errs ms i = -1 \/ i <= firstFrameError errs ms i < i + len errs.
Proof.
  revert i. induction errs as [|e errs IH]; intros i; cbn [firstFrameError]; [by left|].
  destruct (existsb _ _); [right; unfold len; simpl; lia|].
  destruct (IH (i + 1)) as [E|E]; [by left|right]. unfold len in *. simpl. lia.
Qed.

Lemma index_ops (s : BSt W) i :
  0 <= i < len (ptrs s) -> exists op, index (ops (batch s)) i = Some op.
Proof. unfold ptrs, len. rewrite length_fmap. intros Hi. by apply index_is_Some. Qed.

Lemma finishOverrunChunk_spec ctx start stop errs wp_ ex s :
  ctx_nil ctx = false -> batch_ok s -> 0 <= start -> start + len errs <= len (ptrs s) ->
  wp (finishOverrunChunk ctx start stop errs wp_ ex) (fun _ s' => grows s s') s.
Proof.
  intros Hctx Hs Hst Hle. unfold finishOverrunChunk. cbv zeta. apply wp_bind.
  apply (wp_mono _ (fun _ s1 => grows s s1)).
  { destruct (0 <=? _); [|apply wp_ret, grows_refl]. apply Grows_bind; [apply Grows_on_conn, Keeps_requireRepair|intros _; apply Grows_markIndeterminate|done]. }
  intros _ s1 G1. apply wp_bind. apply (wp_mono _ (fun _ s2 => grows s s2)).
  { destruct (0 <=? _); [|apply wp_ret, G1]. eapply wp_mono.
    - apply Grows_bind; [apply Grows_gets|intros l; apply Grows_abandoned|exact (grows_ok _ _ G1 Hs)].
    - intros e s2 G2. exact (grows_trans _ _ _ G1 G2). }
  intros se s2 G2. apply wp_bind. eapply wp_mono; [apply (Grows_on_conn (cget state)); [apply Keeps_cget|exact (grows_ok _ _ G2 Hs)]|].
  intros st s3 G3. pose proof (grows_trans _ _ _ G2 G3) as G03. pose proof (grows_ok _ _ G03 Hs) as Hs3.
  apply wp_bind. apply (wp_mono _ (fun _ s4 => grows s s4)).
  { destruct ((0 <=? firstFrameError errs [swd_ErrWait] 0) && _) eqn:Ew; [|apply wp_ret, G03].
    apply andb_true_iff in Ew as [Ew%Z.leb_le _].
    destruct (firstFrameError_bound errs [swd_ErrWait] 0) as [E|E]; [lia|].
    unfold cleanupPackedWAIT. apply wp_bind, wp_gets.
    destruct (index_ops s3 (start + firstFrameError errs [swd_ErrWait] 0)) as [op Eop].
    { rewrite (g_ptrs _ _ G03). lia. }
    eapply wp_bind, wp_lift; [exact Eop|]. eapply wp_mono.
    - apply Grows_bind.
      + destruct (isAbortWrite (op_req op)).
        * apply Grows_bind; [apply Grows_on_conn, Keeps_requireRepair|intros _; apply Grows_ret].
        * apply Grows_on_conn, Keeps_clearOverrunAfterWAIT, Hctx.
      + intros e. apply Grows_bind; [destruct e; [apply Grows_updateErr|apply Grows_ret]|].
        intros _. destruct wp_; [apply Grows_on_conn, Keeps_requireRepair|apply Grows_ret].
      + exact Hs3.
    - intros ? s4 G4. exact (grows_trans _ _ _ G03 G4). }
  intros _ s4 G4. apply wp_bind, wp_gets, wp_bind.
  eapply wp_mono; [apply Grows_result_errors; exact (grows_ok _ _ G4 Hs)|]. intros es s5 G5.
  destruct (errors_Join _); apply wp_ret; exact (grows_trans _ _ _ G4 G5).
Qed.

Lemma slice_done (s s' : BSt W) start stop :
  grows s s' -> 0 <= start -> Forall (fun op => done_at s' (op_result op)) (slice (ops (batch s)) start stop) ->
  done_range s' start stop.
Proof.
  intros G Hst D k p Hk Hp. rewrite (g_ptrs _ _ G) in Hp. unfold ptrs in Hp. rewrite list_lookup_fmap in Hp.
  destruct (ops (batch s) !! k) as [op|] eqn:Eop; [|done]. injection Hp as <-.
  rewrite Forall_lookup in D. apply (D (k - Z.to_nat start)%nat). rewrite lookup_slice by lia. rewrite <- Eop. f_equal. lia.
Qed.

Lemma Keeps_completionContext ctx : ctx_nil ctx = false -> Keeps (W := W) true (completionContext ctx).
Proof. intros Hn s _. apply wp_completionContext; [done| |]; intros; apply keeps_refl. Qed.

Lemma commitOverrunChunk_spec ctx start stop s :
  ctx_nil ctx = false -> batch_ok s -> 0 <= start <= stop -> stop <= len (ptrs s) ->
  wp (commitOverrunChunk ctx start stop) (fun _ s' => grows s s' /\ done_range s' start stop) s.
Proof.
  intros Hctx Hs Hst Hle. unfold commitOverrunChunk. apply wp_bind.
  assert (len (ops (batch s)) = len (ptrs s)) as Elen by (unfold ptrs, len; by rewrite length_fmap).
  unfold wp at 1, on_conn at 1.
  pose proof (wp_completionContext ctx (fun r s1 => keeps_ true (conn (cst s)) (conn s1) /\
    (snd r = None -> ctx_nil (fst r) = false)) (cst s) Hctx) as Hcc.
  unfold wp in Hcc. destruct (completionContext ctx (cst s)) as [[[cctx e] c1]| |];
    [|exfalso; apply Hcc; intros; (split; [apply keeps_refl|by intros])..].
  destruct Hcc as [K1 Hcn]; [intros; split; [apply keeps_refl|intros E; discriminate E]|intros; split; [apply keeps_refl|done]|].
  set (s1 := mkBSt (batch s) (heap s) c1).
  assert (grows s s1) as G1 by (split; try done; intros Hf; exact (keeps_framing _ _ K1 Hf)).
  pose proof (grows_ok _ _ G1 Hs) as Hs1. cbv beta iota.
  destruct e as [e|].
  { apply wp_bind. eapply wp_mono; [apply resolveSuffix_spec; [lia|exact Hs1]|]. intros _ s2 [G2 D2]. apply wp_ret.
    split; [exact (grows_trans _ _ _ G1 G2)|]. intros k p Hk Hp. apply (D2 k); [|done].
    rewrite (g_ptrs _ _ G2), (g_ptrs _ _ G1). lia. }
  cbn [snd fst] in Hcn. specialize (Hcn eq_refl). apply wp_bind, wp_gets.
  apply wp_bind. unfold wp at 1, on_conn at 1, cget, gets. apply wp_bind. unfold wp at 1, on_conn at 1.
  change (wp (seq ← lift (packed (turnaround (conn c1)) (idleCycles (conn c1)) (slice (ops (batch s)) start stop) empty);
      '(input, e) ← on_conn (exchange cctx seq);
      match e with
      | Some e => e ← failOverrunExchange start stop e; on_conn (completionError ctx e)
      | None =>
          rs ← lift (decodeOverrunChunk input (slice (ops (batch s)) start stop) 0);
          '(waitWithPending, exempt) ← observe_loop (slice (ops (batch s)) start stop) rs false;
          e ← finishOverrunChunk cctx start stop (snd <$> rs) waitWithPending exempt;
          on_conn (completionError ctx e)
      end) (fun _ s' => grows s s' /\ done_range s' start stop) s1).
  destruct (proj1 Hs1) as [Et Ei]. cbn [cst s1] in Et, Ei. rewrite Et, Ei.
  set (l := slice (ops (batch s)) start stop).
  assert (length l = Z.to_nat (stop - start)) as Hll by (apply length_slice; lia).
  destruct (packed_bits l) as (q & Eq & Hq). eapply wp_bind, wp_lift; [exact Eq|].
  assert (Forall (fun op => (op_result op < length (heap s))%nat) l) as Hpl.
  { apply Forall_take, Forall_drop, (batch_ok_ops s Hs). }
  apply wp_bind. unfold wp at 1, on_conn at 1.
  pose proof (wp_exchange cctx q (fun r s2 => conn s2 = conn c1 /\
    (snd r = None -> bytes_for (bits q) <= len (fst r))) c1 Hcn) as Hex.
  unfold wp in Hex. cbn [cst s1]. destruct (exchange cctx q c1) as [[[input e] c2]| |];
    [|exfalso; apply Hex; intros; (split; [done|by intros])..].
  destruct Hex as [Ec2 Hin]; [intros; split; [done|intros E; discriminate E]|intros; by split|].
  set (s2 := mkBSt (batch s) (heap s) c2). cbn [heap batch s1] in *. fold s2.
  assert (grows s s2) as G2.
  { split; try done. cbn [cst s2]. rewrite Ec2. intros Hf. exact (keeps_framing _ _ K1 Hf). }
  pose proof (grows_ok _ _ G2 Hs) as Hs2.
  assert (forall e s3, grows s s3 -> done_range s3 start stop ->
    wp (on_conn (completionError ctx e)) (fun _ s' => grows s s' /\ done_range s' start stop) s3) as Hfin.
  { intros e' s3 G3 D3. eapply wp_mono; [apply Grows_on_conn; [by apply Keeps_completionError|exact (grows_ok _ _ G3 Hs)]|].
    intros ? s4 G4. split; [exact (grows_trans _ _ _ G3 G4)|exact (done_range_grows _ _ _ _ G4 D3)]. }
  destruct e as [e|].
  - apply wp_bind. unfold failOverrunExchange. apply wp_bind.
    eapply wp_mono; [apply Grows_on_conn; [apply Keeps_requireRepair|exact Hs2]|]. intros ? s3 G3.
    pose proof (grows_trans _ _ _ G2 G3) as G03. apply wp_bind, wp_gets, wp_bind.
    eapply wp_mono; [apply mapM_resolves; [exact (grows_ok _ _ G03 Hs)|]|].
    { apply Forall_take, Forall_drop, batch_ok_ops. exact (grows_ok _ _ G03 Hs). }
    intros _ s4 [G4 D4]. apply wp_ret, Hfin; [exact (grows_trans _ _ _ G03 G4)|].
    exact (slice_done s3 s4 start stop G4 ltac:(lia) D4).
  - specialize (Hin eq_refl). cbn [fst] in Hin. rewrite Hq in Hin.
    pose proof (bytes_for_bound (54 * len l) ltac:(pose proof (len_nonneg l); lia)).
    destruct (decode_total input l 0) as (rs & Ers & Hrs); [lia|lia|].
    eapply wp_bind, wp_lift; [exact Ers|]. apply wp_bind.
    eapply wp_mono; [apply (observe_loop_spec l rs false s2 Hs2 Hrs Hpl)|]. intros [w ex] s3 (G3 & Hex' & D3).
    pose proof (grows_trans _ _ _ G2 G3) as G03. apply wp_bind.
    eapply wp_mono; [apply (finishOverrunChunk_spec cctx); [done|exact (grows_ok _ _ G03 Hs)|lia|]|].
    { unfold len. rewrite length_fmap, Hrs, Hll, (g_ptrs _ _ G03). unfold len in *. lia. }
    intros e s4 G4. apply Hfin; [exact (grows_trans _ _ _ G03 G4)|].
    apply (done_range_grows _ _ _ _ G4). exact (slice_done s2 s3 start stop G3 ltac:(lia) D3).
Qed.

(** ** Whole commits *)

Lemma Keeps_ctxErr_true ctx : ctx_nil ctx = false -> Keeps (W := W) true (ctxErr ctx).
Proof. apply Keeps_ctxErr. Qed.

Lemma alter_ptrs f k (l : list batchOp) :
  (forall op, op_result (f op) = op_result op) -> op_result <$> alter f k l = op_result <$> l.
Proof.
  intros Hf. apply list_eq. intros i. rewrite !list_lookup_fmap. destruct (decide (i = k)) as [->|Hne].
  - rewrite list_lookup_alter_eq. destruct (l !! k); simpl; [by rewrite Hf|done].
  - by rewrite list_lookup_alter_ne.
Qed.

Lemma validateRuntimeOperation_spec i s :
  batch_ok s -> 0 <= i < len (ptrs s) ->
  wp (validateRuntimeOperation i) (fun e s' => grows s s' /\ (e <> None -> done_range s' i (i + 1))) s.
Proof.
  intros Hs Hi. unfold validateRuntimeOperation. apply wp_bind, wp_gets.
  destruct (index_ops s i Hi) as [op Eop]. eapply wp_bind, wp_lift; [exact Eop|].
  apply wp_bind. unfold wp at 1, on_conn, cget, gets. destruct s as [b h c]. cbn [cst batch heap].
  destruct (validateTransfer _ _ _) as [e|]; [|apply wp_ret; split; [apply grows_refl|intros E; by destruct E]].
  apply wp_bind, wp_modify. match goal with |- wp _ _ ?x => set (s1 := x) end.
  assert (grows (mkBSt b h c) s1) as G1.
  { split; [unfold ptrs; cbn [batch ops s1]; by apply alter_ptrs|done|done|done]. }
  apply wp_bind, wp_resolve. intros s2 G2 D2. apply wp_ret. pose proof (grows_trans _ _ _ G1 G2) as G02.
  split; [exact G02|]. intros _ k p Hk Hp. assert (k = Z.to_nat i) as -> by lia.
  apply index_Some in Eop as [_ Eop]. rewrite (g_ptrs _ _ G02) in Hp. unfold ptrs in Hp. rewrite list_lookup_fmap, Eop in Hp.
  injection Hp as <-. apply D2. destruct Hs as [_ Hp]. unfold ptrs in Hp. rewrite Forall_fmap in Hp.
  eapply Forall_lookup_1 in Hp; [|exact Eop]. exact Hp.
Qed.

Lemma finish_suffix {A} (m : GoM (BSt W) A) i s s1 :
  grows s s1 -> batch_ok s -> 0 <= i -> done_range s1 0 i -> Grows m ->
  wp (resolveSuffix i;; m) (fun _ s' => grows s s' /\ done_range s' 0 (len (ptrs s'))) s1.
Proof.
  intros G1 Hs Hi D1 Hm. pose proof (grows_ok _ _ G1 Hs) as Hs1. apply wp_bind.
  eapply wp_mono; [by apply resolveSuffix_spec|]. intros _ s2 [G2 D2].
  eapply wp_mono; [apply Hm; exact (grows_ok _ _ G2 Hs1)|]. intros ? s3 G3.
  pose proof (grows_trans _ _ _ G1 (grows_trans _ _ _ G2 G3)) as G. split; [exact G|].
  rewrite (g_ptrs _ _ G3). apply (done_range_grows _ _ _ _ G3).
  exact (done_range_app _ _ _ _ (done_range_grows _ _ _ _ G2 D1) D2).
Qed.

Lemma sequential_spec n ctx i s :
  ctx_nil ctx = false -> batch_ok s -> 0 <= i -> i + Z.of_nat n = len (ptrs s) -> done_range s 0 i ->
  wp (sequential_loop n ctx i) (fun _ s' => grows s s' /\ done_range s' 0 (len (ptrs s'))) s.
Proof.
  intros Hctx. revert i s. induction n as [|n IH]; intros i s Hs Hi Hn D; cbn [sequential_loop].
  { apply wp_ret. split; [apply grows_refl|]. by replace (len (ptrs s)) with i by lia. }
  apply wp_bind. eapply wp_mono; [apply Grows_on_conn; [by apply Keeps_ctxErr|exact Hs]|]. intros e s1 G1. cbv beta in G1.
  pose proof (done_range_grows _ _ _ _ G1 D) as D1. pose proof (grows_ok _ _ G1 Hs) as Hs1.
  destruct e as [e|]; [apply finish_suffix; [exact G1|done|lia|done|apply Grows_ret]|].
  apply wp_bind. eapply wp_mono; [apply validateRuntimeOperation_spec; [done|rewrite (g_ptrs _ _ G1); lia]|].
  intros e s2 [G2 D2]. pose proof (grows_trans _ _ _ G1 G2) as G02. pose proof (done_range_grows _ _ _ _ G2 D1) as D12.
  destruct e as [e|].
  { apply finish_suffix; [exact G02|done|lia| |apply Grows_ret].
    exact (done_range_app _ _ _ _ D12 (D2 ltac:(discriminate))). }
  pose proof (grows_ok _ _ G02 Hs) as Hs2. apply wp_bind, wp_gets.
  destruct (index_ops s2 i) as [op Eop]; [rewrite (g_ptrs _ _ G02); lia|]. eapply wp_bind, wp_lift; [exact Eop|].
  apply wp_bind. eapply wp_mono; [apply Grows_on_conn; [by apply Keeps_transfer|exact Hs2]|].
  intros [v e] s3 G3. cbv beta in G3. pose proof (grows_trans _ _ _ G02 G3) as G03. cbv zeta.
  apply wp_bind, wp_resolve. intros s4 G4 D4. pose proof (grows_trans _ _ _ G03 G4) as G04.
  assert (done_range s4 0 (i + 1)) as D5.
  { apply (done_range_app _ _ i); [exact (done_range_grows _ _ _ _ (grows_trans _ _ _ G3 G4) D12)|].
    intros k p Hk Hp. assert (k = Z.to_nat i) as -> by lia. rewrite (g_ptrs _ _ (grows_trans _ _ _ G3 G4)) in Hp.
    apply index_Some in Eop as [_ Eop]. unfold ptrs in Hp. rewrite list_lookup_fmap, Eop in Hp. injection Hp as <-.
    apply D4. rewrite (g_heap _ _ G3). pose proof (batch_ok_ops _ Hs2) as Hp. by eapply Forall_lookup_1 in Hp. }
  pose proof (grows_ok _ _ G04 Hs) as Hs4.
  destruct (match e with Some _ => _ | None => _ end) as [e'|].
  { apply finish_suffix; [exact G04|done|lia|done|]. apply Grows_on_conn. by apply Keeps_completionError. }
  apply wp_bind. eapply wp_mono; [apply Grows_on_conn; [by apply Keeps_ctxErr|exact Hs4]|]. intros e' s5 G5. cbv beta in G5.
  pose proof (grows_trans _ _ _ G04 G5) as G05. pose proof (done_range_grows _ _ _ _ G5 D5) as D6.
  destruct e' as [e'|]; [apply finish_suffix; [exact G05|done|lia|done|apply Grows_ret]|].
  eapply wp_mono; [apply IH; [exact (grows_ok _ _ G05 Hs)|lia|rewrite (g_ptrs _ _ G05); lia|done]|].
  intros ? s6 [G6 D7]. split; [exact (grows_trans _ _ _ G05 G6)|done].
Qed.

Lemma overrun_spec n ctx frames start s :
  ctx_nil ctx = false -> 1 <= frames -> batch_ok s -> 0 <= start <= len (ptrs s) -> len (ptrs s) - start <= Z.of_nat n ->
  done_range s 0 start ->
  wp (overrun_loop n ctx frames start) (fun _ s' => grows s s' /\ done_range s' 0 (len (ptrs s'))) s.
Proof.
  intros Hctx Hfr. revert start s.
  assert (forall s : BSt W, len (ops (batch s)) = len (ptrs s)) as El by (intros s; unfold ptrs, len; by rewrite length_fmap).
  induction n as [|n IH]; intros start s Hs Hst Hn D; cbn [overrun_loop]; apply wp_bind, wp_gets; rewrite El.
  all: destruct (Z.leb_spec (len (ptrs s)) start);
    [apply wp_ret; split; [apply grows_refl|]; replace (len (ptrs s)) with start by lia; done|].
  { lia. }
  apply wp_bind. eapply wp_mono; [apply Grows_on_conn; [by apply Keeps_ctxErr|exact Hs]|]. intros e s1 G1. cbv beta in G1.
  pose proof (done_range_grows _ _ _ _ G1 D) as D1. pose proof (grows_ok _ _ G1 Hs) as Hs1.
  destruct e as [e|]; [apply finish_suffix; [exact G1|done|lia|done|apply Grows_ret]|].
  apply wp_bind. eapply wp_mono; [apply validateRuntimeOperation_spec; [done|rewrite (g_ptrs _ _ G1); lia]|].
  intros e s2 [G2 D2]. pose proof (grows_trans _ _ _ G1 G2) as G02. pose proof (done_range_grows _ _ _ _ G2 D1) as D12.
  destruct e as [e|].
  { apply finish_suffix; [exact G02|done|lia| |apply Grows_ret].
    exact (done_range_app _ _ _ _ D12 (D2 ltac:(discriminate))). }
  pose proof (grows_ok _ _ G02 Hs) as Hs2. apply wp_bind, wp_gets, wp_bind, wp_gets. cbv zeta. rewrite El.
  set (limit := Z.min (start + frames) (len (ptrs s2))).
  set (stop := overrunChunkEnd (conn (cst s2)) (ops (batch s2)) start limit).
  assert (len (ptrs s2) = len (ptrs s)) as El2 by (by rewrite (g_ptrs _ _ G02)).
  assert (start < stop <= limit) as Hstop.
  { apply chunk_end_bound; [lia|]. specialize (El s2). unfold len in *. rewrite length_drop. lia. }
  apply wp_bind. eapply wp_mono; [apply commitOverrunChunk_spec; [done|done|lia|lia]|].
  intros e s3 [G3 D3]. pose proof (grows_trans _ _ _ G02 G3) as G03.
  assert (done_range s3 0 stop) as D4 by exact (done_range_app _ _ _ _ (done_range_grows _ _ _ _ G3 D12) D3).
  destruct e as [e|]; [apply finish_suffix; [exact G03|done|lia|done|apply Grows_ret]|].
  eapply wp_mono; [apply IH; [exact (grows_ok _ _ G03 Hs)|rewrite (g_ptrs _ _ G03); lia|rewrite (g_ptrs _ _ G03); lia|done]|].
  intros ? s4 [G4 D5]. split; [exact (grows_trans _ _ _ G03 G4)|done].
Qed.

Lemma validate_shadow_ptrs c l : op_result <$> validate_shadow c l = op_result <$> l.
Proof.
  revert c. induction l as [|op l IH]; intros c; [done|]. cbn [validate_shadow].
  destruct (validateTransfer _ _ _); rewrite !fmap_cons; by rewrite IH.
Qed.

Lemma validate_request_ptrs l : op_result <$> map validate_request l = op_result <$> l.
Proof.
  induction l as [|op l IH]; [done|]. cbn [map]. rewrite !fmap_cons, IH. f_equal. unfold validate_request.
  by destruct (newRequest _ _ _).
Qed.

(** Validation asks the context at most once and sends nothing. *)
Definition asked (ctx : context) (c c' : St W) : Prop :=
  c' = c \/ c' = mkSt (conn c) (snd (ctx_Err ctx (world c))).

Lemma wp_on_conn_get {A} (f : Conn -> A) (Q : A -> BSt W -> Prop) s :
  Q (f (conn (cst s))) s -> wp (on_conn (cget f)) Q s.
Proof. by destruct s. Qed.

Lemma validate_spec ctx s :
  ctx_nil ctx = false ->
  wp (validate ctx) (fun e s' => grows s s' /\ asked ctx (cst s) (cst s') /\ heap s' = heap s /\
    (e = None -> Forall (fun op => op_err op = None) (ops (batch s')) /\ state (conn (cst s')) = connectionReady)) s.
Proof.
  intros Hctx. unfold validate. apply wp_bind, wp_modify. match goal with |- wp _ _ ?x => set (s1 := x) end.
  assert (grows s s1) as G1 by (split; [apply validate_request_ptrs|done|done|done]).
  apply wp_bind, wp_gets. destruct (op_errors _) as [e|].
  { apply wp_ret. split_and!; [done|by left|done|done]. }
  apply wp_bind, wp_gets. destruct (negb _).
  { apply wp_ret. split_and!; [done|by left|done|done]. }
  apply wp_bind, wp_on_conn_get. destruct (bool_decide_reflect (state (conn (cst s1)) = connectionReady)) as [Er|]; cbn [negb].
  2: { apply wp_ret. split_and!; [done|by left|done|done]. }
  apply wp_bind. unfold wp at 1, on_conn, ctxErr. rewrite Hctx. cbn [cst s1].
  destruct (ctx_Err ctx (world (cst s))) as [ce w] eqn:Ec. cbv beta iota.
  match goal with |- wp _ _ ?x => set (s2 := x) end.
  assert (asked ctx (cst s) (cst s2)) as Hasked by (right; cbn [cst s2]; by rewrite Ec).
  assert (grows s s2) as G2 by (split; [apply validate_request_ptrs|done|done|done]).
  destruct ce as [ce|]. { apply wp_ret. split_and!; [done|done|done|done]. }
  apply wp_bind, wp_on_conn_get. destruct (validateCompletion _) as [e|].
  { apply wp_ret. split_and!; [done|done|done|done]. }
  apply wp_bind, wp_gets, wp_bind, wp_modify. match goal with |- wp _ _ ?x => set (s3 := x) end.
  assert (grows s s3) as G3.
  { eapply grows_trans; [exact G2|]. split; [apply validate_shadow_ptrs|done|done|done]. }
  apply wp_bind, wp_gets, wp_ret. split_and!; [exact G3|exact Hasked|done|]. intros He.
  split; [|exact Er]. apply errors_Join_None in He. by rewrite Forall_fmap in He.
Qed.

Lemma Grows_getOps {B} (f : list batchOp -> GoM (BSt W) B) : (forall l, Grows (f l)) -> Grows (mbind f getOps).
Proof. intros Hf. apply Grows_bind; [apply Grows_gets|done]. Qed.

Lemma transferLimit_spec (Q : Z * err -> BSt W -> Prop) s :
  (forall n, 54 <= n -> n mod 54 = 0 -> match MaxTransferBits with Some f => n <= f (world (cst s)) | None => n = 54 end ->
     Q (n, None) s) ->
  (forall e, Q (0, Some e) s) -> wp transferLimit Q s.
Proof.
  intros Ho He. unfold transferLimit, fixedFrameBits. revert Ho.
  destruct MaxTransferBits as [f|]; intros Ho; [|apply wp_ret, Ho; [lia|done|done]].
  apply wp_bind, wp_gets. destruct (Z.ltb_spec (f (world (cst s))) 54); [apply wp_ret, He|].
  pose proof (Z.div_mod (f (world (cst s))) 54 ltac:(lia)). pose proof (Z.mod_pos_bound (f (world (cst s))) 54 ltac:(lia)).
  apply wp_ret, Ho; [lia|apply Z.mod_mul; lia|cbv beta; lia].
Qed.

Lemma resolveInvalid_spec s :
  batch_ok s -> wp resolveInvalid (fun _ s' => grows s s' /\ cst s' = cst s /\ done_range s' 0 (len (ptrs s'))) s.
Proof.
  intros Hs. unfold resolveInvalid. apply wp_bind, wp_gets.
  assert (forall l (s : BSt W), wp (mapM_ (fun op => resolveResult (op_result op) 0
    (match op_err op with Some e => Some e | None => Some (Sentinel swd_ErrNotExecuted) end)) l)
    (fun _ s' => cst s' = cst s) s) as Hc.
  { intros l. induction l as [|op l IH]; intros s0; cbn [mapM_]; [by apply wp_ret|]. apply wp_bind, wp_modify.
    eapply wp_mono; [apply IH|]. by intros. }
  eapply wp_mono; [apply wp_and; [apply (mapM_resolves (fun _ => 0) (fun op => match op_err op with Some e => Some e
    | None => Some (Sentinel swd_ErrNotExecuted) end)); [done|by apply batch_ok_ops]|apply Hc]|].
  intros _ s' [[G D] E]. split_and!; [done|done|]. intros k p Hk Hp. rewrite (g_ptrs _ _ G) in Hp.
  unfold ptrs in Hp. rewrite list_lookup_fmap in Hp. destruct (ops (batch s) !! k) as [op|] eqn:Eop; [|done].
  injection Hp as <-. rewrite Forall_lookup in D. by apply (D k).
Qed.

(** Committing resolves every queued result; a batch that does not validate
    sends nothing. *)
Lemma Commit_spec ctx s :
  ctx_nil ctx = false -> batch_ok s -> committed (batch s) = false ->
  wp (Commit ctx) (fun e s' => grows s s' /\ done_range s' 0 (len (ptrs s'))) s.
Proof.
  intros Hctx Hs Hnc. unfold Commit. apply wp_bind, wp_gets. rewrite Hnc. cbv iota.
  apply wp_bind, wp_modify. match goal with |- wp _ _ ?x => set (s1 := x) end.
  assert (grows s s1) as G1 by done. pose proof (grows_ok _ _ G1 Hs) as Hs1.
  apply wp_bind, wp_gets. case_bool_decide as El.
  { apply wp_ret. split; [done|]. intros k p Hk Hp. unfold ptrs in Hp. rewrite list_lookup_fmap, El in Hp. done. }
  apply wp_bind. eapply wp_mono; [by apply validate_spec|]. intros e s2 (G2 & _ & _ & _).
  pose proof (grows_trans _ _ _ G1 G2) as G02. pose proof (grows_ok _ _ G02 Hs) as Hs2.
  destruct e as [e|].
  { apply wp_bind. eapply wp_mono; [by apply resolveInvalid_spec|]. intros _ s3 (G3 & _ & D3). apply wp_ret.
    split; [exact (grows_trans _ _ _ G02 G3)|done]. }
  apply wp_bind, wp_on_conn_get. case_bool_decide.
  { unfold commitSequential. apply wp_bind, wp_gets.
    eapply wp_mono; [apply (sequential_spec _ ctx 0 s2); [done|done|lia| |]|].
    - unfold ptrs, len. by rewrite length_fmap.
    - intros k p Hk. lia.
    - intros ? s3 [G3 D3]. split; [exact (grows_trans _ _ _ G02 G3)|done]. }
  apply wp_bind, transferLimit_spec.
  - intros n Hn _ _. unfold commitOverrun. apply wp_bind, wp_gets.
    eapply wp_mono; [apply (overrun_spec _ ctx _ 0 s2); [done| |done| | |]|].
    + unfold fixedFrameBits. Z.to_euclidean_division_equations. lia.
    + split; [lia|apply len_nonneg].
    + unfold ptrs, len. rewrite length_fmap. lia.
    + intros k p Hk. lia.
    + intros ? s3 [G3 D3]. split; [exact (grows_trans _ _ _ G02 G3)|done].
  - intros e. eapply wp_mono; [apply (finish_suffix (mret (Some e)) 0 s s2 G02 Hs); [lia|intros k p Hk; lia|apply Grows_ret]|].
    by intros ? s3.
Qed.

Lemma Commit_invalid ctx s :
  ctx_nil ctx = false -> batch_ok s -> committed (batch s) = false -> ops (batch s) <> [] ->
  (exists e s1, validate ctx (mkBSt (mkBatch (has_conn (batch s)) (ops (batch s)) true) (heap s) (cst s)) = Done (Some e, s1)) ->
  wp (Commit ctx) (fun e s' => e <> None /\ asked ctx (cst s) (cst s') /\ done_range s' 0 (len (ptrs s'))) s.
Proof.
  intros Hctx Hs Hnc Hne (e0 & s1 & E). unfold Commit. apply wp_bind, wp_gets. rewrite Hnc. cbv iota.
  apply wp_bind, wp_modify. apply wp_bind, wp_gets. rewrite bool_decide_eq_false_2 by done.
  apply wp_bind. pose proof (validate_spec ctx (mkBSt (mkBatch (has_conn (batch s)) (ops (batch s)) true) (heap s) (cst s)) Hctx) as Hv.
  destruct (wp_elim _ _ _ _ _ Hv E) as (G & Ha & _). unfold wp at 1. rewrite E.
  apply wp_bind. eapply wp_mono; [apply resolveInvalid_spec; exact (grows_ok _ _ G Hs)|]. intros _ s3 (G3 & Ec & D3).
  apply wp_ret. split_and!; [done|by rewrite Ec|done].
Qed.
End Facts.

(** * Packed chunks are sequences of register accesses

    A chunk of fixed frames sent in one exchange has the effect and the results
    of performing its operations one after another. *)

Section Packed.
Context {T : Type} `{Target T} `{Env (SimWire T)}.
Context (HL : SimLaws (T := T)).

(** The operations one by one. *)
Fixpoint accesses (ctx : context) (l : list batchOp) (t : T) : list (Z * err) * T :=
  match l with
  | [] => ([], t)
  | op :: l =>
      let '(r, t1) := access ctx (op_req op) (op_data op) t in
      let '(rs, t2) := accesses ctx l t1 in (r :: rs, t2)
  end.

(** Valid operations on a target that keeps overrun detection enabled and does
    not fail the exchange. *)
Fixpoint packable (ctx : context) (l : list batchOp) (t : T) : Prop :=
  match l with
  | [] => True
  | op :: l =>
      request_ok (op_req op) /\ 0 <= op_data op < 2 ^ 32 /\ overrunEnabled t = true /\
      soft ctx (op_req op) (op_data op) t = true /\
      packable ctx l (snd (access ctx (op_req op) (op_data op) t))
  end.

Definition frames (l : list batchOp) : list (bool * bool) :=
  mjoin ((fun op => frame_bits (op_req op) (op_data op)) <$> l).

Lemma frames_cons op l : frames (op :: l) = frame_bits (op_req op) (op_data op) ++ frames l.
Proof. done. Qed.

(** [buf] holds exactly [F] from [off] on. *)
Definition ends_with (buf : list Z) (off : Z) (F : list bool) : Prop :=
  exists l, holds buf l /\ 0 <= off /\ drop (Z.to_nat off) l = F.

Lemma ends_with_head buf off F G :
  0 < len F -> ends_with buf off (F ++ G) -> holds_at buf off F /\ ends_with buf (off + len F) G.
Proof.
  intros HF (l & Hl & Ho & E). split.
  - exists l. split_and!; [done|done|done|]. by rewrite E, take_app_length.
  - exists l. split_and!; [done|unfold len; lia|]. unfold len.
    replace (Z.to_nat (off + Z.of_nat (length F))) with (Z.to_nat off + length F)%nat by lia.
    rewrite <- drop_drop, E. by rewrite drop_app_length.
Qed.

Lemma fixed_loop_sim ctx d o l : forall input off n f t pa limit,
  packable ctx l t -> 0 <= off -> off + 54 * len l <= n -> (forall j, off <= j -> f j = false) ->
  ends_with d off (frames l).*1 -> ends_with o off (frames l).*2 -> response_ input n f ->
  exists input' f', fixed_loop (length l) ctx d o input off (ready_wire t pa limit) =
      Done ((input', None), ready_wire (snd (accesses ctx l t)) pa limit) /\
    response_ input' n f' /\ (forall j, 0 <= j < off -> f' j = f j) /\
    forall inp g, response_ inp n g -> (forall j, off <= j < off + 54 * len l -> g j = f' j) ->
      decodeOverrunChunk inp l off = Some (fst (accesses ctx l t)).
Proof.
  induction l as [|op l IH]; intros input off n f t pa limit Hp Ho Hn Hf Hd Hout Hin.
  { exists input, f. split_and!; [done|done|done|]. intros. done. }
  destruct Hp as (Hok & Hv & Hov & Hsoft & Hp).
  assert (54 + 54 * len l = 54 * len (op :: l)) as Hlen by (unfold len; simpl; lia).
  pose proof (len_nonneg l). rewrite frames_cons, fmap_app in Hd. rewrite frames_cons, fmap_app in Hout.
  set (F := frame_bits (op_req op) (op_data op)) in *.
  assert (len F.*1 = 54 /\ len F.*2 = 54) as [L1 L2] by (unfold len, F; by rewrite !length_fmap, frame_bits_length).
  apply ends_with_head in Hd as [Hd1 Hd2]; [|lia]. apply ends_with_head in Hout as [Ho1 Ho2]; [|lia].
  rewrite L1 in Hd2. rewrite L2 in Ho2.
  destruct (fixedFrame_sim HL ctx d o input (op_req op) (op_data op) t off n f pa limit Hok Hv Hov ltac:(lia) Hf Hd1 Ho1 Hin)
    as (in1 & e & E1 & Hans & _ & Hs). specialize (Hs Hsoft). subst e.
  destruct (Hans eq_refl) as (f1 & Hr1 & Hf1 & Hdec1).
  cbn [fixed_loop length accesses]. rewrite (bind_Done _ _ _ _ _ E1).
  destruct (access ctx (op_req op) (op_data op) t) as [r t1] eqn:Eacc. cbn [fst snd] in *.
  destruct (IH in1 (off + 54) n f1 t1 pa limit Hp ltac:(lia) ltac:(lia)) as (in2 & f2 & E2 & Hr2 & Hf2 & Hdec2); try done.
  { intros j Hj. rewrite Hf1 by lia. apply Hf. lia. }
  destruct (accesses ctx l t1) as [rs t2]. cbn [fst snd] in *.
  exists in2, f2. split_and!; [exact E2|exact Hr2| |].
  - intros j Hj. rewrite Hf2, Hf1 by lia. done.
  - intros inp g Hg Hj. cbn [decodeOverrunChunk].
    rewrite (Hdec1 inp n g Hg) by (try lia; intros j Hj'; rewrite Hj by lia; apply Hf2; lia).
    cbn [mbind option_bind]. unfold fixedFrameBits.
    rewrite (Hdec2 inp g Hg) by (intros j Hj'; apply Hj; lia). done.
Qed.

(** One exchange of a packed chunk. *)
Lemma packed_exchange ctx l c t pa limit :
  usable c -> ctx_nil ctx = false -> l <> [] -> packable ctx l t ->
  54 * len l <= simMaxTransferBits (ready_wire t pa limit) ->
  exists seq input, packed (turnaround c) (idleCycles c) l empty = Some seq /\ bits seq = 54 * len l /\
    exchange ctx seq (mkSt c (ready_wire t pa limit)) =
      Done ((input, None), mkSt c (ready_wire (snd (accesses ctx l t)) pa limit)) /\
    decodeOverrunChunk input l 0 = Some (fst (accesses ctx l t)).
Proof.
  intros Hu Hc Hne Hp Hlim. pose proof Hu as ([Ht Hi] & _). rewrite Ht, Hi.
  destruct (packed_spec l empty empty_wf) as (q & Eq & Hq%extends_empty).
  fold (frames l) in Hq. assert (len (frames l) = 54 * len l) as Hfl by (unfold len, frames; rewrite frames_length; lia).
  destruct (built_len q _ Hq) as (Hb & Hld & Hlo). rewrite Hfl in Hb, Hld, Hlo.
  assert (0 < len l) as Hpos by (destruct l; [done|unfold len; simpl; lia]).
  destruct (built_holds q _ Hq) as [Hd Ho].
  destruct (fixed_loop_sim ctx (direction q) (output q) l (make_bytes ((54 * len l + 7) / 8)) 0 (54 * len l)
    (fun _ => false) t pa limit Hp) as (input & f & E & Hr & _ & Hdec); [lia|lia|done| | |apply response_make; lia|].
  { exists (frames l).*1. by split_and!. }
  { exists (frames l).*2. by split_and!. }
  exists q, input. split_and!; [done|done| |apply (Hdec input f Hr); by intros].
  assert (simSWDIO ctx (direction q) (output q) (bits q) (ready_wire t pa limit) =
    Done ((input, None), ready_wire (snd (accesses ctx l t)) pa limit)) as Eio.
  { rewrite Hb. unfold ready_wire at 1.
    rewrite (simSWDIO_frame HL ctx _ _ (54 * len l) t None pa limit) by first [exact Hc|exact Hld|exact Hlo|lia|split; [lia|exact Hlim]].
    destruct (Z.leb_spec 54 (54 * len l)); [|lia]. rewrite Z.mul_comm, Z.mod_mul by lia. cbn [andb Z.eqb].
    unfold fixed. rewrite Z.div_mul by lia. unfold len at 1. rewrite Nat2Z.id, (Z.mul_comm (len l)). exact E. }
  rewrite (exchange_sim HL ctx q c _ _ _ Hu Hc Eio); [done|].
  intros _. cbn [fst]. rewrite Hb. destruct Hr as (_ & Hl' & _). lia.
Qed.
End Packed.

(** * Batches over the behavioral wire

    Committing a batch performs its requests one after the other, whether they
    are sent frame by frame or packed into chunks. *)

Section Exact.
Context {T : Type} `{Target T} `{Env (SimWire T)}.
Context (HL : SimLaws (T := T)).
Context (ctx_free : forall ctx ctx' req v t, access (T := T) ctx req v t = access ctx' req v t).

(** The requests in turn, when the connection lets each of them pass, the target
    accepts it and its overrun detection stays as it is. *)
Fixpoint performed (l : list (request * Z)) (c : Conn) (t : T) : option (list Z * Conn * T) :=
  match l with
  | [] => Some ([], c, t)
  | (req, d) :: l =>
      let '((v, e), t1) := access Background req d t in
      if bool_decide (request_ok req) && bool_decide (0 <= d < 2 ^ 32) && is_nil (validateTransfer req d c) &&
         negb (selectPending c && isPossibleCTRLSTATRead req (priorBank c)) && is_nil e &&
         Bool.eqb (overrunEnabled t1) (overrunEnabled t)
      then '(vs, c2, t2) ← performed l (observeTransfer req v d None c) t1; Some (v :: vs, c2, t2)
      else None
  end.

Record accepted (req : request) (d v : Z) (c : Conn) (t t1 : T) : Prop := {
  acc_ok : request_ok req;
  acc_data : 0 <= d < 2 ^ 32;
  acc_valid : validateTransfer req d c = None;
  acc_settled : selectPending c && isPossibleCTRLSTATRead req (priorBank c) = false;
  acc_access ctx : access ctx req d t = ((v, None), t1);
  acc_mode : overrunEnabled t1 = overrunEnabled t
}.

Lemma performed_cons req d l c t vs c2 t2 :
  performed ((req, d) :: l) c t = Some (vs, c2, t2) ->
  exists v ws t1, accepted req d v c t t1 /\ vs = v :: ws /\ performed l (observeTransfer req v d None c) t1 = Some (ws, c2, t2).
Proof.
  cbn [performed]. destruct (access Background req d t) as [[v e] t1] eqn:Ea.
  destruct (_ && _ && _ && _ && _ && _) eqn:Eb; [|done].
  repeat (apply andb_prop in Eb as [Eb ?]). destruct (performed l _ t1) as [[[ws c3] t3]|] eqn:Ep; [|done]. intros [= <- <- <-].
  assert (e = None) as -> by (by destruct e). exists v, ws, t1. split; [|done].
  split; [by eapply bool_decide_eq_true_1|by eapply bool_decide_eq_true_1|by destruct (validateTransfer req d c)|by apply negb_true_iff| |by apply eqb_prop].
  intros ctx. by rewrite (ctx_free ctx Background).
Qed.

Lemma performed_length l c t vs c2 t2 : performed l c t = Some (vs, c2, t2) -> length vs = length l.
Proof.
  revert c t vs. induction l as [|[req d] l IH]; intros c t vs E; [by injection E as <- <- <-|].
  apply performed_cons in E as (v & ws & t1 & _ & -> & E). cbn. f_equal. by eapply IH.
Qed.

Lemma performed_split k l c t vs c2 t2 :
  performed (k ++ l) c t = Some (vs, c2, t2) ->
  exists ws us c1 t1, performed k c t = Some (ws, c1, t1) /\ performed l c1 t1 = Some (us, c2, t2) /\ vs = ws ++ us.
Proof.
  revert c t vs. induction k as [|[req d] k IH]; intros c t vs E; [by exists [], vs, c, t|].
  cbn [app] in E. pose proof E as E0. apply performed_cons in E as (v & ws & t1 & [] & -> & E).
  apply IH in E as (ws1 & us & c1 & t3 & E1 & E2 & ->). exists (v :: ws1), us, c1, t3. split; [|done].
  cbn [performed app] in *. destruct (access Background req d t) as [[v' e] t1'] eqn:Ea. rewrite acc_access0 in Ea. injection Ea as <- <- <-.
  destruct (_ && _ && _ && _ && _ && _); [|done]. by rewrite E1.
Qed.

Lemma observe_value req v d c :
  selectPending c && isPossibleCTRLSTATRead req (priorBank c) = false ->
  observeTransfer req v d None c = observeTransfer req 0 d None c.
Proof.
  intros E. unfold observeTransfer. cbn [completeTransfer is_nil orb negb]. destruct (selectPending c); [|done]. cbn [andb] in E.
  unfold observePendingSelection. destruct (isAbortWrite req); [done|]. destruct (isDPIDRRead req); [done|].
  destruct (isBankZeroCTRLSTATRead req (bank c) (priorBank c)) eqn:Eb; [|done]. exfalso.
  unfold isBankZeroCTRLSTATRead in Eb. unfold isPossibleCTRLSTATRead in E.
  repeat (apply andb_prop in Eb as [Eb ?]). repeat match goal with X : ?b = true |- _ => rewrite X in E; clear X end. by destruct (bank_valid (priorBank c)).
Qed.

(** Observing a success keeps everything but the bank. *)
Lemma observe_fields req v d c :
  let c' := observeTransfer req v d None c in
  (usable c -> usable c') /\ response c' = response c /\ state c' = state c /\
  turnaround c' = turnaround c /\ idleCycles c' = idleCycles c /\ completionTimeout c' = completionTimeout c.
Proof.
  unfold observeTransfer, observePendingSelection, resolveBankZeroCTRLSTAT, invalidateBank, confirmBank, set_bank, usable, framing.
  cbn [completeTransfer is_nil orb negb]. cbv zeta. repeat case_match; cbn; repeat split; try done; tauto.
Qed.

(** ** The state of a commit *)

Definition confirmed (v : Z) : batchResult := mkResult true v None.

(** The operations [L], of which the first [length vs] have their values. *)
Record stage (L : list batchOp) (limit : Z) (vs : list Z) (c : Conn) (t : T) (s : BSt (SimWire T)) : Prop := {
  st_ops : ops (batch s) = L;
  st_heap : heap s = (confirmed <$> vs) ++ replicate (length L - length vs) (mkResult false 0 None);
  st_conn : exists pa, cst s = mkSt c (ready_wire t pa limit);
  st_usable : usable c;
  st_ready : state c = connectionReady;
  st_matched : matched c t;
  st_limit : 54 <= simMaxTransferBits (ready_wire t 0 limit)
}.

Definition requests_of (l : list batchOp) : list (request * Z) := (fun op => (op_req op, op_data op)) <$> l.

(** Results are numbered in the order of the operations. *)
Definition numbered (L : list batchOp) : Prop := op_result <$> L = seq 0 (length L).

Lemma numbered_lookup L i op : numbered L -> L !! i = Some op -> op_result op = i.
Proof.
  intros Hn Ho. apply (f_equal (fun l => l !! i)) in Hn. rewrite list_lookup_fmap, Ho in Hn. cbn in Hn.
  rewrite lookup_seq_lt in Hn by (by eapply lookup_lt_Some). by injection Hn.
Qed.

Lemma alter_pending (vs : list Z) n v :
  alter (resolve v None) (length vs) ((confirmed <$> vs) ++ replicate (S n) (mkResult false 0 None)) =
  (confirmed <$> (vs ++ [v])) ++ replicate n (mkResult false 0 None).
Proof.
  rewrite <- (length_fmap confirmed vs), alter_app_r_alt by lia. rewrite Nat.sub_diag. cbn [replicate].
  rewrite fmap_app, <- app_assoc. done.
Qed.

Lemma resolve_stage L limit vs v op c t c' t' pa s :
  stage L limit vs c t s -> numbered L -> L !! length vs = Some op ->
  usable c' -> state c' = connectionReady -> matched c' t' ->
  wp (resolveResult (op_result op) v None) (fun _ s' => stage L limit (vs ++ [v]) c' t' s')
    (mkBSt (batch s) (heap s) (mkSt c' (ready_wire t' pa limit))).
Proof.
  intros [A B _ _ _ _ F] Hn Ho U R Hm. unfold resolveResult. apply wp_modify. rewrite (numbered_lookup L _ op Hn Ho).
  pose proof (lookup_lt_Some _ _ _ Ho) as Hl.
  split; cbn [batch heap cst]; try done; [|by eexists]. rewrite B. replace (length L - length vs)%nat with (S (length L - S (length vs))) by lia.
  rewrite alter_pending. rewrite length_app. cbn [length]. by replace (length vs + 1)%nat with (S (length vs)) by lia.
Qed.

(** ** Frame by frame *)

Lemma alive ctx (w : SimWire T) : ctx_Err ctx w = (None, w).
Proof. apply (law_alive HL). Qed.

Lemma wp_batch_ctxErr ctx (Q : option ctxError -> BSt (SimWire T) -> Prop) s :
  ctx_nil ctx = false -> Q None s -> wp (on_conn (ctxErr ctx)) Q s.
Proof. intros Hc HQ. unfold wp, on_conn, ctxErr. rewrite Hc, alive. by destruct s as [b h []]. Qed.

Lemma wp_batch_conn {A} (m : GoM (St (SimWire T)) A) a c (Q : A -> BSt (SimWire T) -> Prop) s :
  m (cst s) = Done (a, c) -> Q a (mkBSt (batch s) (heap s) c) -> wp (on_conn m) Q s.
Proof. intros E HQ. unfold wp, on_conn. by rewrite E. Qed.

Lemma matched_mode req d v c t t1 c' :
  matched c t -> accepted req d v c t t1 -> response c' = response c -> matched c' t1.
Proof. intros Hm [] Hr. unfold matched in *. by rewrite Hr, acc_mode0. Qed.

(** One accepted transfer. *)
Lemma transfer_accepted ctx req d v c t t1 pa limit :
  usable c -> state c = connectionReady -> matched c t -> ctx_nil ctx = false ->
  54 <= simMaxTransferBits (ready_wire t 0 limit) -> accepted req d v c t t1 ->
  exists pa', transfer ctx req d (mkSt c (ready_wire t pa limit)) =
    Done ((v, None), mkSt (observeTransfer req v d None c) (ready_wire t1 pa' limit)).
Proof.
  intros U Rdy Hm Hc Hl []. pose proof U as (_ & _ & Ht).
  unfold transfer, cget. rewrite (bind_Done _ _ _ connectionReady (mkSt c (ready_wire t pa limit))) by (unfold gets; cbn; by rewrite Rdy).
  rewrite bool_decide_eq_true_2 by done. cbn [negb].
  rewrite (bind_Done _ _ _ None (mkSt c (ready_wire t pa limit))) by (unfold ctxErr; rewrite Hc, alive; done).
  rewrite (bind_Done _ _ _ None (mkSt c (ready_wire t pa limit))) by (unfold gets; cbn; by rewrite acc_valid0).
  assert (completionContext ctx (mkSt c (ready_wire t pa limit)) =
    Done ((WithTimeout (WithoutCancel ctx) (completionTimeout c), None), mkSt c (ready_wire t pa limit))) as E1.
  { unfold completionContext. rewrite (bind_Done _ _ _ None (mkSt c (ready_wire t pa limit))) by (unfold ctxErr; rewrite Hc, alive; done).
    unfold cget. rewrite (bind_Done _ _ _ None (mkSt c (ready_wire t pa limit))); [done|]. unfold gets, validateCompletion. cbn [conn].
    by rewrite (proj2 (Z.leb_gt _ _) Ht). }
  rewrite (bind_Done _ _ _ _ _ E1). cbn [fst snd].
  destruct (transferFrame_sim HL (WithTimeout (WithoutCancel ctx) (completionTimeout c)) req d c t pa limit U eq_refl acc_ok0 acc_data0 Hm Hl) as [pa' E2].
  rewrite acc_access0 in E2. cbn [fst snd] in E2. exists pa'.
  assert (executeFrame (WithTimeout (WithoutCancel ctx) (completionTimeout c)) req d (mkSt c (ready_wire t pa limit)) =
    Done ((v, None), mkSt c (ready_wire t1 pa' limit))) as E3.
  { unfold executeFrame. by rewrite (bind_Done _ _ _ _ _ E2). }
  rewrite (bind_Done _ _ _ _ _ E3). unfold cmod, completionError.
  rewrite (bind_Done _ _ _ tt (mkSt (observeTransfer req v d None c) (ready_wire t1 pa' limit))) by done.
  rewrite (bind_Done _ _ _ None (mkSt (observeTransfer req v d None c) (ready_wire t1 pa' limit))); [done|].
  by rewrite (bind_Done _ _ _ None (mkSt (observeTransfer req v d None c) (ready_wire t1 pa' limit))) by (unfold ctxErr; rewrite Hc, alive; done).
Qed.

Lemma drop_requests L i op :
  L !! i = Some op -> requests_of (drop i L) = (op_req op, op_data op) :: requests_of (drop (S i) L).
Proof. intros Ho. by rewrite (drop_S _ _ _ Ho). Qed.

Lemma index_nat {A} (l : list A) (i : nat) : index l (Z.of_nat i) = l !! i.
Proof. unfold index. destruct (Z.ltb_spec (Z.of_nat i) 0); [lia|]. by rewrite Nat2Z.id. Qed.

Lemma sequential_exact n ctx L limit vs c t s ws c' t' :
  ctx_nil ctx = false -> numbered L -> stage L limit vs c t s -> (length vs + n = length L)%nat ->
  performed (requests_of (drop (length vs) L)) c t = Some (ws, c', t') ->
  wp (sequential_loop n ctx (Z.of_nat (length vs))) (fun e s' => e = None /\ stage L limit (vs ++ ws) c' t' s') s.
Proof.
  intros Hc Hn. revert vs c t s ws. induction n as [|n IH]; intros vs c t s ws Hs Hl Hp.
  { rewrite drop_ge in Hp by lia. injection Hp as <- <- <-. apply wp_ret. by rewrite app_nil_r. }
  destruct (lookup_lt_is_Some_2 L (length vs)) as [op Ho]; [lia|].
  rewrite (drop_requests L _ op Ho) in Hp. apply performed_cons in Hp as (v & us & t1 & Ha & -> & Hp).
  pose proof Hs as [A B [pa E] U Rdy Hm F]. cbn [sequential_loop]. apply wp_bind, wp_batch_ctxErr; [done|].
  unfold validateRuntimeOperation. apply wp_bind, wp_bind, wp_gets. rewrite A. apply wp_bind. apply (wp_lift _ op); [by rewrite index_nat|].
  apply wp_bind, wp_on_conn_get. rewrite E. cbn [conn]. rewrite (acc_valid _ _ _ _ _ _ Ha). apply wp_ret.
  apply wp_bind, wp_gets. rewrite A. apply wp_bind. apply (wp_lift _ op); [by rewrite index_nat|].
  destruct (transfer_accepted (WithoutCancel ctx) _ _ _ _ _ _ pa limit U Rdy Hm eq_refl F Ha) as [pa' Et].
  apply wp_bind. eapply wp_batch_conn; [by rewrite E|]. cbv beta iota.
  destruct (observe_fields (op_req op) v (op_data op) c) as (O1 & O2 & O3 & _).
  apply wp_bind. eapply wp_mono; [apply (resolve_stage L limit vs v op c t _ t1 pa' s Hs Hn Ho); [auto|congruence|by eapply matched_mode]|].
  intros [] s1 Hs1. apply wp_bind, wp_batch_ctxErr; [done|].
  replace (Z.of_nat (length vs) + 1) with (Z.of_nat (length (vs ++ [v]))) by (rewrite length_app; cbn; lia).
  assert (length (vs ++ [v]) = S (length vs)) as L1 by (rewrite length_app; cbn; lia).
  eapply wp_mono; [eapply (IH (vs ++ [v]) _ t1 s1 us Hs1); [lia|by rewrite L1]|].
  intros e s' [-> G]. split; [done|]. by rewrite <- app_assoc in G.
Qed.

(** ** In chunks *)

Lemma soft_access ctx req d t v t1 : access (T := T) ctx req d t = ((v, None), t1) -> soft ctx req d t = true.
Proof.
  unfold access, soft. destruct (acknowledge ctx (sim_request req) t) as [[ack [e|]] t0]; [done|]. cbn [is_nil andb].
  destruct (ackError ack) eqn:Ea; [done|]. destruct (isRead req).
  - destruct (Read ctx (sim_request req) _) as [[w [e|]] t2]; [done|]. intros _. cbn. by rewrite orb_true_r.
  - destruct (Write ctx (sim_request req) d _) as [[e|] t2]; [done|]. intros _. cbn. by rewrite orb_true_r.
Qed.

Lemma performed_accesses ctx l c t ws c1 t1 :
  performed (requests_of l) c t = Some (ws, c1, t1) -> overrunEnabled t = true ->
  packable ctx l t /\ accesses ctx l t = ((fun v => (v, None)) <$> ws, t1) /\ overrunEnabled t1 = true.
Proof.
  revert c t ws. induction l as [|op l IH]; intros c t ws Hp Ho; [injection Hp as <- <- <-; by split|].
  apply performed_cons in Hp as (v & us & t2 & [] & -> & Hp). rewrite <- acc_mode0 in Ho.
  destruct (IH _ _ _ Hp Ho) as (P & A & O). cbn [packable accesses]. rewrite acc_access0. cbn [snd]. rewrite A.
  split_and!; try done; first [lia|by rewrite <- acc_mode0|by eapply soft_access, acc_access0].
Qed.

Lemma observe_exact L limit l vs w c t tf s ws c1 t1 :
  numbered L -> stage L limit vs c tf s -> take (length l) (drop (length vs) L) = l ->
  performed (requests_of l) c t = Some (ws, c1, t1) ->
  wp (observe_loop l ((fun v => (v, None)) <$> ws) w) (fun r s' => fst r = w /\ stage L limit (vs ++ ws) c1 tf s') s.
Proof.
  intros Hn. revert vs c t s ws w. induction l as [|op l IH]; intros vs c t s ws w Hs Hl Hp.
  { injection Hp as <- <- <-. apply wp_ret. by rewrite app_nil_r. }
  apply performed_cons in Hp as (v & us & t2 & Ha & -> & Hp). cbn [observe_loop fmap list_fmap].
  assert (L !! length vs = Some op) as Ho.
  { apply (f_equal (fun l => l !! O)) in Hl. cbn in Hl. rewrite lookup_take_lt in Hl by lia. by rewrite lookup_drop, Nat.add_0_r in Hl. }
  pose proof Hs as [A B [pa E] U Rdy Hm F]. apply wp_bind, wp_gets. rewrite E. cbn [conn err_eqb andb].
  destruct (observe_fields (op_req op) v (op_data op) c) as (O1 & O2 & O3 & _).
  apply wp_bind. unfold wp at 1, on_conn, cmod, modify. rewrite E. cbn [conn world].
  apply wp_bind. eapply wp_mono; [apply (resolve_stage L limit vs v op c tf _ tf pa s Hs Hn Ho); [auto|congruence|by unfold matched in *; rewrite O2]|].
  intros [] s1 Hs1. assert (length (vs ++ [v]) = S (length vs)) as L1 by (rewrite length_app; cbn; lia).
  apply wp_bind. eapply wp_mono; [eapply (IH (vs ++ [v]) _ t2 s1 us (w || false) Hs1); [|exact Hp]|].
  { rewrite L1. rewrite (drop_S _ _ _ Ho) in Hl. by injection Hl. }
  intros [w' ex] s' [Ew G]. apply wp_ret. cbn [fst] in *. rewrite <- app_assoc in G. split; [|exact G]. by rewrite Ew, orb_false_r.
Qed.

Lemma firstFrameError_none {A} (f : A -> Z) (ws : list A) ms i : firstFrameError (snd <$> ((fun v => (f v, @None error)) <$> ws)) ms i = -1.
Proof.
  assert (existsb (err_eqb None) ms = false) as E by (by induction ms).
  revert i. induction ws as [|v ws IH]; intros i; [done|]. cbn. rewrite E. apply IH.
Qed.

Lemma result_errors_stage L limit vs c t s l :
  numbered L -> stage L limit vs c t s -> (forall op, op ∈ l -> exists i, L !! i = Some op /\ (i < length vs)%nat) ->
  wp (result_errors l) (fun es s' => s' = s /\ Forall (fun e => e = None) es) s.
Proof.
  intros Hn Hs. induction l as [|op l IH]; intros Hl; [by apply wp_ret|]. cbn [result_errors].
  destruct (Hl op) as (i & Ho & Hi); [by left|]. apply wp_bind, wp_gets. rewrite (numbered_lookup L i op Hn Ho), (st_heap _ _ _ _ _ _ Hs).
  destruct (lookup_lt_is_Some_2 vs i Hi) as [v Ev]. rewrite lookup_app_l, list_lookup_fmap, Ev by (by rewrite length_fmap). cbn [fmap option_fmap option_map result_err confirmed].
  apply wp_bind. eapply wp_mono; [apply IH; intros; apply Hl; by right|]. intros es s' [-> Hes]. apply wp_ret. by split; [|constructor].
Qed.

Lemma slice_drop {A} (L : list A) (i j : nat) : slice L (Z.of_nat i) (Z.of_nat j) = take (j - i) (drop i L).
Proof. unfold slice. rewrite Nat2Z.id. f_equal. lia. Qed.

Lemma chunk_exact ctx L limit vs c t s (stop : nat) ws c1 t1 :
  ctx_nil ctx = false -> numbered L -> stage L limit vs c t s -> overrunEnabled t = true -> (length vs < stop <= length L)%nat ->
  54 * (Z.of_nat stop - len vs) <= simMaxTransferBits (ready_wire t 0 limit) ->
  performed (requests_of (take (stop - length vs) (drop (length vs) L))) c t = Some (ws, c1, t1) ->
  wp (commitOverrunChunk ctx (len vs) (Z.of_nat stop)) (fun e s' => e = None /\ stage L limit (vs ++ ws) c1 t1 s') s.
Proof.
  intros Hc Hn Hs Hov Hstop Hlim Hp. set (l := take _ _) in *.
  assert (length l = stop - length vs)%nat as Ll by (unfold l; rewrite length_take, length_drop; lia).
  pose proof (performed_length _ _ _ _ _ _ Hp) as Lw. unfold requests_of in Lw. rewrite length_fmap in Lw.
  pose proof Hs as [A B [pa E] U Rdy Hm F]. unfold commitOverrunChunk.
  assert (completionContext ctx (mkSt c (ready_wire t pa limit)) =
    Done ((WithTimeout (WithoutCancel ctx) (completionTimeout c), None), mkSt c (ready_wire t pa limit))) as E1.
  { unfold completionContext. rewrite (bind_Done _ _ _ None (mkSt c (ready_wire t pa limit))) by (unfold ctxErr; rewrite Hc, alive; done).
    unfold cget. rewrite (bind_Done _ _ _ None (mkSt c (ready_wire t pa limit))); [done|]. unfold gets, validateCompletion. cbn [conn].
    by rewrite (proj2 (Z.leb_gt _ _) (proj2 (proj2 U))). }
  apply wp_bind. eapply wp_batch_conn; [by rewrite E|]. cbv beta iota. rewrite <- E.
  replace (mkBSt (batch s) (heap s) (cst s)) with s by (by destruct s).
  apply wp_bind, wp_gets. rewrite A. apply wp_bind, wp_on_conn_get, wp_bind, wp_on_conn_get. rewrite E. cbn [conn].
  change (len vs) with (Z.of_nat (length vs)). rewrite slice_drop. fold l.
  destruct (performed_accesses (WithTimeout (WithoutCancel ctx) (completionTimeout c)) l c t ws c1 t1 Hp Hov) as (P & Ac & Ov1).
  destruct (packed_exchange HL (WithTimeout (WithoutCancel ctx) (completionTimeout c)) l c t pa limit U eq_refl) as (q & input & Eq & _ & Ex & Ed).
  { intros ->. cbn in Ll. lia. } { exact P. } { unfold len in *. rewrite Ll. etrans; [|exact Hlim]. lia. }
  apply wp_bind. apply (wp_lift _ q); [done|]. apply wp_bind. eapply wp_batch_conn; [by rewrite E|]. cbv beta iota.
  apply wp_bind. eapply wp_lift; [exact Ed|]. rewrite Ac. cbn [fst snd].
  assert (stage L limit vs c t1 (mkBSt (batch s) (heap s) (mkSt c (ready_wire t1 pa limit)))) as Hs1.
  { split; try done; [by eexists|]. unfold matched in *. rewrite Ov1. by rewrite Hov in Hm. }
  apply wp_bind. eapply wp_mono; [eapply (observe_exact L limit l vs false c t t1); [done|exact Hs1|by rewrite Ll|exact Hp]|].
  intros [w ex] s2 [Ew Hs2]. cbn [fst] in Ew. subst w. apply wp_bind. unfold finishOverrunChunk.
  rewrite !firstFrameError_none. cbn [Z.leb Z.compare]. apply wp_bind, wp_ret, wp_bind, wp_ret, wp_bind, wp_on_conn_get. cbn [andb].
  apply wp_bind, wp_ret, wp_bind, wp_gets. rewrite (st_ops _ _ _ _ _ _ Hs2), slice_drop. fold l.
  apply wp_bind. eapply wp_mono; [eapply (result_errors_stage L limit _ c1 t1 s2 l Hn Hs2)|].
  { intros op (i & Hi)%list_elem_of_lookup. exists (length vs + i)%nat. pose proof (lookup_lt_Some _ _ _ Hi). split; [|rewrite length_app; lia].
    unfold l in Hi. rewrite lookup_take_lt in Hi by lia. by rewrite lookup_drop in Hi. }
  intros es s3 [-> Hes]. rewrite (proj2 (errors_Join_None _)) by (apply Forall_app; split; [exact Hes|by constructor]).
  apply wp_ret. unfold completionError. cbn [is_nil]. pose proof Hs2 as [_ _ [pa2 E2] _ _ _ _].
  eapply wp_batch_conn; [rewrite E2; by rewrite (bind_Done _ _ _ None (mkSt c1 (ready_wire t1 pa2 limit))) by (unfold ctxErr; rewrite Hc, alive; done)|].
  split; [done|]. rewrite <- E2. by destruct s2.
Qed.

Lemma overrun_exact n ctx L limit vs c t s ws c' t' :
  ctx_nil ctx = false -> numbered L -> stage L limit vs c t s -> overrunEnabled t = true -> (length L <= length vs + n)%nat ->
  (length vs <= length L)%nat -> performed (requests_of (drop (length vs) L)) c t = Some (ws, c', t') ->
  wp (overrun_loop n ctx (simMaxTransferBits (ready_wire t 0 limit) / 54) (len vs)) (fun e s' => e = None /\ stage L limit (vs ++ ws) c' t' s') s.
Proof.
  intros Hc Hn. revert vs c t s ws. induction n as [|n IH]; intros vs c t s ws Hs Hov Hf Hl Hp; cbn [overrun_loop];
    apply wp_bind, wp_gets; rewrite (st_ops _ _ _ _ _ _ Hs); destruct (Z.leb_spec (len L) (len vs)) as [Hle|Hgt]; unfold len in * .
  1, 3: rewrite drop_ge in Hp by lia; injection Hp as <- <- <-; apply wp_ret; by rewrite app_nil_r.
  { lia. }
  pose proof Hs as [A B [pa E] U Rdy Hm F].
  destruct (lookup_lt_is_Some_2 L (length vs)) as [op Ho]; [lia|]. pose proof Hp as Hp0.
  rewrite (drop_requests L _ op Ho) in Hp0. apply performed_cons in Hp0 as (v & us & t2 & Ha & _ & _).
  apply wp_bind, wp_batch_ctxErr; [done|]. unfold validateRuntimeOperation. apply wp_bind, wp_bind, wp_gets. rewrite A.
  apply wp_bind. apply (wp_lift _ op); [by rewrite index_nat|].
  apply wp_bind, wp_on_conn_get. rewrite E. cbn [conn]. rewrite (acc_valid _ _ _ _ _ _ Ha). apply wp_ret.
  apply wp_bind, wp_gets. rewrite A. apply wp_bind, wp_gets. rewrite E. cbn [conn].
  set (frames := simMaxTransferBits (ready_wire t 0 limit) / 54) in *.
  assert (1 <= frames /\ 54 * frames <= simMaxTransferBits (ready_wire t 0 limit)) as [Hfr Hfl].
  { subst frames. pose proof (Z.div_mod (simMaxTransferBits (ready_wire t 0 limit)) 54 ltac:(lia)).
    pose proof (Z.mod_pos_bound (simMaxTransferBits (ready_wire t 0 limit)) 54 ltac:(lia)). lia. }
  unfold overrunChunkEnd. rewrite Nat2Z.id.
  destruct (chunk_end_bound c (drop (length vs) L) (Z.of_nat (length vs)) (Z.min (Z.of_nat (length vs) + frames) (Z.of_nat (length L)))) as [Hb1 Hb2];
    [lia|unfold len; rewrite length_drop; lia|].
  set (stop := chunk_end _ _ _ _) in *. replace stop with (Z.of_nat (Z.to_nat stop)) by lia. set (k := Z.to_nat stop).
  rewrite <- (take_drop (k - length vs) (drop (length vs) L)) in Hp. unfold requests_of in Hp. rewrite fmap_app in Hp.
  apply performed_split in Hp as (w1 & w2 & c1 & t1 & Hp1 & Hp2 & ->).
  pose proof (performed_length _ _ _ _ _ _ Hp1) as Lw. rewrite length_fmap, length_take, length_drop in Lw.
  apply wp_bind. eapply wp_mono; [apply (chunk_exact ctx L limit vs c t s k w1 c1 t1 Hc Hn Hs Hov)|].
  { subst k. lia. } { unfold len. subst k. lia. } { exact Hp1. }
  intros e s1 [-> Hs1]. assert (length (vs ++ w1) = k) as Lk by (rewrite length_app; subst k; lia).
  destruct (performed_accesses Background _ _ _ _ _ _ Hp1 Hov) as (_ & _ & Ov1).
  change (simMaxTransferBits (ready_wire t 0 limit)) with (simMaxTransferBits (ready_wire t1 0 limit)) in frames.
  rewrite <- Lk. eapply wp_mono; [eapply (IH (vs ++ w1) c1 t1 s1 w2 Hs1 Ov1)|].
  { lia. } { subst k. lia. } { rewrite Lk. rewrite drop_drop in Hp2. by replace (length vs + (k - length vs))%nat with k in Hp2 by (subst k; lia). }
  intros e s' [-> G]. split; [done|]. by rewrite <- app_assoc in G.
Qed.

(** ** Validation *)

(** The requests as they are queued. *)
Definition raw (L : list batchOp) : list (request * Z) :=
  (fun op => (mkReq (op_ap op) (op_read op) (op_addr op), op_data op)) <$> L.

Lemma newRequest_valid a r x : request_ok (mkReq a r x) -> newRequest a r x = (mkReq a r x, None).
Proof.
  unfold request_ok, newRequest. cbn [addr]. rewrite !elem_of_cons. intros [->|[->|[->|[->|Hx]]]]; [done..|].
  by apply not_elem_of_nil in Hx.
Qed.

Lemma performed_valid l c t r : performed l c t = Some r -> Forall (fun x => request_ok (fst x)) l.
Proof.
  revert c t r. induction l as [|[req d] l IH]; intros c t [[vs c2] t2] E; [done|].
  apply performed_cons in E as (v & ws & t1 & [] & _ & E). constructor; [done|by eapply IH].
Qed.

Lemma validate_request_all L :
  Forall (fun x => request_ok (fst x)) (raw L) ->
  requests_of (map validate_request L) = raw L /\ op_errors (map validate_request L) = None.
Proof.
  unfold op_errors. rewrite errors_Join_None. induction L as [|op L IH]; intros Hr; [done|]. apply Forall_cons in Hr as [Ho Hr].
  destruct (IH Hr) as [E1 E2]. cbn [map]. unfold validate_request at 1 3. rewrite (newRequest_valid _ _ _ Ho). cbn.
  split; [by f_equal|by constructor].
Qed.

Lemma validate_shadow_all l c t r :
  performed (requests_of l) c t = Some r ->
  requests_of (validate_shadow c l) = requests_of l /\ op_errors (validate_shadow c l) = None.
Proof.
  unfold op_errors. rewrite errors_Join_None. revert c t r. induction l as [|op l IH]; intros c t [[vs c2] t2] E; [done|].
  apply performed_cons in E as (v & ws & t1 & [] & _ & E). cbn [validate_shadow]. rewrite acc_valid0, <- (observe_value _ v) by done.
  destruct (IH _ _ _ E) as [E1 E2]. cbn. split; [by f_equal|by constructor].
Qed.

(** ** Commit *)

Lemma Commit_performs ctx L limit c t pa ws c' t' :
  ctx_nil ctx = false -> numbered L -> usable c -> state c = connectionReady -> matched c t ->
  54 <= simMaxTransferBits (ready_wire t 0 limit) -> performed (raw L) c t = Some (ws, c', t') ->
  wp (Commit ctx) (fun e s' => e = None /\ heap s' = confirmed <$> ws /\ usable c' /\ state c' = connectionReady /\ matched c' t' /\
      exists pa', cst s' = mkSt c' (ready_wire t' pa' limit))
    (mkBSt (mkBatch true L false) (replicate (length L) (mkResult false 0 None)) (mkSt c (ready_wire t pa limit))).
Proof.
  intros Hc Hn U Rdy Hm Hl Hp. unfold Commit. apply wp_bind, wp_gets. cbn [committed batch]. apply wp_bind, wp_modify, wp_bind, wp_gets. cbn [batch ops has_conn heap cst].
  destruct (bool_decide_reflect (L = [])) as [->|Hne].
  { injection Hp as <- <- <-. apply wp_ret. split_and!; try done. by eexists. }
  set (L1 := map validate_request L). destruct (validate_request_all L (performed_valid _ _ _ _ Hp)) as [R1 N1]. fold L1 in R1, N1.
  rewrite <- R1 in Hp. destruct (validate_shadow_all L1 c t _ Hp) as [R2 N2]. set (L2 := validate_shadow c L1) in *.
  assert (length L2 = length L) as LL by (apply (f_equal length) in R1, R2; unfold requests_of, raw in *; rewrite !length_fmap in *; lia).
  assert (numbered L2) as Hn2.
  { unfold numbered. rewrite LL. unfold L2. rewrite validate_shadow_ptrs. unfold L1. rewrite validate_request_ptrs. exact Hn. }
  assert (wp (validate ctx) (fun e s' => e = None /\ stage L2 limit [] c t s')
    (mkBSt (mkBatch true L true) (replicate (length L) (mkResult false 0 None)) (mkSt c (ready_wire t pa limit)))) as Hv.
  { unfold validate. apply wp_bind, wp_modify, wp_bind, wp_gets. cbn [batch ops has_conn]. fold L1. rewrite N1.
    apply wp_bind, wp_gets. cbn [batch has_conn negb]. apply wp_bind, wp_on_conn_get. cbn [cst conn]. rewrite Rdy.
    apply wp_bind, wp_batch_ctxErr; [done|]. apply wp_bind, wp_on_conn_get. cbn [cst conn]. unfold validateCompletion.
    rewrite (proj2 (Z.leb_gt _ _) (proj2 (proj2 U))). apply wp_bind, wp_gets, wp_bind, wp_modify, wp_bind, wp_gets. cbn [batch ops has_conn cst conn heap committed].
    fold L1 L2. rewrite N2. apply wp_ret. split; [done|]. split; cbn; try done; [by rewrite Nat.sub_0_r, LL|by eexists]. }
  apply wp_bind. eapply wp_mono; [exact Hv|]. intros e s [-> Hs]. clear Hv.
  assert (Hfin : forall (e : err) s', e = None /\ stage L2 limit ws c' t' s' ->
    e = None /\ heap s' = confirmed <$> ws /\ usable c' /\ state c' = connectionReady /\ matched c' t' /\ exists pa', cst s' = mkSt c' (ready_wire t' pa' limit)).
  { intros e s' [-> [? B ? ? ? ? ?]]. split_and!; try done. rewrite B. apply performed_length in Hp. unfold requests_of in Hp. rewrite length_fmap in Hp.
    assert (length L1 = length L2) as El by (unfold L1; rewrite length_map; lia). rewrite Hp, El, Nat.sub_diag. by rewrite app_nil_r. }
  rewrite <- R2 in Hp. pose proof Hs as [A B [pa1 E] _ _ _ _]. apply wp_bind, wp_on_conn_get. rewrite E. cbn [conn]. unfold matched in Hm. rewrite Hm.
  destruct (overrunEnabled t) eqn:Hov.
  - rewrite bool_decide_eq_false_2 by done. unfold transferLimit. cbn [MaxTransferBits SimWire_Wire]. apply wp_bind, wp_bind, wp_gets. rewrite E. cbn [world].
    change (simMaxTransferBits (ready_wire t pa1 limit)) with (simMaxTransferBits (ready_wire t 0 limit)). unfold fixedFrameBits.
    rewrite (proj2 (Z.ltb_ge _ _) Hl). apply wp_ret. unfold commitOverrun, fixedFrameBits. apply wp_bind, wp_gets. rewrite Z.div_mul by lia. rewrite A.
    eapply wp_mono; [|exact Hfin]. eapply (overrun_exact _ ctx L2 limit [] c t s ws c' t'); [done|done|done|done|cbn; lia|cbn; lia|exact Hp].
  - rewrite bool_decide_eq_true_2 by done. unfold commitSequential. apply wp_bind, wp_gets. rewrite A.
    eapply wp_mono; [|exact Hfin]. by eapply (sequential_exact _ ctx L2 limit [] c t s ws c' t').
Qed.
End Exact.
