(* ===== verification/SwdProps.v ===== *)
(** * The SWD package's contract

    Framing (parity, headers, frames), the refinement of bit-level traffic to
    register accesses, the connection's ownership of ORUNDETECT, and batches.
    Witnesses use a one-register target over the behavioral wire. *)

From S2P Require Import Prelude Go Bits SwdFrame SwdConn SwdConnFacts SwdLifecycle SwdLifecycleFacts.
From S2P Require Import SwdSim SwdRefine SwdBatch SwdBatchFacts.
Local Open Scope Z_scope.

(** ** A target for the witnesses *)

(** One word, read and written at every address; reads at DP address 0 return an
    identification code. *)
Record Cell := mkCell { cell_overrun : bool; cell_word : Z }.

#[global] Instance Cell_Target : Target Cell := {|
  Read := fun _ req t => ((if negb (AP req) && (Addr req =? 0) then 0x2ba01477 else uint32 (cell_word t), None), t);
  Write := fun _ req v t =>
    (None, mkCell (cell_overrun t) (if negb (AP req) && negb (Addr req =? 4) then cell_word t else uint32 v));
  Acknowledge := None;
  OverrunDetectEnabled := Some cell_overrun;
  ObserveResponse := None;
  ObserveLineReset := None
|}.

#[global] Instance Cell_Env : Env (SimWire Cell) := {| ctx_Err := fun _ w => (None, w) |}.

Lemma Cell_SimLaws : SimLaws (T := Cell).
Proof.
  split; [done| |done]. intros ctx req t. simpl. destruct (_ && _); simpl; [lia|apply uint32_range].
Qed.

Definition cell_conn (mode : responseMode) : Conn :=
  set_bank bankZero noBank false (set_original false true (set_identity 0x2ba01477 true
    (set_state connectionReady (set_response mode (New_ true []))))).

Definition cell_state (overrun : bool) (word : Z) : St (SimWire Cell) :=
  mkSt (cell_conn (if overrun then responseOverrun else responseSimple)) (ready_wire (mkCell overrun word) 1 0).

Lemma cell_conn_inv mode : inv (cell_conn mode).
Proof. by split. Qed.

(** ** Framing *)

(** The shift-and-test parity loop of the connection, the xor fold of the
    behavioral wire and the parity of the 32 bits agree on every word. *)
Theorem parity_equivalence v :
  0 <= v < 2 ^ 32 -> parity32 v = sim_parity32 v /\ parity32 v = foldr xorb false (word_bits 32 v).
Proof. intros Hv. split; [by apply parity_agree|by apply parity32_spec]. Qed.

(** The request header byte encodes a request without loss: every request
    [newRequest] accepts decodes back to itself on the wire. *)
Theorem header_roundtrip ap read addr req :
  newRequest ap read addr = (req, None) ->
  decodeRequest (requestByte req) = (mkRequest ap read addr, None) /\ 0 <= requestByte req < 256.
Proof. intros E. destruct (newRequest_ok _ _ _ _ E) as [Hok ->]. by apply (decode_header (mkReq ap read addr)). Qed.

(** A fixed frame is exactly 54 clocks: the header driven, turnaround and
    acknowledgement sampled, then for a read 32 data bits, parity and turnaround
    sampled, for a write a turnaround and the data with its parity driven, and
    eight idle clocks driven low. *)
Theorem fixed_frame_layout req value :
  exists s, fixedFrame 1 8 req value = Some s /\ bits s = 54 /\
    view s = drive (word_bits 8 (requestByte req)) ++ listen 4 ++
      (if isRead req then listen 34
       else listen 1 ++ drive (word_bits 32 value) ++ drive [parity32 value]) ++ idle 8.
Proof.
  destruct (fixedFrame_spec req value) as (s & E & (_ & Hb & Hv)). exists s. split_and!; [done| |exact Hv].
  rewrite Hb. unfold len. by rewrite frame_bits_length.
Qed.

(** ** Refinement *)

(** C4: one frame over the behavioral wire, in the simple grammar (a request and
    a data phase) or the overrun grammar (one fixed frame), is exactly one
    register access of the target: same value and error, same target state, and
    the wire is ready for the next frame. *)
Theorem frame_refines_access {T} `{Target T} `{Env (SimWire T)} ctx req value c (t : T) pa limit :
  SimLaws (T := T) -> usable c -> ctx_nil ctx = false -> request_ok req -> 0 <= value < 2 ^ 32 -> matched c t ->
  54 <= simMaxTransferBits (ready_wire t pa limit) ->
  exists pa', transferFrame ctx req value (mkSt c (ready_wire t pa limit)) =
    Done (fst (access ctx req value t), mkSt c (ready_wire (snd (access ctx req value t)) pa' limit)).
Proof. intros HL. apply (transferFrame_sim HL). Qed.

Lemma frame_refines_access_witness :
  exists pa', transferFrame Background (mkReq true false 0x04) 0xcafe0001 (cell_state true 7) =
    Done ((0, None), mkSt (cell_conn responseOverrun) (ready_wire (mkCell true 0xcafe0001) pa' 0)).
Proof.
  apply (frame_refines_access Background (mkReq true false 0x04) 0xcafe0001 (cell_conn responseOverrun) (mkCell true 7) 1 0 Cell_SimLaws).
  - repeat split.
  - reflexivity.
  - right. left.
  - lia.
  - reflexivity.
  - discriminate.
Defined.



(** A packed chunk, sent as one exchange of 54 clocks per operation, has the
    effect of performing its operations one after another, and decoding its
    response yields their results in order. *)
Theorem packed_chunk_refines {T} `{Target T} `{Env (SimWire T)} ctx l c (t : T) pa limit :
  SimLaws (T := T) -> usable c -> ctx_nil ctx = false -> l <> [] -> packable ctx l t ->
  54 * len l <= simMaxTransferBits (ready_wire t pa limit) ->
  exists seq input, packed (turnaround c) (idleCycles c) l empty = Some seq /\ bits seq = 54 * len l /\
    exchange ctx seq (mkSt c (ready_wire t pa limit)) =
      Done ((input, None), mkSt c (ready_wire (snd (accesses ctx l t)) pa limit)) /\
    decodeOverrunChunk input l 0 = Some (fst (accesses ctx l t)).
Proof. intros HL. apply (packed_exchange HL). Qed.

(** ** Ownership *)



(** C12: [Connect], over any wire and on every path, returns.  Success means a
    ready connection that has captured a setting and knows the returned DPIDR,
    whose constant bit is set and which is unchanged if one was known.  Failure
    leaves the connection untouched, idle and owing nothing, or owing the setting
    it captured first. *)
Theorem connect_contract {W} `{Env W} `{Wire W} ctx options (s : St W) :
  ctx_nil ctx = false -> inv (conn s) ->
  wp (Connect ctx options) (fun r s' => inv (conn s') /\
    match snd r with
    | None => state (conn s') = connectionReady /\ retained (conn s) (conn s') /\
        identityKnown (conn s') = true /\ identity (conn s') = fst r /\ Z.testbit (fst r) 0 = true /\
        (identityKnown (conn s) = true -> fst r = identity (conn s))
    | Some _ => conn s' = conn s \/ idle_conn (conn s') \/ retained (conn s) (conn s')
    end) s.
Proof.
  intros Hc Hi. eapply wp_mono; [by apply Connect_spec|]. intros r s' (H1 & _ & H2). split; [done|].
  destruct (snd r); [done|]. by destruct H2 as (? & ? & (? & ? & ?) & ?).
Qed.

Lemma connect_contract_witness :
  exists s', Connect Background [] (mkSt (New_ true []) (NewWire (Some (mkCell true 1)))) = Done ((0x2ba01477, None), s') /\
    state (conn s') = connectionReady /\ identity (conn s') = 0x2ba01477.
Proof.
  assert (exists s', Connect Background [] (mkSt (New_ true []) (NewWire (Some (mkCell true 1)))) = Done ((0x2ba01477, None), s')) as [s' E].
  { eexists. vm_compute. reflexivity. }
  destruct (wp_elim _ _ _ _ _ (connect_contract Background [] (mkSt (New_ true []) (NewWire (Some (mkCell true 1))))
    eq_refl (inv_New true [])) E) as (_ & Hr & _ & _ & Hid & _).
  exists s'. split; [exact E|]. split; [exact Hr|exact Hid].
Defined.



(** Changing ORUNDETECT without fallback, as [Release] does, always returns
    within its retry limits, and returns without an error only when a CTRL/STAT
    read-back showed the requested setting applied. *)
Theorem change_applied {W} `{Env W} `{Wire W} ctx v enabled (s : St W) :
  ctx_nil ctx = false -> framing (conn s) ->
  wp (changeOverrun ctx v enabled false) (fun r s' => keeps_ true (conn s) (conn s') /\ (snd r = None -> fst r = true)) s.
Proof.
  intros Hc Hf. apply wp_and; [by apply (Keeps_changeOverrun ctx Hc)|by apply (change_spec ctx Hc)].
Qed.

(** A register operation the connection refuses (not ready, or a CTRL/STAT
    write that would change the ORUNDETECT bit the connection owns) matches
    ErrNotExecuted, sends nothing and leaves the connection as it was. *)
Theorem refused_transfer_is_silent {W} `{Env W} `{Wire W} ctx req value (s : St W) :
  ctx_nil ctx = false ->
  state (conn s) <> connectionReady \/
  (req = mkReq false false 0x04 /\ bank_ (bank (conn s)) = 0 /\
   any_bits value 1 <> bool_decide (response (conn s) = responseOverrun)) ->
  wp (transfer ctx req value) (fun r s' => fst r = 0 /\ errors_Is (snd r) swd_ErrNotExecuted = true /\
    conn s' = conn s /\ asked ctx s s') s.
Proof.
  intros Hc Hr. unfold transfer. apply wp_bind, wp_gets.
  destruct (bool_decide_reflect (state (conn s) = connectionReady)) as [Er|]; cbn [negb].
  2: { apply wp_ret. split_and!; [done|done|done|by left]. }
  destruct Hr as [Hn|(-> & Hb & Hv)]; [by destruct Hn|].
  apply wp_bind, wp_swd_ctxErr; [done|]. intros [e|]; [apply wp_ret; split_and!; [done|done|done|by right]|].
  apply wp_bind, wp_gets. cbn [conn]. destruct (validateTransfer _ _ _) as [e|] eqn:Ev;
    [apply wp_ret; split_and!; [done|done|done|by right]|].
  exfalso. unfold validateTransfer in Ev. cbn [isAP isRead address ap read addr Z.eqb Pos.eqb orb negb] in Ev.
  destruct (_ || _); [done|]. rewrite Hb in Ev. cbn [Z.eqb andb] in Ev.
  destruct (any_bits value 1), (bool_decide (response (conn s) = responseOverrun)); done.
Qed.

(** ** Batches *)

Definition cell_batch : BSt (SimWire Cell) :=
  mkBSt (mkBatch true [mkOp true false 0x04 5 noRequest 0 None; mkOp true true 0x0c 0 noRequest 1 None] false)
    [mkResult false 0 None; mkResult false 0 None] (cell_state true 7).

Lemma cell_batch_ok : batch_ok cell_batch.
Proof. split; [by split|]. repeat constructor; simpl; lia. Qed.

(** C14: [Commit] returns over every wire and leaves every queued result
    resolved, whichever way it ends: refused, cancelled, failed or complete.
    Results that were already resolved stay so. *)
Theorem commit_resolves_all {W} `{Env W} `{Wire W} ctx (s : BSt W) :
  ctx_nil ctx = false -> batch_ok s -> committed (batch s) = false ->
  wp (Commit ctx) (fun e s' => ptrs s' = ptrs s /\ (forall p, done_at s p -> done_at s' p) /\
    Forall (done_at s') (ptrs s)) s.
Proof.
  intros Hc Hs Hn. eapply wp_mono; [by apply Commit_spec|]. intros e s' [G D].
  split_and!; [apply (g_ptrs _ _ G)|apply (g_done _ _ G)|]. apply Forall_lookup. intros k p Hp.
  rewrite <- (g_ptrs _ _ G) in Hp. apply (D k); [|done]. apply lookup_lt_Some in Hp. unfold len. lia.
Qed.

Lemma commit_resolves_all_witness :
  exists s', Commit Background cell_batch = Done (None, s') /\ Forall (done_at s') [0%nat; 1%nat].
Proof.
  assert (exists s', Commit Background cell_batch = Done (None, s')) as [s' E]. { eexists. vm_compute. reflexivity. }
  exists s'. split; [exact E|].
  destruct (wp_elim _ _ _ _ _ (commit_resolves_all Background cell_batch eq_refl cell_batch_ok eq_refl) E) as (_ & _ & Hd).
  exact Hd.
Defined.

(** A batch that fails validation reports an error, resolves its results and
    sends nothing: the wire is not called, the connection is unchanged. *)
Theorem invalid_batch_is_silent {W} `{Env W} `{Wire W} ctx (s : BSt W) e s1 :
  ctx_nil ctx = false -> batch_ok s -> committed (batch s) = false -> ops (batch s) <> [] ->
  validate ctx (mkBSt (mkBatch (has_conn (batch s)) (ops (batch s)) true) (heap s) (cst s)) = Done (Some e, s1) ->
  wp (Commit ctx) (fun e s' => e <> None /\ asked ctx (cst s) (cst s') /\
    done_range s' 0 (len (ptrs s'))) s.
Proof. intros Hc Hs Hn Hne E. apply Commit_invalid; [done|done|done|done|]. eauto. Qed.

Definition bad_batch : BSt (SimWire Cell) :=
  mkBSt (mkBatch true [mkOp true false 0x05 5 noRequest 0 None] false) [mkResult false 0 None] (cell_state true 7).

(** Each turn of a packed commit advances: the chunk from [start] is
    nonempty and within the limit, and an ABORT, which can clear sticky state, is
    only ever its last operation. *)
Theorem chunk_end_progress c l start limit :
  0 <= start < limit -> limit <= len l ->
  start < overrunChunkEnd c l start limit <= limit /\
  forall i op, start <= i < overrunChunkEnd c l start limit -> index l i = Some op ->
    isAbortWrite (op_req op) = true -> overrunChunkEnd c l start limit = i + 1.
Proof.
  intros Hs Hl. unfold overrunChunkEnd. split.
  - apply chunk_end_bound; [lia|]. unfold len in *. rewrite length_drop. lia.
  - intros i op Hi [Hi0 Eop]%index_Some Ha.
    rewrite (chunk_end_abort c _ start limit (Z.to_nat (i - start)) op); [lia|lia| |done|lia].
    rewrite lookup_drop. rewrite <- Eop. f_equal. lia.
Qed.

