(* ===== verification/CoreSight.v ===== *)
(** * CoreSight components and ROM tables (coresight/component.go, rom.go, walk.go)

    Identification snapshots, the layout and decoding of ROM table entries, and
    the bounded walk over nested tables.  The scalar reader is the interface of
    another package: [Reader] says only that it answers. *)

From S2P Require Import Prelude Go.
Local Open Scope Z_scope.

(** [ScalarReader]; only 32-bit scalars are read. *)
Class Reader (W : Type) := {
  ReadScalar : context -> Z -> Z -> W -> (Z * err) * W
}.

(** [dap.Size32] *)
Definition Size32 : Z := 4.

(** ** Components *)

Record Component := mkComponent {
  Base : Z;
  CIDR : Z;
  PIDR : Z;
  DEVARCH : Z;
  DEVID : Z;
  DEVTYPE : Z
}.

Definition zeroComponent : Component := mkComponent 0 0 0 0 0 0.

Definition Class_ (c : Component) : Z := uint8 (Z.land (Z.shiftr (CIDR c) 12) 0xf).

Definition Part (c : Component) : Z := uint16 (Z.land (PIDR c) 0xfff).

Definition Designer (c : Component) : Z * bool :=
  (Z.lor (uint16 (Z.shiftl (uint16 (Z.land (Z.shiftr (PIDR c) 32) 0xf)) 7)) (uint16 (Z.land (Z.shiftr (PIDR c) 12) 0x7f)),
   any_bits (PIDR c) (Z.shiftl 1 19)).

Definition Revision (c : Component) : Z := uint8 (Z.land (Z.shiftr (PIDR c) 20) 0xf).

Record Architecture := mkArch { Architect : Z; ID : Z; ArchRevision : Z }.

Definition Architecture_ (c : Component) : Architecture * bool :=
  if negb (Class_ c =? 9) || negb (any_bits (DEVARCH c) (Z.shiftl 1 20)) then (mkArch 0 0 0, false)
  else (mkArch (uint16 (Z.shiftr (DEVARCH c) 21)) (uint16 (DEVARCH c)) (uint8 (Z.land (Z.shiftr (DEVARCH c) 16) 0xf)), true).

(** ** ROM tables *)

Record ROMTable := mkTable { tbase : Z; count : Z; stride : Z; class : Z }.

Definition zeroTable : ROMTable := mkTable 0 0 0 0.

Definition ROMTable_ (c : Component) : ROMTable * err :=
  if negb (Z.land (Base c) 0xfff =? 0) || negb (Z.land (CIDR c) 0xffff0fff =? 0xb105000d)
  then (zeroTable, Some (New "coresight: invalid component snapshot"))
  else if Class_ c =? 1 then (mkTable (Base c) 960 4 (Class_ c), None)
  else
    let '(arch, present) := Architecture_ c in
    if negb present || negb (Architect arch =? 0x23b) || negb (ID arch =? 0x0af7)
    then (zeroTable, Some (Sentinel coresight_ErrNotROMTable))
    else if negb (ArchRevision arch =? 0) || (1 <? Z.land (DEVID c) 0xf)
    then (zeroTable, Some (New "coresight: unsupported ROM revision or format"))
    else if Z.land (DEVID c) 0xf =? 1 then (mkTable (Base c) 256 8 (Class_ c), None)
    else (mkTable (Base c) 512 4 (Class_ c), None).

Definition EntryCount (t : ROMTable) : Z := count t.

Record ROMEntry := mkEntry {
  Raw : Z;
  EBase : Z;
  Present : bool;
  End_ : bool;
  PowerID : Z;
  PowerIDValid : bool
}.

Definition zeroEntry : ROMEntry := mkEntry 0 0 false false 0 false.

(** [int64(x)] and [int64(int32(x))] of a uint64. *)
Definition int64 (x : Z) : Z := if x <? 2 ^ 63 then x else x - 2 ^ 64.
Definition int32 (x : Z) : Z := if uint32 x <? 2 ^ 31 then uint32 x else uint32 x - 2 ^ 32.

Definition entryBase (t : ROMTable) (raw : Z) : Z * err :=
  let offset := if stride t =? 4 then int32 (and_not raw 0xfff) else int64 (and_not raw 0xfff) in
  let base := uint64 (tbase t + uint64 offset) in
  if (offset =? 0) || ((0 <? offset) && (base <? tbase t)) || ((offset <? 0) && (tbase t <? base))
  then (0, Some (New "zero offset or address outside uint64 range"))
  else (base, None).

Definition decode (t : ROMTable) (raw : Z) : ROMEntry * err :=
  if raw =? 0 then (mkEntry raw 0 false true 0 false, None)
  else if (class t =? 9) && (Z.land raw 3 =? 2) then (mkEntry raw 0 false false 0 false, None)
  else if (Z.land raw 2 =? 0) || ((class t =? 9) && negb (Z.land raw 3 =? 3))
  then (zeroEntry, Some (New "invalid entry format or presence"))
  else if any_bits raw 0xe08 || ((Z.land raw 4 =? 0) && any_bits raw 0x1f0)
  then (zeroEntry, Some (New "reserved entry bits are nonzero"))
  else if negb (any_bits raw 1) then (mkEntry raw 0 false false 0 false, None)
  else
    let '(base, e) := entryBase t raw in
    match e with
    | Some e => (zeroEntry, Some e)
    | None => (mkEntry raw base true false (uint8 (Z.land (Z.shiftr raw 4) 0x1f)) (any_bits raw 4), None)
    end.

(** ** Reads *)

Section Reads.
Context {W : Type} `{Env W} `{Reader W}.

Abbreviation M := (GoM W).

Definition ctxErr (ctx : context) : M (option ctxError) := fun w =>
  if ctx_nil ctx then Panicked else Done (ctx_Err ctx w).

Definition readWord (ctx : context) (address : Z) : M (Z * err) :=
  e ← ctxErr ctx;
  match e with
  | Some e => mret (0, Some (Sentinel (context_Err e)))
  | None => fun w =>
      let '((word, e), w) := ReadScalar ctx address Size32 w in
      Done (match e with
            | Some e => (0, Some (Errorf "coresight: read: %w" [e]))
            | None => (uint32 word, None)
            end, w)
  end.

Fixpoint readID_loop (ctx : context) (base : Z) (offsets : list Z) (i id : Z) : M (Z * err) :=
  match offsets with
  | [] => mret (id, None)
  | offset :: offsets =>
      '(word, e) ← readWord ctx (uint64 (base + offset));
      match e with
      | Some e => mret (0, Some e)
      | None => readID_loop ctx base offsets (i + 1) (Z.lor id (uint64 (Z.shiftl (Z.land word 0xff) (8 * i))))
      end
  end.

Definition readID (ctx : context) (base : Z) (offsets : list Z) : M (Z * err) :=
  readID_loop ctx base offsets 0 0.

Definition readDevice (ctx : context) (c : Component) : M (Component * err) :=
  '(devarch, e) ← readWord ctx (uint64 (Base c + 0xfbc));
  match e with
  | Some e => mret (c, Some e)
  | None =>
      '(devid, e) ← readWord ctx (uint64 (Base c + 0xfc8));
      match e with
      | Some e => mret (c, Some e)
      | None =>
          '(devtype, e) ← readWord ctx (uint64 (Base c + 0xfcc));
          match e with
          | Some e => mret (c, Some e)
          | None => mret (mkComponent (Base c) (CIDR c) (PIDR c) devarch devid (uint8 devtype), None)
          end
      end
  end.

(** [reader == nil] is decided by the caller's [reader] flag. *)
Definition Identify (ctx : context) (reader : bool) (base : Z) : M (Component * err) :=
  if ctx_nil ctx then mret (zeroComponent, Some (New "coresight: nil context"))
  else if negb reader then mret (zeroComponent, Some (New "coresight: nil scalar reader"))
  else if negb (Z.land base 0xfff =? 0)
  then mret (zeroComponent, Some (New "coresight: unaligned identification page"))
  else
    e ← ctxErr ctx;
    match e with
    | Some e => mret (zeroComponent, Some (Sentinel (context_Err e)))
    | None =>
        '(cidr, e) ← readID ctx base [0xff0; 0xff4; 0xff8; 0xffc];
        match e with
        | Some e => mret (zeroComponent, Some e)
        | None =>
            if negb (Z.land (uint32 cidr) 0xffff0fff =? 0xb105000d)
            then mret (zeroComponent, Some (New "coresight: invalid CIDR"))
            else
              '(pidr, e) ← readID ctx base [0xfe0; 0xfe4; 0xfe8; 0xfec; 0xfd0; 0xfd4; 0xfd8; 0xfdc];
              match e with
              | Some e => mret (zeroComponent, Some e)
              | None =>
                  let c := mkComponent base (uint32 cidr) pidr 0 0 0 in
                  if Class_ c =? 9 then
                    '(c, e) ← readDevice ctx c;
                    match e with
                    | Some e => mret (zeroComponent, Some e)
                    | None => mret (c, None)
                    end
                  else mret (c, None)
              end
        end
    end.

Definition ReadEntry (t : ROMTable) (ctx : context) (reader : bool) (index : Z) : M (ROMEntry * err) :=
  if ctx_nil ctx || negb reader
  then mret (zeroEntry, Some (New "coresight: nil context or scalar reader"))
  else if (index <? 0) || (count t <=? index)
  then mret (zeroEntry, Some (New "coresight: invalid ROM entry index"))
  else
    let address := uint64 (tbase t + uint64 (index * stride t)) in
    '(low, e) ← readWord ctx address;
    match e with
    | Some e => mret (zeroEntry, Some e)
    | None =>
        '(raw, e) ← (if stride t =? 8 then
                       '(high, e) ← readWord ctx (uint64 (address + 4));
                       mret (Z.lor low (uint64 (Z.shiftl high 32)), e)
                     else mret (low, None));
        match e with
        | Some e => mret (zeroEntry, Some e)
        | None =>
            let '(entry, e) := decode t raw in
            match e with
            | Some e => mret (zeroEntry, Some (Errorf "coresight: ROM entry: %w" [e]))
            | None => mret (entry, None)
            end
        end
    end.

(** ** Walks *)

Record WalkLimits := mkLimits { MaxDepth : Z; MaxComponents : Z; MaxEntries : Z }.

Definition Validate (l : WalkLimits) : err :=
  if (MaxDepth l <? 0) || (MaxComponents l <=? 0) || (MaxEntries l <=? 0)
  then Some (New "coresight: require nonnegative depth and positive component and entry limits")
  else None.

Record Visit := mkVisit {
  Parent : Z;
  VIndex : Z;
  Entry : ROMEntry;
  VComponent : option Component;
  VErr : err
}.

Record walkFrame := mkFrame { table : ROMTable; parent : Z; next_ : Z; depth : Z }.

(** The stack's top is the head of the list. *)
Record walker := mkWalker {
  wctx : context;
  limits : WalkLimits;
  entries : Z;
  visits : list Visit;
  stack : list walkFrame;
  seen : list Z;
  skipped : list error
}.

Record WSt := mkWSt { wlk : walker; wworld : W }.

Abbreviation WM := (GoM WSt).

Definition wget {A} (f : walker -> A) : WM A := gets (fun s => f (wlk s)).
Definition wmod (f : walker -> walker) : WM unit := modify (fun s => mkWSt (f (wlk s)) (wworld s)).
Definition reading {A} (m : M A) : WM A := fun s =>
  match m (wworld s) with
  | Done (a, w) => Done (a, mkWSt (wlk s) w)
  | Panicked => Panicked
  | OutOfFuel => OutOfFuel
  end.

Definition set_entries x w := mkWalker (wctx w) (limits w) x (visits w) (stack w) (seen w) (skipped w).
Definition set_visits x w := mkWalker (wctx w) (limits w) (entries w) x (stack w) (seen w) (skipped w).
Definition set_stack x w := mkWalker (wctx w) (limits w) (entries w) (visits w) x (seen w) (skipped w).
Definition set_seen x w := mkWalker (wctx w) (limits w) (entries w) (visits w) (stack w) x (skipped w).
Definition set_skipped x w := mkWalker (wctx w) (limits w) (entries w) (visits w) (stack w) (seen w) x.

Definition set_component (c : Component) (v : Visit) : Visit := mkVisit (Parent v) (VIndex v) (Entry v) (Some c) (VErr v).
Definition set_verr (e : err) (v : Visit) : Visit := mkVisit (Parent v) (VIndex v) (Entry v) (VComponent v) e.

Definition identify (base index depth : Z) : WM err :=
  known ← wget seen;
  if bool_decide (base ∈ known) then mret (Some (Errorf "%w" [Sentinel coresight_ErrRepeatedTable]))
  else
    ctx ← wget wctx;
    '(component, e) ← reading (Identify ctx true base);
    match e with
    | Some e => mret (Some e)
    | None =>
        wmod (fun w => set_visits (alter (set_component component) (Z.to_nat index) (visits w)) w);;
        let '(tbl, e) := ROMTable_ component in
        if errors_Is e coresight_ErrNotROMTable then mret None
        else match e with
             | Some e => mret (Some (Errorf "coresight: table: %w" [e]))
             | None =>
                 wmod (fun w => set_stack (mkFrame tbl index 0 depth :: stack w) (set_seen (base :: seen w) w));;
                 mret None
             end
    end.

Definition inspect (base : Z) (visit : Visit) (depth : Z) : WM err :=
  l ← wget limits; vs ← wget visits;
  if (MaxDepth l <? depth) || (len vs =? MaxComponents l)
  then mret (Some (Errorf "%w: component" [Sentinel coresight_ErrWalkLimit]))
  else
    let index := len vs in
    wmod (set_visits (vs ++ [visit]));;
    if PowerIDValid (Entry visit) then
      let e := Errorf "component power ID: %w" [Sentinel coresight_ErrPowerDomain] in
      wmod (fun w => set_skipped (skipped w ++ [e])
        (set_visits (alter (set_verr (Some e)) (Z.to_nat index) (visits w)) w));;
      mret None
    else
      e ← identify base index depth;
      (match e with
       | Some e => wmod (fun w => set_visits (alter (set_verr (Some e)) (Z.to_nat index) (visits w)) w)
       | None => mret tt
       end);;
      mret e.

(** [next] is called only with a frame on the stack. *)
Definition next : WM err :=
  ctx ← wget wctx;
  e ← reading (ctxErr ctx);
  match e with
  | Some e => mret (Some (Sentinel (context_Err e)))
  | None =>
      st ← wget stack;
      match st with
      | [] => panic
      | frame :: rest =>
          if next_ frame =? EntryCount (table frame) then wmod (set_stack rest);; mret None
          else
            n ← wget entries; l ← wget limits;
            if n =? MaxEntries l
            then mret (Some (Errorf "%w: entries" [Sentinel coresight_ErrWalkLimit]))
            else
              wmod (set_entries (n + 1));;
              '(entry, e) ← reading (ReadEntry (table frame) ctx true (next_ frame));
              match e with
              | Some e => mret (Some e)
              | None =>
                  wmod (set_stack (mkFrame (table frame) (parent frame) (next_ frame + 1) (depth frame) :: rest));;
                  if End_ entry then wmod (set_stack rest);; mret None
                  else if negb (Present entry) then mret None
                  else inspect (EBase entry) (mkVisit (parent frame) (next_ frame) entry None None) (depth frame + 1)
              end
      end
  end.

Fixpoint walk_loop (fuel : nat) (e : err) : WM err :=
  st ← wget stack;
  if negb (is_nil e) || bool_decide (st = []) then mret e
  else match fuel with
       | O => out_of_fuel
       | S fuel => e ← next; walk_loop fuel e
       end.

(** Each turn pops a frame or reads an entry, and a read pushes at most one. *)
Definition walk_fuel (l : WalkLimits) : nat := Z.to_nat (2 * MaxEntries l + 2).

Definition Walk (ctx : context) (reader : bool) (base : Z) (l : WalkLimits) : M (list Visit * err) :=
  match Validate l with
  | Some e => mret ([], Some e)
  | None =>
      if ctx_nil ctx || negb reader || negb (Z.land base 0xfff =? 0)
      then mret ([], Some (New "coresight: invalid walk context, reader, or root address"))
      else
        e ← ctxErr ctx;
        match e with
        | Some e => mret ([], Some (Sentinel (context_Err e)))
        | None => fun w =>
            match (e ← inspect base (mkVisit (-1) (-1) zeroEntry None None) 0; walk_loop (walk_fuel l) e)
                    (mkWSt (mkWalker ctx l 0 [] [] [] []) w) with
            | Done (e, s) => Done ((visits (wlk s), errors_Join (map Some (skipped (wlk s)) ++ [e])), wworld s)
            | Panicked => Panicked
            | OutOfFuel => OutOfFuel
            end
        end
  end.
End Reads.
Arguments WSt W : clear implicits.
