(* ===== verification/CoreSightFacts.v ===== *)
(** * Facts about ROM tables, identification and walks

    Exactness of the entry address arithmetic, what the reads of an
    identification assemble, and the loop invariant of a walk. *)

From S2P Require Import Prelude Go CoreSight.
Local Open Scope Z_scope.

(** ** Entry addresses *)

(** An [n]-bit two's complement field. *)
Definition signed (n x : Z) : Z := if x <? 2 ^ (n - 1) then x else x - 2 ^ n.

(** Entry width in bits, and the signed page offset the entry holds. *)
Definition width (t : ROMTable) : Z := 8 * stride t.
Definition page_offset (t : ROMTable) (raw : Z) : Z := 4096 * signed (width t - 12) (raw / 4096).

(** What [ROMTable_] builds. *)
Definition table_wf (t : ROMTable) : Prop :=
  (0 <= tbase t < 2 ^ 64) /\ tbase t mod 4096 = 0 /\
  ((class t = 1 /\ count t = 960 /\ stride t = 4) \/
   (class t = 9 /\ count t = 512 /\ stride t = 4) \/
   (class t = 9 /\ count t = 256 /\ stride t = 8)).

Lemma land_fff x : Z.land x 0xfff = x mod 4096.
Proof. change 0xfff with (Z.ones 12). by rewrite Z.land_ones. Qed.

Lemma and_not_fff x : and_not x 0xfff = 4096 * (x / 4096).
Proof.
  unfold and_not. change 0xfff with (Z.ones 12).
  rewrite Z.ldiff_ones_r, Z.shiftl_mul_pow2, Z.shiftr_div_pow2 by lia.
  change (2 ^ 12) with 4096. lia.
Qed.

Lemma offset_of_raw t raw :
  (stride t = 4 \/ stride t = 8) -> 0 <= raw < 2 ^ width t ->
  (if stride t =? 4 then int32 (and_not raw 0xfff) else int64 (and_not raw 0xfff)) = page_offset t raw.
Proof.
  unfold width, page_offset, signed, width. intros [E|E] Hr; rewrite E in *; simpl Z.eqb; cbv iota; rewrite and_not_fff.
  - unfold int32. pose proof (Z.div_mod raw 4096 ltac:(lia)) as D.
    pose proof (Z.mod_pos_bound raw 4096 ltac:(lia)).
    change (8 * 4) with 32 in *. change (32 - 12) with 20. change (20 - 1) with 19.
    rewrite uint32_small by lia.
    change (2 ^ 32) with (4096 * 2 ^ 20) in *. change (2 ^ 31) with (4096 * 2 ^ 19) in *.
    destruct (Z.ltb_spec (4096 * (raw / 4096)) (4096 * 2 ^ 19)), (Z.ltb_spec (raw / 4096) (2 ^ 19)); lia.
  - unfold int64. change (8 * 8 - 12 - 1) with 51. change (8 * 8 - 12) with 52.
    change (2 ^ 63) with (4096 * 2 ^ 51). change (2 ^ 64) with (4096 * 2 ^ 52).
    destruct (Z.ltb_spec (4096 * (raw / 4096)) (4096 * 2 ^ 51)), (Z.ltb_spec (raw / 4096) (2 ^ 51)); lia.
Qed.

Lemma page_offset_range t raw :
  (stride t = 4 \/ stride t = 8) -> 0 <= raw < 2 ^ width t ->
  - 2 ^ 63 <= page_offset t raw < 2 ^ 63.
Proof.
  unfold page_offset, signed, width. intros [E|E] Hr; rewrite E in *.
  - change (8 * 4 - 12 - 1) with 19. change (8 * 4 - 12) with 20. change (8 * 4) with 32 in Hr.
    assert (0 <= raw / 4096 < 2 ^ 20) by
      (split; [apply Z.div_pos; lia|apply Z.div_lt_upper_bound; lia]).
    destruct (Z.ltb_spec (raw / 4096) (2 ^ 19)); lia.
  - change (8 * 8 - 12 - 1) with 51. change (8 * 8 - 12) with 52. change (8 * 8) with 64 in Hr.
    assert (0 <= raw / 4096 < 2 ^ 52) by
      (split; [apply Z.div_pos; lia|apply Z.div_lt_upper_bound; lia]).
    destruct (Z.ltb_spec (raw / 4096) (2 ^ 51)); lia.
Qed.

(** The wrap-around tests of [entryBase] are exact. *)
Lemma entryBase_spec t raw b :
  (stride t = 4 \/ stride t = 8) -> 0 <= tbase t < 2 ^ 64 -> 0 <= raw < 2 ^ width t ->
  (exists e, entryBase t raw = (b, e) /\ e = None) <->
  b = tbase t + page_offset t raw /\ page_offset t raw <> 0 /\ 0 <= b < 2 ^ 64.
Proof.
  intros Hs Hb Hr. unfold entryBase. rewrite offset_of_raw by done.
  pose proof (page_offset_range t raw Hs Hr) as Ho. set (o := page_offset t raw) in *. clearbody o.
  assert (uint64 (tbase t + uint64 o) = (tbase t + o) mod 2 ^ 64) as ->.
  { unfold uint64. by rewrite Zplus_mod_idemp_r. }
  assert ((tbase t + o) mod 2 ^ 64 =
          if tbase t + o <? 0 then tbase t + o + 2 ^ 64
          else if tbase t + o <? 2 ^ 64 then tbase t + o else tbase t + o - 2 ^ 64) as ->.
  { destruct (Z.ltb_spec (tbase t + o) 0); [|destruct (Z.ltb_spec (tbase t + o) (2 ^ 64))].
    - symmetry. apply (Z.mod_unique _ _ (-1)); lia.
    - apply Z.mod_small. lia.
    - symmetry. apply (Z.mod_unique _ _ 1); lia. }
  destruct (Z.eqb_spec o 0), (Z.ltb_spec 0 o), (Z.ltb_spec o 0); try lia; simpl;
    destruct (Z.ltb_spec (tbase t + o) 0), (Z.ltb_spec (tbase t + o) (2 ^ 64)); try lia; zcmp;
    split; intros Hx; repeat destruct Hx as (? & Hx); try (exfalso; first [congruence|lia]);
    try (eexists; split; [|reflexivity]; f_equal; lia);
    try (match goal with E : (_, _) = (_, _) |- _ => injection E as <- <- end); lia.
Qed.

(** ** Entry encodings *)

Lemma any_bits_lor x a b : any_bits x (Z.lor a b) = any_bits x a || any_bits x b.
Proof.
  unfold any_bits. rewrite Z.land_lor_distr_r, <- negb_andb. f_equal.
  destruct (Z.eqb_spec (Z.land x a) 0) as [Ea|Ea], (Z.eqb_spec (Z.land x b) 0) as [Eb|Eb];
    destruct (Z.eqb_spec (Z.lor (Z.land x a) (Z.land x b)) 0) as [Ec|Ec]; try done;
    try (apply Z.lor_eq_0_iff in Ec; tauto); exfalso; apply Ec; rewrite Ea, Eb; done.
Qed.

Lemma any_bits_bits x l :
  Forall (fun i => 0 <= i) l ->
  any_bits x (foldr (fun i m => Z.lor (2 ^ i) m) 0 l) = existsb (Z.testbit x) l.
Proof.
  induction 1 as [|i l Hi _ IH]; simpl.
  - unfold any_bits. by rewrite Z.land_0_r.
  - by rewrite any_bits_lor, any_bits_bit, IH.
Qed.

(** The reserved bits of an entry: bits 3 and 9 to 11 always, and the power
    identifier when it is not valid. *)
Definition reserved_bits (raw : Z) : bool :=
  existsb (Z.testbit raw) [3; 9; 10; 11] ||
  (negb (Z.testbit raw 2) && existsb (Z.testbit raw) [4; 5; 6; 7; 8]).

Lemma reserved_any raw :
  any_bits raw 0xe08 || ((Z.land raw 4 =? 0) && any_bits raw 0x1f0) = reserved_bits raw.
Proof.
  unfold reserved_bits. rewrite <- !any_bits_bits by (repeat constructor; lia).
  rewrite <- any_bits_bit by lia. unfold any_bits at 4. rewrite negb_involutive. done.
Qed.

(** The low bits of an entry, as the code tests them. *)
Lemma low_bits raw :
  (Z.land raw 2 =? 0) = negb (Z.testbit raw 1) /\
  any_bits raw 1 = Z.testbit raw 0 /\
  any_bits raw 4 = Z.testbit raw 2 /\
  Z.land raw 3 = Z.b2z (Z.testbit raw 0) + 2 * Z.b2z (Z.testbit raw 1).
Proof.
  change 1 with (2 ^ 0) at 2. change 4 with (2 ^ 2). rewrite !any_bits_bit by lia.
  split; [|split; [done|split; [done|]]].
  - change 2 with (2 ^ 1). rewrite <- (any_bits_bit raw 1) by lia.
    unfold any_bits. by rewrite negb_involutive.
  - change 3 with (Z.ones 2). rewrite Z.land_ones by lia. change (2 ^ 2) with (2 * 2).
    rewrite Z.rem_mul_r, !Z.testbit_spec' by lia. change (2 ^ 0) with 1. rewrite Z.div_1_r. done.
Qed.

(** An entry that [decode] refuses, and why. *)
Definition refused_entry (t : ROMTable) (raw : Z) : Prop :=
  raw <> 0 /\
  (Z.testbit raw 1 = false \/
   (~ (class t = 9 /\ Z.testbit raw 0 = false) /\
    (reserved_bits raw = true \/
     Z.testbit raw 0 = true /\
     (page_offset t raw = 0 \/ ~ (0 <= tbase t + page_offset t raw < 2 ^ 64))))).

Definition present_entry (t : ROMTable) (raw : Z) (e : ROMEntry) : Prop :=
  EBase e = tbase t + page_offset t raw /\ 0 <= EBase e < 2 ^ 64 /\
  EBase e mod 4096 = 0 /\ EBase e <> tbase t /\
  PowerIDValid e = Z.testbit raw 2 /\ PowerID e = (raw / 16) mod 32 /\
  (PowerIDValid e = false -> PowerID e = 0).

Definition decoded_entry (t : ROMTable) (raw : Z) (e : ROMEntry) : Prop :=
  Raw e = raw /\ End_ e = (raw =? 0) /\
  Present e = Z.testbit raw 0 && Z.testbit raw 1 /\
  (if Present e then present_entry t raw e
   else EBase e = 0 /\ PowerID e = 0 /\ PowerIDValid e = false).

Lemma power_field raw : uint8 (Z.land (Z.shiftr raw 4) 0x1f) = (raw / 16) mod 32.
Proof.
  change 0x1f with (Z.ones 5). rewrite Z.land_ones, Z.shiftr_div_pow2 by lia.
  change (2 ^ 4) with 16. change (2 ^ 5) with 32. unfold uint8. change (2 ^ 8) with 256.
  pose proof (Z.mod_pos_bound (raw / 16) 32 ltac:(lia)). apply Z.mod_small. lia.
Qed.

Lemma power_field_zero raw :
  reserved_bits raw = false -> Z.testbit raw 2 = false -> (raw / 16) mod 32 = 0.
Proof.
  unfold reserved_bits. intros Hr H2. rewrite H2 in Hr.
  apply orb_false_iff in Hr as [_ Hr]. simpl in Hr. rewrite !orb_false_iff in Hr.
  destruct Hr as (B4 & B5 & B6 & B7 & B8 & _).
  change 32 with (2 ^ 5). apply Z.bits_inj'. intros n Hn. rewrite Z.bits_0.
  destruct (Z.lt_ge_cases n 5).
  - rewrite Z.mod_pow2_bits_low by lia. change 16 with (2 ^ 4). rewrite Z.div_pow2_bits by lia.
    assert (n = 0 \/ n = 1 \/ n = 2 \/ n = 3 \/ n = 4) as Hc by lia; destruct Hc as [Hc|[Hc|[Hc|[Hc|Hc]]]]; rewrite Hc; assumption.
  - apply Z.mod_pow2_bits_high. lia.
Qed.

Lemma page_offset_aligned t raw : tbase t mod 4096 = 0 -> (tbase t + page_offset t raw) mod 4096 = 0.
Proof.
  intros Ht. unfold page_offset. rewrite Z.add_mod, Ht by lia.
  rewrite Z.mul_comm, Z.mod_mul by lia. done.
Qed.

Lemma decode_spec t raw :
  table_wf t -> 0 <= raw < 2 ^ width t ->
  match decode t raw with
  | (e, None) => decoded_entry t raw e /\ ~ refused_entry t raw
  | (e, Some _) => e = zeroEntry /\ refused_entry t raw
  end.
Proof.
  intros (Hb & Ha & Hk) Hr.
  assert (stride t = 4 \/ stride t = 8) as Hs by tauto.
  assert (class t = 1 \/ class t = 9) as Hc by tauto.
  unfold decode, decoded_entry, refused_entry.
  destruct (low_bits raw) as (E2 & E1 & E4 & E3). rewrite E2, E3, E1, reserved_any, E4.
  destruct (Z.eqb_spec raw 0) as [->|Hz].
  { split; [repeat split|]. intros [Hz _]. by apply Hz. }
  destruct (entryBase t raw) as [b [eb|]] eqn:Eb.
  - (* refused address *)
    assert (~ (page_offset t raw <> 0 /\ 0 <= tbase t + page_offset t raw < 2 ^ 64)) as Hbad.
    { intros [Ho Hin].
      destruct (proj2 (entryBase_spec t raw (tbase t + page_offset t raw) Hs Hb Hr)) as (e & He & ->);
        [done|congruence]. }
    assert (page_offset t raw = 0 \/ ~ (0 <= tbase t + page_offset t raw < 2 ^ 64)) as Hbad' by lia.
    destruct (Z.testbit raw 0) eqn:B0, (Z.testbit raw 1) eqn:B1, Hc as [Hc|Hc], (reserved_bits raw) eqn:R; rewrite Hc; simpl;
      intuition (simpl; try congruence; try lia).
  - destruct (proj1 (entryBase_spec t raw b Hs Hb Hr) (ex_intro _ None (conj Eb eq_refl))) as (Hbe & Ho & Hin).
    assert (b mod 4096 = 0) as Hal by (rewrite Hbe; by apply page_offset_aligned).
    assert (b <> tbase t) as Hne by lia.
    destruct (Z.testbit raw 0) eqn:B0, (Z.testbit raw 1) eqn:B1, Hc as [Hc|Hc], (reserved_bits raw) eqn:R; rewrite Hc; simpl;
      unfold present_entry; simpl; rewrite ?power_field;
      intuition (simpl; try congruence; try lia; try (by apply power_field_zero)).
Qed.

(** ** Reads *)

(** Bytes assembled least significant first. *)
Fixpoint assemble (words : list Z) : Z :=
  match words with
  | [] => 0
  | w :: words => w mod 256 + 256 * assemble words
  end.

Lemma assemble_range words : 0 <= assemble words < 2 ^ (8 * len words).
Proof.
  induction words as [|w words IH]; [done|]. cbn [assemble].
  replace (8 * len (w :: words)) with (8 + 8 * len words) by (unfold len; simpl length; lia).
  rewrite Z.pow_add_r by (pose proof (len_nonneg words); lia). change (2 ^ 8) with 256.
  pose proof (Z.mod_pos_bound w 256 ltac:(lia)). nia.
Qed.

Lemma lor_disjoint a b k : 0 <= k -> 0 <= a < 2 ^ k -> Z.lor a (b * 2 ^ k) = a + b * 2 ^ k.
Proof.
  intros Hk Ha. rewrite <- Z.lxor_lor, Z.add_nocarry_lxor; [done| |].
  all: apply Z.bits_inj'; intros n Hn; rewrite Z.land_spec, Z.bits_0;
    destruct (Z.lt_ge_cases n k);
    [rewrite Z.mul_pow2_bits_low by lia; apply andb_false_r
    |rewrite (testbit_high a k n) by lia; done].
Qed.

Section Reading.
Context {W : Type} `{Env W} `{Reader W}.

(** [R a v]: a read of address [a] that succeeds may answer [v]. *)
Variable R : Z -> Z -> Prop.
Hypothesis answers : forall ctx a w v w', ReadScalar ctx a Size32 w = ((v, None), w') -> R a v.

Definition word_of (a : Z) (r : Z * err) : Prop :=
  match r with
  | (word, None) => exists v, R a v /\ word = uint32 v
  | (word, Some _) => word = 0
  end.

Lemma wp_rom_ctxErr ctx (Q : option ctxError -> W -> Prop) w :
  ctx_nil ctx = false -> (forall e w', Q e w') -> wp (ctxErr ctx) Q w.
Proof.
  intros Hc HQ. unfold wp, ctxErr. rewrite Hc. destruct (ctx_Err ctx w) as [e w']. apply HQ.
Qed.

Lemma wp_readWord ctx a (Q : Z * err -> W -> Prop) w :
  ctx_nil ctx = false -> (forall r w', word_of a r -> Q r w') -> wp (readWord ctx a) Q w.
Proof.
  intros Hc HQ. unfold readWord. wp_step. apply wp_rom_ctxErr; [done|]. intros e w1.
  destruct e as [e|]; [by apply wp_ret, HQ|].
  unfold wp. destruct (ReadScalar ctx a Size32 w1) as [[v [e|]] w2] eqn:E; apply HQ; [done|].
  exists v. split; [|done]. eapply answers, E.
Qed.

(** The identification registers at [offsets] of the page at [base]. *)
Definition id_words (base : Z) (offsets words : list Z) : Prop :=
  Forall2 (fun offset v => R (base + offset) v) offsets words.

Lemma wp_readID_loop ctx base offsets (Q : Z * err -> W -> Prop) : forall i id w,
  ctx_nil ctx = false -> 0 <= base -> Forall (fun o => 0 <= o /\ base + o < 2 ^ 64) offsets ->
  0 <= i -> i + len offsets <= 8 -> 0 <= id < 2 ^ (8 * i) ->
  (forall words w', id_words base offsets words -> Q (id + assemble words * 2 ^ (8 * i), None) w') ->
  (forall e w', Q (0, Some e) w') ->
  wp (readID_loop ctx base offsets i id) Q w.
Proof.
  induction offsets as [|o offsets IH]; intros i id w Hc Hb Ho Hi Hn Hid HQ HF; cbn [readID_loop].
  - wp_step. replace id with (id + assemble [] * 2 ^ (8 * i)) by (simpl; lia). apply HQ. constructor.
  - inversion Ho as [|? ? [Ho1 Ho2] Ho3]; subst. wp_step. apply wp_readWord; [done|].
    intros [word [e|]] w1 Hw; cbn beta iota; [apply wp_ret, HF|].
    destruct Hw as (v & Hv & ->). rewrite uint64_small in Hv by lia.
    assert (len (o :: offsets) = 1 + len offsets) as Hl by (unfold len; simpl length; lia).
    pose proof (len_nonneg offsets).
    assert (Z.land (uint32 v) 0xff = v mod 256) as ->.
    { change 0xff with (Z.ones 8). rewrite Z.land_ones by lia. unfold uint32.
      apply Z.bits_inj'. intros n Hn'. destruct (Z.lt_ge_cases n 8).
      - change 256 with (2 ^ 8). rewrite !Z.mod_pow2_bits_low by lia. done.
      - change 256 with (2 ^ 8). rewrite !Z.mod_pow2_bits_high by lia. done. }
    pose proof (Z.mod_pos_bound v 256 ltac:(lia)) as Hm.
    assert (0 < 2 ^ (8 * i)) by (apply Z.pow_pos_nonneg; lia).
    assert (2 ^ (8 * (i + 1)) = 256 * 2 ^ (8 * i)) as Hp.
    { replace (8 * (i + 1)) with (8 + 8 * i) by lia. by rewrite Z.pow_add_r by lia. }
    assert (2 ^ (8 * (i + 1)) <= 2 ^ 64) by (apply Z.pow_le_mono_r; lia).
    rewrite Z.shiftl_mul_pow2 by lia. rewrite uint64_small by nia.
    rewrite lor_disjoint by lia.
    apply IH; [done|done|done|lia|lia|nia| |apply HF].
    intros words w' Hw. replace (id + v mod 256 * 2 ^ (8 * i) + assemble words * 2 ^ (8 * (i + 1)))
      with (id + assemble (v :: words) * 2 ^ (8 * i)) by (cbn [assemble]; rewrite Hp; ring).
    apply HQ. constructor; done.
Qed.

Definition cidr_offsets : list Z := [0xff0; 0xff4; 0xff8; 0xffc].
Definition pidr_offsets : list Z := [0xfe0; 0xfe4; 0xfe8; 0xfec; 0xfd0; 0xfd4; 0xfd8; 0xfdc].

(** The snapshot of the component whose registers end the page at [base]. *)
Record identified (base : Z) (c : Component) : Prop := {
  id_base : Base c = base;
  id_aligned : base mod 4096 = 0;
  id_preamble : Z.land (CIDR c) 0xffff0fff = 0xb105000d;
  id_cidr : exists words, id_words base cidr_offsets words /\ CIDR c = assemble words;
  id_pidr : exists words, id_words base pidr_offsets words /\ PIDR c = assemble words;
  id_device : Class_ c = 9 -> exists arch id type,
    R (base + 0xfbc) arch /\ R (base + 0xfc8) id /\ R (base + 0xfcc) type /\
    DEVARCH c = uint32 arch /\ DEVID c = uint32 id /\ DEVTYPE c = uint8 type;
  id_other : Class_ c <> 9 -> DEVARCH c = 0 /\ DEVID c = 0 /\ DEVTYPE c = 0
}.

Definition identify_post (base : Z) (r : Component * err) : Prop :=
  match r with
  | (c, None) => identified base c
  | (c, Some _) => c = zeroComponent
  end.

Lemma uint8_uint32 v : uint8 (uint32 v) = uint8 v.
Proof.
  unfold uint8, uint32. change (2 ^ 32) with (2 ^ 8 * 2 ^ 24).
  rewrite Z.rem_mul_r by lia. rewrite (Z.mul_comm (2 ^ 8) (_ mod _)), Z.mod_add, Z.mod_mod by lia. done.
Qed.

Lemma page_room base o : 0 <= base < 2 ^ 64 -> base mod 4096 = 0 -> o < 4096 -> base + o < 2 ^ 64.
Proof. intros Hb Ha Ho. pose proof (Z.div_mod base 4096 ltac:(lia)). lia. Qed.

Lemma wp_readID ctx base offsets (Q : Z * err -> W -> Prop) w :
  ctx_nil ctx = false -> 0 <= base < 2 ^ 64 -> base mod 4096 = 0 ->
  Forall (fun o => 0 <= o < 4096) offsets -> len offsets <= 8 ->
  (forall words w', id_words base offsets words -> Q (assemble words, None) w') ->
  (forall e w', Q (0, Some e) w') ->
  wp (readID ctx base offsets) Q w.
Proof.
  intros Hc Hb Ha Ho Hl HQ HF. unfold readID. apply wp_readID_loop; [done|lia| |lia|lia|lia| |apply HF].
  - eapply Forall_impl; [exact Ho|]. intros o [H1 H2]. split; [lia|]. by apply page_room.
  - intros words w' Hw. replace (0 + assemble words * 2 ^ (8 * 0)) with (assemble words) by (simpl; lia).
    by apply HQ.
Qed.

Lemma wp_readDevice ctx c (Q : Component * err -> W -> Prop) w :
  ctx_nil ctx = false -> 0 <= Base c < 2 ^ 64 -> Base c mod 4096 = 0 ->
  (forall arch id type w', R (Base c + 0xfbc) arch -> R (Base c + 0xfc8) id -> R (Base c + 0xfcc) type ->
     Q (mkComponent (Base c) (CIDR c) (PIDR c) (uint32 arch) (uint32 id) (uint8 type), None) w') ->
  (forall c' e w', Q (c', Some e) w') ->
  wp (readDevice ctx c) Q w.
Proof.
  intros Hc Hb Ha HQ HF. unfold readDevice.
  pose proof (fun o => page_room (Base c) o Hb Ha) as Hroom.
  rewrite !uint64_small by (split; [lia|apply Hroom; lia]).
  wp_step. apply wp_readWord; [done|]. intros [arch [e|]] w1 Hw1; cbn beta iota; [apply wp_ret, HF|].
  wp_step. apply wp_readWord; [done|]. intros [id [e|]] w2 Hw2; cbn beta iota; [apply wp_ret, HF|].
  wp_step. apply wp_readWord; [done|]. intros [type [e|]] w3 Hw3; cbn beta iota; [apply wp_ret, HF|].
  destruct Hw1 as (v1 & H1 & ->), Hw2 as (v2 & H2 & ->), Hw3 as (v3 & H3 & ->).
  wp_step. rewrite uint8_uint32. by apply HQ.
Qed.

Lemma Identify_spec ctx reader base w :
  0 <= base < 2 ^ 64 ->
  wp (Identify ctx reader base) (fun r _ => identify_post base r) w.
Proof.
  intros Hb. unfold Identify.
  destruct (ctx_nil ctx) eqn:Hc; [by apply wp_ret|].
  destruct reader; simpl negb; cbv iota; [|by apply wp_ret].
  rewrite land_fff. destruct (Z.eqb_spec (base mod 4096) 0) as [Ha|]; simpl negb; cbv iota; [|by apply wp_ret].
  wp_step. apply wp_rom_ctxErr; [done|]. intros [e|] w1; [by apply wp_ret|].
  wp_step. apply wp_readID; [done|done|done|repeat constructor; lia|done| |intros; by apply wp_ret].
  intros cw w2 Hcw; cbn beta iota.
  assert (uint32 (assemble cw) = assemble cw) as ->.
  { apply uint32_small. pose proof (assemble_range cw) as Hr. apply Forall2_length in Hcw.
    unfold len in Hr. rewrite <- Hcw in Hr. exact Hr. }
  destruct (Z.eqb_spec (Z.land (assemble cw) 0xffff0fff) 0xb105000d) as [Hp|]; simpl negb; cbv iota; [|by apply wp_ret].
  wp_step. apply wp_readID; [done|done|done|repeat constructor; lia|done| |intros; by apply wp_ret].
  intros pw w3 Hpw; cbn beta iota zeta.
  set (c := mkComponent base (assemble cw) (assemble pw) 0 0 0).
  destruct (Z.eqb_spec (Class_ c) 9) as [H9|H9].
  - wp_step. apply wp_readDevice; [done|done|done| |intros; by apply wp_ret].
    intros arch id type w4 H1 H2 H3; cbn beta iota. wp_step. constructor; simpl; eauto 10. done.
  - wp_step. constructor; simpl; eauto. done.
Qed.

(** An entry read in range decodes the table's words. *)
Definition entry_raw (t : ROMTable) (index raw : Z) : Prop :=
  let address := tbase t + index * stride t in
  if stride t =? 8
  then exists lo hi, R address lo /\ R (address + 4) hi /\ raw = uint32 lo + uint32 hi * 2 ^ 32
  else exists lo, R address lo /\ raw = uint32 lo.

Definition entry_post (t : ROMTable) (index : Z) (r : ROMEntry * err) : Prop :=
  match r with
  | (e, None) => 0 <= index < count t /\ exists raw, entry_raw t index raw /\ decode t raw = (e, None)
  | (e, Some _) => e = zeroEntry
  end.

Lemma ReadEntry_spec t ctx reader index w :
  table_wf t -> wp (ReadEntry t ctx reader index) (fun r _ => entry_post t index r) w.
Proof.
  intros (Hb & Ha & Hk). unfold ReadEntry.
  destruct (ctx_nil ctx) eqn:Hc; simpl orb; cbv iota; [by apply wp_ret|].
  destruct reader; simpl negb; cbv iota; [|by apply wp_ret].
  destruct (Z.ltb_spec index 0); simpl orb; cbv iota; [by apply wp_ret|].
  destruct (Z.leb_spec (count t) index); cbv iota; [by apply wp_ret|].
  pose proof (page_room (tbase t) (index * stride t + 4) Hb Ha) as Hroom.
  assert (0 <= index * stride t <= 0xefc) by (destruct Hk as [(_ & Hn & Hs)|[(_ & Hn & Hs)|(_ & Hn & Hs)]]; rewrite Hs; lia).
  rewrite (uint64_small (index * stride t)) by lia.
  rewrite !uint64_small by (rewrite ?uint64_small; lia).
  wp_step. apply wp_readWord; [done|]. intros [lo [e|]] w1 Hlo; cbn beta iota; [by apply wp_ret|].
  destruct Hlo as (vl & Hl & ->). wp_step.
  assert (forall raw w, entry_raw t index raw ->
    wp (let '(entry, e) := decode t raw in match e return GoM W (ROMEntry * err) with
        | Some e => mret (zeroEntry, Some (Errorf "coresight: ROM entry: %w" [e]))
        | None => mret (entry, None) end) (fun r _ => entry_post t index r) w) as Hfin.
  { intros raw w' Hr. destruct (decode t raw) as [en [e|]] eqn:E; apply wp_ret; [done|].
    split; [lia|]. eauto. }
  unfold entry_raw in Hfin. destruct (stride t =? 8).
  - wp_step. apply wp_readWord; [done|]. intros [hi e] w2 Hhi; cbn beta iota. apply wp_ret. cbn beta iota.
    destruct e as [e|]; [by apply wp_ret|]. destruct Hhi as (vh & Hh & ->).
    apply Hfin. exists vl, vh. split; [done|split; [done|]].
    pose proof (uint32_range vl). pose proof (uint32_range vh).
    rewrite Z.shiftl_mul_pow2 by lia. rewrite uint64_small by lia. by apply lor_disjoint.
  - apply wp_ret. cbn beta iota. apply Hfin. eauto.
Qed.
End Reading.

(** * The ROM walk follows the tables depth first

    [explores] describes recursively what a walk must list; the loop over the
    explicit stack is related to it, together with the bounds every walk keeps. *)

Lemma alter_last {A} (f : A -> A) (l : list A) x : alter f (Z.to_nat (len l)) (l ++ [x]) = l ++ [f x].
Proof.
  unfold len. rewrite Nat2Z.id. replace (length l) with (length l + 0)%nat by lia.
  by rewrite alter_app_r.
Qed.

Lemma len_singleton {A} (x : A) : len [x] = 1.
Proof. done. Qed.

Lemma ROMTable_wf c t :
  0 <= Base c < 2 ^ 64 -> ROMTable_ c = (t, None) -> table_wf t /\ tbase t = Base c.
Proof.
  intros Hb. unfold ROMTable_. rewrite land_fff.
  destruct (Z.eqb_spec (Base c mod 4096) 0) as [Ha|]; [|done].
  destruct (Z.land (CIDR c) _ =? _); [|done]. simpl.
  destruct (Z.eqb_spec (Class_ c) 1) as [H1|]; [intros [= <-]; split; [|done]; split; [done|]; tauto|].
  destruct (Architecture_ c) as [arch present] eqn:EA. destruct present; [|done].
  assert (Class_ c = 9) as H9.
  { unfold Architecture_ in EA. destruct (Z.eqb_spec (Class_ c) 9); [done|]. simpl in EA. congruence. }
  destruct (negb true || _ || _); [done|]. destruct (_ || _); [done|].
  destruct (_ =? 1); intros [= <-]; (split; [|done]); split; try done; simpl; tauto.
Qed.

(** ** The recursive description *)

Definition skip_error : error := Errorf "component power ID: %w" [Sentinel coresight_ErrPowerDomain].

Section Explore.
Variable R : Z -> Z -> Prop.

(** [explores base v n seen seen' out]: visiting the component at [base],
    recorded as [v] with index [n], lists [out] and has met the tables [seen'].
    [explores_entries t own i n seen seen' out]: the same for the entries of
    table [t] from [i] on, [own] being the index of its visit. *)
Inductive explores : Z -> Visit -> Z -> list Z -> list Z -> list Visit -> Prop :=
| explore_skipped base v n seen :
    PowerIDValid (Entry v) = true ->
    explores base v n seen seen [set_verr (Some skip_error) v]
| explore_leaf base v n seen c :
    PowerIDValid (Entry v) = false -> base ∉ seen -> identified R base c ->
    errors_Is (snd (ROMTable_ c)) coresight_ErrNotROMTable = true ->
    explores base v n seen seen [set_component c v]
| explore_table base v n seen c t seen' out :
    PowerIDValid (Entry v) = false -> base ∉ seen -> identified R base c ->
    ROMTable_ c = (t, None) ->
    explores_entries t n 0 (n + 1) (base :: seen) seen' out ->
    explores base v n seen seen' (set_component c v :: out)
with explores_entries : ROMTable -> Z -> Z -> Z -> list Z -> list Z -> list Visit -> Prop :=
| entries_exhausted t own n seen :
    explores_entries t own (count t) n seen seen []
| entries_end t own i n seen raw e :
    0 <= i < count t -> entry_raw R t i raw -> decode t raw = (e, None) -> End_ e = true ->
    explores_entries t own i n seen seen []
| entries_absent t own i n seen seen' raw e out :
    0 <= i < count t -> entry_raw R t i raw -> decode t raw = (e, None) ->
    End_ e = false -> Present e = false ->
    explores_entries t own (i + 1) n seen seen' out ->
    explores_entries t own i n seen seen' out
| entries_child t own i n seen seen1 seen2 raw e out1 out2 :
    0 <= i < count t -> entry_raw R t i raw -> decode t raw = (e, None) ->
    End_ e = false -> Present e = true ->
    explores (EBase e) (mkVisit own i e None None) n seen seen1 out1 ->
    explores_entries t own (i + 1) (n + len out1) seen1 seen2 out2 ->
    explores_entries t own i n seen seen2 (out1 ++ out2).

(** What is left to list for the frames of a stack. *)
Inductive frames_explored : list walkFrame -> Z -> list Z -> list Z -> list Visit -> Prop :=
| frames_nil n seen : frames_explored [] n seen seen []
| frames_cons f fs n seen seen1 seen2 out1 out2 :
    explores_entries (table f) (parent f) (next_ f) n seen seen1 out1 ->
    frames_explored fs (n + len out1) seen1 seen2 out2 ->
    frames_explored (f :: fs) n seen seen2 (out1 ++ out2).
End Explore.

(** ** The invariant of a walk *)

(** The tables among the visited components, in order. *)
Definition table_base (v : Visit) : option Z :=
  c ← VComponent v; if is_nil (snd (ROMTable_ c)) then Some (Base c) else None.

Definition visit_ok (i : nat) (v : Visit) : Prop :=
  -1 <= Parent v < Z.of_nat i /\
  (Parent v = -1 <-> i = O) /\
  (PowerIDValid (Entry v) = true -> VComponent v = None /\ VErr v = Some skip_error).

Record frame_ok (l : WalkLimits) (n : Z) (f : walkFrame) : Prop := {
  frame_table : table_wf (table f);
  frame_next : 0 <= next_ f <= count (table f);
  frame_parent : 0 <= parent f < n;
  frame_depth : 0 <= depth f <= MaxDepth l
}.

Record walker_ok (w : walker) : Prop := {
  ok_ctx : ctx_nil (wctx w) = false;
  ok_entries : 0 <= entries w <= MaxEntries (limits w);
  ok_visits : len (visits w) <= MaxComponents (limits w);
  ok_visit : forall i v, visits w !! i = Some v -> visit_ok i v;
  ok_frames : Forall (frame_ok (limits w) (len (visits w))) (stack w);
  ok_seen : seen w = reverse (omap table_base (visits w));
  ok_nodup : NoDup (seen w);
  ok_skipped : Forall (eq skip_error) (skipped w)
}.

Definition walk_measure (w : walker) : Z := 2 * (MaxEntries (limits w) - entries w) + len (stack w).

Lemma frames_grow l n n' fs : Forall (frame_ok l n) fs -> n <= n' -> Forall (frame_ok l n') fs.
Proof. intros Hf Hn. eapply Forall_impl; [exact Hf|]. intros f []. constructor; try done. lia. Qed.

Lemma visits_snoc (vs : list Visit) v :
  (forall i x, vs !! i = Some x -> visit_ok i x) -> visit_ok (length vs) v ->
  forall i x, (vs ++ [v]) !! i = Some x -> visit_ok i x.
Proof.
  intros Hvs Hv i x. rewrite lookup_app. destruct (vs !! i) eqn:E; [intros [= <-]; eauto|].
  apply lookup_ge_None in E. intros Hx. apply list_lookup_singleton_Some in Hx as [Hi <-].
  replace i with (length vs) by lia. done.
Qed.

Lemma add_visit_ok w v :
  walker_ok w -> len (visits w) < MaxComponents (limits w) ->
  visit_ok (length (visits w)) v -> table_base v = None ->
  walker_ok (set_visits (visits w ++ [v]) w).
Proof.
  intros [] Hn Hv Ht. constructor; simpl; try done.
  - rewrite len_app, len_singleton. lia.
  - by apply visits_snoc.
  - eapply frames_grow; [done|]. rewrite len_app, len_singleton. lia.
  - rewrite omap_app. simpl. rewrite Ht, app_nil_r. done.
Qed.

Lemma add_skip_ok w v :
  walker_ok w -> len (visits w) < MaxComponents (limits w) ->
  visit_ok (length (visits w)) v -> table_base v = None ->
  walker_ok (set_skipped (skipped w ++ [skip_error]) (set_visits (visits w ++ [v]) w)).
Proof.
  intros Hw Hn Hv Ht. destruct (add_visit_ok w v Hw Hn Hv Ht). constructor; simpl in *; try done.
  apply Forall_app. split; [apply Hw|]. by constructor.
Qed.

Lemma add_table_ok w v base t depth :
  walker_ok w -> len (visits w) < MaxComponents (limits w) ->
  visit_ok (length (visits w)) v -> table_base v = Some base -> base ∉ seen w ->
  table_wf t -> 0 <= depth <= MaxDepth (limits w) ->
  walker_ok (set_stack (mkFrame t (len (visits w)) 0 depth :: stack w)
    (set_seen (base :: seen w) (set_visits (visits w ++ [v]) w))).
Proof.
  intros [] Hn Hv Ht Hs Hwf Hd. constructor; simpl; try done.
  - rewrite len_app, len_singleton. lia.
  - by apply visits_snoc.
  - rewrite len_app, len_singleton. constructor; [|eapply frames_grow; [done|lia]].
    constructor; simpl; [done| |pose proof (len_nonneg (visits w)); lia|done].
    destruct Hwf as (_ & _ & Hk). lia.
  - rewrite omap_app. simpl. rewrite Ht, reverse_app. simpl. by rewrite ok_seen0.
  - by constructor.
Qed.

Section Walking.
Context {W : Type} `{Env W} `{Reader W}.
Variable R : Z -> Z -> Prop.
Hypothesis answers : forall ctx a w v w', ReadScalar ctx a Size32 w = ((v, None), w') -> R a v.

Lemma wp_reading {A} (m : GoM W A) Q (s : WSt W) :
  wp m (fun a w => Q a (mkWSt (wlk s) w)) (wworld s) -> wp (reading m) Q s.
Proof. unfold wp, reading. by destruct (m (wworld s)) as [[a w]| |]. Qed.

Lemma wp_wget {A} (f : walker -> A) Q (s : WSt W) : Q (f (wlk s)) s -> wp (wget f) Q s.
Proof. done. Qed.

Lemma wp_wmod f Q (s : WSt W) : Q tt (mkWSt (f (wlk s)) (wworld s)) -> wp (wmod f) Q s.
Proof. done. Qed.

(** What a visit added to the walk, given how the walk goes on. *)
Definition listed (base : Z) (v : Visit) (w w' : walker) : Prop :=
  exists out0, visits w' = visits w ++ out0 /\ skipped w' = skipped w ++ omap VErr out0 /\
    forall seen' out, frames_explored R (stack w') (len (visits w')) (seen w') seen' out ->
    exists out1 out2 seen1, out = out1 ++ out2 /\
      explores R base v (len (visits w)) (seen w) seen1 (out0 ++ out1) /\
      frames_explored R (stack w) (len (visits w) + len (out0 ++ out1)) seen1 seen' out2.

Record inspect_post (base : Z) (v : Visit) (w : walker) (e : err) (w' : walker) : Prop := {
  ip_ok : walker_ok w';
  ip_ctx : wctx w' = wctx w;
  ip_limits : limits w' = limits w;
  ip_entries : entries w' = entries w;
  ip_stack : len (stack w') <= len (stack w) + 1;
  ip_listed : e = None -> listed base v w w'
}.

(** A visit that pushes no frame. *)
Lemma listed_leaf base v w w' v' :
  visits w' = visits w ++ [v'] -> skipped w' = skipped w ++ omap VErr [v'] ->
  stack w' = stack w -> seen w' = seen w ->
  explores R base v (len (visits w)) (seen w) (seen w) [v'] ->
  listed base v w w'.
Proof.
  intros Hv Hk Hs Hn Hx. exists [v']. split; [done|split; [done|]]. intros seen' out Hf.
  exists [], out, (seen w). split; [done|]. rewrite app_nil_r. split; [done|].
  rewrite <- Hs, <- Hn. replace (len (visits w) + len [v']) with (len (visits w')); [done|].
  by rewrite Hv, len_app.
Qed.

Lemma listed_table base v w w' c t :
  visits w' = visits w ++ [set_component c v] -> skipped w' = skipped w ++ omap VErr [set_component c v] ->
  (exists d, stack w' = mkFrame t (len (visits w)) 0 d :: stack w) -> seen w' = base :: seen w ->
  PowerIDValid (Entry v) = false -> base ∉ seen w -> identified R base c -> ROMTable_ c = (t, None) ->
  listed base v w w'.
Proof.
  intros Hv Hk [d Hs] Hn Hp Hseen Hid Ht. exists [set_component c v]. split; [done|split; [done|]].
  intros seen' out Hf. rewrite Hs, Hn, Hv, len_app, len_singleton in Hf.
  inversion Hf as [|? ? ? ? seen1 ? out1 out2 He Hr]; subst; simpl in *.
  exists out1, out2, seen1. split; [done|]. split.
  - eapply explore_table; eauto.
  - replace (len (visits w) + len (set_component c v :: out1)) with (len (visits w) + 1 + len out1); [done|].
    unfold len at 4. simpl length. unfold len. lia.
Qed.

(** The visit about to be recorded. *)
Record fresh_visit (w : walker) (v : Visit) : Prop := {
  fv_component : VComponent v = None;
  fv_err : VErr v = None;
  fv_parent : -1 <= Parent v < len (visits w);
  fv_root : Parent v = -1 <-> length (visits w) = O
}.

Lemma fresh_visit_ok w v f :
  fresh_visit w v -> (Parent (f v), Entry (f v)) = (Parent v, Entry v) ->
  (PowerIDValid (Entry v) = true -> VComponent (f v) = None /\ VErr (f v) = Some skip_error) ->
  visit_ok (length (visits w)) (f v).
Proof.
  intros [] [= Ep Ee] Hp. unfold visit_ok. rewrite Ep, Ee. unfold len in *. split; [lia|]. split; done.
Qed.

(** The three ways an identification ends: refused with the visit as it was or
    with its component, a leaf, or a table to read. *)
Definition identify_result (base d : Z) (v : Visit) (w : walker) (e : err) (w' : walker) : Prop :=
  match e with
  | Some _ => exists v', w' = set_visits (visits w ++ [v']) w /\ table_base v' = None /\
                (Parent v', Entry v') = (Parent v, Entry v)
  | None => (base ∉ seen w) /\ exists c, identified R base c /\
      ((errors_Is (snd (ROMTable_ c)) coresight_ErrNotROMTable = true /\
        w' = set_visits (visits w ++ [set_component c v]) w) \/
       exists t, ROMTable_ c = (t, None) /\
        w' = set_stack (mkFrame t (len (visits w)) 0 d :: stack w)
               (set_seen (base :: seen w) (set_visits (visits w ++ [set_component c v]) w)))
  end.

Lemma identify_spec base d v w (world : W) :
  walker_ok w -> fresh_visit w v -> 0 <= base < 2 ^ 64 ->
  wp (identify base (len (visits w)) d) (fun e s' => identify_result base d v w e (wlk s'))
    (mkWSt (set_visits (visits w ++ [v]) w) world).
Proof.
  intros Hok Hv Hb. unfold identify. wp_step. apply wp_wget. simpl seen.
  destruct (bool_decide_reflect (base ∈ seen w)) as [|Hs].
  { wp_step. exists v. unfold table_base. by rewrite (fv_component _ _ Hv). }
  wp_step. apply wp_wget. wp_step. apply wp_reading. simpl wworld. simpl wlk.
  eapply wp_mono; [apply (Identify_spec R answers); exact Hb|].
  intros [c [e|]] w1 Hid; cbn beta iota.
  { wp_step. exists v. unfold table_base. by rewrite (fv_component _ _ Hv). }
  simpl in Hid. wp_step. apply wp_wmod. simpl wlk. simpl visits. rewrite alter_last.
  destruct (ROMTable_ c) as [t e] eqn:Et.
  destruct (errors_Is e coresight_ErrNotROMTable) eqn:En; [|destruct e as [e|]].
  - wp_step. simpl. split; [done|]. exists c. rewrite Et. auto.
  - wp_step. exists (set_component c v). unfold table_base. simpl. by rewrite Et.
  - wp_step. apply wp_wmod. wp_step. simpl. split; [done|]. exists c. eauto 10.
Qed.

Lemma identify_inspected base d v w (e : err) w' :
  walker_ok w -> fresh_visit w v -> len (visits w) < MaxComponents (limits w) ->
  0 <= base < 2 ^ 64 -> 0 <= d <= MaxDepth (limits w) -> PowerIDValid (Entry v) = false ->
  identify_result base d v w e w' ->
  inspect_post base v w e
    (match e with
     | Some e => set_visits (alter (set_verr (Some e)) (Z.to_nat (len (visits w))) (visits w')) w'
     | None => w'
     end).
Proof.
  intros Hok Hv Hn Hb Hd Ep Hr.
  assert (forall v', (Parent v', Entry v') = (Parent v, Entry v) -> visit_ok (length (visits w)) v') as Hvo.
  { intros v' Hf. apply (fresh_visit_ok w v (fun _ => v')); [done|done|congruence]. }
  destruct e as [e|].
  - destruct Hr as (v' & -> & Ht & Hf). simpl. rewrite alter_last. constructor; simpl; try done; [|lia].
    apply (add_visit_ok w); try done. apply Hvo. simpl. congruence.
  - destruct Hr as (Hs & c & Hid & [[En ->]|(t & Et & ->)]).
    + constructor; simpl; try done; [|lia|].
      * apply (add_visit_ok w); try done; [by apply Hvo|]. unfold table_base. simpl.
        by destruct (ROMTable_ c) as [? [|]].
      * intros _. apply (listed_leaf _ _ _ _ (set_component c v)); simpl; try done; [by rewrite (fv_err _ _ Hv), app_nil_r|].
        by eapply explore_leaf.
    + pose proof (id_base _ _ _ Hid) as Hbase.
      destruct (ROMTable_wf c t ltac:(by rewrite Hbase) Et) as [Hwf _].
      constructor; simpl; try done; [|unfold len; simpl length; lia|].
      * apply (add_table_ok w); try done; [by apply Hvo|]. unfold table_base. simpl.
        by rewrite Et, Hbase.
      * intros _. eapply listed_table; simpl; eauto. by rewrite (fv_err _ _ Hv), app_nil_r.
Qed.

Lemma inspect_spec base v d (s : WSt W) :
  walker_ok (wlk s) -> fresh_visit (wlk s) v -> 0 <= base < 2 ^ 64 -> 0 <= d ->
  wp (inspect base v d) (fun e s' => inspect_post base v (wlk s) e (wlk s')) s.
Proof.
  intros Hok Hv Hb Hd. unfold inspect. wp_step. apply wp_wget. wp_step. apply wp_wget.
  destruct ((MaxDepth (limits (wlk s)) <? d) || _) eqn:El.
  { wp_step. constructor; try done. lia. }
  apply orb_false_iff in El as [El1 El2]. apply Z.ltb_ge in El1. apply Z.eqb_neq in El2.
  assert (len (visits (wlk s)) < MaxComponents (limits (wlk s))) as Hn by (pose proof (ok_visits _ Hok); lia).
  cbv zeta. wp_step. apply wp_wmod. destruct s as [w world]. simpl wlk in *. simpl wworld.
  destruct (PowerIDValid (Entry v)) eqn:Ep.
  - wp_step. apply wp_wmod. wp_step. simpl. rewrite alter_last.
    assert (visit_ok (length (visits w)) (set_verr (Some skip_error) v)) as Hvo.
    { apply fresh_visit_ok; [done|done|]. intros _. split; [apply Hv|done]. }
    constructor; simpl; try done; [|lia|].
    + apply (add_skip_ok w); try done. unfold table_base. simpl. by rewrite (fv_component _ _ Hv).
    + intros _. eapply listed_leaf; simpl; try done. by constructor.
  - wp_step. eapply wp_mono; [by apply identify_spec|]. intros e s1 Hr. cbn beta in Hr.
    pose proof (identify_inspected base d v w e (wlk s1) Hok Hv Hn Hb (conj Hd El1) Ep Hr) as Hp.
    wp_step. destruct e as [e|].
    + apply wp_wmod. wp_step. exact Hp.
    + wp_step. wp_step. exact Hp.
Qed.

(** ** Turns of the loop *)

Definition advanced (w w' : walker) : Prop :=
  exists out0, visits w' = visits w ++ out0 /\ skipped w' = skipped w ++ omap VErr out0 /\
    forall seen' out, frames_explored R (stack w') (len (visits w')) (seen w') seen' out ->
    frames_explored R (stack w) (len (visits w)) (seen w) seen' (out0 ++ out).

Record next_post (w : walker) (e : err) (w' : walker) : Prop := {
  np_ok : walker_ok w';
  np_ctx : wctx w' = wctx w;
  np_limits : limits w' = limits w;
  np_measure : e = None -> walk_measure w' < walk_measure w;
  np_advanced : e = None -> advanced w w'
}.

Lemma set_stack_ok w fs :
  walker_ok w -> Forall (frame_ok (limits w) (len (visits w))) fs -> walker_ok (set_stack fs w).
Proof. intros [] Hf. by constructor. Qed.

Lemma set_entries_ok w n :
  walker_ok w -> 0 <= n <= MaxEntries (limits w) -> walker_ok (set_entries n w).
Proof. intros [] Hn. by constructor. Qed.

Lemma advanced_quiet w w' :
  visits w' = visits w -> skipped w' = skipped w ->
  (forall n seen' out, frames_explored R (stack w') n (seen w') seen' out ->
     frames_explored R (stack w) n (seen w) seen' out) ->
  advanced w w'.
Proof.
  intros Hv Hk Hf. exists []. rewrite !app_nil_r. split; [done|split; [done|]].
  intros seen' out Hx. rewrite Hv in Hx. by apply Hf.
Qed.

Definition bump (f : walkFrame) : walkFrame := mkFrame (table f) (parent f) (next_ f + 1) (depth f).

Lemma advanced_child f rest w w1 w' raw e :
  stack w = f :: rest -> stack w1 = bump f :: rest -> visits w1 = visits w -> skipped w1 = skipped w ->
  seen w1 = seen w ->
  0 <= next_ f < count (table f) -> entry_raw R (table f) (next_ f) raw -> decode (table f) raw = (e, None) ->
  End_ e = false -> Present e = true ->
  listed (EBase e) (mkVisit (parent f) (next_ f) e None None) w1 w' ->
  advanced w w'.
Proof.
  intros Hs Hs1 Hv Hk Hn Hi Hraw Hd He Hp (out0 & Hv' & Hk' & Hl). exists out0.
  rewrite Hv in Hv'. rewrite Hk in Hk'. split; [done|split; [done|]]. intros seen' out Hf.
  destruct (Hl _ _ Hf) as (out1 & out2 & seen1 & -> & Hx & Hr). rewrite Hs1 in Hr. rewrite Hv in *.
  rewrite Hn in Hx. inversion Hr as [|? ? ? ? seen2 ? out3 out4 Hent Hrest]; subst; simpl in *.
  rewrite Hs, !app_assoc. eapply (frames_cons R f rest _ _ seen2).
  - eapply entries_child; eauto.
  - replace (len (visits w) + len ((out0 ++ out1) ++ out3)) with (len (visits w) + len (out0 ++ out1) + len out3)
      by (rewrite !len_app; lia). done.
Qed.

Lemma next_spec (s : WSt W) f rest :
  walker_ok (wlk s) -> stack (wlk s) = f :: rest ->
  wp next (fun e s' => next_post (wlk s) e (wlk s')) s.
Proof.
  intros Hok Hst. pose proof (ok_frames _ Hok) as Hfr. rewrite Hst in Hfr.
  inversion Hfr as [|? ? Hf Hrest]; subst. pose proof (ok_ctx _ Hok) as Hc.
  unfold next. wp_step. apply wp_wget. wp_step. apply wp_reading. apply wp_rom_ctxErr; [done|].
  intros [e|] w1; [wp_step; by constructor|].
  wp_step. apply wp_wget. simpl wlk. rewrite Hst. destruct s as [w world]. simpl wlk in *.
  destruct (Z.eqb_spec (next_ f) (EntryCount (table f))) as [En|En].
  { wp_step. apply wp_wmod. wp_step. constructor; simpl; try done.
    - by apply set_stack_ok.
    - intros _. unfold walk_measure. simpl. rewrite Hst. unfold len. simpl length. lia.
    - intros _. apply advanced_quiet; try done. simpl. intros n seen' out Hx. rewrite Hst.
      eapply (frames_cons R _ _ _ _ _ _ []); [rewrite En; constructor|]. by rewrite Z.add_0_r. }
  wp_step. apply wp_wget. wp_step. apply wp_wget. simpl wlk.
  destruct (Z.eqb_spec (entries w) (MaxEntries (limits w))) as [Ee|Ee]; [wp_step; by constructor|].
  pose proof (ok_entries _ Hok) as Hent.
  assert (walker_ok (set_entries (entries w + 1) w)) as Hok1 by (apply set_entries_ok; [done|lia]).
  wp_step. apply wp_wmod. simpl wlk. simpl wworld.
  wp_step. apply wp_reading. simpl wworld. simpl wlk.
  eapply wp_mono; [apply (ReadEntry_spec R answers), (frame_table _ _ _ Hf)|].
  intros [en [e|]] w2 Hen; cbn beta iota; [wp_step; by constructor|].
  destruct Hen as (Hi & raw & Hraw & Hdec). fold (bump f).
  assert (frame_ok (limits w) (len (visits w)) (bump f)) as Hbf by (destruct Hf; constructor; simpl; try done; lia).
  wp_step. apply wp_wmod. simpl wlk. simpl wworld.
  destruct (End_ en) eqn:Een.
  { wp_step. apply wp_wmod. wp_step. constructor; simpl; try done.
    - by apply (set_stack_ok (set_entries (entries w + 1) w)).
    - intros _. unfold walk_measure. simpl. rewrite Hst. unfold len. simpl length. lia.
    - intros _. apply advanced_quiet; try done. simpl. intros n seen' out Hx. rewrite Hst.
      eapply (frames_cons R _ _ _ _ _ _ []); [by eapply entries_end|]. by rewrite Z.add_0_r. }
  assert (walker_ok (set_stack (bump f :: rest) (set_entries (entries w + 1) w))) as Hok2.
  { apply set_stack_ok; [done|]. by constructor. }
  destruct (Present en) eqn:Ep; cbn [negb]; cbv iota.
  - eapply wp_mono; [apply inspect_spec; simpl; [done| | |]|].
    + destruct Hf. constructor; simpl; try done; [lia|]. split; [lia|]. intros Hl. unfold len in *. lia.
    + pose proof (decode_spec (table f) raw (frame_table _ _ _ Hf)) as Hds. rewrite Hdec in Hds.
      destruct Hds as [(_ & _ & _ & Hpr) _]; [|rewrite Ep in Hpr; apply Hpr].
      destruct (frame_table _ _ _ Hf) as (_ & _ & Hk). unfold width. unfold entry_raw in Hraw.
      assert (stride (table f) = 4 \/ stride (table f) = 8) as [Hs|Hs] by tauto; rewrite Hs in *; simpl in Hraw.
      * destruct Hraw as (lo & _ & ->). apply uint32_range.
      * destruct Hraw as (lo & hi & _ & _ & ->). pose proof (uint32_range lo). pose proof (uint32_range hi). lia.
    + destruct Hf. lia.
    + intros e s' []. simpl in *. constructor; try done.
      * intros ->. unfold walk_measure. rewrite ip_limits0, ip_entries0, Hst. simpl in *.
        unfold len in *. simpl length in *. lia.
      * intros ->. eapply (advanced_child f rest w (set_stack (bump f :: rest) (set_entries (entries w + 1) w)));
          simpl; try done. by apply ip_listed0.
  - wp_step. constructor; simpl; try done.
    + intros _. unfold walk_measure. simpl. rewrite Hst. unfold len. simpl length. lia.
    + intros _. apply advanced_quiet; try done. simpl. intros n seen' out Hx. rewrite Hst.
      inversion Hx as [|? ? ? ? seen2 ? out3 out4 Hent' Hr']; subst. eapply frames_cons; [|done].
      by eapply entries_absent.
Qed.

Record loop_post (w : walker) (e : err) (w' : walker) : Prop := {
  lp_ok : walker_ok w';
  lp_ctx : wctx w' = wctx w;
  lp_limits : limits w' = limits w;
  lp_done : e = None -> exists out seen', visits w' = visits w ++ out /\
    skipped w' = skipped w ++ omap VErr out /\
    frames_explored R (stack w) (len (visits w)) (seen w) seen' out
}.

Lemma walk_loop_spec fuel : forall (s : WSt W) e,
  walker_ok (wlk s) -> (e = None -> walk_measure (wlk s) <= Z.of_nat fuel) ->
  wp (walk_loop fuel e) (fun e' s' =>
    (e <> None -> e' = e) /\ loop_post (wlk s) e' (wlk s') \/ e <> None /\ s' = s /\ e' = e) s.
Proof.
  induction fuel as [|fuel IH]; intros s e Hok Hm; cbn [walk_loop]; wp_step; apply wp_wget.
  all: destruct e as [e|]; cbn [is_nil negb orb]; cbv iota; [wp_step; by right|].
  all: destruct (bool_decide_reflect (stack (wlk s) = [])) as [Hs|Hs]; cbv iota;
    [wp_step; left; split; [done|]; constructor; try done; intros _; exists [], (seen (wlk s));
     rewrite Hs, !app_nil_r; split; [done|split; [done|constructor]]|].
  - exfalso. specialize (Hm eq_refl). unfold walk_measure in Hm. pose proof (ok_entries _ Hok).
    destruct (stack (wlk s)); [done|]. unfold len in Hm. simpl length in Hm. lia.
  - destruct (stack (wlk s)) as [|f rest] eqn:Hst; [done|].
    wp_step. eapply wp_mono; [by eapply next_spec|]. intros e s1 Hn. cbn beta in Hn.
    assert (e = None -> walk_measure (wlk s1) <= Z.of_nat fuel) as Hm1.
    { intros ->. pose proof (np_measure _ _ _ Hn eq_refl). specialize (Hm eq_refl). lia. }
    eapply wp_mono; [apply IH; [apply Hn|done]|]. intros e' s2 Hp. left. split; [done|].
    destruct Hn as [n1 n2 n3 n4 n5]. destruct Hp as [[Hee []]|(Hne & -> & ->)].
    + constructor; [done|congruence|congruence|]. intros ->.
      destruct e as [e|]; [discriminate (Hee ltac:(done))|].
      destruct (n5 eq_refl) as (out0 & Hv & Hk & Hf).
      destruct lp_done0 as (out & seen' & Hv' & Hk' & Hf'); [done|].
      exists (out0 ++ out), seen'. rewrite Hv', Hk', Hv, Hk, omap_app, !app_assoc.
      split; [done|split; [done|]]. by apply Hf.
    + constructor; try done.
Qed.

(** ** Whole walks *)

Record walk_bounds (l : WalkLimits) (vs : list Visit) : Prop := {
  wb_components : len vs <= Z.max 0 (MaxComponents l);
  wb_visits : forall i v, vs !! i = Some v -> visit_ok i v;
  wb_tables : NoDup (omap table_base vs)
}.

Definition root_visit : Visit := mkVisit (-1) (-1) zeroEntry None None.

Definition walk_post (base : Z) (l : WalkLimits) (r : list Visit * err) : Prop :=
  let '(vs, e) := r in
  walk_bounds l vs /\
  ((exists seen', explores R base root_visit 0 [] seen' vs /\ e = errors_Join (VErr <$> vs)) \/
   (vs = [] /\ exists cause, e = Some cause) \/
   (exists skips cause, Forall (eq skip_error) skips /\ e = errors_Join (map Some skips ++ [Some cause]))).

Lemma Join_omap vs : errors_Join (map Some (omap VErr vs) ++ [None]) = errors_Join (VErr <$> vs).
Proof.
  unfold errors_Join. enough (omap id (map Some (omap VErr vs) ++ [None]) = omap id (VErr <$> vs)) as -> by done.
  induction vs as [|v vs IH]; [done|]. rewrite fmap_cons. simpl. destruct (VErr v); simpl; [f_equal|]; exact IH.
Qed.

Lemma Walk_spec ctx reader base l (world : W) :
  0 <= base < 2 ^ 64 -> wp (Walk ctx reader base l) (fun r _ => walk_post base l r) world.
Proof.
  intros Hb. unfold Walk.
  assert (forall e, walk_post base l ([], Some e)) as Hnone.
  { intros e. split; [|right; left; eauto]. constructor; [unfold len; simpl; lia|done|constructor]. }
  destruct (Validate l) as [e|] eqn:EV; [apply wp_ret, Hnone|].
  assert (0 <= MaxDepth l /\ 0 < MaxComponents l /\ 0 < MaxEntries l) as (Hd & Hn & He).
  { unfold Validate in EV. destruct (_ || _) eqn:E in EV; [done|].
    rewrite !orb_false_iff, Z.ltb_ge, !Z.leb_gt in E. lia. }
  destruct (ctx_nil ctx) eqn:Hc; simpl orb; cbv iota; [apply wp_ret, Hnone|].
  destruct (negb reader || _); [apply wp_ret, Hnone|].
  wp_step. apply wp_rom_ctxErr; [done|]. intros [e|] w1; [apply wp_ret, Hnone|].
  set (w0 := mkWalker ctx l 0 [] [] [] []).
  assert (walker_ok w0) as Hok by (constructor; simpl; try done; try (unfold len; simpl; lia); constructor).
  assert (wp (e ← inspect base root_visit 0; walk_loop (walk_fuel l) e)
    (fun e s' => walk_post base l (visits (wlk s'), errors_Join (map Some (skipped (wlk s')) ++ [e])))
    (mkWSt w0 w1)) as Hrun.
  { wp_step. eapply wp_mono; [apply inspect_spec; try done; constructor; done|].
    intros e s1 Hi. cbn beta in Hi. destruct Hi as [Hok1 _ Hl1 He1 Hs1 Hli]. simpl in *.
    eapply wp_mono; [apply walk_loop_spec; [done|]|].
    - intros ->. unfold walk_measure, walk_fuel. rewrite Hl1, He1. change (len []) with 0 in Hs1. lia.
    - intros e' s2 Hp. assert (walker_ok (wlk s2) /\ limits (wlk s2) = l) as [Hok2 Hl2].
      { destruct Hp as [[_ []]|(_ & -> & _)]; [split; [done|congruence]|done]. }
      split.
      { destruct Hok2. rewrite Hl2 in *. constructor; [lia|done|].
        by rewrite <- (reverse_Permutation (omap table_base _)), <- ok_seen0. }
      destruct e' as [cause|]; [right; right; exists (skipped (wlk s2)), cause; split; [apply Hok2|done]|left].
      destruct Hp as [[Hee Hlp]|(Hne & _ & Hex)]; [|congruence].
      destruct e as [e|]; [discriminate (Hee ltac:(done))|].
      destruct (Hli eq_refl) as (out0 & Hv & Hk & Hf).
      destruct (lp_done _ _ _ Hlp eq_refl) as (out & seen' & Hv' & Hk' & Hf').
      destruct (Hf _ _ Hf') as (out1 & out2 & seen1 & -> & Hx & Hr). inversion Hr; subst.
      simpl in *. exists seen'. rewrite Hv', Hv, app_nil_r. split; [done|].
      rewrite Hk', Hk, app_nil_r, <- omap_app. apply Join_omap. }
  apply wp_done in Hrun as (e & s' & Erun & Hp). unfold wp. fold root_visit. fold w0. rewrite Erun. exact Hp.
Qed.
End Walking.
