(* ===== verification/CoreSightProps.v ===== *)
(** * Properties of CoreSight identification, ROM entries and walks *)

From S2P Require Import Prelude Go CoreSight CoreSightFacts.
Local Open Scope Z_scope.

(** ** A concrete memory for the witnesses

    A class 1 ROM table at 0x1000 with a leaf component at 0x2000 (class 9, not
    a ROM architecture), a child in a power domain, and a terminator. *)

Definition rom_memory (a : Z) : Z :=
  if a =? 0x1000 then 0x1003 else if a =? 0x1004 then 0x3007
  else if a =? 0x1ff0 then 0x0d else if a =? 0x1ff4 then 0x10
  else if a =? 0x1ff8 then 0x05 else if a =? 0x1ffc then 0xb1
  else if a =? 0x2ff0 then 0x0d else if a =? 0x2ff4 then 0x90
  else if a =? 0x2ff8 then 0x05 else if a =? 0x2ffc then 0xb1
  else if a =? 0x2fe0 then 0x23 else if a =? 0x2fcc then 0x13 else 0.

Record RomWorld := mkRom { rom_reads : nat }.

#[global] Instance rom_env : Env RomWorld := { ctx_Err := fun _ w => (None, w) }.
#[global] Instance rom_reader : Reader RomWorld := {
  ReadScalar := fun _ a _ w => ((rom_memory a, None), mkRom (S (rom_reads w)))
}.

Lemma rom_answers : forall ctx a (w : RomWorld) v w', ReadScalar ctx a Size32 w = ((v, None), w') -> v = rom_memory a.
Proof. intros ctx a w v w' [= <- _]. done. Qed.

Definition rom_root : ROMTable := mkTable 0x1000 960 4 1.
Definition rom_component : Component := mkComponent 0x1000 0xb105100d 0 0 0 0.

(** C15: an entry read from a ROM table decodes exactly.  For the layout
    [ROMTable] derives from a component, [decode] either accepts the entry, with
    the terminator, presence and power fields of its bits and, when present, a
    base that is the table's base plus the entry's signed page offset with no
    wrap-around (page aligned and never the table itself), or returns a zero
    entry for precisely the malformed ones: wrong format bit, reserved bits set,
    a zero offset or an address outside 64 bits. *)
Theorem rom_entry_exact c t raw :
  0 <= Base c < 2 ^ 64 -> ROMTable_ c = (t, None) -> 0 <= raw < 2 ^ width t ->
  match decode t raw with
  | (e, None) => decoded_entry t raw e /\ ~ refused_entry t raw
  | (e, Some _) => e = zeroEntry /\ refused_entry t raw
  end.
Proof. intros Hb Ht Hr. apply decode_spec; [|done]. eapply ROMTable_wf; done. Qed.

Lemma rom_entry_exact_witness :
  decode rom_root 0x80001003 = (zeroEntry, Some (New "zero offset or address outside uint64 range")) /\
  refused_entry rom_root 0x80001003.
Proof.
  assert (E : decode rom_root 0x80001003 = (zeroEntry, Some (New "zero offset or address outside uint64 range")))
    by reflexivity.
  split; [exact E|].
  pose proof (rom_entry_exact rom_component rom_root 0x80001003 ltac:(split; [discriminate|reflexivity])
    eq_refl ltac:(split; [discriminate|reflexivity])) as T.
  rewrite E in T. exact (proj2 T).
Defined.

(** [Identify] is a faithful snapshot.  Whatever reader is used, if every
    word it answers for an address satisfies [R], a successful identification
    has the aligned base asked for, a valid preamble, a CIDR and a PIDR that
    assemble the low bytes of the four and eight registers at the page's end in
    the architectural order, and device registers exactly when the class is 9;
    on failure the zero component is returned.  It always returns. *)
Theorem component_identity {W} `{Env W} `{Reader W} (R : Z -> Z -> Prop) ctx reader base (w : W) :
  (forall ctx a w v w', ReadScalar ctx a Size32 w = ((v, None), w') -> R a v) ->
  0 <= base < 2 ^ 64 ->
  wp (Identify ctx reader base) (fun r _ => identify_post R base r) w.
Proof. intros HR Hb. by apply Identify_spec. Qed.

(** [ReadEntry] reads the entry it is asked for.  An index outside the
    table's capacity is refused without any read; otherwise the entry returned is the
    decoding of the one or two words the reader answers at the entry's own
    address, which neither wraps nor reaches the identification registers. *)
Theorem entry_read_exact {W} `{Env W} `{Reader W} (R : Z -> Z -> Prop) c t ctx index (w : W) :
  (forall ctx a w v w', ReadScalar ctx a Size32 w = ((v, None), w') -> R a v) ->
  0 <= Base c < 2 ^ 64 -> ROMTable_ c = (t, None) -> ctx_nil ctx = false ->
  (~ (0 <= index < count t) ->
     ReadEntry t ctx true index w = Done ((zeroEntry, Some (New "coresight: invalid ROM entry index")), w)) /\
  (0 <= index < count t ->
     Base c <= tbase t + index * stride t /\ tbase t + (index + 1) * stride t <= Base c + 0xf00 < 2 ^ 64 /\
     wp (ReadEntry t ctx true index) (fun r _ => entry_post R t index r) w).
Proof.
  intros HR Hb Ht Hc. destruct (ROMTable_wf c t Hb Ht) as [Hwf Hbase]. split.
  - intros Hi. unfold ReadEntry. rewrite Hc. simpl. zcmp.
  - intros Hi. split; [|split]; [| |by apply ReadEntry_spec].
    all: destruct Hwf as (H1 & H2 & Hk).
    + nia.
    + pose proof (page_room (tbase t) 0xf00 H1 H2).
      destruct Hk as [(_ & Hn & Hs)|[(_ & Hn & Hs)|(_ & Hn & Hs)]]; rewrite Hs, Hn in *; lia.
Qed.

(** C16: every walk ends within its limits, whatever the reader answers: it
    returns (the fuel [walk_fuel] is never exhausted and nothing panics), lists
    at most [MaxComponents] visits, each with a parent earlier in the list (the
    root alone has none), never lists the same table twice, and never identifies a
    child its entry places in a power domain. *)
Theorem walk_bounded {W} `{Env W} `{Reader W} ctx reader base l (w : W) :
  0 <= base < 2 ^ 64 ->
  wp (Walk ctx reader base l) (fun r _ => walk_bounds l (fst r)) w.
Proof.
  intros Hb. eapply wp_mono; [apply (Walk_spec (fun _ _ => True)); done|]. intros [vs e] ? [Hw _]. exact Hw.
Qed.

Lemma walk_bounded_witness :
  exists vs e w, Walk Background true 0x1000 (mkLimits 4 8 8) (mkRom 0) = Done ((vs, e), w) /\ len vs = 3 /\
    walk_bounds (mkLimits 4 8 8) vs.
Proof.
  assert (exists vs e w, Walk Background true 0x1000 (mkLimits 4 8 8) (mkRom 0) = Done ((vs, e), w) /\ len vs = 3)
    as (vs & e & w & E & HL) by (eexists; eexists; eexists; split; vm_compute; reflexivity).
  exists vs, e, w. split; [exact E|split; [exact HL|]].
  exact (wp_elim _ _ _ _ _ (walk_bounded Background true 0x1000 (mkLimits 4 8 8) (mkRom 0)
    ltac:(split; [discriminate|reflexivity])) E).
Defined.


