(* ===== verification/CortexM.v ===== *)
(** * Cortex-M halting debug (target/cortexm/*.go, one processor)

    Identification, the acquired target, its control of DHCSR (halt, resume,
    single step), core register transfers and the restoration of the inherited
    debug state.  Target memory is another package's; [Memory] says only that it
    answers.  Every access the code makes is appended to a ghost [trace], a
    write with the target's state when it is issued, so that theorems can speak
    of the traffic.  The polling loops have no bound of their own: they take
    [fuel], and the target is also asked to wait by [pause], one millisecond
    unless the context ends first. *)

From S2P Require Import Prelude Go.
Local Open Scope Z_scope.

Class Memory (W : Type) := {
  ReadWord : context -> Z -> W -> (Z * err) * W;
  WriteWord : context -> Z -> Z -> W -> err * W;
  (** The select of ctx.Done and a millisecond timer: [Some e] when the context
      ended, [e] being its error, [None] when the timer fired. *)
  pause : context -> W -> option ctxError * W
}.

(** ** Identity (identity.go) *)

Definition cpuidAddress : Z := 0xe000ed00.

Record Identity := mkIdentity {
  Raw : Z;
  Implementer : Z;
  Variant : Z;
  Architecture : Z;
  Part : Z;
  Revision : Z
}.

Definition zeroIdentity : Identity := mkIdentity 0 0 0 0 0 0.

Definition decodeCPUID (raw : Z) : Identity :=
  mkIdentity raw (uint8 (Z.shiftr raw 24)) (uint8 (Z.land (Z.shiftr raw 20) 0x0f))
    (uint8 (Z.land (Z.shiftr raw 16) 0x0f)) (uint16 (Z.land (Z.shiftr raw 4) 0x0fff)) (uint8 (Z.land raw 0x0f)).

(** ** Registers (control.go, architecture.go, register.go, step.go) *)

Definition dhcsrAddress : Z := 0xe000edf0.
Definition debugKey : Z := 0xa05f0000.
Definition cDebugEnable : Z := 1.
Definition cHalt : Z := 2.
Definition cStep : Z := 4.
Definition cMaskInts : Z := 8.
Definition cSnapStall : Z := Z.shiftl 1 5.
Definition sRegReady : Z := Z.shiftl 1 16.
Definition sHalt : Z := Z.shiftl 1 17.
Definition sSecureDebug : Z := Z.shiftl 1 20.
Definition sReset : Z := Z.shiftl 1 25.
Definition sRestart : Z := Z.shiftl 1 26.
Definition dcrsrAddress : Z := 0xe000edf4.
Definition dcrdrAddress : Z := 0xe000edf8.
Definition dfsrAddress : Z := 0xe000ed30.
Definition acquireCleanupTimeout : Z := 5 * 1000000000.

(** [R0] is 1, [PSP] 19. *)
Definition R0 : Z := 1.
Definition SP : Z := 14.
Definition PC : Z := 16.
Definition XPSR : Z := 17.
Definition MSP : Z := 18.
Definition PSP : Z := 19.

(** [value & mask == mask] *)
Definition all_bits (value mask : Z) : bool := Z.land value mask =? mask.

Inductive stepPhase := stepIdle | stepUncertain | stepRunning | stepStopped | stepRestoring | stepLost.

#[global] Instance stepPhase_eq_dec : EqDecision stepPhase.
Proof. solve_decision. Defined.

(** [memory] is whether the target still borrows a memory: false after release,
    and for the nil and zero targets, which every method treats the same way. *)
Record Target := mkTarget {
  memory : bool;
  identity : Identity;
  saved : Z;
  closing : bool;
  changed : bool;
  haltOwned : bool;
  haltUncertain : bool;
  resumeUncertain : bool;
  registerPending : bool;
  registerLost : bool;
  snapStalled : bool;
  step : stepPhase
}.

Definition set_memory x t := mkTarget x (identity t) (saved t) (closing t) (changed t) (haltOwned t) (haltUncertain t) (resumeUncertain t) (registerPending t) (registerLost t) (snapStalled t) (step t).
Definition set_saved x t := mkTarget (memory t) (identity t) x (closing t) (changed t) (haltOwned t) (haltUncertain t) (resumeUncertain t) (registerPending t) (registerLost t) (snapStalled t) (step t).
Definition set_closing x t := mkTarget (memory t) (identity t) (saved t) x (changed t) (haltOwned t) (haltUncertain t) (resumeUncertain t) (registerPending t) (registerLost t) (snapStalled t) (step t).
Definition set_changed x t := mkTarget (memory t) (identity t) (saved t) (closing t) x (haltOwned t) (haltUncertain t) (resumeUncertain t) (registerPending t) (registerLost t) (snapStalled t) (step t).
Definition set_haltOwned x t := mkTarget (memory t) (identity t) (saved t) (closing t) (changed t) x (haltUncertain t) (resumeUncertain t) (registerPending t) (registerLost t) (snapStalled t) (step t).
Definition set_haltUncertain x t := mkTarget (memory t) (identity t) (saved t) (closing t) (changed t) (haltOwned t) x (resumeUncertain t) (registerPending t) (registerLost t) (snapStalled t) (step t).
Definition set_resumeUncertain x t := mkTarget (memory t) (identity t) (saved t) (closing t) (changed t) (haltOwned t) (haltUncertain t) x (registerPending t) (registerLost t) (snapStalled t) (step t).
Definition set_registerPending x t := mkTarget (memory t) (identity t) (saved t) (closing t) (changed t) (haltOwned t) (haltUncertain t) (resumeUncertain t) x (registerLost t) (snapStalled t) (step t).
Definition set_registerLost x t := mkTarget (memory t) (identity t) (saved t) (closing t) (changed t) (haltOwned t) (haltUncertain t) (resumeUncertain t) (registerPending t) x (snapStalled t) (step t).
Definition set_snapStalled x t := mkTarget (memory t) (identity t) (saved t) (closing t) (changed t) (haltOwned t) (haltUncertain t) (resumeUncertain t) (registerPending t) (registerLost t) x (step t).
Definition set_step x t := mkTarget (memory t) (identity t) (saved t) (closing t) (changed t) (haltOwned t) (haltUncertain t) (resumeUncertain t) (registerPending t) (registerLost t) (snapStalled t) x.

Definition controlIdentity (identity : Identity) : err :=
  if ((Part identity =? 0xc20) && (Architecture identity =? 0xc)) ||
     ((Part identity =? 0xd21) && (Architecture identity =? 0xf)) then None
  else Some (New "cortexm: control requires Cortex-M0 or Cortex-M33").

Definition validateControl (value : Z) : err :=
  if negb (any_bits value cDebugEnable) then None
  else if any_bits value (Z.lor cStep cMaskInts)
  then Some (New "cortexm: inherited stepping or interrupt masking is unsupported")
  else if any_bits value cHalt && negb (any_bits value sHalt)
  then Some (New "cortexm: halt transition is incomplete")
  else None.

(** errors that wrap nothing but the ends of contexts (read_error.go) *)
Fixpoint onlyContextError (e : error) : bool :=
  match e with
  | Sentinel (context_Err _) => true
  | Sentinel _ | New _ | Detail _ => false
  | Errorf _ causes | Join causes => negb (bool_decide (length causes = O)) && forallb onlyContextError causes
  | Wrap canceledWAITError _ | Wrap deviceFailure _ => false
  | Wrap _ cause => onlyContextError cause
  | FaultError _ cause => match cause with Some cause => onlyContextError cause | None => false end
  end.

Definition validateRegisterWrite (reg value : Z) : err :=
  if (reg <? R0) || (PSP <? reg) then Some (New "cortexm: invalid register")
  else if reg =? XPSR then Some (New "cortexm: XPSR writes are unsupported")
  else if ((reg =? SP) || (reg =? MSP) || (reg =? PSP)) && any_bits value 3
  then Some (New "cortexm: stack pointer must be word-aligned")
  else if (reg =? PC) && any_bits value 1 then Some (New "cortexm: PC must have bit zero clear")
  else None.

(** The value a target's [changed] takes when no halt is owned any more. *)
Definition disabledBefore (t : Target) : bool := Z.land (saved t) cDebugEnable =? 0.

(** The target gives up its claim on a halt. *)
Definition relinquish (t : Target) : Target :=
  set_changed (disabledBefore t) (set_resumeUncertain false (set_haltOwned false t)).

Definition observeHaltRequest (value : Z) (t : Target) : Target :=
  if (haltOwned t || resumeUncertain t) && any_bits value cDebugEnable && negb (any_bits value cHalt)
  then relinquish t else t.

Definition isM33 (t : Target) : bool := Part (identity t) =? 0xd21.

Definition validateArchitectureControl (value : Z) (t : Target) : err * Target :=
  if negb (isM33 t) then (None, t)
  else
    let t := if any_bits value cSnapStall then set_snapStalled true t else t in
    if snapStalled t
    then (Some (New "cortexm: snap-stall state requires system reset before resuming"), t)
    else if negb (any_bits value sSecureDebug)
    then (Some (New "cortexm: Cortex-M33 control requires Secure invasive debug permission"), t)
    else (None, t).

Definition readError (e : error) (t : Target) : Target :=
  if negb (onlyContextError e) || registerPending t || haltUncertain t || resumeUncertain t ||
     negb (bool_decide (step t = stepIdle))
  then set_closing true t else t.

Definition stepHaltLost (value : Z) (t : Target) : bool :=
  negb (all_bits value (Z.lor cHalt sHalt)) || (isM33 t && any_bits value sRestart).

Definition observeStepState (value : Z) (t : Target) : err * Target :=
  let invalid := negb (any_bits value cDebugEnable) || any_bits value (Z.lor cMaskInts sReset) in
  let invalid := if bool_decide (step t = stepRestoring) then invalid else invalid || negb (any_bits value cStep) in
  let invalid := if bool_decide (step t = stepStopped) || bool_decide (step t = stepRestoring)
                 then invalid || stepHaltLost value t else invalid in
  if invalid then (Some (New "cortexm: debug control changed during step"), set_step stepLost t)
  else if bool_decide (step t = stepRunning) && all_bits value (Z.lor cHalt sHalt)
  then (None, set_step stepStopped t) else (None, t).

(** A DHCSR read's effect on the target (architecture.go, readDHCSR). *)
Definition observeDHCSR (value : Z) (e : err) (t : Target) : Target :=
  if negb (isM33 t) then t
  else match e with
       | Some _ => if haltOwned t then set_changed (disabledBefore t) (set_haltOwned false t) else t
       | None =>
           let t := set_snapStalled (snapStalled t || any_bits value cSnapStall) t in
           if all_bits value (Z.lor cDebugEnable sRestart) && (haltOwned t || resumeUncertain t)
           then relinquish t else t
       end.

Definition checkRestoreState (value : Z) (t : Target) : err * Target :=
  let '(e, t) := validateArchitectureControl value t in
  match e with
  | Some e => (Some e, t)
  | None =>
      if any_bits value cDebugEnable && any_bits value (Z.lor cStep cMaskInts)
      then (Some (New "cortexm: cannot restore externally changed stepping or interrupt masking"), t)
      else
        let t := if haltUncertain t then t else observeHaltRequest value t in
        if resumeUncertain t || haltUncertain t then
          if any_bits value (Z.lor cHalt sHalt)
          then (Some (New "cortexm: control write completion is unknown; refusing to resume this halt"), t)
          else (None, set_changed (disabledBefore t)
                  (set_haltOwned false (set_haltUncertain false (set_resumeUncertain false t))))
        else (None, t)
  end.

(** One access of the trace: what was read, or what was written by a target in
    which state. *)
Inductive access :=
| RD (addr : Z) (value : Z) (e : err)
| WR (addr value : Z) (e : err) (t : Target).

Section Control.
Context {W : Type} `{Env W} `{Memory W}.
Variable fuel : nat.

(** The newest access is first. *)
Record TSt := mkTSt { tgt : Target; trace : list access; tworld : W }.

Abbreviation M := (GoM TSt).

Definition tget {A} (f : Target -> A) : M A := gets (fun s => f (tgt s)).
Definition tmod (f : Target -> Target) : M unit := modify (fun s => mkTSt (f (tgt s)) (trace s) (tworld s)).

(** A pure check that may also record something on the target. *)
Definition check (f : Target -> err * Target) : M err := fun s =>
  let '(e, t) := f (tgt s) in Done (e, mkTSt t (trace s) (tworld s)).

Definition ctxErr (ctx : context) : M err := fun s =>
  if ctx_nil ctx then Panicked
  else let '(e, w) := ctx_Err ctx (tworld s) in
       Done (option_map (fun e => Sentinel (context_Err e)) e, mkTSt (tgt s) (trace s) w).

Definition wait (ctx : context) : M err := fun s =>
  if ctx_nil ctx then Panicked
  else let '(e, w) := pause ctx (tworld s) in
       Done (option_map (fun e => Sentinel (context_Err e)) e, mkTSt (tgt s) (trace s) w).

Definition readWord (ctx : context) (addr : Z) : M (Z * err) := fun s =>
  let '((v, e), w) := ReadWord ctx addr (tworld s) in
  Done ((uint32 v, e), mkTSt (tgt s) (RD addr (uint32 v) e :: trace s) w).

Definition writeWord (ctx : context) (addr value : Z) : M err := fun s =>
  let '(e, w) := WriteWord ctx addr value (tworld s) in
  Done (e, mkTSt (tgt s) (WR addr value e (tgt s) :: trace s) w).

(** [if err := m; err != nil { return fail(err) }; rest] *)
Definition guard_err {A} (m : M err) (fail : error -> M A) (rest : M A) : M A :=
  e ← m; match e with Some e => fail e | None => rest end.

Definition ret_err (e : error) : M err := mret (Some e).

Definition liveContext (ctx : context) : M err :=
  if ctx_nil ctx then mret (Some (New "cortexm: nil context")) else ctxErr ctx.

Definition active (ctx : context) : M err :=
  mem ← tget memory; c ← tget closing;
  if negb mem || c then mret (Some (New "cortexm: target is unavailable; release may be pending"))
  else liveContext ctx.

Definition readDHCSR (ctx : context) : M (Z * err) :=
  '(value, e) ← readWord ctx dhcsrAddress;
  tmod (observeDHCSR value e);;
  mret (value, e).

Definition readControl (ctx : context) : M (Z * err) :=
  '(value, e) ← readDHCSR ctx;
  let e := match e with
           | Some e => Some e
           | None =>
               if negb (any_bits value cDebugEnable) || any_bits value (Z.lor cStep cMaskInts)
               then Some (New "cortexm: halting debug control changed outside the target") else None
           end in
  e ← (match e with Some e => mret (Some e) | None => check (validateArchitectureControl value) end);
  match e with
  | Some e => tmod (readError e);; mret (value, Some e)
  | None => tmod (observeHaltRequest value);; mret (value, None)
  end.

(** The bits of a DHCSR readback that a control write must show. *)
Definition controlMask (control : Z) : Z :=
  if any_bits control cDebugEnable then Z.lor cDebugEnable (Z.lor (Z.lor cHalt cStep) cMaskInts) else cDebugEnable.

(** The checks of a control write's readback. *)
Definition confirmControl (control value : Z) : M err :=
  guard_err (if any_bits control cDebugEnable then check (validateArchitectureControl value) else mret None)
    ret_err (
  if negb (Z.land value (controlMask control) =? Z.land control (controlMask control))
  then mret (Some (New "cortexm: DHCSR control"))
  else mret None).

Definition writeControl (ctx : context) (control : Z) : M err :=
  guard_err (ctxErr ctx) ret_err (
  tmod (set_changed true);;
  guard_err (writeWord ctx dhcsrAddress (Z.lor debugKey control)) ret_err (
  '(value, e) ← readDHCSR ctx;
  match e with
  | Some e => mret (Some e)
  | None =>
      s ← tget saved;
      (if negb (any_bits value cDebugEnable) && (s =? 0) then tmod (set_changed false) else mret tt);;
      confirmControl control value
  end)).

(** ** Register transfers (register.go, register_write.go) *)

Definition registerStatus (ctx : context) : M err :=
  lost ← tget registerLost;
  if (lost : bool)
  then mret (Some (New "cortexm: register transfer lost its debug state; cleanup cannot continue"))
  else
    '(value, e) ← readDHCSR ctx;
    match e with
    | Some e => tmod (readError e);; mret (Some e)
    | None =>
        let halted := all_bits value (Z.lor cDebugEnable sHalt) in
        m33 ← tget isM33; pending ← tget registerPending;
        if pending && (negb halted || any_bits value sReset || (m33 && any_bits value sRestart))
        then tmod (set_registerLost true);; mret (Some (New "cortexm: debug state changed during register transfer"))
        else if negb (any_bits value cDebugEnable) || any_bits value (Z.lor cStep cMaskInts)
        then tmod (set_closing true);; mret (Some (New "cortexm: debug mode changed during register access"))
        else
          guard_err (check (validateArchitectureControl value)) (fun e => tmod (set_closing true);; mret (Some e)) (
          tmod (observeHaltRequest value);;
          if negb halted then mret (Some (New "cortexm: register access requires a halted processor"))
          else tmod (set_registerPending (negb (any_bits value sRegReady)));; mret None)
    end.

Fixpoint waitRegister_loop (n : nat) (ctx : context) : M err :=
  match n with
  | O => out_of_fuel
  | S n =>
      guard_err (ctxErr ctx) ret_err (
      guard_err (registerStatus ctx) ret_err (
      pending ← tget registerPending;
      if negb pending then mret None
      else guard_err (wait ctx) ret_err (waitRegister_loop n ctx)))
  end.

Definition waitRegister (ctx : context) : M err :=
  e ← waitRegister_loop fuel ctx;
  pending ← tget registerPending;
  (if negb (is_nil e) && pending then tmod (set_closing true) else mret tt);;
  mret e.

Definition selectRegister (ctx : context) (selector : Z) : M err :=
  guard_err (ctxErr ctx) ret_err (
  tmod (set_registerPending true);;
  guard_err (writeWord ctx dcrsrAddress selector) (fun e => tmod (set_closing true);; mret (Some e)) (
  waitRegister ctx)).

Definition ReadRegister (ctx : context) (reg : Z) : M (Z * err) :=
  if (reg <? R0) || (PSP <? reg) then mret (0, Some (New "cortexm: invalid register"))
  else
    guard_err (active ctx) (fun e => mret (0, Some e)) (
    guard_err (waitRegister ctx) (fun e => mret (0, Some e)) (
    guard_err (selectRegister ctx (uint32 (reg - 1))) (fun e => mret (0, Some e)) (
    '(value, e) ← readWord ctx dcrdrAddress;
    match e with
    | Some e => tmod (set_closing true);; mret (0, Some e)
    | None => mret (value, None)
    end))).

Definition WriteRegister (ctx : context) (reg value : Z) : M err :=
  match validateRegisterWrite reg value with
  | Some e => mret (Some e)
  | None =>
      guard_err (active ctx) ret_err (
      guard_err (waitRegister ctx) ret_err (
      guard_err (ctxErr ctx) ret_err (
      guard_err (writeWord ctx dcrdrAddress value) (fun e => tmod (set_closing true);; mret (Some e)) (
      guard_err (selectRegister ctx (Z.lor (uint32 (reg - 1)) (Z.shiftl 1 16)))
        (fun e => tmod (set_closing true);; mret (Some e)) (
      mret None)))))
  end.

(** ** Halt and resume (run.go, restore.go) *)

Definition close_with (e : error) : M err := tmod (set_closing true);; mret (Some e).

Fixpoint waitHalt (n : nat) (ctx : context) (halted : bool) : M err :=
  match n with
  | O => out_of_fuel
  | S n =>
      guard_err (ctxErr ctx) ret_err (
      '(value, e) ← readControl ctx;
      match e with
      | Some e => mret (Some e)
      | None =>
          if negb (any_bits value cHalt) && halted
          then mret (Some (New "cortexm: halt request was not retained"))
          else if any_bits value cHalt && negb halted
          then mret (Some (New "cortexm: halt request remains set after resume"))
          else if Bool.eqb (any_bits value sHalt) halted then mret None
          else guard_err (wait ctx) ret_err (waitHalt n ctx halted)
      end)
  end.

Definition requestHalt (ctx : context) : M err :=
  guard_err (ctxErr ctx) ret_err (
  tmod (fun t => set_haltUncertain true (set_changed true t));;
  guard_err (writeWord ctx dhcsrAddress (Z.lor (Z.lor debugKey cDebugEnable) cHalt)) close_with (
  tmod (fun t => set_haltOwned true (set_haltUncertain false t));;
  guard_err (waitHalt fuel ctx true) close_with (mret None))).

Definition Halt (ctx : context) : M err :=
  guard_err (active ctx) ret_err (
  '(value, e) ← readControl ctx;
  if negb (is_nil e) || any_bits value sHalt then mret e
  else requestHalt ctx).

Definition Halted (ctx : context) : M (bool * err) :=
  guard_err (active ctx) (fun e => mret (false, Some e)) (
  '(value, e) ← readControl ctx;
  mret (any_bits value sHalt, e)).

(** The restart check a Cortex-M33 makes before it resumes. *)
Definition resume_check (ctx : context) : M err :=
  m33 ← tget isM33;
  if negb m33 then mret None
  else
    '(_, e) ← readControl ctx;
    match e with
    | Some e => mret (Some e)
    | None =>
        owned ← tget haltOwned;
        if negb owned then mret (Some (New "cortexm: halt ownership was lost")) else mret None
    end.

Definition resume (ctx : context) : M err :=
  guard_err (resume_check ctx) ret_err (
  guard_err (ctxErr ctx) ret_err (
  tmod (set_resumeUncertain true);;
  guard_err (writeWord ctx dhcsrAddress (Z.lor debugKey cDebugEnable)) close_with (
  tmod (set_haltOwned false);;
  guard_err (waitHalt fuel ctx false) close_with (mret None)))).

Definition Resume (ctx : context) : M err :=
  guard_err (active ctx) ret_err (
  owned ← tget haltOwned;
  if negb owned then mret (Some (New "cortexm: no owned halt to resume"))
  else guard_err (resume ctx) ret_err (mret None)).

(** ** Single steps (step.go) *)

Definition stepStatus (ctx : context) : M (Z * err) :=
  phase ← tget step;
  if bool_decide (phase = stepUncertain) || bool_decide (phase = stepLost)
  then mret (0, Some (New "cortexm: step completion is unknown; cleanup cannot continue"))
  else
    '(value, e) ← readDHCSR ctx;
    match e with
    | Some e => mret (0, Some e)
    | None =>
        guard_err (check (observeStepState value)) (fun e => mret (0, Some e)) (
        guard_err (check (validateArchitectureControl value)) (fun e => mret (0, Some e)) (
        mret (value, None)))
    end.

(** The ownership decision of a step that has stopped. *)
Definition stepOwnership (reason : Z) (t : Target) : Target :=
  let owned := Z.land reason 0x1f =? 1 in
  let t := set_haltOwned owned t in
  set_step stepRestoring (if owned then t else set_changed (disabledBefore t) t).

Definition step_reason (ctx : context) : M err :=
  phase ← tget step;
  if bool_decide (phase = stepStopped) then
    '(reason, e) ← readWord ctx dfsrAddress;
    match e with
    | Some e => mret (Some e)
    | None => tmod (stepOwnership reason);; mret None
    end
  else mret None.

Definition finishStep (ctx : context) : M err :=
  guard_err (step_reason ctx) ret_err (
  guard_err (ctxErr ctx) ret_err (
  m33 ← tget isM33;
  guard_err (if (m33 : bool) then '(_, e) ← stepStatus ctx; mret e else mret None) ret_err (
  writeWord ctx dhcsrAddress (Z.lor (Z.lor debugKey cDebugEnable) cHalt)))).

Fixpoint settleStep (n : nat) (ctx : context) : M err :=
  match n with
  | O => out_of_fuel
  | S n =>
      guard_err (ctxErr ctx) ret_err (
      '(value, e) ← stepStatus ctx;
      match e with
      | Some e => mret (Some e)
      | None =>
          phase ← tget step;
          if bool_decide (phase = stepRestoring) && (Z.land value 15 =? Z.lor cDebugEnable cHalt) && any_bits value sHalt
          then tmod (set_step stepIdle);; mret None
          else
            guard_err (if all_bits value (Z.lor cHalt sHalt) then finishStep ctx else mret None) ret_err (
            guard_err (wait ctx) ret_err (settleStep n ctx))
      end)
  end.

Definition Step (ctx : context) : M err :=
  guard_err (active ctx) ret_err (
  owned ← tget haltOwned;
  if negb owned then mret (Some (New "cortexm: no owned halt to step"))
  else
    guard_err (waitRegister ctx) ret_err (
    owned ← tget haltOwned;
    if negb owned then mret (Some (New "cortexm: halt ownership was lost"))
    else
      guard_err (ctxErr ctx) ret_err (
      '(reason, e) ← readWord ctx dfsrAddress;
      match e with
      | Some e => tmod (readError e);; mret (Some e)
      | None =>
          if any_bits reason 0x1e
          then mret (Some (New "cortexm: competing debug event flags prevent stepping"))
          else
            guard_err (ctxErr ctx) ret_err (
            tmod (fun t => set_haltOwned false (set_step stepUncertain t));;
            guard_err (writeWord ctx dhcsrAddress (Z.lor (Z.lor debugKey cDebugEnable) cStep)) close_with (
            tmod (set_step stepRunning);;
            guard_err (settleStep fuel ctx) close_with (
            owned ← tget haltOwned;
            if negb owned then close_with (New "cortexm: step stopped on an unowned debug event")
            else mret None)))
      end))).

(** ** Acquisition and release (control.go, restore.go) *)

(** The part of [restore] after the halt, if it was owned, has been resumed. *)
Definition restoreControl (ctx : context) : M err :=
  ch ← tget changed;
  if negb ch then mret None
  else
    '(value, e) ← readDHCSR ctx;
    match e with
    | Some e => mret (Some e)
    | None =>
        guard_err (check (validateArchitectureControl value)) ret_err (
        if any_bits value (Z.lor cHalt sHalt) && any_bits value cDebugEnable
        then mret (Some (New "cortexm: new halt prevents restoring disabled debug"))
        else
          s ← tget saved;
          writeControl ctx s)
    end.

Definition restore (ctx : context) : M err :=
  '(value, e) ← readDHCSR ctx;
  match e with
  | Some e => mret (Some e)
  | None =>
      s ← tget saved;
      if (s =? 0) && negb (any_bits value cDebugEnable) then mret None
      else
        guard_err (check (checkRestoreState value)) ret_err (
        owned ← tget haltOwned;
        guard_err (if (owned : bool) then resume ctx else mret None) ret_err (
        restoreControl ctx))
  end.

Definition Release (ctx : context) : M err :=
  mem ← tget memory;
  if negb mem then mret None
  else
    tmod (set_closing true);;
    guard_err (liveContext ctx) ret_err (
    pending ← tget registerPending;
    guard_err (if (pending : bool) then waitRegister ctx else mret None) ret_err (
    phase ← tget step;
    guard_err (if negb (bool_decide (phase = stepIdle)) then settleStep fuel ctx else mret None) ret_err (
    ch ← tget changed;
    guard_err (if (ch : bool) then restore ctx else mret None)
      (fun e => mret (Some (Errorf "cortexm: restore debug control: %w" [e]))) (
    tmod (set_memory false);; mret None)))).

Definition Identify (ctx : context) (reader : bool) : M (Identity * err) :=
  if negb reader then mret (zeroIdentity, Some (New "cortexm: nil word reader"))
  else
    '(raw, e) ← readWord ctx cpuidAddress;
    match e with
    | Some e => mret (zeroIdentity, Some (Errorf "cortexm: read CPUID: %w" [e]))
    | None =>
        let info := decodeCPUID raw in
        if negb (Implementer info =? 0x41) || (Part info =? 0)
        then mret (zeroIdentity, Some (New "cortexm: CPUID is not a plausible Cortex-M identity"))
        else mret (info, None)
    end.

(** [Acquire] fills the state's target; the boolean is whether a target is
    returned, nil otherwise. *)
Definition Acquire (ctx : context) (mem : bool) : M (bool * err) :=
  if negb mem then mret (false, Some (New "cortexm: nil memory"))
  else
    guard_err (liveContext ctx) (fun e => mret (false, Some e)) (
    '(id, e) ← Identify ctx mem;
    match e with
    | Some e => mret (false, Some e)
    | None =>
    match controlIdentity id with
    | Some e => mret (false, Some e)
    | None =>
        '(value, e) ← readWord ctx dhcsrAddress;
        match e with
        | Some e => mret (false, Some e)
        | None =>
        match validateControl value with
        | Some e => mret (false, Some e)
        | None =>
            tmod (fun _ => mkTarget true id (Z.land value (Z.lor cDebugEnable cHalt))
                             false false false false false false false false stepIdle);;
            guard_err (check (validateArchitectureControl value)) (fun e => mret (false, Some e)) (
            if any_bits value cDebugEnable then mret (true, None)
            else
              tmod (set_saved 0);;
              guard_err (writeControl ctx cDebugEnable) (fun e =>
                releaseErr ← Release (WithTimeout Background acquireCleanupTimeout);
                match releaseErr with
                | Some r => mret (true, errors_Join [Some e; Some r])
                | None => mret (false, Some e)
                end)
              (mret (true, None)))
        end end
    end end).
End Control.
Arguments TSt W : clear implicits.
