(* ===== verification/CortexMFacts.v ===== *)
(** * Facts about Cortex-M control

    The target's invariant, what an observation of DHCSR may change, and the
    specification of each method by symbolic execution.  Methods that poll are
    specified with [wlp]; the last part shows when they return. *)

From S2P Require Import Prelude Go CortexM.
Local Open Scope Z_scope.

(** ** The invariant *)

(** Nothing is in flight or in doubt. *)
Record calm (t : Target) : Prop := {
  calm_pending : registerPending t = false;
  calm_lost : registerLost t = false;
  calm_halt : haltUncertain t = false;
  calm_resume : resumeUncertain t = false;
  calm_snap : snapStalled t = false;
  calm_step : step t = stepIdle
}.

(** What holds at every step of every method. *)
Record steady (t : Target) : Prop := {
  st_memory : memory t = true;
  st_saved : saved t ∈ [0; 1; 3];
  st_owned : haltOwned t = true -> changed t = true;
  st_stepping : step t = stepRunning \/ step t = stepStopped -> changed t = true /\ haltOwned t = false;
  st_doubt : step t <> stepIdle -> resumeUncertain t = false /\ haltUncertain t = false;
  st_debt : saved t = 0 -> changed t = true \/ closing t = true;
  st_snap : snapStalled t = true -> isM33 t = true
}.

(** What holds of a target between calls: once it is closing only [Release] is
    left, and until then nothing is in doubt. *)
Record sound (t : Target) : Prop := {
  snd_steady : memory t = true -> steady t;
  snd_calm : memory t = true -> closing t = false -> calm t
}.

(** What reading DHCSR can change: claims are given up, never made. *)
Record observes (t t' : Target) : Prop := {
  ob_memory : memory t' = memory t;
  ob_identity : identity t' = identity t;
  ob_saved : saved t' = saved t;
  ob_step : step t' = step t;
  ob_haltUncertain : haltUncertain t' = haltUncertain t;
  ob_closing : closing t = true -> closing t' = true;
  ob_owned : haltOwned t' = true -> haltOwned t = true /\ changed t' = changed t;
  ob_resume : resumeUncertain t' = true -> resumeUncertain t = true;
  ob_stable : haltOwned t = false -> resumeUncertain t = false -> changed t' = changed t;
  ob_debt : changed t' = changed t \/ changed t' = disabledBefore t;
  ob_relinquish : resumeUncertain t = true -> resumeUncertain t' = false -> changed t' = disabledBefore t;
  ob_snap : snapStalled t = true -> snapStalled t' = true;
  ob_cause : snapStalled t' = true -> snapStalled t = true \/ isM33 t = true
}.

(** The register transfer is untouched as well. *)
Definition keeps_transfer (t t' : Target) : Prop :=
  registerPending t' = registerPending t /\ registerLost t' = registerLost t.

Lemma observes_refl t : observes t t.
Proof. constructor; auto. congruence. Qed.

Lemma observes_trans t1 t2 t3 : observes t1 t2 -> observes t2 t3 -> observes t1 t3.
Proof.
  intros [] []. constructor; try congruence; auto.
  - intros Ho. destruct (ob_owned1 Ho) as [H2 E2]. destruct (ob_owned0 H2) as [H1 E1]. split; congruence.
  - intros Ho Hr. rewrite ob_stable1, ob_stable0; try done.
    + destruct (haltOwned t2) eqn:E; [|done]. destruct (ob_owned0 eq_refl). congruence.
    + destruct (resumeUncertain t2) eqn:E; [|done]. by rewrite ob_resume0 in Hr.
  - unfold disabledBefore in *. rewrite ob_saved0 in *.
    destruct ob_debt0, ob_debt1; intuition congruence.
  - intros H1 H3. unfold disabledBefore in *. rewrite ob_saved0 in *.
    destruct (resumeUncertain t2) eqn:E; [auto|].
    destruct ob_debt1 as [->|Hd]; [by apply ob_relinquish0|done].
  - intros H3. unfold isM33 in *. rewrite ob_identity0 in *. destruct (ob_cause1 H3); auto.
Qed.

Lemma saved_zero t : saved t ∈ [0; 1; 3] -> (disabledBefore t = true <-> saved t = 0).
Proof.
  intros Hs. unfold disabledBefore. repeat (apply elem_of_cons in Hs as [Hs|Hs]; [rewrite Hs; done|]).
  by apply elem_of_nil in Hs.
Qed.

Lemma steady_observes t t' : steady t -> observes t t' -> steady t'.
Proof.
  intros [] Ho. pose proof (saved_zero t st_saved0) as Hz. destruct Ho.
  constructor; rewrite ?ob_memory0, ?ob_saved0, ?ob_step0; try done.
  - intros H. destruct (ob_owned0 H). by rewrite H1, st_owned0.
  - intros H. destruct (st_stepping0 H) as [Hc Hn].
    assert (haltOwned t' = false) as Hn'.
    { destruct (haltOwned t'); [|done]. destruct (ob_owned0 eq_refl). congruence. }
    split; [|done]. rewrite ob_stable0; [done|done|]. apply st_doubt0. destruct H; congruence.
  - intros H. destruct (st_doubt0 H) as [H1 H2]. rewrite ob_haltUncertain0. split; [|done].
    destruct (resumeUncertain t'); [|done]. by rewrite ob_resume0 in H1.
  - intros H. destruct (st_debt0 H) as [Hc|Hc]; [|auto]. left.
    destruct ob_debt0 as [->| ->]; [done|]. by apply Hz.
  - intros H. unfold isM33 in *. rewrite ob_identity0. destruct (ob_cause0 H); auto.
Qed.

(** ** The pure observations *)

Lemma relinquish_observes t :
  haltOwned t || resumeUncertain t = true -> observes t (relinquish t).
Proof.
  intros Hc. constructor; simpl; auto; try done.
  intros Ho Hr. rewrite Ho, Hr in Hc. done.
Qed.

Lemma observeDHCSR_observes v e t : observes t (observeDHCSR v e t).
Proof.
  unfold observeDHCSR. destruct (isM33 t) eqn:E3; simpl negb; cbv iota; [|apply observes_refl].
  destruct e as [e|].
  - destruct (haltOwned t) eqn:Eo; [|apply observes_refl].
    constructor; simpl; auto; try done; congruence.
  - assert (observes t (set_snapStalled (snapStalled t || any_bits v cSnapStall) t)) as Hs.
    { constructor; simpl; auto; [congruence|]. by intros ->. }
    cbv zeta. destruct (all_bits _ _ && _) eqn:E; [|done].
    apply andb_true_iff in E as [_ E]. eapply observes_trans; [exact Hs|]. by apply relinquish_observes.
Qed.

Lemma observeHaltRequest_observes v t : observes t (observeHaltRequest v t).
Proof.
  unfold observeHaltRequest. destruct (_ && _ && _) eqn:E; [|apply observes_refl].
  rewrite !andb_true_iff in E. apply relinquish_observes. tauto.
Qed.

Lemma readError_observes e t : observes t (readError e t).
Proof. unfold readError. destruct (_ || _); [|apply observes_refl]. constructor; simpl; auto. congruence. Qed.

Lemma validate_observes v t : observes t (snd (validateArchitectureControl v t)).
Proof.
  unfold validateArchitectureControl. destruct (isM33 t) eqn:E3; simpl; [|apply observes_refl].
  set (t1 := if any_bits v cSnapStall then set_snapStalled true t else t).
  assert (observes t t1) by (unfold t1; destruct (any_bits v cSnapStall); [constructor; simpl; auto; congruence|apply observes_refl]).
  by destruct (snapStalled t1), (any_bits v sSecureDebug).
Qed.

(** The closing flag and the transfer of the pure observations. *)
Definition same_flags (t t' : Target) : Prop :=
  closing t' = closing t /\ registerPending t' = registerPending t /\ registerLost t' = registerLost t.

Lemma same_flags_trans t1 t2 t3 : same_flags t1 t2 -> same_flags t2 t3 -> same_flags t1 t3.
Proof. unfold same_flags. intuition congruence. Qed.

Lemma observeDHCSR_flags v e t : same_flags t (observeDHCSR v e t).
Proof.
  unfold observeDHCSR, same_flags. destruct (isM33 t), e; simpl; try done.
  - by destruct (haltOwned t).
  - by destruct (all_bits _ _ && _).
Qed.

Lemma observeHaltRequest_flags v t : same_flags t (observeHaltRequest v t).
Proof. unfold observeHaltRequest, same_flags. by destruct (_ && _ && _). Qed.

Lemma validate_flags v t : same_flags t (snd (validateArchitectureControl v t)).
Proof.
  unfold validateArchitectureControl, same_flags. destruct (isM33 t); simpl; [|done].
  destruct (any_bits v cSnapStall); simpl; [done|]. by destruct (snapStalled t), (any_bits v sSecureDebug).
Qed.

(** A DHCSR value accepted by the checks did not show snap-stall. *)
Lemma validate_snap v e t :
  fst (validateArchitectureControl v (observeDHCSR v e t)) = None -> e = None ->
  snapStalled (snd (validateArchitectureControl v (observeDHCSR v e t))) = snapStalled t.
Proof.
  intros Hv ->. revert Hv. unfold validateArchitectureControl.
  assert (isM33 (observeDHCSR v None t) = isM33 t) as ->
    by (unfold isM33; by rewrite (ob_identity _ _ (observeDHCSR_observes v None t))).
  destruct (isM33 t) eqn:E3; simpl.
  - assert (snapStalled (observeDHCSR v None t) = snapStalled t || any_bits v cSnapStall) as Es.
    { unfold observeDHCSR. rewrite E3. simpl. by destruct (all_bits _ _ && _). }
    destruct (any_bits v cSnapStall); simpl; [done|].
    rewrite Es, orb_false_r. destruct (snapStalled t) eqn:Esn; [done|].
    destruct (any_bits v sSecureDebug); simpl; [|done]. intros _. rewrite Es. done.
  - intros _. unfold observeDHCSR. by rewrite E3.
Qed.

Lemma observeDHCSR_err_snap v e t : snapStalled (observeDHCSR v (Some e) t) = snapStalled t.
Proof. unfold observeDHCSR. destruct (isM33 t); simpl; [|done]. by destruct (haltOwned t). Qed.

Lemma observeHaltRequest_snap v t : snapStalled (observeHaltRequest v t) = snapStalled t.
Proof. unfold observeHaltRequest. by destruct (_ && _ && _). Qed.

(** ** Primitive steps *)

Section Steps.
Context {W : Type} `{Env W} `{Memory W}.

Abbreviation St := (TSt W).

Lemma wlp_tget {A} (f : Target -> A) Q (s : St) : Q (f (tgt s)) s -> wlp (tget f) Q s.
Proof. done. Qed.

Lemma wlp_tmod f Q (s : St) : Q tt (mkTSt (f (tgt s)) (trace s) (tworld s)) -> wlp (tmod f) Q s.
Proof. done. Qed.

Lemma wlp_check f Q (s : St) :
  Q (fst (f (tgt s))) (mkTSt (snd (f (tgt s))) (trace s) (tworld s)) -> wlp (check f) Q s.
Proof. unfold wlp, check. by destruct (f (tgt s)). Qed.

Lemma wlp_ctxErr ctx Q (s : St) :
  ctx_nil ctx = false -> (forall e w, Q e (mkTSt (tgt s) (trace s) w)) -> wlp (ctxErr ctx) Q s.
Proof. intros Hc HQ. unfold wlp, ctxErr. rewrite Hc. by destruct (ctx_Err ctx (tworld s)). Qed.

Lemma wlp_wait ctx Q (s : St) :
  ctx_nil ctx = false -> (forall e w, Q e (mkTSt (tgt s) (trace s) w)) -> wlp (wait ctx) Q s.
Proof. intros Hc HQ. unfold wlp, wait. rewrite Hc. by destruct (pause ctx (tworld s)). Qed.

Lemma wlp_readWord ctx addr Q (s : St) :
  (forall v e w, 0 <= v < 2 ^ 32 -> Q (v, e) (mkTSt (tgt s) (RD addr v e :: trace s) w)) ->
  wlp (readWord ctx addr) Q s.
Proof.
  intros HQ. unfold wlp, readWord. destruct (ReadWord ctx addr (tworld s)) as [[v e] w].
  apply HQ, uint32_range.
Qed.

Lemma wlp_writeWord ctx addr value Q (s : St) :
  (forall e w, Q e (mkTSt (tgt s) (WR addr value e (tgt s) :: trace s) w)) ->
  wlp (writeWord ctx addr value) Q s.
Proof. intros HQ. unfold wlp, writeWord. by destruct (WriteWord ctx addr value (tworld s)). Qed.

Lemma wlp_guard {A} (m : GoM St err) (fail : error -> GoM St A) (rest : GoM St A) Q s :
  wlp m (fun e s' => match e with Some e => wlp (fail e) Q s' | None => wlp rest Q s' end) s ->
  wlp (guard_err m fail rest) Q s.
Proof.
  intros Hm. unfold guard_err. apply wlp_bind. eapply wlp_mono; [exact Hm|].
  intros [e|] s'; done.
Qed.

Lemma wlp_readDHCSR ctx Q (s : St) :
  (forall v e w, 0 <= v < 2 ^ 32 ->
     Q (v, e) (mkTSt (observeDHCSR v e (tgt s)) (RD dhcsrAddress v e :: trace s) w)) ->
  wlp (readDHCSR ctx) Q s.
Proof.
  intros HQ. unfold readDHCSR. apply wlp_bind, wlp_readWord. intros v e w Hv. cbn beta iota.
  apply wlp_bind, wlp_tmod, wlp_ret, HQ, Hv.
Qed.
End Steps.

(** * Cortex-M control returns when its context ends

    The polling loops stop on a status, an error, or the end of the context.
    [Deadline] says of the world only that a context ends after a bounded number
    of waits; then every method returns with fuel above that bound. *)

Section Returns.
Context {W : Type} `{Env W} `{Memory W}.

Abbreviation St := (TSt W).

(** [budget ctx w]: how many more waits [ctx] allows. *)
Record Deadline (budget : context -> W -> nat) : Prop := {
  dl_err : forall ctx c w, (budget c (snd (ctx_Err ctx w)) <= budget c w)%nat;
  dl_read : forall ctx addr c w, (budget c (snd (ReadWord ctx addr w)) <= budget c w)%nat;
  dl_write : forall ctx addr v c w, (budget c (snd (WriteWord ctx addr v w)) <= budget c w)%nat;
  dl_pause : forall ctx c w, (budget c (snd (pause ctx w)) <= budget c w)%nat;
  dl_tick : forall ctx w, fst (pause ctx w) = None -> (budget ctx (snd (pause ctx w)) < budget ctx w)%nat
}.

Variable budget : context -> W -> nat.
Hypothesis deadline : Deadline budget.

Definition spends (s s' : St) : Prop := forall c, (budget c (tworld s') <= budget c (tworld s))%nat.

Lemma spends_refl s : spends s s.
Proof. intros c. done. Qed.

Lemma spends_trans s1 s2 s3 : spends s1 s2 -> spends s2 s3 -> spends s1 s3.
Proof. intros H1 H2 c. specialize (H1 c). specialize (H2 c). lia. Qed.

(** [m] returns when [ctx] has fewer than [n] waits left. *)
Definition Returns {A} (ctx : context) (n : nat) (m : GoM St A) : Prop :=
  forall s, (budget ctx (tworld s) < n)%nat -> wp m (fun _ s' => spends s s') s.

Section Rules.
Variables (ctx : context) (n : nat).

Lemma Returns_ret {A} (a : A) : Returns ctx n (mret a).
Proof. intros s _. apply wp_ret, spends_refl. Qed.

Lemma Returns_bind {A B} (m : GoM St A) (f : A -> GoM St B) :
  Returns ctx n m -> (forall a, Returns ctx n (f a)) -> Returns ctx n (mbind f m).
Proof.
  intros Hm Hf s Hs. apply wp_bind. eapply wp_mono; [by apply Hm|]. intros a s1 H1.
  eapply wp_mono; [apply Hf; specialize (H1 ctx); lia|]. intros b s2 H2. eapply spends_trans; [exact H1|exact H2].
Qed.

Lemma Returns_guard {A} (m : GoM St err) (fail : error -> GoM St A) (rest : GoM St A) :
  Returns ctx n m -> (forall e, Returns ctx n (fail e)) -> Returns ctx n rest ->
  Returns ctx n (guard_err m fail rest).
Proof. intros Hm Hf Hr. apply Returns_bind; [done|]. by intros [e|]. Qed.

Lemma Returns_tget {A} (f : Target -> A) : Returns ctx n (tget f).
Proof. intros s _. apply spends_refl. Qed.

Lemma Returns_tmod f : Returns ctx n (tmod f).
Proof. intros s _ c. done. Qed.

Lemma Returns_check f : Returns ctx n (check f).
Proof. intros s _. unfold wp, check. destruct (f (tgt s)). by intros c. Qed.

Lemma Returns_ctxErr : ctx_nil ctx = false -> Returns ctx n (ctxErr ctx).
Proof.
  intros Hc s _. unfold wp, ctxErr. rewrite Hc. pose proof (fun c => dl_err _ deadline ctx c (tworld s)) as Hd.
  destruct (ctx_Err ctx (tworld s)) as [e w]. exact Hd.
Qed.

Lemma Returns_readWord addr : Returns ctx n (readWord ctx addr).
Proof.
  intros s _. unfold wp, readWord. pose proof (fun c => dl_read _ deadline ctx addr c (tworld s)) as Hd.
  destruct (ReadWord ctx addr (tworld s)) as [[v e] w]. exact Hd.
Qed.

Lemma Returns_writeWord addr v : Returns ctx n (writeWord ctx addr v).
Proof.
  intros s _. unfold wp, writeWord. pose proof (fun c => dl_write _ deadline ctx addr v c (tworld s)) as Hd.
  destruct (WriteWord ctx addr v (tworld s)) as [e w]. exact Hd.
Qed.

(** A turn of a polling loop that goes on has spent a wait. *)
Lemma Returns_wait {A} (fail : error -> GoM St A) (rest : GoM St A) :
  ctx_nil ctx = false -> (forall e, Returns ctx (S n) (fail e)) -> Returns ctx n rest ->
  Returns ctx (S n) (guard_err (wait ctx) fail rest).
Proof.
  intros Hc Hf Hr s Hs. unfold guard_err. apply wp_bind. unfold wp at 1, wait. rewrite Hc.
  pose proof (fun c => dl_pause _ deadline ctx c (tworld s)) as Hp.
  pose proof (dl_tick _ deadline ctx (tworld s)) as Ht.
  destruct (pause ctx (tworld s)) as [[e|] w]; simpl in *.
  - eapply wp_mono; [apply Hf; simpl; specialize (Hp ctx); lia|]. intros a s' H' c. specialize (H' c). specialize (Hp c). simpl in *. lia.
  - eapply wp_mono; [apply Hr; simpl; specialize (Ht eq_refl); lia|].
    intros a s' H' c. specialize (H' c). specialize (Hp c). simpl in *. lia.
Qed.
End Rules.
End Returns.

Create HintDb returns.
#[export] Hint Resolve Returns_ret Returns_tget Returns_tmod Returns_check Returns_ctxErr Returns_readWord
  Returns_writeWord : returns.

(** Follow the structure of a method body. *)
Ltac returns :=
  repeat match goal with
    | |- forall _, _ => intro
    | |- Returns _ _ _ (mret _) => apply Returns_ret
    | |- Returns _ _ _ (guard_err _ _ _) => apply Returns_guard
    | |- Returns _ _ _ (mbind _ _) => apply Returns_bind
    | |- Returns _ _ _ (match ?x with _ => _ end) => destruct x
    | |- Returns _ _ _ (let _ := _ in _) => cbv zeta
    | |- Returns _ _ _ _ => solve [eauto with returns]
    | |- Returns _ _ _ ((fun _ => _) _) => cbv beta
    end.

Section Methods.
Context {W : Type} `{Env W} `{Memory W}.
Variable budget : context -> W -> nat.
Hypothesis deadline : Deadline budget.
Variable ctx : context.
Hypothesis live : ctx_nil ctx = false.

Lemma Returns_readDHCSR n : Returns budget ctx n (readDHCSR ctx).
Proof. unfold readDHCSR. returns. Qed.
#[local] Hint Resolve Returns_readDHCSR : returns.

Lemma Returns_readControl n : Returns budget ctx n (readControl ctx).
Proof. unfold readControl. returns. Qed.
#[local] Hint Resolve Returns_readControl : returns.

Lemma Returns_writeControl n control : Returns budget ctx n (writeControl ctx control).
Proof. unfold writeControl, confirmControl, ret_err. returns. Qed.
#[local] Hint Resolve Returns_writeControl : returns.

Lemma Returns_registerStatus n : Returns budget ctx n (registerStatus ctx).
Proof. unfold registerStatus. returns. Qed.
#[local] Hint Resolve Returns_registerStatus : returns.

Lemma Returns_waitRegister_loop n : Returns budget ctx n (waitRegister_loop n ctx).
Proof.
  induction n as [|n IH]; [intros s Hs; lia|]. cbn [waitRegister_loop]. unfold ret_err.
  apply Returns_guard; [eauto with returns|returns|]. apply Returns_guard; [eauto with returns|returns|].
  apply Returns_bind; [eauto with returns|]. intros [|]; simpl; [|returns].
  apply Returns_wait; [done|done|returns|done].
Qed.

Lemma Returns_waitHalt n halted : Returns budget ctx n (waitHalt n ctx halted).
Proof.
  induction n as [|n IH]; [intros s Hs; lia|]. cbn [waitHalt]. unfold ret_err.
  apply Returns_guard; [eauto with returns|returns|]. apply Returns_bind; [eauto with returns|].
  intros [v [e|]]; [returns|]. destruct (_ && _); [returns|]. destruct (_ && _); [returns|].
  destruct (Bool.eqb _ _); [returns|]. apply Returns_wait; [done|done|returns|done].
Qed.

Lemma Returns_stepStatus n : Returns budget ctx n (stepStatus ctx).
Proof. unfold stepStatus. returns. Qed.
#[local] Hint Resolve Returns_stepStatus : returns.

Lemma Returns_finishStep n : Returns budget ctx n (finishStep ctx).
Proof. unfold finishStep, step_reason, ret_err. returns. Qed.
#[local] Hint Resolve Returns_finishStep : returns.

Lemma Returns_settleStep n : Returns budget ctx n (settleStep n ctx).
Proof.
  induction n as [|n IH]; [intros s Hs; lia|]. cbn [settleStep]. unfold ret_err.
  apply Returns_guard; [eauto with returns|returns|]. apply Returns_bind; [eauto with returns|].
  intros [v [e|]]; [returns|]. apply Returns_bind; [eauto with returns|]. intros phase.
  destruct (_ && _ && _); [returns|]. apply Returns_guard; [destruct (all_bits _ _); eauto with returns|returns|].
  apply Returns_wait; [done|done|returns|done].
Qed.
#[local] Hint Resolve Returns_waitRegister_loop Returns_waitHalt Returns_settleStep : returns.

Variable fuel : nat.

Lemma Returns_waitRegister : Returns budget ctx fuel (waitRegister fuel ctx).
Proof. unfold waitRegister. returns. Qed.
#[local] Hint Resolve Returns_waitRegister : returns.

Lemma Returns_selectRegister selector : Returns budget ctx fuel (selectRegister fuel ctx selector).
Proof. unfold selectRegister, ret_err. returns. Qed.
#[local] Hint Resolve Returns_selectRegister : returns.

Lemma Returns_requestHalt : Returns budget ctx fuel (requestHalt fuel ctx).
Proof. unfold requestHalt, ret_err, close_with. returns. Qed.
#[local] Hint Resolve Returns_requestHalt : returns.

Lemma Returns_resume : Returns budget ctx fuel (resume fuel ctx).
Proof. unfold resume, resume_check, ret_err, close_with. returns. Qed.
#[local] Hint Resolve Returns_resume : returns.

Lemma Returns_restore : Returns budget ctx fuel (restore fuel ctx).
Proof. unfold restore, restoreControl, ret_err. returns. Qed.
#[local] Hint Resolve Returns_restore : returns.

Lemma Returns_active : Returns budget ctx fuel (active ctx).
Proof. unfold active, liveContext. rewrite live. returns. Qed.
#[local] Hint Resolve Returns_active : returns.

Lemma Returns_Halt : Returns budget ctx fuel (Halt fuel ctx).
Proof. unfold Halt, ret_err. returns. Qed.

Lemma Returns_Halted : Returns budget ctx fuel (Halted ctx).
Proof. unfold Halted. returns. Qed.

Lemma Returns_Resume : Returns budget ctx fuel (Resume fuel ctx).
Proof. unfold Resume, ret_err. returns. Qed.

Lemma Returns_Step : Returns budget ctx fuel (Step fuel ctx).
Proof. unfold Step, ret_err, close_with. returns. Qed.

Lemma Returns_ReadRegister reg : Returns budget ctx fuel (ReadRegister fuel ctx reg).
Proof. unfold ReadRegister. returns. Qed.

Lemma Returns_WriteRegister reg value : Returns budget ctx fuel (WriteRegister fuel ctx reg value).
Proof. unfold WriteRegister, ret_err. returns. Qed.

Lemma Returns_Release : Returns budget ctx fuel (Release fuel ctx).
Proof. unfold Release, liveContext, ret_err. rewrite live. returns. Qed.
End Methods.

(** ** Acquisition

    Its cleanup runs under a context of its own: the fuel is above the waits of
    both. *)

Section Acquisition.
Context {W : Type} `{Env W} `{Memory W}.
Variable budget : context -> W -> nat.
Hypothesis deadline : Deadline budget.
Variables (ctx cleanup : context) (fuel : nat).

Definition Both {A} (m : GoM (TSt W) A) : Prop :=
  forall s, (budget ctx (tworld s) < fuel)%nat -> (budget cleanup (tworld s) < fuel)%nat ->
    wp m (fun _ s' => spends budget s s') s.

Lemma Both_first {A} (m : GoM (TSt W) A) : Returns budget ctx fuel m -> Both m.
Proof. intros Hm s H1 _. by apply Hm. Qed.

Lemma Both_second {A} (m : GoM (TSt W) A) : Returns budget cleanup fuel m -> Both m.
Proof. intros Hm s _ H2. by apply Hm. Qed.

Lemma Both_bind {A B} (m : GoM (TSt W) A) (f : A -> GoM (TSt W) B) :
  Both m -> (forall a, Both (f a)) -> Both (mbind f m).
Proof.
  intros Hm Hf s H1 H2. apply wp_bind. eapply wp_mono; [by apply Hm|]. intros a s1 Hs.
  eapply wp_mono; [apply Hf; [specialize (Hs ctx)|specialize (Hs cleanup)]; lia|].
  intros b s2 Hs2. eapply spends_trans; [exact Hs|exact Hs2].
Qed.

Lemma Both_guard {A} (m : GoM (TSt W) err) (fail : error -> GoM (TSt W) A) (rest : GoM (TSt W) A) :
  Both m -> (forall e, Both (fail e)) -> Both rest -> Both (guard_err m fail rest).
Proof. intros Hm Hf Hr. apply Both_bind; [done|]. by intros [e|]. Qed.

Lemma Both_ret {A} (a : A) : Both (mret a).
Proof. apply Both_first, Returns_ret. Qed.
End Acquisition.

Lemma Both_Acquire {W : Type} `{Env W} `{Memory W} budget ctx fuel mem :
  Deadline budget -> ctx_nil ctx = false ->
  Both budget ctx (WithTimeout Background acquireCleanupTimeout) fuel (Acquire fuel ctx mem).
Proof.
  intros Hd Hc. unfold Acquire. destruct mem; cbn [negb]; cbv iota; [|apply Both_ret].
  apply Both_guard; [apply Both_first; unfold liveContext; rewrite Hc; by apply Returns_ctxErr|intros; apply Both_ret|].
  apply Both_bind; [apply Both_first; unfold Identify; cbn [negb]; cbv iota; returns|]. intros [id [e|]]; [apply Both_ret|].
  destruct (controlIdentity id); [apply Both_ret|].
  apply Both_bind; [apply Both_first; by apply Returns_readWord|]. intros [v [e|]]; [apply Both_ret|].
  destruct (validateControl v); [apply Both_ret|].
  apply Both_bind; [apply Both_first, Returns_tmod|]. intros _.
  apply Both_guard; [apply Both_first, Returns_check|intros; apply Both_ret|].
  destruct (any_bits v cDebugEnable); [apply Both_ret|].
  apply Both_bind; [apply Both_first, Returns_tmod|]. intros _.
  apply Both_guard; [apply Both_first; by apply Returns_writeControl| |apply Both_ret].
  intros e. apply Both_bind; [apply Both_second; by apply Returns_Release|].
  intros [r|]; apply Both_ret.
Qed.

