(* ===== verification/CortexMControl.v ===== *)
(** * Specifications of the Cortex-M control methods

    Each method is executed symbolically against an arbitrary memory: it keeps
    the target sound and issues only justified writes. *)

From S2P Require Import Prelude Go CortexM CortexMFacts.
Local Open Scope Z_scope.

(** ** Justified writes *)

Definition haltRequest : Z := Z.lor (Z.lor debugKey cDebugEnable) cHalt.
Definition stepRequest : Z := Z.lor (Z.lor debugKey cDebugEnable) cStep.
Definition runRequest : Z := Z.lor debugKey cDebugEnable.

(** Why a target may write [v] to DHCSR. *)
Inductive control_cause (t : Target) (v : Z) : Prop :=
| cause_halt :                      (* a halt asked for by the caller *)
    v = haltRequest -> haltUncertain t = true -> closing t = false -> step t = stepIdle -> control_cause t v
| cause_step :                      (* a step from an owned halt *)
    v = stepRequest -> step t = stepUncertain -> closing t = false -> changed t = true -> control_cause t v
| cause_step_end :                  (* the end of a step that has stopped *)
    v = haltRequest -> step t = stepRestoring -> control_cause t v
| cause_resume :                    (* the resume of an owned halt *)
    v = runRequest -> haltOwned t = true -> resumeUncertain t = true -> step t = stepIdle -> control_cause t v
| cause_restore :                   (* the restoration of the inherited control *)
    v = Z.lor debugKey (saved t) -> closing t = true -> haltOwned t = false -> resumeUncertain t = false ->
    haltUncertain t = false -> step t = stepIdle -> control_cause t v
| cause_acquire :                   (* enabling debug that was found disabled *)
    v = runRequest -> saved t = 0 -> haltOwned t = false -> calm t -> control_cause t v.

Definition justified (a : access) : Prop :=
  match a with
  | RD _ _ _ => True
  | WR addr v _ t =>
      memory t = true /\ snapStalled t = false /\
      ((addr = dcrdrAddress /\ registerPending t = false /\ closing t = false) \/
       (addr = dcrsrAddress /\ registerPending t = true /\ closing t = false) \/
       (addr = dhcsrAddress /\ registerPending t = false /\ control_cause t v))
  end.

Definition is_read (a : access) : Prop := match a with RD _ _ _ => True | WR _ _ _ _ => False end.

Lemma reads_justified l : Forall is_read l -> Forall justified l.
Proof. intros Hl. eapply Forall_impl; [exact Hl|]. by intros []. Qed.

(** DHCSR as an owner of halting debug expects it. *)
Definition control_ok (v : Z) : Prop :=
  any_bits v cDebugEnable = true /\ any_bits v (Z.lor cStep cMaskInts) = false.

(** What a checked read of DHCSR leaves behind. *)
Record checked (t : Target) (v : Z) (t' : Target) : Prop := {
  ck_closing : closing t' = closing t;
  ck_snap : snapStalled t' = snapStalled t;
  ck_running : any_bits v cHalt = false -> haltOwned t' = false /\ resumeUncertain t' = false;
  ck_kept : isM33 t = false -> any_bits v cHalt = true -> haltOwned t' = haltOwned t
}.

Record read_control (t : Target) (v : Z) (e : err) (t' : Target) : Prop := {
  rc_observes : observes t t';
  rc_transfer : keeps_transfer t t';
  rc_checked : e = None -> control_ok v /\ checked t v t';
  rc_failed : e <> None -> closing t' = true \/ (closing t' = closing t /\ snapStalled t' = snapStalled t)
}.

Lemma observeHaltRequest_running v t :
  any_bits v cDebugEnable = true -> any_bits v cHalt = false ->
  haltOwned (observeHaltRequest v t) = false /\ resumeUncertain (observeHaltRequest v t) = false.
Proof.
  intros Hd Hh. unfold observeHaltRequest. rewrite Hd, Hh. simpl. rewrite !andb_true_r.
  destruct (haltOwned t || resumeUncertain t) eqn:E; [done|]. by apply orb_false_iff.
Qed.

Lemma readError_hard t msg : closing (readError (New msg) t) = true.
Proof. done. Qed.

Lemma validate_message v t e :
  fst (validateArchitectureControl v t) = Some e -> exists msg, e = New msg.
Proof.
  unfold validateArchitectureControl. destruct (isM33 t); simpl; [|done].
  destruct (snapStalled _); [intros [= <-]; eauto|]. destruct (any_bits v sSecureDebug); [done|].
  intros [= <-]. eauto.
Qed.

Lemma observed_checked v t :
  let t1 := observeDHCSR v None t in
  let t2 := snd (validateArchitectureControl v t1) in
  let t3 := observeHaltRequest v t2 in
  fst (validateArchitectureControl v t1) = None -> any_bits v cDebugEnable = true ->
  checked t v t3 /\ observes t t3 /\ keeps_transfer t t3.
Proof.
  intros t1 t2 t3 Hv Hd.
  assert (same_flags t t3) as (Hc & Hp & Hl).
  { eapply same_flags_trans; [apply observeDHCSR_flags|].
    eapply same_flags_trans; [apply validate_flags|apply observeHaltRequest_flags]. }
  split; [|split; [|done]].
  - constructor; [done| |by apply observeHaltRequest_running|].
    + unfold t3. rewrite observeHaltRequest_snap. by apply validate_snap.
    + intros E3 Eh. unfold t3, t2, t1, observeHaltRequest, validateArchitectureControl, observeDHCSR.
      rewrite Eh, E3, andb_false_r. simpl. by rewrite E3.
  - eapply observes_trans; [apply observeDHCSR_observes|].
    eapply observes_trans; [apply validate_observes|apply observeHaltRequest_observes].
Qed.

(** Field-wise goals about a target some of whose fields were set. *)
Ltac fields := constructor; simpl; intros; intuition (auto; congruence).

Section Methods.
Context {W : Type} `{Env W} `{Memory W}.

Abbreviation St := (TSt W).

Lemma readControl_spec ctx (s : St) :
  wlp (readControl ctx) (fun r s' =>
    read_control (tgt s) (fst r) (snd r) (tgt s') /\
    exists e, trace s' = RD dhcsrAddress (fst r) e :: trace s /\ (snd r = None -> e = None)) s.
Proof.
  unfold readControl. apply wlp_bind, wlp_readDHCSR. intros v e w Hv. cbn beta iota zeta.
  pose proof (observeDHCSR_observes v e (tgt s)) as Ho1.
  pose proof (observeDHCSR_flags v e (tgt s)) as (Hc1 & Hp1 & Hl1).
  assert (forall e', (snapStalled (observeDHCSR v e (tgt s)) = snapStalled (tgt s) \/ exists msg, e' = New msg) ->
    let t := readError e' (observeDHCSR v e (tgt s)) in
    read_control (tgt s) v (Some e') t) as Hfail.
  { intros e' Hs. cbv zeta. constructor; try done.
    - eapply observes_trans; [exact Ho1|apply readError_observes].
    - unfold readError, keeps_transfer. by destruct (_ || _).
    - intros _. destruct Hs as [Hs|[msg ->]]; [|by left]. unfold readError.
      destruct (_ || _); [by left|]. right. by split. }
  destruct e as [e|].
  { apply wlp_bind, wlp_ret, wlp_bind, wlp_tmod, wlp_ret. simpl. split; [|eauto].
    apply Hfail. left. apply observeDHCSR_err_snap. }
  destruct (negb (any_bits v cDebugEnable) || _) eqn:Ec.
  { apply wlp_bind, wlp_ret, wlp_bind, wlp_tmod, wlp_ret. simpl. split; [|eauto]. apply Hfail. eauto. }
  apply orb_false_iff in Ec as [Ed Es]. apply negb_false_iff in Ed.
  apply wlp_bind, wlp_check. simpl tgt. simpl trace. simpl tworld.
  destruct (fst (validateArchitectureControl v _)) as [e|] eqn:Ev.
  - destruct (validate_message _ _ _ Ev) as [msg ->].
    apply wlp_bind, wlp_tmod, wlp_ret. simpl. split; [|eauto]. constructor; try done.
    + eapply observes_trans; [exact Ho1|]. eapply observes_trans; [apply validate_observes|apply readError_observes].
    + destruct (validate_flags v (observeDHCSR v None (tgt s))) as (_ & Hp2 & Hl2).
      unfold keeps_transfer. simpl. split; congruence.
    + by left.
  - apply wlp_bind, wlp_tmod, wlp_ret. simpl. split; [|eauto].
    destruct (observed_checked v (tgt s) Ev Ed) as (H1 & H2 & H3). constructor; done.
Qed.

(** Polling reads only, and reports what it saw last. *)
Record polled (s : St) (s' : St) : Prop := {
  po_observes : observes (tgt s) (tgt s');
  po_transfer : keeps_transfer (tgt s) (tgt s');
  po_reads : exists l, trace s' = l ++ trace s /\ Forall is_read l
}.

Lemma polled_refl s w : polled s (mkTSt (tgt s) (trace s) w).
Proof. constructor; [apply observes_refl|done|by exists []]. Qed.

Lemma polled_trans s1 s2 s3 : polled s1 s2 -> polled s2 s3 -> polled s1 s3.
Proof.
  intros [O1 [P1 L1] (l1 & T1 & R1)] [O2 [P2 L2] (l2 & T2 & R2)]. constructor.
  - by eapply observes_trans.
  - split; congruence.
  - exists (l2 ++ l1). rewrite T2, T1, app_assoc. split; [done|]. by apply Forall_app.
Qed.

Lemma control_polled s v e e0 s' :
  read_control (tgt s) v e (tgt s') -> trace s' = RD dhcsrAddress v e0 :: trace s -> polled s s'.
Proof. intros [] T. constructor; [done|done|]. eexists [_]. rewrite T. split; [done|by constructor]. Qed.

Definition seen_halt (halted : bool) (s : St) : Prop :=
  exists v l, trace s = RD dhcsrAddress v None :: l /\ control_ok v /\
    any_bits v cHalt = halted /\ any_bits v sHalt = halted.

Lemma waitHalt_spec n ctx halted : forall s : St,
  ctx_nil ctx = false ->
  wlp (waitHalt n ctx halted) (fun e s' => polled s s' /\
    (e = None -> seen_halt halted s' /\ closing (tgt s') = closing (tgt s) /\
       snapStalled (tgt s') = snapStalled (tgt s) /\
       (halted = false -> haltOwned (tgt s') = false /\ resumeUncertain (tgt s') = false) /\
       (halted = true -> isM33 (tgt s) = false -> haltOwned (tgt s') = haltOwned (tgt s)))) s.
Proof.
  induction n as [|n IH]; intros s Hc; [done|]. cbn [waitHalt].
  apply wlp_guard, wlp_ctxErr; [done|]. intros [e|] w.
  { apply wlp_ret. split; [apply polled_refl|done]. }
  apply wlp_bind. eapply wlp_mono; [apply readControl_spec|].
  intros [v e] s1 (Hrc & e0 & T & He0). cbn beta iota. simpl in *.
  assert (polled s s1) as Hp by (eapply control_polled; [exact Hrc|exact T]).
  destruct e as [e|]; [by apply wlp_ret|]. destruct (rc_checked _ _ _ _ Hrc eq_refl) as [Hok [K1 K2 K3 K4]].
  rewrite (He0 eq_refl) in T.
  destruct (negb (any_bits v cHalt) && halted) eqn:E1; [by apply wlp_ret|].
  destruct (any_bits v cHalt && negb halted) eqn:E2; [by apply wlp_ret|].
  assert (any_bits v cHalt = halted) as Eh by (by destruct (any_bits v cHalt), halted).
  destruct (Bool.eqb (any_bits v sHalt) halted) eqn:E3.
  - apply wlp_ret. split; [done|]. intros _. apply eqb_prop in E3. split; [by exists v, (trace s)|].
    split; [done|split; [done|split]]; [intros ->; by apply K3|intros -> E4; by apply K4].
  - apply wlp_guard, wlp_wait; [done|]. intros [e|] w1.
    { apply wlp_ret. split; [|done]. eapply polled_trans; [exact Hp|apply polled_refl]. }
    eapply wlp_mono; [by apply IH|]. intros e s2 [Hp2 Hd]. simpl in *. split.
    + eapply polled_trans; [exact Hp|]. destruct Hp2. by constructor.
    + intros He. destruct (Hd He) as (? & ? & ? & ? & Hk).
      split; [done|]. split; [congruence|]. split; [congruence|]. split; [done|]. intros Et E4.
      rewrite Hk, K4; try done; [congruence|].
      unfold isM33. rewrite (ob_identity _ _ (rc_observes _ _ _ _ Hrc)). exact E4.
Qed.

(** ** Halt and resume *)

Definition op_ok (s : St) : Prop := sound (tgt s) /\ Forall justified (trace s).

Lemma steady_closing t : steady t -> steady (set_closing true t).
Proof. intros []. constructor; simpl; auto. Qed.

Lemma closed_ok s : steady (tgt s) -> Forall justified (trace s) -> closing (tgt s) = true -> op_ok s.
Proof. intros Hs Hj Hc. split; [|done]. constructor; [done|congruence]. Qed.

Lemma calm_ok s : steady (tgt s) -> Forall justified (trace s) -> calm (tgt s) -> op_ok s.
Proof. intros Hs Hj Hc. by split. Qed.

Lemma op_ok_parts s : op_ok s -> memory (tgt s) = true -> closing (tgt s) = false ->
  steady (tgt s) /\ calm (tgt s) /\ Forall justified (trace s).
Proof. intros [[] Hj] Hm Hc. auto. Qed.

Lemma polled_steady s s' : polled s s' -> steady (tgt s) -> steady (tgt s').
Proof. intros [] Hs. by eapply steady_observes. Qed.

Lemma polled_justified s s' : polled s s' -> Forall justified (trace s) -> Forall justified (trace s').
Proof. intros [_ _ (l & -> & Hl)] Hj. apply Forall_app. split; [by apply reads_justified|done]. Qed.

Lemma polled_calm s s' : polled s s' -> calm (tgt s) -> snapStalled (tgt s') = snapStalled (tgt s) -> calm (tgt s').
Proof.
  intros [Ho [Hp Hl] _] [k1 k2 k3 k4 k5 k6] Hs. constructor; try congruence.
  - by rewrite (ob_haltUncertain _ _ Ho).
  - destruct (resumeUncertain (tgt s')) eqn:E; [|done]. by rewrite (ob_resume _ _ Ho) in k4.
  - by rewrite (ob_step _ _ Ho).
Qed.

Lemma wlp_close_with e Q (s : St) :
  Q (Some e) (mkTSt (set_closing true (tgt s)) (trace s) (tworld s)) -> wlp (close_with e) Q s.
Proof. done. Qed.

Lemma wlp_active ctx Q (s : St) :
  (forall e w, Q (Some e) (mkTSt (tgt s) (trace s) w)) ->
  (forall w, memory (tgt s) = true -> closing (tgt s) = false -> ctx_nil ctx = false ->
     Q None (mkTSt (tgt s) (trace s) w)) ->
  wlp (active ctx) Q s.
Proof.
  intros HF HQ. unfold active. apply wlp_bind, wlp_tget, wlp_bind, wlp_tget.
  destruct (memory (tgt s)) eqn:Em, (closing (tgt s)) eqn:Ec; simpl;
    try (apply wlp_ret; destruct s; apply HF).
  unfold liveContext. destruct (ctx_nil ctx) eqn:En; [apply wlp_ret; destruct s; apply HF|].
  apply wlp_ctxErr; [done|]. intros [e|] w; auto.
Qed.

(** The halt request of one call, and the reads around it. *)
Definition halt_written (s s' : St) : Prop :=
  exists l t, trace s' = l ++ WR dhcsrAddress haltRequest None t :: trace s /\ Forall is_read l.

Lemma requestHalt_spec fuel ctx (s : St) :
  steady (tgt s) -> calm (tgt s) -> Forall justified (trace s) -> closing (tgt s) = false -> ctx_nil ctx = false ->
  wlp (requestHalt fuel ctx) (fun e s' => op_ok s' /\
    (e = None -> seen_halt true s' /\ halt_written s s' /\
       (isM33 (tgt s) = false -> haltOwned (tgt s') = true))) s.
Proof.
  intros Hs Hk Hj Hcl Hc. unfold requestHalt. apply wlp_guard, wlp_ctxErr; [done|]. intros [e|] w.
  { apply wlp_ret. split; [by apply calm_ok|done]. }
  apply wlp_bind, wlp_tmod. simpl. apply wlp_guard, wlp_writeWord. simpl. intros e w1.
  set (t1 := set_haltUncertain true (set_changed true (tgt s))).
  assert (justified (WR dhcsrAddress haltRequest e t1)) as Hw.
  { split; [apply Hs|]. split; [apply Hk|]. right. right. split; [done|]. split; [apply Hk|].
    by apply cause_halt; [| | |apply Hk]. }
  destruct e as [e|].
  { apply wlp_close_with. split; [|done]. apply closed_ok; [|by constructor|done].
    destruct Hs, Hk. fields. }
  apply wlp_bind, wlp_tmod. simpl.
  set (s2 := mkTSt (set_haltOwned true (set_haltUncertain false t1)) (WR dhcsrAddress haltRequest None t1 :: trace s) w1).
  assert (steady (tgt s2)) as Hs2 by (destruct Hs, Hk; fields).
  assert (calm (tgt s2)) as Hk2 by (destruct Hk; by constructor).
  assert (Forall justified (trace s2)) as Hj2 by (by constructor).
  apply wlp_guard. eapply wlp_mono; [by apply (waitHalt_spec _ ctx true s2)|].
  intros [e|] s3 [Hp Hd].
  - apply wlp_close_with. split; [|done]. apply closed_ok; simpl; [|by eapply polled_justified|done].
    apply steady_closing. by eapply polled_steady.
  - apply wlp_ret. destruct (Hd eq_refl) as (Hseen & Hcl3 & Hsn & _ & Hown). split; [|intros _; split; [done|split]].
    + apply calm_ok; [by eapply polled_steady|by eapply polled_justified|by eapply polled_calm].
    + destruct (po_reads _ _ Hp) as (l & T & Hl). by exists l, t1.
    + intros E3. by rewrite Hown.
Qed.

(** A checked read leaves the target sound, whatever it reports. *)
Lemma readControl_calm ctx (s : St) :
  steady (tgt s) -> Forall justified (trace s) ->
  wlp (readControl ctx) (fun r s' =>
    steady (tgt s') /\ Forall justified (trace s') /\ polled s s' /\
    (closing (tgt s') = true \/
     closing (tgt s') = closing (tgt s) /\ snapStalled (tgt s') = snapStalled (tgt s)) /\
    (snd r = None -> trace s' = RD dhcsrAddress (fst r) None :: trace s /\ control_ok (fst r) /\
       checked (tgt s) (fst r) (tgt s'))) s.
Proof.
  intros Hs Hj. eapply wlp_mono; [apply readControl_spec|]. intros [v e] s' (Hrc & e0 & T & He). simpl in *.
  pose proof (control_polled _ _ _ _ _ Hrc T) as Hp.
  split; [by eapply polled_steady|]. split; [by eapply polled_justified|]. split; [done|]. split.
  - destruct e as [e|]; [by apply Hrc|]. destruct (rc_checked _ _ _ _ Hrc eq_refl) as [_ []]. auto.
  - intros ->. rewrite T, (He eq_refl). by destruct (rc_checked _ _ _ _ Hrc eq_refl).
Qed.

Lemma polled_ok s s' :
  polled s s' -> steady (tgt s') -> Forall justified (trace s') -> calm (tgt s) ->
  closing (tgt s') = true \/
    closing (tgt s') = closing (tgt s) /\ snapStalled (tgt s') = snapStalled (tgt s) ->
  op_ok s'.
Proof.
  intros Hp Hs Hj Hk [Hc|[Hc Hn]]; [by apply closed_ok|]. apply calm_ok; [done|done|by eapply polled_calm].
Qed.

Definition halt_post (s s' : St) : Prop :=
  exists v l, trace s' = RD dhcsrAddress v None :: l /\ control_ok v /\ any_bits v sHalt = true /\
    ((l = trace s /\ (haltOwned (tgt s') = true -> haltOwned (tgt s) = true)) \/
     (exists l1 l2 t, l = l1 ++ WR dhcsrAddress haltRequest None t :: l2 ++ trace s /\
        Forall is_read l1 /\ Forall is_read l2 /\
        (isM33 (tgt s) = false -> haltOwned (tgt s') = true))).

Lemma Halt_spec fuel ctx (s : St) :
  op_ok s -> wlp (Halt fuel ctx) (fun e s' => op_ok s' /\ (e = None -> halt_post s s')) s.
Proof.
  intros Hop. unfold Halt. apply wlp_guard, wlp_active; [intros e w; by apply wlp_ret|].
  intros w Hm Hcl Hc. destruct (op_ok_parts s Hop Hm Hcl) as (Hs & Hk & Hj).
  apply wlp_bind. eapply wlp_mono; [by apply readControl_calm|].
  intros [v e] s1 (Hs1 & Hj1 & Hp & Hcase & Hr). cbn beta iota. simpl fst in *. simpl snd in *.
  assert (op_ok s1) as Hop1 by (eapply polled_ok; [exact Hp|done..]).
  destruct e as [e|]; simpl; [by apply wlp_ret|].
  destruct (Hr eq_refl) as (T & Hok & Hck). destruct (any_bits v sHalt) eqn:Eh.
  - apply wlp_ret. split; [done|]. intros _. exists v, (trace s). simpl in T. split; [done|]. split; [done|].
    split; [done|]. left. split; [done|]. intros Ho. apply (ob_owned _ _ (po_observes _ _ Hp) Ho).
  - assert (calm (tgt s1)) as Hk1 by (eapply polled_calm; [exact Hp|done|apply Hck]).
    assert (closing (tgt s1) = false) as Hcl1 by (rewrite (ck_closing _ _ _ Hck); done).
    eapply wlp_mono; [by apply requestHalt_spec|]. intros e s2 [Hop2 Hd]. split; [done|]. intros He.
    destruct (Hd He) as ((v2 & l & T2 & Hok2 & Hh2 & Hs2) & (l2 & t & T2' & Hl2) & Hown).
    assert (exists l1, l2 = RD dhcsrAddress v2 None :: l1) as [l1 ->].
    { rewrite T2 in T2'. destruct l2 as [|a l2]; [discriminate|]. injection T2' as <- _. eauto. }
    inversion Hl2; subst. exists v2, l. split; [done|]. split; [done|]. split; [done|]. right.
    exists l1, [RD dhcsrAddress v None], t. rewrite T2 in T2'. injection T2' as ->. rewrite T.
    split; [done|]. split; [done|]. split; [by repeat constructor|]. intros E3. apply Hown.
    unfold isM33. by rewrite (ob_identity _ _ (po_observes _ _ Hp)).
Qed.

Lemma Halted_spec ctx (s : St) :
  op_ok s -> wlp (Halted ctx) (fun r s' => op_ok s' /\
    (snd r = None -> exists v, trace s' = RD dhcsrAddress v None :: trace s /\ control_ok v /\
       fst r = any_bits v sHalt)) s.
Proof.
  intros Hop. unfold Halted. apply wlp_guard, wlp_active; [intros e w; by apply wlp_ret|].
  intros w Hm Hcl Hc. destruct (op_ok_parts s Hop Hm Hcl) as (Hs & Hk & Hj).
  apply wlp_bind. eapply wlp_mono; [by apply readControl_calm|].
  intros [v e] s1 (Hs1 & Hj1 & Hp & Hcase & Hr). cbn beta iota. simpl fst in *. simpl snd in *.
  apply wlp_ret. split; [eapply polled_ok; [exact Hp|done..]|]. simpl. intros ->.
  destruct (Hr eq_refl) as (T & Hok & _). by exists v.
Qed.

Record resumed (s s' : St) : Prop := {
  rs_seen : seen_halt false s';
  rs_owned : haltOwned (tgt s') = false;
  rs_doubt : resumeUncertain (tgt s') = false;
  rs_changed : changed (tgt s') = disabledBefore (tgt s);
  rs_closing : closing (tgt s') = closing (tgt s);
  rs_snap : snapStalled (tgt s') = snapStalled (tgt s);
  rs_step : step (tgt s') = step (tgt s);
  rs_halt : haltUncertain (tgt s') = haltUncertain (tgt s);
  rs_transfer : keeps_transfer (tgt s) (tgt s');
  rs_once : exists l1 l2 t, trace s' = l1 ++ WR dhcsrAddress runRequest None t :: l2 ++ trace s /\
              Forall is_read l1 /\ Forall is_read l2
}.

Record resume_post (s : St) (e : err) (s' : St) : Prop := {
  rp_steady : steady (tgt s');
  rp_justified : Forall justified (trace s');
  rp_saved : saved (tgt s') = saved (tgt s);
  rp_closing : closing (tgt s) = true -> closing (tgt s') = true;
  rp_done : e = None -> resumed s s';
  rp_failed : e <> None -> closing (tgt s') = true \/ (calm (tgt s) -> calm (tgt s'))
}.

Lemma polled_resume s s' e :
  polled s s' -> steady (tgt s') -> Forall justified (trace s') ->
  closing (tgt s') = true \/ closing (tgt s') = closing (tgt s) /\ snapStalled (tgt s') = snapStalled (tgt s) ->
  resume_post s (Some e) s'.
Proof.
  intros Hp Hs Hj Hcase. constructor; try done.
  - apply (ob_saved _ _ (po_observes _ _ Hp)).
  - apply (ob_closing _ _ (po_observes _ _ Hp)).
  - intros _. destruct Hcase as [Hc|[Hc Hn]]; [by left|]. right. intros Hk. by eapply polled_calm.
Qed.

(** The Cortex-M33 check before a resume. *)
Lemma resume_check_spec ctx (s : St) :
  steady (tgt s) -> Forall justified (trace s) -> haltOwned (tgt s) = true ->
  wlp (resume_check ctx) (fun e s' =>
    steady (tgt s') /\ Forall justified (trace s') /\ polled s s' /\
    (closing (tgt s') = true \/
     closing (tgt s') = closing (tgt s) /\ snapStalled (tgt s') = snapStalled (tgt s)) /\
    (e = None -> haltOwned (tgt s') = true /\ snapStalled (tgt s') = snapStalled (tgt s) /\
       closing (tgt s') = closing (tgt s))) s.
Proof.
  intros Hs Hj Ho. unfold resume_check. apply wlp_bind, wlp_tget.
  destruct (isM33 (tgt s)); simpl.
  - apply wlp_bind. eapply wlp_mono; [by apply readControl_calm|].
    intros [v e] s1 (Hs1 & Hj1 & Hp & Hcase & Hr). cbn beta iota. simpl fst in *. simpl snd in *.
    destruct e as [e|]; [by apply wlp_ret|]. destruct (Hr eq_refl) as (_ & _ & []).
    apply wlp_bind, wlp_tget. destruct (haltOwned (tgt s1)) eqn:Eo; by apply wlp_ret.
  - apply wlp_ret. split; [done|]. split; [done|]. split; [destruct s; apply polled_refl|]. auto.
Qed.

Lemma resume_spec fuel ctx (s : St) :
  steady (tgt s) -> Forall justified (trace s) -> haltOwned (tgt s) = true ->
  registerPending (tgt s) = false -> snapStalled (tgt s) = false -> step (tgt s) = stepIdle ->
  ctx_nil ctx = false ->
  wlp (resume fuel ctx) (resume_post s) s.
Proof.
  intros Hs Hj Ho Hpend Hsn Hst Hc. unfold resume.
  apply wlp_guard. eapply wlp_mono; [by apply resume_check_spec|].
  intros e s1 (Hs1 & Hj1 & Hp1 & Hcase & Hok). destruct e as [e|]; [by apply wlp_ret, polled_resume|].
  destruct (Hok eq_refl) as (Ho1 & Hn1 & Hcl1).
  apply wlp_guard, wlp_ctxErr; [done|]. intros [e|] w.
  { apply wlp_ret, polled_resume; try done. eapply polled_trans; [exact Hp1|apply polled_refl]. }
  apply wlp_bind, wlp_tmod. simpl. apply wlp_guard, wlp_writeWord. simpl. intros e w1.
  set (t1 := set_resumeUncertain true (tgt s1)).
  destruct (po_observes _ _ Hp1) as [o1 o2 o3 o4 o5 o6 o7 o8 o9 o10 o11 o12 o13].
  destruct (po_transfer _ _ Hp1) as [p1 p2].
  assert (steady t1) as Ht1 by (destruct Hs1; constructor; simpl; auto; congruence).
  assert (justified (WR dhcsrAddress runRequest e t1)) as Hw.
  { split; [apply Ht1|]. simpl. split; [congruence|]. right. right. split; [done|]. split; [congruence|].
    by apply cause_resume; simpl; [| | |congruence]. }
  destruct e as [e|].
  { apply wlp_close_with. constructor; simpl; try done; [by apply steady_closing|by constructor|by left]. }
  apply wlp_bind, wlp_tmod. simpl.
  set (s2 := mkTSt (set_haltOwned false t1) (WR dhcsrAddress runRequest None t1 :: trace s1) w1).
  assert (steady (tgt s2)) as Hs2.
  { destruct Ht1 as [q1 q2 q3 q4 q5 q6 q7]. constructor; simpl in *; try done. intros Hx. by destruct (q4 Hx). }
  apply wlp_guard. eapply wlp_mono; [by apply (waitHalt_spec _ ctx false s2)|].
  intros e s3 [Hp3 Hd]. pose proof (polled_steady _ _ Hp3 Hs2) as Hs3.
  assert (Forall justified (trace s3)) as Hj3 by (eapply polled_justified; [exact Hp3|by constructor]).
  assert (saved (tgt s3) = saved (tgt s)) as Hsv by (rewrite (ob_saved _ _ (po_observes _ _ Hp3)); exact o3).
  destruct e as [e|].
  - apply wlp_close_with. constructor; simpl; try done; [by apply steady_closing|by left].
  - apply wlp_ret. destruct (Hd eq_refl) as (Hseen & Hcl3 & Hn3 & Hoff & _). destruct (Hoff eq_refl) as [Ho3 Hr3].
    simpl in Hcl3, Hn3. constructor; try done; [congruence|]. intros _. constructor; try done; try congruence.
    + rewrite (ob_relinquish _ _ (po_observes _ _ Hp3) eq_refl Hr3). unfold disabledBefore. simpl. by rewrite o3.
    + rewrite (ob_step _ _ (po_observes _ _ Hp3)). exact o4.
    + rewrite (ob_haltUncertain _ _ (po_observes _ _ Hp3)). exact o5.
    + destruct (po_transfer _ _ Hp3). split; simpl in *; congruence.
    + destruct (po_reads _ _ Hp3) as (l1 & T3 & Hl1), (po_reads _ _ Hp1) as (l2 & T1 & Hl2).
      exists l1, l2, t1. rewrite T3. simpl. by rewrite T1.
Qed.

Lemma resumed_calm s s' : resumed s s' -> calm (tgt s) -> calm (tgt s').
Proof.
  intros [_ _ rd _ _ rn rst rh [rt1 rt2] _] [k1 k2 k3 k4 k5 k6]. constructor; congruence.
Qed.

Lemma Resume_spec fuel ctx (s : St) :
  op_ok s -> wlp (Resume fuel ctx) (fun e s' => op_ok s' /\ (e = None -> haltOwned (tgt s) = true /\ resumed s s')) s.
Proof.
  intros Hop. unfold Resume. apply wlp_guard, wlp_active; [intros e w; by apply wlp_ret|].
  intros w Hm Hcl Hc. destruct (op_ok_parts s Hop Hm Hcl) as (Hs & Hk & Hj).
  apply wlp_bind, wlp_tget. simpl. destruct (haltOwned (tgt s)) eqn:Eo; simpl; [|by apply wlp_ret].
  apply wlp_guard. eapply wlp_mono; [apply resume_spec; simpl; try done; apply Hk|].
  intros e s1 []. simpl in *. destruct e as [e|]; apply wlp_ret.
  - split; [|done]. destruct rp_failed0 as [Hx|Hx]; [done|by apply closed_ok|apply calm_ok; auto].
  - assert (resumed s s1) as Hr by (destruct (rp_done0 eq_refl); by constructor).
    split; [|done]. apply calm_ok; [done|done|by eapply resumed_calm].
Qed.
End Methods.

(** * Register transfers of a Cortex-M target *)

(** The transfer flags and the checks' findings are as they were. *)
Definition undisturbed (t t' : Target) : Prop :=
  registerPending t' = registerPending t /\ registerLost t' = registerLost t /\
  snapStalled t' = snapStalled t /\ closing t' = closing t.

(** DHCSR showing a halted processor whose transfer is complete. *)
Definition transfer_ready (v : Z) : Prop :=
  control_ok v /\ all_bits v (Z.lor cDebugEnable sHalt) = true /\ any_bits v sRegReady = true.

Section Registers.
Context {W : Type} `{Env W} `{Memory W}.

Abbreviation St := (TSt W).

(** Only observations and reads. *)
Record watched (s s' : St) : Prop := {
  wa_observes : observes (tgt s) (tgt s');
  wa_reads : exists l, trace s' = l ++ trace s /\ Forall is_read l
}.

Lemma watched_refl s w : watched s (mkTSt (tgt s) (trace s) w).
Proof. constructor; [apply observes_refl|by exists []]. Qed.

Lemma watched_trans s1 s2 s3 : watched s1 s2 -> watched s2 s3 -> watched s1 s3.
Proof.
  intros [O1 (l1 & T1 & R1)] [O2 (l2 & T2 & R2)]. constructor; [by eapply observes_trans|].
  exists (l2 ++ l1). rewrite T2, T1, app_assoc. split; [done|]. by apply Forall_app.
Qed.

Lemma watched_steady s s' : watched s s' -> steady (tgt s) -> steady (tgt s').
Proof. intros [] Hs. by eapply steady_observes. Qed.

Lemma watched_justified s s' : watched s s' -> Forall justified (trace s) -> Forall justified (trace s').
Proof. intros [_ (l & -> & Hl)] Hj. apply Forall_app. split; [by apply reads_justified|done]. Qed.

Lemma watched_calm s s' :
  watched s s' -> calm (tgt s) -> registerPending (tgt s') = false ->
  registerLost (tgt s') = registerLost (tgt s) -> snapStalled (tgt s') = snapStalled (tgt s) -> calm (tgt s').
Proof.
  intros [Ho _] [k1 k2 k3 k4 k5 k6] H1 H2 H3. constructor; try congruence.
  - by rewrite (ob_haltUncertain _ _ Ho).
  - destruct (resumeUncertain (tgt s')) eqn:E; [|done]. by rewrite (ob_resume _ _ Ho) in k4.
  - by rewrite (ob_step _ _ Ho).
Qed.

Lemma wlp_set_closing Q (s : St) (e : error) :
  Q (Some e) (mkTSt (set_closing true (tgt s)) (trace s) (tworld s)) ->
  wlp (tmod (set_closing true);; mret (Some e)) Q s.
Proof. done. Qed.

Lemma observes_closing t t' : observes t t' -> observes t (set_closing true t').
Proof. intros []. by constructor. Qed.

Lemma observes_pending b t t' : observes t t' -> observes t (set_registerPending b t').
Proof. intros []. by constructor. Qed.

Lemma observes_lost b t t' : observes t t' -> observes t (set_registerLost b t').
Proof. intros []. by constructor. Qed.

Definition status_post (s : St) (e : err) (s' : St) : Prop :=
  watched s s' /\
  (e = None -> exists v, trace s' = RD dhcsrAddress v None :: trace s /\ control_ok v /\
     all_bits v (Z.lor cDebugEnable sHalt) = true /\
     registerPending (tgt s') = negb (any_bits v sRegReady) /\
     registerLost (tgt s') = registerLost (tgt s) /\
     snapStalled (tgt s') = snapStalled (tgt s) /\ closing (tgt s') = closing (tgt s)) /\
  (e <> None -> closing (tgt s') = true \/ registerPending (tgt s') = true \/ undisturbed (tgt s) (tgt s')).

Lemma registerStatus_spec ctx (s : St) : wlp (registerStatus ctx) (status_post s) s.
Proof.
  unfold registerStatus. apply wlp_bind, wlp_tget. destruct (registerLost (tgt s)) eqn:El.
  { apply wlp_ret. split; [destruct s; apply watched_refl|]. split; [by intros [=]|]. intros _. right. right. repeat split. }
  apply wlp_bind, wlp_readDHCSR. intros v e w Hv. cbn beta iota.
  pose proof (observeDHCSR_observes v e (tgt s)) as Ho1.
  pose proof (observeDHCSR_flags v e (tgt s)) as (Hc1 & Hp1 & Hl1).
  assert (forall t, observes (tgt s) t -> watched s (mkTSt t (RD dhcsrAddress v e :: trace s) w)) as Hwatch.
  { intros t Ht. constructor; [done|]. eexists [_]. split; [reflexivity|by constructor]. }
  destruct e as [e|].
  { apply wlp_bind, wlp_tmod, wlp_ret. simpl.
    split; [apply Hwatch; eapply observes_trans; [exact Ho1|apply readError_observes]|]. split; [done|].
    intros _. simpl. unfold readError. destruct (_ || _); [by left|]. right. right.
    repeat split; try congruence. apply observeDHCSR_err_snap. }
  cbv zeta. apply wlp_bind, wlp_tget, wlp_bind, wlp_tget. simpl tgt.
  set (lost := registerPending _ && _). destruct lost eqn:Elost.
  { apply wlp_bind, wlp_tmod, wlp_ret. simpl. split; [apply Hwatch; by apply observes_lost|]. split; [done|].
    intros _. right. left. simpl. unfold lost in Elost. by apply andb_true_iff in Elost as [? _]. }
  destruct (negb (any_bits v cDebugEnable) || _) eqn:Emode.
  { apply wlp_set_closing. split; [apply Hwatch; by apply observes_closing|]. split; [done|]. by left. }
  apply orb_false_iff in Emode as [Ed Es]. apply negb_false_iff in Ed.
  apply wlp_guard, wlp_check. simpl tgt. simpl trace. simpl tworld.
  destruct (fst (validateArchitectureControl v _)) as [e|] eqn:Ev.
  { apply wlp_set_closing. split; [|split; [done|by left]]. apply Hwatch, observes_closing.
    eapply observes_trans; [exact Ho1|apply validate_observes]. }
  destruct (observed_checked v (tgt s) Ev Ed) as ([K1 K2 _ _] & Ho3 & Hp3 & Hl3).
  apply wlp_bind, wlp_tmod. simpl.
  destruct (all_bits v _) eqn:Eh; simpl negb; cbv iota.
  - apply wlp_bind, wlp_tmod, wlp_ret. split; [apply Hwatch; by apply observes_pending|]. split; [|done].
    intros _. exists v. simpl. by rewrite Eh.
  - apply wlp_ret. split; [by apply Hwatch|]. split; [done|]. intros _. right. right. done.
Qed.

Definition ready (s : St) : Prop :=
  exists v l, trace s = RD dhcsrAddress v None :: l /\ transfer_ready v.

Definition loop_post (s : St) (e : err) (s' : St) : Prop :=
  watched s s' /\
  (e = None -> ready s' /\ (exists v l, trace s' = RD dhcsrAddress v None :: l ++ trace s /\ Forall is_read l) /\
     registerPending (tgt s') = false /\ registerLost (tgt s') = registerLost (tgt s) /\
     snapStalled (tgt s') = snapStalled (tgt s) /\ closing (tgt s') = closing (tgt s)) /\
  (e <> None -> closing (tgt s') = true \/ registerPending (tgt s') = true \/ undisturbed (tgt s) (tgt s')).

Lemma waitRegister_loop_spec n ctx : forall s : St,
  ctx_nil ctx = false -> wlp (waitRegister_loop n ctx) (loop_post s) s.
Proof.
  induction n as [|n IH]; intros s Hc; [done|]. cbn [waitRegister_loop].
  apply wlp_guard, wlp_ctxErr; [done|]. intros [e|] w.
  { apply wlp_ret. split; [apply watched_refl|]. split; [done|]. intros _. right. right. repeat split. }
  apply wlp_guard. eapply wlp_mono; [apply registerStatus_spec|].
  intros e s1 (Hw & Hok & Hbad). simpl in *.
  assert (watched s s1) as Hw1 by (destruct Hw; by constructor).
  destruct e as [e|]; [by apply wlp_ret|].
  destruct (Hok eq_refl) as (v & T & Hcv & Hh & Hp & Hl & Hs & Hcl).
  apply wlp_bind, wlp_tget. rewrite Hp. destruct (any_bits v sRegReady) eqn:Er; simpl negb; cbv iota.
  - apply wlp_ret. split; [done|]. split; [|done]. intros _. split; [by exists v, (trace s)|].
    split; [by exists v, []|]. done.
  - apply wlp_guard, wlp_wait; [done|]. intros [e|] w1.
    { apply wlp_ret. split; [destruct Hw1; by constructor|]. split; [done|]. intros _. right. by left. }
    eapply wlp_mono; [by apply IH|]. intros e s2 (Hw2 & Hok2 & Hbad2). simpl in *. split; [|split].
    + eapply watched_trans; [exact Hw1|]. destruct Hw2. by constructor.
    + intros He. destruct (Hok2 He) as (Hr & (v2 & l & T2 & Hl2) & Hp2 & Hlo & Hs2 & Hc2).
      split; [done|]. split; [|split; [done|split; [congruence|split; congruence]]].
      exists v2, (l ++ [RD dhcsrAddress v None]). rewrite T2, T. simpl. rewrite <- app_assoc. split; [done|].
      apply Forall_app. split; [done|by constructor].
    + intros He. destruct (Hbad2 He) as [?|[?|(Hu & _)]]; [by left|right; by left|].
      right. left. simpl in Hu. rewrite Hu. done.
Qed.

(** What is left when the wait for a transfer is over. *)
Record wait_post (s : St) (e : err) (s' : St) : Prop := {
  wt_watched : watched s s';
  wt_done : e = None -> ready s' /\
    (exists v l, trace s' = RD dhcsrAddress v None :: l ++ trace s /\ Forall is_read l) /\
    registerPending (tgt s') = false /\ registerLost (tgt s') = registerLost (tgt s) /\
    snapStalled (tgt s') = snapStalled (tgt s) /\ closing (tgt s') = closing (tgt s);
  wt_failed : e <> None -> closing (tgt s') = true \/
    (registerPending (tgt s') = false /\ undisturbed (tgt s) (tgt s'))
}.

Lemma waitRegister_spec fuel ctx (s : St) :
  ctx_nil ctx = false -> wlp (waitRegister fuel ctx) (wait_post s) s.
Proof.
  intros Hc. unfold waitRegister. apply wlp_bind. eapply wlp_mono; [by apply waitRegister_loop_spec|].
  intros e s1 (Hw & Hok & Hbad). apply wlp_bind, wlp_tget, wlp_bind.
  destruct (negb (is_nil e) && registerPending (tgt s1)) eqn:E.
  - apply andb_true_iff in E as [En Ep]. apply wlp_tmod, wlp_ret. destruct e as [e|]; [|done].
    constructor; simpl; [|done|by left]. destruct Hw as [Ho Hr]. constructor; [by apply observes_closing|done].
  - apply wlp_ret, wlp_ret. constructor; [done|done|]. intros He. destruct (Hbad He) as [?|[Hp|Hu]]; [by left| |].
    + exfalso. rewrite Hp, andb_true_r in E. by destruct e.
    + right. split; [|done]. destruct e; [|done]. simpl in E. done.
Qed.

Record select_post (selector : Z) (s : St) (e : err) (s' : St) : Prop := {
  sl_steady : steady (tgt s');
  sl_justified : Forall justified (trace s');
  sl_done : e = None -> calm (tgt s') /\ closing (tgt s') = closing (tgt s) /\
    exists v l t, trace s' = RD dhcsrAddress v None :: l ++ WR dcrsrAddress selector None t :: trace s /\
      Forall is_read l /\ transfer_ready v;
  sl_failed : e <> None -> closing (tgt s') = true \/ (tgt s' = tgt s /\ trace s' = trace s)
}.

Lemma selectRegister_spec fuel ctx selector (s : St) :
  steady (tgt s) -> calm (tgt s) -> Forall justified (trace s) -> closing (tgt s) = false -> ctx_nil ctx = false ->
  wlp (selectRegister fuel ctx selector) (select_post selector s) s.
Proof.
  intros Hs Hk Hj Hcl Hc. unfold selectRegister. apply wlp_guard, wlp_ctxErr; [done|]. intros [e|] w.
  { apply wlp_ret. constructor; simpl; try done. by right. }
  apply wlp_bind, wlp_tmod. simpl. apply wlp_guard, wlp_writeWord. simpl. intros e w1.
  set (t1 := set_registerPending true (tgt s)).
  assert (steady t1) as Ht1 by (destruct Hs; by constructor).
  assert (justified (WR dcrsrAddress selector e t1)) as Hw.
  { split; [apply Hs|]. split; [apply Hk|]. right. by left. }
  destruct e as [e|].
  { apply wlp_set_closing. constructor; simpl; try done; [by apply steady_closing|by constructor|by left]. }
  eapply wlp_mono; [by apply waitRegister_spec|]. intros e s2 []. simpl in *.
  constructor.
  - by eapply (watched_steady _ _ wt_watched0).
  - eapply (watched_justified _ _ wt_watched0). by constructor.
  - intros He. destruct (wt_done0 He) as ((v & l0 & T & Hr) & (v' & l & T' & Hl) & Hp & Hlo & Hsn & Hc2).
    simpl in *. rewrite T in T'. injection T' as <- ->. split; [|split; [done|by exists v, l, t1]].
    destruct (wa_observes _ _ wt_watched0) as [o1 o2 o3 o4 o5 o6 o7 o8 o9 o10 o11 o12 o13].
    destruct Hk as [k1 k2 k3 k4 k5 k6]. constructor; simpl in *; try congruence.
    destruct (resumeUncertain (tgt s2)); [|done]. by rewrite o8 in k4.
  - intros He. destruct (wt_failed0 He) as [?|[Hp (Hu & _)]]; [by left|]. simpl in Hu. congruence.
Qed.

(** A wait from a calm target leaves it sound, and calm when it succeeds. *)
Lemma wait_ok s e s' :
  wait_post s e s' -> steady (tgt s) -> calm (tgt s) -> Forall justified (trace s) ->
  steady (tgt s') /\ Forall justified (trace s') /\ op_ok s' /\
  (e = None -> calm (tgt s') /\ closing (tgt s') = closing (tgt s)).
Proof.
  intros [Hw Hd Hf] Hs Hk Hj. pose proof (watched_steady _ _ Hw Hs) as Hs'.
  pose proof (watched_justified _ _ Hw Hj) as Hj'. split; [done|]. split; [done|].
  destruct e as [e|].
  - split; [|done]. destruct Hf as [Hc|(Hp & _ & Hl & Hn & _)]; [done|by apply closed_ok|].
    apply calm_ok; [done|done|by eapply watched_calm].
  - destruct Hd as (_ & _ & Hp & Hl & Hn & Hc); [done|].
    assert (calm (tgt s')) as Hk' by (by eapply watched_calm). split; [by apply calm_ok|done].
Qed.

(** The accesses of a completed register read, oldest last. *)
Definition register_read (reg value : Z) (s s' : St) : Prop :=
  exists ready l1 l2 t,
    trace s' = RD dcrdrAddress value None ::
      RD dhcsrAddress ready None :: l1 ++ WR dcrsrAddress (uint32 (reg - 1)) None t :: l2 ++ trace s /\
    Forall is_read l1 /\ Forall is_read l2 /\ transfer_ready ready.

Lemma ReadRegister_spec fuel ctx reg (s : St) :
  op_ok s -> wlp (ReadRegister fuel ctx reg) (fun r s' => op_ok s' /\
    match snd r with
    | None => R0 <= reg <= PSP /\ register_read reg (fst r) s s'
    | Some _ => fst r = 0
    end) s.
Proof.
  intros Hop. unfold ReadRegister. destruct ((reg <? R0) || (PSP <? reg)) eqn:Er; [by apply wlp_ret|].
  apply orb_false_iff in Er as [Er1%Z.ltb_ge Er2%Z.ltb_ge].
  apply wlp_guard, wlp_active; [intros e w; by apply wlp_ret|].
  intros w Hm Hcl Hc. destruct (op_ok_parts s Hop Hm Hcl) as (Hs & Hk & Hj).
  apply wlp_guard. eapply wlp_mono; [by apply waitRegister_spec|]. intros e s1 Hw.
  destruct (wait_ok _ _ _ Hw Hs Hk Hj) as (Hs1 & Hj1 & Hop1 & Hok1).
  destruct e as [e|]; [by apply wlp_ret|]. destruct (Hok1 eq_refl) as [Hk1 Hcl1].
  destruct (wt_done _ _ _ Hw eq_refl) as (_ & (v1 & l2 & T1 & Hl2) & _). simpl in T1, Hcl1.
  apply wlp_guard. eapply wlp_mono; [apply selectRegister_spec; try done; congruence|]. intros e s2 [Hs2 Hj2 Hd2 Hf2].
  destruct e as [e|].
  { apply wlp_ret. split; [|done]. destruct Hf2 as [Hc2|[Ht HT]]; [done|by apply closed_ok|].
    split; [by rewrite Ht; apply Hop1|by rewrite HT]. }
  destruct (Hd2 eq_refl) as (Hk2 & Hcl2 & v & l1 & t & T2 & Hl1 & Hr).
  apply wlp_bind, wlp_readWord. intros value e w2 Hv. cbn beta iota. destruct e as [e|].
  - apply wlp_bind, wlp_tmod, wlp_ret. split; [|done].
    apply closed_ok; simpl; [by apply steady_closing|by constructor|done].
  - apply wlp_ret. split; [apply calm_ok; simpl; [done|by constructor|done]|]. simpl. split; [lia|].
    exists v, l1, (RD dhcsrAddress v1 None :: l2), t. simpl. rewrite T2, T1. split; [done|].
    split; [done|]. split; [by constructor|done].
Qed.

(** The accesses of a completed register write: the data is staged once, then
    selected once. *)
Definition register_written (reg value : Z) (s s' : St) : Prop :=
  exists ready l1 l2 t1 t2,
    trace s' = RD dhcsrAddress ready None ::
      l1 ++ WR dcrsrAddress (Z.lor (uint32 (reg - 1)) (Z.shiftl 1 16)) None t2 ::
      WR dcrdrAddress value None t1 :: l2 ++ trace s /\
    Forall is_read l1 /\ Forall is_read l2 /\ transfer_ready ready.

Lemma WriteRegister_spec fuel ctx reg value (s : St) :
  op_ok s -> wlp (WriteRegister fuel ctx reg value) (fun e s' => op_ok s' /\
    (e = None -> validateRegisterWrite reg value = None /\ register_written reg value s s')) s.
Proof.
  intros Hop. unfold WriteRegister. destruct (validateRegisterWrite reg value) as [e|] eqn:Ev; [by apply wlp_ret|].
  apply wlp_guard, wlp_active; [intros e w; by apply wlp_ret|].
  intros w Hm Hcl Hc. destruct (op_ok_parts s Hop Hm Hcl) as (Hs & Hk & Hj).
  apply wlp_guard. eapply wlp_mono; [by apply waitRegister_spec|]. intros e s1 Hw.
  destruct (wait_ok _ _ _ Hw Hs Hk Hj) as (Hs1 & Hj1 & Hop1 & Hok1).
  destruct e as [e|]; [by apply wlp_ret|]. destruct (Hok1 eq_refl) as [Hk1 Hcl1].
  destruct (wt_done _ _ _ Hw eq_refl) as (_ & (v1 & l2 & T1 & Hl2) & _). simpl in T1, Hcl1.
  apply wlp_guard, wlp_ctxErr; [done|]. intros [e|] w1; [by apply wlp_ret|].
  apply wlp_guard, wlp_writeWord. simpl. intros e w2.
  assert (Forall justified (WR dcrdrAddress value e (tgt s1) :: trace s1)) as Hj2.
  { constructor; [|done]. split; [apply Hs1|]. split; [apply Hk1|]. left. split; [done|]. split; [apply Hk1|congruence]. }
  destruct e as [e|].
  { apply wlp_set_closing. split; [|done]. apply closed_ok; simpl; [by apply steady_closing|done|done]. }
  apply wlp_guard. eapply wlp_mono; [apply selectRegister_spec; simpl; try done; congruence|].
  intros e s3 [Hs3 Hj3 Hd3 Hf3]. destruct e as [e|].
  { apply wlp_set_closing. split; [|done]. apply closed_ok; simpl; [by apply steady_closing|done|done]. }
  destruct (Hd3 eq_refl) as (Hk3 & Hcl3 & v & l1 & t & T3 & Hl1 & Hr).
  apply wlp_ret. split; [by apply calm_ok|]. intros _. split; [done|]. simpl in T3.
  exists v, l1, (RD dhcsrAddress v1 None :: l2), (tgt s1), t. rewrite T3, T1. split; [done|].
  split; [done|]. split; [by constructor|done].
Qed.
End Registers.
