(* ===== verification/CortexMRelease.v ===== *)
(** * Single steps of a Cortex-M target *)

From S2P Require Import Prelude Go CortexM CortexMFacts CortexMControl.
Local Open Scope Z_scope.

Lemma validate_ok_snap v t :
  steady t -> fst (validateArchitectureControl v t) = None ->
  snapStalled (snd (validateArchitectureControl v t)) = false.
Proof.
  intros Hs. pose proof (st_snap _ Hs) as Hm. unfold validateArchitectureControl.
  destruct (isM33 t) eqn:E3; simpl.
  - destruct (snapStalled (if any_bits v cSnapStall then set_snapStalled true t else t)) eqn:Es; [done|].
    by destruct (any_bits v sSecureDebug).
  - intros _. destruct (snapStalled t); [|done]. by discriminate Hm.
Qed.

(** ** Phases *)

Lemma steady_lost t : steady t -> step t <> stepIdle -> steady (set_step stepLost t).
Proof. intros [] Hn. constructor; simpl; auto. intros [?|?]; done. Qed.

Lemma steady_stopped t : steady t -> step t = stepRunning -> steady (set_step stepStopped t).
Proof.
  intros [q1 q2 q3 q4 q5 q6 q7] Hn. constructor; simpl; auto.
  intros _. apply q5. congruence.
Qed.

Lemma steady_ownership reason t : steady t -> step t = stepStopped -> steady (stepOwnership reason t).
Proof.
  intros Hs Hn. pose proof (saved_zero t (st_saved _ Hs)) as Hz. destruct Hs as [q1 q2 q3 q4 q5 q6 q7].
  destruct (q4 (or_intror Hn)) as [Hc Ho]. assert (step t <> stepIdle) as Hi by congruence.
  unfold stepOwnership. destruct (Z.land reason 0x1f =? 1); constructor; simpl; auto; try (by intros [?|?]).
  - done.
  - intros Hz0. left. by apply Hz.
Qed.

Lemma steady_idle t : steady t -> step t = stepRestoring -> steady (set_step stepIdle t).
Proof. intros [] Hn. constructor; simpl; auto; try done. by intros [?|?]. Qed.

(** What a step leaves alone. *)
Record step_frame (t t' : Target) : Prop := {
  sf_identity : identity t' = identity t;
  sf_saved : saved t' = saved t;
  sf_closing : closing t' = closing t;
  sf_haltUncertain : haltUncertain t' = haltUncertain t;
  sf_pending : registerPending t' = registerPending t;
  sf_lost : registerLost t' = registerLost t
}.

Lemma step_frame_refl t : step_frame t t.
Proof. by constructor. Qed.

Lemma step_frame_trans t1 t2 t3 : step_frame t1 t2 -> step_frame t2 t3 -> step_frame t1 t3.
Proof. intros [] []. constructor; congruence. Qed.

Lemma step_frame_read v e t : step_frame t (observeDHCSR v e t).
Proof.
  pose proof (observeDHCSR_observes v e t) as []. pose proof (observeDHCSR_flags v e t) as (? & ? & ?).
  by constructor.
Qed.

Lemma step_frame_validate v t : step_frame t (snd (validateArchitectureControl v t)).
Proof.
  pose proof (validate_observes v t) as []. pose proof (validate_flags v t) as (? & ? & ?). by constructor.
Qed.

(** The phase after a status read that was accepted. *)
Definition next_phase (v : Z) (p : stepPhase) : stepPhase :=
  if bool_decide (p = stepRunning) && all_bits v (Z.lor cHalt sHalt) then stepStopped else p.

Lemma observeStepState_spec v t :
  steady t -> step t <> stepIdle ->
  steady (snd (observeStepState v t)) /\ step_frame t (snd (observeStepState v t)) /\
  step (snd (observeStepState v t)) <> stepIdle /\
  (fst (observeStepState v t) = None -> step (snd (observeStepState v t)) = next_phase v (step t)).
Proof.
  intros Hs Hi. unfold observeStepState, next_phase. cbv zeta.
  match goal with |- context [if ?b then (Some _, _) else _] => destruct b end; simpl.
  - split; [by apply steady_lost|]. split; [by constructor|]. done.
  - destruct (bool_decide_reflect (step t = stepRunning)) as [Er|Er]; simpl; [|split; [done|split; [by constructor|done]]].
    destruct (all_bits v _); simpl; [|split; [done|split; [by constructor|done]]].
    split; [by apply steady_stopped|]. split; [by constructor|]. done.
Qed.

Section Stepping.
Context {W : Type} `{Env W} `{Memory W}.

Abbreviation St := (TSt W).

(** A settling step only reads, or repeats the request that ends it. *)
Definition settles (a : access) : Prop :=
  match a with RD _ _ _ => True | WR addr v _ _ => addr = dhcsrAddress /\ v = haltRequest end.

Record settling (s s' : St) : Prop := {
  se_steady : steady (tgt s');
  se_justified : Forall justified (trace s');
  se_frame : step_frame (tgt s) (tgt s');
  se_trace : exists l, trace s' = l ++ trace s /\ Forall settles l
}.

Lemma settling_trans s1 s2 s3 : settling s1 s2 -> settling s2 s3 -> settling s1 s3.
Proof.
  intros [S1 J1 F1 (l1 & T1 & R1)] [S2 J2 F2 (l2 & T2 & R2)]. constructor; [done|done|by eapply step_frame_trans|].
  exists (l2 ++ l1). rewrite T2, T1, app_assoc. split; [done|]. by apply Forall_app.
Qed.

(** The precondition of everything a running step does. *)
Record stepping (s : St) : Prop := {
  sp_steady : steady (tgt s);
  sp_justified : Forall justified (trace s);
  sp_pending : registerPending (tgt s) = false;
  sp_phase : step (tgt s) <> stepIdle
}.

Lemma settling_refl s w : stepping s -> settling s (mkTSt (tgt s) (trace s) w).
Proof. intros []. constructor; [done|done|by constructor|by exists []]. Qed.

Lemma stepping_next s s' : settling s s' -> stepping s -> step (tgt s') <> stepIdle -> stepping s'.
Proof. intros [] [] Hi. constructor; try done. by rewrite (sf_pending _ _ se_frame0). Qed.

Definition status_ok (s : St) (v : Z) (s' : St) : Prop :=
  step (tgt s) <> stepUncertain /\ step (tgt s) <> stepLost /\
  snapStalled (tgt s') = false /\ step (tgt s') = next_phase v (step (tgt s)) /\
  trace s' = RD dhcsrAddress v None :: trace s.

Lemma stepStatus_spec ctx (s : St) :
  stepping s -> wlp (stepStatus ctx) (fun r s' =>
    settling s s' /\ step (tgt s') <> stepIdle /\ (snd r = None -> status_ok s (fst r) s')) s.
Proof.
  intros Hp. pose proof Hp as [Hs Hj Hpe Hi]. unfold stepStatus. apply wlp_bind, wlp_tget.
  destruct (bool_decide (step (tgt s) = stepUncertain) || _) eqn:Eu;
    [apply wlp_ret; split; [destruct s; by apply settling_refl|by split]|].
  apply orb_false_iff in Eu as [Eu%bool_decide_eq_false El%bool_decide_eq_false].
  apply wlp_bind, wlp_readDHCSR. intros v e w Hv. cbn beta iota.
  pose proof (steady_observes _ _ Hs (observeDHCSR_observes v e (tgt s))) as Hs1.
  pose proof (step_frame_read v e (tgt s)) as Hf1.
  assert (step (observeDHCSR v e (tgt s)) = step (tgt s)) as Hi1 by apply (ob_step _ _ (observeDHCSR_observes v e (tgt s))).
  assert (forall t w', steady t -> step_frame (observeDHCSR v e (tgt s)) t ->
    settling s (mkTSt t (RD dhcsrAddress v e :: trace s) w')) as Hset.
  { intros t w' Ht Hf. constructor; simpl; [done|by constructor|by eapply step_frame_trans|].
    eexists [_]. split; [reflexivity|by constructor]. }
  destruct e as [e|].
  { apply wlp_ret. split; [apply Hset; [done|by constructor]|]. simpl. split; [congruence|done]. }
  apply wlp_guard, wlp_check. simpl tgt. simpl trace. simpl tworld.
  destruct (observeStepState_spec v _ Hs1 ltac:(by rewrite Hi1)) as (Hs2 & Hf2 & Hi2 & Hn2).
  destruct (fst (observeStepState v _)) as [e|] eqn:E1.
  { apply wlp_ret. split; [by apply Hset|by split]. }
  apply wlp_guard, wlp_check. simpl tgt. simpl trace. simpl tworld.
  set (t2 := snd (observeStepState v (observeDHCSR v None (tgt s)))) in *.
  pose proof (steady_observes _ _ Hs2 (validate_observes v t2)) as Hs3.
  pose proof (ob_step _ _ (validate_observes v t2)) as Hi3.
  assert (settling s (mkTSt (snd (validateArchitectureControl v t2)) (RD dhcsrAddress v None :: trace s) w)) as Hfin
    by (apply Hset; [done|eapply step_frame_trans; [exact Hf2|apply step_frame_validate]]).
  destruct (fst (validateArchitectureControl v t2)) as [e|] eqn:E2; apply wlp_ret; simpl.
  - split; [done|]. split; [congruence|done].
  - split; [done|]. split; [congruence|]. intros _. split; [done|]. split; [done|].
    split; [by apply validate_ok_snap|]. split; [|done]. simpl. rewrite Hi3, Hn2, Hi1; done.
Qed.

Lemma settling_steady s t l w :
  settling s (mkTSt t l w) -> forall t' w', steady t' -> step_frame t t' -> settling s (mkTSt t' l w').
Proof.
  intros [Hs Hj Hf Hl] t' w' Hs' Hf'. constructor; simpl in *; try done. by eapply step_frame_trans.
Qed.

(** Until the request that ends it, a stopped step is only read. *)
Lemma step_reason_spec ctx (s : St) :
  stepping s -> step (tgt s) = stepStopped \/ step (tgt s) = stepRestoring ->
  wlp (step_reason ctx) (fun e s' => settling s s' /\ step (tgt s') <> stepIdle /\
    (e = None -> step (tgt s') = stepRestoring) /\ snapStalled (tgt s') = snapStalled (tgt s)) s.
Proof.
  intros Hp Hph. pose proof Hp as [Hs Hj Hpe Hi]. unfold step_reason. apply wlp_bind, wlp_tget.
  destruct (bool_decide_reflect (step (tgt s) = stepStopped)) as [Es|Es].
  - apply wlp_bind, wlp_readWord. intros v e w Hv. cbn beta iota.
    assert (settling s (mkTSt (tgt s) (RD dfsrAddress v e :: trace s) w)) as Hset.
    { constructor; simpl; [done|by constructor|by constructor|]. eexists [_]. split; [reflexivity|by constructor]. }
    destruct e as [e|]; [by apply wlp_ret|].
    apply wlp_bind, wlp_tmod, wlp_ret. simpl. split; [|repeat split; try done].
    + eapply settling_steady; [exact Hset|by apply steady_ownership|].
      unfold stepOwnership. by destruct (_ =? 1).
    + unfold stepOwnership. by destruct (_ =? 1).
  - apply wlp_ret. split; [destruct s; by apply settling_refl|]. destruct Hph; done.
Qed.

Lemma finishStep_spec ctx (s : St) :
  stepping s -> step (tgt s) = stepStopped \/ step (tgt s) = stepRestoring ->
  snapStalled (tgt s) = false -> ctx_nil ctx = false ->
  wlp (finishStep ctx) (fun e s' => settling s s' /\ step (tgt s') <> stepIdle /\
    (e = None -> step (tgt s') = stepRestoring)) s.
Proof.
  intros Hp Hph Hsn Hc. unfold finishStep. apply wlp_guard. eapply wlp_mono; [by apply step_reason_spec|].
  intros e s1 (Hset1 & Hi1 & Hr1 & Hsn1). destruct e as [e|]; [by apply wlp_ret|]. specialize (Hr1 eq_refl).
  pose proof (stepping_next _ _ Hset1 Hp Hi1) as Hp1.
  apply wlp_guard, wlp_ctxErr; [done|]. intros [e|] w.
  { apply wlp_ret. split; [|done]. eapply settling_trans; [exact Hset1|by apply settling_refl]. }
  assert (forall s2 : St, settling s s2 -> step (tgt s2) = stepRestoring -> snapStalled (tgt s2) = false ->
    wlp (writeWord ctx dhcsrAddress haltRequest) (fun e s' => settling s s' /\ step (tgt s') <> stepIdle /\
      (e = None -> step (tgt s') = stepRestoring)) s2) as Hwrite.
  { intros s2 [S2 J2 F2 (l2 & T2 & L2)] R2 N2. apply wlp_writeWord. intros e w2. simpl.
    split; [|split; [congruence|done]]. constructor; simpl; [done| |done|].
    - constructor; [|done]. split; [apply S2|]. split; [done|]. right. right. split; [done|].
      split; [rewrite (sf_pending _ _ F2); apply Hp|]. by apply cause_step_end.
    - eexists (_ :: l2). rewrite T2. split; [reflexivity|]. by constructor. }
  apply wlp_bind, wlp_tget. apply wlp_guard. simpl.
  destruct (isM33 (tgt s1)).
  - apply wlp_bind. eapply wlp_mono; [apply stepStatus_spec; by destruct Hp1|].
    intros [v e] s2 (Hset2 & Hi2 & Hok2). cbn beta iota. apply wlp_ret. simpl in *.
    assert (settling s s2) as Hset by (eapply settling_trans; [exact Hset1|]; destruct Hset2; by constructor).
    destruct e as [e|]; [by apply wlp_ret|]. destruct (Hok2 eq_refl) as (_ & _ & N2 & R2 & _). simpl in R2.
    apply Hwrite; [done| |done]. rewrite R2, Hr1. unfold next_phase. by rewrite bool_decide_eq_false_2.
  - apply wlp_ret. apply Hwrite; [|done|simpl; congruence].
    eapply settling_trans; [exact Hset1|by apply settling_refl].
Qed.

(** A settled step: halted again, with stepping off. *)
Definition step_seen (s : St) : Prop :=
  exists v l, trace s = RD dhcsrAddress v None :: l /\
    Z.land v 15 = Z.lor cDebugEnable cHalt /\ any_bits v sHalt = true.

Lemma settleStep_spec n ctx : forall s : St,
  stepping s -> ctx_nil ctx = false ->
  wlp (settleStep n ctx) (fun e s' => settling s s' /\
    (e = None -> step (tgt s') = stepIdle /\ snapStalled (tgt s') = false /\
       resumeUncertain (tgt s') = false /\ step_seen s')) s.
Proof.
  induction n as [|n IH]; intros s Hp Hc; [done|]. cbn [settleStep].
  apply wlp_guard, wlp_ctxErr; [done|]. intros [e|] w; [apply wlp_ret; split; [by apply settling_refl|done]|].
  apply wlp_bind. eapply wlp_mono; [apply stepStatus_spec; by destruct Hp|].
  intros [v e] s1 (Hset1 & Hi1 & Hok1). cbn beta iota. simpl in *.
  assert (settling s s1) as Hset by (destruct Hset1; by constructor).
  pose proof (stepping_next _ _ Hset Hp Hi1) as Hp1.
  destruct e as [e|]; [by apply wlp_ret|]. destruct (Hok1 eq_refl) as (Nu & Nl & N1 & R1 & T1). simpl in *.
  apply wlp_bind, wlp_tget.
  destruct (bool_decide (step (tgt s1) = stepRestoring) && _ && _) eqn:Edone.
  - rewrite !andb_true_iff in Edone. destruct Edone as [[Er%bool_decide_eq_true Ev%Z.eqb_eq] Eh].
    apply wlp_bind, wlp_tmod, wlp_ret. simpl. split.
    + destruct Hset as [q1 q2 [] q4]. constructor; simpl; [by apply steady_idle|done| |done]. by constructor.
    + intros _. split; [done|]. split; [done|]. split; [|by exists v, (trace s)].
      apply (st_doubt _ (sp_steady _ Hp1)). congruence.
  - assert (wlp (if all_bits v (Z.lor cHalt sHalt) then finishStep ctx else mret None) (fun e s' =>
      settling s s' /\ step (tgt s') <> stepIdle) s1) as Hfin.
    { destruct (all_bits v (Z.lor cHalt sHalt)) eqn:Eh; [|by apply wlp_ret].
      eapply wlp_mono; [apply finishStep_spec; try done|].
      - rewrite R1. unfold next_phase. rewrite Eh, andb_true_r. pose proof (sp_phase _ Hp) as Hph.
        destruct (step (tgt s)); simpl; auto; done.
      - intros e s2 (Hs2 & Hi2 & _). split; [by eapply settling_trans|done]. }
    apply wlp_guard. eapply wlp_mono; [exact Hfin|]. intros e s2 [Hset2 Hi2].
    destruct e as [e|]; [by apply wlp_ret|]. pose proof (stepping_next _ _ Hset2 Hp Hi2) as Hp2.
    apply wlp_guard, wlp_wait; [done|]. intros [e|] w2.
    { apply wlp_ret. split; [|done]. eapply settling_trans; [exact Hset2|by apply settling_refl]. }
    eapply wlp_mono; [apply IH; [by destruct Hp2|done]|]. intros e s3 [Hset3 Hd3]. split; [|done].
    eapply settling_trans; [exact Hset2|]. destruct Hset3. by constructor.
Qed.

(** ** Step *)

(** The accesses of a step: one launch, and what settled it. *)
Definition stepped (s s' : St) : Prop :=
  exists l1 l2 t, trace s' = l1 ++ WR dhcsrAddress stepRequest None t :: l2 ++ trace s /\
    Forall settles l1 /\ Forall is_read l2.

Lemma Step_spec fuel ctx (s : St) :
  op_ok s -> wlp (Step fuel ctx) (fun e s' => op_ok s' /\
    (e = None -> haltOwned (tgt s) = true /\ haltOwned (tgt s') = true /\ step_seen s' /\ stepped s s')) s.
Proof.
  intros Hop. unfold Step. apply wlp_guard, wlp_active; [intros e w; by apply wlp_ret|].
  intros w Hm Hcl Hc. destruct (op_ok_parts s Hop Hm Hcl) as (Hs & Hk & Hj).
  apply wlp_bind, wlp_tget. simpl. destruct (haltOwned (tgt s)) eqn:Eo; simpl; [|by apply wlp_ret].
  apply wlp_guard. eapply wlp_mono; [by apply waitRegister_spec|]. intros e s1 Hw.
  destruct (wait_ok _ _ _ Hw Hs Hk Hj) as (Hs1 & Hj1 & Hop1 & Hok1).
  destruct e as [e|]; [by apply wlp_ret|]. destruct (Hok1 eq_refl) as [Hk1 Hcl1].
  destruct (wt_done _ _ _ Hw eq_refl) as (_ & (v1 & l2 & T1 & Hl2) & _). simpl in T1, Hcl1.
  apply wlp_bind, wlp_tget. destruct (haltOwned (tgt s1)) eqn:Eo1; simpl; [|by apply wlp_ret].
  apply wlp_guard, wlp_ctxErr; [done|]. intros [e|] w1; [by apply wlp_ret|].
  apply wlp_bind, wlp_readWord. intros reason e w2 Hv. cbn beta iota. simpl.
  assert (Forall justified (RD dfsrAddress reason e :: trace s1)) as Hj2 by (by constructor).
  destruct e as [e|].
  { apply wlp_bind, wlp_tmod, wlp_ret. split; [|done]. simpl. unfold readError.
    destruct (_ || _); [apply closed_ok|apply calm_ok]; simpl; try done. by apply steady_closing. }
  destruct (any_bits reason 0x1e); [apply wlp_ret; split; [by apply calm_ok|done]|].
  apply wlp_guard, wlp_ctxErr; [done|]. intros [e|] w3; [apply wlp_ret; split; [by apply calm_ok|done]|].
  apply wlp_bind, wlp_tmod. simpl. apply wlp_guard, wlp_writeWord. simpl. intros e w4.
  set (t1 := set_haltOwned false (set_step stepUncertain (tgt s1))).
  pose proof (st_owned _ Hs1 Eo1) as Hch.
  assert (steady t1) as Ht1.
  { destruct Hs1 as [q1 q2 q3 q4 q5 q6 q7]. constructor; simpl; auto; try done; try (by intros [?|?]).
    intros _. split; apply Hk1. }
  assert (Forall justified (WR dhcsrAddress stepRequest e t1 :: RD dfsrAddress reason None :: trace s1)) as Hj4.
  { constructor; [|done]. split; [apply Hs1|]. split; [apply Hk1|]. right. right. split; [done|].
    split; [apply Hk1|]. apply cause_step; simpl; try done. congruence. }
  destruct e as [e|].
  { apply wlp_close_with. split; [|done]. apply closed_ok; simpl; [by apply steady_closing|done|done]. }
  apply wlp_bind, wlp_tmod. simpl. apply wlp_guard.
  set (s5 := mkTSt (set_step stepRunning t1) _ w4).
  assert (stepping s5) as Hp5.
  { constructor; simpl; [|done|apply Hk1|done].
    destruct Ht1 as [q1 q2 q3 q4 q5 q6 q7]. constructor; simpl; auto. }
  eapply wlp_mono; [by apply (settleStep_spec _ ctx s5)|]. intros e s6 [[S6 J6 F6 (l1 & T6 & L6)] Hd].
  destruct e as [e|].
  { apply wlp_close_with. split; [|done]. apply closed_ok; simpl; [by apply steady_closing|done|done]. }
  destruct (Hd eq_refl) as (Hidle & Hsn & Hru & Hseen).
  apply wlp_bind, wlp_tget. destruct (haltOwned (tgt s6)) eqn:Eo6; simpl.
  - apply wlp_ret. split; [|intros _; split; [done|split; [done|split; [done|]]]].
    + destruct F6. simpl in *. apply calm_ok; [done|done|]. destruct Hk1. constructor; congruence.
    + exists l1, (RD dfsrAddress reason None :: RD dhcsrAddress v1 None :: l2), t1. rewrite T6. simpl. rewrite T1.
      split; [done|]. split; [done|]. by repeat constructor.
  - apply wlp_close_with. split; [|done]. apply closed_ok; simpl; [by apply steady_closing|done|done].
Qed.
End Stepping.

(** * Restoring the inherited debug control: release and acquisition *)

(** A closing target with no transfer and no step left. *)
Record settled_target (t : Target) : Prop := {
  se_closing : closing t = true;
  se_pending : registerPending t = false;
  se_step : step t = stepIdle
}.

Lemma observes_settled t t' : observes t t' -> same_flags t t' -> settled_target t -> settled_target t'.
Proof.
  intros Ho (_ & Hp & _) [k1 k2 k3]. constructor; [by apply (ob_closing _ _ Ho)|congruence|by rewrite (ob_step _ _ Ho)].
Qed.

(** Nothing is uncertain any more. *)
Record certain (t : Target) : Prop := {
  ct_halt : haltUncertain t = false;
  ct_resume : resumeUncertain t = false;
  ct_snap : snapStalled t = false
}.

Lemma steady_forget t :
  steady t -> step t = stepIdle ->
  steady (set_changed (disabledBefore t) (set_haltOwned false (set_haltUncertain false (set_resumeUncertain false t)))).
Proof.
  intros Hs Hi. pose proof (saved_zero t (st_saved _ Hs)) as Hz. destruct Hs as [q1 q2 q3 q4 q5 q6 q7].
  constructor; simpl; auto; try done.
  - rewrite Hi. by intros [?|?].
  - intros H0. left. by apply Hz.
Qed.

Lemma checkRestoreState_spec v t :
  steady t -> settled_target t ->
  steady (snd (checkRestoreState v t)) /\ settled_target (snd (checkRestoreState v t)) /\
  (fst (checkRestoreState v t) = None -> certain (snd (checkRestoreState v t))).
Proof.
  intros Hs Hk. unfold checkRestoreState.
  pose proof (validate_ok_snap v t Hs) as Hsn.
  pose proof (validate_observes v t) as Ho1. pose proof (validate_flags v t) as Hp1.
  destruct (validateArchitectureControl v t) as [e t1]. simpl in *.
  pose proof (steady_observes _ _ Hs Ho1) as Hs1. pose proof (observes_settled _ _ Ho1 Hp1 Hk) as Hk1.
  destruct e as [e|]; [done|]. destruct (_ && _); [done|].
  set (t2 := if haltUncertain t1 then t1 else observeHaltRequest v t1).
  assert (steady t2 /\ settled_target t2 /\ snapStalled t2 = false) as (Hs2 & Hk2 & Hn2).
  { unfold t2. destruct (haltUncertain t1); [auto|].
    split; [eapply steady_observes; [exact Hs1|apply observeHaltRequest_observes]|].
    split; [|rewrite observeHaltRequest_snap; auto].
    eapply observes_settled; [apply observeHaltRequest_observes|apply observeHaltRequest_flags|done]. }
  destruct (resumeUncertain t2 || haltUncertain t2) eqn:Eu; simpl.
  - destruct (any_bits v (Z.lor cHalt sHalt)); simpl; [done|].
    split; [apply steady_forget; [done|apply Hk2]|]. destruct Hk2. split; by constructor.
  - apply orb_false_iff in Eu as [E1 E2]. split; [done|]. split; [done|]. by constructor.
Qed.

Section Releasing.
Context {W : Type} `{Env W} `{Memory W}.

Abbreviation St := (TSt W).

(** The last access shows DHCSR's enable bit as it was inherited. *)
Definition shows_inherited (s : St) : Prop :=
  exists v l, trace s = RD dhcsrAddress v None :: l /\
    any_bits v cDebugEnable = any_bits (saved (tgt s)) cDebugEnable.

Definition restored (s : St) : Prop := changed (tgt s) = false \/ shows_inherited s.

Record restoring (s : St) : Prop := {
  re_steady : steady (tgt s);
  re_justified : Forall justified (trace s);
  re_settled : settled_target (tgt s)
}.

Lemma restoring_read v e w (s : St) :
  restoring s -> restoring (mkTSt (observeDHCSR v e (tgt s)) (RD dhcsrAddress v e :: trace s) w).
Proof.
  intros [Hs Hj Hk]. constructor; simpl.
  - eapply steady_observes; [exact Hs|apply observeDHCSR_observes].
  - by constructor.
  - eapply observes_settled; [apply observeDHCSR_observes|apply observeDHCSR_flags|done].
Qed.

Lemma restoring_validate v l w (t : Target) :
  restoring (mkTSt t l w) -> restoring (mkTSt (snd (validateArchitectureControl v t)) l w).
Proof.
  intros [Hs Hj Hk]. constructor; simpl in *; [|done|].
  - eapply steady_observes; [exact Hs|apply validate_observes].
  - eapply observes_settled; [apply validate_observes|apply validate_flags|done].
Qed.

Lemma mask_enable value control :
  Z.land value (controlMask control) = Z.land control (controlMask control) ->
  any_bits value cDebugEnable = any_bits control cDebugEnable.
Proof.
  intros Hm. change cDebugEnable with (2 ^ 0). rewrite !any_bits_bit by lia.
  assert (Z.testbit (controlMask control) 0 = true) as Hb
    by (unfold controlMask; by destruct (any_bits control cDebugEnable)).
  apply (f_equal (fun x => Z.testbit x 0)) in Hm. rewrite !Z.land_spec, Hb, !andb_true_r in Hm. exact Hm.
Qed.

(** What a control write can leave of a target that owns no halt. *)
Record control_frame (t t' : Target) : Prop := {
  cf_memory : memory t' = memory t;
  cf_identity : identity t' = identity t;
  cf_saved : saved t' = saved t;
  cf_flags : same_flags t t';
  cf_step : step t' = step t;
  cf_halt : haltUncertain t' = haltUncertain t;
  cf_owned : haltOwned t' = false;
  cf_resume : resumeUncertain t' = false;
  cf_changed : changed t' = true \/ saved t = 0;
  cf_snap : snapStalled t' = true -> snapStalled t = true \/ isM33 t = true
}.

Lemma control_observes t t1 t2 :
  control_frame t t1 -> observes t1 t2 -> same_flags t1 t2 -> control_frame t t2.
Proof.
  intros [c1 c2 c3 c4 c5 c6 c7 c8 c9 c10] [o1 o2 o3 o4 o5 o6 o7 o8 o9 o10 o11 o12 o13] Hf.
  constructor; try congruence.
  - by eapply same_flags_trans.
  - destruct (haltOwned t2); [|done]. destruct (o7 eq_refl). congruence.
  - destruct (resumeUncertain t2); [|done]. by rewrite o8 in c8.
  - by rewrite o9.
  - intros Hx. destruct (o13 Hx) as [Hy|Hy]; [auto|]. right. unfold isM33 in *. by rewrite <- c2.
Qed.

Lemma control_changed t t' b : control_frame t t' -> saved t = 0 -> control_frame t (set_changed b t').
Proof. intros [] Hz. constructor; simpl; auto. Qed.

Lemma control_steady t t' : control_frame t t' -> steady t -> step t = stepIdle -> closing t = true \/ changed t' = true -> steady t'.
Proof.
  intros [c1 c2 c3 [c4 _] c5 c6 c7 c8 c9 c10] [q1 q2 q3 q4 q5 q6 q7] Hi Hc.
  constructor; rewrite ?c1, ?c3, ?c5, ?c7, ?c4; try done.
  - rewrite Hi. by intros [?|?].
  - tauto.
  - intros Hx. unfold isM33 in *. rewrite c2. destruct (c10 Hx); auto.
Qed.

Record control_post (control : Z) (s : St) (e : err) (s' : St) : Prop := {
  cp_frame : control_frame (tgt s) (tgt s') \/ tgt s' = tgt s;
  cp_justified : Forall justified (trace s');
  cp_done : e = None ->
    (exists v l, trace s' = RD dhcsrAddress v None :: l /\
       any_bits v cDebugEnable = any_bits control cDebugEnable) /\
    (any_bits control cDebugEnable = true -> changed (tgt s') = true /\
       (isM33 (tgt s) = true \/ snapStalled (tgt s) = false -> snapStalled (tgt s') = false))
}.

Lemma fresh_validate_snap v t :
  let t1 := observeDHCSR v None t in
  fst (validateArchitectureControl v t1) = None -> isM33 t = true \/ snapStalled t = false ->
  snapStalled (snd (validateArchitectureControl v t1)) = false.
Proof.
  cbv zeta. intros Hv Hm. rewrite (validate_snap v None t Hv eq_refl).
  destruct Hm as [Hm|Hm]; [|done]. revert Hv. unfold validateArchitectureControl.
  assert (isM33 (observeDHCSR v None t) = true) as ->
    by (unfold isM33; by rewrite (ob_identity _ _ (observeDHCSR_observes v None t))). simpl.
  assert (snapStalled (observeDHCSR v None t) = snapStalled t || any_bits v cSnapStall) as Es.
  { unfold observeDHCSR. rewrite Hm. simpl. by destruct (all_bits _ _ && _). }
  destruct (any_bits v cSnapStall); simpl; [done|]. rewrite Es, orb_false_r. by destruct (snapStalled t).
Qed.

(** The readback's checks, from a target [t2] that is the freshly read [t1]
    unless debug was seen disabled. *)
Lemma confirmControl_spec control v (s s1 : St) t1 :
  t1 = observeDHCSR v None (set_changed true (tgt s)) -> control_frame (tgt s) t1 -> changed t1 = true ->
  control_frame (tgt s) (tgt s1) -> (any_bits v cDebugEnable = true -> tgt s1 = t1) ->
  Forall justified (trace s1) -> (exists l, trace s1 = RD dhcsrAddress v None :: l) ->
  wlp (confirmControl control v) (control_post control s) s1.
Proof.
  intros Et1 F1 Hch1 F2 Ht2 Hj [l HT]. unfold confirmControl. apply wlp_guard.
  assert (forall s2 : St, control_frame (tgt s) (tgt s2) -> trace s2 = trace s1 ->
    (any_bits control cDebugEnable = true -> any_bits v cDebugEnable = true -> changed (tgt s2) = true /\
       (isM33 (tgt s) = true \/ snapStalled (tgt s) = false -> snapStalled (tgt s2) = false)) ->
    wlp (if negb (Z.land v (controlMask control) =? Z.land control (controlMask control))
         then mret (Some (New "cortexm: DHCSR control")) else mret None) (control_post control s) s2) as Hfin.
  { intros s2 F3 HT2 H3.
    destruct (Z.eqb_spec (Z.land v (controlMask control)) (Z.land control (controlMask control))) as [Em|];
      apply wlp_ret; constructor; rewrite ?HT2; try done; try (by left).
    intros _. apply mask_enable in Em. split; [by exists v, l|]. intros Hce. apply H3; congruence. }
  destruct (any_bits control cDebugEnable) eqn:Ece; [|apply wlp_ret, Hfin; [done|done|congruence]].
  apply wlp_check.
  assert (control_frame (tgt s) (snd (validateArchitectureControl v (tgt s1)))) as F3
    by (eapply control_observes; [exact F2|apply validate_observes|apply validate_flags]).
  destruct (fst (validateArchitectureControl v (tgt s1))) as [e|] eqn:Ev.
  { apply wlp_ret. constructor; simpl; [by left|done|done]. }
  apply Hfin; [done|done|]. simpl. intros _ Hd. rewrite (Ht2 Hd) in *. split.
  - rewrite (ob_stable _ _ (validate_observes v t1)); [done|apply F1|apply F1].
  - intros Hm. rewrite Et1 in Ev |- *. by apply fresh_validate_snap.
Qed.

Lemma writeControl_spec ctx control (s : St) :
  Forall justified (trace s) -> ctx_nil ctx = false ->
  haltOwned (tgt s) = false -> resumeUncertain (tgt s) = false ->
  (forall e, justified (WR dhcsrAddress (Z.lor debugKey control) e (set_changed true (tgt s)))) ->
  wlp (writeControl ctx control) (control_post control s) s.
Proof.
  intros Hj Hc Ho Hr Hw. unfold writeControl. apply wlp_guard, wlp_ctxErr; [done|]. intros [e|] w.
  { apply wlp_ret. constructor; [by right|done|done]. }
  apply wlp_bind, wlp_tmod. simpl. apply wlp_guard, wlp_writeWord. simpl. intros e w1.
  assert (control_frame (tgt s) (set_changed true (tgt s))) as F0 by (constructor; simpl; auto; done).
  destruct e as [e|].
  { apply wlp_ret. constructor; simpl; [by left|by constructor|done]. }
  apply wlp_bind, wlp_readDHCSR. simpl. intros v e w2 Hv. cbn beta iota.
  assert (control_frame (tgt s) (observeDHCSR v e (set_changed true (tgt s)))) as F1
    by (eapply control_observes; [exact F0|apply observeDHCSR_observes|apply observeDHCSR_flags]).
  match goal with |- wlp _ _ (mkTSt _ ?l _) => assert (Forall justified l) as Hj2
    by (constructor; [done|constructor; [apply Hw|done]]) end.
  destruct e as [e|]; [apply wlp_ret; constructor; simpl; [by left|done|done]|].
  assert (changed (observeDHCSR v None (set_changed true (tgt s))) = true) as Hch1
    by (by rewrite (ob_stable _ _ (observeDHCSR_observes v None _))).
  apply wlp_bind, wlp_tget, wlp_bind. simpl tgt.
  destruct (negb (any_bits v cDebugEnable) && (saved _ =? 0)) eqn:Ez.
  - apply andb_true_iff in Ez as [Ed%negb_true_iff Ez%Z.eqb_eq]. apply wlp_tmod. simpl.
    eapply confirmControl_spec; simpl; eauto; [|congruence].
    apply control_changed; [done|]. by rewrite <- (cf_saved _ _ F1).
  - apply wlp_ret. eapply confirmControl_spec; simpl; eauto.
Qed.


Lemma resume_restoring s e s' :
  resume_post s e s' -> restoring s -> certain (tgt s) ->
  steady (tgt s') /\ Forall justified (trace s') /\ closing (tgt s') = true /\
  (e = None -> settled_target (tgt s') /\ certain (tgt s') /\ haltOwned (tgt s') = false).
Proof.
  intros [p1 p2 p3 p4 p5 p6] [Hs Hj [k1 k2 k3]] [c1 c2 c3]. split; [done|]. split; [done|]. split; [auto|]. intros He.
  destruct (p5 He) as [_ ro rd _ _ rn rst rh [rt1 rt2] _].
  split; [constructor; try congruence; auto|]. split; [constructor; congruence|done].
Qed.

(** What every leg of a restoration leaves behind. *)
Record restore_post (e : err) (s' : St) : Prop := {
  ro_steady : steady (tgt s');
  ro_justified : Forall justified (trace s');
  ro_closing : closing (tgt s') = true;
  ro_done : e = None -> settled_target (tgt s') /\ restored s'
}.

Lemma restoring_failed e (s : St) : restoring s -> restore_post (Some e) s.
Proof. intros [Hs Hj Hk]. constructor; [done|done|apply Hk|done]. Qed.

Lemma restore_write_spec ctx (s : St) :
  restoring s -> haltUncertain (tgt s) = false -> resumeUncertain (tgt s) = false -> haltOwned (tgt s) = false ->
  snapStalled (tgt s) = false -> ctx_nil ctx = false ->
  wlp (writeControl ctx (saved (tgt s))) restore_post s.
Proof.
  intros [Hs Hj Hk] Hh Hr Ho Hn Hc. eapply wlp_mono; [apply writeControl_spec; try done|].
  - intros e. split; [apply Hs|]. split; [done|]. right. right. split; [done|]. split; [apply Hk|].
    apply cause_restore; simpl; try done; apply Hk.
  - intros e s2 [F J D].
    assert (steady (tgt s2) /\ settled_target (tgt s2) /\ saved (tgt s2) = saved (tgt s)) as (Hs2 & Hk2 & Hv2).
    { destruct F as [F| ->]; [|done]. split; [|split].
      - eapply control_steady; [exact F|done|apply Hk|left; apply Hk].
      - destruct F as [_ _ _ (f1 & f2 & f3) f4 _ _ _ _ _], Hk. constructor; congruence.
      - apply F. }
    constructor; [done|done|apply Hk2|]. intros He. split; [done|]. right.
    destruct (D He) as [(v2 & l & T & Hv) _]. exists v2, l. by rewrite Hv2.
Qed.

Lemma observes_off t t' :
  observes t t' -> haltOwned t = false -> resumeUncertain t = false ->
  haltOwned t' = false /\ resumeUncertain t' = false.
Proof.
  intros Ho H1 H2. split.
  - destruct (haltOwned t') eqn:E; [|done]. destruct (ob_owned _ _ Ho E). congruence.
  - destruct (resumeUncertain t') eqn:E; [|done]. by rewrite (ob_resume _ _ Ho E) in H2.
Qed.

Lemma restoreControl_spec ctx (s : St) :
  restoring s -> certain (tgt s) -> haltOwned (tgt s) = false -> ctx_nil ctx = false ->
  wlp (restoreControl ctx) restore_post s.
Proof.
  intros Hre [c1 c2 c3] Ho Hc. pose proof Hre as [Hs Hj Hk]. unfold restoreControl.
  apply wlp_bind, wlp_tget. destruct (changed (tgt s)) eqn:Ech; simpl negb; cbv iota.
  2: { apply wlp_ret. constructor; [done|done|apply Hk|]. intros _. split; [done|by left]. }
  apply wlp_bind, wlp_readDHCSR. intros v e w Hv. cbn beta iota.
  pose proof (restoring_read v e w s Hre) as Hre1.
  destruct e as [e|]; [by apply wlp_ret, restoring_failed|].
  pose proof (observeDHCSR_observes v None (tgt s)) as O1.
  set (t1 := observeDHCSR v None (tgt s)) in *. destruct (observes_off _ _ O1 Ho c2) as [Ho1 Hr1].
  apply wlp_guard, wlp_check. simpl tgt. simpl trace. simpl tworld.
  pose proof (validate_observes v t1) as O2. destruct (observes_off _ _ O2 Ho1 Hr1) as [Ho2 Hr2].
  pose proof (validate_ok_snap v t1 (re_steady _ Hre1)) as Sn2.
  pose proof (restoring_validate v _ _ _ Hre1) as Hre2.
  destruct (fst (validateArchitectureControl v t1)) as [e|]; [by apply wlp_ret, restoring_failed|].
  destruct (_ && _); [by apply wlp_ret, restoring_failed|].
  apply wlp_bind, wlp_tget. apply restore_write_spec; simpl; try done; [|by apply Sn2].
  rewrite (ob_haltUncertain _ _ O2), (ob_haltUncertain _ _ O1). done.
Qed.

Lemma restore_spec fuel ctx (s : St) :
  restoring s -> ctx_nil ctx = false -> wlp (restore fuel ctx) restore_post s.
Proof.
  intros Hre Hc. unfold restore. apply wlp_bind, wlp_readDHCSR. intros v e w Hv. cbn beta iota.
  pose proof (restoring_read v e w s Hre) as Hre1. pose proof Hre1 as [Hs1 Hj1 Hk1]. simpl in Hs1, Hj1, Hk1.
  destruct e as [e|]; [by apply wlp_ret, restoring_failed|].
  apply wlp_bind, wlp_tget. simpl tgt. destruct ((saved _ =? 0) && _) eqn:Ez.
  { apply andb_true_iff in Ez as [Ez%Z.eqb_eq Ed%negb_true_iff]. apply wlp_ret.
    constructor; [done|done|apply Hk1|]. intros _. split; [done|]. right.
    exists v, (trace s). simpl. rewrite Ez. split; [done|]. by rewrite Ed. }
  apply wlp_guard, wlp_check. simpl tgt. simpl trace. simpl tworld.
  set (t1 := observeDHCSR v None (tgt s)) in *.
  destruct (checkRestoreState_spec v t1 Hs1 Hk1) as (Hs2 & Hk2 & Hct2).
  set (s2 := mkTSt (snd (checkRestoreState v t1)) _ w).
  assert (restoring s2) as Hre2 by (by constructor).
  destruct (fst (checkRestoreState v t1)) as [e|]; [by apply wlp_ret, restoring_failed|].
  specialize (Hct2 eq_refl). apply wlp_bind, wlp_tget, wlp_guard.
  destruct (haltOwned (tgt s2)) eqn:Eo.
  - eapply wlp_mono; [apply resume_spec; try done; [apply Hk2|apply Hct2|apply Hk2]|].
    intros e s3 Hp. destruct (resume_restoring _ _ _ Hp Hre2 Hct2) as (Hs3 & Hj3 & Hc3 & Hd3).
    destruct e as [e|]; [apply wlp_ret; by constructor|]. destruct (Hd3 eq_refl) as (Hk3 & Hct3 & Ho3).
    by apply restoreControl_spec; [constructor| | |].
  - apply wlp_ret. by apply restoreControl_spec.
Qed.

(** ** Release *)

Record release_post (s : St) (e : err) (s' : St) : Prop := {
  rl_ok : op_ok s';
  rl_done : e = None -> memory (tgt s') = false /\
    (memory (tgt s) = true -> registerPending (tgt s') = false /\ step (tgt s') = stepIdle /\ restored s');
  rl_failed : e <> None -> memory (tgt s') = true /\ closing (tgt s') = true
}.

Lemma release_failed (s s' : St) e :
  steady (tgt s') -> Forall justified (trace s') -> closing (tgt s') = true -> release_post s (Some e) s'.
Proof. intros Hs Hj Hc. constructor; [by apply closed_ok|done|]. intros _. split; [apply Hs|done]. Qed.

Lemma Release_closing_spec fuel ctx (s : St) :
  (memory (tgt s) = true -> steady (set_closing true (tgt s))) -> Forall justified (trace s) ->
  wlp (Release fuel ctx) (release_post s) s.
Proof.
  intros Hst Hj. unfold Release. apply wlp_bind, wlp_tget. destruct (memory (tgt s)) eqn:Em; simpl negb; cbv iota.
  2: { apply wlp_ret. constructor; [split; [constructor; congruence|done]| |done]. intros _. split; [done|congruence]. }
  specialize (Hst eq_refl). apply wlp_bind, wlp_tmod.
  apply wlp_guard. unfold liveContext. destruct (ctx_nil ctx) eqn:Hc; [by apply wlp_ret, wlp_ret, release_failed|].
  apply wlp_ctxErr; [done|]. intros [e|] w; [by apply wlp_ret, release_failed|]. simpl tgt. simpl trace.
  apply wlp_bind, wlp_tget. simpl tgt. set (s0 := mkTSt (set_closing true (tgt s)) (trace s) w).
  apply wlp_guard.
  apply (wlp_mono _ (fun e s1 => steady (tgt s1) /\ Forall justified (trace s1) /\ closing (tgt s1) = true /\
    (e = None -> registerPending (tgt s1) = false))).
  { destruct (registerPending (set_closing true (tgt s))) eqn:Ep; [|by apply wlp_ret].
    eapply wlp_mono; [by apply waitRegister_spec|]. intros e s1 [q1 q2 q3].
    split; [by eapply watched_steady|]. split; [by eapply watched_justified|].
    split; [by apply (ob_closing _ _ (wa_observes _ _ q1))|]. intros He. apply (q2 He). }
  intros e s1 (Hs1 & Hj1 & Hc1 & Hp1). destruct e as [e|]; [by apply wlp_ret, release_failed|]. specialize (Hp1 eq_refl).
  apply wlp_bind, wlp_tget, wlp_guard.
  apply (wlp_mono _ (fun e s2 => steady (tgt s2) /\ Forall justified (trace s2) /\ closing (tgt s2) = true /\
    registerPending (tgt s2) = false /\ (e = None -> step (tgt s2) = stepIdle))).
  { destruct (bool_decide_reflect (step (tgt s1) = stepIdle)) as [Ei|Ei]; simpl; [by apply wlp_ret|].
    eapply wlp_mono; [apply settleStep_spec; [by constructor|done]|]. intros e s2 [[S2 J2 F2 _] D2].
    split; [done|]. split; [done|]. split; [rewrite (sf_closing _ _ F2); done|].
    split; [rewrite (sf_pending _ _ F2); done|]. intros He. apply (D2 He). }
  intros e s2 (Hs2 & Hj2 & Hc2 & Hp2 & Hi2). destruct e as [e|]; [by apply wlp_ret, release_failed|]. specialize (Hi2 eq_refl).
  apply wlp_bind, wlp_tget, wlp_guard.
  apply (wlp_mono _ (fun e s3 => restore_post e s3)).
  { destruct (changed (tgt s2)) eqn:Ech; [by apply restore_spec; [constructor|]|].
    apply wlp_ret. constructor; try done. intros _. split; [done|by left]. }
  intros e s3 [Hs3 Hj3 Hc3 Hd3]. destruct e as [e|]; [by apply wlp_ret, release_failed|].
  destruct (Hd3 eq_refl) as [[k1 k2 k3] Hre]. apply wlp_bind, wlp_tmod, wlp_ret.
  constructor; simpl; [|intros _; split; [done|]; intros _; split; [done|split; [done|]]|done].
  - split; [by constructor|done].
  - destruct Hre as [Hre|(v & l & T & Hv)]; [by left|right; by exists v, l].
Qed.

Lemma target_Release_spec fuel ctx (s : St) : op_ok s -> wlp (Release fuel ctx) (release_post s) s.
Proof. intros [[Hst _] Hj]. apply Release_closing_spec; [|done]. intros Hm. by apply steady_closing, Hst. Qed.

(** ** Acquisition *)

Record acquire_post (r : bool * err) (s' : St) : Prop := {
  aq_justified : Forall justified (trace s');
  aq_target : fst r = true -> op_ok s' /\ memory (tgt s') = true;
  aq_done : snd r = None -> fst r = true /\ closing (tgt s') = false /\ haltOwned (tgt s') = false /\
    controlIdentity (identity (tgt s')) = None /\
    exists v l, trace s' = RD dhcsrAddress v None :: l /\ any_bits v cDebugEnable = true;
  aq_failed : snd r <> None -> fst r = true -> closing (tgt s') = true
}.

Lemma acquire_refused e (s : St) : Forall justified (trace s) -> acquire_post (false, Some e) s.
Proof. intros Hj. by constructor. Qed.

Lemma wlp_Identify ctx (s : St) :
  wlp (Identify ctx true) (fun r s' => tgt s' = tgt s /\ exists v e, trace s' = RD cpuidAddress v e :: trace s /\
    (snd r = None -> fst r = decodeCPUID v)) s.
Proof.
  unfold Identify. cbn [negb]. apply wlp_bind, wlp_readWord. intros v e w Hv. cbn beta iota.
  destruct e as [e|]; [apply wlp_ret; split; [done|]; by exists v, (Some e)|].
  destruct (_ || _); apply wlp_ret; (split; [done|]); by exists v, None.
Qed.

Lemma saved_inherited v : any_bits v cDebugEnable = true -> Z.land v (Z.lor cDebugEnable cHalt) ∈ [0; 1; 3].
Proof.
  intros Hd. change (Z.lor cDebugEnable cHalt) with (Z.ones 2). rewrite Z.land_ones by lia.
  change cDebugEnable with (2 ^ 0) in Hd. rewrite any_bits_bit in Hd by lia.
  change (2 ^ 2) with (2 * 2). rewrite Z.rem_mul_r by lia.
  rewrite Z.bit0_eqb, Z.eqb_eq in Hd. rewrite Hd.
  pose proof (Z.mod_pos_bound (v / 2) 2 ltac:(lia)).
  assert ((v / 2) mod 2 = 0 \/ (v / 2) mod 2 = 1) as [->| ->] by lia.
  - right. left.
  - right. right. left.
Qed.

(** A target that has just been built. *)
Record fresh (t : Target) : Prop := {
  fr_memory : memory t = true;
  fr_closing : closing t = false;
  fr_owned : haltOwned t = false;
  fr_calm : calm t;
  fr_identity : controlIdentity (identity t) = None
}.

Lemma fresh_steady t : fresh t -> saved t ∈ [0; 1; 3] -> (saved t = 0 -> changed t = true) -> steady t.
Proof.
  intros [f1 f2 f3 [k1 k2 k3 k4 k5 k6] f5] Hs Hz.
  constructor; try done; try congruence; [intros [?|?]; congruence|auto].
Qed.

Lemma saved_enabled v : any_bits v cDebugEnable = true -> Z.land v (Z.lor cDebugEnable cHalt) <> 0.
Proof.
  intros Hd Hz. change cDebugEnable with (2 ^ 0) in Hd. rewrite any_bits_bit in Hd by lia.
  apply (f_equal (fun x => Z.testbit x 0)) in Hz. rewrite Z.land_spec, Hd in Hz. done.
Qed.

Lemma fresh_validate v t :
  fresh t -> fst (validateArchitectureControl v t) = None -> fresh (snd (validateArchitectureControl v t)).
Proof.
  intros [f1 f2 f3 [k1 k2 k3 k4 k5 k6] f5]. unfold validateArchitectureControl.
  destruct (isM33 t); simpl; [|intros _; by constructor; [| | |constructor|]].
  destruct (any_bits v cSnapStall); simpl; [done|]. rewrite k5.
  destruct (any_bits v sSecureDebug); simpl; [|done]. intros _. by constructor; [| | |constructor|].
Qed.

Lemma acquire_enable_spec fuel ctx (s : St) :
  fresh (tgt s) -> saved (tgt s) = 0 -> Forall justified (trace s) -> ctx_nil ctx = false ->
  wlp (guard_err (writeControl ctx cDebugEnable) (fun e =>
         releaseErr ← Release fuel (WithTimeout Background acquireCleanupTimeout);
         match releaseErr with
         | Some r => mret (true, errors_Join [Some e; Some r])
         | None => mret (false, Some e)
         end)
       (mret (true, None))) acquire_post s.
Proof.
  intros Hf Hz Hj Hc. pose proof Hf as [f1 f2 f3 [k1 k2 k3 k4 k5 k6] f5].
  apply wlp_guard. eapply wlp_mono; [apply writeControl_spec; try done|].
  - intros e. split; [done|]. split; [done|]. right. right. split; [done|]. split; [done|].
    apply cause_acquire; simpl; try done.
  - intros e s1 [F J D].
    assert (memory (tgt s1) = true /\ haltOwned (tgt s1) = false /\ saved (tgt s1) = 0 /\
      resumeUncertain (tgt s1) = false /\ haltUncertain (tgt s1) = false /\ step (tgt s1) = stepIdle /\
      identity (tgt s1) = identity (tgt s) /\ same_flags (tgt s) (tgt s1) /\
      (snapStalled (tgt s1) = true -> isM33 (tgt s) = true)) as (m1 & m2 & m3 & m4 & m5 & m6 & m7 & m8 & m9).
    { destruct F as [[c1 c2 c3 c4 c5 c6 c7 c8 c9 c10]| ->]; [|repeat split; try done; congruence].
      repeat split; try congruence; try apply c4. intros Hx. destruct (c10 Hx); [congruence|done]. }
    assert (steady (set_closing true (tgt s1))) as Hst.
    { constructor; simpl; try congruence; [rewrite m3; left|intros [?|?]; congruence|auto|].
      intros Hx. unfold isM33 in *. simpl. rewrite m7. auto. }
    destruct e as [e|].
    + apply wlp_bind. eapply wlp_mono; [by apply Release_closing_spec|].
      intros [r|] s2 [L1 L2 L3]; apply wlp_ret; [|apply acquire_refused, L1].
      destruct (L3 ltac:(done)) as [Hm2 Hc2]. constructor; simpl; [apply L1| |done|done].
      intros _. split; [done|done].
    + apply wlp_ret. destruct (D eq_refl) as [(v & l & T & Hv) Hen]. destruct (Hen eq_refl) as [Hch Hsn].
      destruct m8 as (g1 & g2 & g3).
      assert (fresh (tgt s1)) as Hf1.
      { constructor; try congruence. constructor; try congruence. apply Hsn. auto. }
      assert (steady (tgt s1)) as Hs1 by (apply fresh_steady; [done|rewrite m3; left|done]).
      constructor; simpl; [done| | |done].
      * intros _. split; [|done]. apply calm_ok; [done|done|apply Hf1].
      * intros _. split; [done|]. split; [apply Hf1|]. split; [done|]. split; [apply Hf1|].
        exists v, l. split; [done|]. by rewrite Hv.
Qed.

Lemma Acquire_spec fuel ctx mem (s : St) :
  Forall justified (trace s) -> wlp (Acquire fuel ctx mem) acquire_post s.
Proof.
  intros Hj. unfold Acquire. destruct mem; cbn [negb]; cbv iota; [|by apply wlp_ret, acquire_refused].
  apply wlp_guard. unfold liveContext. destruct (ctx_nil ctx) eqn:Hc; [by apply wlp_ret, wlp_ret, acquire_refused|].
  apply wlp_ctxErr; [done|]. intros [e|] w; [by apply wlp_ret, acquire_refused|].
  apply wlp_bind. eapply wlp_mono; [apply wlp_Identify|].
  intros [id e] s1 (Ht1 & v1 & e1 & T1 & Hid). cbn beta iota. cbn [tgt trace fst snd] in *.
  assert (Forall justified (trace s1)) as Hj1 by (rewrite T1; by constructor).
  destruct e as [e|]; [by apply wlp_ret, acquire_refused|].
  destruct (controlIdentity id) as [e|] eqn:Eid; [by apply wlp_ret, acquire_refused|].
  apply wlp_bind, wlp_readWord. intros v e w2 Hv. cbn beta iota.
  assert (Forall justified (RD dhcsrAddress v e :: trace s1)) as Hj2 by (by constructor).
  destruct e as [e|]; [by apply wlp_ret, acquire_refused|].
  destruct (validateControl v) as [e|]; [by apply wlp_ret, acquire_refused|].
  apply wlp_bind, wlp_tmod. cbn [tgt trace tworld]. apply wlp_guard, wlp_check. cbn [tgt trace tworld].
  set (t0 := mkTarget true id _ _ _ _ _ _ _ _ _ _).
  assert (fresh t0) as Hf0 by (by constructor; [| | |constructor|]).
  pose proof (validate_observes v t0) as O1. pose proof (validate_flags v t0) as (g1 & g2 & g3).
  pose proof (fresh_validate v t0 Hf0) as Hf1.
  set (t1 := snd (validateArchitectureControl v t0)) in *.
  destruct (fst (validateArchitectureControl v t0)) as [e|]; [by apply wlp_ret, acquire_refused|].
  specialize (Hf1 eq_refl).
  destruct (any_bits v cDebugEnable) eqn:Ed.
  - apply wlp_ret. constructor; cbn [tgt trace fst snd]; [done| | |done].
    + intros _. split; [|apply Hf1]. apply calm_ok; [|done|apply Hf1]. cbn [tgt]. apply fresh_steady; [done| |].
      * change (saved t1 ∈ [0; 1; 3]). rewrite (ob_saved _ _ O1). by apply saved_inherited.
      * change (saved t1 = 0 -> changed t1 = true). rewrite (ob_saved _ _ O1). intros Hz. exfalso. revert Hz. by apply saved_enabled.
    + intros _. split; [done|]. split; [apply Hf1|]. split; [apply Hf1|]. split; [apply Hf1|]. by exists v, (trace s1).
  - apply wlp_bind, wlp_tmod. apply acquire_enable_spec; cbn [tgt trace]; try done.
    destruct Hf1 as [f1 f2 f3 [k1 k2 k3 k4 k5 k6] f5]. by constructor; [| | |constructor|].
Qed.
End Releasing.
