(* ===== verification/CortexMProps.v ===== *)
(** * Properties of Cortex-M control

    The contracts are total: over a world whose contexts end ([Deadline]), each
    method returns, and what it returns is justified by the accesses it made.
    Witnesses run on a small Cortex-M core. *)

From S2P Require Import Prelude Go CortexM CortexMFacts CortexMControl CortexMRelease.
From S2P Require Import CortexMRelease CortexMFacts.
Local Open Scope Z_scope.

(** ** Runs *)

Section Runs.
Context {W : Type} `{Env W} `{Memory W}.

(** One call on an acquired target, with any context, arguments and fuel. *)
Inductive op_step (s : TSt W) : TSt W -> Prop :=
| op_Halt fuel ctx e s' : Halt fuel ctx s = Done (e, s') -> op_step s s'
| op_Halted ctx r s' : Halted ctx s = Done (r, s') -> op_step s s'
| op_Resume fuel ctx e s' : Resume fuel ctx s = Done (e, s') -> op_step s s'
| op_Step fuel ctx e s' : Step fuel ctx s = Done (e, s') -> op_step s s'
| op_ReadRegister fuel ctx reg r s' : ReadRegister fuel ctx reg s = Done (r, s') -> op_step s s'
| op_WriteRegister fuel ctx reg v e s' : WriteRegister fuel ctx reg v s = Done (e, s') -> op_step s s'
| op_Release fuel ctx e s' : Release fuel ctx s = Done (e, s') -> op_step s s'.

Inductive op_run (s : TSt W) : TSt W -> Prop :=
| op_none : op_run s s
| op_more s1 s2 : op_run s s1 -> op_step s1 s2 -> op_run s s2.

Lemma op_step_ok (s s' : TSt W) : op_step s s' -> op_ok s -> op_ok s'.
Proof.
  intros Hst Hop. destruct Hst as [fuel ctx e s' E|ctx r s' E|fuel ctx e s' E|fuel ctx e s' E|fuel ctx reg r s' E|fuel ctx reg v e s' E|fuel ctx e s' E].
  - apply (wlp_elim _ _ _ _ _ (Halt_spec fuel ctx s Hop) E).
  - apply (wlp_elim _ _ _ _ _ (Halted_spec ctx s Hop) E).
  - apply (wlp_elim _ _ _ _ _ (Resume_spec fuel ctx s Hop) E).
  - apply (wlp_elim _ _ _ _ _ (Step_spec fuel ctx s Hop) E).
  - apply (wlp_elim _ _ _ _ _ (ReadRegister_spec fuel ctx reg s Hop) E).
  - apply (wlp_elim _ _ _ _ _ (WriteRegister_spec fuel ctx reg v s Hop) E).
  - apply (wlp_elim _ _ _ _ _ (target_Release_spec fuel ctx s Hop) E).
Qed.

Lemma op_run_ok (s s' : TSt W) : op_run s s' -> op_ok s -> op_ok s'.
Proof. induction 1 as [|s1 s2 Hr IH Hst]; [done|]. intros Hop. eapply op_step_ok; [exact Hst|by apply IH]. Qed.

Lemma Returns_total {A} (budget : context -> W -> nat) ctx fuel (m : GoM (TSt W) A) Q s :
  Returns budget ctx fuel m -> (budget ctx (tworld s) < fuel)%nat -> wlp m Q s -> wp m Q s.
Proof. intros Hr Hb Hw. eapply wp_of_wlp; [exact Hw|]. by apply Hr. Qed.
End Runs.

(** ** A core for the witnesses

    Register accesses complete at once; a step stops before the next read.  The
    world has [waits] milliseconds to spend. *)

Record Core := mkCore { core_dhcsr : Z; core_dcrdr : Z; waits : nat }.

Definition core_control (v : Z) : Z :=
  let c := Z.land v 15 in
  let running := Z.lor sRegReady c in
  if any_bits c cStep then Z.lor running (Z.lor cHalt sHalt)
  else if any_bits c cHalt then Z.lor running sHalt else running.

#[global] Instance core_env : Env Core := { ctx_Err := fun _ w => (None, w) }.

#[global] Instance core_memory : Memory Core := {
  ReadWord := fun _ addr w =>
    ((if addr =? cpuidAddress then 0x410cc200 else if addr =? dhcsrAddress then core_dhcsr w
      else if addr =? dcrdrAddress then core_dcrdr w else if addr =? dfsrAddress then 1 else 0, None), w);
  WriteWord := fun _ addr v w =>
    (None, if addr =? dhcsrAddress then mkCore (core_control v) (core_dcrdr w) (waits w)
           else if addr =? dcrsrAddress then mkCore (core_dhcsr w) (0x1000 + v) (waits w)
           else if addr =? dcrdrAddress then mkCore (core_dhcsr w) v (waits w) else w);
  pause := fun _ w => match waits w with
    | O => (Some DeadlineExceeded, w)
    | S n => (None, mkCore (core_dhcsr w) (core_dcrdr w) n)
    end
}.

Lemma core_deadline : Deadline (fun _ (w : Core) => waits w).
Proof.
  constructor.
  - done.
  - done.
  - intros ctx addr v c w. cbn -[Z.eqb]. destruct (addr =? _); [done|]. destruct (addr =? _); [done|].
    by destruct (addr =? _).
  - intros ctx c w. simpl. destruct (waits w) eqn:E; simpl; lia.
  - intros ctx w. simpl. destruct (waits w) eqn:E; simpl; [done|lia].
Qed.

Definition core_start : TSt Core :=
  mkTSt (mkTarget false zeroIdentity 0 false false false false false false false false stepIdle) [] (mkCore 0 0 3).

Definition core_identity : Identity := decodeCPUID 0x410cc200.

(** A target that owns a halt of a core whose debug it enabled. *)
Definition core_halted : TSt Core :=
  mkTSt (mkTarget true core_identity 0 false true true false false false false false stepIdle) []
    (mkCore (core_control haltRequest) 0 3).

Lemma core_halted_ok : op_ok core_halted.
Proof.
  apply calm_ok; [|constructor|by constructor]. constructor; simpl; try done; [left|by intros [?|?]|by left].
Qed.

(** ** The contracts *)

(** C9: whatever the memory answers, a target handed out by [Acquire] keeps its
    invariant through any sequence of calls: until it is closing nothing is in
    flight or in doubt, an owned halt and a debug mode that was found disabled
    are recorded as changes to undo; and every write ever issued has its reason:
    register data and selectors only on an open target, DHCSR only with no transfer pending
    and no snap-stall seen, a resume only of an owned halt, a restoration only
    when nothing is uncertain. *)
Theorem target_invariant {W} `{Env W} `{Memory W} fuel ctx mem (s0 s1 s2 : TSt W) e :
  trace s0 = [] -> Acquire fuel ctx mem s0 = Done ((true, e), s1) -> op_run s1 s2 ->
  sound (tgt s2) /\ Forall justified (trace s2).
Proof.
  intros HT EA Hr. assert (Forall justified (trace s0)) as Hj by (rewrite HT; constructor).
  pose proof (wlp_elim _ _ _ _ _ (Acquire_spec fuel ctx mem s0 Hj) EA) as [_ Ht _ _].
  apply (op_run_ok _ _ Hr), Ht. done.
Qed.

Lemma target_invariant_witness :
  exists s1 s2 s3, Acquire 5 Background true core_start = Done ((true, None), s1) /\
    Halt 5 Background s1 = Done (None, s2) /\ Step 5 Background s2 = Done (None, s3) /\
    sound (tgt s3) /\ Forall justified (trace s3).
Proof.
  assert (exists s1, Acquire 5 Background true core_start = Done ((true, None), s1) /\
    exists s2, Halt 5 Background s1 = Done (None, s2) /\ exists s3, Step 5 Background s2 = Done (None, s3))
    as (s1 & E1 & s2 & E2 & s3 & E3)
    by (eexists; split; [vm_compute; reflexivity|eexists; split; [vm_compute; reflexivity|
        eexists; vm_compute; reflexivity]]).
  exists s1, s2, s3. split; [exact E1|]. split; [exact E2|]. split; [exact E3|].
  apply (target_invariant 5 Background true core_start s1 s3 None eq_refl E1).
  eapply op_more; [eapply op_more; [apply op_none|eapply op_Halt, E2]|eapply op_Step, E3].
Defined.

(** A closing or released target is silent: every method but [Release]
    returns an error, leaves the target as it is and makes no access, with any
    context and arguments; and [Release] of a released target succeeds without
    an access. *)
Theorem closed_target_silent {W} `{Env W} `{Memory W} fuel ctx reg value (s : TSt W) :
  memory (tgt s) = false \/ closing (tgt s) = true ->
  (exists e, Halt fuel ctx s = Done (Some e, s)) /\
  (exists e, Halted ctx s = Done ((false, Some e), s)) /\
  (exists e, Resume fuel ctx s = Done (Some e, s)) /\
  (exists e, Step fuel ctx s = Done (Some e, s)) /\
  (exists e, ReadRegister fuel ctx reg s = Done ((0, Some e), s)) /\
  (exists e, WriteRegister fuel ctx reg value s = Done (Some e, s)) /\
  (memory (tgt s) = false -> Release fuel ctx s = Done (None, s)).
Proof.
  intros Hc. assert (active ctx s =
    Done (Some (New "cortexm: target is unavailable; release may be pending"), s)) as Ha.
  { unfold active, mbind, GoM_bind, tget, gets. cbn beta iota.
    destruct Hc as [->| ->]; [done|]. by rewrite orb_true_r. }
  unfold Halt, Halted, Resume, Step, ReadRegister, WriteRegister, guard_err, mbind, GoM_bind. rewrite Ha.
  repeat split; eauto.
  - destruct (_ || _); rewrite ?Ha; eauto.
  - destruct (validateRegisterWrite reg value); rewrite ?Ha; eauto.
  - intros Hm. unfold Release, mbind, GoM_bind, tget, gets. cbn beta iota. by rewrite Hm.
Qed.

(** [Acquire] returns, its cleanup included, when its contexts end.  A nil
    error comes with an open target of a supported core that owns no halt, after
    DHCSR was read back with halting debug enabled; a target returned with an
    error is closing, so that only [Release] is left; and all its writes are
    justified. *)
Theorem acquire_contract {W} `{Env W} `{Memory W} budget fuel ctx mem (s : TSt W) :
  Deadline budget -> ctx_nil ctx = false -> trace s = [] ->
  (budget ctx (tworld s) < fuel)%nat ->
  (budget (WithTimeout Background acquireCleanupTimeout) (tworld s) < fuel)%nat ->
  wp (Acquire fuel ctx mem) acquire_post s.
Proof.
  intros Hd Hc HT H1 H2. eapply wp_of_wlp; [apply Acquire_spec; rewrite HT; constructor|].
  exact (Both_Acquire budget ctx fuel mem Hd Hc s H1 H2).
Qed.

(** [Halt] returns when its context ends, and succeeds only after DHCSR was
    read last with halting debug enabled, no stepping or masking, and the
    processor halted.  Either it was already halted, nothing was written and no
    claim was made, or one halt request was written, which a Cortex-M0 target
    then owns. *)
Theorem halt_contract {W} `{Env W} `{Memory W} budget fuel ctx (s : TSt W) :
  Deadline budget -> ctx_nil ctx = false -> (budget ctx (tworld s) < fuel)%nat -> op_ok s ->
  wp (Halt fuel ctx) (fun e s' => op_ok s' /\ (e = None -> halt_post s s')) s.
Proof.
  intros Hd Hc Hb Hop. by eapply Returns_total; [apply Returns_Halt|exact Hb|apply Halt_spec].
Qed.

Definition core_open : TSt Core :=
  mkTSt (mkTarget true core_identity 0 false true false false false false false false stepIdle) []
    (mkCore (core_control runRequest) 0 3).

Lemma core_open_ok : op_ok core_open.
Proof.
  apply calm_ok; [|constructor|by constructor]. constructor; simpl; try done; try (by left); by intros [?|?].
Qed.

(** [Resume] returns when its context ends; it succeeds only for a target
    that owned its halt, after exactly one write that cleared the halt request
    and a last read showing the processor running, and then the target claims no
    halt, has no doubt left, and owes only the disabling of a debug mode that
    was found disabled. *)
Theorem resume_contract {W} `{Env W} `{Memory W} budget fuel ctx (s : TSt W) :
  Deadline budget -> ctx_nil ctx = false -> (budget ctx (tworld s) < fuel)%nat -> op_ok s ->
  wp (Resume fuel ctx) (fun e s' => op_ok s' /\ (e = None -> haltOwned (tgt s) = true /\ resumed s s')) s.
Proof.
  intros Hd Hc Hb Hop. by eapply Returns_total; [apply Returns_Resume|exact Hb|apply Resume_spec].
Qed.

(** [Step] returns when its context ends; it succeeds only from an owned
    halt, launches the step exactly once, writes nothing afterwards but the
    request that ends stepping, and leaves the processor halted with stepping
    off, the halt owned again. *)
Theorem step_contract {W} `{Env W} `{Memory W} budget fuel ctx (s : TSt W) :
  Deadline budget -> ctx_nil ctx = false -> (budget ctx (tworld s) < fuel)%nat -> op_ok s ->
  wp (Step fuel ctx) (fun e s' => op_ok s' /\
    (e = None -> haltOwned (tgt s) = true /\ haltOwned (tgt s') = true /\ step_seen s' /\ stepped s s')) s.
Proof.
  intros Hd Hc Hb Hop. by eapply Returns_total; [apply Returns_Step|exact Hb|apply Step_spec].
Qed.

(** Register transfers return when their context ends.  A register read
    answers the word read from the data register after its selector was written
    once and DHCSR showed the halted processor's transfer complete, and zero with
    any error; a register write validates its register and value, stages the
    value once and selects it once, and succeeds only after the same
    observation. *)
Theorem register_contract {W} `{Env W} `{Memory W} budget fuel ctx reg value (s : TSt W) :
  Deadline budget -> ctx_nil ctx = false -> (budget ctx (tworld s) < fuel)%nat -> op_ok s ->
  wp (ReadRegister fuel ctx reg) (fun r s' => op_ok s' /\
    match snd r with
    | None => R0 <= reg <= PSP /\ register_read reg (fst r) s s'
    | Some _ => fst r = 0
    end) s /\
  wp (WriteRegister fuel ctx reg value) (fun e s' => op_ok s' /\
    (e = None -> validateRegisterWrite reg value = None /\ register_written reg value s s')) s.
Proof.
  intros Hd Hc Hb Hop. split.
  - by eapply Returns_total; [apply Returns_ReadRegister|exact Hb|apply ReadRegister_spec].
  - by eapply Returns_total; [apply Returns_WriteRegister|exact Hb|apply WriteRegister_spec].
Qed.

(** C18: [Release] returns when its context ends.  Success makes the target
    inactive, and comes only with no register transfer pending, no step under
    way, and either no change left to undo or DHCSR read last with its enable
    bit as it was inherited.  A failure keeps the memory and leaves the target
    closing, so the release can be repeated. *)
Theorem cortexm_release_contract {W} `{Env W} `{Memory W} budget fuel ctx (s : TSt W) :
  Deadline budget -> ctx_nil ctx = false -> (budget ctx (tworld s) < fuel)%nat -> op_ok s ->
  wp (Release fuel ctx) (release_post s) s.
Proof.
  intros Hd Hc Hb Hop. by eapply Returns_total; [apply Returns_Release|exact Hb|apply target_Release_spec].
Qed.

Lemma cortexm_release_contract_witness :
  exists s1, Release 5 Background core_halted = Done (None, s1) /\ length (trace s1) = 6%nat /\
    release_post core_halted None s1.
Proof.
  assert (exists s1, Release 5 Background core_halted = Done (None, s1) /\ length (trace s1) = 6%nat)
    as (s1 & E & HL) by (eexists; split; vm_compute; reflexivity).
  exists s1. split; [exact E|]. split; [exact HL|].
  exact (wp_elim _ _ _ _ _ (cortexm_release_contract (fun _ w => waits w) 5 Background core_halted core_deadline
    eq_refl ltac:(vm_compute; lia) core_halted_ok) E).
Defined.

(** ** An unconfirmed resume on Cortex-M33

    A halted Cortex-M33 whose writes fail, and whose reads of DHCSR succeed as
    often as [reads_left] says. *)

Record Flaky := mkFlaky { reads_left : nat }.

#[global] Instance flaky_env : Env Flaky := { ctx_Err := fun _ w => (None, w) }.

#[global] Instance flaky_memory : Memory Flaky := {
  ReadWord := fun _ _ w => match reads_left w with
    | O => ((0, Some (New "read failed")), w)
    | S n => ((Z.lor (Z.lor sSecureDebug sHalt) (Z.lor cDebugEnable cHalt), None), mkFlaky n)
    end;
  WriteWord := fun _ _ _ w => (Some (New "write failed"), w);
  pause := fun _ w => (Some DeadlineExceeded, w)
}.

(** Debug was found enabled; the halt is owned. *)
Definition flaky_halted : TSt Flaky :=
  mkTSt (mkTarget true (decodeCPUID 0x410fd214) 1 false true true false false false false false stepIdle) [] (mkFlaky 1).

(** The halt request was never seen cleared. *)
Definition never_cleared (a : access) : Prop :=
  match a with RD _ v None => any_bits v cHalt = true | _ => True end.

(** On a Cortex-M33 the duty to confirm a resume can be lost.  When the
    write of [Resume] fails and the next [Release] cannot read DHCSR, that failed
    read gives up the halt and with it the recorded change, so a further
    [Release] reports success without any access, while the resume is still
    uncertain and no readback has shown the halt request cleared. *)
Theorem unconfirmed_resume_dropped :
  exists e1 e2 s1 s2 s3,
    Resume 1 Background flaky_halted = Done (Some e1, s1) /\
    Release 1 Background s1 = Done (Some e2, s2) /\
    Release 1 Background s2 = Done (None, s3) /\
    trace s3 = trace s2 /\ resumeUncertain (tgt s3) = true /\ Forall never_cleared (trace s3).
Proof.
  do 5 eexists. split; [vm_compute; reflexivity|]. split; [vm_compute; reflexivity|].
  split; [vm_compute; reflexivity|]. split; [reflexivity|]. split; [reflexivity|]. repeat constructor.
Qed.
