(* ===== verification/CortexMGroup.v ===== *)
(** * Groups of Cortex-M targets (target/cortexm/group.go, group_control.go,
    group_access.go)

    Several processors under one owner.  Each member borrows a memory of its
    own; [memory_of] gives the memory behind a handle, all of them over one
    world.  A member keeps the accesses made to its memory beside its target. *)

From S2P Require Import Prelude Go CortexM.
Local Open Scope Z_scope.

(** What a clock adds to a context: the time left before its deadline, if it has
    one ([ctx.Deadline] and [time.Until]). *)
Class Timer (W : Type) := { ctx_Until : context -> W -> option Z * W }.

Inductive ExecutionState := ExecutionUnknown | Running | HaltedState.

Record CoreResult := mkResult {
  ID : Z;
  res_Identity : Identity;
  Attempted : bool;
  Skipped : bool;
  State : ExecutionState;
  HaltOwned : bool;
  CleanupPending : bool;
  Err : err
}.

Definition newResult (id : Z) : CoreResult := mkResult id zeroIdentity false false ExecutionUnknown false false None.

(** A member's outcome before its operation. *)
Definition reset_result (r : CoreResult) : CoreResult :=
  mkResult (ID r) (res_Identity r) false false ExecutionUnknown (HaltOwned r) (CleanupPending r) None.
Definition set_Err (e : err) (r : CoreResult) : CoreResult :=
  mkResult (ID r) (res_Identity r) (Attempted r) (Skipped r) (State r) (HaltOwned r) (CleanupPending r) e.
Definition set_Attempted (r : CoreResult) : CoreResult :=
  mkResult (ID r) (res_Identity r) true (Skipped r) (State r) (HaltOwned r) (CleanupPending r) (Err r).
Definition set_Outcome (st : ExecutionState) (sk : bool) (e : err) (r : CoreResult) : CoreResult :=
  mkResult (ID r) (res_Identity r) (Attempted r) sk st (HaltOwned r) (CleanupPending r) e.
Definition set_Acquired (id : Identity) (pending : bool) (e : err) (r : CoreResult) : CoreResult :=
  mkResult (ID r) id (Attempted r) (Skipped r) (State r) (HaltOwned r) pending e.
Definition set_Released (pending : bool) (e : err) (r : CoreResult) : CoreResult :=
  mkResult (ID r) (res_Identity r) (Attempted r) (Skipped r) (State r) (HaltOwned r) pending e.
Definition set_HaltOwned (b : bool) (r : CoreResult) : CoreResult :=
  mkResult (ID r) (res_Identity r) (Attempted r) (Skipped r) (State r) b (CleanupPending r) (Err r).

Definition coreError (id : Z) (e : error) : error := Errorf "cortexm: core %d: %w" [e].

Section Group.
Context {W Mem : Type} `{Env W} `{Timer W}.
Variable memory_of : Mem -> Memory W.
Variable fuel : nat.

Record Member := mkMember { mem_ID : Z; mem_Memory : option Mem }.

(** The target is absent (nil) or borrows the memory; [accesses] is the trace of
    that memory. *)
Record groupCore := mkCore {
  result : CoreResult;
  target : option Target;
  core_memory : Mem;
  accesses : list access
}.

(** The zero group has no cores; methods treat a nil group the same way. *)
Record Group := mkGroup { cores : list groupCore; g_closing : bool }.

Record GSt := mkGSt { group : Group; gworld : W }.

Abbreviation M := (GoM GSt).

Definition set_result (f : CoreResult -> CoreResult) (c : groupCore) : groupCore :=
  mkCore (f (result c)) (target c) (core_memory c) (accesses c).

Definition gget {A} (f : Group -> A) : M A := gets (fun s => f (group s)).
Definition gmod (f : Group -> Group) : M unit := modify (fun s => mkGSt (f (group s)) (gworld s)).
Definition set_g_closing (b : bool) : M unit := gmod (fun g => mkGroup (cores g) b).

Definition core_at (i : nat) : M groupCore := l ← gget cores; lift (l !! i).
Definition put_core (i : nat) (f : groupCore -> groupCore) : M unit := gmod (fun g => mkGroup (alter f i (cores g)) (g_closing g)).

(** Methods on a nil target find no memory. *)
Definition noTarget : Target := mkTarget false zeroIdentity 0 false false false false false false false false stepIdle.

(** A method of the target of member [i]. *)
Definition on_target {A} (i : nat) (m : Memory W -> GoM (TSt W) A) : M A := fun s =>
  match cores (group s) !! i with
  | None => Panicked
  | Some c =>
      match m (memory_of (core_memory c)) (mkTSt (default noTarget (target c)) (accesses c) (gworld s)) with
      | Done (a, t) =>
          Done (a, mkGSt (mkGroup (<[i := mkCore (result c) (match target c with Some _ => Some (tgt t) | None => None end) (core_memory c) (trace t)]>
                                     (cores (group s))) (g_closing (group s))) (tworld t))
      | Panicked => Panicked
      | OutOfFuel => OutOfFuel
      end
  end.

Definition group_liveContext (ctx : context) : M err :=
  if ctx_nil ctx then mret (Some (New "cortexm: nil context"))
  else fun s => let (e, w) := ctx_Err ctx (gworld s) in
       Done (option_map (fun e => Sentinel (context_Err e)) e, mkGSt (group s) w).

(** ** Membership (group.go) *)

Fixpoint validate_loop (seen : list Z) (members : list Member) : err :=
  match members with
  | [] => None
  | m :: members =>
      if (mem_ID m =? 0) || bool_decide (mem_ID m ∈ seen) || match mem_Memory m with Some _ => false | None => true end
      then Some (New "cortexm: require unique nonzero core IDs and non-nil memory")
      else validate_loop (mem_ID m :: seen) members
  end.

Definition validateMembers (members : list Member) : err :=
  if bool_decide (length members = O) then Some (New "cortexm: empty group membership")
  else validate_loop [] members.

Definition pendingCount (g : Group) : nat := length (filter (fun c => CleanupPending (result c) = true) (cores g)).
Definition pending (g : Group) : bool := negb (bool_decide (pendingCount g = O)).

(** [Results]; the field [HaltOwned] is only ever set in the copies. *)
Definition core_result (c : groupCore) : CoreResult :=
  set_HaltOwned (CleanupPending (result c) && match target c with Some t => haltOwned t | None => false end) (result c).
Definition Results (g : Group) : list CoreResult := core_result <$> cores g.

(** ** Release *)

(** The division panics with nothing remaining. *)
Definition groupReleaseContext (ctx : context) (remaining : nat) : M context := fun s =>
  match ctx_Until ctx (gworld s) with
  | (Some d, w) =>
      if bool_decide (remaining = O) then Panicked
      else Done (WithTimeout ctx (Z.quot d (Z.of_nat remaining)), mkGSt (group s) w)
  | (None, w) => Done (WithTimeout ctx acquireCleanupTimeout, mkGSt (group s) w)
  end.

(** Members [i - 1] down to zero; [remaining] counts those still pending. *)
Fixpoint release_loop (i : nat) (ctx : context) (remaining : nat) (errs : list err) : M (list err) :=
  match i with
  | O => mret errs
  | S i =>
      c ← core_at i;
      if negb (CleanupPending (result c)) then release_loop i ctx remaining errs
      else
        e ← group_liveContext ctx;
        match e with
        | Some e =>
            put_core i (set_result (fun r => set_Err (errors_Join [Err r; Some e]) r));;
            release_loop i ctx (pred remaining) (errs ++ [Some (coreError (ID (result c)) e)])
        | None =>
            attempt ← groupReleaseContext ctx remaining;
            put_core i (set_result set_Attempted);;
            e ← on_target i (fun m => @Release W _ m fuel attempt);
            put_core i (set_result (fun r => set_Released (negb (is_nil e)) (errors_Join [Err r; e]) r));;
            release_loop i ctx (pred remaining)
              (errs ++ match e with Some e => [Some (coreError (ID (result c)) e)] | None => [] end)
        end
  end.

Definition release (ctx : context) (preserve : bool) : M (list CoreResult * err) :=
  set_g_closing true;;
  (if preserve then mret tt else gmod (fun g => mkGroup (set_result reset_result <$> cores g) (g_closing g)));;
  g ← gget id;
  if negb (pending g) then mret (Results g, None)
  else
    errs ← release_loop (length (cores g)) ctx (pendingCount g) [];
    g ← gget id;
    mret (Results g, errors_Join errs).

Definition group_Release (ctx : context) : M (list CoreResult * err) := release ctx false.

(** ** Acquisition *)

(** [Acquire] into member [i], whose target is nil so far. *)
Definition acquire_core (i : nat) (ctx : context) : M (bool * err) := fun s =>
  match cores (group s) !! i with
  | None => Panicked
  | Some c =>
      match @Acquire W _ (memory_of (core_memory c)) fuel ctx true (mkTSt noTarget (accesses c) (gworld s)) with
      | Done ((got, e), t) =>
          let target := if (got : bool) then Some (tgt t) else None in
          Done ((got, e), mkGSt (mkGroup
            (<[i := mkCore (set_Acquired (match target with Some t => identity t | None => zeroIdentity end) got e (set_Attempted (result c)))
                      target (core_memory c) (trace t)]> (cores (group s))) (g_closing (group s))) (tworld t))
      | Panicked => Panicked
      | OutOfFuel => OutOfFuel
      end
  end.

(** [n] members from [i]. *)
Fixpoint acquire_loop (n i : nat) (ctx : context) : M (bool * err) :=
  match n with
  | O => mret (true, None)
  | S n =>
      '(_, e) ← acquire_core i ctx;
      match e with
      | None => acquire_loop n (S i) ctx
      | Some e =>
          c ← core_at i;
          '(_, releaseErr) ← release (WithTimeout Background acquireCleanupTimeout) true;
          p ← gget pending;
          mret ((p : bool), errors_Join [Some (coreError (ID (result c)) e); releaseErr])
      end
  end.

(** The group is made from the members, whose memories are not nil. *)
Definition newGroup (members : list Member) : Group :=
  mkGroup (omap (fun m => mem ← mem_Memory m; Some (mkCore (newResult (mem_ID m)) None mem [])) members) false.

(** The boolean is whether a group is returned, nil otherwise. *)
Definition AcquireGroup (ctx : context) (members : list Member) : M (bool * err) :=
  match validateMembers members with
  | Some e => mret (false, Some e)
  | None =>
      e ← group_liveContext ctx;
      match e with
      | Some e => mret (false, Some e)
      | None =>
          gmod (fun _ => newGroup members);;
          acquire_loop (length members) 0 ctx
      end
  end.

(** ** Selected members (group_control.go) *)

Fixpoint wanted_loop (wanted : list Z) (ids : list Z) : bool :=
  match ids with
  | [] => true
  | id :: ids => negb ((id =? 0) || bool_decide (id ∈ wanted)) && wanted_loop (id :: wanted) ids
  end.

(** The indices of the wanted cores, from [i]. *)
Fixpoint selected_from (i : nat) (ids : list Z) (l : list groupCore) : list nat :=
  match l with
  | [] => []
  | c :: l => (if bool_decide (ID (result c) ∈ ids) then [i] else []) ++ selected_from (S i) ids l
  end.

Definition selectCores (ids : list Z) (g : Group) : list nat * err :=
  if bool_decide (length (cores g) = O) || g_closing g
  then ([], Some (New "cortexm: group is unavailable; release may be pending"))
  else if bool_decide (length ids = O) then ([], Some (New "cortexm: empty core selection"))
  else if negb (wanted_loop [] ids) then ([], Some (New "cortexm: require unique nonzero selected core IDs"))
  else
    let selected := selected_from 0 ids (cores g) in
    if negb (bool_decide (length selected = length ids))
    then ([], Some (New "cortexm: selected core is not a group member"))
    else (selected, None).

(** What a control function answers; [A] is what its closure assigns. *)
Definition coreControl (A : Type) := Memory W -> GoM (TSt W) (ExecutionState * bool * err * A).

Fixpoint control_loop {A} (selected : list nat) (ctx : context) (call : coreControl A) (a : A) : M A :=
  match selected with
  | [] => mret a
  | i :: selected =>
      e ← group_liveContext ctx;
      match e with
      | Some e => put_core i (set_result (set_Err (Some e)));; mret a
      | None =>
          put_core i (set_result set_Attempted);;
          '(st, sk, e, a) ← on_target i call;
          put_core i (set_result (set_Outcome st sk e));;
          match e with
          | Some _ =>
              c ← core_at i;
              t ← lift (target c);
              set_g_closing (closing t);;
              mret a
          | None => control_loop selected ctx call a
          end
      end
  end.

Definition selectedResults (selected : list nat) (g : Group) : option (list CoreResult) :=
  mapM (fun i => Results g !! i) selected.

Fixpoint first_error (l : list CoreResult) : err :=
  match l with
  | [] => None
  | r :: l => match Err r with Some e => Some (coreError (ID r) e) | None => first_error l end
  end.

(** [selected] is without duplicates, so the order of the resets is free. *)
Definition control {A} (ctx : context) (ids : list Z) (call : coreControl A) (a : A) : M (list CoreResult * err * A) :=
  g ← gget id;
  match selectCores ids g with
  | (_, Some e) => mret ([], Some e, a)
  | (selected, None) =>
      gmod (fun g => mkGroup (imap (fun i c => if bool_decide (i ∈ selected) then set_result reset_result c else c) (cores g)) (g_closing g));;
      a ← control_loop selected ctx call a;
      g ← gget id;
      results ← lift (selectedResults selected g);
      mret (results, first_error results, a)
  end.

Definition statusCore (ctx : context) : coreControl unit := fun m =>
  '(halted, e) ← @Halted W _ m ctx;
  match e with
  | Some e => mret (ExecutionUnknown, false, Some e, tt)
  | None => mret (if (halted : bool) then HaltedState else Running, false, None, tt)
  end.

Definition haltCore (ctx : context) : coreControl unit := fun m =>
  e ← @Halt W _ m fuel ctx;
  match e with
  | Some e => mret (ExecutionUnknown, false, Some e, tt)
  | None => mret (HaltedState, false, None, tt)
  end.

Definition resumeCore (ctx : context) : coreControl unit := fun m =>
  '(state, _, e, _) ← statusCore ctx m;
  owned ← tget haltOwned;
  if negb (is_nil e) || negb owned then mret (state, is_nil e, e, tt)
  else
    e ← @Resume W _ m fuel ctx;
    match e with
    | Some e => mret (ExecutionUnknown, false, Some e, tt)
    | None => mret (Running, false, None, tt)
    end.

Definition group_Halt (ctx : context) (ids : list Z) : M (list CoreResult * err) :=
  '(r, e, _) ← control ctx ids (haltCore ctx) tt; mret (r, e).
Definition group_Resume (ctx : context) (ids : list Z) : M (list CoreResult * err) :=
  '(r, e, _) ← control ctx ids (resumeCore ctx) tt; mret (r, e).
Definition group_Status (ctx : context) (ids : list Z) : M (list CoreResult * err) :=
  '(r, e, _) ← control ctx ids (statusCore ctx) tt; mret (r, e).

(** ** One member (group_access.go) *)

Definition accessCall {A} (call : Memory W -> GoM (TSt W) (A * err)) : coreControl A := fun m =>
  '(a, e) ← call m;
  match e with
  | Some e => mret (ExecutionUnknown, false, Some e, a)
  | None => mret (HaltedState, false, None, a)
  end.

Definition group_access {A} (ctx : context) (id : Z) (call : Memory W -> GoM (TSt W) (A * err)) (a : A) : M (A * err) :=
  '(_, e, a) ← control ctx [id] (accessCall call) a; mret (a, e).

Definition group_ReadRegister (ctx : context) (id reg : Z) : M (Z * err) :=
  '(value, e) ← group_access ctx id (fun m => @ReadRegister W _ m fuel ctx reg) 0;
  match e with
  | Some e => mret (0, Some e)
  | None => mret (value, None)
  end.

(** A method that answers only an error. *)
Definition only_err (m : GoM (TSt W) err) : GoM (TSt W) (unit * err) := e ← m; mret (tt, e).

Definition group_WriteRegister (ctx : context) (id reg value : Z) : M err :=
  '(_, e) ← group_access ctx id (fun m => only_err (@WriteRegister W _ m fuel ctx reg value)) tt; mret e.
Definition group_Step (ctx : context) (id : Z) : M err :=
  '(_, e) ← group_access ctx id (fun m => only_err (@Step W _ m fuel ctx)) tt; mret e.
End Group.
