(* ===== verification/CortexMGroupFacts.v ===== *)
(** * What group operations keep of their members *)

From Stdlib Require Import Sorting.Sorted.
From S2P Require Import Prelude Go CortexM CortexMFacts CortexMControl CortexMRelease CortexMGroup.
Local Open Scope Z_scope.

(** ** Methods that succeed leave the target open *)

Create HintDb opens.

Section Open.
Context {W : Type} `{Env W} `{Memory W}.
Implicit Types s : TSt W.

Definition borrows s s' : Prop := memory (tgt s') = memory (tgt s) /\ identity (tgt s') = identity (tgt s).

(** [m] keeps the memory, and closes the target only with an outcome that is not
    [ok]. *)
Definition Holds {A} (ok : A -> bool) (m : GoM (TSt W) A) : Prop :=
  forall s, ends m (fun a s' => borrows s s' /\ (ok a = true -> closing (tgt s') = closing (tgt s))) s.

(** [m] keeps the memory and its outcome is not [ok]. *)
Definition Fails {A} (ok : A -> bool) (m : GoM (TSt W) A) : Prop :=
  forall s, ends m (fun a s' => borrows s s' /\ ok a = false) s.

Lemma borrows_trans s1 s2 s3 : borrows s1 s2 -> borrows s2 s3 -> borrows s1 s3.
Proof. intros [] []. split; congruence. Qed.

Lemma Holds_ret {A} (ok : A -> bool) a : Holds ok (mret a).
Proof. intros s. by apply ends_ret. Qed.

Lemma Fails_ret {A} (ok : A -> bool) a : ok a = false -> Fails ok (mret a).
Proof. intros E s. by apply ends_ret. Qed.

Lemma Holds_bind {A B} (okm : A -> bool) (ok : B -> bool) m (f : A -> GoM (TSt W) B) :
  Holds okm m -> (forall a, okm a = true -> Holds ok (f a)) -> (forall a, okm a = false -> Fails ok (f a)) -> Holds ok (mbind f m).
Proof.
  intros Hm Ht Hf s. apply ends_bind. eapply ends_mono; [apply Hm|]. intros a s1 [B1 C1]. destruct (okm a) eqn:E.
  - eapply ends_mono; [by apply Ht|]. intros b s2 [B2 C2]. split; [by eapply borrows_trans|]. intros Hb. rewrite C2, C1; done.
  - eapply ends_mono; [by apply Hf|]. intros b s2 [B2 C2]. split; [by eapply borrows_trans|]. congruence.
Qed.

Lemma Fails_bind {A B} (okm : A -> bool) (ok : B -> bool) m (f : A -> GoM (TSt W) B) :
  Holds okm m -> (forall a, Fails ok (f a)) -> Fails ok (mbind f m).
Proof.
  intros Hm Hf s. apply ends_bind. eapply ends_mono; [apply Hm|]. intros a s1 [B1 _].
  eapply ends_mono; [by apply Hf|]. intros b s2 [B2 C2]. split; [by eapply borrows_trans|done].
Qed.

Lemma Holds_step {A B} (ok : B -> bool) m (f : A -> GoM (TSt W) B) :
  Holds (fun _ => true) m -> (forall a, Holds ok (f a)) -> Holds ok (mbind f m).
Proof. intros Hm Hf. by eapply Holds_bind; [exact Hm|auto|]. Qed.

Lemma Holds_guard {A} (ok : A -> bool) m fail rest :
  Holds is_nil m -> (forall e, Fails ok (fail e)) -> Holds ok rest -> Holds ok (guard_err m fail rest).
Proof. intros Hm Hf Hr. eapply Holds_bind; [exact Hm| |]; by intros [e|]. Qed.

(** A result with its error beside it. *)
Lemma Holds_value {A B} (ok : B -> bool) m (f : A * err -> GoM (TSt W) B) :
  Holds (fun r => is_nil (snd r)) m -> (forall a, Holds ok (f (a, None))) -> (forall a e, Fails ok (f (a, Some e))) -> Holds ok (mbind f m).
Proof. intros Hm Hn He. eapply Holds_bind; [exact Hm| |]; intros [a [e|]]; done || auto. Qed.

Lemma Holds_tget {A} (ok : A -> bool) f : Holds ok (tget f).
Proof. intros s. done. Qed.

Lemma Holds_tmod ok f : (forall t, memory (f t) = memory t /\ identity (f t) = identity t /\ closing (f t) = closing t) -> Holds ok (tmod f).
Proof. intros Hf s. destruct (Hf (tgt s)) as (? & ? & ?). by split. Qed.

Lemma Holds_mark f : (forall t, memory (f t) = memory t /\ identity (f t) = identity t) -> Holds (fun _ => false) (tmod f).
Proof. intros Hf s. split; [exact (Hf (tgt s))|done]. Qed.

Lemma Fails_mark {A} (ok : A -> bool) f m :
  (forall t, memory (f t) = memory t /\ identity (f t) = identity t) -> Fails ok m -> Fails ok (tmod f;; m).
Proof. intros Hf Hm. eapply Fails_bind; [by apply Holds_mark|done]. Qed.

Lemma Holds_check ok f : (forall t, memory (snd (f t)) = memory t /\ identity (snd (f t)) = identity t /\ closing (snd (f t)) = closing t) -> Holds ok (check f).
Proof. intros Hf s. unfold ends, check. destruct (Hf (tgt s)) as (? & ? & ?). destruct (f (tgt s)). by split. Qed.

Lemma Holds_ctxErr ok ctx : Holds ok (ctxErr ctx).
Proof. intros s. unfold ends, ctxErr. destruct (ctx_nil ctx); [done|]. by destruct (ctx_Err _ _). Qed.

Lemma Holds_wait ok ctx : Holds ok (wait ctx).
Proof. intros s. unfold ends, wait. destruct (ctx_nil ctx); [done|]. by destruct (pause _ _). Qed.

Lemma Holds_readWord ok ctx a : Holds ok (readWord ctx a).
Proof. intros s. unfold ends, readWord. by destruct (ReadWord _ _ _) as [[]]. Qed.

Lemma Holds_writeWord ok ctx a v : Holds ok (writeWord ctx a v).
Proof. intros s. unfold ends, writeWord. by destruct (WriteWord _ _ _ _). Qed.

Lemma Holds_weaken {A} (ok : A -> bool) m : Holds (fun _ => true) m -> Holds ok m.
Proof. intros Hm s. eapply ends_mono; [apply Hm|]. intros a s' [? ?]. auto. Qed.

Lemma Holds_readDHCSR ok ctx : Holds ok (readDHCSR ctx).
Proof.
  apply Holds_weaken, Holds_step; [apply Holds_readWord|]. intros [v e]. apply Holds_step; [|intros; apply Holds_ret].
  apply Holds_tmod. intros t. unfold observeDHCSR. by repeat case_match.
Qed.

Lemma arch_keeps v t : let t' := snd (validateArchitectureControl v t) in memory t' = memory t /\ identity t' = identity t /\ closing t' = closing t.
Proof. unfold validateArchitectureControl. by repeat (case_match; simpl). Qed.

Lemma Holds_arch ok v : Holds ok (check (validateArchitectureControl v)).
Proof. apply Holds_check, arch_keeps. Qed.

Lemma Holds_observe ok v : Holds ok (tmod (observeHaltRequest v)).
Proof. apply Holds_tmod. intros t. unfold observeHaltRequest. by case_match. Qed.

Lemma readError_keeps e t : memory (readError e t) = memory t /\ identity (readError e t) = identity t.
Proof. unfold readError. by case_match. Qed.

Lemma Holds_readControl ctx : Holds (fun r => is_nil (snd r)) (readControl ctx).
Proof.
  apply Holds_step; [apply Holds_readDHCSR|]. intros [v e]. eapply Holds_bind with (okm := is_nil).
  - case_match; [apply Holds_ret|apply Holds_arch].
  - intros [e'|]; [done|]. intros _. apply Holds_step; [apply Holds_observe|]. intros _. apply Holds_ret.
  - intros [e'|]; [|done]. intros _. apply Fails_mark; [apply readError_keeps|by apply Fails_ret].
Qed.

Lemma Fails_Holds {A} (ok : A -> bool) m : Fails ok m -> Holds ok m.
Proof. intros Hm s. eapply ends_mono; [apply Hm|]. intros a s' [? ?]. split; [done|congruence]. Qed.

Ltac fails := repeat first [ by apply Fails_ret | apply Fails_mark; [first [apply readError_keeps|done]|] ].
Ltac opens :=
  repeat match goal with
    | |- forall _, _ => intro
    | |- Fails _ _ => unfold ret_err, close_with; fails
    | |- Holds _ (mret _) => apply Holds_ret
    | |- Holds _ (guard_err _ _ _) => apply Holds_guard
    | |- Holds _ (match ?x with _ => _ end) => destruct x
    | |- Holds _ (ctxErr _) => apply Holds_ctxErr
    | |- Holds _ (close_with _) => apply Fails_Holds
    | |- Holds _ (wait _) => apply Holds_wait
    | |- Holds _ (writeWord _ _ _) => apply Holds_writeWord
    | |- Holds _ (check (validateArchitectureControl _)) => apply Holds_arch
    | |- Holds _ (mbind _ (tget _)) => apply Holds_step; [apply Holds_tget|]
    | |- Holds _ (mbind _ (tmod _)) => first [ apply Holds_step; [first [apply Holds_observe|apply Holds_tmod; done]|] | apply Fails_Holds; fails; fail ]
    | |- Holds _ (mbind _ (readControl _)) => apply Holds_value; [apply Holds_readControl| |]
    | |- Holds _ (mbind _ (readWord _ _)) => apply Holds_value; [apply Holds_readWord| |]
    | |- Holds _ (mbind _ (readDHCSR _)) => apply Holds_value; [apply Holds_readDHCSR| |]
    | |- Holds _ _ => assumption || (solve [eauto with opens])
    end.

Lemma Holds_active ctx : Holds is_nil (active ctx).
Proof. unfold active, liveContext. opens. Qed.
Hint Resolve Holds_active : opens.

Lemma Holds_waitHalt n ctx halted : Holds is_nil (waitHalt n ctx halted).
Proof. induction n as [|n IH]; [done|]. cbn [waitHalt]. opens. Qed.
Hint Resolve Holds_waitHalt : opens.

Lemma Holds_Halt fuel ctx : Holds is_nil (Halt fuel ctx).
Proof.
  unfold Halt, requestHalt. apply Holds_guard; [opens|opens|]. apply Holds_value; [apply Holds_readControl| |].
  - intros v. cbn [is_nil negb orb]. opens.
  - intros v e. cbn [is_nil negb orb]. opens.
Qed.

Lemma Holds_Halted ctx : Holds (fun r => is_nil (snd r)) (Halted ctx).
Proof. unfold Halted. opens. Qed.

Lemma Holds_Resume fuel ctx : Holds is_nil (Resume fuel ctx).
Proof. unfold Resume, resume, resume_check. opens. Qed.

Lemma Holds_registerStatus ctx : Holds is_nil (registerStatus ctx).
Proof. unfold registerStatus. opens. Qed.
Hint Resolve Holds_registerStatus : opens.

Lemma Holds_waitRegister_loop n ctx : Holds is_nil (waitRegister_loop n ctx).
Proof. induction n as [|n IH]; [done|]. cbn [waitRegister_loop]. opens. Qed.

Lemma Holds_waitRegister fuel ctx : Holds is_nil (waitRegister fuel ctx).
Proof.
  eapply Holds_bind; [apply Holds_waitRegister_loop|intros [e|] E; [done|]|intros [e|] E; [|done]].
  - apply Holds_step; [apply Holds_tget|]. intros p. apply Holds_step; [apply Holds_ret|]. intros _. apply Holds_ret.
  - eapply Fails_bind; [apply (Holds_tget (fun _ => true))|]. intros p. cbn [is_nil negb andb].
    eapply (Fails_bind (fun _ => false)); [|intros _; by apply Fails_ret]. destruct p; [by apply Holds_mark|apply Holds_ret].
Qed.
Hint Resolve Holds_waitRegister : opens.

Lemma Holds_selectRegister fuel ctx r : Holds is_nil (selectRegister fuel ctx r).
Proof. unfold selectRegister. opens. Qed.
Hint Resolve Holds_selectRegister : opens.

Lemma Holds_ReadRegister fuel ctx reg : Holds (fun r => is_nil (snd r)) (ReadRegister fuel ctx reg).
Proof. unfold ReadRegister. opens. Qed.

Lemma Holds_WriteRegister fuel ctx reg v : Holds is_nil (WriteRegister fuel ctx reg v).
Proof. unfold WriteRegister. opens. Qed.

Lemma Holds_stepState ok v : Holds ok (check (observeStepState v)).
Proof. apply Holds_check. intros t. unfold observeStepState. by repeat (case_match; simpl). Qed.
Hint Resolve Holds_stepState : opens.

Lemma Holds_stepStatus ctx : Holds (fun r => is_nil (snd r)) (stepStatus ctx).
Proof. unfold stepStatus. opens. Qed.

Lemma Holds_finishStep ctx : Holds is_nil (finishStep ctx).
Proof.
  unfold finishStep, step_reason. apply Holds_guard; [|opens|].
  - apply Holds_step; [apply Holds_tget|]. intros p. case_match; [|opens]. apply Holds_value; [apply Holds_readWord| |opens].
    intros v. apply Holds_step; [|opens]. apply Holds_tmod. intros t. unfold stepOwnership. by case_match.
  - apply Holds_guard; [opens|opens|]. apply Holds_step; [apply Holds_tget|]. intros m. apply Holds_guard; [|opens|opens].
    destruct m; [|opens]. apply Holds_value; [apply Holds_stepStatus|opens|opens].
Qed.
Hint Resolve Holds_finishStep : opens.

Lemma Holds_settleStep n ctx : Holds is_nil (settleStep n ctx).
Proof.
  induction n as [|n IH]; [done|]. cbn [settleStep]. apply Holds_guard; [opens|opens|].
  apply Holds_value; [apply Holds_stepStatus|opens|opens].
Qed.
Hint Resolve Holds_settleStep : opens.

Lemma Holds_Step fuel ctx : Holds is_nil (Step fuel ctx).
Proof. unfold Step. opens. Qed.
End Open.

(** ** Members *)

Section Members.
Context {W Mem : Type} `{Env W} `{Timer W}.
Variable memory_of : Mem -> Memory W.
Implicit Types (c : groupCore (Mem := Mem)) (g : Group (Mem := Mem)) (s : GSt (W := W) (Mem := Mem)).

(** A member as its target's methods see it. *)
Definition core_st c (w : W) : TSt W := mkTSt (default noTarget (target c)) (accesses c) w.

(** The target keeps its invariant, and cleanup is pending exactly while it
    borrows its memory. *)
Record core_ok c : Prop := {
  ck_trace : Forall justified (accesses c);
  ck_target t : target c = Some t -> sound t /\ memory t = CleanupPending (result c);
  ck_none : target c = None -> CleanupPending (result c) = false
}.

Definition open_core c : Prop := exists t, target c = Some t /\ memory t = true /\ closing t = false.

Definition member_ids g : list Z := (fun c => ID (result c)) <$> cores g.

(** Until the group closes every member is open. *)
Record group_ok g : Prop := {
  gk_cores : Forall core_ok (cores g);
  gk_ids : NoDup (member_ids g);
  gk_zero : 0 ∉ member_ids g;
  gk_open : g_closing g = false -> Forall open_core (cores g)
}.

Lemma core_op_ok c w t : core_ok c -> target c = Some t -> op_ok (core_st c w).
Proof. intros [J T _] E. unfold core_st. rewrite E. destruct (T t E). by split. Qed.

(** *** Rules *)

Lemma alter_at {X} (l : list X) i x f : l !! i = Some x -> alter f i l = <[i := f x]> l.
Proof.
  revert i. induction l as [|y l IH]; intros [|i] E; simplify_eq/=; [done|]. f_equal. by apply IH.
Qed.

Definition put g (i : nat) c : Group := mkGroup (<[i := c]> (cores g)) (g_closing g).

Lemma put_put g i c c' : put (put g i c) i c' = put g i c'.
Proof. unfold put. cbn [cores g_closing]. by rewrite list_insert_insert_eq. Qed.

Lemma put_lookup g i c c0 : cores g !! i = Some c0 -> cores (put g i c) !! i = Some c.
Proof. intros E. apply list_lookup_insert_eq. by eapply lookup_lt_Some. Qed.

Lemma wlp_put_core i f c (Q : unit -> GSt -> Prop) s :
  cores (group s) !! i = Some c -> Q tt (mkGSt (put (group s) i (f c)) (gworld s)) -> wlp (put_core i f) Q s.
Proof. intros E HQ. apply wlp_modify. cbn [group gworld]. by rewrite (alter_at _ _ _ _ E). Qed.

Lemma wlp_core_at i c (Q : groupCore -> GSt -> Prop) s : cores (group s) !! i = Some c -> Q c s -> wlp (core_at i) Q s.
Proof. intros E HQ. unfold core_at. apply wlp_bind, wlp_gets. unfold wlp, lift. by rewrite E. Qed.

Lemma wlp_on_target {A} i (m : Memory W -> GoM (TSt W) A) c t (Q : A -> GSt -> Prop) s :
  cores (group s) !! i = Some c -> target c = Some t ->
  wlp (m (memory_of (core_memory c))) (fun a t' => Q a (mkGSt (put (group s) i (mkCore (result c) (Some (tgt t')) (core_memory c) (trace t'))) (tworld t')))
    (core_st c (gworld s)) ->
  wlp (on_target memory_of i m) Q s.
Proof.
  intros E T Hm. unfold wlp, on_target in *. rewrite E. unfold core_st in Hm. rewrite T in *. cbn [default from_option id] in *.
  destruct (m _ _) as [[a t']| |]; done.
Qed.

Lemma wlp_group_liveContext ctx (Q : err -> GSt -> Prop) s :
  (forall e w, Q (Some e) (mkGSt (group s) w)) -> (forall w, ctx_nil ctx = false -> Q None (mkGSt (group s) w)) ->
  wlp (group_liveContext ctx) Q s.
Proof.
  intros HE HN. unfold group_liveContext. destruct (ctx_nil ctx) eqn:Hn.
  - apply wlp_ret. destruct s as [g w]. apply HE.
  - unfold wlp. destruct (ctx_Err ctx (gworld s)) as [[e|] w]; [apply HE|by apply HN].
Qed.

(** *** One member replaced *)

Lemma put_ids g i c c' : cores g !! i = Some c -> ID (result c') = ID (result c) -> member_ids (put g i c') = member_ids g.
Proof.
  intros E EI. unfold member_ids, put. cbn [cores]. rewrite list_fmap_insert, EI. apply list_insert_id.
  by rewrite list_lookup_fmap, E.
Qed.

Lemma group_ok_put g i c c' closed :
  group_ok g -> cores g !! i = Some c -> ID (result c') = ID (result c) -> core_ok c' ->
  (closed = false -> g_closing g = false /\ open_core c') -> group_ok (mkGroup (cores (put g i c')) closed).
Proof.
  intros [C N Z O] E EI Ck Ho. pose proof (put_ids g i c c' E EI) as Ei. split; cbn [cores g_closing].
  - by apply Forall_insert.
  - change (NoDup (member_ids (put g i c'))). by rewrite Ei.
  - change (0 ∉ member_ids (put g i c')). by rewrite Ei.
  - intros Hc. destruct (Ho Hc) as [Hg Hc']. apply Forall_insert; auto.
Qed.

Lemma core_ok_result f c : core_ok c -> CleanupPending (f (result c)) = CleanupPending (result c) -> core_ok (set_result f c).
Proof. intros [J T N] E. split; cbn [target accesses result set_result]; rewrite ?E; auto. Qed.
End Members.

(** ** Selected members, one after the other *)

Section Controlled.
Context {W Mem A : Type} `{Env W} `{Timer W}.
Variable memory_of : Mem -> Memory W.
Variable call : coreControl (W := W) A.
(** What a call that succeeded did: the target before, the state it reports,
    whether it skipped, what it returns, the target after. *)
Variable P : TSt W -> ExecutionState -> bool -> A -> TSt W -> Prop.
Implicit Types (c : groupCore (Mem := Mem)) (g : Group (Mem := Mem)) (s : GSt (W := W) (Mem := Mem)).

Definition call_post (x : TSt W) (r : ExecutionState * bool * err * A) (y : TSt W) : Prop :=
  let '(st, sk, e, a) := r in
  op_ok y /\ memory (tgt y) = memory (tgt x) /\ (e = None -> closing (tgt y) = closing (tgt x) /\ P x st sk a y).

Hypothesis call_spec : forall mem (x : TSt W), op_ok x -> wlp (call mem) (call_post x) x.

(** A member whose operation succeeded, or failed. *)
Definition member_done c (a : A) c' : Prop :=
  exists w w' st sk, P (core_st c w) st sk a (core_st c' w') /\
    result c' = set_Outcome st sk None (set_Attempted (result c)) /\ open_core c'.

Definition member_failed c c' : Prop :=
  exists st sk e, result c' = set_Outcome st sk (Some e) (set_Attempted (result c)) /\ exists t, target c' = Some t.

(** In the order of the selection, up to the first failure: the context's end
    before a member, or the member's own. *)
Inductive controlled : list nat -> Group -> A -> err -> A -> Group -> Prop :=
| ctl_nil g a : controlled [] g a None a g
| ctl_ended i sel g a c e :
    cores g !! i = Some c -> controlled (i :: sel) g a (Some (coreError (ID (result c)) e)) a (put g i (set_result (set_Err (Some e)) c))
| ctl_failed i sel g a a' c c' t e :
    cores g !! i = Some c -> member_failed c c' -> target c' = Some t -> Err (result c') = Some e ->
    controlled (i :: sel) g a (Some (coreError (ID (result c)) e)) a' (mkGroup (cores (put g i c')) (closing t))
| ctl_next i sel g a a1 a' c c' e g' :
    cores g !! i = Some c -> member_done c a1 c' -> controlled sel (put g i c') a1 e a' g' -> controlled (i :: sel) g a e a' g'.

(** The others are not touched, and a failure is the only way to close. *)
Lemma controlled_frame sel g a e a' g' :
  controlled sel g a e a' g' -> length (cores g') = length (cores g) /\ (e = None -> g_closing g' = g_closing g) /\
  forall i, i ∉ sel -> cores g' !! i = cores g !! i.
Proof.
  induction 1 as [g a|i sel g a c e E|i sel g a a' c c' t e E F T Ee|i sel g a a1 a' c c' e g' E D _ (IL & IC & IF)].
  - done.
  - split_and!; cbn [put cores]; [by rewrite length_insert|done|]. intros j Hj. apply list_lookup_insert_ne.
    intros ->. apply Hj, elem_of_cons. by left.
  - split_and!; cbn [put cores]; [by rewrite length_insert|done|]. intros j Hj. apply list_lookup_insert_ne.
    intros ->. apply Hj, elem_of_cons. by left.
  - split_and!; [by rewrite IL; apply length_insert|done|]. intros j Hj. rewrite not_elem_of_cons in Hj. rewrite IF by apply Hj.
    apply list_lookup_insert_ne. intros ->. by destruct Hj.
Qed.

Lemma controlled_ids sel g a e a' g' : controlled sel g a e a' g' -> member_ids g' = member_ids g.
Proof.
  induction 1 as [g a|i sel g a c e E|i sel g a a' c c' t e E F T Ee|i sel g a a1 a' c c' e g' E D _ IH]; [done|..].
  - by eapply put_ids.
  - destruct F as (st & sk & e' & Er & _). change (member_ids (put g i c') = member_ids g). eapply put_ids; [exact E|]. by rewrite Er.
  - destruct D as (w & w' & st & sk & _ & Er & _). rewrite IH. eapply put_ids; [exact E|]. by rewrite Er.
Qed.

(** What a call leaves in its member. *)
Lemma called_core c t (x : TSt W) r :
  core_ok c -> op_ok x -> target c = Some t -> memory (tgt x) = memory t -> CleanupPending (r (result c)) = CleanupPending (result c) ->
  core_ok (set_result r (mkCore (result c) (Some (tgt x)) (core_memory c) (trace x))).
Proof.
  intros [J T N] [S Jx] Et Em E. split; cbn [target accesses result set_result]; [done| |done].
  intros t' [= <-]. split; [done|]. rewrite Em, E. by apply T.
Qed.

Lemma control_loop_wlp sel ctx a s :
  group_ok (group s) -> g_closing (group s) = false -> NoDup sel -> Forall (fun i => i < length (cores (group s)))%nat sel ->
  wlp (control_loop memory_of sel ctx call a) (fun a' s' => group_ok (group s') /\ exists e, controlled sel (group s) a e a' (group s')) s.
Proof.
  revert a s. induction sel as [|i sel IH]; intros a s G Hc N L; cbn [control_loop].
  { apply wlp_ret. split; [done|]. exists None. constructor. }
  apply NoDup_cons in N as [Ni N]. apply Forall_cons in L as [Li L].
  destruct (lookup_lt_is_Some_2 _ _ Li) as [c Ec]. pose proof (Forall_lookup_1 _ _ _ _ (gk_cores _ G) Ec) as Ck.
  destruct (Forall_lookup_1 _ _ _ _ (gk_open _ G Hc) Ec) as (t & Et & Em & Et').
  apply wlp_bind, wlp_group_liveContext.
  { intros e w. apply wlp_bind. eapply wlp_put_core; [exact Ec|]. cbn [group gworld]. apply wlp_ret. cbn [group]. split.
    - eapply (group_ok_put (group s) i c _ (g_closing (group s))); try done; [by apply core_ok_result|]. intros _. split; [done|].
      by exists t.
    - eexists. by apply ctl_ended. }
  intros w Hn. apply wlp_bind. eapply wlp_put_core; [exact Ec|]. cbn [group gworld].
  set (c1 := set_result set_Attempted c). apply wlp_bind.
  eapply (wlp_on_target memory_of i call c1 t); [cbn [group]; by eapply put_lookup|done|]. cbn [group gworld].
  assert (op_ok (core_st c1 w)) as Ox by (eapply (core_op_ok c1); [by apply core_ok_result|done]).
  eapply wlp_mono; [by apply call_spec|]. intros [[[st sk] e] a1] x (Oy & Hm & He). cbn beta iota. rewrite put_put.
  set (c2 := mkCore (result c1) (Some (tgt x)) (core_memory c1) (trace x)).
  apply wlp_bind. eapply wlp_put_core; [cbn [group]; by eapply put_lookup|]. cbn [group gworld]. rewrite put_put.
  set (c3 := set_result (set_Outcome st sk e) c2).
  assert (memory (tgt x) = memory t) as Hm' by (rewrite Hm; unfold core_st, c1; cbn [target set_result]; by rewrite Et).
  assert (core_ok c3) as Ck3.
  { apply (called_core c1 t x (set_Outcome st sk e)); try done. by apply core_ok_result. }
  destruct e as [e|].
  - apply wlp_bind. eapply wlp_core_at; [cbn [group]; by eapply put_lookup|]. apply wlp_bind.
    change (target c3) with (Some (tgt x)). unfold wlp at 1, lift. apply wlp_bind, wlp_modify, wlp_ret. cbn [group gworld].
    split.
    + eapply (group_ok_put (group s) i c c3); try done. intros Hcl. split; [done|]. exists (tgt x). split_and!; [done|congruence|done].
    + eexists. eapply (ctl_failed i sel (group s) a a1 c c3); [done| |done|done]. exists st, sk, e. split; [done|]. by exists (tgt x).
  - destruct (He eq_refl) as [Hk HP]. assert (open_core c3) as Op.
    { exists (tgt x). split_and!; [done|congruence|]. rewrite Hk. unfold core_st, c1. cbn [target set_result]. by rewrite Et. }
    eapply wlp_mono; [apply IH; cbn [group]; try done|].
    + eapply (group_ok_put (group s) i c c3 (g_closing (group s))); try done.
    + cbn [put cores]. rewrite length_insert. done.
    + intros a' s' (G' & e & K). split; [done|]. exists e. eapply ctl_next; [exact Ec| |exact K].
      exists w, (tworld x), st, sk. split_and!; [|done|done]. unfold core_st at 1. unfold core_st, c1 in HP. cbn [target set_result accesses] in HP.
      change (P (mkTSt (default noTarget (target c)) (accesses c) w) st sk a1 (mkTSt (tgt x) (trace x) (tworld x))). by destruct x.
Qed.

Lemma first_error_cons c rs :
  first_error (core_result c :: rs) = match Err (result c) with Some e => Some (coreError (ID (result c)) e) | None => first_error rs end.
Proof. done. Qed.

Lemma selectedResults_cons i sel g c rs :
  cores g !! i = Some c -> selectedResults sel g = Some rs -> selectedResults (i :: sel) g = Some (core_result c :: rs).
Proof.
  intros E Er. unfold selectedResults in *. cbn [mapM]. unfold Results in *. rewrite list_lookup_fmap, E. cbn. by rewrite Er.
Qed.

(** The first error among the results is the failure. *)
Lemma controlled_results sel g a e a' g' :
  controlled sel g a e a' g' -> NoDup sel ->
  (forall i, i ∈ sel -> exists c, cores g !! i = Some c /\ Err (result c) = None) ->
  exists rs, selectedResults sel g' = Some rs /\ first_error rs = e /\ Forall2 (fun i r => exists c, cores g' !! i = Some c /\ r = core_result c) sel rs.
Proof.
  assert (forall sel g, (forall i, i ∈ sel -> exists c, cores g !! i = Some c /\ Err (result c) = None) ->
    exists rs, selectedResults sel g = Some rs /\ first_error rs = None /\ Forall2 (fun i r => exists c, cores g !! i = Some c /\ r = core_result c) sel rs) as Clean.
  { clear. intros sel g. induction sel as [|i sel IH]; intros Hs; [exists []; by split_and!|].
    destruct (Hs i) as (c & Ec & En); [apply elem_of_cons; by left|]. destruct IH as (rs & E1 & E2 & E3); [intros j Hj; apply Hs, elem_of_cons; by right|].
    exists (core_result c :: rs). split; [by apply selectedResults_cons|]. rewrite first_error_cons, En. split; [done|]. constructor; [by exists c|done]. }
  assert (forall i sel g c, cores g !! i = Some c -> i ∉ sel -> (forall j, j ∈ sel -> exists c, cores g !! j = Some c /\ Err (result c) = None) ->
    forall c' cl e, Err (result c') = Some e ->
    exists rs, selectedResults (i :: sel) (mkGroup (cores (put g i c')) cl) = Some rs /\ first_error rs = Some (coreError (ID (result c')) e) /\
      Forall2 (fun k r => exists c, cores (put g i c') !! k = Some c /\ r = core_result c) (i :: sel) rs) as Stop.
  { intros i sel' g0 c E Ni Hs c' cl e0 He. destruct (Clean sel' (mkGroup (cores (put g0 i c')) cl)) as (rs & E1 & _ & E3).
    { intros j Hj. cbn [cores put]. rewrite list_lookup_insert_ne by (intros ->; done). by apply Hs. }
    exists (core_result c' :: rs). split; [apply selectedResults_cons; [by eapply put_lookup|done]|]. rewrite first_error_cons, He. split; [done|].
    constructor; [|done]. exists c'. split; [|done]. by eapply put_lookup. }
  induction 1 as [g a|i sel g a c e E|i sel g a a' c c' t e E F T Ee|i sel g a a1 a' c c' e g' E D K IH]; intros N Hs.
  - exists []. by split_and!.
  - apply NoDup_cons in N as [Ni N].
    apply (Stop i sel g c E Ni (fun j Hj => Hs j (proj2 (elem_of_cons _ _ _) (or_intror Hj))) (set_result (set_Err (Some e)) c) (g_closing g) e eq_refl).
  - apply NoDup_cons in N as [Ni N]. destruct F as (st & sk & e' & Er & _). rewrite Er in Ee. cbn in Ee. injection Ee as ->.
    destruct (Stop i sel g c E Ni (fun j Hj => Hs j (proj2 (elem_of_cons _ _ _) (or_intror Hj))) c' (closing t) e) as (rs & S1 & S2 & S3); [by rewrite Er|].
    exists rs. split; [done|]. split; [|done]. by rewrite S2, Er.
  - apply NoDup_cons in N as [Ni N]. destruct (controlled_frame _ _ _ _ _ _ K) as (KL & _ & KF).
    destruct IH as (rs & E1 & E2 & E3); [done| |].
    { intros j Hj. cbn [put cores]. rewrite list_lookup_insert_ne by (intros ->; done). apply Hs, elem_of_cons. by right. }
    destruct D as (w & w' & st & sk & _ & Er & _).
    assert (cores g' !! i = Some c') as Ei by (rewrite KF by done; by eapply put_lookup).
    exists (core_result c' :: rs). split; [by apply selectedResults_cons|]. rewrite first_error_cons, Er. cbn. split; [done|]. constructor; [by exists c'|done].
Qed.
End Controlled.

(** ** Selection *)

Section Selection.
Context {Mem : Type}.
Implicit Types (c : groupCore (Mem := Mem)) (g : Group (Mem := Mem)).

Lemma wanted_loop_spec wanted ids : wanted_loop wanted ids = true -> NoDup ids /\ (0 ∉ ids) /\ forall id, id ∈ ids -> id ∉ wanted.
Proof.
  revert wanted. induction ids as [|id ids IH]; intros wanted; cbn [wanted_loop].
  { intros _. split_and!; [constructor|apply not_elem_of_nil|]. intros id Hid. by apply not_elem_of_nil in Hid. }
  rewrite andb_true_iff, negb_true_iff, orb_false_iff, bool_decide_eq_false. intros [[Z N] W]. apply Z.eqb_neq in Z.
  destruct (IH _ W) as (D & Z' & F). split_and!.
  - constructor; [|done]. intros Hi. apply (F id Hi), elem_of_cons. by left.
  - rewrite not_elem_of_cons. done.
  - intros x [->|Hx]%elem_of_cons; [done|]. intros Hw. apply (F x Hx), elem_of_cons. by right.
Qed.

(** Indices in membership order, of the members that are named. *)
Lemma selected_from_spec i ids (l : list groupCore) :
  NoDup (selected_from i ids l) /\
  (forall j, j ∈ selected_from i ids l <-> exists k c, j = (i + k)%nat /\ l !! k = Some c /\ ID (result c) ∈ ids) /\
  StronglySorted lt (selected_from i ids l).
Proof.
  revert i. induction l as [|c l IH]; intros i; cbn [selected_from].
  { split_and!; [constructor| |constructor]. intros j. split; [by intros ?%not_elem_of_nil|]. intros (k & c & _ & E & _). done. }
  destruct (IH (S i)) as (N & Sp & O).
  assert (forall j, j ∈ selected_from (S i) ids l -> (i < j)%nat) as Later by (intros j (k & x & -> & _)%Sp; lia).
  assert (forall j, (exists k x, j = (i + k)%nat /\ (c :: l) !! k = Some x /\ ID (result x) ∈ ids) <->
    (j = i /\ ID (result c) ∈ ids) \/ j ∈ selected_from (S i) ids l) as Eq.
  { intros j. rewrite Sp. split.
    - intros ([|k] & x & -> & E & Hx); simplify_eq/=; [left; split; [lia|done]|right; exists k, x; split_and!; [lia|done|done]].
    - intros [[-> Hc]|(k & x & -> & E & Hx)]; [exists 0%nat, c; split_and!; [lia|done|done]|exists (S k), x; split_and!; [lia|done|done]]. }
  case_bool_decide as Hc; cbn [app]; split_and!; try done.
  - constructor; [|done]. intros Hi. apply Later in Hi. lia.
  - intros j. rewrite elem_of_cons, Eq. tauto.
  - constructor; [done|]. apply Forall_forall. intros j Hj. by apply Later.
  - intros j. rewrite Eq. tauto.
Qed.

Definition selection (ids : list Z) g (sel : list nat) : Prop :=
  NoDup sel /\ StronglySorted lt sel /\ (forall i, i ∈ sel <-> exists c, cores g !! i = Some c /\ ID (result c) ∈ ids) /\
  forall id, id ∈ ids -> id ∈ member_ids g.

Lemma selectCores_spec ids g sel :
  group_ok g -> selectCores ids g = (sel, None) -> g_closing g = false /\ selection ids g sel.
Proof.
  intros G. unfold selectCores. destruct (_ || _) eqn:E1; [done|]. apply orb_false_iff in E1 as [_ Ec].
  case_bool_decide; [done|]. destruct (wanted_loop [] ids) eqn:Ew; [|done]. cbn [negb].
  case_bool_decide as El; [|done]. intros [= <-]. split; [done|].
  apply wanted_loop_spec in Ew as (D & _ & _). destruct (selected_from_spec 0 ids (cores g)) as (N & S & O).
  assert (forall i, i ∈ selected_from 0 ids (cores g) <-> exists c, cores g !! i = Some c /\ ID (result c) ∈ ids) as Sel.
  { intros i. rewrite S. split; [intros (k & c & -> & K); by exists c|intros (c & K); by exists i, c]. }
  split_and!; try done. set (sel := selected_from 0 ids (cores g)) in *.
  set (names := omap (fun i => member_ids g !! i) sel).
  assert (length names = length ids) as Ln.
  { rewrite <- El. subst names. clear -Sel. assert (forall l, l ⊆ sel -> length (omap (fun i => member_ids g !! i) l) = length l) as K; [|by apply K].
    intros l. induction l as [|i l IH]; intros Hl; [done|]. cbn. destruct (proj1 (Sel i)) as (c & E & _); [apply Hl, elem_of_cons; by left|].
    unfold member_ids at 1. rewrite list_lookup_fmap, E. cbn. f_equal. apply IH. intros j Hj. apply Hl, elem_of_cons. by right. }
  assert (forall id, id ∈ names <-> exists i, i ∈ sel /\ member_ids g !! i = Some id) as Hn by (intros id; apply list_elem_of_omap).
  assert (NoDup names) as Nn.
  { subst names. clear -N G. induction N as [|i l Hi N IH]; [constructor|]. cbn. destruct (member_ids g !! i) as [id|] eqn:E; [|done].
    constructor; [|done]. intros (j & Hj & Ej)%list_elem_of_omap. apply Hi. by rewrite (NoDup_lookup _ _ _ _ (gk_ids _ G) E Ej). }
  assert (names ≡ₚ ids) as Pm.
  { apply submseteq_length_Permutation; [|lia]. apply NoDup_submseteq; [done|]. intros id (i & Hi & Ei)%Hn.
    apply Sel in Hi as (c & E & Hc). unfold member_ids in Ei. rewrite list_lookup_fmap, E in Ei. by injection Ei as <-. }
  intros id Hid. rewrite <- Pm in Hid. apply Hn in Hid as (i & _ & Ei). by eapply list_elem_of_lookup_2.
Qed.
End Selection.

(** ** Whole operations *)

Section Operations.
Context {W Mem : Type} `{Env W} `{Timer W}.
Variable memory_of : Mem -> Memory W.
Implicit Types (c : groupCore (Mem := Mem)) (g : Group (Mem := Mem)) (s : GSt (W := W) (Mem := Mem)).

(** The selected members' outcomes cleared. *)
Definition cleared (sel : list nat) g : Group :=
  mkGroup (imap (fun i c => if bool_decide (i ∈ sel) then set_result reset_result c else c) (cores g)) (g_closing g).

Lemma cleared_lookup sel g i :
  cores (cleared sel g) !! i = (fun c => if bool_decide (i ∈ sel) then set_result reset_result c else c) <$> cores g !! i.
Proof. apply list_lookup_imap. Qed.

Lemma cleared_ids sel g : member_ids (cleared sel g) = member_ids g.
Proof.
  apply list_eq. intros i. unfold member_ids. rewrite !list_lookup_fmap, cleared_lookup. destruct (cores g !! i); [|done]. cbn. by case_bool_decide.
Qed.

Lemma cleared_ok sel g : group_ok g -> group_ok (cleared sel g).
Proof.
  intros [C N Z O]. split; rewrite ?cleared_ids; try done.
  - apply Forall_lookup. intros i c Hi. rewrite cleared_lookup in Hi. destruct (cores g !! i) as [c0|] eqn:E; [|done]. cbn in Hi.
    injection Hi as <-. pose proof (Forall_lookup_1 _ _ _ _ C E). case_bool_decide; [by apply core_ok_result|done].
  - intros Hc. apply Forall_lookup. intros i c Hi. rewrite cleared_lookup in Hi. destruct (cores g !! i) as [c0|] eqn:E; [|done]. cbn in Hi.
    injection Hi as <-. pose proof (Forall_lookup_1 _ _ _ _ (O Hc) E). by case_bool_decide.
Qed.

(** A refused selection changes nothing.  Otherwise the selected members are
    operated on in membership order up to the first failure, which is the error;
    the results are theirs, and nothing else has changed. *)
Definition control_post {A} (P : TSt W -> ExecutionState -> bool -> A -> TSt W -> Prop) (ids : list Z) (a : A) s
    (r : list CoreResult * err * A) s' : Prop :=
  let '(rs, e, a') := r in
  group_ok (group s') /\
  match selectCores ids (group s) with
  | (_, Some e') => rs = [] /\ e = Some e' /\ a' = a /\ s' = s
  | (sel, None) =>
      selection ids (group s) sel /\ controlled P sel (cleared sel (group s)) a e a' (group s') /\
      Forall2 (fun i r => exists c, cores (group s') !! i = Some c /\ r = core_result c) sel rs /\
      (forall i, i ∉ sel -> cores (group s') !! i = cores (group s) !! i) /\ (e = None -> g_closing (group s') = false)
  end.

Lemma control_wlp {A} ctx ids (call : coreControl (W := W) A) P a s :
  (forall mem (x : TSt W), op_ok x -> wlp (call mem) (call_post P x) x) -> group_ok (group s) ->
  wlp (control memory_of ctx ids call a) (control_post P ids a s) s.
Proof.
  intros Hcall G. unfold control. apply wlp_bind, wlp_gets. unfold id. unfold control_post.
  destruct (selectCores ids (group s)) as [sel [e|]] eqn:Es; [by apply wlp_ret|].
  destruct (selectCores_spec _ _ _ G Es) as [Hc Hsel]. pose proof Hsel as (N & _ & Sel & _).
  apply wlp_bind, wlp_modify. cbn [group gworld]. change (mkGroup _ _) with (cleared sel (group s)). pose proof (cleared_ok sel _ G) as Gc.
  apply wlp_bind. eapply wlp_mono; [apply (control_loop_wlp memory_of call P Hcall); cbn [group]; try done|].
  { apply Forall_forall. intros i (c & E & _)%Sel. cbn [cleared cores]. rewrite length_imap. by eapply lookup_lt_Some. }
  intros a' s1 (G1 & e & K). cbn [group] in K. apply wlp_bind, wlp_gets.
  destruct (controlled_results P _ _ _ _ _ _ K N) as (rs & Er & Ef & F2).
  { intros i Hi. destruct (proj1 (Sel i) Hi) as (c & E & _). rewrite cleared_lookup, E. eexists. split; [done|]. by rewrite bool_decide_true. }
  unfold id. apply wlp_bind. unfold wlp at 1, lift. rewrite Er. apply wlp_ret. cbn beta iota. rewrite Ef.
  destruct (controlled_frame P _ _ _ _ _ _ K) as (_ & KC & KF). split_and!; try done.
  - intros i Hi. rewrite KF, cleared_lookup by done. destruct (cores (group s) !! i); [|done]. cbn. by rewrite bool_decide_false.
  - intros He. by rewrite KC.
Qed.

(** *** The calls *)

(** DHCSR was read once and showed the reported state. *)
Definition status_seen (x : TSt W) (st : ExecutionState) (y : TSt W) : Prop :=
  exists v, trace y = RD dhcsrAddress v None :: trace x /\ control_ok v /\ st = (if any_bits v sHalt then HaltedState else Running).

Definition status_done (x : TSt W) st (sk : bool) (a : unit) y : Prop := sk = false /\ status_seen x st y.

Definition halt_done (x : TSt W) st (sk : bool) (a : unit) y : Prop := st = HaltedState /\ sk = false /\ halt_post x y.

(** A halt that is not owned, once observed, is left alone. *)
Definition resume_done (x : TSt W) st (sk : bool) (a : unit) y : Prop :=
  exists z st', status_seen x st' z /\
    if sk then st = st' /\ y = z /\ haltOwned (tgt z) = false else st = Running /\ haltOwned (tgt z) = true /\ resumed z y.

Lemma status_spec ctx mem (x : TSt W) : op_ok x -> wlp (statusCore ctx mem) (call_post status_done x) x.
Proof.
  intros O. unfold statusCore. apply wlp_bind.
  eapply wlp_mono; [apply wlp_ends; [by apply (@Halted_spec W _ mem)|apply (@Holds_Halted W _ mem)]|].
  intros [h [e|]] y [[Oy K] [[B _] C]]; cbn [fst snd] in *; apply wlp_ret; (split; [done|]); (split; [done|]); [done|]. intros _.
  split; [by apply C|]. destruct (K eq_refl) as (v & T & Cv & ->). split; [done|]. by exists v.
Qed.

Lemma halt_spec fuel ctx mem (x : TSt W) : op_ok x -> wlp (haltCore fuel ctx mem) (call_post halt_done x) x.
Proof.
  intros O. unfold haltCore. apply wlp_bind.
  eapply wlp_mono; [apply wlp_ends; [by apply (@Halt_spec W _ mem)|apply (@Holds_Halt W _ mem)]|].
  intros [e|] y [[Oy K] [[B _] C]]; apply wlp_ret; (split; [done|]); (split; [done|]); [done|]. intros _.
  split; [by apply C|]. by split_and!; [..|apply K].
Qed.

Lemma resume_core_spec fuel ctx mem (x : TSt W) : op_ok x -> wlp (resumeCore fuel ctx mem) (call_post resume_done x) x.
Proof.
  intros O. unfold resumeCore. apply wlp_bind. eapply wlp_mono; [by apply status_spec|]. intros [[[st sk] e] []] z (Oz & Bz & Kz).
  cbn beta iota. apply wlp_bind, wlp_tget. destruct e as [e|]; cbn [is_nil negb orb]; [by apply wlp_ret|].
  destruct (Kz eq_refl) as (Cz & _ & Sz). destruct (haltOwned (tgt z)) eqn:Eo; cbn [negb].
  - apply wlp_bind. eapply wlp_mono; [apply wlp_ends; [by apply (@Resume_spec W _ mem)|apply (@Holds_Resume W _ mem)]|].
    intros [e|] y [[Oy K] [[B _] C]]; apply wlp_ret; (split; [done|]); (split; [congruence|]); [done|]. intros _.
    split; [rewrite C; done|]. exists z, st. split; [done|]. split_and!; [done|done|by apply K].
  - apply wlp_ret. split; [done|]. split; [done|]. intros _. split; [done|]. by exists z, st.
Qed.
End Operations.
