(* ===== verification/CortexMGroupLife.v ===== *)
(** * Groups over their life: access to one member, release, acquisition,
    termination *)

From S2P Require Import Prelude Go CortexM CortexMFacts CortexMControl CortexMRelease CortexMProps CortexMGroup CortexMGroupFacts.
Local Open Scope Z_scope.

(** ** One member *)

Section Access.
Context {W Mem : Type} `{Env W} `{Timer W}.
Variable memory_of : Mem -> Memory W.
Implicit Types (c : groupCore (Mem := Mem)) (g : Group (Mem := Mem)) (s : GSt (W := W) (Mem := Mem)).

(** What an access leaves on success: [Q] relates the target before, its answer
    and the target after. *)
Definition access_done {A} (Q : TSt W -> A -> TSt W -> Prop) (x : TSt W) (st : ExecutionState) (sk : bool) (a : A) (y : TSt W) : Prop :=
  st = HaltedState /\ sk = false /\ Q x a y.

Lemma access_call {A} (call : Memory W -> GoM (TSt W) (A * err)) Q :
  (forall mem (x : TSt W), op_ok x -> wlp (call mem) (fun r y => op_ok y /\ (snd r = None -> Q x (fst r) y)) x) ->
  (forall mem : Memory W, Holds (fun r => is_nil (snd r)) (call mem)) ->
  forall mem (x : TSt W), op_ok x -> wlp (accessCall call mem) (call_post (access_done Q) x) x.
Proof.
  intros Hs Ho mem x O. unfold accessCall. apply wlp_bind.
  eapply wlp_mono; [apply wlp_ends; [by apply Hs|apply Ho]|].
  intros [a [e|]] y [[Oy K] [[B _] C]]; cbn [fst snd] in *; apply wlp_ret; (split; [done|]); (split; [done|]); [done|]. intros _.
  split; [by apply C|]. split_and!; [done|done|by apply K].
Qed.

Definition read_done (reg : Z) (x : TSt W) (v : Z) (y : TSt W) : Prop := R0 <= reg <= PSP /\ register_read reg v x y.
Definition write_done (reg value : Z) (x : TSt W) (_ : unit) (y : TSt W) : Prop :=
  validateRegisterWrite reg value = None /\ register_written reg value x y.
Definition step_done (x : TSt W) (_ : unit) (y : TSt W) : Prop :=
  haltOwned (tgt x) = true /\ haltOwned (tgt y) = true /\ step_seen y /\ stepped x y.

Lemma Holds_only_err (m : GoM (TSt W) err) : Holds is_nil m -> Holds (fun r => is_nil (snd r)) (only_err m).
Proof. intros Hm. eapply Holds_bind; [exact Hm| |]; intros [e|] E; [done|apply Holds_ret|by apply Fails_ret|done]. Qed.

Lemma wlp_only_err (m : GoM (TSt W) err) (P : TSt W -> Prop) (Q : unit -> TSt W -> Prop) x :
  wlp m (fun e y => P y /\ (e = None -> Q tt y)) x -> wlp (only_err m) (fun r y => P y /\ (snd r = None -> Q (fst r) y)) x.
Proof. intros Hm. apply wlp_bind. eapply wlp_mono; [exact Hm|]. intros e y K. by apply wlp_ret. Qed.

Lemma read_call fuel ctx reg mem (x : TSt W) :
  op_ok x -> wlp (accessCall (fun m => @ReadRegister W _ m fuel ctx reg) mem) (call_post (access_done (read_done reg)) x) x.
Proof.
  apply access_call; [|intros m; apply Holds_ReadRegister]. intros m y O. eapply wlp_mono; [by apply (@ReadRegister_spec W _ m)|].
  intros [v [e|]] z [Oz K]; by split.
Qed.

Lemma write_call fuel ctx reg value mem (x : TSt W) :
  op_ok x -> wlp (accessCall (fun m => only_err (@WriteRegister W _ m fuel ctx reg value)) mem) (call_post (access_done (write_done reg value)) x) x.
Proof.
  apply access_call; [|intros m; apply Holds_only_err, Holds_WriteRegister]. intros m y O.
  apply wlp_only_err. by apply (@WriteRegister_spec W _ m).
Qed.

Lemma step_call fuel ctx mem (x : TSt W) :
  op_ok x -> wlp (accessCall (fun m => only_err (@Step W _ m fuel ctx)) mem) (call_post (access_done step_done) x) x.
Proof.
  apply access_call; [|intros m; apply Holds_only_err, Holds_Step]. intros m y O.
  apply wlp_only_err. by apply (@Step_spec W _ m).
Qed.

(** A success with one identifier is the named member's own, and replaces only it. *)
Lemma control_one {A} P id (a : A) s rs a' s' :
  group_ok (group s) -> control_post P [id] a s (rs, None, a') s' ->
  exists i c c', cores (group s) !! i = Some c /\ ID (result c) = id /\ member_done P (set_result reset_result c) a' c' /\
    group s' = mkGroup (<[i := c']> (cores (group s))) false.
Proof.
  intros G [_ K]. destruct (selectCores [id] (group s)) as [sel [e|]] eqn:Es; [by destruct K as (_ & ? & _)|].
  destruct K as ((N & _ & Sel & Mem_) & K & _ & F & C).
  assert (forall i, i ∈ sel -> exists c, cores (group s) !! i = Some c /\ member_ids (group s) !! i = Some id) as One.
  { intros i (c & E & Hc%list_elem_of_singleton)%Sel. exists c. split; [done|]. unfold member_ids. by rewrite list_lookup_fmap, E, <- Hc. }
  destruct sel as [|i sel].
  { destruct (proj1 (list_elem_of_lookup _ _) (Mem_ id (proj2 (list_elem_of_singleton _ _) eq_refl))) as [j Ej].
    unfold member_ids in Ej. rewrite list_lookup_fmap in Ej. destruct (cores (group s) !! j) as [c|] eqn:E; [|done]. injection Ej as Ej.
    exfalso. apply (not_elem_of_nil j), Sel. exists c. split; [done|]. by apply list_elem_of_singleton. }
  destruct sel as [|j sel].
  2: { exfalso. apply NoDup_cons in N as [Nj _]. apply Nj, elem_of_cons. left.
    destruct (One i) as (_ & _ & Ei); [apply elem_of_cons; by left|]. destruct (One j) as (_ & _ & Ej); [apply elem_of_cons; right; apply elem_of_cons; by left|].
    exact (NoDup_lookup _ _ _ _ (gk_ids _ G) Ei Ej). }
  destruct (One i) as (c & E & Ei); [by apply list_elem_of_singleton|]. unfold member_ids in Ei. rewrite list_lookup_fmap, E in Ei. injection Ei as Ei.
  inversion K as [| | |i0 sel0 g0 a0 a1 a2 c0 c' e0 g' E0 D K']; subst. assert (group s' = put (cleared [i] (group s)) i c' /\ a' = a1) as [E5 ->] by (inversion K'; by subst).
  rewrite cleared_lookup, E in E0. cbn in E0. rewrite bool_decide_true in E0 by (by apply list_elem_of_singleton). injection E0 as <-.
  exists i, c, c'. split_and!; try done. rewrite E5 in C |- *. unfold put in C |- *. cbn [g_closing] in *. rewrite (C eq_refl). f_equal.
  apply list_eq. intros j. destruct (decide (i = j)) as [<-|Hne].
  - rewrite !list_lookup_insert_eq; [done|by eapply lookup_lt_Some|]. cbn [cleared cores]. rewrite length_imap. by eapply lookup_lt_Some.
  - rewrite !list_lookup_insert_ne by done. rewrite cleared_lookup. destruct (cores (group s) !! j); [|done]. cbn.
    rewrite bool_decide_false; [done|]. rewrite list_elem_of_singleton. congruence.
Qed.
End Access.

(** ** Release *)

Section Release.
Context {W Mem : Type} `{Env W} `{Timer W}.
Variable memory_of : Mem -> Memory W.
Variable fuel : nat.
Implicit Types (c : groupCore (Mem := Mem)) (g : Group (Mem := Mem)) (s : GSt (W := W) (Mem := Mem)).

(** What a member's part of a release did, and the error it adds: it owed
    nothing; the context had ended before it; or its target was released. *)
Inductive released_core c : err -> groupCore -> Prop :=
| rel_idle : CleanupPending (result c) = false -> released_core c None c
| rel_skipped e : CleanupPending (result c) = true ->
    released_core c (Some (coreError (ID (result c)) e)) (set_result (fun r => set_Err (errors_Join [Err r; Some e]) r) c)
| rel_tried e t' (w w' : W) tr : CleanupPending (result c) = true ->
    release_post (core_st c w) e (mkTSt t' tr w') ->
    released_core c (option_map (coreError (ID (result c))) e)
      (mkCore (set_Released (negb (is_nil e)) (errors_Join [Err (result c); e]) (set_Attempted (result c))) (Some t') (core_memory c) tr).

Lemma pending_target c : core_ok c -> CleanupPending (result c) = true -> exists t, target c = Some t /\ memory t = true.
Proof.
  intros [_ T N] P. destruct (target c) as [t|] eqn:E; [|by rewrite N in P]. exists t. split; [done|]. destruct (T t eq_refl) as [_ ->]. done.
Qed.

Lemma released_core_ok c e c' : released_core c e c' -> core_ok c -> core_ok c' /\ ID (result c') = ID (result c).
Proof.
  intros K Ck. destruct K as [P|e P|e t' w w' tr P [O D F]]; (split; [|done]); [done|by apply core_ok_result|].
  split; cbn [accesses target result]; [apply O| |done]. intros t [= <-]. split; [apply O|]. cbn.
  destruct e as [e|]; cbn [is_nil negb]; [by apply F|by apply D].
Qed.

(** Nothing is owed after a member's part without an error. *)
Lemma released_core_done c e c' : released_core c e c' -> e = None <-> CleanupPending (result c') = false.
Proof. destruct 1 as [P|e P|[e|] t' w w' tr P _]; cbn; [done|rewrite P; by split|by split|by split]. Qed.

Definition pends (l : list groupCore) : nat := length (filter (fun c => CleanupPending (result c) = true) l).

Lemma pends_snoc l c : pends (l ++ [c]) = (pends l + if CleanupPending (result c) then 1 else 0)%nat.
Proof.
  unfold pends. rewrite filter_app, length_app. f_equal. rewrite filter_cons, filter_nil. by destruct (CleanupPending (result c)).
Qed.

Definition named (es : list err) : list err := filter (fun e => e <> None) es.

Lemma named_join es : errors_Join (named es) = errors_Join es.
Proof.
  unfold errors_Join. assert (omap id (named es) = omap id es) as ->; [|done].
  unfold named. induction es as [|[e|] es IH]; [done| |done]. rewrite filter_cons_True by done. cbn. by rewrite IH.
Qed.

Lemma put_middle l c c' r cl : put (mkGroup (l ++ c :: r) cl) (length l) c' = mkGroup (l ++ c' :: r) cl.
Proof. unfold put. cbn [cores g_closing]. f_equal. rewrite insert_app_r_alt, Nat.sub_diag by done. done. Qed.

Lemma wlp_groupReleaseContext ctx n (Q : context -> GSt -> Prop) s :
  n <> O -> (forall t w, Q (WithTimeout ctx t) (mkGSt (group s) w)) -> wlp (groupReleaseContext ctx n) Q s.
Proof. intros Hn HQ. unfold wlp, groupReleaseContext. destruct (ctx_Until _ _) as [[d|] w]; [|apply HQ]. rewrite bool_decide_false by done. apply HQ. Qed.

(** From the last member to the first, whatever the others did. *)
Lemma release_loop_wlp ctx l r cl errs w n :
  Forall core_ok l -> n = pends l ->
  wlp (release_loop memory_of fuel (length l) ctx n errs) (fun errs' s' =>
    exists es l', Forall3 released_core l es l' /\ group s' = mkGroup (l' ++ r) cl /\ errs' = errs ++ named (reverse es)) (mkGSt (mkGroup (l ++ r) cl) w).
Proof.
  revert r errs w n. induction l as [|c l IH] using rev_ind; intros r errs w n Ck ->.
  { apply wlp_ret. exists [], []. split; [constructor|]. split; [done|]. by rewrite reverse_nil, app_nil_r. }
  apply Forall_app in Ck as [Cl Cc]. rewrite Forall_singleton in Cc. rewrite length_app, Nat.add_1_r, <- app_assoc. cbn [app release_loop].
  rewrite pends_snoc.
  assert (cores (mkGroup (l ++ c :: r) cl) !! length l = Some c) as Ec by (cbn [cores]; by apply list_lookup_middle).
  assert (forall c' e errs' n' w', released_core c e c' -> errs' = errs ++ named [e] -> n' = pends l ->
    wlp (release_loop memory_of fuel (length l) ctx n' errs') (fun errs' s' => exists es l', Forall3 released_core (l ++ [c]) es l' /\
      group s' = mkGroup (l' ++ r) cl /\ errs' = errs ++ named (reverse es)) (mkGSt (mkGroup (l ++ c' :: r) cl) w')) as Next.
  { intros c' e errs' n' w' K -> ->. eapply wlp_mono; [by apply IH|]. intros errs1 s' (es & l' & F & Eg & ->). exists (es ++ [e]), (l' ++ [c']).
    split_and!.
    - apply Forall3_app; [done|]. by repeat constructor.
    - by rewrite Eg, <- app_assoc.
    - rewrite reverse_app. unfold named. by rewrite filter_app, app_assoc. }
  apply wlp_bind. eapply wlp_core_at; [exact Ec|]. destruct (CleanupPending (result c)) eqn:P; cbn [negb].
  2: { eapply Next; [by constructor|by rewrite app_nil_r|lia]. }
  destruct (pending_target c Cc P) as (t & Et & _).
  apply wlp_bind, wlp_group_liveContext.
  { intros e w'. apply wlp_bind. eapply wlp_put_core; [exact Ec|]. cbn [group gworld]. rewrite put_middle.
    eapply Next; [by apply rel_skipped|done|lia]. }
  intros w1 Hn. apply wlp_bind, wlp_groupReleaseContext; [lia|]. intros tm w2. cbn [group].
  apply wlp_bind. eapply wlp_put_core; [exact Ec|]. cbn [group gworld]. rewrite put_middle.
  set (c1 := set_result set_Attempted c).
  apply wlp_bind. eapply (wlp_on_target memory_of _ _ c1 t); [cbn [group cores]; by apply list_lookup_middle|done|]. cbn [group gworld].
  assert (op_ok (core_st c1 w2)) as Ox by (eapply (core_op_ok c1); [by apply core_ok_result|done]).
  eapply wlp_mono; [by apply (@target_Release_spec W _ (memory_of (core_memory c1)))|]. intros e x Hx. rewrite put_middle.
  apply wlp_bind. eapply wlp_put_core; [cbn [group cores]; by apply list_lookup_middle|]. cbn [group gworld]. rewrite put_middle.
  eapply (Next _ (option_map (coreError (ID (result c))) e)); [|by destruct e|lia].
  apply (rel_tried c e (tgt x) w2 (tworld x) (trace x) P). by destruct x.
Qed.

Lemma Forall3_idle l : pends l = O -> Forall3 released_core l (replicate (length l) None) l.
Proof.
  induction l as [|c l IH]; [constructor|]. intros Hp. assert (CleanupPending (result c) = false /\ pends l = O) as [Hc Hl].
  { unfold pends in *. rewrite filter_cons in Hp. destruct (CleanupPending (result c)); [by rewrite decide_True in Hp|by rewrite decide_False in Hp]. }
  constructor; [by constructor|by apply IH].
Qed.

(** The members' outcomes before a release. *)
Definition started (preserve : bool) (l : list (groupCore (Mem := Mem))) : list groupCore := if preserve then l else set_result reset_result <$> l.

(** Every member had its part; the group is closing; the error joins the parts',
    from the last member to the first. *)
Definition group_release_post (preserve : bool) (g : Group (Mem := Mem)) (r : list CoreResult * err) (g' : Group) : Prop :=
  g_closing g' = true /\ fst r = Results g' /\
  exists es, Forall3 released_core (started preserve (cores g)) es (cores g') /\ snd r = errors_Join (reverse es).

Lemma started_ok preserve l : Forall core_ok l -> Forall core_ok (started preserve l).
Proof. destruct preserve; [done|]. intros F. apply Forall_fmap. eapply Forall_impl; [exact F|]. intros c Ck. by apply core_ok_result. Qed.

Lemma join_none n : errors_Join (reverse (replicate n None)) = None.
Proof. apply errors_Join_None. apply Forall_reverse, Forall_replicate. done. Qed.

Lemma release_wlp ctx preserve s :
  Forall core_ok (cores (group s)) -> wlp (release memory_of fuel ctx preserve) (fun r s' => group_release_post preserve (group s) r (group s')) s.
Proof.
  intros Ck. unfold release. apply wlp_bind, wlp_modify. cbn [group gworld cores g_closing]. apply wlp_bind.
  apply (wlp_mono _ (fun _ s1 => s1 = mkGSt (mkGroup (started preserve (cores (group s))) true) (gworld s))).
  { destruct preserve; [by apply wlp_ret|by apply wlp_modify]. }
  intros _ s1 ->. apply started_ok with (preserve := preserve) in Ck. apply wlp_bind, wlp_gets. cbn [group id]. unfold pending, pendingCount. cbn [cores].
  set (l := started preserve (cores (group s))) in *.
  assert (length (filter (fun c => CleanupPending (result c) = true) l) = pends l) as Ep by done. rewrite Ep, negb_involutive.
  case_bool_decide as P.
  { apply wlp_ret. split_and!; [done|done|]. exists (replicate (length l) None). split; [by apply Forall3_idle|]. cbn [snd]. by rewrite join_none. }
  apply wlp_bind. pose proof (release_loop_wlp ctx l [] true [] (gworld s) (pends l) Ck eq_refl) as Hl. rewrite app_nil_r in Hl.
  eapply wlp_mono; [exact Hl|]. intros errs s' (es & l' & F & Eg & ->). rewrite app_nil_r in Eg.
  apply wlp_bind, wlp_gets, wlp_ret. cbn [id fst snd app]. rewrite Eg, named_join. split_and!; [done|done|]. exists es. by split.
Qed.

Lemma released_all l es l' : Forall3 released_core l es l' -> Forall core_ok l ->
  Forall core_ok l' /\ (fun c => ID (result c)) <$> l' = (fun c => ID (result c)) <$> l.
Proof.
  induction 1 as [|c e c' l es l' K _ IH]; [done|]. intros [Ck Cl]%Forall_cons. destruct (IH Cl) as [I1 I2].
  destruct (released_core_ok _ _ _ K Ck) as [K1 K2]. split; [by constructor|]. cbn. by rewrite I2, K2.
Qed.

Lemma started_ids preserve l : (fun c => ID (result c)) <$> started preserve l = (fun c => ID (result c)) <$> l.
Proof. destruct preserve; [done|]. cbn. rewrite <- list_fmap_compose. done. Qed.

(** After a release the group keeps its invariant, and it succeeds exactly when
    nothing is owed any more. *)
Lemma group_release_ok preserve g r g' :
  group_release_post preserve g r g' -> Forall core_ok (cores g) -> NoDup (member_ids g) -> 0 ∉ member_ids g ->
  group_ok g' /\ member_ids g' = member_ids g /\ (snd r = None <-> pending g' = false).
Proof.
  intros (Hc & _ & es & F & ->) Ck N Z. destruct (released_all _ _ _ F (started_ok preserve _ Ck)) as [Ck' Ei].
  rewrite started_ids in Ei. assert (member_ids g' = member_ids g) as Em by exact Ei. split; [|split; [done|]].
  - split; rewrite ?Em; try done. by rewrite Hc.
  - rewrite errors_Join_None, Forall_reverse. unfold pending. rewrite negb_false_iff, bool_decide_eq_true.
    change (pendingCount g') with (pends (cores g')). clear -F. induction F as [|c e c' l es l' K _ IH]; [by split|].
    rewrite Forall_cons, IH, (released_core_done _ _ _ K). unfold pends. rewrite filter_cons. destruct (CleanupPending (result c')).
    + rewrite decide_True by done. split; [by intros []|done].
    + rewrite decide_False by done. tauto.
Qed.
End Release.

(** ** Acquisition *)

Section Acquisition.
Context {W Mem : Type} `{Env W} `{Timer W}.
Variable memory_of : Mem -> Memory W.
Variable fuel : nat.
Implicit Types (c : groupCore (Mem := Mem)) (g : Group (Mem := Mem)) (s : GSt (W := W) (Mem := Mem)).

(** A member not reached, and one acquired: its core is supported, nothing but
    its debug mode was changed. *)
Definition fresh_core c : Prop := target c = None /\ accesses c = [] /\ result c = newResult (ID (result c)).

Definition acquired_core c : Prop :=
  exists t v l, target c = Some t /\ memory t = true /\ closing t = false /\ haltOwned t = false /\ controlIdentity (identity t) = None /\
    accesses c = RD dhcsrAddress v None :: l /\ any_bits v cDebugEnable = true /\
    result c = mkResult (ID (result c)) (identity t) true false ExecutionUnknown false true None.

(** The member whose acquisition failed. *)
Definition refused_core c (e : error) : Prop :=
  Err (result c) = Some e /\ Attempted (result c) = true /\ forall t, target c = Some t -> closing t = true.

Lemma fresh_ok c : fresh_core c -> core_ok c.
Proof. intros (T & A & R). split; [rewrite A; constructor|by rewrite T|]. intros _. by rewrite R. Qed.

Lemma acquired_open c : acquired_core c -> open_core c.
Proof. intros (t & v & l & T & M & C & _). by exists t. Qed.

Lemma acquire_core_wlp ctx l c r cl w :
  fresh_core c ->
  wlp (acquire_core memory_of fuel (length l) ctx) (fun x s' =>
    exists c', group s' = mkGroup (l ++ c' :: r) cl /\ core_ok c' /\ ID (result c') = ID (result c) /\
      match snd x with None => acquired_core c' | Some e => refused_core c' e end) (mkGSt (mkGroup (l ++ c :: r) cl) w).
Proof.
  intros (T & A & R). unfold wlp, acquire_core. cbn [group cores gworld g_closing]. rewrite list_lookup_middle by done.
  assert (Forall justified (accesses c)) as J by (rewrite A; constructor).
  pose proof (@Acquire_spec W _ (memory_of (core_memory c)) fuel ctx true (mkTSt noTarget (accesses c) w) J) as Sp. unfold wlp in Sp.
  destruct (Acquire _ _ _ _) as [[[got e] x]| |]; [|done|done]. destruct Sp as [Sj St Sd Sf]. cbn [fst snd] in *.
  eexists. split; [rewrite insert_app_r_alt, Nat.sub_diag by done; reflexivity|]. split_and!.
  - split; cbn [accesses target result]; [done| |by destruct got]. intros t Et. destruct got; [|done]. injection Et as <-.
    destruct (St eq_refl) as [[S _] M]. split; [done|]. by rewrite M.
  - done.
  - destruct e as [e|].
    + split_and!; [done|done|]. cbn [target]. intros t Et. destruct got; [|done]. injection Et as <-. by apply Sf.
    + destruct (Sd eq_refl) as (-> & C & Ho & Ci & v & tr & Etr & Hv). destruct (St eq_refl) as [_ M].
      exists (tgt x), v, tr. split_and!; try done. cbn [result]. by rewrite R.
Qed.

(** Where acquisition stopped: at the first member that failed, after which
    none was touched; every member reached was then released. *)
Definition acquire_stopped (ids : list Z) (e : error) g' : Prop :=
  exists l c r e0 es, Forall acquired_core l /\ refused_core c e0 /\ core_ok c /\ Forall fresh_core r /\
    (fun c => ID (result c)) <$> (l ++ c :: r) = ids /\
    Forall3 (released_core (W := W)) (l ++ c :: r) es (cores g') /\
    Some e = errors_Join [Some (coreError (ID (result c)) e0); errors_Join (reverse es)].

(** A nil error comes with all members open.  With an error the group is
    closing, and it is returned exactly when cleanup is pending. *)
Definition acquire_group_post (ids : list Z) (x : bool * err) g' : Prop :=
  group_ok g' /\ member_ids g' = ids /\
  match snd x with
  | None => fst x = true /\ g_closing g' = false /\ Forall acquired_core (cores g')
  | Some e => g_closing g' = true /\ fst x = pending g' /\ acquire_stopped ids e g'
  end.

Lemma acquire_loop_wlp ctx l r w :
  Forall acquired_core l -> Forall core_ok l -> Forall fresh_core r ->
  NoDup ((fun c => ID (result c)) <$> (l ++ r)) -> 0 ∉ ((fun c => ID (result c)) <$> (l ++ r)) ->
  wlp (acquire_loop memory_of fuel (length r) (length l) ctx) (fun x s' => acquire_group_post ((fun c => ID (result c)) <$> (l ++ r)) x (group s'))
    (mkGSt (mkGroup (l ++ r) false) w).
Proof.
  revert l w. induction r as [|c r IH]; intros l w Al Cl Fr N Z; cbn [length acquire_loop].
  { apply wlp_ret. rewrite app_nil_r in *. split; [|by split_and!]. split; [done..|]. intros _. eapply Forall_impl; [exact Al|apply acquired_open]. }
  apply Forall_cons in Fr as [Fc Fr]. apply wlp_bind. eapply wlp_mono; [by apply acquire_core_wlp|].
  intros [got e] [g1 w1] (c' & Eg & Ck & Ei & K). cbn [group snd] in *. subst g1.
  assert ((fun c => ID (result c)) <$> (l ++ c :: r) = (fun c => ID (result c)) <$> (l ++ c' :: r)) as Eids.
  { rewrite !fmap_app, !fmap_cons. by rewrite Ei. }
  rewrite Eids in *. destruct e as [e|].
  - apply wlp_bind. eapply wlp_core_at; [cbn [group cores]; by apply list_lookup_middle|].
    assert (Forall core_ok (l ++ c' :: r)) as Call.
    { apply Forall_app. split; [done|]. constructor; [done|]. eapply Forall_impl; [exact Fr|apply fresh_ok]. }
    apply wlp_bind. eapply wlp_mono; [by apply release_wlp|]. intros [rs re] s' Hr. apply wlp_bind, wlp_gets, wlp_ret.
    pose proof (group_release_ok true _ _ _ Hr Call N Z) as (G & Em & _). split; [done|]. split; [done|]. cbn [fst snd].
    destruct Hr as (Hc & _ & es & F & Ere). cbn [snd group cores started] in *. subst re. split; [done|].
    split; [done|]. exists l, c', r, e, es. split_and!; done.
  - rewrite cons_middle, app_assoc in *. replace (S (length l)) with (length (l ++ [c'])) by (rewrite length_app; simpl; lia).
    apply IH; [apply Forall_app; split; [done|by constructor]| |done|done|done]. apply Forall_app. split; [done|]. by constructor.
Qed.

(** *** Members that can be acquired *)

Lemma validate_loop_spec seen (members : list (Member (Mem := Mem))) :
  validate_loop seen members = None ->
  NoDup (mem_ID <$> members) /\ (0 ∉ (mem_ID <$> members)) /\ (forall id, id ∈ seen -> id ∉ (mem_ID <$> members)) /\
  Forall (fun m => is_Some (mem_Memory m)) members.
Proof.
  revert seen. induction members as [|m members IH]; intros seen; cbn [validate_loop].
  { intros _. split_and!; [constructor|apply not_elem_of_nil|intros; apply not_elem_of_nil|constructor]. }
  destruct (mem_Memory m) as [x|] eqn:Em; [|by rewrite orb_true_r]. rewrite orb_false_r. destruct (_ || _) eqn:E; [done|].
  apply orb_false_iff in E as [Ez%Z.eqb_neq En%bool_decide_eq_false]. intros (N & Z & F & M)%IH. rewrite fmap_cons. split_and!.
  - constructor; [|done]. apply F, elem_of_cons. by left.
  - by rewrite not_elem_of_cons.
  - intros id Hid. rewrite not_elem_of_cons. split; [by intros ->|]. apply F, elem_of_cons. by right.
  - constructor; [by rewrite Em|done].
Qed.

Lemma newGroup_spec (members : list (Member (Mem := Mem))) :
  Forall (fun m => is_Some (mem_Memory m)) members ->
  ((fun c => ID (result c)) <$> cores (newGroup members)) = (mem_ID <$> members) /\ Forall fresh_core (cores (newGroup members)).
Proof.
  unfold newGroup. cbn [cores]. induction 1 as [|m members [x Ex] _ [IH1 IH2]]; [done|]. cbn. rewrite Ex. cbn. rewrite IH1. split; [done|].
  by constructor.
Qed.

(** A refusal leaves everything as it was. *)
Definition AcquireGroup_post (members : list (Member (Mem := Mem))) s (x : bool * err) s' : Prop :=
  (fst x = false /\ snd x <> None /\ group s' = group s) \/
  (validateMembers members = None /\ acquire_group_post (mem_ID <$> members) x (group s')).

Lemma AcquireGroup_wlp ctx members s : wlp (AcquireGroup memory_of fuel ctx members) (AcquireGroup_post members s) s.
Proof.
  unfold AcquireGroup, AcquireGroup_post. destruct (validateMembers members) as [e|] eqn:Ev; [apply wlp_ret; by left|].
  apply wlp_bind, wlp_group_liveContext; [intros e w; apply wlp_ret; by left|]. intros w _. apply wlp_bind, wlp_modify. cbn [group gworld].
  unfold validateMembers in Ev. case_bool_decide; [done|]. destruct (validate_loop_spec _ _ Ev) as (N & Z & _ & M).
  destruct (newGroup_spec members M) as [Ei Fr].
  replace (length members) with (length (cores (newGroup members))) by (rewrite <- (length_fmap (fun c => ID (result c))), Ei; apply length_fmap).
  eapply wlp_mono; [apply (acquire_loop_wlp ctx [] (cores (newGroup members))); cbn [app]; rewrite ?Ei; done|].
  intros x s' K. right. split; [done|]. cbn [app] in K. by rewrite Ei in K.
Qed.
End Acquisition.

(** ** Termination

    Contexts end, a child no later than its parent, and asking a clock does not
    give time back.  Then group operations return with fuel above the waits of
    the contexts they use. *)

Section Termination.
Context {W Mem : Type} `{Env W} `{Timer W}.
Variable memory_of : Mem -> Memory W.
Variable budget : context -> W -> nat.

Record Clocked : Prop := {
  cl_deadline : forall m, @Deadline W _ (memory_of m) budget;
  cl_until : forall ctx c w, (budget c (snd (ctx_Until ctx w)) <= budget c w)%nat;
  cl_err : forall ctx c w, (budget c (snd (ctx_Err ctx w)) <= budget c w)%nat;
  cl_child : forall ctx t w, (budget (WithTimeout ctx t) w <= budget ctx w)%nat
}.

Hypothesis clocked : Clocked.
Variables (fuel : nat) (ctxs : list context).

Definition enough (w : W) : Prop := Forall (fun c => budget c w < fuel)%nat ctxs.
Definition later (w w' : W) : Prop := forall c, (budget c w' <= budget c w)%nat.

(** [m] does not run out of fuel. *)
Definition Bounded {A} (m : GoM (GSt (W := W) (Mem := Mem)) A) : Prop :=
  forall s, enough (gworld s) ->
    match m s with Done (_, s') => later (gworld s) (gworld s') | Panicked => True | OutOfFuel => False end.

Lemma enough_later w w' : enough w -> later w w' -> enough w'.
Proof. intros E L. eapply Forall_impl; [exact E|]. intros c Hc. cbn beta in *. specialize (L c). lia. Qed.

Lemma Bounded_total {A} (m : GoM GSt A) Q s : Bounded m -> enough (gworld s) -> wlp m Q s -> wp m Q s.
Proof. intros B E Hw. specialize (B s E). unfold wlp, wp in *. by destruct (m s) as [[a s']| |]. Qed.

Lemma Bounded_ret {A} (a : A) : Bounded (mret a).
Proof. intros s _ c. done. Qed.

Lemma Bounded_bind {A B} (m : GoM GSt A) (f : A -> GoM GSt B) : Bounded m -> (forall a, Bounded (f a)) -> Bounded (mbind f m).
Proof.
  intros Hm Hf s E. unfold mbind, GoM_bind. specialize (Hm s E). destruct (m s) as [[a s1]| |]; try done.
  specialize (Hf a s1 (enough_later _ _ E Hm)). destruct (f a s1) as [[b s2]| |]; try done. intros c. specialize (Hm c). specialize (Hf c). lia.
Qed.

Lemma Bounded_gget {A} (f : Group -> A) : Bounded (gget f).
Proof. intros s _ c. done. Qed.

Lemma Bounded_gmod f : Bounded (gmod f).
Proof. intros s _ c. done. Qed.

Lemma Bounded_lift {A} (o : option A) : Bounded (lift o).
Proof. intros s _. unfold lift. destruct o; [|done]. by intros c. Qed.

Lemma Bounded_core_at i : Bounded (core_at i).
Proof. apply Bounded_bind; [apply Bounded_gget|]. intros l. apply Bounded_lift. Qed.

Lemma Bounded_liveContext ctx : Bounded (group_liveContext ctx).
Proof.
  intros s _. unfold group_liveContext. destruct (ctx_nil ctx); [by intros c|]. pose proof (fun c => cl_err clocked ctx c (gworld s)) as L.
  by destruct (ctx_Err ctx (gworld s)).
Qed.

Lemma Bounded_releaseContext {A} ctx n (f : context -> GoM GSt A) :
  (forall t, Bounded (f (WithTimeout ctx t))) -> Bounded (mbind f (groupReleaseContext ctx n)).
Proof.
  intros Hf s E. unfold mbind, GoM_bind, groupReleaseContext. pose proof (fun c => cl_until clocked ctx c (gworld s)) as L.
  destruct (ctx_Until ctx (gworld s)) as [d w]. cbn [snd] in L.
  assert (forall t, match f (WithTimeout ctx t) (mkGSt (group s) w) with
    | Done (_, s') => later (gworld s) (gworld s') | Panicked => True | OutOfFuel => False end) as K.
  { intros t. specialize (Hf t (mkGSt (group s) w) (enough_later _ _ E L)). destruct (f _ _) as [[a s2]| |]; try done.
    intros x. specialize (Hf x). specialize (L x). cbn [gworld] in Hf. lia. }
  destruct d as [d|]; [case_bool_decide; [done|apply K]|apply K].
Qed.

(** A method that returns under [ctx]. *)
Definition Endures {A} (m : Memory W -> GoM (TSt W) A) : Prop :=
  forall mem (x : TSt W), enough (tworld x) -> wp (m (memory_of mem)) (fun _ y => later (tworld x) (tworld y)) x.

Lemma Endures_returns {A} ctx c (m : Memory W -> GoM (TSt W) A) :
  c ∈ ctxs -> (forall w, budget ctx w <= budget c w)%nat -> (forall mem, Returns budget ctx fuel (m (memory_of mem))) -> Endures m.
Proof.
  intros Hc Hl Hr mem x E. apply (Hr mem x). unfold enough in E. rewrite Forall_forall in E. specialize (E c Hc). cbn beta in E.
  specialize (Hl (tworld x)). lia.
Qed.

Lemma Bounded_on_target {A} i (m : Memory W -> GoM (TSt W) A) : Endures m -> Bounded (on_target memory_of i m).
Proof.
  intros Hm s E. unfold on_target. destruct (cores (group s) !! i) as [c|]; [|done].
  specialize (Hm (core_memory c) (mkTSt (default noTarget (target c)) (accesses c) (gworld s)) E). unfold wp in Hm.
  by destruct (m _ _) as [[a t]| |].
Qed.

(** *** Release *)

Lemma Bounded_release_loop i ctx n errs : ctx ∈ ctxs -> ctx_nil ctx = false -> Bounded (release_loop memory_of fuel i ctx n errs).
Proof.
  intros Hc Hn. revert n errs. induction i as [|i IH]; intros n errs; cbn [release_loop]; [apply Bounded_ret|].
  apply Bounded_bind; [apply Bounded_core_at|]. intros c. destruct (negb _); [apply IH|].
  apply Bounded_bind; [apply Bounded_liveContext|]. intros [e|]; [apply Bounded_bind; [apply Bounded_gmod|]; intros _; apply IH|].
  apply Bounded_releaseContext. intros t. apply Bounded_bind; [apply Bounded_gmod|]. intros _. apply Bounded_bind.
  - apply Bounded_on_target. apply (Endures_returns (WithTimeout ctx t) ctx); [done|intros; apply clocked|]. intros mem.
    apply Returns_Release; [apply clocked|done].
  - intros e. apply Bounded_bind; [apply Bounded_gmod|]. intros _. apply IH.
Qed.

Lemma Bounded_release ctx preserve : ctx ∈ ctxs -> ctx_nil ctx = false -> Bounded (release memory_of fuel ctx preserve).
Proof.
  intros Hc Hn. apply Bounded_bind; [apply Bounded_gmod|]. intros _. apply Bounded_bind; [destruct preserve; [apply Bounded_ret|apply Bounded_gmod]|].
  intros _. apply Bounded_bind; [apply Bounded_gget|]. intros g. destruct (negb _); [apply Bounded_ret|].
  apply Bounded_bind; [by apply Bounded_release_loop|]. intros errs. apply Bounded_bind; [apply Bounded_gget|]. intros g'. apply Bounded_ret.
Qed.

(** *** Acquisition *)

Lemma Bounded_acquire_core i ctx :
  ctx ∈ ctxs -> WithTimeout Background acquireCleanupTimeout ∈ ctxs -> ctx_nil ctx = false -> Bounded (acquire_core memory_of fuel i ctx).
Proof.
  intros H1 H2 Hn s E. unfold acquire_core. destruct (cores (group s) !! i) as [c|]; [|done]. unfold enough in E. rewrite Forall_forall in E.
  pose proof (@Both_Acquire W _ (memory_of (core_memory c)) budget ctx fuel true (cl_deadline clocked _) Hn
    (mkTSt noTarget (accesses c) (gworld s)) (E _ H1) (E _ H2)) as K. unfold wp in K.
  by destruct (Acquire _ _ _ _) as [[[got e] x]| |].
Qed.

Lemma Bounded_AcquireGroup ctx members :
  ctx ∈ ctxs -> WithTimeout Background acquireCleanupTimeout ∈ ctxs -> ctx_nil ctx = false -> Bounded (AcquireGroup memory_of fuel ctx members).
Proof.
  intros H1 H2 Hn. unfold AcquireGroup. destruct (validateMembers members); [apply Bounded_ret|].
  apply Bounded_bind; [apply Bounded_liveContext|]. intros [e|]; [apply Bounded_ret|]. apply Bounded_bind; [apply Bounded_gmod|]. intros _.
  generalize 0%nat as i. generalize (length members) as n. induction n as [|n IH]; intros i; cbn [acquire_loop]; [apply Bounded_ret|].
  apply Bounded_bind; [by apply Bounded_acquire_core|]. intros [got [e|]]; [|apply IH].
  apply Bounded_bind; [apply Bounded_core_at|]. intros c. apply Bounded_bind; [by apply Bounded_release|]. intros [rs re].
  apply Bounded_bind; [apply Bounded_gget|]. intros p. apply Bounded_ret.
Qed.

(** *** Selected members *)

Lemma Bounded_control {A} ctx ids (call : coreControl A) (a : A) : Endures call -> Bounded (control memory_of ctx ids call a).
Proof.
  intros Hcall. apply Bounded_bind; [apply Bounded_gget|]. intros g. destruct (selectCores ids g) as [sel [e|]]; [apply Bounded_ret|].
  apply Bounded_bind; [apply Bounded_gmod|]. intros _. apply Bounded_bind.
  - revert a. induction sel as [|i sel IH]; intros a; cbn [control_loop]; [apply Bounded_ret|].
    apply Bounded_bind; [apply Bounded_liveContext|]. intros [e|]; [apply Bounded_bind; [apply Bounded_gmod|]; intros _; apply Bounded_ret|].
    apply Bounded_bind; [apply Bounded_gmod|]. intros _. apply Bounded_bind; [by apply Bounded_on_target|]. intros [[[st sk] e] a'].
    apply Bounded_bind; [apply Bounded_gmod|]. intros _. destruct e as [e|]; [|apply IH].
    apply Bounded_bind; [apply Bounded_core_at|]. intros c. apply Bounded_bind; [apply Bounded_lift|]. intros t.
    apply Bounded_bind; [apply Bounded_gmod|]. intros _. apply Bounded_ret.
  - intros a'. apply Bounded_bind; [apply Bounded_gget|]. intros g'. apply Bounded_bind; [apply Bounded_lift|]. intros rs. apply Bounded_ret.
Qed.

(** The calls. *)
Variable ctx : context.
Hypothesis known : ctx ∈ ctxs.
Hypothesis live : ctx_nil ctx = false.

Lemma Endures_method {A} (m : Memory W -> GoM (TSt W) A) : (forall mem, Returns budget ctx fuel (m (memory_of mem))) -> Endures m.
Proof. intros Hm. by apply (Endures_returns ctx ctx). Qed.

Lemma Returns_status mem : Returns budget ctx fuel (statusCore ctx (memory_of mem)).
Proof. apply Returns_bind; [apply Returns_Halted; [apply clocked|done]|]. intros [h [e|]]; apply Returns_ret. Qed.

Lemma Endures_status : Endures (statusCore ctx).
Proof. apply Endures_method, Returns_status. Qed.

Lemma Endures_halt : Endures (haltCore fuel ctx).
Proof. apply Endures_method. intros mem. apply Returns_bind; [apply Returns_Halt; [apply clocked|done]|]. intros [e|]; apply Returns_ret. Qed.

Lemma Endures_resume : Endures (resumeCore fuel ctx).
Proof.
  apply Endures_method. intros mem. apply Returns_bind; [apply Returns_status|]. intros [[[st sk] e] a].
  apply Returns_bind; [apply Returns_tget|]. intros o. destruct (_ || _); [apply Returns_ret|].
  apply Returns_bind; [apply Returns_Resume; [apply clocked|done]|]. intros [e'|]; apply Returns_ret.
Qed.

Lemma Endures_access {A} (call : Memory W -> GoM (TSt W) (A * err)) :
  (forall mem, Returns budget ctx fuel (call (memory_of mem))) -> Endures (accessCall call).
Proof. intros Hc. apply Endures_method. intros mem. apply Returns_bind; [apply Hc|]. intros [a [e|]]; apply Returns_ret. Qed.

Lemma Returns_only_err (m : GoM (TSt W) err) : Returns budget ctx fuel m -> Returns budget ctx fuel (only_err m).
Proof. intros Hm. apply Returns_bind; [exact Hm|]. intros e. apply Returns_ret. Qed.
End Termination.

(** ** Whole groups *)

Section Life.
Context {W Mem : Type} `{Env W} `{Timer W}.
Variable memory_of : Mem -> Memory W.
Implicit Types (s : GSt (W := W) (Mem := Mem)).

Lemma wlp_drop {A} (m : GoM (GSt (W := W) (Mem := Mem)) (list CoreResult * err * A)) (Q : list CoreResult * err * A -> GSt -> Prop) s :
  wlp m Q s -> wlp ('(r, e, _) ← m; mret (r, e)) (fun x s' => exists a, Q (x, a) s') s.
Proof. intros Hm. apply wlp_bind. eapply wlp_mono; [exact Hm|]. intros [[r e] a] s' HQ. apply wlp_ret. by exists a. Qed.

Definition many_post (P : TSt W -> ExecutionState -> bool -> unit -> TSt W -> Prop) ids s (x : list CoreResult * err) s' : Prop :=
  control_post P ids tt s (x, tt) s'.

Lemma many_wlp ctx ids (call : coreControl (W := W) unit) P s :
  (forall mem (x : TSt W), op_ok x -> wlp (call mem) (call_post P x) x) -> group_ok (group s) ->
  wlp ('(r, e, _) ← control memory_of ctx ids call tt; mret (r, e)) (many_post P ids s) s.
Proof. intros Hc G. eapply wlp_mono; [apply wlp_drop, (control_wlp memory_of ctx ids call P); done|]. intros [r e] s' [[] K]. exact K. Qed.

Lemma Halt_wlp fuel ctx ids s : group_ok (group s) -> wlp (group_Halt memory_of fuel ctx ids) (many_post halt_done ids s) s.
Proof. apply many_wlp, halt_spec. Qed.
Lemma Resume_wlp fuel ctx ids s : group_ok (group s) -> wlp (group_Resume memory_of fuel ctx ids) (many_post resume_done ids s) s.
Proof. apply many_wlp, resume_core_spec. Qed.
Lemma Status_wlp ctx ids s : group_ok (group s) -> wlp (group_Status memory_of ctx ids) (many_post status_done ids s) s.
Proof. apply many_wlp, status_spec. Qed.

(** An access to member [id]: its own on success; refused, or failed there. *)
Definition one_post {A} (Q : TSt W -> A -> TSt W -> Prop) (id : Z) (a0 : A) s (x : A * err) s' : Prop :=
  group_ok (group s') /\ member_ids (group s') = member_ids (group s) /\
  (forall i c, cores (group s) !! i = Some c -> ID (result c) <> id -> cores (group s') !! i = Some c) /\
  (snd x = None -> exists i c c', cores (group s) !! i = Some c /\ ID (result c) = id /\
    member_done (access_done Q) (set_result reset_result c) (fst x) c' /\ group s' = mkGroup (<[i := c']> (cores (group s))) false).

Lemma control_ids {A} P ids (a : A) s x s' : control_post P ids a s x s' -> group_ok (group s') /\ member_ids (group s') = member_ids (group s).
Proof.
  destruct x as [[rs e] a']. intros [G K]. split; [done|]. destruct (selectCores ids (group s)) as [sel [e'|]]; [by destruct K as (_ & _ & _ & ->)|].
  destruct K as (_ & K & _). rewrite (controlled_ids _ _ _ _ _ _ _ K). apply cleared_ids.
Qed.

Lemma control_others {A} P ids (a : A) s x s' i c :
  control_post P ids a s x s' -> cores (group s) !! i = Some c -> ID (result c) ∉ ids -> cores (group s') !! i = Some c.
Proof.
  destruct x as [[rs e] a']. intros [G K] E Hi. destruct (selectCores ids (group s)) as [sel [e'|]]; [by destruct K as (_ & _ & _ & ->)|].
  destruct K as ((_ & _ & Sel & _) & _ & _ & F & _). rewrite F; [done|]. intros (c' & E' & Hc)%Sel. rewrite E in E'. by simplify_eq.
Qed.

Lemma group_access_wlp {A} ctx id (call : Memory W -> GoM (TSt W) (A * err)) Q (a : A) s :
  (forall mem (x : TSt W), op_ok x -> wlp (accessCall call mem) (call_post (access_done Q) x) x) -> group_ok (group s) ->
  wlp (group_access memory_of ctx id call a) (one_post Q id a s) s.
Proof.
  intros Hc G. apply wlp_bind. eapply wlp_mono; [by apply control_wlp|]. intros [[rs e] a'] s' K. apply wlp_ret.
  destruct (control_ids _ _ _ _ _ _ K) as [G' Ei]. split_and!; [done|done| |].
  - intros i c E Hi. eapply control_others; [exact K|exact E|]. by rewrite list_elem_of_singleton.
  - cbn [snd fst]. intros ->. by eapply control_one.
Qed.

Lemma ReadRegister_wlp fuel ctx id reg s :
  group_ok (group s) -> wlp (group_ReadRegister memory_of fuel ctx id reg) (fun x s' => one_post (read_done reg) id 0 s x s' /\ (snd x <> None -> fst x = 0)) s.
Proof.
  intros G. apply wlp_bind. eapply wlp_mono; [apply (group_access_wlp ctx id _ (read_done reg)); [apply read_call|done]|].
  intros [v [e|]] s' (K1 & K2 & K3 & K4); apply wlp_ret; by split.
Qed.

Lemma unit_access_wlp ctx id (call : Memory W -> GoM (TSt W) (unit * err)) Q s :
  (forall mem (x : TSt W), op_ok x -> wlp (accessCall call mem) (call_post (access_done Q) x) x) -> group_ok (group s) ->
  wlp ('(_, e) ← group_access memory_of ctx id call tt; mret e) (fun e s' => one_post Q id tt s (tt, e) s') s.
Proof. intros Hc G. apply wlp_bind. eapply wlp_mono; [by apply group_access_wlp|]. intros [[] e] s' K. by apply wlp_ret. Qed.

Lemma WriteRegister_wlp fuel ctx id reg value s :
  group_ok (group s) -> wlp (group_WriteRegister memory_of fuel ctx id reg value) (fun e s' => one_post (write_done reg value) id tt s (tt, e) s') s.
Proof. apply unit_access_wlp, write_call. Qed.

Lemma Step_wlp fuel ctx id s : group_ok (group s) -> wlp (group_Step memory_of fuel ctx id) (fun e s' => one_post step_done id tt s (tt, e) s') s.
Proof. apply unit_access_wlp, step_call. Qed.

Lemma Release_wlp fuel ctx s :
  group_ok (group s) -> wlp (group_Release memory_of fuel ctx) (fun r s' => group_release_post (W := W) false (group s) r (group s') /\
    group_ok (group s') /\ member_ids (group s') = member_ids (group s) /\ (snd r = None <-> pending (group s') = false)) s.
Proof.
  intros G. eapply wlp_mono; [apply release_wlp, G|]. intros r s' K. split; [done|].
  eapply group_release_ok; [exact K|apply G|apply G|apply G].
Qed.

(** One call on a group, with any context, arguments and fuel. *)
Inductive group_step s : GSt -> Prop :=
| gs_Halt fuel ctx ids r s' : group_Halt memory_of fuel ctx ids s = Done (r, s') -> group_step s s'
| gs_Resume fuel ctx ids r s' : group_Resume memory_of fuel ctx ids s = Done (r, s') -> group_step s s'
| gs_Status ctx ids r s' : group_Status memory_of ctx ids s = Done (r, s') -> group_step s s'
| gs_ReadRegister fuel ctx id reg r s' : group_ReadRegister memory_of fuel ctx id reg s = Done (r, s') -> group_step s s'
| gs_WriteRegister fuel ctx id reg v r s' : group_WriteRegister memory_of fuel ctx id reg v s = Done (r, s') -> group_step s s'
| gs_Step fuel ctx id r s' : group_Step memory_of fuel ctx id s = Done (r, s') -> group_step s s'
| gs_Release fuel ctx r s' : group_Release memory_of fuel ctx s = Done (r, s') -> group_step s s'.

Inductive group_run s : GSt -> Prop :=
| gr_none : group_run s s
| gr_more s1 s2 : group_run s s1 -> group_step s1 s2 -> group_run s s2.

Lemma group_step_ok s s' : group_step s s' -> group_ok (group s) -> group_ok (group s') /\ member_ids (group s') = member_ids (group s).
Proof.
  intros K G. destruct K as [fuel ctx ids r s' E|fuel ctx ids r s' E|ctx ids r s' E|fuel ctx id reg r s' E|fuel ctx id reg v r s' E|fuel ctx id r s' E|fuel ctx r s' E].
  - eapply control_ids, (wlp_elim _ _ _ _ _ (Halt_wlp fuel ctx ids s G) E).
  - eapply control_ids, (wlp_elim _ _ _ _ _ (Resume_wlp fuel ctx ids s G) E).
  - eapply control_ids, (wlp_elim _ _ _ _ _ (Status_wlp ctx ids s G) E).
  - destruct (wlp_elim _ _ _ _ _ (ReadRegister_wlp fuel ctx id reg s G) E) as [(? & ? & _) _]. done.
  - destruct (wlp_elim _ _ _ _ _ (WriteRegister_wlp fuel ctx id reg v s G) E) as (? & ? & _). done.
  - destruct (wlp_elim _ _ _ _ _ (Step_wlp fuel ctx id s G) E) as (? & ? & _). done.
  - destruct (wlp_elim _ _ _ _ _ (Release_wlp fuel ctx s G) E) as (_ & ? & ? & _). done.
Qed.
End Life.
