(* ===== verification/CortexMGroupProps.v ===== *)
(** * Properties of groups

    The contracts are total over clocks that end ([Clocked]); the witnesses run
    two of the small cores of CortexMProps, a memory each, in one world. *)

From S2P Require Import Prelude Go CortexM CortexMFacts CortexMControl CortexMRelease CortexMProps CortexMGroup CortexMGroupFacts CortexMGroupLife.
Local Open Scope Z_scope.

(** ** Two cores for the witnesses *)

Definition Pair : Type := Core * Core.

#[global] Instance pair_env : Env Pair := { ctx_Err := fun _ w => (None, w) }.
#[global] Instance pair_timer : Timer Pair := { ctx_Until := fun _ w => (Some 1000, w) }.

Definition side (second : bool) (w : Pair) : Core := if second then snd w else fst w.
Definition set_side (second : bool) (c : Core) (w : Pair) : Pair := if second then (fst w, c) else (c, snd w).

Definition pair_memory (second : bool) : Memory Pair := {|
  ReadWord := fun ctx addr w => let (r, c) := ReadWord ctx addr (side second w) in (r, set_side second c w);
  WriteWord := fun ctx addr v w => let (e, c) := WriteWord ctx addr v (side second w) in (e, set_side second c w);
  pause := fun ctx w => let (e, c) := pause ctx (side second w) in (e, set_side second c w)
|}.

Definition pair_budget (_ : context) (w : Pair) : nat := (waits (fst w) + waits (snd w))%nat.

Lemma side_budget second (c : Core) ctx w :
  ((waits c <= waits (side second w))%nat -> (pair_budget ctx (set_side second c w) <= pair_budget ctx w)%nat) /\
  ((waits c < waits (side second w))%nat -> (pair_budget ctx (set_side second c w) < pair_budget ctx w)%nat).
Proof. destruct second, w; unfold pair_budget; simpl; lia. Qed.

Lemma pair_clocked : Clocked pair_memory pair_budget.
Proof.
  split; [|done..]. intros b. split; [done|..].
  - intros ctx a c w. cbn [ReadWord pair_memory]. pose proof (dl_read _ core_deadline ctx a ctx (side b w)) as D.
    destruct (ReadWord ctx a (side b w)) as [r k]. by apply side_budget.
  - intros ctx a v c w. cbn [WriteWord pair_memory]. pose proof (dl_write _ core_deadline ctx a v ctx (side b w)) as D.
    destruct (WriteWord ctx a v (side b w)) as [r k]. by apply side_budget.
  - intros ctx c w. cbn [pause pair_memory]. pose proof (dl_pause _ core_deadline ctx ctx (side b w)) as D.
    destruct (pause ctx (side b w)) as [r k]. by apply side_budget.
  - intros ctx w. cbn [pause pair_memory]. pose proof (dl_tick _ core_deadline ctx (side b w)) as D.
    destruct (pause ctx (side b w)) as [r k]. cbn [fst snd] in *. intros E. by apply side_budget, D.
Qed.

Definition pair_members : list Member := [mkMember 3 (Some false); mkMember 9 (Some true)].

(** Both cores run; the first was found with debug disabled. *)
Definition pair_start : GSt (W := Pair) (Mem := bool) :=
  mkGSt (mkGroup [] false) (CortexMProps.mkCore 0 0 3, CortexMProps.mkCore (core_control runRequest) 0 3).

(** ** The contracts *)

Section Contracts.
Context {W Mem : Type} `{Env W} `{Timer W}.
Variable memory_of : Mem -> Memory W.
Implicit Types s : GSt (W := W) (Mem := Mem).


(** C31: whatever the memories answer, a group returned by [AcquireGroup] keeps
    its members and its invariant through any sequence of calls: every member's
    target is sound, its writes all have their reason, cleanup is pending exactly
    while it borrows its memory, and until the group closes all are open. *)
Theorem group_invariant fuel ctx members s0 s1 s2 e :
  AcquireGroup memory_of fuel ctx members s0 = Done ((true, e), s1) -> group_run memory_of s1 s2 ->
  group_ok (group s2) /\ member_ids (group s2) = mem_ID <$> members.
Proof.
  intros Ea Hr. destruct (wlp_elim _ _ _ _ _ (AcquireGroup_wlp memory_of fuel ctx members s0) Ea) as [(? & _)|(_ & G & Ei & _)]; [done|].
  clear Ea. induction Hr as [|s2 s3 _ [IH1 IH2] St]; [done|]. destruct (group_step_ok memory_of _ _ St IH1) as [G3 E3]. by rewrite E3.
Qed.

(** [Halt], [Resume] and [Status] of selected members return when their
    context ends.  A selection that is empty, repeats or names a stranger changes
    nothing.  Otherwise the selected members are operated on in membership
    order, each with the outcome its own method promises, up to the first
    failure, whose error is the group's; later and unselected members are
    untouched, and only a member that closed closes the group.  [Resume] leaves a
    halt it does not own alone. *)
Theorem group_control_contract budget fuel ctx ids s :
  Clocked memory_of budget -> ctx_nil ctx = false -> (budget ctx (gworld s) < fuel)%nat -> group_ok (group s) ->
  wp (group_Halt memory_of fuel ctx ids) (many_post halt_done ids s) s /\
  wp (group_Resume memory_of fuel ctx ids) (many_post resume_done ids s) s /\
  wp (group_Status memory_of ctx ids) (many_post status_done ids s) s.
Proof.
  intros K Hn Hb G.
  assert (forall P call, (forall mem (x : TSt W), op_ok x -> wlp (call mem) (call_post P x) x) -> Endures memory_of budget fuel [ctx] call ->
    wp ('(r, e, _) ← control memory_of ctx ids call tt; mret (r, e)) (many_post P ids s) s) as Run.
  { intros P call Hs He. apply (Bounded_total budget fuel [ctx]); [|by repeat constructor|by apply many_wlp].
    apply Bounded_bind; [by apply Bounded_control|]. intros [[r e] a]. apply Bounded_ret. }
  assert (ctx ∈ [ctx]) as Hc by (by apply list_elem_of_singleton).
  split; [|split]; apply Run; [apply halt_spec|by apply Endures_halt|apply resume_core_spec|by apply Endures_resume|apply status_spec|by apply Endures_status].
Qed.

(** Register access and stepping of one member return when their context
    ends.  Success is the named member's own, by the promise of its method, and
    changes only that member; a register read answers zero with any error. *)
Theorem group_access_contract budget fuel ctx id reg value s :
  Clocked memory_of budget -> ctx_nil ctx = false -> (budget ctx (gworld s) < fuel)%nat -> group_ok (group s) ->
  wp (group_ReadRegister memory_of fuel ctx id reg) (fun x s' => one_post (read_done reg) id 0 s x s' /\ (snd x <> None -> fst x = 0)) s /\
  wp (group_WriteRegister memory_of fuel ctx id reg value) (fun e s' => one_post (write_done reg value) id tt s (tt, e) s') s /\
  wp (group_Step memory_of fuel ctx id) (fun e s' => one_post step_done id tt s (tt, e) s') s.
Proof.
  intros K Hn Hb G.
  assert (forall A (call : Memory W -> GoM (TSt W) (A * err)) a, (forall mem, Returns budget ctx fuel (call (memory_of mem))) ->
    Bounded budget fuel [ctx] (group_access memory_of ctx id call a)) as Run.
  { intros A call a Hr. apply Bounded_bind; [apply Bounded_control; [done|]; eapply Endures_access; [by apply list_elem_of_singleton|exact Hr]|].
    intros [[r e] b]. apply Bounded_ret. }
  assert (enough budget fuel [ctx] (gworld s)) as En by (by repeat constructor).
  split; [|split].
  - apply (Bounded_total budget fuel [ctx]); [|done|by apply ReadRegister_wlp]. apply Bounded_bind; [apply Run; intros m; by apply Returns_ReadRegister; [apply K|]|].
    intros [v [e|]]; apply Bounded_ret.
  - apply (Bounded_total budget fuel [ctx]); [|done|by apply WriteRegister_wlp].
    apply Bounded_bind; [apply Run; intros m; apply Returns_only_err; by apply Returns_WriteRegister; [apply K|]|]. intros [v e]. apply Bounded_ret.
  - apply (Bounded_total budget fuel [ctx]); [|done|by apply Step_wlp].
    apply Bounded_bind; [apply Run; intros m; apply Returns_only_err; by apply Returns_Step; [apply K|]|]. intros [v e]. apply Bounded_ret.
Qed.

End Contracts.

(** ** Witnesses *)

(** A group of both cores, and what it owns after halting its second. *)
Lemma pair_acquired : exists s1, AcquireGroup pair_memory 9 Background pair_members pair_start = Done ((true, None), s1) /\
  exists rs s2, group_Halt pair_memory 9 Background [9] s1 = Done ((rs, None), s2) /\ (HaltOwned <$> rs) = [true] /\
  exists rs' s3, group_Release pair_memory 9 Background s2 = Done ((rs', None), s3) /\ (CleanupPending <$> rs') = [false; false].
Proof.
  eexists. split; [vm_compute; reflexivity|]. do 2 eexists. split; [vm_compute; reflexivity|]. split; [reflexivity|].
  do 2 eexists. split; [vm_compute; reflexivity|reflexivity].
Qed.


Lemma group_invariant_witness :
  exists s1 s2 s3 rs rs', AcquireGroup pair_memory 9 Background pair_members pair_start = Done ((true, None), s1) /\
    group_Halt pair_memory 9 Background [9] s1 = Done ((rs, None), s2) /\ group_Release pair_memory 9 Background s2 = Done ((rs', None), s3) /\
    group_ok (group s3) /\ member_ids (group s3) = [3; 9].
Proof.
  destruct pair_acquired as (s1 & E1 & rs & s2 & E2 & _ & rs' & s3 & E3 & _). exists s1, s2, s3, rs, rs'.
  split; [exact E1|]. split; [exact E2|]. split; [exact E3|].
  apply (group_invariant pair_memory 9 Background pair_members pair_start s1 s3 None E1).
  eapply gr_more; [eapply gr_more; [apply gr_none|eapply gs_Halt, E2]|eapply gs_Release, E3].
Defined.

(** A group whose first member owns a halt. *)
Definition pair_group : GSt (W := Pair) (Mem := bool) :=
  mkGSt (mkGroup [CortexMGroup.mkCore (mkResult 3 core_identity true false HaltedState false true None) (Some (tgt core_halted)) false [];
                  CortexMGroup.mkCore (mkResult 9 core_identity true false ExecutionUnknown false true None) (Some (tgt core_open)) true []] false)
    (tworld core_halted, tworld core_open).

Lemma pair_group_ok : group_ok (group pair_group).
Proof.
  split.
  - apply Forall_cons. split; [|apply Forall_singleton]; (split; [constructor| |done]); intros t [= <-];
      (split; [first [apply core_halted_ok|apply core_open_ok]|done]).
  - by apply (bool_decide_unpack (NoDup [3; 9])).
  - by apply (bool_decide_unpack (0 ∉ [3; 9])).
  - intros _. apply Forall_cons. split; [|apply Forall_singleton]; by eexists.
Qed.

