(* ===== verification/DapTypes.v ===== *)
(** * Debug-port registers, access-port selectors and the debug-port state

    dap/types.go, dap/ap.go, dap/apv2.go, dap/state.go, dap/identity.go and the
    register checks of dap/swddp.go and dap/jtag_registers.go: everything that
    decides, without traffic, what a request means and whether it is allowed. *)

From S2P Require Import Prelude Go.
Local Open Scope Z_scope.

(** ** Registers (types.go) *)

(** A [uint16]; the named values are the registers. *)
Definition DPRegister := Z.

Definition DPIDR : DPRegister := 1.
Definition ABORT : DPRegister := 2.
Definition CTRLSTAT : DPRegister := 3.
Definition DLCR : DPRegister := 4.
Definition TARGETID : DPRegister := 5.
Definition DLPIDR : DPRegister := 6.
Definition EVENTSTAT : DPRegister := 7.
Definition SELECT : DPRegister := 8.
Definition RESEND : DPRegister := 9.
Definition RDBUFF : DPRegister := 10.
Definition IDCODE : DPRegister := 11.
Definition DPIDR1 : DPRegister := 12.
Definition BASEPTR0 : DPRegister := 13.
Definition BASEPTR1 : DPRegister := 14.
Definition SELECT1 : DPRegister := 15.

Record dpRegisterInfo := mkInfo {
  name : string;
  offset : Z;
  bank : Z;
  bankIndependent : bool;
  readable : bool;
  writable : bool;
  minVersion : Z
}.

Definition noInfo : dpRegisterInfo := mkInfo EmptyString 0 0 false false false 0.

Definition describeBankedDPRegister (reg : DPRegister) : dpRegisterInfo * bool :=
  if reg =? DPIDR1 then (mkInfo "DPIDR1" 0 1 false true false 3, true)
  else if reg =? BASEPTR0 then (mkInfo "BASEPTR0" 0 2 false true false 3, true)
  else if reg =? BASEPTR1 then (mkInfo "BASEPTR1" 0 3 false true false 3, true)
  else if reg =? SELECT1 then (mkInfo "SELECT1" 4 5 false false true 3, true)
  else if reg =? DLCR then (mkInfo "DLCR" 0x04 1 false true true 1, true)
  else if reg =? TARGETID then (mkInfo "TARGETID" 0x04 2 false true false 2, true)
  else if reg =? DLPIDR then (mkInfo "DLPIDR" 0x04 3 false true false 2, true)
  else if reg =? EVENTSTAT then (mkInfo "EVENTSTAT" 0x04 4 false true false 2, true)
  else (noInfo, false).

Definition describeDPRegister (reg : DPRegister) : dpRegisterInfo * bool :=
  if reg =? IDCODE then (mkInfo "IDCODE" 0 0 true true false 0, true)
  else if reg =? DPIDR then (mkInfo "DPIDR" 0x00 0 true true false 0, true)
  else if reg =? ABORT then (mkInfo "ABORT" 0x00 0 true false true 0, true)
  else if reg =? CTRLSTAT then (mkInfo "CTRL/STAT" 0x04 0 false true true 0, true)
  else if reg =? SELECT then (mkInfo "SELECT" 0x08 0 true false true 0, true)
  else if reg =? RESEND then (mkInfo "RESEND" 0x08 0 true true false 0, true)
  else if reg =? RDBUFF then (mkInfo "RDBUFF" 0x0c 0 true true false 0, true)
  else describeBankedDPRegister reg.

Definition dpRegisterOffset (reg : DPRegister) : Z := offset (fst (describeDPRegister reg)).

Record DPIDRInfo := mkDPIDR {
  dp_Raw : Z;
  dp_Revision : Z;
  dp_Part : Z;
  Minimal : bool;
  Version : Z;
  dp_Designer : Z
}.

Definition noDPIDR : DPIDRInfo := mkDPIDR 0 0 0 false 0 0.

#[global] Instance DPIDRInfo_eq_dec : EqDecision DPIDRInfo.
Proof. solve_decision. Defined.

Definition DecodeDPIDR (value : Z) : DPIDRInfo * err :=
  if Z.land value 1 =? 0
  then (noDPIDR, Some (New "dap: DPIDR does not have its constant-one bit set"))
  else (mkDPIDR value
          (uint8 (Z.shiftr value 28))
          (uint8 (Z.land (Z.shiftr value 20) 0xff))
          (negb (Z.land (Z.shiftr value 16) 1 =? 0))
          (uint8 (Z.land (Z.shiftr value 12) 0x0f))
          (uint16 (Z.land (Z.shiftr value 1) 0x7ff)), None).

(** ** Identity (identity.go) *)

Record Identity := mkIdentity { dpidr : DPIDRInfo; idcode : Z }.
Definition noIdentity : Identity := mkIdentity noDPIDR 0.

Definition DPIDR_ (i : Identity) : DPIDRInfo * bool := (dpidr i, negb (dp_Raw (dpidr i) =? 0)).
Definition IDCODE_ (i : Identity) : Z * bool := (idcode i, negb (idcode i =? 0)).

(** ** Access ports (ap.go, apv2.go) *)

Record APSel := mkSel { sel_index : Z; sel_base : Z; v2 : bool }.
Definition noSel : APSel := mkSel 0 0 false.

#[global] Instance APSel_eq_dec : EqDecision APSel.
Proof. solve_decision. Defined.

Definition NewAPSel (value : Z) : APSel := mkSel (uint16 value + 1) 0 false.

Definition Value (sel : APSel) : Z * err :=
  if (sel_index sel =? 0) || v2 sel then (0, Some (New "dap: selector has no ADIv5 APSEL value"))
  else (uint8 (sel_index sel - 1), None).

Record APAddress := mkAPAddress { addr_sel : APSel; addr_value : Z }.

Definition Address (sel : APSel) (value : Z) : APAddress := mkAPAddress sel value.

Definition apIDRAddress : Z := 0xfc.

Record APIDRInfo := mkAPIDR {
  ap_Raw : Z;
  ap_Revision : Z;
  ap_Designer : Z;
  ap_Class : Z;
  ap_Variant : Z;
  ap_Type : Z
}.

Definition DecodeAPIDR (value : Z) : APIDRInfo :=
  mkAPIDR value
    (uint8 (Z.shiftr value 28))
    (uint16 (Z.land (Z.shiftr value 17) 0x7ff))
    (uint8 (Z.land (Z.shiftr value 13) 0x0f))
    (uint8 (Z.land (Z.shiftr value 4) 0x0f))
    (uint8 (Z.land value 0x0f)).

Definition APAt (base : Z) : APSel * err :=
  if any_bits base 0xfff then (noSel, Some (New "dap: AP base must be 4 KiB aligned"))
  else (mkSel 0 base true, None).

Definition BaseAddress (sel : APSel) : Z * err :=
  if negb (v2 sel) then (0, Some (New "dap: selector has no ADIv6 base address")) else (sel_base sel, None).

Definition register (sel : APSel) (addr : Z) : Z :=
  if v2 sel then Z.lor 0xd00 (uint16 addr) else uint16 addr.

Definition validateAPSel (sel : APSel) : Z * err :=
  if v2 sel then (sel_base sel, None) else Value sel.

Definition validateRawAPAddress (addr : Z) (write : bool) : err :=
  if any_bits addr 3 then Some (New "dap: unaligned AP address")
  else if write && (addr =? uint16 apIDRAddress) then Some (New "dap: APIDR is read-only")
  else None.

Definition validateAPAddress (addr : APAddress) (write : bool) : Z * err :=
  match snd (validateAPSel (addr_sel addr)) with
  | Some e => (0, Some e)
  | None =>
      let limit := if v2 (addr_sel addr) then 0xfff else 0xff in
      if limit <? addr_value addr then (0, Some (New "dap: AP register offset exceeds limit"))
      else if write && (addr_value addr =? register (addr_sel addr) apIDRAddress)
      then (0, Some (New "dap: APIDR is read-only"))
      else
        match validateRawAPAddress (addr_value addr) false with
        | Some e => (0, Some e)
        | None => (addr_value addr, None)
        end
  end.

(** ** Debug-port state (state.go) *)

Inductive debugPortSession := sessionIdle | sessionConnected | sessionRepairRequired.
Inductive swdResponseState := responseUnchecked | responseSimple | responseOverrun | responseLost.

#[global] Instance debugPortSession_eq_dec : EqDecision debugPortSession.
Proof. solve_decision. Defined.
#[global] Instance swdResponseState_eq_dec : EqDecision swdResponseState.
Proof. solve_decision. Defined.

Record selectState := mkSelect { value : Z; valid : bool }.
Definition noSelect : selectState := mkSelect 0 false.

Record debugPortState := mkState {
  session : debugPortSession;
  response : swdResponseState;
  selectDP : selectState;
  priorSELECT : selectState;
  selectPending : bool;
  dpWritePending : bool;
  ownedPower : Z;
  apGeneration : Z;
  sessionID : Z
}.

Definition set_session x s := mkState x (response s) (selectDP s) (priorSELECT s) (selectPending s) (dpWritePending s) (ownedPower s) (apGeneration s) (sessionID s).
Definition set_response x s := mkState (session s) x (selectDP s) (priorSELECT s) (selectPending s) (dpWritePending s) (ownedPower s) (apGeneration s) (sessionID s).
Definition set_selectDP x s := mkState (session s) (response s) x (priorSELECT s) (selectPending s) (dpWritePending s) (ownedPower s) (apGeneration s) (sessionID s).
Definition set_priorSELECT x s := mkState (session s) (response s) (selectDP s) x (selectPending s) (dpWritePending s) (ownedPower s) (apGeneration s) (sessionID s).
Definition set_selectPending x s := mkState (session s) (response s) (selectDP s) (priorSELECT s) x (dpWritePending s) (ownedPower s) (apGeneration s) (sessionID s).
Definition set_dpWritePending x s := mkState (session s) (response s) (selectDP s) (priorSELECT s) (selectPending s) x (ownedPower s) (apGeneration s) (sessionID s).
Definition set_ownedPower x s := mkState (session s) (response s) (selectDP s) (priorSELECT s) (selectPending s) (dpWritePending s) x (apGeneration s) (sessionID s).
Definition set_apGeneration x s := mkState (session s) (response s) (selectDP s) (priorSELECT s) (selectPending s) (dpWritePending s) (ownedPower s) x (sessionID s).
Definition set_sessionID x s := mkState (session s) (response s) (selectDP s) (priorSELECT s) (selectPending s) (dpWritePending s) (ownedPower s) (apGeneration s) x.

Definition initialState : debugPortState :=
  mkState sessionIdle responseUnchecked noSelect noSelect false false 0 0 0.

(** The bits of CTRL/STAT and ABORT (wait.go, lifecycle.go). *)
Definition dapAbort : Z := Z.shiftl 1 0.
Definition clearStickyCompare : Z := Z.shiftl 1 1.
Definition clearStickyError : Z := Z.shiftl 1 2.
Definition clearWriteDataError : Z := Z.shiftl 1 3.
Definition clearStickyOverrun : Z := Z.shiftl 1 4.
Definition stickyOverrun : Z := Z.shiftl 1 1.
Definition stickyCompare : Z := Z.shiftl 1 4.
Definition stickyError : Z := Z.shiftl 1 5.
Definition writeDataError : Z := Z.shiftl 1 7.
Definition overrunDetect : Z := Z.shiftl 1 0.
Definition transactionModes : Z := Z.lor (Z.shiftl 3 2) (Z.shiftl 0xfff 12).

Definition confirmSELECT (s : debugPortState) : debugPortState :=
  set_selectPending false (set_priorSELECT noSelect s).

Definition recordSELECT (v : Z) (s : debugPortState) : debugPortState :=
  let s := set_priorSELECT (selectDP s) s in
  set_selectPending true (set_selectDP (mkSelect v true) s).

Definition invalidateSELECT (s : debugPortState) : debugPortState := confirmSELECT (set_selectDP noSelect s).

Definition beginDPWrite : debugPortState -> debugPortState := set_dpWritePending true.
Definition settleDPWrite : debugPortState -> debugPortState := set_dpWritePending false.

Definition beginProtocolEntry (s : debugPortState) : debugPortState :=
  settleDPWrite (invalidateSELECT (set_response responseUnchecked s)).

Definition beginConnect (s : debugPortState) : debugPortState :=
  beginProtocolEntry (set_session sessionRepairRequired (set_sessionID (uint64 (sessionID s + 1)) s)).

Definition dpBank (s : debugPortState) : Z := uint8 (Z.land (value (selectDP s)) 0x0f).

Definition faultBankZero (s : debugPortState) : bool :=
  if negb (valid (selectDP s)) || negb (dpBank s =? 0) then false
  else negb (selectPending s) || (valid (priorSELECT s) && (Z.land (value (priorSELECT s)) 0x0f =? 0)).

Definition resolveSELECTFromCTRLSTAT (ctrlStat : Z) (s : debugPortState) : debugPortState :=
  if negb (selectPending s) then s
  else if any_bits ctrlStat writeDataError then invalidateSELECT s
  else confirmSELECT s.

Definition confirmResponse (state : Z) (s : debugPortState) : debugPortState :=
  if Z.land state overrunDetect =? 0 then set_response responseSimple s else set_response responseOverrun s.

Definition responseKnown (s : debugPortState) : bool :=
  bool_decide (response s = responseSimple) || bool_decide (response s = responseOverrun).

Definition invalidateAP (s : debugPortState) : debugPortState := set_apGeneration (uint64 (apGeneration s + 1)) s.

Definition loseFraming (s : debugPortState) : debugPortState :=
  let s := if bool_decide (response s = responseLost) then s else invalidateAP s in
  invalidateSELECT (set_response responseLost (set_session sessionRepairRequired s)).

Definition beginRepair : debugPortState -> debugPortState := set_session sessionRepairRequired.
Definition ownPower : Z -> debugPortState -> debugPortState := set_ownedPower.
Definition clearOwnedPower : debugPortState -> debugPortState := set_ownedPower 0.
Definition completeConnect : debugPortState -> debugPortState := set_session sessionConnected.
Definition completeRelease (s : debugPortState) : debugPortState :=
  settleDPWrite (set_ownedPower 0 (set_session sessionIdle s)).

(** ** The debug port (swddp.go, port.go) *)

(** What a port is bound to: nothing, an SWD connection, a completed-register
    transport, or a JTAG chain. *)
Inductive binding := unbound | swdBinding | registerBinding | jtagBinding.

#[global] Instance binding_eq_dec : EqDecision binding.
Proof. solve_decision. Defined.

Record DebugPort := mkDP {
  bound_to : binding;
  maxWaits : Z;
  cleanupTimeout : Z;
  identity : Identity;
  identified : bool;
  addressBits : Z;
  reentryID : Identity;
  reentryKnown : bool;
  state : debugPortState;
  memAPs : list APSel
}.

Definition set_maxWaits x dp := mkDP (bound_to dp) x (cleanupTimeout dp) (identity dp) (identified dp) (addressBits dp) (reentryID dp) (reentryKnown dp) (state dp) (memAPs dp).
Definition set_identity x y dp := mkDP (bound_to dp) (maxWaits dp) (cleanupTimeout dp) x y (addressBits dp) (reentryID dp) (reentryKnown dp) (state dp) (memAPs dp).
Definition set_addressBits x dp := mkDP (bound_to dp) (maxWaits dp) (cleanupTimeout dp) (identity dp) (identified dp) x (reentryID dp) (reentryKnown dp) (state dp) (memAPs dp).
Definition set_reentry x y dp := mkDP (bound_to dp) (maxWaits dp) (cleanupTimeout dp) (identity dp) (identified dp) (addressBits dp) x y (state dp) (memAPs dp).
Definition set_state x dp := mkDP (bound_to dp) (maxWaits dp) (cleanupTimeout dp) (identity dp) (identified dp) (addressBits dp) (reentryID dp) (reentryKnown dp) x (memAPs dp).
Definition set_memAPs x dp := mkDP (bound_to dp) (maxWaits dp) (cleanupTimeout dp) (identity dp) (identified dp) (addressBits dp) (reentryID dp) (reentryKnown dp) (state dp) x.

Definition bound (dp : DebugPort) : bool := negb (bool_decide (bound_to dp = unbound)).
Definition is_jtag (dp : DebugPort) : bool := bool_decide (bound_to dp = jtagBinding).
Definition is_register (dp : DebugPort) : bool := bool_decide (bound_to dp = registerBinding).
Definition dpVersion (dp : DebugPort) : Z := Version (dpidr (reentryID dp)).

(** *** Baseline JTAG-DP registers (jtag_registers.go) *)

Definition jtag_register (reg : DPRegister) (write : bool) : dpRegisterInfo * err :=
  if negb (existsb (Z.eqb reg) [IDCODE; CTRLSTAT; SELECT; RDBUFF; ABORT])
  then (noInfo, Some (New "dap: register is unavailable on baseline JTAG-DP"))
  else
    let i := fst (describeDPRegister reg) in
    let info := mkInfo (name i) (offset i) (bank i) true (if reg =? SELECT then true else readable i) (writable i) (minVersion i) in
    if (write && negb (writable info)) || (negb write && negb (readable info))
    then (noInfo, Some (New "dap: unsupported access direction"))
    else (info, None).

Definition jtag_validateWrite (reg : DPRegister) (v : Z) : err :=
  if (reg =? ABORT) && negb (v =? dapAbort) then Some (New "dap: baseline JTAG ABORT permits only DAPABORT")
  else if (reg =? CTRLSTAT) && any_bits v (Z.lor transactionModes overrunDetect)
  then Some (New "dap: CTRL/STAT cannot enable ORUNDETECT, pushed operations, or transaction counting")
  else if (reg =? SELECT) && any_bits v 0x00ffff0f
  then Some (New "dap: baseline JTAG SELECT has no DP register banks")
  else None.

(** *** Checks before traffic *)

Definition describeRegister (dp : DebugPort) (reg : DPRegister) : dpRegisterInfo * bool :=
  let '(info, ok) := describeDPRegister reg in
  if (reg =? DPIDR) && (dpVersion dp =? 3)
  then (mkInfo (name info) (offset info) (bank info) false (readable info) (writable info) (minVersion info), ok)
  else (info, ok).

Definition validateBankedDPRegister (dp : DebugPort) (info : dpRegisterInfo) : err :=
  if bool_decide (session (state dp) = sessionIdle) || negb (reentryKnown dp)
  then Some (New "dap: banked DP access requires an active connection")
  else if 3 <? dpVersion dp then Some (New "dap: banked DP access does not support DPv%d")
  else if dpVersion dp <? minVersion info then Some (New "dap: register requires a later DP version")
  else None.

Definition validateDPRegister (dp : DebugPort) (reg : DPRegister) (write : bool) : dpRegisterInfo * err :=
  if is_jtag dp then jtag_register reg write
  else if reg =? IDCODE then (noInfo, Some (New "dap: IDCODE is unavailable on SW-DP"))
  else
    let '(info, ok) := describeRegister dp reg in
    if negb ok then (noInfo, Some (New "dap: invalid DP register"))
    else if write && negb (writable info) then (noInfo, Some (New "dap: register is read-only"))
    else if negb write && negb (readable info) then (noInfo, Some (New "dap: register is write-only"))
    else if negb (bankIndependent info) && negb (bank info =? 0) then
      match validateBankedDPRegister dp info with
      | Some e => (noInfo, Some e)
      | None => (info, None)
      end
    else (info, None).

Definition dlcrTurnaroundMask : Z := Z.shiftl 3 8.

Definition validateSWDControl (dp : DebugPort) (v : Z) : err :=
  if any_bits v transactionModes then Some (New "dap: CTRL/STAT transaction modes are not supported")
  else if negb (responseKnown (state dp)) then Some (New "dap: write CTRL/STAT requires a known SWD response grammar")
  else if negb (Bool.eqb (any_bits v overrunDetect) (bool_decide (response (state dp) = responseOverrun)))
  then Some (New "dap: write CTRL/STAT: ORUNDETECT is owned by the SWD connection")
  else if (dpVersion dp =? 3) && any_bits v (Z.shiftl 1 24) then Some (New "dap: DP ERRMODE is not supported")
  else None.

Definition validateSelectionAddress (dp : DebugPort) (reg : DPRegister) (v : Z) : err :=
  let address := if reg =? SELECT1 then uint64 (Z.shiftl v 32) else and_not v 15 in
  if (dpVersion dp =? 3) && ((reg =? SELECT) || (reg =? SELECT1)) && negb (Z.shiftr address (addressBits dp) =? 0)
  then Some (New "dap: address exceeds address width")
  else None.

Definition validateDPWrite (dp : DebugPort) (reg : DPRegister) (v : Z) : dpRegisterInfo * err :=
  match validateDPRegister dp reg true with
  | (_, Some e) => (noInfo, Some e)
  | (info, None) =>
      if is_jtag dp then (info, jtag_validateWrite reg v)
      else
        match (if reg =? CTRLSTAT then validateSWDControl dp v else None) with
        | Some e => (noInfo, Some e)
        | None =>
            if (reg =? DLCR) && any_bits v dlcrTurnaroundMask
            then (noInfo, Some (New "dap: write DLCR: variable turnaround requires unsupported SWD framing"))
            else (info, validateSelectionAddress dp reg v)
        end
  end.

Definition validateSelector (dp : DebugPort) (sel : APSel) : Z * err :=
  match validateAPSel sel with
  | (_, Some e) => (0, Some e)
  | (v, None) =>
      if (3 <? dpVersion dp) || negb (Bool.eqb (v2 sel) (dpVersion dp =? 3))
      then (0, Some (New "dap: AP selector does not match debug-port architecture"))
      else if v2 sel && negb (Z.shiftr v (addressBits dp) =? 0)
      then (0, Some (New "dap: AP base exceeds address width"))
      else (v, None)
  end.

(** *** Physical requests (wait.go) *)

Record transferRequest := mkTR { AP : bool; Read : bool; Addr : Z }.

#[global] Instance transferRequest_eq_dec : EqDecision transferRequest.
Proof. solve_decision. Defined.

Definition dpTransferRequest (reg : DPRegister) (read : bool) : transferRequest :=
  mkTR false read (offset (fst (describeDPRegister reg))).

Definition apTransferRequest (addr : Z) (read : bool) : transferRequest := mkTR true read addr.

Definition isABORTWrite (req : transferRequest) : bool :=
  negb (AP req) && negb (Read req) && (Addr req =? dpRegisterOffset ABORT).
Definition isDPIDRRead (req : transferRequest) : bool :=
  negb (AP req) && Read req && (Addr req =? dpRegisterOffset DPIDR).
Definition isCTRLSTATRead (req : transferRequest) : bool :=
  negb (AP req) && Read req && (Addr req =? dpRegisterOffset CTRLSTAT).
