(* ===== verification/DapErrors.v ===== *)
(** * Outcomes and errors of package dap

    dap/errors.go, the outcome types of dap/swd_executor.go and dap/register.go,
    and the predicates that read an error chain to decide what is known about a
    request. *)

From S2P Require Import Prelude Go DapTypes.
Local Open Scope Z_scope.

(** [fmt.Errorf] around one cause. *)
Definition wrapf (msg : string) (e : error) : error := Errorf msg [e].

Definition as_wrapper (w : wrapper) (e : err) : bool :=
  match e with Some e => As_wrapper w e | None => false end.
Definition as_fault (e : err) : option faultState :=
  match e with Some e => As_fault e | None => None end.

(** ** Classification *)

Definition classifyPortError (e : err) : err :=
  if errors_Is e swd_ErrWait || errors_Is e swd_ErrFault || errors_Is e swd_ErrProtocol
  then Wrap portError <$> e else e.

Definition isContextError (e : err) : bool :=
  errors_Is e (context_Err Canceled) || errors_Is e (context_Err DeadlineExceeded).

Definition omitWAIT (e : err) : err :=
  if negb (errors_Is e dap_ErrWait) && negb (errors_Is e swd_ErrWait) then e
  else Wrap canceledWAITError <$> e.

Definition faultReportsWriteDataError (e : err) : bool :=
  match as_fault e with
  | Some f => StateValid f && any_bits (fault_CTRLSTAT f) writeDataError
  | None => false
  end.

Definition faultHasValidState (e : err) : bool :=
  match as_fault e with Some f => StateValid f | None => false end.

Definition ordinaryFaultCleared (e : err) : bool :=
  match as_fault e with
  | Some f => cleared f && any_bits (fault_CTRLSTAT f) stickyError &&
              negb (any_bits (fault_CTRLSTAT f) (Z.lor writeDataError stickyCompare))
  | None => false
  end.

Definition requestWasNotSent (e : err) : bool := as_wrapper requestNotSentError e.
Definition requestWasRejected (e : err) : bool := as_wrapper rejectedRequestError e.
Definition registerCompletionKnown (e : err) : bool :=
  negb (requestWasNotSent e) && as_wrapper completedRegisterError e.
Definition releaseCompletionKnown (e : err) : bool := as_wrapper completedReleaseError e.

(** Follows single causes only, as [errors.Unwrap] does. *)
Fixpoint parity_cause (e : error) : bool :=
  match e with
  | Sentinel s => bool_decide (s = swd_ErrParity)
  | Errorf _ [c] => parity_cause c
  | Wrap canceledWAITError _ | Wrap deviceFailure _ => false
  | Wrap _ c => parity_cause c
  | FaultError _ (Some c) => parity_cause c
  | _ => false
  end.

Definition confirmedSWDCompletionParity (e : err) : bool :=
  match e with Some e => parity_cause e | None => false end.

(** Every cause of a (nonempty) chain is a WAIT. *)
Fixpoint sole_wait (e : error) : bool :=
  match e with
  | Sentinel s => bool_decide (s = dap_ErrWait) || bool_decide (s = swd_ErrWait)
  | New _ | Detail _ => false
  | Errorf _ causes | Join causes => negb (bool_decide (length causes = O)) && forallb sole_wait causes
  | Wrap canceledWAITError _ | Wrap deviceFailure _ => false
  | Wrap _ c => sole_wait c
  | FaultError _ c => match c with Some c => sole_wait c | None => false end
  end.

Definition soleRegisterWAIT (e : err) : bool := match e with Some e => sole_wait e | None => false end.

(** ** Outcomes *)

Inductive transferOutcome := transferUnsent | transferRejected | transferInFlight | transferConfirmed | transferIndeterminate.

#[global] Instance transferOutcome_eq_dec : EqDecision transferOutcome.
Proof. solve_decision. Defined.

Record transferResult := mkTransfer { r_data : Z; r_cause : err; r_outcome : transferOutcome }.

Definition swdResult (v : Z) (e : err) : transferResult :=
  mkTransfer v e
    (if is_nil e || err_eqb e swd_ErrParity then transferConfirmed
     else if errors_Is e swd_ErrNotExecuted then transferUnsent
     else if err_eqb e swd_ErrWait || err_eqb e swd_ErrFault then transferRejected
     else transferIndeterminate).

(** A [uint8]; zero and values above four are invalid. *)
Definition RegisterStatus := Z.
Definition RegisterCompleted : RegisterStatus := 1.
Definition RegisterRejected : RegisterStatus := 2.
Definition RegisterUnsent : RegisterStatus := 3.
Definition RegisterIndeterminate : RegisterStatus := 4.

Definition registerStatusConsistent (status : RegisterStatus) (e : err) : bool :=
  if is_nil e then status =? RegisterCompleted
  else
    let rejectedOrUnknown := (status =? RegisterRejected) || (status =? RegisterIndeterminate) in
    let completedOrUnknown := (status =? RegisterCompleted) || (status =? RegisterIndeterminate) in
    forallb (fun '(present, allowed) => negb present || allowed)
      [ (errors_Is e dap_ErrIndeterminate || errors_Is e swd_ErrIndeterminate, status =? RegisterIndeterminate);
        (errors_Is e dap_ErrNotExecuted || errors_Is e swd_ErrNotExecuted, status =? RegisterUnsent);
        (errors_Is e dap_ErrWait, rejectedOrUnknown);
        (errors_Is e dap_ErrFault, negb (status =? RegisterUnsent));
        (errors_Is e swd_ErrParity, completedOrUnknown) ].

Definition jtagResultError (r : transferResult) : err :=
  if negb (is_nil (r_cause r)) &&
     (bool_decide (r_outcome r = transferInFlight) || bool_decide (r_outcome r = transferIndeterminate))
  then errors_Join [r_cause r; Some (Sentinel dap_ErrIndeterminate)]
  else r_cause r.

(** ** What a response tells *)

Definition responseSettlesPreviousDPWrite (r : transferRequest) (e : err) : bool :=
  if negb (is_nil e) && negb (err_eqb e swd_ErrWait) && negb (err_eqb e swd_ErrParity) then false
  else AP r || (Read r && negb (Addr r =? dpRegisterOffset DPIDR) && negb (Addr r =? dpRegisterOffset CTRLSTAT)).

Definition waitMayAffectAP (r : transferRequest) : bool :=
  AP r || (Read r && (Addr r =? dpRegisterOffset RDBUFF)).

Definition faultMayAffectAP (r : transferRequest) (apWork : bool) (st : Z) : bool :=
  if negb apWork || (AP r && negb (Read r)) then false
  else AP r || (Z.land st writeDataError =? 0).

Definition supportedStickyState (minimal : bool) : Z :=
  let st := Z.lor (Z.lor stickyError writeDataError) stickyOverrun in
  if minimal then st else Z.lor st stickyCompare.

Definition stickyClearForState (st : Z) (minimal : bool) : Z :=
  let clear := 0 in
  let clear := if any_bits st stickyError then Z.lor clear clearStickyError else clear in
  let clear := if any_bits st writeDataError then Z.lor clear clearWriteDataError else clear in
  let clear := if any_bits st stickyOverrun then Z.lor clear clearStickyOverrun else clear in
  if negb minimal && any_bits st stickyCompare then Z.lor clear clearStickyCompare else clear.

(** ** Power (lifecycle.go) *)

Definition debugPowerRequest : Z := Z.shiftl 1 28.
Definition debugPowerAck : Z := Z.shiftl 1 29.
Definition systemPowerRequest : Z := Z.shiftl 1 30.
Definition systemPowerAck : Z := Z.shiftl 1 31.
Definition powerRequests : Z := Z.lor debugPowerRequest systemPowerRequest.

Definition powerAcks (requests : Z) : Z :=
  let acks := 0 in
  let acks := if any_bits requests debugPowerRequest then Z.lor acks debugPowerAck else acks in
  if any_bits requests systemPowerRequest then Z.lor acks systemPowerAck else acks.
