(* ===== verification/DapPlan.v ===== *)
(** * Planning a transaction (dap/txn.go)

    A transaction over SWD is lowered to physical requests before any of them
    is sent: SELECT writes are inserted and settled by RDBUFF reads, posted reads
    of one register are pipelined, and the requests are cut into batches. *)

From S2P Require Import Prelude Go DapTypes.
Local Open Scope Z_scope.

Inductive txnOpKind :=
| txnReadDP
| txnWriteDP
| txnReadAPIDR
| txnReadRawAP
| txnWriteRawAP
| txnReadAPSequential
| txnWriteAPSequence.

#[global] Instance txnOpKind_eq_dec : EqDecision txnOpKind.
Proof. solve_decision. Defined.

(** [result] is the address of the operation's result, which the caller holds
    too. *)
Record txnOp := mkTxnOp {
  kind : txnOpKind;
  dpReg : DPRegister;
  apSel : APSel;
  apAddr : Z;
  data : Z;
  values : list Z;
  preserveAP : bool;
  result : nat;
  op_err : err;
  accepted : Z;
  confirmed : Z;
  uncertainWrite : bool
}.

Record txnStep := mkStep {
  req : transferRequest;
  step_reg : DPRegister;
  step_data : Z;
  op : Z;
  deliver : bool;
  deliverValue : bool;
  operationStarted : bool;
  settlesDPWrite : bool;
  completesWrite : bool;
  apRead : bool;
  apWrite : bool;
  acceptWrite : bool;
  invalidatesAP : bool
}.

(** The zero value of a step's [dpReg] names no register. *)
Definition noReg : DPRegister := 0.

Record swdTxnPlanner := mkPlanner {
  p_dp : DebugPort;
  p_selectDP : selectState;
  p_selectPending : bool;
  steps : list txnStep
}.

Definition newSWDTxnPlanner (dp : DebugPort) : swdTxnPlanner :=
  mkPlanner dp (selectDP (state dp)) (selectPending (state dp)) [].

Definition emit (l : list txnStep) (p : swdTxnPlanner) : swdTxnPlanner :=
  mkPlanner (p_dp p) (p_selectDP p) (p_selectPending p) (steps p ++ l).

Definition sameSequentialAP (first next : txnOp) : bool :=
  bool_decide (kind next = txnReadAPSequential) && bool_decide (apSel first = apSel next) && (apAddr first =? apAddr next).

(** ** Validation *)

(** The check of one queued operation ([Txn.validate]). *)
Definition validateOp (dp : DebugPort) (o : txnOp) : err :=
  let e :=
    match kind o with
    | txnReadDP => snd (validateDPRegister dp (dpReg o) false)
    | txnWriteDP => snd (validateDPWrite dp (dpReg o) (data o))
    | txnReadAPIDR => snd (validateSelector dp (apSel o))
    | txnReadRawAP | txnReadAPSequential => snd (validateAPAddress (mkAPAddress (apSel o) (apAddr o)) false)
    | txnWriteRawAP => snd (validateAPAddress (mkAPAddress (apSel o) (apAddr o)) true)
    | txnWriteAPSequence =>
        let e := snd (validateAPAddress (mkAPAddress (apSel o) (apAddr o)) true) in
        if bool_decide (values o = []) then errors_Join [e; Some (New "dap: empty access-port write sequence")] else e
    end in
  if bool_decide (apSel o = noSel) then e
  else errors_Join [e; snd (validateSelector dp (apSel o))].

(** ** Selection *)

Definition settlesSELECT (r : transferRequest) : bool :=
  if AP r || (Addr r =? dpRegisterOffset RDBUFF) then true
  else if Read r then negb (Addr r =? dpRegisterOffset DPIDR)
  else negb (Addr r =? dpRegisterOffset ABORT) && negb (Addr r =? dpRegisterOffset SELECT).

Definition select_step (i v : Z) : txnStep :=
  mkStep (dpTransferRequest SELECT false) SELECT v i false false false false false false false false false.

Definition settle_step (i : Z) : txnStep :=
  mkStep (dpTransferRequest RDBUFF true) RDBUFF 0 i false false false true false false false false false.

Definition selectValue (i v : Z) (p : swdTxnPlanner) : swdTxnPlanner :=
  if valid (p_selectDP p) && (value (p_selectDP p) =? v) then p
  else mkPlanner (p_dp p) (mkSelect v true) true (steps p ++ [select_step i v]).

Definition settleSELECT (i : Z) (p : swdTxnPlanner) : swdTxnPlanner :=
  if negb (p_selectPending p) then p
  else mkPlanner (p_dp p) (p_selectDP p) false (steps p ++ [settle_step i]).

Definition selectBank (i bank : Z) (p : swdTxnPlanner) : swdTxnPlanner :=
  let v := if valid (p_selectDP p) then Z.lor bank (and_not (value (p_selectDP p)) 0x0f) else bank in
  settleSELECT i (selectValue i v p).

(** [uint32(selection)<<24 | uint32(addr&0xf0)] *)
Definition ap_select (sel : APSel) (addr : Z) : Z :=
  Z.lor (uint32 (Z.shiftl (fst (Value sel)) 24)) (Z.land addr 0xf0).

(** ** Access-port operations *)

Definition isReadOp (o : txnOp) : bool :=
  bool_decide (kind o = txnReadAPIDR) || bool_decide (kind o = txnReadRawAP) || bool_decide (kind o = txnReadAPSequential).

Definition appendAP (i : Z) (o : txnOp) (p : swdTxnPlanner) : swdTxnPlanner :=
  let read := isReadOp o in
  let invalidates := bool_decide (kind o = txnReadRawAP) || bool_decide (kind o = txnWriteRawAP) in
  let posts := bool_decide (kind o = txnReadRawAP) || bool_decide (kind o = txnReadAPSequential) in
  let writes := bool_decide (kind o = txnWriteRawAP) in
  emit [mkStep (apTransferRequest (uint8 (Z.land (apAddr o) 0x0c)) read) noReg (data o) i
          false false false false false posts writes false (invalidates && negb (preserveAP o));
        mkStep (dpTransferRequest RDBUFF true) RDBUFF 0 i
          true read true false writes posts writes false (invalidates && negb (preserveAP o))] p.

Definition lowerAP (i : Z) (o : txnOp) (p : swdTxnPlanner) : swdTxnPlanner :=
  appendAP i o (settleSELECT i (selectValue i (ap_select (apSel o) (apAddr o)) p)).

(** The writes of a sequence; only the first starts the operation. *)
Fixpoint sequence_writes (i addr : Z) (started : bool) (vs : list Z) : list txnStep :=
  match vs with
  | [] => []
  | v :: vs =>
      mkStep (apTransferRequest (uint8 (Z.land addr 0x0c)) false) noReg v i false false started false false false true true false
      :: sequence_writes i addr true vs
  end.

Definition appendAPWriteSequence (i : Z) (o : txnOp) (p : swdTxnPlanner) : swdTxnPlanner :=
  emit (sequence_writes i (apAddr o) false (values o) ++
        [mkStep (dpTransferRequest RDBUFF true) RDBUFF 0 i true false true false true false true false false]) p.

Definition lowerAPWriteSequence (i : Z) (o : txnOp) (p : swdTxnPlanner) : swdTxnPlanner :=
  appendAPWriteSequence i o (settleSELECT i (selectValue i (ap_select (apSel o) (apAddr o)) p)).

(** The posted reads after the first: each delivers its predecessor's value. *)
Fixpoint sequential_reads (i : Z) (l : list txnOp) : list txnStep :=
  match l with
  | [] => []
  | o :: l =>
      mkStep (apTransferRequest (uint8 (Z.land (apAddr o) 0x0c)) true) noReg 0 (i - 1) true true true false false true false false false
      :: sequential_reads (i + 1) l
  end.

Definition lowerSequentialAP (start : Z) (o : txnOp) (l : list txnOp) (p : swdTxnPlanner) : swdTxnPlanner :=
  let p := settleSELECT start (selectValue start (ap_select (apSel o) (apAddr o)) p) in
  emit (mkStep (apTransferRequest (uint8 (Z.land (apAddr o) 0x0c)) true) noReg 0 start false false false false false true false false false
        :: sequential_reads (start + 1) l ++
        [mkStep (dpTransferRequest RDBUFF true) RDBUFF 0 (start + len l) true true true false false true false false false]) p.

(** ** Debug-port operations *)

Definition txnDPRequest (o : txnOp) (info : dpRegisterInfo) : transferRequest :=
  mkTR false (bool_decide (kind o = txnReadDP)) (offset info).

Definition set_select (sel : selectState) (pending : bool) (p : swdTxnPlanner) : swdTxnPlanner :=
  mkPlanner (p_dp p) sel pending (steps p).

(** What a debug-port request does to the selection. *)
Definition dp_selection (write : bool) (reg : DPRegister) (d : Z) (r : transferRequest) (p : swdTxnPlanner) : swdTxnPlanner :=
  let p := if write && (reg =? SELECT) then set_select (mkSelect d true) true p else p in
  let p := if write && (reg =? ABORT) && p_selectPending p then set_select noSelect false p else p in
  if p_selectPending p && settlesSELECT r then set_select (p_selectDP p) false p else p.

(** The barrier of a debug-port write. *)
Definition dp_barrier (i : Z) (invalidates : bool) (p : swdTxnPlanner) : swdTxnPlanner :=
  set_select (p_selectDP p) false
    (emit [mkStep (dpTransferRequest RDBUFF true) RDBUFF 0 i true false true true true false false false invalidates] p).

Definition lowerDP (i : Z) (o : txnOp) (p : swdTxnPlanner) : swdTxnPlanner :=
  let write := bool_decide (kind o = txnWriteDP) in
  let read := bool_decide (kind o = txnReadDP) in
  let info := fst (validateDPRegister (p_dp p) (dpReg o) write) in
  let invalidates := write && (dpReg o =? ABORT) && any_bits (data o) dapAbort in
  let r := txnDPRequest o info in
  let p := if negb (bankIndependent info) then selectBank i (bank info) p else p in
  let p := emit [mkStep r (dpReg o) (data o) i read read false false false false false false invalidates] p in
  let p := dp_selection write (dpReg o) (data o) r p in
  if write then dp_barrier i invalidates p else p.

(** ** The plan *)

Definition lower (i : Z) (o : txnOp) (p : swdTxnPlanner) : swdTxnPlanner :=
  match kind o with
  | txnReadDP | txnWriteDP => lowerDP i o p
  | txnReadAPIDR | txnReadRawAP | txnWriteRawAP => lowerAP i o p
  | txnWriteAPSequence => lowerAPWriteSequence i o p
  | txnReadAPSequential => p
  end.

(** The length of the run of reads that continue [first]. *)
Fixpoint sequential_run (first : txnOp) (l : list txnOp) : nat :=
  match l with
  | [] => O
  | o :: l => if sameSequentialAP first o then S (sequential_run first l) else O
  end.

(** Each turn consumes at least one operation; [length ops] turns are enough. *)
Fixpoint plan_loop (fuel : nat) (i : Z) (ops : list txnOp) (p : swdTxnPlanner) : swdTxnPlanner :=
  match fuel, ops with
  | S fuel, o :: rest =>
      if negb (bool_decide (kind o = txnReadAPSequential)) then plan_loop fuel (i + 1) rest (lower i o p)
      else
        let n := sequential_run o rest in
        plan_loop fuel (i + 1 + Z.of_nat n) (drop n rest) (lowerSequentialAP i o (take n rest) p)
  | _, _ => p
  end.

Definition plan (ops : list txnOp) (p : swdTxnPlanner) : list txnStep := steps (plan_loop (length ops) 0 ops p).

(** ** Batches *)

Definition txnResponseBoundary (s : txnStep) : bool :=
  (step_reg s =? ABORT) || (negb (AP (req s)) && Read (req s) && ((Addr (req s) =? 0x00) || (Addr (req s) =? 0x04))).

(** The steps before the next boundary. *)
Fixpoint to_boundary (l : list txnStep) : nat :=
  match l with
  | [] => O
  | s :: l => if txnResponseBoundary s then O else S (to_boundary l)
  end.

(** The end of the batch that starts with the first of the given steps. *)
Definition nextBatchBoundary (l : list txnStep) : option nat :=
  match l with
  | [] => None
  | s :: l => Some (if txnResponseBoundary s then 1%nat else S (to_boundary l))
  end.
