(* ===== verification/DapPlanFacts.v ===== *)
(** * What a plan must do

    A debug port as the planner sees it: a SELECT register that a write changes
    but does not yet guarantee, a buffer holding the last posted read, and the
    registers behind them.  Requests that reach a bank or an access port through
    an unsettled or unknown selection have no meaning here.  Against it stands
    the logical reading of a transaction, one operation after the other. *)

From S2P Require Import Prelude Go DapTypes DapPlan.
Local Open Scope Z_scope.

(** The registers behind the selection. *)
Class Registers (T : Type) := {
  ap_read : Z -> Z -> T -> Z * T;
  ap_write : Z -> Z -> Z -> T -> T;
  dp_read : Z -> Z -> T -> Z * T;
  dp_write : Z -> Z -> Z -> T -> T
}.

Definition isAPOp (o : txnOp) : bool :=
  match kind o with txnReadDP | txnWriteDP => false | _ => true end.

(** The operations a transaction can queue: addresses are [uint16], and
    [ReadAPIDR] names the identification register. *)
Definition op_wf (o : txnOp) : Prop :=
  0 <= apAddr o < 2 ^ 16 /\ (kind o = txnReadAPIDR -> apAddr o = register (apSel o) apIDRAddress).

Section Machine.
Context {T : Type} `{Registers T}.

(** ** The physical port *)

Record Phys := mkPhys {
  select : option Z;
  settled : bool;
  rdbuff : Z;
  resend : Z;
  regs : T
}.

(** The bank a request at offset 0 or 4 reaches; reads at offset 0 are banked
    from DPv3 on, ABORT never is. *)
Definition banked (v3 : bool) (r : transferRequest) : bool :=
  (Addr r =? 4) || (v3 && Read r).

Definition reach (v3 : bool) (r : transferRequest) (m : Phys) : option Z :=
  if banked v3 r then if settled m then (fun s => Z.land s 0x0f) <$> select m else None
  else Some 0.

Definition exec_ap (r : transferRequest) (d : Z) (m : Phys) : option (Z * Phys) :=
  s ← (if settled m then select m else None);
  let sel := Z.shiftr s 24 in
  let addr := Z.lor (Z.land s 0xf0) (Addr r) in
  if Read r then
    let '(v, t) := ap_read sel addr (regs m) in
    Some (rdbuff m, mkPhys (select m) (settled m) v (rdbuff m) t)
  else Some (0, mkPhys (select m) (settled m) (rdbuff m) (resend m) (ap_write sel addr d (regs m))).

Definition exec_dp (v3 : bool) (r : transferRequest) (d : Z) (m : Phys) : option (Z * Phys) :=
  if Addr r =? 0x0c then
    if Read r then Some (rdbuff m, mkPhys (select m) true (rdbuff m) (rdbuff m) (regs m)) else None
  else if Addr r =? 0x08 then
    if Read r then Some (resend m, mkPhys (select m) true (rdbuff m) (resend m) (regs m))
    else Some (0, mkPhys (Some d) false (rdbuff m) (resend m) (regs m))
  else
    b ← reach v3 r m;
    if Read r then
      let '(v, t) := dp_read b (Addr r) (regs m) in
      Some (v, mkPhys (select m) (settled m) (rdbuff m) (resend m) t)
    else
      (* ABORT may discard a SELECT write that is still in flight *)
      let s := if (Addr r =? 0) && negb (settled m) then None else select m in
      Some (0, mkPhys s (settled m) (rdbuff m) (resend m) (dp_write b (Addr r) d (regs m))).

Definition exec_request (v3 : bool) (r : transferRequest) (d : Z) (m : Phys) : option (Z * Phys) :=
  if AP r then exec_ap r d m else exec_dp v3 r d m.

(** What a run hands to the callers: operation and value, in order. *)
Fixpoint exec_steps (v3 : bool) (l : list txnStep) (m : Phys) : option (list (Z * Z) * Phys) :=
  match l with
  | [] => Some ([], m)
  | s :: l =>
      '(v, m1) ← exec_request v3 (req s) (step_data s) m;
      '(ds, m2) ← exec_steps v3 l m1;
      Some ((if deliver s then [(op s, if deliverValue s then v else 0)] else []) ++ ds, m2)
  end.

(** ** The logical port *)

Definition Logical : Type := Z * T.

Definition write_all (sel addr : Z) (vs : list Z) (t : T) : T := fold_left (fun t v => ap_write sel addr v t) vs t.

Definition exec_op (dp : DebugPort) (o : txnOp) (l : Logical) : Z * Logical :=
  let '(buf, t) := l in
  let sel := fst (Value (apSel o)) in
  match kind o with
  | txnReadDP =>
      let info := fst (validateDPRegister dp (dpReg o) false) in
      if (dpReg o =? RDBUFF) || (dpReg o =? RESEND) then (buf, l)
      else let '(v, t) := dp_read (if bankIndependent info then 0 else bank info) (offset info) t in (v, (buf, t))
  | txnWriteDP =>
      let info := fst (validateDPRegister dp (dpReg o) true) in
      if dpReg o =? SELECT then (0, l)
      else (0, (buf, dp_write (if bankIndependent info then 0 else bank info) (offset info) (data o) t))
  | txnReadAPIDR | txnReadRawAP | txnReadAPSequential =>
      let '(v, t) := ap_read sel (apAddr o) t in (v, (v, t))
  | txnWriteRawAP => (0, (buf, ap_write sel (apAddr o) (data o) t))
  | txnWriteAPSequence => (0, (buf, write_all sel (apAddr o) (values o) t))
  end.

(** Every operation in turn, its value delivered under its index. *)
Fixpoint exec_ops (dp : DebugPort) (i : Z) (ops : list txnOp) (l : Logical) : list (Z * Z) * Logical :=
  match ops with
  | [] => ([], l)
  | o :: ops =>
      let '(v, l1) := exec_op dp o l in
      let '(ds, l2) := exec_ops dp (i + 1) ops l1 in
      ((i, v) :: ds, l2)
  end.

(** The planner's view of the selection is true of the port. *)
Definition agrees (p : swdTxnPlanner) (m : Phys) : Prop :=
  (valid (p_selectDP p) = true -> select m = Some (value (p_selectDP p))) /\
  (p_selectPending p = false -> settled m = true) /\
  resend m = rdbuff m.

End Machine.
Arguments Phys T : clear implicits.
Arguments Logical T : clear implicits.

(** * Correctness of the planner

    Every lowering extends the plan by requests which, run on the port, perform
    the logical operation and keep the planner's view of the selection true. *)

(** ** Selectors *)

Lemma uint8_range x : 0 <= uint8 x < 256.
Proof. unfold uint8. apply Z.mod_pos_bound. lia. Qed.

Lemma Value_range sel : 0 <= fst (Value sel) < 256.
Proof. unfold Value. destruct ((sel_index sel =? 0) || v2 sel); simpl; [lia|apply uint8_range]. Qed.

Lemma land_mask_range x m n : 0 <= m < 2 ^ n -> 0 <= n -> 0 <= Z.land x m < 2 ^ n.
Proof.
  intros Hm Hn. assert (0 <= Z.land x m) as H0 by (apply Z.land_nonneg; lia).
  split; [done|]. apply bits_lt_pow2; [done|done|]. intros i Hi.
  rewrite Z.land_spec, (testbit_high m n) by lia. apply andb_false_r.
Qed.

(** What [ap_select] selects. *)
Lemma ap_select_port sel addr : Z.shiftr (ap_select sel addr) 24 = fst (Value sel).
Proof.
  unfold ap_select. pose proof (Value_range sel) as Hv.
  rewrite uint32_small by (rewrite Z.shiftl_mul_pow2 by lia; lia).
  rewrite Z.shiftr_lor, Z.shiftr_shiftl_l by lia. rewrite Z.shiftl_0_r.
  replace (Z.shiftr (Z.land addr 240) 24) with 0; [by rewrite Z.lor_0_r|].
  symmetry. rewrite Z.shiftr_land. apply Z.land_0_r.
Qed.

Lemma ap_select_addr sel addr :
  0 <= addr < 256 -> Z.land addr 3 = 0 ->
  Z.lor (Z.land (ap_select sel addr) 0xf0) (uint8 (Z.land addr 0x0c)) = addr.
Proof.
  intros Ha H3. unfold ap_select. pose proof (Value_range sel) as Hv.
  rewrite uint32_small by (rewrite Z.shiftl_mul_pow2 by lia; lia).
  rewrite Z.land_lor_distr_l, <- Z.land_assoc.
  replace (Z.land (Z.shiftl (fst (Value sel)) 24) 240) with 0.
  2:{ symmetry. apply Z.bits_inj'. intros n Hn. rewrite Z.land_spec, Z.shiftl_spec, Z.bits_0 by done.
      destruct (decide (n < 24)); [by rewrite Z.testbit_neg_r by lia|].
      rewrite (testbit_high 240 8) by lia. apply andb_false_r. }
  rewrite Z.lor_0_l. change (Z.land 240 240) with 240.
  unfold uint8. rewrite Z.mod_small.
  2:{ pose proof (land_mask_range addr 12 8). lia. }
  rewrite <- Z.land_lor_distr_r. change (Z.lor 240 12) with 252.
  assert (Z.land addr 255 = addr) as Hid.
  { change 255 with (Z.ones 8). rewrite Z.land_ones by lia. apply Z.mod_small. lia. }
  transitivity (Z.land addr 255); [|done].
  change 255 with (Z.lor 252 3). rewrite Z.land_lor_distr_r, H3. by rewrite Z.lor_0_r.
Qed.

(** The bank [selectBank] selects. *)
Lemma select_bank_value b v : 0 <= b < 16 -> Z.land (Z.lor b (and_not v 0x0f)) 0x0f = b.
Proof.
  intros Hb. unfold and_not. apply Z.bits_inj'. intros n Hn.
  rewrite Z.land_spec, Z.lor_spec, Z.ldiff_spec. change 15 with (Z.ones 4).
  rewrite Z.testbit_ones_nonneg by lia. destruct (Z.ltb_spec n 4); simpl.
  - by rewrite andb_true_r, andb_false_r, orb_false_r.
  - rewrite andb_false_r. symmetry. apply (testbit_high b 4); lia.
Qed.

(** ** Registers a transaction over SWD may name *)

Inductive swd_register (v3 : bool) : DPRegister -> bool -> dpRegisterInfo -> Prop :=
| sr_rdbuff info : offset info = 0x0c -> bankIndependent info = true -> swd_register v3 RDBUFF false info
| sr_resend info : offset info = 0x08 -> bankIndependent info = true -> swd_register v3 RESEND false info
| sr_dpidr info : v3 = false -> offset info = 0 -> bankIndependent info = true -> swd_register v3 DPIDR false info
| sr_abort info : offset info = 0 -> bankIndependent info = true -> swd_register v3 ABORT true info
| sr_select info : offset info = 0x08 -> bankIndependent info = true -> swd_register v3 SELECT true info
| sr_banked reg write info :
    bankIndependent info = false -> 0 <= bank info < 16 ->
    offset info = 4 \/ (offset info = 0 /\ v3 = true /\ write = false) ->
    reg <> RDBUFF -> reg <> RESEND -> reg <> ABORT -> reg <> SELECT ->
    swd_register v3 reg write info.

Ltac reg_eq reg c :=
  let E := fresh in destruct (Z.eqb_spec reg c) as [->|E].

Lemma describe_swd_register v3 reg info write :
  reg <> IDCODE -> describeDPRegister reg = (info, true) ->
  (write = true -> writable info = true) -> (write = false -> readable info = true) ->
  (bankIndependent info = false -> bank info = 0 \/ v3 = true \/ minVersion info <> 3) ->
  (v3 = false \/ reg <> DPIDR) ->
  swd_register v3 reg write info.
Proof.
  intros Hid Hd Hw Hr Hb Hv. unfold describeDPRegister in Hd. unfold describeBankedDPRegister in Hd.
  repeat match type of Hd with
  | (if ?r =? ?c then _ else _) = _ => reg_eq r c; [injection Hd as <-|]
  end; try done; simpl in *; destruct write; try (by specialize (Hw eq_refl)); try (by specialize (Hr eq_refl)).
  all: try (constructor; simpl; first [done|lia|tauto]).
  all: try (destruct Hb as [?|[->|?]]; [done|done| |done]).
  all: try (apply sr_banked; simpl; try done; try lia; tauto).
Qed.

Lemma validated_register dp reg write info :
  is_jtag dp = false -> validateDPRegister dp reg write = (info, None) ->
  swd_register (dpVersion dp =? 3) reg write info.
Proof.
  intros Hj Hv. unfold validateDPRegister in Hv. rewrite Hj in Hv.
  reg_eq reg IDCODE; [done|]. unfold describeRegister in Hv.
  destruct (describeDPRegister reg) as [i ok] eqn:Hd.
  destruct ((reg =? DPIDR) && (dpVersion dp =? 3)) eqn:E3.
  - apply andb_prop in E3 as [E3 ->]. apply Z.eqb_eq in E3 as ->. injection Hd as <- <-.
    destruct write; simpl in Hv; [done|]. injection Hv as <-. apply sr_banked; simpl; try done; try lia; auto.
  - destruct ok; simpl in Hv; [|done].
    destruct (write && negb (writable i)) eqn:Ew; [done|].
    destruct (negb write && negb (readable i)) eqn:Er; [done|].
    destruct (negb (bankIndependent i) && negb (bank i =? 0)) eqn:Eb.
    + destruct (validateBankedDPRegister dp i) eqn:Evb; [done|]. injection Hv as <-.
      apply describe_swd_register; try done.
      * intros ->. by destruct (writable i).
      * intros ->. by destruct (readable i).
      * intros _. unfold validateBankedDPRegister in Evb.
        destruct (_ || _); [done|]. destruct (3 <? _) eqn:E4; [done|]. destruct (_ <? minVersion i) eqn:Em; [done|].
        apply Z.ltb_ge in E4, Em. destruct (Z.eqb_spec (dpVersion dp) 3); [by right; left|]. right; right. lia.
      * destruct (dpVersion dp =? 3); [|by left]. right. intros ->. done.
    + injection Hv as <-. apply describe_swd_register; try done.
      * intros ->. by destruct (writable i).
      * intros ->. by destruct (readable i).
      * intros Hb. rewrite Hb in Eb. simpl in Eb. left. by destruct (Z.eqb_spec (bank i) 0).
      * destruct (dpVersion dp =? 3); [|by left]. right. intros ->. done.
Qed.

(** ** Runs *)

Section Runs.
Context {T : Type} `{Registers T} (v3 : bool).

Lemma exec_steps_app l k (m m1 m2 : Phys T) ds es :
  exec_steps v3 l m = Some (ds, m1) -> exec_steps v3 k m1 = Some (es, m2) ->
  exec_steps v3 (l ++ k) m = Some (ds ++ es, m2).
Proof.
  revert m ds. induction l as [|s l IH]; intros m ds Hl Hk; simpl in *.
  - by injection Hl as <- ->.
  - destruct (exec_request v3 (req s) (step_data s) m) as [[v m']|]; [|done]. simpl in *.
    destruct (exec_steps v3 l m') as [[ds' m3]|] eqn:E; [|done]. simpl in *. injection Hl as <- ->.
    rewrite (IH m' ds' E Hk). simpl. by rewrite app_assoc.
Qed.

(** From [p] to [p'] the plan grows by steps that take the port from [m] to
    [m'] and deliver [ds]; the planner's view stays true. *)
Definition runs (p p' : swdTxnPlanner) (m : Phys T) (ds : list (Z * Z)) (m' : Phys T) : Prop :=
  p_dp p' = p_dp p /\ agrees p' m' /\
  exists new, steps p' = steps p ++ new /\ exec_steps v3 new m = Some (ds, m').

Lemma runs_refl p m : agrees p m -> runs p p m [] m.
Proof. intros Ha. split; [done|]. split; [done|]. exists []. by rewrite app_nil_r. Qed.

Lemma runs_trans p q r m1 m2 m3 ds es :
  runs p q m1 ds m2 -> runs q r m2 es m3 -> runs p r m1 (ds ++ es) m3.
Proof.
  intros (D1 & _ & n1 & S1 & X1) (D2 & A2 & n2 & S2 & X2). split; [congruence|]. split; [done|].
  exists (n1 ++ n2). split; [by rewrite S2, S1, app_assoc|]. by eapply exec_steps_app.
Qed.

Lemma runs_emit p l m ds m' :
  exec_steps v3 l m = Some (ds, m') -> agrees p m' -> runs p (emit l p) m ds m'.
Proof. intros Hx Ha. split; [done|]. split; [exact Ha|]. by exists l. Qed.

(** A port with a settled selection. *)
Definition ready (v : Z) (buf : Z) (t : T) : Phys T := mkPhys (Some v) true buf buf t.

(** Selecting a value leaves the port ready with it. *)
Lemma select_runs i v p m :
  agrees p m ->
  let p' := settleSELECT i (selectValue i v p) in
  runs p p' m [] (ready v (rdbuff m) (regs m)) /\
  p_selectDP p' = mkSelect v true /\ p_selectPending p' = false.
Proof.
  intros (Hv & Hs & Hr). destruct m as [ms st rb rs t]. simpl in *. subst rs.
  destruct p as [dp [sv sval] pend l]. unfold selectValue. simpl in *.
  destruct (sval && (sv =? v)) eqn:E.
  - apply andb_prop in E as [-> Ev]. apply Z.eqb_eq in Ev as ->. specialize (Hv eq_refl). subst ms.
    unfold settleSELECT. simpl. destruct pend; simpl.
    + split; [|done]. split; [done|]. split; [done|]. eexists. split; [reflexivity|]. done.
    + specialize (Hs eq_refl). subst st. split; [|done]. by apply runs_refl.
  - unfold settleSELECT. simpl. split; [|done]. split; [done|]. split; [done|].
    eexists. split; [by rewrite <- app_assoc|]. done.
Qed.

(** An access-port request through a settled selection. *)
Lemma exec_ap_settled sel addr buf prev t read d :
  0 <= addr < 256 -> Z.land addr 3 = 0 ->
  exec_request v3 (apTransferRequest (uint8 (Z.land addr 0x0c)) read) d (mkPhys (Some (ap_select sel addr)) true buf prev t) =
  if read then let '(v, t') := ap_read (fst (Value sel)) addr t in Some (buf, mkPhys (Some (ap_select sel addr)) true v buf t')
  else Some (0, mkPhys (Some (ap_select sel addr)) true buf prev (ap_write (fst (Value sel)) addr d t)).
Proof.
  intros Ha H3. unfold exec_request, exec_ap, apTransferRequest. cbn [AP Addr Read settled select regs rdbuff resend].
  cbn [mbind option_bind]. rewrite ap_select_port, ap_select_addr by done.
  destruct read; [by destruct (ap_read _ _ _)|done].
Qed.
End Runs.

(** ** Lowering one operation *)

Lemma validateSelector_v5 dp sel v : validateSelector dp sel = (v, None) -> dpVersion dp <> 3 -> v2 sel = false.
Proof.
  unfold validateSelector. destruct (validateAPSel sel) as [w [e|]]; [done|]. intros Hs Hv.
  destruct (Z.eqb_spec (dpVersion dp) 3); [done|].
  destruct (3 <? dpVersion dp); simpl in Hs; [done|]. by destruct (v2 sel).
Qed.

Lemma validateAPAddress_ok sel a write :
  snd (validateAPAddress (mkAPAddress sel a) write) = None -> v2 sel = false -> a <= 255 /\ Z.land a 3 = 0.
Proof.
  unfold validateAPAddress. simpl. intros Hv H2. rewrite H2 in Hv.
  destruct (snd (validateAPSel sel)); [done|]. destruct (Z.ltb_spec 255 a); [done|].
  destruct (write && _); [done|]. unfold validateRawAPAddress in Hv.
  destruct (any_bits a 3) eqn:E; [done|]. split; [done|].
  unfold any_bits in E. by destruct (Z.eqb_spec (Z.land a 3) 0).
Qed.

Lemma errors_Join_pair a b : errors_Join [a; b] = None -> a = None /\ b = None.
Proof. intros Hj%errors_Join_None. by inversion Hj as [|? ? ? Hb]; inversion Hb. Qed.

(** Access-port operations that pass validation below DPv3 address a register of
    an ADIv5 port. *)
Lemma valid_ap_addr dp o :
  validateOp dp o = None -> isAPOp o = true -> op_wf o -> dpVersion dp <> 3 ->
  0 <= apAddr o < 256 /\ Z.land (apAddr o) 3 = 0.
Proof.
  intros Hv Ha [Hw Hid] H3. unfold validateOp in Hv.
  destruct (decide (apSel o = noSel)) as [E|E].
  { rewrite (bool_decide_eq_true_2 _ E) in Hv. rewrite E in Hv. exfalso. unfold isAPOp in Ha.
    destruct (kind o); try done. simpl in Hv. by destruct (bool_decide (values o = [])). }
  rewrite (bool_decide_eq_false_2 _ E) in Hv. apply errors_Join_pair in Hv as [Hv Hs].
  destruct (validateSelector dp (apSel o)) as [sv se] eqn:Es. simpl in Hs. subst se.
  pose proof (validateSelector_v5 _ _ _ Es H3) as H2.
  unfold isAPOp in Ha. destruct (kind o) eqn:Ek; try done.
  1: { rewrite (Hid eq_refl). unfold register. rewrite H2. vm_compute. done. }
  4: destruct (bool_decide (values o = [])); [by apply errors_Join_pair in Hv as [_ ?]|].
  all: destruct (validateAPAddress_ok _ _ _ Hv H2); lia.
Qed.

Section Lowering.
Context {T : Type} `{Registers T} (dp : DebugPort).
Hypothesis not_jtag : is_jtag dp = false.

Definition v3 : bool := dpVersion dp =? 3.

(** [p'] performs what [o] means, delivering its value once under index [i]. *)
Definition performs (i : Z) (o : txnOp) (p p' : swdTxnPlanner) (m : Phys T) : Prop :=
  exists m', runs v3 p p' m [(i, fst (exec_op dp o (rdbuff m, regs m)))] m' /\
    (rdbuff m', regs m') = snd (exec_op dp o (rdbuff m, regs m)).

Lemma rdbuff_step (i : Z) dv st sdp cw ar aw inv sel buf prev t :
  exec_steps v3 [mkStep (dpTransferRequest RDBUFF true) RDBUFF 0 i true dv st sdp cw ar aw false inv]
    (mkPhys (Some sel) true buf prev t) = Some ([(i, if dv then buf else 0)], ready sel buf t).
Proof. done. Qed.

Lemma appendAP_performs i o p buf t :
  match kind o with txnReadAPIDR | txnReadRawAP | txnWriteRawAP => True | _ => False end ->
  0 <= apAddr o < 256 -> Z.land (apAddr o) 3 = 0 ->
  p_selectDP p = mkSelect (ap_select (apSel o) (apAddr o)) true ->
  performs i o p (appendAP i o p) (ready (ap_select (apSel o) (apAddr o)) buf t).
Proof.
  intros Hk Ha H3 Hs. unfold performs, exec_op, appendAP, isReadOp. simpl.
  destruct (kind o) eqn:Ek; try done; simpl.
  1, 2: destruct (ap_read (fst (Value (apSel o))) (apAddr o) t) as [v t'] eqn:Er.
  1, 2: exists (ready (ap_select (apSel o) (apAddr o)) v t'); split; [|done].
  3: exists (ready (ap_select (apSel o) (apAddr o)) buf (ap_write (fst (Value (apSel o))) (apAddr o) (data o) t)); split; [|done].
  all: apply runs_emit; [|by split; [intros _; rewrite Hs|]].
  all: unfold ready; cbn [exec_steps req step_data]; rewrite exec_ap_settled by done.
  1, 2: rewrite Er. all: done.
Qed.

Lemma sequence_writes_exec i started sel addr vs buf t :
  0 <= addr < 256 -> Z.land addr 3 = 0 ->
  exec_steps v3 (sequence_writes i addr started vs) (ready (ap_select sel addr) buf t) =
  Some ([], ready (ap_select sel addr) buf (write_all (fst (Value sel)) addr vs t)).
Proof.
  intros Ha H3. revert started t. induction vs as [|v vs IH]; intros started t; [done|].
  unfold ready in *. cbn [sequence_writes exec_steps req step_data]. rewrite exec_ap_settled by done. cbn [mbind option_bind].
  by rewrite IH.
Qed.

Lemma appendAPWriteSequence_performs i o p buf t :
  kind o = txnWriteAPSequence -> 0 <= apAddr o < 256 -> Z.land (apAddr o) 3 = 0 ->
  p_selectDP p = mkSelect (ap_select (apSel o) (apAddr o)) true ->
  performs i o p (appendAPWriteSequence i o p) (ready (ap_select (apSel o) (apAddr o)) buf t).
Proof.
  intros Hk Ha H3 Hs. unfold performs, exec_op, appendAPWriteSequence. rewrite Hk. simpl.
  eexists. split; [|shelve]. eapply runs_emit.
  - eapply (exec_steps_app _ _ _ _ _ _ []); [by apply sequence_writes_exec|apply rdbuff_step].
  - split; [intros _; by rewrite Hs|done].
  Unshelve. done.
Qed.

(** The reads that continue a posted one; the last completes through RDBUFF. *)
Lemma sequential_reads_exec i o l v prev t :
  0 <= apAddr o < 256 -> Z.land (apAddr o) 3 = 0 ->
  Forall (fun o' => sameSequentialAP o o' = true) l ->
  exec_steps v3 (sequential_reads i l ++
      [mkStep (dpTransferRequest RDBUFF true) RDBUFF 0 (i - 1 + len l) true true true false false true false false false])
    (mkPhys (Some (ap_select (apSel o) (apAddr o))) true v prev t) =
  Some ((i - 1, v) :: fst (exec_ops dp i l (v, t)),
    ready (ap_select (apSel o) (apAddr o)) (fst (snd (exec_ops dp i l (v, t)))) (snd (snd (exec_ops dp i l (v, t))))).
Proof.
  intros Ha H3 Hl. revert i v prev t. induction Hl as [|o' l Ho Hl IH]; intros i v prev t.
  - cbn [sequential_reads app]. rewrite rdbuff_step. cbn. by rewrite Z.add_0_r.
  - unfold sameSequentialAP in Ho. apply andb_prop in Ho as [Ho Haddr]. apply andb_prop in Ho as [Hk Hsel].
    apply bool_decide_eq_true in Hk, Hsel. apply Z.eqb_eq in Haddr.
    cbn [sequential_reads app exec_steps req step_data].
    rewrite <- Haddr, exec_ap_settled by done.
    cbn [exec_ops]. unfold exec_op. rewrite Hk, <- Hsel, <- Haddr.
    destruct (ap_read (fst (Value (apSel o))) (apAddr o) t) as [v' t'] eqn:Er. cbn [mbind option_bind].
    replace (i - 1 + len (o' :: l)) with (i + 1 - 1 + len l) by (unfold len; simpl length; lia).
    rewrite IH. cbn [mbind option_bind deliver deliverValue op app].
    destruct (exec_ops dp (i + 1) l (v', t')) as [ds [b2 t2]] eqn:Ex.
    cbn [fst snd]. by replace (i + 1 - 1) with i by lia.
Qed.

(** *** Debug-port operations *)

(** The settled selection of a bank. *)
Lemma selectBank_runs i b p m :
  agrees p m -> 0 <= b < 16 ->
  exists v, Z.land v 0x0f = b /\
    runs v3 p (selectBank i b p) m [] (ready v (rdbuff m) (regs m)) /\
    p_selectDP (selectBank i b p) = mkSelect v true /\ p_selectPending (selectBank i b p) = false.
Proof.
  intros Ha Hb. unfold selectBank.
  exists (if valid (p_selectDP p) then Z.lor b (and_not (value (p_selectDP p)) 15) else b).
  split; [|by apply select_runs]. destruct (valid (p_selectDP p)); [by apply select_bank_value|].
  change 15 with (Z.ones 4). rewrite Z.land_ones by lia. apply Z.mod_small. lia.
Qed.

Lemma read_validated o :
  kind o = txnReadDP -> validateOp dp o = None ->
  exists info, validateDPRegister dp (dpReg o) false = (info, None) /\ swd_register v3 (dpReg o) false info.
Proof.
  intros Hk Hv. unfold validateOp in Hv. rewrite Hk in Hv.
  destruct (validateDPRegister dp (dpReg o) false) as [info e] eqn:Ev. exists info.
  assert (e = None) as ->.
  { destruct (bool_decide _); [done|]. by apply errors_Join_pair in Hv as [? _]. }
  split; [done|]. by apply validated_register.
Qed.

(** The planner of a debug-port read, register by register. *)
Lemma lowerDP_read i o p info :
  p_dp p = dp -> kind o = txnReadDP -> validateDPRegister dp (dpReg o) false = (info, None) ->
  lowerDP i o p =
  dp_selection false (dpReg o) (data o) (mkTR false true (offset info))
    (emit [mkStep (mkTR false true (offset info)) (dpReg o) (data o) i true true false false false false false false false]
      (if negb (bankIndependent info) then selectBank i (bank info) p else p)).
Proof.
  intros Hd Hk Hv. unfold lowerDP, txnDPRequest. rewrite Hd, Hk.
  change (bool_decide (txnReadDP = txnWriteDP)) with false. change (bool_decide (txnReadDP = txnReadDP)) with true.
  rewrite Hv. done.
Qed.

Lemma runs_select p l sel pend m ds m' :
  exec_steps v3 l m = Some (ds, m') -> agrees (set_select sel pend p) m' ->
  runs v3 p (set_select sel pend (emit l p)) m ds m'.
Proof. intros Hx Ha. split; [done|]. split; [exact Ha|]. by exists l. Qed.

Lemma runs_dp_read p reg d r l m ds m' :
  exec_steps v3 l m = Some (ds, m') -> agrees p m' -> (settlesSELECT r = true -> settled m' = true) ->
  runs v3 p (dp_selection false reg d r (emit l p)) m ds m'.
Proof.
  intros Hx Ha Hs. unfold dp_selection. cbn [andb]. destruct (p_selectPending (emit l p) && settlesSELECT r) eqn:E.
  - apply andb_prop in E as [_ E]. apply runs_select; [done|]. destruct Ha as (A & B & C). split; [exact A|]. auto.
  - by apply runs_emit.
Qed.

(** A request that reaches its bank through a settled selection. *)
Lemma exec_banked v buf t r d (b : Z) :
  AP r = false -> (Addr r = 4 \/ (Addr r = 0 /\ v3 = true /\ Read r = true)) -> Z.land v 0x0f = b ->
  exec_request v3 r d (ready v buf t) =
  if Read r then let '(x, t') := dp_read b (Addr r) t in Some (x, ready v buf t')
  else Some (0, ready v buf (dp_write b (Addr r) d t)).
Proof.
  intros Hap Ha Hb. unfold exec_request, exec_dp, reach, banked. rewrite Hap.
  destruct r as [ap rd a]. cbn in *. destruct Ha as [->|(-> & -> & ->)]; cbn; rewrite Hb; [destruct rd|]; cbn; try done; by destruct (dp_read _ _ _).
Qed.

Lemma lowerDP_read_performs i o p m :
  p_dp p = dp -> agrees p m -> kind o = txnReadDP -> validateOp dp o = None ->
  performs i o p (lowerDP i o p) m.
Proof.
  intros Hd Ha Hk Hv. destruct (read_validated o Hk Hv) as (info & Ev & Hc).
  unfold performs, exec_op. rewrite (lowerDP_read i o p info Hd Hk Ev), Hk, Ev. cbn [fst snd].
  remember (dpReg o) as reg eqn:Er. clear Er Ev. destruct m as [ms st buf prev t]. destruct (Ha) as (A1 & A2 & A3). cbn in A1, A2, A3. subst prev.
  inversion Hc as [i0 Ho Hi|i0 Ho Hi|i0 H3 Ho Hi|i0 Ho Hi|i0 Ho Hi|r0 w0 i0 Hi Hb Ho N1 N2 N3 N4]; subst; rewrite Hi; cbn [negb]; clear Hc.
  - exists (mkPhys ms true buf buf t). rewrite Ho. split; [|done]. apply runs_dp_read; [done| |done]. by split.
  - exists (mkPhys ms true buf buf t). rewrite Ho. split; [|done]. apply runs_dp_read; [done| |done]. by split.
  - rewrite Ho. cbn [rdbuff regs]. cbn. destruct (dp_read 0 0 t) as [x t'] eqn:Er.
    exists (mkPhys ms st buf buf t'). split; [|done]. apply runs_dp_read; [|by split|done].
    cbn. unfold reach, banked. rewrite H3. cbn. by rewrite Er.
  - destruct (selectBank_runs i (bank info) p _ Ha Hb) as (v & Ev & R & Hs & Hp). cbn [rdbuff regs] in *.
    destruct (Z.eqb_spec reg RDBUFF); [done|]. destruct (Z.eqb_spec reg RESEND); [done|]. cbn [orb].
    destruct (dp_read (bank info) (offset info) t) as [x t'] eqn:Er. exists (ready v buf t'). split; [|done].
    eapply (runs_trans _ _ _ _ _ _ _ []); [exact R|]. apply runs_dp_read; [|split; [by rewrite Hs|done]|done].
    cbn [exec_steps req step_data]. rewrite (exec_banked _ _ _ _ _ (bank info)); [|done|cbn; tauto|done].
    cbn [Read Addr]. by rewrite Er.
Qed.

Lemma write_validated o :
  kind o = txnWriteDP -> validateOp dp o = None ->
  exists info, validateDPRegister dp (dpReg o) true = (info, None) /\ swd_register v3 (dpReg o) true info.
Proof.
  intros Hk Hv. unfold validateOp in Hv. rewrite Hk in Hv.
  assert (snd (validateDPWrite dp (dpReg o) (data o)) = None) as Hw.
  { destruct (bool_decide _); [done|]. by apply errors_Join_pair in Hv as [? _]. }
  unfold validateDPWrite in Hw. destruct (validateDPRegister dp (dpReg o) true) as [info [e|]] eqn:Ev; [done|].
  exists info. split; [done|]. by apply validated_register.
Qed.

Lemma lowerDP_write i o p info :
  p_dp p = dp -> kind o = txnWriteDP -> validateDPRegister dp (dpReg o) true = (info, None) ->
  let inv := (dpReg o =? ABORT) && any_bits (data o) dapAbort in
  lowerDP i o p =
  dp_barrier i inv (dp_selection true (dpReg o) (data o) (mkTR false false (offset info))
    (emit [mkStep (mkTR false false (offset info)) (dpReg o) (data o) i false false false false false false false false inv]
      (if negb (bankIndependent info) then selectBank i (bank info) p else p))).
Proof.
  intros Hd Hk Hv. unfold lowerDP, txnDPRequest. rewrite Hd, Hk.
  change (bool_decide (txnWriteDP = txnReadDP)) with false. change (bool_decide (txnWriteDP = txnWriteDP)) with true.
  rewrite Hv. done.
Qed.

(** After a write the barrier settles whatever selection is left. *)
Lemma dp_barrier_runs i inv p p1 m sel t l d :
  p_dp p1 = p_dp p -> steps p1 = steps p ++ l ->
  (valid (p_selectDP p1) = true -> sel = Some (value (p_selectDP p1))) ->
  exec_steps v3 l m = Some ([], mkPhys sel d (rdbuff m) (rdbuff m) t) ->
  runs v3 p (dp_barrier i inv p1) m [(i, 0)] (mkPhys sel true (rdbuff m) (rdbuff m) t).
Proof.
  intros Hd Hl Hs Hx. split; [done|]. split; [by split|].
  eexists. split; [cbn [dp_barrier set_select emit steps]; by rewrite Hl, <- app_assoc|].
  eapply (exec_steps_app _ _ _ _ _ _ []); [exact Hx|]. done.
Qed.

Lemma lowerDP_write_performs i o p m :
  p_dp p = dp -> agrees p m -> kind o = txnWriteDP -> validateOp dp o = None ->
  performs i o p (lowerDP i o p) m.
Proof.
  intros Hd Ha Hk Hv. destruct (write_validated o Hk Hv) as (info & Ev & Hc).
  unfold performs, exec_op. rewrite (lowerDP_write i o p info Hd Hk Ev), Hk, Ev. cbn [fst snd].
  remember (dpReg o) as reg eqn:Er. clear Er Ev.
  destruct m as [ms st buf prev t]. destruct (Ha) as (A1 & A2 & A3). cbn in A1, A2, A3. subst prev.
  inversion Hc as [i0 Ho Hi|i0 Ho Hi|i0 H3 Ho Hi|i0 Ho Hi|i0 Ho Hi|r0 w0 i0 Hi Hb Ho N1 N2 N3 N4]; subst; rewrite Hi; cbn [negb]; clear Hc; rewrite ?Ho.
  - exists (mkPhys (if negb st then None else ms) true buf buf (dp_write 0 0 (data o) t)). split; [|done].
    unfold dp_selection, emit. cbn [andb Z.eqb ABORT SELECT Pos.eqb p_selectPending p_selectDP].
    assert (forall inv, exec_steps v3 [mkStep (mkTR false false 0) ABORT (data o) i false false false false false false false false inv]
      (mkPhys ms st buf buf t) = Some ([], mkPhys (if negb st then None else ms) st buf buf (dp_write 0 0 (data o) t))) as Hx.
    { intros inv. cbn. unfold reach, banked. cbn. by rewrite andb_false_r. }
    destruct (p_selectPending p) eqn:Ep; cbn [andb p_selectPending set_select]; rewrite ?Ep; cbn [andb]; (eapply dp_barrier_runs; [reflexivity|reflexivity| |apply Hx]); [done|].
    cbn. by rewrite (A2 eq_refl).
  - eexists. split; [|shelve]. unfold dp_selection. cbn [andb Z.eqb ABORT SELECT Pos.eqb emit set_select p_selectPending p_selectDP].
    eapply dp_barrier_runs; reflexivity.
    Unshelve. done.
  - destruct (selectBank_runs i (bank info) p _ Ha Hb) as (v & Ev & R & Hs & Hp). cbn [rdbuff regs] in *.
    destruct (Z.eqb_spec reg SELECT); [done|]. destruct (Z.eqb_spec reg ABORT); [done|]. cbn [andb].
    exists (ready v buf (dp_write (bank info) (offset info) (data o) t)). split; [|done].
    eapply (runs_trans _ _ _ _ _ _ _ []); [exact R|]. destruct Ho as [Ho|(_ & _ & ?)]; [|done].
    unfold dp_selection. destruct (Z.eqb_spec reg SELECT); [done|]. destruct (Z.eqb_spec reg ABORT); [done|].
    cbn [andb emit p_selectPending]. rewrite Hp. cbn [andb].
    eapply dp_barrier_runs; try reflexivity; [cbn; by rewrite Hs|].
    cbn [exec_steps req step_data]. rewrite (exec_banked _ _ _ _ _ (bank info)); [done|done|cbn; tauto|done].
Qed.

(** ** The plan *)

(** Access-port operations are planned only below DPv3. *)
Definition plannable (o : txnOp) : Prop :=
  validateOp dp o = None /\ op_wf o /\ (isAPOp o = true -> dpVersion dp <> 3).

Lemma plannable_addr o : plannable o -> isAPOp o = true -> 0 <= apAddr o < 256 /\ Z.land (apAddr o) 3 = 0.
Proof. intros (Hv & Hw & H3) Ha. by apply (valid_ap_addr dp); auto. Qed.

(** Selecting before performing. *)
Lemma select_performs i o p m p' :
  agrees p m ->
  performs i o (settleSELECT i (selectValue i (ap_select (apSel o) (apAddr o)) p)) p'
    (ready (ap_select (apSel o) (apAddr o)) (rdbuff m) (regs m)) ->
  performs i o p p' m.
Proof.
  intros Ha (m' & R & E). destruct (select_runs v3 i (ap_select (apSel o) (apAddr o)) p m Ha) as (R0 & _).
  exists m'. split; [|exact E]. exact (runs_trans _ _ _ _ _ _ _ _ _ R0 R).
Qed.

Lemma lower_performs i o p m :
  p_dp p = dp -> agrees p m -> plannable o -> kind o <> txnReadAPSequential -> performs i o p (lower i o p) m.
Proof.
  intros Hd Ha Ho Hk. pose proof (plannable_addr o Ho) as Haddr. unfold isAPOp in Haddr. unfold lower.
  destruct (kind o) eqn:Ek; try done.
  - by apply lowerDP_read_performs; [| | |apply Ho].
  - by apply lowerDP_write_performs; [| | |apply Ho].
  - destruct (Haddr eq_refl). apply select_performs; [done|]. apply appendAP_performs; [by rewrite Ek|done..|by apply select_runs with (m := m) (v3 := v3)].
  - destruct (Haddr eq_refl). apply select_performs; [done|]. apply appendAP_performs; [by rewrite Ek|done..|by apply select_runs with (m := m) (v3 := v3)].
  - destruct (Haddr eq_refl). apply select_performs; [done|]. apply appendAP_performs; [by rewrite Ek|done..|by apply select_runs with (m := m) (v3 := v3)].
  - destruct (Haddr eq_refl). apply select_performs; [done|]. apply appendAPWriteSequence_performs; [done..|by apply select_runs with (m := m) (v3 := v3)].
Qed.

Lemma exec_ops_app i l k (s : Logical T) :
  exec_ops dp i (l ++ k) s =
  (fst (exec_ops dp i l s) ++ fst (exec_ops dp (i + len l) k (snd (exec_ops dp i l s))),
   snd (exec_ops dp (i + len l) k (snd (exec_ops dp i l s)))).
Proof.
  revert i s. induction l as [|o l IH]; intros i s.
  - cbn [app exec_ops fst snd len length]. rewrite Z.add_0_r. by destruct (exec_ops dp i k s).
  - cbn [app exec_ops]. destruct (exec_op dp o s) as [v s1]. rewrite IH.
    replace (i + len (o :: l)) with (i + 1 + len l) by (unfold len; simpl length; lia).
    by destruct (exec_ops dp (i + 1) l s1) as [ds s2].
Qed.

Lemma sequential_run_all o l : Forall (fun o' => sameSequentialAP o o' = true) (take (sequential_run o l) l).
Proof.
  induction l as [|o' l IH]; simpl; [constructor|]. destruct (sameSequentialAP o o') eqn:E; simpl; constructor; auto.
Qed.

Lemma lowerSequentialAP_performs i o l p m :
  agrees p m -> kind o = txnReadAPSequential -> 0 <= apAddr o < 256 -> Z.land (apAddr o) 3 = 0 ->
  Forall (fun o' => sameSequentialAP o o' = true) l ->
  exists m', runs v3 p (lowerSequentialAP i o l p) m (fst (exec_ops dp i (o :: l) (rdbuff m, regs m))) m' /\
    (rdbuff m', regs m') = snd (exec_ops dp i (o :: l) (rdbuff m, regs m)).
Proof.
  intros Ha Hk Haddr H3 Hl.
  destruct (select_runs v3 i (ap_select (apSel o) (apAddr o)) p m Ha) as (R0 & Hs & Hp).
  cbn [exec_ops]. unfold exec_op. rewrite Hk.
  destruct (ap_read (fst (Value (apSel o))) (apAddr o) (regs m)) as [v t] eqn:Er.
  destruct (exec_ops dp (i + 1) l (v, t)) as [ds [b2 t2]] eqn:Ex.
  exists (ready (ap_select (apSel o) (apAddr o)) b2 t2). split; [|done].
  eapply (runs_trans _ _ _ _ _ _ _ []); [exact R0|]. apply runs_emit; [|split; [by rewrite Hs|done]].
  unfold ready. cbn [exec_steps req step_data]. rewrite exec_ap_settled, Er by done. cbn [mbind option_bind].
  replace (i + len l) with (i + 1 - 1 + len l) by lia. rewrite sequential_reads_exec by done.
  rewrite Ex. cbn. by replace (i + 1 - 1) with i by lia.
Qed.

Lemma plan_loop_runs fuel i ops p m :
  (length ops <= fuel)%nat -> p_dp p = dp -> agrees p m -> Forall plannable ops ->
  exists m', runs v3 p (plan_loop fuel i ops p) m (fst (exec_ops dp i ops (rdbuff m, regs m))) m' /\
    (rdbuff m', regs m') = snd (exec_ops dp i ops (rdbuff m, regs m)).
Proof.
  revert i ops p m. induction fuel as [|fuel IH]; intros i ops p m Hf Hd Ha Hall; destruct ops as [|o rest];
    try (exists m; split; [by apply runs_refl|done]); [simpl in Hf; lia|].
  apply Forall_cons in Hall as [Ho Hall]. cbn [plan_loop].
  destruct (decide (kind o = txnReadAPSequential)) as [Hk|Hk].
  - rewrite bool_decide_eq_true_2 by done. cbn [negb]. set (n := sequential_run o rest).
    destruct (plannable_addr o Ho) as [Haddr H3]; [unfold isAPOp; by rewrite Hk|].
    destruct (lowerSequentialAP_performs i o (take n rest) p m Ha Hk Haddr H3 (sequential_run_all o rest)) as (m1 & R1 & E1).
    destruct (IH (i + 1 + Z.of_nat n) (drop n rest) (lowerSequentialAP i o (take n rest) p) m1) as (m2 & R2 & E2).
    { rewrite length_drop. simpl in Hf. lia. } { by rewrite (proj1 R1). } { apply R1. } { by apply Forall_drop. }
    assert (n <= length rest)%nat as Hn.
    { subst n. clear. induction rest as [|o' l IH]; simpl; [lia|]. destruct (sameSequentialAP o o'); lia. }
    assert (o :: rest = (o :: take n rest) ++ drop n rest) as Eq by (cbn; by rewrite take_drop).
    rewrite Eq, exec_ops_app, <- E1. cbn [fst snd].
    replace (i + len (o :: take n rest)) with (i + 1 + Z.of_nat n) by (unfold len; simpl; rewrite length_take; lia).
    exists m2. split; [|exact E2]. exact (runs_trans _ _ _ _ _ _ _ _ _ R1 R2).
  - rewrite bool_decide_eq_false_2 by done. cbn [negb].
    destruct (lower_performs i o p m Hd Ha Ho Hk) as (m1 & R1 & E1).
    destruct (IH (i + 1) rest (lower i o p) m1) as (m2 & R2 & E2).
    { simpl in Hf. lia. } { by rewrite (proj1 R1). } { apply R1. } { done. }
    cbn [exec_ops]. rewrite E1 in R2, E2. destruct (exec_op dp o (rdbuff m, regs m)) as [v s1]. cbn [fst snd] in *.
    destruct (exec_ops dp (i + 1) rest s1) as [ds s2]. exists m2. split; [|exact E2].
    exact (runs_trans _ _ _ _ _ _ _ _ _ R1 R2).
Qed.
End Lowering.
