(* ===== verification/DapBlock.v ===== *)
(** * Sizes, lanes and block segments of a MEM-AP

    The pure parts of dap/memap.go, dap/memap_block.go and
    dap/memap_debugbase.go: transfer sizes and their encodings, the byte lane a
    sub-word value travels in, the checks on addresses, and the segments a block
    access is cut into. *)

From S2P Require Import Prelude Go Bits.
Local Open Scope Z_scope.

(** ** Transfer sizes (memap.go) *)

(** A [uint8]; the named values are the sizes. *)
Definition TransferSize := Z.
Definition Size8 : TransferSize := Z.shiftl 1 0.
Definition Size16 : TransferSize := Z.shiftl 1 1.
Definition Size32 : TransferSize := Z.shiftl 1 2.
Definition Size64 : TransferSize := Z.shiftl 1 3.

Definition sizeBytes (size : TransferSize) : Z * err :=
  if size =? Size8 then (1, None)
  else if size =? Size16 then (2, None)
  else if size =? Size32 then (4, None)
  else if size =? Size64 then (8, None)
  else (0, Some (New "dap: invalid MEM-AP transfer size %d")).

Definition transferSizeEncoding (size : TransferSize) : Z * err :=
  if size =? Size8 then (0, None)
  else if size =? Size16 then (1, None)
  else if size =? Size32 then (2, None)
  else if size =? Size64 then (3, None)
  else (0, Some (New "invalid transfer size %d")).

Definition sizeMask (size : TransferSize) : Z :=
  if size =? Size8 then 0xff
  else if size =? Size16 then 0xffff
  else if size =? Size32 then 0xffffffff
  else 2 ^ 64 - 1.

(** [m.laneShift]; [lane*8] as a [uint]. *)
Definition laneShift (bigEndian : bool) (addr : Z) (size : TransferSize) : Z :=
  let width := fst (sizeBytes size) in
  let lane := Z.land addr 3 in
  let lane := if bigEndian then 4 - width - lane else lane in
  uint64 (lane * 8).

(** Go shifts a [uint32] by any unsigned amount; large ones give zero. *)
Definition shl32 (v n : Z) : Z := uint32 (Z.shiftl v n).
Definition shr32 (v n : Z) : Z := Z.shiftr v n.

Definition validateScalarAccess (addr : Z) (size : TransferSize) (largeAddress : bool) : err :=
  match sizeBytes size with
  | (_, Some e) => Some e
  | (width, None) =>
      if any_bits addr (width - 1) then Some (New "dap: address %#x is not %d-byte aligned")
      else if 2 ^ 64 - 1 - addr <? width - 1 then Some (New "dap: address range at %#x overflows")
      else if negb largeAddress && (maxUint32 <? uint64 (addr + (width - 1)))
      then Some (New "dap: address range at %#x requires CFG.LA")
      else None
  end.

(** ** Blocks (memap_block.go) *)

Definition tarAutoIncrementWindow : Z := 0x400.
Definition blockReadChunkWords : Z := 64.
Definition blockWriteChunkWords : Z := 64.

Record blockSegment := mkSegment {
  seg_offset : Z;
  seg_address : Z;
  seg_size : TransferSize;
  seg_count : Z;
  autoIncrement : bool
}.

(** The variables [appendSegment] closes over. *)
Record cutting := mkCutting { segments : list blockSegment; cut_offset : Z; cut_addr : Z }.

Definition appendSegment (size : TransferSize) (count : Z) (auto : bool) (c : cutting) : cutting :=
  let step := fst (sizeBytes size) * count in
  mkCutting (segments c ++ [mkSegment (cut_offset c) (cut_addr c) size count auto])
    (cut_offset c + step) (uint64 (cut_addr c + uint64 step)).

(** One turn of the loops over single bytes and halfwords. *)
Definition edge_size (length : Z) (c : cutting) : TransferSize :=
  if (Z.land (cut_addr c) 1 =? 0) && (2 <=? length - cut_offset c) then Size16 else Size8.

(** Up to word alignment: at most three turns. *)
Fixpoint head_loop (fuel : nat) (length : Z) (c : cutting) : cutting :=
  match fuel with
  | O => c
  | S fuel =>
      if (cut_offset c <? length) && negb (Z.land (cut_addr c) 3 =? 0)
      then head_loop fuel length (appendSegment (edge_size length c) 1 false c)
      else c
  end.

(** Whole words, one auto-increment window at a time; [words] turns are enough. *)
Fixpoint word_loop (fuel : nat) (words : Z) (c : cutting) : cutting :=
  match fuel with
  | O => c
  | S fuel =>
      if 0 <? words then
        let windowWords := (tarAutoIncrementWindow - Z.land (cut_addr c) (tarAutoIncrementWindow - 1)) / 4 in
        let count := Z.min words windowWords in
        word_loop fuel (words - count) (appendSegment Size32 count true c)
      else c
  end.

(** What is left after the words: at most three turns. *)
Fixpoint tail_loop (fuel : nat) (length : Z) (c : cutting) : cutting :=
  match fuel with
  | O => c
  | S fuel =>
      if cut_offset c <? length
      then tail_loop fuel length (appendSegment (edge_size length c) 1 false c)
      else c
  end.

Definition blockSegments (addr length : Z) : list blockSegment :=
  if length <=? 0 then []
  else
    let c := head_loop 3 length (mkCutting [] 0 addr) in
    let words := (length - cut_offset c) / 4 in
    let c := word_loop (Z.to_nat words) words c in
    segments (tail_loop 3 length c).

Definition validateBlockRange (addr length : Z) (largeAddress : bool) : err :=
  if length <=? 0 then None
  else if 2 ^ 64 - 1 - addr <? length - 1 then Some (New "dap: address range at %#x overflows")
  else if negb largeAddress && (maxUint32 <? uint64 (addr + length - 1))
  then Some (New "dap: address range at %#x requires CFG.LA")
  else None.

(** [order.Uint16], [order.Uint32] and their inverses over the bytes of a word. *)
Definition order_value (bigEndian : bool) (l : list Z) : Z := le_value (if bigEndian then rev l else l).
Definition order_bytes (bigEndian : bool) (n : nat) (v : Z) : list Z :=
  if bigEndian then rev (le_bytes n v) else le_bytes n v.

(** The first [n] bytes of a buffer, or a panic. *)
Definition prefix (n : nat) (l : list Z) : option (list Z) :=
  if (n <=? length l)%nat then Some (take n l) else None.

Definition putBlockValue (bigEndian : bool) (dst : list Z) (size : TransferSize) (v : Z) : option (list Z) :=
  let put n v := if (n <=? length dst)%nat then Some (order_bytes bigEndian n v ++ drop n dst) else None in
  if size =? Size8 then put 1%nat (v mod 256)
  else if size =? Size16 then put 2%nat (uint16 v)
  else if size =? Size32 then put 4%nat (uint32 v)
  else Some dst.

Definition blockWriteValue (bigEndian : bool) (src : list Z) (addr : Z) (size : TransferSize) : option Z :=
  if size =? Size8 then b ← prefix 1 src; Some (shl32 (order_value bigEndian b) (laneShift bigEndian addr size))
  else if size =? Size16 then b ← prefix 2 src; Some (shl32 (order_value bigEndian b) (laneShift bigEndian addr size))
  else b ← prefix 4 src; Some (order_value bigEndian b).

(** The scalar [readScalar] returns from the data register. *)
Definition scalar_value (bigEndian : bool) (drw addr : Z) (size : TransferSize) : Z :=
  Z.land (shr32 drw (laneShift bigEndian addr size)) (sizeMask size).

(** ** The debug base (memap_debugbase.go) *)

Definition debugBasePresent (low : Z) (large : bool) : bool * err :=
  if (low =? 0xffffffff) && negb large then (false, None)
  else if Z.land low 2 =? 0 then
    if large || any_bits low 0xfff then (false, Some (New "dap: invalid legacy MEM-AP BASE")) else (true, None)
  else if any_bits low 0xffc then (false, Some (New "dap: reserved bits set in MEM-AP BASE"))
  else (any_bits low 1, None).
