(* ===== verification/DapBlockFacts.v ===== *)
(** * Block segments tile the range; lanes and byte orders are lossless *)

From S2P Require Import Prelude Go Bits DapBlock.
Local Open Scope Z_scope.

(** ** Segments *)

Definition seg_width (s : blockSegment) : Z := fst (sizeBytes (seg_size s)).

(** The segments follow one another from offset [off] to [stop], each at its
    place in the range that starts at [a]. *)
Fixpoint tiles (a off : Z) (l : list blockSegment) (stop : Z) : Prop :=
  match l with
  | [] => off = stop
  | s :: l => seg_offset s = off /\ seg_address s = a + off /\ tiles a (off + seg_width s * seg_count s) l stop
  end.

(** A segment is aligned to its size; a run of words stays inside one
    auto-increment window, and everything else is a single byte or halfword. *)
Definition seg_ok (s : blockSegment) : Prop :=
  1 <= seg_count s /\ (seg_width s | seg_address s) /\
  if autoIncrement s
  then seg_size s = Size32 /\
       seg_address s / tarAutoIncrementWindow = (seg_address s + 4 * seg_count s - 1) / tarAutoIncrementWindow
  else seg_count s = 1 /\ (seg_size s = Size8 \/ seg_size s = Size16).

Lemma tiles_snoc a off l stop s :
  tiles a off l stop -> seg_offset s = stop -> seg_address s = a + stop ->
  tiles a off (l ++ [s]) (stop + seg_width s * seg_count s).
Proof.
  revert off. induction l as [|x l IH]; intros off; simpl; [intros -> ? ?; auto|].
  intros (? & ? & ?) ? ?. auto.
Qed.

Section Cutting.
Context (a n : Z).
Hypothesis a_range : 0 <= a < 2 ^ 64.
Hypothesis n_fits : a + n <= 2 ^ 64.
Hypothesis n_int : n < 2 ^ 63.

Definition cut (c : cutting) : Prop :=
  0 <= cut_offset c <= n /\ cut_addr c = uint64 (a + cut_offset c) /\
  tiles a 0 (segments c) (cut_offset c) /\ Forall seg_ok (segments c).

Lemma cut_here c : cut c -> cut_offset c < n -> cut_addr c = a + cut_offset c.
Proof. intros (? & -> & _) ?. apply uint64_small. lia. Qed.

Lemma append_cut size count auto c :
  cut c -> cut_offset c < n -> 0 <= fst (sizeBytes size) * count <= n - cut_offset c ->
  seg_ok (mkSegment (cut_offset c) (cut_addr c) size count auto) ->
  cut (appendSegment size count auto c) /\
  cut_offset (appendSegment size count auto c) = cut_offset c + fst (sizeBytes size) * count.
Proof.
  intros Hc Hlt Hs Hok. pose proof (cut_here c Hc Hlt) as Ha. destruct Hc as (Ho & _ & Ht & Hall).
  split; [|done]. unfold appendSegment. split; [simpl; lia|]. simpl. split; [|split].
  - rewrite (uint64_small (fst (sizeBytes size) * count)) by lia. rewrite Ha. f_equal. lia.
  - exact (tiles_snoc a 0 (segments c) _ (mkSegment (cut_offset c) (cut_addr c) size count auto) Ht eq_refl Ha).
  - apply Forall_app. auto.
Qed.

Lemma byte_ok c : seg_ok (mkSegment (cut_offset c) (cut_addr c) Size8 1 false).
Proof. split; [simpl; lia|]. split; [|simpl; auto]. exists (cut_addr c). unfold seg_width. simpl. lia. Qed.

Lemma half_ok c : (2 | cut_addr c) -> seg_ok (mkSegment (cut_offset c) (cut_addr c) Size16 1 false).
Proof. intros Hd. split; [simpl; lia|]. split; [|simpl; auto]. exact Hd. Qed.

(** Edges advance by one or two bytes and never pass the end. *)
Lemma edge_cut c :
  cut c -> cut_offset c < n ->
  let c' := appendSegment (edge_size n c) 1 false c in
  let step := cut_offset c' - cut_offset c in
  cut c' /\
  (step = 1 /\ ((a + cut_offset c) mod 2 = 1 \/ n - cut_offset c < 2) \/ step = 2 /\ (a + cut_offset c) mod 2 = 0).
Proof.
  intros Hc Hlt. pose proof (cut_here c Hc Hlt) as Ha.
  assert (edge_size n c = if ((a + cut_offset c) mod 2 =? 0) && (2 <=? n - cut_offset c) then Size16 else Size8) as ->.
  { unfold edge_size. rewrite Ha. change (Z.land (a + cut_offset c) 1) with (Z.land (a + cut_offset c) (Z.ones 1)).
    by rewrite Z.land_ones by lia. }
  pose proof (Z.mod_pos_bound (a + cut_offset c) 2 ltac:(lia)) as Hm.
  destruct (Z.eqb_spec ((a + cut_offset c) mod 2) 0) as [E|E], (Z.leb_spec 2 (n - cut_offset c)); cbn [andb].
  { destruct (append_cut Size16 1 false c Hc Hlt) as [H3 H4]; [simpl; lia| |].
    { apply half_ok. rewrite Ha. by apply Z.mod_divide. }
    rewrite H4. split; [exact H3|]. right. simpl. lia. }
  all: destruct (append_cut Size8 1 false c Hc Hlt) as [H1 H2]; [simpl; lia|apply byte_ok|].
  all: rewrite H2; split; [exact H1|]; left; simpl; lia.
Qed.

(** Three turns reach a word boundary or the end. *)
Lemma head_cut c :
  cut c -> cut_offset c = 0 ->
  let c' := head_loop 3 n c in
  cut c' /\ (cut_offset c' = n \/ (a + cut_offset c') mod 4 = 0).
Proof.
  intros Hc H0. cut (forall k c, cut c -> (cut_offset c < n -> 4 - (a + cut_offset c) mod 4 <= Z.of_nat k \/ (a + cut_offset c) mod 4 = 0) ->
    cut (head_loop k n c) /\ (cut_offset (head_loop k n c) = n \/ (a + cut_offset (head_loop k n c)) mod 4 = 0)).
  { intros G. apply G; [done|]. intros _. pose proof (Z.mod_pos_bound (a + cut_offset c) 4). lia. }
  clear c Hc H0. induction k as [|k IH]; intros c Hc Hk; simpl.
  - split; [done|]. pose proof (Z.mod_pos_bound (a + cut_offset c) 4).
    destruct (Z.lt_ge_cases (cut_offset c) n) as [Hlt|]; [specialize (Hk Hlt); lia|]. left. destruct Hc as [? _]. lia.
  - destruct (Z.ltb_spec (cut_offset c) n) as [Hlt|]; cbn [andb]; [|split; [done|]; left; destruct Hc as [? _]; lia].
    rewrite (cut_here c Hc Hlt). change 3 with (Z.ones 2). rewrite Z.land_ones by lia. change (2 ^ 2) with 4.
    destruct (Z.eqb_spec ((a + cut_offset c) mod 4) 0) as [|Hne]; cbn [negb]; [auto|].
    destruct (edge_cut c Hc Hlt) as [Hc' Hstep]. apply IH; [done|]. intros Hlt'. specialize (Hk Hlt).
    set (o' := cut_offset (appendSegment (edge_size n c) 1 false c)) in *. clearbody o'.
    pose proof (Z.mod_pos_bound (a + cut_offset c) 4). Z.to_euclidean_division_equations. lia.
Qed.

(** Whole words, window by window. *)
Lemma word_cut k words c :
  cut c -> (a + cut_offset c) mod 4 = 0 -> 0 <= words <= Z.of_nat k -> 4 * words <= n - cut_offset c ->
  cut (word_loop k words c) /\ cut_offset (word_loop k words c) = cut_offset c + 4 * words.
Proof.
  revert words c. induction k as [|k IH]; intros words c Hc Ha Hw Hn; simpl; [split; [done|lia]|].
  destruct (Z.ltb_spec 0 words) as [Hpos|]; [|split; [done|lia]].
  assert (cut_offset c < n) as Hlt by lia. pose proof (cut_here c Hc Hlt) as Hca. rewrite Hca.
  unfold tarAutoIncrementWindow. change (0x400 - 1) with (Z.ones 10). rewrite Z.land_ones by lia. change (2 ^ 10) with 1024.
  set (w := (1024 - (a + cut_offset c) mod 1024) / 4).
  assert (1 <= w /\ 4 * w = 1024 - (a + cut_offset c) mod 1024) as [Hw1 Hw4].
  { subst w. Z.to_euclidean_division_equations. lia. }
  destruct (append_cut Size32 (Z.min words w) true c Hc Hlt) as [H1 H2]; [simpl; lia| |].
  { split; [simpl; lia|]. split; [unfold seg_width; simpl; rewrite Hca; by apply Z.mod_divide|]. simpl. split; [done|].
    rewrite Hca. unfold tarAutoIncrementWindow. clear -Hw1 Hw4 Hpos. Z.to_euclidean_division_equations. lia. }
  destruct (IH (words - Z.min words w) (appendSegment Size32 (Z.min words w) true c)) as [H3 H4]; try done.
  - rewrite H2. simpl fst. rewrite Z.add_assoc, Z.mul_comm. by rewrite Z.mod_add.
  - lia.
  - rewrite H2. simpl. lia.
  - split; [done|]. rewrite H4, H2. simpl. lia.
Qed.

(** Three turns finish the last bytes. *)
Lemma tail_cut k c :
  cut c -> n - cut_offset c <= Z.of_nat k -> cut (tail_loop k n c) /\ cut_offset (tail_loop k n c) = n.
Proof.
  revert c. induction k as [|k IH]; intros c Hc Hk; simpl.
  - split; [done|]. destruct Hc as [? _]. lia.
  - destruct (Z.ltb_spec (cut_offset c) n) as [Hlt|]; [|split; [done|]; destruct Hc as [? _]; lia].
    destruct (edge_cut c Hc Hlt) as [Hc' Hstep]. apply IH; [done|].
    set (o' := cut_offset (appendSegment (edge_size n c) 1 false c)) in *. clearbody o'. lia.
Qed.
End Cutting.

Lemma blockSegments_tile a n :
  0 <= a < 2 ^ 64 -> 0 < n < 2 ^ 63 -> a + n <= 2 ^ 64 ->
  tiles a 0 (blockSegments a n) n /\ Forall seg_ok (blockSegments a n).
Proof.
  intros Ha Hn Hfit. unfold blockSegments. destruct (Z.leb_spec n 0); [lia|].
  assert (cut a n (mkCutting [] 0 a)) as H0.
  { split; [simpl; lia|]. simpl. split; [rewrite Z.add_0_r, uint64_small; lia|]. split; [done|constructor]. }
  destruct (head_cut a n Ha Hfit ltac:(lia) _ H0 eq_refl) as [H1 Hal]. set (c := head_loop 3 n (mkCutting [] 0 a)) in *.
  assert (0 <= cut_offset c <= n) as Hr by apply H1.
  assert (cut a n (word_loop (Z.to_nat ((n - cut_offset c) / 4)) ((n - cut_offset c) / 4) c) /\
    cut_offset (word_loop (Z.to_nat ((n - cut_offset c) / 4)) ((n - cut_offset c) / 4) c) = cut_offset c + 4 * ((n - cut_offset c) / 4)) as [H2 H3].
  { destruct Hal as [E|Hal].
    - replace ((n - cut_offset c) / 4) with 0 by (rewrite E, Z.sub_diag; done). simpl. split; [done|lia].
    - apply word_cut; try done; try lia; Z.to_euclidean_division_equations; lia. }
  destruct (tail_cut a n Ha Hfit ltac:(lia) 3 _ H2) as [(_ & _ & Ht & Hok) E]; [rewrite H3; Z.to_euclidean_division_equations; lia|].
  by rewrite E in Ht.
Qed.

(** ** Lanes *)

(** The sizes that fit a word. *)
Definition lane_size (size : TransferSize) : Prop := size = Size8 \/ size = Size16 \/ size = Size32.

Definition width (size : TransferSize) : Z := fst (sizeBytes size).

Lemma laneShift_fits be addr size :
  lane_size size -> (width size | addr) ->
  0 <= laneShift be addr size /\ laneShift be addr size + 8 * width size <= 32.
Proof.
  intros Hs Hd. unfold laneShift.
  assert (0 <= Z.land addr 3 < 4 /\ (width size | Z.land addr 3)) as [Hl Hw].
  { change 3 with (Z.ones 2). rewrite Z.land_ones by lia. change (2 ^ 2) with 4.
    split; [apply Z.mod_pos_bound; lia|]. destruct Hs as [->|[->| ->]]; unfold width in *; simpl in *.
    - apply Z.divide_1_l.
    - apply Z.mod_divide in Hd; [|done]. apply Z.mod_divide; [done|]. Z.to_euclidean_division_equations. lia.
    - apply Z.mod_divide in Hd; [|done]. apply Z.mod_divide; [done|]. by rewrite Z.mod_mod. }
  destruct Hw as [q Hq].
  destruct Hs as [->|[->| ->]]; unfold width in *; simpl fst in *; destruct be; rewrite uint64_small; lia.
Qed.

(** A value placed in its lane comes back out of it. *)
Lemma lane_roundtrip be addr size v :
  lane_size size -> (width size | addr) -> 0 <= v <= sizeMask size ->
  let drw := shl32 v (laneShift be addr size) in
  0 <= drw < 2 ^ 32 /\ scalar_value be drw addr size = v.
Proof.
  intros Hs Hd Hv. destruct (laneShift_fits be addr size Hs Hd) as [H0 H1]. intros drw.
  assert (sizeMask size = 2 ^ (8 * width size) - 1) as Hm by (by destruct Hs as [->|[->| ->]]).
  assert (0 <= 8 * width size) as Hw by (destruct Hs as [->|[->| ->]]; unfold width; simpl; lia).
  assert (drw = v * 2 ^ laneShift be addr size) as Ed.
  { unfold drw, shl32. rewrite Z.shiftl_mul_pow2 by done. apply uint32_small. split; [apply Z.mul_nonneg_nonneg; lia|].
    assert (v * 2 ^ laneShift be addr size < 2 ^ (8 * width size) * 2 ^ laneShift be addr size) by (apply Z.mul_lt_mono_pos_r; [apply Z.pow_pos_nonneg|]; lia).
    rewrite <- Z.pow_add_r in H by lia.
    pose proof (Z.pow_le_mono_r 2 (8 * width size + laneShift be addr size) 32). lia. }
  split; [unfold drw, shl32; apply uint32_range|]. unfold scalar_value, shr32. rewrite Ed, Z.shiftr_div_pow2, Z.div_mul by (try apply Z.pow_nonzero; lia).
  rewrite Hm. change (2 ^ (8 * width size) - 1) with (Z.pred (2 ^ (8 * width size))). rewrite <- Z.ones_equiv, Z.land_ones by lia.
  apply Z.mod_small. lia.
Qed.

(** ** Byte order *)

Lemma order_roundtrip be l : bytes l -> order_bytes be (length l) (order_value be l) = l.
Proof.
  intros Hl. unfold order_bytes, order_value. destruct be; [|by apply le_bytes_value].
  rewrite <- (length_rev l), le_bytes_value; [by rewrite rev_involutive|]. by apply Forall_rev.
Qed.

Lemma order_value_range be l : bytes l -> 0 <= order_value be l < 2 ^ (8 * len l).
Proof.
  intros Hl. unfold order_value. destruct be; [|by apply le_value_range].
  replace (len l) with (len (rev l)) by (unfold len; by rewrite length_rev). apply le_value_range. by apply Forall_rev.
Qed.

Lemma blockWriteValue_spec be src addr size :
  lane_size size -> (width size | addr) -> bytes src -> width size <= len src ->
  blockWriteValue be src addr size =
  Some (shl32 (order_value be (take (Z.to_nat (width size)) src)) (laneShift be addr size)).
Proof.
  intros Hs Hd Hb Hl. unfold len in Hl.
  assert (prefix (Z.to_nat (width size)) src = Some (take (Z.to_nat (width size)) src)) as Hp.
  { unfold prefix. destruct (Nat.leb_spec (Z.to_nat (width size)) (length src)); [done|lia]. }
  destruct Hs as [->|[->| ->]]; unfold blockWriteValue.
  - change (prefix 1 src) with (prefix (Z.to_nat (width Size8)) src). by rewrite Hp.
  - change (prefix 2 src) with (prefix (Z.to_nat (width Size16)) src). by rewrite Hp.
  - change (prefix 4 src) with (prefix (Z.to_nat (width Size32)) src). rewrite Hp.
    change (Z.to_nat (width Size32)) with 4%nat in *. change (width Size32) with 4 in Hl. simpl. f_equal. symmetry.
    destruct (laneShift_fits be addr Size32) as [H0 H1]; [unfold lane_size; auto|exact Hd|].
    unfold width in H1. simpl in H1. replace (laneShift be addr Size32) with 0 by lia.
    unfold shl32. rewrite Z.shiftl_0_r. apply uint32_small.
    pose proof (order_value_range be (take 4 src) ltac:(by apply Forall_take)) as Hr.
    unfold len in Hr. rewrite length_take in Hr. replace (4 `min` length src)%nat with 4%nat in Hr by lia. exact Hr.
Qed.

Lemma putBlockValue_spec be dst size v :
  lane_size size -> width size <= len dst -> 0 <= v <= sizeMask size ->
  putBlockValue be dst size v = Some (order_bytes be (Z.to_nat (width size)) v ++ drop (Z.to_nat (width size)) dst).
Proof.
  intros Hs Hl Hv. unfold len in Hl.
  assert ((Z.to_nat (width size) <=? length dst)%nat = true) as Hn by (apply Nat.leb_le; lia).
  destruct Hs as [->|[->| ->]]; unfold putBlockValue.
  - rewrite (Z.mod_small v 256) by (change (sizeMask Size8) with 255 in Hv; lia).
    change 1%nat with (Z.to_nat (width Size8)). by rewrite Hn.
  - unfold uint16. rewrite (Z.mod_small v (2 ^ 16)) by (change (sizeMask Size16) with 65535 in Hv; lia).
    change 2%nat with (Z.to_nat (width Size16)). by rewrite Hn.
  - rewrite uint32_small by (change (sizeMask Size32) with 4294967295 in Hv; lia).
    change 4%nat with (Z.to_nat (width Size32)). by rewrite Hn.
Qed.

(** The bytes a block write puts on the bus are those a block read stores. *)
Lemma block_bytes_roundtrip be src dst addr size :
  lane_size size -> (width size | addr) -> bytes src -> width size <= len src -> width size <= len dst ->
  exists drw, blockWriteValue be src addr size = Some drw /\ 0 <= drw < 2 ^ 32 /\
    putBlockValue be dst size (scalar_value be drw addr size) =
    Some (take (Z.to_nat (width size)) src ++ drop (Z.to_nat (width size)) dst).
Proof.
  intros Hs Hd Hb Hls Hld. rewrite blockWriteValue_spec by done. eexists. split; [done|].
  set (w := Z.to_nat (width size)). assert (bytes (take w src)) as Ht by by apply Forall_take.
  assert (length (take w src) = w) as Hlen by (rewrite length_take; subst w; unfold len in Hls; lia).
  assert (0 <= order_value be (take w src) <= sizeMask size) as Hv.
  { pose proof (order_value_range be (take w src) Ht) as Hr. unfold len in Hr. rewrite Hlen in Hr.
    assert (2 ^ (8 * Z.of_nat w) = sizeMask size + 1) by (subst w; by destruct Hs as [->|[->| ->]]). lia. }
  destruct (lane_roundtrip be addr size _ Hs Hd Hv) as [Hr ->]. split; [exact Hr|].
  rewrite putBlockValue_spec by done. fold w. rewrite <- Hlen at 1. by rewrite order_roundtrip.
Qed.
