(* ===== verification/DapPort.v ===== *)
(** * The state of a debug port and the transports below it

    A debug port drives one of three transports: an SWD connection through
    batches of requests, a transport that completes registers by itself, or a
    JTAG chain.  Each is an interface here; the SWD connection and the chain are
    the components modelled in the Swd and Jtag files.  Everything sent is
    recorded in a trace. *)

From S2P Require Import Prelude Go JtagTap JtagConn JtagChain DapTypes DapErrors.
Local Open Scope Z_scope.

(** [swd.Conn]: [swd_Commit] queues the requests on a new batch, commits it, and
    reads every result ([Value] of a read, [Err] of a write). *)
Class SwdLink (W : Type) := {
  swd_Connect : context -> Z -> W -> (Z * err) * W;
  swd_Release : context -> W -> err * W;
  swd_CleanupPending : W -> bool;
  swd_Commit : context -> list (transferRequest * Z) -> W -> (list (Z * err) * err) * W
}.

(** dap.RegisterTransport *)
Class RegisterTransport (W : Type) := {
  reg_Connect : context -> W -> (Z * err) * W;
  reg_Release : context -> W -> err * W;
  reg_CleanupPending : W -> bool;
  reg_ReadDP : context -> Z -> W -> (Z * RegisterStatus * err) * W;
  reg_WriteDP : context -> Z -> Z -> W -> (RegisterStatus * err) * W;
  reg_ReadAP : context -> Z -> W -> (Z * RegisterStatus * err) * W;
  reg_WriteAP : context -> Z -> Z -> W -> (RegisterStatus * err) * W
}.

(** [jtag.Chain] and the TAP it lends. *)
Class ChainLink (W : Type) := {
  chain_Layout : W -> list TAPSpec;
  chain_Connect : context -> W -> err * W;
  chain_TAP : Z -> W -> TAP * err;
  chain_Release : context -> W -> err * W;
  chain_CleanupPending : W -> bool;
  tap_ScanIR : TAP -> context -> list Z -> W -> (list Z * err) * W;
  tap_ScanDR : TAP -> context -> list Z -> Z -> W -> (list Z * err) * W
}.

(** What was sent, and what came back. *)
Inductive event :=
| EConnect (e : err)
| ERelease (e : err)
| EBatch (l : list (transferRequest * Z)) (rs : list (Z * err)) (e : err)
| ERegister (r : transferRequest) (d : Z) (v : Z) (s : RegisterStatus) (e : err)
| EScanIR (instruction : list Z) (e : err)
| EScanDR (data : list Z) (bits : Z) (capture : list Z) (e : err).

(** [jtagExecutor] less its debug port and chain. *)
Record jtagExecutor := mkJtag {
  j_index : Z;
  j_ir : Z;
  j_tap : TAP;
  ownedOverrun : bool;
  abortRequired : bool;
  faultPending : bool
}.

Definition set_j_ir x j := mkJtag (j_index j) x (j_tap j) (ownedOverrun j) (abortRequired j) (faultPending j).
Definition set_j_tap x j := mkJtag (j_index j) (j_ir j) x (ownedOverrun j) (abortRequired j) (faultPending j).
Definition set_ownedOverrun x j := mkJtag (j_index j) (j_ir j) (j_tap j) x (abortRequired j) (faultPending j).
Definition set_abortRequired x j := mkJtag (j_index j) (j_ir j) (j_tap j) (ownedOverrun j) x (faultPending j).
Definition set_faultPending x j := mkJtag (j_index j) (j_ir j) (j_tap j) (ownedOverrun j) (abortRequired j) x.

Record PSt (W : Type) := mkPSt {
  port : DebugPort;
  recovering : bool;
  pendingRead : bool;
  jtag : jtagExecutor;
  trace : list event;
  world : W
}.
Arguments mkPSt {W}.
Arguments port {W}.
Arguments recovering {W}.
Arguments pendingRead {W}.
Arguments jtag {W}.
Arguments trace {W}.
Arguments world {W}.

Section State.
Context {W : Type}.
Abbreviation M := (GoM (PSt W)).

Definition set_port p (s : PSt W) := mkPSt p (recovering s) (pendingRead s) (jtag s) (trace s) (world s).
Definition set_recovering x (s : PSt W) := mkPSt (port s) x (pendingRead s) (jtag s) (trace s) (world s).
Definition set_pendingRead x (s : PSt W) := mkPSt (port s) (recovering s) x (jtag s) (trace s) (world s).
Definition set_jtag j (s : PSt W) := mkPSt (port s) (recovering s) (pendingRead s) j (trace s) (world s).

(** Reading and updating the port, its state and the JTAG executor. *)
Definition pget {A} (f : DebugPort -> A) : M A := gets (fun s => f (port s)).
Definition pmod (f : DebugPort -> DebugPort) : M unit := modify (fun s => set_port (f (port s)) s).
Definition sget {A} (f : debugPortState -> A) : M A := gets (fun s => f (state (port s))).
Definition smod (f : debugPortState -> debugPortState) : M unit :=
  modify (fun s => set_port (set_state (f (state (port s))) (port s)) s).
Definition jget {A} (f : jtagExecutor -> A) : M A := gets (fun s => f (jtag s)).
Definition jmod (f : jtagExecutor -> jtagExecutor) : M unit := modify (fun s => set_jtag (f (jtag s)) s).

(** A call of the transport, recorded. *)
Definition call {A} (f : W -> A * W) (ev : A -> list event) : M A := fun s =>
  let '(a, w) := f (world s) in
  Done (a, mkPSt (port s) (recovering s) (pendingRead s) (jtag s) (trace s ++ ev a) w).

Definition ask {A} (f : W -> A) : M A := gets (fun s => f (world s)).

(** [if err := m; err != nil { fail }; k] *)
Definition guard {A} (m : M err) (fail : error -> M A) (k : M A) : M A :=
  e ← m;
  match e with Some e => fail e | None => k end.

(** [return err] *)
Definition fail_err (e : error) : M err := mret (Some e).
Definition fail_val (e : error) : M (Z * err) := mret (0, Some e).

Context `{Env W}.

Definition ctxErr (ctx : context) : M err := fun s =>
  if ctx_nil ctx then Panicked
  else let '(e, w) := ctx_Err ctx (world s) in
  Done ((fun e => Sentinel (context_Err e)) <$> e,
        mkPSt (port s) (recovering s) (pendingRead s) (jtag s) (trace s) w).

(** errors.go; a context that has ended keeps its error, so it is asked once. *)
Definition callerError (ctx : context) (e : err) : M err :=
  if ctx_nil ctx then mret e
  else
    c ← ctxErr ctx;
    match c with
    | Some (Sentinel t) => if errors_Is e t then mret e else mret (errors_Join [e; c])
    | _ => mret e
    end.

Definition canceledWAITCause (ctx : context) (e : err) : M err :=
  if err_eqb e swd_ErrWait then mret e
  else
    e ← callerError ctx e;
    mret (if negb (isContextError e) then e else omitWAIT e).

(** [dp.cleanupContext()] *)
Definition cleanupContext : M context := t ← pget cleanupTimeout; mret (WithTimeout Background t).
End State.
