(* ===== verification/DapJtag.v ===== *)
(** * The JTAG-DP executor (dap/jtag_*.go)

    DPACC and APACC scans, polling without replay, the abort and fault repair
    that follow an unfinished access, and protocol entry and release. *)

From S2P Require Import Prelude Go Bits JtagTap JtagConn JtagChain DapTypes DapErrors DapPort.
Local Open Scope Z_scope.

Definition jtagSticky : Z := Z.lor (Z.lor stickyOverrun stickyCompare) stickyError.

Section Jtag.
Context {W : Type} `{Env W} `{ChainLink W}.
Abbreviation M := (GoM (PSt W)).

(** Turns of the polling loops; a WAIT limit or the context ends them. *)
Variable fuel : nat.

(** ** jtag_executor.go *)

Definition j_validate : M err :=
  layout ← ask chain_Layout;
  idx ← jget j_index;
  match Prelude.index layout idx with
  | None => mret (Some (New "dap: JTAG TAP index outside the expected chain"))
  | Some spec =>
      jmod (set_j_ir (IRBits spec));;
      if negb (IRBits spec =? 4) && negb (IRBits spec =? 8)
      then mret (Some (New "dap: JTAG-DP requires a four- or eight-bit instruction register"))
      else if Bypass_ (ResetRegister spec) then mret (Some (New "dap: JTAG-DP requires an explicit IDCODE"))
      else mret None
  end.

Definition j_scan (ctx : context) (instruction : Z) (data : list Z) (bits : Z) : M (list Z * err) :=
  ir ← jget j_ir;
  let instruction := if ir =? 8 then Z.lor instruction 0xf0 else instruction in
  tap ← jget j_tap;
  '(_, e) ← call (tap_ScanIR tap ctx [instruction]) (fun r => [EScanIR [instruction] (snd r)]);
  match e with
  | Some e => smod loseFraming;; mret ([], Some e)
  | None =>
      '(capture, e) ← call (tap_ScanDR tap ctx data bits) (fun r => [EScanDR data bits (fst r) (snd r)]);
      (if negb (is_nil e) then smod loseFraming else mret tt);;
      mret (capture, e)
  end.

(** The 35 bits of an access: data, address and direction. *)
Definition frame_value (r : transferRequest) (d : Z) : Z :=
  let v := Z.lor (uint64 (Z.shiftl d 3)) (Z.shiftl (Z.shiftr (Addr r) 2) 1) in
  if Read r then Z.lor v 1 else v.

(** The captured bytes over the first bytes of the frame that was sent. *)
Definition captured (frame capture : list Z) : Z :=
  le_value (take (length frame) capture ++ drop (length capture) frame).

Definition j_exchange (ctx : context) (r : transferRequest) (d : Z) : M (Z * Z * err) :=
  let instruction := if AP r then 0xb else 0xa in
  let frame := le_bytes 8 (frame_value r d) in
  '(capture, e) ← j_scan ctx instruction (take 5 frame) 35;
  match e with
  | Some e => mret (0, 0, Some e)
  | None =>
      let v := captured frame capture in
      mret (uint32 (Z.shiftr v 3), Z.land v 7, None)
  end.

Fixpoint poll_loop (n : nat) (waits : Z) (ctx : context) (next : transferRequest) (d : Z) : M (Z * err) :=
  match n with
  | O => out_of_fuel
  | S n =>
      guard (ctxErr ctx) fail_val (
      '(v, ack, e) ← j_exchange ctx next d;
      match e with
      | Some e => mret (0, Some e)
      | None =>
          if ack =? 2 then mret (v, None)
          else if ack =? 1 then
            let waits := waits + 1 in
            guard (ctxErr ctx) fail_val (
            limit ← pget maxWaits;
            if negb (limit =? 0) && (limit <=? waits) then mret (0, Some (Sentinel dap_ErrWait))
            else poll_loop n waits ctx next d)
          else
            smod loseFraming;;
            mret (0, Some (wrapf "dap: JTAG acknowledgement: %w" (Sentinel dap_ErrProtocol)))
      end)
  end.

Definition poll := poll_loop fuel 0.

Definition lost_or (outcome : transferOutcome) : M transferOutcome :=
  r ← sget response;
  mret (if bool_decide (r = responseLost) then transferIndeterminate else outcome).

Definition j_transfer (ctx : context) (r : transferRequest) (d : Z) : M transferResult :=
  guard (ctxErr ctx) (fun e => mret (mkTransfer 0 (Some e) transferUnsent)) (
  '(_, e) ← poll ctx r d;
  match e with
  | Some e => o ← lost_or transferUnsent; mret (mkTransfer 0 (Some e) o)
  | None =>
      '(v, e) ← poll ctx (dpTransferRequest RDBUFF true) 0;
      match e with
      | Some e => o ← lost_or transferInFlight; mret (mkTransfer 0 (Some e) o)
      | None => mret (mkTransfer v None transferConfirmed)
      end
  end).

Definition j_abort (ctx : context) : M err :=
  '(_, e) ← j_scan ctx 8 [8; 0; 0; 0; 0] 35; mret e.

Definition prime (ctx : context) : M err :=
  '(_, e) ← poll ctx (dpTransferRequest RDBUFF true) 0;
  match e with
  | Some e => mret (Some e)
  | None => '(_, e) ← poll ctx (dpTransferRequest RDBUFF true) 0; mret e
  end.

Definition abortPending (ctx : context) : M err :=
  required ← jget abortRequired;
  if negb required then mret None
  else guard (j_abort ctx) fail_err (jmod (set_abortRequired false);; mret None).

Definition j_idcode (ctx : context) : M (Z * err) :=
  '(capture, e) ← j_scan ctx 0xe (make_bytes 4) 32;
  match e with
  | Some e => mret (0, Some e)
  | None =>
      b ← lift (if (4 <=? length capture)%nat then Some (take 4 capture) else None);
      mret (le_value b, None)
  end.

(** ** jtag_registers.go *)

Definition j_readDP (ctx : context) (reg : DPRegister) : M (Z * err) :=
  if reg =? DapTypes.IDCODE then j_idcode ctx
  else r ← j_transfer ctx (dpTransferRequest reg true) 0; mret (r_data r, jtagResultError r).

Definition j_writeDP (ctx : context) (reg : DPRegister) (v : Z) : M err :=
  guard (ctxErr ctx) fail_err (
  if reg =? ABORT then
    smod invalidateAP;; jmod (set_abortRequired true);;
    guard (abortPending ctx) fail_err (prime ctx)
  else
    r ← j_transfer ctx (dpTransferRequest reg false) v;
    match jtagResultError r with
    | Some e =>
        (if bool_decide (r_outcome r = transferInFlight) || bool_decide (r_outcome r = transferIndeterminate)
         then smod loseFraming else mret tt);;
        mret (Some e)
    | None =>
        (if reg =? SELECT then smod (fun s => confirmSELECT (recordSELECT v s)) else mret tt);;
        mret None
    end).

(** ** jtag_fault.go *)

Definition clearFault (ctx : context) (st : Z) : M err :=
  jmod (set_faultPending true);;
  guard (j_writeDP ctx CTRLSTAT st) (fun e => smod beginRepair;; mret (Some e)) (
  '(st, e) ← j_readDP ctx CTRLSTAT;
  if negb (is_nil e) || any_bits st jtagSticky then
    smod beginRepair;;
    mret (errors_Join [e; Some (New "dap: JTAG sticky state remains unconfirmed")])
  else jmod (set_faultPending false);; mret None).

Definition repairFault (ctx : context) : M err :=
  pending ← jget faultPending;
  if negb pending then mret None
  else
    '(st, e) ← j_readDP ctx CTRLSTAT;
    match e with
    | Some e => mret (Some e)
    | None => clearFault ctx st
    end.

(** ** jtag_lifecycle.go *)

Definition configure (ctx : context) : M (Z * err) :=
  '(st, e) ← j_readDP ctx CTRLSTAT;
  match e with
  | Some e => mret (0, Some e)
  | None =>
      if any_bits st transactionModes then mret (0, Some (New "dap: inherited JTAG transaction modes are active"))
      else
        jmod (set_ownedOverrun (any_bits st overrunDetect));;
        jmod (set_faultPending true);;
        guard (j_writeDP ctx CTRLSTAT (Z.lor (and_not st overrunDetect) jtagSticky)) fail_val (
        '(st, e) ← j_readDP ctx CTRLSTAT;
        match e with
        | Some e => mret (0, Some e)
        | None =>
            if any_bits st (Z.lor (Z.lor overrunDetect jtagSticky) transactionModes)
            then mret (0, Some (New "dap: JTAG-DP still has sticky status, ORUNDETECT, or transaction modes set"))
            else jmod (set_faultPending false);; mret (st, None)
        end)
  end.

Definition primeEntry (ctx : context) : M err :=
  e ← prime ctx;
  match e with
  | None => mret None
  | Some _ =>
      jmod (set_abortRequired true);;
      smod invalidateAP;;
      if negb (errors_Is e dap_ErrWait) then mret e
      else
        a ← abortPending ctx;
        match a with
        | Some _ => mret (errors_Join [e; a])
        | None =>
            r ← prime ctx;
            match r with
            | Some _ => jmod (set_abortRequired true);; mret (errors_Join [e; r])
            | None => mret None
            end
        end
  end.

(** [e.dp.state.loseFraming(); return err] *)
Definition lose (e : error) : M err := smod loseFraming;; mret (Some e).

Definition enter (ctx : context) : M err :=
  smod beginProtocolEntry;;
  guard (call (chain_Connect ctx) (fun e => [EConnect e])) lose (
  idx ← jget j_index;
  '(tap, e) ← ask (chain_TAP idx);
  match e with
  | Some e => lose e
  | None =>
      jmod (set_j_tap tap);;
      '(id, e) ← j_idcode ctx;
      match e with
      | Some e => mret (Some e)
      | None =>
          layout ← ask chain_Layout;
          spec ← lift (Prelude.index layout idx);
          let expected := JtagConn.IDCODE_ (ResetRegister spec) in
          known ← pget reentryKnown;
          prior ← pget (fun dp => idcode (reentryID dp));
          if negb (id =? expected) || (known && negb (id =? prior))
          then lose (New "dap: JTAG-DP IDCODE changed")
          else
            pmod (set_reentry (mkIdentity noDPIDR id) true);;
            guard (abortPending ctx) fail_err (
            guard (primeEntry ctx) lose (
            guard (j_writeDP ctx SELECT 0) lose (
            smod (set_response responseSimple);; mret None)))
      end
  end).

Definition j_release (ctx : context) : M err :=
  guard (repairFault ctx) fail_err (
  owned ← jget ownedOverrun;
  guard (if negb owned then mret None
         else
           '(st, e) ← j_readDP ctx CTRLSTAT;
           match e with
           | Some e => mret (Some e)
           | None =>
               guard (j_writeDP ctx CTRLSTAT (Z.lor (and_not st jtagSticky) overrunDetect)) fail_err (
               '(st, e) ← j_readDP ctx CTRLSTAT;
               match e with
               | Some e => mret (Some e)
               | None =>
                   if Z.land st overrunDetect =? 0
                   then mret (Some (New "dap: JTAG ORUNDETECT restoration was not accepted"))
                   else jmod (set_ownedOverrun false);; mret None
               end)
           end) fail_err (
  e ← call (chain_Release ctx) (fun e => [ERelease e]);
  match e with
  | None => mret None
  | Some e =>
      pending ← ask chain_CleanupPending;
      if negb pending && isContextError (Some e) then mret None else lose e
  end)).

(** ** jtag_ap.go *)

Definition abortAP : M err :=
  smod invalidateAP;;
  jmod (set_abortRequired true);;
  jmod (set_faultPending true);;
  ctx ← cleanupContext;
  known ← sget responseKnown;
  e ← (if negb known then enter ctx else guard (abortPending ctx) fail_err (prime ctx));
  e ← (match e with None => repairFault ctx | Some e => mret (Some e) end);
  match e with
  | Some e => smod loseFraming;; mret (Some (wrapf "dap: abort pending JTAG AP operation: %w" e))
  | None => mret None
  end.

Definition accessAP (ctx : context) (r : transferRequest) (d : Z) : M transferResult :=
  guard (repairFault ctx) (fun e => mret (mkTransfer 0 (Some e) transferUnsent)) (
  res ← j_transfer ctx r d;
  match r_cause res with
  | Some _ =>
      if bool_decide (r_outcome res = transferInFlight) || bool_decide (r_outcome res = transferIndeterminate)
      then a ← abortAP; mret (mkTransfer (r_data res) (errors_Join [r_cause res; a]) (r_outcome res))
      else mret res
  | None =>
      '(st, e) ← j_readDP ctx CTRLSTAT;
      match e with
      | Some e =>
          a ← abortAP;
          mret (mkTransfer (r_data res) (errors_Join [Some e; a]) transferIndeterminate)
      | None =>
          if any_bits st jtagSticky then
            let outcome := if negb (Read r) then transferIndeterminate else r_outcome res in
            cctx ← cleanupContext;
            c ← clearFault cctx st;
            mret (mkTransfer (r_data res) (errors_Join [Some (FaultError (mkFault st true false) None); c]) outcome)
          else mret res
      end
  end).
End Jtag.
