(* ===== verification/DapSwd.v ===== *)
(** * Requests and registers of a debug port

    dap/wait.go, dap/swddp.go, dap/register_executor.go and the exchange of
    dap/swd_executor.go: one physical request, WAIT and FAULT recovery around it,
    and the logical registers above.

    Recovery from WAIT re-enters the protocol, which reads registers again.  The
    code cuts that recursion with its [recovering] flag: requests made during
    recovery return instead of recovering.  Here the functions take the recovery
    [abortWait] as a parameter; the end of the file ties the knot. *)

From S2P Require Import Prelude Go JtagTap JtagConn JtagChain DapTypes DapErrors DapPort DapJtag.
Local Open Scope Z_scope.

Definition errFramingUnknown : error := New "dap: protocol framing is unknown".

(** [dp.recordDPRead] and its counterparts for writes, on the port. *)
Definition recordDPRead (reg : DPRegister) (v : Z) (s : debugPortState) : debugPortState :=
  let s := if negb (reg =? DPIDR) && negb (reg =? CTRLSTAT) then settleDPWrite s else s in
  if (reg =? CTRLSTAT) && valid (selectDP s) && (dpBank s =? 0) then confirmResponse v s else s.

Definition recordDPWriteState (completed : bool) (reg : DPRegister) (v : Z) (s : debugPortState) : debugPortState :=
  let s := beginDPWrite s in
  let s := if reg =? SELECT then recordSELECT v s else s in
  if completed then settleDPWrite (confirmSELECT s) else s.

Definition recordDPWrite (completed : bool) (reg : DPRegister) (v : Z) (s : debugPortState) : debugPortState :=
  let s := recordDPWriteState completed reg v s in
  if (reg =? ABORT) && any_bits v dapAbort then invalidateAP s else s.

(** [dp.repairPendingError], [requireConnected] and [requireOperational] *)
Definition repairPendingError (dp : DebugPort) : error :=
  let e := New "dap: debug-port cleanup is pending" in
  if bool_decide (response (state dp) = responseLost) then Join [e; errFramingUnknown] else e.

Definition requireConnected (dp : DebugPort) (ctx : context) : err :=
  if ctx_nil ctx then Some (New "dap: nil context")
  else if negb (bound dp) || bool_decide (session (state dp) = sessionIdle)
  then Some (New "dap: debug port is not connected")
  else if bool_decide (session (state dp) = sessionRepairRequired) then Some (repairPendingError dp)
  else None.

Definition requireOperational (dp : DebugPort) (ctx : context) : err :=
  if ctx_nil ctx then Some (New "dap: nil context")
  else if negb (bound dp) then Some (New "dap: invalid port binding")
  else if bool_decide (session (state dp) = sessionRepairRequired) then Some (repairPendingError dp)
  else if negb (bool_decide (session (state dp) = sessionConnected)) then Some (New "dap: debug port is not connected")
  else None.

(** [e.waitForbidden] and [e.faultIdentityMinimal] *)
Definition waitForbidden (s : debugPortState) (r : transferRequest) : bool :=
  if AP r then false
  else (Read r && ((Addr r =? dpRegisterOffset DPIDR) ||
                   ((Addr r =? dpRegisterOffset CTRLSTAT) && valid (selectDP s) && (dpBank s =? 0)))) ||
       (negb (Read r) && (Addr r =? dpRegisterOffset ABORT)).

Definition faultIdentityMinimal (dp : DebugPort) (st : Z) : bool :=
  if reentryKnown dp then Minimal (dpidr (reentryID dp))
  else if identified dp then Minimal (dpidr (identity dp))
  else Z.land st stickyCompare =? 0.

(** [e.resolveSELECT] *)
Definition resolveSELECTAfterABORT (e : err) (s : debugPortState) : debugPortState :=
  if is_nil e then invalidateSELECT s else s.

Definition resolveSELECT (r : transferRequest) (v : Z) (e : err) (s : debugPortState) : debugPortState :=
  if negb (selectPending s) then s
  else if errors_Is e swd_ErrWait then
    if bool_decide (response s = responseOverrun) then loseFraming s else s
  else if isABORTWrite r then resolveSELECTAfterABORT e s
  else if isDPIDRRead r then s
  else if isCTRLSTATRead r && valid (selectDP s) && (dpBank s =? 0) then
    if is_nil e then resolveSELECTFromCTRLSTAT v s else s
  else if is_nil e || err_eqb e swd_ErrParity then confirmSELECT s
  else s.

Section Requests.
Context {W : Type} `{Env W} `{SwdLink W} `{RegisterTransport W} `{ChainLink W}.
Abbreviation M := (GoM (PSt W)).
Variable fuel : nat.

(** ** One request *)

Definition registerOperation (ctx : context) (r : transferRequest) (d : Z) : M (Z * RegisterStatus * err) :=
  let ev x := [ERegister r d (fst (fst x)) (snd (fst x)) (snd x)] in
  let completed (f : W -> (RegisterStatus * err) * W) w := let '((st, e), w) := f w in ((0, st, e), w) in
  if AP r && Read r then call (reg_ReadAP ctx (Addr r)) ev
  else if Read r then call (reg_ReadDP ctx (Addr r)) ev
  else if AP r then call (completed (reg_WriteAP ctx (Addr r) d)) ev
  else call (completed (reg_WriteDP ctx (Addr r) d)) ev.

Definition registerExchange (ctx : context) (r : transferRequest) (d : Z) : M transferResult :=
  guard (ctxErr ctx) (fun e => mret (mkTransfer 0 (Some e) transferUnsent)) (
  '(v, status, e) ← registerOperation ctx r d;
  let e := classifyPortError e in
  let '(outcome, e) :=
    if status =? RegisterCompleted then (transferConfirmed, e)
    else if status =? RegisterUnsent then (transferUnsent, e)
    else if status =? RegisterRejected then (transferRejected, e)
    else if status =? RegisterIndeterminate then (transferIndeterminate, e)
    else (transferIndeterminate, errors_Join [e; Some (Sentinel dap_ErrProtocol); Some (New "dap: invalid register status")]) in
  mret (if negb (registerStatusConsistent status e)
        then mkTransfer v (errors_Join [e; Some (Sentinel dap_ErrProtocol); Some (New "dap: contradictory register status")]) transferIndeterminate
        else mkTransfer v e outcome)).

(** What reading a result gives before a commit resolved it. *)
Definition pendingResult : Z * err := (0, Some (Sentinel swd_ErrResultPending)).

(** The requests of one batch, committed. *)
Definition commitBatch (ctx : context) (l : list (transferRequest * Z)) : M (list (Z * err) * err) :=
  call (swd_Commit ctx l) (fun r => [EBatch l (fst r) (snd r)]).

Definition exchange (ctx : context) (r : transferRequest) (d : Z) : M (Z * err) :=
  reg ← pget is_register;
  if reg : bool then res ← registerExchange ctx r d; mret (r_data res, r_cause res)
  else
    '(rs, commitErr) ← commitBatch ctx [(r, d)];
    let '(v, e) := default pendingResult (head rs) in
    mret (if Read r then v else 0, if errors_Is e swd_ErrNotExecuted then errors_Join [e; commitErr] else e).

Definition transferOnce := exchange.

(** ** FAULT *)

(** Ends a fault's recovery with [msg] wrapped around [e]. *)
Definition faultLost (fault : error) (msg : string) (e : error) : M err :=
  smod loseFraming;; mret (errors_Join [Some fault; Some (wrapf msg e)]).

Definition clearFaultState (ctx : context) (fault : faultState) (minimal apWork : bool) : M err :=
  let f := FaultError fault (Some (Sentinel swd_ErrFault)) in
  let clear := stickyClearForState (fault_CTRLSTAT fault) minimal in
  '(_, e) ← transferOnce ctx (dpTransferRequest ABORT false) clear;
  match e with
  | Some e => faultLost f "dap: clear sticky state after FAULT: %w" e
  | None =>
      '(st, e) ← transferOnce ctx (dpTransferRequest CTRLSTAT true) 0;
      match e with
      | Some e => faultLost f "dap: verify sticky state after FAULT: %w" e
      | None =>
          if any_bits st (supportedStickyState minimal) then
            (if apWork then smod invalidateAP else mret tt);;
            smod beginRepair;;
            mret (errors_Join [Some f; Some (New "dap: sticky state remains after FAULT cleanup")])
          else mret None
      end
  end.

Definition handleFault (r : transferRequest) (apWork preserve : bool) : M error :=
  let bare := FaultError (mkFault 0 false false) (Some (Sentinel swd_ErrFault)) in
  known ← sget responseKnown;
  zero ← sget faultBankZero;
  if negb known || negb zero then
    smod loseFraming;;
    mret (Join [bare; New "dap: cannot read CTRL/STAT after FAULT without a known response grammar and bank-zero selection"])
  else
    ctx ← cleanupContext;
    '(st, e) ← transferOnce ctx (dpTransferRequest CTRLSTAT true) 0;
    match e with
    | Some e =>
        smod loseFraming;;
        mret (Join [bare; wrapf "dap: read CTRL/STAT after FAULT: %w" e])
    | None =>
        let affected := faultMayAffectAP r apWork st in
        smod settleDPWrite;;
        smod (resolveSELECTFromCTRLSTAT st);;
        minimal ← pget (fun dp => faultIdentityMinimal dp st);
        e ← (if negb (stickyClearForState st minimal =? 0)
             then clearFaultState ctx (mkFault st true false) minimal affected else mret None);
        match e with
        | Some e => mret e
        | None =>
            let fault := FaultError (mkFault st true true) (Some (Sentinel swd_ErrFault)) in
            (if affected && (negb preserve || negb (ordinaryFaultCleared (Some fault)))
             then smod invalidateAP else mret tt);;
            mret fault
        end
    end.

(** ** WAIT *)

Definition invalidateTransfer (cause : error) : M error :=
  smod loseFraming;; mret (wrapf "dap: SWD framing is unknown after transfer failure: %w" cause).

Definition invalidateWait (cause : error) : M error :=
  smod loseFraming;; mret (wrapf "dap: AP state is unknown after incomplete WAIT recovery: %w" cause).

Definition validateWait (r : transferRequest) (e : error) : M err :=
  forbidden ← sget (fun s => waitForbidden s r);
  if forbidden : bool then
    let cause := wrapf "dap: non-stallable request returned WAIT: %w" e in
    if negb (err_eqb (Some e) swd_ErrWait) then e ← invalidateWait cause; mret (Some e) else mret (Some cause)
  else if err_eqb (Some e) swd_ErrWait then
    known ← sget responseKnown;
    if known : bool then mret None
    else e ← invalidateWait (wrapf "dap: cannot retry WAIT with unknown response framing: %w" e); mret (Some e)
  else e ← invalidateWait (wrapf "dap: complete WAIT response: %w" e); mret (Some e).

Definition lostPostedRead (ctx : context) : M error :=
  c ← ctxErr ctx;
  let cause := match c with None => Sentinel swd_ErrWait | Some c => c end in
  mret (Join [cause; Sentinel dap_ErrIndeterminate; New "dap: WAIT recovery discarded a posted AP read result"]).

Section Recovery.
(** Recovery after a WAIT that will not be retried; returns the cause. *)
Variable abortWait : error -> M error.

Definition finishWait (cause : error) : M error := abortWait (Wrap rejectedRequestError cause).

Definition stopWaiting (waits : Z) (cause : error) : M error :=
  if waits =? 0 then mret (Wrap requestNotSentError cause) else finishWait cause.

Definition stopAfterWAIT (ctx : context) (waits : Z) : M err :=
  guard (ctxErr ctx) (fun e => e ← stopWaiting waits e; mret (Some e)) (
  limit ← pget maxWaits;
  if negb (limit =? 0) && (limit <=? waits) then e ← finishWait (Sentinel swd_ErrWait); mret (Some e)
  else mret None).

Definition prepareWaitRetry (ctx : context) (r : transferRequest) (e : error) (waits : Z) : M err :=
  cause ← canceledWAITCause ctx (Some e);
  cause ← lift cause;
  posted ← gets pendingRead;
  v ← validateWait r cause;
  match v with
  | Some e => mret (if posted : bool then errors_Join [Some e; Some (Sentinel dap_ErrIndeterminate)] else Some e)
  | None =>
      overrun ← sget (fun s => bool_decide (response s = responseOverrun));
      if (posted && overrun)%bool then smod invalidateAP;; e ← lostPostedRead ctx; mret (Some e)
      else stopAfterWAIT ctx waits
  end.

Definition finishRetryError (r : transferRequest) (v : Z) (e : error) (waits : Z) (apWork : bool) : M (Z * err) :=
  if err_eqb (Some e) swd_ErrFault then f ← handleFault r apWork false; mret (0, Some f)
  else if err_eqb (Some e) swd_ErrParity then mret (v, Some e)
  else if waits =? 0 then e ← invalidateTransfer e; mret (0, Some e)
  else
    let cause := wrapf "dap: WAIT retry failed: %w" e in
    e ← invalidateWait (if isContextError (Some e) then cause else Join [Sentinel swd_ErrWait; cause]);
    mret (0, Some e).

Fixpoint transfer_loop (n : nat) (waits : Z) (ctx : context) (r : transferRequest) (d : Z) (apWork settlePrevious : bool) : M (Z * err) :=
  match n with
  | O => out_of_fuel
  | S n =>
      guard (ctxErr ctx) (fun e => e ← stopWaiting waits e; mret (0, Some e)) (
      '(v, e) ← transferOnce ctx r d;
      smod (resolveSELECT r v e);;
      (if settlePrevious && responseSettlesPreviousDPWrite r e then smod settleDPWrite else mret tt);;
      match e with
      | None => mret (v, None)
      | Some c =>
          if (waits =? 0) && errors_Is e swd_ErrNotExecuted then mret (0, Some (Wrap requestNotSentError c))
          else if negb (errors_Is e swd_ErrWait) then finishRetryError r v c waits apWork
          else
            let waits := waits + 1 in
            guard (prepareWaitRetry ctx r c waits) fail_val (
            transfer_loop n waits ctx r d apWork settlePrevious)
      end)
  end.

Definition transferWithAPRecovery (ctx : context) (r : transferRequest) (d : Z) (apWork settlePrevious : bool) : M (Z * err) :=
  resp ← sget response;
  if bool_decide (resp = responseLost) then mret (0, Some errFramingUnknown)
  else transfer_loop fuel 0 ctx r d apWork settlePrevious.

(** ** Completed-register transports (register_executor.go) *)

Definition registerWait (ctx : context) (r : transferRequest) (cause : error) (waits : Z) : M err :=
  forbidden ← sget (fun s => waitForbidden s r);
  if forbidden : bool then
    smod loseFraming;;
    mret (errors_Join [Some cause; Some (Sentinel dap_ErrProtocol); Some (New "dap: non-stallable register request returned WAIT")])
  else
    cause ← canceledWAITCause ctx (Some cause);
    cause ← lift cause;
    if negb (soleRegisterWAIT (Some cause)) then e ← finishWait cause; mret (Some e)
    else
      limit ← pget maxWaits;
      if negb (limit =? 0) && (limit <=? waits) then e ← finishWait cause; mret (Some e) else mret None.

Definition finishRegisterFault (r : transferRequest) (res : transferResult) (preserve : bool) : M (Z * err) :=
  (if bool_decide (r = dpTransferRequest SELECT false) && negb (bool_decide (r_outcome res = transferRejected))
   then smod invalidateSELECT else mret tt);;
  f ← handleFault r (waitMayAffectAP r) preserve;
  let e := errors_Join [r_cause res; Some f] in
  mret (0, if bool_decide (r_outcome res = transferRejected) then Wrap rejectedRequestError <$> e
           else if bool_decide (r_outcome res = transferIndeterminate) || negb (Read r)
           then errors_Join [e; Some (Sentinel dap_ErrIndeterminate)] else e).

Definition finishRegister (r : transferRequest) (res : transferResult) (preserve : bool) : M (Z * err) :=
  let indeterminate := errors_Join [r_cause res; Some (Sentinel dap_ErrIndeterminate)] in
  if errors_Is (r_cause res) dap_ErrProtocol then smod loseFraming;; mret (0, indeterminate)
  else if bool_decide (r_outcome res = transferUnsent) then
    mret (0, Wrap requestNotSentError <$> errors_Join [Some (Sentinel dap_ErrNotExecuted); r_cause res])
  else if errors_Is (r_cause res) dap_ErrFault then finishRegisterFault r res preserve
  else if bool_decide (r_outcome res = transferConfirmed) then
    if Read r && errors_Is (r_cause res) swd_ErrParity then mret (0, indeterminate)
    else mret (r_data res, Wrap completedRegisterError <$> r_cause res)
  else if bool_decide (r_outcome res = transferRejected) then mret (0, Wrap rejectedRequestError <$> r_cause res)
  else smod loseFraming;; mret (0, indeterminate).

Fixpoint register_loop (n : nat) (waits : Z) (ctx : context) (r : transferRequest) (d : Z) (preserve : bool) : M (Z * err) :=
  match n with
  | O => out_of_fuel
  | S n =>
      res ← registerExchange ctx r d;
      match r_cause res with
      | None => mret (r_data res, None)
      | Some c =>
          if bool_decide (r_outcome res = transferRejected) && errors_Is (r_cause res) dap_ErrWait then
            let waits := waits + 1 in
            guard (registerWait ctx r c waits) fail_val (register_loop n waits ctx r d preserve)
          else finishRegister r res preserve
      end
  end.

Definition transferRegister (ctx : context) (r : transferRequest) (d : Z) (preserve : bool) : M (Z * err) :=
  resp ← sget response;
  if bool_decide (resp = responseLost) then mret (0, Some errFramingUnknown)
  else register_loop fuel 0 ctx r d preserve.

Definition transfer (ctx : context) (r : transferRequest) (d : Z) : M (Z * err) :=
  reg ← pget is_register;
  if reg : bool then transferRegister ctx r d false
  else
    '(v, e) ← transferWithAPRecovery ctx r d (waitMayAffectAP r) true;
    mret (v, classifyPortError e).

Definition transferDPWriteBarrier (ctx : context) : M (Z * err) :=
  '(v, e) ← transferWithAPRecovery ctx (dpTransferRequest RDBUFF true) 0 false false;
  (if is_nil e || errors_Is e swd_ErrParity || faultHasValidState e then smod settleDPWrite else mret tt);;
  mret (v, classifyPortError e).

Definition settlePreviousDPWrite (ctx : context) : M err :=
  pending ← sget dpWritePending;
  if negb pending then mret None
  else '(_, e) ← transferDPWriteBarrier ctx; mret (wrapf "dap: settle previous DP write: %w" <$> e).

(** ** Registers (swddp.go) *)

Definition readDPRegister (ctx : context) (reg : DPRegister) : M (Z * err) :=
  pending ← sget dpWritePending;
  '(v, e) ← (if (reg =? RDBUFF) && pending then transferDPWriteBarrier ctx
             else transfer ctx (dpTransferRequest reg true) 0);
  if negb (is_nil e) && negb (registerCompletionKnown e) then mret (0, wrapf "dap: read: %w" <$> e)
  else smod (recordDPRead reg v);; mret (v, e).

(** [confirm] and [select] are [confirmPendingSELECT] and [selectDPBank]. *)
Definition readDP_body (confirm : M err) (select : Z -> M err) (ctx : context) (reg : DPRegister) : M (Z * err) :=
  dp ← pget id;
  if negb (bound dp) then mret (0, Some (New "dap: invalid port binding"))
  else match validateDPRegister dp reg false with
  | (_, Some e) => mret (0, Some e)
  | (info, None) =>
      if is_jtag dp then j_readDP fuel ctx reg
      else
        guard (if ((reg =? CTRLSTAT) || (reg =? DPIDR)) && dpWritePending (state dp) then settlePreviousDPWrite ctx else mret None)
          fail_val (
        if negb (bankIndependent info) then
          guard confirm fail_val (
          guard (select (bank info))
            (fun e => mret (0, Wrap requestNotSentError <$> errors_Join [Some (Sentinel dap_ErrNotExecuted); Some e])) (
          readDPRegister ctx reg))
        else readDPRegister ctx reg)
  end.

Definition recordFailedDPWrite (reg : DPRegister) (v : Z) (e : err) : M unit :=
  register ← pget is_register;
  if registerCompletionKnown e then smod (recordDPWrite register reg v)
  else if register && (reg =? ABORT) && any_bits v dapAbort && negb (requestWasNotSent e) && negb (requestWasRejected e)
  then smod invalidateAP else mret tt.

Definition writeDP_body (confirm : M err) (select : Z -> M err) (ctx : context) (reg : DPRegister) (v : Z) : M err :=
  dp ← pget id;
  if negb (bound dp) then mret (Some (New "dap: invalid port binding"))
  else match validateDPWrite dp reg v with
  | (_, Some e) => mret (Some e)
  | (info, None) =>
      if is_jtag dp then j_writeDP fuel ctx reg v
      else
        guard (if negb (bankIndependent info) then guard confirm fail_err (select (bank info)) else mret None)
          (fun e => mret (Wrap requestNotSentError <$> errors_Join [Some (Sentinel dap_ErrNotExecuted); Some e])) (
        '(_, e) ← transfer ctx (dpTransferRequest reg false) v;
        match e with
        | Some c => recordFailedDPWrite reg v e;; mret (Some (wrapf "dap: write: %w" c))
        | None => register ← pget is_register; smod (recordDPWrite register reg v);; mret None
        end)
  end.

(** RDBUFF and SELECT do not depend on the bank, so the calls below do not
    select in turn. *)
Definition no_select {A B} (_ : A) : M B := out_of_fuel.

Definition confirmPendingSELECT (ctx : context) : M err :=
  pending ← sget selectPending;
  if negb pending then mret None
  else
    '(_, e) ← readDP_body (no_select tt) no_select ctx RDBUFF;
    mret (wrapf "dap: confirm SELECT before banked DP access: %w" <$> e).

Definition selectDPBank (ctx : context) (b : Z) : M err :=
  sel ← sget selectDP;
  cur ← sget dpBank;
  if valid sel && (cur =? b) then confirmPendingSELECT ctx
  else
    let v := if valid sel then Z.lor b (and_not (value sel) 0x0f) else b in
    guard (writeDP_body (no_select tt) no_select ctx SELECT v) fail_err (confirmPendingSELECT ctx).

Definition readDP (ctx : context) : DPRegister -> M (Z * err) :=
  readDP_body (confirmPendingSELECT ctx) (selectDPBank ctx) ctx.

Definition writeDP (ctx : context) : DPRegister -> Z -> M err :=
  writeDP_body (confirmPendingSELECT ctx) (selectDPBank ctx) ctx.

(** ** Re-entry (lifecycle.go) *)

Definition link_Connect (ctx : context) : M (Z * err) :=
  reg ← pget is_register;
  timeout ← pget cleanupTimeout;
  if reg : bool then call (reg_Connect ctx) (fun r => [EConnect (snd r)])
  else
    '(v, e) ← call (swd_Connect ctx timeout) (fun r => [EConnect (snd r)]);
    mret (v, classifyPortError e).

Definition reenter (ctx : context) : M err :=
  jt ← pget is_jtag;
  if jt : bool then enter fuel ctx
  else
    smod beginProtocolEntry;;
    '(raw, e) ← link_Connect ctx;
    match e with
    | Some e => lose (wrapf "dap: reconnect SWD transport: %w" e)
    | None =>
        match DecodeDPIDR raw with
        | (_, Some e) => lose (wrapf "dap: decode DPIDR after protocol entry: %w" e)
        | (info, None) =>
            known ← pget reentryKnown;
            expected ← pget (fun dp => dpidr (reentryID dp));
            if known && negb (bool_decide (info = expected))
            then lose (New "dap: SW-DP identity changed during protocol entry")
            else
              smod (fun s => settleDPWrite (confirmSELECT (recordSELECT 0 s)));;
              '(_, e) ← readDP ctx CTRLSTAT;
              match e with
              | Some e => lose e
              | None => mret None
              end
        end
    end.

Definition restoreAfterAbort (ctx : context) : M err :=
  zero ← sget faultBankZero;
  if negb zero then reenter ctx
  else
    '(st, e) ← transferOnce ctx (dpTransferRequest CTRLSTAT true) 0;
    match e with
    | Some e => mret (Some (wrapf "dap: read sticky state after DAP abort: %w" e))
    | None =>
        smod (confirmResponse st);;
        minimal ← pget (fun dp => faultIdentityMinimal dp st);
        let clear := stickyClearForState st minimal in
        guard (if negb (clear =? 0)
               then '(_, e) ← transferOnce ctx (dpTransferRequest ABORT false) clear; mret e else mret None)
          (fun e => mret (Some (wrapf "dap: clear sticky state after DAP abort: %w" e))) (
        guard (writeDP ctx SELECT 0)
          (fun e => mret (Some (wrapf "dap: restore SELECT after DAP abort: %w" e))) (mret None))
    end.

(** [e.abortWait], restoring with [restore]. *)
Definition abortWait_body (restore : context -> M err) (cause : error) : M error :=
  busy ← gets recovering;
  if busy : bool then mret cause
  else
    modify (set_recovering true);;
    smod invalidateAP;;
    ctx ← cleanupContext;
    '(_, e) ← transferOnce ctx (dpTransferRequest ABORT false) dapAbort;
    r ← (match e with
         | Some e => smod loseFraming;; mret (Join [cause; wrapf "dap: DAPABORT after WAIT: %w" e])
         | None =>
             r ← restore ctx;
             match r with
             | Some r => smod loseFraming;; mret (Join [cause; r])
             | None => mret cause
             end
         end);
    modify (set_recovering false);;
    mret r.
End Recovery.

(** Requests made while recovering return without recovering again. *)
Definition abortWait_nested : error -> M error := abortWait_body (fun _ => out_of_fuel).
Definition abortWait : error -> M error := abortWait_body (restoreAfterAbort abortWait_nested).
End Requests.
