(* ===== verification/DapAccess.v ===== *)
(** * Immediate operations of a debug port

    dap/ap.go, dap/apv2.go and dap/swd_ap.go, with the public register operations
    of dap/swddp.go and the debug address space of dap/debugspace.go. *)

From S2P Require Import Prelude Go JtagTap JtagConn JtagChain DapTypes DapErrors DapPort DapJtag DapSwd DapBlock.
Local Open Scope Z_scope.

Section Access.
Context {W : Type} `{Env W} `{SwdLink W} `{RegisterTransport W} `{ChainLink W}.
Abbreviation M := (GoM (PSt W)).
Variable fuel : nat.

(** The operations of DapSwd with the recovery in place. *)
Abbreviation abort := (abortWait fuel).
Abbreviation read_dp := (readDP fuel abort).
Abbreviation write_dp := (writeDP fuel abort).
Abbreviation confirm_select := (confirmPendingSELECT fuel abort).

(** ** Public register operations (swddp.go) *)

Definition ReadDP (ctx : context) (reg : DPRegister) : M (Z * err) :=
  dp ← pget id;
  match requireOperational dp ctx with
  | Some e => mret (0, Some e)
  | None => '(v, e) ← read_dp ctx reg; e ← callerError ctx e; mret (v, e)
  end.

Definition WriteDP (ctx : context) (reg : DPRegister) (v : Z) : M err :=
  dp ← pget id;
  match requireOperational dp ctx with
  | Some e => mret (Some e)
  | None => e ← write_dp ctx reg v; callerError ctx e
  end.

Definition SetMaxWaits (n : Z) : M err :=
  s ← sget session;
  if negb (bool_decide (s = sessionIdle))
  then mret (Some (New "dap: cannot set maximum WAIT responses unless debug port is idle"))
  else pmod (set_maxWaits n);; mret None.

(** ** Selection (ap.go, apv2.go) *)

Definition selectAPAddress (ctx : context) (address : Z) : M err :=
  dp ← pget id;
  guard (if (dpVersion dp =? 3) && (32 <? addressBits dp) then
           guard (write_dp ctx SELECT1 (uint32 (Z.shiftr address 32))) fail_err (
           '(_, e) ← read_dp ctx RDBUFF; mret e)
         else mret None) fail_err (
  guard (write_dp ctx SELECT (and_not (uint32 address) 15)) fail_err (confirm_select ctx)).

Definition selectAP (ctx : context) (sel : APSel) (addr : Z) : M err :=
  dp ← pget id;
  match validateSelector dp sel with
  | (_, Some e) => mret (Some e)
  | (selection, None) =>
      if v2 sel then selectAPAddress ctx (uint64 (selection + addr))
      else
        let v := Z.lor (uint32 (Z.shiftl selection 24)) (Z.land addr 0xf0) in
        cur ← sget selectDP;
        guard (if negb (valid cur) || negb (value cur =? v) then write_dp ctx SELECT v else mret None) fail_err (
        confirm_select ctx)
  end.

(** ** Access-port registers over SWD (swd_ap.go) *)

Definition possible_effect (e : err) : bool := negb (requestWasNotSent e) && negb (requestWasRejected e).

Definition swd_readAP (ctx : context) (addr : Z) (preserve : bool) : M (bool * Z * err) :=
  reg ← pget is_register;
  if reg : bool then
    '(v, e) ← transferRegister fuel abort ctx (apTransferRequest (uint8 (Z.land addr 12)) true) 0 preserve;
    let e := wrapf "dap: read register: %w" <$> e in
    mret (possible_effect e, v, e)
  else
    '(_, e) ← transfer fuel abort ctx (apTransferRequest (uint8 (Z.land addr 0x0c)) true) 0;
    match e with
    | Some _ =>
        let possible := possible_effect e && negb (errors_Is e swd_ErrFault) in
        let e := if possible && errors_Is e swd_ErrParity then errors_Join [e; Some (Sentinel dap_ErrIndeterminate)] else e in
        mret (possible, 0, wrapf "dap: post register read: %w" <$> e)
    | None =>
        modify (set_pendingRead true);;
        '(v, e) ← read_dp ctx RDBUFF;
        modify (set_pendingRead false);;
        mret (true, v, wrapf "dap: complete register read: %w" <$> e)
    end.

Definition swd_writeAP (ctx : context) (addr v : Z) (preserve : bool) : M (bool * err) :=
  reg ← pget is_register;
  if reg : bool then
    '(_, e) ← transferRegister fuel abort ctx (apTransferRequest (uint8 (Z.land addr 12)) false) v preserve;
    let e := wrapf "dap: write register: %w" <$> e in
    mret (possible_effect e, e)
  else
    '(_, e) ← transfer fuel abort ctx (apTransferRequest (uint8 (Z.land addr 0x0c)) false) v;
    match e with
    | Some _ =>
        let possible := possible_effect e && negb (errors_Is e swd_ErrFault) in
        let e := if possible then errors_Join [e; Some (Sentinel dap_ErrIndeterminate)] else e in
        mret (possible, wrapf "dap: write register: %w" <$> e)
    | None =>
        '(_, e) ← read_dp ctx RDBUFF;
        match e with
        | None => mret (true, None)
        | Some _ =>
            let rejected := faultReportsWriteDataError e in
            let e := if negb rejected && negb (confirmedSWDCompletionParity e)
                     then errors_Join [e; Some (Sentinel dap_ErrIndeterminate)] else e in
            mret (negb rejected, wrapf "dap: complete register write: %w" <$> e)
        end
    end.

(** ** Access-port registers (ap.go) *)

Definition notSent (e : error) : err :=
  Wrap requestNotSentError <$> errors_Join [Some (Sentinel dap_ErrNotExecuted); Some e].

Definition jtag_possible (r : transferResult) : bool :=
  negb (bool_decide (r_outcome r = transferUnsent)) && negb (bool_decide (r_outcome r = transferRejected)).

Definition readAPEffect (ctx : context) (sel : APSel) (addr : Z) (preserve : bool) : M (bool * Z * err) :=
  match snd (validateAPAddress (mkAPAddress sel addr) false) with
  | Some e => mret (false, 0, Some e)
  | None =>
      guard (selectAP ctx sel addr) (fun e => mret (false, 0, notSent e)) (
      jt ← pget is_jtag;
      if jt : bool then
        r ← accessAP fuel ctx (apTransferRequest (uint8 (Z.land addr 0x0c)) true) 0;
        mret (jtag_possible r, r_data r, jtagResultError r)
      else swd_readAP ctx addr preserve)
  end.

Definition writeAPEffect (ctx : context) (sel : APSel) (addr v : Z) (preserve : bool) : M (bool * err) :=
  match snd (validateAPAddress (mkAPAddress sel addr) true) with
  | Some e => mret (false, Some e)
  | None =>
      guard (selectAP ctx sel addr) (fun e => mret (false, notSent e)) (
      jt ← pget is_jtag;
      if jt : bool then
        r ← accessAP fuel ctx (apTransferRequest (uint8 (Z.land addr 0x0c)) false) v;
        mret (jtag_possible r, jtagResultError r)
      else swd_writeAP ctx addr v preserve)
  end.

Definition readAP (ctx : context) (sel : APSel) (addr : Z) : M (Z * err) :=
  '(_, v, e) ← readAPEffect ctx sel (register sel addr) false; mret (v, e).

Definition writeAP (ctx : context) (sel : APSel) (addr v : Z) : M err :=
  '(_, e) ← writeAPEffect ctx sel (register sel addr) v false; mret e.

(** An access whose effect is possible ends the validity of open MEM-APs, once. *)
Definition noteAPEffect (generation : Z) (possible : bool) : M unit :=
  g ← sget apGeneration;
  if possible && (g =? generation) then smod invalidateAP else mret tt.

Definition ReadAPIDR (ctx : context) (sel : APSel) : M (APIDRInfo * err) :=
  let none := mkAPIDR 0 0 0 0 0 0 in
  dp ← pget id;
  match requireConnected dp ctx with
  | Some e => e ← callerError ctx (Some e); mret (none, e)
  | None =>
      '(v, e) ← readAP ctx sel apIDRAddress;
      match e with
      | Some e => e ← callerError ctx (Some e); mret (none, e)
      | None => e ← callerError ctx None; mret (DecodeAPIDR v, e)
      end
  end.

Definition ReadRawAP (ctx : context) (addr : APAddress) : M (Z * err) :=
  dp ← pget id;
  match requireConnected dp ctx with
  | Some e => mret (0, Some e)
  | None =>
      match validateAPAddress addr false with
      | (_, Some e) => mret (0, Some e)
      | (v, None) =>
          generation ← sget apGeneration;
          '(possible, r, e) ← readAPEffect ctx (addr_sel addr) v false;
          noteAPEffect generation possible;;
          e ← callerError ctx e;
          mret (r, e)
      end
  end.

Definition WriteRawAP (ctx : context) (addr : APAddress) (v : Z) : M err :=
  dp ← pget id;
  match requireConnected dp ctx with
  | Some e => mret (Some e)
  | None =>
      match validateAPAddress addr true with
      | (_, Some e) => mret (Some e)
      | (a, None) =>
          generation ← sget apGeneration;
          '(possible, e) ← writeAPEffect ctx (addr_sel addr) a v false;
          noteAPEffect generation possible;;
          callerError ctx e
      end
  end.

(** ** The debug address space (debugspace.go) *)

Definition space_check (ctx : context) : M err :=
  dp ← pget id;
  match requireConnected dp ctx with
  | Some e => mret (Some e)
  | None =>
      if negb (dpVersion dp =? 3) then mret (Some (New "dap: debug address space requires DPv3"))
      else ctxErr ctx
  end.

Definition space_ReadScalar (ctx : context) (address : Z) (size : TransferSize) : M (Z * err) :=
  guard (space_check ctx) fail_val (
  if negb (size =? Size32) || any_bits address 3
  then mret (0, Some (New "dap: debug-space reads require aligned 32-bit words"))
  else
    match APAt (and_not address 0xfff) with
    | (_, Some e) => mret (0, Some e)
    | (sel, None) => ReadRawAP ctx (Address sel (Z.land address 0xfff))
    end).

Definition space_ReadDebugBase (ctx : context) : M (Z * bool * err) :=
  guard (space_check ctx) (fun e => mret (0, false, Some e)) (
  '(low, e) ← ReadDP ctx BASEPTR0;
  match e with
  | Some e => mret (0, false, Some e)
  | None =>
      if any_bits low 0xffe then mret (0, false, Some (New "dap: reserved bits in BASEPTR0"))
      else if Z.land low 1 =? 0 then mret (0, false, None)
      else
        bits ← pget addressBits;
        '(high, e) ← (if 32 <? bits then ReadDP ctx BASEPTR1 else mret (0, None));
        match e with
        | Some e => mret (0, false, Some e)
        | None =>
            let address := Z.lor (uint64 (Z.shiftl high 32)) (and_not low 0xfff) in
            if negb (Z.shiftr address bits =? 0) then mret (0, false, Some (New "dap: debug base exceeds address width"))
            else mret (address, true, None)
        end
  end).
End Access.
