(* ===== verification/DapLifecycle.v ===== *)
(** * Connecting and releasing a debug port (dap/lifecycle.go,
      dap/register_lifecycle.go) *)

From S2P Require Import Prelude Go JtagTap JtagConn JtagChain DapTypes DapErrors DapPort DapJtag DapSwd DapBlock DapAccess.
Local Open Scope Z_scope.

(** The port's own part of the session changes. *)
Definition dp_beginConnect (dp : DebugPort) : DebugPort :=
  let dp := set_reentry noIdentity false (set_memAPs [] dp) in set_state (beginConnect (state dp)) dp.
Definition dp_completeConnect (info : Identity) (dp : DebugPort) : DebugPort :=
  let dp := set_identity info true dp in set_state (completeConnect (state dp)) dp.
Definition dp_completeRelease (dp : DebugPort) : DebugPort :=
  let dp := set_reentry noIdentity false dp in set_state (completeRelease (state dp)) dp.

(** [NewDebugPort], with the options already folded into its arguments. *)
Definition NewDebugPort (b : binding) (waits timeout : Z) : DebugPort :=
  mkDP b waits timeout noIdentity false 0 noIdentity false initialState [].

Section Lifecycle.
Context {W : Type} `{Env W} `{SwdLink W} `{RegisterTransport W} `{ChainLink W}.
Abbreviation M := (GoM (PSt W)).
Variable fuel : nat.
Abbreviation abort := (abortWait fuel).
Abbreviation read_dp := (readDP fuel abort).
Abbreviation write_dp := (writeDP fuel abort).
Abbreviation reenter_dp := (reenter fuel abort).

Definition link_CleanupPending : M bool :=
  reg ← pget is_register;
  if reg : bool then ask reg_CleanupPending else ask swd_CleanupPending.

Definition releaseRegister (ctx : context) : M err :=
  e ← call (reg_Release ctx) (fun e => [ERelease e]);
  pending ← ask reg_CleanupPending;
  mret (if is_nil e && pending
        then errors_Join [Some (Sentinel dap_ErrProtocol); Some (New "dap: register transport retained cleanup after successful release")]
        else e).

Definition link_Release (ctx : context) : M err :=
  reg ← pget is_register;
  if reg : bool then releaseRegister ctx
  else e ← call (swd_Release ctx) (fun e => [ERelease e]); mret (classifyPortError e).

Definition validateConnect (ctx : context) : M err :=
  dp ← pget id;
  if negb (bound dp) then mret (Some (New "dap: invalid port binding"))
  else if cleanupTimeout dp <=? 0 then mret (Some (New "dap: cleanup timeout must be positive"))
  else if bool_decide (session (state dp) = sessionConnected) then mret (Some (New "dap: debug-port connection is already active"))
  else if bool_decide (session (state dp) = sessionRepairRequired) then mret (Some (New "dap: debug-port cleanup is pending"))
  else if ctx_nil ctx then mret (Some (New "dap: nil operation context"))
  else guard (if is_jtag dp then j_validate else mret None) fail_err (ctxErr ctx).

Fixpoint power_loop (n : nat) (ctx : context) (mask : Z) (set : bool) : M err :=
  match n with
  | O => out_of_fuel
  | S n =>
      '(st, e) ← read_dp ctx CTRLSTAT;
      match e with
      | Some e => mret (Some e)
      | None =>
          if (set && (Z.land st mask =? mask)) || (negb set && (Z.land st mask =? 0)) then mret None
          else
            guard (ctxErr ctx) (fun e => mret (Some (wrapf "dap: wait for power acknowledgement: %w" e))) (
            power_loop n ctx mask set)
      end
  end.

Definition waitPower := power_loop fuel.

Definition releasePower (ctx : context) : M err :=
  owned ← sget ownedPower;
  if owned =? 0 then mret None
  else
    '(st, e) ← read_dp ctx CTRLSTAT;
    match e with
    | Some e => mret (Some e)
    | None =>
        owned ← sget ownedPower;
        guard (write_dp ctx CTRLSTAT (and_not st owned)) fail_err (
        owned ← sget ownedPower;
        guard (waitPower ctx (powerAcks owned) false) fail_err (
        smod clearOwnedPower;; mret None))
    end.

Definition releaseLink (ctx : context) : M err :=
  jt ← pget is_jtag;
  if jt : bool then j_release fuel ctx
  else
    e ← link_Release ctx;
    match e with
    | None => mret None
    | Some c =>
        pending ← link_CleanupPending;
        let w := wrapf "dap: release SWD transport: %w" c in
        if negb pending then mret (Some (Wrap completedReleaseError w))
        else
          (if negb (errors_Is e swd_ErrNotExecuted) then smod loseFraming else mret tt);;
          mret (Some w)
    end.

(** [if err := releaseLink(ctx); err != nil { .. }], then the session ends. *)
Definition finishRelease (ctx : context) (fail : error -> err) (ok : err) : M err :=
  e ← releaseLink ctx;
  match e with
  | Some c =>
      (if releaseCompletionKnown e then pmod dp_completeRelease else mret tt);;
      mret (fail c)
  | None => pmod dp_completeRelease;; mret ok
  end.

Definition failConnect (cause : error) : M err :=
  ctx ← cleanupContext;
  s ← sget id;
  guard (if bool_decide (response s = responseLost) || negb (ownedPower s =? 0) then reenter_dp ctx else mret None)
    (fun e => mret (errors_Join [Some cause; Some (wrapf "dap: repair protocol state after Connect failure: %w" e)])) (
  guard (releasePower ctx)
    (fun e => mret (errors_Join [Some cause; Some (wrapf "dap: roll back power requests: %w" e)])) (
  finishRelease ctx (fun e => errors_Join [Some cause; Some e]) (Some cause))).

Definition failRegisterConnect (cause : error) : M err :=
  pending ← link_CleanupPending;
  if negb pending then pmod dp_completeRelease;; mret (Some cause)
  else
    ctx ← cleanupContext;
    e ← link_Release ctx;
    pending ← link_CleanupPending;
    (if negb pending then pmod dp_completeRelease else smod loseFraming);;
    mret (errors_Join [Some cause; e]).

(** Release on an idle connection returns nil, and checks its (ended) context
    before repairing anything. *)
Definition failSWDConnect (cause : error) : M err :=
  reg ← pget is_register;
  if reg : bool then failRegisterConnect cause
  else
    e ← link_Release (CanceledContext Background);
    match e with
    | Some _ => smod loseFraming;; mret (Some cause)
    | None => pmod dp_completeRelease;; mret (Some cause)
    end.

Definition initialize (ctx : context) (raw : Z) : M (Identity * Z * err) :=
  match DecodeDPIDR raw with
  | (_, Some e) => mret (noIdentity, 0, Some e)
  | (dpidr, None) =>
      let info := mkIdentity dpidr 0 in
      let refuse e : M (Identity * Z * err) := mret (noIdentity, 0, Some e) in
      pmod (set_reentry info true);;
      smod (fun s => settleDPWrite (confirmSELECT (recordSELECT 0 s)));;
      '(st, e) ← read_dp ctx CTRLSTAT;
      match e with
      | Some e => refuse e
      | None =>
          if any_bits st transactionModes then refuse (New "dap: inherited transaction modes are not supported")
          else if negb (Version dpidr =? 3) then mret (info, st, None)
          else if any_bits st (Z.shiftl 1 24) then refuse (New "dap: DP ERRMODE is not supported")
          else
            '(width, e) ← read_dp ctx DPIDR1;
            match e with
            | Some e => refuse e
            | None =>
                let bits := Z.land width 0x7f in
                pmod (set_addressBits bits);;
                if existsb (Z.eqb bits) [12; 20; 32; 40; 48; 52] then mret (info, st, None)
                else refuse (New "dap: unsupported ADIv6 address width")
            end
      end
  end.

Definition connectLink (ctx : context) : M (Identity * Z * err) :=
  let failed (m : M err) : M (Identity * Z * err) := e ← m; mret (noIdentity, 0, e) in
  jt ← pget is_jtag;
  if jt : bool then
    guard (enter fuel ctx)
      (fun e =>
         dp ← pget id;
         j ← jget id;
         if negb (reentryKnown dp) && (ownedPower (state dp) =? 0) && negb (ownedOverrun j) && negb (abortRequired j) && negb (faultPending j)
         then pmod dp_completeRelease;; mret (noIdentity, 0, Some e)
         else failed (failConnect e)) (
    '(st, e) ← configure fuel ctx;
    match e with
    | Some e => failed (failConnect e)
    | None => info ← pget reentryID; mret (info, st, None)
    end)
  else
    '(raw, e) ← link_Connect ctx;
    match e with
    | Some e => failed (failSWDConnect (wrapf "dap: connect SWD transport: %w" e))
    | None =>
        '(info, st, e) ← initialize ctx raw;
        match e with
        | Some e => failed (failConnect e)
        | None => mret (info, st, None)
        end
    end.

Definition Connect_body (ctx : context) : M (Identity * err) :=
  let failed (e : error) : M (Identity * err) := e ← failConnect e; mret (noIdentity, e) in
  pmod dp_beginConnect;;
  '(info, st, e) ← connectLink ctx;
  match e with
  | Some e => mret (noIdentity, Some e)
  | None =>
      let owned := and_not powerRequests st in
      guard (if negb (owned =? 0) then smod (ownPower owned);; write_dp ctx CTRLSTAT (Z.lor st powerRequests) else mret None) failed (
      guard (waitPower ctx (powerAcks powerRequests) true) failed (
      guard (ctxErr ctx) failed (
      pmod (dp_completeConnect info);; mret (info, None))))
  end.

Definition Connect (ctx : context) : M (Identity * err) :=
  guard (validateConnect ctx) (fun e => mret (noIdentity, Some e)) (
  '(info, e) ← Connect_body ctx;
  e ← callerError ctx e;
  mret (info, e)).

Definition Release_body (ctx : context) : M err :=
  smod beginRepair;;
  known ← sget responseKnown;
  guard (if negb known then reenter_dp ctx else mret None)
    (fun e => mret (Some (wrapf "dap: restore protocol state for release: %w" e))) (
  guard (selectAPAddress fuel ctx 0)
    (fun e => mret (Some (wrapf "dap: clear selection while releasing debug port: %w" e))) (
  guard (releasePower ctx) fail_err (
  finishRelease ctx Some None))).

Definition Release (ctx : context) : M err :=
  dp ← pget id;
  if negb (bound dp) then mret None
  else if bool_decide (session (state dp) = sessionIdle) then mret None
  else if ctx_nil ctx then mret (Some (New "dap: nil context"))
  else guard (ctxErr ctx) fail_err (e ← Release_body ctx; callerError ctx e).

Definition CleanupPending : M bool := sget (fun s => negb (bool_decide (session s = sessionIdle))).
End Lifecycle.
