(* ===== verification/DapTxn.v ===== *)
(** * Transactions (dap/txn.go, dap/txn_serial.go, dap/swd_executor.go)

    A transaction queues operations whose results the caller already holds:
    results live in a heap and an operation keeps the address of its own.  Over
    SWD the planned steps are sent in batches; a WAIT rewinds to the rejected
    step, anything else that fails ends the transaction. *)

From S2P Require Import Prelude Go JtagTap JtagConn JtagChain DapTypes DapErrors DapPlan DapPort DapJtag DapSwd DapAccess.
Local Open Scope Z_scope.

Record txnResult := mkTxnResult { resolved : bool; result_value : Z; result_err : err }.

Definition resolve (v : Z) (e : err) (r : txnResult) : txnResult :=
  if resolved r then r else mkTxnResult true v e.

Definition ReadResult_Value (r : txnResult) : Z * err :=
  if negb (resolved r) then (0, Some (Sentinel dap_ErrResultPending)) else (result_value r, result_err r).

Definition WriteResult_Err (r : txnResult) : err :=
  if negb (resolved r) then Some (Sentinel dap_ErrResultPending) else result_err r.

Definition set_op_err e o := mkTxnOp (kind o) (dpReg o) (apSel o) (apAddr o) (data o) (values o) (preserveAP o) (result o) e (accepted o) (confirmed o) (uncertainWrite o).
Definition set_counts a c u o := mkTxnOp (kind o) (dpReg o) (apSel o) (apAddr o) (data o) (values o) (preserveAP o) (result o) (op_err o) a c u.
Definition set_values vs r o := mkTxnOp (kind o) (dpReg o) (apSel o) (apAddr o) (data o) vs (preserveAP o) r (op_err o) (accepted o) (confirmed o) (uncertainWrite o).

(** ** Reading the outcome of a batch *)

Fixpoint firstFailedTransfer (rs : list transferResult) : nat :=
  match rs with
  | [] => O
  | r :: rs => if negb (is_nil (r_cause r)) then O else S (firstFailedTransfer rs)
  end.

(** The loop of [batchSuffixAbandoned], over the results after the first. *)
Fixpoint abandoned_loop (unsent : bool) (rs : list transferResult) : bool :=
  match rs with
  | [] => true
  | r :: rs =>
      if bool_decide (r_outcome r = transferUnsent) then abandoned_loop true rs
      else if unsent || negb (errors_Is (r_cause r) swd_ErrFault) then false
      else abandoned_loop unsent rs
  end.

Definition batchSuffixAbandoned (rs : list transferResult) : bool := abandoned_loop false (tail rs).

(** Results up to the first one not sent, the first of all included. *)
Fixpoint clocked_loop (rs : list transferResult) : nat :=
  match rs with
  | [] => O
  | r :: rs => if bool_decide (r_outcome r = transferUnsent) then O else S (clocked_loop rs)
  end.

Definition clockedTransferCount (rs : list transferResult) : nat :=
  match rs with [] => O | _ :: rs => S (clocked_loop rs) end.

Definition stepMayAffectAP (s : txnStep) : bool := AP (req s) || (operationStarted s && negb (settlesDPWrite s)).

(** [recordSWDCompletions] of one operation and its result. *)
Definition recordSWDCompletion (o : txnOp) (r : txnResult) : txnOp :=
  if negb (bool_decide (kind o = txnWriteAPSequence)) || negb (resolved r) then o
  else
    let e := result_err r in
    let n := len (values o) in
    let conf := if is_nil e || ((accepted o =? n) && errors_Is e swd_ErrParity && negb (errors_Is e dap_ErrIndeterminate))
                then n else confirmed o in
    set_counts (accepted o) conf
      ((conf <? accepted o) && (negb (n =? 1) || negb (faultReportsWriteDataError e))) o.

(** A nil error inside a wrapper ends the chain. *)
Definition nilCause : error := Join [].

Section Txn.
Context {W : Type} `{Env W} `{SwdLink W} `{RegisterTransport W} `{ChainLink W}.
Variable fuel : nat.

(** The results, the transaction in hand and the debug port it runs on. *)
Record XSt := mkX { heap : list txnResult; has_dp : bool; ops : list txnOp; committed : bool; core : PSt W }.

Definition set_heap f s := mkX (f (heap s)) (has_dp s) (ops s) (committed s) (core s).
Definition set_core c s := mkX (heap s) (has_dp s) (ops s) (committed s) c.
Definition put_ops l s := mkX (heap s) (has_dp s) l (committed s) (core s).

Abbreviation M := (GoM XSt).

Definition on_core {A} (m : GoM (PSt W) A) : M A := fun s =>
  match m (core s) with
  | Done (a, c) => Done (a, set_core c s)
  | Panicked => Panicked
  | OutOfFuel => OutOfFuel
  end.

Definition set_ops (f : list txnOp -> list txnOp) : M unit := modify (fun s => put_ops (f (ops s)) s).
Definition getOp (i : Z) : M txnOp := fun s =>
  match Prelude.index (ops s) i with Some o => Done (o, s) | None => Panicked end.

(** [op.result.resolve(v, e)] *)
Definition resolveResult (p : nat) (v : Z) (e : err) : M unit :=
  modify (set_heap (alter (resolve v e) p)).

Definition resolveOp (i : Z) (v : Z) (e : err) : M unit := o ← getOp i; resolveResult (result o) v e.

Fixpoint mapM_ {A} (f : A -> M unit) (l : list A) : M unit :=
  match l with
  | [] => mret tt
  | a :: l => f a;; mapM_ f l
  end.

Definition resolveSuffix (start : Z) : M unit :=
  l ← gets ops;
  mapM_ (fun o => resolveResult (result o) 0 (Some (Sentinel dap_ErrNotExecuted))) (drop (Z.to_nat start) l).

Definition resolveAll (e : error) : M unit :=
  l ← gets ops;
  mapM_ (fun o => resolveResult (result o) 0 (Some e)) l.

Definition resolveInvalid : M unit :=
  l ← gets ops;
  mapM_ (fun o => resolveResult (result o) 0
    (match op_err o with None => Some (Sentinel dap_ErrNotExecuted) | Some e => Some e end)) l.

(** ** Steps (swdTxn) *)

Definition executionError (s : txnStep) (e : err) : M err :=
  o ← getOp (op s);
  resp ← on_core (sget response);
  let writeBarrier := settlesDPWrite s || completesWrite s in
  let indeterminate := errors_Join [e; Some (Sentinel dap_ErrIndeterminate)] in
  mret (if apRead s && preserveAP o && ordinaryFaultCleared e then e
        else if writeBarrier && confirmedSWDCompletionParity e then e
        else if operationStarted s && (negb writeBarrier || negb (faultReportsWriteDataError e)) then indeterminate
        else if requestWasRejected e then e
        else if errors_Is e swd_ErrParity || (bool_decide (resp = responseLost) && negb (errors_Is e swd_ErrFault)) then indeterminate
        else e).

Definition applyFailedStepEffect (s : txnStep) (e : err) : M unit :=
  o ← getOp (op s);
  if preserveAP o && ordinaryFaultCleared e then mret tt
  else
    resp ← on_core (sget response);
    if bool_decide (resp = responseLost) then mret tt
    else
      let indeterminateEffect := errors_Is e dap_ErrIndeterminate && (invalidatesAP s || apRead s || apWrite s) in
      let invalidatingParity := completesWrite s && invalidatesAP s && errors_Is e swd_ErrParity in
      if indeterminateEffect || invalidatingParity then on_core (smod invalidateAP) else mret tt.

Definition failStep (s : txnStep) (e : err) : M err :=
  e ← executionError s e;
  applyFailedStepEffect s e;;
  resolveOp (op s) 0 e;;
  resolveSuffix (op s + 1);;
  mret e.

Definition observeStep (s : txnStep) (v : Z) (e : err) : M unit :=
  on_core (
    smod (resolveSELECT (req s) v e);;
    if settlesDPWrite s && (is_nil e || errors_Is e swd_ErrParity || faultHasValidState e) then smod settleDPWrite
    else if negb (settlesDPWrite s) && responseSettlesPreviousDPWrite (req s) e then smod settleDPWrite
    else mret tt).

Definition acceptStep (s : txnStep) (v : Z) : M unit :=
  observeStep s v None;;
  (if acceptWrite s
   then set_ops (alter (fun o => set_counts (accepted o + 1) (confirmed o) (uncertainWrite o) o) (Z.to_nat (op s)))
   else mret tt);;
  on_core (
    completed ← pget is_register;
    (if negb (Read (req s)) && negb (AP (req s)) then
       if invalidatesAP s then smod (recordDPWriteState completed (step_reg s) (step_data s))
       else smod (recordDPWrite completed (step_reg s) (step_data s))
     else mret tt);;
    (if Read (req s) && negb (AP (req s)) then smod (recordDPRead (step_reg s) v) else mret tt);;
    (if deliver s && invalidatesAP s then smod invalidateAP else mret tt));;
  if negb (deliver s) then mret tt
  else resolveOp (op s) (if deliverValue s then v else 0) None.

Fixpoint acceptBatchPrefix (l : list txnStep) (rs : list transferResult) (count : nat) : M unit :=
  match count, l, rs with
  | S count, s :: l, r :: rs => acceptStep s (r_data r);; acceptBatchPrefix l rs count
  | _, _, _ => mret tt
  end.

Definition resolveIndeterminateSteps (l : list txnStep) (e : err) : M unit :=
  mapM_ (fun s => resolveOp (op s) 0 e) l.

(** [t.resolveSuffix(steps[len(steps)-1].op + 1)] *)
Definition resolveAfter (l : list txnStep) : M unit :=
  s ← (fun st => match last l with Some s => Done (s, st) | None => Panicked end);
  resolveSuffix (op s + 1).

Definition failUnexpectedBatchSuffix (l : list txnStep) (ackErr : error) : M err :=
  let cause := Some (Join [ackErr; Sentinel dap_ErrIndeterminate; New "dap: a request after WAIT or FAULT was not abandoned"]) in
  on_core (smod loseFraming);;
  resolveIndeterminateSteps l cause;;
  resolveAfter l;;
  mret cause.

Definition failClockedSuffix (l : list txnStep) (e : err) : M err :=
  let primary := errors_Join [e; Some (Sentinel dap_ErrIndeterminate)] in
  on_core (smod loseFraming);;
  resolveIndeterminateSteps l primary;;
  resolveAfter l;;
  mret primary.

(** The loop of [failBatchTransport]; returns the last operation reached. *)
Fixpoint transport_loop (first : bool) (primary : err) (lastOp : Z) (l : list txnStep) (rs : list transferResult) : M Z :=
  match l, rs with
  | s :: l, r :: rs =>
      if negb (errors_Is (r_cause r) swd_ErrIndeterminate) then mret lastOp
      else
        resolveOp (op s) 0 (if first then primary else Some (Sentinel dap_ErrIndeterminate));;
        transport_loop false primary (op s) l rs
  | _, _ => mret lastOp
  end.

Definition failBatchTransport (s : txnStep) (l : list txnStep) (rs : list transferResult) (batchErr : err) : M err :=
  let primary := errors_Join [batchErr; Some (Sentinel dap_ErrIndeterminate)] in
  on_core (smod loseFraming);;
  lastOp ← transport_loop true primary (op s) (s :: l) rs;
  resolveSuffix (lastOp + 1);;
  mret primary.

Definition failCompletedBatchBarrier (s : txnStep) (l : list txnStep) (e : err) : M err :=
  e ← executionError s e;
  applyFailedStepEffect s e;;
  match l with
  | [] => resolveOp (op s) 0 e;; resolveSuffix (op s + 1);; mret e
  | next :: _ =>
      let primary := errors_Join [e; Some (Sentinel dap_ErrIndeterminate)] in
      on_core (smod loseFraming);;
      (if op next =? op s then resolveOp (op s) 0 primary else resolveOp (op s) 0 e);;
      resolveIndeterminateSteps l primary;;
      resolveAfter l;;
      mret primary
  end.

Definition handleBatchNotExecuted (s : txnStep) (batchErr : err) (waits : Z) : M err :=
  if 0 <? waits then e ← on_core (finishWait (abortWait fuel) (default nilCause batchErr)); failStep s (Some e)
  else failStep s batchErr.

Definition failBatchWAITCleanup (ctx : context) (s : txnStep) (l : list txnStep) (rs : list transferResult) (c : error) : M err :=
  if negb (batchSuffixAbandoned rs) then failUnexpectedBatchSuffix (take (clockedTransferCount rs) (s :: l)) c
  else
    cause ← on_core (canceledWAITCause ctx (Some c));
    e ← executionError s cause;
    on_core (smod loseFraming);;
    resolveOp (op s) 0 e;;
    resolveSuffix (op s + 1);;
    mret e.

(** Also returns the WAIT count of the step. *)
Definition retryBatchWAIT (ctx : context) (s : txnStep) (l : list txnStep) (rs : list transferResult) (waits : Z) : M (err * Z) :=
  if negb (batchSuffixAbandoned rs) then
    e ← failUnexpectedBatchSuffix (take (clockedTransferCount rs) (s :: l)) (Sentinel swd_ErrWait); mret (e, waits)
  else
    pending ← on_core (sget selectPending);
    if pending : bool then
      on_core (smod loseFraming);;
      e ← failStep s (Some (Join [Sentinel swd_ErrWait; Sentinel dap_ErrIndeterminate; New "dap: WAIT cleanup abandoned a pending SELECT write"]));
      mret (e, waits)
    else
      observeStep s 0 (Some (Sentinel swd_ErrWait));;
      v ← on_core (validateWait (req s) (Sentinel swd_ErrWait));
      match v with
      | Some _ => e ← failStep s v; mret (e, waits)
      | None =>
          overrun ← on_core (sget (fun st => bool_decide (response st = responseOverrun)));
          if operationStarted s && deliverValue s && negb (settlesDPWrite s) && overrun then
            c ← on_core (lostPostedRead ctx); e ← failStep s (Some c); mret (e, waits)
          else
            let waits := waits + 1 in
            stop ← on_core (stopAfterWAIT (abortWait fuel) ctx waits);
            match stop with
            | Some _ => e ← failStep s stop; mret (e, waits)
            | None => mret (None, waits)
            end
      end.

(** The first of [rs] failed with [c]; [s :: l] are its step and the rest of the
    batch. *)
Definition handleBatchFailure (ctx : context) (s : txnStep) (l : list txnStep) (rs : list transferResult) (r : transferResult) (c : error) (batchErr : err) (waits : Z) : M (err * Z) :=
  let keep (m : M err) : M (err * Z) := e ← m; mret (e, waits) in
  let clocked := take (clockedTransferCount rs) (s :: l) in
  if Is c swd_ErrIndeterminate then keep (failBatchTransport s l rs batchErr)
  else if bool_decide (r_outcome r = transferUnsent) then keep (handleBatchNotExecuted s batchErr waits)
  else if Is c swd_ErrWait then
    if negb (err_eqb (Some c) swd_ErrWait) then keep (failBatchWAITCleanup ctx s l rs c)
    else retryBatchWAIT ctx s l rs waits
  else
    observeStep s (r_data r) (Some c);;
    if Is c swd_ErrFault then
      if negb (batchSuffixAbandoned rs) then keep (failUnexpectedBatchSuffix clocked c)
      else
        o ← getOp (op s);
        f ← on_core (handleFault (req s) (stepMayAffectAP s) (preserveAP o));
        keep (failStep s (Some f))
    else if Is c swd_ErrParity then
      match tail clocked with
      | [] => keep (failStep s (Some c))
      | more =>
          if settlesDPWrite s || completesWrite s then keep (failCompletedBatchBarrier s more (Some c))
          else keep (failClockedSuffix clocked (Some c))
      end
    else keep (failClockedSuffix clocked (errors_Join [Some c; batchErr])).

Definition transferSteps (ctx : context) (l : list txnStep) : M (list transferResult * err) :=
  '(rs, e) ← on_core (commitBatch ctx ((fun s => (req s, step_data s)) <$> l));
  let completed i s :=
    let '(v, e) := default pendingResult (rs !! i) in swdResult (if Read (req s) then v else 0) e in
  mret (imap completed l, e).

(** [waits] counts the WAITs of the first of the remaining steps; the others
    have not been sent yet or have none. *)
Fixpoint execute_loop (n : nat) (ctx : context) (l : list txnStep) (waits : Z) : M err :=
  match n, nextBatchBoundary l with
  | _, None => mret None
  | O, _ => out_of_fuel
  | S n, Some stop =>
      '(rs, batchErr) ← transferSteps ctx (take stop l);
      let failed := firstFailedTransfer rs in
      acceptBatchPrefix (take stop l) rs failed;;
      match drop failed rs, drop failed (take stop l) with
      | r :: rs', s :: l' =>
          match r_cause r with
          | None => mret None
          | Some c =>
              let waits := if (failed =? 0)%nat then waits else 0 in
              '(e, waits) ← handleBatchFailure ctx s l' (r :: rs') r c batchErr waits;
              match e with
              | Some e => mret (Some e)
              | None => execute_loop n ctx (drop failed l) waits
              end
          end
      | _, _ => execute_loop n ctx (drop stop l) 0
      end
  end.

Definition execute (ctx : context) (l : list txnStep) : M err := execute_loop fuel ctx l 0.

Definition recordSWDCompletions : M unit := modify (fun s =>
  put_ops ((fun o => match heap s !! result o with Some r => recordSWDCompletion o r | None => o end) <$> ops s) s).

(** [result.err = classifyPortError(result.err)] *)
Definition classifyResult (p : nat) : M unit :=
  modify (set_heap (alter (fun r => mkTxnResult (resolved r) (result_value r) (classifyPortError (result_err r))) p)).

Definition executeTxn (ctx : context) : M err :=
  e ← on_core (settlePreviousDPWrite fuel (abortWait fuel) ctx);
  r ← (match e with
       | Some e => resolveSuffix 0;; mret (Some e)
       | None =>
           dp ← on_core (pget id);
           l ← gets ops;
           e ← execute ctx (plan l (newSWDTxnPlanner dp));
           mapM_ (fun o => classifyResult (result o)) l;;
           mret (classifyPortError e)
       end);
  recordSWDCompletions;;
  mret r.

(** ** One operation at a time (txn_serial.go) *)

Definition executeAP (ctx : context) (o : txnOp) : M (Z * err) :=
  generation ← on_core (sget apGeneration);
  '(possible, v, e) ← on_core (
     if bool_decide (kind o = txnWriteRawAP)
     then '(possible, e) ← writeAPEffect fuel ctx (apSel o) (apAddr o) (data o) (preserveAP o); mret (possible, 0, e)
     else readAPEffect fuel ctx (apSel o) (apAddr o) (preserveAP o));
  let raw := bool_decide (kind o = txnWriteRawAP) || bool_decide (kind o = txnReadRawAP) in
  now ← on_core (sget apGeneration);
  (if possible && raw && (negb (preserveAP o) || (errors_Is e dap_ErrIndeterminate && negb (ordinaryFaultCleared e))) && (now =? generation)
   then on_core (smod invalidateAP) else mret tt);;
  mret (v, e).

(** Runs a transaction of the given operations inside another one. *)
Definition nested {A} (l : list txnOp) (m : M A) : M (A * list txnOp) := fun s =>
  match m (put_ops l s) with
  | Done (a, s') => Done ((a, ops s'), put_ops (ops s) s')
  | Panicked => Panicked
  | OutOfFuel => OutOfFuel
  end.

Definition resultValue (p : nat) : M Z := gets (fun s => match heap s !! p with Some r => result_value r | None => 0 end).

(** Returns the operation as the inner transaction left it. *)
Definition executeSWDOp (ctx : context) (o : txnOp) : M (Z * err * txnOp) :=
  if bool_decide (kind o = txnReadDP) || bool_decide (kind o = txnWriteDP) then
    '(e, _) ← nested [o] (executeTxn ctx);
    v ← resultValue (result o);
    mret (v, e, o)
  else
    s ← on_core (selectAP fuel ctx (apSel o) (apAddr o));
    match s with
    | Some e => mret (0, Some e, o)
    | None =>
        dp ← on_core (pget id);
        let planner := newSWDTxnPlanner dp in
        let planner := if bool_decide (kind o = txnWriteAPSequence) then appendAPWriteSequence 0 o planner else appendAP 0 o planner in
        '(e, l) ← nested [o] (e ← execute ctx (steps planner); recordSWDCompletions;; mret e);
        classifyResult (result o);;
        v ← resultValue (result o);
        mret (v, classifyPortError e, default o (head l))
    end.

(** [&txnResult{}] *)
Definition newResult : M nat :=
  p ← gets (fun s => length (heap s));
  modify (set_heap (fun h => h ++ [mkTxnResult false 0 None]));;
  mret p.

Fixpoint writeSWDSequence (ctx : context) (o : txnOp) (vs : list Z) : M (err * txnOp) :=
  match vs with
  | [] => mret (None, o)
  | v :: vs =>
      p ← newResult;
      let part := set_counts 0 0 false (set_values [v] p o) in
      '(_, e, part) ← executeSWDOp ctx part;
      let o := set_counts (accepted o + accepted part) (confirmed o + confirmed part) (uncertainWrite o) o in
      match e with
      | Some _ => mret (e, set_counts (accepted o) (confirmed o) (uncertainWrite part) o)
      | None => writeSWDSequence ctx o vs
      end
  end.

Fixpoint write_loop (ctx : context) (o : txnOp) (vs : list Z) : M (err * txnOp) :=
  match vs with
  | [] => mret (None, o)
  | v :: vs =>
      '(possible, e) ← on_core (writeAPEffect fuel ctx (apSel o) (apAddr o) v (preserveAP o));
      let o := set_counts (accepted o + if possible : bool then 1 else 0) (confirmed o) (uncertainWrite o) o in
      match e with
      | Some _ =>
          mret (e, if registerCompletionKnown e then set_counts (accepted o) (confirmed o + 1) (uncertainWrite o) o
                   else set_counts (accepted o) (confirmed o) possible o)
      | None => write_loop ctx (set_counts (accepted o) (confirmed o + 1) (uncertainWrite o) o) vs
      end
  end.

(** [dp.conn != nil && dp.conn.register == nil] *)
Definition overWire : GoM (PSt W) bool := pget (fun dp => bool_decide (bound_to dp = swdBinding)).

Definition writeSequence (ctx : context) (o : txnOp) : M (err * txnOp) :=
  wire ← on_core overWire;
  if wire : bool then writeSWDSequence ctx o (values o) else write_loop ctx o (values o).

Definition executeOp (ctx : context) (o : txnOp) : M (Z * err * txnOp) :=
  c ← on_core (ctxErr ctx);
  match c with
  | Some e => mret (0, Some e, o)
  | None =>
      wire ← on_core overWire;
      if wire && negb (bool_decide (kind o = txnWriteAPSequence)) then executeSWDOp ctx o
      else
        match kind o with
        | txnReadDP => '(v, e) ← on_core (readDP fuel (abortWait fuel) ctx (dpReg o)); mret (v, e, o)
        | txnWriteDP =>
            e ← on_core (
              e ← writeDP fuel (abortWait fuel) ctx (dpReg o) (data o);
              jt ← pget is_jtag;
              if is_nil e && negb jt then settlePreviousDPWrite fuel (abortWait fuel) ctx else mret e);
            mret (0, e, o)
        | txnWriteAPSequence => '(e, o) ← writeSequence ctx o; mret (0, e, o)
        | _ => '(v, e) ← executeAP ctx o; mret (v, e, o)
        end
  end.

Fixpoint sequential_loop (ctx : context) (i : Z) (l : list txnOp) : M err :=
  match l with
  | [] => mret None
  | o :: l =>
      '(v, e, o') ← executeOp ctx o;
      set_ops (insert (Z.to_nat i) o');;
      resolveResult (result o) v (if registerCompletionKnown e then None else e);;
      match e with
      | Some _ => resolveSuffix (i + 1);; mret e
      | None => sequential_loop ctx (i + 1) l
      end
  end.

Definition executeSequentialTxn (ctx : context) : M err :=
  jt ← on_core (pget is_jtag);
  e ← (if negb jt then on_core (settlePreviousDPWrite fuel (abortWait fuel) ctx) else mret None);
  match e with
  | Some e => resolveSuffix 0;; mret (Some e)
  | None => l ← gets ops; sequential_loop ctx 0 l
  end.

(** ** Queueing and committing (txn.go) *)

Definition NewTxn : M unit := modify (fun s => mkX (heap s) true [] false (core s)).

Definition queue (o : nat -> txnOp) : M nat :=
  p ← newResult;
  done_ ← gets committed;
  if done_ : bool then resolveResult p 0 (Some (Sentinel dap_ErrTxnCommitted));; mret p
  else set_ops (fun l => l ++ [o p]);; mret p.

Definition dpOp k reg d p := mkTxnOp k reg noSel 0 d [] false p None 0 0 false.
Definition apOp k sel addr d vs preserve p := mkTxnOp k noReg sel addr d vs preserve p None 0 0 false.

Definition txn_ReadDP (reg : DPRegister) : M nat := queue (dpOp txnReadDP reg 0).
Definition txn_WriteDP (reg : DPRegister) (v : Z) : M nat := queue (dpOp txnWriteDP reg v).
Definition txn_ReadAPIDR (sel : APSel) : M nat := queue (apOp txnReadAPIDR sel (register sel apIDRAddress) 0 [] false).
Definition txn_ReadRawAP (a : APAddress) : M nat := queue (apOp txnReadRawAP (addr_sel a) (addr_value a) 0 [] false).
Definition txn_WriteRawAP (a : APAddress) (v : Z) : M nat := queue (apOp txnWriteRawAP (addr_sel a) (addr_value a) v [] false).
Definition txn_readAP (sel : APSel) (addr : Z) : M nat := queue (apOp txnReadRawAP sel (register sel addr) 0 [] true).
Definition txn_writeAP (sel : APSel) (addr v : Z) : M nat := queue (apOp txnWriteRawAP sel (register sel addr) v [] true).
Definition txn_writeAPSequence (sel : APSel) (addr : Z) (vs : list Z) : M nat := queue (apOp txnWriteAPSequence sel (register sel addr) 0 vs true).
Definition txn_readAPSequential (sel : APSel) (addr : Z) : M nat := queue (apOp txnReadAPSequential sel (register sel addr) 0 [] true).

(** [validateOp] is the body of its loop. *)
Definition validate : M err :=
  dp ← on_core (pget id);
  set_ops (fmap (fun o => set_op_err (validateOp dp o) o));;
  l ← gets ops;
  mret (errors_Join (op_err <$> l)).

Definition needsConnected (o : txnOp) : bool := negb (bool_decide (kind o = txnReadDP)) && negb (bool_decide (kind o = txnWriteDP)).

(** The loop of [checkAccess]: errors up to the first failure. *)
Fixpoint check_loop (dp : DebugPort) (ctx : context) (l : list txnOp) : list txnOp * err :=
  match l with
  | [] => ([], None)
  | o :: l =>
      let e := if needsConnected o then requireConnected dp ctx else requireOperational dp ctx in
      match e with
      | Some e => (set_op_err (Some e) o :: l, Some e)
      | None => let '(l, e) := check_loop dp ctx l in (set_op_err None o :: l, e)
      end
  end.

Definition checkAccess (ctx : context) : M err :=
  dp ← on_core (pget id);
  l ← gets ops;
  let '(l, e) := check_loop dp ctx l in
  set_ops (fun _ => l);;
  mret e.

Definition Commit (ctx : context) : M err :=
  done_ ← gets committed;
  if done_ : bool then mret (Some (Sentinel dap_ErrTxnCommitted))
  else
    modify (fun s => mkX (heap s) (has_dp s) (ops s) true (core s));;
    l ← gets ops;
    match l with
    | [] => mret None
    | _ =>
        present ← gets has_dp;
        if negb present then
          let e := New "dap: nil debug port" in
          resolveAll e;; mret (Some e)
        else
          v ← validate;
          match v with
          | Some e => resolveInvalid;; mret (Some e)
          | None =>
              a ← checkAccess ctx;
              match a with
              | Some e => resolveInvalid;; mret (Some e)
              | None =>
                  dp ← on_core (pget id);
                  e ← (if is_jtag dp || is_register dp || (dpVersion dp =? 3)
                       then executeSequentialTxn ctx else executeTxn ctx);
                  on_core (callerError ctx e)
              end
          end
    end.
End Txn.
Arguments XSt W : clear implicits.
