(* ===== verification/DapMemAP.v ===== *)
(** * Memory access ports (dap/memap.go, memap_block.go, memap_debugbase.go) and
      the enumeration of access ports (dap/enumerate.go)

    A MEM-AP reaches target memory through its CSW, TAR and DRW registers: it
    saves what it will change, selects a size, writes an address, and reads or
    writes data in transactions.  At any time at most one transaction is in
    hand. *)

From S2P Require Import Prelude Go JtagTap JtagConn JtagChain DapTypes DapErrors DapPlan DapPort DapJtag DapSwd DapAccess DapTxn DapBlock.
Local Open Scope Z_scope.

Definition memAPCSW : Z := 0x00.
Definition memAPTAR : Z := 0x04.
Definition memAPTARHI : Z := 0x08.
Definition memAPDRW : Z := 0x0c.
Definition memAPCFG : Z := 0xf4.
Definition memAPBASE : Z := 0xf8.
Definition memAPBASEHI : Z := 0xf0.
Definition memAPClass : Z := 0x08.
Definition cswSize : Z := 0x07.
Definition cswAddrInc : Z := 0x30.
Definition cswSize32 : Z := 0x02.
Definition cswIncSingle : Z := 0x10.
Definition cfgBigEndian : Z := Z.shiftl 1 0.
Definition cfgLargeAddr : Z := Z.shiftl 1 1.
Definition cfgLargeData : Z := Z.shiftl 1 2.

(** [m_dp] says whether the handle has a debug port: the zero value has none. *)
Record MemAP := mkMemAP {
  m_dp : bool;
  m_sel : APSel;
  epoch : Z;
  restoreEpoch : Z;
  m_sessionID : Z;
  csw : Z;
  savedCSW : Z;
  savedTAR : Z;
  savedTARHI : Z;
  bigEndian : bool;
  largeAddress : bool;
  largeData : bool;
  largePending : bool;
  restoreCSW : bool;
  restoreTAR : bool;
  restoreTARHI : bool
}.

Definition set_pending (p c t h : bool) (m : MemAP) : MemAP :=
  mkMemAP (m_dp m) (m_sel m) (epoch m) (restoreEpoch m) (m_sessionID m) (csw m) (savedCSW m) (savedTAR m) (savedTARHI m)
    (bigEndian m) (largeAddress m) (largeData m) p c t h.
Definition set_largePending p m := set_pending p (restoreCSW m) (restoreTAR m) (restoreTARHI m) m.
Definition set_restoreCSW c m := set_pending (largePending m) c (restoreTAR m) (restoreTARHI m) m.
Definition set_restoreTAR t m := set_pending (largePending m) (restoreCSW m) t (restoreTARHI m) m.
Definition set_restoreTARHI h m := set_pending (largePending m) (restoreCSW m) (restoreTAR m) h m.
Definition set_restoreEpoch e m :=
  mkMemAP (m_dp m) (m_sel m) (epoch m) e (m_sessionID m) (csw m) (savedCSW m) (savedTAR m) (savedTARHI m)
    (bigEndian m) (largeAddress m) (largeData m) (largePending m) (restoreCSW m) (restoreTAR m) (restoreTARHI m).

Definition validateMemAPErrorMode (sel : APSel) (cfg csw : Z) : err :=
  if v2 sel && ((0x100 <? Z.land cfg 0xf00) || any_bits csw (Z.shiftl 3 16))
  then Some (New "dap: unsupported ADIv6 MEM-AP error handling") else None.

Section Open.
Context {W : Type} `{Env W} `{SwdLink W} `{RegisterTransport W} `{ChainLink W}.
Abbreviation M := (GoM (PSt W)).
Variable fuel : nat.

(** [value, err := dp.readAP(..); if err != nil { return nil, err }] *)
Definition reading {A} (ctx : context) (sel : APSel) (addr : Z) (k : Z -> M (option A * err)) : M (option A * err) :=
  '(v, e) ← readAP fuel ctx sel addr;
  match e with Some e => mret (None, Some e) | None => k v end.

Definition snapshotMemAP (ctx : context) (sel : APSel) : M (option MemAP * err) :=
  match snd (validateAPSel sel) with
  | Some e => mret (None, Some e)
  | None =>
      '(idr, e) ← ReadAPIDR fuel ctx sel;
      match e with
      | Some e => mret (None, Some e)
      | None =>
          if ap_Raw idr =? 0 then mret (None, Some (New "dap: %s is absent"))
          else if negb (ap_Class idr =? memAPClass) then mret (None, Some (New "dap: %s is not a MEM-AP"))
          else
            reading ctx sel memAPCFG (fun cfg =>
            reading ctx sel memAPCSW (fun csw =>
            match validateMemAPErrorMode sel cfg csw with
            | Some e => mret (None, Some e)
            | None =>
                (if any_bits cfg cfgLargeAddr then reading ctx sel memAPTARHI else fun k => k 0) (fun tarhi =>
                reading ctx sel memAPTAR (fun tar =>
                guard (ctxErr ctx) (fun e => mret (None, Some e)) (
                s ← sget id;
                let configuredCSW := Z.lor (and_not csw (Z.lor cswSize cswAddrInc)) cswSize32 in
                mret (Some (mkMemAP true sel (apGeneration s) (apGeneration s) (sessionID s) configuredCSW csw tar tarhi
                              (any_bits cfg cfgBigEndian) (any_bits cfg cfgLargeAddr) (any_bits cfg cfgLargeData)
                              false false false false), None))))
            end))
      end
  end.

Definition OpenMemAP_body (ctx : context) (sel : APSel) : M (option MemAP * err) :=
  match snd (validateAPSel sel) with
  | Some e => mret (None, Some e)
  | None =>
      dp ← pget id;
      match requireConnected dp ctx with
      | Some e => mret (None, Some e)
      | None =>
          if bool_decide (sel ∈ memAPs dp) then mret (None, Some (New "dap: access port is already owned"))
          else
            '(memory, e) ← snapshotMemAP ctx sel;
            match e with
            | Some e => mret (None, Some e)
            | None => pmod (fun dp => set_memAPs (sel :: memAPs dp) dp);; mret (memory, None)
            end
      end
  end.

(** The deferred call gives the selector back when the context has ended. *)
Definition OpenMemAP (ctx : context) (sel : APSel) : M (option MemAP * err) :=
  '(memory, e) ← OpenMemAP_body ctx sel;
  e ← callerError ctx e;
  match e, memory with
  | Some _, Some _ => pmod (fun dp => set_memAPs (filter (fun s => s <> sel) (memAPs dp)) dp);; mret (None, e)
  | _, _ => mret (memory, e)
  end.
End Open.

Section Memory.
Context {W : Type} `{Env W} `{SwdLink W} `{RegisterTransport W} `{ChainLink W}.
Variable fuel : nat.

(** The handle, and the transaction in hand on its debug port. *)
Record MSt := mkMSt { mem : MemAP; txn : XSt W }.
Abbreviation M := (GoM MSt).

Definition mget {A} (f : MemAP -> A) : M A := gets (fun s => f (mem s)).
Definition mmod (f : MemAP -> MemAP) : M unit := modify (fun s => mkMSt (f (mem s)) (txn s)).

Definition on_txn {A} (m : GoM (XSt W) A) : M A := fun s =>
  match m (txn s) with
  | Done (a, x) => Done (a, mkMSt (mem s) x)
  | Panicked => Panicked
  | OutOfFuel => OutOfFuel
  end.
Definition on_dp {A} (m : GoM (PSt W) A) : M A := on_txn (on_core m).

(** [if err := m; err != nil { fail }; k] *)
Definition check {A} (m : M err) (fail : error -> M A) (k : M A) : M A :=
  e ← m;
  match e with Some e => fail e | None => k end.
Definition failed (e : error) : M err := mret (Some e).

(** [result.Value()] *)
Definition resultAt (p : nat) : M (Z * err) := on_txn (gets (fun x =>
  match heap x !! p with Some r => ReadResult_Value r | None => (0, Some (Sentinel dap_ErrResultPending)) end)).

(** ** Checks and selection (memap.go) *)

Definition checkActive (ctx : context) : M err :=
  m ← mget id;
  if negb (m_dp m) then failed (New "dap: nil MEM-AP")
  else
    dp ← on_dp (pget id);
    if negb (m_sessionID m =? sessionID (state dp)) then failed (New "dap: MEM-AP belongs to an earlier debug-port session")
    else if negb (epoch m =? apGeneration (state dp)) then failed (New "dap: %s: MEM-AP state was invalidated by debug-port recovery")
    else mret (requireConnected dp ctx).

Definition checkScalar (ctx : context) (addr : Z) (size : TransferSize) : M err :=
  check (checkActive ctx) failed (
  m ← mget id;
  match validateScalarAccess addr size (largeAddress m) with
  | Some e => failed (wrapf "dap: %s target memory: %w" e)
  | None =>
      if (size =? Size64) && negb (largeData m) then failed (New "dap: %s target memory: Size64 requires CFG.LD")
      else mret None
  end).

Definition requireLargeDataCleanup (generation : Z) : M unit :=
  on_dp (g ← sget apGeneration;
         (if g =? generation then smod invalidateAP else mret tt);;
         smod beginRepair).

Definition selectCSWTxn (ctx : context) (size : TransferSize) (addrInc : Z) : M err :=
  match transferSizeEncoding size with
  | (_, Some e) => failed e
  | (encoding, None) =>
      mmod (set_restoreCSW true);;
      m ← mget id;
      let desired := Z.lor (Z.lor (and_not (csw m) (Z.lor cswSize cswAddrInc)) encoding) addrInc in
      on_txn (txn_writeAP (m_sel m) memAPCSW desired);;
      selected ← on_txn (txn_readAP (m_sel m) memAPCSW);
      check (on_txn (Commit fuel ctx)) failed (
      mmod (set_largePending false);;
      '(v, e) ← resultAt selected;
      match e with
      | Some e => failed e
      | None =>
          if negb (Z.land v cswSize =? encoding) then failed (New "dap: MEM-AP does not support %d-bit transfers")
          else if negb (Z.land v cswAddrInc =? addrInc) then failed (Sentinel dap_errAddressIncrementUnsupported)
          else mret None
      end)
  end.

Definition selectCSW (ctx : context) (size : TransferSize) (addrInc : Z) : M err :=
  on_txn NewTxn;; selectCSWTxn ctx size addrInc.
Definition selectSize (ctx : context) (size : TransferSize) : M err := selectCSW ctx size 0.

Definition prepareScalarTxn (addr : Z) : M unit :=
  m ← mget id;
  (if largeAddress m then mmod (set_restoreTARHI true);; on_txn (txn_writeAP (m_sel m) memAPTARHI (uint32 (Z.shiftr addr 32)));; mret tt
   else mret tt);;
  mmod (set_restoreTAR true);;
  on_txn (txn_writeAP (m_sel m) memAPTAR (uint32 addr));; mret tt.

Definition scalarTxn (addr : Z) : M unit := on_txn NewTxn;; prepareScalarTxn addr.

Definition scalarAccessTxn (ctx : context) (addr : Z) (size : TransferSize) : M err :=
  scalarTxn addr;;
  if negb (size =? Size64) then mret None
  else check (on_txn (Commit fuel ctx)) failed (on_txn NewTxn;; mret None).

(** ** Scalars (memap.go) *)

(** The error path of a 64-bit access whose first half may have happened. *)
Definition largeFailed (size : TransferSize) (generation : Z) (first : err) : M unit :=
  if (size =? Size64) && negb (errors_Is first dap_ErrNotExecuted)
  then mmod (set_largePending true);; requireLargeDataCleanup generation
  else mret tt.

Definition fail_scalar (e : error) : M (Z * err) := mret (0, Some e).

Definition readScalar (ctx : context) (addr : Z) (size : TransferSize) : M (Z * err) :=
  check (checkScalar ctx addr size) fail_scalar (
  check (selectSize ctx size) fail_scalar (
  check (scalarAccessTxn ctx addr size) fail_scalar (
  m ← mget id;
  low ← on_txn (txn_readAP (m_sel m) memAPDRW);
  high ← (if size =? Size64 then p ← on_txn (txn_readAP (m_sel m) memAPDRW); mret (Some p) else mret None);
  generation ← on_dp (sget apGeneration);
  check (on_txn (Commit fuel ctx))
    (fun e => '(_, first) ← resultAt low; largeFailed size generation first;; fail_scalar e) (
  mmod (set_largePending false);;
  '(lowValue, e) ← resultAt low;
  match e with
  | Some e => fail_scalar e
  | None =>
      match high with
      | Some p =>
          '(highValue, e) ← resultAt p;
          match e with
          | Some e => fail_scalar e
          | None => mret (Z.lor lowValue (Z.shiftl highValue 32), None)
          end
      | None => mret (scalar_value (bigEndian m) lowValue addr size, None)
      end
  end)))).

Definition ReadScalar := readScalar.
Definition ReadWord (ctx : context) (addr : Z) : M (Z * err) :=
  '(v, e) ← ReadScalar ctx addr Size32; mret (uint32 v, e).

Definition WriteScalar (ctx : context) (addr : Z) (size : TransferSize) (v : Z) : M err :=
  check (checkScalar ctx addr size) failed (
  if negb (and_not v (sizeMask size) =? 0) then failed (New "dap: write target memory: value %#x exceeds %d bits")
  else
    check (selectSize ctx size) failed (
    check (scalarAccessTxn ctx addr size) failed (
    m ← mget id;
    first ← (if size =? Size64 then
               first ← on_txn (txn_writeAP (m_sel m) memAPDRW (uint32 v));
               on_txn (txn_writeAP (m_sel m) memAPDRW (uint32 (Z.shiftr v 32)));; mret first
             else on_txn (txn_writeAP (m_sel m) memAPDRW (shl32 (uint32 v) (laneShift (bigEndian m) addr size))));
    generation ← on_dp (sget apGeneration);
    e ← on_txn (Commit fuel ctx);
    match e with
    | None => mmod (set_largePending false);; mret None
    | Some e => '(_, firstErr) ← resultAt first; largeFailed size generation firstErr;; failed e
    end))).

Definition WriteWord (ctx : context) (addr v : Z) : M err := WriteScalar ctx addr Size32 v.

(** ** Restoration (memap.go) *)

Definition prepareRelease (ctx : context) : M err :=
  if ctx_nil ctx then failed (New "dap: nil context")
  else
    check (on_dp (ctxErr ctx)) failed (
    m ← mget id;
    s ← on_dp (sget id);
    if negb (m_sessionID m =? sessionID s) then failed (New "dap: MEM-AP belongs to an earlier debug-port session")
    else if bool_decide (session s = sessionIdle) then failed (New "dap: debug port is not connected")
    else if negb (responseKnown s) then
      check (on_dp (reenter fuel (abortWait fuel) ctx))
        (fun e => failed (wrapf "dap: restore protocol state for MEM-AP release: %w" e)) (mret None)
    else mret None).

(** [pending] points to one of the restore flags. *)
Definition restoreRegister (ctx : context) (pending : MemAP -> bool) (clear : MemAP -> MemAP) (reg v : Z) : M err :=
  m ← mget id;
  if negb (pending m) then mret None
  else
    check (on_dp (writeAP fuel ctx (m_sel m) reg v)) (fun e => failed (wrapf "dap: restore MEM-AP %s: %w" e)) (
    mmod clear;; mret None).

Definition restore_CSW (ctx : context) : M err := m ← mget id; restoreRegister ctx restoreCSW (set_restoreCSW false) memAPCSW (savedCSW m).
Definition restore_TAR (ctx : context) : M err := m ← mget id; restoreRegister ctx restoreTAR (set_restoreTAR false) memAPTAR (savedTAR m).
Definition restore_TARHI (ctx : context) : M err := m ← mget id; restoreRegister ctx restoreTARHI (set_restoreTARHI false) memAPTARHI (savedTARHI m).

(** An invalidation since the last restoration makes everything pending. *)
Definition refreshRestore : M unit :=
  m ← mget id;
  generation ← on_dp (sget apGeneration);
  if negb (restoreEpoch m =? generation)
  then mmod (fun m => set_restoreEpoch generation (set_restoreCSW true (set_restoreTARHI (largeAddress m) (set_restoreTAR true m))))
  else mret tt.

Definition memap_Release_body (ctx : context) : M err :=
  check (prepareRelease ctx) failed (
  refreshRestore;;
  m ← mget id;
  check (if largePending m then check (restore_CSW ctx) failed (mmod (set_largePending false);; mret None) else mret None) failed (
  tarhiErr ← restore_TARHI ctx;
  tarErr ← restore_TAR ctx;
  cswErr ← restore_CSW ctx;
  mret (errors_Join [tarhiErr; tarErr; cswErr]))).

Definition memap_Release (ctx : context) : M err :=
  m ← mget id;
  if negb (m_dp m) then mret None
  else if negb (restoreCSW m) && negb (restoreTAR m) && negb (restoreTARHI m) then mret None
  else e ← memap_Release_body ctx; on_dp (callerError ctx e).

(** ** The debug base (memap_debugbase.go) *)

Definition memap_ReadDebugBase (ctx : context) : M (Z * bool * err) :=
  let fail e : M (Z * bool * err) := mret (0, false, Some e) in
  check (checkActive ctx) fail (
  check (on_dp (ctxErr ctx)) fail (
  m ← mget id;
  '(low, e) ← on_dp (readAP fuel ctx (m_sel m) memAPBASE);
  e ← on_dp (callerError ctx e);
  match e with
  | Some e => fail (wrapf "dap: read MEM-AP BASE: %w" e)
  | None =>
      match debugBasePresent low (largeAddress m) with
      | (_, Some e) => fail e
      | (false, None) => mret (0, false, None)
      | (true, None) =>
          let base high : M (Z * bool * err) := mret (Z.lor (Z.shiftl high 32) (Z.land low 0xfffff000), true, None) in
          if largeAddress m then
            '(high, e) ← on_dp (readAP fuel ctx (m_sel m) memAPBASEHI);
            e ← on_dp (callerError ctx e);
            match e with
            | Some e => fail (wrapf "dap: read MEM-AP BASE upper word: %w" e)
            | None => base high
            end
          else base 0
      end
  end)).

(** ** Blocks (memap_block.go)

    The caller's buffer is passed along and returned with what was stored. *)

Fixpoint sizes_loop (ctx : context) (checked : Z) (l : list blockSegment) : M err :=
  match l with
  | [] => mret None
  | seg :: l =>
      let bit := seg_size seg in
      if any_bits checked bit then sizes_loop ctx checked l
      else check (selectCSW ctx (seg_size seg) 0) (fun e => failed (wrapf "dap: %s target memory: %w" e))
             (sizes_loop ctx (Z.lor checked bit) l)
  end.

Definition checkBlockSizes (ctx : context) (l : list blockSegment) : M err := sizes_loop ctx 0 l.

(** [m.putBlockValue(buf[offset:], size, value)] *)
Definition put_at (be : bool) (buf : list Z) (offset : Z) (size : TransferSize) (v : Z) : option (list Z) :=
  if (offset <? 0) || (len buf <? offset) then None
  else dst ← putBlockValue be (drop (Z.to_nat offset) buf) size v; Some (take (Z.to_nat offset) buf ++ dst).

Definition readBlockEdge (ctx : context) (buf : list Z) (seg : blockSegment) (n : Z) : M (Z * err * list Z) :=
  '(v, e) ← readScalar ctx (seg_address seg) (seg_size seg);
  match e with
  | Some e => mret (n, Some e, buf)
  | None =>
      be ← mget bigEndian;
      buf ← lift (put_at be buf (seg_offset seg) (seg_size seg) v);
      mret (n + fst (sizeBytes (seg_size seg)), None, buf)
  end.

Fixpoint noIncrement_loop (ctx : context) (addr : Z) (i : nat) (count : nat) (results : list nat) : M (list nat * err) :=
  match count with
  | O => mret (results, None)
  | S count =>
      scalarTxn (uint64 (addr + Z.of_nat i * 4));;
      m ← mget id;
      p ← on_txn (txn_readAP (m_sel m) memAPDRW);
      let results := results ++ [p] in
      check (on_txn (Commit fuel ctx)) (fun e => mret (results, Some e)) (noIncrement_loop ctx addr (S i) count results)
  end.

Definition readWordsWithoutIncrement (ctx : context) (addr : Z) (count : Z) : M (list nat * err) :=
  check (selectCSW ctx Size32 0) (fun e => mret ([], Some e)) (noIncrement_loop ctx addr 0 (Z.to_nat count) []).

Fixpoint queueReads (m : MemAP) (count : nat) : M (list nat) :=
  match count with
  | O => mret []
  | S count => p ← on_txn (txn_readAPSequential (m_sel m) memAPDRW); l ← queueReads m count; mret (p :: l)
  end.

Definition readWordChunk (ctx : context) (addr count : Z) : M (list nat * err) :=
  check (selectCSW ctx Size32 cswIncSingle)
    (fun e => if Is e dap_errAddressIncrementUnsupported then readWordsWithoutIncrement ctx addr count else mret ([], Some e)) (
  scalarTxn addr;;
  m ← mget id;
  results ← queueReads m (Z.to_nat count);
  e ← on_txn (Commit fuel ctx);
  mret (results, e)).

(** Storing the results of a chunk, up to the first error. *)
Fixpoint store_loop (buf : list Z) (offset n : Z) (commitErr : err) (results : list nat) : M (Z * err * list Z) :=
  match results with
  | [] => mret (n, commitErr, buf)
  | p :: results =>
      '(v, e) ← resultAt p;
      match e with
      | Some _ => mret (n, if is_nil commitErr then e else commitErr, buf)
      | None =>
          be ← mget bigEndian;
          buf ← lift (put_at be buf offset Size32 v);
          store_loop buf (offset + 4) (n + 4) commitErr results
      end
  end.

(** Each turn reads at least one word; [seg_count] turns are enough. *)
Fixpoint readWords_loop (turns : nat) (ctx : context) (buf : list Z) (seg : blockSegment) (first n : Z) : M (Z * err * list Z) :=
  match turns with
  | O => mret (n, None, buf)
  | S turns =>
      if first <? seg_count seg then
        let count := Z.min (seg_count seg - first) blockReadChunkWords in
        let address := uint64 (seg_address seg + first * 4) in
        '(results, commitErr) ← readWordChunk ctx address count;
        '(n, e, buf) ← store_loop buf (seg_offset seg + first * 4) n commitErr results;
        match e with
        | Some e => mret (n, Some e, buf)
        | None => readWords_loop turns ctx buf seg (first + blockReadChunkWords) n
        end
      else mret (n, None, buf)
  end.

Definition readWordSegment (ctx : context) (buf : list Z) (seg : blockSegment) (n : Z) : M (Z * err * list Z) :=
  readWords_loop (Z.to_nat (seg_count seg)) ctx buf seg 0 n.

Fixpoint readSegments (ctx : context) (buf : list Z) (l : list blockSegment) (n : Z) : M (Z * err * list Z) :=
  match l with
  | [] => mret (n, None, buf)
  | seg :: l =>
      '(n, e, buf) ← (if autoIncrement seg then readWordSegment ctx buf seg n else readBlockEdge ctx buf seg n);
      match e with
      | Some e => mret (n, Some e, buf)
      | None => readSegments ctx buf l n
      end
  end.

Definition ReadBlock (ctx : context) (addr : Z) (buf : list Z) : M (Z * err * list Z) :=
  let fail e : M (Z * err * list Z) := mret (0, Some e, buf) in
  match buf with
  | [] => mret (0, None, buf)
  | _ =>
      check (checkActive ctx) fail (
      m ← mget id;
      match validateBlockRange addr (len buf) (largeAddress m) with
      | Some e => fail (wrapf "dap: read target memory: %w" e)
      | None =>
          let l := blockSegments addr (len buf) in
          check (checkBlockSizes ctx l) fail (readSegments ctx buf l 0)
      end)
  end.

Definition writeBlockRegister (ctx : context) (addr v : Z) : M err :=
  on_txn NewTxn;;
  m ← mget id;
  on_txn (txn_writeAP (m_sel m) addr v);;
  on_txn (Commit fuel ctx).

Definition markBlockWriteIndeterminate (e : error) (generation : Z) : M error :=
  on_dp (g ← sget apGeneration;
         if negb (ordinaryFaultCleared (Some e)) && (g =? generation) then smod invalidateAP else mret tt);;
  mret (if Is e dap_ErrIndeterminate then e else Join [e; Sentinel dap_ErrIndeterminate]).

Definition writeBlockValues (ctx : context) (addr : Z) (vs : list Z) : M (Z * err) :=
  m ← mget id;
  check (if largeAddress m then mmod (set_restoreTARHI true);; writeBlockRegister ctx memAPTARHI (uint32 (Z.shiftr addr 32)) else mret None) fail_scalar (
  mmod (set_restoreTAR true);;
  check (writeBlockRegister ctx memAPTAR (uint32 addr)) fail_scalar (
  on_txn NewTxn;;
  on_txn (txn_writeAPSequence (m_sel m) memAPDRW vs);;
  generation ← on_dp (sget apGeneration);
  e ← on_txn (Commit fuel ctx);
  match e with
  | None => mret (len vs, None)
  | Some e =>
      o ← on_txn (getOp 0);
      if confirmed o =? len vs then mret (len vs, Some e)
      else if uncertainWrite o then e ← markBlockWriteIndeterminate e generation; mret (confirmed o, Some e)
      else mret (confirmed o, Some e)
  end)).

Fixpoint writeEach_loop (ctx : context) (addr width : Z) (i confirmed : Z) (vs : list Z) : M (Z * err) :=
  match vs with
  | [] => mret (confirmed, None)
  | v :: vs =>
      '(count, e) ← writeBlockValues ctx (uint64 (addr + i * width)) [v];
      match e with
      | Some e => mret (confirmed + count, Some e)
      | None => writeEach_loop ctx addr width (i + 1) (confirmed + count) vs
      end
  end.

Definition writeWordsWithoutIncrement (ctx : context) (addr : Z) (size : TransferSize) (vs : list Z) : M (Z * err) :=
  check (selectCSW ctx size 0) fail_scalar (writeEach_loop ctx addr (fst (sizeBytes size)) 0 0 vs).

Definition writeBlockChunk (ctx : context) (addr : Z) (size : TransferSize) (addrInc : Z) (vs : list Z) : M (Z * err) :=
  check (selectCSW ctx size addrInc)
    (fun e => if (addrInc =? cswIncSingle) && Is e dap_errAddressIncrementUnsupported
              then writeWordsWithoutIncrement ctx addr size vs else fail_scalar e)
    (writeBlockValues ctx addr vs).

(** [values[i] = m.blockWriteValue(buf[offset:], ..)] for each value of a chunk. *)
Fixpoint chunk_values (be : bool) (buf : list Z) (offset address : Z) (size : TransferSize) (count : nat) : option (list Z) :=
  match count with
  | O => Some []
  | S count =>
      if (offset <? 0) || (len buf <? offset) then None
      else
        v ← blockWriteValue be (drop (Z.to_nat offset) buf) address size;
        let width := fst (sizeBytes size) in
        l ← chunk_values be buf (offset + width) (uint64 (address + width)) size count;
        Some (v :: l)
  end.

Fixpoint writeSegment_loop (turns : nat) (ctx : context) (buf : list Z) (seg : blockSegment) (limit addrInc first n : Z) : M (Z * err) :=
  match turns with
  | O => mret (n, None)
  | S turns =>
      if first <? seg_count seg then
        let width := fst (sizeBytes (seg_size seg)) in
        let count := Z.min (seg_count seg - first) limit in
        let address := uint64 (seg_address seg + first * width) in
        be ← mget bigEndian;
        vs ← lift (chunk_values be buf (seg_offset seg + first * width) address (seg_size seg) (Z.to_nat count));
        '(confirmed, e) ← writeBlockChunk ctx address (seg_size seg) addrInc vs;
        let n := n + confirmed * width in
        match e with
        | Some e => mret (n, Some e)
        | None => writeSegment_loop turns ctx buf seg limit addrInc (first + limit) n
        end
      else mret (n, None)
  end.

Definition writeBlockSegment (ctx : context) (buf : list Z) (seg : blockSegment) (n : Z) : M (Z * err) :=
  if autoIncrement seg then writeSegment_loop (Z.to_nat (seg_count seg)) ctx buf seg blockWriteChunkWords cswIncSingle 0 n
  else writeSegment_loop (Z.to_nat (seg_count seg)) ctx buf seg 1 0 0 n.

Fixpoint writeSegments (ctx : context) (buf : list Z) (l : list blockSegment) (n : Z) : M (Z * err) :=
  match l with
  | [] => mret (n, None)
  | seg :: l =>
      '(n, e) ← writeBlockSegment ctx buf seg n;
      match e with
      | Some e => mret (n, Some e)
      | None => writeSegments ctx buf l n
      end
  end.

Definition WriteBlock (ctx : context) (addr : Z) (buf : list Z) : M (Z * err) :=
  match buf with
  | [] => mret (0, None)
  | _ =>
      check (checkActive ctx) fail_scalar (
      m ← mget id;
      match validateBlockRange addr (len buf) (largeAddress m) with
      | Some e => fail_scalar (wrapf "dap: write target memory: %w" e)
      | None =>
          let l := blockSegments addr (len buf) in
          check (checkBlockSizes ctx l) fail_scalar (writeSegments ctx buf l 0)
      end)
  end.
End Memory.
Arguments MSt W : clear implicits.

(** ** Enumeration (enumerate.go) *)

Definition apEnumerationChunk : Z := 8.

Record APInfo := mkAPInfo { Selector : APSel; ap_Identity : APIDRInfo }.

Section Enumerate.
Context {W : Type} `{Env W} `{SwdLink W} `{RegisterTransport W} `{ChainLink W}.
Variable fuel : nat.
Abbreviation M := (GoM (XSt W)).

Fixpoint queueIDRs (start : Z) (count : nat) : M (list nat) :=
  match count with
  | O => mret []
  | S count => p ← txn_ReadAPIDR (NewAPSel (uint8 start)); l ← queueIDRs (start + 1) count; mret (p :: l)
  end.

(** The loop over the results. *)
Fixpoint found_loop (h : list txnResult) (start : Z) (commitErr : err) (l : list nat) (found : list APInfo) : list APInfo * err :=
  match l with
  | [] => (found, commitErr)
  | p :: l =>
      let '(v, e) := match h !! p with Some r => ReadResult_Value r | None => (0, Some (Sentinel dap_ErrResultPending)) end in
      match e with
      | Some _ => (found, if negb (is_nil commitErr) then commitErr else e)
      | None =>
          let found := if negb (v =? 0) then found ++ [mkAPInfo (NewAPSel (uint8 start)) (DecodeAPIDR v)] else found in
          found_loop h (start + 1) commitErr l found
      end
  end.

Definition enumerateAPChunk (ctx : context) (start stop : Z) : M (list APInfo * err) :=
  NewTxn;;
  results ← queueIDRs start (Z.to_nat (stop - start));
  commitErr ← Commit fuel ctx;
  h ← gets heap;
  mret (found_loop h start commitErr results []).

(** 256 selectors, in chunks: 32 turns. *)
Fixpoint enumerate_loop (turns : nat) (ctx : context) (start : Z) (found : list APInfo) : M (list APInfo * err) :=
  match turns with
  | O => mret (found, None)
  | S turns =>
      if start <? 256 then
        '(chunk, e) ← enumerateAPChunk ctx start (Z.min (start + apEnumerationChunk) 256);
        let found := found ++ chunk in
        match e with
        | Some e => mret (found, Some e)
        | None => enumerate_loop turns ctx (start + apEnumerationChunk) found
        end
      else mret (found, None)
  end.

Definition EnumerateAPs (ctx : context) : M (list APInfo * err) :=
  dp ← on_core (pget id);
  match requireConnected dp ctx with
  | Some e => mret ([], Some e)
  | None => enumerate_loop 33 ctx 0 []
  end.
End Enumerate.
