(* ===== verification/DapSwdFacts.v ===== *)
(** * Every request returns and keeps the debug-port state consistent

    The invariant of the debug-port state, and the proof that requests, register
    accesses and recovery keep it and return whatever the transport answers,
    provided WAIT responses are limited. *)

From S2P Require Import Prelude Go JtagTap JtagConn JtagChain DapTypes DapErrors DapPort DapJtag DapSwd.
Local Open Scope Z_scope.

(** ** The state invariant *)

(** A prior selection is kept only while a SELECT write is pending, and only a
    known selection can be pending; lost framing is never connected. *)
Definition select_inv (st : debugPortState) : Prop :=
  (selectPending st = false -> priorSELECT st = noSelect) /\
  (selectPending st = true -> valid (selectDP st) = true) /\
  (response st = responseLost -> session st <> sessionConnected).

(** A connected port knows the response grammar. *)
Definition framing_inv (st : debugPortState) : Prop := session st = sessionConnected -> responseKnown st = true.

(** State changes that keep both, and do not connect a port. *)
Definition tame (f : debugPortState -> debugPortState) : Prop :=
  forall st, (session st <> sessionConnected -> session (f st) <> sessionConnected) /\
    (select_inv st -> select_inv (f st)) /\ (framing_inv st -> framing_inv (f st)).

Create HintDb tame discriminated.

Ltac by_cases := let x := fresh "x" in intros x; split_and!; unfold select_inv, framing_inv, responseKnown; destruct x; simpl; intuition congruence.

Lemma tame_id : tame id. Proof. by_cases. Qed.
Lemma tame_compose f g : tame f -> tame g -> tame (fun st => f (g st)).
Proof. intros Hf Hg st. destruct (Hg st) as (? & ? & ?), (Hf (g st)) as (? & ? & ?). auto. Qed.
Lemma tame_if (b : debugPortState -> bool) f g : tame f -> tame g -> tame (fun st => if b st then f st else g st).
Proof. intros Hf Hg st. destruct (b st); [apply Hf|apply Hg]. Qed.

Lemma tame_confirmSELECT : tame confirmSELECT. Proof. by_cases. Qed.
Lemma tame_recordSELECT v : tame (recordSELECT v). Proof. by_cases. Qed.
Lemma tame_invalidateSELECT : tame invalidateSELECT. Proof. by_cases. Qed.
Lemma tame_settleDPWrite : tame settleDPWrite. Proof. by_cases. Qed.
Lemma tame_beginDPWrite : tame beginDPWrite. Proof. by_cases. Qed.
Lemma tame_invalidateAP : tame invalidateAP. Proof. by_cases. Qed.
Lemma tame_beginRepair : tame beginRepair. Proof. by_cases. Qed.
Lemma tame_ownPower v : tame (ownPower v). Proof. by_cases. Qed.
Lemma tame_clearOwnedPower : tame clearOwnedPower. Proof. by_cases. Qed.
Lemma tame_confirmResponse v : tame (confirmResponse v).
Proof. unfold confirmResponse. destruct (Z.land v overrunDetect =? 0); by_cases. Qed.
Lemma loseFraming_session st : session (loseFraming st) = sessionRepairRequired.
Proof. unfold loseFraming. by destruct (bool_decide (response st = responseLost)). Qed.
Lemma tame_loseFraming : tame loseFraming.
Proof.
  assert (tame (fun st => invalidateSELECT (set_response responseLost (set_session sessionRepairRequired st)))) as G by by_cases.
  intros st. unfold loseFraming. destruct (bool_decide (response st = responseLost)); [apply G|].
  by apply (tame_compose (fun st => invalidateSELECT (set_response responseLost (set_session sessionRepairRequired st))) invalidateAP);
    [|apply tame_invalidateAP].
Qed.
#[export] Hint Resolve tame_id tame_confirmSELECT tame_recordSELECT tame_invalidateSELECT tame_settleDPWrite tame_beginDPWrite
  tame_invalidateAP tame_beginRepair tame_ownPower tame_clearOwnedPower tame_confirmResponse tame_loseFraming : tame.

Lemma tame_resolveSELECTFromCTRLSTAT v : tame (resolveSELECTFromCTRLSTAT v).
Proof. unfold resolveSELECTFromCTRLSTAT. apply tame_if; [apply tame_id|]. destruct (any_bits v writeDataError); auto with tame. Qed.
#[export] Hint Resolve tame_resolveSELECTFromCTRLSTAT : tame.

Lemma tame_resolveSELECT r v e : tame (resolveSELECT r v e).
Proof.
  unfold resolveSELECT, resolveSELECTAfterABORT. apply tame_if; [apply tame_id|].
  destruct (errors_Is e swd_ErrWait); [apply tame_if; [auto with tame|apply tame_id]|].
  destruct (isABORTWrite r); [destruct (is_nil e); [auto with tame|apply tame_id]|].
  destruct (isDPIDRRead r); [apply tame_id|].
  apply (tame_if (fun st => isCTRLSTATRead r && valid (selectDP st) && (dpBank st =? 0))).
  - destruct (is_nil e); [auto with tame|apply tame_id].
  - destruct (is_nil e || err_eqb e swd_ErrParity); [auto with tame|apply tame_id].
Qed.

Lemma tame_recordDPRead reg v : tame (recordDPRead reg v).
Proof.
  unfold recordDPRead. destruct (negb (reg =? DPIDR) && negb (reg =? CTRLSTAT)).
  - apply (tame_compose (fun st => if (reg =? CTRLSTAT) && valid (selectDP st) && (dpBank st =? 0) then confirmResponse v st else st)); [|auto with tame].
    apply (tame_if (fun st => (reg =? CTRLSTAT) && valid (selectDP st) && (dpBank st =? 0))); [auto with tame|apply tame_id].
  - apply (tame_if (fun st => (reg =? CTRLSTAT) && valid (selectDP st) && (dpBank st =? 0))); [auto with tame|apply tame_id].
Qed.

Lemma tame_recordDPWriteState c reg v : tame (recordDPWriteState c reg v).
Proof.
  unfold recordDPWriteState. destruct (reg =? SELECT), c; cbv zeta.
  - do 3 (apply tame_compose; [auto with tame|]). auto with tame.
  - apply tame_compose; auto with tame.
  - do 2 (apply tame_compose; [auto with tame|]). auto with tame.
  - apply tame_beginDPWrite.
Qed.

Lemma tame_recordDPWrite c reg v : tame (recordDPWrite c reg v).
Proof.
  unfold recordDPWrite. destruct ((reg =? ABORT) && any_bits v dapAbort); [|apply tame_recordDPWriteState].
  apply (tame_compose invalidateAP); [auto with tame|apply tame_recordDPWriteState].
Qed.
#[export] Hint Resolve tame_resolveSELECT tame_recordDPRead tame_recordDPWriteState tame_recordDPWrite : tame.

(** ** Operations *)

(** Time: what is left before contexts end never grows, whatever is called.
    Every world has the trivial clock; a context with a deadline is one that
    runs a clock down each time it is asked. *)
Class Clock (W : Type) `{Env W, SwdLink W, RegisterTransport W} := {
  budget : W -> nat;
  budget_ctx ctx w : (budget (snd (ctx_Err ctx w)) <= budget w)%nat;
  budget_swd_Connect ctx t w : (budget (snd (swd_Connect ctx t w)) <= budget w)%nat;
  budget_swd_Release ctx w : (budget (snd (swd_Release ctx w)) <= budget w)%nat;
  budget_swd_Commit ctx l w : (budget (snd (swd_Commit ctx l w)) <= budget w)%nat;
  budget_reg_Connect ctx w : (budget (snd (reg_Connect ctx w)) <= budget w)%nat;
  budget_reg_Release ctx w : (budget (snd (reg_Release ctx w)) <= budget w)%nat;
  budget_reg_ReadDP ctx a w : (budget (snd (reg_ReadDP ctx a w)) <= budget w)%nat;
  budget_reg_WriteDP ctx a v w : (budget (snd (reg_WriteDP ctx a v w)) <= budget w)%nat;
  budget_reg_ReadAP ctx a w : (budget (snd (reg_ReadAP ctx a w)) <= budget w)%nat;
  budget_reg_WriteAP ctx a v w : (budget (snd (reg_WriteAP ctx a v w)) <= budget w)%nat
}.

Section Total.
Context {W : Type} `{Clock W} {fuel : nat}.
Abbreviation M := (GoM (PSt W)).

(** What every operation leaves alone, and what it keeps. *)
Definition frame (s s' : PSt W) : Prop :=
  bound_to (port s') = bound_to (port s) /\ maxWaits (port s') = maxWaits (port s) /\
  cleanupTimeout (port s') = cleanupTimeout (port s) /\ recovering s' = recovering s /\
  (budget (world s') <= budget (world s))%nat /\
  (session (state (port s)) <> sessionConnected -> session (state (port s')) <> sessionConnected).

#[global] Instance frame_preorder : PreOrder frame.
Proof.
  split; [by repeat split|]. intros s1 s2 s3 (? & ? & ? & ? & ? & ?) (? & ? & ? & ? & ? & ?).
  split_and!; first [congruence|lia|auto].
Qed.

Definition keeps (s s' : PSt W) : Prop :=
  frame s s' /\
  (select_inv (state (port s)) -> select_inv (state (port s'))) /\
  (framing_inv (state (port s)) -> framing_inv (state (port s'))).

#[global] Instance keeps_preorder : PreOrder keeps.
Proof.
  split.
  - intros s. by split.
  - intros s1 s2 s3 (F1 & A1 & B1) (F2 & A2 & B2). split; [exact (transitivity F1 F2)|auto].
Qed.

(** A port on SWD or on a register transport whose WAIT responses are limited,
    inside ([b]) or outside recovery, with fuel for those responses and for the
    time left. *)
Definition pre (b : bool) (s : PSt W) : Prop :=
  is_jtag (port s) = false /\ 1 <= maxWaits (port s) <= Z.of_nat fuel /\ recovering s = b /\ (budget (world s) < fuel)%nat.

Lemma frame_pre b s s' : frame s s' -> pre b s -> pre b s'.
Proof.
  intros (F1 & F2 & _ & F4 & F5 & _) (P1 & P2 & P3 & P4). unfold pre, is_jtag. rewrite F1, F2, F4.
  split; [done|]. split; [done|]. split; [done|lia].
Qed.

Lemma keeps_pre b s s' : keeps s s' -> pre b s -> pre b s'.
Proof.
  intros (F & _) Hp. exact (frame_pre b s s' F Hp).
Qed.

(** [m] returns from every state in [pre b] and keeps the invariant. *)
Definition Total {A} (b : bool) (m : M A) : Prop := forall s, pre b s -> wp m (fun _ s' => keeps s s') s.

Lemma Total_ret {A} b (a : A) : Total b (mret a).
Proof. intros s _. by apply wp_ret. Qed.

Lemma Total_bind {A B} b (m : M A) (f : A -> M B) : Total b m -> (forall a, Total b (f a)) -> Total b (mbind f m).
Proof.
  intros Hm Hf s Hs. apply wp_bind. eapply wp_mono; [by apply Hm|]. intros a s1 K1.
  eapply wp_mono; [apply Hf; exact (keeps_pre b s s1 K1 Hs)|]. intros x s2 K2. exact (transitivity K1 K2).
Qed.

Lemma Total_gets {A} b (f : PSt W -> A) : Total b (gets f).
Proof. intros s _. by apply wp_gets. Qed.

Lemma keeps_smod f s : tame f -> keeps s (set_port (set_state (f (state (port s))) (port s)) s).
Proof. intros Hf. destruct (Hf (state (port s))) as (? & ? & ?). split; [by repeat split|done]. Qed.

Lemma Total_smod b f : tame f -> Total b (smod f).
Proof. intros Hf s _. apply wp_modify. by apply keeps_smod. Qed.

Lemma Total_call {A} b (f : W -> A * W) ev : (forall w, (budget (snd (f w)) <= budget w)%nat) -> Total b (call f ev).
Proof.
  intros Hf s _. specialize (Hf (world s)). unfold wp, call. destruct (f (world s)) as [a w].
  split; [by repeat split|done].
Qed.

Lemma Total_ctxErr b ctx : ctx_nil ctx = false -> Total b (ctxErr ctx).
Proof.
  intros Hc s _. pose proof (budget_ctx ctx (world s)) as Hb. unfold wp, ctxErr. rewrite Hc.
  destruct (ctx_Err ctx (world s)) as [e w]. split; [by repeat split|done].
Qed.

Lemma Total_guard {A} b m (fail : error -> M A) k :
  Total b m -> (forall e, Total b (fail e)) -> Total b k -> Total b (guard m fail k).
Proof. intros Hm Hf Hk. apply Total_bind; [done|]. intros [e|]; auto. Qed.

Lemma Total_if {A} b (c : bool) (m k : M A) : Total b m -> Total b k -> Total b (if c then m else k).
Proof. by destruct c. Qed.

Lemma Total_lift {A} b (o : option A) : is_Some o -> Total b (lift o).
Proof. intros [a ->]. apply Total_ret. Qed.

End Total.

Create HintDb total discriminated.
#[export] Hint Resolve budget_swd_Connect budget_swd_Release budget_swd_Commit budget_reg_Connect budget_reg_Release
  budget_reg_ReadDP budget_reg_WriteDP budget_reg_ReadAP budget_reg_WriteAP : total.

(** A register write, as [registerOperation] completes it. *)
Lemma budget_completed {W A B} `{Clock W} (f : W -> (A * B) * W) (z : Z) w :
  (forall w, (budget (snd (f w)) <= budget w)%nat) ->
  (budget (snd (let '((st, e), w) := f w in ((z, st, e), w))) <= budget w)%nat.
Proof. intros Hf. specialize (Hf w). by destruct (f w) as [[? ?] ?]. Qed.
#[export] Hint Resolve budget_completed : total.

(** Walks a method body. *)
Ltac total_step :=
  match goal with
  | |- forall _, _ => intro
  | |- _ => solve [auto 3 with total]
  | |- Total _ (mret _) => apply Total_ret
  | |- Total _ (gets _) => apply Total_gets
  | |- Total _ (call _ _) => apply Total_call; intro; solve [auto with total]
  | |- Total _ (ctxErr _) => apply Total_ctxErr; assumption
  | |- Total _ (smod _) => apply Total_smod; solve [auto with tame]
  | |- Total _ (guard _ _ _) => apply Total_guard
  | |- Total _ (mbind _ _) => apply Total_bind
  | |- Total _ (if _ then _ else _) => apply Total_if
  | |- Total _ (match ?x with _ => _ end) => destruct x
  | |- Total _ (let _ := _ in _) => cbv zeta
  end.

Ltac total := repeat first [total_step | progress unfold pget, sget, ask, fail_err, fail_val, lose, transferOnce, faultLost, commitBatch].

Section Returns.
Context {W : Type} `{Clock W} `{ChainLink W}.
Abbreviation M := (GoM (PSt W)).
Variable fuel : nat.
Abbreviation pre := (pre (W := W) (fuel := fuel)).
Abbreviation Total := (Total (W := W) (fuel := fuel)).

(** *** One request *)

Lemma Total_registerExchange b ctx r d : ctx_nil ctx = false -> Total b (registerExchange ctx r d).
Proof.
  intros Hc. unfold registerExchange, registerOperation. apply Total_guard; [by apply Total_ctxErr|total|].
  apply Total_bind; [total|]. intros [[v st] e]. total.
Qed.

Lemma Total_exchange b ctx r d : ctx_nil ctx = false -> Total b (exchange ctx r d).
Proof.
  intros Hc. pose proof (Total_registerExchange b ctx r d Hc). unfold exchange, commitBatch. total.
Qed.
#[local] Hint Resolve Total_registerExchange Total_exchange : total.

Lemma Total_callerError b ctx e : Total b (callerError ctx e).
Proof. unfold callerError. destruct (ctx_nil ctx) eqn:Hc; [apply Total_ret|]. total. Qed.

Lemma Total_canceledWAITCause b ctx e : Total b (canceledWAITCause ctx e).
Proof. unfold canceledWAITCause. pose proof (Total_callerError b ctx). total. Qed.

Lemma Total_cleanup {A} b (f : context -> M A) :
  (forall ctx, ctx_nil ctx = false -> Total b (f ctx)) -> Total b (mbind f cleanupContext).
Proof.
  intros Hf. unfold cleanupContext. intros s Hs. apply wp_bind. apply wp_bind. apply wp_gets. apply wp_ret. by apply Hf.
Qed.
#[local] Hint Resolve Total_callerError Total_canceledWAITCause : total.

Lemma Total_clearFaultState b ctx f m a : ctx_nil ctx = false -> Total b (clearFaultState ctx f m a).
Proof. intros Hc. unfold clearFaultState, faultLost, transferOnce. pose proof (fun r d => Total_exchange b ctx r d Hc). total. Qed.

Lemma Total_handleFault b r w p : Total b (handleFault r w p).
Proof.
  unfold handleFault, transferOnce. apply Total_bind; [total|]. intros known. apply Total_bind; [total|]. intros zero.
  apply Total_if; [total|]. apply Total_cleanup. intros ctx Hc.
  pose proof (fun r d => Total_exchange b ctx r d Hc). pose proof (fun f m a => Total_clearFaultState b ctx f m a Hc). total.
Qed.

Lemma Total_invalidateWait b e : Total b (invalidateWait e). Proof. unfold invalidateWait. total. Qed.
Lemma Total_invalidateTransfer b e : Total b (invalidateTransfer e). Proof. unfold invalidateTransfer. total. Qed.
#[local] Hint Resolve Total_handleFault Total_invalidateWait Total_invalidateTransfer : total.

Lemma Total_validateWait b r e : Total b (validateWait r e). Proof. unfold validateWait. total. Qed.
Lemma Total_lostPostedRead b ctx : ctx_nil ctx = false -> Total b (lostPostedRead ctx).
Proof. intros Hc. unfold lostPostedRead. total. Qed.
#[local] Hint Resolve Total_validateWait Total_lostPostedRead : total.

(** An error stays an error when the context's end is added to it. *)
Lemma callerError_some ctx e s : wp (callerError (W := W) ctx (Some e)) (fun r _ => is_Some r) s.
Proof.
  unfold callerError. destruct (ctx_nil ctx) eqn:Hc; [by apply wp_ret|].
  apply wp_bind. unfold wp, ctxErr. rewrite Hc. destruct (ctx_Err ctx (world s)) as [[c|] w]; simpl; [|done].
  destruct (Is e (context_Err c)); by eexists.
Qed.

Lemma canceledWAITCause_some ctx e s : wp (canceledWAITCause (W := W) ctx (Some e)) (fun r _ => is_Some r) s.
Proof.
  unfold canceledWAITCause. destruct (err_eqb (Some e) swd_ErrWait); [by apply wp_ret|].
  apply wp_bind. eapply wp_mono; [apply callerError_some|]. intros c s' [c' ->]. apply wp_ret.
  unfold omitWAIT. destruct (negb (isContextError (Some c'))); [done|]. by destruct (negb _ && negb _).
Qed.

(** The cause of a WAIT, and then the rest of the method. *)
Lemma Total_cause {A} b ctx e (f : error -> M A) :
  (forall c, Total b (f c)) -> Total b (mbind (fun c => mbind f (lift c)) (canceledWAITCause ctx (Some e))).
Proof.
  intros Hf s Hs. apply wp_bind.
  eapply wp_mono; [apply wp_and; [apply canceledWAITCause_some|by apply (Total_canceledWAITCause b)]|].
  intros c s1 [[c' ->] K]. apply wp_bind, (wp_lift _ c'); [done|].
  eapply wp_mono; [apply Hf; exact (keeps_pre b s s1 K Hs)|]. intros a s2 K2. exact (transitivity K K2).
Qed.

(** *** Requests and registers, given a recovery *)

Section Recovery.
Variable b : bool.
Variable abort : error -> M error.
Hypothesis Total_abort : forall e, Total b (abort e).

Lemma Total_finishWait e : Total b (finishWait abort e). Proof. unfold finishWait. auto. Qed.
#[local] Hint Resolve Total_finishWait : total.
Lemma Total_stopWaiting w e : Total b (stopWaiting abort w e). Proof. unfold stopWaiting. total. Qed.
#[local] Hint Resolve Total_stopWaiting : total.
Lemma Total_stopAfterWAIT ctx w : ctx_nil ctx = false -> Total b (stopAfterWAIT abort ctx w).
Proof. intros Hc. unfold stopAfterWAIT. total. Qed.
#[local] Hint Resolve Total_stopAfterWAIT : total.

Lemma Total_prepareWaitRetry ctx r e w : ctx_nil ctx = false -> Total b (prepareWaitRetry abort ctx r e w).
Proof. intros Hc. unfold prepareWaitRetry. apply Total_cause. total. Qed.
#[local] Hint Resolve Total_prepareWaitRetry : total.
Lemma Total_finishRetryError r v e w a : Total b (finishRetryError r v e w a).
Proof. unfold finishRetryError. total. Qed.
#[local] Hint Resolve Total_finishRetryError : total.

(** A retry stays below the limit. *)
Lemma stopAfterWAIT_limit ctx w s :
  pre b s -> ctx_nil ctx = false -> wp (stopAfterWAIT abort ctx w) (fun e _ => e = None -> w < maxWaits (port s)) s.
Proof.
  intros Hs Hc. unfold stopAfterWAIT, guard. apply wp_bind.
  eapply wp_mono; [by apply (Total_ctxErr (fuel := fuel) b)|]. intros e s1 K1. destruct e as [e|].
  - apply wp_bind. eapply wp_mono; [by apply Total_stopWaiting, (keeps_pre b s)|]. intros. by apply wp_ret.
  - apply wp_bind, wp_gets. assert (maxWaits (port s1) = maxWaits (port s)) as ->.
    { by destruct K1 as ((_ & F & _) & _). }
    destruct (negb (maxWaits (port s) =? 0) && (maxWaits (port s) <=? w)) eqn:E.
    + apply wp_bind. eapply wp_mono; [by apply Total_finishWait, (keeps_pre b s)|]. intros. by apply wp_ret.
    + apply wp_ret. intros _. destruct Hs as (_ & Hm & _).
      destruct (Z.eqb_spec (maxWaits (port s)) 0), (Z.leb_spec (maxWaits (port s)) w); simpl in E; lia || done.
Qed.

Lemma prepareWaitRetry_limit ctx r e w s :
  pre b s -> ctx_nil ctx = false -> wp (prepareWaitRetry abort ctx r e w) (fun e _ => e = None -> w < maxWaits (port s)) s.
Proof.
  intros Hs Hc. unfold prepareWaitRetry. apply wp_bind.
  eapply wp_mono; [apply wp_and; [apply canceledWAITCause_some|by apply (Total_canceledWAITCause b)]|].
  intros c s1 [[c' ->] K1]. apply wp_bind, (wp_lift _ c'); [done|]. apply wp_bind, wp_gets.
  pose proof (keeps_pre b s s1 K1 Hs) as Hs1. apply wp_bind. eapply wp_mono; [by apply (Total_validateWait b)|].
  intros [v|] s2 K2; [apply wp_ret; by destruct (pendingRead s1)|].
  pose proof (keeps_pre b s1 s2 K2 Hs1) as Hs2. apply wp_bind, wp_gets.
  destruct (_ && _).
  - apply wp_bind. eapply wp_mono; [by apply (Total_smod (fuel := fuel) b); [auto with tame|]|]. intros [] s3 K3.
    apply wp_bind. eapply wp_mono; [apply (Total_lostPostedRead b); [done|exact (keeps_pre b s2 s3 K3 Hs2)]|]. intros. by apply wp_ret.
  - eapply wp_mono; [by apply stopAfterWAIT_limit|]. cbv beta. intros x _ G. intros Hx. specialize (G Hx).
    destruct K1 as ((_ & F1 & _) & _), K2 as ((_ & F2 & _) & _). congruence.
Qed.

Lemma wp_then {A B} (m : M A) (f : A -> M B) s :
  pre b s -> Total b m ->
  (forall a s1, keeps s s1 -> pre b s1 -> wp (f a) (fun _ s' => keeps s1 s') s1) ->
  wp (mbind f m) (fun _ s' => keeps s s') s.
Proof.
  intros Hs Hm Hf. apply wp_bind. eapply wp_mono; [by apply Hm|]. intros a s1 K1.
  eapply wp_mono; [apply Hf; [done|exact (keeps_pre b s s1 K1 Hs)]|]. intros x s2 K2. exact (transitivity K1 K2).
Qed.

Lemma keeps_maxWaits (s s' : PSt W) : keeps s s' -> maxWaits (port s') = maxWaits (port s).
Proof. by intros ((_ & F & _) & _). Qed.

(** A guarded retry: the step that may retry reports its limit. *)
Lemma wp_retry {A} (m : M err) (fail : error -> M A) (k : M A) (w : Z) s :
  pre b s -> Total b m -> wp m (fun e _ => e = None -> w < maxWaits (port s)) s ->
  (forall e, Total b (fail e)) ->
  (forall s1, keeps s s1 -> pre b s1 -> w < maxWaits (port s1) -> wp k (fun _ s' => keeps s1 s') s1) ->
  wp (guard m fail k) (fun _ s' => keeps s s') s.
Proof.
  intros Hs Hm Hl Hf Hk. unfold guard. apply wp_bind. eapply wp_mono; [apply wp_and; [by apply Hm|exact Hl]|].
  intros e s1 [K1 G]. pose proof (keeps_pre b s s1 K1 Hs) as Hs1. destruct e as [e|].
  - eapply wp_mono; [by apply Hf|]. intros x s2 K2. exact (transitivity K1 K2).
  - eapply wp_mono; [apply Hk; [done|done|]|].
    + rewrite (keeps_maxWaits s s1 K1). by apply G.
    + intros x s2 K2. exact (transitivity K1 K2).
Qed.

Lemma transfer_loop_total n w ctx r d a p s :
  pre b s -> ctx_nil ctx = false -> 1 <= maxWaits (port s) - w <= Z.of_nat n ->
  wp (transfer_loop abort n w ctx r d a p) (fun _ s' => keeps s s') s.
Proof.
  revert w s. induction n as [|n IH]; intros w s Hs Hc Hn; [lia|]. cbn [transfer_loop].
  unfold guard at 1. apply wp_then; [done|by apply (Total_ctxErr (fuel := fuel) b)|]. intros [e|] s1 K1 Hs1.
  { apply (Total_bind (fuel := fuel) b); [by apply Total_stopWaiting|total|done]. }
  apply wp_then; [done|by apply Total_exchange|]. intros [v e] s2 K2 Hs2.
  apply wp_then; [done|total|]. intros _ s3 K3 Hs3. apply wp_then; [done|total|]. intros _ s4 K4 Hs4.
  destruct e as [c|]; [|by apply (Total_ret (fuel := fuel) b)]. destruct (_ && _); [by apply (Total_ret (fuel := fuel) b)|].
  destruct (negb _); [by apply (Total_finishRetryError r v c w a)|].
  apply (wp_retry _ _ _ (w + 1)); [done|by apply Total_prepareWaitRetry|by apply prepareWaitRetry_limit|total|].
  intros s5 K5 Hs5 Hw. apply IH; [done|done|].
  rewrite (keeps_maxWaits _ _ K5) in *. rewrite (keeps_maxWaits _ _ K4), (keeps_maxWaits _ _ K3), (keeps_maxWaits _ _ K2), (keeps_maxWaits _ _ K1) in *. lia.
Qed.

Lemma Total_transferWithAPRecovery ctx r d a p : ctx_nil ctx = false -> Total b (transferWithAPRecovery fuel abort ctx r d a p).
Proof.
  intros Hc. unfold transferWithAPRecovery. apply Total_bind; [total|]. intros resp. destruct (bool_decide _); [total|].
  intros s Hs. apply transfer_loop_total; [done|done|]. destruct Hs as (_ & Hm & _). lia.
Qed.
#[local] Hint Resolve Total_transferWithAPRecovery : total.

(** *** Register transports *)

Lemma Total_registerWait ctx r c w : Total b (registerWait abort ctx r c w).
Proof. unfold registerWait. apply Total_bind; [total|]. intros f. apply Total_if; [total|]. apply Total_cause. total. Qed.

Lemma registerWait_limit ctx r c w s :
  pre b s -> wp (registerWait abort ctx r c w) (fun e _ => e = None -> w < maxWaits (port s)) s.
Proof.
  intros Hs. unfold registerWait. apply wp_bind, wp_gets. destruct (waitForbidden _ r).
  { apply wp_bind. eapply wp_mono; [by apply (Total_smod (fuel := fuel) b); [auto with tame|]|]. intros. by apply wp_ret. }
  apply wp_bind. eapply wp_mono; [apply wp_and; [apply canceledWAITCause_some|by apply (Total_canceledWAITCause b)]|].
  intros c1 s1 [[c' ->] K1]. apply wp_bind, (wp_lift _ c'); [done|].
  pose proof (keeps_pre b s s1 K1 Hs) as Hs1. destruct (negb _).
  { apply wp_bind. eapply wp_mono; [by apply Total_finishWait|]. intros. by apply wp_ret. }
  apply wp_bind, wp_gets. rewrite (keeps_maxWaits s s1 K1).
  destruct (negb (maxWaits (port s) =? 0) && (maxWaits (port s) <=? w)) eqn:E.
  - apply wp_bind. eapply wp_mono; [by apply Total_finishWait|]. intros. by apply wp_ret.
  - apply wp_ret. intros _. destruct Hs as (_ & Hm & _).
    destruct (Z.eqb_spec (maxWaits (port s)) 0), (Z.leb_spec (maxWaits (port s)) w); simpl in E; lia || done.
Qed.

Lemma Total_finishRegister r res p : Total b (finishRegister r res p).
Proof. unfold finishRegister, finishRegisterFault. total. Qed.
#[local] Hint Resolve Total_registerWait Total_finishRegister : total.

Lemma register_loop_total n w ctx r d p s :
  pre b s -> ctx_nil ctx = false -> 1 <= maxWaits (port s) - w <= Z.of_nat n ->
  wp (register_loop abort n w ctx r d p) (fun _ s' => keeps s s') s.
Proof.
  revert w s. induction n as [|n IH]; intros w s Hs Hc Hn; [lia|]. cbn [register_loop].
  apply wp_then; [done|by apply Total_registerExchange|]. intros res s1 K1 Hs1.
  destruct (r_cause res) as [c|]; [|by apply (Total_ret (fuel := fuel) b)].
  destruct (_ && _); [|by apply Total_finishRegister].
  apply (wp_retry _ _ _ (w + 1)); [done|apply Total_registerWait|by apply registerWait_limit|total|].
  intros s2 K2 Hs2 Hw. apply IH; [done|done|].
  rewrite (keeps_maxWaits _ _ K2) in *. rewrite (keeps_maxWaits _ _ K1) in *. lia.
Qed.

Lemma Total_transferRegister ctx r d p : ctx_nil ctx = false -> Total b (transferRegister fuel abort ctx r d p).
Proof.
  intros Hc. unfold transferRegister. apply Total_bind; [total|]. intros resp. destruct (bool_decide _); [total|].
  intros s Hs. apply register_loop_total; [done|done|]. destruct Hs as (_ & Hm & _). lia.
Qed.
#[local] Hint Resolve Total_transferRegister : total.

(** *** Registers *)

Lemma Total_transfer ctx r d : ctx_nil ctx = false -> Total b (transfer fuel abort ctx r d).
Proof. intros Hc. unfold transfer. total. Qed.
Lemma Total_transferDPWriteBarrier ctx : ctx_nil ctx = false -> Total b (transferDPWriteBarrier fuel abort ctx).
Proof. intros Hc. unfold transferDPWriteBarrier. total. Qed.
#[local] Hint Resolve Total_transfer Total_transferDPWriteBarrier : total.
Lemma Total_settlePreviousDPWrite ctx : ctx_nil ctx = false -> Total b (settlePreviousDPWrite fuel abort ctx).
Proof. intros Hc. unfold settlePreviousDPWrite. total. Qed.
Lemma Total_readDPRegister ctx reg : ctx_nil ctx = false -> Total b (readDPRegister fuel abort ctx reg).
Proof. intros Hc. unfold readDPRegister. total. Qed.
Lemma Total_recordFailedDPWrite reg v e : Total b (recordFailedDPWrite reg v e).
Proof. unfold recordFailedDPWrite. total. Qed.
#[local] Hint Resolve Total_settlePreviousDPWrite Total_readDPRegister Total_recordFailedDPWrite : total.

(** The port in hand is not a JTAG port. *)
Lemma Total_port {A} (f : DebugPort -> M A) :
  (forall dp, is_jtag dp = false -> Total b (f dp)) -> Total b (mbind f (pget id)).
Proof. intros Hf s Hs. apply wp_bind, wp_gets. apply Hf; [apply Hs|done]. Qed.

Lemma independent_register dp reg write info :
  reg = RDBUFF \/ reg = SELECT -> validateDPRegister dp reg write = (info, None) -> bankIndependent info = true.
Proof.
  unfold validateDPRegister, jtag_register, describeRegister. intros [->| ->]; destruct (is_jtag dp), write; simpl; intros E; by inversion E.
Qed.

Lemma independent_write dp v info : validateDPWrite dp SELECT v = (info, None) -> bankIndependent info = true.
Proof.
  unfold validateDPWrite. destruct (validateDPRegister dp SELECT true) as [i [e|]] eqn:E; [done|].
  apply independent_register in E; [|auto]. destruct (is_jtag dp); simpl; intros; simplify_eq; done.
Qed.

Section Bodies.
Variables (confirm : M err) (select : Z -> M err).

Lemma Total_readDP_body ctx reg :
  ctx_nil ctx = false -> (reg = RDBUFF \/ Total b confirm /\ forall k, Total b (select k)) ->
  Total b (readDP_body fuel abort confirm select ctx reg).
Proof.
  intros Hc Hor. unfold readDP_body. apply Total_port. intros dp Hj. apply Total_if; [total|].
  destruct (validateDPRegister dp reg false) as [info [e|]] eqn:Ev; [total|]. rewrite Hj.
  apply Total_guard; [total|total|]. destruct Hor as [->|[Hf Hs]].
  - rewrite (independent_register dp RDBUFF false info); [|auto|done]. cbn [negb]. total.
  - apply Total_if; [|total]. apply Total_guard; [done|total|]. apply Total_guard; [done|total|]. total.
Qed.

Lemma Total_writeDP_body ctx reg v :
  ctx_nil ctx = false -> (reg = SELECT \/ Total b confirm /\ forall k, Total b (select k)) ->
  Total b (writeDP_body fuel abort confirm select ctx reg v).
Proof.
  intros Hc Hor. unfold writeDP_body. apply Total_port. intros dp Hj. apply Total_if; [total|].
  destruct (validateDPWrite dp reg v) as [info [e|]] eqn:Ev; [total|]. rewrite Hj.
  apply Total_guard; [|total|total]. destruct Hor as [->|[Hf Hs]].
  - rewrite (independent_write dp v info) by done. cbn [negb]. total.
  - apply Total_if; [|total]. apply Total_guard; [done|total|done].
Qed.
End Bodies.

Lemma Total_confirmPendingSELECT ctx : ctx_nil ctx = false -> Total b (confirmPendingSELECT fuel abort ctx).
Proof.
  intros Hc. unfold confirmPendingSELECT. apply Total_bind; [total|]. intros p. apply Total_if; [total|].
  apply Total_bind; [apply Total_readDP_body; auto|]. total.
Qed.
#[local] Hint Resolve Total_confirmPendingSELECT : total.

Lemma Total_selectDPBank ctx k : ctx_nil ctx = false -> Total b (selectDPBank fuel abort ctx k).
Proof.
  intros Hc. unfold selectDPBank. apply Total_bind; [total|]. intros sel. apply Total_bind; [total|]. intros cur.
  apply Total_if; [total|]. apply Total_guard; [apply Total_writeDP_body; auto|total|total].
Qed.

Lemma Total_readDP ctx reg : ctx_nil ctx = false -> Total b (readDP fuel abort ctx reg).
Proof. intros Hc. apply Total_readDP_body; [done|]. right. split; [total|]. intros k. by apply Total_selectDPBank. Qed.

Lemma Total_writeDP ctx reg v : ctx_nil ctx = false -> Total b (writeDP fuel abort ctx reg v).
Proof. intros Hc. apply Total_writeDP_body; [done|]. right. split; [total|]. intros k. by apply Total_selectDPBank. Qed.

Lemma Total_link_Connect ctx : Total b (link_Connect ctx). Proof. unfold link_Connect. total. Qed.
#[local] Hint Resolve Total_selectDPBank Total_readDP Total_writeDP Total_link_Connect : total.

(** *** Re-entry establishes the response grammar *)

(** Operations that only talk to the transport. *)
Definition Quiet {A} (m : M A) : Prop := forall s, wp m (fun _ s' => port s' = port s) s.

Lemma Quiet_ret {A} (a : A) : Quiet (mret a). Proof. done. Qed.
Lemma Quiet_gets {A} (f : PSt W -> A) : Quiet (gets f). Proof. done. Qed.
Lemma Quiet_call {A} (f : W -> A * W) ev : Quiet (call f ev).
Proof. intros s. unfold wp, call. by destruct (f (world s)). Qed.
Lemma Quiet_ctxErr ctx : ctx_nil ctx = false -> Quiet (ctxErr ctx).
Proof. intros Hc s. unfold wp, ctxErr. rewrite Hc. by destruct (ctx_Err ctx (world s)). Qed.
Lemma Quiet_bind {A B} (m : M A) (f : A -> M B) : Quiet m -> (forall a, Quiet (f a)) -> Quiet (mbind f m).
Proof.
  intros Hm Hf s. apply wp_bind. eapply wp_mono; [apply Hm|]. intros a s1 E1.
  eapply wp_mono; [apply Hf|]. intros x s2 E2. cbv beta in *. congruence.
Qed.

Ltac quiet :=
  repeat match goal with
  | |- forall _, _ => intro
  | |- Quiet (mret _) => apply Quiet_ret
  | |- Quiet (gets _) => apply Quiet_gets
  | |- Quiet (call _ _) => apply Quiet_call
  | |- Quiet (ctxErr _) => apply Quiet_ctxErr; assumption
  | |- Quiet (mbind _ _) => apply Quiet_bind
  | |- Quiet (match ?x with _ => _ end) => destruct x
  | |- Quiet (let _ := _ in _) => cbv zeta
  | |- Quiet (guard _ _ _) => apply Quiet_bind
  | |- Quiet _ => progress unfold pget, sget, ask
  end.

Lemma exchange_quiet ctx r d : ctx_nil ctx = false -> Quiet (exchange ctx r d).
Proof. intros Hc. unfold exchange, registerExchange, registerOperation, commitBatch. quiet. Qed.

(** The next two lemmas are about a port whose selection is bank zero and not
    pending: there CTRL/STAT is sticky-exempt and must not answer WAIT. *)
Definition zero_bank (st : debugPortState) : Prop :=
  valid (selectDP st) = true /\ dpBank st = 0 /\ selectPending st = false.

Lemma resolveSELECT_settled r v e st : selectPending st = false -> resolveSELECT r v e st = st.
Proof. intros E. unfold resolveSELECT. by rewrite E. Qed.

Lemma zero_bank_settle st : zero_bank st -> zero_bank (settleDPWrite st).
Proof. done. Qed.

Lemma ctrlstat_forbidden st : zero_bank st -> waitForbidden st (dpTransferRequest CTRLSTAT true) = true.
Proof. intros (Hv & Hb & _). unfold waitForbidden. cbn. by rewrite Hv, Hb. Qed.

Lemma validateWait_forbidden r e s :
  waitForbidden (state (port s)) r = true -> wp (validateWait (W := W) r e) (fun x _ => is_Some x) s.
Proof.
  intros Hf. unfold validateWait. apply wp_bind, wp_gets. rewrite Hf. destruct (negb _).
  - unfold invalidateWait. apply wp_bind, wp_bind, wp_modify, wp_ret. by apply wp_ret.
  - by apply wp_ret.
Qed.

Lemma Quiet_callerError ctx e : Quiet (callerError ctx e).
Proof. unfold callerError. destruct (ctx_nil ctx) eqn:Hc; quiet. Qed.
Lemma Quiet_canceledWAITCause ctx e : Quiet (canceledWAITCause ctx e).
Proof. unfold canceledWAITCause. destruct (err_eqb e swd_ErrWait); [quiet|]. apply Quiet_bind; [apply Quiet_callerError|quiet]. Qed.

Lemma classify_some e : is_Some e -> is_Some (classifyPortError e).
Proof. intros [c ->]. unfold classifyPortError. by destruct (_ || _). Qed.

Lemma wp_some {A} (m : M A) (P : A -> Prop) (Q : A -> PSt W -> Prop) s :
  wp m (fun a _ => P a) s -> (forall a s', P a -> Q a s') -> wp m Q s.
Proof. intros Hm Hq. eapply wp_mono; [exact Hm|]. auto. Qed.

Lemma finishRetryError_some r v e w a s : pre b s -> wp (finishRetryError r v e w a) (fun x _ => is_Some (snd x)) s.
Proof.
  intros Hs. unfold finishRetryError. destruct (err_eqb (Some e) swd_ErrFault).
  { apply wp_bind. eapply wp_mono; [by apply (Total_handleFault b)|]. intros. by apply wp_ret. }
  destruct (err_eqb (Some e) swd_ErrParity); [by apply wp_ret|].
  destruct (w =? 0); [unfold invalidateTransfer|unfold invalidateWait];
    apply wp_bind, wp_bind, wp_modify, wp_ret; by apply wp_ret.
Qed.

Lemma prepareWaitRetry_forbidden ctx r e w s :
  waitForbidden (state (port s)) r = true -> wp (prepareWaitRetry abort ctx r e w) (fun x _ => is_Some x) s.
Proof.
  intros Hf. unfold prepareWaitRetry. apply wp_bind.
  eapply wp_mono; [apply wp_and; [apply canceledWAITCause_some|apply Quiet_canceledWAITCause]|].
  intros c s1 [[c' ->] E]. apply wp_bind, (wp_lift _ c'); [done|]. apply wp_bind, wp_gets, wp_bind.
  eapply wp_mono; [apply validateWait_forbidden; by rewrite E|]. intros x s2 [v ->]. apply wp_ret.
  by destruct (pendingRead s1).
Qed.

(** A guard whose check always fails. *)
Lemma wp_guard_fails {A} (m : M err) (fail : error -> M A) k Q s :
  wp m (fun e _ => is_Some e) s -> (forall e s', wp (fail e) Q s') -> wp (guard m fail k) Q s.
Proof. intros Hm Hf. unfold guard. apply wp_bind. eapply wp_mono; [exact Hm|]. intros e s' [c ->]. apply Hf. Qed.

Lemma ctrlstat_loop n ctx a s :
  pre b s -> ctx_nil ctx = false -> zero_bank (state (port s)) -> (0 < n)%nat ->
  wp (transfer_loop abort n 0 ctx (dpTransferRequest CTRLSTAT true) 0 a true)
    (fun r s' => snd r = None -> zero_bank (state (port s'))) s.
Proof.
  intros Hs Hc Hz Hn. destruct n as [|n]; [lia|]. cbn [transfer_loop]. unfold guard at 1. apply wp_bind.
  eapply wp_mono; [apply wp_and; [by apply Quiet_ctxErr|by apply (Total_ctxErr (fuel := fuel) b)]|]. intros e0 s1 [E1 K1].
  pose proof (keeps_pre b s s1 K1 Hs) as Hs1. destruct e0 as [e0|]; [by apply wp_bind, wp_ret, wp_ret|].
  apply wp_bind. eapply wp_mono; [apply wp_and; [by apply exchange_quiet|by apply (Total_exchange b)]|].
  intros [v e] s2 [E2 K2]. pose proof (keeps_pre b s1 s2 K2 Hs1) as Hs2. rewrite E1 in E2.
  assert (zero_bank (state (port s2))) as Hz2 by (by rewrite E2). cbv beta iota.
  apply wp_bind, wp_modify. rewrite resolveSELECT_settled by apply Hz2.
  set (s3 := set_port (set_state (state (port s2)) (port s2)) s2).
  assert (zero_bank (state (port s3)) /\ pre b s3) as [Hz3 Hs3] by done. clearbody s3.
  apply wp_bind.
  apply (wp_mono _ (fun _ s4 => zero_bank (state (port s4)) /\ pre b s4)); [destruct (_ && _); [by apply wp_modify|by apply wp_ret]|].
  intros _ s4 [Hz4 Hs4]. destruct e as [c|]; [|by apply wp_ret].
  destruct (_ && _); [by apply wp_ret|]. destruct (negb _).
  - eapply wp_some; [by apply finishRetryError_some|]. intros [? ?] ? [? ->]. done.
  - apply wp_guard_fails; [|intros; by apply wp_ret]. apply prepareWaitRetry_forbidden. by apply ctrlstat_forbidden.
Qed.

Lemma ctrlstat_register_loop n ctx p s :
  pre b s -> ctx_nil ctx = false -> zero_bank (state (port s)) -> (0 < n)%nat ->
  wp (register_loop abort n 0 ctx (dpTransferRequest CTRLSTAT true) 0 p)
    (fun r s' => snd r = None -> zero_bank (state (port s'))) s.
Proof.
  intros Hs Hc Hz Hn. destruct n as [|n]; [lia|]. cbn [register_loop]. apply wp_bind.
  eapply wp_mono; [apply wp_and; [|by apply (Total_registerExchange b)]|].
  { assert (Quiet (registerExchange ctx (dpTransferRequest CTRLSTAT true) 0)) as Hq; [|apply Hq].
    unfold registerExchange, registerOperation. quiet. }
  intros res s1 [E1 K1]. pose proof (keeps_pre b s s1 K1 Hs) as Hs1. assert (zero_bank (state (port s1))) as Hz1 by by rewrite E1.
  destruct (r_cause res) as [c|] eqn:Ec; [|by apply wp_ret]. destruct (_ && _).
  - apply wp_guard_fails; [|intros; by apply wp_ret]. unfold registerWait. apply wp_bind, wp_gets.
    rewrite ctrlstat_forbidden by done. apply wp_bind, wp_modify. by apply wp_ret.
  - unfold finishRegister, finishRegisterFault. rewrite Ec. cbn [Read dpTransferRequest].
    destruct (errors_Is _ _); [by apply wp_bind, wp_modify, wp_ret|].
    destruct (bool_decide _); [by apply wp_ret|]. destruct (errors_Is _ _).
    { apply wp_bind. eapply wp_mono; [by apply (Total_if (fuel := fuel) b); [apply Total_smod; auto with tame|apply Total_ret|]|].
      intros [] s2 K2. apply wp_bind. eapply wp_mono; [apply (Total_handleFault b); exact (keeps_pre b s1 s2 K2 Hs1)|].
      intros f s3 _. apply wp_ret. cbn. by repeat case_match. }
    destruct (bool_decide _); [cbn; destruct (Is _ _); by apply wp_ret|].
    destruct (bool_decide _); [by apply wp_ret|by apply wp_bind, wp_modify, wp_ret].
Qed.

Lemma transfer_ctrlstat ctx s :
  pre b s -> ctx_nil ctx = false -> zero_bank (state (port s)) ->
  wp (transfer fuel abort ctx (dpTransferRequest CTRLSTAT true) 0) (fun r s' => snd r = None -> zero_bank (state (port s'))) s.
Proof.
  intros Hs Hc Hz. assert (0 < fuel)%nat as Hf by (destruct Hs as (_ & ? & _); lia).
  unfold transfer. apply wp_bind, wp_gets. destruct (is_register (port s)).
  - unfold transferRegister. apply wp_bind, wp_gets. destruct (bool_decide _); [by apply wp_ret|].
    by apply ctrlstat_register_loop.
  - apply wp_bind. unfold transferWithAPRecovery. apply wp_bind, wp_gets. destruct (bool_decide _); [by do 2 apply wp_ret|].
    eapply wp_mono; [by apply ctrlstat_loop|]. intros [v e] s1 G. apply wp_ret. cbn in *. intros He. apply G.
    destruct e as [e|]; [|done]. destruct (classify_some (Some e)) as [? Hx]; [done|]. congruence.
Qed.

Lemma confirmResponse_known v st : responseKnown (confirmResponse v st) = true.
Proof. unfold confirmResponse. by destruct (Z.land v overrunDetect =? 0). Qed.

(** A bank-zero CTRL/STAT read that succeeds fixes the response grammar. *)
Lemma readDP_ctrlstat ctx s :
  pre b s -> ctx_nil ctx = false -> zero_bank (state (port s)) -> dpWritePending (state (port s)) = false ->
  wp (readDP fuel abort ctx CTRLSTAT) (fun r s' => snd r = None -> responseKnown (state (port s')) = true) s.
Proof.
  intros Hs Hc Hz Hp. unfold readDP, readDP_body. apply wp_bind, wp_gets. cbn [id].
  destruct (negb (bound (port s))); [by apply wp_ret|].
  destruct (validateDPRegister (port s) CTRLSTAT false) as [info [e|]] eqn:Ev; [by apply wp_ret|].
  assert (bankIndependent info = false /\ bank info = 0) as [Hi Hb].
  { unfold validateDPRegister in Ev. rewrite (proj1 Hs) in Ev. cbn in Ev. by injection Ev as <-. }
  rewrite (proj1 Hs), Hp, Hi, Hb, andb_false_r. cbn [negb]. unfold guard.
  apply wp_bind, wp_ret. apply wp_bind. unfold confirmPendingSELECT at 1. destruct Hz as (Hv & Hbz & Hsp).
  apply wp_bind, wp_gets. rewrite Hsp. apply wp_ret. apply wp_bind. unfold selectDPBank. apply wp_bind, wp_gets, wp_bind, wp_gets.
  rewrite Hv, Hbz. cbn [andb Z.eqb]. unfold confirmPendingSELECT. apply wp_bind, wp_gets. rewrite Hsp. apply wp_ret.
  unfold readDPRegister. apply wp_bind, wp_gets. change (CTRLSTAT =? RDBUFF) with false. cbn [andb]. apply wp_bind.
  eapply wp_mono; [by apply transfer_ctrlstat|]. intros [v e] s1 G. cbn [snd] in G.
  destruct e as [e|].
  - destruct (_ && _); [by apply wp_ret|]. apply wp_bind, wp_modify. by apply wp_ret.
  - cbn [is_nil negb andb]. destruct (G eq_refl) as (G1 & G2 & _). apply wp_bind, wp_modify, wp_ret. intros _. cbn [set_port port set_state state].
    unfold recordDPRead. change (CTRLSTAT =? DPIDR) with false. change (CTRLSTAT =? CTRLSTAT) with true. cbn [negb andb].
    rewrite G1, G2. apply confirmResponse_known.
Qed.

(** Re-entry in progress: the selection is consistent, the grammar may be open. *)
Definition entering (s s' : PSt W) : Prop :=
  frame s s' /\ (select_inv (state (port s)) -> select_inv (state (port s'))).

Lemma entering_keeps s s1 s2 : entering s s1 -> keeps s1 s2 -> entering s s2.
Proof. intros (F1 & A1) (F2 & A2 & _). split; [exact (transitivity F1 F2)|auto]. Qed.

Lemma entering_pre s s' : entering s s' -> pre b s -> pre b s'.
Proof. intros [F _]. by apply frame_pre. Qed.

(** Re-entry over: either framing is lost, or the grammar is known. *)
Lemma entered s s' : entering s s' -> framing_inv (state (port s')) -> keeps s s'.
Proof. intros [F A] G. by split. Qed.

Lemma wp_lose s s1 e : entering s s1 -> wp (lose (W := W) e) (fun _ s' => keeps s s') s1.
Proof.
  intros He. unfold lose. apply wp_bind, wp_modify, wp_ret. apply entered.
  - apply (entering_keeps s s1); [done|]. apply keeps_smod, tame_loseFraming.
  - intros Hs. cbn [set_port port set_state state] in Hs. by rewrite loseFraming_session in Hs.
Qed.

Lemma Total_reenter ctx : ctx_nil ctx = false -> Total b (reenter fuel abort ctx).
Proof.
  intros Hc s Hs. unfold reenter. apply wp_bind, wp_gets. rewrite (proj1 Hs).
  apply wp_bind, wp_modify. set (s1 := set_port _ s).
  assert (entering s s1) as E1.
  { split; [done|]. destruct s as [[? ? ? ? ? ? ? ? [] ?] ? ? ? ? ?].
    unfold select_inv. cbn. intuition congruence. }
  clearbody s1. apply wp_bind. eapply wp_mono; [by apply Total_link_Connect, (entering_pre s)|]. intros [raw [e|]] s2 K2.
  { by apply wp_lose, (entering_keeps s s1). }
  assert (entering s s2) as E2 by by apply (entering_keeps s s1). clear E1 K2.
  destruct (DecodeDPIDR raw) as [info [e|]]; [by apply wp_lose|]. apply wp_bind, wp_gets, wp_bind, wp_gets.
  destruct (_ && _); [by apply wp_lose|]. apply wp_bind, wp_modify. set (s3 := set_port _ s2).
  assert (entering s s3) as E3.
  { apply (entering_keeps s s2); [done|]. apply (keeps_smod (fun st => settleDPWrite (confirmSELECT (recordSELECT 0 st)))).
    do 2 (apply tame_compose; [auto with tame|]). auto with tame. }
  assert (zero_bank (state (port s3)) /\ dpWritePending (state (port s3)) = false) as [Hz Hp] by done. clearbody s3.
  pose proof (entering_pre s s3 E3 Hs) as Hs3. apply wp_bind.
  eapply wp_mono; [apply wp_and; [by apply readDP_ctrlstat|by apply (Total_readDP ctx CTRLSTAT)]|].
  intros [v [e|]] s4 [G K4]; [by apply wp_lose, (entering_keeps s s3)|].
  apply wp_ret. apply entered; [by apply (entering_keeps s s3)|]. intros _. by apply G.
Qed.

(** *** Success keeps the response grammar *)

Definition known (s : PSt W) : Prop := responseKnown (state (port s)) = true.

(** When [m] succeeds from a known grammar, the grammar is still known. *)
Definition Knows {A} (p : A -> err) (m : M A) : Prop :=
  forall s, pre b s -> known s -> wp m (fun r s' => p r = None -> known s') s.

Lemma Knows_fail {A} (p : A -> err) (a : A) : is_Some (p a) -> Knows p (mret a).
Proof. intros [e He] s _ _. apply wp_ret. congruence. Qed.
Lemma Knows_ret {A} (p : A -> err) (a : A) : Knows p (mret a).
Proof. intros s _ Hk. by apply wp_ret. Qed.
Lemma Knows_quiet {A} (p : A -> err) (m : M A) : Quiet m -> Knows p m.
Proof. intros Hq s _ Hk. eapply wp_mono; [apply Hq|]. intros a s' E _. unfold known. by rewrite E. Qed.

Lemma Knows_guard {A} (p : A -> err) m (fail : error -> M A) k :
  Total b m -> Knows id m -> (forall e s, wp (fail e) (fun r _ => is_Some (p r)) s) -> Knows p k -> Knows p (guard m fail k).
Proof.
  intros Hm Hk Hf Hc s Hs Hks. unfold guard. apply wp_bind. eapply wp_mono; [apply wp_and; [by apply Hm|by apply Hk]|].
  intros [e|] s1 [K1 G].
  - eapply wp_mono; [apply Hf|]. intros r s2 [x Hx]. congruence.
  - apply Hc; [exact (keeps_pre b s s1 K1 Hs)|]. by apply G.
Qed.

(** The result of [m] decides; [f] reports its failure. *)
Lemma Knows_bind {A B} (p : A -> err) (q : B -> err) (m : M A) (f : A -> M B) :
  Total b m -> Knows p m ->
  (forall a s, is_Some (p a) -> pre b s -> wp (f a) (fun r _ => is_Some (q r)) s) ->
  (forall a, p a = None -> Knows q (f a)) -> Knows q (mbind f m).
Proof.
  intros Hm Hk Hf Hc s Hs Hks. apply wp_bind. eapply wp_mono; [apply wp_and; [by apply Hm|by apply Hk]|].
  intros a s1 [K1 G]. pose proof (keeps_pre b s s1 K1 Hs) as Hs1. destruct (p a) as [e|] eqn:Ep.
  - eapply wp_mono; [apply Hf; [by rewrite Ep|done]|]. intros r s2 [x Hx]. congruence.
  - apply Hc; [done|done|by apply G].
Qed.

Lemma Knows_gets {A B} (q : B -> err) (g : PSt W -> A) (f : A -> M B) : (forall a, Knows q (f a)) -> Knows q (mbind f (gets g)).
Proof. intros Hf s Hs Hk. apply wp_bind, wp_gets. by apply Hf. Qed.

Lemma Knows_if {A} (p : A -> err) (c : bool) m k : Knows p m -> Knows p k -> Knows p (if c then m else k).
Proof. by destruct c. Qed.

(** State changes that keep a known grammar known. *)
Lemma Knows_smod {B} (q : B -> err) f (k : M B) :
  tame f -> (forall st, responseKnown st = true -> responseKnown (f st) = true) -> Knows q k -> Knows q (smod f;; k).
Proof.
  intros Ht Hf Hk s Hs Hks. apply wp_bind, wp_modify. apply Hk; [|by apply Hf].
  exact (keeps_pre b s _ (keeps_smod f s Ht) Hs).
Qed.

Lemma recordDPRead_known reg v st : responseKnown st = true -> responseKnown (recordDPRead reg v st) = true.
Proof.
  intros Hk. unfold recordDPRead. destruct (negb _ && negb _); destruct (_ && _); try apply confirmResponse_known; done.
Qed.
Lemma recordDPWrite_known c reg v st : responseKnown st = true -> responseKnown (recordDPWrite c reg v st) = true.
Proof. intros Hk. unfold recordDPWrite, recordDPWriteState. by destruct (reg =? SELECT), c, (_ && _). Qed.

Lemma validateWait_known r e s : wp (validateWait (W := W) r e) (fun x s' => x = None -> known s') s.
Proof.
  unfold validateWait. apply wp_bind, wp_gets. unfold invalidateWait.
  destruct (waitForbidden _ r); [destruct (negb _); [by apply wp_bind, wp_bind, wp_modify, wp_ret, wp_ret|by apply wp_ret]|].
  destruct (err_eqb (Some e) swd_ErrWait); [|by apply wp_bind, wp_bind, wp_modify, wp_ret, wp_ret].
  apply wp_bind, wp_gets. destruct (responseKnown (state (port s))) eqn:E; [by apply wp_ret|by apply wp_bind, wp_bind, wp_modify, wp_ret, wp_ret].
Qed.

Lemma Knows_stopAfterWAIT ctx w : ctx_nil ctx = false -> Knows id (stopAfterWAIT abort ctx w).
Proof.
  intros Hc. unfold stopAfterWAIT.
  intros s Hs Hk. unfold guard. apply wp_bind. eapply wp_mono; [apply wp_and; [by apply Quiet_ctxErr|by apply (Total_ctxErr (fuel := fuel) b)]|].
  intros [e|] s1 [E K1]; pose proof (keeps_pre b s s1 K1 Hs) as Hs1.
  - apply wp_bind. eapply wp_mono; [by apply Total_stopWaiting|]. intros. by apply wp_ret.
  - apply wp_bind, wp_gets. destruct (_ && _).
    + apply wp_bind. eapply wp_mono; [by apply Total_finishWait|]. intros. by apply wp_ret.
    + apply wp_ret. intros _. unfold known. by rewrite E.
Qed.

Lemma prepareWaitRetry_known ctx r e w s :
  pre b s -> ctx_nil ctx = false -> wp (prepareWaitRetry abort ctx r e w) (fun x s' => x = None -> known s') s.
Proof.
  intros Hs Hc. unfold prepareWaitRetry. apply wp_bind.
  eapply wp_mono; [apply wp_and; [apply canceledWAITCause_some|by apply (Total_canceledWAITCause b)]|].
  intros c s1 [[c' ->] K1]. apply wp_bind, (wp_lift _ c'); [done|]. apply wp_bind, wp_gets, wp_bind.
  pose proof (keeps_pre b s s1 K1 Hs) as Hs1.
  eapply wp_mono; [apply wp_and; [apply validateWait_known|by apply (Total_validateWait b)]|].
  intros [x|] s2 [G K2]; [apply wp_ret; by destruct (pendingRead s1)|].
  pose proof (keeps_pre b s1 s2 K2 Hs1) as Hs2. apply wp_bind, wp_gets. destruct (_ && _).
  - apply wp_bind, wp_modify, wp_bind. unfold lostPostedRead. apply wp_bind.
    eapply wp_mono; [by apply Quiet_ctxErr|]. intros. by apply wp_ret, wp_ret.
  - by apply Knows_stopAfterWAIT; [| |apply G].
Qed.
Lemma resolveSELECT_known r v st : responseKnown st = true -> responseKnown (resolveSELECT r v None st) = true.
Proof.
  intros Hk. unfold resolveSELECT, resolveSELECTAfterABORT, resolveSELECTFromCTRLSTAT. cbn [errors_Is is_nil orb].
  destruct (negb (selectPending st)); [done|]. destruct (isABORTWrite r); [done|]. destruct (isDPIDRRead r); [done|].
  destruct (_ && _); [|done]. destruct (any_bits v writeDataError); done.
Qed.

Lemma transfer_loop_known n w ctx r d a p s :
  pre b s -> known s -> ctx_nil ctx = false -> 1 <= maxWaits (port s) - w <= Z.of_nat n ->
  wp (transfer_loop abort n w ctx r d a p) (fun x s' => snd x = None -> known s') s.
Proof.
  revert w s. induction n as [|n IH]; intros w s Hs Hk Hc Hn; [lia|]. cbn [transfer_loop]. unfold guard at 1. apply wp_bind.
  eapply wp_mono; [apply wp_and; [by apply Quiet_ctxErr|by apply (Total_ctxErr (fuel := fuel) b)]|].
  intros [e|] s1 [E1 K1]; pose proof (keeps_pre b s s1 K1 Hs) as Hs1.
  { apply wp_bind. eapply wp_mono; [by apply Total_stopWaiting|]. intros. by apply wp_ret. }
  apply wp_bind. eapply wp_mono; [apply wp_and; [by apply exchange_quiet|by apply (Total_exchange b)]|].
  intros [v e] s2 [E2 K2]. pose proof (keeps_pre b s1 s2 K2 Hs1) as Hs2. cbv beta iota.
  assert (known s2) as Hk2 by (unfold known; by rewrite E2, E1). destruct e as [c|].
  - apply wp_bind. eapply wp_mono; [by apply (Total_smod (fuel := fuel) b); [auto with tame|]|]. intros [] s3 K3.
    pose proof (keeps_pre b s2 s3 K3 Hs2) as Hs3. apply wp_bind.
    eapply wp_mono; [apply (Total_if (fuel := fuel) b); [apply Total_smod; auto with tame|apply Total_ret|done]|]. intros [] s4 K4.
    pose proof (keeps_pre b s3 s4 K4 Hs3) as Hs4. destruct (_ && _); [by apply wp_ret|]. destruct (negb _).
    { eapply wp_some; [by apply finishRetryError_some|]. intros [? ?] ? [? ->]. done. }
    unfold guard. apply wp_bind.
    eapply wp_mono; [apply wp_and; [by apply prepareWaitRetry_known|apply wp_and; [by apply prepareWaitRetry_limit|by apply Total_prepareWaitRetry]]|].
    intros [x|] s5 (G & Hl & K5); [by apply wp_ret|]. apply IH; [exact (keeps_pre b s4 s5 K5 Hs4)|by apply G|done|].
    specialize (Hl eq_refl). rewrite (keeps_maxWaits _ _ K5) in *.
    rewrite (keeps_maxWaits _ _ K4), (keeps_maxWaits _ _ K3), (keeps_maxWaits _ _ K2), (keeps_maxWaits _ _ K1) in *. lia.
  - apply wp_bind, wp_modify, wp_bind. destruct (_ && _); [apply wp_modify|apply wp_ret]; apply wp_ret; intros _; by apply resolveSELECT_known.
Qed.

Lemma finishRegister_some r res p s : pre b s -> is_Some (r_cause res) -> wp (finishRegister r res p) (fun x _ => is_Some (snd x)) s.
Proof.
  intros Hs [c Ec]. unfold finishRegister, finishRegisterFault. rewrite Ec.
  destruct (errors_Is _ _); [by apply wp_bind, wp_modify, wp_ret|]. destruct (bool_decide _); [by apply wp_ret|].
  destruct (errors_Is _ _).
  { apply wp_bind. eapply wp_mono; [by apply (Total_if (fuel := fuel) b); [apply Total_smod; auto with tame|apply Total_ret|]|].
    intros [] s2 K2. apply wp_bind. eapply wp_mono; [apply (Total_handleFault b); exact (keeps_pre b s s2 K2 Hs)|].
    intros f s3 _. apply wp_ret. cbn. by repeat case_match. }
  destruct (bool_decide _); [destruct (_ && _); by apply wp_ret|].
  destruct (bool_decide _); [by apply wp_ret|by apply wp_bind, wp_modify, wp_ret].
Qed.

Lemma Quiet_registerExchange ctx r d : ctx_nil ctx = false -> Quiet (registerExchange ctx r d).
Proof. intros Hc. unfold registerExchange, registerOperation. quiet. Qed.

Lemma Knows_registerWait ctx r c w : Knows id (registerWait abort ctx r c w).
Proof.
  intros s Hs Hk. unfold registerWait. apply wp_bind, wp_gets. destruct (waitForbidden _ r); [by apply wp_bind, wp_modify, wp_ret|].
  apply wp_bind. eapply wp_mono; [apply wp_and; [apply canceledWAITCause_some|apply wp_and; [apply Quiet_canceledWAITCause|by apply (Total_canceledWAITCause b)]]|].
  intros c1 s1 ([c' ->] & E & K1). pose proof (keeps_pre b s s1 K1 Hs) as Hs1. apply wp_bind, (wp_lift _ c'); [done|].
  destruct (negb _); [apply wp_bind; eapply wp_mono; [by apply Total_finishWait|]; intros; by apply wp_ret|].
  apply wp_bind, wp_gets. destruct (_ && _); [apply wp_bind; eapply wp_mono; [by apply Total_finishWait|]; intros; by apply wp_ret|].
  apply wp_ret. intros _. unfold known. by rewrite E.
Qed.

Lemma register_loop_known n w ctx r d p s :
  pre b s -> known s -> ctx_nil ctx = false -> 1 <= maxWaits (port s) - w <= Z.of_nat n ->
  wp (register_loop abort n w ctx r d p) (fun x s' => snd x = None -> known s') s.
Proof.
  revert w s. induction n as [|n IH]; intros w s Hs Hk Hc Hn; [lia|]. cbn [register_loop]. apply wp_bind.
  eapply wp_mono; [apply wp_and; [by apply Quiet_registerExchange|by apply (Total_registerExchange b)]|].
  intros res s1 [E1 K1]. pose proof (keeps_pre b s s1 K1 Hs) as Hs1. assert (known s1) as Hk1 by (unfold known; by rewrite E1).
  destruct (r_cause res) as [c|] eqn:Ec; [|by apply wp_ret]. destruct (_ && _).
  - unfold guard. apply wp_bind.
    eapply wp_mono; [apply wp_and; [by apply Knows_registerWait|apply wp_and; [by apply registerWait_limit|by apply Total_registerWait]]|].
    intros [x|] s2 (G & Hl & K2); [by apply wp_ret|]. apply IH; [exact (keeps_pre b s1 s2 K2 Hs1)|by apply G|done|].
    specialize (Hl eq_refl). rewrite (keeps_maxWaits _ _ K2) in *. rewrite (keeps_maxWaits _ _ K1) in *. lia.
  - eapply wp_some; [apply finishRegister_some; [done|by rewrite Ec]|]. intros [? ?] ? [? ->]. done.
Qed.

Lemma Knows_transferWithAPRecovery ctx r d a p : ctx_nil ctx = false -> Knows snd (transferWithAPRecovery fuel abort ctx r d a p).
Proof.
  intros Hc. unfold transferWithAPRecovery. apply Knows_gets. intros resp. apply Knows_if; [by apply Knows_fail|].
  intros s Hs Hk. apply transfer_loop_known; try done. destruct Hs as (_ & Hm & _). lia.
Qed.

Lemma Knows_classify (m : M (Z * err)) (g : Z * err -> M unit) :
  Total b m -> Knows snd m -> (forall x, Total b (g x)) -> (forall x, Knows (fun _ => None) (g x)) ->
  Knows snd ('(v, e) ← m; g (v, e);; mret (v, classifyPortError e)).
Proof.
  intros Ht Hk Hg Hg2. apply (Knows_bind snd); [done|done| |].
  - intros [v e] s [x Hx] Hs. cbn in Hx. subst e. apply wp_bind. eapply wp_mono; [by apply Hg|]. intros. apply wp_ret. by apply classify_some.
  - intros [v e] He. cbn in He. subst e. intros s Hs Hks. apply wp_bind. eapply wp_mono; [by apply Hg2|].
    intros [] s1 G. apply wp_ret. intros _. by apply G.
Qed.

Lemma Knows_transfer ctx r d : ctx_nil ctx = false -> Knows snd (transfer fuel abort ctx r d).
Proof.
  intros Hc. unfold transfer. apply Knows_gets. intros reg. apply Knows_if.
  - unfold transferRegister. apply Knows_gets. intros resp. apply Knows_if; [by apply Knows_fail|].
    intros s Hs Hk. apply register_loop_known; try done. destruct Hs as (_ & Hm & _). lia.
  - apply (Knows_bind snd); [by apply Total_transferWithAPRecovery|by apply Knows_transferWithAPRecovery| |].
    + intros [v e] s [x Hx] Hs. cbn in Hx. subst e. apply wp_ret. by apply classify_some.
    + intros [v e] _. apply Knows_ret.
Qed.

Lemma Knows_transferDPWriteBarrier ctx : ctx_nil ctx = false -> Knows snd (transferDPWriteBarrier fuel abort ctx).
Proof.
  intros Hc. unfold transferDPWriteBarrier.
  apply (Knows_classify _ (fun x => if is_nil (snd x) || errors_Is (snd x) swd_ErrParity || faultHasValidState (snd x) then smod settleDPWrite else mret tt)).
  - by apply Total_transferWithAPRecovery.
  - by apply Knows_transferWithAPRecovery.
  - intros x. total.
  - intros x. apply Knows_if; [|apply Knows_ret]. intros s Hs Hk. by apply wp_modify.
Qed.

Lemma Knows_settlePreviousDPWrite ctx : ctx_nil ctx = false -> Knows id (settlePreviousDPWrite fuel abort ctx).
Proof.
  intros Hc. unfold settlePreviousDPWrite. apply Knows_gets. intros p. apply Knows_if; [apply Knows_ret|].
  apply (Knows_bind snd); [by apply Total_transferDPWriteBarrier|by apply Knows_transferDPWriteBarrier| |].
  - intros [v e] s [x Hx] _. cbn in Hx. subst e. by apply wp_ret.
  - intros [v e] _. apply Knows_ret.
Qed.

Lemma Knows_readDPRegister ctx reg : ctx_nil ctx = false -> Knows snd (readDPRegister fuel abort ctx reg).
Proof.
  intros Hc. unfold readDPRegister. apply Knows_gets. intros p. apply (Knows_bind snd).
  - total.
  - apply Knows_if; [by apply Knows_transferDPWriteBarrier|by apply Knows_transfer].
  - intros [v e] s [x Hx] _. cbn in Hx. subst e. destruct (_ && _); [by apply wp_ret|]. by apply wp_bind, wp_modify, wp_ret.
  - intros [v e] He. cbn in He. subst e. cbn [is_nil negb andb].
    apply Knows_smod; [auto with tame|intros; by apply recordDPRead_known|apply Knows_ret].
Qed.

Section KnowsBodies.
Variables (confirm : M err) (select : Z -> M err).

Lemma Knows_readDP_body ctx reg :
  ctx_nil ctx = false ->
  (reg = RDBUFF \/ Total b confirm /\ (forall k, Total b (select k)) /\ Knows id confirm /\ forall k, Knows id (select k)) ->
  Knows snd (readDP_body fuel abort confirm select ctx reg).
Proof.
  intros Hc Hor s Hs Hk. unfold readDP_body. apply wp_bind, wp_gets. cbn [id]. destruct (negb _); [by apply wp_ret|].
  destruct (validateDPRegister (port s) reg false) as [info [e|]] eqn:Ev; [by apply wp_ret|]. rewrite (proj1 Hs).
  refine (Knows_guard snd _ _ _ _ _ _ _ s Hs Hk).
  - total.
  - apply Knows_if; [by apply Knows_settlePreviousDPWrite|apply Knows_ret].
  - intros. by apply wp_ret.
  - destruct Hor as [->|(T1 & T2 & N1 & N2)].
    + rewrite (independent_register (port s) RDBUFF false info); [|auto|done]. cbn [negb]. by apply Knows_readDPRegister.
    + apply Knows_if; [|by apply Knows_readDPRegister].
      apply Knows_guard; [done|done|intros; by apply wp_ret|]. apply Knows_guard; [done|done|intros; by apply wp_ret|]. by apply Knows_readDPRegister.
Qed.

Lemma Knows_writeDP_body ctx reg v :
  ctx_nil ctx = false ->
  (reg = SELECT \/ Total b confirm /\ (forall k, Total b (select k)) /\ Knows id confirm /\ forall k, Knows id (select k)) ->
  Knows id (writeDP_body fuel abort confirm select ctx reg v).
Proof.
  intros Hc Hor s Hs Hk. unfold writeDP_body. apply wp_bind, wp_gets. cbn [id]. destruct (negb _); [by apply wp_ret|].
  destruct (validateDPWrite (port s) reg v) as [info [e|]] eqn:Ev; [by apply wp_ret|]. rewrite (proj1 Hs).
  refine (Knows_guard id _ _ _ _ _ _ _ s Hs Hk).
  - destruct Hor as [->|(T1 & T2 & N1 & N2)]; [rewrite (independent_write (port s) v info) by done; cbn [negb]; total|].
    apply Total_if; [|total]. apply Total_guard; [done|total|done].
  - destruct Hor as [->|(T1 & T2 & N1 & N2)]; [rewrite (independent_write (port s) v info) by done; cbn [negb]; apply Knows_ret|].
    apply Knows_if; [|apply Knows_ret]. apply Knows_guard; [done|done|intros; by apply wp_ret|done].
  - intros. by apply wp_ret.
  - apply (Knows_bind snd); [by apply Total_transfer|by apply Knows_transfer| |].
    + intros [x e] s1 [c Hx] Hs1. cbn in Hx. subst e. apply wp_bind. eapply wp_mono; [by apply (Total_recordFailedDPWrite reg v (Some c))|]. intros. by apply wp_ret.
    + intros [x e] He. cbn in He. subst e. apply Knows_gets. intros r.
      apply Knows_smod; [auto with tame|intros; by apply recordDPWrite_known|apply Knows_ret].
Qed.
End KnowsBodies.

Lemma Knows_confirmPendingSELECT ctx : ctx_nil ctx = false -> Knows id (confirmPendingSELECT fuel abort ctx).
Proof.
  intros Hc. unfold confirmPendingSELECT. apply Knows_gets. intros p. apply Knows_if; [apply Knows_ret|].
  apply (Knows_bind snd); [by apply Total_readDP_body; auto|by apply Knows_readDP_body; auto| |].
  - intros [v e] s [x Hx] _. cbn in Hx. subst e. by apply wp_ret.
  - intros [v e] _. apply Knows_ret.
Qed.

Lemma Knows_selectDPBank ctx k : ctx_nil ctx = false -> Knows id (selectDPBank fuel abort ctx k).
Proof.
  intros Hc. unfold selectDPBank. apply Knows_gets. intros sel. apply Knows_gets. intros cur.
  apply Knows_if; [by apply Knows_confirmPendingSELECT|].
  apply Knows_guard; [by apply Total_writeDP_body; auto|by apply Knows_writeDP_body; auto|intros; by apply wp_ret|by apply Knows_confirmPendingSELECT].
Qed.

Lemma Knows_readDP ctx reg : ctx_nil ctx = false -> Knows snd (readDP fuel abort ctx reg).
Proof.
  intros Hc. apply Knows_readDP_body; [done|]. right. repeat split; intros; auto using Total_confirmPendingSELECT, Total_selectDPBank, Knows_confirmPendingSELECT, Knows_selectDPBank.
Qed.

Lemma Knows_writeDP ctx reg v : ctx_nil ctx = false -> Knows id (writeDP fuel abort ctx reg v).
Proof.
  intros Hc. apply Knows_writeDP_body; [done|]. right. repeat split; intros; auto using Total_confirmPendingSELECT, Total_selectDPBank, Knows_confirmPendingSELECT, Knows_selectDPBank.
Qed.

Lemma Total_restoreAfterAbort ctx : ctx_nil ctx = false -> Total b (restoreAfterAbort fuel abort ctx).
Proof. intros Hc. unfold restoreAfterAbort. pose proof (Total_reenter ctx Hc). total. Qed.
End Recovery.

(** ** Recovery *)

Lemma frame_recovering x (s s' : PSt W) :
  recovering s = x -> keeps (set_recovering true s) s' -> keeps s (set_recovering x s').
Proof.
  intros Hx ((F1 & F2 & F3 & F4 & F5 & F6) & A & B). split; [|done].
  split_and!; first [assumption|symmetry; assumption].
Qed.

Lemma Total_abortWait_body b restore cause :
  (b = false -> forall ctx, ctx_nil ctx = false -> Total true (restore ctx)) -> Total b (abortWait_body restore cause).
Proof.
  intros Hr s Hs. unfold abortWait_body. apply wp_bind, wp_gets. pose proof Hs as (P1 & P2 & P3 & P4). rewrite P3.
  destruct b; [by apply wp_ret|]. specialize (Hr eq_refl). apply wp_bind, wp_modify.
  set (s1 := set_recovering true s). assert (pre true s1) as Hs1 by done.
  assert (forall {A B} (m : M A) (f : A -> M B) Q sx, Total true m -> keeps s1 sx ->
    (forall a sy, keeps s1 sy -> wp (f a) Q sy) -> wp (mbind f m) Q sx) as acc.
  { intros A B m f Q sx Hm K Hf. apply wp_bind. eapply wp_mono; [apply Hm; exact (keeps_pre true s1 sx K Hs1)|].
    intros a sy K2. apply Hf. exact (transitivity K K2). }
  apply acc; [total|reflexivity|]. intros _ s2 K2. unfold cleanupContext. apply wp_bind, wp_bind, wp_gets, wp_ret.
  apply acc; [by apply Total_exchange|done|]. intros [v e] s3 K3.
  apply acc; [|done|].
  - destruct e as [e|]; [total|]. apply Total_bind; [by apply Hr|]. total.
  - intros r s4 K4. apply wp_bind, wp_modify, wp_ret. by apply frame_recovering.
Qed.

Lemma Total_abortWait_nested cause : Total true (abortWait_nested cause).
Proof. by apply Total_abortWait_body. Qed.

(** Recovery always returns, nested or not. *)
Lemma Total_abortWait b cause : Total b (abortWait fuel cause).
Proof.
  apply Total_abortWait_body. intros _ ctx Hc. apply Total_restoreAfterAbort; [|done]. apply Total_abortWait_nested.
Qed.
End Returns.

#[export] Hint Resolve Total_abortWait Total_callerError Total_handleFault Total_exchange Total_transferWithAPRecovery
  Total_transferRegister Total_transfer Total_settlePreviousDPWrite Total_confirmPendingSELECT Total_readDP Total_writeDP
  Total_link_Connect Total_reenter Total_finishWait Total_stopAfterWAIT Total_validateWait Total_lostPostedRead
  Total_canceledWAITCause : total.
