(* ===== verification/DapAccessFacts.v ===== *)
(** * Immediate operations, connection and release keep the port consistent *)

From S2P Require Import Prelude Go JtagTap JtagConn JtagChain DapTypes DapErrors DapPort DapJtag DapSwd DapBlock DapAccess DapLifecycle DapSwdFacts.
Local Open Scope Z_scope.

Section Access.
Context {W : Type} `{Clock W} `{ChainLink W}.
Abbreviation M := (GoM (PSt W)).
Variable fuel : nat.
Variable b : bool.
Abbreviation pre := (pre (W := W) (fuel := fuel)).
Abbreviation Total := (Total (W := W) (fuel := fuel)).

(** ** Access ports *)

Lemma Total_selectAPAddress ctx a : ctx_nil ctx = false -> Total b (selectAPAddress fuel ctx a).
Proof. intros Hc. unfold selectAPAddress. total. Qed.
#[local] Hint Resolve Total_selectAPAddress : total.

Lemma Total_selectAP ctx sel a : ctx_nil ctx = false -> Total b (selectAP fuel ctx sel a).
Proof. intros Hc. unfold selectAP. total. Qed.
#[local] Hint Resolve Total_selectAP : total.

Lemma Total_pendingRead x : Total b (modify (set_pendingRead x)).
Proof. intros s _. apply wp_modify. split; [by repeat split|done]. Qed.
#[local] Hint Resolve Total_pendingRead : total.

Lemma Total_swd_readAP ctx a p : ctx_nil ctx = false -> Total b (swd_readAP fuel ctx a p).
Proof. intros Hc. unfold swd_readAP. total. Qed.
Lemma Total_swd_writeAP ctx a v p : ctx_nil ctx = false -> Total b (swd_writeAP fuel ctx a v p).
Proof. intros Hc. unfold swd_writeAP. total. Qed.
#[local] Hint Resolve Total_swd_readAP Total_swd_writeAP : total.

Lemma Total_not_jtag {A} (f : bool -> M A) : Total b (f false) -> Total b (mbind f (pget is_jtag)).
Proof. intros Hf s Hs. apply wp_bind, wp_gets. rewrite (proj1 Hs). by apply Hf. Qed.

Lemma Total_readAPEffect ctx sel a p : ctx_nil ctx = false -> Total b (readAPEffect fuel ctx sel a p).
Proof.
  intros Hc. unfold readAPEffect. destruct (snd _); [total|]. apply Total_guard; [total|total|]. apply Total_not_jtag. total.
Qed.
Lemma Total_writeAPEffect ctx sel a v p : ctx_nil ctx = false -> Total b (writeAPEffect fuel ctx sel a v p).
Proof.
  intros Hc. unfold writeAPEffect. destruct (snd _); [total|]. apply Total_guard; [total|total|]. apply Total_not_jtag. total.
Qed.
#[local] Hint Resolve Total_readAPEffect Total_writeAPEffect : total.

Lemma requireConnected_live dp ctx : requireConnected dp ctx = None -> ctx_nil ctx = false.
Proof. unfold requireConnected. by destruct (ctx_nil ctx). Qed.
Lemma requireOperational_live dp ctx : requireOperational dp ctx = None -> ctx_nil ctx = false.
Proof. unfold requireOperational. by destruct (ctx_nil ctx). Qed.

Ltac public :=
  apply Total_bind; [total|]; let dp := fresh "dp" in intros dp;
  match goal with |- Total _ (match ?x with _ => _ end) => let E := fresh "E" in destruct x eqn:E; [total|];
    first [apply requireConnected_live in E|apply requireOperational_live in E]; total end.

Lemma Total_ReadDP ctx reg : Total b (ReadDP fuel ctx reg). Proof. unfold ReadDP. public. Qed.
Lemma Total_WriteDP ctx reg v : Total b (WriteDP fuel ctx reg v). Proof. unfold WriteDP. public. Qed.
Lemma Total_readAP ctx sel a : ctx_nil ctx = false -> Total b (readAP fuel ctx sel a).
Proof. intros Hc. unfold readAP. total. Qed.
Lemma Total_writeAP ctx sel a v : ctx_nil ctx = false -> Total b (writeAP fuel ctx sel a v).
Proof. intros Hc. unfold writeAP. total. Qed.
#[local] Hint Resolve Total_readAP Total_writeAP Total_ReadDP : total.
Lemma Total_ReadAPIDR ctx sel : Total b (ReadAPIDR fuel ctx sel). Proof. unfold ReadAPIDR. public. Qed.
Lemma Total_noteAPEffect g p : Total b (noteAPEffect (W := W) g p). Proof. unfold noteAPEffect. total. Qed.
#[local] Hint Resolve Total_noteAPEffect : total.
Lemma Total_ReadRawAP ctx a : Total b (ReadRawAP fuel ctx a). Proof. unfold ReadRawAP. public. Qed.
Lemma Total_WriteRawAP ctx a v : Total b (WriteRawAP fuel ctx a v). Proof. unfold WriteRawAP. public. Qed.
#[local] Hint Resolve Total_ReadRawAP : total.

Lemma Total_space_check ctx : Total b (space_check (W := W) ctx).
Proof. unfold space_check. public. Qed.
#[local] Hint Resolve Total_space_check : total.
Lemma Total_space_ReadScalar ctx a z : Total b (space_ReadScalar fuel ctx a z). Proof. unfold space_ReadScalar. total. Qed.
Lemma Total_space_ReadDebugBase ctx : Total b (space_ReadDebugBase fuel ctx). Proof. unfold space_ReadDebugBase. total. Qed.

(** ** Release *)

Lemma Total_pmod f :
  (forall dp, bound_to (f dp) = bound_to dp /\ maxWaits (f dp) = maxWaits dp /\ cleanupTimeout (f dp) = cleanupTimeout dp /\
     (session (state dp) <> sessionConnected -> session (state (f dp)) <> sessionConnected) /\
     (select_inv (state dp) -> select_inv (state (f dp))) /\ (framing_inv (state dp) -> framing_inv (state (f dp)))) ->
  Total b (pmod f).
Proof.
  intros Hf s _. apply wp_modify. destruct (Hf (port s)) as (F1 & F2 & F3 & F4 & A & B).
  split; [|split; [exact A|exact B]]. split; [exact F1|]. split; [exact F2|]. split; [exact F3|]. by split_and!.
Qed.

Lemma Total_completeRelease : Total b (pmod dp_completeRelease).
Proof.
  apply Total_pmod. intros [? ? ? ? ? ? ? ? [] ?]. unfold select_inv, framing_inv. cbn. intuition congruence.
Qed.
Lemma Total_link_CleanupPending : Total b link_CleanupPending. Proof. unfold link_CleanupPending. total. Qed.
Lemma Total_link_Release ctx : Total b (link_Release ctx). Proof. unfold link_Release, releaseRegister. total. Qed.
#[local] Hint Resolve Total_completeRelease Total_link_CleanupPending Total_link_Release : total.

Lemma Total_releaseLink ctx : Total b (releaseLink fuel ctx).
Proof. unfold releaseLink. apply Total_not_jtag. total. Qed.
#[local] Hint Resolve Total_releaseLink : total.
Lemma Total_finishRelease ctx f k : Total b (finishRelease fuel ctx f k). Proof. unfold finishRelease. total. Qed.
#[local] Hint Resolve Total_finishRelease : total.

(** A context that is running out: asking it uses up the budget. *)
Definition deadline (ctx : context) : Prop :=
  forall w, fst (ctx_Err ctx w) = None -> (budget (snd (ctx_Err ctx w)) < budget w)%nat.

Lemma ctxErr_deadline ctx s :
  ctx_nil ctx = false -> deadline ctx ->
  wp (ctxErr ctx) (fun e s' => keeps s s' /\ (e = None -> (budget (world s') < budget (world s))%nat)) s.
Proof.
  intros Hc Hd. pose proof (budget_ctx ctx (world s)) as Hb. specialize (Hd (world s)).
  unfold wp, ctxErr. rewrite Hc. destruct (ctx_Err ctx (world s)) as [e w]. split; [split; [by repeat split|done]|].
  destruct e; [done|]. intros _. by apply Hd.
Qed.

Lemma power_loop_total n ctx mask set s :
  pre b s -> ctx_nil ctx = false -> deadline ctx -> (budget (world s) < n)%nat ->
  wp (power_loop fuel n ctx mask set) (fun _ s' => keeps s s') s.
Proof.
  intros Hs Hc Hd. revert s Hs. induction n as [|n IH]; intros s Hs Hn; [lia|]. cbn [power_loop].
  apply (wp_then fuel b); [done|total|]. intros [st [e|]] s1 K1 Hs1; [by apply (Total_ret (fuel := fuel) b)|].
  destruct (_ || _); [by apply (Total_ret (fuel := fuel) b)|]. unfold guard. apply wp_bind.
  eapply wp_mono; [by apply ctxErr_deadline|]. intros [e|] s2 [K2 G]; [by apply wp_ret|].
  specialize (G eq_refl). pose proof (keeps_pre b s1 s2 K2 Hs1) as Hs2.
  eapply wp_mono; [apply IH; [done|]|].
  - destruct K1 as ((_ & _ & _ & _ & Hb1 & _) & _). lia.
  - intros x s3 K3. exact (transitivity K2 K3).
Qed.

Lemma Total_waitPower ctx mask set : ctx_nil ctx = false -> deadline ctx -> Total b (waitPower fuel ctx mask set).
Proof. intros Hc Hd s Hs. apply power_loop_total; try done. apply Hs. Qed.
#[local] Hint Resolve Total_waitPower : total.

Lemma Total_releasePower ctx : ctx_nil ctx = false -> deadline ctx -> Total b (releasePower fuel ctx).
Proof. intros Hc Hd. unfold releasePower. total. Qed.
#[local] Hint Resolve Total_releasePower : total.

Lemma Total_Release_body ctx : ctx_nil ctx = false -> deadline ctx -> Total b (Release_body fuel ctx).
Proof. intros Hc Hd. unfold Release_body. total. Qed.
#[local] Hint Resolve Total_Release_body : total.

Lemma Total_Release ctx : deadline ctx -> Total b (Release fuel ctx).
Proof. intros Hd. unfold Release. apply Total_bind; [total|]. intros dp. destruct (ctx_nil ctx) eqn:Hc; total. Qed.

(** ** Connect *)

Hypothesis cleanup_deadline : forall t, deadline (WithTimeout Background t).

Lemma Total_cleanup_deadline {A} (f : context -> M A) :
  (forall ctx, ctx_nil ctx = false -> deadline ctx -> Total b (f ctx)) -> Total b (mbind f cleanupContext).
Proof.
  intros Hf. unfold cleanupContext. intros s Hs. apply wp_bind. apply wp_bind. apply wp_gets. apply wp_ret. by apply Hf.
Qed.

Lemma Total_failConnect e : Total b (failConnect fuel e).
Proof. unfold failConnect. apply Total_cleanup_deadline. intros ctx Hc Hd. total. Qed.

Lemma Total_failSWDConnect e : Total b (failSWDConnect e).
Proof.
  unfold failSWDConnect, failRegisterConnect. apply Total_bind; [total|]. intros reg. apply Total_if; [|total].
  apply Total_bind; [total|]. intros p. apply Total_if; [total|]. apply Total_cleanup. intros ctx Hc. total.
Qed.
#[local] Hint Resolve Total_failConnect Total_failSWDConnect : total.

Lemma Total_set_reentry i k : Total b (pmod (set_reentry i k)).
Proof. by apply Total_pmod. Qed.
Lemma Total_set_addressBits n : Total b (pmod (set_addressBits n)).
Proof. by apply Total_pmod. Qed.
Lemma Total_beginConnect : Total b (pmod dp_beginConnect).
Proof.
  apply Total_pmod. intros [? ? ? ? ? ? ? ? [] ?]. unfold select_inv, framing_inv. cbn. intuition congruence.
Qed.
Lemma tame_selectZero : tame (fun st => settleDPWrite (confirmSELECT (recordSELECT 0 st))).
Proof. do 2 (apply tame_compose; [auto with tame|]). auto with tame. Qed.
#[local] Hint Resolve Total_set_reentry Total_set_addressBits Total_beginConnect : total.
#[local] Hint Resolve tame_selectZero : tame.

Lemma Total_initialize ctx raw : ctx_nil ctx = false -> Total b (initialize fuel ctx raw).
Proof. intros Hc. unfold initialize. total. Qed.

Abbreviation known := (known (W := W)).

(** Initialization succeeds only with the response grammar read. *)
Lemma initialize_known ctx raw s :
  pre b s -> ctx_nil ctx = false -> wp (initialize fuel ctx raw) (fun r s' => snd r = None -> known s') s.
Proof.
  intros Hs Hc. unfold initialize. destruct (DecodeDPIDR raw) as [info [e|]]; [by apply wp_ret|].
  apply wp_bind. eapply wp_mono; [by apply Total_set_reentry|]. intros [] s1 K1. pose proof (keeps_pre b s s1 K1 Hs) as Hs1.
  apply wp_bind, wp_modify. set (s2 := set_port _ s1).
  assert (keeps s1 s2) as K2 by exact (keeps_smod _ s1 tame_selectZero).
  assert (zero_bank (state (port s2)) /\ dpWritePending (state (port s2)) = false) as [Hz Hp] by done. clearbody s2.
  pose proof (keeps_pre b s1 s2 K2 Hs1) as Hs2. apply wp_bind.
  eapply wp_mono; [apply wp_and; [apply (readDP_ctrlstat fuel b); auto using Total_abortWait|apply (Total_readDP fuel b); auto using Total_abortWait]|].
  intros [st [e|]] s3 [G K3]; [by apply wp_ret|]. pose proof (keeps_pre b s2 s3 K3 Hs2) as Hs3. specialize (G eq_refl).
  destruct (any_bits st transactionModes); [by apply wp_ret|]. destruct (negb _); [by apply wp_ret|].
  destruct (any_bits st _); [by apply wp_ret|]. apply wp_bind.
  eapply wp_mono; [apply (Knows_readDP fuel b); auto using Total_abortWait|]. intros [w [e|]] s4 G4; [by apply wp_ret|].
  apply wp_bind, wp_modify. destruct (existsb _ _); apply wp_ret; [|done]. intros _. by apply G4.
Qed.

Lemma Total_connectLink ctx : ctx_nil ctx = false -> Total b (connectLink fuel ctx).
Proof.
  intros Hc. unfold connectLink. apply Total_not_jtag. pose proof (fun raw => Total_initialize ctx raw Hc). total.
Qed.

(** A failing operation has an error to report. *)
Lemma finishRelease_some ctx f k s : pre b s -> (forall e, is_Some (f e)) -> is_Some k -> wp (finishRelease fuel ctx f k) (fun e _ => is_Some e) s.
Proof.
  intros Hs Hf Hk. unfold finishRelease. apply wp_bind. eapply wp_mono; [by apply Total_releaseLink|]. intros [e|] s1 K1.
  - apply wp_bind. eapply wp_mono; [apply (Total_if (fuel := fuel) b); [apply Total_completeRelease|apply Total_ret|exact (keeps_pre b s s1 K1 Hs)]|].
    intros. by apply wp_ret.
  - apply wp_bind, wp_modify. by apply wp_ret.
Qed.

Lemma failConnect_some e s : pre b s -> wp (failConnect fuel e) (fun x _ => is_Some x) s.
Proof.
  intros Hs. unfold failConnect, cleanupContext. apply wp_bind, wp_bind, wp_gets, wp_ret, wp_bind, wp_gets. unfold guard.
  set (ctx := WithTimeout Background (cleanupTimeout (port s))). assert (ctx_nil ctx = false) as Hc by done.
  apply wp_bind. eapply wp_mono; [apply (Total_if (fuel := fuel) b); [apply (Total_reenter fuel b); auto using Total_abortWait|apply Total_ret|done]|].
  intros [x|] s1 K1; [by apply wp_ret|]. pose proof (keeps_pre b s s1 K1 Hs) as Hs1. apply wp_bind.
  eapply wp_mono; [apply Total_releasePower; auto; apply cleanup_deadline|].
  intros [x|] s2 K2; [by apply wp_ret|]. apply finishRelease_some; [exact (keeps_pre b s1 s2 K2 Hs1)|by eexists|done].
Qed.

Lemma failSWDConnect_some e s : pre b s -> wp (failSWDConnect e) (fun x _ => is_Some x) s.
Proof.
  intros Hs. unfold failSWDConnect, failRegisterConnect. apply wp_bind, wp_gets. destruct (is_register (port s)).
  - apply wp_bind. eapply wp_mono; [by apply Total_link_CleanupPending|]. intros p s1 K1.
    pose proof (keeps_pre b s s1 K1 Hs) as Hs1. destruct (negb p); [by apply wp_bind, wp_modify, wp_ret|].
    unfold cleanupContext. apply wp_bind, wp_bind, wp_gets, wp_ret, wp_bind. eapply wp_mono; [by apply Total_link_Release|].
    intros r s2 K2. pose proof (keeps_pre b s1 s2 K2 Hs1) as Hs2. apply wp_bind.
    eapply wp_mono; [by apply Total_link_CleanupPending|]. intros q s3 K3. pose proof (keeps_pre b s2 s3 K3 Hs2) as Hs3.
    apply wp_bind. eapply wp_mono; [apply (Total_if (fuel := fuel) b); [apply Total_completeRelease|apply Total_smod; auto with tame|done]|].
    intros. apply wp_ret. by destruct r.
  - apply wp_bind. eapply wp_mono; [by apply Total_link_Release|]. intros [x|] s1 K1; by apply wp_bind, wp_modify, wp_ret.
Qed.

Lemma connectLink_known ctx s :
  pre b s -> ctx_nil ctx = false -> wp (connectLink fuel ctx) (fun r s' => snd r = None -> known s') s.
Proof.
  intros Hs Hc. unfold connectLink. apply wp_bind, wp_gets. rewrite (proj1 Hs). apply wp_bind.
  eapply wp_mono; [by apply (Total_link_Connect fuel b)|]. intros [raw [e|]] s1 K1; pose proof (keeps_pre b s s1 K1 Hs) as Hs1.
  - apply wp_bind. eapply wp_mono; [by apply failSWDConnect_some|]. intros x s2 [y ->]. by apply wp_ret.
  - apply wp_bind. eapply wp_mono; [apply wp_and; [by apply initialize_known|by apply Total_initialize]|].
    intros [[info st] [e|]] s2 [G K2]; pose proof (keeps_pre b s1 s2 K2 Hs1) as Hs2.
    + apply wp_bind. eapply wp_mono; [by apply failConnect_some|]. intros x s3 [y ->]. by apply wp_ret.
    + by apply wp_ret.
Qed.

(** What [Connect] ensures: the configuration stands, the invariant holds, and
    success means a connected port with a known grammar and a recorded identity. *)
Definition config (s s' : PSt W) : Prop :=
  bound_to (port s') = bound_to (port s) /\ maxWaits (port s') = maxWaits (port s) /\
  cleanupTimeout (port s') = cleanupTimeout (port s) /\ recovering s' = recovering s /\
  (budget (world s') <= budget (world s))%nat.

Definition consistent (s : PSt W) : Prop := select_inv (state (port s)) /\ framing_inv (state (port s)).

Definition connect_post (s : PSt W) (r : Identity * err) (s' : PSt W) : Prop :=
  config s s' /\ (consistent s -> consistent s') /\
  (snd r = None -> session (state (port s')) = sessionConnected /\ known s' /\ identity (port s') = fst r /\ identified (port s') = true).

Lemma config_keeps s s' : keeps s s' -> config s s' /\ (consistent s -> consistent s').
Proof.
  intros ((F1 & F2 & F3 & F4 & F5 & _) & A & B). split; [by repeat split|]. intros [? ?]. split; auto.
Qed.

Lemma failed_connect s s' i e : keeps s s' -> connect_post s (i, Some e) s'.
Proof. intros K. destruct (config_keeps s s' K) as [F C]. split; [exact F|]. split; [exact C|done]. Qed.

Lemma wp_failed s s1 e :
  pre b s1 -> keeps s s1 -> wp (x ← failConnect fuel e; mret (noIdentity, x)) (connect_post s) s1.
Proof.
  intros Hs1 K. apply wp_bind. eapply wp_mono; [apply wp_and; [by apply failConnect_some|by apply Total_failConnect]|].
  intros x s2 [[y ->] K2]. apply wp_ret, failed_connect. exact (transitivity K K2).
Qed.

Lemma completeConnect_post s s1 info :
  keeps s s1 -> known s1 -> connect_post s (info, None) (set_port (dp_completeConnect info (port s1)) s1).
Proof.
  intros K Hk. destruct (config_keeps s s1 K) as [F C]. split; [exact F|]. split; [|intros _; by repeat split].
  intros Hs. destruct (C Hs) as [(A1 & A2 & A3) B]. split; [|intros _; exact Hk].
  split; [exact A1|]. split; [exact A2|]. intros Hl. exfalso. unfold known, responseKnown in Hk.
  cbn in Hl. by rewrite Hl in Hk.
Qed.

(** A guarded step of [Connect] that keeps a known grammar. *)
Lemma wp_connect_step s s1 (m : M err) (k : M (Identity * err)) :
  pre b s1 -> keeps s s1 -> known s1 -> Total b m -> Knows fuel b id m ->
  (forall s2, pre b s2 -> keeps s s2 -> known s2 -> wp k (connect_post s) s2) ->
  wp (guard m (fun e => x ← failConnect fuel e; mret (noIdentity, x)) k) (connect_post s) s1.
Proof.
  intros Hs1 K Hk Hm Hn Hc. unfold guard. apply wp_bind. eapply wp_mono; [apply wp_and; [by apply Hm|by apply Hn]|].
  intros [e|] s2 [K2 G]; pose proof (keeps_pre b s1 s2 K2 Hs1) as Hs2; pose proof (transitivity K K2) as K'.
  - by apply wp_failed.
  - apply Hc; [done|exact K'|by apply G].
Qed.

Lemma power_loop_knows n ctx mask set s :
  pre b s -> ctx_nil ctx = false -> deadline ctx -> (budget (world s) < n)%nat -> known s ->
  wp (power_loop fuel n ctx mask set) (fun e s' => e = None -> known s') s.
Proof.
  intros Hs Hc Hd. revert s Hs. induction n as [|n IH]; intros s Hs Hn Hk; [lia|]. cbn [power_loop]. apply wp_bind.
  eapply wp_mono; [apply wp_and; [apply (Knows_readDP fuel b); auto using Total_abortWait|apply (Total_readDP fuel b); auto using Total_abortWait]|].
  intros [st [e|]] s1 [G K1]; [by apply wp_ret|]. pose proof (keeps_pre b s s1 K1 Hs) as Hs1. specialize (G eq_refl).
  destruct (_ || _); [by apply wp_ret|]. unfold guard. apply wp_bind.
  eapply wp_mono; [apply wp_and; [by apply ctxErr_deadline|by apply Quiet_ctxErr]|].
  intros [e|] s2 [[K2 B2] E2]; [by apply wp_ret|]. apply IH; [exact (keeps_pre b s1 s2 K2 Hs1)| |unfold known; by rewrite E2].
  specialize (B2 eq_refl). destruct K1 as ((_ & _ & _ & _ & Hb1 & _) & _). lia.
Qed.

Lemma Knows_waitPower ctx mask set : ctx_nil ctx = false -> deadline ctx -> Knows fuel b id (waitPower fuel ctx mask set).
Proof. intros Hc Hd s Hs Hk. apply power_loop_knows; try done. apply Hs. Qed.

Lemma Connect_body_post ctx s : pre b s -> ctx_nil ctx = false -> deadline ctx -> wp (Connect_body fuel ctx) (connect_post s) s.
Proof.
  intros Hs Hc Hd. unfold Connect_body. apply wp_bind. eapply wp_mono; [by apply Total_beginConnect|]. intros [] s1 K1.
  pose proof (keeps_pre b s s1 K1 Hs) as Hs1. apply wp_bind.
  eapply wp_mono; [apply wp_and; [by apply connectLink_known|by apply Total_connectLink]|].
  intros [[info st] [e|]] s2 [G K2]; pose proof (keeps_pre b s1 s2 K2 Hs1) as Hs2; pose proof (transitivity K1 K2) as K.
  { by apply wp_ret, failed_connect. }
  specialize (G eq_refl). apply wp_connect_step; [done|exact K|done| | |].
  - apply Total_if; total.
  - apply Knows_if; [|apply Knows_ret]. apply Knows_smod; [auto with tame|done|]. apply Knows_writeDP; auto using Total_abortWait.
  - intros s3 Hs3 K3 G3. apply wp_connect_step; [done|done|done|by apply Total_waitPower|by apply Knows_waitPower|].
    intros s4 Hs4 K4 G4. apply wp_connect_step; [done|done|done|total|apply Knows_quiet; by apply Quiet_ctxErr|].
    intros s5 Hs5 K5 G5. apply wp_bind, wp_modify, wp_ret. by apply completeConnect_post.
Qed.

Lemma callerError_none ctx e s : wp (callerError (W := W) ctx e) (fun r s' => port s' = port s /\ (r = None -> e = None)) s.
Proof.
  apply wp_and; [apply Quiet_callerError|]. destruct e as [e|]; [|by eapply wp_mono; [apply (Quiet_callerError ctx None s)|]].
  eapply wp_mono; [apply callerError_some|]. intros r s' [x ->]. done.
Qed.

Lemma connect_post_port s r r' s1 s2 :
  connect_post s r s1 -> keeps s1 s2 -> port s2 = port s1 -> fst r' = fst r -> (snd r' = None -> snd r = None) -> connect_post s r' s2.
Proof.
  intros ((F1 & F2 & F3 & F4 & F5) & C & G) ((_ & _ & _ & K4 & K5 & _) & _) E E1 E2.
  unfold connect_post, config, consistent, known in *. rewrite E, E1. split.
  - split; [exact F1|]. split; [exact F2|]. split; [exact F3|]. split; [congruence|lia].
  - split; [exact C|]. intros Hn. by apply G, E2.
Qed.

Lemma validateConnect_spec ctx s :
  pre b s -> wp (validateConnect ctx) (fun e s' => keeps s s' /\ port s' = port s /\ (e = None -> ctx_nil ctx = false)) s.
Proof.
  intros Hs. unfold validateConnect. apply wp_bind, wp_gets. cbn [id].
  repeat match goal with |- wp (if ?c then mret _ else _) _ _ => destruct c eqn:?; [by apply wp_ret|] end.
  unfold guard. rewrite (proj1 Hs). apply wp_bind, wp_ret.
  eapply wp_mono; [apply wp_and; [by apply (Total_ctxErr (fuel := fuel) b)|by apply Quiet_ctxErr]|]. by intros e s' [K E].
Qed.

Lemma port_Connect_spec ctx s : pre b s -> deadline ctx -> wp (Connect fuel ctx) (connect_post s) s.
Proof.
  intros Hs Hd. unfold Connect, guard. apply wp_bind. eapply wp_mono; [by apply validateConnect_spec|].
  intros [e|] s1 (K1 & E1 & Hc).
  { by apply wp_ret, failed_connect. }
  pose proof (keeps_pre b s s1 K1 Hs) as Hs1. apply wp_bind. eapply wp_mono; [by apply Connect_body_post; auto|].
  intros [i e] s2 C. assert (pre b s2) as Hs2.
  { destruct C as ((F1 & F2 & F3 & F4 & F5) & _), Hs1 as (P1 & P2 & P3 & P4). unfold DapSwdFacts.pre, is_jtag.
    rewrite F1, F2, F4. split; [exact P1|]. split; [exact P2|]. split; [exact P3|lia]. }
  apply wp_bind. eapply wp_mono; [apply wp_and; [apply callerError_none|by apply (Total_callerError fuel b)]|].
  intros x s3 [[E3 N3] K3]. apply wp_ret. eapply (connect_post_port s (i, e) (i, x) s2 s3); try done.
  destruct C as ((F1 & F2 & F3 & F4 & F5) & Cc & G). destruct (config_keeps s s1 K1) as [(C1 & C2 & C3 & C4 & C5) Cs].
  split; [|split; [auto|exact G]]. split; [congruence|]. split; [congruence|]. split; [congruence|]. split; [congruence|lia].
Qed.

(** What [Release] ensures on success: an idle session that owns no power. *)
Definition released (s : PSt W) : Prop := session (state (port s)) = sessionIdle /\ ownedPower (state (port s)) = 0.

Lemma finishRelease_released ctx f s :
  pre b s -> (forall e, is_Some (f e)) -> wp (finishRelease fuel ctx f None) (fun e s' => e = None -> released s') s.
Proof.
  intros Hs Hf. unfold finishRelease. apply wp_bind. eapply wp_mono; [by apply Total_releaseLink|]. intros [e|] s1 K1.
  - apply wp_bind. eapply wp_mono; [apply (Total_if (fuel := fuel) b); [apply Total_completeRelease|apply Total_ret|exact (keeps_pre b s s1 K1 Hs)]|].
    intros [] s2 _. apply wp_ret. intros E. destruct (Hf e). congruence.
  - apply wp_bind, wp_modify, wp_ret. by intros _.
Qed.

(** A guarded step of [Release]: a failure is reported. *)
Lemma wp_release_step (m : M err) (f : error -> err) (k : M err) s :
  pre b s -> Total b m -> (forall e, is_Some (f e)) -> (forall s1, pre b s1 -> wp k (fun e s' => e = None -> released s') s1) ->
  wp (guard m (fun e => mret (f e)) k) (fun e s' => e = None -> released s') s.
Proof.
  intros Hs Hm Hf Hk. unfold guard. apply wp_bind. eapply wp_mono; [by apply Hm|]. intros [e|] s1 K1.
  - apply wp_ret. intros E. destruct (Hf e). congruence.
  - apply Hk. exact (keeps_pre b s s1 K1 Hs).
Qed.

Lemma Release_body_released ctx s :
  pre b s -> ctx_nil ctx = false -> deadline ctx -> wp (Release_body fuel ctx) (fun e s' => e = None -> released s') s.
Proof.
  intros Hs Hc Hd. unfold Release_body. apply wp_bind.
  eapply wp_mono; [by apply (Total_smod (fuel := fuel) b); [auto with tame|exact Hs]|]. intros [] s1 K1.
  pose proof (keeps_pre b s s1 K1 Hs) as Hs1. apply wp_bind, wp_gets.
  apply wp_release_step; [done| |done|]; [apply Total_if; [apply (Total_reenter fuel b); auto using Total_abortWait|apply Total_ret]|].
  intros s2 Hs2. apply wp_release_step; [done|by apply Total_selectAPAddress|done|].
  intros s3 Hs3. apply wp_release_step; [done|by apply Total_releasePower|done|].
  intros s4 Hs4. by apply finishRelease_released.
Qed.

Lemma Release_released ctx s :
  pre b s -> bound (port s) = true -> session (state (port s)) <> sessionIdle -> deadline ctx ->
  wp (Release fuel ctx) (fun e s' => e = None -> released s') s.
Proof.
  intros Hs Hb Hi Hd. unfold Release. apply wp_bind, wp_gets. cbn [id]. rewrite Hb, bool_decide_eq_false_2 by done. cbn [negb].
  destruct (ctx_nil ctx) eqn:Hc; [by apply wp_ret|].
  apply wp_release_step; [done|by apply Total_ctxErr|done|]. intros s1 Hs1. apply wp_bind.
  eapply wp_mono; [by apply Release_body_released|]. intros e s2 G. eapply wp_mono; [apply callerError_none|].
  intros x s3 [E N] Hx. unfold released. rewrite E. by apply G, N.
Qed.
End Access.
