(* ===== verification/DapTxnFacts.v ===== *)
(** * The order and the number of planned steps

    The steps of a plan serve the queued operations one after the other, and the
    last step of an operation, and only that one, delivers its result. *)

From S2P Require Import Prelude Go JtagTap JtagConn JtagChain DapTypes DapErrors DapPlan DapPort DapJtag DapSwd DapAccess DapTxn DapSwdFacts DapAccessFacts.
Local Open Scope Z_scope.

(** The steps serve the operations from [k] up to [k'], exclusive. *)
Fixpoint ordered (k : Z) (l : list txnStep) (k' : Z) : Prop :=
  match l with
  | [] => k = k'
  | s :: l => op s = k /\ ordered (if deliver s then k + 1 else k) l k'
  end.

Lemma ordered_app k l j l' k' : ordered k l j -> ordered j l' k' -> ordered k (l ++ l') k'.
Proof. revert k. induction l as [|s l IH]; intros k; [by intros ->|]. intros [<- Hl] Hl'. split; auto. Qed.

Lemma ordered_split k l l' k' : ordered k (l ++ l') k' -> exists j, ordered k l j /\ ordered j l' k'.
Proof.
  revert k. induction l as [|s l IH]; intros k Hl; [by exists k|].
  destruct Hl as [<- Hl]. destruct (IH _ Hl) as (j & A & B). by exists j.
Qed.

Lemma ordered_le k l k' : ordered k l k' -> k <= k'.
Proof. revert k. induction l as [|s l IH]; intros k; [intros ->; lia|]. intros [_ Hl]. apply IH in Hl. destruct (deliver s); lia. Qed.

(** The operations served by a non-empty list of steps, up to its last. *)
Lemma ordered_covers k l k' s i :
  ordered k l k' -> last l = Some s -> k <= i <= op s -> exists s', s' ∈ l /\ op s' = i.
Proof.
  revert k. induction l as [|s1 l IH]; intros k Hl Hs Hi; [done|]. destruct Hl as [<- Hl].
  destruct (decide (i = op s1)) as [->|Hn]; [exists s1; split; [left|done]|].
  destruct l as [|s2 l].
  - injection Hs as ->. lia.
  - destruct (IH _ Hl Hs) as (s' & A & B); [destruct (deliver s1); lia|]. exists s'. split; [by right|done].
Qed.

Lemma ordered_last k l k' s : ordered k l k' -> last l = Some s -> k <= op s <= k'.
Proof.
  revert k. induction l as [|s1 l IH]; intros k Hl Hs; [done|]. destruct Hl as [<- Hl].
  destruct l as [|s2 l]; [injection Hs as ->; apply ordered_le in Hl; destruct (deliver s); lia|].
  specialize (IH _ Hl Hs). destruct (deliver s1); lia.
Qed.

(** Steps that come before something to be done for a later operation. *)
Lemma ordered_range k l k' : ordered k l k' -> Forall (fun s => k <= op s <= k') l.
Proof.
  revert k. induction l as [|s l IH]; intros k; [done|]. intros [<- Hl]. pose proof (ordered_le _ _ _ Hl) as Hle.
  constructor; [destruct (deliver s); lia|]. eapply Forall_impl; [apply (IH _ Hl)|]. intros x Hx. cbv beta in Hx.
  destruct (deliver s); lia.
Qed.

(** [p'] adds at most [n] steps to [p], which serve [k] to [k']. *)
Definition extends (n : nat) (p : swdTxnPlanner) (k : Z) (p' : swdTxnPlanner) (k' : Z) : Prop :=
  exists l, steps p' = steps p ++ l /\ ordered k l k' /\ (length l <= n)%nat.

Lemma extends_refl p k : extends 0 p k p k.
Proof. exists []. by rewrite app_nil_r. Qed.

Lemma plan_extends_trans n m p q r i j k : extends n p i q j -> extends m q j r k -> extends (n + m) p i r k.
Proof.
  intros (l1 & E1 & O1 & L1) (l2 & E2 & O2 & L2). exists (l1 ++ l2). rewrite E2, E1, app_assoc, length_app.
  split; [done|]. split; [by eapply ordered_app|lia].
Qed.

Lemma extends_emit l p k k' n : ordered k l k' -> (length l <= n)%nat -> extends n p k (emit l p) k'.
Proof. intros Ho Hn. by exists l. Qed.

Lemma extends_more n m p k p' k' : extends n p k p' k' -> (n <= m)%nat -> extends m p k p' k'.
Proof. intros (l & E & O & L) ?. exists l. split_and!; [done|done|lia]. Qed.

Lemma selectValue_extends i v p : extends 1 p i (selectValue i v p) i.
Proof.
  unfold selectValue. destruct (_ && _); [eapply extends_more; [apply extends_refl|lia]|]. by exists [select_step i v].
Qed.

Lemma settleSELECT_extends i p : extends 1 p i (settleSELECT i p) i.
Proof.
  unfold settleSELECT. destruct (negb _); [eapply extends_more; [apply extends_refl|lia]|]. by exists [settle_step i].
Qed.

Lemma select_extends i v p : extends 2 p i (settleSELECT i (selectValue i v p)) i.
Proof. apply (plan_extends_trans 1 1 _ (selectValue i v p) _ i i i); [apply selectValue_extends|apply settleSELECT_extends]. Qed.

Lemma appendAP_extends i o p : extends 2 p i (appendAP i o p) (i + 1).
Proof. apply extends_emit; [done|simpl; lia]. Qed.

Lemma sequence_writes_ordered i a st vs : ordered i (sequence_writes i a st vs) i.
Proof. revert st. induction vs as [|v vs IH]; intros st; [done|]. split; [done|apply IH]. Qed.

Lemma length_sequence_writes i a st vs : length (sequence_writes i a st vs) = length vs.
Proof. revert st. induction vs; intros st; simpl; auto. Qed.

Lemma appendAPWriteSequence_extends i o p : extends (length (values o) + 1) p i (appendAPWriteSequence i o p) (i + 1).
Proof.
  apply extends_emit; [by eapply ordered_app; [apply sequence_writes_ordered|]|].
  rewrite length_app, length_sequence_writes. simpl. lia.
Qed.

Lemma sequential_reads_ordered i l : ordered (i - 1) (sequential_reads i l) (i - 1 + len l).
Proof.
  revert i. induction l as [|o l IH]; intros i; [unfold len; simpl; lia|]. split; [done|]. specialize (IH (i + 1)).
  replace (i + 1 - 1) with (i - 1 + 1) in IH by lia. cbn [deliver].
  replace (i - 1 + len (o :: l)) with (i - 1 + 1 + len l) by (unfold len; simpl; lia). exact IH.
Qed.

Lemma length_sequential_reads i l : length (sequential_reads i l) = length l.
Proof. revert i. induction l; intros i; simpl; auto. Qed.

Lemma lowerSequentialAP_extends i o l p : extends (length l + 4) p i (lowerSequentialAP i o l p) (i + 1 + len l).
Proof.
  eapply extends_more; [eapply plan_extends_trans; [apply select_extends|apply (extends_emit _ _ i (i + 1 + len l) (length l + 2))]|lia].
  - split; [done|]. cbn [deliver]. eapply ordered_app.
    + pose proof (sequential_reads_ordered (i + 1) l) as Hr. replace (i + 1 - 1) with i in Hr by lia. exact Hr.
    + split; [done|]. simpl. lia.
  - simpl. rewrite length_app, length_sequential_reads. simpl. lia.
Qed.

Lemma steps_dp_selection w reg d r p : steps (dp_selection w reg d r p) = steps p.
Proof. unfold dp_selection. by repeat case_match. Qed.

Lemma extends_steps n p k p' k' q : steps q = steps p' -> extends n p k p' k' -> extends n p k q k'.
Proof. intros E (l & E1 & O & L). exists l. by rewrite E. Qed.

Lemma lowerDP_extends i o p : kind o = txnReadDP \/ kind o = txnWriteDP -> extends 4 p i (lowerDP i o p) (i + 1).
Proof.
  intros Hk. unfold lowerDP. cbv zeta. set (info := fst _). set (inv := _ && _ && _).
  set (p1 := if negb _ then _ else _). assert (extends 2 p i p1 i) as E1.
  { subst p1. destruct (negb _); [apply select_extends|eapply extends_more; [apply extends_refl|lia]]. }
  destruct Hk as [Hk|Hk]; rewrite Hk; cbn [bool_decide decide decide_rel txnOpKind_eq_dec];
    [rewrite (bool_decide_eq_true_2 (txnReadDP = txnReadDP)), (bool_decide_eq_false_2 (txnReadDP = txnWriteDP)) by done
    |rewrite (bool_decide_eq_true_2 (txnWriteDP = txnWriteDP)), (bool_decide_eq_false_2 (txnWriteDP = txnReadDP)) by done].
  - eapply extends_more; [eapply extends_steps; [apply steps_dp_selection|]|].
    + eapply plan_extends_trans; [exact E1|]. by apply (extends_emit _ _ i (i + 1) 1).
    + lia.
  - apply (plan_extends_trans 3 1 _ (dp_selection true (dpReg o) (data o) (txnDPRequest o info)
      (emit [mkStep (txnDPRequest o info) (dpReg o) (data o) i false false false false false false false false inv] p1)) _ i i (i + 1)).
    + eapply extends_steps; [apply steps_dp_selection|]. eapply (plan_extends_trans 2 1); [exact E1|]. by apply (extends_emit _ _ i i 1).
    + eexists. split; [reflexivity|]. by split; [|simpl; lia].
Qed.

(** At most this many steps for each operation. *)
Definition op_steps (o : txnOp) : nat := length (values o) + 4.
Definition steps_bound (ops : list txnOp) : nat := sum_list_with op_steps ops.

Lemma lower_extends i o p : kind o <> txnReadAPSequential -> extends (op_steps o) p i (lower i o p) (i + 1).
Proof.
  intros Hk. unfold lower, op_steps. destruct (kind o) eqn:E; try done.
  1,2: eapply extends_more; [apply lowerDP_extends; auto|lia].
  1-3: eapply extends_more; [eapply plan_extends_trans; [apply select_extends|apply appendAP_extends]|lia].
  eapply extends_more; [eapply plan_extends_trans; [apply select_extends|apply appendAPWriteSequence_extends]|lia].
Qed.

Lemma sequential_run_le o l : (sequential_run o l <= length l)%nat.
Proof. induction l as [|o' l IH]; simpl; [lia|]. destruct (sameSequentialAP o o'); lia. Qed.

Lemma steps_bound_length l : (length l <= steps_bound l)%nat.
Proof. unfold steps_bound. induction l as [|o l IH]; simpl; unfold op_steps in *; lia. Qed.

Lemma steps_bound_drop n l : (length (take n l) + steps_bound (drop n l) <= steps_bound l)%nat.
Proof.
  transitivity (steps_bound (take n l) + steps_bound (drop n l))%nat; [pose proof (steps_bound_length (take n l)); lia|].
  unfold steps_bound. by rewrite <- sum_list_with_app, take_drop.
Qed.

Lemma plan_loop_extends fuel i ops p :
  (length ops <= fuel)%nat -> extends (steps_bound ops) p i (plan_loop fuel i ops p) (i + len ops).
Proof.
  revert i ops p. induction fuel as [|fuel IH]; intros i [|o rest] p Hf; try (simpl in Hf; lia);
    try (replace (i + len []) with i by (unfold len; simpl; lia); apply extends_refl).
  simpl in Hf. cbn [plan_loop]. destruct (decide (kind o = txnReadAPSequential)) as [Hk|Hk].
  - rewrite bool_decide_eq_true_2 by done. cbn [negb]. set (n := sequential_run o rest).
    pose proof (sequential_run_le o rest) as Hn. fold n in Hn.
    pose proof (steps_bound_drop n rest) as Hb. rewrite length_take in Hb.
    eapply extends_more; [eapply plan_extends_trans; [apply (lowerSequentialAP_extends i o (take n rest))|]|].
    + pose proof (IH (i + 1 + Z.of_nat n) (drop n rest) (lowerSequentialAP i o (take n rest) p)) as E. rewrite length_drop in E.
      replace (i + 1 + len (take n rest)) with (i + 1 + Z.of_nat n) by (unfold len; rewrite length_take; lia).
      replace (i + len (o :: rest)) with (i + 1 + Z.of_nat n + len (drop n rest)) by (unfold len; simpl; rewrite length_drop; lia).
      apply E. lia.
    + rewrite length_take. unfold steps_bound at 2. cbn [sum_list_with]. fold (steps_bound rest). unfold op_steps. lia.
  - rewrite bool_decide_eq_false_2 by done. cbn [negb].
    replace (i + len (o :: rest)) with (i + 1 + len rest) by (unfold len; simpl; lia).
    apply (plan_extends_trans (op_steps o) (steps_bound rest) _ (lower i o p) _ i (i + 1)); [by apply lower_extends|apply IH; lia].
Qed.

(** The last step of a plan delivers, so no step serves an operation that is
    not there. *)
Definition ends (l : list txnStep) : Prop := exists k s, l = k ++ [s] /\ deliver s = true.

Lemma ends_app l k s : deliver s = true -> ends (l ++ k ++ [s]).
Proof. intros Hd. exists (l ++ k), s. by rewrite app_assoc. Qed.

Lemma lower_ends i o p : kind o <> txnReadAPSequential -> ends (steps (lower i o p)).
Proof.
  intros Hk. unfold lower. destruct (kind o) eqn:E; try done.
  - unfold lowerDP. rewrite (bool_decide_eq_false_2 (kind o = txnWriteDP)), (bool_decide_eq_true_2 (kind o = txnReadDP)) by congruence.
    cbv zeta iota. rewrite steps_dp_selection. by apply (ends_app _ []).
  - unfold lowerDP. rewrite (bool_decide_eq_true_2 (kind o = txnWriteDP)) by congruence. by apply (ends_app _ []).
  - by apply (ends_app _ [_]).
  - by apply (ends_app _ [_]).
  - by apply (ends_app _ [_]).
  - by apply ends_app.
Qed.

Lemma plan_loop_ends fuel i ops p : (length ops <= fuel)%nat -> ops = [] \/ ends (steps (plan_loop fuel i ops p)).
Proof.
  revert i ops p. induction fuel as [|fuel IH]; intros i [|o rest] p Hf; [by left|simpl in Hf; lia|by left|]. right.
  simpl in Hf. cbn [plan_loop]. destruct (decide (kind o = txnReadAPSequential)) as [Hk|Hk].
  - rewrite bool_decide_eq_true_2 by done. cbn [negb]. set (n := sequential_run o rest).
    destruct (IH (i + 1 + Z.of_nat n) (drop n rest) (lowerSequentialAP i o (take n rest) p)) as [E|E]; [rewrite length_drop; lia| |exact E].
    rewrite E. destruct fuel; by apply (ends_app _ (_ :: _)).
  - rewrite bool_decide_eq_false_2 by done. cbn [negb].
    destruct (IH (i + 1) rest (lower i o p)) as [->|E]; [lia| |exact E]. destruct fuel; by apply lower_ends.
Qed.

Lemma ordered_below k l k' : ordered k l k' -> ends l -> Forall (fun s => op s < k') l.
Proof.
  intros Ho (l1 & s & -> & Hd). destruct (ordered_split _ _ _ _ Ho) as (j & O1 & [E O2]). rewrite Hd in O2. cbn in O2.
  apply Forall_app. split; [|constructor; [lia|done]]. eapply Forall_impl; [by eapply ordered_range|]. cbn. lia.
Qed.

Lemma plan_ordered ops dp :
  let l := plan ops (newSWDTxnPlanner dp) in
  ordered 0 l (len ops) /\ Forall (fun s => op s < len ops) l /\ (length l <= steps_bound ops)%nat.
Proof.
  intros l. destruct (plan_loop_extends (length ops) 0 ops (newSWDTxnPlanner dp) (le_n _)) as (k & E & O & L).
  assert (l = k) as -> by done. split; [done|]. split; [|done].
  destruct (plan_loop_ends (length ops) 0 ops (newSWDTxnPlanner dp) (le_n _)) as [->|Hd].
  - destruct k; [done|]. cbn in L. unfold steps_bound in L. simpl in L. lia.
  - apply (ordered_below 0); [done|]. by rewrite E in Hd.
Qed.

(** * Committing a transaction returns and resolves every result

    What is shown of the executors of a transaction: they return whatever the
    transport answers, keep the port consistent, and leave no queued operation
    without a result. *)

(** The result at address [p] is there and is resolved. *)
Definition settled_at (h : list txnResult) (p : nat) : Prop := exists r, h !! p = Some r /\ resolved r = true.

(** Results stay resolved, and none goes away. *)
Definition heap_le (h h' : list txnResult) : Prop :=
  (length h <= length h')%nat /\ forall p, settled_at h p -> settled_at h' p.

#[global] Instance heap_le_preorder : PreOrder heap_le.
Proof. split; [by intros h|]. intros h1 h2 h3 [A B] [C D]. split; [lia|auto]. Qed.

Lemma settled_at_length h p : settled_at h p -> (p < length h)%nat.
Proof. intros (r & E & _). by eapply lookup_lt_Some. Qed.

Lemma heap_le_alter f p h : (forall r, resolved r = true -> resolved (f r) = true) -> heap_le h (alter f p h).
Proof.
  intros Hf. split; [by rewrite length_alter|]. intros q (r & E & R). destruct (decide (p = q)) as [->|Hn].
  - exists (f r). rewrite list_lookup_alter_eq, E. auto.
  - exists r. by rewrite list_lookup_alter_ne.
Qed.

Lemma heap_le_app h r : heap_le h (h ++ [r]).
Proof. split; [rewrite length_app; lia|]. intros q (x & E & R). exists x. by rewrite lookup_app_l by (by eapply lookup_lt_Some). Qed.

Lemma resolve_resolved v e r : resolved (resolve v e r) = true.
Proof. unfold resolve. by destruct (resolved r) eqn:E. Qed.

Section TxnFacts.
Context {W : Type} `{Clock W} `{ChainLink W}.
Variable fuel : nat.
Abbreviation M := (GoM (XSt W)).
Abbreviation pre := (pre (W := W) (fuel := fuel)).
Abbreviation Total := (Total (W := W) (fuel := fuel)).

(** Every operation has a result of its own in the heap. *)
Definition xpre (s : XSt W) : Prop :=
  pre false (core s) /\ Forall (fun o => (result o < length (heap s))%nat) (ops s).

Definition xkeeps (s s' : XSt W) : Prop :=
  keeps (core s) (core s') /\ result <$> ops s' = result <$> ops s /\ heap_le (heap s) (heap s') /\
  committed s' = committed s /\ has_dp s' = has_dp s.

#[global] Instance xkeeps_preorder : PreOrder xkeeps.
Proof.
  split; [intros s; by split; [|split]|]. intros s1 s2 s3 (A1 & B1 & C1 & D1 & E1) (A2 & B2 & C2 & D2 & E2).
  split; [exact (transitivity A1 A2)|]. split; [congruence|]. split; [exact (transitivity C1 C2)|]. split; congruence.
Qed.

Lemma xkeeps_length s s' : xkeeps s s' -> length (ops s') = length (ops s).
Proof. intros (_ & E & _). apply (f_equal length) in E. by rewrite !length_fmap in E. Qed.

Lemma xkeeps_pre s s' : xkeeps s s' -> xpre s -> xpre s'.
Proof.
  intros (K & E & [L _] & _) [P F]. split; [exact (keeps_pre false _ _ K P)|].
  apply (Forall_fmap result (fun p => (p < length (heap s'))%nat)). rewrite E. apply Forall_fmap. eapply Forall_impl; [exact F|].
  intros o Ho. cbn in *. lia.
Qed.

(** Operation [i] has its result. *)
Definition settled (s : XSt W) (i : Z) : Prop := forall o, ops s !! Z.to_nat i = Some o -> settled_at (heap s) (result o).

Lemma settled_mono s s' i : xkeeps s s' -> settled s i -> settled s' i.
Proof.
  intros (_ & E & [_ L] & _) Hi o' Ho'. assert ((result <$> ops s) !! Z.to_nat i = Some (result o')) as Hr.
  { rewrite <- E, list_lookup_fmap, Ho'. done. }
  rewrite list_lookup_fmap in Hr. destruct (ops s !! Z.to_nat i) as [o|] eqn:Ho; [|done]. injection Hr as <-.
  by apply L, Hi.
Qed.

(** The outcome of a step: what it keeps, and the operations it settles. *)
Definition xpost {A} (s : XSt W) (P : Z -> Prop) : A -> XSt W -> Prop :=
  fun _ s' => xkeeps s s' /\ forall i, 0 <= i -> P i -> settled s' i.

Definition none : Z -> Prop := fun _ => False.

Lemma xpost_weaken {A} s (P Q : Z -> Prop) (a : A) s' : (forall i, Q i -> P i) -> xpost s P a s' -> xpost s Q a s'.
Proof. intros HQ [K G]. split; [exact K|auto]. Qed.

(** Sequencing: what the first settles stays settled. *)
Lemma xpost_bind {A B} (m : M A) (f : A -> M B) (P Q : Z -> Prop) s :
  xpre s -> wp m (xpost s P) s ->
  (forall a s1, xpre s1 -> xkeeps s s1 -> wp (f a) (xpost s1 Q) s1) ->
  wp (mbind f m) (xpost s (fun i => P i \/ Q i)) s.
Proof.
  intros Hs Hm Hf. apply wp_bind. eapply wp_mono; [exact Hm|]. intros a s1 [K1 G1].
  eapply wp_mono; [apply Hf; [exact (xkeeps_pre _ _ K1 Hs)|exact K1]|]. intros c s2 [K2 G2].
  split; [exact (transitivity K1 K2)|]. intros i Hi [Hp|Hq]; [|auto]. apply (settled_mono _ _ _ K2). auto.
Qed.

(** A step that settles nothing before one that does, or after it. *)
Lemma xpost_seq {A B} (m : M A) (f : A -> M B) (Q : Z -> Prop) s :
  xpre s -> wp m (xpost s none) s ->
  (forall a s1, xpre s1 -> xkeeps s s1 -> wp (f a) (xpost s1 Q) s1) -> wp (mbind f m) (xpost s Q) s.
Proof. intros Hs Hm Hf. eapply wp_mono; [by eapply xpost_bind|]. intros a s'. apply xpost_weaken. by right. Qed.

Lemma xpost_ret {A} (a : A) s : wp (mret a) (xpost s none) s.
Proof. apply wp_ret. split; [reflexivity|]. by intros i _ []. Qed.
Lemma xpost_gets {A} (f : XSt W -> A) s : wp (gets f) (xpost s none) s.
Proof. apply wp_gets. split; [reflexivity|]. by intros i _ []. Qed.
Lemma xpost_none {A} s (a : A) s' : xkeeps s s' -> xpost s none a s'.
Proof. split; [done|]. by intros i _ []. Qed.

(** ** Running on the port *)

Lemma wp_on_core {A} (m : GoM (PSt W) A) (Q : A -> PSt W -> Prop) s :
  wp m Q (core s) -> wp (on_core m) (fun a s' => exists c, s' = set_core c s /\ Q a c) s.
Proof. unfold wp, on_core. destruct (m (core s)) as [[a c]| |]; [|done|done]. intros HQ. by exists c. Qed.

Lemma set_core_keeps c s : keeps (core s) c -> xkeeps s (set_core c s).
Proof. intros K. split; [exact K|]. by split. Qed.

Lemma on_core_total {A} (m : GoM (PSt W) A) s : xpre s -> Total false m -> wp (on_core m) (xpost s none) s.
Proof.
  intros [Hs _] Hm. eapply wp_mono; [apply wp_on_core; by apply Hm|]. intros a s' (c & -> & K).
  by apply xpost_none, set_core_keeps.
Qed.

(** ** Resolving *)

Lemma heap_keeps f s : heap_le (heap s) (f (heap s)) -> xkeeps s (set_heap f s).
Proof. intros L. split; [reflexivity|]. by split. Qed.

Lemma resolveResult_spec p v e s :
  xpre s -> wp (resolveResult p v e) (fun _ s' => xkeeps s s' /\ ((p < length (heap s))%nat -> settled_at (heap s') p)) s.
Proof.
  intros Hs. apply wp_modify. split.
  - apply heap_keeps, heap_le_alter. intros r _. apply resolve_resolved.
  - intros Hp. destruct (lookup_lt_is_Some_2 _ _ Hp) as [r Hr]. exists (resolve v e r). cbn [heap set_heap].
    rewrite list_lookup_alter_eq, Hr. split; [done|apply resolve_resolved].
Qed.

Lemma classifyResult_spec p (s : XSt W) : wp (classifyResult p) (xpost s none) s.
Proof. apply wp_modify, xpost_none, heap_keeps, heap_le_alter. done. Qed.

Lemma getOp_spec i (s : XSt W) : 0 <= i < len (ops s) -> wp (getOp i) (fun o s' => s' = s /\ ops s !! Z.to_nat i = Some o) s.
Proof.
  intros Hi. unfold wp, getOp, Prelude.index. rewrite (proj2 (Z.ltb_ge i 0)) by lia.
  destruct (ops s !! Z.to_nat i) as [o|] eqn:E; [done|]. apply lookup_ge_None in E. unfold len in Hi. lia.
Qed.

Lemma resolveOp_spec i v e s : xpre s -> 0 <= i < len (ops s) -> wp (resolveOp i v e) (xpost s (fun j => j = i)) s.
Proof.
  intros Hs Hi. unfold resolveOp. apply wp_bind. eapply wp_mono; [by apply getOp_spec|]. intros o s1 [-> Ho].
  eapply wp_mono; [by apply resolveResult_spec|]. intros [] s2 [K G]. split; [exact K|]. intros j _ -> o' Ho'.
  destruct K as (_ & E & _). assert (result o' = result o) as ->.
  { apply (f_equal (fun l => l !! Z.to_nat i)) in E. rewrite !list_lookup_fmap, Ho, Ho' in E. by injection E. }
  apply G. destruct Hs as [_ F]. rewrite Forall_forall in F. apply F. by eapply list_elem_of_lookup_2.
Qed.

Lemma mapM_resolve (f : txnOp -> Z) (g : txnOp -> err) l s :
  xpre s -> Forall (fun o => (result o < length (heap s))%nat) l ->
  wp (mapM_ (fun o => resolveResult (result o) (f o) (g o)) l)
     (fun _ s' => xkeeps s s' /\ Forall (fun o => settled_at (heap s') (result o)) l) s.
Proof.
  revert s. induction l as [|o l IH]; intros s Hs Hl; cbn [mapM_].
  { apply wp_ret. by split. }
  apply Forall_cons in Hl as [Ho Hl]. apply wp_bind. eapply wp_mono; [by apply resolveResult_spec|].
  intros [] s1 [K1 G1]. eapply wp_mono; [apply IH; [exact (xkeeps_pre _ _ K1 Hs)|]|].
  - eapply Forall_impl; [exact Hl|]. intros o' Ho'. destruct K1 as (_ & _ & [L _] & _). cbn in *. lia.
  - intros [] s2 [K2 G2]. split; [exact (transitivity K1 K2)|]. constructor; [|exact G2].
    destruct K2 as (_ & _ & [_ L] & _). auto.
Qed.

Lemma settled_of_results s s' i o :
  xkeeps s s' -> ops s !! Z.to_nat i = Some o -> settled_at (heap s') (result o) -> settled s' i.
Proof.
  intros (_ & E & _) Ho Hr o' Ho'. assert (result o' = result o) as ->; [|done].
  apply (f_equal (fun l => l !! Z.to_nat i)) in E. rewrite !list_lookup_fmap, Ho, Ho' in E. by injection E.
Qed.

(** A loop over the operations from [start] on resolves them. *)
Lemma resolveFrom_spec (f : txnOp -> Z) (g : txnOp -> err) start s :
  xpre s -> 0 <= start ->
  wp (mapM_ (fun o => resolveResult (result o) (f o) (g o)) (drop (Z.to_nat start) (ops s))) (xpost s (fun i => start <= i)) s.
Proof.
  intros Hs Hst. eapply wp_mono; [apply mapM_resolve; [done|by apply Forall_drop, Hs]|]. intros [] s' [K G].
  split; [exact K|]. intros i Hi Hge o' Ho'.
  assert (Z.to_nat i < length (ops s))%nat as Hlt by (rewrite <- (xkeeps_length _ _ K); by eapply lookup_lt_Some).
  destruct (lookup_lt_is_Some_2 _ _ Hlt) as [o Ho]. eapply settled_of_results; [exact K|exact Ho| |exact Ho'].
  rewrite Forall_forall in G. apply G. apply list_elem_of_lookup. exists (Z.to_nat i - Z.to_nat start)%nat.
  rewrite lookup_drop. replace (Z.to_nat start + (Z.to_nat i - Z.to_nat start))%nat with (Z.to_nat i) by lia. done.
Qed.

Lemma txn_resolveSuffix_spec start s : xpre s -> 0 <= start -> wp (resolveSuffix start) (xpost s (fun i => start <= i)) s.
Proof. intros Hs Hst. unfold resolveSuffix. apply wp_bind, wp_gets. by apply (resolveFrom_spec (fun _ => 0) (fun _ => _)). Qed.

Lemma resolveAll_spec e s : xpre s -> wp (resolveAll e) (xpost s (fun i => 0 <= i)) s.
Proof. intros Hs. unfold resolveAll. apply wp_bind, wp_gets. by apply (resolveFrom_spec (fun _ => 0) (fun _ => _) 0). Qed.

Lemma txn_resolveInvalid_spec s : xpre s -> wp resolveInvalid (xpost s (fun i => 0 <= i)) s.
Proof. intros Hs. unfold resolveInvalid. apply wp_bind, wp_gets. by apply (resolveFrom_spec (fun _ => 0) _ 0). Qed.

(** ** Failing steps *)

(** The operation fails with an error, and everything from [k] on has a result. *)
Definition xfails (s : XSt W) (k : Z) : err -> XSt W -> Prop :=
  fun e s' => is_Some e /\ xpost s (fun i => k <= i) e s'.

Lemma set_core_id (s : XSt W) : set_core (core s) s = s. Proof. by destruct s. Qed.

Lemma wp_sget {A} (f : debugPortState -> A) Q (s : XSt W) : Q (f (state (port (core s)))) s -> wp (on_core (sget f)) Q s.
Proof. intros HQ. unfold wp, on_core, sget. cbn. by rewrite set_core_id. Qed.
Lemma wp_pget {A} (f : DebugPort -> A) Q (s : XSt W) : Q (f (port (core s))) s -> wp (on_core (pget f)) Q s.
Proof. intros HQ. unfold wp, on_core, pget. cbn. by rewrite set_core_id. Qed.

Definition in_range (s : XSt W) (st : txnStep) : Prop := 0 <= op st < len (ops s).

Lemma in_range_keeps s s' st : xkeeps s s' -> in_range s st -> in_range s' st.
Proof. intros K. unfold in_range, len. by rewrite (xkeeps_length _ _ K). Qed.

Lemma executionError_spec st e s :
  in_range s st -> wp (executionError st e) (fun e' s' => s' = s /\ (is_Some e -> is_Some e')) s.
Proof.
  intros Hr. unfold executionError. apply wp_bind. eapply wp_mono; [by apply getOp_spec|]. intros o s1 [-> _].
  apply wp_bind, wp_sget, wp_ret. split; [done|]. intros [x ->]. by repeat case_match.
Qed.

Lemma smod_spec f s : xpre s -> tame f -> wp (on_core (smod f)) (xpost s none) s.
Proof. intros Hs Hf. apply on_core_total; [done|]. by apply Total_smod. Qed.

Lemma xpost_if {A} (c : bool) (m k : M A) P s : wp m (xpost s P) s -> wp k (xpost s P) s -> wp (if c then m else k) (xpost s P) s.
Proof. by destruct c. Qed.

Lemma applyFailedStepEffect_spec st e s : xpre s -> in_range s st -> wp (applyFailedStepEffect st e) (xpost s none) s.
Proof.
  intros Hs Hr. unfold applyFailedStepEffect. apply wp_bind. eapply wp_mono; [by apply getOp_spec|]. intros o s1 [-> _].
  apply xpost_if; [apply xpost_ret|]. apply wp_bind, wp_sget. apply xpost_if; [apply xpost_ret|].
  apply xpost_if; [apply smod_spec; auto with tame|apply xpost_ret].
Qed.

(** Resolving one operation and all after it. *)
Lemma resolve_from_spec {A} i v e (m : M A) (Q : A -> XSt W -> Prop) s :
  xpre s -> 0 <= i < len (ops s) ->
  (forall s', xpost s (fun j => i <= j) tt s' -> wp m Q s') ->
  wp (resolveOp i v e;; resolveSuffix (i + 1);; m) Q s.
Proof.
  intros Hs Hi Hm. apply wp_bind. eapply wp_mono; [by apply resolveOp_spec|]. intros [] s1 [K1 G1].
  pose proof (xkeeps_pre _ _ K1 Hs) as Hs1. apply wp_bind. eapply wp_mono; [apply txn_resolveSuffix_spec; [done|lia]|].
  intros [] s2 [K2 G2]. apply Hm. split; [exact (transitivity K1 K2)|]. intros j Hj Hij.
  destruct (decide (j = i)) as [->|]; [apply (settled_mono _ _ _ K2), G1; auto|apply G2; lia].
Qed.

Lemma failStep_spec st e s : xpre s -> in_range s st -> is_Some e -> wp (failStep st e) (xfails s (op st)) s.
Proof.
  intros Hs Hr He. unfold failStep. apply wp_bind. eapply wp_mono; [by apply executionError_spec|]. intros e' s1 [-> G].
  apply wp_bind. eapply wp_mono; [by apply applyFailedStepEffect_spec|]. intros [] s1 [K1 _].
  pose proof (xkeeps_pre _ _ K1 Hs) as Hs1. apply resolve_from_spec; [done|by apply (in_range_keeps s)|].
  intros s2 [K2 G2]. apply wp_ret. split; [auto|]. split; [exact (transitivity K1 K2)|exact G2].
Qed.

Lemma resolveSteps_spec l e s :
  xpre s -> Forall (in_range s) l -> wp (resolveIndeterminateSteps l e) (xpost s (fun i => exists st, st ∈ l /\ op st = i)) s.
Proof.
  unfold resolveIndeterminateSteps. revert s. induction l as [|st l IH]; intros s Hs Hl; cbn [mapM_].
  { apply wp_ret. split; [reflexivity|]. intros i _ (x & Hx & _). by apply elem_of_nil in Hx. }
  apply Forall_cons in Hl as [Hst Hl].
  eapply wp_mono; [eapply xpost_bind; [done|by apply resolveOp_spec|]|].
  - intros [] s1 Hs1 K1. apply IH; [done|]. eapply Forall_impl; [exact Hl|]. intros x. by apply in_range_keeps.
  - intros [] s'. apply xpost_weaken. intros i (x & Hx & <-). apply elem_of_cons in Hx as [->|Hx]; [by left|right; eauto].
Qed.

(** Resolving every step of a run of steps, and the operations after it. *)
Lemma resolve_run_spec {A} k l k' e (a : A) (P : A -> Prop) s :
  xpre s -> l <> [] -> ordered k l k' -> Forall (in_range s) l -> P a ->
  wp (resolveIndeterminateSteps l e;; resolveAfter l;; mret a) (fun a s' => P a /\ xpost s (fun i => k <= i) a s') s.
Proof.
  intros Hs Hn Ho Hl Ha. destruct (last l) as [st|] eqn:El; [|by apply last_None in El].
  apply wp_bind. eapply wp_mono; [by apply resolveSteps_spec|]. intros [] s1 [K1 G1]. pose proof (xkeeps_pre _ _ K1 Hs) as Hs1.
  assert (in_range s st) as Hst.
  { rewrite Forall_forall in Hl. apply Hl. apply last_Some in El as [l' ->]. apply elem_of_app. right. by left. }
  apply wp_bind. unfold resolveAfter. rewrite El. apply wp_bind. unfold wp at 1.
  eapply wp_mono; [apply txn_resolveSuffix_spec; [done|destruct Hst; lia]|]. intros [] s2 [K2 G2]. apply wp_ret.
  split; [done|]. split; [exact (transitivity K1 K2)|]. intros i Hi Hk.
  destruct (decide (i <= op st)) as [Hle|]; [|apply G2; lia]. apply (settled_mono _ _ _ K2), G1; [done|].
  by eapply ordered_covers.
Qed.

Lemma loseFraming_then {A} (m : M A) (Q : A -> XSt W -> Prop) s :
  xpre s -> (forall s1, xpre s1 -> xkeeps s s1 -> wp m Q s1) -> wp (on_core (smod loseFraming);; m) Q s.
Proof.
  intros Hs Hm. apply wp_bind. eapply wp_mono; [apply smod_spec; auto with tame|]. intros [] s1 [K1 _].
  apply Hm; [exact (xkeeps_pre _ _ K1 Hs)|exact K1].
Qed.

Lemma xfails_keeps s s1 k e s2 : xkeeps s s1 -> xfails s1 k e s2 -> xfails s k e s2.
Proof. intros K [E [K2 G]]. split; [done|]. split; [exact (transitivity K K2)|exact G]. Qed.

Lemma ranges_keeps s s' l : xkeeps s s' -> Forall (in_range s) l -> Forall (in_range s') l.
Proof. intros K Hl. eapply Forall_impl; [exact Hl|]. intros x. by apply in_range_keeps. Qed.

Lemma failUnexpectedBatchSuffix_spec k l k' c s :
  xpre s -> l <> [] -> ordered k l k' -> Forall (in_range s) l -> wp (failUnexpectedBatchSuffix l c) (xfails s k) s.
Proof.
  intros Hs Hn Ho Hl. apply loseFraming_then; [done|]. intros s1 Hs1 K1.
  eapply wp_mono; [eapply (resolve_run_spec k l k' _ _ is_Some); eauto using ranges_keeps|].
  intros e s2 G. exact (xfails_keeps _ _ _ _ _ K1 G).
Qed.

Lemma failClockedSuffix_spec k l k' e s :
  xpre s -> l <> [] -> ordered k l k' -> Forall (in_range s) l -> wp (failClockedSuffix l e) (xfails s k) s.
Proof.
  intros Hs Hn Ho Hl. apply loseFraming_then; [done|]. intros s1 Hs1 K1.
  eapply wp_mono; [eapply (resolve_run_spec k l k' _ _ is_Some); eauto using ranges_keeps; by destruct e; eexists|].
  intros x s2 G. exact (xfails_keeps _ _ _ _ _ K1 G).
Qed.

(** The loop resolves the operations of a prefix of the steps, and returns the
    last of them. *)
Lemma transport_loop_spec l e first j rs s :
  xpre s -> Forall (in_range s) l ->
  wp (transport_loop first e j l rs) (fun j' s' =>
    exists p l', l = p ++ l' /\ j' = default j (op <$> last p) /\
      (forall r, head rs = Some r -> errors_Is (r_cause r) swd_ErrIndeterminate = true -> l <> [] -> p <> []) /\
      xpost s (fun i => exists st, st ∈ p /\ op st = i) tt s') s.
Proof.
  revert first j rs s. induction l as [|st l IH]; intros first j rs s Hs Hl; cbn [transport_loop].
  { apply wp_ret. exists [], []. split_and!; try done. split; [reflexivity|]. intros i _ (x & Hx & _). by apply elem_of_nil in Hx. }
  destruct rs as [|r rs].
  { apply wp_ret. exists [], (st :: l). split_and!; try done. split; [reflexivity|]. intros i _ (x & Hx & _). by apply elem_of_nil in Hx. }
  destruct (errors_Is (r_cause r) swd_ErrIndeterminate) eqn:Er; cbn [negb].
  2: { apply wp_ret. exists [], (st :: l). split_and!; try done; [intros r' [= <-]; congruence|].
       split; [reflexivity|]. intros i _ (x & Hx & _). by apply elem_of_nil in Hx. }
  apply Forall_cons in Hl as [Hst Hl]. apply wp_bind. eapply wp_mono; [by apply resolveOp_spec|]. intros [] s1 [K1 G1].
  eapply wp_mono; [apply IH; [exact (xkeeps_pre _ _ K1 Hs)|by eapply ranges_keeps]|].
  intros j' s2 (p & l' & -> & -> & _ & K2 & G2). exists (st :: p), l'. split; [done|]. split.
  { rewrite last_cons. by destruct (last p). }
  split; [done|]. split; [exact (transitivity K1 K2)|]. intros i Hi (x & Hx & <-).
  apply elem_of_cons in Hx as [->|Hx]; [apply (settled_mono _ _ _ K2); auto|apply G2; eauto].
Qed.

Lemma failBatchTransport_spec st l k' rs r e s :
  xpre s -> ordered (op st) (st :: l) k' -> Forall (in_range s) (st :: l) ->
  head rs = Some r -> errors_Is (r_cause r) swd_ErrIndeterminate = true ->
  wp (failBatchTransport st l rs e) (xfails s (op st)) s.
Proof.
  intros Hs Ho Hl Hr Hi. apply loseFraming_then; [done|]. intros s1 Hs1 K1. apply wp_bind.
  eapply wp_mono; [apply transport_loop_spec; [done|by eapply ranges_keeps]|].
  intros j s2 (p & l' & Ep & -> & Hp & K2 & G2). specialize (Hp r Hr Hi ltac:(done)).
  destruct (last p) as [x|] eqn:El; [|by apply last_None in El]. cbn [fmap option_fmap option_map default from_option id].
  rewrite Ep in Ho, Hl. destruct (ordered_split _ _ _ _ Ho) as (j & O1 & _).
  assert (0 <= op st) as Hz by (rewrite <- Ep in Hl; apply Forall_cons in Hl as [[? ?] _]; lia).
  pose proof (ordered_last _ _ _ _ O1 El) as [Hx _]. apply wp_bind.
  eapply wp_mono; [apply txn_resolveSuffix_spec; [exact (xkeeps_pre _ _ K2 Hs1)|lia]|]. intros [] s3 [K3 G3]. apply wp_ret.
  apply (xfails_keeps _ _ _ _ _ K1). split; [by destruct e; eexists|]. split; [exact (transitivity K2 K3)|].
  intros i Hi0 Hge. destruct (decide (i <= op x)); [|apply G3; lia].
  apply (settled_mono _ _ _ K3), G2; [done|]. by eapply ordered_covers.
Qed.

Lemma failCompletedBatchBarrier_spec st l k' e s :
  xpre s -> ordered (op st) (st :: l) k' -> Forall (in_range s) (st :: l) -> is_Some e ->
  wp (failCompletedBatchBarrier st l e) (xfails s (op st)) s.
Proof.
  intros Hs Ho Hl He. apply Forall_cons in Hl as [Hst Hl]. unfold failCompletedBatchBarrier.
  apply wp_bind. eapply wp_mono; [by apply executionError_spec|]. intros e' s0 [-> G].
  apply wp_bind. eapply wp_mono; [by apply applyFailedStepEffect_spec|]. intros [] s1 [K1 _].
  pose proof (xkeeps_pre _ _ K1 Hs) as Hs1. destruct l as [|next l].
  - apply resolve_from_spec; [done|by apply (in_range_keeps s)|].
    intros s2 [K2 G2]. apply wp_ret. split; [auto|]. split; [exact (transitivity K1 K2)|exact G2].
  - apply loseFraming_then; [done|]. intros s2 Hs2 K2. pose proof (transitivity K1 K2) as K12.
    apply wp_bind. eapply wp_mono; [apply xpost_if; apply resolveOp_spec; try done; by apply (in_range_keeps s)|].
    intros [] s3 [K3 G3]. pose proof (transitivity K12 K3) as K13. destruct Ho as [_ Ho].
    eapply wp_mono; [eapply (resolve_run_spec _ (next :: l) k' _ _ is_Some); [exact (xkeeps_pre _ _ K3 Hs2)|done|exact Ho|by eapply ranges_keeps|by destruct e'; eexists]|].
    intros x s4 [Hx [K4 G4]]. split; [done|]. split; [exact (transitivity K13 K4)|]. intros i Hi Hge.
    destruct (decide (i = op st)) as [->|]; [apply (settled_mono _ _ _ K4), G3; auto|]. apply G4; [done|].
    destruct (deliver st); lia.
Qed.

(** ** A failed batch *)

(** Running on the port, then failing the step. *)
Lemma core_then {A B} (m : GoM (PSt W) A) (f : A -> M B) (Q : B -> XSt W -> Prop) s :
  xpre s -> Total false m -> (forall a s1, xpre s1 -> xkeeps s s1 -> wp (f a) Q s1) -> wp (mbind f (on_core m)) Q s.
Proof.
  intros Hs Hm Hf. apply wp_bind. eapply wp_mono; [by apply on_core_total|]. intros a s1 [K1 _].
  apply Hf; [exact (xkeeps_pre _ _ K1 Hs)|exact K1].
Qed.

Lemma failStep_later st e s s1 : xpre s1 -> xkeeps s s1 -> in_range s st -> is_Some e -> wp (failStep st e) (xfails s (op st)) s1.
Proof.
  intros Hs1 K1 Hst He. eapply wp_mono; [apply failStep_spec; [done|by eapply in_range_keeps|done]|].
  intros x s2. by apply xfails_keeps.
Qed.

Lemma handleBatchNotExecuted_spec st e w s :
  xpre s -> in_range s st -> is_Some e -> wp (handleBatchNotExecuted fuel st e w) (xfails s (op st)) s.
Proof.
  intros Hs Hst He. unfold handleBatchNotExecuted. destruct (0 <? w); [|by apply failStep_spec].
  apply core_then; [done|apply Total_abortWait|]. intros x s1 Hs1 K1. by apply failStep_later.
Qed.

Lemma clocked_run st l r rs k' :
  ordered (op st) (st :: l) k' ->
  let run := take (clockedTransferCount (r :: rs)) (st :: l) in
  run = st :: take (clocked_loop rs) l /\ exists j, ordered (op st) run j.
Proof.
  intros Ho run. split; [done|]. rewrite <- (take_drop (clockedTransferCount (r :: rs)) (st :: l)) in Ho.
  destruct (ordered_split _ _ _ _ Ho) as (j & O1 & _). by exists j.
Qed.

Lemma failBatchWAITCleanup_spec ctx st l k' r rs c s :
  xpre s -> ordered (op st) (st :: l) k' -> Forall (in_range s) (st :: l) ->
  wp (failBatchWAITCleanup ctx st l (r :: rs) c) (xfails s (op st)) s.
Proof.
  intros Hs Ho Hl. unfold failBatchWAITCleanup. destruct (negb _).
  { destruct (clocked_run _ _ r rs _ Ho) as (E & j & O1). eapply failUnexpectedBatchSuffix_spec; [done|by rewrite E|done|by apply Forall_take]. }
  assert (in_range s st) as Hst by (by apply Forall_cons in Hl as [? _]).
  apply wp_bind. eapply wp_mono; [apply wp_on_core; apply wp_and; [apply canceledWAITCause_some|by apply (Total_canceledWAITCause fuel false); apply Hs]|].
  intros x s1 (p & -> & [Hx K]). apply set_core_keeps in K. pose proof (xkeeps_pre _ _ K Hs) as Hs1.
  apply wp_bind. eapply wp_mono; [apply executionError_spec; by eapply in_range_keeps|]. intros e s2 [-> He].
  apply loseFraming_then; [done|]. intros s2 Hs2 K2. pose proof (transitivity K K2) as K3.
  apply resolve_from_spec; [done|by eapply (in_range_keeps s)|]. intros s3 [K4 G]. apply wp_ret.
  split; [auto|]. split; [exact (transitivity K3 K4)|exact G].
Qed.

Lemma observeStep_spec st v e s : xpre s -> wp (observeStep st v e) (xpost s none) s.
Proof.
  intros Hs. apply on_core_total; [done|]. apply Total_bind; [apply Total_smod; auto with tame|]. intros _.
  apply Total_if; [apply Total_smod; auto with tame|]. apply Total_if; [apply Total_smod; auto with tame|apply Total_ret].
Qed.

Lemma stopAfterWAIT_none ctx w s :
  pre false s -> ctx_nil ctx = false ->
  wp (stopAfterWAIT (abortWait fuel) ctx w) (fun e s' => keeps s s' /\ (e = None -> w < maxWaits (port s))) s.
Proof.
  intros Hs Hc. apply wp_and; [apply (Total_stopAfterWAIT fuel false); auto using Total_abortWait|].
  unfold stopAfterWAIT, guard. apply wp_bind.
  eapply wp_mono; [apply wp_and; [by apply (Total_ctxErr (fuel := fuel) false)|by apply Quiet_ctxErr]|].
  intros [e|] s1 [K1 E1]; pose proof (keeps_pre false _ _ K1 Hs) as Hs1.
  - apply wp_bind. eapply wp_mono; [apply (Total_stopWaiting fuel false); auto using Total_abortWait|]. intros; by apply wp_ret.
  - apply wp_bind, wp_gets. rewrite E1. destruct Hs as (_ & Hw & _).
    destruct (negb (maxWaits (port s) =? 0) && (maxWaits (port s) <=? w)) eqn:E.
    + apply wp_bind. eapply wp_mono; [apply (Total_finishWait fuel false); auto using Total_abortWait|]. intros; by apply wp_ret.
    + apply wp_ret. intros _. apply andb_false_iff in E as [E|E]; [|apply Z.leb_gt in E; lia].
      apply negb_false_iff, Z.eqb_eq in E. lia.
Qed.

(** Either the batch fails, or its first step is sent again and the WAIT is
    counted. *)
Definition xretry (s : XSt W) (k w : Z) : err * Z -> XSt W -> Prop := fun r s' =>
  xfails s k (fst r) s' \/ (fst r = None /\ snd r = w + 1 /\ w + 1 < maxWaits (port (core s)) /\ xkeeps s s').

Lemma wp_keep (m : M err) k w s : wp m (xfails s k) s -> wp (e ← m; mret (e, w)) (xretry s k w) s.
Proof. intros Hm. apply wp_bind. eapply wp_mono; [exact Hm|]. intros e s' G. apply wp_ret. by left. Qed.

Lemma retry_fails st e (w : Z) s s1 :
  xpre s1 -> xkeeps s s1 -> in_range s st -> is_Some e -> wp (e ← failStep st e; mret (e, w)) (fun r s' => xfails s (op st) (fst r) s') s1.
Proof. intros. apply wp_bind. eapply wp_mono; [by apply failStep_later|]. intros x s2 G. by apply wp_ret. Qed.

Lemma retryBatchWAIT_spec ctx st l k' r rs w s :
  xpre s -> ctx_nil ctx = false -> ordered (op st) (st :: l) k' -> Forall (in_range s) (st :: l) ->
  wp (retryBatchWAIT fuel ctx st l (r :: rs) w) (xretry s (op st) w) s.
Proof.
  intros Hs Hc Ho Hl. unfold retryBatchWAIT. assert (in_range s st) as Hst by (by apply Forall_cons in Hl as [? _]).
  destruct (negb _).
  { apply wp_keep. destruct (clocked_run _ _ r rs _ Ho) as (E & j & O1).
    eapply failUnexpectedBatchSuffix_spec; [done|by rewrite E|done|by apply Forall_take]. }
  apply wp_bind, wp_sget. destruct (selectPending _).
  { apply loseFraming_then; [done|]. intros s1 Hs1 K1. eapply wp_mono; [apply retry_fails; done|]. intros x s2 G. by left. }
  apply wp_bind. eapply wp_mono; [by apply observeStep_spec|]. intros [] s1 [K1 _]. pose proof (xkeeps_pre _ _ K1 Hs) as Hs1.
  apply core_then; [done|apply Total_validateWait|]. intros [v|] s2 Hs2 K2; pose proof (transitivity K1 K2) as K12.
  { eapply wp_mono; [apply retry_fails; done|]. intros x s3 G. by left. }
  apply wp_bind, wp_sget. destruct (_ && _ && _ && _).
  { apply core_then; [done|by apply Total_lostPostedRead|]. intros x s3 Hs3 K3.
    eapply wp_mono; [apply retry_fails; [done|exact (transitivity K12 K3)|done|done]|]. intros y s4 G. by left. }
  apply wp_bind. eapply wp_mono; [apply wp_on_core, stopAfterWAIT_none; [apply Hs2|done]|].
  intros e s3 (p & -> & K3 & G). apply set_core_keeps in K3. pose proof (transitivity K12 K3) as K13.
  destruct e as [e|].
  - eapply wp_mono; [apply retry_fails; [exact (xkeeps_pre _ _ K3 Hs2)|exact K13|done|done]|]. intros y s4 Gf. by left.
  - apply wp_ret. right. split; [done|]. split; [done|]. split; [|exact K13]. specialize (G eq_refl).
    destruct K12 as (((_ & F2 & _) & _) & _). by rewrite F2 in G.
Qed.

Lemma handleBatchFailure_spec ctx st l k' rs r c e w s :
  xpre s -> ctx_nil ctx = false -> ordered (op st) (st :: l) k' -> Forall (in_range s) (st :: l) ->
  r_cause r = Some c -> (r_outcome r = transferUnsent -> is_Some e) ->
  wp (handleBatchFailure fuel ctx st l (r :: rs) r c e w) (xretry s (op st) w) s.
Proof.
  intros Hs Hc Ho Hl Hr He. unfold handleBatchFailure. cbv zeta.
  assert (in_range s st) as Hst by (by apply Forall_cons in Hl as [? _]).
  destruct (clocked_run _ _ r rs _ Ho) as (E & j & O1). pose proof (Forall_take (in_range s) (clockedTransferCount (r :: rs)) _ Hl) as Hl1.
  destruct (Is c swd_ErrIndeterminate) eqn:E1.
  { apply wp_keep. eapply failBatchTransport_spec; try done. by rewrite Hr. }
  destruct (bool_decide _) eqn:E2.
  { apply wp_keep, handleBatchNotExecuted_spec; try done. by apply bool_decide_eq_true in E2; auto. }
  destruct (Is c swd_ErrWait) eqn:E3.
  { destruct (negb _); [apply wp_keep; by eapply failBatchWAITCleanup_spec|by eapply retryBatchWAIT_spec]. }
  apply wp_bind. eapply wp_mono; [by apply observeStep_spec|]. intros [] s1 [K1 _]. pose proof (xkeeps_pre _ _ K1 Hs) as Hs1.
  assert (forall (m : M err) s', xpre s' -> xkeeps s s' -> wp m (xfails s' (op st)) s' -> wp (e ← m; mret (e, w)) (xretry s (op st) w) s') as keep.
  { intros m s' Hs' K' Hm. apply wp_bind. eapply wp_mono; [exact Hm|]. intros x s2 G. apply wp_ret. left. by eapply xfails_keeps. }
  pose proof (in_range_keeps _ _ _ K1 Hst) as Hst1. pose proof (ranges_keeps _ _ _ K1 Hl1) as Hl2. rewrite E in O1, Hl2 |- *.
  destruct (Is c swd_ErrFault).
  { destruct (negb _); [apply keep; [done|done|by eapply failUnexpectedBatchSuffix_spec]|].
    apply wp_bind. eapply wp_mono; [by apply getOp_spec|]. intros o s2 [-> _].
    apply core_then; [done|apply Total_handleFault|]. intros f s2 Hs2 K2. pose proof (transitivity K1 K2) as K.
    apply keep; [done|exact K|]. apply failStep_spec; [done|by eapply in_range_keeps|done]. }
  destruct (Is c swd_ErrParity); [|apply keep; [done|done|by eapply failClockedSuffix_spec]].
  cbn [tail]. destruct (take (clocked_loop rs) l) as [|x more]; [by apply keep, failStep_spec|].
  destruct (_ || _); apply keep; try done; [by eapply failCompletedBatchBarrier_spec|by eapply failClockedSuffix_spec].
Qed.

(** ** Accepted steps *)

Lemma set_ops_keeps f s : result <$> f (ops s) = result <$> ops s -> xkeeps s (put_ops (f (ops s)) s).
Proof. intros E. split; [reflexivity|]. by split. Qed.

Lemma result_alter f (i : nat) (l : list txnOp) : (forall o, result (f o) = result o) -> result <$> alter f i l = result <$> l.
Proof.
  intros Hf. apply list_eq. intros j. rewrite !list_lookup_fmap. destruct (decide (i = j)) as [->|Hn].
  - rewrite list_lookup_alter_eq. destruct (l !! j) as [o|]; [|done]. cbn. by rewrite Hf.
  - by rewrite list_lookup_alter_ne.
Qed.

Lemma acceptStep_spec st v s :
  xpre s -> in_range s st -> wp (acceptStep st v) (xpost s (fun i => deliver st = true /\ i = op st)) s.
Proof.
  intros Hs Hst. unfold acceptStep. apply xpost_seq; [done|by apply observeStep_spec|]. intros [] s1 Hs1 K1.
  apply xpost_seq; [done| |intros [] s2 Hs2 K2].
  { apply xpost_if; [|apply xpost_ret]. apply wp_modify, xpost_none, set_ops_keeps, result_alter. done. }
  apply xpost_seq; [done| |intros [] s3 Hs3 K3].
  { apply on_core_total; [done|]. apply Total_bind; [apply Total_gets|]. intros c.
    apply Total_bind; [|intros _; apply Total_bind; [|intros _]]; repeat apply Total_if; try apply Total_ret; apply Total_smod; auto with tame. }
  destruct (deliver st); cbn [negb].
  - eapply wp_mono; [apply resolveOp_spec; [done|]|].
    + eapply in_range_keeps; [|exact Hst]. exact (transitivity K1 (transitivity K2 K3)).
    + intros [] s4. apply xpost_weaken. by intros i [_ ?].
  - eapply wp_mono; [apply xpost_ret|]. intros [] s4. apply xpost_weaken. by intros i [? _].
Qed.

Lemma acceptBatchPrefix_spec n l rs k j s :
  xpre s -> (n <= length l)%nat -> (n <= length rs)%nat -> ordered k (take n l) j -> Forall (in_range s) l ->
  wp (acceptBatchPrefix l rs n) (xpost s (fun i => k <= i < j)) s.
Proof.
  revert l rs k s. induction n as [|n IH]; intros [|st l] [|r rs] k s Hs Hl1 Hl2 Ho Hr; cbn in Hl1, Hl2; try lia;
    cbn [acceptBatchPrefix]; try (cbn in Ho; subst; apply wp_ret; split; [reflexivity|intros; lia]).
  cbn in Ho. destruct Ho as [<- Ho]. apply Forall_cons in Hr as [Hst Hr].
  eapply wp_mono; [eapply xpost_bind; [done|by apply acceptStep_spec|]|].
  - intros [] s1 Hs1 K1. apply (IH l rs (if deliver st then op st + 1 else op st)); [done|lia|lia|done|by eapply ranges_keeps].
  - intros [] s'. apply xpost_weaken. intros i Hi. destruct (deliver st); [|by right].
    destruct (decide (i = op st)); [by left|right; lia].
Qed.

(** [Commit] of the SWD connection reports requests that were not executed. *)
Definition reports : Prop := forall ctx l w rs w',
  swd_Commit ctx l w = ((rs, None), w') -> Forall (fun r : Z * err => errors_Is (snd r) swd_ErrNotExecuted = false) rs.

Lemma unsent_result v e : r_outcome (swdResult v e) = transferUnsent -> errors_Is e swd_ErrNotExecuted = true.
Proof. unfold swdResult. cbn. by repeat case_match. Qed.

Lemma transferSteps_spec ctx l s :
  xpre s -> reports ->
  wp (transferSteps ctx l) (fun r s' => xkeeps s s' /\ length (fst r) = length l /\
    Forall (fun t => r_outcome t = transferUnsent -> is_Some (snd r)) (fst r)) s.
Proof.
  intros Hs Hrep. unfold transferSteps, commitBatch. apply wp_bind.
  set (reqs := _ <$> l). set (m := call _ _).
  assert (wp m (fun r c => keeps (core s) c /\ (snd r = None -> Forall (fun x => errors_Is (snd x) swd_ErrNotExecuted = false) (fst r))) (core s)) as Hm.
  { apply wp_and; [apply (Total_call (fuel := fuel) false); [intros; apply budget_swd_Commit|apply Hs]|].
    unfold wp, m, call. destruct (swd_Commit ctx reqs (world (core s))) as [[rs e] w'] eqn:E. cbn. intros ->. by eapply Hrep. }
  eapply wp_mono; [by apply wp_on_core|]. intros [rs e] s1 (c & -> & K & G). apply wp_ret. cbn [fst snd] in *.
  split; [by apply set_core_keeps|]. split; [by rewrite length_imap|]. apply Forall_lookup. intros i t Ht.
  rewrite list_lookup_imap in Ht. destruct (l !! i) as [st|]; [|done]. injection Ht as <-.
  destruct e as [e|]; [by eexists|]. specialize (G eq_refl). rewrite Forall_lookup in G.
  destruct (rs !! i) as [[v x]|] eqn:Ei; cbn [default from_option id].
  - intros Hu. apply unsent_result in Hu. specialize (G i _ Ei). cbn in G. congruence.
  - done.
Qed.

Lemma nextBatchBoundary_spec l n : nextBatchBoundary l = Some n -> (0 < n <= length l)%nat.
Proof.
  destruct l as [|st l]; [done|]. cbn. intros [= <-]. destruct (txnResponseBoundary st); [lia|].
  assert (to_boundary l <= length l)%nat; [|lia]. induction l as [|x l IH]; cbn; [lia|]. destruct (txnResponseBoundary x); lia.
Qed.

Lemma firstFailed_spec rs :
  let n := firstFailedTransfer rs in
  (n <= length rs)%nat /\ match drop n rs with [] => n = length rs | r :: _ => is_Some (r_cause r) end.
Proof.
  induction rs as [|r rs [IH1 IH2]]; cbn; [done|]. destruct (r_cause r) as [c|] eqn:E; cbn; [rewrite E; split; [lia|by eexists]|].
  split; [lia|]. destruct (drop _ rs); [by f_equal|done].
Qed.

(** ** The executor *)

Definition all : Z -> Prop := fun _ => True.

(** Where the executor stands: the steps left serve the operations from [k] on,
    and those before [k] have their results. *)
Definition standing (s : XSt W) (k : Z) (l : list txnStep) : Prop :=
  ordered k l (len (ops s)) /\ Forall (in_range s) l /\ forall i, 0 <= i < k -> settled s i.

Lemma standing_keeps s s' k l : xkeeps s s' -> standing s k l -> standing s' k l.
Proof.
  intros K (O & R & G). split; [unfold len; by rewrite (xkeeps_length _ _ K)|].
  split; [exact (ranges_keeps _ _ _ K R)|]. intros i Hi. apply (settled_mono _ _ _ K). auto.
Qed.

Lemma standing_done s k : standing s k [] -> xpost s all (A := unit) tt s.
Proof.
  intros (Ho & _ & G). split; [reflexivity|]. intros i Hi _. destruct (decide (i < k)); [apply G; lia|].
  intros o Ho'. apply lookup_lt_Some in Ho'. cbn in Ho. unfold len in Ho. lia.
Qed.

(** The rounds the executor may need from here. *)
Definition rounds (s : XSt W) (l : list txnStep) (w : Z) : Z := Z.of_nat (length l) * (maxWaits (port (core s)) + 1) - w.

Lemma maxWaits_keeps s s' : xkeeps s s' -> maxWaits (port (core s')) = maxWaits (port (core s)).
Proof. by intros (((_ & F & _) & _) & _). Qed.

(** Accepting the first [n] steps of a batch. *)
Lemma accept_standing n stop l rs k s :
  xpre s -> standing s k l -> (stop <= length l)%nat -> length rs = stop -> (n <= stop)%nat ->
  wp (acceptBatchPrefix (take stop l) rs n) (fun _ s' => xkeeps s s' /\ exists j, standing s' j (drop n l)) s.
Proof.
  intros Hs (Ho & Hl & G) Hstop Hrs Hn. pose proof Ho as Ho'. rewrite <- (take_drop n l) in Ho'.
  destruct (ordered_split _ _ _ _ Ho') as (j & O1 & O2).
  eapply wp_mono; [apply (acceptBatchPrefix_spec n (take stop l) rs k j); [done|rewrite length_take; lia|lia| |by apply Forall_take]|].
  { rewrite take_take. by replace (n `min` stop)%nat with n by lia. }
  intros [] s' [K G']. split; [exact K|]. exists j. split; [|split].
  - unfold len. by rewrite (xkeeps_length _ _ K).
  - eapply ranges_keeps; [exact K|]. by apply Forall_drop.
  - intros i Hi. destruct (decide (i < k)); [apply (settled_mono _ _ _ K), G; lia|apply G'; lia].
Qed.

(** A failure of the first step left settles everything. *)
Lemma standing_fails s k st l e s' :
  standing s k (st :: l) -> xfails s (op st) e s' -> xpost s all e s'.
Proof.
  intros ([<- _] & _ & G) [_ [K G']]. split; [exact K|]. intros i Hi _.
  destruct (decide (i < op st)); [apply (settled_mono _ _ _ K), G; lia|apply G'; lia].
Qed.

Lemma standing_take s k l n : standing s k l -> (0 < n <= length l)%nat ->
  exists st l' k', take n l = st :: l' /\ op st = k /\ ordered (op st) (st :: l') k' /\ Forall (in_range s) (st :: l').
Proof.
  intros (Ho & Hl & _) Hn. rewrite <- (take_drop n l) in Ho. destruct (ordered_split _ _ _ _ Ho) as (k' & O1 & _).
  pose proof (Forall_take _ n _ Hl) as Hl'. destruct l as [|st l]; [cbn in Hn; lia|]. destruct n as [|n]; [lia|].
  exists st, (take n l), k'. cbn in *. destruct O1 as [<- O1]. by split_and!.
Qed.

Lemma xpost_keeps {A} s s1 P (a : A) s2 : xkeeps s s1 -> xpost s1 P a s2 -> xpost s P a s2.
Proof. intros K [K2 G]. split; [exact (transitivity K K2)|exact G]. Qed.

Lemma execute_loop_spec n ctx l w k s :
  xpre s -> reports -> ctx_nil ctx = false -> standing s k l -> 0 <= w < maxWaits (port (core s)) ->
  rounds s l w <= Z.of_nat n -> wp (execute_loop fuel n ctx l w) (xpost s all) s.
Proof.
  intros Hs Hrep Hc. revert l w k s Hs. induction n as [|n IH]; intros l w k s Hs Hst Hw Hn; cbn [execute_loop];
    destruct (nextBatchBoundary l) as [stop|] eqn:Eb.
  - destruct l; [done|]. unfold rounds in Hn. cbn [length] in Hn. nia.
  - destruct l; [|done]. apply wp_ret. exact (standing_done s k Hst).
  - pose proof (nextBatchBoundary_spec _ _ Eb) as Hstop. apply wp_bind. eapply wp_mono; [by apply transferSteps_spec|].
    intros [rs e] s1 (K1 & Hlen & Hun). cbn [fst snd] in *. rewrite length_take in Hlen.
    pose proof (xkeeps_pre _ _ K1 Hs) as Hs1. destruct (firstFailed_spec rs) as [Hf Hd]. cbv zeta in Hf, Hd |- *.
    set (m := firstFailedTransfer rs) in *.
    pose proof (standing_keeps _ _ _ _ K1 Hst) as Hst1.
    apply wp_bind. eapply wp_mono; [apply (accept_standing m stop l rs k); [done|done|lia|lia|lia]|].
    intros [] s2 (K2 & j & Hst2). pose proof (xkeeps_pre _ _ K2 Hs1) as Hs2. pose proof (transitivity K1 K2) as K12.
    pose proof (maxWaits_keeps _ _ K12) as Emw. rewrite skipn_firstn_comm.
    destruct (drop m rs) as [|r rs'] eqn:Er.
    + assert (m = stop) as Em by lia.
      eapply wp_mono; [apply (IH (drop stop l) 0 j s2); [done|by rewrite <- Em|lia|]|intros x s3; by apply xpost_keeps].
      unfold rounds in *. rewrite Emw, length_drop. nia.
    + assert (m < stop)%nat as Hm. { apply (f_equal length) in Er. rewrite length_drop in Er. cbn in Er. lia. }
      destruct (standing_take s2 j (drop m l) (stop - m) Hst2) as (st & l' & k' & El & Hj & O & R); [rewrite length_drop; lia|].
      rewrite El. destruct Hd as [c Hcause]. rewrite Hcause. apply wp_bind.
      eapply wp_mono; [eapply (handleBatchFailure_spec ctx st l' k'); [done|done|done|done|done|]|].
      { apply (Forall_drop _ m) in Hun. rewrite Er in Hun. by apply Forall_cons in Hun as [? _]. }
      intros [e' w'] s3 [Hfail|(E3 & E4 & Hlim & K3)]; cbn [fst snd] in *; [|subst e' w'].
      * assert (xpost s2 all e' s3) as Hall.
        { rewrite <- (take_drop (stop - m) (drop m l)), El in Hst2. by eapply standing_fails. }
        destruct Hfail as [[x ->] _]. apply wp_ret. by eapply xpost_keeps.
      * pose proof (transitivity K12 K3) as K13.
        eapply wp_mono; [apply (IH (drop m l) _ j s3)|intros x s4; by apply xpost_keeps].
        -- exact (xkeeps_pre _ _ K3 Hs2).
        -- exact (standing_keeps _ _ _ _ K3 Hst2).
        -- rewrite (maxWaits_keeps _ _ K3). destruct (m =? 0)%nat; lia.
        -- unfold rounds in *. rewrite (maxWaits_keeps _ _ K3), Emw, length_drop in *. destruct (Nat.eqb_spec m 0); nia.
  - destruct l; [|done]. apply wp_ret. exact (standing_done s k Hst).
Qed.

(** ** Transactions over the wire *)

(** Enough fuel for the operations, each sent again as often as allowed. *)
Definition fuelled (s : XSt W) (l : list txnOp) : Prop :=
  Z.of_nat (steps_bound l) * (maxWaits (port (core s)) + 1) <= Z.of_nat fuel.

Lemma fuelled_keeps s s' l : xkeeps s s' -> fuelled s l -> fuelled s' l.
Proof. intros K. unfold fuelled. by rewrite (maxWaits_keeps _ _ K). Qed.

Lemma xpre_limit s : xpre s -> 1 <= maxWaits (port (core s)).
Proof. intros [(_ & ? & _) _]. lia. Qed.

Lemma execute_spec ctx l s :
  xpre s -> reports -> ctx_nil ctx = false -> ordered 0 l (len (ops s)) -> Forall (fun st => op st < len (ops s)) l ->
  (length l <= steps_bound (ops s))%nat -> fuelled s (ops s) -> wp (execute fuel ctx l) (xpost s all) s.
Proof.
  intros Hs Hrep Hc Ho Hl Hn Hf. pose proof (xpre_limit _ Hs) as Hw. apply (execute_loop_spec fuel ctx l 0 0); try done.
  - split; [done|]. split; [|intros; lia]. apply ordered_range in Ho. rewrite Forall_forall in *.
    intros st Hst. specialize (Hl st Hst). specialize (Ho st Hst). cbn in *. unfold in_range. lia.
  - lia.
  - unfold rounds, fuelled in *. nia.
Qed.

Lemma xpost_after {A B} (m : M A) (f : A -> M B) P s :
  xpre s -> wp m (xpost s P) s -> (forall a s1, xpre s1 -> xkeeps s s1 -> wp (f a) (xpost s1 none) s1) -> wp (mbind f m) (xpost s P) s.
Proof. intros Hs Hm Hf. eapply wp_mono; [by eapply xpost_bind|]. intros a s'. apply xpost_weaken. by left. Qed.

Lemma result_record s (l : list txnOp) :
  result <$> ((fun o => match heap (W := W) s !! result o with Some r => recordSWDCompletion o r | None => o end) <$> l) = result <$> l.
Proof.
  rewrite <- list_fmap_compose. apply list_fmap_ext. intros _ o _. cbn. unfold recordSWDCompletion. by repeat case_match.
Qed.

Lemma recordSWDCompletions_spec s : wp recordSWDCompletions (xpost s none) s.
Proof. apply wp_modify, xpost_none, (set_ops_keeps (fmap _)), result_record. Qed.

Lemma classifyResults_spec l (s : XSt W) : wp (mapM_ (fun o => classifyResult (result o)) l) (xpost s none) s.
Proof.
  revert s. induction l as [|o l IH]; intros s; [apply xpost_ret|]. cbn [mapM_]. apply wp_bind.
  eapply wp_mono; [apply classifyResult_spec|]. intros [] s1 [K1 _]. eapply wp_mono; [apply IH|].
  intros [] s2. by apply xpost_keeps.
Qed.

Lemma settle_total ctx : ctx_nil ctx = false -> Total false (settlePreviousDPWrite fuel (abortWait fuel) ctx).
Proof. intros Hc. apply Total_settlePreviousDPWrite; auto using Total_abortWait. Qed.

Lemma xpost_all_from {A} s (a : A) s' : xpost s (fun i => 0 <= i) a s' -> xpost s all a s'.
Proof. intros [K G]. split; [exact K|]. intros i Hi _. auto. Qed.

Lemma executeTxn_spec ctx s :
  xpre s -> reports -> ctx_nil ctx = false -> fuelled s (ops s) -> wp (executeTxn fuel ctx) (xpost s all) s.
Proof.
  intros Hs Hrep Hc Hf. unfold executeTxn. apply wp_bind.
  eapply wp_mono; [apply wp_on_core, settle_total; [done|apply Hs]|]. intros e s1 (c & -> & K1). apply set_core_keeps in K1.
  pose proof (xkeeps_pre _ _ K1 Hs) as Hs1. set (s1 := set_core c s) in *.
  assert (ops s1 = ops s) as Eo by done. pose proof (fuelled_keeps _ _ _ K1 Hf) as Hf1. clearbody s1.
  eapply wp_mono; [|intros x s2; by apply xpost_keeps].
  apply xpost_after; [done| |intros r s2 Hs2 K2; apply xpost_after; [done|apply recordSWDCompletions_spec|intros; apply xpost_ret]].
  destruct e as [e|].
  - apply xpost_after; [done| |intros; apply xpost_ret]. eapply wp_mono; [apply txn_resolveSuffix_spec; [done|lia]|]. intros [] s2. apply xpost_all_from.
  - apply wp_bind, wp_pget, wp_bind, wp_gets. cbn [id]. destruct (plan_ordered (ops s1) (port (core s1))) as (P1 & P2 & P3).
    apply xpost_after; [done|apply execute_spec; try done; by rewrite Eo|].
    intros r s2 Hs2 K2. apply xpost_after; [done|apply classifyResults_spec|intros; apply xpost_ret].
Qed.

(** ** One operation at a time *)

(** Running one operation keeps its result's address. *)
Definition xop {A} (s : XSt W) (o : txnOp) : A * txnOp -> XSt W -> Prop :=
  fun r s' => xkeeps s s' /\ result (snd r) = result o.

Lemma nested_spec {A} l (m : M A) P s :
  wp m (xpost (put_ops l s) P) (put_ops l s) ->
  wp (nested l m) (fun r s' => xkeeps s s' /\ result <$> snd r = result <$> l) s.
Proof.
  unfold nested, wp. destruct (m (put_ops l s)) as [[a s']| |]; [|done|done]. intros [(K & E & L & C & D) _].
  split; [|exact E]. split; [exact K|]. by split.
Qed.

Lemma put_one_pre s o : xpre s -> (result o < length (heap s))%nat -> xpre (put_ops [o] s).
Proof. intros [Hs _] Ho. split; [exact Hs|]. by constructor. Qed.

Lemma on_core_total_op {A} (m : GoM (PSt W) A) (o : txnOp) s : xpre s -> Total false m -> wp (x ← on_core m; mret (x, o)) (xop s o) s.
Proof. intros Hs Hm. apply core_then; [done|done|]. intros a s1 _ K1. by apply wp_ret. Qed.

(** The steps of one access-port operation. *)
Lemma append_steps o dp p :
  p = appendAPWriteSequence 0 o (newSWDTxnPlanner dp) \/ p = appendAP 0 o (newSWDTxnPlanner dp) ->
  ordered 0 (steps p) 1 /\ Forall (fun st => op st < 1) (steps p) /\ (length (steps p) <= steps_bound [o])%nat.
Proof.
  intros Hp. assert (extends (op_steps o) (newSWDTxnPlanner dp) 0 p 1 /\ ends (steps p)) as [(l & E & O & L) Hd].
  { destruct Hp as [-> | ->]; split.
    - eapply extends_more; [apply appendAPWriteSequence_extends|unfold op_steps; lia].
    - by apply (ends_app []).
    - eapply extends_more; [apply appendAP_extends|unfold op_steps; lia].
    - by apply (ends_app [] [_]). }
  cbn in E. subst l. split; [done|]. split; [by eapply ordered_below|]. unfold steps_bound. cbn. lia.
Qed.

Lemma executeSWDOp_spec ctx o s :
  xpre s -> reports -> ctx_nil ctx = false -> fuelled s [o] -> (result o < length (heap s))%nat ->
  wp (executeSWDOp fuel ctx o) (xop s o) s.
Proof.
  intros Hs Hrep Hc Hf Ho. unfold executeSWDOp. destruct (_ || _).
  - apply wp_bind. eapply wp_mono; [eapply nested_spec, executeTxn_spec; try done; by apply put_one_pre|].
    intros [e l] s1 [K _]. apply wp_bind, wp_gets, wp_ret. by split.
  - apply core_then; [done|by apply Total_selectAP|]. intros [e|] s1 Hs1 K1; [by apply wp_ret|].
    apply wp_bind, wp_pget. cbn [id]. cbv zeta. set (p := if bool_decide _ then _ else _).
    destruct (append_steps o (port (core s1)) p) as (P1 & P2 & P3); [subst p; destruct (bool_decide _); auto|].
    apply wp_bind. assert (xpre (put_ops [o] s1)) as Hs2.
    { apply put_one_pre; [done|]. destruct K1 as (_ & _ & [L _] & _). lia. }
    eapply wp_mono; [eapply nested_spec, xpost_after; [done|apply execute_spec; try done; exact (fuelled_keeps _ _ _ K1 Hf)|]|].
    { intros e s2 Hs3 K2. apply xpost_after; [done|apply recordSWDCompletions_spec|intros; apply xpost_ret]. }
    intros [e l] s2 [K2 El]. apply wp_bind. eapply wp_mono; [apply classifyResult_spec|]. intros [] s3 [K3 _].
    apply wp_bind, wp_gets, wp_ret. split; [exact (transitivity K1 (transitivity K2 K3))|]. cbn [snd] in *.
    destruct l as [|x [|y l'] ]; try done. by injection El.
Qed.

Lemma newResult_spec (s : XSt W) : wp newResult (fun p s' => xkeeps s s' /\ (p < length (heap s'))%nat) s.
Proof.
  apply wp_bind, wp_gets, wp_bind, wp_modify, wp_ret. split; [apply heap_keeps, heap_le_app|]. cbn. rewrite length_app. cbn. lia.
Qed.

Lemma xop_keeps {A} s s1 o o1 (r : A * txnOp) s2 : xkeeps s s1 -> result o1 = result o -> xop s1 o1 r s2 -> xop s o r s2.
Proof. intros K E [K2 E2]. split; [exact (transitivity K K2)|congruence]. Qed.

Lemma writeSWDSequence_spec ctx vs o s :
  xpre s -> reports -> ctx_nil ctx = false -> fuelled s [o] -> (values o = [] -> vs = []) ->
  wp (writeSWDSequence fuel ctx o vs) (xop s o) s.
Proof.
  intros Hs Hrep Hc Hf. revert o s Hs Hf. induction vs as [|v vs IH]; intros o s Hs Hf Hv; cbn [writeSWDSequence].
  { by apply wp_ret. }
  apply wp_bind. eapply wp_mono; [apply newResult_spec|]. intros p s1 [K1 Hp]. pose proof (xkeeps_pre _ _ K1 Hs) as Hs1.
  set (part := set_counts _ _ _ _). apply wp_bind.
  assert (fuelled s1 [part]) as Hf1.
  { apply (fuelled_keeps _ _ _ K1) in Hf. pose proof (xpre_limit _ Hs1). unfold fuelled, steps_bound, op_steps in *. cbn in *.
    destruct (values o); [by specialize (Hv eq_refl)|]. cbn in Hf. nia. }
  eapply wp_mono; [by apply executeSWDOp_spec|]. intros [[v' e] part'] s2 [K2 _]. pose proof (transitivity K1 K2) as K.
  destruct e as [e|]; [by apply wp_ret|].
  eapply wp_mono; [apply IH; [exact (xkeeps_pre _ _ K Hs)|by apply (fuelled_keeps s)|]|].
  - intros E. by specialize (Hv E).
  - intros r s3. by apply xop_keeps.
Qed.

Lemma write_loop_spec ctx vs o s : xpre s -> ctx_nil ctx = false -> wp (write_loop fuel ctx o vs) (xop s o) s.
Proof.
  intros Hs Hc. revert o s Hs. induction vs as [|v vs IH]; intros o s Hs; cbn [write_loop]; [by apply wp_ret|].
  apply core_then; [done|by apply Total_writeAPEffect|]. intros [possible [e|]] s1 Hs1 K1.
  - apply wp_ret. split; [exact K1|]. cbn. by destruct (registerCompletionKnown _).
  - eapply wp_mono; [by apply IH|]. intros r s2. by apply xop_keeps.
Qed.

Lemma Total_overWire : Total false (overWire (W := W)). Proof. apply Total_gets. Qed.

Lemma executeAP_spec ctx o s : xpre s -> ctx_nil ctx = false -> wp (executeAP fuel ctx o) (xpost s none) s.
Proof.
  intros Hs Hc. unfold executeAP. apply wp_bind, wp_sget. apply xpost_seq; [done| |].
  { apply on_core_total; [done|]. apply Total_if; [|by apply Total_readAPEffect].
    apply Total_bind; [by apply Total_writeAPEffect|]. intros [? ?]. apply Total_ret. }
  intros [[possible v] e] s1 Hs1 K1. apply wp_bind, wp_sget.
  apply xpost_seq; [done| |intros; apply xpost_ret]. apply xpost_if; [apply smod_spec; auto with tame|apply xpost_ret].
Qed.

Lemma executeOp_spec ctx o s :
  xpre s -> reports -> ctx_nil ctx = false -> fuelled s [o] -> (result o < length (heap s))%nat ->
  wp (executeOp fuel ctx o) (xop s o) s.
Proof.
  intros Hs Hrep Hc Hf Ho. unfold executeOp. apply core_then; [done|by apply Total_ctxErr|]. intros [e|] s1 Hs1 K1; [by apply wp_ret|].
  assert (result o < length (heap s1))%nat as Ho1 by (destruct K1 as (_ & _ & [L _] & _); lia).
  pose proof (fuelled_keeps _ _ _ K1 Hf) as Hf1. eapply wp_mono; [|intros r s2; by apply (xop_keeps s s1 o o)].
  clear dependent s. rename s1 into s. apply core_then; [done|apply Total_overWire|]. intros wire s1 Hs2 K1.
  destruct (wire && _).
  { eapply wp_mono; [apply executeSWDOp_spec; try done; [by apply (fuelled_keeps s)|destruct K1 as (_ & _ & [L _] & _); lia]|].
    intros r s2. by apply xop_keeps. }
  assert (wp ('(v, e) ← executeAP fuel ctx o; mret (v, e, o)) (xop s o) s1) as Hap.
  { apply wp_bind. eapply wp_mono; [by apply executeAP_spec|]. intros [v e] s2 [K2 _]. apply wp_ret.
    split; [exact (transitivity K1 K2)|done]. }
  destruct (kind o) eqn:Ek; try exact Hap.
  - apply core_then; [done|apply Total_readDP; auto using Total_abortWait|]. intros [v e] s2 _ K2. apply wp_ret.
    split; [exact (transitivity K1 K2)|done].
  - apply core_then; [done| |].
    + apply Total_bind; [apply Total_writeDP; auto using Total_abortWait|]. intros e. apply Total_bind; [apply Total_gets|]. intros jt.
      apply Total_if; [by apply settle_total|apply Total_ret].
    + intros e s2 _ K2. apply wp_ret. split; [exact (transitivity K1 K2)|done].
  - unfold writeSequence. apply wp_bind, wp_bind. unfold overWire. apply wp_pget.
    eapply wp_mono with (P := xop s1 o).
    + destruct (bool_decide _); [|by apply write_loop_spec]. apply writeSWDSequence_spec; try done. by apply (fuelled_keeps s).
    + intros [e o'] s2 [K2 E2]. apply wp_ret. split; [exact (transitivity K1 K2)|exact E2].
Qed.

(** The operations from [i] on are those of [l], up to what is recorded in them. *)
Definition at_ops (s : XSt W) (i : nat) (l : list txnOp) : Prop := drop i (result <$> ops s) = result <$> l.

Lemma at_ops_head s i o l :
  at_ops s i (o :: l) -> at_ops s (S i) l /\ exists o', ops s !! i = Some o' /\ result o' = result o.
Proof.
  unfold at_ops. intros E. split.
  - apply (f_equal tail) in E. cbn in E. rewrite <- E. symmetry. replace (S i) with (i + 1)%nat by lia.
    rewrite <- drop_drop. by destruct (drop i _).
  - assert ((result <$> ops s) !! i = Some (result o)) as El by (rewrite <- (Nat.add_0_r i), <- lookup_drop, E; done).
    rewrite list_lookup_fmap in El. destruct (ops s !! i) as [o'|]; [|done]. exists o'. by injection El.
Qed.

Lemma at_ops_keeps s s' i l : xkeeps s s' -> at_ops s i l -> at_ops s' i l.
Proof. intros (_ & E & _). unfold at_ops. by rewrite E. Qed.

Lemma insert_op_keeps s i o o' :
  ops s !! i = Some o -> result o' = result o -> xkeeps s (put_ops (<[i := o']> (ops s)) s).
Proof.
  intros Hi E. apply (set_ops_keeps (<[i := o']>)). rewrite list_fmap_insert, E. apply list_insert_id.
  by rewrite list_lookup_fmap, Hi.
Qed.

Lemma result_in_heap s i o : xpre s -> ops s !! i = Some o -> (result o < length (heap s))%nat.
Proof. intros [_ F] Ho. rewrite Forall_lookup in F. by eapply F. Qed.

Lemma sequential_loop_spec ctx l (i : nat) s :
  xpre s -> reports -> ctx_nil ctx = false -> Forall (fun o => fuelled s [o]) l -> at_ops s i l ->
  (forall j, 0 <= j < Z.of_nat i -> settled s j) -> wp (sequential_loop fuel ctx (Z.of_nat i) l) (xpost s all) s.
Proof.
  intros Hs Hrep Hc. revert i s Hs. induction l as [|o l IH]; intros i s Hs Hf Ha G; cbn [sequential_loop].
  { apply wp_ret. split; [reflexivity|]. intros j Hj _. destruct (decide (j < Z.of_nat i)); [auto|].
    intros o Ho. apply lookup_lt_Some in Ho. unfold at_ops in Ha. apply (f_equal length) in Ha.
    rewrite length_drop, !length_fmap in Ha. cbn in Ha. lia. }
  apply Forall_cons in Hf as [Hfo Hf]. destruct (at_ops_head _ _ _ _ Ha) as [Ha1 (o0 & Ho0 & Er)].
  apply wp_bind. eapply wp_mono; [apply executeOp_spec; try done; rewrite <- Er; by eapply result_in_heap|].
  intros [[v e] o'] s1 [K1 Eo']. pose proof (xkeeps_pre _ _ K1 Hs) as Hs1. rewrite Nat2Z.id.
  destruct (at_ops_head _ _ _ _ (at_ops_keeps _ _ _ _ K1 Ha)) as [_ (o1 & Ho1 & Er1)]. cbn [snd] in Eo'.
  apply wp_bind, wp_modify. pose proof (insert_op_keeps s1 i o1 o' Ho1 ltac:(congruence)) as K2. set (s2 := put_ops _ s1) in *.
  pose proof (xkeeps_pre _ _ K2 Hs1) as Hs2. pose proof (transitivity K1 K2) as K12. clearbody s2.
  destruct (at_ops_head _ _ _ _ (at_ops_keeps _ _ _ _ K12 Ha)) as [Ha2 (o2 & Ho2 & Er2)].
  apply wp_bind. eapply wp_mono; [by apply resolveResult_spec|]. intros [] s3 [K3 G3].
  pose proof (xkeeps_pre _ _ K3 Hs2) as Hs3. pose proof (transitivity K12 K3) as K13.
  assert (forall j, 0 <= j < Z.of_nat (S i) -> settled s3 j) as Hdone.
  { intros j Hj. destruct (decide (j < Z.of_nat i)); [apply (settled_mono _ _ _ K13), G; lia|].
    assert (Z.to_nat j = i) as Ej by lia. eapply (settled_of_results s2 s3 j o2); [exact K3|by rewrite Ej|].
    rewrite Er2. apply G3. rewrite <- Er2. by eapply result_in_heap. }
  destruct e as [e|].
  - apply wp_bind. eapply wp_mono; [apply txn_resolveSuffix_spec; [done|lia]|]. intros [] s4 [K4 G4]. apply wp_ret.
    split; [exact (transitivity K13 K4)|]. intros j Hj _. destruct (decide (j < Z.of_nat (S i))); [|apply G4; lia].
    apply (settled_mono _ _ _ K4), Hdone. lia.
  - replace (Z.of_nat i + 1) with (Z.of_nat (S i)) by lia. eapply wp_mono; [apply IH; try done|intros x s4; by apply xpost_keeps].
    + eapply Forall_impl; [exact Hf|]. intros x. by apply fuelled_keeps.
    + exact (at_ops_keeps _ _ _ _ K3 Ha2).
Qed.

Lemma steps_bound_elem o l : o ∈ l -> (op_steps o <= steps_bound l)%nat.
Proof. unfold steps_bound. induction 1; cbn; lia. Qed.

Lemma fuelled_each s l : xpre s -> fuelled s l -> Forall (fun o => fuelled s [o]) l.
Proof.
  intros Hs Hf. apply Forall_forall. intros o Ho. apply steps_bound_elem in Ho. pose proof (xpre_limit _ Hs).
  unfold fuelled in *. unfold steps_bound at 1. cbn. nia.
Qed.

Lemma executeSequentialTxn_spec ctx s :
  xpre s -> reports -> ctx_nil ctx = false -> fuelled s (ops s) -> wp (executeSequentialTxn fuel ctx) (xpost s all) s.
Proof.
  intros Hs Hrep Hc Hf. unfold executeSequentialTxn. apply wp_bind, wp_pget.
  assert (is_jtag (port (core s)) = false) as -> by apply Hs. cbn [negb]. apply wp_bind.
  eapply wp_mono; [apply wp_on_core, settle_total; [done|apply Hs]|]. intros e s1 (c & -> & K1). apply set_core_keeps in K1.
  pose proof (xkeeps_pre _ _ K1 Hs) as Hs1. eapply wp_mono; [|intros x s2; by apply xpost_keeps]. destruct e as [e|].
  - apply xpost_after; [done| |intros; apply xpost_ret]. eapply wp_mono; [apply txn_resolveSuffix_spec; [done|lia]|]. intros [] s2. apply xpost_all_from.
  - apply wp_bind, wp_gets. apply (sequential_loop_spec ctx _ 0); try done; [|intros; lia].
    apply fuelled_each; [done|]. exact (fuelled_keeps _ _ _ K1 Hf).
Qed.

(** ** Commit *)

(** What checking an operation leaves alone. *)
Definition same_ops (l l' : list txnOp) : Prop := result <$> l' = result <$> l /\ values <$> l' = values <$> l.

Lemma same_ops_bound l l' : same_ops l l' -> steps_bound l' = steps_bound l.
Proof.
  intros [_ E]. unfold steps_bound, op_steps. revert l' E. induction l as [|o l IH]; intros [|o' l'] E; try done.
  cbn in *. injection E as E1 E2. by rewrite E1, (IH l' E2).
Qed.

Lemma same_ops_validate (f : txnOp -> err) l : same_ops l ((fun o => set_op_err (f o) o) <$> l).
Proof. by split; rewrite <- list_fmap_compose; apply list_fmap_ext. Qed.

Lemma same_ops_check dp ctx l : same_ops l (fst (check_loop dp ctx l)).
Proof.
  induction l as [|o l [IH1 IH2]]; [done|]. cbn [check_loop]. destruct (if needsConnected o then _ else _); [done|].
  destruct (check_loop dp ctx l) as [l' e]. cbn in *. split; cbn; by f_equal.
Qed.

Lemma check_loop_live dp ctx o l : snd (check_loop dp ctx (o :: l)) = None -> ctx_nil ctx = false.
Proof.
  cbn [check_loop]. destruct (needsConnected o).
  - destruct (requireConnected dp ctx) eqn:E; [done|]. intros _. by eapply requireConnected_live.
  - destruct (requireOperational dp ctx) eqn:E; [done|]. intros _. by eapply requireOperational_live.
Qed.

Definition put_committed (s : XSt W) : XSt W := mkX (heap s) (has_dp s) (ops s) true (core s).

Lemma same_ops_keeps s l : same_ops (ops s) l -> xkeeps s (put_ops l s).
Proof. intros [E _]. by apply (set_ops_keeps (fun _ => l)). Qed.

Lemma fuelled_same s s' l l' : xkeeps s s' -> same_ops l l' -> fuelled s l -> fuelled s' l'.
Proof. intros K E Hf. apply (fuelled_keeps _ _ _ K) in Hf. unfold fuelled in *. by rewrite (same_ops_bound _ _ E). Qed.

Lemma commit_checked ctx s :
  xpre s -> reports -> fuelled s (ops s) -> ops s <> [] ->
  wp (a ← checkAccess ctx;
      match a with
      | Some e => resolveInvalid;; mret (Some e)
      | None =>
          dp ← on_core (pget id);
          e ← (if is_jtag dp || is_register dp || (dpVersion dp =? 3) then executeSequentialTxn fuel ctx else executeTxn fuel ctx);
          on_core (callerError ctx e)
      end) (xpost s all) s.
Proof.
  intros Hs Hrep Hf Hn. apply wp_bind. unfold checkAccess. apply wp_bind, wp_pget, wp_bind, wp_gets. cbn [id].
  pose proof (same_ops_check (port (core s)) ctx (ops s)) as E. pose proof (check_loop_live (port (core s)) ctx) as L.
  destruct (check_loop _ _ _) as [l a] eqn:Ec. cbn [fst] in E. apply wp_bind, wp_modify, wp_ret.
  pose proof (same_ops_keeps s l E) as K. pose proof (fuelled_same _ _ _ _ K E Hf) as Hf1. pose proof (xkeeps_pre _ _ K Hs) as Hs1.
  eapply wp_mono; [|intros x s2; by apply (xpost_keeps s (put_ops l s))]. destruct a as [a|].
  - apply xpost_after; [done| |intros; apply xpost_ret]. eapply wp_mono; [by apply txn_resolveInvalid_spec|]. intros [] s2. apply xpost_all_from.
  - assert (ctx_nil ctx = false) as Hc. { destruct (ops s) as [|o l0]; [done|]. apply (L o l0). by rewrite Ec. }
    apply wp_bind, wp_pget. cbn [id]. apply xpost_after; [done|apply xpost_if; [by apply executeSequentialTxn_spec|by apply executeTxn_spec]|].
    intros e s2 Hs2 K2. apply on_core_total; [done|apply Total_callerError].
Qed.

Lemma txn_Commit_spec ctx s :
  xpre s -> reports -> fuelled s (ops s) -> committed s = false -> wp (Commit fuel ctx) (xpost (put_committed s) all) s.
Proof.
  intros Hs Hrep Hf Hn. unfold Commit. apply wp_bind, wp_gets. rewrite Hn. apply wp_bind, wp_modify.
  change (mkX (heap s) (has_dp s) (ops s) true (core s)) with (put_committed s).
  change (xpre (put_committed s)) in Hs. change (fuelled (put_committed s) (ops (put_committed s))) in Hf.
  set (s0 := put_committed s) in *. clearbody s0. clear Hn s. rename s0 into s.
  apply wp_bind, wp_gets. destruct (ops s) as [|o l] eqn:El.
  { apply wp_ret. split; [reflexivity|]. intros i _ _ o. by rewrite El. }
  assert (ops s <> []) as Hn by (by rewrite El). rewrite <- El in Hf. clear El o l. apply wp_bind, wp_gets. destruct (negb _).
  { apply xpost_after; [done| |intros; apply xpost_ret]. eapply wp_mono; [by apply resolveAll_spec|]. intros [] s2. apply xpost_all_from. }
  unfold validate. apply wp_bind, wp_bind, wp_pget, wp_bind, wp_modify, wp_bind, wp_gets, wp_ret. cbn [id].
  pose proof (same_ops_validate (validateOp (port (core s))) (ops s)) as E. set (l := _ <$> ops s) in E |- *.
  pose proof (same_ops_keeps s l E) as K. pose proof (fuelled_same _ _ _ _ K E Hf) as Hf1. pose proof (xkeeps_pre _ _ K Hs) as Hs1.
  eapply wp_mono; [|intros x s2; by apply (xpost_keeps s (put_ops l s))]. destruct (errors_Join _) as [e|].
  - apply xpost_after; [done| |intros; apply xpost_ret]. eapply wp_mono; [by apply txn_resolveInvalid_spec|]. intros [] s2. apply xpost_all_from.
  - apply commit_checked; [done|done|done|]. cbn. subst l. by destruct (ops s).
Qed.
End TxnFacts.
