(* ===== verification/DapTxnRefine.v ===== *)
(** * A transaction over a link without faults means its operations

    When every request is performed, [Commit] gives each caller the value its
    operation has when the operations are performed one after the other. *)

From S2P Require Import Prelude Go JtagTap JtagConn JtagChain DapTypes DapErrors DapPlan DapPort DapJtag DapSwd DapAccess DapTxn DapTxnFacts DapPlanFacts.
Local Open Scope Z_scope.

(** What the steps deliver when they get the given values. *)
Fixpoint deliveries (l : list txnStep) (vs : list Z) : list (Z * Z) :=
  match l, vs with
  | s :: l, v :: vs => (if deliver s then [(op s, if deliverValue s then v else 0)] else []) ++ deliveries l vs
  | _, _ => []
  end.

(** Giving each result its value. *)
Definition give (ps : list nat) (d : Z * Z) (h : list txnResult) : list txnResult :=
  match ps !! Z.to_nat (fst d) with Some p => alter (resolve (snd d) None) p h | None => h end.
Definition give_all (ps : list nat) (ds : list (Z * Z)) (h : list txnResult) : list txnResult :=
  fold_left (fun h d => give ps d h) ds h.

Lemma give_all_app ps ds es h : give_all ps (ds ++ es) h = give_all ps es (give_all ps ds h).
Proof. apply fold_left_app. Qed.

(** A result that is asked for once gets its value. *)
Lemma give_all_other ps ds h q :
  (forall d, d ∈ ds -> ps !! Z.to_nat (fst d) <> Some q) -> give_all ps ds h !! q = h !! q.
Proof.
  revert h. induction ds as [|d ds IH]; intros h Hq; [done|]. cbn [give_all fold_left]. fold (give_all ps ds (give ps d h)).
  rewrite IH by (intros x Hx; apply Hq; by right). unfold give. destruct (ps !! _) as [p|] eqn:E; [|done].
  apply list_lookup_alter_ne. intros ->. apply (Hq d); [by left|done].
Qed.

Section Machine.
Context {T : Type} `{Registers T} (b3 : bool).

(** Requests in turn, each with its value. *)
Fixpoint exec_requests (l : list (transferRequest * Z)) (m : Phys T) : option (list Z * Phys T) :=
  match l with
  | [] => Some ([], m)
  | (r, d) :: l =>
      '(v, m1) ← exec_request b3 r d m;
      '(vs, m2) ← exec_requests l m1;
      Some (v :: vs, m2)
  end.

Definition request_of (s : txnStep) : transferRequest * Z := (req s, step_data s).

Lemma exec_steps_requests l m ds m' :
  exec_steps b3 l m = Some (ds, m') ->
  exists vs, exec_requests (request_of <$> l) m = Some (vs, m') /\ ds = deliveries l vs /\ length vs = length l.
Proof.
  revert m ds. induction l as [|s l IH]; intros m ds; cbn; [intros [= <- <-]; by exists []|].
  destruct (exec_request b3 (req s) (step_data s) m) as [[v m1]|]; cbn; [|done].
  destruct (exec_steps b3 l m1) as [[es m2]|] eqn:E; cbn; [|done]. intros [= <- <-].
  destruct (IH m1 es E) as (vs & -> & -> & L). exists (v :: vs). cbn. by rewrite L.
Qed.

Lemma exec_request_write r d m v m' : exec_request b3 r d m = Some (v, m') -> Read r = false -> v = 0.
Proof.
  intros E Hr. unfold exec_request, exec_ap, exec_dp in E. rewrite Hr in E. destruct (AP r).
  - destruct (if DapPlanFacts.settled m then select m else None); [|done]. by injection E as <- _.
  - destruct (Addr r =? 12); [done|]. destruct (Addr r =? 8); [by injection E as <- _|].
    destruct (reach b3 r m); [|done]. by injection E as <- _.
Qed.

Lemma exec_requests_writes l m vs m' :
  exec_requests l m = Some (vs, m') -> Forall2 (fun (rd : transferRequest * Z) v => Read (fst rd) = false -> v = 0) l vs.
Proof.
  revert m vs. induction l as [|[r d] l IH]; intros m vs; cbn; [by intros [= <- _]|].
  destruct (exec_request b3 r d m) as [[v m1]|] eqn:E; cbn; [|done].
  destruct (exec_requests l m1) as [[es m2]|] eqn:E2; cbn; [|done]. intros [= <- <-].
  constructor; [cbn; by eapply exec_request_write|by eapply IH].
Qed.

Lemma exec_steps_split l k (m m2 : Phys T) ds :
  exec_steps b3 (l ++ k) m = Some (ds, m2) ->
  exists ds1 m1 ds2, exec_steps b3 l m = Some (ds1, m1) /\ exec_steps b3 k m1 = Some (ds2, m2) /\ ds = ds1 ++ ds2.
Proof.
  revert m ds. induction l as [|s l IH]; intros m ds; cbn; [intros E; by exists [], m, ds|].
  destruct (exec_request b3 (req s) (step_data s) m) as [[v m1]|]; cbn; [|done].
  destruct (exec_steps b3 (l ++ k) m1) as [[es m3]|] eqn:E; cbn; [|done]. intros [= <- <-].
  destruct (IH m1 es E) as (ds1 & m4 & ds2 & E1 & E2 & ->). rewrite E1. cbn. by repeat eexists; [..|by rewrite app_assoc].
Qed.

(** Each operation is delivered once, under its index. *)
Lemma exec_ops_lookup dp i l (st : Logical T) (j : nat) o :
  l !! j = Some o -> exists v, fst (exec_ops dp i l st) !! j = Some (i + Z.of_nat j, v).
Proof.
  revert i l st. induction j as [|j IH]; intros i [|o' l] st Ho; try done; cbn [exec_ops];
    destruct (exec_op dp o' st) as [v st1]; destruct (exec_ops dp (i + 1) l st1) as [ds st2] eqn:E.
  - exists v. cbn. do 2 f_equal. lia.
  - destruct (IH (i + 1) l st1 Ho) as [v' Hv]. exists v'. rewrite E in Hv. cbn [fst] in *.
    change (ds !! j = Some (i + Z.of_nat (S j), v')). rewrite Hv. do 2 f_equal. lia.
Qed.

Lemma exec_ops_index dp i l (st : Logical T) (j : nat) d :
  fst (exec_ops dp i l st) !! j = Some d -> fst d = i + Z.of_nat j.
Proof.
  revert i l st. induction j as [|j IH]; intros i [|o' l] st; cbn [exec_ops]; try done;
    destruct (exec_op dp o' st) as [v st1]; destruct (exec_ops dp (i + 1) l st1) as [ds st2] eqn:E; cbn [fst].
  - intros [= <-]. cbn. lia.
  - change (ds !! j = Some d -> fst d = i + Z.of_nat (S j)). intros Hd. specialize (IH (i + 1) l st1). rewrite E in IH. specialize (IH Hd). lia.
Qed.

Lemma exec_ops_length dp i l (st : Logical T) : length (fst (exec_ops dp i l st)) = length l.
Proof.
  revert i st. induction l as [|o l IH]; intros i st; [done|]. cbn [exec_ops]. destruct (exec_op dp o st) as [v st1].
  specialize (IH (i + 1) st1). destruct (exec_ops dp (i + 1) l st1) as [ds st2]. cbn in *. by f_equal.
Qed.

End Machine.

(** ** Links *)

Section Exact.
Context {W : Type} `{Env W} `{SwdLink W} `{RegisterTransport W} `{ChainLink W}.
Variable fuel : nat.
Abbreviation M := (GoM (XSt W)).

(** What is known of the steps sent from a world of the link: they deliver the
    given values. *)
Variable Runs : list txnStep -> list (Z * Z) -> W -> Prop.

(** The link performs a batch of the next steps; its values deliver what was
    promised for them, and the rest can follow. *)
Record performs_steps (ctx : context) : Prop := {
  ps_batch l k ds w : l <> [] -> Runs (l ++ k) ds w ->
    exists vs w' es, swd_Commit ctx (request_of <$> l) w = (((fun v => (v, None)) <$> vs, None), w') /\
      Forall2 (fun (rd : transferRequest * Z) v => Read (fst rd) = false -> v = 0) (request_of <$> l) vs /\
      ds = deliveries l vs ++ es /\ Runs k es w';
  ps_nil ds w : Runs [] ds w -> ds = [];
  ps_ctx w : Runs [] [] w -> Runs [] [] (snd (ctx_Err ctx w))
}.

(** Only results, the counts of the operations and the port's view change. *)
Definition delivers (ds : list (Z * Z)) (s s' : XSt W) : Prop :=
  world (core s') = world (core s) /\ result <$> ops s' = result <$> ops s /\
  heap s' = give_all (result <$> ops s) ds (heap s).

Lemma delivers_trans ds es s1 s2 s3 : delivers ds s1 s2 -> delivers es s2 s3 -> delivers (ds ++ es) s1 s3.
Proof. intros (A1 & B1 & C1) (A2 & B2 & C2). split; [congruence|]. split; [congruence|]. by rewrite C2, C1, B1, give_all_app. Qed.

Lemma delivers_bind {A B} (m : M A) (f : A -> M B) ds s :
  wp m (fun _ s' => delivers [] s s') s -> (forall a s', wp (f a) (fun _ s'' => delivers ds s' s'') s') ->
  wp (mbind f m) (fun _ s' => delivers ds s s') s.
Proof.
  intros Hm Hf. apply wp_bind. eapply wp_mono; [exact Hm|]. intros a s1 D1. eapply wp_mono; [apply Hf|].
  intros c s2 D2. exact (delivers_trans _ _ _ _ _ D1 D2).
Qed.

(** Changes of the port's own state do not touch the link. *)
Definition Still {A} (m : GoM (PSt W) A) : Prop := forall c, wp m (fun _ c' => world c' = world c) c.

Lemma Still_ret {A} (a : A) : Still (mret a). Proof. by intros c. Qed.
Lemma Still_smod f : Still (smod f). Proof. by intros c. Qed.
Lemma Still_if {A} (x : bool) (m k : GoM (PSt W) A) : Still m -> Still k -> Still (if x then m else k).
Proof. by destruct x. Qed.
Lemma Still_bind {A B} (m : GoM (PSt W) A) (f : A -> GoM (PSt W) B) : Still m -> (forall a, Still (f a)) -> Still (mbind f m).
Proof.
  intros Hm Hf c. apply wp_bind. eapply wp_mono; [apply Hm|]. intros a c1 E. eapply wp_mono; [apply Hf|].
  intros x c2 E2. cbv beta in *. congruence.
Qed.

Lemma on_core_still {A} (m : GoM (PSt W) A) s : Still m -> wp (on_core m) (fun _ s' => delivers [] s s') s.
Proof. intros Hm. specialize (Hm (core s)). unfold wp, on_core in *. by destruct (m (core s)) as [[a c]| |]. Qed.

Lemma observeStep_delivers st v e s : wp (observeStep st v e) (fun _ s' => delivers [] s s') s.
Proof.
  apply on_core_still. apply Still_bind; [apply Still_smod|]. intros _.
  apply Still_if; [apply Still_smod|]. apply Still_if; [apply Still_smod|apply Still_ret].
Qed.

Lemma give_nil s : delivers [] s s. Proof. done. Qed.

Lemma resolveOp_delivers i v s : 0 <= i < len (ops s) -> wp (resolveOp i v None) (fun _ s' => delivers [(i, v)] s s') s.
Proof.
  intros Hi. unfold resolveOp, getOp. unfold wp at 1, mbind, GoM_bind. unfold Prelude.index. rewrite (proj2 (Z.ltb_ge i 0)) by lia.
  destruct (ops s !! Z.to_nat i) as [o|] eqn:E.
  - split; [done|]. split; [done|]. cbn [give_all fold_left]. unfold give. cbn [fst snd]. by rewrite list_lookup_fmap, E.
  - apply lookup_ge_None in E. unfold len in Hi. lia.
Qed.

Lemma acceptStep_delivers st v s :
  0 <= op st < len (ops s) ->
  wp (acceptStep st v) (fun _ s' => delivers (if deliver st then [(op st, if deliverValue st then v else 0)] else []) s s') s.
Proof.
  intros Hr. unfold acceptStep. apply wp_bind. eapply wp_mono; [apply observeStep_delivers|]. intros [] s1 D1. apply wp_bind.
  eapply wp_mono with (P := fun _ s' => delivers [] s1 s').
  { destruct (acceptWrite st); [|by apply wp_ret]. apply wp_modify. split; [done|]. split; [by apply result_alter|done]. }
  intros [] s2 D2. apply wp_bind. eapply wp_mono.
  { apply on_core_still. apply Still_bind; [by intros c|]. intros c. apply Still_bind; [|intros _; apply Still_bind; [|intros _]];
      repeat apply Still_if; try apply Still_ret; apply Still_smod. }
  intros [] s3 D3. pose proof (delivers_trans _ _ _ _ _ (delivers_trans _ _ _ _ _ D1 D2) D3) as D. cbn in D.
  destruct (deliver st); cbn [negb]; [|by apply wp_ret].
  eapply wp_mono; [apply resolveOp_delivers|].
  - destruct D as (_ & E & _). apply (f_equal length) in E. rewrite !length_fmap in E. unfold len in *. lia.
  - intros [] s4 D4. exact (delivers_trans _ _ _ _ _ D D4).
Qed.

(** A transfer that went through. *)
Definition confirmed_transfer (v : Z) : transferResult := mkTransfer v None transferConfirmed.

Lemma acceptBatchPrefix_delivers l vs s :
  length vs = length l -> Forall (fun st => 0 <= op st < len (ops s)) l ->
  wp (acceptBatchPrefix l (confirmed_transfer <$> vs) (length l)) (fun _ s' => delivers (deliveries l vs) s s') s.
Proof.
  revert vs s. induction l as [|st l IH]; intros [|v vs] s Hlen Hr; try done. injection Hlen as Hlen. apply Forall_cons in Hr as [Hst Hr].
  cbn [acceptBatchPrefix fmap list_fmap length]. apply wp_bind. eapply wp_mono; [by apply acceptStep_delivers|]. intros [] s1 D1.
  eapply wp_mono; [apply IH; [done|]|intros [] s2 D2; exact (delivers_trans _ _ _ _ _ D1 D2)].
  destruct D1 as (_ & E & _). apply (f_equal length) in E. rewrite !length_fmap in E. unfold len in *. by rewrite E.
Qed.

Lemma transferSteps_exact ctx l s vs w' :
  swd_Commit ctx (request_of <$> l) (world (core s)) = (((fun v => (v, None)) <$> vs, None), w') ->
  Forall2 (fun (rd : transferRequest * Z) v => Read (fst rd) = false -> v = 0) (request_of <$> l) vs ->
  wp (transferSteps ctx l) (fun r s' => r = (confirmed_transfer <$> vs, None) /\ world (core s') = w' /\
    heap s' = heap s /\ ops s' = ops s) s.
Proof.
  intros Ec Hw.
  unfold transferSteps, commitBatch. unfold wp, mbind, GoM_bind, on_core, call. change (fun s => (req s, step_data s)) with request_of.
  rewrite Ec. cbv beta iota. split; [|done]. f_equal. apply list_eq. intros i. rewrite list_lookup_imap, list_lookup_fmap.
  pose proof (Forall2_length _ _ _ Hw) as Hl. rewrite length_fmap in Hl.
  destruct (l !! i) as [st|] eqn:Ei; cbn [fmap option_fmap option_map].
  - destruct (lookup_lt_is_Some_2 vs i) as [v Ev]; [rewrite <- Hl; by eapply lookup_lt_Some|]. rewrite !list_lookup_fmap, Ev. cbn [fmap option_fmap option_map default from_option id].
    assert (Read (req st) = false -> v = 0) as Hz.
    { pose proof (Forall2_lookup_lr _ _ _ i (request_of st) v Hw) as G. rewrite list_lookup_fmap, Ei in G. by apply G. }
    unfold swdResult, confirmed_transfer. cbn. destruct (Read (req st)); [done|]. by rewrite Hz.
  - apply lookup_ge_None in Ei. rewrite ?list_lookup_fmap. by rewrite (proj2 (lookup_ge_None vs i)) by lia.
Qed.

Lemma firstFailed_confirmed vs : firstFailedTransfer (confirmed_transfer <$> vs) = length vs.
Proof. induction vs; cbn; auto. Qed.

Lemma execute_exact n ctx l s w ds :
  performs_steps ctx -> (length l <= n)%nat -> Forall (fun st => 0 <= op st < len (ops s)) l ->
  Runs l ds (world (core s)) ->
  wp (execute_loop fuel n ctx l w) (fun e s' => e = None /\ result <$> ops s' = result <$> ops s /\
    heap s' = give_all (result <$> ops s) ds (heap s) /\ Runs [] [] (world (core s'))) s.
Proof.
  intros Hp. revert l s w ds. induction n as [|n IH]; intros l s w ds Hn Hr E; destruct l as [|st l0] eqn:El;
    try (cbn in Hn; lia); try (pose proof (ps_nil ctx Hp _ _ E); subst ds; by apply wp_ret).
  rewrite <- El in *. assert (exists stop, nextBatchBoundary l = Some stop /\ (0 < stop)%nat) as (stop & Eb & Hpos).
  { rewrite El. cbn. eexists. split; [done|]. destruct (txnResponseBoundary st); lia. }
  cbn [execute_loop]. rewrite Eb. rewrite <- (take_drop stop l) in E.
  destruct (ps_batch ctx Hp (take stop l) (drop stop l) ds (world (core s))) as (vs & w' & es & Ec & Hw & -> & Er); [by rewrite El; destruct stop; [lia|]|exact E|].
  pose proof (Forall2_length _ _ _ Hw) as Hlen. rewrite length_fmap in Hlen.
  apply wp_bind. eapply wp_mono; [by apply transferSteps_exact|]. intros [rs e] s1 ([= -> ->] & Ew & Eh & Eo).
  cbv zeta. rewrite firstFailed_confirmed, <- Hlen. apply wp_bind.
  eapply wp_mono; [apply acceptBatchPrefix_delivers; [done|rewrite Eo; by apply Forall_take]|]. intros [] s2 (D1 & D2 & D3).
  rewrite (skipn_all2 (confirmed_transfer <$> vs)) by (rewrite length_fmap; lia).
  eapply wp_mono; [apply (IH (drop stop l) s2 0 es)|].
  - rewrite length_drop. lia.
  - apply (f_equal length) in D2. rewrite !length_fmap in D2. unfold len in *. rewrite D2, Eo. by apply Forall_drop.
  - by rewrite D1, Ew.
  - intros x s3 (G1 & G2 & G4 & G5). split; [done|]. split; [congruence|]. split; [|done]. by rewrite G4, D2, D3, Eo, Eh, give_all_app.
Qed.

Lemma give_all_result ps ds h (j : nat) q v r :
  NoDup ps -> (forall (k : nat) d, ds !! k = Some d -> fst d = Z.of_nat k) ->
  ps !! j = Some q -> ds !! j = Some (Z.of_nat j, v) -> h !! q = Some r -> resolved r = false ->
  give_all ps ds h !! q = Some (mkTxnResult true v None).
Proof.
  intros Hnd Hix Hq Hd Hr Hres.
  assert (forall (k : nat) d, ds !! k = Some d -> k <> j -> ps !! Z.to_nat (fst d) <> Some q) as Hother.
  { intros k d Hk Hne E. rewrite (Hix k d Hk), Nat2Z.id in E. apply Hne. by eapply NoDup_lookup. }
  rewrite <- (take_drop_middle ds j (Z.of_nat j, v) Hd), give_all_app. change (?x :: ?y) with ([x] ++ y). rewrite give_all_app.
  rewrite give_all_other.
  - cbn [give_all fold_left]. unfold give. cbn [fst snd]. rewrite Nat2Z.id, Hq, list_lookup_alter_eq, give_all_other.
    + rewrite Hr. cbn. unfold resolve. by rewrite Hres.
    + intros d (k & Hk)%list_elem_of_lookup. apply lookup_take_Some in Hk as [Hk Hlt]. apply (Hother k d Hk). lia.
  - intros d (k & Hk)%list_elem_of_lookup. rewrite lookup_drop in Hk. apply (Hother _ d Hk). lia.
Qed.

Lemma set_op_err_None o : op_err o = None -> set_op_err None o = o.
Proof. destruct o. cbn. by intros ->. Qed.

Lemma check_loop_open dp ctx l :
  requireConnected dp ctx = None -> requireOperational dp ctx = None -> Forall (fun o => op_err o = None) l ->
  check_loop dp ctx l = (l, None).
Proof.
  intros Hc Ho. induction 1 as [|o l He _ IH]; [done|]. cbn [check_loop]. rewrite Hc, Ho, IH, set_op_err_None by done.
  by destruct (needsConnected o).
Qed.

Lemma txn_validate_ok dp l :
  Forall (plannable dp) l -> Forall (fun o => op_err o = None) l -> (fun o => set_op_err (validateOp dp o) o) <$> l = l.
Proof.
  intros Hp He. induction l as [|o l IH]; [done|]. apply Forall_cons in Hp as [(Hv & _) Hp]. apply Forall_cons in He as [He1 He].
  cbn. rewrite Hv, set_op_err_None by done. f_equal. by apply IH.
Qed.

(** A transaction ready to be committed over a wire. *)
Record committable (ctx : context) (s : XSt W) : Prop := {
  c_open : has_dp s = true;
  c_wire : is_jtag (port (core s)) = false /\ is_register (port (core s)) = false /\ dpVersion (port (core s)) <> 3;
  c_connected : requireConnected (port (core s)) ctx = None /\ requireOperational (port (core s)) ctx = None;
  c_settled : dpWritePending (state (port (core s))) = false;
  c_ops : Forall (plannable (port (core s))) (ops s) /\ Forall (fun o => op_err o = None) (ops s);
  c_results : NoDup (result <$> ops s) /\ Forall (fun o => exists r, heap s !! result o = Some r /\ resolved r = false) (ops s);
  c_fuel : (steps_bound (ops s) <= fuel)%nat
}.

(** Every operation has the value that [ds] lists for it. *)
Definition valued (ds : list (Z * Z)) (s s' : XSt W) : Prop := forall i o,
  ops s !! i = Some o -> exists v, ds !! i = Some (Z.of_nat i, v) /\ heap s' !! result o = Some (mkTxnResult true v None).

(** And the steps have all been sent. *)
Definition finished (ds : list (Z * Z)) (s s' : XSt W) : Prop := valued ds s s' /\ Runs [] [] (world (core s')).

Lemma classify_finished l ds s s1 :
  finished ds s s1 -> wp (mapM_ (fun o => classifyResult (result o)) l) (fun _ s' => finished ds s s') s1.
Proof.
  revert s1. induction l as [|o l IH]; intros s1 [V R]; [by apply wp_ret|]. cbn [mapM_]. apply wp_bind, wp_modify, IH. split; [|exact R].
  intros i o' Ho'. destruct (V i o' Ho') as (v & Hd & Hh). exists v. split; [done|]. cbn [heap set_heap].
  destruct (decide (result o = result o')) as [E|E].
  - by rewrite E, list_lookup_alter_eq, Hh.
  - by rewrite list_lookup_alter_ne.
Qed.

(** The values of operations, in their order. *)
Definition in_order (ds : list (Z * Z)) : Prop := forall (k : nat) d, ds !! k = Some d -> fst d = Z.of_nat k.

Lemma executeTxn_exact ctx s ds :
  performs_steps ctx -> committable ctx s -> Runs (plan (ops s) (newSWDTxnPlanner (port (core s)))) ds (world (core s)) ->
  in_order ds -> length ds = length (ops s) ->
  wp (executeTxn fuel ctx) (fun e s' => e = None /\ finished ds s s') s.
Proof.
  intros Hp [_ (Hj & Hr & Hv) _ Hset [Hops Herr] [Hnd Hres] Hf] E2 Hix Hlen0. unfold executeTxn. apply wp_bind.
  unfold settlePreviousDPWrite. eapply wp_mono with (P := fun e s' => e = None /\ s' = s).
  { unfold wp, on_core, mbind, GoM_bind, sget, gets. rewrite Hset. cbn. by destruct s. }
  intros e s0 [-> ->]. apply wp_bind, wp_bind.
  apply wp_pget, wp_bind, wp_gets. cbn [id].
  destruct (plan_ordered (ops s) (port (core s))) as (O & Hlt & Hlen).
  apply wp_bind. eapply wp_mono; [eapply (execute_exact fuel ctx _ s 0); [done|lia| |exact E2]|].
  { apply ordered_range in O. rewrite Forall_forall in *. intros st Hst. specialize (O st Hst). specialize (Hlt st Hst). cbn in *. lia. }
  intros x s1 (-> & Er & Eh & HR).
  assert (valued ds s s1) as V.
  { intros i o Ho. destruct (lookup_lt_is_Some_2 ds i) as [[j v] Hd]; [rewrite Hlen0; by eapply lookup_lt_Some|].
    pose proof (Hix i _ Hd) as Ej. cbn in Ej. subst j.
    exists v. split; [exact Hd|]. rewrite Eh. rewrite Forall_forall in Hres.
    destruct (Hres o) as (r & Hr1 & Hr2); [by eapply list_elem_of_lookup_2|].
    eapply give_all_result; [done|exact Hix|by rewrite list_lookup_fmap, Ho|exact Hd|done|done]. }
  apply wp_bind. eapply wp_mono; [by apply classify_finished|]. intros [] s2 V2. apply wp_ret, wp_bind, wp_modify, wp_ret. by split.
Qed.

Lemma callerError_finished ctx e ds s s1 :
  performs_steps ctx -> finished ds s s1 -> wp (on_core (callerError ctx e)) (fun _ s' => finished ds s s') s1.
Proof.
  intros Hp [V R]. pose proof (ps_ctx ctx Hp _ R) as R'. unfold wp, on_core, callerError. destruct (ctx_nil ctx) eqn:Hc; [by destruct s1|].
  unfold mbind, GoM_bind, ctxErr. rewrite Hc. destruct (ctx_Err ctx (world (core s1))) as [[c|] w]; cbn; [|done]. by destruct (errors_Is e (context_Err c)).
Qed.

Lemma Commit_exact ctx s ds :
  performs_steps ctx -> committed s = false -> committable ctx s ->
  Runs (plan (ops s) (newSWDTxnPlanner (port (core s)))) ds (world (core s)) -> in_order ds -> length ds = length (ops s) ->
  wp (Commit fuel ctx) (fun _ s' => finished ds s s') s.
Proof.
  intros Hp Hc Hs HR Hix Hl. pose proof (ps_nil ctx Hp) as Hn. unfold Commit. apply wp_bind, wp_gets. rewrite Hc. apply wp_bind, wp_modify.
  set (s0 := mkX _ _ _ true _). assert (committable ctx s0) as Hs0 by (by destruct Hs).
  pose proof Hs0 as [Hd (Hj & Hr & Hv) [C1 C2] _ [Hops Herr] _ _]. apply wp_bind, wp_gets.
  assert (ops s = ops s0) as Eo by done. assert (put_ops (ops s0) s0 = s0) as Ep by done.
  destruct (ops s0) as [|o l] eqn:El.
  { rewrite Eo in HR, Hl. destruct ds; [|done]. apply wp_ret. split; [|done]. intros i o Ho. by rewrite Eo in Ho. }
  rewrite <- El in *. apply wp_bind, wp_gets. rewrite Hd. cbn [negb]. unfold validate.
  apply wp_bind, wp_bind, wp_pget, wp_bind, wp_modify, wp_bind, wp_gets, wp_ret. cbn [id].
  rewrite txn_validate_ok, Ep by done. rewrite (proj2 (errors_Join_None _)) by (by apply Forall_fmap).
  unfold checkAccess. apply wp_bind, wp_bind, wp_pget, wp_bind, wp_gets. cbn [id]. rewrite check_loop_open by done.
  apply wp_bind, wp_modify, wp_ret. cbv beta. rewrite Ep. apply wp_bind, wp_pget. cbn [id]. rewrite Hj, Hr, (proj2 (Z.eqb_neq _ _) Hv). cbn [orb].
  apply wp_bind. eapply wp_mono; [by apply executeTxn_exact|]. intros e s1 [-> V]. by apply callerError_finished.
Qed.
End Exact.

(** ** Links that perform requests on a port *)

Section Port.
Context {W : Type} `{Env W} `{SwdLink W} `{RegisterTransport W} `{ChainLink W}.
Context {T : Type} `{Registers T} (b3 : bool).
Variable phys : W -> Phys T.

(** The link performs the requests it is given. *)
Definition performs_requests : Prop := forall ctx l w vs m',
  exec_requests b3 l (phys w) = Some (vs, m') ->
  exists w', swd_Commit ctx l w = (((fun v => (v, None)) <$> vs, None), w') /\ phys w' = m'.

Definition port_runs (l : list txnStep) (ds : list (Z * Z)) (w : W) : Prop := exists m', exec_steps b3 l (phys w) = Some (ds, m').

Lemma port_performs ctx : performs_requests -> performs_steps port_runs ctx.
Proof.
  intros Hp. split; [|by intros ds w (m' & [= <- _])|intros w _; by eexists]. intros l k ds w _ (m' & E).
  destruct (exec_steps_split b3 _ _ _ _ _ E) as (ds1 & m1 & ds2 & E1 & E2 & ->).
  destruct (exec_steps_requests b3 _ _ _ _ E1) as (vs & Ev & -> & Hlen).
  destruct (Hp ctx _ _ _ _ Ev) as (w' & Ec & Ephys). exists vs, w', ds2. split_and!; [done|by eapply exec_requests_writes|done|].
  exists m'. by rewrite Ephys.
Qed.

Lemma exec_ops_in_order dp l (st : Logical T) : in_order (fst (exec_ops dp 0 l st)).
Proof. intros k d Hk. by apply exec_ops_index in Hk. Qed.
End Port.
