(* ===== verification/DapMemFacts.v ===== *)
(** * Memory accesses return, and block accesses account for every byte *)

From S2P Require Import Prelude Go Bits JtagTap JtagConn JtagChain DapTypes DapErrors DapPlan DapPort DapJtag DapSwd DapAccess DapTxn DapBlock DapBlockFacts.
From S2P Require Import DapMemAP DapSwdFacts DapAccessFacts DapTxnFacts.
Local Open Scope Z_scope.

(** ** Storing values in the caller's buffer *)

Lemma length_le_bytes n v : length (le_bytes n v) = n.
Proof. revert v. induction n; intros v; cbn; auto. Qed.

Lemma length_order_bytes be n v : length (order_bytes be n v) = n.
Proof. unfold order_bytes. destruct be; rewrite ?length_rev; apply length_le_bytes. Qed.

(** [putBlockValue] stores as many bytes as the size has. *)
Lemma putBlockValue_stores be dst size v :
  lane_size size -> width size <= len dst ->
  exists l, putBlockValue be dst size v = Some (l ++ drop (Z.to_nat (width size)) dst) /\ len l = width size.
Proof.
  intros Hs Hl. unfold putBlockValue, len in *. cbv zeta.
  destruct Hs as [->|[->| ->]];
    [change (Size8 =? Size8) with true; change (width Size8) with 1 in *
    |change (Size16 =? Size8) with false; change (Size16 =? Size16) with true; change (width Size16) with 2 in *
    |change (Size32 =? Size8) with false; change (Size32 =? Size16) with false; change (Size32 =? Size32) with true; change (width Size32) with 4 in *];
    cbv iota; (rewrite (proj2 (Nat.leb_le _ _)) by lia); eexists; (split; [reflexivity|]); by rewrite length_order_bytes.
Qed.

(** The buffer after storing up to [n]: the rest is as it was. *)
Definition stored (n : Z) (buf buf' : list Z) : Prop :=
  len buf' = len buf /\ drop (Z.to_nat n) buf' = drop (Z.to_nat n) buf.

Lemma stored_refl n buf : stored n buf buf. Proof. done. Qed.

Lemma stored_trans n n' b1 b2 b3 : 0 <= n <= n' -> stored n b1 b2 -> stored n' b2 b3 -> stored n' b1 b3.
Proof.
  intros Hn [L1 D1] [L2 D2]. split; [congruence|]. rewrite D2.
  replace (Z.to_nat n') with (Z.to_nat n + (Z.to_nat n' - Z.to_nat n))%nat by lia. by rewrite <- !drop_drop, D1.
Qed.

Lemma put_at_spec be buf n size v :
  lane_size size -> 0 <= n -> n + width size <= len buf ->
  exists buf', put_at be buf n size v = Some buf' /\ stored (n + width size) buf buf'.
Proof.
  intros Hs Hn Hl. assert (0 < width size) as Hw by (by destruct Hs as [->|[->| ->]]).
  unfold put_at. rewrite (proj2 (Z.ltb_ge n 0)), (proj2 (Z.ltb_ge (len buf) n)) by lia.
  cbn [orb]. destruct (putBlockValue_stores be (drop (Z.to_nat n) buf) size v Hs) as (l & -> & L).
  { unfold len in *. rewrite length_drop. lia. }
  eexists. split; [reflexivity|]. split.
  - unfold len in *. rewrite !length_app, length_drop, length_take, length_drop. lia.
  - unfold len in *. rewrite app_assoc, drop_drop. rewrite drop_app_length'; [f_equal; lia|].
    rewrite length_app, length_take. lia.
Qed.

Lemma tiles_le a off l stop : Forall seg_ok l -> tiles a off l stop -> off <= stop.
Proof.
  intros Hl. revert off. induction Hl as [|seg l Hs Hl IH]; intros off; cbn; [lia|]. intros (_ & _ & Ht). apply IH in Ht.
  destruct Hs as (Hc & _ & Hk). assert (0 <= seg_width seg) as Hw.
  { unfold seg_width. destruct (autoIncrement seg); [destruct Hk as [-> _]|destruct Hk as [_ [-> | ->]]]; by vm_compute. }
  nia.
Qed.

(** ** What memory operations keep *)

Section MemFacts.
Context {W : Type} `{Clock W} `{ChainLink W}.
Variable fuel : nat.
Abbreviation M := (GoM (MSt W)).
Abbreviation Total := (Total (W := W) (fuel := fuel)).
Hypothesis commit_reports : reports (W := W).

(** The largest transaction of a memory access: an address and a chunk of reads. *)
Definition txn_limit : Z := 264.

Definition mready (s : MSt W) : Prop :=
  DapSwdFacts.pre (fuel := fuel) false (core (txn s)) /\ txn_limit * (maxWaits (port (core (txn s))) + 1) <= Z.of_nat fuel.

(** What a handle keeps through every access: its port, what it saved and what it
    knows of the access port. *)
Definition handle (m : MemAP) : MemAP := set_pending false false false false (set_restoreEpoch 0 m).

Definition mframe (s s' : MSt W) : Prop :=
  keeps (core (txn s)) (core (txn s')) /\ heap_le (heap (txn s)) (heap (txn s')) /\ handle (mem s') = handle (mem s).

#[global] Instance mframe_preorder : PreOrder mframe.
Proof.
  split; [by intros s|]. intros s1 s2 s3 (A1 & B1 & C1) (A2 & B2 & C2).
  split; [exact (transitivity A1 A2)|]. split; [exact (transitivity B1 B2)|congruence].
Qed.

Lemma mframe_ready s s' : mframe s s' -> mready s -> mready s'.
Proof.
  intros (K & _) [P F]. split; [exact (keeps_pre false _ _ K P)|]. destruct K as ((_ & E & _) & _). by rewrite E.
Qed.

(** An open transaction whose operations take at most [k] steps. *)
Definition mtxn (k : Z) (s : MSt W) : Prop :=
  committed (txn s) = false /\ Forall (fun o => (result o < length (heap (txn s)))%nat) (ops (txn s)) /\
  Z.of_nat (steps_bound (ops (txn s))) <= k.

(** Methods that return and keep the frame: outside a transaction, while one is
    built, and from an open one to its end. *)
Definition Safe {A} (m : M A) : Prop := forall s, mready s -> wp m (fun _ s' => mframe s s') s.
Definition Builds {A} (k : Z) (m : M A) (k' : Z) : Prop := forall s, mready s -> mtxn k s -> wp m (fun _ s' => mframe s s' /\ mtxn k' s') s.
Definition Ends {A} (k : Z) (m : M A) : Prop := forall s, mready s -> mtxn k s -> wp m (fun _ s' => mframe s s') s.

Lemma Safe_ret {A} (a : A) : Safe (mret a). Proof. intros s _. apply wp_ret. reflexivity. Qed.
Lemma Safe_gets {A} (f : MSt W -> A) : Safe (gets f). Proof. intros s _. apply wp_gets. reflexivity. Qed.
Lemma Safe_bind {A B} (m : M A) (f : A -> M B) : Safe m -> (forall a, Safe (f a)) -> Safe (mbind f m).
Proof.
  intros Hm Hf s Hs. apply wp_bind. eapply wp_mono; [by apply Hm|]. intros a s1 K1.
  eapply wp_mono; [apply Hf; exact (mframe_ready _ _ K1 Hs)|]. intros b s2 K2. exact (transitivity K1 K2).
Qed.
Lemma Safe_check {A} m (fail : error -> M A) k : Safe m -> (forall e, Safe (fail e)) -> Safe k -> Safe (check m fail k).
Proof. intros Hm Hf Hk. apply Safe_bind; [done|]. by intros [e|]. Qed.
Lemma Safe_if {A} (b : bool) (m k : M A) : Safe m -> Safe k -> Safe (if b then m else k). Proof. by destruct b. Qed.
Lemma Safe_mmod f : (forall m, handle (f m) = handle m) -> Safe (mmod f).
Proof. intros Hf s _. apply wp_modify. split; [reflexivity|]. split; [reflexivity|apply Hf]. Qed.

Lemma on_txn_wp {A} (m : GoM (XSt W) A) (Q : A -> XSt W -> Prop) s :
  wp m Q (txn s) -> wp (on_txn m) (fun a s' => exists x, s' = mkMSt (mem s) x /\ Q a x) s.
Proof. unfold wp, on_txn. destruct (m (txn s)) as [[a x]| |]; [|done|done]. intros HQ. by exists x. Qed.

Lemma Safe_on_dp {A} (m : GoM (PSt W) A) : Total false m -> Safe (on_dp m).
Proof.
  intros Hm s Hs. eapply wp_mono; [apply on_txn_wp, wp_on_core; apply Hm, Hs|]. intros a s' (x & -> & c & -> & K).
  split; [exact K|]. by split.
Qed.

Lemma Builds_bind {A B} k k1 k2 (m : M A) (f : A -> M B) : Builds k m k1 -> (forall a, Builds k1 (f a) k2) -> Builds k (mbind f m) k2.
Proof.
  intros Hm Hf s Hs Ht. apply wp_bind. eapply wp_mono; [by apply Hm|]. intros a s1 [K1 T1].
  eapply wp_mono; [apply Hf; [exact (mframe_ready _ _ K1 Hs)|done]|]. intros b s2 [K2 T2]. split; [exact (transitivity K1 K2)|done].
Qed.
Lemma Builds_ret {A} k (a : A) : Builds k (mret a) k. Proof. intros s _ Ht. apply wp_ret. by split. Qed.
Lemma Builds_gets {A} k (f : MSt W -> A) : Builds k (gets f) k. Proof. intros s _ Ht. apply wp_gets. by split. Qed.
Lemma Builds_mmod k f : (forall m, handle (f m) = handle m) -> Builds k (mmod f) k.
Proof. intros Hf s _ Ht. apply wp_modify. split; [|done]. split; [reflexivity|]. split; [reflexivity|apply Hf]. Qed.
Lemma Builds_if {A} k k' (b : bool) (m n : M A) : Builds k m k' -> Builds k n k' -> Builds k (if b then m else n) k'. Proof. by destruct b. Qed.
Lemma Builds_more {A} k k1 k2 (m : M A) : Builds k m k1 -> k1 <= k2 -> Builds k m k2.
Proof. intros Hm Hk s Hs Ht. eapply wp_mono; [by apply Hm|]. intros a s' (K & C & F & B). split; [done|]. split_and!; [done|done|lia]. Qed.

Lemma Ends_bind {A B} k k1 (m : M A) (f : A -> M B) : Builds k m k1 -> (forall a, Ends k1 (f a)) -> Ends k (mbind f m).
Proof.
  intros Hm Hf s Hs Ht. apply wp_bind. eapply wp_mono; [by apply Hm|]. intros a s1 [K1 T1].
  eapply wp_mono; [apply Hf; [exact (mframe_ready _ _ K1 Hs)|done]|]. intros b s2 K2. exact (transitivity K1 K2).
Qed.
Lemma Ends_then {A B} k (m : M A) (f : A -> M B) : Ends k m -> (forall a, Safe (f a)) -> Ends k (mbind f m).
Proof.
  intros Hm Hf s Hs Ht. apply wp_bind. eapply wp_mono; [by apply Hm|]. intros a s1 K1.
  eapply wp_mono; [apply Hf; exact (mframe_ready _ _ K1 Hs)|]. intros b s2 K2. exact (transitivity K1 K2).
Qed.

Lemma Safe_new {A} (m : M A) : Ends 0 m -> Safe (on_txn NewTxn;; m).
Proof.
  intros Hm s Hs. apply wp_bind. set (s1 := mkMSt (mem s) (mkX (heap (txn s)) true [] false (core (txn s)))).
  change (wp m (fun _ s' => mframe s s') s1). assert (mframe s s1) as K1 by (split; [reflexivity|]; by split).
  eapply wp_mono; [apply Hm; [exact (mframe_ready _ _ K1 Hs)|by split_and!]|]. intros a s2 K2. exact (transitivity K1 K2).
Qed.

(** Starting a transaction that is committed later. *)
Lemma Starts_new s : mready s -> wp (on_txn NewTxn) (fun _ s' => mframe s s' /\ mtxn 0 s') s.
Proof. intros Hs. cbn. split; [split; [reflexivity|]; by split|by split_and!]. Qed.

Lemma Builds_queue k o c :
  (forall p, result (o p) = p) -> (forall p, Z.of_nat (op_steps (o p)) = c) -> Builds k (on_txn (queue o)) (k + c).
Proof.
  intros Hr Hc s Hs (C & F & B). cbn. unfold wp, on_txn, queue, newResult, mbind, GoM_bind, gets, modify, mret, GoM_ret. cbn. rewrite C. cbn.
  split; [split; [reflexivity|]; split; [apply heap_le_app|done]|]. split; [done|]. cbn. rewrite length_app. cbn. split.
  - apply Forall_app. split; [eapply Forall_impl; [exact F|]; cbn; lia|]. constructor; [rewrite Hr; lia|done].
  - unfold steps_bound in *. rewrite sum_list_with_app. cbn. specialize (Hc (length (heap (txn s)))). lia.
Qed.

Lemma Builds_writeAP k sel a v : Builds k (on_txn (txn_writeAP sel a v)) (k + 4). Proof. by apply Builds_queue. Qed.
Lemma Builds_readAP k sel a : Builds k (on_txn (txn_readAP sel a)) (k + 4). Proof. by apply Builds_queue. Qed.
Lemma Builds_readAPSequential k sel a : Builds k (on_txn (txn_readAPSequential sel a)) (k + 4). Proof. by apply Builds_queue. Qed.
Lemma Builds_writeAPSequence k sel a vs : Builds k (on_txn (txn_writeAPSequence sel a vs)) (k + (len vs + 4)).
Proof. apply Builds_queue; [done|]. intros p. unfold op_steps, len. cbn. lia. Qed.

Lemma Commit_keeps k ctx s :
  mready s -> mtxn k s -> k <= txn_limit ->
  wp (on_txn (Commit fuel ctx)) (fun _ s' => mframe s s' /\ length (ops (txn s')) = length (ops (txn s))) s.
Proof.
  intros [Hp Hf] (C & F & B) Hk.
  eapply wp_mono; [apply on_txn_wp, (txn_Commit_spec fuel ctx (txn s)); [by split|done| |done]|].
  - unfold fuelled. destruct Hp as (_ & Hw & _). nia.
  - intros e s' (x & -> & X & _). pose proof (xkeeps_length _ _ X) as El. destruct X as (K & _ & L & _).
    split; [split; [exact K|by split]|exact El].
Qed.
Lemma Ends_Commit k ctx : k <= txn_limit -> Ends k (on_txn (Commit fuel ctx)).
Proof. intros Hk s Hs Ht. eapply wp_mono; [by eapply Commit_keeps|]. by intros a s' [? _]. Qed.

(** ** Operations *)

Lemma on_txn_gets {A} (f : XSt W -> A) : Safe (on_txn (gets f)).
Proof. intros [m x] Hs. unfold wp. cbn. split; [reflexivity|by split]. Qed.
Lemma Safe_resultAt p : Safe (resultAt p). Proof. apply on_txn_gets. Qed.

Create HintDb safe discriminated.

Ltac safe := repeat
  match goal with
  | |- Safe (mret _) => apply Safe_ret
  | |- Safe (failed _) => apply Safe_ret
  | |- Safe (fail_scalar _) => apply Safe_ret
  | |- Safe (mget _) => apply Safe_gets
  | |- Safe (gets _) => apply Safe_gets
  | |- Safe (resultAt _) => apply Safe_resultAt
  | |- Safe (mmod _) => apply Safe_mmod; done
  | |- Safe (check _ _ _) => apply Safe_check; [|intros ?|]
  | |- Safe (mbind _ _) => apply Safe_bind; [|intros ?]
  | |- Safe (if _ then _ else _) => apply Safe_if
  | |- Safe (match ?x with _ => _ end) => destruct x
  | |- Safe _ => solve [eauto with safe]
  end.

Lemma Safe_checkActive ctx : Safe (checkActive ctx).
Proof. unfold checkActive. safe. apply Safe_on_dp, Total_gets. Qed.
#[local] Hint Resolve Safe_checkActive : safe.
Lemma Safe_checkScalar ctx a z : Safe (checkScalar ctx a z). Proof. unfold checkScalar. safe. Qed.
#[local] Hint Resolve Safe_checkScalar : safe.

Lemma Ends_selectCSWTxn ctx z inc : Ends 0 (selectCSWTxn fuel ctx z inc).
Proof.
  unfold selectCSWTxn. destruct (transferSizeEncoding z) as [enc [e|]]; [intros s _ _; by apply wp_ret|].
  eapply Ends_bind; [by apply Builds_mmod|]. intros _. eapply Ends_bind; [apply Builds_gets|]. intros m.
  eapply Ends_bind; [apply Builds_writeAP|]. intros _. eapply Ends_bind; [apply Builds_readAP|]. intros p.
  apply Ends_then; [by apply Ends_Commit|]. intros e. safe.
Qed.

Lemma Safe_selectCSW ctx z inc : Safe (selectCSW fuel ctx z inc).
Proof. apply Safe_new, Ends_selectCSWTxn. Qed.
#[local] Hint Resolve Safe_selectCSW : safe.

Lemma Builds_prepareScalarTxn k a : Builds k (prepareScalarTxn (W := W) a) (k + 8).
Proof.
  unfold prepareScalarTxn. eapply Builds_bind; [apply Builds_gets|]. intros m. eapply (Builds_bind _ (k + 4)).
  - apply Builds_if; [|eapply Builds_more; [apply Builds_ret|lia]]. eapply Builds_bind; [by apply Builds_mmod|]. intros _.
    eapply Builds_bind; [apply Builds_writeAP|]. intros _. apply Builds_ret.
  - intros _. eapply Builds_bind; [by apply Builds_mmod|]. intros _. eapply Builds_more; [eapply Builds_bind; [apply Builds_writeAP|]|].
    + intros _. apply Builds_ret.
    + lia.
Qed.

(** After an address: an open transaction, or an error and none needed. *)
Lemma scalarAccessTxn_spec ctx a z s :
  mready s -> wp (scalarAccessTxn fuel ctx a z) (fun e s' => mframe s s' /\ (e = None -> mtxn 8 s')) s.
Proof.
  intros Hs. unfold scalarAccessTxn, scalarTxn. apply wp_bind, wp_bind. eapply wp_mono; [by apply Starts_new|]. intros [] s1 [K1 T1].
  pose proof (mframe_ready _ _ K1 Hs) as Hs1. eapply wp_mono; [by apply Builds_prepareScalarTxn|]. intros [] s2 [K2 T2].
  pose proof (mframe_ready _ _ K2 Hs1) as Hs2. pose proof (transitivity K1 K2) as K. destruct (negb _); [by apply wp_ret|].
  unfold check. apply wp_bind. eapply wp_mono; [by apply (Ends_Commit 8)|]. intros [e|] s3 K3; pose proof (transitivity K K3) as K'; [by apply wp_ret|].
  apply wp_bind. eapply wp_mono; [apply Starts_new; exact (mframe_ready _ _ K3 Hs2)|]. intros [] s4 [K4 T4]. apply wp_ret.
  split; [exact (transitivity K' K4)|]. intros _. destruct T4 as (A & B & C). split_and!; [done|done|lia].
Qed.

Lemma Safe_access {A} ctx a z (fail : error -> M A) k :
  (forall e, Safe (fail e)) -> Ends 8 k -> Safe (check (scalarAccessTxn fuel ctx a z) fail k).
Proof.
  intros Hf Hk s Hs. unfold check. apply wp_bind. eapply wp_mono; [by apply scalarAccessTxn_spec|]. intros [e|] s1 [K1 T1];
    pose proof (mframe_ready _ _ K1 Hs) as Hs1.
  - eapply wp_mono; [by apply Hf|]. intros x s2 K2. exact (transitivity K1 K2).
  - eapply wp_mono; [by apply Hk; auto|]. intros x s2 K2. exact (transitivity K1 K2).
Qed.

Lemma Safe_sget {A} (f : debugPortState -> A) : Safe (on_dp (sget f)). Proof. apply Safe_on_dp, Total_gets. Qed.
Lemma Builds_sget {A} k (f : debugPortState -> A) : Builds k (on_dp (sget f)) k.
Proof. intros [m [h d o c p]] _ Ht. split; [split; [reflexivity|by split]|exact Ht]. Qed.

Lemma Safe_largeFailed z g e : Safe (largeFailed (W := W) z g e).
Proof.
  unfold largeFailed, requireLargeDataCleanup. safe. apply Safe_on_dp. apply Total_bind; [apply Total_gets|]. intros x.
  apply Total_bind; [apply Total_if; [apply Total_smod; auto with tame|apply Total_ret]|]. intros _. apply Total_smod; auto with tame.
Qed.
#[local] Hint Resolve Safe_sget Safe_largeFailed : safe.

Lemma Safe_readScalar ctx a z : Safe (readScalar fuel ctx a z).
Proof.
  unfold readScalar. apply Safe_check; [safe|intros; safe|]. apply Safe_check; [apply Safe_selectCSW|intros; safe|].
  apply Safe_access; [intros; safe|]. eapply Ends_bind; [apply Builds_gets|]. intros m.
  eapply Ends_bind; [apply Builds_readAP|]. intros low. eapply (Ends_bind _ 16).
  { apply Builds_if; [|eapply Builds_more; [apply Builds_ret|lia]]. eapply Builds_more; [eapply Builds_bind; [apply Builds_readAP|]|].
    - intros p. apply Builds_ret.
    - lia. }
  intros high. eapply Ends_bind; [apply Builds_sget|]. intros g. apply Ends_then; [by apply Ends_Commit|]. intros e. safe.
Qed.
#[local] Hint Resolve Safe_readScalar : safe.

Lemma Safe_WriteScalar ctx a z v : Safe (WriteScalar fuel ctx a z v).
Proof.
  unfold WriteScalar. apply Safe_check; [safe|intros; safe|]. apply Safe_if; [safe|].
  apply Safe_check; [apply Safe_selectCSW|intros; safe|]. apply Safe_access; [intros; safe|].
  eapply Ends_bind; [apply Builds_gets|]. intros m. eapply (Ends_bind _ 16).
  { apply Builds_if; [|eapply Builds_more; [apply Builds_writeAP|lia]]. eapply Builds_more; [eapply Builds_bind; [apply Builds_writeAP|]|].
    - intros p. eapply Builds_bind; [apply Builds_writeAP|]. intros q. apply Builds_ret.
    - lia. }
  intros first. eapply Ends_bind; [apply Builds_sget|]. intros g. apply Ends_then; [by apply Ends_Commit|]. intros e. safe.
Qed.

(** ** Reading blocks *)

(** As many results as words, unless it failed. *)
Definition chunk_post (s : MSt W) (n : nat) (r : list nat * err) (s' : MSt W) : Prop :=
  mframe s s' /\ (length (fst r) <= n)%nat /\ (snd r = None -> length (fst r) = n).

Lemma scalarTxn_spec a s : mready s -> wp (scalarTxn (W := W) a) (fun _ s' => mframe s s' /\ mtxn 8 s') s.
Proof.
  intros Hs. unfold scalarTxn. apply wp_bind. eapply wp_mono; [by apply Starts_new|]. intros [] s1 [K1 T1].
  eapply wp_mono; [apply Builds_prepareScalarTxn; [exact (mframe_ready _ _ K1 Hs)|done]|]. intros [] s2 [K2 T2].
  split; [exact (transitivity K1 K2)|done].
Qed.

Lemma noIncrement_loop_spec ctx a i n l s :
  mready s -> wp (noIncrement_loop fuel ctx a i n l) (chunk_post s (length l + n)) s.
Proof.
  revert i l s. induction n as [|n IH]; intros i l s Hs; cbn [noIncrement_loop].
  { apply wp_ret. split; [reflexivity|]. cbn. split; [lia|]. intros _. lia. }
  apply wp_bind. eapply wp_mono; [by apply scalarTxn_spec|]. intros [] s1 [K1 T1]. pose proof (mframe_ready _ _ K1 Hs) as Hs1.
  apply wp_bind, wp_gets, wp_bind. eapply wp_mono; [by apply Builds_readAP|]. intros p s2 [K2 T2].
  pose proof (mframe_ready _ _ K2 Hs1) as Hs2. unfold check. apply wp_bind.
  eapply wp_mono; [by apply (Ends_Commit (8 + 4))|]. intros e s3 K3. pose proof (transitivity K1 (transitivity K2 K3)) as K.
  destruct e as [e|].
  - apply wp_ret. split; [exact K|]. cbn. rewrite length_app. cbn. split; [lia|done].
  - eapply wp_mono; [apply IH; exact (mframe_ready _ _ K3 Hs2)|]. intros [l' e'] s4 (K4 & L1 & L2). cbn [fst snd] in *.
    rewrite length_app in L1, L2. cbn in L1, L2. split; [exact (transitivity K K4)|]. cbn. split; [lia|]. intros He. specialize (L2 He). lia.
Qed.

Lemma queueReads_spec m n k s :
  mready s -> mtxn k s -> wp (queueReads m n) (fun l s' => mframe s s' /\ mtxn (k + 4 * Z.of_nat n) s' /\ length l = n) s.
Proof.
  revert k s. induction n as [|n IH]; intros k s Hs Ht; cbn [queueReads].
  { apply wp_ret. split; [reflexivity|]. split; [|done]. by replace (k + 4 * Z.of_nat 0) with k by lia. }
  apply wp_bind. eapply wp_mono; [by apply Builds_readAPSequential|]. intros p s1 [K1 T1]. apply wp_bind.
  eapply wp_mono; [apply (IH (k + 4)); [exact (mframe_ready _ _ K1 Hs)|done]|]. intros l s2 (K2 & T2 & L). apply wp_ret.
  split; [exact (transitivity K1 K2)|]. split; [|cbn; by rewrite L]. by replace (k + 4 * Z.of_nat (S n)) with (k + 4 + 4 * Z.of_nat n) by lia.
Qed.

Lemma readWordChunk_spec ctx a c s :
  mready s -> 0 <= c <= blockReadChunkWords -> wp (readWordChunk fuel ctx a c) (chunk_post s (Z.to_nat c)) s.
Proof.
  intros Hs Hc. unfold readWordChunk, check. apply wp_bind. eapply wp_mono; [by apply Safe_selectCSW|]. intros e s1 K1.
  pose proof (mframe_ready _ _ K1 Hs) as Hs1. destruct e as [e|].
  - destruct (Is e _); [|apply wp_ret; split; [exact K1|split; [cbn; lia|done]]].
    unfold readWordsWithoutIncrement, check. apply wp_bind. eapply wp_mono; [by apply Safe_selectCSW|]. intros [e'|] s2 K2;
      pose proof (transitivity K1 K2) as K; [apply wp_ret; split; [exact K|split; [cbn; lia|done]]|].
    eapply wp_mono; [apply noIncrement_loop_spec; exact (mframe_ready _ _ K2 Hs1)|]. intros r s3 (K3 & L). split; [exact (transitivity K K3)|exact L].
  - apply wp_bind. eapply wp_mono; [by apply scalarTxn_spec|]. intros [] s2 [K2 T2]. pose proof (mframe_ready _ _ K2 Hs1) as Hs2.
    apply wp_bind, wp_gets, wp_bind. eapply wp_mono; [by apply queueReads_spec|]. intros l s3 (K3 & T3 & L). apply wp_bind.
    eapply wp_mono; [eapply Ends_Commit; [|exact (mframe_ready _ _ K3 Hs2)|exact T3]; unfold txn_limit, blockReadChunkWords in *; lia|].
    intros e s4 K4. apply wp_ret. split; [exact (transitivity K1 (transitivity K2 (transitivity K3 K4)))|]. cbn. rewrite L. split; [lia|done].
Qed.

(** What a read leaves: a prefix of the buffer stored, all of it on success. *)
Definition read_post (s : MSt W) (n stop : Z) (buf : list Z) (r : Z * err * list Z) (s' : MSt W) : Prop :=
  let '(n', e, buf') := r in
  mframe s s' /\ n <= n' <= stop /\ stored n' buf buf' /\ (e = None -> n' = stop).

Lemma read_post_trans s s1 n n1 stop buf b1 r s' :
  mframe s s1 -> 0 <= n <= n1 -> stored n1 buf b1 -> read_post s1 n1 stop b1 r s' -> read_post s n stop buf r s'.
Proof.
  destruct r as [[n' e] buf']. intros K Hn S1 (K' & Hn' & S2 & E). split; [exact (transitivity K K')|]. split; [lia|].
  split; [|done]. eapply (stored_trans n1 n'); [lia|done|done].
Qed.

Lemma store_loop_spec buf n e l s :
  mready s -> 0 <= n -> n + 4 * Z.of_nat (length l) <= len buf ->
  wp (store_loop buf n n e l) (fun r s' => let '(n', e', buf') := r in mframe s s' /\ n <= n' <= n + 4 * Z.of_nat (length l) /\
    stored n' buf buf' /\ (e' = None -> e = None /\ n' = n + 4 * Z.of_nat (length l))) s.
Proof.
  revert buf n s. induction l as [|p l IH]; intros buf n s Hs Hn Hl; cbn [store_loop length].
  { apply wp_ret. split; [reflexivity|]. split; [lia|]. split; [done|]. intros ->. split; [done|lia]. }
  apply wp_bind. eapply wp_mono; [by apply Safe_resultAt|]. intros [v [x|]] s1 K1; pose proof (mframe_ready _ _ K1 Hs) as Hs1.
  - apply wp_ret. split; [exact K1|]. split; [lia|]. split; [done|]. by destruct e.
  - apply wp_bind, wp_gets. destruct (put_at_spec (bigEndian (mem s1)) buf n Size32 v) as (buf' & E & S1);
      [by right; right|lia|change (width Size32) with 4; cbn [length] in Hl; lia|].
    change (width Size32) with 4 in S1. rewrite E. apply wp_bind, (wp_lift _ buf'); [done|]. pose proof S1 as [L1 _].
    eapply wp_mono; [apply IH; [done|lia|cbn [length] in Hl; lia]|]. intros [[n' e'] b'] s2 (K2 & Hn' & S2 & He).
    split; [exact (transitivity K1 K2)|]. split; [lia|]. split; [eapply (stored_trans (n + 4) n'); [lia|done|done]|].
    intros ->. destruct (He eq_refl) as [? ->]. split; [done|lia].
Qed.

Lemma readWords_loop_spec turns ctx buf seg first n s :
  mready s -> 0 <= first -> 0 <= seg_offset seg -> n = seg_offset seg + 4 * Z.min first (seg_count seg) ->
  0 <= seg_count seg -> seg_offset seg + 4 * seg_count seg <= len buf -> seg_count seg - first <= Z.of_nat turns ->
  wp (readWords_loop fuel turns ctx buf seg first n) (read_post s n (seg_offset seg + 4 * seg_count seg) buf) s.
Proof.
  revert buf first n s. induction turns as [|turns IH]; intros buf first n s Hs Hf Ho Hn Hc Hl Ht; cbn [readWords_loop].
  { apply wp_ret. split; [reflexivity|]. split; [lia|]. split; [done|lia]. }
  destruct (Z.ltb_spec first (seg_count seg)) as [Hlt|Hge].
  2: { apply wp_ret. split; [reflexivity|]. split; [lia|]. split; [done|lia]. }
  set (c := Z.min (seg_count seg - first) blockReadChunkWords). assert (1 <= c <= blockReadChunkWords) as Hcr by (unfold c, blockReadChunkWords; lia).
  apply wp_bind. eapply wp_mono; [apply readWordChunk_spec; [done|lia]|]. intros [l e] s1 (K1 & L1 & L2). cbn [fst snd] in *.
  pose proof (mframe_ready _ _ K1 Hs) as Hs1. apply wp_bind. replace (seg_offset seg + first * 4) with n by lia.
  eapply wp_mono; [apply store_loop_spec; [done|lia|unfold c in *; lia]|]. intros [[n1 e1] b1] s2 (K2 & Hn1 & S1 & He).
  pose proof (mframe_ready _ _ K2 Hs1) as Hs2. pose proof (transitivity K1 K2) as K. destruct e1 as [e1|].
  - apply wp_ret. split; [exact K|]. split; [unfold c in *; lia|]. by split.
  - destruct (He eq_refl) as [-> En]. specialize (L2 eq_refl).
    assert (n1 = seg_offset seg + 4 * Z.min (first + blockReadChunkWords) (seg_count seg)) as En1 by (unfold c in *; lia).
    pose proof S1 as [Lb _]. eapply wp_mono.
    + apply (IH b1 (first + blockReadChunkWords) n1); try done; unfold blockReadChunkWords in *; lia.
    + intros r s3 P. eapply (read_post_trans s s2 n n1); [exact K|lia|exact S1|exact P].
Qed.

Lemma readSegments_spec ctx a l buf n s :
  mready s -> 0 <= n -> tiles a n l (len buf) -> Forall seg_ok l ->
  wp (readSegments fuel ctx buf l n) (read_post s n (len buf) buf) s.
Proof.
  revert buf n s. induction l as [|seg l IH]; intros buf n s Hs Hn Ht Hok; cbn [readSegments].
  { cbn in Ht. subst n. apply wp_ret. split; [reflexivity|]. split; [lia|]. by split. }
  destruct Ht as (Eo & Ea & Ht). apply Forall_cons in Hok as [Hseg Hok]. pose proof (tiles_le _ _ _ _ Hok Ht) as Hle.
  destruct Hseg as (Hc & _ & Hk). set (stop := n + seg_width seg * seg_count seg) in *.
  assert (wp (if autoIncrement seg then readWordSegment fuel ctx buf seg n else readBlockEdge fuel ctx buf seg n) (read_post s n stop buf) s) as Hw.
  { destruct (autoIncrement seg).
    - destruct Hk as [Hz _]. assert (stop = seg_offset seg + 4 * seg_count seg) as -> by (unfold stop, seg_width; rewrite Hz; change (fst (sizeBytes Size32)) with 4; lia).
      apply readWords_loop_spec; try done; try lia.
    - destruct Hk as [Hone Hz]. assert (lane_size (seg_size seg)) as Hls by (destruct Hz as [Hz|Hz]; [by left|by right; left]).
      unfold readBlockEdge. apply wp_bind. eapply wp_mono; [by apply Safe_readScalar|]. intros [v [e|]] s1 K1.
      + apply wp_ret. split; [exact K1|]. split; [|by split]. unfold stop. unfold seg_width in *. rewrite Hone. assert (0 <= fst (sizeBytes (seg_size seg))) by (destruct Hz as [-> | ->]; by vm_compute). lia.
      + apply wp_bind, wp_gets. destruct (put_at_spec (bigEndian (mem s1)) buf n (seg_size seg) v Hls Hn) as (b1 & E1 & S1).
        { unfold stop, seg_width in Hle. rewrite Hone in Hle. unfold width. lia. }
        rewrite Eo, E1. apply wp_bind, (wp_lift _ b1); [done|]. apply wp_ret. assert (n + width (seg_size seg) = stop) as Es.
        { unfold stop, seg_width. rewrite Hone. unfold width. lia. }
        unfold width in Es, S1. rewrite Es in S1 |- *. split; [exact K1|]. split; [|by split].
        assert (0 <= fst (sizeBytes (seg_size seg))) by (destruct Hz as [-> | ->]; by vm_compute). lia. }
  apply wp_bind. eapply wp_mono; [exact Hw|]. intros [[n1 e] b1] s1 (K1 & Hn1 & S1 & He). pose proof (mframe_ready _ _ K1 Hs) as Hs1.
  destruct e as [e|]; [apply wp_ret; split; [exact K1|]; split; [lia|]; by split|]. rewrite (He eq_refl) in S1 |- *. pose proof S1 as [Lb _].
  eapply wp_mono; [apply (IH b1 stop s1); [done|lia|by rewrite Lb|done]|]. intros r s2 P. rewrite Lb in P.
  eapply (read_post_trans s s1 n stop); [exact K1|lia|exact S1|exact P].
Qed.

Lemma Safe_checkBlockSizes ctx l : Safe (checkBlockSizes fuel ctx l).
Proof.
  unfold checkBlockSizes. generalize 0 at 1. induction l as [|seg l IH]; intros c; cbn [sizes_loop]; [safe|].
  apply Safe_if; [apply IH|]. apply Safe_check; [apply Safe_selectCSW|intros; safe|apply IH].
Qed.

Lemma validateBlockRange_fits a n big : 0 < n -> validateBlockRange a n big = None -> a + n <= 2 ^ 64.
Proof.
  intros Hn. unfold validateBlockRange. destruct (Z.leb_spec n 0); [lia|]. destruct (Z.ltb_spec (2 ^ 64 - 1 - a) (n - 1)); [done|]. lia.
Qed.

Lemma ReadBlock_spec ctx a buf s :
  mready s -> 0 <= a < 2 ^ 64 -> len buf < 2 ^ 63 -> wp (ReadBlock fuel ctx a buf) (read_post s 0 (len buf) buf) s.
Proof.
  intros Hs Ha Hb. unfold ReadBlock. destruct buf as [|x buf0] eqn:Eb.
  { apply wp_ret. split; [reflexivity|]. unfold len. cbn. split; [lia|]. by split. }
  rewrite <- Eb in *. assert (0 < len buf) as Hpos by (rewrite Eb; unfold len; cbn; lia). clear x buf0 Eb. unfold check.
  apply wp_bind. eapply wp_mono; [by apply Safe_checkActive|]. intros e s1 K1. pose proof (mframe_ready _ _ K1 Hs) as Hs1.
  assert (forall s2 e, mframe s s2 -> read_post s 0 (len buf) buf (0, Some e, buf) s2) as Hfail.
  { intros s2 x K. split; [exact K|]. split; [lia|]. by split. }
  destruct e as [e|]; [by apply wp_ret, Hfail|]. apply wp_bind, wp_gets. cbn [id].
  destruct (validateBlockRange _ _ _) as [e|] eqn:Ev; [by apply wp_ret, Hfail|]. apply validateBlockRange_fits in Ev; [|done].
  destruct (blockSegments_tile a (len buf) Ha ltac:(lia) Ev) as [Ht Hok]. apply wp_bind.
  eapply wp_mono; [by apply Safe_checkBlockSizes|]. intros [e|] s2 K2; pose proof (transitivity K1 K2) as K; [by apply wp_ret, Hfail|].
  eapply wp_mono; [eapply readSegments_spec; [exact (mframe_ready _ _ K2 Hs1)|lia|exact Ht|exact Hok]|].
  intros r s3 P. eapply (read_post_trans s s2 0 0); [exact K|lia|done|exact P].
Qed.

(** ** Writing blocks *)

(** The number confirmed is everything on success. *)
Definition write_post (s : MSt W) (stop : Z) (r : Z * err) (s' : MSt W) : Prop :=
  mframe s s' /\ (snd r = None -> fst r = stop).

Lemma Safe_writeBlockRegister ctx a v : Safe (writeBlockRegister fuel ctx a v).
Proof.
  apply Safe_new. eapply Ends_bind; [apply Builds_gets|]. intros m. eapply Ends_bind; [apply Builds_writeAP|]. intros p. by apply Ends_Commit.
Qed.
#[local] Hint Resolve Safe_writeBlockRegister : safe.

Lemma Safe_mark e g : Safe (markBlockWriteIndeterminate (W := W) e g).
Proof.
  unfold markBlockWriteIndeterminate. apply Safe_bind; [|intros; safe]. apply Safe_on_dp. apply Total_bind; [apply Total_gets|]. intros x.
  apply Total_if; [apply Total_smod; auto with tame|apply Total_ret].
Qed.

Lemma write_post_failed s s' n stop e : mframe s s' -> write_post s stop (n, Some e) s'.
Proof. by split. Qed.

Lemma sequence_spec ctx sel vs s :
  mready s -> len vs <= blockWriteChunkWords ->
  wp (on_txn NewTxn;; on_txn (txn_writeAPSequence sel memAPDRW vs);; generation ← on_dp (sget apGeneration);
      e ← on_txn (Commit fuel ctx);
      match e with
      | None => mret (len vs, None)
      | Some e =>
          o ← on_txn (getOp 0);
          if confirmed o =? len vs then mret (len vs, Some e)
          else if uncertainWrite o then e ← markBlockWriteIndeterminate e generation; mret (confirmed o, Some e)
          else mret (confirmed o, Some e)
      end) (write_post s (len vs)) s.
Proof.
  intros Hs Hl. apply wp_bind. eapply wp_mono; [by apply Starts_new|]. intros [] s1 [K1 T1]. pose proof (mframe_ready _ _ K1 Hs) as Hs1.
  apply wp_bind. eapply wp_mono; [apply wp_and; [by apply Builds_writeAPSequence|]|].
  { destruct T1 as (C1 & _). unfold wp, on_txn, txn_writeAPSequence, queue, newResult, mbind, GoM_bind, gets, modify, mret, GoM_ret. cbn. rewrite C1. cbn.
    instantiate (1 := fun _ s' => (0 < length (ops (txn s')))%nat). cbn. rewrite length_app. cbn. lia. }
  intros p s2 [[K2 T2] Hlen]. pose proof (mframe_ready _ _ K2 Hs1) as Hs2. apply wp_bind.
  assert (forall Q, (forall g, Q g s2) -> wp (on_dp (sget apGeneration)) Q s2) as Hsget.
  { intros Q HQ. destruct s2 as [m [h d o c q]]. apply HQ. }
  apply Hsget. intros g. apply wp_bind.
  eapply wp_mono; [eapply Commit_keeps; [done|exact T2|]; unfold txn_limit, blockWriteChunkWords in *; lia|].
  intros [e|] s3 [K3 L3]; pose proof (transitivity K1 (transitivity K2 K3)) as K; [|apply wp_ret; split; [exact K|done]].
  apply wp_bind. eapply wp_mono; [apply on_txn_wp, getOp_spec; unfold len; lia|]. intros o s4 (x & -> & -> & _).
  assert (mkMSt (mem s3) (txn s3) = s3) as -> by (by destruct s3).
  destruct (_ =? _); [by apply wp_ret, write_post_failed|]. destruct (uncertainWrite o); [|by apply wp_ret, write_post_failed].
  apply wp_bind. eapply wp_mono; [apply Safe_mark; exact (mframe_ready _ _ K Hs)|]. intros e' s5 K5. apply wp_ret, write_post_failed.
  exact (transitivity K K5).
Qed.

Lemma writeBlockValues_spec ctx a vs s :
  mready s -> len vs <= blockWriteChunkWords -> wp (writeBlockValues fuel ctx a vs) (write_post s (len vs)) s.
Proof.
  intros Hs Hl. unfold writeBlockValues, check. apply wp_bind, wp_gets, wp_bind. cbn [id].
  eapply wp_mono; [apply (Safe_if (largeAddress (mem s))); [|apply Safe_ret|done]|].
  { apply Safe_bind; [by apply Safe_mmod|]. intros _. apply Safe_writeBlockRegister. }
  intros [e|] s1 K1; pose proof (mframe_ready _ _ K1 Hs) as Hs1; [by apply wp_ret, write_post_failed|].
  apply wp_bind. eapply wp_mono; [by apply Safe_mmod|]. intros [] s2 K2. pose proof (mframe_ready _ _ K2 Hs1) as Hs2.
  apply wp_bind. eapply wp_mono; [by apply Safe_writeBlockRegister|]. intros [e|] s3 K3; pose proof (transitivity K1 (transitivity K2 K3)) as K.
  { by apply wp_ret, write_post_failed. }
  eapply wp_mono; [apply sequence_spec; [exact (mframe_ready _ _ K3 Hs2)|done]|]. intros r s4 [K4 E]. split; [exact (transitivity K K4)|exact E].
Qed.

Lemma writeEach_loop_spec ctx a w i n vs s : mready s -> wp (writeEach_loop fuel ctx a w i n vs) (write_post s (n + len vs)) s.
Proof.
  revert i n s. induction vs as [|v vs IH]; intros i n s Hs; cbn [writeEach_loop].
  { apply wp_ret. split; [reflexivity|]. intros _. unfold len. cbn. lia. }
  apply wp_bind. eapply wp_mono; [apply writeBlockValues_spec; [done|unfold len, blockWriteChunkWords; cbn; lia]|]. intros [c [e|]] s1 [K1 E1].
  - by apply wp_ret, write_post_failed.
  - cbn in E1. rewrite (E1 eq_refl). eapply wp_mono; [apply IH; exact (mframe_ready _ _ K1 Hs)|]. intros r s2 [K2 E2].
    split; [exact (transitivity K1 K2)|]. intros Hr. rewrite (E2 Hr). unfold len. cbn. lia.
Qed.

Lemma writeBlockChunk_spec ctx a z inc vs s :
  mready s -> len vs <= blockWriteChunkWords -> wp (writeBlockChunk fuel ctx a z inc vs) (write_post s (len vs)) s.
Proof.
  intros Hs Hl. unfold writeBlockChunk, check. apply wp_bind. eapply wp_mono; [by apply Safe_selectCSW|]. intros e s1 K1.
  pose proof (mframe_ready _ _ K1 Hs) as Hs1. destruct e as [e|].
  - destruct (_ && _); [|by apply wp_ret, write_post_failed]. unfold writeWordsWithoutIncrement, check. apply wp_bind.
    eapply wp_mono; [by apply Safe_selectCSW|]. intros [x|] s2 K2; pose proof (transitivity K1 K2) as K; [by apply wp_ret, write_post_failed|].
    eapply wp_mono; [apply writeEach_loop_spec; exact (mframe_ready _ _ K2 Hs1)|]. intros r s3 [K3 E3].
    split; [exact (transitivity K K3)|]. intros Hr. rewrite (E3 Hr). lia.
  - eapply wp_mono; [by apply writeBlockValues_spec|]. intros r s2 [K2 E2]. split; [exact (transitivity K1 K2)|exact E2].
Qed.

Lemma blockWriteValue_some be src a z : lane_size z -> width z <= len src -> is_Some (blockWriteValue be src a z).
Proof.
  intros Hs Hl. unfold blockWriteValue, prefix, len in *.
  destruct Hs as [->|[->| ->]];
    [change (Size8 =? Size8) with true; change (width Size8) with 1 in *
    |change (Size16 =? Size8) with false; change (Size16 =? Size16) with true; change (width Size16) with 2 in *
    |change (Size32 =? Size8) with false; change (Size32 =? Size16) with false; change (width Size32) with 4 in *];
    cbv iota; (rewrite (proj2 (Nat.leb_le _ _)) by lia); by eexists.
Qed.

Lemma chunk_values_spec be buf off a z n :
  lane_size z -> 0 <= off -> off + width z * Z.of_nat n <= len buf ->
  exists vs, chunk_values be buf off a z n = Some vs /\ length vs = n.
Proof.
  intros Hs. assert (0 < width z) as Hw by (by destruct Hs as [->|[->| ->]]).
  revert off a. induction n as [|n IH]; intros off a Ho Hl; cbn [chunk_values]; [by exists []|].
  rewrite (proj2 (Z.ltb_ge off 0)), (proj2 (Z.ltb_ge (len buf) off)) by nia. cbn [orb].
  destruct (blockWriteValue_some be (drop (Z.to_nat off) buf) a z Hs) as [v ->].
  { unfold len in *. rewrite length_drop. nia. }
  cbn [mbind option_bind]. fold (width z). destruct (IH (off + width z) (uint64 (a + width z))) as (vs & -> & L); [lia|nia|].
  exists (v :: vs). cbn. by rewrite L.
Qed.

Lemma writeSegment_loop_spec turns ctx buf seg limit inc first n s :
  mready s -> lane_size (seg_size seg) -> 1 <= limit <= blockWriteChunkWords -> 0 <= first -> 0 <= seg_offset seg ->
  seg_offset seg + width (seg_size seg) * seg_count seg <= len buf -> seg_count seg - first <= Z.of_nat turns ->
  n = seg_offset seg + width (seg_size seg) * Z.min first (seg_count seg) ->
  wp (writeSegment_loop fuel turns ctx buf seg limit inc first n) (write_post s (seg_offset seg + width (seg_size seg) * seg_count seg)) s.
Proof.
  intros Hs Hz Hlim. assert (0 < width (seg_size seg)) as Hw by (by destruct Hz as [->|[->| ->]]).
  revert first n s Hs. induction turns as [|turns IH]; intros first n s Hs Hf Ho Hl Ht Hn; cbn [writeSegment_loop].
  { apply wp_ret. split; [reflexivity|]. intros _. cbn. nia. }
  destruct (Z.ltb_spec first (seg_count seg)) as [Hlt|Hge].
  2: { apply wp_ret. split; [reflexivity|]. intros _. cbn. nia. }
  set (c := Z.min (seg_count seg - first) limit). assert (1 <= c <= limit) as Hc by (unfold c; lia). fold (width (seg_size seg)).
  apply wp_bind, wp_gets, wp_bind.
  destruct (chunk_values_spec (bigEndian (mem s)) buf (seg_offset seg + first * width (seg_size seg))
    (uint64 (seg_address seg + first * width (seg_size seg))) (seg_size seg) (Z.to_nat c) Hz) as (vs & E & L); [nia|unfold c in *; nia|].
  apply (wp_lift _ vs); [exact E|]. apply wp_bind.
  eapply wp_mono; [apply writeBlockChunk_spec; [done|unfold len; lia]|]. intros [k [e|]] s1 [K1 E1].
  - by apply wp_ret, write_post_failed.
  - cbn in E1. rewrite (E1 eq_refl). eapply wp_mono; [apply IH|].
    + exact (mframe_ready _ _ K1 Hs).
    + lia.
    + done.
    + done.
    + lia.
    + unfold len. rewrite L, Hn. unfold c in *. nia.
    + intros r s2 [K2 E2]. split; [exact (transitivity K1 K2)|exact E2].
Qed.

Lemma seg_ok_lane seg : seg_ok seg -> lane_size (seg_size seg).
Proof. intros (_ & _ & Hk). destruct (autoIncrement seg); [destruct Hk as [-> _]; by right; right|destruct Hk as [_ [-> | ->]]; [by left|by right; left]]. Qed.

Lemma writeSegments_spec ctx a l buf n s :
  mready s -> 0 <= n -> tiles a n l (len buf) -> Forall seg_ok l -> wp (writeSegments fuel ctx buf l n) (write_post s (len buf)) s.
Proof.
  revert n s. induction l as [|seg l IH]; intros n s Hs Hn Ht Hok; cbn [writeSegments].
  { cbn in Ht. subst n. apply wp_ret. split; [reflexivity|]. by intros _. }
  destruct Ht as (Eo & Ea & Ht). apply Forall_cons in Hok as [Hseg Hok]. pose proof (tiles_le _ _ _ _ Hok Ht) as Hle.
  pose proof (seg_ok_lane _ Hseg) as Hz. assert (0 < width (seg_size seg)) as Hw by (by destruct Hz as [->|[->| ->]]).
  destruct Hseg as (Hc & _). change (seg_width seg) with (width (seg_size seg)) in *. rewrite <- Eo in Ht, Hle.
  apply wp_bind. unfold writeBlockSegment. eapply wp_mono.
  { destruct (autoIncrement seg); apply writeSegment_loop_spec; try done; unfold blockWriteChunkWords; lia. }
  intros [n1 [e|]] s1 [K1 E1]; [by apply wp_ret, write_post_failed|]. cbn in E1. rewrite (E1 eq_refl).
  eapply wp_mono; [apply IH; [exact (mframe_ready _ _ K1 Hs)|nia|exact Ht|exact Hok]|]. intros r s2 [K2 E2].
  split; [exact (transitivity K1 K2)|exact E2].
Qed.

Lemma WriteBlock_spec ctx a buf s :
  mready s -> 0 <= a < 2 ^ 64 -> len buf < 2 ^ 63 -> wp (WriteBlock fuel ctx a buf) (write_post s (len buf)) s.
Proof.
  intros Hs Ha Hb. unfold WriteBlock. destruct buf as [|x buf0] eqn:Eb.
  { apply wp_ret. split; [reflexivity|]. by intros _. }
  rewrite <- Eb in *. assert (0 < len buf) as Hpos by (rewrite Eb; unfold len; cbn; lia). clear x buf0 Eb. unfold check.
  apply wp_bind. eapply wp_mono; [by apply Safe_checkActive|]. intros e s1 K1. pose proof (mframe_ready _ _ K1 Hs) as Hs1.
  destruct e as [e|]; [by apply wp_ret, write_post_failed|]. apply wp_bind, wp_gets. cbn [id].
  destruct (validateBlockRange _ _ _) as [e|] eqn:Ev; [by apply wp_ret, write_post_failed|]. apply validateBlockRange_fits in Ev; [|done].
  destruct (blockSegments_tile a (len buf) Ha ltac:(lia) Ev) as [Ht Hok]. apply wp_bind.
  eapply wp_mono; [by apply Safe_checkBlockSizes|]. intros [e|] s2 K2; pose proof (transitivity K1 K2) as K; [by apply wp_ret, write_post_failed|].
  eapply wp_mono; [eapply writeSegments_spec; [exact (mframe_ready _ _ K2 Hs1)|lia|exact Ht|exact Hok]|].
  intros r s3 [K3 E3]. split; [exact (transitivity K K3)|exact E3].
Qed.

(** ** Restoring *)

Definition same_flags (m m' : MemAP) : Prop :=
  largePending m' = largePending m /\ restoreCSW m' = restoreCSW m /\ restoreTAR m' = restoreTAR m /\ restoreTARHI m' = restoreTARHI m.

(** Clears only its own flag, and only when the register was restored. *)
Lemma restoreRegister_spec ctx pending clear reg v s :
  mready s -> ctx_nil ctx = false -> (forall m, handle (clear m) = handle m) ->
  wp (restoreRegister fuel ctx pending clear reg v) (fun e s' => mframe s s' /\
    mem s' = (if pending (mem s) then match e with None => clear (mem s) | Some _ => mem s end else mem s) /\
    (pending (mem s) = false -> e = None)) s.
Proof.
  intros Hs Hc Hclear. unfold restoreRegister, check. apply wp_bind, wp_gets. cbn [id]. destruct (pending (mem s)); cbn [negb]; [|by apply wp_ret].
  apply wp_bind. eapply wp_mono; [apply on_txn_wp, wp_on_core, (Total_writeAP fuel false); [done|apply Hs]|].
  intros e s1 (x & -> & c & -> & K). assert (mframe s (mkMSt (mem s) (set_core c (txn s)))) as K1 by (split; [exact K|by split]).
  destruct e as [e|]; [by apply wp_ret|]. apply wp_bind, wp_modify, wp_ret. split; [|done].
  split; [exact K|]. split; [reflexivity|apply Hclear].
Qed.

Lemma Safe_prepareRelease ctx : Safe (prepareRelease fuel ctx).
Proof.
  unfold prepareRelease. destruct (ctx_nil ctx) eqn:Hc; [safe|]. apply Safe_check; [apply Safe_on_dp; by apply Total_ctxErr|intros; safe|].
  apply Safe_bind; [safe|]. intros m. apply Safe_bind; [apply Safe_sget|]. intros st. do 3 (apply Safe_if; [safe|]).
  - apply Safe_on_dp. apply Total_reenter; auto using Total_abortWait.
  - safe.
Qed.

(** Nothing is left to restore. *)
Definition clean (m : MemAP) : Prop := restoreCSW m = false /\ restoreTAR m = false /\ restoreTARHI m = false.

Lemma prepareRelease_live ctx s : mready s -> wp (prepareRelease fuel ctx) (fun e s' => mframe s s' /\ (e = None -> ctx_nil ctx = false)) s.
Proof.
  intros Hs. destruct (ctx_nil ctx) eqn:Hc; [|eapply wp_mono; [by apply Safe_prepareRelease|]; by intros].
  unfold prepareRelease. rewrite Hc. by apply wp_ret.
Qed.

Lemma Safe_refreshRestore : Safe (refreshRestore (W := W)).
Proof. unfold refreshRestore. apply Safe_bind; [safe|]. intros m. apply Safe_bind; [apply Safe_sget|]. intros g. apply Safe_if; [by apply Safe_mmod|safe]. Qed.

Lemma Safe_restoreRegister ctx pending clear reg v :
  ctx_nil ctx = false -> (forall m, handle (clear m) = handle m) -> Safe (restoreRegister fuel ctx pending clear reg v).
Proof. intros Hc Hh s Hs. eapply wp_mono; [by apply restoreRegister_spec|]. by intros e s' [K _]. Qed.

Lemma Release_body_clean ctx s : mready s -> wp (memap_Release_body fuel ctx) (fun e s' => mframe s s' /\ (e = None -> clean (mem s'))) s.
Proof.
  intros Hs. unfold memap_Release_body, check. apply wp_bind. eapply wp_mono; [by apply prepareRelease_live|]. intros [e|] s1 [K1 Hc]; [by apply wp_ret|].
  specialize (Hc eq_refl). pose proof (mframe_ready _ _ K1 Hs) as Hs1. apply wp_bind. eapply wp_mono; [by apply Safe_refreshRestore|].
  intros [] s2 K2. pose proof (mframe_ready _ _ K2 Hs1) as Hs2. pose proof (transitivity K1 K2) as K12. apply wp_bind, wp_gets, wp_bind. cbn [id].
  eapply wp_mono; [apply (Safe_if (largePending (mem s2))); [|apply Safe_ret|done]|].
  { apply Safe_check; [unfold restore_CSW; apply Safe_bind; [safe|]; intros m; by apply Safe_restoreRegister|intros; safe|safe]. }
  intros [e|] s3 K3; pose proof (transitivity K12 K3) as K13; [by apply wp_ret|]. pose proof (mframe_ready _ _ K3 Hs2) as Hs3.
  apply wp_bind. unfold restore_TARHI. apply wp_bind, wp_gets. eapply wp_mono; [by apply restoreRegister_spec|]. intros e1 s4 (K4 & M4 & N4).
  pose proof (mframe_ready _ _ K4 Hs3) as Hs4. apply wp_bind. unfold restore_TAR. apply wp_bind, wp_gets.
  eapply wp_mono; [by apply restoreRegister_spec|]. intros e2 s5 (K5 & M5 & N5). pose proof (mframe_ready _ _ K5 Hs4) as Hs5.
  apply wp_bind. unfold restore_CSW. apply wp_bind, wp_gets. eapply wp_mono; [by apply restoreRegister_spec|]. intros e3 s6 (K6 & M6 & N6).
  apply wp_ret. split; [exact (transitivity K13 (transitivity K4 (transitivity K5 K6)))|]. intros E. apply errors_Join_None in E.
  apply Forall_cons in E as [-> E]. apply Forall_cons in E as [-> E]. apply Forall_cons in E as [-> _]. 
  assert (restoreTARHI (mem s4) = false) as H4 by (rewrite M4; by destruct (restoreTARHI (mem s3)) eqn:?).
  assert (restoreTAR (mem s5) = false /\ restoreTARHI (mem s5) = false) as [H5 H5'] by (rewrite M5; by destruct (restoreTAR (mem s4)) eqn:?).
  unfold clean. rewrite M6. by destruct (restoreCSW (mem s5)) eqn:?.
Qed.

Lemma memap_Release_clean ctx s :
  mready s -> wp (memap_Release fuel ctx) (fun e s' => mframe s s' /\ (e = None -> m_dp (mem s) = true -> clean (mem s'))) s.
Proof.
  intros Hs. unfold memap_Release. apply wp_bind, wp_gets. cbn [id]. destruct (m_dp (mem s)) eqn:Ed; cbn [negb]; [|by apply wp_ret].
  destruct (negb (restoreCSW (mem s)) && negb (restoreTAR (mem s)) && negb (restoreTARHI (mem s))) eqn:Ef.
  { apply wp_ret. split; [reflexivity|]. intros _ _. apply andb_true_iff in Ef as [Ef F3]. apply andb_true_iff in Ef as [F1 F2].
    split_and!; by apply negb_true_iff. }
  apply wp_bind. eapply wp_mono; [by apply Release_body_clean|]. intros e s1 [K1 C1]. pose proof (mframe_ready _ _ K1 Hs) as Hs1.
  eapply wp_mono; [apply on_txn_wp, wp_on_core, wp_and; [apply callerError_none|apply (Total_callerError fuel false), Hs1]|].
  intros x s2 (y & -> & c & -> & [_ N] & K2). split; [|intros ->; auto]. eapply transitivity; [exact K1|]. split; [exact K2|by split].
Qed.

(** An active handle has a live context. *)
Lemma checkActive_live ctx s : mready s -> wp (checkActive ctx) (fun e s' => mframe s s' /\ (e = None -> ctx_nil ctx = false)) s.
Proof.
  intros Hs. apply wp_and; [by apply Safe_checkActive|]. unfold checkActive. apply wp_bind, wp_gets. cbn [id].
  destruct (negb (m_dp (mem s))); [by apply wp_ret|]. apply wp_bind. destruct s as [m [h d o c q]]. cbn.
  destruct (negb _); [by apply wp_ret|]. destruct (negb _); [by apply wp_ret|]. apply wp_ret. by apply requireConnected_live.
Qed.

Lemma Safe_memap_ReadDebugBase ctx : Safe (memap_ReadDebugBase fuel ctx).
Proof.
  intros s Hs. unfold memap_ReadDebugBase, check. apply wp_bind. eapply wp_mono; [by apply checkActive_live|]. intros [e|] s1 [K1 Hc]; [by apply wp_ret|].
  specialize (Hc eq_refl). eapply wp_mono with (P := fun _ s' => mframe s1 s'); [|intros r s2 K2; exact (transitivity K1 K2)].
  pose proof (mframe_ready _ _ K1 Hs) as Hs1. revert s1 Hs1 K1.
  enough (forall s1, mready s1 -> wp (e ← on_dp (ctxErr ctx); _ e) (fun _ s' => mframe s1 s') s1) as G by (intros; by apply G).
  apply Safe_bind; [apply Safe_on_dp; by apply Total_ctxErr|]. intros [e|]; [safe|]. apply Safe_bind; [safe|]. intros m.
  apply Safe_bind; [apply Safe_on_dp; by apply Total_readAP|]. intros [low e]. apply Safe_bind; [apply Safe_on_dp, Total_callerError|].
  intros [e'|]; [safe|]. destruct (debugBasePresent low _) as [[|] [e'|]]; [safe| |safe|safe]. cbv zeta. apply Safe_if; [|safe].
  apply Safe_bind; [apply Safe_on_dp; by apply Total_readAP|]. intros [high e2]. apply Safe_bind; [apply Safe_on_dp, Total_callerError|]. intros e3. safe.
Qed.
End MemFacts.
