(* ===== verification/DapProps.v ===== *)
(** * The debug access port's contract

    Plans and transactions, the lifecycle of a debug port over SWD or over a
    register transport, and MEM-AP blocks.  Witnesses use a bench: a port that
    performs every request, and a clock that runs down. *)

From S2P Require Import Prelude Go Bits JtagTap JtagConn JtagChain DapTypes DapErrors DapPlan DapBlock DapBlockFacts DapPort DapMemAP DapMemFacts.
From S2P Require Import DapJtag DapSwd DapAccess DapLifecycle DapTxn DapSwdFacts DapAccessFacts DapTxnFacts.
From S2P Require Import DapPlanFacts DapTxnRefine.
Local Open Scope Z_scope.

(** ** A bench for the witnesses *)

(** One access-port word; CTRL/STAT acknowledges power. *)
Record Word := mkWord { word_value : Z }.

#[global] Instance Word_Registers : Registers Word := {|
  ap_read := fun _ _ t => (word_value t, t);
  ap_write := fun _ _ v _ => mkWord v;
  dp_read := fun _ a t => (if a =? 0 then 0x2ba01477 else 0xf0000000, t);
  dp_write := fun _ _ _ t => t
|}.

Record Bench := mkBench { ticks : nat; bench_phys : Phys Word }.

#[global] Instance Bench_Env : Env Bench := {|
  ctx_Err := fun _ w => match ticks w with O => (Some DeadlineExceeded, w) | S n => (None, mkBench n (bench_phys w)) end
|}.

#[global] Instance Bench_Swd : SwdLink Bench := {|
  swd_Connect := fun _ _ w => ((0x2ba01477, None), w);
  swd_Release := fun _ w => (None, w);
  swd_CleanupPending := fun _ => false;
  swd_Commit := fun _ l w =>
    match exec_requests false l (bench_phys w) with
    | Some (vs, m) => (((fun v => (v, None)) <$> vs, None), mkBench (ticks w) m)
    | None => (((fun _ => (0, Some (New "bench: no such access"))) <$> l, Some (New "bench: no such access")), w)
    end
|}.

#[global] Instance Bench_Register : RegisterTransport Bench := {|
  reg_Connect := fun _ w => ((0x2ba01477, None), w);
  reg_Release := fun _ w => (None, w);
  reg_CleanupPending := fun _ => false;
  reg_ReadDP := fun _ _ w => ((0, RegisterCompleted, None), w);
  reg_WriteDP := fun _ _ _ w => ((RegisterCompleted, None), w);
  reg_ReadAP := fun _ _ w => ((0, RegisterCompleted, None), w);
  reg_WriteAP := fun _ _ _ w => ((RegisterCompleted, None), w)
|}.

#[global] Instance Bench_Chain : ChainLink Bench := {|
  chain_Layout := fun _ => [];
  chain_Connect := fun _ w => (None, w);
  chain_TAP := fun i _ => (mkTAP i 0, None);
  chain_Release := fun _ w => (None, w);
  chain_CleanupPending := fun _ => false;
  tap_ScanIR := fun _ _ d w => ((d, None), w);
  tap_ScanDR := fun _ _ d _ w => ((d, None), w)
|}.

#[global] Instance Bench_Clock : Clock Bench.
Proof.
  refine {| budget := ticks |}; intros; try (cbn; lia).
  - destruct w as [[|n] m]; cbn; lia.
  - unfold swd_Commit, Bench_Swd. destruct (exec_requests false l (bench_phys w)) as [[vs m]|]; cbn; lia.
Defined.

Definition bench (dp : DebugPort) : PSt Bench :=
  mkPSt dp false false (mkJtag 0 0 (mkTAP 0 0) false false false) [] (mkBench 5 (mkPhys (Some 0) true 7 7 (mkWord 42))).

Definition bench_idle : PSt Bench := bench (NewDebugPort swdBinding 3 1).

(** The bench after [Connect]. *)
Definition bench_info : Identity := mkIdentity (fst (DecodeDPIDR 0x2ba01477)) 0.
Definition bench_dp : DebugPort :=
  mkDP swdBinding 3 1 bench_info true 0 bench_info true
    (mkState sessionConnected responseSimple (mkSelect 0 true) noSelect false false 0 0 0) [].

Lemma bench_deadline ctx : deadline (W := Bench) ctx.
Proof. intros [[|n] m]; cbn; [done|lia]. Qed.

Lemma bench_performs : performs_requests (W := Bench) false bench_phys.
Proof. intros ctx l w vs m E. exists (mkBench (ticks w) m). cbn. by rewrite E. Qed.

Lemma bench_reports : reports (W := Bench).
Proof.
  intros ctx l w rs w'. cbn. destruct (exec_requests false l (bench_phys w)) as [[vs m]|]; [|done].
  intros [= <- <-]. by apply Forall_fmap, Forall_true.
Qed.

(** A read of the word, a write and two posted reads. *)
Definition bench_sel : APSel := mkSel 1 0 false.
Definition bench_ops : list txnOp :=
  [apOp txnReadRawAP bench_sel 0x0c 0 [] false 0%nat; apOp txnWriteRawAP bench_sel 0x0c 9 [] false 1%nat;
   apOp txnReadAPSequential bench_sel 0x0c 0 [] true 2%nat; apOp txnReadAPSequential bench_sel 0x0c 0 [] true 3%nat].
Definition bench_txn : XSt Bench := mkX (replicate 4 (mkTxnResult false 0 None)) true bench_ops false (bench bench_dp).

(** ** Plans and transactions *)

(** C5: planning is correct.  On a port whose selection the planner knows, the
    requests planned for a transaction (SELECT writes, their settling reads,
    pipelined and posted reads included) never reach a bank or an access port
    through an unsettled or unknown selection, and they deliver to each operation
    the value it has when the operations are performed one after the other,
    leaving the same registers behind. *)
Theorem plan_refines {T} `{Registers T} dp ops (m : Phys T) :
  is_jtag dp = false -> Forall (plannable dp) ops -> agrees (newSWDTxnPlanner dp) m ->
  exists m', exec_steps (v3 dp) (plan ops (newSWDTxnPlanner dp)) m = Some (fst (exec_ops dp 0 ops (rdbuff m, regs m)), m') /\
    (rdbuff m', regs m') = snd (exec_ops dp 0 ops (rdbuff m, regs m)).
Proof.
  intros Hj Hops Ha.
  destruct (plan_loop_runs dp Hj (length ops) 0 ops (newSWDTxnPlanner dp) m (le_n _) eq_refl Ha Hops) as (m' & (_ & _ & new & E & R) & F).
  exists m'. split; [|exact F]. unfold plan. by rewrite E.
Qed.

Lemma bench_plannable : Forall (plannable bench_dp) bench_ops.
Proof. repeat constructor; unfold op_wf; cbn; first [lia|done]. Qed.

Lemma plan_refines_witness :
  exists m', exec_steps (v3 bench_dp) (plan bench_ops (newSWDTxnPlanner bench_dp)) (mkPhys (Some 0) true 7 7 (mkWord 42)) =
      Some ([(0, 42); (1, 0); (2, 9); (3, 9)], m') /\ (rdbuff m', regs m') = (9, mkWord 9).
Proof.
  destruct (plan_refines bench_dp bench_ops (mkPhys (Some 0) true 7 7 (mkWord 42)) eq_refl bench_plannable) as (m' & E & F); [done|].
  exists m'. split; [exact E|exact F].
Defined.

(** C6: committing a transaction over SWD or a register transport always
    returns, within a fuel proportional to its operations and the allowed WAITs
    and whatever the transport answers (WAIT, FAULT, parity and transport errors,
    wrong acknowledgements); then every queued operation has its result, the
    transaction is committed and the port's state is still consistent. *)
Theorem txn_commit_resolves {W} `{Clock W} `{ChainLink W} fuel ctx s :
  xpre fuel s -> reports (W := W) -> fuelled fuel s (ops s) -> committed s = false ->
  exists e s', Commit fuel ctx s = Done (e, s') /\ committed s' = true /\
    (forall o, o ∈ ops s -> exists r, heap s' !! result o = Some r /\ resolved r = true) /\
    (consistent (core s) -> consistent (core s')).
Proof.
  intros Hs Hr Hf Hc. apply (txn_Commit_spec fuel ctx s) in Hs; [|done|done|done]. apply wp_done in Hs as (e & s' & E & K & G).
  exists e, s'. split; [exact E|]. pose proof K as ((_ & K1 & K2) & Er & _ & Ec & _). split; [exact Ec|]. split.
  - intros o (i & Ho)%list_elem_of_lookup. apply (f_equal (fun l => l !! i)) in Er. rewrite !list_lookup_fmap in Er. cbn in Er.
    rewrite Ho in Er. destruct (ops s' !! i) as [o'|] eqn:Ho'; [|done]. injection Er as <-.
    apply (G (Z.of_nat i)); [lia|done|]. by rewrite Nat2Z.id.
  - intros [A B]. split; auto.
Qed.

Lemma bench_pre : xpre 100 bench_txn.
Proof. split; [by repeat split; cbn; lia|]. repeat constructor; cbn; lia. Qed.

Lemma txn_commit_resolves_witness :
  exists e s', Commit 100 Background bench_txn = Done (e, s') /\ committed s' = true /\
    (forall o, o ∈ ops bench_txn -> exists r, heap s' !! result o = Some r /\ resolved r = true) /\
    (consistent (core bench_txn) -> consistent (core s')).
Proof. apply (txn_commit_resolves 100 Background bench_txn); [apply bench_pre|apply bench_reports|vm_compute; done|done]. Defined.

(** C2: over a link that performs the requests it is given, a committed
    transaction means its operations: every caller reads from its result, without
    error, the value its operation has when the operations are performed one
    after the other. *)
Theorem txn_commit_refines {W} `{Env W} `{SwdLink W} `{RegisterTransport W} `{ChainLink W} {T} `{Registers T}
    (phys : W -> Phys T) fuel ctx s :
  performs_requests (v3 (port (core s))) phys -> committed s = false -> committable fuel ctx s ->
  agrees (newSWDTxnPlanner (port (core s))) (phys (world (core s))) ->
  exists e s', Commit fuel ctx s = Done (e, s') /\
    forall i o, ops s !! i = Some o ->
      exists v r, fst (exec_ops (port (core s)) 0 (ops s) (rdbuff (phys (world (core s))), regs (phys (world (core s))))) !! i = Some (Z.of_nat i, v) /\
        heap s' !! result o = Some r /\ ReadResult_Value r = (v, None).
Proof.
  intros Hp Hc Hs Ha. pose proof Hs as [_ (Hj & _) _ _ [Hops _] _ _].
  destruct (plan_loop_runs (port (core s)) Hj (length (ops s)) 0 (ops s) (newSWDTxnPlanner (port (core s))) _ (le_n _) eq_refl Ha Hops)
    as (m' & (_ & _ & new & E1 & E2) & _). cbn [app steps newSWDTxnPlanner] in E1. subst new.
  pose proof (Commit_exact fuel _ ctx s _ (port_performs _ phys ctx Hp) Hc Hs (ex_intro _ m' E2) (exec_ops_in_order _ _ _) (exec_ops_length _ _ _ _)) as Hw.
  apply wp_done in Hw as (e & s' & E & V & _).
  exists e, s'. split; [exact E|]. intros i o Ho. destruct (V i o Ho) as (v & Hd & Hh). by exists v, (mkTxnResult true v None).
Qed.

Lemma bench_committable : committable 100 Background bench_txn.
Proof.
  split; try done; [split; [apply bench_plannable|by repeat constructor]| |cbn; lia].
  split; [by apply (bool_decide_unpack (NoDup (result <$> ops bench_txn)))|]. repeat constructor; by eexists.
Qed.

Lemma bench_agrees : agrees (newSWDTxnPlanner bench_dp) (bench_phys (world (core bench_txn))).
Proof. done. Qed.

Lemma txn_commit_refines_witness :
  exists e s', Commit 100 Background bench_txn = Done (e, s') /\
    forall i o, bench_ops !! i = Some o ->
      exists v r, [(0, 42); (1, 0); (2, 9); (3, 9)] !! i = Some (Z.of_nat i, v) /\
        heap s' !! result o = Some r /\ ReadResult_Value r = (v, None).
Proof.
  destruct (txn_commit_refines bench_phys 100 Background bench_txn bench_performs eq_refl bench_committable bench_agrees) as (e & s' & E & G).
  exists e, s'. split; [exact E|exact G].
Defined.

(** ** The port *)


Lemma bench_port_pre dp : is_jtag dp = false -> 1 <= maxWaits dp <= 3 -> pre (fuel := 100) false (bench dp).
Proof. intros Hj Hw. split; [exact Hj|]. split; [cbn; lia|]. split; [done|cbn; lia]. Qed.






(** ** Memory blocks *)

(** The segments of a memory block tile it: they cover exactly the bytes
    asked for, in order and without overlap, up to the end of the 64-bit address
    space; each is aligned to its access size, runs of words stay inside one
    auto-increment window of TAR, and the rest are single bytes and halfwords. *)
Theorem block_segments_tile a n :
  0 <= a < 2 ^ 64 -> 0 < n < 2 ^ 63 -> a + n <= 2 ^ 64 ->
  tiles a 0 (blockSegments a n) n /\ Forall seg_ok (blockSegments a n).
Proof. apply blockSegments_tile. Qed.

(** Bytes survive the bus: what a block write places in the lanes of DRW
    for an access, a block read of the same access stores back as the same bytes,
    on little- and on big-endian access ports, leaving the rest of the buffer
    alone. *)
Theorem block_values_roundtrip be src dst addr size :
  lane_size size -> (width size | addr) -> bytes src -> width size <= len src -> width size <= len dst ->
  exists drw, blockWriteValue be src addr size = Some drw /\ 0 <= drw < 2 ^ 32 /\
    putBlockValue be dst size (scalar_value be drw addr size) =
    Some (take (Z.to_nat (width size)) src ++ drop (Z.to_nat (width size)) dst).
Proof. apply block_bytes_roundtrip. Qed.

(** ** Memory access ports *)

(** A little-endian handle on the bench's access port. *)
Definition bench_mem : MSt Bench :=
  mkMSt (mkMemAP true bench_sel 0 0 0 0x43800042 0x43800052 0x100 0 false false false false false false false)
    (mkX [] true [] false (bench bench_dp)).

Definition mem_fuel : nat := 1100.

Lemma bench_mready : mready mem_fuel bench_mem.
Proof. split; [|by vm_compute]. split; [done|]. split; [by vm_compute|]. split; [done|]. apply Nat.ltb_lt. by vm_compute. Qed.



(** Writing a block returns, whatever the transport answers, never reads
    beyond the caller's buffer, and reports every byte on success; the port stays
    consistent and the handle keeps what it saved. *)
Theorem memap_write_block {W} `{Clock W} `{ChainLink W} fuel ctx addr buf (s : MSt W) :
  reports (W := W) -> mready fuel s -> 0 <= addr < 2 ^ 64 -> len buf < 2 ^ 63 ->
  exists n e s', WriteBlock fuel ctx addr buf s = Done ((n, e), s') /\ (e = None -> n = len buf) /\
    (consistent (core (txn s)) -> consistent (core (txn s'))) /\ handle (mem s') = handle (mem s).
Proof.
  intros Hr Hs Ha Hb. pose proof (WriteBlock_spec fuel Hr ctx addr buf s Hs Ha Hb) as Hw.
  apply wp_done in Hw as ([n e] & s' & E & ((_ & K1 & K2) & _ & Hh) & He). exists n, e, s'. split_and!; try done. intros [? ?]. split; auto.
Qed.

(** A release of a handle that succeeds has restored every register the
    handle changed; one that fails returns with the saved values kept, so that it
    can be tried again. *)
Theorem memap_release_clean {W} `{Clock W} `{ChainLink W} fuel ctx (s : MSt W) :
  mready fuel s -> m_dp (mem s) = true ->
  exists e s', memap_Release fuel ctx s = Done (e, s') /\ handle (mem s') = handle (mem s) /\
    (e = None -> restoreCSW (mem s') = false /\ restoreTAR (mem s') = false /\ restoreTARHI (mem s') = false) /\
    (consistent (core (txn s)) -> consistent (core (txn s'))).
Proof.
  intros Hs Hd. pose proof (memap_Release_clean fuel ctx s Hs) as Hw. apply wp_done in Hw as (e & s' & E & ((_ & K1 & K2) & _ & Hh) & C).
  exists e, s'. split_and!; try done; [by intros ->; apply C|]. intros [? ?]. split; auto.
Qed.

Definition bench_dirty : MSt Bench := mkMSt (set_restoreCSW true (set_restoreTAR true (mem bench_mem))) (txn bench_mem).

