(* ===== verification/DapSim.v ===== *)
(** * The simulated debug port (dap/sim)

    [Target] answers the requests of the behavioral SWD wire: a debug port with
    its banks and sticky flags, access ports, and MEM-APs over byte memory and
    mapped devices.  Devices belong to the caller: they are an interface over the
    world [W], [RAM] being the one the package provides.  A method's receiver is
    never nil here.  Maps yield zero where nothing was written. *)

From stdpp Require Import gmap.
From S2P Require Import Prelude Go SwdFrame SwdConn DapTypes DapBlock SwdSim.
Local Open Scope Z_scope.

(** ** A state monad without panics *)

Definition ST (S A : Type) : Type := S -> A * S.
#[global] Instance ST_ret S : MRet (ST S) := fun A a s => (a, s).
#[global] Instance ST_bind S : MBind (ST S) := fun A B f m s => let '(a, s) := m s in f a s.
Definition get {S A} (f : S -> A) : ST S A := fun s => (f s, s).
Definition put {S} (f : S -> S) : ST S unit := fun s => (tt, f s).

(** ** Data (target.go, device.go) *)

Definition clearStickyCompare : Z := Z.shiftl 1 1.
Definition clearStickyError : Z := Z.shiftl 1 2.
Definition clearWriteDataError : Z := Z.shiftl 1 3.
Definition clearStickyOverrun : Z := Z.shiftl 1 4.
Definition stickyOverrun : Z := Z.shiftl 1 1.
Definition stickyCompare : Z := Z.shiftl 1 4.
Definition stickyError : Z := Z.shiftl 1 5.
Definition writeDataError : Z := Z.shiftl 1 7.
Definition overrunDetect : Z := Z.shiftl 1 0.
Definition debugPowerRequest : Z := Z.shiftl 1 28.
Definition debugPowerAck : Z := Z.shiftl 1 29.
Definition systemPowerRequest : Z := Z.shiftl 1 30.
Definition systemPowerAck : Z := Z.shiftl 1 31.
Definition dlcrTurnaroundMask : Z := Z.shiftl 3 8.

#[global] Instance APSel_countable : Countable APSel :=
  inj_countable' (fun s => (sel_index s, sel_base s, v2 s)) (fun '(i, b, v) => mkSel i b v) ltac:(by intros []).

(** [start, end] and the device the caller mapped there. *)
Record deviceMapping := mkMapping { map_start : Z; map_end : Z; map_device : nat }.

Inductive largeDataPhase := largeDataIdle | largeDataRead | largeDataWrite.
#[global] Instance largeDataPhase_eq_dec : EqDecision largeDataPhase.
Proof. solve_decision. Defined.

Record accessPort := mkPort {
  devices : list deviceMapping;
  regs : gmap Z Z;
  memory : gmap Z Z;
  memAP : bool;
  sizes : Z;
  largePhase : largeDataPhase;
  largeWord : Z
}.

Definition set_devices x a := mkPort x (regs a) (memory a) (memAP a) (sizes a) (largePhase a) (largeWord a).
Definition set_regs x a := mkPort (devices a) x (memory a) (memAP a) (sizes a) (largePhase a) (largeWord a).
Definition set_memory x a := mkPort (devices a) (regs a) x (memAP a) (sizes a) (largePhase a) (largeWord a).
Definition set_sizes x a := mkPort (devices a) (regs a) (memory a) (memAP a) x (largePhase a) (largeWord a).
Definition set_large x w a := mkPort (devices a) (regs a) (memory a) (memAP a) (sizes a) x w.

(** Reading a Go map. *)
Definition at_ (m : gmap Z Z) (k : Z) : Z := default 0 (m !! k).
Definition reg (a : accessPort) (r : Z) : Z := at_ (regs a) r.
Definition set_reg (r v : Z) (a : accessPort) : accessPort := set_regs (<[r := v]> (regs a)) a.

Record DP := mkDP {
  started : bool;
  debugWords : gmap Z Z;
  dpidr_ : Z;
  ctrlStat : Z;
  dpBanks : list Z;
  dpIDBanks : list Z;
  dpIDBankSet : list bool;
  selectHigh : Z;
  dpBankSet : list bool;
  selectDP : Z;
  rdbuff : Z;
  resend : Z;
  aps : gmap APSel accessPort
}.

Definition set_started x t := mkDP x (debugWords t) (dpidr_ t) (ctrlStat t) (dpBanks t) (dpIDBanks t) (dpIDBankSet t) (selectHigh t) (dpBankSet t) (selectDP t) (rdbuff t) (resend t) (aps t).
Definition set_debugWords x t := mkDP (started t) x (dpidr_ t) (ctrlStat t) (dpBanks t) (dpIDBanks t) (dpIDBankSet t) (selectHigh t) (dpBankSet t) (selectDP t) (rdbuff t) (resend t) (aps t).
Definition set_ctrlStat x t := mkDP (started t) (debugWords t) (dpidr_ t) x (dpBanks t) (dpIDBanks t) (dpIDBankSet t) (selectHigh t) (dpBankSet t) (selectDP t) (rdbuff t) (resend t) (aps t).
Definition set_dpBank i v t := mkDP (started t) (debugWords t) (dpidr_ t) (ctrlStat t) (<[Z.to_nat i := v]> (dpBanks t)) (dpIDBanks t) (dpIDBankSet t) (selectHigh t) (dpBankSet t) (selectDP t) (rdbuff t) (resend t) (aps t).
Definition mark_dpBank i t := mkDP (started t) (debugWords t) (dpidr_ t) (ctrlStat t) (dpBanks t) (dpIDBanks t) (dpIDBankSet t) (selectHigh t) (<[Z.to_nat i := true]> (dpBankSet t)) (selectDP t) (rdbuff t) (resend t) (aps t).
Definition set_dpIDBank i v t := mkDP (started t) (debugWords t) (dpidr_ t) (ctrlStat t) (dpBanks t) (<[Z.to_nat i := v]> (dpIDBanks t)) (<[Z.to_nat i := true]> (dpIDBankSet t)) (selectHigh t) (dpBankSet t) (selectDP t) (rdbuff t) (resend t) (aps t).
Definition set_selectHigh x t := mkDP (started t) (debugWords t) (dpidr_ t) (ctrlStat t) (dpBanks t) (dpIDBanks t) (dpIDBankSet t) x (dpBankSet t) (selectDP t) (rdbuff t) (resend t) (aps t).
Definition set_selectDP x t := mkDP (started t) (debugWords t) (dpidr_ t) (ctrlStat t) (dpBanks t) (dpIDBanks t) (dpIDBankSet t) (selectHigh t) (dpBankSet t) x (rdbuff t) (resend t) (aps t).
Definition set_rdbuff x t := mkDP (started t) (debugWords t) (dpidr_ t) (ctrlStat t) (dpBanks t) (dpIDBanks t) (dpIDBankSet t) (selectHigh t) (dpBankSet t) (selectDP t) x (resend t) (aps t).
Definition set_resend x t := mkDP (started t) (debugWords t) (dpidr_ t) (ctrlStat t) (dpBanks t) (dpIDBanks t) (dpIDBankSet t) (selectHigh t) (dpBankSet t) (selectDP t) (rdbuff t) x (aps t).
Definition set_aps x t := mkDP (started t) (debugWords t) (dpidr_ t) (ctrlStat t) (dpBanks t) (dpIDBanks t) (dpIDBankSet t) (selectHigh t) (dpBankSet t) (selectDP t) (rdbuff t) (resend t) x.

(** [New] *)
Definition NewTarget (dpidr : Z) : DP :=
  mkDP false ∅ dpidr 0 (replicate 16 0) (replicate 4 0) (replicate 4 false) 0 (replicate 16 false) 0 0 0 ∅.

Definition version (t : DP) : Z := Z.land (Z.shiftr (dpidr_ t) 12) 15.
Definition dpBank (t : DP) (i : Z) : Z := default 0 (dpBanks t !! Z.to_nat i).
Definition dpIDBank (t : DP) (i : Z) : Z := default 0 (dpIDBanks t !! Z.to_nat i).

(** ** Overrun detection and sticky flags *)

Definition SetOverrunDetect (enabled : bool) (t : DP) : DP :=
  set_ctrlStat (if enabled then Z.lor (ctrlStat t) overrunDetect else Z.ldiff (ctrlStat t) overrunDetect) t.

Definition simOverrunDetect (t : DP) : bool := any_bits (ctrlStat t) overrunDetect.

Definition simObserveResponse (t : DP) : DP :=
  if simOverrunDetect t then set_ctrlStat (Z.lor (ctrlStat t) stickyOverrun) t else t.

Definition simObserveLineReset (t : DP) : DP :=
  let t := set_dpBank 1 0 (set_started true t) in
  let t := if version t =? 3 then set_selectDP (Z.ldiff (selectDP t) 15) t else t in
  if simOverrunDetect t then set_ctrlStat (Z.lor (ctrlStat t) stickyOverrun) t else t.

Definition isStickyExempt (req : Request) (selectDP : Z) : bool :=
  if AP req then false
  else if negb (Read_ req) then Addr req =? 0
  else (Addr req =? 0) || ((Addr req =? 4) && (Z.land selectDP 0x0f =? 0)).

Definition sticky : Z := Z.lor (Z.lor (Z.lor stickyOverrun stickyCompare) stickyError) writeDataError.

Definition clearSticky (value : Z) (t : DP) : DP :=
  let clear bit flag c := if any_bits value bit then Z.ldiff c flag else c in
  set_ctrlStat (clear clearStickyOverrun stickyOverrun (clear clearWriteDataError writeDataError
    (clear clearStickyError stickyError (clear clearStickyCompare stickyCompare (ctrlStat t))))) t.

Definition setPower (value : Z) (t : DP) : DP :=
  let kept := Z.land (ctrlStat t) sticky in
  let control := Z.land value (Z.lor (Z.lor overrunDetect debugPowerRequest) systemPowerRequest) in
  let requests := Z.land control (Z.lor debugPowerRequest systemPowerRequest) in
  let c := Z.lor kept control in
  let c := if any_bits requests debugPowerRequest then Z.lor c debugPowerAck else c in
  set_ctrlStat (if any_bits requests systemPowerRequest then Z.lor c systemPowerAck else c) t.

(** ** Banked registers and selection *)

Definition readIdentityRegister (t : DP) : Z :=
  let bank := Z.land (selectDP t) 15 in
  if (version t =? 3) && negb (bank =? 0) then if bank <? 4 then dpIDBank t bank else 0
  else dpidr_ t.

Definition writeBankedRegister (value : Z) : ST DP err :=
  bank ← get (fun t => Z.land (selectDP t) 0x0f);
  if bank =? 0 then put (setPower value);; mret None
  else if bank =? 5 then put (fun t => if version t =? 3 then set_selectHigh value t else t);; mret None
  else if bank =? 1 then
    if any_bits value dlcrTurnaroundMask then mret (Some (New "dap/sim: variable SWD turnaround is not modeled"))
    else put (set_dpBank 1 value);; mret None
  else mret None.

Definition selectedAP (t : DP) : APSel :=
  if version t =? 3
  then fst (APAt (Z.lor (Z.shiftl (selectHigh t) 32) (Z.ldiff (selectDP t) 0xfff)))
  else NewAPSel (uint8 (Z.shiftr (selectDP t) 24)).

Definition apReg (t : DP) (req : Request) : Z * err :=
  if (version t =? 3) && negb (Z.land (selectDP t) 0xf00 =? 0xd00)
  then (0, Some (New "dap/sim: AP register outside modeled register window"))
  else (Z.lor (Z.shiftl (Z.land (uint8 (Z.shiftr (selectDP t) 4)) 0x0f) 4) (Addr req), None).

Definition validDebugAddress (t : DP) (address : Z) : bool :=
  let bits := Z.land (dpIDBank t 1) 0x7f in
  bool_decide (bits ∈ [12; 20; 32; 40; 48; 52]) && (Z.shiftr address bits =? 0).

Definition selectorValue (t : DP) (sel : APSel) : Z * err :=
  if 3 <? version t then (0, Some (New "dap/sim: AP fixtures do not support DPv%d"))
  else if version t =? 3 then
    match BaseAddress sel with
    | (_, Some e) => (0, Some e)
    | (base, None) =>
        if negb (validDebugAddress t base)
        then (0, Some (New "dap/sim: AP base requires a configured, supported DPIDR1 address width"))
        else (base, None)
    end
  else Value sel.

Definition validateRequest (req : Request) (read : bool) : err :=
  if any_bits (Addr req) 3 || (0x0c <? Addr req) then Some (New "dap/sim: invalid request address %#02x")
  else if negb (Bool.eqb (Read_ req) read) then Some (New "dap/sim: invalid request direction")
  else None.

(** ** Memory (device.go, device_error.go) *)

Definition memoryRangeEnd (addr size : Z) : Z * err :=
  if size <? 0 then (0, Some (New "dap/sim: negative memory range size"))
  else if size =? 0 then (addr, None)
  else
    let fin := uint64 (addr + (size - 1)) in
    if fin <? addr then (0, Some (New "dap/sim: memory range overflows")) else (fin, None).

(** [data[i] = memory[addr+i]] and [memory[addr+i] = data[i]], for each [i]. *)
Definition load (m : gmap Z Z) (addr : Z) (width : nat) : list Z :=
  (fun i => at_ m (uint64 (addr + Z.of_nat i))) <$> seq 0 width.

Fixpoint save (m : gmap Z Z) (addr : Z) (data : list Z) : gmap Z Z :=
  match data with
  | [] => m
  | b :: data => save (<[uint64 addr := b]> m) (addr + 1) data
  end.

Definition overlapsDevice (a : accessPort) (start fin : Z) : bool :=
  existsb (fun m => (start <=? map_end m) && (map_start m <=? fin)) (devices a).

Fixpoint mapped (ms : list deviceMapping) (addr fin width : Z) : option nat * err :=
  match ms with
  | [] => (None, None)
  | m :: ms =>
      if (map_end m <? addr) || (fin <? map_start m) then mapped ms addr fin width
      else if negb (addr mod width =? 0) then (None, Some (Sentinel dapsim_ErrBusFault))
      else if (addr <? map_start m) || (map_end m <? fin)
      then (None, Some (Errorf "%w: access crosses device mapping" [Sentinel dapsim_ErrBusFault]))
      else (Some (map_device m), None)
  end.

Definition deviceForAccess (a : accessPort) (addr width : Z) : option nat * err :=
  match memoryRangeEnd addr width with
  | (_, Some _) => (None, Some (Sentinel dapsim_ErrBusFault))
  | (fin, None) => mapped (devices a) addr fin width
  end.

Definition deviceResult (e : err) : err :=
  match e with
  | None => None
  | Some c => if errors_Is e dapsim_ErrBusFault then e else Some (Wrap deviceFailure c)
  end.

(** [MemoryDevice]: reading fills the slice it is given, as far as it goes. *)
Class MemoryDevice (W : Type) := {
  dev_Read : nat -> context -> Z -> list Z -> W -> (list Z * err) * W;
  dev_Write : nat -> context -> Z -> list Z -> W -> err * W
}.

Definition filled (slice data : list Z) : list Z := take (length slice) (data ++ drop (length data) slice).

(** [bits.RotateLeft32] *)
Definition rotateLeft32 (x k : Z) : Z :=
  let s := Z.land k 31 in Z.lor (uint32 (Z.shiftl x s)) (Z.shiftr x (32 - s)).

Definition supportsDRWAddressing (a : accessPort) : bool :=
  let size := Z.land (reg a 0) 7 in
  let inc := Z.land (reg a 0) 0x30 in
  (size <=? 3) && ((inc =? 0) || ((inc =? 0x10) && (size =? 2))).

Definition incrementTAR (width : Z) (a : accessPort) : accessPort :=
  if negb (Z.land (reg a 0) 0x30 =? 0x10) then a
  else set_reg 4 (Z.lor (Z.ldiff (reg a 4) 0x3ff) (Z.land (uint32 (reg a 4 + width)) 0x3ff)) a.

Definition targetAddress (a : accessPort) : Z :=
  if any_bits (reg a 0xf4) (Z.shiftl 1 1) then Z.lor (reg a 4) (Z.shiftl (reg a 8) 32) else reg a 4.

Definition laneShift (a : accessPort) (width : Z) : Z :=
  if 4 <=? width then 0
  else
    let lane := Z.land (targetAddress a) 3 in
    let lane := if any_bits (reg a 0xf4) 1 then 4 - width - lane else lane in
    Z.land lane 3 * 8.

(** The value of bytes in increasing address order, and its bytes. *)
Definition bytes_value (big : bool) (data : list Z) : Z :=
  if big then fold_left (fun v b => Z.lor (uint64 (Z.shiftl v 8)) b) data 0
  else fold_left (fun v '(i, b) => Z.lor v (Z.shiftl b (Z.of_nat i * 8))) (imap pair data) 0.

Definition value_bytes (big : bool) (width : nat) (value : Z) : list Z :=
  (fun i => uint8 (Z.shiftr value (if big : bool then (Z.of_nat width - 1 - Z.of_nat i) * 8 else Z.of_nat i * 8))) <$> seq 0 width.

Definition readOnlyRegister (a : accessPort) (r : Z) : bool :=
  (r =? 0xfc) || (memAP a && ((r =? 0xf0) || (r =? 0xf4) || (r =? 0xf8))).

Definition validateRegisterAccess (a : accessPort) (r : Z) : err :=
  if (0x10 <=? r) && (r <=? 0x1c) then Some (New "dap/sim: MEM-AP banked data register %#02x is not modeled")
  else if bool_decide (largePhase a = largeDataIdle) || (r =? 0) || (r =? 0x0c) then None
  else Some (New "dap/sim: MEM-AP register %#02x %s during incomplete 64-bit transfer").

Section Devices.
Context {W : Type} `{Env W} `{MemoryDevice W}.

(** A port and the world its devices are in. *)
Abbreviation AM := (ST (accessPort * W)).

Definition apget {A} (f : accessPort -> A) : AM A := get (fun s => f (fst s)).
Definition apmod (f : accessPort -> accessPort) : AM unit := put (fun s => (f (fst s), snd s)).
Definition outside {A} (f : W -> A * W) : AM A := fun s => let '(a, w) := f (snd s) in (a, (fst s, w)).

Definition readMemory (ctx : context) (addr width : Z) : AM (list Z * err) :=
  '(device, e) ← apget (fun a => deviceForAccess a addr width);
  match e with
  | Some e => mret ([], Some e)
  | None =>
      match device with
      | Some d =>
          '(data, e) ← outside (dev_Read d ctx addr (make_bytes width));
          mret (filled (make_bytes width) data, deviceResult e)
      | None => data ← apget (fun a => load (memory a) addr (Z.to_nat width)); mret (data, None)
      end
  end.

Definition writeMemory (ctx : context) (addr : Z) (data : list Z) : AM err :=
  '(device, e) ← apget (fun a => deviceForAccess a addr (len data));
  match e with
  | Some e => mret (Some e)
  | None =>
      match device with
      | Some d => e ← outside (dev_Write d ctx addr data); mret (deviceResult e)
      | None => apmod (fun a => set_memory (save (memory a) addr data) a);; mret None
      end
  end.

Definition memoryValue (ctx : context) (addr width : Z) : AM (Z * err) :=
  '(data, e) ← readMemory ctx addr width;
  match e with
  | Some e => mret (0, Some e)
  | None => big ← apget (fun a => any_bits (reg a 0xf4) 1); mret (bytes_value big data, None)
  end.

Definition writeMemoryValue (ctx : context) (addr width value : Z) : AM err :=
  big ← apget (fun a => any_bits (reg a 0xf4) 1);
  writeMemory ctx addr (value_bytes big (Z.to_nat width) value).

Definition readLarge (ctx : context) : AM (Z * err) :=
  cfg ← apget (fun a => reg a 0xf4);
  if negb (any_bits cfg (Z.shiftl 1 2)) then mret (0, Some (New "dap/sim: 64-bit DRW read requires CFG.LD"))
  else
    phase ← apget largePhase;
    match phase with
    | largeDataIdle =>
        addr ← apget targetAddress;
        '(value, e) ← memoryValue ctx addr 8;
        match e with
        | Some e => mret (0, Some e)
        | None => apmod (set_large largeDataRead (uint32 (Z.shiftr value 32)));; mret (uint32 value, None)
        end
    | largeDataRead =>
        value ← apget largeWord;
        apmod (fun a => set_large largeDataIdle (largeWord a) a);;
        mret (value, None)
    | largeDataWrite => mret (0, Some (New "dap/sim: 64-bit DRW read interrupted a write"))
    end.

Definition readDRW (ctx : context) : AM (Z * err) :=
  size ← apget (fun a => Z.land (reg a 0) 7);
  ok ← apget supportsDRWAddressing;
  if negb ok then mret (0, Some (New "dap/sim: DRW read has unsupported CSW.Size or AddrInc"))
  else if size =? 3 then readLarge ctx
  else
    let width := Z.shiftl 1 size in
    addr ← apget targetAddress;
    '(value, e) ← memoryValue ctx addr width;
    match e with
    | Some e => mret (0, Some e)
    | None =>
        apmod (incrementTAR width);;
        shift ← apget (fun a => laneShift a width);
        let result := rotateLeft32 (uint32 value) shift in
        let mask := rotateLeft32 (uint32 (Z.shiftl 1 (width * 8) - 1)) shift in
        mret (if width <? 4 then Z.lor result (Z.ldiff 0xa5a5a5a5 mask) else result, None)
    end.

Definition writeLarge (ctx : context) (value : Z) : AM err :=
  cfg ← apget (fun a => reg a 0xf4);
  if negb (any_bits cfg (Z.shiftl 1 2)) then mret (Some (New "dap/sim: 64-bit DRW write requires CFG.LD"))
  else
    phase ← apget largePhase;
    match phase with
    | largeDataIdle => apmod (set_large largeDataWrite value);; mret None
    | largeDataWrite =>
        apmod (fun a => set_large largeDataIdle (largeWord a) a);;
        addr ← apget targetAddress;
        low ← apget largeWord;
        writeMemoryValue ctx addr 8 (Z.lor low (Z.shiftl value 32))
    | largeDataRead => mret (Some (New "dap/sim: 64-bit DRW write interrupted a read"))
    end.

Definition writeDRW (ctx : context) (value : Z) : AM err :=
  size ← apget (fun a => Z.land (reg a 0) 7);
  ok ← apget supportsDRWAddressing;
  if negb ok then mret (Some (New "dap/sim: DRW write has unsupported CSW.Size or AddrInc"))
  else if size =? 3 then writeLarge ctx value
  else
    let width := Z.shiftl 1 size in
    shift ← apget (fun a => laneShift a width);
    addr ← apget targetAddress;
    e ← writeMemoryValue ctx addr width (rotateLeft32 value (- shift));
    match e with
    | Some e => mret (Some e)
    | None => apmod (incrementTAR width);; mret None
    end.

(** ** Access-port registers *)

Definition readRegister (ctx : context) (r : Z) : AM (Z * err) :=
  a ← apget id;
  if negb (memAP a) then mret (reg a r, None)
  else match validateRegisterAccess a r with
  | Some e => mret (0, Some e)
  | None =>
      if ((r =? 8) || (r =? 0xf0)) && negb (any_bits (reg a 0xf4) (Z.shiftl 1 1)) then mret (0, None)
      else if r =? 0x0c then readDRW ctx
      else
        (if r =? 0 then apmod (fun a => set_large largeDataIdle (largeWord a) a) else mret tt);;
        mret (reg a r, None)
  end.

Definition writeRegister (ctx : context) (r value : Z) : AM err :=
  a ← apget id;
  if readOnlyRegister a r then mret None
  else if negb (memAP a) then apmod (set_reg r value);; mret None
  else match validateRegisterAccess a r with
  | Some e => mret (Some e)
  | None =>
      if (r =? 8) && negb (any_bits (reg a 0xf4) (Z.shiftl 1 1)) then mret None
      else if r =? 0x0c then writeDRW ctx value
      else
        let value :=
          if (r =? 0) && negb (any_bits (sizes a) (Z.shiftl 1 (Z.land value 7)))
          then Z.lor (Z.ldiff value 7) (Z.land (reg a 0) 7) else value in
        apmod (set_reg r value);;
        (if r =? 0 then apmod (fun a => set_large largeDataIdle (largeWord a) a) else mret tt);;
        mret None
  end.

(** ** Requests *)

Record Sim := mkSim { dp : DP; outer : W }.

Abbreviation M := (ST Sim).

Definition tget {A} (f : DP -> A) : M A := get (fun s => f (dp s)).
Definition tmod (f : DP -> DP) : M unit := put (fun s => mkSim (f (dp s)) (outer s)).

Definition on_dp {A} (m : ST DP A) : M A := fun s => let '(a, t) := m (dp s) in (a, mkSim t (outer s)).

Definition simCtx (ctx : context) : M err := fun s =>
  let '(e, w) := ctx_Err ctx (outer s) in ((fun e => Sentinel (context_Err e)) <$> e, mkSim (dp s) w).

(** A method of the port [sel] selects. *)
Definition on_ap {A} (sel : APSel) (a : accessPort) (m : AM A) : M A := fun s =>
  let '(x, (a, w)) := m (a, outer s) in (x, mkSim (set_aps (<[sel := a]> (aps (dp s))) (dp s)) w).

Definition simAcknowledge (ctx : context) (req : Request) : M err :=
  if any_bits (Addr req) 3 || (0x0c <? Addr req) then mret (Some (New "dap/sim: invalid request"))
  else
    e ← simCtx ctx;
    match e with
    | Some e => mret (Some e)
    | None =>
        tmod (set_started true);;
        t ← tget id;
        mret (if negb (any_bits (ctrlStat t) sticky) || isStickyExempt req (selectDP t) then None
              else Some (Sentinel swd_ErrFault))
    end.

Definition readAP (ctx : context) (req : Request) : M (Z * err) :=
  t ← tget id;
  let posted := rdbuff t in
  let word := debugWords t !! Z.lor (Z.lor (Z.shiftl (selectHigh t) 32) (Z.ldiff (selectDP t) 15)) (Addr req) in
  match word, version t =? 3 with
  | Some value, true => tmod (set_rdbuff value);; mret (posted, None)
  | _, _ =>
      match aps t !! selectedAP t with
      | None => tmod (set_rdbuff 0);; mret (posted, None)
      | Some a =>
          match apReg t req with
          | (_, Some e) => mret (0, Some e)
          | (r, None) =>
              '(value, e) ← on_ap (selectedAP t) a (readRegister ctx r);
              if errors_Is e dapsim_ErrBusFault
              then tmod (fun t => set_ctrlStat (Z.lor (ctrlStat t) stickyError) t);; mret (posted, None)
              else match e with
              | Some e => mret (0, Some e)
              | None => tmod (set_rdbuff value);; mret (posted, None)
              end
          end
      end
  end.

Definition writeAP (ctx : context) (req : Request) (value : Z) : M err :=
  t ← tget id;
  match aps t !! selectedAP t with
  | None => mret None
  | Some a =>
      match apReg t req with
      | (_, Some e) => mret (Some e)
      | (r, None) =>
          e ← on_ap (selectedAP t) a (writeRegister ctx r value);
          if errors_Is e dapsim_ErrBusFault
          then tmod (fun t => set_ctrlStat (Z.lor (ctrlStat t) stickyError) t);; mret None
          else mret e
      end
  end.

Definition readDPRegister (addr : Z) : M (Z * err) :=
  t ← tget id;
  if addr =? 0x00 then mret (readIdentityRegister t, None)
  else if addr =? 0x04 then
    let bank := Z.land (selectDP t) 0x0f in
    mret (if bank =? 0 then ctrlStat t else dpBank t bank, None)
  else if addr =? 0x08 then mret (resend t, None)
  else if addr =? 0x0c then
    tmod (set_resend (rdbuff t));;
    tmod (set_rdbuff 0);;
    mret (rdbuff t, None)
  else mret (0, Some (New "dap/sim: unsupported DP read %#02x")).

Definition simRead (ctx : context) (req : Request) : M (Z * err) :=
  match validateRequest req true with
  | Some e => mret (0, Some e)
  | None =>
      e ← simCtx ctx;
      match e with
      | Some e => mret (0, Some e)
      | None =>
          tmod (set_started true);;
          if AP req then
            '(value, e) ← readAP ctx req;
            (if is_nil e then tmod (set_resend value) else mret tt);;
            mret (value, e)
          else readDPRegister (Addr req)
      end
  end.

Definition writeDPRegister (addr value : Z) : M err :=
  if addr =? 0x00 then tmod (set_rdbuff 0);; tmod (clearSticky value);; mret None
  else if addr =? 0x04 then
    tmod (set_rdbuff 0);;
    on_dp (writeBankedRegister value)
  else if addr =? 0x08 then tmod (set_rdbuff 0);; tmod (set_selectDP value);; mret None
  else mret (Some (New "dap/sim: unsupported DP write %#02x")).

Definition simWrite (ctx : context) (req : Request) (value : Z) : M err :=
  match validateRequest req false with
  | Some e => mret (Some e)
  | None =>
      e ← simCtx ctx;
      match e with
      | Some e => mret (Some e)
      | None =>
          tmod (set_started true);;
          if AP req then tmod (set_rdbuff 0);; writeAP ctx req value
          else writeDPRegister (Addr req) value
      end
  end.

(** The wire's target; results have the width of their type. *)
#[global] Instance Sim_Target : Target Sim := {|
  SwdSim.Read := fun ctx req s => let '((v, e), s) := simRead ctx req s in ((uint32 v, e), s);
  SwdSim.Write := simWrite;
  Acknowledge := Some simAcknowledge;
  OverrunDetectEnabled := Some (fun s => simOverrunDetect (dp s));
  ObserveResponse := Some (fun _ s => mkSim (simObserveResponse (dp s)) (outer s));
  ObserveLineReset := Some (fun s => mkSim (simObserveLineReset (dp s)) (outer s))
|}.

(** Contexts are asked in the world of the devices. *)
#[global] Instance Sim_Env : Env (SimWire Sim) := {|
  ctx_Err := fun ctx w =>
    match target w with
    | Some s => let '(e, o) := ctx_Err ctx (outer s) in (e, mkWire (Some (mkSim (dp s) o)) (active w) (pending w) (pendingACK w) (maxBits w))
    | None => (None, w)
    end
|}.
End Devices.
Arguments Sim W : clear implicits.

(** ** Fixtures *)

Definition setIdentityRegister (r : DPRegister) (value : Z) : ST DP err :=
  let bank := r - DPIDR1 + 1 in
  bad ← get (fun t => negb (version t =? 3) || default false (dpIDBankSet t !! Z.to_nat bank));
  if bad : bool then mret (Some (New "dap/sim: %s fixture unavailable"))
  else put (set_dpIDBank bank value);; mret None.

Definition SetDPRegister (r : DPRegister) (value : Z) : ST DP err :=
  if (DPIDR1 <=? r) && (r <=? BASEPTR1) then setIdentityRegister r value
  else
    let bank := if r =? DLCR then 1 else if r =? TARGETID then 2 else if r =? DLPIDR then 3 else if r =? EVENTSTAT then 4 else 0 in
    if bank =? 0 then mret (Some (New "dap/sim: %s has no banked fixture"))
    else if (r =? DLCR) && any_bits value dlcrTurnaroundMask then mret (Some (New "dap/sim: variable SWD turnaround is not modeled"))
    else
      set ← get (fun t => default false (dpBankSet t !! Z.to_nat bank));
      if set : bool then mret (Some (New "dap/sim: %s is already configured"))
      else put (set_dpBank bank value);; put (mark_dpBank bank);; mret None.

Definition AddAP (sel : APSel) (idr : Z) : ST DP err :=
  if idr =? 0 then mret (Some (New "dap/sim: APIDR must be nonzero"))
  else
    t ← get id;
    match selectorValue t sel with
    | (_, Some e) => mret (Some e)
    | (_, None) =>
        if bool_decide (is_Some (aps t !! sel)) then mret (Some (New "dap/sim: AP %d is already configured"))
        else put (fun t => set_aps (<[sel := mkPort [] {[0xfc := idr]} ∅ false 0 largeDataIdle 0]> (aps t)) t);; mret None
    end.

(** The range over a map, in some order. *)
Fixpoint words_loop (words : list (Z * Z)) (m : gmap Z Z) : gmap Z Z * err :=
  match words with
  | [] => (m, None)
  | (addr, value) :: words =>
      if any_bits addr 3 then (m, Some (New "dap/sim: unaligned target-word address %#08x"))
      else words_loop words (save m addr (value_bytes false 4 value))
  end.

Definition AddMEMAP (sel : APSel) (idr : Z) (words : gmap Z Z) : ST DP err :=
  if (idr =? 0) || negb (ap_Class (DecodeAPIDR idr) =? 8) then mret (Some (New "dap/sim: MEM-AP requires a nonzero class-8 APIDR"))
  else
    t ← get id;
    match selectorValue t sel with
    | (_, Some e) => mret (Some e)
    | (_, None) =>
        if bool_decide (is_Some (aps t !! sel)) then mret (Some (New "dap/sim: AP %d is already configured"))
        else match words_loop (map_to_list words) ∅ with
        | (_, Some e) => mret (Some e)
        | (m, None) =>
            let a := mkPort [] (<[0xfc := idr]> (<[0xf8 := 2]> {[0xf4 := 0]})) m true
              (Z.lor (Z.lor (Z.shiftl 1 0) (Z.shiftl 1 1)) (Z.shiftl 1 2)) largeDataIdle 0 in
            put (fun t => set_aps (<[sel := a]> (aps t)) t);; mret None
        end
    end.

(** The guards the MEM-AP fixtures share, then [f]. *)
Definition on_memap {A} (sel : APSel) (failed : error -> A) (f : accessPort -> A * accessPort) : ST DP A :=
  t ← get id;
  match selectorValue t sel with
  | (_, Some e) => mret (failed e)
  | (_, None) =>
      match aps t !! sel with
      | Some a =>
          if negb (memAP a) then mret (failed (New "dap/sim: AP %d is not a MEM-AP"))
          else let '(x, a) := f a in put (fun t => set_aps (<[sel := a]> (aps t)) t);; mret x
      | None => mret (failed (New "dap/sim: AP %d is not a MEM-AP"))
      end
  end.

Definition SetMEMAPCFG (sel : APSel) (cfg : Z) : ST DP err :=
  on_memap sel Some (fun a =>
    let a := set_reg 0xf4 cfg a in
    let a := if negb (any_bits cfg (Z.shiftl 1 1)) then set_reg 8 0 a else a in
    let a := set_sizes (if any_bits cfg (Z.shiftl 1 2) then Z.lor (sizes a) (Z.shiftl 1 3) else Z.ldiff (sizes a) (Z.shiftl 1 3)) a in
    (None, set_large largeDataIdle (largeWord a) a)).

(** transferSizeEncoding of package sim *)
Definition simSizeEncoding (size : TransferSize) : option Z :=
  if size =? Size8 then Some 0 else if size =? Size16 then Some 1 else if size =? Size32 then Some 2
  else if size =? Size64 then Some 3 else None.

Fixpoint sizes_loop (ss : list TransferSize) (cfg accepted : Z) : Z * err :=
  match ss with
  | [] => (accepted, None)
  | size :: ss =>
      match simSizeEncoding size with
      | None => (accepted, Some (New "dap/sim: invalid MEM-AP transfer size %d"))
      | Some encoding =>
          if (size =? Size64) && negb (any_bits cfg (Z.shiftl 1 2)) then (accepted, Some (New "dap/sim: Size64 requires CFG.LD"))
          else sizes_loop ss cfg (Z.lor accepted (Z.shiftl 1 encoding))
      end
  end.

Definition SetMEMAPSizes (sel : APSel) (ss : list TransferSize) : ST DP err :=
  on_memap sel Some (fun a =>
    match sizes_loop ss (reg a 0xf4) (Z.shiftl 1 2) with
    | (_, Some e) => (Some e, a)
    | (accepted, None) =>
        let a := set_reg 0 (Z.lor (Z.ldiff (reg a 0) 7) 2) (set_sizes accepted a) in
        (None, set_large largeDataIdle (largeWord a) a)
    end).

Definition SetMEMAPBytes (sel : APSel) (addr : Z) (data : list Z) : ST DP err :=
  on_memap sel Some (fun a =>
    match memoryRangeEnd addr (len data) with
    | (_, Some e) => (Some e, a)
    | (fin, None) =>
        if negb (len data =? 0) && overlapsDevice a addr fin then (Some (New "dap/sim: fixture write overlaps mapped device"), a)
        else (None, set_memory (save (memory a) addr data) a)
    end).

Definition MEMAPBytes (sel : APSel) (addr size : Z) : ST DP (list Z * err) :=
  on_memap sel (fun e => ([], Some e)) (fun a =>
    match memoryRangeEnd addr size with
    | (_, Some e) => (([], Some e), a)
    | (fin, None) =>
        if negb (size =? 0) && overlapsDevice a addr fin then (([], Some (New "dap/sim: fixture read overlaps mapped device")), a)
        else ((load (memory a) addr (Z.to_nat size), None), a)
    end).

Definition SetMEMAPDebugBase (sel : APSel) (low high : Z) : ST DP err :=
  on_memap sel Some (fun a => (None, set_reg 0xf0 high (set_reg 0xf8 low a))).

Definition SetDebugWord (address value : Z) : ST DP err :=
  t ← get id;
  if negb (version t =? 3) then mret (Some (New "dap/sim: debug words require DPv3"))
  else if any_bits address 3 || negb (validDebugAddress t address) then mret (Some (New "dap/sim: invalid debug word address"))
  else put (fun t => set_debugWords (<[address := value]> (debugWords t)) t);; mret None.

(** A nil device is [None]. *)
Definition MapMEMAPDevice (sel : APSel) (addr size : Z) (device : option nat) : ST DP err :=
  t ← get id;
  if started t then mret (Some (New "dap/sim: device mapping after target traffic"))
  else match selectorValue t sel with
  | (_, Some e) => mret (Some e)
  | (_, None) =>
      match aps t !! sel with
      | None => mret (Some (New "dap/sim: device mapping requires a MEM-AP"))
      | Some a =>
          if negb (memAP a) then mret (Some (New "dap/sim: device mapping requires a MEM-AP"))
          else
            let fin := uint64 (addr + size - 1) in
            if (size =? 0) || (fin <? addr) then mret (Some (New "dap/sim: empty or overflowing device mapping"))
            else match device with
            | None => mret (Some (New "dap/sim: nil memory device"))
            | Some d =>
                if overlapsDevice a addr fin then mret (Some (New "dap/sim: overlapping device mapping"))
                else put (fun t => set_aps (<[sel := set_devices (devices a ++ [mkMapping addr fin d]) a]> (aps t)) t);; mret None
            end
      end
  end.

(** ** RAM (ram.go) *)

Definition RAM : Type := gmap Z Z.

Definition SetBytes (addr : Z) (data : list Z) (r : RAM) : err * RAM :=
  match memoryRangeEnd addr (len data) with
  | (_, Some e) => (Some e, r)
  | (_, None) => (None, save r addr data)
  end.

Definition Bytes (addr size : Z) (r : RAM) : list Z * err :=
  match memoryRangeEnd addr size with
  | (_, Some e) => ([], Some e)
  | (_, None) => (load r addr (Z.to_nat size), None)
  end.

Section RAM.
Context {W : Type} `{Env W}.

Definition checkRAMAccess (ctx : context) (addr width : Z) (w : W) : err * W :=
  let '(e, w) := ctx_Err ctx w in
  (match e with
   | Some e => Some (Sentinel (context_Err e))
   | None =>
       if negb (bool_decide (width ∈ [1; 2; 4; 8])) then Some (Sentinel dapsim_ErrBusFault)
       else if negb (is_nil (snd (memoryRangeEnd addr width))) || negb (addr mod width =? 0)
       then Some (Sentinel dapsim_ErrBusFault)
       else None
   end, w).

Definition ramRead (ctx : context) (addr : Z) (data : list Z) (r : RAM) (w : W) : (list Z * err) * W :=
  let '(e, w) := checkRAMAccess ctx addr (len data) w in
  (match e with
   | Some e => (data, Some e)
   | None =>
       match Bytes addr (len data) r with
       | (_, Some e) => (data, Some e)
       | (value, None) => (filled data value, None)
       end
   end, w).

Definition ramWrite (ctx : context) (addr : Z) (data : list Z) (r : RAM) (w : W) : (err * RAM) * W :=
  let '(e, w) := checkRAMAccess ctx addr (len data) w in
  (match e with
   | Some e => (Some e, r)
   | None => SetBytes addr data r
   end, w).
End RAM.
