(* ===== verification/DapSimFacts.v ===== *)
(** * The simulated debug port implements the port a plan is judged against

    The abstract port of the planner (DapPlanFacts) keeps its posted buffer; the
    simulator loses it when it is read or written over.  Steps that only deliver
    posted values that were just read cannot tell the difference, and plans have
    no others. *)

From stdpp Require Import gmap.
From S2P Require Import Prelude Go SwdFrame SwdConn SwdBatch SwdSim SwdRefine SwdBatchFacts DapTypes DapPlan DapPlanFacts DapTxnRefine DapSim.
Local Open Scope Z_scope.

(** The name of a field says which record it is of. *)
Abbreviation sim_rdbuff := DapSim.rdbuff.
Abbreviation phys_rdbuff := DapPlanFacts.rdbuff.

Section Sim.
Context {W : Type} `{Env W} `{MemoryDevice W}.

(** Contexts that do not end, devices that do not look at them. *)
Record Calm : Prop := {
  calm_ctx ctx w : ctx_Err ctx w = (None, w);
  calm_read d ctx ctx' addr data w : dev_Read d ctx addr data w = dev_Read d ctx' addr data w;
  calm_write d ctx ctx' addr data w : dev_Write d ctx addr data w = dev_Write d ctx' addr data w
}.
Context (calm : Calm).

(** ** Contexts do not matter *)

Lemma bind_ext {S A B} (m m' : ST S A) (f f' : A -> ST S B) s :
  m s = m' s -> (forall a s, f a s = f' a s) -> mbind f m s = mbind f' m' s.
Proof. intros E F. unfold mbind, ST_bind. rewrite E. destruct (m' s). apply F. Qed.

Lemma on_ap_ext {A} sel a (m m' : ST (accessPort * W) A) s : (forall x, m x = m' x) -> on_ap sel a m s = on_ap sel a m' s.
Proof. intros E. unfold on_ap. by rewrite E. Qed.

Lemma outside_ext {A} (f g : W -> A * W) s : (forall w, f w = g w) -> outside f s = outside g s.
Proof. intros E. unfold outside. by rewrite E. Qed.

Ltac st_ext known :=
  repeat first [reflexivity | known | apply outside_ext; intros; known | apply on_ap_ext; intros; known
               | apply bind_ext; [|intros [] ?] | apply bind_ext; [|intros ? ?] | case_match ].

Lemma readMemory_ctx ctx ctx' addr width s : readMemory ctx addr width s = readMemory ctx' addr width s.
Proof. unfold readMemory. st_ext ltac:(apply (calm_read calm)). Qed.

Lemma writeMemory_ctx ctx ctx' addr data s : writeMemory ctx addr data s = writeMemory ctx' addr data s.
Proof. unfold writeMemory. st_ext ltac:(apply (calm_write calm)). Qed.

Lemma memoryValue_ctx ctx ctx' addr width s : memoryValue ctx addr width s = memoryValue ctx' addr width s.
Proof. unfold memoryValue. st_ext ltac:(apply readMemory_ctx). Qed.

Lemma readDRW_ctx ctx ctx' s : readDRW ctx s = readDRW ctx' s.
Proof. unfold readDRW, readLarge. st_ext ltac:(apply memoryValue_ctx). Qed.

Lemma writeDRW_ctx ctx ctx' value s : writeDRW ctx value s = writeDRW ctx' value s.
Proof. unfold writeDRW, writeLarge, writeMemoryValue. st_ext ltac:(apply writeMemory_ctx). Qed.

Lemma readRegister_ctx ctx ctx' r s : readRegister ctx r s = readRegister ctx' r s.
Proof. unfold readRegister. st_ext ltac:(apply readDRW_ctx). Qed.

Lemma writeRegister_ctx ctx ctx' r value s : writeRegister ctx r value s = writeRegister ctx' r value s.
Proof. unfold writeRegister. st_ext ltac:(apply writeDRW_ctx). Qed.

Lemma simCtx_ctx ctx ctx' (s : Sim W) : simCtx ctx s = simCtx ctx' s.
Proof. unfold simCtx. by rewrite !(calm_ctx calm). Qed.

Lemma simRead_ctx ctx ctx' req (s : Sim W) : simRead ctx req s = simRead ctx' req s.
Proof. unfold simRead, readAP. st_ext ltac:(first [apply simCtx_ctx|apply readRegister_ctx]). Qed.

Lemma simWrite_ctx ctx ctx' req value (s : Sim W) : simWrite ctx req value s = simWrite ctx' req value s.
Proof. unfold simWrite, writeAP. st_ext ltac:(first [apply simCtx_ctx|apply writeRegister_ctx]). Qed.

Lemma simAcknowledge_ctx ctx ctx' req (s : Sim W) : simAcknowledge ctx req s = simAcknowledge ctx' req s.
Proof. unfold simAcknowledge. st_ext ltac:(apply simCtx_ctx). Qed.

Lemma access_ctx ctx ctx' req value (s : Sim W) : access ctx req value s = access ctx' req value s.
Proof.
  unfold access, acknowledge. cbn [Acknowledge SwdSim.Read SwdSim.Write Sim_Target]. rewrite (simAcknowledge_ctx ctx ctx').
  repeat case_match; simplify_eq; try done.
  all: first [rewrite (simRead_ctx ctx ctx') in *|rewrite (simWrite_ctx ctx ctx') in *]; congruence.
Qed.

(** ** The laws of the wire's target *)

Lemma any_bits_lor_clear a b m : Z.land b m = 0 -> any_bits (Z.lor a b) m = any_bits a m.
Proof. intros E. unfold any_bits. by rewrite Z.land_lor_distr_l, E, Z.lor_0_r. Qed.

Lemma any_bits_ldiff a b m : Z.land b m = 0 -> any_bits (Z.ldiff a b) m = any_bits a m.
Proof.
  intros E. unfold any_bits. do 2 f_equal. apply Z.bits_inj'. intros n Hn. rewrite !Z.land_spec, Z.ldiff_spec.
  apply (f_equal (fun z => Z.testbit z n)) in E. rewrite Z.land_spec, Z.bits_0 in E.
  destruct (Z.testbit b n), (Z.testbit m n); try done; by rewrite ?andb_true_r, ?andb_false_r.
Qed.

Lemma simAcknowledge_spec ctx req (s : Sim W) :
  request_ok req -> simAcknowledge ctx (sim_request req) s =
    (if negb (any_bits (ctrlStat (dp s)) sticky) || isStickyExempt (sim_request req) (selectDP (dp s)) then None else Some (Sentinel swd_ErrFault),
     mkSim (set_started true (dp s)) (outer s)).
Proof.
  intros Hr. unfold simAcknowledge. replace (any_bits _ 3 || _) with false.
  - unfold mbind, ST_bind, simCtx. by rewrite (calm_ctx calm).
  - unfold request_ok in Hr. rewrite !elem_of_cons in Hr. unfold sim_request. cbn [Addr].
    destruct Hr as [->|[->|[->|[->|Hx]]]]; [done..|]. by apply not_elem_of_nil in Hx.
Qed.

Lemma acknowledge_overrun ctx req (s : Sim W) : simOverrunDetect (dp (snd (simAcknowledge ctx req s))) = simOverrunDetect (dp s).
Proof.
  unfold simAcknowledge. case_match; [done|]. unfold mbind, ST_bind, simCtx. by rewrite (calm_ctx calm).
Qed.

Lemma Sim_laws : SimLaws (T := Sim W).
Proof.
  split.
  - intros ctx [[s|] a p k m]; cbn; [|done]. rewrite (calm_ctx calm). by destruct s.
  - intros ctx req s. cbn. destruct (simRead ctx req s) as [[v e] s']. cbn [fst]. apply uint32_range.
  - intros ctx req s ack. unfold overrunEnabled, observeResponse, acknowledge. cbn [OverrunDetectEnabled ObserveResponse Acknowledge Sim_Target].
    pose proof (acknowledge_overrun ctx req s) as E. destruct (simAcknowledge ctx req s) as [e s1]. cbn [snd] in E. rewrite <- E.
    assert (simOverrunDetect (simObserveResponse (dp s1)) = simOverrunDetect (dp s1)) as F.
    { unfold simObserveResponse. destruct (simOverrunDetect (dp s1)) eqn:Eo; [|done]. unfold simOverrunDetect in *. cbn [ctrlStat set_ctrlStat].
      by rewrite any_bits_lor_clear. }
    repeat case_match; cbn [snd dp] in *; simplify_eq/=; done.
Qed.

(** ** The registers behind the port *)

(** A debug port without its selection and its buffers. *)
Definition strip (t : DP) : DP :=
  mkDP true (debugWords t) (dpidr_ t) (ctrlStat t) (dpBanks t) (dpIDBanks t) (dpIDBankSet t) (selectHigh t) (dpBankSet t) 0 0 0 (aps t).

(** The flag says that nothing has gone wrong yet: no access failed, and
    overrun detection is as it was. *)
Record Regs := mkRegs { r_dp : DP; r_out : W; r_ok : bool }.

Definition on_port {A} (sel : Z) (none : A) (m : ST (accessPort * W) (A * err)) (t : Regs) : A * Regs :=
  match aps (r_dp t) !! NewAPSel (uint8 sel) with
  | None => (none, t)
  | Some a =>
      let '((x, e), (a, w)) := m (a, r_out t) in
      (x, mkRegs (set_aps (<[NewAPSel (uint8 sel) := a]> (aps (r_dp t))) (r_dp t)) w (r_ok t && is_nil e))
  end.

#[export] Instance Regs_Registers : Registers Regs := {|
  ap_read := fun sel addr t => let '(v, t) := on_port sel 0 (readRegister Background addr) t in (uint32 v, t);
  ap_write := fun sel addr d t => snd (on_port sel tt (e ← writeRegister Background addr d; mret (tt, e)) t);
  dp_read := fun b addr t =>
    (uint32 (if addr =? 4 then if b =? 0 then ctrlStat (r_dp t) else dpBank (r_dp t) b else dpidr_ (r_dp t)), t);
  dp_write := fun b addr d t =>
    if addr =? 4 then
      let '(e, t') := writeBankedRegister d (set_selectDP b (r_dp t)) in
      mkRegs (set_selectDP 0 t') (r_out t) (r_ok t && is_nil e && Bool.eqb (simOverrunDetect t') (simOverrunDetect (r_dp t)))
    else mkRegs (clearSticky d (r_dp t)) (r_out t) (r_ok t)
|}.

(** ** The simulator behind a connection *)

Record sound (t : DP) : Prop := {
  so_version : version t <> 3;
  so_clear : any_bits (ctrlStat t) sticky = false;
  so_select : 0 <= selectDP t < 2 ^ 32
}.

(** The simulator [s] behind the connection [c] is the port [m].  What was
    posted is the same only while [fresh]. *)
Record coupled (fresh : bool) (m : Phys Regs) (c : Conn) (s : Sim W) : Prop := {
  cp_regs : DapPlanFacts.regs m = mkRegs (strip (dp s)) (outer s) true;
  cp_select v : select m = Some v -> selectDP (dp s) = v /\ SwdConn.bank c = mkBank (uint8 (Z.land v 0x0f)) true;
  cp_settled v : settled m = true -> select m = Some v -> SwdConn.selectPending c = false;
  cp_fresh : fresh = true -> phys_rdbuff m = uint32 (sim_rdbuff (dp s));
  cp_sound : sound (dp s);
  cp_matched : matched c s
}.

Definition posted (r : transferRequest) : bool := Read r && (AP r || (Addr r =? 0x0c)).

(** Whether the buffer is as the port has it after the request. *)
Definition freshness (r : transferRequest) (fresh : bool) : bool :=
  if Read r then if AP r then true else if Addr r =? 0x0c then false else fresh else false.

Definition wire_request (r : transferRequest) : request := mkReq (AP r) (Read r) (Addr r).
Definition wire_data (r : transferRequest) (d : Z) : Z := if Read r then 0 else d.

(** The request passes the connection and the simulator performs it. *)
Definition simulated (fresh : bool) (r : transferRequest) (d v : Z) (m' : Phys Regs) (c : Conn) (s : Sim W) : Prop :=
  exists v' s', SwdBatchFacts.accepted (wire_request r) (wire_data r d) v' c s s' /\
    coupled (freshness r fresh) m' (observeTransfer (wire_request r) v' (wire_data r d) None c) s' /\
    (Read r = false -> v' = 0) /\
    ((posted r = true -> fresh = true) -> Read r && negb (AP r) && (Addr r =? 0x08) = false -> v' = v).

Lemma register_address v A : Z.lor (Z.shiftl (Z.land (uint8 (Z.shiftr v 4)) 0x0f) 4) A = Z.lor (Z.land v 0xf0) A.
Proof.
  f_equal. apply Z.bits_inj'. intros n Hn. rewrite Z.land_spec. destruct (Z.lt_ge_cases n 4).
  - rewrite Z.shiftl_spec_low by lia. assert (n = 0 \/ n = 1 \/ n = 2 \/ n = 3) as [->|[->|[->| ->]]] by lia; by rewrite andb_false_r.
  - rewrite Z.shiftl_spec, Z.land_spec by lia. unfold uint8. rewrite <- Z.land_ones, Z.land_spec, Z.shiftr_spec by lia.
    replace (n - 4 + 4) with n by lia. destruct (Z.lt_ge_cases n 8).
    + rewrite Z.testbit_ones_nonneg by lia. rewrite (proj2 (Z.ltb_lt _ _)) by lia. rewrite andb_true_r. f_equal.
      assert (n = 4 \/ n = 5 \/ n = 6 \/ n = 7) as [->|[->|[->| ->]]] by lia; done.
    + rewrite (testbit_high 15 4), (testbit_high 240 8) by lia. by rewrite !andb_false_r.
Qed.

(** The wire's access to a target without sticky flags. *)
Lemma access_spec ctx req d (s : Sim W) :
  request_ok req -> any_bits (ctrlStat (dp s)) sticky = false ->
  let s1 := mkSim (set_started true (dp s)) (outer s) in
  access ctx req d s =
    if isRead req then
      let '((v, e), s') := simRead ctx (sim_request req) s1 in (match e with Some e => (0, Some e) | None => (uint32 v, None) end, s')
    else let '(e, s') := simWrite ctx (sim_request req) d s1 in ((0, e), s').
Proof.
  intros Hr Hs s1. unfold access, acknowledge. cbn [Acknowledge Sim_Target]. rewrite simAcknowledge_spec, Hs by done. cbn [negb orb].
  unfold observeResponse. cbn [ObserveResponse Sim_Target]. cbn [Z.eqb Pos.eqb ackError SwdSim.Read SwdSim.Write Sim_Target].
  fold s1. destruct (isRead req); [|done]. by destruct (simRead ctx (sim_request req) s1) as [[v [e|]] s'].
Qed.

Lemma validateRequest_ok req rd : request_ok req -> isRead req = rd -> validateRequest (sim_request req) rd = None.
Proof.
  intros Hr <-. unfold validateRequest, sim_request. cbn [SwdSim.Addr Read_]. unfold request_ok in Hr. rewrite !elem_of_cons in Hr. unfold isRead. rewrite eqb_reflx.
  destruct Hr as [->|[->|[->|[->|Hx]]]]; [done..|]. by apply not_elem_of_nil in Hx.
Qed.

Lemma simCtx_alive ctx (s : Sim W) : simCtx ctx s = (None, s).
Proof. unfold simCtx. rewrite (calm_ctx calm). by destruct s. Qed.

Lemma observe_settled req v d c :
  SwdConn.selectPending c = false -> negb (isAP req) && negb (isRead req) && (address req =? 0x08) = false ->
  observeTransfer req v d None c = c.
Proof. intros Hp Hs. unfold observeTransfer. cbn [completeTransfer is_nil orb negb]. by rewrite Hp, Hs. Qed.

Lemma accepted_intro req d v c (s s' : Sim W) :
  request_ok req -> 0 <= d < 2 ^ 32 -> validateTransfer req d c = None ->
  SwdConn.selectPending c && isPossibleCTRLSTATRead req (priorBank c) = false ->
  access Background req d s = ((v, None), s') -> overrunEnabled s' = overrunEnabled s ->
  SwdBatchFacts.accepted req d v c s s'.
Proof. intros A1 A2 A3 A4 A5 A6. split; try done. intros ctx. by rewrite (access_ctx ctx Background). Qed.

Definition unaffected (req : request) : bool := isAP req || negb (address req =? 0x04).

Lemma validate_unaffected req d c : isRead req || unaffected req = true -> validateTransfer req d c = None.
Proof. unfold validateTransfer, unaffected. destruct (isAP req), (isRead req), (address req =? 4); done. Qed.

Lemma possible_unaffected req b : unaffected req = true -> isPossibleCTRLSTATRead req b = false.
Proof. unfold isPossibleCTRLSTATRead, unaffected. destruct (isAP req), (isRead req), (address req =? 4); try done. Qed.

Lemma simulated_intro fresh r d v m' c s v' s' :
  request_ok (wire_request r) -> 0 <= wire_data r d < 2 ^ 32 -> validateTransfer (wire_request r) (wire_data r d) c = None ->
  SwdConn.selectPending c && isPossibleCTRLSTATRead (wire_request r) (priorBank c) = false ->
  access Background (wire_request r) (wire_data r d) s = ((v', None), s') -> simOverrunDetect (dp s') = simOverrunDetect (dp s) ->
  coupled (freshness r fresh) m' (observeTransfer (wire_request r) v' (wire_data r d) None c) s' ->
  (Read r = false -> v' = 0) ->
  ((posted r = true -> fresh = true) -> Read r && negb (AP r) && (Addr r =? 0x08) = false -> v' = v) ->
  simulated fresh r d v m' c s.
Proof. intros. exists v', s'. split_and!; try done. by apply accepted_intro. Qed.

(** Requests through a settled selection leave the connection as it is. *)
Lemma coupled_settled fresh fresh' m m' c s s' sv :
  coupled fresh m c s -> select m = Some sv -> settled m = true -> select m' = Some sv ->
  DapPlanFacts.regs m' = mkRegs (strip (dp s')) (outer s') true -> selectDP (dp s') = sv -> version (dp s') = version (dp s) ->
  any_bits (ctrlStat (dp s')) sticky = false -> simOverrunDetect (dp s') = simOverrunDetect (dp s) ->
  (fresh' = true -> phys_rdbuff m' = uint32 (sim_rdbuff (dp s'))) -> coupled fresh' m' c s'.
Proof.
  intros [Er Es Ep Ef [V C Sel] Em] E1 St E2 Er' Ed Ev Ec Eo Ef'. destruct (Es sv E1) as [D B]. split; try done.
  - intros w Hw. rewrite E2 in Hw. by injection Hw as <-.
  - intros w _ _. by eapply Ep.
  - split; [by rewrite Ev|done|by rewrite Ed, <- D].
  - unfold matched, overrunEnabled in *. cbn in *. by rewrite Eo.
Qed.

Lemma settled_pending fresh m c s sv : coupled fresh m c s -> select m = Some sv -> settled m = true -> SwdConn.selectPending c = false.
Proof. intros Hc E St. by eapply (cp_settled _ _ _ _ Hc). Qed.

(** What the selection reaches. *)
Lemma reached fresh m c s r sv :
  coupled fresh m c s -> select m = Some sv ->
  let t := set_started true (dp s) in
  (version t =? 3) = false /\ selectedAP t = NewAPSel (uint8 (Z.shiftr sv 24)) /\
  apReg t (sim_request (wire_request r)) = (Z.lor (Z.land sv 0xf0) (Addr r), None).
Proof.
  intros [_ Es _ _ [V _ _] _] E t. destruct (Es sv E) as [Ed _].
  assert ((version t =? 3) = false) as Ev by (by apply Z.eqb_neq). unfold selectedAP, apReg. rewrite Ev. cbn [andb].
  change (selectDP t) with (selectDP (dp s)). by rewrite Ed, register_address.
Qed.

Lemma simRead_start ctx r (s : Sim W) :
  request_ok (wire_request r) -> Read r = true ->
  let s1 := mkSim (set_started true (dp s)) (outer s) in
  simRead ctx (sim_request (wire_request r)) s1 =
    (if AP r then '(value, e) ← readAP ctx (sim_request (wire_request r)); (if is_nil e then tmod (set_resend value) else mret tt);; mret (value, e)
     else readDPRegister (Addr r)) s1.
Proof.
  intros Hok Hr s1. unfold simRead. rewrite validateRequest_ok by done. unfold mbind at 1, ST_bind at 1. rewrite simCtx_alive.
  unfold mbind at 1, ST_bind at 1. unfold tmod at 1, put at 1. done.
Qed.

Lemma simRead_ap fresh m c (s : Sim W) r sv :
  coupled fresh m c s -> select m = Some sv -> request_ok (wire_request r) -> Read r = true -> AP r = true ->
  let b := sim_rdbuff (dp s) in
  simRead Background (sim_request (wire_request r)) (mkSim (set_started true (dp s)) (outer s)) =
    match aps (dp s) !! NewAPSel (uint8 (Z.shiftr sv 24)) with
    | None => ((b, None), mkSim (set_resend b (set_rdbuff 0 (set_started true (dp s)))) (outer s))
    | Some a =>
        let '((x, e), (a, w)) := readRegister Background (Z.lor (Z.land sv 0xf0) (Addr r)) (a, outer s) in
        let t := set_aps (<[NewAPSel (uint8 (Z.shiftr sv 24)) := a]> (aps (dp s))) (set_started true (dp s)) in
        if errors_Is e dapsim_ErrBusFault then ((b, None), mkSim (set_resend b (set_ctrlStat (Z.lor (ctrlStat t) stickyError) t)) w)
        else match e with
        | Some e => ((0, Some e), mkSim t w)
        | None => ((b, None), mkSim (set_resend b (set_rdbuff x t)) w)
        end
    end.
Proof.
  intros Hc E Hok Hr Ha b. rewrite simRead_start by done. rewrite Ha. destruct (reached _ _ _ _ r _ Hc E) as (V & Esa & Ereg).
  unfold mbind at 1, ST_bind at 1. unfold readAP. unfold mbind at 1, ST_bind at 1. unfold tget, get. cbn [id dp outer].
  rewrite V, Esa, Ereg. cbn [aps set_started].
  destruct (debugWords _ !! _), (aps (dp s) !! NewAPSel (uint8 (Z.shiftr sv 24))) as [a|]; try done.
  all: unfold mbind at 1, ST_bind at 1, on_ap; cbn [dp outer aps set_started].
  all: destruct (readRegister Background _ (a, outer s)) as [[x e] [a' w]]; destruct (errors_Is e dapsim_ErrBusFault); [done|]; by destruct e.
Qed.

(** An access-port read returns what was posted and posts its own value. *)
Lemma sim_ap_read fresh m c s r d v m' :
  coupled fresh m c s -> request_ok (wire_request r) -> AP r = true -> Read r = true ->
  exec_ap r d m = Some (v, m') -> r_ok (DapPlanFacts.regs m') = true -> simulated fresh r d v m' c s.
Proof.
  intros Hc Hok Ha Hr E Hk. pose proof Hc as [Er _ _ Ef [V C Sel] Em]. unfold exec_ap in E. rewrite Hr in E.
  destruct (settled m) eqn:St; [|done]. destruct (select m) as [sv|] eqn:Esel; [|done].
  pose proof (proj1 (cp_select _ _ _ _ Hc sv Esel)) as Ed. pose proof (settled_pending _ _ _ _ _ Hc Esel St) as Ep. cbn [mbind option_bind] in E.
  cbn [ap_read Regs_Registers] in E. rewrite Er in E. unfold on_port in E. cbn [r_dp r_out r_ok strip aps] in E.
  pose proof (access_spec Background (wire_request r) (wire_data r d) s Hok C) as Ac. cbv zeta in Ac. unfold isRead in Ac. cbn [read wire_request] in Ac.
  fold (wire_request r) in Ac. rewrite Hr, (simRead_ap _ _ _ _ r _ Hc Esel Hok Hr Ha) in Ac.
  assert (forall s' t, access Background (wire_request r) (wire_data r d) s = ((uint32 (sim_rdbuff (dp s)), None), s') ->
      dp s' = set_resend (sim_rdbuff (dp s)) t -> strip t = r_dp (DapPlanFacts.regs m') -> outer s' = r_out (DapPlanFacts.regs m') ->
      selectDP t = sv -> version t = version (dp s) -> ctrlStat t = ctrlStat (dp s) -> phys_rdbuff m' = uint32 (sim_rdbuff t) ->
      select m' = Some sv -> v = phys_rdbuff m -> simulated fresh r d v m' c s) as Hfin.
  { intros s' t Eacc Et T1 Eo T2 T3 T4 T5 Es' ->.
    assert (simOverrunDetect (dp s') = simOverrunDetect (dp s)) as Eov by (unfold simOverrunDetect; rewrite Et; cbn; by rewrite T4).
    eapply simulated_intro; [done| | |by rewrite Ep|exact Eacc|done| |by rewrite Hr|].
    - unfold wire_data. rewrite Hr. lia.
    - apply validate_unaffected. unfold isRead. cbn. by rewrite Hr.
    - unfold freshness. rewrite Hr, Ha, observe_settled; [|done|by unfold isAP; cbn; rewrite Ha].
      eapply coupled_settled; try done; rewrite ?Et; try done; cbn; [|by rewrite T4].
      rewrite Eo. destruct (DapPlanFacts.regs m') as [x y z]. cbn in *. by rewrite Hk, <- T1.
    - intros Hf _. symmetry. apply Ef, Hf. unfold posted. by rewrite Hr, Ha. }
  destruct (aps (dp s) !! NewAPSel (uint8 (Z.shiftr sv 24))) as [a|].
  - destruct (readRegister Background _ (a, outer s)) as [[x e] [a' w]]. cbn [r_dp r_out r_ok] in E. injection E as <- <-.
    cbn [DapPlanFacts.regs r_ok] in Hk. destruct e as [e|]; [done|]. cbn [errors_Is] in Ac. by eapply Hfin; [exact Ac|..].
  - cbn in E. injection E as <- <-. by eapply Hfin; [exact Ac|..].
Qed.

Lemma simWrite_start ctx r d (s : Sim W) :
  request_ok (wire_request r) -> Read r = false ->
  let s1 := mkSim (set_started true (dp s)) (outer s) in
  simWrite ctx (sim_request (wire_request r)) d s1 =
    (if AP r then tmod (set_rdbuff 0);; writeAP ctx (sim_request (wire_request r)) d else writeDPRegister (Addr r) d) s1.
Proof.
  intros Hok Hr s1. unfold simWrite. rewrite validateRequest_ok by done. unfold mbind at 1, ST_bind at 1. rewrite simCtx_alive.
  unfold mbind at 1, ST_bind at 1. unfold tmod at 1, put at 1. done.
Qed.

(** An access-port write performs the write and loses what was posted. *)
Lemma sim_ap_write fresh m c s r d v m' :
  coupled fresh m c s -> request_ok (wire_request r) -> 0 <= d < 2 ^ 32 -> AP r = true -> Read r = false ->
  exec_ap r d m = Some (v, m') -> r_ok (DapPlanFacts.regs m') = true -> simulated fresh r d v m' c s.
Proof.
  intros Hc Hok Hd Ha Hr E Hk. pose proof Hc as [Er _ _ Ef [V C Sel] Em]. unfold exec_ap in E. rewrite Hr in E.
  destruct (settled m) eqn:St; [|done]. destruct (select m) as [sv|] eqn:Esel; [|done].
  pose proof (proj1 (cp_select _ _ _ _ Hc sv Esel)) as Ed. pose proof (settled_pending _ _ _ _ _ Hc Esel St) as Ep. cbn [mbind option_bind] in E.
  injection E as <- <-. cbn [DapPlanFacts.regs ap_write Regs_Registers] in Hk. rewrite Er in Hk. unfold on_port in Hk. cbn [r_dp r_out r_ok strip aps] in Hk.
  pose proof (access_spec Background (wire_request r) (wire_data r d) s Hok C) as Ac. cbv zeta in Ac. unfold isRead in Ac. cbn [read wire_request] in Ac.
  fold (wire_request r) in Ac. rewrite Hr, simWrite_start, Ha in Ac by done. unfold wire_data in Ac. rewrite Hr in Ac.
  unfold mbind at 1, ST_bind at 1 in Ac. unfold tmod at 1, put at 1 in Ac. cbn [dp outer] in Ac.
  unfold writeAP in Ac. unfold mbind at 1, ST_bind at 1 in Ac. unfold tget, get in Ac. cbn [id dp outer] in Ac.
  destruct (reached _ _ _ _ r _ Hc Esel) as (Ev & Esa & Ereg).
  change (selectedAP (set_rdbuff 0 (set_started true (dp s)))) with (selectedAP (set_started true (dp s))) in Ac.
  change (apReg (set_rdbuff 0 (set_started true (dp s)))) with (apReg (set_started true (dp s))) in Ac. rewrite Esa, Ereg in Ac. cbn [aps set_rdbuff set_started] in Ac.
  assert (forall s', access Background (wire_request r) d s = ((0, None), s') ->
      ap_write (Z.shiftr sv 24) (Z.lor (Z.land sv 240) (Addr r)) d (DapPlanFacts.regs m) = mkRegs (strip (dp s')) (outer s') true ->
      selectDP (dp s') = sv -> version (dp s') = version (dp s) -> ctrlStat (dp s') = ctrlStat (dp s) -> simulated fresh r d 0
        (mkPhys (select m) true (phys_rdbuff m) (DapPlanFacts.resend m) (ap_write (Z.shiftr sv 24) (Z.lor (Z.land sv 240) (Addr r)) d (DapPlanFacts.regs m))) c s) as Hfin.
  { intros s' Eacc T1 T2 T3 T4.
    assert (simOverrunDetect (dp s') = simOverrunDetect (dp s)) as Eov by (unfold simOverrunDetect; by rewrite T4).
    eapply simulated_intro; [done| | |by rewrite Ep| |exact Eov| |done|done]; unfold wire_data; rewrite ?Hr; [done| |exact Eacc|].
    - apply validate_unaffected. unfold unaffected, isAP. cbn. rewrite Ha. apply orb_true_r.
    - unfold freshness. rewrite Hr, observe_settled; [|done|by unfold isAP; cbn; rewrite Ha].
      eapply coupled_settled; try done; cbn; by rewrite ?T4. }
  rewrite Esel in Hfin. cbn [ap_write Regs_Registers] in *. rewrite Er in *. unfold on_port in *. cbn [r_dp r_out r_ok strip aps] in *.
  destruct (aps (dp s) !! NewAPSel (uint8 (Z.shiftr sv 24))) as [a|].
  - unfold mbind at 1, ST_bind at 1, on_ap in Ac. cbn [dp outer aps] in Ac. unfold mbind, ST_bind in Hk, Hfin. unfold mbind, ST_bind.
    destruct (writeRegister Background _ d (a, outer s)) as [e [a' w]]. cbn [snd mret ST_ret r_ok] in *. destruct e as [e|]; [done|]. cbn [errors_Is] in Ac.
    by eapply Hfin; [exact Ac|..].
  - by eapply Hfin; [exact Ac|..].
Qed.

(** Reads that leave the selection alone. *)
Lemma sim_identity fresh m c s r d v m' :
  coupled fresh m c s -> AP r = false -> Read r = true -> Addr r = 0 ->
  exec_dp false r d m = Some (v, m') -> simulated fresh r d v m' c s.
Proof.
  intros Hc Ha Hr Hz E. pose proof Hc as [Er Es Ep Ef [V C Sel] Em]. unfold exec_dp, reach, banked in E. rewrite Hz, Hr in E. cbn in E.
  injection E as <- <-. assert (request_ok (wire_request r)) as Hok by (unfold request_ok, wire_request; cbn; rewrite Hz; by left).
  pose proof (access_spec Background (wire_request r) (wire_data r d) s Hok C) as Ac. cbv zeta in Ac. unfold isRead in Ac. cbn [read wire_request] in Ac.
  fold (wire_request r) in Ac. rewrite Hr, simRead_start, Ha, Hz in Ac by done. unfold readDPRegister, mbind at 1, ST_bind at 1, tget, get in Ac. cbn [id dp Z.eqb] in Ac.
  unfold readIdentityRegister in Ac. change (version (set_started true (dp s))) with (version (dp s)) in Ac. rewrite (proj2 (Z.eqb_neq _ _) V) in Ac. cbn in Ac.
  assert (observeTransfer (wire_request r) (uint32 (dpidr_ (dp s))) (wire_data r d) None c = c) as Eo.
  { unfold observeTransfer, observePendingSelection, isAbortWrite, isDPIDRRead, isAP, isRead, address, wire_request. cbn. rewrite Ha, Hr, Hz. cbn.
    by destruct (SwdConn.selectPending c). }
  eapply simulated_intro; [done| | | |exact Ac|done| |congruence|intros _ _; by rewrite Er].
  - unfold wire_data. rewrite Hr. lia.
  - apply validate_unaffected. unfold isRead. cbn. by rewrite Hr.
  - rewrite possible_unaffected; [apply andb_false_r|]. unfold unaffected, address. cbn. rewrite Hz. apply orb_true_r.
  - unfold freshness. rewrite Hr, Ha, Hz. cbn [Z.eqb]. rewrite Eo. by split.
Qed.

(** A read at another address than 4 of the debug port confirms a selection. *)
Lemma observe_confirm r v d c :
  AP r = false -> Read r = true -> Addr r = 0x08 \/ Addr r = 0x0c ->
  observeTransfer (wire_request r) v d None c = if SwdConn.selectPending c then confirmBank c else c.
Proof.
  intros Ha Hr Hz. unfold observeTransfer, observePendingSelection, isAbortWrite, isDPIDRRead, isBankZeroCTRLSTATRead, isPossibleCTRLSTATRead, isAP, isRead, address, wire_request.
  cbn. rewrite Ha, Hr. destruct Hz as [->| ->]; cbn; by destruct (SwdConn.selectPending c).
Qed.

(** RDBUFF and RESEND settle the selection. *)
Lemma sim_buffer fresh m c s r d v m' :
  coupled fresh m c s -> AP r = false -> Read r = true -> Addr r = 0x08 \/ Addr r = 0x0c ->
  exec_dp false r d m = Some (v, m') -> simulated fresh r d v m' c s.
Proof.
  intros Hc Ha Hr Hz E. pose proof Hc as [Er Es Ep Ef [V C Sel] Em].
  assert (request_ok (wire_request r)) as Hok by (unfold request_ok, wire_request; cbn; rewrite !elem_of_cons; tauto).
  pose proof (access_spec Background (wire_request r) (wire_data r d) s Hok C) as Ac. cbv zeta in Ac. unfold isRead in Ac. cbn [read wire_request] in Ac.
  fold (wire_request r) in Ac. rewrite Hr, simRead_start, Ha in Ac by done. unfold readDPRegister, mbind at 1, ST_bind at 1, tget, get in Ac. cbn [id dp] in Ac.
  assert (exists v' s', access Background (wire_request r) (wire_data r d) s = ((v', None), s') /\ ctrlStat (dp s') = ctrlStat (dp s) /\
    DapPlanFacts.regs m' = mkRegs (strip (dp s')) (outer s') true /\ select m' = select m /\ settled m' = true /\ selectDP (dp s') = selectDP (dp s) /\
    dpidr_ (dp s') = dpidr_ (dp s) /\ (freshness r fresh = true -> phys_rdbuff m' = uint32 (sim_rdbuff (dp s'))) /\
    (Addr r = 0x0c -> v' = uint32 (sim_rdbuff (dp s)) /\ v = phys_rdbuff m)) as (v' & s' & A1 & A2 & A3 & A4 & A5 & A6 & A7 & A8 & A9).
  { unfold exec_dp in E. unfold freshness. rewrite Hr in *. destruct Hz as [Hz|Hz]; rewrite Hz, Ha in *; cbn in E, Ac; injection E as <- <-;
      (eexists _, _; split; [exact Ac|]; cbn; by rewrite Er). }
  eapply simulated_intro; [done| | | |exact A1|unfold simOverrunDetect; by rewrite A2| |congruence|].
  - unfold wire_data. rewrite Hr. lia.
  - apply validate_unaffected. unfold isRead. cbn. by rewrite Hr.
  - rewrite possible_unaffected; [apply andb_false_r|]. unfold unaffected, address. cbn. rewrite Ha. by destruct Hz as [->| ->].
  - rewrite observe_confirm by done. split; try done.
    + intros w Hw. rewrite A4 in Hw. destruct (Es w Hw) as [D B]. rewrite A6. split; [done|]. by destruct (SwdConn.selectPending c).
    + intros w _ _. by destruct (SwdConn.selectPending c) eqn:Epc.
    + split; [unfold version in *; by rewrite A7|by rewrite A2|by rewrite A6].
    + unfold matched, overrunEnabled in *. cbn in *. unfold simOverrunDetect in *. rewrite A2. by destruct (SwdConn.selectPending c).
  - intros Hf Hn. unfold posted in Hf. rewrite Hr, Ha in *. cbn in Hf, Hn. destruct Hz as [Hz|Hz]; [by rewrite Hz in Hn|].
    destruct (A9 Hz) as [-> ->]. symmetry. apply Ef, Hf. by rewrite Hz.
Qed.

(** Writing SELECT. *)
Lemma sim_select fresh m c s r d v m' :
  coupled fresh m c s -> 0 <= d < 2 ^ 32 -> AP r = false -> Read r = false -> Addr r = 0x08 ->
  exec_dp false r d m = Some (v, m') -> simulated fresh r d v m' c s.
Proof.
  intros Hc Hd Ha Hr Hz E. pose proof Hc as [Er Es Ep Ef [V C Sel] Em]. unfold exec_dp in E. rewrite Hz, Hr in E. cbn in E. injection E as <- <-.
  assert (request_ok (wire_request r)) as Hok by (unfold request_ok, wire_request; cbn; rewrite Hz, !elem_of_cons; tauto).
  pose proof (access_spec Background (wire_request r) (wire_data r d) s Hok C) as Ac. cbv zeta in Ac. unfold isRead in Ac. cbn [read wire_request] in Ac.
  fold (wire_request r) in Ac. rewrite Hr, simWrite_start, Ha, Hz in Ac by done. unfold wire_data in Ac. rewrite Hr in Ac. cbn in Ac.
  eapply (simulated_intro _ _ _ _ _ _ _ 0 (mkSim (set_selectDP d (set_rdbuff 0 (set_started true (dp s)))) (outer s))); [done| | | | |done| |done|done]; unfold wire_data; rewrite ?Hr; [done| | |exact Ac|].
  - apply validate_unaffected. unfold unaffected, address. cbn. rewrite Hz. by rewrite !orb_true_r.
  - rewrite possible_unaffected; [apply andb_false_r|]. unfold unaffected, address. cbn. rewrite Hz. apply orb_true_r.
  - unfold freshness. rewrite Hr.
    assert (forall c0, SwdConn.response c0 = SwdConn.response c -> coupled false (mkPhys (Some d) false (phys_rdbuff m) (DapPlanFacts.resend m) (DapPlanFacts.regs m))
      (set_bank (mkBank (uint8 (Z.land d 15)) true) (SwdConn.bank c0) true c0) (mkSim (set_selectDP d (set_rdbuff 0 (set_started true (dp s)))) (outer s))) as Hf.
    { intros c0 E0. split; try done. - intros w Hw. cbn in *. by injection Hw as <-. - unfold matched in *. cbn in *. by rewrite E0. }
    unfold observeTransfer, observePendingSelection, isAbortWrite, isDPIDRRead, isBankZeroCTRLSTATRead, isPossibleCTRLSTATRead, isAP, isRead, address, wire_request.
    cbn. rewrite Ha, Hr, Hz. cbn. destruct (SwdConn.selectPending c); by apply Hf.
Qed.

Lemma any_bits_clear a b m : any_bits a m = false -> any_bits (Z.ldiff a b) m = false.
Proof.
  unfold any_bits. rewrite !negb_false_iff, !Z.eqb_eq. intros E. apply Z.bits_inj'. intros n Hn. apply (f_equal (fun z => Z.testbit z n)) in E.
  rewrite Z.land_spec, Z.bits_0 in *. rewrite Z.ldiff_spec. destruct (Z.testbit a n), (Z.testbit m n); try done; by rewrite ?andb_false_r.
Qed.

Lemma clearSticky_spec d t :
  (any_bits (ctrlStat t) sticky = false -> any_bits (ctrlStat (clearSticky d t)) sticky = false) /\
  simOverrunDetect (clearSticky d t) = simOverrunDetect t.
Proof.
  unfold clearSticky, simOverrunDetect. cbn [ctrlStat set_ctrlStat]. split.
  - intros E. repeat case_match; repeat apply any_bits_clear; done.
  - repeat case_match; rewrite ?any_bits_ldiff by done; done.
Qed.

(** Writing ABORT. *)
Lemma sim_abort fresh m c s r d v m' :
  coupled fresh m c s -> 0 <= d < 2 ^ 32 -> AP r = false -> Read r = false -> Addr r = 0 ->
  exec_dp false r d m = Some (v, m') -> simulated fresh r d v m' c s.
Proof.
  intros Hc Hd Ha Hr Hz E. pose proof Hc as [Er Es Ep Ef [V C Sel] Em]. unfold exec_dp, reach, banked in E. rewrite Hz, Hr in E. cbn in E. injection E as <- <-.
  assert (request_ok (wire_request r)) as Hok by (unfold request_ok, wire_request; cbn; rewrite Hz, !elem_of_cons; tauto).
  pose proof (access_spec Background (wire_request r) (wire_data r d) s Hok C) as Ac. cbv zeta in Ac. unfold isRead in Ac. cbn [read wire_request] in Ac.
  fold (wire_request r) in Ac. rewrite Hr, simWrite_start, Ha, Hz in Ac by done. unfold wire_data in Ac. rewrite Hr in Ac. cbn -[clearSticky] in Ac.
  set (t := set_rdbuff 0 (set_started true (dp s))) in *. destruct (clearSticky_spec d t) as [K1 K2].
  eapply (simulated_intro _ _ _ _ _ _ _ 0 (mkSim (clearSticky d t) (outer s))); [done| | | | |exact K2| |done|done]; unfold wire_data; rewrite ?Hr; [done| | |exact Ac|].
  - apply validate_unaffected. unfold unaffected, address. cbn. rewrite Hz. by rewrite !orb_true_r.
  - rewrite possible_unaffected; [apply andb_false_r|]. unfold unaffected, address. cbn. rewrite Hz. apply orb_true_r.
  - unfold freshness. rewrite Hr.
    assert (observeTransfer (wire_request r) 0 d None c = if SwdConn.selectPending c then invalidateBank c else c) as ->.
    { unfold observeTransfer, observePendingSelection, isAbortWrite, isAP, isRead, address, wire_request. cbn. rewrite Ha, Hr, Hz. cbn. by destruct (SwdConn.selectPending c). }
    split; cbn [dp outer]; try done.
    + cbn. by rewrite Er.
    + intros w Hw. cbn in Hw. destruct (settled m) eqn:St; [|done]. cbn in Hw. destruct (Es w Hw). by rewrite (Ep w eq_refl Hw).
    + intros w Hst Hw. cbn in *. rewrite Hst in *. cbn in Hw. pose proof (Ep w eq_refl Hw) as Epc. by rewrite Epc.
    + split; [done|by apply K1|done].
    + unfold matched, overrunEnabled in *. cbn in *. rewrite K2. change (simOverrunDetect t) with (simOverrunDetect (dp s)). by destruct (SwdConn.selectPending c).
Qed.

(** Banked registers. *)
Lemma sim_banked_read fresh m c s r d v m' :
  coupled fresh m c s -> AP r = false -> Read r = true -> Addr r = 4 ->
  exec_dp false r d m = Some (v, m') -> simulated fresh r d v m' c s.
Proof.
  intros Hc Ha Hr Hz E. pose proof Hc as [Er Es Ep Ef [V C Sel] Em]. unfold exec_dp, reach, banked in E. rewrite Hz, Hr in E. cbn in E.
  destruct (settled m) eqn:St; [|done]. destruct (select m) as [sv|] eqn:Esel; [|done]. cbn in E. injection E as <- <-.
  pose proof (proj1 (cp_select _ _ _ _ Hc sv Esel)) as Ed. pose proof (settled_pending _ _ _ _ _ Hc Esel St) as Epc.
  assert (request_ok (wire_request r)) as Hok by (unfold request_ok, wire_request; cbn; rewrite Hz, !elem_of_cons; tauto).
  pose proof (access_spec Background (wire_request r) (wire_data r d) s Hok C) as Ac. cbv zeta in Ac. unfold isRead in Ac. cbn [read wire_request] in Ac.
  fold (wire_request r) in Ac. rewrite Hr, simRead_start, Ha, Hz in Ac by done. unfold readDPRegister, mbind, ST_bind, tget, get in Ac. cbn in Ac. rewrite Ed in Ac.
  eapply (simulated_intro _ _ _ _ _ _ _ _ (mkSim (set_started true (dp s)) (outer s))); [done| | |by rewrite Epc|exact Ac|done| |congruence|intros _ _; by rewrite Er].
  - unfold wire_data. rewrite Hr. lia.
  - apply validate_unaffected. unfold isRead. cbn. by rewrite Hr.
  - unfold freshness. rewrite Hr, Ha, Hz. cbn [Z.eqb]. rewrite observe_settled; [|done|unfold isRead; cbn; rewrite Hr; by rewrite andb_false_r].
    by eapply coupled_settled.
Qed.

(** The bank that a write reaches depends on the selection alone. *)
Lemma writeBanked_strip d t e t1 :
  version t <> 3 -> writeBankedRegister d t = (e, t1) ->
  writeBankedRegister d (set_selectDP (Z.land (selectDP t) 0x0f) (strip t)) = (e, set_selectDP (Z.land (selectDP t) 0x0f) (strip t1)) /\
  selectDP t1 = selectDP t /\ version t1 = version t /\ sim_rdbuff t1 = sim_rdbuff t.
Proof.
  intros V. assert (Z.land (Z.land (selectDP t) 0x0f) 0x0f = Z.land (selectDP t) 0x0f) as E2 by (by rewrite <- Z.land_assoc).
  unfold writeBankedRegister, mbind, ST_bind, get, put. cbn [selectDP set_selectDP strip]. rewrite E2.
  repeat (case_match; cbv beta iota). all: intros [= <- <-].
  all: try match goal with Hv : (version _ =? 3) = true |- _ => apply Z.eqb_eq in Hv; by destruct V end.
  all: split_and!; try done. all: unfold setPower, strip; cbn; repeat case_match; done.
Qed.

Lemma setPower_spec d t :
  (any_bits (ctrlStat t) sticky = false -> any_bits (ctrlStat (setPower d t)) sticky = false) /\ simOverrunDetect (setPower d t) = any_bits d 1.
Proof.
  unfold setPower, simOverrunDetect. cbn [ctrlStat set_ctrlStat]. split.
  - intros E. assert (Z.land (ctrlStat t) sticky = 0) as ->.
    { unfold any_bits in E. by apply negb_false_iff, Z.eqb_eq in E. }
    rewrite Z.lor_0_l. assert (any_bits (Z.land d (Z.lor (Z.lor overrunDetect debugPowerRequest) systemPowerRequest)) sticky = false) as Ez.
    { unfold any_bits. by rewrite <- Z.land_assoc, Z.land_0_r. }
    repeat case_match; rewrite ?any_bits_lor_clear by done; done.
  - assert (any_bits (Z.lor (Z.land (ctrlStat t) sticky) (Z.land d (Z.lor (Z.lor overrunDetect debugPowerRequest) systemPowerRequest))) overrunDetect = any_bits d 1) as Ez.
    { unfold any_bits. rewrite Z.land_lor_distr_l, <- !Z.land_assoc. change (Z.land sticky overrunDetect) with 0. by rewrite Z.land_0_r, Z.lor_0_l. }
    repeat case_match; rewrite ?any_bits_lor_clear by done; done.
Qed.

Lemma sim_banked_write fresh m c s r d v m' :
  coupled fresh m c s -> 0 <= d < 2 ^ 32 -> AP r = false -> Read r = false -> Addr r = 4 ->
  exec_dp false r d m = Some (v, m') -> r_ok (DapPlanFacts.regs m') = true -> simulated fresh r d v m' c s.
Proof.
  intros Hc Hd Ha Hr Hz E Hk. pose proof Hc as [Er Es Ep Ef [V C Sel] Em]. unfold exec_dp, reach, banked in E. rewrite Hz, Hr in E. cbn -[dp_write] in E.
  destruct (settled m) eqn:St; [|done]. destruct (select m) as [sv|] eqn:Esel; [|done]. cbn -[dp_write] in E. injection E as <- <-.
  destruct (Es sv eq_refl) as [Ed Eb]. pose proof (settled_pending _ _ _ _ _ Hc Esel St) as Epc.
  cbn [DapPlanFacts.regs] in Hk. set (t := set_rdbuff 0 (set_started true (dp s))). destruct (writeBankedRegister d t) as [e t1] eqn:Ew.
  destruct (writeBanked_strip d t e t1 V Ew) as (Ew' & T2 & T3 & T4). change (selectDP t) with (selectDP (dp s)) in *. rewrite Ed in Ew', T2.
  assert (dp_write (Z.land sv 15) 4 d (DapPlanFacts.regs m) = mkRegs (strip t1) (outer s) (is_nil e && Bool.eqb (simOverrunDetect t1) (simOverrunDetect (dp s)))) as Edw.
  { rewrite Er. cbn [dp_write Regs_Registers r_dp r_out r_ok Z.eqb Pos.eqb]. change (strip (dp s)) with (strip t). by rewrite Ew'. }
  match type of Hk with r_ok ?x = true => change x with (dp_write (Z.land sv 15) 4 d (DapPlanFacts.regs m)) in Hk |- * end. rewrite Edw in Hk |- *. cbn [r_ok] in Hk. apply andb_prop in Hk as [He Hov]. destruct e as [e|]; [done|]. apply eqb_prop in Hov.
  assert (request_ok (wire_request r)) as Hok by (unfold request_ok, wire_request; cbn; rewrite Hz, !elem_of_cons; tauto).
  pose proof (access_spec Background (wire_request r) (wire_data r d) s Hok C) as Ac. cbv zeta in Ac. unfold isRead in Ac. cbn [read wire_request] in Ac.
  fold (wire_request r) in Ac. rewrite Hr, simWrite_start, Ha, Hz in Ac by done. unfold wire_data in Ac. rewrite Hr in Ac.
  unfold writeDPRegister, mbind, ST_bind, tmod, put, on_dp in Ac. cbn [Z.eqb Pos.eqb dp outer] in Ac. fold t in Ac. rewrite Ew in Ac.
  assert (validateTransfer (wire_request r) d c = None /\ any_bits (ctrlStat t1) sticky = false) as [Ev Ec].
  { unfold validateTransfer, isAP, isRead, address. cbn [SwdFrame.ap SwdFrame.read addr wire_request]. rewrite Ha, Hr, Hz, Epc, Eb. cbn [orb negb Z.eqb Pos.eqb bank_valid bank_].
    assert (0 <= Z.land sv 15 < 16) as Hb by (apply (land_mask_range sv 15 4); lia).
    replace (uint8 (Z.land sv 15)) with (Z.land sv 15) by (unfold uint8; rewrite Z.mod_small; lia).
    unfold writeBankedRegister, mbind, ST_bind, get, put in Ew. change (selectDP t) with (selectDP (dp s)) in Ew. rewrite Ed in Ew.
    destruct (Z.eqb_spec (Z.land sv 15) 0) as [Eq|].
    - rewrite Eq. injection Ew as <-. destruct (setPower_spec d t) as [P1 P2]. split; [|by apply P1]. cbn [andb]. rewrite P2 in Hov. rewrite Hov.
      unfold matched, overrunEnabled in Em. cbn in Em. rewrite Em. by destruct (simOverrunDetect (dp s)).
    - cbn [andb]. destruct (Z.eqb_spec (Z.land sv 15) 5) as [Eq|]; [rewrite Eq; cbn; injection Ew as <-; by destruct (version t =? 3)|].
      destruct (Z.eqb_spec (Z.land sv 15) 1) as [Eq|]; [|injection Ew as <-; done]. cbn [andb].
      change (Z.shiftl 3 8) with dlcrTurnaroundMask. destruct (any_bits d DapSim.dlcrTurnaroundMask); [done|]. injection Ew as <-. done. }
  eapply (simulated_intro _ _ _ _ _ _ _ 0 (mkSim t1 (outer s))); unfold wire_data; rewrite ?Hr; [done|done|exact Ev|by rewrite Epc|exact Ac|done| |done|done].
  unfold freshness. rewrite Hr, observe_settled; [|done|unfold address; cbn; rewrite Hz; by rewrite andb_false_r].
  eapply coupled_settled; try done. cbn. by rewrite Hov, eqb_reflx.
Qed.

(** ** Every request *)

Definition addressed (r : transferRequest) : Prop := Addr r ∈ [0x00; 0x04; 0x08; 0x0c].

Lemma request_simulated fresh m c s r d v m' :
  coupled fresh m c s -> addressed r -> 0 <= d < 2 ^ 32 -> exec_request false r d m = Some (v, m') -> r_ok (DapPlanFacts.regs m') = true ->
  simulated fresh r d v m' c s.
Proof.
  intros Hc Hok Hd E Hk. unfold exec_request in E. destruct (AP r) eqn:Ha, (Read r) eqn:Hr.
  - by eapply sim_ap_read.
  - by eapply sim_ap_write.
  - unfold addressed in Hok. rewrite !elem_of_cons, elem_of_nil in Hok. destruct Hok as [Hz|[Hz|[Hz|[Hz|[]]]]].
    + by eapply sim_identity.
    + by eapply sim_banked_read.
    + by eapply sim_buffer; [..|left|].
    + by eapply sim_buffer; [..|right|].
  - unfold addressed in Hok. rewrite !elem_of_cons, elem_of_nil in Hok. destruct Hok as [Hz|[Hz|[Hz|[Hz|[]]]]].
    + by eapply sim_abort.
    + by eapply sim_banked_write.
    + by eapply sim_select.
    + unfold exec_dp in E. by rewrite Hz, Hr in E.
Qed.
End Sim.

(** ** Memory through the data register *)

Lemma bytes_fold l k acc :
  fold_left (fun v '(i, b) => Z.lor v (Z.shiftl b (Z.of_nat i * 8))) (imap (fun i b => ((k + i)%nat, b)) l) acc =
  Z.lor acc (Z.shiftl (bytes_value false l) (Z.of_nat k * 8)).
Proof.
  revert k acc. induction l as [|b l IH]; intros k acc; [cbn; by rewrite Z.shiftl_0_l, Z.lor_0_r|].
  assert (forall k', imap (fun i b => ((k' + i)%nat, b)) (b :: l) = (k', b) :: imap (fun i b => ((S k' + i)%nat, b)) l) as Ec.
  { intros k'. cbn. f_equal; [f_equal; lia|]. apply imap_ext. intros. cbn. f_equal. lia. }
  rewrite Ec. cbn [fold_left]. rewrite IH. unfold bytes_value at 2. change (imap pair (b :: l)) with (imap (fun i b => ((0 + i)%nat, b)) (b :: l)).
  rewrite Ec. cbn [fold_left]. rewrite IH. rewrite Z.lor_0_l, Z.shiftl_lor, !Z.shiftl_shiftl, Z.lor_assoc by lia. do 2 f_equal; f_equal; lia.
Qed.

Lemma bytes_value_cons b l : bytes_value false (b :: l) = Z.lor b (Z.shiftl (bytes_value false l) 8).
Proof.
  change (bytes_value false (b :: l)) with (fold_left (fun v '(i, b) => Z.lor v (Z.shiftl b (Z.of_nat i * 8))) (imap (fun i b => ((1 + i)%nat, b)) l) (Z.lor 0 (Z.shiftl b 0))).
  by rewrite bytes_fold, Z.lor_0_l, Z.shiftl_0_r.
Qed.

Lemma value_bytes_cons n v : value_bytes false (S n) v = uint8 v :: value_bytes false n (Z.shiftr v 8).
Proof.
  unfold value_bytes. cbn [seq fmap list_fmap]. rewrite Z.shiftr_0_r. f_equal. rewrite <- fmap_S_seq, <- list_fmap_compose. apply list_fmap_ext. intros i x _. cbn.
  rewrite Z.shiftr_shiftr by lia. do 2 f_equal. lia.
Qed.

Lemma bytes_roundtrip n v : bytes_value false (value_bytes false n v) = v mod 2 ^ (8 * Z.of_nat n).
Proof.
  revert v. induction n as [|n IH]; intros v; [by rewrite Z.mod_1_r|]. rewrite value_bytes_cons, bytes_value_cons, IH.
  apply Z.bits_inj'. intros i Hi. rewrite Z.lor_spec, Z.shiftl_spec by lia. unfold uint8.
  rewrite <- !Z.land_ones, Z.land_spec, (Z.land_spec v) by lia. rewrite !Z.testbit_ones_nonneg by lia.
  destruct (Z.lt_ge_cases i 8).
  - rewrite (Z.testbit_neg_r _ (i - 8)) by lia. rewrite (proj2 (Z.ltb_lt i 8)), (proj2 (Z.ltb_lt i _)) by lia. by rewrite orb_false_r.
  - rewrite (proj2 (Z.ltb_ge i 8)), andb_false_r by lia. rewrite Z.land_spec, Z.shiftr_spec by lia. replace (i - 8 + 8) with i by lia.
    rewrite Z.testbit_ones_nonneg by lia. cbn [orb]. f_equal. destruct (Z.ltb_spec (i - 8) (8 * Z.of_nat n)), (Z.ltb_spec i (8 * Z.of_nat (S n))); lia || done.
Qed.

Lemma value_bytes_big n v : value_bytes true n v = reverse (value_bytes false n v).
Proof.
  apply list_eq. intros i. unfold value_bytes. destruct (Nat.lt_ge_cases i n).
  - rewrite reverse_lookup by (rewrite length_fmap, length_seq; lia). rewrite length_fmap, length_seq, !list_lookup_fmap, !lookup_seq_lt by lia. cbn. do 3 f_equal. lia.
  - rewrite !(proj2 (lookup_ge_None _ _)); [done|rewrite length_reverse, length_fmap, length_seq; lia|rewrite length_fmap, length_seq; lia].
Qed.

Lemma bytes_value_range l : Forall (fun b => 0 <= b < 256) l -> 0 <= bytes_value false l < 2 ^ (8 * len l).
Proof.
  induction 1 as [|b l Hb _ IH]; [done|]. rewrite bytes_value_cons. assert (0 <= Z.lor b (Z.shiftl (bytes_value false l) 8)) as Hn.
  { apply Z.lor_nonneg. split; [lia|]. apply Z.shiftl_nonneg. lia. }
  split; [done|]. apply bits_lt_pow2; [unfold len; lia|done|]. intros i Hi. unfold len in *. cbn [length] in Hi.
  rewrite Z.lor_spec, Z.shiftl_spec, (testbit_high b 8), (testbit_high _ (8 * Z.of_nat (length l))) by lia. done.
Qed.

Lemma bytes_value_big l : Forall (fun b => 0 <= b < 256) l -> (length l <= 8)%nat -> bytes_value true l = bytes_value false (reverse l).
Proof.
  induction l as [|b l IH] using rev_ind; intros Hb Hl; [done|]. rewrite length_app in Hl. cbn in Hl. apply Forall_app in Hb as [Hb Hb1].
  rewrite reverse_app. cbn [reverse rev_append app]. change (reverse [b] ++ reverse l) with (b :: reverse l). rewrite bytes_value_cons, <- IH by (done || lia).
  unfold bytes_value at 1. rewrite fold_left_app. cbn [fold_left]. fold (bytes_value true l). rewrite Z.lor_comm. f_equal.
  unfold uint64. apply Z.mod_small. rewrite IH by (done || lia).
  pose proof (bytes_value_range (reverse l) (proj2 (Forall_reverse _ _) Hb)) as Hr. unfold len in Hr. rewrite length_reverse in Hr.
  rewrite Z.shiftl_mul_pow2 by lia. assert (2 ^ (8 * Z.of_nat (length l)) <= 2 ^ 56) by (apply Z.pow_le_mono_r; lia). lia.
Qed.

Lemma order_bytes_roundtrip big n v : (n <= 8)%nat -> bytes_value big (value_bytes big n v) = v mod 2 ^ (8 * Z.of_nat n).
Proof.
  intros Hn. destruct big; [|apply bytes_roundtrip].
  assert (Forall (fun b => 0 <= b < 256) (value_bytes true n v)) as Hb by (unfold value_bytes; apply Forall_fmap, Forall_true; intros; apply uint8_range).
  rewrite bytes_value_big; [|done|unfold value_bytes; by rewrite length_fmap, length_seq]. rewrite value_bytes_big, reverse_involutive. apply bytes_roundtrip.
Qed.

Lemma save_other m addr data k : 0 <= addr -> addr + len data <= 2 ^ 64 -> ~ addr <= k < addr + len data -> at_ (save m addr data) k = at_ m k.
Proof.
  revert m addr. induction data as [|b data IH]; intros m addr Ha Hl Hk; [done|]. cbn [save]. unfold len in *. cbn [length] in *.
  rewrite IH by lia. unfold at_. unfold uint64. rewrite Z.mod_small by lia. by rewrite lookup_insert_ne by lia.
Qed.

Lemma load_save m addr data : 0 <= addr -> addr + len data <= 2 ^ 64 -> load (save m addr data) addr (length data) = data.
Proof.
  unfold load. revert m addr. induction data as [|b data IH]; intros m addr Ha Hl; [done|]. cbn [length seq fmap list_fmap save]. unfold len in *. cbn [length] in *. f_equal.
  - assert (uint64 addr = addr) as E by (unfold uint64; apply Z.mod_small; lia). rewrite Z.add_0_r, E, save_other by (unfold len; lia).
    unfold at_. by rewrite lookup_insert_eq.
  - rewrite <- fmap_S_seq, <- list_fmap_compose. rewrite <- (IH (<[uint64 addr := b]> m) (addr + 1)) at 2 by lia.
    apply list_fmap_ext. intros i x _. cbn. do 2 f_equal. lia.
Qed.

(** Rotation, bit by bit. *)
Lemma rotate_bit x k n : 0 <= x < 2 ^ 32 -> 0 <= n < 32 -> Z.testbit (rotateLeft32 x k) n = Z.testbit x ((n - k) mod 32).
Proof.
  intros Hx Hn. unfold rotateLeft32. change 31 with (Z.ones 5). rewrite Z.land_ones by lia. change (2 ^ 5) with 32.
  pose proof (Z.mod_pos_bound k 32 ltac:(lia)) as Hs. rewrite Zminus_mod, (Z.mod_small n) by lia. set (s := k mod 32) in *.
  rewrite Z.lor_spec, Z.shiftr_spec by lia. unfold uint32. rewrite <- Z.land_ones, Z.land_spec, Z.testbit_ones_nonneg, Z.shiftl_spec, (proj2 (Z.ltb_lt n 32)), andb_true_r by lia.
  destruct (Z.lt_ge_cases n s).
  - rewrite Z.testbit_neg_r by lia. cbn [orb]. f_equal. rewrite <- (Z.mod_small (n + (32 - s)) 32) by lia. replace (n + (32 - s)) with (n - s + 1 * 32) by lia. by rewrite Z.mod_add by lia.
  - rewrite (testbit_high x 32 (n + _)) by lia. rewrite orb_false_r. by rewrite Z.mod_small by lia.
Qed.

Lemma rotate_range x k : 0 <= x < 2 ^ 32 -> 0 <= rotateLeft32 x k < 2 ^ 32.
Proof.
  intros Hx. unfold rotateLeft32. set (s := Z.land k 31). assert (0 <= s < 32) as Hs by (apply (land_mask_range k 31 5); lia).
  assert (0 <= Z.lor (uint32 (Z.shiftl x s)) (Z.shiftr x (32 - s))) as Hn.
  { apply Z.lor_nonneg. split; [apply uint32_range|]. apply Z.shiftr_nonneg. lia. }
  split; [done|]. apply bits_lt_pow2; [lia|done|]. intros i Hi. rewrite Z.lor_spec, Z.shiftr_spec by lia.
  rewrite (testbit_high (uint32 _) 32), (testbit_high x 32) by (apply uint32_range || lia). done.
Qed.

(** The lanes of a transfer hold what was rotated into them. *)
Lemma lanes_exact value w s :
  0 <= value < 2 ^ 32 -> 0 <= w <= 4 ->
  let mask := rotateLeft32 (uint32 (2 ^ (8 * w) - 1)) s in
  Z.land (rotateLeft32 (rotateLeft32 value (- s) mod 2 ^ (8 * w)) s) mask = Z.land value mask.
Proof.
  intros Hv Hw mask. assert (0 < 2 ^ (8 * w) <= 2 ^ 32) as Hp by (split; [lia|apply Z.pow_le_mono_r; lia]).
  assert (uint32 (2 ^ (8 * w) - 1) = Z.ones (8 * w)) as Em by (rewrite uint32_small by lia; rewrite Z.ones_equiv; lia).
  pose proof (rotate_range value (- s) Hv) as Hr.
  assert (0 <= rotateLeft32 value (- s) mod 2 ^ (8 * w) < 2 ^ 32) as Hm by (pose proof (Z.mod_pos_bound (rotateLeft32 value (- s)) (2 ^ (8 * w)) ltac:(lia)); lia).
  apply Z.bits_inj'. intros n Hn. rewrite !Z.land_spec. destruct (Z.lt_ge_cases n 32).
  - subst mask. rewrite Em, !rotate_bit by (rewrite ?Z.ones_equiv; lia). pose proof (Z.mod_pos_bound (n - s) 32 ltac:(lia)) as Hj.
    rewrite <- Z.land_ones, Z.land_spec, rotate_bit by lia. rewrite Zminus_mod_idemp_l. replace (n - s - - s) with n by lia. rewrite (Z.mod_small n) by lia.
    destruct (Z.testbit (Z.ones (8 * w)) ((n - s) mod 32)); by rewrite ?andb_true_r, ?andb_false_r.
  - rewrite (testbit_high value 32), (testbit_high _ 32) by (done || lia || apply rotate_range; lia). done.
Qed.

Section Memory.
Context {W : Type} `{Env W} `{MemoryDevice W}.

(** Registers hold words. *)
Definition words (a : accessPort) : Prop := forall r, 0 <= reg a r < 2 ^ 32.

(** The data register addresses the port's own memory, without increment. *)
Record plain (a : accessPort) (size : Z) : Prop := {
  pl_words : words a;
  pl_size : Z.land (reg a 0) 7 = size;
  pl_inc : Z.land (reg a 0) 0x30 = 0;
  pl_memory : deviceForAccess a (targetAddress a) (Z.shiftl 1 size) = (None, None)
}.

Lemma targetAddress_range a : words a -> 0 <= targetAddress a < 2 ^ 64.
Proof.
  intros Hw. pose proof (Hw 4) as H4. pose proof (Hw 8) as H8. unfold targetAddress. case_match; [|lia].
  assert (0 <= Z.lor (reg a 4) (Z.shiftl (reg a 8) 32)) as Hn by (apply Z.lor_nonneg; split; [lia|apply Z.shiftl_nonneg; lia]).
  split; [done|]. apply bits_lt_pow2; [lia|done|]. intros i Hi. rewrite Z.lor_spec, Z.shiftl_spec, !(testbit_high _ 32) by lia. done.
Qed.

Lemma range_end addr width : 0 <= addr < 2 ^ 64 -> 0 < width <= 8 -> snd (memoryRangeEnd addr width) = None -> addr + width <= 2 ^ 64.
Proof.
  intros Ha Hw. unfold memoryRangeEnd. rewrite (proj2 (Z.ltb_ge width 0)), (proj2 (Z.eqb_neq width 0)) by lia.
  destruct (Z.ltb_spec (uint64 (addr + (width - 1))) addr) as [|Hge]; [done|]. intros _. unfold uint64 in Hge.
  destruct (Z.lt_ge_cases (2 ^ 64) (addr + width)); [|done]. exfalso.
  replace (addr + (width - 1)) with (addr + width - 1 - 2 ^ 64 + 1 * 2 ^ 64) in Hge by lia. rewrite Z.mod_add in Hge by lia. rewrite Z.mod_small in Hge; lia.
Qed.

Lemma plain_end a size : plain a size -> 0 <= size <= 3 -> targetAddress a + Z.shiftl 1 size <= 2 ^ 64.
Proof.
  intros [Hw _ _ Hm] Hs. apply range_end; [by apply targetAddress_range| |].
  - rewrite Z.shiftl_mul_pow2 by lia. assert (2 ^ size <= 2 ^ 3) by (apply Z.pow_le_mono_r; lia). lia.
  - unfold deviceForAccess in Hm. destruct (memoryRangeEnd _ _) as [f [e|]]; [done|done].
Qed.

Lemma width_nat size : 0 <= size <= 3 -> Z.of_nat (Z.to_nat (Z.shiftl 1 size)) = Z.shiftl 1 size /\ (Z.to_nat (Z.shiftl 1 size) <= 8)%nat.
Proof. intros Hs. assert (size = 0 \/ size = 1 \/ size = 2 \/ size = 3) as [->|[->|[->| ->]]] by lia; (split; [reflexivity|apply Nat.leb_le; reflexivity]). Qed.

(** The port with the value in its memory. *)
Definition stored (a : accessPort) (size value : Z) : accessPort :=
  set_memory (save (memory a) (targetAddress a) (value_bytes (any_bits (reg a 0xf4) 1) (Z.to_nat (Z.shiftl 1 size)) value)) a.

Lemma len_value_bytes big n v : len (value_bytes big n v) = Z.of_nat n.
Proof. unfold len, value_bytes. by rewrite length_fmap, length_seq. Qed.

Lemma write_plain ctx a size value (w : W) :
  plain a size -> 0 <= size <= 3 ->
  writeMemoryValue ctx (targetAddress a) (Z.shiftl 1 size) value (a, w) = (None, (stored a size value, w)).
Proof.
  intros Hp Hs. destruct (width_nat size Hs) as [En _]. unfold writeMemoryValue, writeMemory, apget, get, mbind, ST_bind. cbn [fst snd].
  by rewrite len_value_bytes, En, (pl_memory _ _ Hp).
Qed.

Lemma read_plain ctx a size value (w : W) :
  plain a size -> 0 <= size <= 3 ->
  memoryValue ctx (targetAddress a) (Z.shiftl 1 size) (stored a size value, w) = ((value mod 2 ^ (8 * Z.shiftl 1 size), None), (stored a size value, w)).
Proof.
  intros Hp Hs. destruct (width_nat size Hs) as [En Hn]. unfold memoryValue, readMemory, apget, get, mbind, ST_bind. cbn [fst snd].
  change (deviceForAccess (stored a size value)) with (deviceForAccess a). rewrite (pl_memory _ _ Hp). unfold mret, ST_ret. cbn [fst snd].
  change (reg (stored a size value) 0xf4) with (reg a 0xf4).
  set (big := any_bits (reg a 0xf4) 1). set (data := value_bytes big (Z.to_nat (Z.shiftl 1 size)) value).
  assert (memory (stored a size value) = save (memory a) (targetAddress a) data) as -> by done.
  assert (Z.to_nat (Z.shiftl 1 size) = length data) as El by (pose proof (len_value_bytes big (Z.to_nat (Z.shiftl 1 size)) value) as L; unfold len in L; fold data in L; lia).
  rewrite El, load_save; [|apply (targetAddress_range a), Hp|].
  - unfold data. rewrite order_bytes_roundtrip by done. by rewrite En.
  - unfold data. rewrite len_value_bytes, En. by apply plain_end.
Qed.

Lemma stored_other a size value k :
  plain a size -> 0 <= size <= 3 -> ~ targetAddress a <= k < targetAddress a + Z.shiftl 1 size ->
  at_ (memory (stored a size value)) k = at_ (memory a) k.
Proof.
  intros Hp Hs Hk. destruct (width_nat size Hs) as [En _]. apply save_other; rewrite ?len_value_bytes, ?En; [apply (targetAddress_range a), Hp|by apply plain_end|done].
Qed.

Lemma plain_supported a size : plain a size -> 0 <= size <= 3 -> supportsDRWAddressing a = true.
Proof. intros [_ E1 E2 _] Hs. unfold supportsDRWAddressing. rewrite E1, E2. by rewrite (proj2 (Z.leb_le _ _)) by lia. Qed.

Lemma incrementTAR_off a w : Z.land (reg a 0) 0x30 = 0 -> incrementTAR w a = a.
Proof. intros E. unfold incrementTAR. by rewrite E. Qed.

Lemma writeDRW_plain ctx a size value (w : W) :
  plain a size -> 0 <= size <= 2 ->
  writeDRW ctx value (a, w) = (None, (stored a size (rotateLeft32 value (- laneShift a (Z.shiftl 1 size))), w)).
Proof.
  intros Hp Hs. unfold writeDRW, apget, get, mbind, ST_bind. cbn [fst snd]. rewrite (plain_supported a size), (pl_size _ _ Hp) by (done || lia). cbn [negb].
  rewrite (proj2 (Z.eqb_neq size 3)) by lia. cbn [fst snd]. rewrite write_plain by (done || lia). unfold apmod, put. cbn [fst snd].
  rewrite incrementTAR_off; [done|]. apply (pl_inc _ _ Hp).
Qed.

Lemma readDRW_plain ctx a size value (w : W) :
  plain a size -> 0 <= size <= 2 ->
  let shift := laneShift a (Z.shiftl 1 size) in let mask := rotateLeft32 (uint32 (2 ^ (8 * Z.shiftl 1 size) - 1)) shift in
  let result := rotateLeft32 (value mod 2 ^ (8 * Z.shiftl 1 size)) shift in
  readDRW ctx (stored a size value, w) =
    ((if size <? 2 then Z.lor result (Z.ldiff 0xa5a5a5a5 mask) else result, None), (stored a size value, w)).
Proof.
  intros Hp Hs shift mask result. unfold readDRW, apget, get, mbind, ST_bind. cbn [fst snd].
  change (reg (stored a size value) 0) with (reg a 0). change (supportsDRWAddressing (stored a size value)) with (supportsDRWAddressing a).
  rewrite (plain_supported a size), (pl_size _ _ Hp) by (done || lia). cbn [negb]. rewrite (proj2 (Z.eqb_neq size 3)) by lia. cbn [fst snd].
  change (targetAddress (stored a size value)) with (targetAddress a). rewrite read_plain by (done || lia). unfold apmod, put. cbn [fst snd].
  rewrite incrementTAR_off by (apply (pl_inc _ _ Hp)). change (laneShift (stored a size value)) with (laneShift a).
  assert (0 <= value mod 2 ^ (8 * Z.shiftl 1 size) < 2 ^ 32) as Hr.
  { rewrite Z.shiftl_1_l. assert (0 < 2 ^ size <= 2 ^ 2) by (split; [lia|apply Z.pow_le_mono_r; lia]).
    assert (0 < 2 ^ (8 * 2 ^ size) <= 2 ^ 32) by (split; [lia|apply Z.pow_le_mono_r; lia]). pose proof (Z.mod_pos_bound value (2 ^ (8 * 2 ^ size))). lia. }
  rewrite (uint32_small _ Hr). fold shift. fold result. rewrite Z.shiftl_1_l, (Z.mul_comm (2 ^ size)), <- !Z.shiftl_1_l. rewrite (Z.shiftl_1_l (8 * _)). fold mask.
  assert ((Z.shiftl 1 size <? 4) = (size <? 2)) as -> by (assert (size = 0 \/ size = 1 \/ size = 2) as [->|[->| ->]] by lia; done). done.
Qed.

(** A byte, halfword or word written through DRW is read back in its lanes. *)
Lemma drw_roundtrip ctx ctx' a size value (w : W) :
  plain a size -> 0 <= size <= 2 -> 0 <= value < 2 ^ 32 ->
  let mask := rotateLeft32 (uint32 (2 ^ (8 * Z.shiftl 1 size) - 1)) (laneShift a (Z.shiftl 1 size)) in
  exists a' v, writeDRW ctx value (a, w) = (None, (a', w)) /\ readDRW ctx' (a', w) = ((v, None), (a', w)) /\
    Z.land v mask = Z.land value mask /\
    forall k, ~ targetAddress a <= k < targetAddress a + Z.shiftl 1 size -> at_ (memory a') k = at_ (memory a) k.
Proof.
  intros Hp Hs Hv mask. do 2 eexists. split; [by apply writeDRW_plain|]. split; [by apply readDRW_plain|]. split.
  - assert (0 <= Z.shiftl 1 size <= 4) as Hw by (rewrite Z.shiftl_1_l; assert (2 ^ size <= 2 ^ 2) by (apply Z.pow_le_mono_r; lia); lia).
    pose proof (lanes_exact value (Z.shiftl 1 size) (laneShift a (Z.shiftl 1 size)) Hv Hw) as E. cbv zeta in E. fold mask in E. fold mask.
    destruct (size <? 2); [|exact E]. rewrite Z.land_lor_distr_l, E. assert (Z.land (Z.ldiff 0xa5a5a5a5 mask) mask = 0) as ->; [|apply Z.lor_0_r].
    apply Z.bits_inj'. intros n Hn. rewrite Z.land_spec, Z.ldiff_spec, Z.bits_0. destruct (Z.testbit mask n); by rewrite ?andb_false_r.
  - intros k Hk. apply stored_other; [done|lia|done].
Qed.

(** Both halves of a doubleword. *)
Lemma doubleword lo hi : 0 <= lo < 2 ^ 32 -> 0 <= hi < 2 ^ 32 ->
  let v := Z.lor lo (Z.shiftl hi 32) mod 2 ^ (8 * Z.shiftl 1 3) in uint32 v = lo /\ uint32 (Z.shiftr v 32) = hi.
Proof.
  intros Hl Hh. assert (Z.lor lo (Z.shiftl hi 32) = lo + hi * 2 ^ 32) as ->.
  { assert (Z.land lo (Z.shiftl hi 32) = 0) as E0.
    { apply Z.bits_inj'. intros n Hn. rewrite Z.land_spec, Z.bits_0, Z.shiftl_spec by lia.
      destruct (Z.lt_ge_cases n 32); [rewrite (Z.testbit_neg_r hi) by lia; apply andb_false_r|by rewrite (testbit_high lo 32) by lia]. }
    rewrite <- Z.lxor_lor, <- Z.add_nocarry_lxor by done. by rewrite Z.shiftl_mul_pow2 by lia. }
  cbv zeta. change (2 ^ (8 * Z.shiftl 1 3)) with (2 ^ 64). rewrite Z.mod_small by lia. rewrite Z.shiftr_div_pow2 by lia. unfold uint32. split.
  - rewrite Z.mod_add by lia. by apply Z.mod_small.
  - rewrite Z.div_add, Z.div_small by lia. by apply Z.mod_small.
Qed.

Lemma drw_large ctx ctx' a lo hi (w : W) :
  plain a 3 -> any_bits (reg a 0xf4) (Z.shiftl 1 2) = true -> largePhase a = largeDataIdle -> 0 <= lo < 2 ^ 32 -> 0 <= hi < 2 ^ 32 ->
  exists a1 a2 a3 a4, writeDRW ctx lo (a, w) = (None, (a1, w)) /\ writeDRW ctx hi (a1, w) = (None, (a2, w)) /\
    readDRW ctx' (a2, w) = ((lo, None), (a3, w)) /\ readDRW ctx' (a3, w) = ((hi, None), (a4, w)) /\ largePhase a4 = largeDataIdle /\
    forall k, ~ targetAddress a <= k < targetAddress a + 8 -> at_ (memory a4) k = at_ (memory a) k.
Proof.
  intros Hp Hld Hph Hl Hh. set (v := Z.lor lo (Z.shiftl hi 32)). destruct (doubleword lo hi Hl Hh) as [Elo Ehi]. fold v in Elo, Ehi.
  set (a1 := set_large largeDataWrite lo a). set (b := set_large largeDataIdle lo a1). set (a2 := stored b 3 v).
  assert (plain b 3) as Hb by (by destruct Hp). pose proof (plain_supported a 3 Hp ltac:(lia)) as Hsup.
  assert (forall x, reg x 0 = reg a 0 -> reg x 0xf4 = reg a 0xf4 -> supportsDRWAddressing x = true /\ Z.land (reg x 0) 7 = 3 /\ any_bits (reg x 0xf4) (Z.shiftl 1 2) = true) as G.
  { intros x E1 E2. split; [by rewrite <- Hsup; unfold supportsDRWAddressing; rewrite E1|]. by rewrite E1, E2, (pl_size _ _ Hp). }
  assert (forall c x d, reg x 0 = reg a 0 -> reg x 0xf4 = reg a 0xf4 -> writeDRW (W := W) c d (x, w) = writeLarge c d (x, w)) as Gw.
  { intros c x d E1 E2. destruct (G x E1 E2) as (S1 & S2 & _). unfold writeDRW, apget, get, mbind, ST_bind. cbn [fst snd]. by rewrite S1, S2. }
  assert (forall c x, reg x 0 = reg a 0 -> reg x 0xf4 = reg a 0xf4 -> readDRW (W := W) c (x, w) = readLarge c (x, w)) as Gr.
  { intros c x E1 E2. destruct (G x E1 E2) as (S1 & S2 & _). unfold readDRW, apget, get, mbind, ST_bind. cbn [fst snd]. by rewrite S1, S2. }
  exists a1, a2, (set_large largeDataRead hi a2), (set_large largeDataIdle hi a2). split_and!; [| | | |done|].
  - rewrite Gw by done. unfold writeLarge, apget, get, mbind, ST_bind. cbn [fst snd]. rewrite Hld. cbn [negb fst snd]. by rewrite Hph.
  - rewrite Gw by done. unfold writeLarge, apget, get, apmod, put, mbind, ST_bind. cbn [fst snd]. change (reg a1 0xf4) with (reg a 0xf4). rewrite Hld. cbn [negb largePhase a1 set_large].
    cbn [fst snd largeWord set_large]. exact (write_plain ctx b 3 v w Hb ltac:(lia)).
  - rewrite Gr by done. unfold readLarge, apget, get, apmod, put, mbind, ST_bind. cbn [fst snd]. change (reg a2 0xf4) with (reg a 0xf4). rewrite Hld. cbn [negb fst snd].
    change (largePhase a2) with largeDataIdle. cbn [fst snd].
    pose proof (read_plain ctx' b 3 v w Hb ltac:(lia)) as E. change (Z.shiftl 1 3) with 8 in E at 1. change (targetAddress b) with (targetAddress a2) in E.
    fold a2 in E. rewrite E. by rewrite Elo, Ehi.
  - rewrite Gr by done. unfold readLarge, apget, get, apmod, put, mbind, ST_bind. cbn [fst snd]. change (reg (set_large largeDataRead hi a2) 0xf4) with (reg a 0xf4). by rewrite Hld.
  - intros k Hk. change (memory (set_large largeDataIdle hi a2)) with (memory (stored b 3 v)). rewrite stored_other; [done|done|lia|done].
Qed.
End Memory.
