(* ===== verification/DapStack.v ===== *)
(** * The whole stack below a transaction

    Transactions committed through [DebugPort], over the batches of an SWD
    connection, over the bits of the behavioral wire, reach the simulated port
    and give every caller the value its operation means. *)

From stdpp Require Import gmap.
From S2P Require Import Prelude Go JtagTap JtagConn JtagChain SwdFrame SwdConn SwdConnFacts SwdLifecycle SwdBatch SwdSim SwdRefine SwdBatchFacts DapTypes DapErrors DapPlan DapPort DapJtag DapSwd DapAccess DapLifecycle DapTxn DapTxnFacts DapPlanFacts DapTxnRefine DapSim DapSimFacts.
Local Open Scope Z_scope.

(** ** What plans ask of the wire *)

Definition word (d : Z) : Prop := 0 <= d < 2 ^ 32.

Definition wired (s : txnStep) : Prop := addressed (req s) /\ word (step_data s).

(** The step hands out a value that the port must still hold. *)
Definition wants_posted (s : txnStep) : bool := deliver s && deliverValue s && posted (req s).
Definition wants_resend (s : txnStep) : bool :=
  deliver s && deliverValue s && (Read (req s) && negb (AP (req s)) && (Addr (req s) =? 0x08)).

(** Whether every posted value that is handed out is held, when [fresh] says so
    of the first. *)
Fixpoint fresh_ok (fresh : bool) (l : list txnStep) : bool :=
  match l with
  | [] => true
  | s :: l => (negb (wants_posted s) || fresh) && negb (wants_resend s) && fresh_ok (freshness (req s) fresh) l
  end.

Definition fresh_after (fresh : bool) (l : list txnStep) : bool := fold_left (fun f s => freshness (req s) f) l fresh.

Lemma fresh_ok_app l k fresh : fresh_ok fresh (l ++ k) = fresh_ok fresh l && fresh_ok (fresh_after fresh l) k.
Proof. revert fresh. induction l as [|s l IH]; intros fresh; [done|]. cbn [app fresh_ok]. by rewrite IH, !andb_assoc. Qed.

Lemma fresh_ok_weaken l fresh : fresh_ok false l = true -> fresh_ok fresh l = true.
Proof.
  destruct fresh; [|done]. revert l. assert (forall l f, fresh_ok f l = true -> fresh_ok true l = true) as G; [|intros l; apply G].
  induction l as [|s l IH]; intros f; [done|]. cbn [fresh_ok]. rewrite orb_true_r. intros E. apply andb_prop in E as [E1 E2]. apply andb_prop in E1 as [_ ->].
  cbn [andb]. unfold freshness in *. destruct (Read (req s)); [|done]. destruct (AP (req s)); [done|]. destruct (Addr (req s) =? 12); [done|]. by eapply IH.
Qed.

(** Values a transaction may name: words, and no direct reads of the buffers. *)
Definition word_op (o : txnOp) : Prop :=
  word (data o) /\ Forall word (values o) /\ (kind o = txnReadDP -> dpReg o <> RDBUFF /\ dpReg o <> RESEND).

(** A planner whose steps the wire can carry. *)
Record carried (p : swdTxnPlanner) : Prop := {
  ca_wired : Forall wired (steps p);
  ca_fresh : fresh_ok false (steps p) = true;
  ca_select : valid (p_selectDP p) = true -> word (value (p_selectDP p))
}.

Lemma carried_more p l p' :
  carried p -> steps p' = steps p ++ l -> Forall wired l -> fresh_ok false l = true ->
  (valid (p_selectDP p') = true -> word (value (p_selectDP p'))) -> carried p'.
Proof.
  intros [A B C] E Hl Hf Hs. split; [rewrite E; by apply Forall_app| |done].
  by rewrite E, fresh_ok_app, B, fresh_ok_weaken.
Qed.

Lemma carried_emit p l : carried p -> Forall wired l -> fresh_ok false l = true -> carried (emit l p).
Proof. intros Hp Hl Hf. eapply carried_more; [done|reflexivity|done|done|]. apply Hp. Qed.

Lemma addressed_ap a read : addressed (apTransferRequest (uint8 (Z.land a 0x0c)) read).
Proof.
  unfold addressed, apTransferRequest. cbn [Addr]. assert (Z.land a 0x0c = Z.land (Z.land a 0x0f) 0x0c) as -> by (by rewrite <- Z.land_assoc).
  pose proof (land_mask_range a 0x0f 4 ltac:(lia) ltac:(lia)) as Hr. remember (Z.land a 0x0f) as x eqn:E. clear E.
  assert (x = 0 \/ x = 1 \/ x = 2 \/ x = 3 \/ x = 4 \/ x = 5 \/ x = 6 \/ x = 7 \/ x = 8 \/ x = 9 \/ x = 10 \/ x = 11 \/ x = 12 \/ x = 13 \/ x = 14 \/ x = 15) as Hx by lia.
  rewrite !elem_of_cons. repeat (destruct Hx as [->|Hx]; [vm_compute; tauto|]). subst x. vm_compute. tauto.
Qed.

Lemma addressed_dp x read : x = 0 \/ x = 4 \/ x = 8 \/ x = 12 -> addressed (mkTR false read x).
Proof. unfold addressed. cbn. rewrite !elem_of_cons. tauto. Qed.

Lemma word_lor a b : word a -> word b -> word (Z.lor a b).
Proof. unfold word. intros Ha Hb. split; [apply Z.lor_nonneg; lia|]. apply bits_lt_pow2; [lia|apply Z.lor_nonneg; lia|]. intros i Hi. by rewrite Z.lor_spec, !(testbit_high _ 32) by lia. Qed.

Lemma word_ap_select sel a : word (ap_select sel a).
Proof.
  apply word_lor; [apply uint32_range|]. pose proof (land_mask_range a 0xf0 8 ltac:(lia) ltac:(lia)). unfold word. lia.
Qed.

Lemma word_0 : word 0. Proof. unfold word. lia. Qed.

Lemma carried_select i v p : carried p -> word v -> carried (settleSELECT i (selectValue i v p)).
Proof.
  intros Hp Hv. assert (carried (selectValue i v p)) as H1.
  { unfold selectValue. case_match; [done|]. eapply carried_more; [done|reflexivity| |done|done].
    constructor; [|done]. split; [by apply addressed_dp; auto|done]. }
  unfold settleSELECT. case_match; [done|]. eapply carried_more; [done|reflexivity| |done|apply H1].
  constructor; [|done]. split; [by apply addressed_dp; auto|apply word_0].
Qed.

Lemma carried_bank i b p : carried p -> 0 <= b < 16 -> carried (selectBank i b p).
Proof.
  intros Hp Hb. apply carried_select; [done|]. destruct (valid (p_selectDP p)) eqn:E; [|unfold word; lia].
  apply word_lor; [unfold word; lia|]. pose proof (ca_select p Hp E) as Hw. unfold word, and_not in *.
  split; [apply Z.ldiff_nonneg; lia|]. apply bits_lt_pow2; [lia|apply Z.ldiff_nonneg; lia|]. intros n Hn. by rewrite Z.ldiff_spec, (testbit_high _ 32) by lia.
Qed.

Lemma rdbuff_wired i dl dv st sdp cw ar aw acc inv :
  wired (mkStep (dpTransferRequest RDBUFF true) RDBUFF 0 i dl dv st sdp cw ar aw acc inv).
Proof. split; [by apply addressed_dp; auto|apply word_0]. Qed.

Lemma carried_AP i o p : carried p -> word_op o -> carried (lowerAP i o p).
Proof.
  intros Hp (Hd & _). apply carried_emit; [apply carried_select; [done|apply word_ap_select]| |].
  - constructor; [split; [apply addressed_ap|done]|constructor; [apply rdbuff_wired|done]].
  - cbn. by destruct (isReadOp o).
Qed.

Lemma sequence_wired i a st vs : Forall word vs -> Forall wired (sequence_writes i a st vs).
Proof. intros Hv. revert st. induction Hv; intros st; constructor; [split; [apply addressed_ap|done]|done]. Qed.

Lemma sequence_fresh i a st vs k : fresh_ok false k = true -> fresh_ok false (sequence_writes i a st vs ++ k) = true.
Proof. intros Hk. revert st. by induction vs; intros st; cbn. Qed.

Lemma carried_sequence i o p : carried p -> word_op o -> carried (lowerAPWriteSequence i o p).
Proof.
  intros Hp (_ & Hv & _). apply carried_emit; [apply carried_select; [done|apply word_ap_select]| |].
  - apply Forall_app. split; [by apply sequence_wired|]. constructor; [apply rdbuff_wired|done].
  - by apply sequence_fresh.
Qed.

Lemma carried_sequential i o l p : carried p -> carried (lowerSequentialAP i o l p).
Proof.
  intros Hp. apply carried_emit; [apply carried_select; [done|apply word_ap_select]| |].
  - constructor; [split; [apply addressed_ap|apply word_0]|]. apply Forall_app. split; [|constructor; [apply rdbuff_wired|done]].
    generalize (i + 1). induction l as [|o' l IH]; intros j; constructor; [split; [apply addressed_ap|apply word_0]|apply IH].
  - cbn. generalize (i + len l). generalize (i + 1). induction l as [|o' l IH]; intros j k; [done|apply IH].
Qed.

(** ** Debug-port operations *)

Lemma carried_pending p sel pend : carried p -> (valid sel = true -> word (value sel)) -> carried (set_select sel pend p).
Proof. intros [A B _] Hs. by split. Qed.

Lemma carried_selection write reg d r p : carried p -> word d -> carried (dp_selection write reg d r p).
Proof.
  intros Hp Hd. unfold dp_selection.
  assert (forall q, carried q -> carried (if p_selectPending q && settlesSELECT r then set_select (p_selectDP q) false q else q)) as G.
  { intros q Hq. case_match; [|done]. apply carried_pending; [done|apply Hq]. }
  apply G. assert (forall q, carried q -> carried (if write && (reg =? ABORT) && p_selectPending q then set_select noSelect false q else q)) as G2.
  { intros q Hq. case_match; [|done]. by apply carried_pending. }
  apply G2. case_match; [|done]. by apply carried_pending.
Qed.

Lemma carried_DP dp i o p :
  is_jtag dp = false -> p_dp p = dp -> kind o = txnReadDP \/ kind o = txnWriteDP -> validateOp dp o = None -> word_op o ->
  carried p -> carried (lowerDP i o p).
Proof.
  intros Hj Hdp Hk Hv (Hd & _ & Hb) Hp.
  assert (forall info write inv, swd_register (v3 dp) (dpReg o) write info -> (write = false -> dpReg o <> RDBUFF /\ dpReg o <> RESEND) ->
    carried (dp_selection write (dpReg o) (data o) (mkTR false (negb write) (offset info))
      (emit [mkStep (mkTR false (negb write) (offset info)) (dpReg o) (data o) i (negb write) (negb write) false false false false false false inv]
        (if negb (bankIndependent info) then selectBank i (bank info) p else p)))) as G.
  { intros info write inv Hr Hne. apply carried_selection; [|done]. apply carried_emit.
    - inversion Hr as [i0 Ho Hi|i0 Ho Hi|i0 H3 Ho Hi|i0 Ho Hi|i0 Ho Hi|r0 w0 i0 Hi Hbk Ho N1 N2 N3 N4]; subst; rewrite Hi; cbn [negb]; try done. by apply carried_bank.
    - constructor; [|done]. split; [|done]. apply addressed_dp. inversion Hr; subst; lia.
    - inversion Hr as [i0 Ho Hi E1|i0 Ho Hi E1|i0 H3 Ho Hi E1|i0 Ho Hi E1|i0 Ho Hi E1|r0 w0 i0 Hi Hbk Ho N1 N2 N3 N4 E1]; subst.
      + by destruct (Hne eq_refl).
      + by destruct (Hne eq_refl).
      + cbn. unfold wants_posted, wants_resend, posted. cbn. by rewrite Ho.
      + done.
      + done.
      + destruct write; [done|]. unfold wants_posted, wants_resend, posted. cbn. unfold wants_posted, wants_resend, posted. cbn. by destruct Ho as [->|[-> _]]. }
  destruct Hk as [Hk|Hk].
  - destruct (read_validated dp Hj o Hk Hv) as (info & Ev & Hr). rewrite (lowerDP_read dp i o p info Hdp Hk Ev). apply (G info false false); [done|]. by intros _; apply Hb.
  - destruct (write_validated dp Hj o Hk Hv) as (info & Ev & Hr). rewrite (lowerDP_write dp i o p info Hdp Hk Ev). unfold dp_barrier.
    pose proof (G info true ((dpReg o =? ABORT) && any_bits (data o) dapAbort) Hr ltac:(done)) as Hg.
    apply carried_pending; [|apply Hg]. apply carried_emit; [exact Hg| |done]. constructor; [apply rdbuff_wired|done].
Qed.

Lemma lower_dp i o p : p_dp (lower i o p) = p_dp p.
Proof.
  unfold lower, lowerDP, lowerAP, lowerAPWriteSequence, appendAP, appendAPWriteSequence, dp_barrier, dp_selection, selectBank, settleSELECT, selectValue.
  destruct (kind o); cbn [emit p_dp set_select]; repeat case_match; done.
Qed.

Lemma sequential_dp i o l p : p_dp (lowerSequentialAP i o l p) = p_dp p.
Proof. unfold lowerSequentialAP, settleSELECT, selectValue. cbn [emit p_dp]. repeat case_match; done. Qed.

Lemma plan_loop_carried dp n i l p :
  is_jtag dp = false -> p_dp p = dp -> Forall (fun o => validateOp dp o = None /\ word_op o) l -> carried p -> carried (plan_loop n i l p).
Proof.
  intros Hj. revert i l p. induction n as [|n IH]; intros i [|o l] p Hdp Hl Hp; try done. apply Forall_cons in Hl as [[Hv Ho] Hl]. cbn [plan_loop].
  case_match eqn:Es.
  - apply IH; [by rewrite lower_dp|done|]. unfold lower. destruct (kind o) eqn:Ek; try (by apply carried_AP); try (by apply carried_sequence); try done.
    all: apply (carried_DP dp); auto.
  - apply IH; [by rewrite sequential_dp|by apply Forall_drop|by apply carried_sequential].
Qed.

Lemma plan_carried dp l :
  is_jtag dp = false -> Forall (fun o => validateOp dp o = None /\ word_op o) l ->
  (valid (DapTypes.selectDP (DapTypes.state dp)) = true -> word (value (DapTypes.selectDP (DapTypes.state dp)))) ->
  carried (plan_loop (length l) 0 l (newSWDTxnPlanner dp)).
Proof. intros Hj Hl Hs. by apply (plan_loop_carried dp). Qed.

(** ** Steps on the simulated port *)

Section Stack.
Context {W : Type} `{Env W} `{MemoryDevice W}.
Context (calm : Calm (W := W)).

Definition wire_of (s : txnStep) : request * Z := (wire_request (req s), wire_data (req s) (step_data s)).

Lemma performed_intro q d v c (t t1 : Sim W) l vs c2 t2 :
  SwdBatchFacts.accepted q d v c t t1 -> performed l (observeTransfer q v d None c) t1 = Some (vs, c2, t2) ->
  performed ((q, d) :: l) c t = Some (v :: vs, c2, t2).
Proof.
  intros [A1 A2 A3 A4 A5 A6] E. cbn [performed]. rewrite A5, A3, A4, A6, E, !bool_decide_eq_true_2, eqb_reflx by done. done.
Qed.

(** Nothing that went wrong is forgotten. *)
Lemma request_ok_kept r d (m m' : Phys Regs) v : exec_request false r d m = Some (v, m') -> r_ok (DapPlanFacts.regs m') = true -> r_ok (DapPlanFacts.regs m) = true.
Proof.
  unfold exec_request, exec_ap, exec_dp, reach. intros E.
  assert (forall sel a, r_ok (snd (ap_read sel a (DapPlanFacts.regs m))) = true -> r_ok (DapPlanFacts.regs m) = true) as G1.
  { intros sel a. cbn. unfold on_port. destruct (aps _ !! _) as [p|]; [|done]. destruct (readRegister _ _ _) as [[x e] [p' w']]. cbn. by intros [? _]%andb_prop. }
  assert (forall sel a x, r_ok (ap_write sel a x (DapPlanFacts.regs m)) = true -> r_ok (DapPlanFacts.regs m) = true) as G2.
  { intros sel a x. cbn. unfold on_port. destruct (aps _ !! _) as [p|]; [|done]. repeat case_match; simplify_eq/=; first [done|by intros [? _]%andb_prop]. }
  assert (forall b a x, r_ok (dp_write b a x (DapPlanFacts.regs m)) = true -> r_ok (DapPlanFacts.regs m) = true) as G3.
  { intros b a x. cbn. destruct (a =? 4); [|done]. destruct (writeBankedRegister _ _) as [e t]. cbn. by intros [[? _]%andb_prop _]%andb_prop. }
  destruct (AP r).
  - destruct (if settled m then select m else None) as [sv|]; [|done]. cbn [mbind option_bind] in E. destruct (Read r).
    + destruct (ap_read _ _ _) as [x t] eqn:Er in E. injection E as <- <-. intros Hk. eapply G1. by erewrite Er.
    + injection E as <- <-. apply G2.
  - destruct (Addr r =? 12); [destruct (Read r); [|done]; by injection E as <- <-|].
    destruct (Addr r =? 8); [destruct (Read r); by injection E as <- <-|].
    destruct (if banked _ _ then _ else _) as [b|]; [|done]. cbn [mbind option_bind] in E. destruct (Read r); injection E as <- <-; [done|apply G3].
Qed.

Lemma steps_ok_kept l (m m' : Phys Regs) ds : exec_steps false l m = Some (ds, m') -> r_ok (DapPlanFacts.regs m') = true -> r_ok (DapPlanFacts.regs m) = true.
Proof.
  revert m ds. induction l as [|s l IH]; intros m ds; cbn [exec_steps]; [by intros [= _ <-]|].
  destruct (exec_request false (req s) (step_data s) m) as [[v m1]|] eqn:E1; [|done]. cbn [mbind option_bind].
  destruct (exec_steps false l m1) as [[es m2]|] eqn:E2; [|done]. cbn [mbind option_bind]. intros [= <- <-] Hk.
  eapply request_ok_kept; [exact E1|]. by eapply IH.
Qed.

Lemma steps_simulated l fresh m c s ds m' :
  coupled fresh m c s -> Forall wired l -> fresh_ok fresh l = true ->
  exec_steps false l m = Some (ds, m') -> r_ok (DapPlanFacts.regs m') = true ->
  exists vs c' s', performed (wire_of <$> l) c s = Some (vs, c', s') /\ ds = deliveries l vs /\ coupled (fresh_after fresh l) m' c' s' /\
    Forall2 (fun (rd : transferRequest * Z) v => Read (fst rd) = false -> v = 0) (request_of <$> l) vs.
Proof.
  revert fresh m c s ds. induction l as [|st l IH]; intros fresh m c s ds Hc Hw Hf; cbn [exec_steps].
  { intros [= <- <-] _. exists [], c, s. by split_and!. }
  apply Forall_cons in Hw as [[Ha Hd] Hw]. cbn [fresh_ok] in Hf. apply andb_prop in Hf as [Hf Hf2]. apply andb_prop in Hf as [Hp Hr].
  destruct (exec_request false (req st) (step_data st) m) as [[v m1]|] eqn:E1; [|done]. cbn [mbind option_bind].
  destruct (exec_steps false l m1) as [[es m2]|] eqn:E2; [|done]. cbn [mbind option_bind]. intros [= <- <-] Hk.
  destruct (request_simulated calm fresh m c s _ _ _ _ Hc Ha Hd E1 (steps_ok_kept _ _ _ _ E2 Hk)) as (v' & s1 & Hacc & Hc1 & Hz & Hv).
  destruct (IH _ _ _ _ _ Hc1 Hw Hf2 E2 Hk) as (vs & c' & s' & Ep & -> & Hc' & Hz').
  exists (v' :: vs), c', s'. split_and!; [by eapply performed_intro| |done|by constructor]. cbn [deliveries]. f_equal.
  unfold wants_posted, wants_resend in *. destruct (deliver st); [|done]. destruct (deliverValue st); [|done]. cbn [andb] in *.
  rewrite Hv; [done| |by apply negb_true_iff]. intros E. by rewrite E in Hp.
Qed.

(** ** The link *)

(** A connection over the wire of the simulated port. *)
Definition Stack : Type := SwdConn.St (SimWire (Sim W)).

#[global] Instance Stack_Env : Env Stack := {|
  ctx_Err := fun ctx s => let '(e, w) := ctx_Err ctx (SwdConn.world s) in (e, mkSt (conn s) w)
|}.

(** Queues the requests on a batch. *)
Fixpoint queue_all (l : list (transferRequest * Z)) : GoM (BSt (SimWire (Sim W))) (list nat) :=
  match l with
  | [] => mret []
  | (r, d) :: l =>
      p ← SwdBatch.queue (AP r) (Read r) (Addr r) (wire_data r d);
      ps ← queue_all l;
      mret (p :: ps)
  end.

(** [Value] of a read, [Err] of a write. *)
Definition completed (h : list batchResult) (r : transferRequest) (p : nat) : Z * err :=
  let b := default (mkResult false 0 None) (h !! p) in
  if Read r then SwdBatch.Value b else (0, SwdBatch.Err b).

Definition commit_all (ctx : context) (l : list (transferRequest * Z)) : GoM (BSt (SimWire (Sim W))) (list (Z * err) * err) :=
  ps ← queue_all l;
  e ← SwdBatch.Commit ctx;
  h ← gets SwdBatch.heap;
  mret (zip_with (fun rd p => completed h (fst rd) p) l ps, e).

Definition run {S A} (stuck : A) (m : GoM S A) (s : S) : A * S :=
  match m s with Done r => r | _ => (stuck, s) end.

(** A panic below would have no result; there is none. *)
#[global] Instance Stack_Swd : SwdLink Stack := {|
  swd_Connect := fun ctx timeout => run (0, Some (New "panic")) (SwdLifecycle.Connect ctx [Some timeout]);
  swd_Release := fun ctx => run (Some (New "panic")) (SwdLifecycle.Release ctx);
  swd_CleanupPending := fun s => SwdConn.CleanupPending (conn s);
  swd_Commit := fun ctx l w =>
    let '(r, s) := run ((fun _ => pendingResult) <$> l, None) (commit_all ctx l) (mkBSt NewBatch [] w) in (r, cst s)
|}.

Fixpoint queued (i : nat) (l : list (transferRequest * Z)) : list batchOp :=
  match l with
  | [] => []
  | (r, d) :: l => mkOp (AP r) (Read r) (Addr r) (wire_data r d) noRequest i None :: queued (S i) l
  end.

Lemma queue_all_spec l L h w :
  queue_all l (mkBSt (mkBatch true L false) h w) =
    Done (seq (length h) (length l), mkBSt (mkBatch true (L ++ queued (length h) l) false) (h ++ replicate (length l) (mkResult false 0 None)) w).
Proof.
  revert L h. induction l as [|[r d] l IH]; intros L h; [by rewrite !app_nil_r|]. cbn [queue_all].
  rewrite (bind_Done _ _ _ (length h) (mkBSt (mkBatch true (L ++ [mkOp (AP r) (Read r) (Addr r) (wire_data r d) noRequest (length h) None]) false) (h ++ [mkResult false 0 None]) w)) by done.
  rewrite (bind_Done _ _ _ _ _ (IH _ _)). cbn [queued length seq replicate]. rewrite length_app, <- !app_assoc. cbn. by rewrite Nat.add_1_r.
Qed.

Lemma queued_numbered l i : op_result <$> queued i l = seq i (length l).
Proof. revert i. induction l as [|[r d] l IH]; intros i; [done|]. cbn. by rewrite IH. Qed.

Lemma queued_raw l i : raw (queued i l) = (fun '(r, d) => (wire_request r, wire_data r d)) <$> l.
Proof. revert i. induction l as [|[r d] l IH]; intros i; [done|]. cbn. f_equal. apply IH. Qed.

Lemma queued_length l i : length (queued i l) = length l.
Proof. rewrite <- (length_fmap op_result), queued_numbered. apply length_seq. Qed.

Lemma completed_all l vs i h :
  Forall2 (fun (rd : transferRequest * Z) v => Read (fst rd) = false -> v = 0) l vs -> drop i h = SwdBatchFacts.confirmed <$> vs ->
  zip_with (fun rd p => completed h (fst rd) p) l (seq i (length l)) = (fun v => (v, None)) <$> vs.
Proof.
  intros Hz. revert i. induction Hz as [|[r d] v l vs Hv Hz IH]; intros i Hh; [done|]. cbn [length seq zip_with fmap list_fmap].
  assert (h !! i = Some (SwdBatchFacts.confirmed v)) as E.
  { apply (f_equal (fun l => l !! O)) in Hh. by rewrite lookup_drop, Nat.add_0_r in Hh. }
  f_equal; [|apply IH; apply (f_equal (drop 1)) in Hh; by rewrite drop_drop, Nat.add_1_r in Hh].
  unfold completed. cbn [fst]. rewrite E. cbn [default SwdBatch.Value SwdBatch.Err SwdBatchFacts.confirmed SwdBatch.resolved negb SwdBatch.value SwdBatch.result_err].
  destruct (Read r) eqn:Er; [done|]. cbn [fst] in Hv. by rewrite Hv.
Qed.

(** ** The stack performs steps *)

(** The connection [c] is ready, and its wire leads to the simulator [s]. *)
Record linked (c : Conn) (s : Sim W) (w : Stack) : Prop := {
  li_wire : exists pa limit, w = mkSt c (ready_wire s pa limit) /\ 54 <= simMaxTransferBits (ready_wire s 0 limit);
  li_usable : usable c;
  li_ready : SwdConn.state c = connectionReady
}.

(** The steps leave the registers [t] behind. *)
Definition stack_runs (t : Regs) (l : list txnStep) (ds : list (Z * Z)) (w : Stack) : Prop := exists fresh m c s m',
  linked c s w /\ coupled fresh m c s /\ Forall wired l /\ fresh_ok fresh l = true /\
  exec_steps false l m = Some (ds, m') /\ DapPlanFacts.regs m' = t /\ r_ok t = true.

Lemma stack_batch ctx l c s w vs c' s' :
  ctx_nil ctx = false -> linked c s w -> matched c s -> performed (wire_of <$> l) c s = Some (vs, c', s') ->
  Forall2 (fun (rd : transferRequest * Z) v => Read (fst rd) = false -> v = 0) (request_of <$> l) vs ->
  exists w', swd_Commit ctx (request_of <$> l) w = (((fun v => (v, None)) <$> vs, None), w') /\ linked c' s' w'.
Proof.
  intros Hc [(pa & limit & -> & Hl) U R] Hm Hp Hz. set (rs := request_of <$> l) in *.
  assert (raw (queued 0 rs) = wire_of <$> l) as Er by (rewrite queued_raw; unfold rs; by rewrite <- list_fmap_compose).
  rewrite <- Er in Hp. pose proof (Commit_performs (Sim_laws calm) (access_ctx calm) ctx (queued 0 rs) limit c s pa vs c' s' Hc) as P.
  specialize (P ltac:(unfold numbered; by rewrite queued_numbered, queued_length) U R Hm Hl Hp).
  apply wp_done in P as (e & b & E & -> & Eh & U' & R' & Hm' & pa' & Ec). rewrite queued_length in E.
  exists (cst b). cbn [swd_Commit Stack_Swd]. unfold run, commit_all. unfold NewBatch.
  rewrite (bind_Done _ _ _ _ _ (queue_all_spec rs [] [] _)). cbn [app length]. rewrite (bind_Done _ _ _ _ _ E).
  unfold gets. unfold mbind, GoM_bind, mret, GoM_ret. rewrite (completed_all _ vs) by (done || (by rewrite Eh)). split; [done|].
  split; [|done..]. exists pa', limit. by split.
Qed.

Lemma linked_ctx ctx c s w : linked c s w -> linked c s (snd (ctx_Err ctx w)).
Proof.
  intros [(pa & limit & -> & Hl) U R]. cbn [ctx_Err Stack_Env SwdConn.world conn]. rewrite (law_alive (Sim_laws calm)). split; [by exists pa, limit|done..].
Qed.

Lemma stack_performs t ctx : ctx_nil ctx = false -> performs_steps (stack_runs t) ctx.
Proof.
  intros Hc. split.
  - intros l k ds w Hne (fresh & m & c & s & m' & Hl & Hcp & Hw & Hf & E & <- & Hk).
    destruct (exec_steps_split false _ _ _ _ _ E) as (ds1 & m1 & ds2 & E1 & E2 & ->).
    apply Forall_app in Hw as [Hw1 Hw2]. rewrite fresh_ok_app in Hf. apply andb_prop in Hf as [Hf1 Hf2].
    destruct (steps_simulated l fresh m c s ds1 m1 Hcp Hw1 Hf1 E1 (steps_ok_kept _ _ _ _ E2 Hk)) as (vs & c' & s' & Hp & -> & Hcp' & Hz).
    destruct (stack_batch ctx l c s w vs c' s' Hc Hl (cp_matched _ _ _ _ Hcp) Hp Hz) as (w' & Ec & Hl').
    exists vs, w', ds2. split_and!; [done..|]. by exists (fresh_after fresh l), m1, c', s', m'.
  - by intros ds w (fresh & m & c & s & m' & _ & _ & _ & _ & [= <- _] & _).
  - intros w (fresh & m & c & s & m' & Hl & G). exists fresh, m, c, s, m'. split; [by apply linked_ctx|done].
Qed.

(** ** The debug port on top *)

(** What the debug port believes of the selection is true. *)
Record attached (dp : DebugPort) (c : Conn) (s : Sim W) : Prop := {
  at_select : let sel := DapTypes.selectDP (DapTypes.state dp) in valid sel = true ->
    DapSim.selectDP (DapSim.dp s) = value sel /\ SwdConn.bank c = mkBank (uint8 (Z.land (value sel) 0x0f)) true /\
    (DapTypes.selectPending (DapTypes.state dp) = false -> SwdConn.selectPending c = false);
  at_sound : sound (DapSim.dp s);
  at_matched : matched c s
}.

(** The registers behind the port. *)
Definition registers_of (s : Sim W) : Regs := mkRegs (strip (DapSim.dp s)) (outer s) true.

(** The port as the planner sees it. *)
Definition viewed (dp : DebugPort) (s : Sim W) : Phys Regs :=
  let sel := DapTypes.selectDP (DapTypes.state dp) in
  mkPhys (if valid sel then Some (value sel) else None) (negb (DapTypes.selectPending (DapTypes.state dp))) 0 0 (registers_of s).

Lemma viewed_agrees dp s : agrees (newSWDTxnPlanner dp) (viewed dp s).
Proof. split; [|split; [|done]]; cbn; [by intros ->|by intros ->]. Qed.

Lemma viewed_coupled dp c s : attached dp c s -> coupled false (viewed dp s) c s.
Proof.
  intros [A B C]. cbv zeta in A. split; try done; cbn [viewed select settled].
  - intros v. destruct (valid _); [|done]. intros [= <-]. by destruct (A eq_refl) as (? & ? & _).
  - intros v. destruct (valid _); [|done]. intros Hp _. destruct (A eq_refl) as (_ & _ & G). apply G. by apply negb_true_iff.
Qed.

Context `{RegisterTransport Stack} `{ChainLink Stack}.

Lemma stack_Commit fuel ctx (s : XSt Stack) c t :
  let dp := port (core s) in let logical := exec_ops dp 0 (ops s) (0, registers_of t) in
  ctx_nil ctx = false -> committed s = false -> committable fuel ctx s -> Forall word_op (ops s) ->
  linked c t (world (core s)) -> attached dp c t -> r_ok (snd (snd logical)) = true ->
  wp (Commit fuel ctx) (fun _ s' => valued (fst logical) s s' /\
    exists c' t', linked c' t' (world (core s')) /\ registers_of t' = snd (snd logical)) s.
Proof.
  intros dp logical Hctx Hc Hs Hw Hl Ha Hk. pose proof Hs as [_ (Hj & _ & Hv) _ _ [Hops _] _ _].
  destruct (plan_loop_runs dp Hj (length (ops s)) 0 (ops s) (newSWDTxnPlanner dp) (viewed dp t) (le_n _) eq_refl (viewed_agrees dp t) Hops)
    as (m' & (_ & _ & new & E1 & E2) & E3). cbn [app steps newSWDTxnPlanner] in E1. subst new.
  change (exec_ops dp 0 (ops s) _) with logical in E2, E3. apply (f_equal snd) in E3. cbn [snd] in E3.
  assert (v3 dp = false) as Hv3 by (by apply Z.eqb_neq). rewrite Hv3 in E2.
  destruct (plan_carried dp (ops s) Hj) as [P1 P2 _].
  { rewrite Forall_forall in *. intros o Ho. split; [apply (Hops o Ho)|by apply Hw]. }
  { intros E. destruct (at_select _ _ _ Ha E) as (<- & _). apply (so_select _ (at_sound _ _ _ Ha)). }
  eapply wp_mono; [eapply (Commit_exact fuel (stack_runs (snd (snd logical))) ctx s (fst logical)); [by apply stack_performs|done|done| | |]|].
  - exists false, (viewed dp t), c, t, m'. split_and!; try done. by apply viewed_coupled.
  - apply exec_ops_in_order.
  - apply exec_ops_length.
  - intros e s' [V (fresh & m & c' & t' & m2 & Hl' & Hcp & _ & _ & [= ->] & E & _)]. split; [done|]. exists c', t'. split; [done|].
    by rewrite <- E, (cp_regs _ _ _ _ Hcp).
Qed.
End Stack.
Arguments Stack W : clear implicits.

(** C1: a transaction means its operations all the way down.  Planned,
    committed in batches over an SWD connection, carried bit by bit over the
    behavioral wire and performed by the simulated debug port on its access
    ports, memory and devices, it gives every caller, without error, the value
    its operation has when the operations are performed one after the other on
    the registers behind the port, and leaves those registers, their memory and
    the devices as that sequence leaves them.  The debug port's view of the
    selection is true at the start, none of the accesses fails there, and no
    operation reads the posted buffers directly. *)
Theorem stack_commit_exact {W} `{Env W} `{MemoryDevice W} `{RegisterTransport (Stack W)} `{ChainLink (Stack W)} fuel ctx (s : XSt (Stack W)) c t :
  let logical := exec_ops (port (core s)) 0 (ops s) (0, registers_of t) in
  Calm (W := W) -> ctx_nil ctx = false -> committed s = false -> committable fuel ctx s -> Forall word_op (ops s) ->
  linked c t (world (core s)) -> attached (port (core s)) c t -> r_ok (snd (snd logical)) = true ->
  exists e s' c' t', Commit fuel ctx s = Done (e, s') /\
    (forall i o, ops s !! i = Some o -> exists v r, fst logical !! i = Some (Z.of_nat i, v) /\
      heap s' !! result o = Some r /\ ReadResult_Value r = (v, None)) /\
    linked c' t' (world (core s')) /\ registers_of t' = snd (snd logical).
Proof.
  intros logical calm Hctx Hc Hs Hw Hl Ha Hk.
  pose proof (stack_Commit calm fuel ctx s c t Hctx Hc Hs Hw Hl Ha Hk) as P. apply wp_done in P as (e & s' & E & V & c' & t' & Hl' & Er).
  exists e, s', c', t'. split_and!; [done| |done|done]. intros i o Ho. destruct (V i o Ho) as (v & Hd & Hh). by exists v, (mkTxnResult true v None).
Qed.

(** ** A board *)

(** RAM devices; contexts that never end. *)
Definition Board : Type := list RAM.

#[global] Instance Board_Env : Env Board := {| ctx_Err := fun _ w => (None, w) |}.

#[global] Instance Board_Devices : MemoryDevice Board := {|
  dev_Read := fun d ctx addr data w => ramRead ctx addr data (default ∅ (w !! d)) w;
  dev_Write := fun d ctx addr data w =>
    let '((e, r), w) := ramWrite ctx addr data (default ∅ (w !! d)) w in (e, <[d := r]> w)
|}.

Lemma board_calm : Calm (W := Board).
Proof. by split. Qed.

#[global] Instance Board_Register : RegisterTransport (Stack Board) := {|
  reg_Connect := fun _ w => ((0, None), w);
  reg_Release := fun _ w => (None, w);
  reg_CleanupPending := fun _ => false;
  reg_ReadDP := fun _ _ w => ((0, RegisterCompleted, None), w);
  reg_WriteDP := fun _ _ _ w => ((RegisterCompleted, None), w);
  reg_ReadAP := fun _ _ w => ((0, RegisterCompleted, None), w);
  reg_WriteAP := fun _ _ _ w => ((RegisterCompleted, None), w)
|}.

#[global] Instance Board_Chain : ChainLink (Stack Board) := {|
  chain_Layout := fun _ => [];
  chain_Connect := fun _ w => (None, w);
  chain_TAP := fun i _ => (mkTAP i 0, None);
  chain_Release := fun _ w => (None, w);
  chain_CleanupPending := fun _ => false;
  tap_ScanIR := fun _ _ d w => ((d, None), w);
  tap_ScanDR := fun _ _ d _ w => ((d, None), w)
|}.

(** A MEM-AP with a word of memory, and RAM mapped at 0x40000000. *)
Definition board_sel : APSel := NewAPSel 0.
Definition board_target : DP :=
  let t := snd (AddMEMAP board_sel 0x24770011 {[0x20000000 := 0xcafe0001]} (NewTarget 0x2ba01477)) in
  snd (MapMEMAPDevice board_sel 0x40000000 0x1000 (Some O) t).

Definition board_idle : PSt (Stack Board) :=
  mkPSt (NewDebugPort swdBinding second second) false false (mkJtag 0 0 (mkTAP 0 0) false false false) []
    (mkSt (New_ true []) (NewWire (Some (mkSim board_target [∅])))).

(** The board after [Connect]. *)
Definition board_connected : PSt (Stack Board) :=
  match DapLifecycle.Connect 100 Background board_idle with Done (_, s) => s | _ => board_idle end.

Definition board_conn : Conn := conn (world board_connected).
Definition board_sim : Sim Board := default (mkSim board_target [∅]) (target (SwdConn.world (world board_connected))).

Lemma board_linked : linked board_conn board_sim (world board_connected).
Proof.
  split; [|repeat split; vm_compute; try done; auto|vm_compute; done].
  exists (pendingACK (SwdConn.world (world board_connected))), 0. split; [vm_compute; reflexivity|vm_compute; done].
Qed.

Lemma board_attached : attached (port board_connected) board_conn board_sim.
Proof. split; [vm_compute; auto|split; vm_compute; try done; split; done|vm_compute; done]. Qed.

(** Reads a word of memory, writes two words to the RAM and reads them back. *)
Definition board_ops : list txnOp :=
  [apOp txnWriteRawAP board_sel 0x00 0x23000012 [] false 0%nat; apOp txnWriteRawAP board_sel 0x04 0x20000000 [] false 1%nat;
   apOp txnReadRawAP board_sel 0x0c 0 [] false 2%nat; apOp txnWriteRawAP board_sel 0x04 0x40000000 [] false 3%nat;
   apOp txnWriteAPSequence board_sel 0x0c 0 [7; 9] true 4%nat; apOp txnWriteRawAP board_sel 0x04 0x40000000 [] false 5%nat;
   apOp txnReadAPSequential board_sel 0x0c 0 [] true 6%nat; apOp txnReadAPSequential board_sel 0x0c 0 [] true 7%nat;
   dpOp txnReadDP DPIDR 0 8%nat].
Definition board_txn : XSt (Stack Board) := mkX (replicate 9 (mkTxnResult false 0 None)) true board_ops false board_connected.

(** What [Connect] left in the debug port. *)
Definition board_identity : Identity := mkIdentity (fst (DecodeDPIDR 0x2ba01477)) 0.
Definition board_port : DebugPort :=
  DapTypes.mkDP swdBinding second second board_identity true 0 board_identity true
    (mkState sessionConnected DapTypes.responseOverrun (mkSelect 0 true) noSelect false false 0x50000000 0 1) [].

Lemma board_port_ok : port (core board_txn) = board_port.
Proof. vm_compute. reflexivity. Qed.

Lemma board_plannable : Forall (plannable board_port) board_ops.
Proof. repeat constructor; unfold op_wf; cbn; first [lia|done]. Qed.

Lemma board_committable : committable 100 Background board_txn.
Proof.
  split; rewrite ?board_port_ok; [done|done|done|done|split; [apply board_plannable|by repeat constructor]| |cbn; lia].
  split; [by apply (bool_decide_unpack (NoDup (result <$> ops board_txn)))|]. repeat constructor; by eexists.
Qed.

Lemma board_words : Forall word_op board_ops.
Proof. repeat constructor; vm_compute; try done. Qed.

Lemma stack_commit_exact_witness :
  exists e s' c' t', Commit 100 Background board_txn = Done (e, s') /\
    (forall i o, board_ops !! i = Some o -> exists v r,
      [(0, 0); (1, 0); (2, 0xcafe0001); (3, 0); (4, 0); (5, 0); (6, 7); (7, 9); (8, 0x2ba01477)] !! i = Some (Z.of_nat i, v) /\
      heap s' !! result o = Some r /\ ReadResult_Value r = (v, None)) /\
    linked c' t' (world (core s')) /\ outer t' = [save ∅ 0x40000000 [7; 0; 0; 0; 9; 0; 0; 0]].
Proof.
  assert (let l := exec_ops (port (core board_txn)) 0 (ops board_txn) (0, registers_of board_sim) in
    fst l = [(0, 0); (1, 0); (2, 0xcafe0001); (3, 0); (4, 0); (5, 0); (6, 7); (7, 9); (8, 0x2ba01477)] /\
    r_ok (snd (snd l)) = true /\ r_out (snd (snd l)) = [save ∅ 0x40000000 [7; 0; 0; 0; 9; 0; 0; 0]]) as (E1 & E2 & E3) by (vm_compute; done).
  destruct (stack_commit_exact 100 Background board_txn board_conn board_sim board_calm eq_refl eq_refl board_committable board_words board_linked board_attached E2)
    as (e & s' & c' & t' & E & V & L & R).
  exists e, s', c', t'. split; [exact E|]. split; [by rewrite E1 in V|]. split; [exact L|]. by rewrite <- E3, <- R.
Defined.

(** ** Memory behind the simulated port *)

(** C40: memory behind a simulated MEM-AP keeps what is written to it through
    DRW.  In every transfer size and either byte order, a byte, halfword or word
    is read back in the lanes it was written in, and a doubleword in the two
    halves it was written in, and no byte outside the transfer changes. *)
Theorem sim_memory_roundtrip {W} `{Env W} `{MemoryDevice W} ctx ctx' a size lo hi (w : W) :
  plain a size -> 0 <= size <= 3 -> word lo -> word hi ->
  (size = 3 -> any_bits (reg a 0xf4) (Z.shiftl 1 2) = true /\ largePhase a = largeDataIdle) ->
  let changed k := targetAddress a <= k < targetAddress a + Z.shiftl 1 size in
  if size =? 3 then
    exists a1 a2 a3 a4, writeDRW ctx lo (a, w) = (None, (a1, w)) /\ writeDRW ctx hi (a1, w) = (None, (a2, w)) /\
      readDRW ctx' (a2, w) = ((lo, None), (a3, w)) /\ readDRW ctx' (a3, w) = ((hi, None), (a4, w)) /\ largePhase a4 = largeDataIdle /\
      forall k, ~ changed k -> at_ (memory a4) k = at_ (memory a) k
  else
    let mask := rotateLeft32 (uint32 (2 ^ (8 * Z.shiftl 1 size) - 1)) (laneShift a (Z.shiftl 1 size)) in
    exists a' v, writeDRW ctx lo (a, w) = (None, (a', w)) /\ readDRW ctx' (a', w) = ((v, None), (a', w)) /\
      Z.land v mask = Z.land lo mask /\ forall k, ~ changed k -> at_ (memory a') k = at_ (memory a) k.
Proof.
  intros Hp Hs Hl Hh H3 changed. destruct (Z.eqb_spec size 3) as [->|Hne].
  - destruct (H3 eq_refl). by apply drw_large.
  - apply drw_roundtrip; [done|lia|done].
Qed.

(** A MEM-AP with TAR at 0x20000002 and the given CSW and CFG. *)
Definition cell_port (csw cfg : Z) : accessPort :=
  mkPort [] (<[0 := csw]> (<[4 := 0x20000002]> {[0xf4 := cfg]})) ∅ true 15 largeDataIdle 0.

Lemma cell_port_plain size cfg : 0 <= size <= 3 -> cfg = 1 \/ cfg = 4 -> plain (cell_port size cfg) size.
Proof.
  intros Hs Hc. assert (words (cell_port size cfg)) as Hw.
  { intros r. unfold reg, at_, cell_port. cbn [DapSim.regs]. rewrite !lookup_insert, lookup_singleton. repeat case_decide; cbn; lia. }
  assert (size = 0 \/ size = 1 \/ size = 2 \/ size = 3) as [->|[->|[->| ->]]] by lia; destruct Hc as [->| ->]; (split; [done|done|done|vm_compute; done]).
Qed.

(** A halfword in big-endian order, and a doubleword. *)
Lemma sim_memory_roundtrip_witness :
  (exists a' v, writeDRW Background 0xbeefcafe (cell_port 1 1, @nil RAM) = (None, (a', [])) /\ readDRW Background (a', []) = ((v, None), (a', [])) /\
    Z.land v 0xffff = 0xcafe /\ forall k, ~ 0x20000002 <= k < 0x20000004 -> at_ (memory a') k = 0) /\
  (exists a1 a2 a3 a4, writeDRW Background 1 (cell_port 3 4, @nil RAM) = (None, (a1, [])) /\ writeDRW Background 2 (a1, []) = (None, (a2, [])) /\
    readDRW Background (a2, []) = ((1, None), (a3, [])) /\ readDRW Background (a3, []) = ((2, None), (a4, [])) /\ largePhase a4 = largeDataIdle /\
    forall k, ~ 0x20000002 <= k < 0x2000000a -> at_ (memory a4) k = 0).
Proof.
  split.
  - destruct (sim_memory_roundtrip (W := Board) Background Background (cell_port 1 1) 1 0xbeefcafe 0 []) as (a' & v & E1 & E2 & E3 & E4);
      [apply cell_port_plain; [lia|by left]|lia|unfold word; lia|unfold word; lia|lia|]. exists a', v. split_and!; done.
  - destruct (sim_memory_roundtrip (W := Board) Background Background (cell_port 3 4) 3 1 2 []) as (a1 & a2 & a3 & a4 & E1 & E2 & E3 & E4 & E5 & E6);
      [apply cell_port_plain; [lia|by right]|lia|unfold word; lia|unfold word; lia|by intros _|]. exists a1, a2, a3, a4. split_and!; done.
Defined.
