(* ===== verification/Usb.v ===== *)
(** * USB configurations (usb/configuration.go)

    The snapshot of a device's active configuration: the control requests that
    read it and the parser of the configuration descriptor.  A device is any
    instance of [Device]; the parser's state is a record with the source's
    fields. *)

From S2P Require Import Prelude Go Bits.
From stdpp Require Import gmap.
Local Open Scope Z_scope.

(** ** Constants *)

Definition requestTypeStandardDeviceIn : Z := 0x80.
Definition requestTypeStandardInterfaceIn : Z := 0x81.
Definition requestGetConfiguration : Z := 0x08.
Definition requestGetDescriptor : Z := 0x06.
Definition requestGetInterface : Z := 0x0a.
Definition descriptorDevice : Z := 0x01.
Definition descriptorConfiguration : Z := 0x02.
Definition descriptorInterface : Z := 0x04.
Definition descriptorEndpoint : Z := 0x05.

(** ** Data *)

Inductive TransferType := TransferControl | TransferIsochronous | TransferBulk | TransferInterrupt.

#[global] Instance TransferType_eq_dec : EqDecision TransferType.
Proof. solve_decision. Defined.

(** The conversion [TransferType(v)] of a two-bit [v]. *)
Definition transferType_of (v : Z) : TransferType :=
  if v =? 0 then TransferControl else if v =? 1 then TransferIsochronous
  else if v =? 2 then TransferBulk else TransferInterrupt.

Record Endpoint := mkEndpoint { Address : Z; ep_Type : TransferType; MaxPacketSize : Z }.

Record AlternateSetting := mkAlternate {
  alt_Number : Z; Class_ : Z; Subclass : Z; Protocol : Z; Endpoints : list Endpoint
}.

Record Interface := mkInterface { if_Number : Z; Alternates : list AlternateSetting }.

Record Configuration := mkConfiguration { Value : Z; Interfaces : list Interface }.

#[global] Instance Endpoint_eq_dec : EqDecision Endpoint.
Proof. solve_decision. Defined.
#[global] Instance AlternateSetting_eq_dec : EqDecision AlternateSetting.
Proof. solve_decision. Defined.
#[global] Instance Interface_eq_dec : EqDecision Interface.
Proof. solve_decision. Defined.
#[global] Instance Configuration_eq_dec : EqDecision Configuration.
Proof. solve_decision. Defined.

(** [Configuration{}] *)
Definition noConfiguration : Configuration := mkConfiguration 0 [].

(** [binary.LittleEndian.Uint16(l[i:i+2])] *)
Definition uint16At (l : list Z) (i : Z) : option Z :=
  lo ← index l i; hi ← index l (i + 1); Some (lo + 256 * hi).

(** ** The parser's state *)

(** [alternate] is the address of the setting being described: the indices of
    its interface and of it among that interface's settings.  The maps from
    numbers to [true] are sets. *)
Record configurationParser := mkParser {
  configuration : Configuration;
  interfaces : gmap Z nat;
  defaultAlternates : gset Z;
  endpointInterfaces : gmap Z Z;
  endpointNumberInterfaces : gmap Z (gset Z);
  controlEndpointInterfaces : gmap Z Z;
  alternate : option (nat * nat);
  alternateEndpoints : gset Z;
  alternateEndpointNumbers : gmap Z Z;
  interfaceNumber : Z;
  wantEndpoints : Z
}.

Definition endpointNumberSeen : Z := 1.
Definition controlEndpointSeen : Z := 2.

Abbreviation P := (GoM configurationParser).

(** Writes to the parser's configuration. *)
Definition set_configuration (c : Configuration) (p : configurationParser) : configurationParser :=
  mkParser c (interfaces p) (defaultAlternates p) (endpointInterfaces p) (endpointNumberInterfaces p)
    (controlEndpointInterfaces p) (alternate p) (alternateEndpoints p) (alternateEndpointNumbers p)
    (interfaceNumber p) (wantEndpoints p).

(** [*p.alternate] *)
Definition alternateAt (c : Configuration) (at_ : nat * nat) : option AlternateSetting :=
  i ← Interfaces c !! fst at_; Alternates i !! snd at_.

Definition setAlternates (f : list AlternateSetting -> list AlternateSetting) (i : Interface) : Interface :=
  mkInterface (if_Number i) (f (Alternates i)).

Definition addEndpointTo (e : Endpoint) (a : AlternateSetting) : AlternateSetting :=
  mkAlternate (alt_Number a) (Class_ a) (Subclass a) (Protocol a) (Endpoints a ++ [e]).

(** ** Descriptors *)

Definition configurationDescriptor (raw : list Z) (position : Z) : option (list Z * Z * err) :=
  length ← index raw position;
  if (length <? 2) || (len raw <? position + length)
  then Some ([], 0, Some (New "usb: malformed descriptor at offset %d"))
  else Some (take (Z.to_nat length) (drop (Z.to_nat position) raw), position + length, None).

Definition validConfigurationHeader (raw : list Z) : option bool :=
  if len raw <? 9 then Some false
  else
    size ← index raw 0; kind ← index raw 1; total ← uint16At raw 2; attributes ← index raw 7;
    Some ((9 <=? size) && (size <=? len raw) && (kind =? descriptorConfiguration) && (total =? len raw) &&
          any_bits attributes 0x80 && negb (any_bits attributes 0x1f)).

Definition validEndpointAttributes (attributes : Z) (transferType : TransferType) : bool :=
  if negb (bool_decide (transferType = TransferIsochronous)) then true
  else let usage := Z.land attributes 0x30 in
       negb (usage =? 0x10) || (Z.land attributes 0x0c =? 0).

Definition validEndpointInterval (interval : Z) (transferType : TransferType) (encodedPacketSize : Z) : bool :=
  let isochronous := bool_decide (transferType = TransferIsochronous) in
  let interrupt := bool_decide (transferType = TransferInterrupt) in
  if isochronous && ((interval =? 0) || (16 <? interval)) then false
  else if interrupt && (interval =? 0) then false
  else let periodic := isochronous || interrupt in
       negb periodic || (Z.land encodedPacketSize 0x1800 =? 0) || (interval =? 1).

Definition validEndpointTransactions (transactions : Z) (transferType : TransferType) : bool :=
  negb (transactions =? 0x1800) &&
  ((transactions =? 0) || bool_decide (transferType = TransferIsochronous) ||
   bool_decide (transferType = TransferInterrupt)).

Definition endpointPacketSizeMinimum (transactions : Z) : Z :=
  if transactions =? 0 then 1 else if transactions =? 0x0800 then 513 else 683.

Definition endpointMaxPacketSize (encoded : Z) (transferType : TransferType) : Z * bool :=
  let transactions := Z.land encoded 0x1800 in
  if any_bits encoded 0xe000 || negb (validEndpointTransactions transactions transferType) then (0, false)
  else
    let size := Z.land encoded 0x07ff in
    let minimum := endpointPacketSizeMinimum transactions in
    (size, (size <=? 1024) &&
       ((minimum <=? size) ||
        (transactions =? 0) && (size =? 0) &&
        (bool_decide (transferType = TransferInterrupt) || bool_decide (transferType = TransferIsochronous)))).

Definition noEndpoint : Endpoint := mkEndpoint 0 TransferControl 0.

Definition endpointFromDescriptor (descriptor : list Z) : option (Endpoint * err) :=
  if len descriptor <? 7
  then Some (noEndpoint, Some (New "usb: invalid endpoint descriptor length %d at offset %d"))
  else
    address ← index descriptor 2;
    if (Z.land address 0x0f =? 0) || any_bits address 0x70
    then Some (noEndpoint, Some (New "usb: invalid endpoint address %#02x at offset %d"))
    else
      attributes ← index descriptor 3;
      let transferType := transferType_of (Z.land attributes 0x03) in
      if negb (validEndpointAttributes attributes transferType)
      then Some (noEndpoint, Some (New "usb: invalid endpoint attributes %#02x at offset %d"))
      else
        encodedPacketSize ← uint16At descriptor 4;
        interval ← index descriptor 6;
        if negb (validEndpointInterval interval transferType encodedPacketSize)
        then Some (noEndpoint, Some (New "usb: invalid endpoint interval %d at offset %d"))
        else
          let (maxPacketSize, ok) := endpointMaxPacketSize encodedPacketSize transferType in
          if negb ok
          then Some (noEndpoint, Some (New "usb: invalid endpoint maximum packet size %#04x at offset %d"))
          else Some (mkEndpoint address transferType maxPacketSize, None).

(** ** Parser operations *)

Definition finishAlternate : P err :=
  p ← gets id;
  match alternate p with
  | None => mret None
  | Some at_ =>
      a ← lift (alternateAt (configuration p) at_);
      mret (if negb (len (Endpoints a) =? wantEndpoints p)
            then Some (New "usb: interface endpoint count does not match its descriptor") else None)
  end.

(** The index of the interface, appended when it is new. *)
Definition interfaceFor (number : Z) : P nat :=
  p ← gets id;
  match interfaces p !! number with
  | Some index => mret index
  | None =>
      let c := configuration p in
      let index := length (Interfaces c) in
      modify (fun p =>
        mkParser (mkConfiguration (Value c) (Interfaces c ++ [mkInterface number []]))
          (<[number := index]> (interfaces p)) (defaultAlternates p) (endpointInterfaces p)
          (endpointNumberInterfaces p) (controlEndpointInterfaces p) (alternate p) (alternateEndpoints p)
          (alternateEndpointNumbers p) (interfaceNumber p) (wantEndpoints p));;
      mret index
  end.

(** From the appended setting to the end of [addInterface]. *)
Definition beginAlternate (index : nat) (number : Z) (a : AlternateSetting) (want : Z) : P unit :=
  modify (fun p =>
    let c := configuration p in
    let count := match Interfaces c !! index with Some i => length (Alternates i) | None => O end in
    mkParser (mkConfiguration (Value c) (alter (setAlternates (fun l => l ++ [a])) index (Interfaces c)))
      (interfaces p)
      (if alt_Number a =? 0 then {[number]} ∪ defaultAlternates p else defaultAlternates p)
      (endpointInterfaces p) (endpointNumberInterfaces p) (controlEndpointInterfaces p)
      (Some (index, count)) ∅ ∅ number want).

Definition addInterface (descriptor : list Z) : P err :=
  if len descriptor <? 9
  then mret (Some (New "usb: invalid interface descriptor length %d at offset %d"))
  else
    e ← finishAlternate;
    match e with
    | Some e => mret (Some e)
    | None =>
        number ← lift (index descriptor 2);
        index_ ← interfaceFor number;
        c ← gets configuration;
        iface ← lift (Interfaces c !! index_);
        setting ← lift (index descriptor 3);
        if existsb (fun existing => alt_Number existing =? setting) (Alternates iface)
        then mret (Some (New "usb: duplicate interface %d alternate %d"))
        else
          class ← lift (index descriptor 5);
          subclass ← lift (index descriptor 6);
          protocol ← lift (index descriptor 7);
          want ← lift (index descriptor 4);
          beginAlternate index_ number (mkAlternate setting class subclass protocol []) want;;
          mret None
    end.

Definition validateEndpoint (address : Z) (transferType : TransferType) : P err :=
  p ← gets id;
  let number := Z.land address 0x0f in
  if bool_decide (address ∈ alternateEndpoints p)
  then mret (Some (New "usb: duplicate endpoint %#02x in interface %d alternate %d"))
  else
    let seen := default 0 (alternateEndpointNumbers p !! number) in
    let control := bool_decide (transferType = TransferControl) in
    if control && any_bits seen endpointNumberSeen || any_bits seen controlEndpointSeen
    then mret (Some (New "usb: conflicting control endpoint number %d in interface %d alternate %d"))
    else if match endpointInterfaces p !! address with
            | Some owner => negb (owner =? interfaceNumber p) | None => false end
    then mret (Some (New "usb: endpoint %#02x belongs to interfaces %d and %d"))
    else if match controlEndpointInterfaces p !! number with
            | Some owner => negb (owner =? interfaceNumber p) | None => false end
    then mret (Some (New "usb: control endpoint number %d belongs to interfaces %d and %d"))
    else if control &&
            existsb (fun owner => negb (owner =? interfaceNumber p))
              (elements (default ∅ (endpointNumberInterfaces p !! number)))
    then mret (Some (New "usb: control endpoint number %d belongs to interfaces %d and %d"))
    else mret None.

Definition recordEndpoint (address : Z) (transferType : TransferType) : P unit :=
  modify (fun p =>
    let number := Z.land address 0x0f in
    let control := bool_decide (transferType = TransferControl) in
    let seen := Z.lor (default 0 (alternateEndpointNumbers p !! number)) endpointNumberSeen in
    mkParser (configuration p) (interfaces p) (defaultAlternates p)
      (<[address := interfaceNumber p]> (endpointInterfaces p))
      (<[number := {[interfaceNumber p]} ∪ default ∅ (endpointNumberInterfaces p !! number)]>
         (endpointNumberInterfaces p))
      (if control then <[number := interfaceNumber p]> (controlEndpointInterfaces p)
       else controlEndpointInterfaces p)
      (alternate p) ({[address]} ∪ alternateEndpoints p)
      (<[number := if control then Z.lor seen controlEndpointSeen else seen]> (alternateEndpointNumbers p))
      (interfaceNumber p) (wantEndpoints p)).

Definition addEndpoint (descriptor : list Z) : P err :=
  p ← gets id;
  match alternate p with
  | None => mret (Some (New "usb: invalid endpoint descriptor at offset %d"))
  | Some at_ =>
      r ← lift (endpointFromDescriptor descriptor);
      match snd r with
      | Some e => mret (Some e)
      | None =>
          let endpoint := fst r in
          e ← validateEndpoint (Address endpoint) (ep_Type endpoint);
          match e with
          | Some e => mret (Some e)
          | None =>
              recordEndpoint (Address endpoint) (ep_Type endpoint);;
              modify (fun p =>
                let c := configuration p in
                set_configuration (mkConfiguration (Value c)
                  (alter (setAlternates (alter (addEndpointTo endpoint) (snd at_))) (fst at_) (Interfaces c))) p);;
              mret None
          end
      end
  end.

(** The loops of [finish] over interfaces and their settings. *)
Definition finishInterface (p : configurationParser) (wantInterfaces : Z) (iface : Interface) : err :=
  if wantInterfaces <=? if_Number iface
  then Some (New "usb: interface %d is outside configuration interface count %d")
  else if negb (bool_decide (if_Number iface ∈ defaultAlternates p))
  then Some (New "usb: interface %d has no alternate setting zero")
  else if existsb (fun a => len (Alternates iface) <=? alt_Number a) (Alternates iface)
  then Some (New "usb: interface %d alternate setting %d is outside range 0 through %d")
  else None.

Definition finish (wantInterfaces : Z) : P err :=
  e ← finishAlternate;
  match e with
  | Some e => mret (Some e)
  | None =>
      p ← gets id;
      mret (if wantInterfaces =? 0 then Some (New "usb: configuration descriptor has no interfaces")
            else if negb (len (Interfaces (configuration p)) =? wantInterfaces)
            then Some (New "usb: interface count does not match configuration descriptor")
            else first_some (finishInterface p wantInterfaces) (Interfaces (configuration p)))
  end.

(** The switch on a descriptor's type. *)
Definition addDescriptor (descriptor : list Z) : P err :=
  kind ← lift (index descriptor 1);
  if kind =? descriptorInterface then addInterface descriptor
  else if kind =? descriptorEndpoint then addEndpoint descriptor
  else mret None.

(** The loop of [parseConfiguration]: each turn moves on by a descriptor of at
    least two bytes. *)
Fixpoint parse_loop (fuel : nat) (raw : list Z) (position : Z) : P err :=
  if len raw <=? position then mret None
  else match fuel with
  | O => out_of_fuel
  | S fuel =>
      r ← lift (configurationDescriptor raw position);
      let '(descriptor, next, e) := r in
      match e with
      | Some e => mret (Some e)
      | None =>
          e ← addDescriptor descriptor;
          match e with
          | Some e => mret (Some e)
          | None => parse_loop fuel raw next
          end
      end
  end.

Definition newParser (value : Z) : configurationParser :=
  mkParser (mkConfiguration value []) ∅ ∅ ∅ ∅ ∅ None ∅ ∅ 0 0.

Definition parse_body (raw : list Z) (size wantInterfaces : Z) : P err :=
  e ← parse_loop (length raw) raw size;
  match e with
  | Some e => mret (Some e)
  | None => finish wantInterfaces
  end.

Definition parseConfiguration (raw : list Z) : outcome (Configuration * err) :=
  match validConfigurationHeader raw with
  | None => Panicked
  | Some false => Done (noConfiguration, Some (New "usb: malformed configuration descriptor"))
  | Some true =>
      match index raw 5, index raw 0, index raw 4 with
      | Some value, Some size, Some wantInterfaces =>
          match parse_body raw size wantInterfaces (newParser value) with
          | Done (Some e, _) => Done (noConfiguration, Some e)
          | Done (None, p) => Done (configuration p, None)
          | Panicked => Panicked
          | OutOfFuel => OutOfFuel
          end
      | _, _, _ => Panicked
      end
  end.

(** ** Reading the active configuration *)

(** controlTransferer, and configurationDescriptorReader where the device has
    it.  A transfer returns its count, its error and the bytes it received. *)
Class Device (W : Type) := {
  ControlTransfer : context -> Z -> Z -> Z -> Z -> list Z -> W -> (Z * err * list Z) * W;
  readConfigurationDescriptor : option (context -> Z -> Z -> W -> (list Z * err) * W)
}.

(** A buffer after bytes were received into it. *)
Definition received (data buffer : list Z) : list Z :=
  take (length buffer) data ++ drop (length data) buffer.

Section Device.
Context {W : Type} `{Env W} `{Device W}.
Abbreviation D := (GoM W).

Definition ctxErr (ctx : context) : D (option ctxError) := fun w => Done (ctx_Err ctx w).

Definition standardTransfer (ctx : context) (requestType request value idx : Z) (data : list Z) : D (err * list Z) :=
  if ctx_nil ctx then mret (Some (New "nil context"), data)
  else
    e ← ctxErr ctx;
    match e with
    | Some e => mret (Some (Sentinel (context_Err e)), data)
    | None => fun w =>
        let '((count, e, bytes), w) := ControlTransfer ctx requestType request value idx data w in
        let data := received bytes data in
        Done ((match e with
               | Some e => Some e
               | None => if negb (count =? len data)
                         then Some (Errorf "%w: got %d of %d bytes" [Sentinel io_ErrUnexpectedEOF]) else None
               end, data), w)
    end.

Definition readStandard (ctx : context) (request value : Z) (data : list Z) : D (err * list Z) :=
  standardTransfer ctx requestTypeStandardDeviceIn request value 0 data.

Definition interfaceAlternate (ctx : context) (number : Z) : D (Z * err) :=
  r ← standardTransfer ctx requestTypeStandardInterfaceIn requestGetInterface 0 number (make_bytes 1);
  match fst r with
  | Some e => mret (0, Some e)
  | None => v ← lift (index (snd r) 0); mret (v, None)
  end.

Definition configurationValue (ctx : context) : D (Z * err) :=
  r ← readStandard ctx requestGetConfiguration 0 (make_bytes 1);
  match fst r with
  | Some e => mret (0, Some e)
  | None => v ← lift (index (snd r) 0); mret (v, None)
  end.

Definition activeConfigurationValue (ctx : context) : D (Z * err) :=
  r ← configurationValue ctx;
  match snd r with
  | Some e => mret (0, Some (Errorf "usb: read active configuration: %w" [e]))
  | None => if fst r =? 0 then mret (0, Some (Sentinel usb_ErrNotConfigured)) else mret (fst r, None)
  end.

Definition configurationCount (ctx : context) : D (Z * err) :=
  r ← readStandard ctx requestGetDescriptor (Z.shiftl descriptorDevice 8) (make_bytes 18);
  match fst r with
  | Some e => mret (0, Some (Errorf "usb: read device descriptor: %w" [e]))
  | None =>
      size ← lift (index (snd r) 0);
      kind ← lift (index (snd r) 1);
      count ← lift (index (snd r) 17);
      if (size <? len (snd r)) || negb (kind =? descriptorDevice) || (count =? 0)
      then mret (0, Some (New "usb: malformed device descriptor"))
      else mret (count, None)
  end.

Record configurationHeader := mkHeader { hdr_index : Z; hdr_value : Z; hdr_total : Z; hdr_size : Z }.

Definition noHeader : configurationHeader := mkHeader 0 0 0 0.

(** [uint16(descriptorConfiguration)<<8 | uint16(index)] *)
Definition descriptorValue (idx : Z) : Z := Z.lor (Z.shiftl descriptorConfiguration 8) (uint16 idx).

Definition configurationHeaderAt (ctx : context) (idx : Z) : D (configurationHeader * err) :=
  r ← readStandard ctx requestGetDescriptor (descriptorValue idx) (make_bytes 9);
  match fst r with
  | Some e => mret (noHeader, Some (Errorf "usb: read configuration %d header: %w" [e]))
  | None =>
      let header := snd r in
      size ← lift (index header 0);
      kind ← lift (index header 1);
      if (size <? len header) || negb (kind =? descriptorConfiguration)
      then mret (noHeader, Some (New "usb: malformed configuration %d header"))
      else
        value ← lift (index header 5);
        total ← lift (uint16At header 2);
        mret (mkHeader idx value total size, None)
  end.

Definition configurationBytes (ctx : context) (header : configurationHeader) : D (list Z * err) :=
  match readConfigurationDescriptor with
  | Some read => fun w => let (r, w) := read ctx (hdr_index header) (hdr_total header) w in Done (r, w)
  | None =>
      r ← readStandard ctx requestGetDescriptor (descriptorValue (hdr_index header)) (make_bytes (hdr_total header));
      match fst r with
      | Some e => mret ([], Some e)
      | None => mret (snd r, None)
      end
  end.

Definition configurationAt (ctx : context) (header : configurationHeader) (active : Z) : D (Configuration * err) :=
  if hdr_total header <? 9 then mret (noConfiguration, Some (New "usb: invalid configuration %d length %d"))
  else
    r ← configurationBytes ctx header;
    match snd r with
    | Some e => mret (noConfiguration, Some (Errorf "usb: read configuration %d: %w" [e]))
    | None =>
        let raw := fst r in
        length ← lift (index raw 0);
        if negb (length =? hdr_size header)
        then mret (noConfiguration, Some (New "usb: configuration %d descriptor length changed from %d to %d"))
        else
          value ← lift (index raw 5);
          if negb (value =? active)
          then mret (noConfiguration, Some (New "usb: configuration %d value changed from %d to %d"))
          else match parseConfiguration raw with
               | Done (c, None) => mret (c, None)
               | Done (_, Some e) => mret (noConfiguration, Some (Errorf "usb: parse configuration %d: %w" [e]))
               | Panicked => panic
               | OutOfFuel => out_of_fuel
               end
    end.

(** The loop over the configurations' headers; [n] of them are still to be
    read. *)
Fixpoint header_loop (ctx : context) (value : Z) (n : nat) (idx : Z) (active : option configurationHeader)
    : D (option configurationHeader * err) :=
  match n with
  | O => mret (active, None)
  | S n =>
      r ← configurationHeaderAt ctx idx;
      match snd r with
      | Some e => mret (None, Some e)
      | None =>
          if negb (hdr_value (fst r) =? value) then header_loop ctx value n (idx + 1) active
          else match active with
               | Some _ => mret (None, Some (New "usb: active configuration value %d appears at indices %d and %d"))
               | None => header_loop ctx value n (idx + 1) (Some (fst r))
               end
      end
  end.

Definition activeConfiguration (ctx : context) : D (Configuration * err) :=
  r ← activeConfigurationValue ctx;
  match snd r with
  | Some e => mret (noConfiguration, Some e)
  | None =>
      let value := fst r in
      r ← configurationCount ctx;
      match snd r with
      | Some e => mret (noConfiguration, Some e)
      | None =>
          r ← header_loop ctx value (Z.to_nat (fst r)) 0 None;
          match r with
          | (_, Some e) => mret (noConfiguration, Some e)
          | (None, None) => mret (noConfiguration, Some (New "usb: active configuration value %d has no descriptor"))
          | (Some active, None) =>
              r ← configurationAt ctx active value;
              match snd r with
              | Some e => mret (noConfiguration, Some e)
              | None =>
                  let c := fst r in
                  r ← configurationValue ctx;
                  match snd r with
                  | Some e => mret (noConfiguration, Some (Errorf "usb: re-read active configuration: %w" [e]))
                  | None =>
                      if negb (fst r =? value)
                      then mret (noConfiguration, Some (Detail (configurationChangedError value (fst r))))
                      else mret (c, None)
                  end
              end
          end
      end
  end.
End Device.
