(* ===== verification/UsbFacts.v ===== *)
(** * What a parsed configuration is

    The parser's tables summarise the endpoints found so far ([Inv]); with them
    an endpoint is accepted exactly when it is compatible with all of these
    ([validateEndpoint_iff]). *)

From S2P Require Import Prelude Go Bits Usb.
From stdpp Require Import gmap.
Local Open Scope Z_scope.

(** ** Well-formed configurations *)

(** An endpoint with the numbers of its interface and alternate setting. *)
Definition placed : Type := Z * Z * Endpoint.

Definition ep_number (e : Endpoint) : Z := Z.land (Address e) 0x0f.
Definition is_control (e : Endpoint) : Prop := ep_Type e = TransferControl.

(** Two endpoints may have one address, or one number when either is a control
    endpoint, only in different settings of one interface. *)
Definition compatible (x y : placed) : Prop :=
  let '(n, a, e) := x in let '(n', a', e') := y in
  Address e = Address e' \/ (is_control e \/ is_control e') /\ ep_number e = ep_number e' -> n = n' /\ a <> a'.

Definition flat_alternate (n : Z) (a : AlternateSetting) : list placed := (fun e => (n, alt_Number a, e)) <$> Endpoints a.
Definition flat_interface (i : Interface) : list placed := Alternates i ≫= flat_alternate (if_Number i).
Definition flat (l : list Interface) : list placed := l ≫= flat_interface.

(** The numbers of every interface and setting. *)
Definition settings (l : list Interface) : list (Z * Z) :=
  l ≫= fun f => (fun a => (if_Number f, alt_Number a)) <$> Alternates f.

Fixpoint pairwise {A} (R : A -> A -> Prop) (l : list A) : Prop :=
  match l with
  | [] => True
  | x :: l => Forall (R x) l /\ pairwise R l
  end.

Definition valid_endpoint (e : Endpoint) : Prop :=
  is_byte (Address e) /\ ep_number e <> 0 /\ Z.land (Address e) 0x70 = 0 /\ 0 <= MaxPacketSize e <= 1024 /\
  (MaxPacketSize e = 0 -> ep_Type e = TransferInterrupt \/ ep_Type e = TransferIsochronous).

(** Interfaces are numbered from zero without gaps, and so are the settings of
    each; endpoints are valid and compatible. *)
Record wf_configuration (c : Configuration) : Prop := {
  wf_nonempty : Interfaces c <> [];
  wf_interfaces : if_Number <$> Interfaces c ≡ₚ seqZ 0 (len (Interfaces c));
  wf_alternates : Forall (fun i => Alternates i <> [] /\
    alt_Number <$> Alternates i ≡ₚ seqZ 0 (len (Alternates i))) (Interfaces c);
  wf_compatible : pairwise compatible (flat (Interfaces c));
  wf_endpoints : Forall valid_endpoint (snd <$> flat (Interfaces c))
}.

(** ** Lists *)

Lemma compatible_sym x y : compatible x y -> compatible y x.
Proof.
  destruct x as [[n a] e], y as [[n' a'] e']. unfold compatible. intros C D.
  destruct C as [-> C]; [|split; congruence]. destruct D as [->|[D ->]]; [by left|right]. tauto.
Qed.

Lemma pairwise_perm {A} (R : A -> A -> Prop) l k :
  (forall x y, R x y -> R y x) -> l ≡ₚ k -> pairwise R l -> pairwise R k.
Proof.
  intros S. induction 1 as [|x l k P IH|x y l|l k m P IH P' IH']; simpl; auto.
  - intros [F Hl]. split; [by rewrite <- P|auto].
  - intros (F & G & Hl). apply Forall_cons in F as [Rxy F]. repeat split; auto.
Qed.

Lemma pairwise_app {A} (R : A -> A -> Prop) l k :
  pairwise R (l ++ k) <-> pairwise R l /\ pairwise R k /\ Forall (fun x => Forall (R x) k) l.
Proof.
  induction l as [|x l IH]; simpl; [repeat split; try tauto; constructor|].
  rewrite IH, Forall_app, Forall_cons. tauto.
Qed.

Lemma alter_middle {A} (f : A -> A) l x k : alter f (length l) (l ++ x :: k) = l ++ f x :: k.
Proof. induction l; simpl; [done|]. by f_equal. Qed.

Lemma lookup_split {A} (l : list A) i x :
  l !! i = Some x -> exists l1 l2, l = l1 ++ x :: l2 /\ i = length l1.
Proof. intros E. destruct (list_elem_of_split_length l i x E) as (l1 & l2 & -> & ->). eauto. Qed.

Lemma numbered_perm l : NoDup l -> Forall (fun x => 0 <= x < len l) l -> l ≡ₚ seqZ 0 (len l).
Proof.
  intros N F. apply submseteq_length_Permutation.
  - apply NoDup_submseteq; [done|]. intros x E. rewrite elem_of_seqZ.
    rewrite Forall_forall in F. specialize (F x E). simpl in F. lia.
  - rewrite length_seqZ. unfold len. lia.
Qed.

(** ** The parser's invariant *)

(** What the tables of the setting being described say of its endpoints. *)
Definition current (p : configurationParser) (l : list Endpoint) : Prop :=
  (forall x, x ∈ alternateEndpoints p <-> exists e, e ∈ l /\ Address e = x) /\
  (forall k, let seen := default 0 (alternateEndpointNumbers p !! k) in
     0 <= seen /\
     (Z.testbit seen 0 = true <-> exists e, e ∈ l /\ ep_number e = k) /\
     (Z.testbit seen 1 = true <-> exists e, e ∈ l /\ ep_number e = k /\ is_control e)).

Record Inv (p : configurationParser) : Prop := {
  inv_numbers : NoDup (if_Number <$> Interfaces (configuration p));
  inv_index n i : interfaces p !! n = Some i <-> (if_Number <$> Interfaces (configuration p)) !! i = Some n;
  inv_alternates : Forall (fun f => NoDup (alt_Number <$> Alternates f)) (Interfaces (configuration p));
  inv_default n : n ∈ defaultAlternates p <-> (n, 0) ∈ settings (Interfaces (configuration p));
  inv_natural : Forall (fun x => 0 <= fst x /\ 0 <= snd x) (settings (Interfaces (configuration p)));
  inv_owner a n : endpointInterfaces p !! a = Some n <->
    exists j e, (n, j, e) ∈ flat (Interfaces (configuration p)) /\ Address e = a;
  inv_numbered k n : n ∈ default ∅ (endpointNumberInterfaces p !! k) <->
    exists j e, (n, j, e) ∈ flat (Interfaces (configuration p)) /\ ep_number e = k;
  inv_control k n : controlEndpointInterfaces p !! k = Some n <->
    exists j e, (n, j, e) ∈ flat (Interfaces (configuration p)) /\ ep_number e = k /\ is_control e;
  inv_current : match alternate p with
    | None => True
    | Some (i, j) => exists f a, Interfaces (configuration p) !! i = Some f /\ Alternates f !! j = Some a /\
        if_Number f = interfaceNumber p /\ current p (Endpoints a)
    end;
  inv_compatible : pairwise compatible (flat (Interfaces (configuration p)));
  inv_valid : Forall valid_endpoint (snd <$> flat (Interfaces (configuration p)))
}.

Lemma inv_new v : Inv (newParser v).
Proof.
  split; simpl; try done.
  - constructor.
  - intros n. split; set_solver.
  - intros. split; [done|]. intros (j & e & E & _). set_solver.
  - intros. split; [set_solver|]. intros (j & e & E & _). set_solver.
  - intros. split; [done|]. intros (j & e & E & _). set_solver.
Qed.

(** The endpoints of the setting being described are those of [flat] with its
    numbers. *)
Lemma flat_current p i j f a x :
  Inv p -> Interfaces (configuration p) !! i = Some f -> Alternates f !! j = Some a ->
  (if_Number f, alt_Number a, x) ∈ flat (Interfaces (configuration p)) <-> x ∈ Endpoints a.
Proof.
  intros I Hi Hj. unfold flat, flat_interface, flat_alternate. rewrite list_elem_of_bind. split.
  - intros (f' & Hx & Hf'). rewrite list_elem_of_bind in Hx. destruct Hx as (a' & Hx & Ha').
    rewrite list_elem_of_fmap in Hx. destruct Hx as (e & [= N A ->] & He).
    apply list_elem_of_lookup in Hf' as [i' Hi']. apply list_elem_of_lookup in Ha' as [j' Hj'].
    assert (i' = i) as ->.
    { apply (NoDup_lookup _ i' i (if_Number f) (inv_numbers p I)); rewrite list_lookup_fmap, ?Hi, ?Hi'; simpl; congruence. }
    rewrite Hi in Hi'. injection Hi' as <-.
    assert (j' = j) as ->.
    { pose proof (proj1 (Forall_lookup _ _) (inv_alternates p I) _ _ Hi) as ND. simpl in ND.
      apply (NoDup_lookup _ j' j (alt_Number a) ND); rewrite list_lookup_fmap, ?Hj, ?Hj'; simpl; congruence. }
    congruence.
  - intros He. exists f. split; [|by eapply list_elem_of_lookup_2].
    rewrite list_elem_of_bind. exists a. split; [|by eapply list_elem_of_lookup_2].
    rewrite list_elem_of_fmap. eauto.
Qed.

Lemma any_bits_pow2 s k m : m = 2 ^ k -> 0 <= k -> any_bits s m = Z.testbit s k.
Proof. intros -> Hk. by apply any_bits_bit. Qed.

(** A pair of endpoints in conflict, in the order [validateEndpoint] looks. *)
Lemma conflict_dec n a e n' a' e' :
  ~ compatible (n, a, e) (n', a', e') <->
  (Address e = Address e' \/ (is_control e \/ is_control e') /\ ep_number e = ep_number e') /\ (n <> n' \/ a = a').
Proof.
  unfold compatible, is_control.
  destruct (decide (n = n')), (decide (a = a')), (decide (Address e = Address e')),
    (decide (ep_number e = ep_number e')), (decide (ep_Type e = TransferControl)), (decide (ep_Type e' = TransferControl)); tauto.
Qed.

#[global] Instance compatible_dec x y : Decision (compatible x y).
Proof.
  destruct x as [[n a] e], y as [[n' a'] e'].
  destruct (decide ((Address e = Address e' \/ (is_control e \/ is_control e') /\ ep_number e = ep_number e') /\ (n <> n' \/ a = a')))
    as [C|C]; [right|left].
  - by apply conflict_dec.
  - destruct (decide (n = n' /\ a <> a')); [by intros _|]. intros D. exfalso. apply C. split; [done|].
    destruct (decide (n = n')); [|by left]. destruct (decide (a = a')); tauto.
Defined.

Section Validate.
Context (p : configurationParser) (i j : nat) (f : Interface) (a : AlternateSetting) (e : Endpoint).
Context (I : Inv p) (Hat : alternate p = Some (i, j)).
Context (Hi : Interfaces (configuration p) !! i = Some f) (Hj : Alternates f !! j = Some a).

Lemma current_setting : if_Number f = interfaceNumber p /\ current p (Endpoints a).
Proof.
  pose proof (inv_current p I) as C. rewrite Hat in C. destruct C as (f' & a' & Ef & Ea & N & C).
  rewrite Hi in Ef. injection Ef as <-. rewrite Hj in Ea. by injection Ea as <-.
Qed.

Abbreviation here x := (compatible (if_Number f, alt_Number a, e) x).

(** What each guard of [validateEndpoint] sees. *)
Lemma duplicate_conflict :
  Address e ∈ alternateEndpoints p -> exists x, x ∈ flat (Interfaces (configuration p)) /\ ~ here x.
Proof.
  destruct current_setting as [_ [C _]]. rewrite C. intros (e' & He' & A).
  exists (if_Number f, alt_Number a, e'). split; [by apply (flat_current p i j)|].
  apply conflict_dec. auto.
Qed.

Lemma number_conflict :
  let seen := default 0 (alternateEndpointNumbers p !! ep_number e) in
  is_control e /\ Z.testbit seen 0 = true \/ Z.testbit seen 1 = true ->
  exists x, x ∈ flat (Interfaces (configuration p)) /\ ~ here x.
Proof.
  destruct current_setting as [_ [_ C]]. destruct (C (ep_number e)) as (_ & S0 & S1). simpl.
  intros [[T S]|S].
  - apply S0 in S as (e' & He' & N). exists (if_Number f, alt_Number a, e').
    split; [by apply (flat_current p i j)|]. apply conflict_dec. auto.
  - apply S1 in S as (e' & He' & N & T). exists (if_Number f, alt_Number a, e').
    split; [by apply (flat_current p i j)|]. apply conflict_dec. auto.
Qed.

Lemma elsewhere_conflict n k e' :
  (n, k, e') ∈ flat (Interfaces (configuration p)) -> n <> interfaceNumber p ->
  Address e = Address e' \/ (is_control e \/ is_control e') /\ ep_number e = ep_number e' ->
  exists x, x ∈ flat (Interfaces (configuration p)) /\ ~ here x.
Proof.
  intros Hx Hn C. exists (n, k, e'). split; [done|]. apply conflict_dec. split; [done|].
  left. destruct current_setting. congruence.
Qed.

Lemma no_conflict_compatible :
  Address e ∉ alternateEndpoints p ->
  (let seen := default 0 (alternateEndpointNumbers p !! ep_number e) in
   ~ (is_control e /\ Z.testbit seen 0 = true \/ Z.testbit seen 1 = true)) ->
  (forall n k e', (n, k, e') ∈ flat (Interfaces (configuration p)) ->
     Address e = Address e' \/ (is_control e \/ is_control e') /\ ep_number e = ep_number e' ->
     n = interfaceNumber p) ->
  Forall (compatible (if_Number f, alt_Number a, e)) (flat (Interfaces (configuration p))).
Proof.
  destruct current_setting as [Hn [C C']]. intros D N O. apply Forall_forall. intros [[n k] e'] Hx.
  destruct (decide (compatible (if_Number f, alt_Number a, e) (n, k, e'))) as [|K]; [done|exfalso].
  apply conflict_dec in K as [K [K'|K']]; [apply K'; rewrite (O n k e' Hx K); done|].
  subst k. rewrite (O n _ e' Hx K), <- Hn in Hx. apply (flat_current p i j) in Hx; [|done..].
  destruct K as [K|[T K]]; [apply D, C; eauto|].
  apply N. destruct (C' (ep_number e)) as (_ & S0 & S1). destruct T as [T|T].
  - left. split; [done|]. apply S0. eauto.
  - right. apply S1. eauto.
Qed.

Lemma conflict_not_all x :
  x ∈ flat (Interfaces (configuration p)) -> ~ here x ->
  ~ Forall (compatible (if_Number f, alt_Number a, e)) (flat (Interfaces (configuration p))).
Proof. intros Hx Hn F. rewrite Forall_forall in F. by apply Hn, F. Qed.

Lemma validateEndpoint_iff :
  exists r, validateEndpoint (Address e) (ep_Type e) p = Done (r, p) /\
    (r = None <-> Forall (compatible (if_Number f, alt_Number a, e)) (flat (Interfaces (configuration p)))).
Proof.
  assert (forall m, (exists x, x ∈ flat (Interfaces (configuration p)) /\ ~ here x) ->
    (Some (New m) = None <-> Forall (compatible (if_Number f, alt_Number a, e)) (flat (Interfaces (configuration p))))) as Bad.
  { intros m (x & Hx & Hn). split; [done|]. intros F. by destruct (conflict_not_all x Hx Hn F). }
  unfold validateEndpoint, mbind, GoM_bind, gets. change (Z.land (Address e) 15) with (ep_number e).
  cbv zeta. rewrite (any_bits_pow2 _ 0 endpointNumberSeen), (any_bits_pow2 _ 1 controlEndpointSeen) by done.
  change (id p) with p.
  case_bool_decide as D; [eexists; split; [reflexivity|]; by apply Bad, duplicate_conflict|].
  destruct (bool_decide (ep_Type e = TransferControl) && _ || _) eqn:N;
    [eexists; split; [reflexivity|]; apply Bad, number_conflict|].
  { apply orb_true_iff in N as [N|N]; [|by right]. apply andb_true_iff in N as [T N].
    apply bool_decide_eq_true in T. by left. }
  destruct (match endpointInterfaces p !! Address e with Some _ => _ | None => _ end) eqn:O1;
    [eexists; split; [reflexivity|]; apply Bad|].
  { destruct (endpointInterfaces p !! Address e) as [n|] eqn:E; [|done].
    apply (inv_owner p I) in E as (k & e' & Hx & A). apply (elsewhere_conflict n k e'); auto.
    apply negb_true_iff, Z.eqb_neq in O1. done. }
  destruct (match controlEndpointInterfaces p !! ep_number e with Some _ => _ | None => _ end) eqn:O2;
    [eexists; split; [reflexivity|]; apply Bad|].
  { destruct (controlEndpointInterfaces p !! ep_number e) as [n|] eqn:E; [|done].
    apply (inv_control p I) in E as (k & e' & Hx & A & T). apply (elsewhere_conflict n k e'); auto.
    apply negb_true_iff, Z.eqb_neq in O2. done. }
  destruct (bool_decide (ep_Type e = TransferControl) && existsb _ _) eqn:O3;
    [eexists; split; [reflexivity|]; apply Bad|].
  { apply andb_true_iff in O3 as [T O3]. apply bool_decide_eq_true in T.
    apply existsb_exists in O3 as (n & Hn & Ne). rewrite <- list_elem_of_In, elem_of_elements in Hn.
    apply (inv_numbered p I) in Hn as (k & e' & Hx & A). apply (elsewhere_conflict n k e'); auto.
    apply negb_true_iff, Z.eqb_neq in Ne. done. }
  eexists; split; [reflexivity|]. split; [intros _|done]. apply no_conflict_compatible; [done|..].
  - apply orb_false_iff in N as [N N1]. cbv zeta. intros [[T S]|S]; [|congruence].
    apply andb_false_iff in N as [N|N]; [by apply bool_decide_eq_false in N|congruence].
  - intros n k e' Hx [A|[[T|T] K]].
    + assert (endpointInterfaces p !! Address e = Some n) as E by (apply (inv_owner p I); eauto).
      rewrite E in O1. apply negb_false_iff, Z.eqb_eq in O1. done.
    + apply andb_false_iff in O3 as [O3|O3]; [by apply bool_decide_eq_false in O3|].
      destruct (decide (n = interfaceNumber p)) as [|Ne]; [done|exfalso].
      apply not_true_iff_false in O3. apply O3, existsb_exists. exists n. split.
      * rewrite <- list_elem_of_In, elem_of_elements. apply (inv_numbered p I). eauto.
      * by apply negb_true_iff, Z.eqb_neq.
    + assert (controlEndpointInterfaces p !! ep_number e = Some n) as E by (apply (inv_control p I); exists k, e'; auto).
      rewrite E in O2. apply negb_false_iff, Z.eqb_eq in O2. done.
Qed.
End Validate.

(** ** Growing a configuration *)

Lemma fmap_alter_same {A B} (g : A -> B) (h : A -> A) (i : nat) (l : list A) :
  (forall x, g (h x) = g x) -> g <$> alter h i l = g <$> l.
Proof. intros E. revert i. induction l as [|x l IH]; intros [|i]; [done..|by cbn; rewrite E|].
  change (g x :: (g <$> alter h i l) = g x :: (g <$> l)). by rewrite IH.
Qed.

(** Where an interface and one of its settings are in their lists. *)
Lemma setting_split (l : list Interface) i j f a :
  l !! i = Some f -> Alternates f !! j = Some a ->
  exists l1 l2 a1 a2, l = l1 ++ f :: l2 /\ i = length l1 /\ Alternates f = a1 ++ a :: a2 /\ j = length a1.
Proof.
  intros Hi Hj. destruct (lookup_split _ _ _ Hi) as (l1 & l2 & -> & ->).
  destruct (lookup_split _ _ _ Hj) as (a1 & a2 & E & ->). exists l1, l2, a1, a2. auto.
Qed.

Lemma flat_app l k : flat (l ++ k) = flat l ++ flat k.
Proof. apply bind_app. Qed.

Lemma flat_cons f l : flat (f :: l) = flat_interface f ++ flat l.
Proof. done. Qed.

Lemma flat_add_endpoint l i j f a e :
  l !! i = Some f -> Alternates f !! j = Some a ->
  flat (alter (setAlternates (alter (addEndpointTo e) j)) i l) ≡ₚ (if_Number f, alt_Number a, e) :: flat l.
Proof.
  intros Hi Hj. destruct (setting_split _ _ _ _ _ Hi Hj) as (l1 & l2 & a1 & a2 & -> & -> & Ea & ->).
  rewrite alter_middle, !flat_app, !flat_cons. unfold flat_interface, setAlternates. simpl.
  rewrite Ea, alter_middle, !bind_app. simpl. unfold flat_alternate at 2, addEndpointTo. simpl.
  rewrite fmap_app. simpl. rewrite <- !app_assoc. simpl. by rewrite <- !Permutation_middle.
Qed.

Lemma settings_add_endpoint l i j e :
  settings (alter (setAlternates (alter (addEndpointTo e) j)) i l) = settings l.
Proof.
  revert i. induction l as [|f l IH]; intros [|i]; [done..| |].
  - change (settings (?x :: l)) with (((fun a => (if_Number f, alt_Number a)) <$> Alternates f) ++ settings l).
    unfold settings at 1. simpl. f_equal. by apply fmap_alter_same.
  - unfold settings in *. simpl. f_equal. apply IH.
Qed.

(** [addEndpoint] once the endpoint is accepted. *)
Definition endpointAdded (i j : nat) (e : Endpoint) (p : configurationParser) : configurationParser :=
  match recordEndpoint (Address e) (ep_Type e) p with
  | Done (_, p) =>
      set_configuration (mkConfiguration (Value (configuration p))
        (alter (setAlternates (alter (addEndpointTo e) j)) i (Interfaces (configuration p)))) p
  | _ => p
  end.

Lemma exists_snoc {A} (P : A -> Prop) l x :
  (exists y, y ∈ l ++ [x] /\ P y) <-> P x \/ exists y, y ∈ l /\ P y.
Proof.
  split.
  - intros (y & Hy & HP). apply elem_of_app in Hy as [Hy|Hy]; [eauto|].
    apply list_elem_of_singleton in Hy as ->. auto.
  - intros [HP|(y & Hy & HP)]; [exists x|exists y]; rewrite elem_of_app, list_elem_of_singleton; auto.
Qed.

Lemma current_add p i j e l :
  current p l -> current (endpointAdded i j e p) (l ++ [e]).
Proof.
  intros [C C']. unfold endpointAdded, recordEndpoint. change (Z.land (Address e) 15) with (ep_number e).
  split; cbn -[Z.testbit].
  - intros x. rewrite elem_of_union, elem_of_singleton, C, exists_snoc. intuition congruence.
  - intros k. rewrite !exists_snoc. destruct (decide (k = ep_number e)) as [->|Ne].
    + destruct (C' (ep_number e)) as (Hp & S0 & S1). rewrite lookup_insert_eq. cbn -[Z.testbit].
      set (seen := default 0 _) in *. unfold endpointNumberSeen, controlEndpointSeen, is_control in *.
      case_bool_decide as T; rewrite !Z.lor_nonneg, !Z.lor_spec;
        change (Z.testbit 1 0) with true; change (Z.testbit 1 1) with false;
        change (Z.testbit 2 0) with false; change (Z.testbit 2 1) with true;
        rewrite ?orb_true_r, ?orb_false_r; (split; [lia|]); (split; [tauto|]); tauto.
    + rewrite lookup_insert_ne by done. destruct (C' k) as (Hp & S0 & S1). split; [done|]. rewrite S0, S1.
      intuition congruence.
Qed.

Lemma inv_endpoint p i j f a e :
  Inv p -> alternate p = Some (i, j) ->
  Interfaces (configuration p) !! i = Some f -> Alternates f !! j = Some a -> valid_endpoint e ->
  Forall (compatible (if_Number f, alt_Number a, e)) (flat (Interfaces (configuration p))) ->
  Inv (endpointAdded i j e p).
Proof.
  intros I Hat Hi Hj V F. destruct (current_setting p i j f a I Hat Hi Hj) as [Hn Hc].
  pose proof (flat_add_endpoint _ i j f a e Hi Hj) as Pm.
  assert (Interfaces (configuration (endpointAdded i j e p)) =
    alter (setAlternates (alter (addEndpointTo e) j)) i (Interfaces (configuration p))) as Ec by done.
  pose proof (inv_compatible p I) as Hcomp. rewrite Forall_forall in F.
  split; rewrite ?Ec.
  - rewrite fmap_alter_same by done. apply I.
  - intros n x. rewrite fmap_alter_same by done. apply (inv_index p I).
  - apply Forall_alter; [apply I|]. intros g _ N. simpl. by rewrite fmap_alter_same.
  - intros n. rewrite settings_add_endpoint. apply (inv_default p I).
  - rewrite settings_add_endpoint. apply I.
  - intros x n. setoid_rewrite Pm. setoid_rewrite elem_of_cons. simpl. rewrite <- Hn.
    destruct (decide (x = Address e)) as [->|Ne].
    + rewrite lookup_insert_eq. split; [intros [= ->]; eauto 6|].
      intros (k & y & [[= -> -> ->]|Hy] & A); [done|]. specialize (F _ Hy). simpl in F. destruct F as [-> _]; auto.
    + rewrite lookup_insert_ne, (inv_owner p I) by done. split; intros (k & y & Hy & A); [eauto 6|].
      destruct Hy as [[= -> -> ->]|Hy]; [done|eauto].
  - intros k n. setoid_rewrite Pm. setoid_rewrite elem_of_cons. simpl. rewrite <- Hn.
    change (Z.land (Address e) 15) with (ep_number e).
    destruct (decide (k = ep_number e)) as [->|Ne].
    + rewrite lookup_insert_eq. simpl. rewrite elem_of_union, elem_of_singleton, (inv_numbered p I).
      split; [intros [->|(x & y & Hy & A)]; eauto 6|].
      intros (x & y & [[= -> -> ->]|Hy] & A); [by left|right; eauto].
    + rewrite lookup_insert_ne, (inv_numbered p I) by done. split; intros (x & y & Hy & A); [eauto 6|].
      destruct Hy as [[= -> -> ->]|Hy]; [done|eauto].
  - intros k n. setoid_rewrite Pm. setoid_rewrite elem_of_cons. simpl. rewrite <- Hn.
    change (Z.land (Address e) 15) with (ep_number e).
    case_bool_decide as T; [destruct (decide (k = ep_number e)) as [->|Ne]|].
    + rewrite lookup_insert_eq. split; [intros [= ->]; exists (alt_Number a), e; auto|].
      intros (x & y & [[= -> -> ->]|Hy] & A & K); [done|]. specialize (F _ Hy). simpl in F.
      destruct F as [-> _]; auto.
    + rewrite lookup_insert_ne, (inv_control p I) by done. split; intros (x & y & Hy & A & K); [exists x, y; auto|].
      destruct Hy as [[= -> -> ->]|Hy]; [done|exists x, y; auto].
    + rewrite (inv_control p I). split; intros (x & y & Hy & A & K); [exists x, y; auto|].
      destruct Hy as [[= -> -> ->]|Hy]; [done|exists x, y; auto].
  - change (alternate (endpointAdded i j e p)) with (alternate p). rewrite Hat.
    exists (setAlternates (alter (addEndpointTo e) j) f), (addEndpointTo e a).
    rewrite list_lookup_alter_eq, Hi. split; [done|]. simpl. rewrite list_lookup_alter_eq, Hj.
    split; [done|]. split; [done|]. by apply current_add.
  - eapply (pairwise_perm _ _ _ compatible_sym); [symmetry; exact Pm|]. simpl. split; [by apply Forall_forall|done].
  - rewrite Pm. simpl. constructor; [done|apply I].
Qed.

Lemma flat_add_setting l i f a :
  l !! i = Some f -> Endpoints a = [] -> flat (alter (setAlternates (fun k => k ++ [a])) i l) = flat l.
Proof.
  intros Hi He. destruct (lookup_split _ _ _ Hi) as (l1 & l2 & -> & ->).
  rewrite alter_middle, !flat_app, !flat_cons. f_equal. f_equal.
  unfold flat_interface. simpl. rewrite bind_app. simpl. unfold flat_alternate at 2. rewrite He. simpl.
  by rewrite !app_nil_r.
Qed.

Lemma settings_add_setting l i f a :
  l !! i = Some f ->
  settings (alter (setAlternates (fun k => k ++ [a])) i l) ≡ₚ (if_Number f, alt_Number a) :: settings l.
Proof.
  intros Hi. destruct (lookup_split _ _ _ Hi) as (l1 & l2 & -> & ->).
  rewrite alter_middle. unfold settings. rewrite !bind_app. simpl. rewrite fmap_app. simpl.
  rewrite <- !app_assoc. simpl. by rewrite <- !Permutation_middle.
Qed.

Lemma interfaceFor_run p n :
  Inv p ->
  exists i p' f, interfaceFor n p = Done (i, p') /\ Inv p' /\ Interfaces (configuration p') !! i = Some f /\
    if_Number f = n /\ Value (configuration p') = Value (configuration p) /\
    ((p' = p /\ n ∈ if_Number <$> Interfaces (configuration p)) \/
     (i = length (Interfaces (configuration p)) /\ f = mkInterface n [] /\
      Interfaces (configuration p') = Interfaces (configuration p) ++ [f] /\
      n ∉ if_Number <$> Interfaces (configuration p))).
Proof.
  intros I. unfold interfaceFor, mbind, GoM_bind, gets. change (id p) with p.
  destruct (interfaces p !! n) as [i|] eqn:E.
  - apply (inv_index p I) in E as Ei. rewrite list_lookup_fmap in Ei.
    destruct (Interfaces (configuration p) !! i) as [f|] eqn:Hf; [|done]. injection Ei as Hn.
    exists i, p, f. split_and!; auto. left. split; [done|]. subst n.
    apply list_elem_of_fmap. exists f. split; [done|by eapply list_elem_of_lookup_2].
  - assert (n ∉ if_Number <$> Interfaces (configuration p)) as Hn.
    { intros Hn. apply list_elem_of_lookup in Hn as [i Hi]. apply (inv_index p I) in Hi. congruence. }
    eexists _, _, (mkInterface n []). split; [reflexivity|]. simpl.
    split; [|split; [by rewrite lookup_app_r, Nat.sub_diag by done|split_and!; auto; right; auto]].
    assert (flat (Interfaces (configuration p) ++ [mkInterface n []]) = flat (Interfaces (configuration p))) as Hflat
      by (rewrite flat_app; simpl; by rewrite app_nil_r).
    split; simpl; rewrite ?Hflat; try apply I.
    + rewrite fmap_app. apply NoDup_app. split; [apply I|]. split; [|apply NoDup_singleton].
      intros x Hx Hy. apply list_elem_of_singleton in Hy as ->. done.
    + intros m x. rewrite fmap_app, lookup_app. destruct (decide (m = n)) as [->|Ne].
      * rewrite lookup_insert_eq. split.
        -- intros [= <-]. rewrite lookup_ge_None_2 by (by rewrite length_fmap). by rewrite length_fmap, Nat.sub_diag.
        -- destruct ((if_Number <$> _) !! x) eqn:Ex; [intros [= ->]; by apply list_elem_of_lookup_2 in Ex|].
           apply lookup_ge_None in Ex. rewrite length_fmap in *. intros El.
           apply lookup_lt_Some in El. simpl in El. f_equal. lia.
      * rewrite lookup_insert_ne by done. rewrite (inv_index p I).
        destruct ((if_Number <$> _) !! x) eqn:Ex; [done|]. split; [done|].
        intros El. apply list_lookup_singleton_Some in El as [_ ?]. done.
    + apply Forall_app. split; [apply I|]. constructor; [constructor|done].
    + intros m. unfold settings. rewrite bind_app. simpl. rewrite app_nil_r. apply I.
    + unfold settings. rewrite bind_app. simpl. rewrite app_nil_r. apply I.
    + pose proof (inv_current p I) as C. destruct (alternate p) as [[i j]|]; [|done].
      destruct C as (f & a & Hf & Ha & C). exists f, a. split; [by apply lookup_app_l_Some|done].
Qed.

Lemma inv_alternate p i f n a want :
  Inv p -> Interfaces (configuration p) !! i = Some f -> if_Number f = n -> Endpoints a = [] ->
  alt_Number a ∉ alt_Number <$> Alternates f -> 0 <= n -> 0 <= alt_Number a ->
  exists p', beginAlternate i n a want p = Done (tt, p') /\ Inv p' /\
    Value (configuration p') = Value (configuration p) /\
    Interfaces (configuration p') = alter (setAlternates (fun k => k ++ [a])) i (Interfaces (configuration p)) /\
    alternate p' = Some (i, length (Alternates f)) /\ wantEndpoints p' = want.
Proof.
  intros I Hi Hn He Hd Hn0 Ha0. eexists. split; [reflexivity|]. simpl. rewrite Hi.
  split; [|done]. split; simpl; rewrite ?(flat_add_setting _ _ _ _ Hi He); try apply I.
  - rewrite fmap_alter_same by done. apply I.
  - intros m x. rewrite fmap_alter_same by done. apply I.
  - apply Forall_alter; [apply I|]. intros g Hg N. simpl. rewrite Hi in Hg. injection Hg as <-.
    rewrite fmap_app. simpl. apply NoDup_app. split; [done|]. split; [|apply NoDup_singleton].
    intros x Hx Hy. apply list_elem_of_singleton in Hy as ->. done.
  - intros m. rewrite (settings_add_setting _ _ _ _ Hi), elem_of_cons, Hn.
    destruct (Z.eqb_spec (alt_Number a) 0) as [Ez|Ez].
    + rewrite Ez, elem_of_union, elem_of_singleton, (inv_default p I). intuition congruence.
    + rewrite (inv_default p I). intuition congruence.
  - rewrite (settings_add_setting _ _ _ _ Hi), Hn. constructor; [done|apply I].
  - eexists _, a. rewrite list_lookup_alter_eq, Hi. split; [done|]. simpl. rewrite lookup_app_r, Nat.sub_diag by done.
    split; [done|]. split; [done|]. rewrite He. split; simpl.
    + intros x. split; [set_solver|]. intros (y & Hy & _). by apply not_elem_of_nil in Hy.
    + intros k. rewrite lookup_empty. simpl. split; [done|]. split; (split; [done|]); intros (y & Hy & _); by apply not_elem_of_nil in Hy.
Qed.

(** ** Every descriptor keeps the invariant *)

Lemma bytes_index l i x : bytes l -> index l i = Some x -> is_byte x.
Proof. intros B E. apply index_Some in E as [_ E]. exact (proj1 (Forall_lookup _ _) B _ _ E). Qed.

Lemma index_in {A} (l : list A) i : 0 <= i < len l -> exists x, index l i = Some x.
Proof. intros Hi. apply index_is_Some in Hi as [x Hx]. eauto. Qed.

Lemma land_ones_le x k : 0 <= k -> 0 <= Z.land x (Z.ones k) < 2 ^ k.
Proof. intros. rewrite Z.land_ones by done. apply Z.mod_pos_bound, Z.pow_pos_nonneg; lia. Qed.

Lemma endpointMaxPacketSize_valid v t s :
  endpointMaxPacketSize v t = (s, true) ->
  0 <= s <= 1024 /\ (s = 0 -> t = TransferInterrupt \/ t = TransferIsochronous).
Proof.
  unfold endpointMaxPacketSize. destruct (_ || _); [done|]. intros [= Hs Hv].
  apply andb_true_iff in Hv as [Hle Hv]. apply Z.leb_le in Hle.
  pose proof (land_ones_le v 11 ltac:(done)) as Hb. change (Z.ones 11) with 2047 in Hb. rewrite Hs in *.
  split; [lia|]. intros ->. apply orb_true_iff in Hv as [Hv|Hv].
  - apply Z.leb_le in Hv. unfold endpointPacketSizeMinimum in Hv. destruct (Z.land v 0x1800 =? 0), (Z.land v 0x1800 =? 0x0800); lia.
  - rewrite !andb_true_iff, orb_true_iff, !bool_decide_eq_true in Hv. tauto.
Qed.

(** Reading a descriptor's endpoint never panics and gives valid endpoints. *)
Lemma endpointFromDescriptor_total d :
  bytes d -> exists e r, endpointFromDescriptor d = Some (e, r) /\ (r = None -> valid_endpoint e).
Proof.
  intros B. unfold endpointFromDescriptor, uint16At. destruct (Z.ltb_spec (len d) 7) as [|Hl]; [eexists _, _; split; [reflexivity|done]|].
  destruct (index_in d 2 ltac:(lia)) as [a Ha], (index_in d 3 ltac:(lia)) as [t Ht],
    (index_in d 4 ltac:(lia)) as [lo Hlo], (index_in d (4 + 1) ltac:(lia)) as [hi Hhi],
    (index_in d 6 ltac:(lia)) as [v Hv].
  rewrite Ha, Ht, Hlo, Hhi, Hv. simpl.
  destruct (_ || _) eqn:Ea; [eexists _, _; split; [reflexivity|done]|].
  destruct (negb _); [eexists _, _; split; [reflexivity|done]|].
  destruct (negb _); [eexists _, _; split; [reflexivity|done]|].
  destruct (endpointMaxPacketSize _ _) as [s ok] eqn:Es. destruct ok; [|eexists _, _; split; [reflexivity|done]].
  eexists _, _; split; [reflexivity|]. intros _. apply endpointMaxPacketSize_valid in Es as [Hs Hz].
  apply orb_false_iff in Ea as [En Ez]. apply Z.eqb_neq in En. unfold any_bits in Ez.
  apply negb_false_iff, Z.eqb_eq in Ez. unfold valid_endpoint, ep_number. simpl.
  split; [by eapply bytes_index|]. auto.
Qed.

Definition grows (p p' : configurationParser) : Prop := Inv p' /\ Value (configuration p') = Value (configuration p).

Lemma alternateAt_current p at_ :
  Inv p -> alternate p = Some at_ -> exists f a, Interfaces (configuration p) !! fst at_ = Some f /\
    Alternates f !! snd at_ = Some a /\ alternateAt (configuration p) at_ = Some a.
Proof.
  intros I E. pose proof (inv_current p I) as C. rewrite E in C. destruct at_ as [i j].
  destruct C as (f & a & Hf & Ha & _). exists f, a. split; [done|]. split; [done|].
  unfold alternateAt. simpl. by rewrite Hf.
Qed.

Lemma finishAlternate_run p : Inv p -> exists r, finishAlternate p = Done (r, p).
Proof.
  intros I. unfold finishAlternate, mbind, GoM_bind, gets. change (id p) with p.
  destruct (alternate p) as [at_|] eqn:E; [|eexists; reflexivity].
  destruct (alternateAt_current p at_ I E) as (f & a & _ & _ & Ha). rewrite Ha. eexists. reflexivity.
Qed.

Lemma addEndpoint_run p at_ f a e d :
  Inv p -> alternate p = Some at_ -> endpointFromDescriptor d = Some (e, None) -> valid_endpoint e ->
  Interfaces (configuration p) !! fst at_ = Some f -> Alternates f !! snd at_ = Some a ->
  Forall (compatible (if_Number f, alt_Number a, e)) (flat (Interfaces (configuration p))) ->
  addEndpoint d p = Done (None, endpointAdded (fst at_) (snd at_) e p).
Proof.
  intros I Hat Hd V Hf Ha F. unfold addEndpoint, mbind at 1, GoM_bind at 1, gets at 1.
  change (id p) with p. rewrite Hat, Hd.
  destruct at_ as [i j]. destruct (validateEndpoint_iff p i j f a e I Hat Hf Ha) as (r & Hr & Hc).
  apply Hc in F as ->. unfold mbind, GoM_bind, lift. simpl. rewrite Hr. done.
Qed.

Lemma addEndpoint_wp p d : Inv p -> bytes d -> wp (addEndpoint d) (fun e p' => e = None -> grows p p') p.
Proof.
  intros I B. unfold addEndpoint. apply wp_bind, wp_gets. change (id p) with p.
  destruct (alternate p) as [at_|] eqn:E; [|by apply wp_ret].
  destruct (endpointFromDescriptor_total d B) as (e & r & Hd & V).
  apply wp_bind, (wp_lift _ (e, r)); [done|]. simpl. destruct r as [r|]; [by apply wp_ret|].
  destruct (alternateAt_current p at_ I E) as (f & a & Hf & Ha & _). destruct at_ as [i j].
  destruct (validateEndpoint_iff p i j f a e I E Hf Ha) as (r & Hr & Hc).
  apply wp_bind. unfold wp at 1. rewrite Hr. destruct r as [r|]; [by apply wp_ret|].
  repeat (apply wp_bind, wp_modify). apply wp_ret. intros _.
  split; [|done]. apply (inv_endpoint p i j f a e I E Hf Ha (V eq_refl)). by apply Hc.
Qed.

Lemma fresh_setting l k :
  existsb (fun existing => alt_Number existing =? k) l = false <-> k ∉ alt_Number <$> l.
Proof.
  rewrite <- not_true_iff_false, existsb_exists, list_elem_of_fmap. setoid_rewrite <- list_elem_of_In.
  setoid_rewrite Z.eqb_eq. split; intros N (x & Hx & Hk); apply N; eauto.
Qed.

Lemma addInterface_wp p d : Inv p -> bytes d -> wp (addInterface d) (fun e p' => e = None -> grows p p') p.
Proof.
  intros I B. unfold addInterface. destruct (Z.ltb_spec (len d) 9) as [|Hl]; [by apply wp_ret|].
  destruct (finishAlternate_run p I) as [r Hr]. apply wp_bind. unfold wp at 1. rewrite Hr.
  destruct r; [by apply wp_ret|].
  destruct (index_in d 2 ltac:(lia)) as [n Hn], (index_in d 3 ltac:(lia)) as [k Hk], (index_in d 4 ltac:(lia)) as [w Hw],
    (index_in d 5 ltac:(lia)) as [c Hc], (index_in d 6 ltac:(lia)) as [s Hs], (index_in d 7 ltac:(lia)) as [t Ht].
  apply wp_bind, (wp_lift _ n); [done|].
  destruct (interfaceFor_run p n I) as (i & p1 & f & Hi & I1 & Hf & Nf & Hv & _).
  apply wp_bind. unfold wp at 1. rewrite Hi. apply wp_bind, wp_gets.
  apply wp_bind, (wp_lift _ f); [done|]. apply wp_bind, (wp_lift _ k); [done|].
  destruct (existsb _ _) eqn:Ex; [by apply wp_ret|]. apply fresh_setting in Ex.
  do 4 (apply wp_bind; eapply wp_lift; [eassumption|]).
  destruct (inv_alternate p1 i f n (mkAlternate k c s t []) w I1 Hf Nf eq_refl Ex (proj1 (bytes_index _ _ _ B Hn))
    (proj1 (bytes_index _ _ _ B Hk))) as (p2 & Hp2 & I2 & Hv2 & _).
  apply wp_bind. unfold wp at 1. rewrite Hp2. apply wp_ret. intros _. split; [done|congruence].
Qed.

Lemma addDescriptor_wp p d :
  Inv p -> bytes d -> 2 <= len d -> wp (addDescriptor d) (fun e p' => e = None -> grows p p') p.
Proof.
  intros I B Hl. unfold addDescriptor. destruct (index_in d 1 ltac:(lia)) as [k Hk].
  apply wp_bind, (wp_lift _ k); [done|]. destruct (k =? descriptorInterface); [by apply addInterface_wp|].
  destruct (k =? descriptorEndpoint); [by apply addEndpoint_wp|]. apply wp_ret. intros _. by split.
Qed.

(** The loop ends, having read every descriptor or met a malformed one. *)
Lemma parse_loop_wp raw fuel position p :
  Inv p -> bytes raw -> 0 <= position -> len raw - position <= Z.of_nat fuel ->
  wp (parse_loop fuel raw position) (fun e p' => e = None -> grows p p') p.
Proof.
  intros I B. revert position p I. induction fuel as [|fuel IH]; intros position p I Hp Hf; cbn [parse_loop].
  all: destruct (Z.leb_spec (len raw) position); [by apply wp_ret|]; [lia || idtac].
  destruct (index_in raw position ltac:(lia)) as [n Hn]. unfold configurationDescriptor. rewrite Hn. cbn [mbind option_bind].
  destruct (_ || _) eqn:E; [by apply wp_bind, wp_ret, wp_ret|].
  apply orb_false_iff in E as [E1 E2]. apply Z.ltb_ge in E1, E2.
  apply wp_bind, wp_ret. cbv beta iota zeta. apply wp_bind.
  assert (len (take (Z.to_nat n) (drop (Z.to_nat position) raw)) = n) as Hlen.
  { unfold len in *. rewrite length_take, length_drop. lia. }
  eapply wp_mono; [apply addDescriptor_wp; [done| |lia]|].
  { by apply Forall_take, Forall_drop. }
  intros [e|] p' K; [by apply wp_ret|]. destruct (K eq_refl) as [I' V'].
  eapply wp_mono; [apply IH; [done|lia|lia]|]. intros e q K' Hq. destruct (K' Hq) as [I2 V2]. split; [done|congruence].
Qed.

(** ** The result *)

Lemma first_some_none {A B} (f : A -> option B) l : first_some f l = None <-> Forall (fun x => f x = None) l.
Proof.
  induction l as [|x l IH]; simpl; [split; auto|]. rewrite Forall_cons, <- IH.
  destruct (f x); split; [done|intros [? ?]; done|auto|tauto].
Qed.

Lemma settings_elem l n k :
  (n, k) ∈ settings l <-> exists f a, f ∈ l /\ a ∈ Alternates f /\ if_Number f = n /\ alt_Number a = k.
Proof.
  unfold settings. rewrite list_elem_of_bind. split.
  - intros (f & Hx & Hf). apply list_elem_of_fmap in Hx as (a & [= -> ->] & Ha). eauto 8.
  - intros (f & a & Hf & Ha & <- & <-). exists f. split; [|done]. apply list_elem_of_fmap. eauto.
Qed.

Lemma finish_wf p n p' : Inv p -> finish n p = Done (None, p') -> p' = p /\ wf_configuration (configuration p).
Proof.
  intros I. unfold finish, mbind, GoM_bind, gets. destruct (finishAlternate_run p I) as [[r|] ->]; [done|].
  change (id p) with p. destruct (Z.eqb_spec n 0) as [|Hn]; [done|].
  destruct (Z.eqb_spec (len (Interfaces (configuration p))) n) as [El|]; [|done]. simpl. intros [= Hf <-].
  split; [done|]. apply first_some_none in Hf. set (l := Interfaces (configuration p)) in *.
  assert (Forall (fun f => if_Number f < n /\ (if_Number f, 0) ∈ settings l /\
    Forall (fun a => alt_Number a < len (Alternates f)) (Alternates f)) l) as G.
  { eapply Forall_impl; [exact Hf|]. intros f. unfold finishInterface.
    destruct (Z.leb_spec n (if_Number f)); [done|]. case_bool_decide as D; [|done]. simpl.
    destruct (existsb _ _) eqn:Ex; [done|]. intros _. split; [done|]. split; [by apply (inv_default p I)|].
    apply Forall_forall. intros a Ha. apply Z.nle_gt. intros Hle. apply not_true_iff_false in Ex.
    apply Ex, existsb_exists. exists a. split; [by apply list_elem_of_In|by apply Z.leb_le]. }
  pose proof (inv_natural p I) as Nat. rewrite Forall_forall in Nat. rewrite Forall_forall in G.
  split; fold l.
  - intros E. rewrite E in El. unfold len in El. simpl in El. lia.
  - replace (len l) with (len (if_Number <$> l)) by (unfold len; by rewrite length_fmap).
    apply numbered_perm; [apply I|]. apply Forall_forall. intros x Hx.
    apply list_elem_of_fmap in Hx as (f & -> & Hx). destruct (G f Hx) as (G1 & G2 & _).
    apply Nat in G2 as [G2 _]. unfold len in *. rewrite length_fmap. simpl in G2. lia.
  - apply Forall_forall. intros f Hx. destruct (G f Hx) as (_ & G2 & G3). split.
    + intros E. apply settings_elem in G2 as (g & a & Hg & Ha & Hn2 & _).
      apply list_elem_of_lookup in Hx as [i Hi]. apply list_elem_of_lookup in Hg as [j Hj].
      assert (j = i) as ->.
      { apply (NoDup_lookup _ j i (if_Number f) (inv_numbers p I)); rewrite list_lookup_fmap; fold l; rewrite ?Hi, ?Hj; simpl; congruence. }
      rewrite Hi in Hj. injection Hj as <-. rewrite E in Ha. by apply not_elem_of_nil in Ha.
    + replace (len (Alternates f)) with (len (alt_Number <$> Alternates f)) by (unfold len; by rewrite length_fmap).
      apply numbered_perm; [exact (proj1 (Forall_forall _ _) (inv_alternates p I) f Hx)|].
      apply Forall_forall. intros x Hk. apply list_elem_of_fmap in Hk as (a & -> & Ha).
      rewrite Forall_forall in G3. specialize (G3 a Ha). unfold len in *. rewrite length_fmap. split; [|done].
      apply (Nat (if_Number f, alt_Number a)), settings_elem. exists f, a. auto.
  - apply I.
  - apply I.
Qed.

Lemma parseConfiguration_wf raw :
  bytes raw ->
  exists c e, parseConfiguration raw = Done (c, e) /\
    (e = None -> wf_configuration c /\ index raw 5 = Some (Value c) /\ index raw 4 = Some (len (Interfaces c))).
Proof.
  intros B. unfold parseConfiguration, validConfigurationHeader, uint16At.
  destruct (Z.ltb_spec (len raw) 9) as [|Hl]; [eexists _, _; split; [reflexivity|done]|].
  destruct (index_in raw 0 ltac:(lia)) as [size Hs], (index_in raw 1 ltac:(lia)) as [kind Hk],
    (index_in raw 2 ltac:(lia)) as [lo Hlo], (index_in raw (2 + 1) ltac:(lia)) as [hi Hhi],
    (index_in raw 4 ltac:(lia)) as [n Hn], (index_in raw 5 ltac:(lia)) as [v Hv], (index_in raw 7 ltac:(lia)) as [t Ht].
  rewrite Hs, Hk, Hlo, Hhi, Ht, Hv, Hn. cbn [mbind option_bind].
  destruct (_ && _); [|eexists _, _; split; [reflexivity|done]].
  assert (wp (parse_body raw size n) (fun e p => e = None -> wf_configuration (configuration p) /\
    Value (configuration p) = v /\ len (Interfaces (configuration p)) = n) (newParser v)) as K.
  { unfold parse_body. apply wp_bind.
    eapply wp_mono; [apply parse_loop_wp; [apply inv_new|done|apply (bytes_index _ _ _ B Hs)|]|].
    { pose proof (proj1 (bytes_index _ _ _ B Hs)). unfold len. lia. }
    intros [e|] p K; [by apply wp_ret|]. destruct (K eq_refl) as [I Hp].
    unfold wp. destruct (finish n p) as [[[e|] q]| |] eqn:F; [done| | |].
    - intros _. destruct (finish_wf p n q I F) as [-> Wf]. split; [done|]. split; [done|].
      unfold finish, mbind, GoM_bind, gets in F. destruct (finishAlternate_run p I) as [[r|] Hr]; rewrite Hr in F; [done|].
      change (id p) with p in F. destruct (n =? 0); [done|].
      destruct (Z.eqb_spec (len (Interfaces (configuration p))) n); done.
    - unfold finish, mbind, GoM_bind, gets in F. destruct (finishAlternate_run p I) as [[r|] Hr]; by rewrite Hr in F.
    - unfold finish, mbind, GoM_bind, gets in F. destruct (finishAlternate_run p I) as [[r|] Hr]; by rewrite Hr in F. }
  unfold wp in K. destruct (parse_body raw size n (newParser v)) as [[[e|] p]| |]; [| |done|done];
    (eexists _, _; split; [reflexivity|]); [done|]. intros _. destruct (K eq_refl) as (W & <- & <-). done.
Qed.

(** * Parsing a described configuration

    A configuration written as descriptors, with descriptors of other types
    anywhere between them, is parsed back exactly. *)

(** ** Descriptors of a configuration *)

Definition typeCode (t : TransferType) : Z :=
  match t with TransferControl => 0 | TransferIsochronous => 1 | TransferBulk => 2 | TransferInterrupt => 3 end.

Definition describeEndpoint (e : Endpoint) : list Z :=
  [7; descriptorEndpoint; Address e; typeCode (ep_Type e); MaxPacketSize e mod 256; MaxPacketSize e / 256; 1].

Definition describeAlternate (n : Z) (a : AlternateSetting) : list (list Z) :=
  [9; descriptorInterface; n; alt_Number a; len (Endpoints a); Class_ a; Subclass a; Protocol a; 0] ::
  (describeEndpoint <$> Endpoints a).

Definition describeInterface (f : Interface) : list (list Z) := Alternates f ≫= describeAlternate (if_Number f).
Definition describeInterfaces (l : list Interface) : list (list Z) := l ≫= describeInterface.

(** A descriptor starts with its length and its type. *)
Definition is_descriptor (d : list Z) : Prop := 2 <= len d /\ index d 0 = Some (len d).
Definition known (d : list Z) : Prop := index d 1 = Some descriptorInterface \/ index d 1 = Some descriptorEndpoint.

#[global] Instance known_dec d : Decision (known d).
Proof. unfold known. apply _. Defined.

(** [raw] is a valid header of [c] followed by the descriptors [body]. *)
Record describes (raw header : list Z) (body : list (list Z)) (c : Configuration) : Prop := {
  raw_split : raw = header ++ mjoin body;
  raw_header : validConfigurationHeader raw = Some true;
  raw_size : index raw 0 = Some (len header);
  raw_value : index raw 5 = Some (Value c);
  raw_count : index raw 4 = Some (len (Interfaces c));
  raw_descriptors : Forall is_descriptor body;
  raw_known : filter known body = describeInterfaces (Interfaces c)
}.

(** The canonical bytes. *)
Definition encodeConfiguration (c : Configuration) : list Z :=
  let body := mjoin (describeInterfaces (Interfaces c)) in
  let total := 9 + len body in
  [9; descriptorConfiguration; total mod 256; total / 256; len (Interfaces c); Value c; 0; 0x80; 0] ++ body.

(** ** Descriptors one after the other *)

Fixpoint run (ds : list (list Z)) : P err :=
  match ds with
  | [] => mret None
  | d :: ds => e ← addDescriptor d; match e with Some e => mret (Some e) | None => run ds end
  end.

Lemma index_0_app {A} (l k : list A) : l <> [] -> index (l ++ k) 0 = index l 0.
Proof. by destruct l. Qed.

Lemma index_app_r {A} (l k : list A) : index (l ++ k) (len l) = index k 0.
Proof.
  rewrite !index_lookup by (unfold len; lia). unfold len. rewrite Nat2Z.id, lookup_app_r by lia. by rewrite Nat.sub_diag.
Qed.

Lemma parse_loop_run ds pre fuel p :
  Forall is_descriptor ds -> (length ds <= fuel)%nat ->
  parse_loop fuel (pre ++ mjoin ds) (len pre) p = run ds p.
Proof.
  revert pre fuel p. induction ds as [|d ds IH]; intros pre fuel p D Hf.
  { simpl. rewrite app_nil_r. destruct fuel; simpl; by rewrite Z.leb_refl. }
  apply Forall_cons in D as [[Hl Hd] D]. destruct fuel as [|fuel]; [simpl in Hf; lia|].
  change (mjoin (d :: ds)) with (d ++ mjoin ds).
  cbn [parse_loop run]. rewrite !len_app. pose proof (len_nonneg (mjoin ds)).
  destruct (Z.leb_spec (len pre + (len d + len (mjoin ds))) (len pre)); [lia|].
  unfold configurationDescriptor. rewrite index_app_r, index_0_app, Hd, !len_app by (intros ->; unfold len in Hl; simpl in Hl; lia).
  cbn [mbind option_bind].
  destruct (Z.ltb_spec (len d) 2), (Z.ltb_spec (len pre + (len d + len (mjoin ds))) (len pre + len d)); try lia.
  cbn [orb]. replace (Z.to_nat (len pre)) with (length pre) by (unfold len; lia).
  replace (Z.to_nat (len d)) with (length d) by (unfold len; lia). rewrite drop_app_length, take_app_length.
  unfold mbind at 1, GoM_bind at 1, lift at 1. unfold mbind, GoM_bind.
  destruct (addDescriptor d p) as [[[e|] p']| |]; try done.
  rewrite <- len_app, app_assoc. apply IH; [done|]. simpl in Hf. lia.
Qed.

Lemma run_known ds p : Forall is_descriptor ds -> run ds p = run (filter known ds) p.
Proof.
  revert p. induction ds as [|d ds IH]; intros p D; [done|]. apply Forall_cons in D as [[Hl Hd] D].
  rewrite filter_cons. destruct (decide (known d)) as [K|K]; simpl.
  - unfold mbind, GoM_bind. destruct (addDescriptor d p) as [[[e|] p']| |]; try done. by apply IH.
  - rewrite <- IH by done. destruct (index_in d 1 ltac:(lia)) as [k Hk].
    unfold addDescriptor, mbind, GoM_bind, lift. rewrite Hk.
    destruct (Z.eqb_spec k descriptorInterface) as [->|]; [by destruct K; left|].
    destruct (Z.eqb_spec k descriptorEndpoint) as [->|]; [by destruct K; right|]. done.
Qed.

Lemma run_app a b p p' : run a p = Done (None, p') -> run (a ++ b) p = run b p'.
Proof.
  revert p. induction a as [|d a IH]; intros p; [by intros [= ->]|]. simpl. unfold mbind, GoM_bind.
  destruct (addDescriptor d p) as [[[e|] q]| |]; try done. apply IH.
Qed.

(** ** One descriptor *)

Lemma land_high v k n : 0 <= n -> 0 <= v < 2 ^ n -> Z.land v (Z.shiftl k n) = 0.
Proof.
  intros Hn Hv. apply Z.bits_inj'. intros i Hi. rewrite Z.land_spec, Z.testbit_0_l.
  destruct (Z.lt_ge_cases i n).
  - rewrite Z.shiftl_spec_low by done. apply andb_false_r.
  - by rewrite (testbit_high v n i).
Qed.

(** The guards of [endpointFromDescriptor] on seven bytes. *)
Lemma endpointFromDescriptor_seven l k a t lo hi v e :
  (Z.land a 0x0f =? 0) = false -> any_bits a 0x70 = false -> transferType_of (Z.land t 3) = ep_Type e ->
  validEndpointAttributes t (ep_Type e) = true -> validEndpointInterval v (ep_Type e) (lo + 256 * hi) = true ->
  endpointMaxPacketSize (lo + 256 * hi) (ep_Type e) = (MaxPacketSize e, true) -> a = Address e ->
  endpointFromDescriptor [l; k; a; t; lo; hi; v] = Some (e, None).
Proof.
  intros E1 E2 E3 E4 E5 E6 ->. unfold endpointFromDescriptor, uint16At.
  change (len [l; k; Address e; t; lo; hi; v] <? 7) with false. cbv beta iota.
  change (index [l; k; Address e; t; lo; hi; v] 2) with (Some (Address e)).
  change (index [l; k; Address e; t; lo; hi; v] 3) with (Some t).
  change (index [l; k; Address e; t; lo; hi; v] 4) with (Some lo).
  change (index [l; k; Address e; t; lo; hi; v] (4 + 1)) with (Some hi).
  change (index [l; k; Address e; t; lo; hi; v] 6) with (Some v).
  unfold mbind, option_bind. rewrite E1, E2, E3, E4, E5, E6. by destruct e.
Qed.

Lemma decode_endpoint e : valid_endpoint e -> endpointFromDescriptor (describeEndpoint e) = Some (e, None).
Proof.
  intros (B & N & R & [S0 S1] & Zp).
  assert (MaxPacketSize e mod 256 + 256 * (MaxPacketSize e / 256) = MaxPacketSize e) as E
    by (rewrite Z.add_comm; symmetry; apply Z.div_mod; lia).
  apply endpointFromDescriptor_seven; rewrite ?E; try done.
  - by apply Z.eqb_neq.
  - unfold any_bits. by rewrite R.
  - by destruct (ep_Type e).
  - by destruct (ep_Type e).
  - unfold validEndpointInterval. destruct (Z.land _ _ =? 0); by destruct (ep_Type e).
  - unfold endpointMaxPacketSize. change 0x1800 with (Z.shiftl 3 11). unfold any_bits. change 0xe000 with (Z.shiftl 7 13).
    rewrite !land_high by (simpl; lia). change 0x7ff with (Z.ones 11). rewrite Z.land_ones, Z.mod_small by (simpl; lia).
    change (validEndpointTransactions 0 (ep_Type e)) with true. simpl. f_equal.
    replace (MaxPacketSize e <=? 1024) with true by (symmetry; by apply Z.leb_le). simpl.
    change (endpointPacketSizeMinimum 0) with 1. destruct (Z.leb_spec 1 (MaxPacketSize e)); [done|]. assert (MaxPacketSize e = 0) as Ez by lia.
    rewrite Ez. simpl. by destruct (Zp Ez) as [-> | ->].
Qed.

(** The interfaces while setting [a] of interface [n], after its settings [A]
    and the interfaces [L], has its endpoints read. *)
Definition opened (L : list Interface) (n : Z) (A : list AlternateSetting) (a : AlternateSetting) : list Interface :=
  L ++ [mkInterface n (A ++ [a])].

Definition with_endpoints (a : AlternateSetting) (l : list Endpoint) : AlternateSetting :=
  mkAlternate (alt_Number a) (Class_ a) (Subclass a) (Protocol a) l.

Lemma flat_opened L n A a : flat (opened L n A a) = flat (L ++ [mkInterface n A]) ++ flat_alternate n a.
Proof.
  unfold opened. rewrite !flat_app, !flat_cons. unfold flat_interface. simpl. rewrite bind_app. simpl.
  by rewrite !app_nil_r, app_assoc.
Qed.

Lemma lookup_opened L n A a :
  opened L n A a !! length L = Some (mkInterface n (A ++ [a])) /\ (A ++ [a]) !! length A = Some a.
Proof. unfold opened. by rewrite !list_lookup_middle. Qed.

(** What reading the endpoints of a setting leaves alone. *)
Definition same_place (p p' : configurationParser) : Prop :=
  alternate p' = alternate p /\ wantEndpoints p' = wantEndpoints p /\ Value (configuration p') = Value (configuration p).

Lemma run_endpoints L n A a es p :
  Inv p -> Interfaces (configuration p) = opened L n A a -> alternate p = Some (length L, length A) ->
  pairwise compatible (flat (opened L n A (with_endpoints a (Endpoints a ++ es)))) -> Forall valid_endpoint es ->
  exists p', run (describeEndpoint <$> es) p = Done (None, p') /\ Inv p' /\ same_place p p' /\
    Interfaces (configuration p') = opened L n A (with_endpoints a (Endpoints a ++ es)).
Proof.
  revert a p. induction es as [|e es IH]; intros a p I Hc Hat Pw V.
  { exists p. rewrite app_nil_r, Hc. by destruct a. }
  apply Forall_cons in V as [Ve V]. destruct (lookup_opened L n A a) as [Hi Hj]. rewrite <- Hc in Hi.
  assert (Forall (compatible (n, alt_Number a, e)) (flat (Interfaces (configuration p)))) as F.
  { rewrite Hc. rewrite flat_opened in *. unfold flat_alternate, with_endpoints in Pw. simpl in Pw.
    rewrite fmap_app, app_assoc in Pw. apply pairwise_app in Pw as (_ & _ & Pw).
    apply Forall_forall. intros x Hx. rewrite Forall_forall in Pw. specialize (Pw x Hx). simpl in Pw.
    apply Forall_cons in Pw as [Pw _]. by apply compatible_sym. }
  pose proof (addEndpoint_run p _ _ _ e _ I Hat (decode_endpoint e Ve) Ve Hi Hj F) as Hr. simpl in Hr.
  pose proof (inv_endpoint p _ _ _ _ e I Hat Hi Hj Ve F) as I'.
  set (p1 := endpointAdded (length L) (length A) e p) in *.
  assert (Interfaces (configuration p1) = opened L n A (with_endpoints a (Endpoints a ++ [e]))) as Hc1.
  { unfold p1, endpointAdded. simpl. rewrite Hc. unfold opened. rewrite alter_middle. unfold setAlternates. simpl.
    by rewrite alter_middle. }
  destruct (IH (with_endpoints a (Endpoints a ++ [e])) p1 I' Hc1 Hat) as (p' & Hr' & I2 & Sp & Hc2); [|done|].
  { unfold with_endpoints in *. simpl in *. by rewrite <- app_assoc. }
  exists p'. split; [|split; [done|split; [done|]]].
  - simpl. change (addDescriptor (describeEndpoint e)) with (addEndpoint (describeEndpoint e)).
    unfold mbind, GoM_bind. rewrite Hr. exact Hr'.
  - rewrite Hc2. unfold with_endpoints. simpl. by rewrite <- app_assoc.
Qed.

(** ** One alternate setting *)

(** The interfaces before the next setting of interface [n]. *)
Definition between (L : list Interface) (n : Z) (A : list AlternateSetting) : list Interface :=
  match A with [] => L | _ => L ++ [mkInterface n A] end.

Definition finished (p : configurationParser) : Prop := finishAlternate p = Done (None, p).

Lemma interfaceFor_between L n A p :
  Inv p -> Interfaces (configuration p) = between L n A -> n ∉ if_Number <$> L ->
  exists p', interfaceFor n p = Done (length L, p') /\ Inv p' /\ Value (configuration p') = Value (configuration p) /\
    Interfaces (configuration p') = L ++ [mkInterface n A].
Proof.
  intros I Hc Hn. destruct (interfaceFor_run p n I) as (i & p' & f & Hr & I' & Hf & Nf & Hv & [[-> Hin]|(-> & -> & Hc' & Hin)]).
  - destruct A as [|a A]; [by rewrite Hc in Hin|]. cbn [between] in Hc. exists p.
    assert (i = length L) as ->; [|done].
    pose proof (inv_numbers p I) as ND. rewrite Hc in *.
    apply (NoDup_lookup _ i (length L) n ND); rewrite list_lookup_fmap; [by rewrite Hf; simpl; rewrite Nf|].
    by rewrite list_lookup_middle.
  - destruct A as [|a A]; cbn [between] in Hc; rewrite Hc in *; [by exists p'|].
    destruct Hin. rewrite fmap_app, elem_of_app. right. simpl. by apply list_elem_of_singleton.
Qed.

Lemma addInterface_nine n k w c s t p i p1 f p2 :
  finished p -> interfaceFor n p = Done (i, p1) -> Interfaces (configuration p1) !! i = Some f ->
  k ∉ alt_Number <$> Alternates f -> beginAlternate i n (mkAlternate k c s t []) w p1 = Done (tt, p2) ->
  addDescriptor [9; descriptorInterface; n; k; w; c; s; t; 0] p = Done (None, p2).
Proof.
  intros Hf Hi Hl Hk Hb. apply fresh_setting in Hk.
  change (addDescriptor [9; descriptorInterface; n; k; w; c; s; t; 0])
    with (addInterface [9; descriptorInterface; n; k; w; c; s; t; 0]).
  unfold addInterface. set (d := [9; descriptorInterface; n; k; w; c; s; t; 0]).
  change (len d <? 9) with false. change (index d 2) with (Some n). change (index d 3) with (Some k).
  change (index d 4) with (Some w). change (index d 5) with (Some c). change (index d 6) with (Some s).
  change (index d 7) with (Some t). unfold mbind, GoM_bind, lift, gets. cbv beta iota.
  by rewrite Hf, Hi, Hl, Hk, Hb.
Qed.

Lemma run_alternate L n A a p :
  Inv p -> finished p -> Interfaces (configuration p) = between L n A -> n ∉ if_Number <$> L ->
  alt_Number a ∉ alt_Number <$> A -> 0 <= n -> 0 <= alt_Number a ->
  pairwise compatible (flat (opened L n A a)) -> Forall valid_endpoint (Endpoints a) ->
  exists p', run (describeAlternate n a) p = Done (None, p') /\ Inv p' /\ finished p' /\
    Value (configuration p') = Value (configuration p) /\ Interfaces (configuration p') = opened L n A a.
Proof.
  intros I Hfin Hc Hn Ha Hn0 Ha0 Pw V.
  destruct (interfaceFor_between L n A p I Hc Hn) as (p1 & Hr1 & I1 & Hv1 & Hc1).
  assert (Interfaces (configuration p1) !! length L = Some (mkInterface n A)) as Hi by (rewrite Hc1; by rewrite list_lookup_middle).
  destruct (inv_alternate p1 (length L) (mkInterface n A) n (with_endpoints a []) (len (Endpoints a)) I1 Hi eq_refl eq_refl Ha Hn0 Ha0)
    as (p2 & Hr2 & I2 & Hv2 & Hc2 & Hat2 & Hw2).
  assert (addDescriptor [9; descriptorInterface; n; alt_Number a; len (Endpoints a); Class_ a; Subclass a; Protocol a; 0] p
    = Done (None, p2)) as Hd.
  { by eapply addInterface_nine. }
  rewrite Hc1, alter_middle in Hc2. unfold setAlternates in Hc2. simpl in Hc2.
  destruct (run_endpoints L n A (with_endpoints a []) (Endpoints a) p2 I2 Hc2 Hat2) as (p3 & Hr3 & I3 & (Sa & Sw & Sv) & Hc3).
  { by destruct a. }
  { done. }
  exists p3. assert (Interfaces (configuration p3) = opened L n A a) as Hc3' by (rewrite Hc3; by destruct a).
  split_and!; auto; [| |congruence].
  - unfold describeAlternate. cbn [run]. unfold mbind, GoM_bind. rewrite Hd. exact Hr3.
  - unfold finished, finishAlternate, mbind, GoM_bind, gets. change (id p3) with p3. rewrite Sa, Hat2.
    destruct (lookup_opened L n A a) as [Hi3 Hj3]. unfold alternateAt. rewrite Hc3'. simpl fst. rewrite Hi3. simpl snd.
    unfold mbind, option_bind. simpl Alternates. rewrite Hj3. unfold lift. rewrite Sw, Hw2, Z.eqb_refl. done.
Qed.

(** ** Whole interfaces *)

Lemma pairwise_prefix {A} (R : A -> A -> Prop) l k : pairwise R (l ++ k) -> pairwise R l.
Proof. intros Hp. apply pairwise_app in Hp. tauto. Qed.

Lemma flat_settings_app L n A B :
  flat (L ++ [mkInterface n (A ++ B)]) = flat (L ++ [mkInterface n A]) ++ (B ≫= flat_alternate n).
Proof.
  rewrite !flat_app, !flat_cons. unfold flat_interface. simpl. rewrite bind_app. simpl. by rewrite !app_nil_r, app_assoc.
Qed.

Lemma run_settings L n B A p :
  Inv p -> finished p -> Interfaces (configuration p) = between L n A -> n ∉ if_Number <$> L -> 0 <= n ->
  NoDup (alt_Number <$> A ++ B) -> Forall (fun a => 0 <= alt_Number a) B ->
  pairwise compatible (flat (L ++ [mkInterface n (A ++ B)])) -> Forall (fun a => Forall valid_endpoint (Endpoints a)) B ->
  exists p', run (B ≫= describeAlternate n) p = Done (None, p') /\ Inv p' /\ finished p' /\
    Value (configuration p') = Value (configuration p) /\ Interfaces (configuration p') = between L n (A ++ B).
Proof.
  revert A p. induction B as [|a B IH]; intros A p I Hf Hc Hn Hn0 ND Ha0 Pw V.
  { exists p. rewrite app_nil_r. auto. }
  apply Forall_cons in Ha0 as [Ha0 HB0]. apply Forall_cons in V as [Va VB].
  assert (A ++ a :: B = (A ++ [a]) ++ B) as Eapp by (by rewrite <- app_assoc). rewrite Eapp in *.
  destruct (run_alternate L n A a p) as (p1 & Hr1 & I1 & Hf1 & Hv1 & Hc1); auto.
  { rewrite !fmap_app in ND. apply NoDup_app in ND as [ND _]. apply NoDup_app in ND as (_ & ND & _).
    intros Hx. apply (ND _ Hx). simpl. by apply list_elem_of_singleton. }
  { rewrite flat_settings_app in Pw. by apply pairwise_prefix in Pw. }
  destruct (IH (A ++ [a]) p1) as (p2 & Hr2 & I2 & Hf2 & Hv2 & Hc2); auto.
  { rewrite Hc1. unfold opened, between. by destruct A. }
  exists p2. split_and!; auto; [|congruence]. change ((a :: B) ≫= describeAlternate n) with
    (describeAlternate n a ++ (B ≫= describeAlternate n)). rewrite (run_app _ _ _ _ Hr1). exact Hr2.
Qed.

(** What [wf_configuration] says of one interface. *)
Definition wf_interface (f : Interface) : Prop :=
  0 <= if_Number f /\ Alternates f <> [] /\ NoDup (alt_Number <$> Alternates f) /\
  Forall (fun a => 0 <= alt_Number a) (Alternates f) /\ Forall (fun a => Forall valid_endpoint (Endpoints a)) (Alternates f).

Lemma run_interfaces M L p :
  Inv p -> finished p -> Interfaces (configuration p) = L -> NoDup (if_Number <$> L ++ M) ->
  Forall wf_interface M -> pairwise compatible (flat (L ++ M)) ->
  exists p', run (describeInterfaces M) p = Done (None, p') /\ Inv p' /\ finished p' /\
    Value (configuration p') = Value (configuration p) /\ Interfaces (configuration p') = L ++ M.
Proof.
  revert L p. induction M as [|f M IH]; intros L p I Hf Hc ND W Pw.
  { exists p. rewrite app_nil_r. auto. }
  apply Forall_cons in W as [(Hn & Ha & NDa & Ha0 & V) W].
  assert (L ++ f :: M = (L ++ [f]) ++ M) as Eapp by (by rewrite <- app_assoc). rewrite Eapp in *.
  destruct (run_settings L (if_Number f) (Alternates f) [] p) as (p1 & Hr1 & I1 & Hf1 & Hv1 & Hc1); auto.
  { rewrite !fmap_app in ND. apply NoDup_app in ND as [ND _]. apply NoDup_app in ND as (_ & ND & _).
    intros Hx. apply (ND _ Hx). simpl. by apply list_elem_of_singleton. }
  { rewrite flat_app in Pw. apply pairwise_prefix in Pw. by destruct f. }
  destruct (IH (L ++ [f]) p1) as (p2 & Hr2 & I2 & Hf2 & Hv2 & Hc2); auto.
  { rewrite Hc1. unfold between. simpl. destruct f as [n [|a A]]; [done|]. done. }
  exists p2. split_and!; auto; [|congruence]. change (describeInterfaces (f :: M)) with
    (describeInterface f ++ describeInterfaces M). rewrite (run_app _ _ _ _ Hr1). exact Hr2.
Qed.

Lemma wf_interfaces_all c : wf_configuration c -> Forall wf_interface (Interfaces c).
Proof.
  intros W. apply Forall_forall. intros f Hf. pose proof (wf_alternates c W) as HA. rewrite Forall_forall in HA.
  destruct (HA f Hf) as [Ne Pm]. repeat split.
  - assert (if_Number f ∈ if_Number <$> Interfaces c) as Hn by (apply list_elem_of_fmap; eauto).
    rewrite (wf_interfaces c W), elem_of_seqZ in Hn. lia.
  - done.
  - rewrite Pm. apply NoDup_seqZ.
  - apply Forall_forall. intros a Ha. assert (alt_Number a ∈ alt_Number <$> Alternates f) as Hn
      by (apply list_elem_of_fmap; eauto). rewrite Pm, elem_of_seqZ in Hn. lia.
  - apply Forall_forall. intros a Ha. apply Forall_forall. intros e He.
    pose proof (wf_endpoints c W) as Hv. rewrite Forall_forall in Hv. apply Hv.
    apply list_elem_of_fmap. exists (if_Number f, alt_Number a, e). split; [done|].
    apply list_elem_of_bind. exists f. split; [|done]. apply list_elem_of_bind. exists a. split; [|done].
    apply list_elem_of_fmap. eauto.
Qed.

Lemma finish_accepts p c :
  Inv p -> finished p -> wf_configuration c -> configuration p = c -> finish (len (Interfaces c)) p = Done (None, p).
Proof.
  intros I Hf W Hc. unfold finish, mbind, GoM_bind, gets. rewrite Hf. change (id p) with p. rewrite Hc, Z.eqb_refl.
  pose proof (wf_nonempty c W) as Ne. destruct (Z.eqb_spec (len (Interfaces c)) 0) as [E|_].
  { destruct Ne. unfold len in E. destruct (Interfaces c); [done|simpl in E; lia]. }
  cbn [negb]. unfold mret, GoM_ret. do 2 f_equal. apply first_some_none, Forall_forall. intros f Hx.
  pose proof (wf_alternates c W) as HA. rewrite Forall_forall in HA. destruct (HA f Hx) as [Na Pm].
  assert (if_Number f ∈ if_Number <$> Interfaces c) as Hn by (apply list_elem_of_fmap; eauto).
  rewrite (wf_interfaces c W), elem_of_seqZ in Hn. unfold finishInterface.
  destruct (Z.leb_spec (len (Interfaces c)) (if_Number f)); [lia|].
  rewrite bool_decide_eq_true_2; simpl.
  - destruct (existsb _ _) eqn:Ex; [|done]. apply existsb_exists in Ex as (a & Ha & Hle).
    rewrite <- list_elem_of_In in Ha. assert (alt_Number a ∈ alt_Number <$> Alternates f) as Hk
      by (apply list_elem_of_fmap; eauto). rewrite Pm, elem_of_seqZ in Hk. apply Z.leb_le in Hle. lia.
  - apply (inv_default p I), settings_elem. rewrite Hc.
    assert (0 ∈ alt_Number <$> Alternates f) as Hz.
    { rewrite Pm, elem_of_seqZ. unfold len. destruct (Alternates f); [done|simpl; lia]. }
    apply list_elem_of_fmap in Hz as (a & Ea & Ha). exists f, a. auto.
Qed.

Lemma length_mjoin_descriptors ds : Forall is_descriptor ds -> (length ds <= length (mjoin ds))%nat.
Proof.
  induction 1 as [|d ds [Hd _] D IH]; simpl; [done|]. rewrite length_app. unfold len in Hd. lia.
Qed.

Lemma parse_described raw h ds c :
  describes raw h ds c -> wf_configuration c -> parseConfiguration raw = Done (c, None).
Proof.
  intros D W. unfold parseConfiguration.
  rewrite (raw_header _ _ _ _ D), (raw_value _ _ _ _ D), (raw_size _ _ _ _ D), (raw_count _ _ _ _ D).
  destruct (run_interfaces (Interfaces c) [] (newParser (Value c))) as (p & Hr & I & Hf & Hv & Hc).
  { apply inv_new. }
  { done. }
  { done. }
  { rewrite app_nil_l, (wf_interfaces c W). apply NoDup_seqZ. }
  { by apply wf_interfaces_all. }
  { apply W. }
  rewrite <- (raw_known _ _ _ _ D) in Hr. rewrite <- run_known in Hr by apply D.
  pose proof (length_mjoin_descriptors ds (raw_descriptors _ _ _ _ D)) as Hlen.
  pose proof (parse_loop_run ds h (length raw) (newParser (Value c)) (raw_descriptors _ _ _ _ D)) as Hp.
  rewrite <- (raw_split _ _ _ _ D) in Hp. rewrite Hr in Hp.
  assert (configuration p = c) as Ec.
  { destruct (configuration p) as [v l] eqn:E. simpl in *. subst. by destruct c. }
  unfold parse_body, mbind, GoM_bind. rewrite Hp.
  - by rewrite (finish_accepts p c I Hf W Ec), Ec.
  - rewrite (raw_split _ _ _ _ D), length_app. lia.
Qed.

(** ** The canonical bytes are such a description *)

Lemma filter_all {A} (Q : A -> Prop) `{forall x, Decision (Q x)} l : Forall Q l -> filter Q l = l.
Proof. induction 1 as [|x l Hx F IH]; [done|]. rewrite filter_cons_True by done. by rewrite IH. Qed.

Lemma describe_known n a : Forall (fun d => is_descriptor d /\ known d) (describeAlternate n a).
Proof.
  unfold describeAlternate. constructor.
  - split; [|by left]. by split.
  - apply Forall_fmap, Forall_true. intros e. split; [|by right]. by split.
Qed.

Lemma describeInterfaces_known l : Forall (fun d => is_descriptor d /\ known d) (describeInterfaces l).
Proof.
  apply Forall_bind, Forall_true. intros f. apply Forall_bind, Forall_true. intros a. apply describe_known.
Qed.

Lemma encode_describes c :
  describes (encodeConfiguration c) (take 9 (encodeConfiguration c)) (describeInterfaces (Interfaces c)) c.
Proof.
  pose proof (describeInterfaces_known (Interfaces c)) as F. split; try done.
  - unfold validConfigurationHeader, encodeConfiguration, uint16At. set (b := mjoin _). set (t := 9 + len b).
    set (raw := _ ++ b). assert (len raw = t) as El by (unfold raw, t; by rewrite len_app).
    pose proof (len_nonneg b). rewrite El. destruct (Z.ltb_spec t 9); [lia|].
    change (index raw 0) with (Some 9). change (index raw 1) with (Some descriptorConfiguration).
    change (index raw 2) with (Some (t mod 256)). change (index raw (2 + 1)) with (Some (t / 256)).
    change (index raw 7) with (Some 0x80). unfold mbind, option_bind.
    replace (t mod 256 + 256 * (t / 256)) with t by (rewrite Z.add_comm; apply Z.div_mod; lia).
    rewrite !Z.eqb_refl. replace (9 <=? t) with true by (symmetry; apply Z.leb_le; lia). done.
  - eapply Forall_impl; [exact F|]. by intros d [? ?].
  - apply filter_all. eapply Forall_impl; [exact F|]. by intros d [? ?].
Qed.
