(* ===== verification/UsbProps.v ===== *)
(** * The contract of USB configurations *)

From S2P Require Import Prelude Go Bits Usb UsbFacts.
From stdpp Require Import gmap.
Local Open Scope Z_scope.

(** ** Devices that deliver bytes *)

(** What Go's types say of a device's bytes, and what the attachment's cached
    descriptor reader promises: the length it was asked for. *)
Class WfDevice (W : Type) `{Device W} := {
  transfer_bytes ctx t r v i d w : bytes (snd (fst (ControlTransfer ctx t r v i d w)));
  descriptor_bytes read ctx i n w : readConfigurationDescriptor = Some read -> bytes (fst (fst (read ctx i n w)));
  descriptor_length read ctx i n w :
    readConfigurationDescriptor = Some read -> snd (fst (read ctx i n w)) = None -> len (fst (fst (read ctx i n w))) = n
}.

Section Active.
Context {W : Type} `{Env W} `{WfDevice W}.
Implicit Types w : W.

Lemma received_bytes data buffer : bytes data -> bytes buffer -> bytes (received data buffer).
Proof. intros B B'. apply Forall_app. split; [by apply Forall_take|by apply Forall_drop]. Qed.

Lemma len_received data buffer : len (received data buffer) = len buffer.
Proof. unfold received, len. rewrite length_app, length_take, length_drop. lia. Qed.

Lemma standardTransfer_wp ctx t r v i d w :
  bytes d -> wp (standardTransfer ctx t r v i d) (fun x _ => bytes (snd x) /\ len (snd x) = len d) w.
Proof.
  intros B. unfold standardTransfer. destruct (ctx_nil ctx); [by apply wp_ret|]. apply wp_bind. unfold ctxErr, wp at 1.
  destruct (ctx_Err ctx w) as [[e|] w1]; [by apply wp_ret|]. unfold wp.
  pose proof (transfer_bytes ctx t r v i d w1) as Bt.
  destruct (ControlTransfer ctx t r v i d w1) as [[[count e] bs] w2]. simpl in *.
  split; [by apply received_bytes|apply len_received].
Qed.

(** A buffer read this way can be indexed. *)
Lemma wp_index l i (Q : Z -> W -> Prop) w :
  0 <= i < len l -> (forall x, index l i = Some x -> Q x w) -> wp (lift (index l i)) Q w.
Proof. intros Hi HQ. destruct (index_in l i Hi) as [x Hx]. eapply wp_lift; eauto. Qed.

Lemma configurationValue_wp ctx w : wp (configurationValue ctx) (fun _ _ => True) w.
Proof.
  unfold configurationValue, readStandard. apply wp_bind.
  eapply wp_mono; [apply standardTransfer_wp, bytes_make|]. intros [e d] w1 [B L]. simpl in *.
  destruct e; [done|]. apply wp_bind, wp_index; [by rewrite L|]. done.
Qed.

Lemma configurationCount_wp ctx w : wp (configurationCount ctx) (fun _ _ => True) w.
Proof.
  unfold configurationCount, readStandard. apply wp_bind.
  eapply wp_mono; [apply standardTransfer_wp, bytes_make|]. intros [e d] w1 [B L]. simpl in *.
  destruct e; [done|]. do 3 (apply wp_bind, wp_index; [by rewrite L|]; intros ? ?). by destruct (_ || _).
Qed.

Lemma configurationHeaderAt_wp ctx i w : wp (configurationHeaderAt ctx i) (fun _ _ => True) w.
Proof.
  unfold configurationHeaderAt, readStandard. apply wp_bind.
  eapply wp_mono; [apply standardTransfer_wp, bytes_make|]. intros [e d] w1 [B L]. simpl in *.
  destruct e; [done|]. do 2 (apply wp_bind, wp_index; [by rewrite L|]; intros ? ?). destruct (_ || _); [done|].
  apply wp_bind, wp_index; [by rewrite L|]. intros ? ?. apply wp_bind. unfold uint16At.
  destruct (index_in d 2) as [lo Hlo]; [by rewrite L|]. destruct (index_in d (2 + 1)) as [hi Hhi]; [by rewrite L|].
  rewrite Hlo, Hhi. done.
Qed.

Lemma header_loop_wp ctx v n i a w : wp (header_loop ctx v n i a) (fun _ _ => True) w.
Proof.
  revert i a w. induction n as [|n IH]; intros i a w; [done|]. cbn [header_loop]. apply wp_bind.
  eapply wp_mono; [apply configurationHeaderAt_wp|]. intros [h [e|]] w1 _; [done|]. simpl.
  destruct (negb _); [apply IH|]. destruct a; [done|apply IH].
Qed.

Lemma configurationBytes_wp ctx h w :
  0 <= hdr_total h ->
  wp (configurationBytes ctx h) (fun r _ => bytes (fst r) /\ (snd r = None -> len (fst r) = hdr_total h)) w.
Proof.
  intros Ht. unfold configurationBytes. destruct readConfigurationDescriptor as [read|] eqn:E.
  - unfold wp. pose proof (descriptor_bytes read ctx (hdr_index h) (hdr_total h) w E) as Br.
    pose proof (descriptor_length read ctx (hdr_index h) (hdr_total h) w E) as Lr.
    destruct (read ctx (hdr_index h) (hdr_total h) w) as [r w']. done.
  - unfold readStandard. apply wp_bind. eapply wp_mono; [apply standardTransfer_wp, bytes_make|].
    intros [[e|] d] w1 [B L]; apply wp_ret; simpl in *; [split; [constructor|done]|].
    split; [done|]. intros _. by rewrite L, len_make_bytes.
Qed.

Lemma configurationAt_wp ctx h v w :
  wp (configurationAt ctx h v) (fun r _ => match r with
    | (c, None) => wf_configuration c /\ Value c = v
    | (c, Some _) => c = noConfiguration end) w.
Proof.
  unfold configurationAt. destruct (Z.ltb_spec (hdr_total h) 9) as [|Ht]; [done|]. apply wp_bind.
  eapply wp_mono; [apply configurationBytes_wp; lia|]. intros [raw [e|]] w1 [B L]; [done|]. simpl in *.
  specialize (L eq_refl). apply wp_bind, wp_index; [lia|]. intros n _. destruct (negb _); [done|].
  apply wp_bind, wp_index; [lia|]. intros x Hx. destruct (Z.eqb_spec x v) as [->|]; [|done]. simpl.
  destruct (parseConfiguration_wf raw B) as (c & [e|] & -> & Hc); [done|]. apply wp_ret.
  destruct (Hc eq_refl) as (Wf & Hv & _). split; [done|]. congruence.
Qed.

Lemma activeConfiguration_wp ctx w :
  wp (activeConfiguration ctx) (fun r w' => match r with
    | (c, None) => wf_configuration c /\ Value c <> 0 /\
        (exists w1, configurationValue ctx w = Done ((Value c, None), w1)) /\
        (exists w2, configurationValue ctx w2 = Done ((Value c, None), w'))
    | (c, Some _) => c = noConfiguration end) w.
Proof.
  unfold activeConfiguration, activeConfigurationValue. apply wp_bind, wp_bind.
  pose proof (configurationValue_wp ctx w) as K. unfold wp in K |- * at 1.
  destruct (configurationValue ctx w) as [[[v [e|]] w1]| |] eqn:Ev; try done; simpl.
  destruct (Z.eqb_spec v 0) as [|Hv]; [done|]. apply wp_ret. simpl. apply wp_bind.
  eapply wp_mono; [apply configurationCount_wp|]. intros [n [e|]] w2 _; [done|]. simpl. apply wp_bind.
  eapply wp_mono; [apply header_loop_wp|]. intros [[h|] [e|]] w3 _; try done. apply wp_bind.
  eapply wp_mono; [apply configurationAt_wp|]. intros [c [e|]] w4 Hc; [done|]. simpl. destruct Hc as [Wf <-]. apply wp_bind.
  pose proof (configurationValue_wp ctx w4) as K'. unfold wp in K' |- * at 1.
  destruct (configurationValue ctx w4) as [[[x [e|]] w5]| |] eqn:Ew; try done; simpl.
  destruct (Z.eqb_spec x (Value c)) as [->|]; [|done]. apply wp_ret. split; [done|]. split; [done|]. eauto.
Qed.
End Active.

(** ** A device *)

(** A CMSIS-DAP v2 interface with two settings, and a second interface that
    uses one of its endpoint numbers in the other direction. *)
Definition bench_configuration : Configuration :=
  mkConfiguration 1
    [mkInterface 1 [mkAlternate 0 0xff 0 0 [mkEndpoint 0x02 TransferBulk 512; mkEndpoint 0x81 TransferBulk 512];
                    mkAlternate 1 0xff 0 0 [mkEndpoint 0x02 TransferBulk 64]];
     mkInterface 0 [mkAlternate 0 3 0 0 [mkEndpoint 0x01 TransferInterrupt 0]]].

(** Its bytes, with a string of another type before the first interface. *)
Definition bench_body : list (list Z) := [4; 0x24; 0; 1] :: describeInterfaces (Interfaces bench_configuration).
Definition bench_header : list Z :=
  [9; 2; 9 + len (mjoin bench_body); 0; 2; 1; 0; 0x80; 50].
Definition bench_raw : list Z := bench_header ++ mjoin bench_body.

Definition bench_device_descriptor : list Z := [18; 1] ++ replicate 15 0 ++ [1].

#[local] Instance bench_env : Env unit := { ctx_Err _ _ := (None, tt) }.
#[local] Instance bench_device : Device unit := {
  ControlTransfer _ _ request value _ data w :=
    let answer := if request =? requestGetConfiguration then [1]
                  else if value =? 0x100 then bench_device_descriptor else take (length data) bench_raw in
    ((len answer, None, answer), w);
  readConfigurationDescriptor := None
}.

#[local] Instance bench_wf_device : WfDevice unit.
Proof.
  split; [|done|done]. intros ctx t r v i d w. cbn [ControlTransfer bench_device fst snd].
  destruct (r =? requestGetConfiguration); [|destruct (v =? 0x100)].
  - by repeat constructor.
  - by repeat constructor.
  - apply Forall_take. assert (forallb (fun b => (0 <=? b) && (b <? 256)) bench_raw = true) as F by by vm_compute.
    apply Forall_forall. intros b Hb. rewrite forallb_forall in F. rewrite list_elem_of_In in Hb.
    specialize (F b Hb). unfold is_byte. lia.
Qed.

Lemma bench_wf : wf_configuration bench_configuration.
Proof.
  destruct (parseConfiguration_wf bench_raw) as (c & e & Hp & Hc).
  - assert (forallb (fun b => (0 <=? b) && (b <? 256)) bench_raw = true) as F by by vm_compute.
    apply Forall_forall. intros b Hb. rewrite forallb_forall in F. rewrite list_elem_of_In in Hb.
    specialize (F b Hb). unfold is_byte. lia.
  - assert (parseConfiguration bench_raw = Done (bench_configuration, None)) as E by by vm_compute.
    rewrite E in Hp. injection Hp as <- <-. by apply Hc.
Qed.

(** ** The contract *)

(** C22: whatever bytes a device sends, parsing its configuration descriptor
    returns, and a configuration it returns without an error is well formed:
    interfaces and the alternate settings of each are numbered from zero without
    gaps, endpoint addresses and packet sizes are valid, and two endpoints share
    an address, or a number with a control endpoint, only in different settings
    of one interface.  Its value and its number of interfaces are those of the
    header. *)
Theorem usb_parse_sound (raw : list Z) :
  bytes raw ->
  exists c e, parseConfiguration raw = Done (c, e) /\
    (e = None -> wf_configuration c /\ index raw 5 = Some (Value c) /\ index raw 4 = Some (len (Interfaces c))).
Proof. apply parseConfiguration_wf. Qed.

Lemma usb_parse_sound_witness :
  exists c e, parseConfiguration [9; 2; 9; 0; 1; 1; 0; 0x80; 0] = Done (c, e) /\
    (e = None -> wf_configuration c /\ Some 1 = Some (Value c) /\ Some 1 = Some (len (Interfaces c))).
Proof. apply (usb_parse_sound [9; 2; 9; 0; 1; 1; 0; 0x80; 0]). by repeat constructor. Defined.

(** C23: every well-formed configuration written as descriptors, in the order of
    its interfaces and settings and with descriptors of other types anywhere
    between them, is parsed back exactly; the canonical bytes of a configuration
    are such a description. *)
Theorem usb_parse_exact (c : Configuration) :
  wf_configuration c ->
  parseConfiguration (encodeConfiguration c) = Done (c, None) /\
  forall raw h body, describes raw h body c -> parseConfiguration raw = Done (c, None).
Proof.
  intros Wf. split; [|intros raw h body D; by eapply parse_described].
  eapply parse_described; [apply encode_describes|done].
Qed.

Lemma usb_parse_exact_witness : parseConfiguration bench_raw = Done (bench_configuration, None).
Proof.
  apply (proj2 (usb_parse_exact bench_configuration bench_wf) bench_raw bench_header bench_body).
  split; try by vm_compute. by repeat constructor.
Defined.

(** Reading the active configuration always returns.  Without an error the
    result is well formed and its value is not zero, and that value is what the
    device reported when the reading began and again when it ended; with an
    error no part of a configuration is returned. *)
Theorem usb_active_configuration {W : Type} `{Env W} `{WfDevice W} (ctx : context) (w : W) :
  wp (activeConfiguration ctx) (fun r w' => match r with
    | (c, None) => wf_configuration c /\ Value c <> 0 /\
        (exists w1, configurationValue ctx w = Done ((Value c, None), w1)) /\
        (exists w2, configurationValue ctx w2 = Done ((Value c, None), w'))
    | (c, Some _) => c = noConfiguration end) w.
Proof. apply activeConfiguration_wp. Qed.

