(* ===== verification/UsbHost.v ===== *)
(** * USB devices as the probes use them

    The interfaces usbDevice, usbClaim and usbBulkTransfer of packages cmsisdap
    and jlink, and the standard library functions these packages apply to what
    they read. *)

From S2P Require Import Prelude Go Bits Usb.
Local Open Scope Z_scope.

Record DeviceInfo := mkDeviceInfo {
  VID : Z; PID : Z; Bus : Z; dev_Address : Z; Product : list Z; Serial : list Z
}.

(** A device, the interface claimed on it and its bulk transfers, which are
    named by handles.  [Wait] returns the count, the error and the bytes an IN
    transfer received.  CleanupPending is absent where the host does not report
    it. *)
Class UsbHost (W : Type) := {
  Identity : W -> DeviceInfo;
  ActiveConfiguration : context -> W -> (Configuration * err) * W;
  claimInterface : Z -> W -> err * W;
  SetAltSetting : Z -> W -> err * W;
  claimEndpoint : context -> Z -> W -> (Endpoint * err) * W;
  SubmitBulk : context -> Z -> list Z -> W -> (nat * err) * W;
  Wait : context -> nat -> W -> (Z * err * list Z) * W;
  Aborted : nat -> W -> bool;
  AbortBulk : Z -> W -> err * W;
  CloseClaim : W -> err * W;
  claimCleanupPending : option (W -> bool);
  CloseDevice : W -> err * W;
  deviceCleanupPending : option (W -> bool)
}.

(** [cleanupPending(owner)]: unknown owners are pending. *)
Definition cleanupPending {W} (state : option (W -> bool)) (w : W) : bool :=
  match state with Some f => f w | None => true end.

(** ** strings, strconv and utf8 *)

(** [strings.Split(s, sep)] for a one-byte separator. *)
Fixpoint split (sep : Z) (s : list Z) : list (list Z) :=
  match s with
  | [] => [[]]
  | c :: s =>
      if c =? sep then [] :: split sep s
      else match split sep s with
           | part :: parts => (c :: part) :: parts
           | [] => [[c]]
           end
  end.

(** [strconv.ParseUint(s, 10, 32)]; [None] is an error. *)
Fixpoint parse_digits (s : list Z) (n : Z) : option Z :=
  match s with
  | [] => Some n
  | c :: s => if (48 <=? c) && (c <=? 57) && (10 * n + (c - 48) <? 2 ^ 32) then parse_digits s (10 * n + (c - 48)) else None
  end.

Definition ParseUint32 (s : list Z) : option Z := match s with [] => None | _ => parse_digits s 0 end.

Definition within (lo hi b : Z) : bool := (lo <=? b) && (b <=? hi).
Definition continuation (b : Z) : bool := within 0x80 0xbf b.

(** [utf8.DecodeRune(s)] as the size of a well-formed first rune, or zero. *)
Definition rune_size (s : list Z) : nat :=
  match s with
  | a :: rest =>
      if a <? 0x80 then 1%nat
      else match rest with
      | b :: rest =>
          if within 0xc2 0xdf a && continuation b then 2%nat
          else match rest with
          | c :: rest =>
              if continuation c &&
                 ((a =? 0xe0) && within 0xa0 0xbf b || (a =? 0xed) && within 0x80 0x9f b ||
                  (within 0xe1 0xec a || within 0xee 0xef a) && continuation b) then 3%nat
              else match rest with
              | d :: _ =>
                  if continuation c && continuation d &&
                     ((a =? 0xf0) && within 0x90 0xbf b || within 0xf1 0xf3 a && continuation b ||
                      (a =? 0xf4) && within 0x80 0x8f b) then 4%nat else 0%nat
              | [] => 0%nat
              end
          | [] => 0%nat
          end
      | [] => 0%nat
      end
  | [] => 0%nat
  end.

(** [utf8.Valid(s)] *)
Fixpoint valid_loop (n : nat) (s : list Z) : bool :=
  match s with
  | [] => true
  | _ => match n, rune_size s with
         | O, _ | _, O => false
         | S n, k => valid_loop n (drop k s)
         end
  end.

Definition utf8_Valid (s : list Z) : bool := valid_loop (length s) s.
