(* ===== verification/Ftdi.v ===== *)
(** * FTDI command streams (ftdi/clock.go, swd.go, jtag.go, bulk.go)

    The MPSSE commands that clock a bit stream, the samples read back, the
    payload of USB packets with their status bytes, and the clock divisor.
    [None] is a panic, or a loop whose turns are used up; [FtdiFacts] shows that
    neither happens. *)

From S2P Require Import Prelude Go Bits.
Local Open Scope Z_scope.

(** ** Constants *)

Definition baseClockHz : Z := 60_000_000.
Definition minClockHz : Z := (baseClockHz + 2 * Z.shiftl 1 16 - 1) / (2 * Z.shiftl 1 16).

Definition cmdSetDataLow : Z := 0x80.
Definition cmdSetDataHigh : Z := 0x82.
Definition cmdDisableLoop : Z := 0x85.
Definition cmdSetClockDiv : Z := 0x86.
Definition cmdDisableDivBy5 : Z := 0x8a.
Definition cmdDisable3Phase : Z := 0x8d.
Definition cmdDisableAdaptive : Z := 0x97.
Definition cmdClockBitsOutNegLSB : Z := 0x1b.
Definition cmdClockBitsInPosLSB : Z := 0x2a.
Definition cmdSendImmediate : Z := 0x87.
Definition invalidCommand : Z := 0xab.
Definition pinClock : Z := Z.shiftl 1 0.
Definition pinDataOut : Z := Z.shiftl 1 1.
Definition pinTMS : Z := Z.shiftl 1 3.
Definition maxSWDTransferBits : Z := 16_384.
Definition maxJTAGTransferBits : Z := maxSWDTransferBits / 2.
Definition packetStatusSize : Z := 2.
Definition maxResponsePayload : Z := maxJTAGTransferBits + 2.

(** ** Clock *)

Definition clockDivisor (clockHz : Z) : Z * err :=
  if clockHz <? minClockHz then (0, Some (New "ftdi: clock %d Hz is below the attainable minimum"))
  else
    let denominator := uint64 (2 * clockHz) in
    let ratio := uint64 (baseClockHz + denominator - 1) / denominator in
    if ratio <=? 1 then (0, None)
    else if Z.shiftl 1 16 <? ratio then (0, Some (New "ftdi: clock %d Hz is below the attainable minimum"))
    else (uint16 (ratio - 1), None).

(** The protocol clock a divisor gives ([newChannel]). *)
Definition dividedClock (divisor : Z) : Z := baseClockHz / (2 * (divisor + 1)).

(** ** Bit streams *)

Definition streamBit (stream : list Z) (bit : Z) : option bool :=
  b ← index stream (bit / 8); Some (negb (Z.land (Z.shiftr b (bit mod 8)) 1 =? 0)).

Record swdRead := mkRead { rd_offset : Z; rd_bits : Z }.

(** The loop of [swdRunWidth], with [n] turns left before eight bits. *)
Fixpoint width_loop (n : nat) (direction : list Z) (offset bits : Z) (hostDrives : bool) (width : Z) : option Z :=
  match n with
  | O => Some width
  | S n =>
      if bits <=? offset + width then Some width
      else
        b ← streamBit direction (offset + width);
        if bool_decide (b = hostDrives) then width_loop n direction offset bits hostDrives (width + 1)
        else Some width
  end.

Definition swdRunWidth (direction : list Z) (offset bits : Z) (hostDrives : bool) : option Z :=
  width_loop 7 direction offset bits hostDrives 1.

Definition swdRunData (output : list Z) (offset bits : Z) : option Z :=
  for_range bits (fun (bit data : Z) =>
    b ← streamBit output (offset + bit);
    Some (if (b : bool) then Z.lor data (uint8 (Z.shiftl 1 bit)) else data)) 0.

(** ** SWD (swd.go) *)

Fixpoint swd_loop (fuel : nat) (direction output : list Z) (bits offset : Z)
    (commands : list Z) (reads : list swdRead) : option (list Z * list swdRead) :=
  if bits <=? offset then
    let commands := commands ++ [cmdSetDataLow; 0; pinClock] in
    Some (if len reads =? 0 then commands else commands ++ [cmdSendImmediate], reads)
  else match fuel with
  | O => None
  | S fuel =>
      hostDrives ← streamBit direction offset;
      width ← swdRunWidth direction offset bits hostDrives;
      if (hostDrives : bool) then
        data ← swdRunData output offset width;
        swd_loop fuel direction output bits (offset + width)
          (commands ++ [cmdSetDataLow; uint8 (Z.shiftl (Z.land data 1) 1); Z.lor pinClock pinDataOut;
                        cmdClockBitsOutNegLSB; uint8 (width - 1); data]) reads
      else
        swd_loop fuel direction output bits (offset + width)
          (commands ++ [cmdSetDataLow; 0; pinClock; cmdClockBitsInPosLSB; uint8 (width - 1)])
          (reads ++ [mkRead offset width])
  end.

Definition swdCommands (direction output : list Z) (bits : Z) : option (list Z * list swdRead) :=
  swd_loop (Z.to_nat bits) direction output bits 0 [] [].

(** ** JTAG (jtag.go) *)

(** The run of clear TMS bits, at most eight. *)
Fixpoint low_loop (n : nat) (tms : list Z) (offset bits width : Z) : option Z :=
  match n with
  | O => Some width
  | S n =>
      if bits <=? offset + width then Some width
      else
        b ← streamBit tms (offset + width);
        if (b : bool) then Some width else low_loop n tms offset bits (width + 1)
  end.

(** The run of equal TDI bits, at most seven. *)
Fixpoint tdi_loop (n : nat) (tdi : list Z) (offset bits width : Z) : option Z :=
  match n with
  | O => Some width
  | S n =>
      if bits <=? offset + width then Some width
      else
        b ← streamBit tdi (offset + width);
        first ← streamBit tdi offset;
        if bool_decide (b = first) then tdi_loop n tdi offset bits (width + 1) else Some width
  end.

Definition jtagPins : Z := Z.lor (Z.lor pinClock pinDataOut) pinTMS.

Fixpoint jtag_loop (fuel : nat) (tms tdi : list Z) (bits offset : Z)
    (commands : list Z) (reads : list swdRead) : option (list Z * list swdRead) :=
  if bits <=? offset then Some (commands ++ [cmdSendImmediate], reads)
  else match fuel with
  | O => None
  | S fuel =>
      width ← low_loop 8 tms offset bits 0;
      if 0 <? width then
        data ← swdRunData tdi offset width;
        jtag_loop fuel tms tdi bits (offset + width)
          (commands ++ [cmdSetDataLow; 0; jtagPins; 0x3b; uint8 (width - 1); data]) (reads ++ [mkRead offset width])
      else
        width ← tdi_loop 6 tdi offset bits 1;
        data ← swdRunData tms offset width;
        high ← streamBit tdi offset;
        jtag_loop fuel tms tdi bits (offset + width)
          (commands ++ [0x6b; uint8 (width - 1); if (high : bool) then Z.lor data 0x80 else data])
          (reads ++ [mkRead offset width])
  end.

Definition jtagCommands (tms tdi : list Z) (bits : Z) : option (list Z * list swdRead) :=
  jtag_loop (Z.to_nat bits) tms tdi bits 0 [cmdSetDataLow; 0; jtagPins] [].

(** ** Samples *)

Definition decodeRead (samples : Z) (read : swdRead) (input : list Z) : option (list Z) :=
  for_range (rd_bits read) (fun (bit : Z) (input : list Z) =>
    if negb (Z.land (Z.shiftr samples bit) 1 =? 0)
    then let position := rd_offset read + bit in
         b ← index input (position / 8);
         store input (position / 8) (Z.lor b (uint8 (Z.shiftl 1 (position mod 8))))
    else Some input) input.

Fixpoint decode_loop (response : list Z) (i : Z) (reads : list swdRead) (input : list Z) : option (list Z) :=
  match reads with
  | [] => Some input
  | read :: reads =>
      b ← index response i;
      input ← decodeRead (Z.shiftr b (8 - rd_bits read)) read input;
      decode_loop response (i + 1) reads input
  end.

Definition decodeSWD (response : list Z) (reads : list swdRead) (bits : Z) : option (list Z) :=
  decode_loop response 0 reads (make_bytes ((bits + 7) / 8)).

(** ** Packets (bulk.go) *)

Definition receiveDepth (payload packetSize : Z) : Z :=
  if payload <=? 0 then 1
  else let perPacket := packetSize - packetStatusSize in Z.quot (payload + perPacket - 1) perPacket.

Fixpoint completion_loop (fuel : nat) (buffer : list Z) (packetSize position : Z) (payload : list Z)
    : option (list Z * err) :=
  if len buffer <=? position then Some (payload, None)
  else match fuel with
  | O => None
  | S fuel =>
      let packetLength := Z.min packetSize (len buffer - position) in
      if packetLength <? packetStatusSize then Some ([], Some (New "ftdi: short status packet of %d bytes"))
      else
        completion_loop fuel buffer packetSize (position + packetLength)
          (payload ++ take (Z.to_nat (packetLength - packetStatusSize)) (drop (Z.to_nat (position + packetStatusSize)) buffer))
  end.

Definition decodeCompletion (buffer : list Z) (packetSize : Z) : option (list Z * err) :=
  if len buffer <? packetStatusSize then Some ([], Some (New "ftdi: invalid bulk-read count %d"))
  else completion_loop (length buffer) buffer packetSize 0 [].
