(* ===== verification/Mpsse.v ===== *)
(** * The MPSSE engine

    What the FTDI command processor does with a command stream (AN_108): the
    specification the encoders of package ftdi are judged against.  The target
    is any state machine clocked with the pins' levels.  The last part is the same
    for a CMSIS-DAP probe: DAP_SWD_Sequence as it executes it. *)

From S2P Require Import Prelude Bits.
Local Open Scope Z_scope.

(** ** Clocked targets *)

Section Clocks.
Context {I T : Type} (step : I -> T -> bool * T).

(** The samples of successive clocks. *)
Fixpoint clocks (l : list I) (t : T) : list bool * T :=
  match l with
  | [] => ([], t)
  | x :: l => let (b, t) := step x t in let (bs, t) := clocks l t in (b :: bs, t)
  end.

Lemma clocks_app l k t :
  clocks (l ++ k) t = let (a, t1) := clocks l t in let (b, t2) := clocks k t1 in (a ++ b, t2).
Proof.
  revert t. induction l as [|x l IH]; intros t; simpl; [by destruct (clocks k t)|].
  destruct (step x t) as [b t1]. rewrite IH. destruct (clocks l t1) as [a t2]. by destruct (clocks k t2).
Qed.

Lemma length_clocks l t : length (fst (clocks l t)) = length l.
Proof.
  revert t. induction l as [|x l IH]; intros t; simpl; [done|].
  destruct (step x t) as [b t1]. specialize (IH t1). destruct (clocks l t1). simpl in *. by f_equal.
Qed.
End Clocks.

Lemma clocks_fmap {I J T} (f : J -> I) (step : I -> T -> bool * T) l t :
  clocks (fun x => step (f x)) l t = clocks step (f <$> l) t.
Proof.
  revert t. induction l as [|x l IH]; intros t; simpl; [done|].
  destruct (step (f x) t) as [b t1]. by rewrite IH.
Qed.

(** ** The engine *)

(** The pins at one clock: whether TDI (data out) is driven, its level, and the
    level of TMS. *)
Record edge := mkEdge { tdi_driven : bool; tdi_level : bool; tms_level : bool }.

Definition set_pin (v k : Z) (b : bool) : Z := if b then Z.setbit v k else Z.clearbit v k.

(** [n + 1] clocks with pin levels by bit number. *)
Definition edges (n : Z) (f : Z -> edge) : list edge := f <$> seqZ 0 (n + 1).

Definition sample_at (bs : list bool) (i : Z) : bool := default false (bs !! Z.to_nat i).

(** Samples are shifted in at the most significant bit. *)
Definition in_byte (bs : list bool) : Z := Z.shiftl (bits_value (length bs) (sample_at bs)) (8 - len bs).

Section Engine.
Context {T : Type} (clock : edge -> T -> bool * T).

(** Commands of one byte and of three that only configure the clock, the loopback
    and the high pins, or flush the answers. *)
Definition setting (c : Z) : bool := (c =? 0x87) || (c =? 0x85) || (c =? 0x8a) || (c =? 0x8d) || (c =? 0x97).
Definition setting3 (c : Z) : bool := (c =? 0x82) || (c =? 0x86).

(** [v] and [d] are the levels and directions of the low pins.  A byte that is
    no command is answered by 0xfa and itself. *)
Fixpoint mpsse (cmds : list Z) (v d : Z) (t : T) : list Z * T :=
  match cmds with
  | [] => ([], t)
  | c :: rest =>
      if setting c then mpsse rest v d t
      else if c =? 0x2a then
        match rest with
        | n :: rest =>
            let (bs, t) := clocks clock (edges n (fun _ => mkEdge (Z.testbit d 1) (Z.testbit v 1) (Z.testbit v 3))) t in
            let (r, t) := mpsse rest v d t in (in_byte bs :: r, t)
        | [] => ([], t)
        end
      else if setting3 c || (c =? 0x80) || (c =? 0x1b) || (c =? 0x3b) || (c =? 0x6b) then
        match rest with
        | a :: b :: rest =>
            if setting3 c then mpsse rest v d t
            else if c =? 0x80 then mpsse rest a b t
            else if c =? 0x6b then
              let (bs, t) := clocks clock (edges a (fun i => mkEdge (Z.testbit d 1) (Z.testbit b 7) (Z.testbit b i))) t in
              let (r, t) := mpsse rest (set_pin (set_pin v 3 (Z.testbit b a)) 1 (Z.testbit b 7)) d t in (in_byte bs :: r, t)
            else
              let (bs, t) := clocks clock (edges a (fun i => mkEdge (Z.testbit d 1) (Z.testbit b i) (Z.testbit v 3))) t in
              let (r, t) := mpsse rest (set_pin v 1 (Z.testbit b a)) d t in
              (if c =? 0x3b then in_byte bs :: r else r, t)
        | _ => ([], t)
        end
      else let (r, t) := mpsse rest v d t in (0xfa :: c :: r, t)
  end.
End Engine.

(** ** The pins as a wire *)

(** An SWD wire sees the data pin only while the host drives it. *)
Definition swd_pins (e : edge) : bool * bool := (tdi_driven e, tdi_driven e && tdi_level e).
(** A JTAG wire sees TMS and TDI. *)
Definition jtag_pins (e : edge) : bool * bool := (tms_level e, tdi_level e).

(** * The DAP_SWD_Sequence command

    What a CMSIS-DAP probe does with one request, for any target clocked with
    the driven flag and level of SWDIO: the specification the plans of package
    cmsisdap are judged against. *)

(** Samples packed least significant bit first. *)
Definition pack_bits (bs : list bool) : list Z :=
  (fun k => bits_value 8 (fun i => sample_at bs (8 * k + i))) <$> seqZ 0 (bytes_for (len bs)).

Section Probe.
Context {T : Type} (wire : bool * bool -> T -> bool * T).

(** A sequence's clock count; zero is 64. *)
Definition sequence_count (info : Z) : Z := if Z.land info 0x3f =? 0 then 64 else Z.land info 0x3f.

(** Bit 7 of the info byte asks for samples; otherwise data follows it. *)
Fixpoint swd_sequences (n : nat) (body : list Z) (t : T) : list Z * T :=
  match n, body with
  | S n, info :: body =>
      let count := sequence_count info in
      if Z.testbit info 7 then
        let (bs, t) := clocks wire (replicate (Z.to_nat count) (false, false)) t in
        let (r, t) := swd_sequences n body t in (pack_bits bs ++ r, t)
      else
        let (_, t) := clocks wire ((fun i => (true, gbit body i)) <$> seqZ 0 count) t in
        swd_sequences n (drop (Z.to_nat (bytes_for count)) body) t
  | _, _ => ([], t)
  end.

(** The response to a request; 0xff answers what is not this command. *)
Definition dap_swd_sequence (request : list Z) (t : T) : list Z * T :=
  match request with
  | command :: n :: body =>
      if command =? 0x1d then let (r, t) := swd_sequences (Z.to_nat n) body t in (0x1d :: 0 :: r, t)
      else ([0xff], t)
  | _ => ([0xff], t)
  end.

(** The responses to successive requests. *)
Fixpoint dap_swd_sequence_all (requests : list (list Z)) (t : T) : list (list Z) * T :=
  match requests with
  | [] => ([], t)
  | r :: requests =>
      let (a, t) := dap_swd_sequence r t in
      let (l, t) := dap_swd_sequence_all requests t in (a :: l, t)
  end.
End Probe.

Lemma gbit_pack_bits bs j : 0 <= j < len bs -> gbit (pack_bits bs) j = sample_at bs j.
Proof.
  intros Hj. unfold gbit, pack_bits. pose proof (bytes_for_bound (len bs)) as Hb.
  rewrite list_lookup_fmap, lookup_seqZ_lt by (Z.to_euclidean_division_equations; lia). cbn [fmap option_fmap option_map from_option id].
  rewrite bits_value_testbit by (apply Z.mod_pos_bound; lia).
  destruct (Z.ltb_spec (j mod 8) (Z.of_nat 8)); [|Z.to_euclidean_division_equations; lia].
  rewrite andb_true_l. f_equal. rewrite Z2Nat.id by (apply Z.div_pos; lia). pose proof (Z.div_mod j 8). lia.
Qed.

Lemma len_pack_bits bs : len (pack_bits bs) = bytes_for (len bs).
Proof.
  unfold pack_bits, len at 1. rewrite length_fmap, length_seqZ. pose proof (bytes_for_nonneg (len bs) (len_nonneg bs)). lia.
Qed.

Lemma bytes_pack_bits bs : bytes (pack_bits bs).
Proof. apply Forall_fmap, Forall_true. intros k. apply bits_value_range. Qed.
