(* ===== verification/FtdiFacts.v ===== *)
(** * FTDI command streams do what the wire asks for *)

From S2P Require Import Prelude Go Bits Mpsse Ftdi.
Local Open Scope Z_scope.

(** ** Accessors *)

Lemma streamBit_spec buf i : 0 <= i < 8 * len buf -> streamBit buf i = Some (gbit buf i).
Proof.
  intros Hi. unfold streamBit. rewrite index_bit by done. cbn [mbind option_bind].
  rewrite land_1_testbit by (apply Z.mod_pos_bound; lia). unfold gbit. by destruct (Z.testbit _ _).
Qed.

Lemma width_loop_spec n dir offset bits h width :
  0 <= offset -> 1 <= width -> offset + width <= bits -> bits <= 8 * len dir ->
  (forall i, 0 <= i < width -> gbit dir (offset + i) = h) ->
  exists w, width_loop n dir offset bits h width = Some w /\ width <= w <= width + Z.of_nat n /\ offset + w <= bits /\
    forall i, 0 <= i < w -> gbit dir (offset + i) = h.
Proof.
  intros Ho. revert width. induction n as [|n IH]; intros width Hw Hb Hl Hh; cbn [width_loop].
  { exists width. split; [done|]. split; [lia|]. done. }
  destruct (Z.leb_spec bits (offset + width)); [exists width; split; [done|]; split; [lia|done]|].
  rewrite streamBit_spec by lia. cbn [mbind option_bind]. case_bool_decide as E.
  - destruct (IH (width + 1)) as (w & -> & Hr & Hbw & Hw'); [lia|lia|done| |].
    { intros i Hi. destruct (Z.eq_dec i width) as [->|]; [done|]. apply Hh. lia. }
    exists w. split; [done|]. split; [lia|]. done.
  - exists width. split; [done|]. split; [lia|]. done.
Qed.

Lemma swdRunWidth_spec dir offset bits :
  0 <= offset < bits -> bits <= 8 * len dir ->
  exists w, swdRunWidth dir offset bits (gbit dir offset) = Some w /\ 1 <= w <= 8 /\ offset + w <= bits /\
    forall i, 0 <= i < w -> gbit dir (offset + i) = gbit dir offset.
Proof.
  intros Ho Hl. destruct (width_loop_spec 7 dir offset bits (gbit dir offset) 1) as (w & Hw & Hr & Hb & Hh); try lia.
  { intros i Hi. f_equal. lia. }
  exists w. split; [done|]. split; [lia|]. done.
Qed.

Lemma swdRunData_spec out offset w :
  0 <= offset -> 0 <= w <= 8 -> offset + w <= 8 * len out ->
  swdRunData out offset w = Some (bits_value (Z.to_nat w) (fun i => gbit out (offset + i))).
Proof.
  intros Ho Hw Hl. apply collect_spec; [lia|]. intros i v Hi. rewrite streamBit_spec by lia. cbn [mbind option_bind].
  assert (uint8 (Z.shiftl 1 i) = Z.shiftl 1 i) as E.
  { unfold uint8. rewrite Z.shiftl_mul_pow2, Z.mul_1_l by lia. apply Z.mod_small. split; [apply Z.pow_nonneg; lia|].
    apply Z.pow_lt_mono_r; lia. }
  f_equal. destruct (gbit out (offset + i)); [by rewrite E|]. by rewrite Z.shiftl_0_l, Z.lor_0_r.
Qed.

Lemma uint8_small x : 0 <= x < 256 -> uint8 x = x.
Proof. intros. by apply Z.mod_small. Qed.

Lemma testbit_bits_value w f i :
  0 <= i < w -> Z.testbit (bits_value (Z.to_nat w) f) i = f i.
Proof.
  intros Hi. rewrite bits_value_testbit by lia. rewrite Z2Nat.id by lia.
  destruct (Z.ltb_spec i w); [done|lia].
Qed.

(** ** Samples read back *)

Definition covers (j : Z) (r : swdRead) : bool := (rd_offset r <=? j) && (j <? rd_offset r + rd_bits r).

(** The response byte of a read, for samples by position. *)
Definition answers (s : Z -> bool) (b : Z) (r : swdRead) : Prop :=
  0 <= rd_offset r /\ 1 <= rd_bits r <= 8 /\
  b = Z.shiftl (bits_value (Z.to_nat (rd_bits r)) (fun i => s (rd_offset r + i))) (8 - rd_bits r).

Lemma decodeRead_spec s b r input :
  answers s b r -> rd_offset r + rd_bits r <= 8 * len input -> bytes input ->
  exists input', decodeRead (Z.shiftr b (8 - rd_bits r)) r input = Some input' /\ bytes input' /\ len input' = len input /\
    forall j, 0 <= j -> gbit input' j = gbit input j || (covers j r && s j).
Proof.
  intros (Ho & Hb & ->) Hl B. rewrite Z.shiftr_shiftl_l, Z.sub_diag, Z.shiftl_0_r by lia.
  destruct (blit_spec (fun bit input =>
      if negb (Z.land (Z.shiftr (bits_value (Z.to_nat (rd_bits r)) (fun i => s (rd_offset r + i))) bit) 1 =? 0)
      then let position := rd_offset r + bit in
         b ← index input (position / 8);
         store input (position / 8) (Z.lor b (uint8 (Z.shiftl 1 (position mod 8))))
      else Some input) (fun i => s (rd_offset r + i)) (rd_offset r) (rd_bits r) input)
    as (input' & Hi & Bi & Li & Gi); try lia; try done.
  - intros i d Hi Hd. rewrite land_1_testbit, testbit_bits_value by lia.
    destruct (s (rd_offset r + i)); simpl; [done|]. by rewrite or_bit_0 by lia.
  - exists input'. split; [done|]. split; [done|]. split; [done|]. intros j Hj. rewrite Gi by done. unfold covers.
    by replace (rd_offset r + (j - rd_offset r)) with j by lia.
Qed.

Lemma decode_loop_spec s pre response reads input :
  Forall2 (answers s) response reads -> Forall (fun r => rd_offset r + rd_bits r <= 8 * len input) reads -> bytes input ->
  exists input', decode_loop (pre ++ response) (len pre) reads input = Some input' /\ bytes input' /\ len input' = len input /\
    forall j, 0 <= j -> gbit input' j = gbit input j || (existsb (covers j) reads && s j).
Proof.
  intros F. revert pre input. induction F as [|b r response reads A F IH]; intros pre input Hl B.
  { exists input. split; [done|]. split; [done|]. split; [done|]. intros j _. simpl. by rewrite orb_false_r. }
  apply Forall_cons in Hl as [Hl Hls]. cbn [decode_loop].
  assert (index (pre ++ b :: response) (len pre) = Some b) as ->.
  { rewrite index_lookup by apply len_nonneg. unfold len. by rewrite Nat2Z.id, list_lookup_middle. }
  cbn [mbind option_bind]. destruct (decodeRead_spec s b r input A Hl B) as (i1 & -> & B1 & L1 & G1). cbn [mbind option_bind].
  destruct (IH (pre ++ [b]) i1) as (i2 & Hd & B2 & L2 & G2); [by rewrite L1|done|].
  rewrite <- app_assoc, len_app in Hd. change (len [b]) with 1 in Hd. exists i2. split; [exact Hd|].
  split; [done|]. split; [congruence|]. intros j Hj. rewrite G2, G1 by done. simpl.
  destruct (gbit input j), (covers j r), (existsb (covers j) reads), (s j); done.
Qed.

(** ** Clocking a chunk *)

Lemma sample_at_app_l a b i : 0 <= i < len a -> sample_at (a ++ b) i = sample_at a i.
Proof. unfold len, sample_at. intros. by rewrite lookup_app_l by lia. Qed.

Lemma sample_at_app_r a b i : len a <= i -> sample_at (a ++ b) i = sample_at b (i - len a).
Proof.
  unfold len, sample_at. intros. rewrite lookup_app_r by lia. do 2 f_equal. lia.
Qed.

Lemma answers_in_byte bs rest offset w :
  0 <= offset -> 1 <= w <= 8 -> len bs = w ->
  answers (fun j => sample_at (bs ++ rest) (j - offset)) (in_byte bs) (mkRead offset w).
Proof.
  intros Ho Hw Hl. split; [done|]. split; [done|]. cbn [rd_offset rd_bits]. unfold in_byte. rewrite Hl. f_equal.
  replace (length bs) with (Z.to_nat w) by (unfold len in Hl; lia). apply bits_value_ext. intros i Hi.
  replace (offset + i - offset) with i by lia. symmetry. apply sample_at_app_l. lia.
Qed.

Lemma answers_shift bs rest offset w b r :
  len bs = w -> offset + w <= rd_offset r ->
  answers (fun j => sample_at rest (j - (offset + w))) b r -> answers (fun j => sample_at (bs ++ rest) (j - offset)) b r.
Proof.
  intros Hl Ho (H1 & H2 & ->). split; [done|]. split; [done|]. f_equal. apply bits_value_ext. intros i Hi.
  rewrite sample_at_app_r by lia. f_equal. lia.
Qed.

Lemma len_clocks {I T} (step : I -> T -> bool * T) l t : len (fst (clocks step l t)) = len l.
Proof. unfold len. by rewrite length_clocks. Qed.

(** The clocks of one command are those of its part of the stream. *)
Lemma edges_stream (f : Z -> edge) (g : edge -> bool * bool) (h : bool * bool -> bool * bool) a b offset w :
  (forall i, 0 <= i < w -> g (f i) = h (gbit a (offset + i), gbit b (offset + i))) -> 1 <= w ->
  g <$> edges (w - 1) f = h <$> stream a b offset w.
Proof.
  intros E Hw. unfold edges, stream. replace (w - 1 + 1) with w by lia. rewrite <- !list_fmap_compose.
  apply list_fmap_ext. intros k i Hi%lookup_seqZ. simpl. apply E. lia.
Qed.

Lemma len_stream a b offset w : 0 <= w -> len (stream a b offset w) = w.
Proof. intros. unfold len. rewrite length_stream by done. lia. Qed.

Lemma covers_app j a b : existsb (covers j) (a ++ b) = existsb (covers j) a || existsb (covers j) b.
Proof. apply existsb_app. Qed.

(** ** SWD streams *)

(** Commands that clock [l] of the wire's stream from [offset] and answer the
    reads [rs] with its samples. *)
Definition executes (pins : edge -> bool * bool) (cmds : list Z) (rs : list swdRead) (offset : Z) (l : list (bool * bool)) : Prop :=
  forall (T : Type) (wire : bool * bool -> T -> bool * T) v d t,
    exists resp samples t', mpsse (fun e => wire (pins e)) cmds v d t = (resp, t') /\ clocks wire l t = (samples, t') /\
      Forall2 (answers (fun j => sample_at samples (j - offset))) resp rs.

Definition reads_in (lo hi : Z) (rs : list swdRead) : Prop :=
  Forall (fun r => lo <= rd_offset r /\ rd_offset r + rd_bits r <= hi) rs.

Lemma answers_shifts bs samples offset w resp rs hi :
  len bs = w -> reads_in (offset + w) hi rs ->
  Forall2 (answers (fun j => sample_at samples (j - (offset + w)))) resp rs ->
  Forall2 (answers (fun j => sample_at (bs ++ samples) (j - offset))) resp rs.
Proof.
  intros Hl Hr F. induction F as [|b r resp rs A F IH]; [constructor|].
  apply Forall_cons in Hr as [[Hr _] Hrs]. constructor; [|by apply IH]. by eapply answers_shift.
Qed.

(** One clocking command and the rest of the stream. *)
Lemma chunk_run pins h a b offset w bits f tail rs v d :
  (forall i, 0 <= i < w -> pins (f i) = h (gbit a (offset + i), gbit b (offset + i))) ->
  0 <= offset -> 1 <= w <= 8 -> offset + w <= bits ->
  executes pins tail rs (offset + w) (h <$> stream a b (offset + w) (bits - (offset + w))) ->
  reads_in (offset + w) bits rs ->
  forall (T : Type) (wire : bool * bool -> T -> bool * T) t,
  exists bs t1 resp samples t', clocks (fun e => wire (pins e)) (edges (w - 1) f) t = (bs, t1) /\
    mpsse (fun e => wire (pins e)) tail v d t1 = (resp, t') /\
    clocks wire (h <$> stream a b offset (bits - offset)) t = (samples, t') /\
    Forall2 (answers (fun j => sample_at samples (j - offset))) resp rs /\
    answers (fun j => sample_at samples (j - offset)) (in_byte bs) (mkRead offset w).
Proof.
  intros Hp Ho Hw Hb Ex Hin T wire t. rewrite clocks_fmap, (edges_stream f pins h a b offset w) by (done || lia).
  replace (bits - offset) with (w + (bits - (offset + w))) by lia. rewrite stream_app, fmap_app, clocks_app by lia.
  pose proof (len_clocks wire (h <$> stream a b offset w) t) as Hlen.
  destruct (clocks wire (h <$> stream a b offset w) t) as [bs t1]. cbn [fst] in Hlen.
  assert (len bs = w) as Hbs by (rewrite Hlen; unfold len; rewrite length_fmap, length_stream; lia).
  destruct (Ex T wire v d t1) as (resp & samples & t' & Hm & Hc & F). rewrite Hc.
  exists bs, t1, resp, (bs ++ samples), t'. split_and!; try done.
  - by eapply answers_shifts.
  - by apply answers_in_byte.
Qed.

(** A finished stream. *)
Lemma executes_done pins cmds offset :
  (forall (T : Type) (clock : edge -> T -> bool * T) v d t, mpsse clock cmds v d t = ([], t)) ->
  executes pins cmds [] offset [].
Proof. intros E T wire v d t. exists [], [], t. by rewrite E. Qed.

Definition undriven (x : bool * bool) : bool * bool := (fst x, fst x && snd x).

Lemma swd_loop_spec fuel dir out bits offset cmds reads :
  0 <= offset <= bits -> bits - offset <= Z.of_nat fuel -> bits <= 8 * len dir -> bits <= 8 * len out ->
  exists tail rs, swd_loop fuel dir out bits offset cmds reads = Some (cmds ++ tail, reads ++ rs) /\
    executes swd_pins tail rs offset (undriven <$> stream dir out offset (bits - offset)) /\
    reads_in offset bits rs /\
    (forall j, existsb (covers j) rs = (offset <=? j) && (j <? bits) && negb (gbit dir j)).
Proof.
  revert offset cmds reads. induction fuel as [|fuel IH]; intros offset cmds reads Ho Hf Hd Hout; cbn [swd_loop].
  all: destruct (Z.leb_spec bits offset) as [Hge|Hlt].
  1,3: assert (bits = offset) as -> by lia; rewrite Z.sub_diag;
    exists (if len reads =? 0 then [cmdSetDataLow; 0; pinClock] else [cmdSetDataLow; 0; pinClock; cmdSendImmediate]), [];
    (split; [rewrite app_nil_r; destruct (len reads =? 0); [done|by rewrite <- app_assoc]|]);
    (split; [by apply executes_done; intros; destruct (len reads =? 0)|]);
    (split; [constructor|]); intros j; simpl; destruct (Z.leb_spec offset j), (Z.ltb_spec j offset); try lia; done.
  { lia. }
  rewrite streamBit_spec by lia. cbn [mbind option_bind].
  destruct (swdRunWidth_spec dir offset bits) as (w & -> & Hw & Hwb & Hrun); [lia|done|]. cbn [mbind option_bind].
  rewrite (uint8_small (w - 1)) by lia.
  destruct (gbit dir offset) eqn:Hh.
  - rewrite swdRunData_spec by lia. cbn [mbind option_bind]. set (data := bits_value _ _).
    set (chunk := [cmdSetDataLow; uint8 (Z.shiftl (Z.land data 1) 1); Z.lor pinClock pinDataOut; cmdClockBitsOutNegLSB; w - 1; data]).
    destruct (IH (offset + w) (cmds ++ chunk) reads) as (tail & rs & -> & Ex & Hin & Hcov); try lia.
    exists (chunk ++ tail), rs. split; [by rewrite <- app_assoc|]. split; [|split].
    + intros T wire v d t. cbn -[clocks edges in_byte set_pin uint8 Z.sub Z.testbit Z.land Z.shiftl].
      assert (forall i, 0 <= i < w -> swd_pins (mkEdge true (Z.testbit data i) (Z.testbit (uint8 (Z.shiftl (Z.land data 1) 1)) 3)) =
        undriven (gbit dir (offset + i), gbit out (offset + i))) as Hp.
      { intros i Hi. unfold swd_pins, undriven, data. simpl. by rewrite testbit_bits_value, Hrun. }
      match goal with |- context [mpsse _ tail ?v' ?d' _] =>
        destruct (chunk_run _ _ _ _ _ _ bits _ tail rs v' d' Hp (proj1 Ho) Hw Hwb Ex Hin T wire t)
          as (bs & t1 & resp & samples & t' & Hclk & Hm & Hc & F & _) end.
      change (Z.testbit (Z.lor pinClock pinDataOut) 1) with true. rewrite Hclk, Hm. exists resp, samples, t'. auto.
    + eapply Forall_impl; [exact Hin|]. intros r. simpl. lia.
    + intros j. rewrite Hcov.
      destruct (Z.leb_spec offset j), (Z.leb_spec (offset + w) j), (Z.ltb_spec j bits); try lia; try done. simpl.
      replace j with (offset + (j - offset)) by lia. rewrite Hrun by lia. done.
  - set (chunk := [cmdSetDataLow; 0; pinClock; cmdClockBitsInPosLSB; w - 1]).
    destruct (IH (offset + w) (cmds ++ chunk) (reads ++ [mkRead offset w])) as (tail & rs & -> & Ex & Hin & Hcov); try lia.
    exists (chunk ++ tail), (mkRead offset w :: rs). split; [by rewrite <- !app_assoc|]. split; [|split].
    + intros T wire v d t. cbn -[clocks edges in_byte Z.sub pinClock Z.testbit]. change (Z.testbit pinClock 1) with false.
      change (Z.testbit 0 1) with false. change (Z.testbit 0 3) with false.
      assert (forall i, 0 <= i < w -> swd_pins (mkEdge false false false) = undriven (gbit dir (offset + i), gbit out (offset + i))) as Hp.
      { intros i Hi. unfold swd_pins, undriven. simpl. by rewrite Hrun. }
      match goal with |- context [mpsse _ tail ?v' ?d' _] =>
        destruct (chunk_run _ _ _ _ _ _ bits _ tail rs v' d' Hp (proj1 Ho) Hw Hwb Ex Hin T wire t)
          as (bs & t1 & resp & samples & t' & Hclk & Hm & Hc & F & A) end.
      rewrite Hclk, Hm. exists (in_byte bs :: resp), samples, t'. auto.
    + constructor; [simpl; lia|]. eapply Forall_impl; [exact Hin|]. intros r. simpl. lia.
    + intros j. cbn [existsb]. rewrite Hcov. unfold covers. cbn [rd_offset rd_bits].
      destruct (Z.leb_spec offset j), (Z.leb_spec (offset + w) j), (Z.ltb_spec j (offset + w)), (Z.ltb_spec j bits); try lia; try done.
      simpl. replace j with (offset + (j - offset)) by lia. rewrite Hrun by lia. done.
Qed.

(** ** JTAG streams *)

Lemma low_loop_spec n tms offset bits width :
  0 <= offset -> 0 <= width -> offset + width <= bits -> bits <= 8 * len tms ->
  (forall i, 0 <= i < width -> gbit tms (offset + i) = false) ->
  exists w, low_loop n tms offset bits width = Some w /\ width <= w <= width + Z.of_nat n /\ offset + w <= bits /\
    forall i, 0 <= i < w -> gbit tms (offset + i) = false.
Proof.
  intros Ho. revert width. induction n as [|n IH]; intros width Hw Hb Hl Hh; cbn [low_loop].
  { exists width. split; [done|]. split; [lia|]. done. }
  destruct (Z.leb_spec bits (offset + width)); [exists width; split; [done|]; split; [lia|done]|].
  rewrite streamBit_spec by lia. cbn [mbind option_bind]. destruct (gbit tms (offset + width)) eqn:E.
  { exists width. split; [done|]. split; [lia|]. done. }
  destruct (IH (width + 1)) as (w & -> & Hr & Hbw & Hw'); [lia|lia|done| |].
  { intros i Hi. destruct (Z.eq_dec i width) as [->|]; [done|]. apply Hh. lia. }
  exists w. split; [done|]. split; [lia|]. done.
Qed.

Lemma tdi_loop_spec n tdi offset bits width :
  0 <= offset -> 1 <= width -> offset + width <= bits -> bits <= 8 * len tdi ->
  (forall i, 0 <= i < width -> gbit tdi (offset + i) = gbit tdi offset) ->
  exists w, tdi_loop n tdi offset bits width = Some w /\ width <= w <= width + Z.of_nat n /\ offset + w <= bits /\
    forall i, 0 <= i < w -> gbit tdi (offset + i) = gbit tdi offset.
Proof.
  intros Ho. revert width. induction n as [|n IH]; intros width Hw Hb Hl Hh; cbn [tdi_loop].
  { exists width. split; [done|]. split; [lia|]. done. }
  destruct (Z.leb_spec bits (offset + width)); [exists width; split; [done|]; split; [lia|done]|].
  rewrite !streamBit_spec by lia. cbn [mbind option_bind]. case_bool_decide as E.
  - destruct (IH (width + 1)) as (w & -> & Hr & Hbw & Hw'); [lia|lia|done| |].
    { intros i Hi. destruct (Z.eq_dec i width) as [->|]; [done|]. apply Hh. lia. }
    exists w. split; [done|]. split; [lia|]. done.
  - exists width. split; [done|]. split; [lia|]. done.
Qed.

(** A TMS command's data byte: up to seven TMS bits, TDI above them. *)
Lemma tms_data w f (high : bool) i :
  1 <= w <= 7 ->
  let data := bits_value (Z.to_nat w) f in
  let b := if high then Z.lor data 0x80 else data in
  Z.testbit b 7 = high /\ (0 <= i < w -> Z.testbit b i = f i).
Proof.
  intros Hw data b. assert (Z.testbit data 7 = false) as H7.
  { unfold data. rewrite bits_value_testbit by lia. rewrite Z2Nat.id by lia. destruct (Z.ltb_spec 7 w); [lia|done]. }
  split.
  - unfold b. destruct high; [|done]. by rewrite Z.lor_spec, H7.
  - intros Hi. assert (Z.testbit data i = f i) as Hd by (by apply testbit_bits_value). unfold b. destruct high; [|done].
    rewrite Z.lor_spec, Hd. change 0x80 with (2 ^ 7). rewrite Z.pow2_bits_false by lia. apply orb_false_r.
Qed.

Lemma jtag_loop_spec fuel tms tdi bits offset cmds reads :
  0 <= offset <= bits -> bits - offset <= Z.of_nat fuel -> bits <= 8 * len tms -> bits <= 8 * len tdi ->
  exists tail rs, jtag_loop fuel tms tdi bits offset cmds reads = Some (cmds ++ tail, reads ++ rs) /\
    executes jtag_pins tail rs offset (id <$> stream tms tdi offset (bits - offset)) /\
    reads_in offset bits rs /\
    (forall j, existsb (covers j) rs = (offset <=? j) && (j <? bits)).
Proof.
  revert offset cmds reads. induction fuel as [|fuel IH]; intros offset cmds reads Ho Hf Hm' Hd; cbn [jtag_loop].
  all: destruct (Z.leb_spec bits offset) as [Hge|Hlt].
  1,3: assert (bits = offset) as -> by lia; rewrite Z.sub_diag; exists [cmdSendImmediate], [];
    (split; [by rewrite app_nil_r|]); (split; [by apply executes_done|]);
    (split; [constructor|]); intros j; simpl; destruct (Z.leb_spec offset j), (Z.ltb_spec j offset); try lia; done.
  { lia. }
  destruct (low_loop_spec 8 tms offset bits 0) as (w0 & -> & Hw0 & Hwb0 & Hlow); try lia. cbn [mbind option_bind].
  assert (forall w rs, 1 <= w -> offset + w <= bits ->
    (forall j, existsb (covers j) rs = (offset + w <=? j) && (j <? bits)) ->
    forall j, existsb (covers j) (mkRead offset w :: rs) = (offset <=? j) && (j <? bits)) as Hcover.
  { intros w rs Hw Hb Hc j. cbn [existsb]. rewrite Hc. unfold covers. cbn [rd_offset rd_bits].
    destruct (Z.leb_spec offset j), (Z.leb_spec (offset + w) j), (Z.ltb_spec j (offset + w)), (Z.ltb_spec j bits); try lia; done. }
  destruct (Z.ltb_spec 0 w0) as [Hpos|Hzero].
  - rewrite swdRunData_spec by lia. cbn [mbind option_bind]. set (data := bits_value _ _). rewrite (uint8_small (w0 - 1)) by lia.
    set (chunk := [cmdSetDataLow; 0; jtagPins; 0x3b; w0 - 1; data]).
    destruct (IH (offset + w0) (cmds ++ chunk) (reads ++ [mkRead offset w0])) as (tail & rs & -> & Ex & Hin & Hcov); try lia.
    exists (chunk ++ tail), (mkRead offset w0 :: rs). split; [by rewrite <- !app_assoc|]. split; [|split; [|apply Hcover; lia || done]].
    + intros T wire v d t. cbn -[clocks edges in_byte Z.sub Z.testbit jtagPins set_pin]. change (Z.testbit 0 3) with false.
      assert (forall i, 0 <= i < w0 -> jtag_pins (mkEdge (Z.testbit jtagPins 1) (Z.testbit data i) false) =
        id (gbit tms (offset + i), gbit tdi (offset + i))) as Hp.
      { intros i Hi. unfold jtag_pins, data. simpl. by rewrite testbit_bits_value, Hlow. }
      match goal with |- context [mpsse _ tail ?v' ?d' _] =>
        destruct (chunk_run _ _ _ _ _ _ bits _ tail rs v' d' Hp (proj1 Ho) ltac:(lia) Hwb0 Ex Hin T wire t)
          as (bs & t1 & resp & samples & t' & Hclk & Hm & Hc & F & A) end.
      rewrite Hclk, Hm. exists (in_byte bs :: resp), samples, t'. auto.
    + constructor; [simpl; lia|]. eapply Forall_impl; [exact Hin|]. intros r. simpl. lia.
  - destruct (tdi_loop_spec 6 tdi offset bits 1) as (w & -> & Hw & Hwb & Hrun); try lia. { intros i Hi. f_equal. lia. }
    cbn [mbind option_bind]. rewrite swdRunData_spec by lia. cbn [mbind option_bind]. rewrite streamBit_spec by lia.
    cbn [mbind option_bind]. rewrite (uint8_small (w - 1)) by lia.
    set (data := if gbit tdi offset then _ else _). set (chunk := [0x6b; w - 1; data]).
    destruct (IH (offset + w) (cmds ++ chunk) (reads ++ [mkRead offset w])) as (tail & rs & -> & Ex & Hin & Hcov); try lia.
    exists (chunk ++ tail), (mkRead offset w :: rs). split; [by rewrite <- !app_assoc|]. split; [|split; [|apply Hcover; lia || done]].
    + intros T wire v d t. cbn -[clocks edges in_byte Z.sub Z.testbit set_pin].
      assert (forall i, 0 <= i < w -> jtag_pins (mkEdge (Z.testbit d 1) (Z.testbit data 7) (Z.testbit data i)) =
        id (gbit tms (offset + i), gbit tdi (offset + i))) as Hp.
      { intros i Hi. destruct (tms_data w (fun i => gbit tms (offset + i)) (gbit tdi offset) i ltac:(lia)) as [H7 Hi'].
        unfold jtag_pins. simpl. rewrite Hrun by done. f_equal; [by apply Hi'|exact H7]. }
      match goal with |- context [mpsse _ tail ?v' ?d' _] =>
        destruct (chunk_run _ _ _ _ _ _ bits _ tail rs v' d' Hp (proj1 Ho) ltac:(lia) Hwb Ex Hin T wire t)
          as (bs & t1 & resp & samples & t' & Hclk & Hm & Hc & F & A) end.
      rewrite Hclk, Hm. exists (in_byte bs :: resp), samples, t'. auto.
    + constructor; [simpl; lia|]. eapply Forall_impl; [exact Hin|]. intros r. simpl. lia.
Qed.

(** ** Whole streams *)

(** The buffer that the reads of a stream fill. *)
Lemma decode_stream pins cmds rs l bits (P : Z -> bool) :
  0 <= bits -> executes pins cmds rs 0 l -> reads_in 0 bits rs ->
  (forall j, existsb (covers j) rs = (0 <=? j) && (j <? bits) && P j) ->
  forall (T : Type) (wire : bool * bool -> T -> bool * T) v d t,
  exists resp samples t' input, mpsse (fun e => wire (pins e)) cmds v d t = (resp, t') /\ clocks wire l t = (samples, t') /\
    len resp = len rs /\ decodeSWD resp rs bits = Some input /\ bytes input /\ len input = bytes_for bits /\
    forall j, 0 <= j -> gbit input j = (j <? bits) && P j && sample_at samples j.
Proof.
  intros Hb Ex Hin Hcov T wire v d t. destruct (Ex T wire v d t) as (resp & samples & t' & Hm & Hc & F).
  pose proof (bytes_for_bound bits Hb) as Bb. pose proof (len_make_bytes (bytes_for bits) (bytes_for_nonneg bits Hb)) as Lm.
  destruct (decode_loop_spec (fun j => sample_at samples (j - 0)) [] resp rs (make_bytes (bytes_for bits)))
    as (input & Hi & Bi & Li & Gi); [done| |apply bytes_make|].
  { rewrite Lm. eapply Forall_impl; [exact Hin|]. intros r. simpl. lia. }
  exists resp, samples, t', input. split_and!; try done.
  - unfold len. by rewrite (Forall2_length _ _ _ F).
  - by rewrite Li.
  - intros j Hj. rewrite Gi, gbit_make_bytes, Hcov by done. simpl. rewrite Z.sub_0_r.
    by destruct (Z.leb_spec 0 j); [|lia].
Qed.

(** ** Clock *)

Lemma clockDivisor_spec hz :
  0 <= hz < 2 ^ 32 ->
  (hz < minClockHz -> exists e, clockDivisor hz = (0, Some e)) /\
  (minClockHz <= hz -> exists d, clockDivisor hz = (d, None) /\ 0 <= d < 2 ^ 16 /\
     baseClockHz <= 2 * (d + 1) * hz /\ dividedClock d <= hz /\
     forall d', 0 <= d' -> baseClockHz <= 2 * (d' + 1) * hz -> d <= d').
Proof.
  intros Hhz. unfold clockDivisor. split; intros Hm.
  { destruct (Z.ltb_spec hz minClockHz); [eauto|lia]. }
  destruct (Z.ltb_spec hz minClockHz); [lia|]. change minClockHz with 458 in *.
  rewrite !uint64_small by (rewrite ?uint64_small; unfold baseClockHz; lia).
  change (Z.shiftl 1 16) with 65536. set (r := (baseClockHz + 2 * hz - 1) / (2 * hz)).
  assert (baseClockHz <= 2 * hz * r) as Hlo by (unfold r, baseClockHz; Z.to_euclidean_division_equations; nia).
  assert (2 * hz * (r - 1) < baseClockHz) as Hhi by (unfold r, baseClockHz; Z.to_euclidean_division_equations; nia).
  assert (forall d, baseClockHz <= 2 * (d + 1) * hz -> 0 <= d -> dividedClock d <= hz) as Hdiv.
  { intros d Hd Hd0. unfold dividedClock. apply Z.div_le_upper_bound; nia. }
  unfold baseClockHz in *.
  destruct (Z.leb_spec r 1) as [Hr|Hr].
  - exists 0. split; [done|]. split; [lia|]. assert (60000000 <= 2 * (0 + 1) * hz) by nia. split; [done|]. split; [by apply Hdiv|lia].
  - destruct (Z.ltb_spec 65536 r); [nia|]. unfold uint16. rewrite Z.mod_small by lia. exists (r - 1).
    split; [done|]. split; [lia|]. assert (60000000 <= 2 * (r - 1 + 1) * hz) by nia. split; [done|].
    split; [apply Hdiv; lia|]. intros d' Hd0 Hd'. nia.
Qed.

(** ** Packets *)

(** A USB completion: full packets and a last one, each two status bytes and a
    part of the payload. *)
Inductive packets (packetSize : Z) : list Z -> list Z -> Prop :=
| last_packet s1 s2 l : 2 + len l <= packetSize -> packets packetSize (s1 :: s2 :: l) l
| full_packet s1 s2 l buffer payload :
    2 + len l = packetSize -> packets packetSize buffer payload ->
    packets packetSize (s1 :: s2 :: l ++ buffer) (l ++ payload).

Lemma completion_loop_spec packetSize buffer payload :
  packets packetSize buffer payload ->
  forall pre fuel acc, (length buffer <= fuel)%nat ->
  completion_loop fuel (pre ++ buffer) packetSize (len pre) acc = Some (acc ++ payload, None).
Proof.
  intros Hp. induction Hp as [s1 s2 l Hl|s1 s2 l buffer payload Hl Hp IH]; intros pre fuel acc Hf;
    (destruct fuel as [|fuel]; [simpl in Hf; lia|]); cbn [completion_loop]; pose proof (len_nonneg l) as Hn;
    rewrite len_app.
  - destruct (Z.leb_spec (len pre + len (s1 :: s2 :: l)) (len pre)) as [K|_]; [unfold len in *; simpl in K; lia|].
    replace (Z.min packetSize _) with (2 + len l) by (unfold len in *; simpl length; lia). unfold packetStatusSize.
    destruct (Z.ltb_spec (2 + len l) 2); [lia|].
    replace (Z.to_nat (2 + len l - 2)) with (length l) by (unfold len; lia).
    replace (Z.to_nat (len pre + 2)) with (length pre + 2)%nat by (unfold len; lia).
    rewrite drop_app_add. simpl. rewrite take_ge by done.
    destruct fuel; simpl; (destruct (Z.leb_spec (len (pre ++ s1 :: s2 :: l)) (len pre + (2 + len l))); [done|];
      rewrite len_app in *; unfold len in *; simpl in *; lia).
  - destruct (Z.leb_spec (len pre + len (s1 :: s2 :: l ++ buffer)) (len pre)) as [K|_]; [unfold len in *; simpl in K; lia|].
    replace (Z.min packetSize _) with packetSize
      by (unfold len in *; simpl length; rewrite length_app; lia). unfold packetStatusSize.
    destruct (Z.ltb_spec packetSize 2); [lia|].
    replace (Z.to_nat (packetSize - 2)) with (length l) by (unfold len in *; lia).
    replace (Z.to_nat (len pre + 2)) with (length pre + 2)%nat by (unfold len; lia).
    rewrite drop_app_add. change (drop 2 (s1 :: s2 :: l ++ buffer)) with (l ++ buffer). rewrite take_app_length.
    replace (pre ++ s1 :: s2 :: l ++ buffer) with ((pre ++ s1 :: s2 :: l) ++ buffer) by (by rewrite <- app_assoc).
    replace (len pre + packetSize) with (len (pre ++ s1 :: s2 :: l)) by (rewrite len_app; unfold len in *; simpl length; lia).
    rewrite IH by (simpl in Hf; rewrite length_app in Hf; lia). by rewrite app_assoc.
Qed.

Lemma decodeCompletion_spec packetSize buffer payload :
  packets packetSize buffer payload -> decodeCompletion buffer packetSize = Some (payload, None).
Proof.
  intros Hp. unfold decodeCompletion. destruct (Z.ltb_spec (len buffer) packetStatusSize) as [K|_].
  - unfold packetStatusSize, len in K. destruct Hp; simpl in K; lia.
  - exact (completion_loop_spec packetSize buffer payload Hp [] (length buffer) [] (Nat.le_refl _)).
Qed.

Lemma receiveDepth_spec payload packetSize :
  2 < packetSize -> 1 <= receiveDepth payload packetSize /\ payload <= receiveDepth payload packetSize * (packetSize - 2).
Proof.
  intros Hp. unfold receiveDepth, packetStatusSize. destruct (Z.leb_spec payload 0); [nia|].
  rewrite Z.quot_div_nonneg by lia. Z.to_euclidean_division_equations. nia.
Qed.

(** ** Whole commands *)

(** The pins after commands; [None] if the last one is incomplete. *)
Fixpoint boundary (cmds : list Z) (v d : Z) : option (Z * Z) :=
  match cmds with
  | [] => Some (v, d)
  | c :: rest =>
      if setting c then boundary rest v d
      else if c =? 0x2a then match rest with _ :: rest => boundary rest v d | [] => None end
      else if setting3 c || (c =? 0x80) || (c =? 0x1b) || (c =? 0x3b) || (c =? 0x6b) then
        match rest with
        | a :: b :: rest =>
            if setting3 c then boundary rest v d
            else if c =? 0x80 then boundary rest a b
            else if c =? 0x6b then boundary rest (set_pin (set_pin v 3 (Z.testbit b a)) 1 (Z.testbit b 7)) d
            else boundary rest (set_pin v 1 (Z.testbit b a)) d
        | _ => None
        end
      else boundary rest v d
  end.

Lemma list_len_ind {A} (P : list A -> Prop) : (forall l, (forall k, (length k < length l)%nat -> P k) -> P l) -> forall l, P l.
Proof. intros IH l. induction l using (induction_ltof1 _ (@length A)). by apply IH. Qed.

Lemma boundary_app a b v d v1 d1 : boundary a v d = Some (v1, d1) -> boundary (a ++ b) v d = boundary b v1 d1.
Proof.
  revert v d. induction a as [a IH] using list_len_ind. intros v d. destruct a as [|c rest]; [by intros [= <- <-]|]. cbn [boundary app].
  destruct (setting c); [apply IH; simpl; lia|]. destruct (c =? 0x2a); [destruct rest; [done|apply IH; simpl; lia]|].
  destruct (_ || _); [|apply IH; simpl; lia]. destruct rest as [|x [|y rest]]; [done..|]. cbn [app].
  destruct (setting3 c); [apply IH; simpl; lia|]. destruct (c =? 0x80); [apply IH; simpl; lia|]. destruct (c =? 0x6b); apply IH; simpl; lia.
Qed.

Lemma mpsse_app {T} (clock : edge -> T -> bool * T) a b v d v1 d1 t :
  boundary a v d = Some (v1, d1) ->
  mpsse clock (a ++ b) v d t = let (r1, t1) := mpsse clock a v d t in let (r2, t2) := mpsse clock b v1 d1 t1 in (r1 ++ r2, t2).
Proof.
  revert v d t. induction a as [a IH] using list_len_ind. intros v d t.
  destruct a as [|c rest]; [intros [= <- <-]; cbn; by destruct (mpsse clock b v d t)|]. cbn [boundary app mpsse].
  destruct (setting c); [apply IH; simpl; lia|]. destruct (c =? 0x2a).
  { destruct rest as [|n rest]; [done|]. intros Hb. cbn [app]. destruct (clocks clock _ t) as [bs t1].
    rewrite (IH rest) by (done || (simpl; lia)). destruct (mpsse clock rest v d t1) as [r t2]. by destruct (mpsse clock b v1 d1 t2). }
  destruct (_ || _).
  - destruct rest as [|x [|y rest]]; [done..|]. cbn [app]. destruct (setting3 c); [apply IH; simpl; lia|].
    destruct (c =? 0x80); [apply IH; simpl; lia|]. destruct (c =? 0x6b); intros Hb; destruct (clocks clock _ t) as [bs t1].
    + rewrite (IH rest) by (done || (simpl; lia)). destruct (mpsse clock rest _ d t1) as [r t2]. by destruct (mpsse clock b v1 d1 t2).
    + rewrite (IH rest) by (done || (simpl; lia)). destruct (mpsse clock rest _ d t1) as [r t2]. destruct (mpsse clock b v1 d1 t2).
      by destruct (c =? 0x3b).
  - intros Hb. rewrite (IH rest) by (done || (simpl; lia)). destruct (mpsse clock rest v d t) as [r t2]. by destruct (mpsse clock b v1 d1 t2).
Qed.

Definition whole (cmds : list Z) : Prop := forall v d, is_Some (boundary cmds v d).

Lemma whole_app a b : whole a -> whole b -> whole (a ++ b).
Proof. intros Ha Hb v d. destruct (Ha v d) as [[v1 d1] E]. by rewrite (boundary_app _ _ _ _ _ _ E). Qed.

Ltac whole := intros v d; cbn; by eexists.

Lemma swd_loop_whole fuel dir out bits offset cmds reads r :
  swd_loop fuel dir out bits offset cmds reads = Some r -> whole cmds -> whole (fst r).
Proof.
  revert offset cmds reads. induction fuel as [|fuel IH]; intros offset cmds reads; cbn [swd_loop]; destruct (bits <=? offset).
  1, 3: intros [= <-] Hc; cbn [fst]; destruct (_ =? _); repeat apply whole_app; try done; whole.
  { done. }
  destruct (streamBit dir offset) as [h|]; [|done]. cbn [mbind option_bind]. destruct (swdRunWidth dir offset bits h) as [w|]; [|done].
  cbn [mbind option_bind]. destruct h.
  - destruct (swdRunData out offset w) as [x|]; [|done]. cbn [mbind option_bind]. intros E Hc. eapply IH; [exact E|]. apply whole_app; [done|]. whole.
  - intros E Hc. eapply IH; [exact E|]. apply whole_app; [done|]. whole.
Qed.

Lemma jtag_loop_whole fuel tms tdi bits offset cmds reads r :
  jtag_loop fuel tms tdi bits offset cmds reads = Some r -> whole cmds -> whole (fst r).
Proof.
  revert offset cmds reads. induction fuel as [|fuel IH]; intros offset cmds reads; cbn [jtag_loop]; destruct (bits <=? offset).
  1, 3: intros [= <-] Hc; cbn [fst]; apply whole_app; [done|whole].
  { done. }
  destruct (low_loop 8 tms offset bits 0) as [w|]; [|done]. cbn [mbind option_bind]. destruct (0 <? w).
  - destruct (swdRunData tdi offset w) as [x|]; [|done]. cbn [mbind option_bind]. intros E Hc. eapply IH; [exact E|]. apply whole_app; [done|]. whole.
  - destruct (tdi_loop 6 tdi offset bits 1) as [w'|]; [|done]. cbn [mbind option_bind].
    destruct (swdRunData tms offset w') as [x|]; [|done]. cbn [mbind option_bind]. destruct (streamBit tdi offset) as [h|]; [|done].
    cbn [mbind option_bind]. intros E Hc. eapply IH; [exact E|]. apply whole_app; [done|]. destruct h; whole.
Qed.

(** A turn of an encoder adds at most one read. *)
Lemma swd_loop_reads fuel dir out bits offset cmds reads r :
  swd_loop fuel dir out bits offset cmds reads = Some r -> (length (snd r) <= length reads + fuel)%nat.
Proof.
  revert offset cmds reads. induction fuel as [|fuel IH]; intros offset cmds reads; cbn [swd_loop]; destruct (bits <=? offset).
  1, 3: intros [= <-]; cbn [snd]; lia.
  { done. }
  destruct (streamBit dir offset) as [h|]; [|done]. cbn [mbind option_bind]. destruct (swdRunWidth dir offset bits h) as [w|]; [|done].
  cbn [mbind option_bind]. destruct h.
  - destruct (swdRunData out offset w) as [x|]; [|done]. cbn [mbind option_bind]. intros E%IH. lia.
  - intros E%IH. rewrite length_app in E. simpl in E. lia.
Qed.

Lemma jtag_loop_reads fuel tms tdi bits offset cmds reads r :
  jtag_loop fuel tms tdi bits offset cmds reads = Some r -> (length (snd r) <= length reads + fuel)%nat.
Proof.
  revert offset cmds reads. induction fuel as [|fuel IH]; intros offset cmds reads; cbn [jtag_loop]; destruct (bits <=? offset).
  1, 3: intros [= <-]; cbn [snd]; lia.
  { done. }
  destruct (low_loop 8 tms offset bits 0) as [w|]; [|done]. cbn [mbind option_bind]. destruct (0 <? w).
  - destruct (swdRunData tdi offset w) as [x|]; [|done]. cbn [mbind option_bind]. intros E%IH. rewrite length_app in E. simpl in E. lia.
  - destruct (tdi_loop 6 tdi offset bits 1) as [w'|]; [|done]. cbn [mbind option_bind].
    destruct (swdRunData tms offset w') as [x|]; [|done]. cbn [mbind option_bind]. destruct (streamBit tdi offset) as [h|]; [|done].
    cbn [mbind option_bind]. intros E%IH. rewrite length_app in E. simpl in E. lia.
Qed.

(** ** What an encoder promises

    Whole commands, at most one answer a bit, that clock the stream [h] makes of
    the two buffers on a wire behind [pins], and whose answers decode to the
    samples at the bits [P] selects. *)
Definition encodes (encode : list Z -> list Z -> Z -> option (list Z * list swdRead)) (pins : edge -> bool * bool)
    (h : bool * bool -> bool * bool) (P : list Z -> Z -> bool) : Prop :=
  forall first second bits, 0 <= bits -> bits <= 8 * len first -> bits <= 8 * len second ->
  exists commands reads, encode first second bits = Some (commands, reads) /\ whole commands /\ len reads <= bits /\
  forall (T : Type) (wire : bool * bool -> T -> bool * T) v d t,
  exists response samples t' input,
    mpsse (fun e => wire (pins e)) commands v d t = (response, t') /\
    clocks wire (h <$> stream first second 0 bits) t = (samples, t') /\
    len response = len reads /\ decodeSWD response reads bits = Some input /\
    bytes input /\ len input = bytes_for bits /\
    forall j, 0 <= j -> gbit input j = (j <? bits) && P first j && sample_at samples j.

Lemma swd_encodes : encodes swdCommands swd_pins undriven (fun direction j => negb (gbit direction j)).
Proof.
  intros dir out bits Hb Hd Ho. destruct (swd_loop_spec (Z.to_nat bits) dir out bits 0 [] []) as (tail & rs & E & Ex & Hin & Hcov); try lia.
  rewrite Z.sub_0_r in Ex. exists tail, rs. split; [exact E|]. pose proof (swd_loop_reads _ _ _ _ _ _ _ _ E) as L.
  split; [apply (swd_loop_whole _ _ _ _ _ _ _ _ E); intros v d; by eexists|]. split; [unfold len; cbn [snd app length] in L; lia|].
  by apply (decode_stream swd_pins).
Qed.

Lemma jtag_encodes : encodes jtagCommands jtag_pins id (fun _ _ => true).
Proof.
  intros tms tdi bits Hb Hm Hd. destruct (jtag_loop_spec (Z.to_nat bits) tms tdi bits 0 [cmdSetDataLow; 0; jtagPins] [])
    as (tail & rs & E & Ex & Hin & Hcov); try lia. rewrite Z.sub_0_r in Ex.
  exists ([cmdSetDataLow; 0; jtagPins] ++ tail), rs. split; [exact E|]. pose proof (jtag_loop_reads _ _ _ _ _ _ _ _ E) as L.
  split; [apply (jtag_loop_whole _ _ _ _ _ _ _ _ E); intros v d; by eexists|]. split; [unfold len; cbn [snd app length] in L; lia|].
  intros T wire v d t.
  destruct (decode_stream jtag_pins tail rs (id <$> stream tms tdi 0 bits) bits (fun _ => true) Hb Ex Hin) with (T := T) (wire := wire)
    (v := 0) (d := jtagPins) (t := t) as (resp & samples & t' & input & K); [intros j; by rewrite Hcov, andb_true_r|].
  by exists resp, samples, t', input.
Qed.

(** More commands only add answers. *)
Lemma mpsse_prefix {T} (clock : edge -> T -> bool * T) a b v d t : fst (mpsse clock a v d t) `prefix_of` fst (mpsse clock (a ++ b) v d t).
Proof.
  revert v d t. induction a as [a IH] using list_len_ind. intros v d t. destruct a as [|c rest]; [apply prefix_nil|]. cbn [app mpsse].
  assert (forall k v d t x, (length k < length (c :: rest))%nat ->
    (let (r, t) := mpsse clock k v d t in (x ++ r, t)).1 `prefix_of` (let (r, t) := mpsse clock (k ++ b) v d t in (x ++ r, t)).1) as Go.
  { intros k v1 d1 t1 x Hk. pose proof (IH k Hk v1 d1 t1) as P. destruct (mpsse clock k v1 d1 t1), (mpsse clock (k ++ b) v1 d1 t1). cbn in *. by apply prefix_app. }
  destruct (setting c); [apply IH; simpl; lia|]. destruct (c =? 0x2a).
  { destruct rest as [|n rest]; [apply prefix_nil|]. cbn [app]. destruct (clocks clock _ t) as [bs t1]. apply (Go rest v d t1 [_]). simpl. lia. }
  destruct (_ || _); [|apply (Go rest v d t [_; _]); simpl; lia].
  destruct rest as [|x [|y rest]]; [apply prefix_nil|apply prefix_nil|]. cbn [app]. destruct (setting3 c); [apply IH; simpl; lia|].
  destruct (c =? 0x80); [apply IH; simpl; lia|]. destruct (c =? 0x6b); destruct (clocks clock _ t) as [bs t1].
  - apply (Go rest _ d t1 [_]). simpl. lia.
  - destruct (c =? 0x3b); [apply (Go rest _ d t1 [_])|apply (Go rest _ d t1 [])]; simpl; lia.
Qed.
