(* ===== verification/FtdiChannel.v ===== *)
(** * FTDI channels (ftdi/channel.go, bulk.go, session.go, open.go, sync.go, and
    the wire operations of swd.go, jtag.go and clock.go)

    A channel is shared by its caller and the goroutine that receives for it.
    The goroutine is a program counter beside the channel; [yield] runs some
    steps of it before each action of the caller that it could notice, as many
    as the scheduler, a part of the world, says.  Sections under the mutex are
    single actions.  The four Go channels are made and dropped together. *)

From S2P Require Import Prelude Go Bits Usb UsbHost Ftdi.
Local Open Scope Z_scope.

(** ** The USB device, the scheduler, time *)

(** [usb_Wait] is the caller's wait for a transfer; [usb_Poll] is the receiver's,
    [None] while the transfer is pending, otherwise the count, the error and the
    bytes written to the buffer.  [sched_run] is how many steps the receiver
    takes now, [sched_choose] which of several ready cases a select takes.
    [usb_Idle] is a wait for something to change, cut short when the context
    ends; [usb_Settle] waits for a timer or the context. *)
Class FtdiUsb (W : Type) := {
  usb_Identity : W -> DeviceInfo;
  usb_claimInterface : Z -> W -> err * W;
  usb_ControlTransfer : context -> Z -> Z -> Z -> Z -> W -> (Z * err) * W;
  usb_Endpoint : context -> Z -> W -> (Endpoint * err) * W;
  usb_SubmitBulk : context -> Z -> list Z -> W -> (nat * err) * W;
  usb_Wait : context -> nat -> W -> (Z * err) * W;
  usb_Poll : nat -> W -> option (Z * err * list Z) * W;
  usb_AbortBulk : Z -> W -> err * W;
  usb_CloseClaim : W -> err * W;
  usb_claimPending : option (W -> bool);
  usb_CloseDevice : W -> err * W;
  usb_devicePending : option (W -> bool);
  usb_Settle : context -> W -> option ctxError * W;
  usb_Idle : context -> W -> option ctxError * W;
  sched_run : W -> nat * W;
  sched_choose : nat -> W -> nat * W
}.

(** ** State *)

Definition requestTypeOut : Z := 0x40.
Definition requestReset : Z := 0x00.
Definition requestSetLatency : Z := 0x09.
Definition requestSetBitmode : Z := 0x0b.
Definition ftdiVID : Z := 0x0403.
Definition PIDFT2232H : Z := 0x6010.
Definition PIDFT4232H : Z := 0x6011.
Definition PIDFT232H : Z := 0x6014.

Inductive Port := PortUnspecified | PortA | PortB.
#[global] Instance Port_eq_dec : EqDecision Port.
Proof. solve_decision. Defined.

Record Config := mkConfig { cfg_Port : Port; MaxClockHz : Z }.

(** receive, with room for [maxResponsePayload] chunks; receiveErr, with room for
    one error; whether receiveStop and receiveDone are closed. *)
Record Pipes := mkPipes { receive : list (list Z); receiveErr : list error; receiveStop : bool; receiveDone : bool }.

Record Channel := mkChannel {
  active : bool;
  device : bool;
  iface : Z;
  cindex : Z;
  bulkIn : Z;
  bulkOut : Z;
  divisor : Z;
  clockHz : Z;
  packetSize : Z;
  claim : bool;
  pipes : option Pipes;
  receiving : bool;
  receiveRemaining : Z;
  poisonErr : err;
  gone : bool;
  restored : bool
}.

Definition set_active b c := mkChannel b (device c) (iface c) (cindex c) (bulkIn c) (bulkOut c) (divisor c) (clockHz c) (packetSize c) (claim c) (pipes c) (receiving c) (receiveRemaining c) (poisonErr c) (gone c) (restored c).
Definition set_device b c := mkChannel (active c) b (iface c) (cindex c) (bulkIn c) (bulkOut c) (divisor c) (clockHz c) (packetSize c) (claim c) (pipes c) (receiving c) (receiveRemaining c) (poisonErr c) (gone c) (restored c).
Definition set_packetSize n c := mkChannel (active c) (device c) (iface c) (cindex c) (bulkIn c) (bulkOut c) (divisor c) (clockHz c) n (claim c) (pipes c) (receiving c) (receiveRemaining c) (poisonErr c) (gone c) (restored c).
Definition set_claim b c := mkChannel (active c) (device c) (iface c) (cindex c) (bulkIn c) (bulkOut c) (divisor c) (clockHz c) (packetSize c) b (pipes c) (receiving c) (receiveRemaining c) (poisonErr c) (gone c) (restored c).
Definition set_pipes p c := mkChannel (active c) (device c) (iface c) (cindex c) (bulkIn c) (bulkOut c) (divisor c) (clockHz c) (packetSize c) (claim c) p (receiving c) (receiveRemaining c) (poisonErr c) (gone c) (restored c).
Definition set_response (b : bool) n c := mkChannel (active c) (device c) (iface c) (cindex c) (bulkIn c) (bulkOut c) (divisor c) (clockHz c) (packetSize c) (claim c) (pipes c) b n (poisonErr c) (gone c) (restored c).
Definition set_poisonErr e c := mkChannel (active c) (device c) (iface c) (cindex c) (bulkIn c) (bulkOut c) (divisor c) (clockHz c) (packetSize c) (claim c) (pipes c) (receiving c) (receiveRemaining c) e (gone c) (restored c).
Definition set_gone b c := mkChannel (active c) (device c) (iface c) (cindex c) (bulkIn c) (bulkOut c) (divisor c) (clockHz c) (packetSize c) (claim c) (pipes c) (receiving c) (receiveRemaining c) (poisonErr c) b (restored c).
Definition set_restored b c := mkChannel (active c) (device c) (iface c) (cindex c) (bulkIn c) (bulkOut c) (divisor c) (clockHz c) (packetSize c) (claim c) (pipes c) (receiving c) (receiveRemaining c) (poisonErr c) (gone c) b.

Definition on_pipes (f : Pipes -> Pipes) (c : Channel) : Channel := set_pipes (f <$> pipes c) c.

Record usbRead := mkUsbRead { rd_buffer : list Z; rd_transfer : nat }.

(** Where the receiver is, and what it holds there. *)
Inductive Receiver :=
| NoReceiver
| AtWait (reads : list usbRead)
| AtFailed (e : error)
| AtCompleted (raw : list Z) (buffer : list Z) (reads : list usbRead)
| AtSubmit (raw : list Z) (buffer : list Z) (reads : list usbRead)
| AtLoss (raw : list Z) (replacement : usbRead + error) (reads : list usbRead)
| AtDeliver (raw : list Z) (reads : list usbRead)
| AtPoison (e : error)
| AtReport (e : error)
| AtClose
| Exited.

Section Channel.
Context {W : Type} `{Env W} `{FtdiUsb W}.

Record St := mkSt { ch : Channel; rx : Receiver; wd : W }.

Abbreviation M := (GoM St).

Definition world {A} (f : W -> A * W) : M A := fun s => let (a, w) := f (wd s) in Done (a, mkSt (ch s) (rx s) w).
Definition cget {A} (f : Channel -> A) : M A := gets (fun s => f (ch s)).
Definition cmod (f : Channel -> Channel) : M unit := modify (fun s => mkSt (f (ch s)) (rx s) (wd s)).
Definition goto (r : Receiver) : M unit := modify (fun s => mkSt (ch s) r (wd s)).

(** One of [n] ready cases. *)
Definition select (n : nat) : M nat := i ← world (sched_choose n); mret (i mod n)%nat.

(** ** Shared failures *)

Definition first_poison (e : error) (c : Channel) : Channel := match poisonErr c with None => set_poisonErr (Some e) c | Some _ => c end.
Definition note_loss (e : err) (c : Channel) : Channel := if errors_Is e usb_ErrDeviceGone then set_gone true c else c.

Definition restorationFailure_of (c : Channel) : err :=
  let e := if gone c then Some (Sentinel usb_ErrDeviceGone) else None in
  match poisonErr c with
  | Some p => errors_Join [e; Some p; Some (Sentinel ftdi_ErrChannelPoisoned)]
  | None => e
  end.

(** ** The receiver *)

(** The buffer of a read after its transfer wrote to it. *)
Definition written (buffer data : list Z) : list Z := take (length buffer) (data ++ drop (length data) buffer).

Definition stopped_of (c : Channel) : bool := match pipes c with Some p => receiveStop p | None => false end.

Definition rx_wait (reads : list usbRead) : M unit :=
  match reads with
  | [] => panic
  | read :: reads' =>
      r ← world (usb_Poll (rd_transfer read));
      match r with
      | None => mret tt
      | Some (_, Some e, _) => goto (AtFailed e)
      | Some (count, None, data) =>
          let buffer := written (rd_buffer read) data in
          if (count <? 0) || (len buffer <? count) then goto (AtPoison (New "ftdi: invalid bulk-read count %d for %d-byte buffer"))
          else goto (AtCompleted (take (Z.to_nat count) buffer) buffer reads')
      end
  end.

Definition rx_submit (raw buffer : list Z) (reads : list usbRead) : M unit :=
  ep ← cget bulkIn;
  '(h, e) ← world (usb_SubmitBulk Background ep buffer);
  goto (AtLoss raw (match e with Some e => inr e | None => inl (mkUsbRead buffer h) end) reads).

(** The section of [deliverUSBRead] under the mutex; [None] is its default case. *)
Definition rx_send (payload : list Z) (reads : list usbRead) : M unit :=
  c ← cget id;
  if negb (receiving c) then goto (AtPoison (New "ftdi: received payload without a pending response"))
  else if receiveRemaining c <? len payload then goto (AtPoison (New "ftdi: received %d surplus payload bytes"))
  else
    cmod (set_response true (receiveRemaining c - len payload));;
    let room := match pipes c with Some p => len (receive p) <? maxResponsePayload | None => false end in
    let ready := (if room then [true] else []) ++ (if stopped_of c then [false] else []) in
    match ready with
    | [] => goto (AtPoison (New "ftdi: response delivery queue is full"))
    | _ =>
        i ← select (length ready);
        send ← lift (ready !! i);
        if (send : bool)
        then cmod (on_pipes (fun p => mkPipes (receive p ++ [payload]) (receiveErr p) (receiveStop p) (receiveDone p)));; goto (AtWait reads)
        else goto AtClose
    end.

Definition rx_deliver (raw : list Z) (reads : list usbRead) : M unit :=
  size ← cget packetSize;
  '(payload, e) ← lift (decodeCompletion raw size);
  match e with
  | Some e => goto (AtPoison e)
  | None => if len payload =? 0 then goto (AtWait reads) else rx_send payload reads
  end.

(** Blocked while receiveErr is full and receiveStop open. *)
Definition rx_report (e : error) : M unit :=
  c ← cget id;
  let room := match pipes c with Some p => bool_decide (receiveErr p = []) | None => false end in
  let ready := (if room then [true] else []) ++ (if stopped_of c then [false] else []) in
  match ready with
  | [] => mret tt
  | _ =>
      i ← select (length ready);
      send ← lift (ready !! i);
      (if (send : bool) then cmod (on_pipes (fun p => mkPipes (receive p) [e] (receiveStop p) (receiveDone p))) else mret tt);;
      goto AtClose
  end.

(** One action of the goroutine: the loop of [receiveUSB] with [rearmUSBRead],
    [deliverUSBRead] and [reportReceiveError]. *)
Definition receiveUSB_step : M unit := fun s =>
  (match rx s with
  | NoReceiver | Exited => mret tt
  | AtWait reads => rx_wait reads
  | AtFailed e => stopped ← cget stopped_of; goto (if (stopped : bool) then AtClose else AtPoison e)
  | AtCompleted raw buffer reads => stopped ← cget stopped_of; goto (if (stopped : bool) then AtClose else AtSubmit raw buffer reads)
  | AtSubmit raw buffer reads => rx_submit raw buffer reads
  | AtLoss raw (inl read) reads => goto (AtDeliver raw (reads ++ [read]))
  | AtLoss raw (inr e) reads => cmod (note_loss (Some e));; goto (AtPoison e)
  | AtDeliver raw reads => rx_deliver raw reads
  | AtPoison e => cmod (first_poison e);; goto (AtReport e)
  | AtReport e => rx_report e
  | AtClose => cmod (on_pipes (fun p => mkPipes (receive p) (receiveErr p) (receiveStop p) true));; goto Exited
  end) s.

Fixpoint receiver_runs (n : nat) : M unit :=
  match n with
  | O => mret tt
  | S n => receiveUSB_step;; receiver_runs n
  end.

Definition yield : M unit := n ← world sched_run; receiver_runs n.

(** Actions of the caller. *)
Definition host {A} (f : W -> A * W) : M A := yield;; world f.
Definition locked {A} (f : Channel -> A) (g : Channel -> Channel) : M A := yield;; a ← cget f; cmod g;; mret a.

Definition ctxErr (ctx : context) : M err := e ← host (ctx_Err ctx); mret (option_map (fun e => Sentinel (context_Err e)) e).

Definition recordLoss (e : err) : M unit := if errors_Is e usb_ErrDeviceGone then locked (fun _ => tt) (set_gone true) else mret tt.
Definition restorationFailure : M err := locked restorationFailure_of id.

Definition poison (e : error) : M err :=
  locked (fun _ => tt) (first_poison e);;
  first ← locked poisonErr id;
  mret (errors_Join [first; Some (Sentinel ftdi_ErrChannelPoisoned)]).

Definition transportReady : M err :=
  d ← cget device;
  if negb d then mret (Some (New "ftdi: nil channel")) else restorationFailure.

(** ** Bulk transfers (channel.go, bulk.go) *)

(** Until the receiver closes receiveDone. *)
Fixpoint finishReceive (fuel : nat) : M unit :=
  yield;;
  p ← cget pipes;
  match p with
  | Some p =>
      if receiveDone p then cmod (set_pipes None)
      else match fuel with
           | O => out_of_fuel
           | S fuel => _ ← world (usb_Idle Background); finishReceive fuel
           end
  | None => out_of_fuel
  end.

Definition control (ctx : context) (request value : Z) : M (Z * err) :=
  i ← cget cindex;
  '(count, e) ← host (usb_ControlTransfer ctx requestTypeOut request value i);
  recordLoss e;;
  mret (count, e).

Definition bulkWrite (ctx : context) (data : list Z) : M (Z * err) :=
  c ← cget id;
  if negb (claim c) || negb (bool_decide (is_Some (pipes c))) then mret (0, Some (New "ftdi: USB transfers are not open"))
  else
    '(h, e) ← host (usb_SubmitBulk ctx (bulkOut c) data);
    match e with
    | Some e => mret (0, Some e)
    | None =>
        '(count, e) ← host (usb_Wait ctx h);
        match e with
        | None => mret (count, None)
        | Some e =>
            ce ← ctxErr ctx;
            match ce with
            | None => mret (count, Some e)
            | Some _ =>
                abortErr ← host (usb_AbortBulk (bulkOut c));
                match abortErr with
                | Some a => ce ← ctxErr ctx; mret (0, errors_Join [ce; Some a])
                | None =>
                    '(_, completionErr) ← host (usb_Wait Background h);
                    ce ← ctxErr ctx;
                    mret (0, errors_Join [ce; completionErr])
                end
            end
        end
    end.

(** [rest] is what remains of the data; every turn takes at least one byte. *)
Fixpoint write_loop (turns : nat) (ctx : context) (rest : list Z) : M err :=
  match rest, turns with
  | [], _ => mret None
  | _, O => panic
  | _, S turns =>
      '(count, e) ← bulkWrite ctx rest;
      if (count <? 0) || (len rest <? count) then poison (New "ftdi: invalid bulk-write count %d for %d bytes")
      else match e with
      | Some e => poison e
      | None =>
          if count =? 0 then poison (Sentinel io_ErrNoProgress)
          else
            e ← transportReady;
            match e with
            | Some e => mret (Some e)
            | None => write_loop turns ctx (drop (Z.to_nat count) rest)
            end
      end
  end.

Definition writeExact (ctx : context) (data : list Z) : M err :=
  e ← transportReady;
  match e with
  | Some e => mret (Some e)
  | None =>
      e ← ctxErr ctx;
      match e with
      | Some e => mret (Some e)
      | None => write_loop (length data) ctx data
      end
  end.

Inductive event := Chunk | Failure | Ended (e : ctxError).

(** The ready cases of the select of [readPayload]. *)
Definition ready_events (p : option Pipes) (ended : option ctxError) : list event :=
  match p with
  | Some p => (if bool_decide (receive p = []) then [] else [Chunk]) ++ (if bool_decide (receiveErr p = []) then [] else [Failure])
  | None => []
  end ++ match ended with Some e => [Ended e] | None => [] end.

(** The select blocks while nothing is ready. *)
Fixpoint await (fuel : nat) (ctx : context) : M event :=
  ended ← host (usb_Idle ctx);
  p ← cget pipes;
  match ready_events p ended with
  | [] => match fuel with O => out_of_fuel | S fuel => await fuel ctx end
  | ready => i ← select (length ready); lift (ready !! i)
  end.

Definition take_chunk : M (list Z) :=
  p ← cget pipes;
  match p with
  | Some (mkPipes (chunk :: rest) errs stop done) => cmod (set_pipes (Some (mkPipes rest errs stop done)));; mret chunk
  | _ => panic
  end.

Definition take_error : M error :=
  p ← cget pipes;
  match p with
  | Some (mkPipes chunks (e :: errs) stop done) => cmod (set_pipes (Some (mkPipes chunks errs stop done)));; mret e
  | _ => panic
  end.

(** Chunks are not empty, so [turns] bytes still to come take no more turns. *)
Fixpoint read_loop (turns fuel : nat) (ctx : context) (size : Z) (payload : list Z) : M (list Z * err) :=
  if size <=? len payload then mret (payload, None)
  else match turns with
  | O => panic
  | S turns =>
      ev ← await fuel ctx;
      match ev with
      | Failure => e ← take_error; e ← poison e; mret ([], e)
      | Ended e => e ← poison (Sentinel (context_Err e)); mret ([], e)
      | Chunk =>
          chunk ← take_chunk;
          if size - len payload <? len chunk
          then e ← poison (New "ftdi: received %d surplus payload bytes"); mret ([], e)
          else read_loop turns fuel ctx size (payload ++ chunk)
      end
  end.

Definition readPayload (fuel : nat) (ctx : context) (size : Z) : M (list Z * err) :=
  if size <? 0 then mret ([], Some (New "ftdi: negative payload size %d"))
  else
    e ← transportReady;
    match e with
    | Some e => mret ([], Some e)
    | None =>
        e ← ctxErr ctx;
        match e with
        | Some e => e ← poison e; mret ([], e)
        | None => read_loop (Z.to_nat size) fuel ctx size []
        end
    end.

(** The select of [beginResponse], under the mutex. *)
Definition begin_events (p : option Pipes) : list event :=
  match p with
  | Some p => (if bool_decide (receiveErr p = []) then [] else [Failure]) ++ (if bool_decide (receive p = []) then [] else [Chunk])
  | None => []
  end.

Definition beginResponse (size : Z) : M err :=
  yield;;
  p ← cget pipes;
  match begin_events p with
  | [] => cmod (set_response true size);; mret None
  | ready =>
      i ← select (length ready);
      ev ← lift (ready !! i);
      match ev with
      | Failure => e ← take_error; mret (Some e)
      | _ => _ ← take_chunk; mret (Some (New "ftdi: received %d stale payload bytes"))
      end
  end.

Definition endResponse : M unit := locked (fun _ => tt) (fun c => set_response false (receiveRemaining c) c).

Definition exchangePayload (fuel : nat) (ctx : context) (output : list Z) (size : Z) : M (list Z * err) :=
  if (size <? 0) || (maxResponsePayload <? size) then mret ([], Some (New "ftdi: invalid payload size %d"))
  else
    e ← ctxErr ctx;
    match e with
    | Some e => mret ([], Some e)
    | None =>
        e ← beginResponse size;
        match e with
        | Some e => e ← poison e; mret ([], e)
        | None =>
            e ← writeExact ctx output;
            r ← (match e with Some e => mret ([], Some e) | None => readPayload fuel ctx size end);
            endResponse;;
            mret r
        end
    end.

Definition completeMPSSE (fuel : nat) (ctx : context) (commands : list Z) (size : Z) : M (list Z * err) :=
  '(response, e) ← exchangePayload fuel ctx (commands ++ [invalidCommand; cmdSendImmediate]) (size + 2);
  match e with
  | Some e => mret ([], Some e)
  | None =>
      a ← lift (index response size);
      b ← (if negb (a =? 0xfa) then mret 0 else lift (index response (size + 1)));
      if negb (a =? 0xfa) || negb (b =? invalidCommand)
      then e ← poison (New "ftdi: invalid MPSSE completion marker %x"); mret ([], e)
      else mret (take (Z.to_nat size) response, None)
  end.

(** ** Wire streams (swd.go, jtag.go) *)

Definition MaxTransferBits (c : Channel) : Z := if active c then maxJTAGTransferBits else 0.
Definition ClockHz (c : Channel) : Z := if active c then clockHz c else 0.

Definition wireReady (ctx : context) : M err :=
  if ctx_nil ctx then mret (Some (New "ftdi: nil context"))
  else
    e ← ctxErr ctx;
    match e with
    | Some e => mret (Some e)
    | None =>
        a ← cget active;
        if negb a then mret (Some (New "ftdi: inactive channel")) else transportReady
    end.

Definition wireEncoder : Type := list Z -> list Z -> Z -> option (list Z * list swdRead).

Definition clockStream (fuel : nat) (ctx : context) (first second : list Z) (bits : Z) (encode : wireEncoder) : M (list Z * err) :=
  e ← wireReady ctx;
  match e with
  | Some e => mret ([], Some e)
  | None =>
      if (bits <? 0) || (maxJTAGTransferBits <? bits) || (len first <? (bits + 7) / 8) || (len second <? (bits + 7) / 8)
      then mret ([], Some (New "ftdi: invalid %d-bit %s stream"))
      else if bits =? 0 then mret ([], None)
      else
        '(commands, reads) ← lift (encode first second bits);
        '(response, e) ← completeMPSSE fuel ctx commands (len reads);
        match e with
        | Some e => mret ([], Some e)
        | None => input ← lift (decodeSWD response reads bits); mret (input, None)
        end
  end.

Definition SWDIO (fuel : nat) (ctx : context) (direction output : list Z) (bits : Z) : M (list Z * err) :=
  clockStream fuel ctx direction output bits swdCommands.
Definition JTAGIO (fuel : nat) (ctx : context) (tms tdi : list Z) (bits : Z) : M (list Z * err) :=
  clockStream fuel ctx tms tdi bits jtagCommands.

(** ** Claiming and releasing the interface (channel.go) *)

Definition claimUSB : M err :=
  i ← cget iface;
  e ← host (usb_claimInterface i);
  recordLoss e;;
  match e with
  | Some e => mret (Some e)
  | None => cmod (set_claim true);; mret None
  end.

Definition submitUSBRead (ctx : context) (buffer : list Z) : M (usbRead * err) :=
  ep ← cget bulkIn;
  '(h, e) ← host (usb_SubmitBulk ctx ep buffer);
  recordLoss e;;
  match e with
  | Some e => mret (mkUsbRead [] 0, Some e)
  | None => mret (mkUsbRead buffer h, None)
  end.

Fixpoint submit_loop (depth : nat) (ctx : context) (reads : list usbRead) : M (list usbRead * err) :=
  match depth with
  | O => mret (reads, None)
  | S depth =>
      size ← cget packetSize;
      '(read, e) ← submitUSBRead ctx (make_bytes size);
      match e with
      | Some e => mret (reads, Some e)
      | None => submit_loop depth ctx (reads ++ [read])
      end
  end.

Definition openUSBTransfers (ctx : context) : M err :=
  c ← cget id;
  '(endpoint, e) ← host (usb_Endpoint ctx (bulkIn c));
  recordLoss e;;
  match e with
  | Some e => mret (Some e)
  | None =>
      if negb (bool_decide (ep_Type endpoint = TransferBulk)) || (MaxPacketSize endpoint <=? packetStatusSize)
      then mret (Some (New "ftdi: invalid bulk IN endpoint %#02x"))
      else
        cmod (set_packetSize (MaxPacketSize endpoint));;
        cmod (set_pipes (Some (mkPipes [] [] false false)));;
        '(reads, e) ← submit_loop (Z.to_nat (receiveDepth maxResponsePayload (MaxPacketSize endpoint))) ctx [];
        match e with
        | Some e =>
            abortErr ← host (usb_AbortBulk (bulkIn c));
            cmod (set_pipes None);;
            mret (errors_Join [Some e; abortErr])
        | None => goto (AtWait reads);; mret None
        end
  end.

Definition claim_pending : M bool := yield;; gets (fun s => cleanupPending usb_claimPending (wd s)).
Definition device_pending : M bool := yield;; gets (fun s => cleanupPending usb_devicePending (wd s)).

(** The claim is closed and the receiver waited for if it still runs. *)
Definition closeClaim (fuel : nat) (result : err) : M err :=
  e ← host usb_CloseClaim;
  recordLoss e;;
  let result := errors_Join [result; e] in
  p ← (if is_nil e then mret false else claim_pending);
  if (p : bool) then mret result
  else
    c ← cget pipes;
    (if bool_decide (is_Some c) then finishReceive fuel else mret tt);;
    cmod (set_claim false);;
    mret result.

Definition releaseUSB (fuel : nat) : M err :=
  c ← cget id;
  if negb (claim c) then mret None
  else if negb (bool_decide (is_Some (pipes c))) then closeClaim fuel None
  else
    yield;;
    cmod (on_pipes (fun p => mkPipes (receive p) (receiveErr p) true (receiveDone p)));;
    result ← host (usb_AbortBulk (bulkIn c));
    recordLoss result;;
    if negb (is_nil result) && negb (errors_Is result usb_ErrDeviceGone) then mret result
    else
      (if is_nil result then finishReceive fuel else mret tt);;
      closeClaim fuel result.

(** ** Sessions (session.go) *)

Record controlStep := mkStep { cs_request : Z; cs_value : Z }.

Definition runControl (ctx : context) (step : controlStep) : M err :=
  '(_, e) ← control ctx (cs_request step) (cs_value step);
  match e with
  | Some e => mret (Some (Errorf "ftdi: request %#02x value %#04x: %w" [e]))
  | None => mret None
  end.

Definition enterSteps : list controlStep :=
  [mkStep requestReset 0; mkStep requestSetBitmode 0; mkStep requestReset 1; mkStep requestReset 2;
   mkStep requestSetLatency 2; mkStep requestSetBitmode 0x0200].
Definition restoreSteps : list controlStep :=
  [mkStep requestSetBitmode 0; mkStep requestSetLatency 16; mkStep requestReset 1; mkStep requestReset 2].

(** Up to the first failure. *)
Fixpoint control_steps (ctx : context) (steps : list controlStep) : M err :=
  match steps with
  | [] => mret None
  | step :: steps =>
      e ← runControl ctx step;
      match e with
      | Some e => mret (Some e)
      | None => control_steps ctx steps
      end
  end.

Definition settleMPSSE (ctx : context) : M err := e ← host (usb_Settle ctx); mret (option_map (fun e => Sentinel (context_Err e)) e).

Definition enterMPSSE (ctx : context) : M err :=
  e ← claimUSB;
  match e with
  | Some e => mret (Some (Errorf "ftdi: claim USB interface: %w" [e]))
  | None =>
      e ← control_steps ctx enterSteps;
      match e with
      | Some e => mret (Some e)
      | None => settleMPSSE ctx
      end
  end.

Definition abandoned (e : err) (reason : error) : err :=
  errors_Join [e; Some (Errorf "ftdi: abandon adapter restoration: %w" [reason])].

Definition restoreForClose : M err :=
  c ← cget id;
  if restored c || negb (claim c) then mret None
  else
    e ← host (usb_AbortBulk (bulkOut c));
    recordLoss e;;
    reason ← restorationFailure;
    match reason with
    | Some reason => cmod (set_restored true);; mret (abandoned e reason)
    | None =>
        match e with
        | Some e => mret (Some (Errorf "ftdi: drain bulk OUT before close: %w" [e]))
        | None =>
            e ← control_steps (WithTimeout Background 1_000_000_000) restoreSteps;
            match e with
            | Some e =>
                reason ← restorationFailure;
                match reason with
                | Some reason => cmod (set_restored true);; mret (abandoned (Some e) reason)
                | None => mret (Some e)
                end
            | None => cmod (set_restored true);; mret None
            end
        end
    end.

Definition closeDevice (result : err) : M err :=
  e ← host usb_CloseDevice;
  let result := errors_Join [result; e] in
  p ← (if is_nil e then mret false else device_pending);
  (if (p : bool) then mret tt else cmod (set_device false));;
  mret result.

Definition Close (fuel : nat) : M err :=
  d ← cget device;
  if negb d then mret None
  else
    cmod (set_active false);;
    result ← restoreForClose;
    r ← cget restored;
    if negb (is_nil result) && negb r then mret result
    else
      e ← releaseUSB fuel;
      match e with
      | Some e =>
          let result := errors_Join [result; Some e] in
          held ← cget claim;
          if (held : bool) then mret result else closeDevice result
      | None => closeDevice result
      end.

Definition RestorationPossible : M bool :=
  d ← cget device;
  if negb d then mret false else e ← restorationFailure; mret (is_nil e).

(** Without I/O. *)
Definition CleanupPending (s : St) : bool :=
  (negb (restored (ch s)) && claim (ch s)) || (claim (ch s) && cleanupPending usb_claimPending (wd s)) ||
  (device (ch s) && cleanupPending usb_devicePending (wd s)).

(** ** Opening (open.go, sync.go, clock.go) *)

Definition synchronize (fuel : nat) (ctx : context) : M err :=
  '(payload, e) ← exchangePayload fuel ctx [invalidCommand; cmdSendImmediate] 2;
  match e with
  | Some e => mret (Some e)
  | None =>
      a ← lift (index payload 0);
      b ← (if negb (a =? 0xfa) then mret 0 else lift (index payload 1));
      if negb (a =? 0xfa) || negb (b =? invalidCommand) then mret (Some (New "ftdi: unexpected MPSSE synchronization %x"))
      else mret None
  end.

Definition configuration (d : Z) : list Z :=
  [cmdDisableDivBy5; cmdDisableAdaptive; cmdDisable3Phase; cmdSetClockDiv; uint8 d; uint8 (Z.shiftr d 8); cmdDisableLoop;
   cmdSetDataLow; 0; 0; cmdSetDataHigh; 0; 0].

Definition configure (ctx : context) : M err := d ← cget divisor; writeExact ctx (configuration d).

Definition prepare_body (fuel : nat) (ctx : context) : M err :=
  e ← enterMPSSE ctx;
  match e with Some e => mret (Some e) | None =>
  e ← openUSBTransfers ctx;
  match e with Some e => mret (Some e) | None =>
  e ← synchronize fuel ctx;
  match e with Some e => mret (Some e) | None =>
  e ← configure ctx;
  match e with Some e => mret (Some e) | None =>
  e ← synchronize fuel ctx;
  match e with
  | Some e => mret (Some (Errorf "ftdi: verify H-part configuration: %w" [e]))
  | None => cmod (set_active true);; mret None
  end end end end end.

Definition prepareChannel (fuel : nat) (ctx : context) : M err :=
  e ← prepare_body fuel ctx;
  match e with
  | Some e => ce ← Close fuel; mret (errors_Join [Some e; ce])
  | None => mret None
  end.

Definition validateSelection (identity : DeviceInfo) (port : Port) : err :=
  if negb (VID identity =? ftdiVID) then Some (New "ftdi: unsupported USB vendor %#04x")
  else if PID identity =? PIDFT232H then
    (if bool_decide (port = PortA) then None else Some (New "ftdi: FT232H supports only port A"))
  else if (PID identity =? PIDFT2232H) || (PID identity =? PIDFT4232H) then None
  else Some (New "ftdi: unsupported USB product %#04x").

(** The channel [newChannel] makes. *)
Definition fresh (port : Port) (d : Z) : Channel :=
  let i := match port with PortB => 1 | _ => 0 end in
  mkChannel false true i (i + 1) (0x81 + 2 * i) (0x02 + 2 * i) d (dividedClock d) 0 false None false 0 None false false.

Definition newChannel (dev : bool) (config : Config) (w : W) : Channel + error :=
  if negb dev then inr (New "ftdi: nil USB device")
  else if bool_decide (cfg_Port config = PortUnspecified) then inr (New "ftdi: port A or B is required")
  else match validateSelection (usb_Identity w) (cfg_Port config) with
  | Some e => inr e
  | None =>
      match clockDivisor (MaxClockHz config) with
      | (_, Some e) => inr e
      | (d, None) => inl (fresh (cfg_Port config) d)
      end
  end.

(** The boolean is whether a channel is returned. *)
Definition openChannel (fuel : nat) (ctx : context) (dev : bool) (config : Config) : M (bool * err) :=
  if ctx_nil ctx then mret (false, Some (New "ftdi: nil context"))
  else
    e ← world (ctx_Err ctx);
    match e with
    | Some e => mret (false, Some (Sentinel (context_Err e)))
    | None =>
        r ← gets (fun s => newChannel dev config (wd s));
        match r with
        | inr e => mret (false, Some e)
        | inl c =>
            modify (fun s => mkSt c NoReceiver (wd s));;
            e ← prepareChannel fuel ctx;
            mret (true, e)
        end
    end.

Definition Open (fuel : nat) (ctx : context) (dev : bool) (config : Config) : M (bool * err) :=
  if negb dev then mret (false, Some (New "ftdi: nil USB device")) else openChannel fuel ctx dev config.
End Channel.

(** ** Selection (probe.go, candidates.go) *)

Definition supportedDevice (info : DeviceInfo) : bool :=
  (VID info =? ftdiVID) && ((PID info =? PIDFT232H) || (PID info =? PIDFT2232H) || (PID info =? PIDFT4232H)).

Fixpoint Candidates (devices : list DeviceInfo) : list (DeviceInfo * Port) :=
  match devices with
  | [] => []
  | d :: devices =>
      (if negb (supportedDevice d) then []
       else (d, PortA) :: if negb (PID d =? PIDFT232H) then [(d, PortB)] else []) ++ Candidates devices
  end.
