(* ===== verification/FtdiChannelFacts.v ===== *)
(** * What an FTDI channel and its receiver do together *)

From S2P Require Import Prelude Go Bits Usb UsbHost Mpsse Ftdi FtdiFacts FtdiChannel.
Local Open Scope Z_scope.

(** ** Completions always decode *)

Lemma completion_total packetSize buffer fuel position payload :
  2 < packetSize -> 0 <= position -> (Z.to_nat (len buffer - position) <= fuel)%nat ->
  exists r, completion_loop fuel buffer packetSize position payload = Some r.
Proof.
  intros Hp. revert position payload. induction fuel as [|fuel IH]; intros position payload H0 Hf; cbn [completion_loop];
    destruct (Z.leb_spec (len buffer) position); [by eexists|lia|by eexists|].
  unfold packetStatusSize. destruct (Z.ltb_spec (Z.min packetSize (len buffer - position)) 2); [by eexists|].
  apply IH; lia.
Qed.

Lemma decodeCompletion_total packetSize buffer : 2 < packetSize -> exists p e, decodeCompletion buffer packetSize = Some (p, e).
Proof.
  intros Hp. unfold decodeCompletion. destruct (_ <? _); [by do 2 eexists|].
  destruct (completion_total packetSize buffer (length buffer) 0 [] Hp) as [[p e] E]; [done|unfold len; lia|]. by exists p, e.
Qed.

(** ** Actions of the receiver *)

Section Steps.
Context {W : Type} `{Env W} `{FtdiUsb W}.
Implicit Types (s : St (W := W)) (c : Channel) (w : W).

Definition room c : bool := match pipes c with Some p => len (receive p) <? maxResponsePayload | None => false end.
Definition error_room c : bool := match pipes c with Some p => bool_decide (receiveErr p = []) | None => false end.
Definition queued (payload : list Z) : Channel -> Channel :=
  on_pipes (fun p => mkPipes (receive p ++ [payload]) (receiveErr p) (receiveStop p) (receiveDone p)).
Definition reported (e : error) : Channel -> Channel := on_pipes (fun p => mkPipes (receive p) [e] (receiveStop p) (receiveDone p)).
Definition closed : Channel -> Channel := on_pipes (fun p => mkPipes (receive p) (receiveErr p) (receiveStop p) true).
Definition taken (n : Z) c : Channel := set_response true (receiveRemaining c - n) c.

(** Why a payload is not delivered. *)
Definition undeliverable (payload : list Z) c : Prop :=
  receiving c = false \/ receiveRemaining c < len payload \/ (room c = false /\ stopped_of c = false).

Inductive rstep : St (W := W) -> St (W := W) -> Prop :=
| rs_none c w : rstep (mkSt c NoReceiver w) (mkSt c NoReceiver w)
| rs_exited c w : rstep (mkSt c Exited w) (mkSt c Exited w)
| rs_pending c w read reads w' : usb_Poll (rd_transfer read) w = (None, w') ->
    rstep (mkSt c (AtWait (read :: reads)) w) (mkSt c (AtWait (read :: reads)) w')
| rs_error c w read reads count e data w' : usb_Poll (rd_transfer read) w = (Some (count, Some e, data), w') ->
    rstep (mkSt c (AtWait (read :: reads)) w) (mkSt c (AtFailed e) w')
| rs_count c w read reads count data e w' : usb_Poll (rd_transfer read) w = (Some (count, None, data), w') ->
    count < 0 \/ len (written (rd_buffer read) data) < count ->
    rstep (mkSt c (AtWait (read :: reads)) w) (mkSt c (AtPoison e) w')
| rs_data c w read reads count data w' : usb_Poll (rd_transfer read) w = (Some (count, None, data), w') ->
    0 <= count <= len (written (rd_buffer read) data) ->
    rstep (mkSt c (AtWait (read :: reads)) w)
      (mkSt c (AtCompleted (take (Z.to_nat count) (written (rd_buffer read) data)) (written (rd_buffer read) data) reads) w')
| rs_failed c w e : rstep (mkSt c (AtFailed e) w) (mkSt c (if stopped_of c then AtClose else AtPoison e) w)
| rs_completed c w raw buffer reads :
    rstep (mkSt c (AtCompleted raw buffer reads) w) (mkSt c (if stopped_of c then AtClose else AtSubmit raw buffer reads) w)
| rs_submit c w raw buffer reads h e w' : usb_SubmitBulk Background (bulkIn c) buffer w = ((h, e), w') ->
    rstep (mkSt c (AtSubmit raw buffer reads) w)
      (mkSt c (AtLoss raw (match e with Some e => inr e | None => inl (mkUsbRead buffer h) end) reads) w')
| rs_armed c w raw read reads : rstep (mkSt c (AtLoss raw (inl read) reads) w) (mkSt c (AtDeliver raw (reads ++ [read])) w)
| rs_loss c w raw e reads : rstep (mkSt c (AtLoss raw (inr e) reads) w) (mkSt (note_loss (Some e) c) (AtPoison e) w)
| rs_broken c w raw reads p e : decodeCompletion raw (packetSize c) = Some (p, Some e) ->
    rstep (mkSt c (AtDeliver raw reads) w) (mkSt c (AtPoison e) w)
| rs_empty c w raw reads : decodeCompletion raw (packetSize c) = Some ([], None) ->
    rstep (mkSt c (AtDeliver raw reads) w) (mkSt c (AtWait reads) w)
| rs_refused c w raw reads p e n : decodeCompletion raw (packetSize c) = Some (p, None) -> p <> [] -> undeliverable p c ->
    rstep (mkSt c (AtDeliver raw reads) w) (mkSt (set_response (receiving c) n c) (AtPoison e) w)
| rs_send c w raw reads p w' : decodeCompletion raw (packetSize c) = Some (p, None) -> p <> [] ->
    receiving c = true -> len p <= receiveRemaining c -> room c = true ->
    (exists n i, sched_choose n w = (i, w')) ->
    rstep (mkSt c (AtDeliver raw reads) w) (mkSt (queued p (taken (len p) c)) (AtWait reads) w')
| rs_quit c w raw reads p w' : decodeCompletion raw (packetSize c) = Some (p, None) -> p <> [] ->
    receiving c = true -> stopped_of c = true -> (exists n i, sched_choose n w = (i, w')) ->
    rstep (mkSt c (AtDeliver raw reads) w) (mkSt (taken (len p) c) AtClose w')
| rs_poison c w e : rstep (mkSt c (AtPoison e) w) (mkSt (first_poison e c) (AtReport e) w)
| rs_blocked c w e : error_room c = false -> stopped_of c = false -> rstep (mkSt c (AtReport e) w) (mkSt c (AtReport e) w)
| rs_report c w e w' : error_room c = true -> (exists n i, sched_choose n w = (i, w')) ->
    rstep (mkSt c (AtReport e) w) (mkSt (reported e c) AtClose w')
| rs_unreported c w e w' : stopped_of c = true -> (exists n i, sched_choose n w = (i, w')) ->
    rstep (mkSt c (AtReport e) w) (mkSt c AtClose w')
| rs_close c w : rstep (mkSt c AtClose w) (mkSt (closed c) Exited w).

(** The receiver holds a completion, or waits for one. *)
Definition armed (r : Receiver) : Prop :=
  match r with AtWait _ | AtCompleted _ _ _ | AtSubmit _ _ _ | AtLoss _ _ _ | AtDeliver _ _ => True | _ => False end.

(** It never runs out of reads, and packets have room for data. *)
Definition rx_ok c (r : Receiver) : Prop :=
  match r with AtWait reads | AtDeliver _ reads => reads <> [] | _ => True end /\ (armed r -> 2 < packetSize c).

Lemma select_wp n Q s : n <> O -> (forall i j w', sched_choose n (wd s) = (j, w') -> (i < n)%nat -> Q i (mkSt (ch s) (rx s) w')) -> wp (select n) Q s.
Proof.
  intros Hn HQ. unfold wp, select, mbind, GoM_bind, world. destruct (sched_choose n (wd s)) as [j w]. eapply HQ; [done|].
  by apply Nat.mod_upper_bound.
Qed.

Lemma ftdi_ready_wp {A} (l : list A) Q s :
  l <> [] -> (forall x n i w', x ∈ l -> sched_choose n (wd s) = (i, w') -> Q x (mkSt (ch s) (rx s) w')) ->
  wp (i ← select (length l); lift (l !! i)) Q s.
Proof.
  intros Hl HQ. apply wp_bind, select_wp; [by destruct l|]. intros i j w' E Hi. destruct (lookup_lt_is_Some_2 l i Hi) as [x Hx].
  eapply wp_lift; [exact Hx|]. eapply HQ; [by eapply list_elem_of_lookup_2|exact E].
Qed.

Lemma ready_bind {A B} (l : list A) (f : A -> GoM (St (W := W)) B) Q s :
  l <> [] -> (forall x n i w', x ∈ l -> sched_choose n (wd s) = (i, w') -> wp (f x) Q (mkSt (ch s) (rx s) w')) ->
  wp (i ← select (length l); x ← lift (l !! i); f x) Q s.
Proof.
  intros Hl HQ. apply wp_bind, select_wp; [by destruct l|]. intros i j w' E Hi. destruct (lookup_lt_is_Some_2 l i Hi) as [x Hx].
  apply wp_bind. eapply wp_lift; [exact Hx|]. eapply HQ; [by eapply list_elem_of_lookup_2|exact E].
Qed.

Lemma rx_send_wp c w raw p reads :
  decodeCompletion raw (packetSize c) = Some (p, None) -> p <> [] ->
  wp (rx_send p reads) (fun _ s' => rstep (mkSt c (AtDeliver raw reads) w) s') (mkSt c (AtDeliver raw reads) w).
Proof.
  intros E Hp. unfold rx_send. apply wp_bind, wp_gets. cbn [ch id].
  destruct (receiving c) eqn:Er; cbn [negb].
  2: { apply wp_modify. cbn. rewrite <- Er. replace c with (set_response (receiving c) (receiveRemaining c) c) at 2 by (by destruct c).
       eapply rs_refused; [exact E|done|by left]. }
  destruct (Z.ltb_spec (receiveRemaining c) (len p)).
  { apply wp_modify. cbn. replace c with (set_response (receiving c) (receiveRemaining c) c) at 2 by (by destruct c).
    eapply rs_refused; [exact E|done|right; by left]. }
  apply wp_bind, wp_modify. cbn [ch rx wd].
  change (match pipes c with Some p0 => len (receive p0) <? maxResponsePayload | None => false end) with (room c).
  destruct (room c) eqn:Hr; destruct (stopped_of c) eqn:Hs; cbn [app].
  - apply (ready_bind [true; false]); [done|]. intros [] n i w' Hx Ec; [apply wp_bind, wp_modify|]; apply wp_modify; cbn [ch rx wd].
    + eapply rs_send; eauto.
    + eapply rs_quit; eauto.
  - apply (ready_bind [true]); [done|]. intros x n i w' ->%list_elem_of_singleton Ec. apply wp_bind, wp_modify, wp_modify; cbn [ch rx wd].
    eapply rs_send; eauto.
  - apply (ready_bind [false]); [done|]. intros x n i w' ->%list_elem_of_singleton Ec. apply wp_modify; cbn [ch rx wd].
    eapply rs_quit; eauto.
  - apply wp_modify. cbn [ch rx wd]. replace (set_response true (receiveRemaining c - len p) c) with (set_response (receiving c) (receiveRemaining c - len p) c) by (by rewrite Er).
    eapply rs_refused; [exact E|done|]. right. by right.
Qed.

Lemma rx_report_wp c w e : wp (rx_report e) (fun _ s' => rstep (mkSt c (AtReport e) w) s') (mkSt c (AtReport e) w).
Proof.
  unfold rx_report. apply wp_bind, wp_gets. cbn [ch id].
  change (match pipes c with Some p0 => bool_decide (receiveErr p0 = []) | None => false end) with (error_room c).
  destruct (error_room c) eqn:Hr; destruct (stopped_of c) eqn:Hs; cbn [app].
  - apply (ready_bind [true; false]); [done|]. intros [] n i w' Hx Ec; apply wp_bind; [apply wp_modify|apply wp_ret]; apply wp_modify; cbn [ch rx wd].
    + eapply rs_report; eauto.
    + eapply rs_unreported; eauto.
  - apply (ready_bind [true]); [done|]. intros x n i w' ->%list_elem_of_singleton Ec. apply wp_bind, wp_modify, wp_modify; cbn [ch rx wd].
    eapply rs_report; eauto.
  - apply (ready_bind [false]); [done|]. intros x n i w' ->%list_elem_of_singleton Ec. apply wp_bind, wp_ret, wp_modify; cbn [ch rx wd].
    eapply rs_unreported; eauto.
  - apply wp_ret. by apply rs_blocked.
Qed.

Lemma step_wp s : rx_ok (ch s) (rx s) -> wp receiveUSB_step (fun _ s' => rstep s s') s.
Proof.
  destruct s as [c r w]. cbn [ch rx]. intros [Hne Hp]. unfold wp, receiveUSB_step. cbn [rx].
  destruct r as [|[|read reads]|e|raw buffer reads|raw buffer reads|raw [read|e] reads|raw reads|e|e| |].
  - constructor.
  - done.
  - unfold rx_wait, mbind, GoM_bind, world. cbn [wd ch rx]. destruct (usb_Poll (rd_transfer read) w) as [[[[count [e|]] data]|] w'] eqn:E.
    + by eapply rs_error.
    + destruct (Z.ltb_spec count 0); cbn [orb]; [eapply rs_count; [exact E|by left]|].
      destruct (Z.ltb_spec (len (written (rd_buffer read) data)) count); [eapply rs_count; [exact E|by right]|].
      by eapply rs_data.
    + by apply rs_pending.
  - apply rs_failed.
  - apply rs_completed.
  - unfold rx_submit, mbind, GoM_bind, world, cget, gets. cbn [wd ch rx].
    destruct (usb_SubmitBulk Background (bulkIn c) buffer w) as [[h e] w'] eqn:E. by eapply rs_submit.
  - apply rs_armed.
  - apply rs_loss.
  - fold (wp (rx_deliver raw reads) (fun _ s' => rstep (mkSt c (AtDeliver raw reads) w) s') (mkSt c (AtDeliver raw reads) w)).
    unfold rx_deliver. apply wp_bind, wp_gets. cbn [ch]. destruct (decodeCompletion_total (packetSize c) raw (Hp I)) as (p & e & E).
    apply wp_bind. eapply wp_lift; [exact E|]. destruct e as [e|]; [apply wp_modify; by eapply rs_broken|].
    destruct (Z.eqb_spec (len p) 0) as [L0|L0].
    + assert (p = []) as -> by (destruct p; [done|unfold len in L0; simpl in L0; lia]). apply wp_modify. by eapply rs_empty.
    + apply rx_send_wp; [done|]. intros ->. done.
  - apply rs_poison.
  - apply rx_report_wp.
  - apply rs_close.
  - constructor.
Qed.

(** ** What no action of the receiver changes *)

Definition static c := (active c, device c, iface c, cindex c, (bulkIn c, bulkOut c, divisor c, clockHz c), packetSize c, claim c, receiving c, restored c).

Record unmoved c c' : Prop := {
  um_static : static c' = static c;
  um_poison : poisonErr c <> None -> poisonErr c' = poisonErr c;
  um_gone : gone c = true -> gone c' = true;
  um_pipes : is_Some (pipes c') <-> is_Some (pipes c);
  um_stop : stopped_of c' = stopped_of c
}.

Lemma unmoved_refl c : unmoved c c.
Proof. by split. Qed.

Lemma unmoved_trans c1 c2 c3 : unmoved c1 c2 -> unmoved c2 c3 -> unmoved c1 c3.
Proof.
  intros [A1 A2 A3 A4 A5] [B1 B2 B3 B4 B5]. split; [congruence| |auto|tauto|congruence].
  intros Hp. rewrite B2, A2; [done|done|]. by rewrite A2.
Qed.

Lemma unmoved_on_pipes f c : (forall p, receiveStop (f p) = receiveStop p) -> unmoved c (on_pipes f c).
Proof.
  intros Hf. unfold on_pipes. split; try done; unfold stopped_of; cbn; destruct (pipes c) as [p|]; try done; cbn. apply Hf.
Qed.

Lemma rstep_unmoved s s' : rstep s s' -> unmoved (ch s) (ch s').
Proof.
  destruct 1; cbn [ch]; try apply unmoved_refl; try (by apply unmoved_on_pipes).
  - unfold note_loss. destruct (errors_Is _ _); by split.
  - by split.
  - eapply unmoved_trans; [|by apply unmoved_on_pipes]. split; try done. unfold static, taken. cbn. by match goal with R : receiving c = true |- _ => rewrite R end.
  - unfold taken. split; try done. unfold static. cbn. by match goal with R : receiving c = true |- _ => rewrite R end.
  - unfold first_poison. destruct (poisonErr c) eqn:E; [apply unmoved_refl|]. by split.
Qed.
End Steps.

(** ** Invariants the receiver keeps *)

Section Stable.
Context {W : Type} `{Env W} `{FtdiUsb W}.
Implicit Types (s : St (W := W)) (c : Channel) (w : W).

Record Stable (I : St (W := W) -> Prop) : Prop := {
  sb_ok s : I s -> rx_ok (ch s) (rx s);
  sb_step s s' : I s -> rstep s s' -> I s';
  sb_run s n w : I s -> sched_run (wd s) = (n, w) -> I (mkSt (ch s) (rx s) w)
}.

Lemma rx_ok_step s s' : rx_ok (ch s) (rx s) -> rstep s s' -> rx_ok (ch s') (rx s').
Proof.
  intros [N P] K. pose proof (um_static _ _ (rstep_unmoved _ _ K)) as St. assert (packetSize (ch s') = packetSize (ch s)) as Ep by (unfold static in St; congruence).
  destruct K; cbn [ch rx armed] in *; (split; [|try rewrite Ep; try (intros _; by apply P); try done]); try done; try (by destruct (stopped_of c)).
  intros E. by apply app_eq_nil in E as [_ ?].
Qed.

Lemma Stable_ok : Stable (fun s => rx_ok (ch s) (rx s)).
Proof. split; [done|apply rx_ok_step|done]. Qed.

Lemma Stable_and (I J : St (W := W) -> Prop) : Stable I -> (forall s s', J s -> rstep s s' -> J s') ->
  (forall s n w, J s -> sched_run (wd s) = (n, w) -> J (mkSt (ch s) (rx s) w)) -> Stable (fun s => I s /\ J s).
Proof. intros [A B C] JB JC. split; [intros s []; auto|intros s s' []; eauto|intros s n w []; eauto]. Qed.

Section Rules.
Variable I : St (W := W) -> Prop.
Hypothesis stable : Stable I.

Lemma runs_wp n (Q : unit -> St -> Prop) s : I s -> (forall s', I s' -> unmoved (ch s) (ch s') -> Q tt s') -> wp (receiver_runs n) Q s.
Proof.
  revert s. induction n as [|n IH]; intros s Is HQ; cbn [receiver_runs]; [apply wp_ret, HQ; [done|apply unmoved_refl]|].
  apply wp_bind. eapply wp_mono; [apply step_wp, (sb_ok _ stable), Is|]. intros [] s1 K. apply IH; [by eapply (sb_step _ stable)|].
  intros s2 I2 U. apply HQ; [done|]. eapply unmoved_trans; [by apply rstep_unmoved|done].
Qed.

Lemma yield_wp (Q : unit -> St -> Prop) s : I s -> (forall s', I s' -> unmoved (ch s) (ch s') -> Q tt s') -> wp yield Q s.
Proof.
  intros Is HQ. unfold yield. apply wp_bind. unfold wp at 1, world. destruct (sched_run (wd s)) as [n w] eqn:E.
  apply runs_wp; [by eapply (sb_run _ stable)|done].
Qed.

Lemma host_wp {A} (f : W -> A * W) (Q : A -> St -> Prop) s :
  I s -> (forall s' a w', I s' -> unmoved (ch s) (ch s') -> f (wd s') = (a, w') -> Q a (mkSt (ch s') (rx s') w')) -> wp (host f) Q s.
Proof.
  intros Is HQ. unfold host. apply wp_bind, yield_wp; [done|]. intros s' I' U. unfold wp, world. destruct (f (wd s')) as [a w'] eqn:E. by apply HQ.
Qed.

Lemma locked_wp {A} (f : Channel -> A) g (Q : A -> St -> Prop) s :
  I s -> (forall s', I s' -> unmoved (ch s) (ch s') -> Q (f (ch s')) (mkSt (g (ch s')) (rx s') (wd s'))) -> wp (locked f g) Q s.
Proof.
  intros Is HQ. unfold locked. apply wp_bind, yield_wp; [done|]. intros s' I' U. apply wp_bind, wp_gets, wp_bind, wp_modify, wp_ret. by apply HQ.
Qed.
End Rules.

(** *** Failed channels *)

Definition failed c : Prop := poisonErr c <> None \/ gone c = true.

Lemma failed_reason c : failed c <-> restorationFailure_of c <> None.
Proof.
  unfold failed, restorationFailure_of. destruct (poisonErr c) as [e|], (gone c); cbn; split; try done; intros K; try (by left); try (by right). by destruct K.
Qed.

Lemma failed_unmoved c c' : unmoved c c' -> failed c -> failed c'.
Proof. intros U [P|G]; [left; by rewrite (um_poison _ _ U)|right; by apply (um_gone _ _ U)]. Qed.

Definition Failed s : Prop := rx_ok (ch s) (rx s) /\ failed (ch s).

Lemma Stable_Failed : Stable Failed.
Proof. apply Stable_and; [apply Stable_ok| |done]. intros s s' F K. eapply failed_unmoved; [by apply rstep_unmoved|done]. Qed.

Lemma rx_ok_static c c' r : packetSize c' = packetSize c -> rx_ok c r -> rx_ok c' r.
Proof. unfold rx_ok. by intros ->. Qed.

(** What a failed channel keeps through its caller's actions. *)
Record kept c c' : Prop := {
  kp_static : static c' = static c;
  kp_failed : failed c -> failed c'
}.

Lemma kept_refl c : kept c c.
Proof. by split. Qed.
Lemma kept_trans c1 c2 c3 : kept c1 c2 -> kept c2 c3 -> kept c1 c3.
Proof. intros [A B] [C D]. split; [congruence|auto]. Qed.
Lemma kept_unmoved c c' : unmoved c c' -> kept c c'.
Proof. intros U. split; [apply U|]. by apply failed_unmoved. Qed.

Lemma poison_wp e s : rx_ok (ch s) (rx s) -> wp (poison e) (fun r s' => r <> None /\ Failed s' /\ static (ch s') = static (ch s)) s.
Proof.
  intros Ok. unfold poison. apply wp_bind. eapply (locked_wp _ Stable_ok); [done|]. intros s1 Ok1 U1.
  assert (Failed (mkSt (first_poison e (ch s1)) (rx s1) (wd s1))) as F1.
  { split; cbn [ch rx]; [eapply rx_ok_static; [|exact Ok1]|left]; unfold first_poison; by destruct (poisonErr (ch s1)) eqn:E; rewrite ?E. }
  assert (static (first_poison e (ch s1)) = static (ch s)) as S1.
  { rewrite <- (um_static _ _ U1). unfold first_poison. by destruct (poisonErr (ch s1)). }
  apply wp_bind. eapply (locked_wp _ Stable_Failed); [exact F1|]. intros s2 F2 U2. apply wp_ret. split_and!.
  - intros E. rewrite errors_Join_None in E. inversion E as [|? ? _ E2]. by inversion E2.
  - destruct s2. exact F2.
  - cbn [ch id]. rewrite (um_static _ _ U2). exact S1.
Qed.
End Stable.

(** ** A device that answers in order

    What an H-series part does behind its USB function (AN_108, and the status
    bytes of each IN packet): it executes the bytes written to it as one command
    stream, and its IN packets carry that stream's answers, in order.  [sent] is
    what it has accepted, [posted] the write under way, [arrived] what has been
    handed to reads. *)

Section Wired.
Context {W T : Type} `{Env W} `{FtdiUsb W}.
Implicit Types (s : St (W := W)) (c : Channel) (w : W).
Variables (clock : edge -> T -> bool * T) (v0 d0 : Z) (t0 : T).
Variables (ps bin bout : Z).

Record Ghost := { sent : W -> list Z; arrived : W -> list Z; posted : W -> option (nat * list Z) }.
Variable G : Ghost.

Definition respond (cmds : list Z) : list Z := fst (mpsse clock cmds v0 d0 t0).
Definition target (cmds : list Z) : T := snd (mpsse clock cmds v0 d0 t0).
Definition same w w' : Prop := sent G w' = sent G w /\ arrived G w' = arrived G w /\ posted G w' = posted G w.
Definition underway w : list Z := match posted G w with Some (_, data) => data | None => [] end.

Record Wire : Prop := {
  wr_answers w : arrived G w `prefix_of` respond (sent G w ++ underway w);
  wr_ctx ctx w r w' : ctx_Err ctx w = (r, w') -> same w w';
  wr_idle ctx w r w' : usb_Idle ctx w = (r, w') -> same w w';
  wr_run w r w' : sched_run w = (r, w') -> same w w';
  wr_choose n w r w' : sched_choose n w = (r, w') -> same w w';
  wr_in ctx buffer w r w' : usb_SubmitBulk ctx bin buffer w = (r, w') -> same w w';
  wr_out ctx data w h w' : posted G w = None -> usb_SubmitBulk ctx bout data w = ((h, None), w') ->
    sent G w' = sent G w /\ arrived G w' = arrived G w /\ posted G w' = Some (h, data);
  wr_wait ctx h data w count w' : posted G w = Some (h, data) -> usb_Wait ctx h w = ((count, None), w') -> 0 <= count <= len data ->
    sent G w' = sent G w ++ take (Z.to_nat count) data /\ arrived G w' = arrived G w /\ posted G w' = None;
  wr_poll h w r w' : usb_Poll h w = (r, w') -> sent G w' = sent G w /\ posted G w' = posted G w /\
    exists x, arrived G w' = arrived G w ++ x /\
      match r with
      | None => x = []
      | Some (count, None, data) => count = len data /\ forall p, decodeCompletion data ps = Some (p, None) -> x = p
      | Some (_, Some _, _) => True
      end
}.

(** A context that ends: [budget] waits are left of it, and nothing gives time
    back. *)
Record Patient (budget : W -> nat) (ctx : context) : Prop := {
  pt_ctx w : (budget (snd (ctx_Err ctx w)) <= budget w)%nat;
  pt_run w : (budget (snd (sched_run w)) <= budget w)%nat;
  pt_choose n w : (budget (snd (sched_choose n w)) <= budget w)%nat;
  pt_submit ctx' ep data w : (budget (snd (usb_SubmitBulk ctx' ep data w)) <= budget w)%nat;
  pt_wait ctx' h w : (budget (snd (usb_Wait ctx' h w)) <= budget w)%nat;
  pt_poll h w : (budget (snd (usb_Poll h w)) <= budget w)%nat;
  pt_idle w : (budget (snd (usb_Idle ctx w)) <= budget w)%nat;
  pt_tick w : fst (usb_Idle ctx w) = None -> (budget (snd (usb_Idle ctx w)) < budget w)%nat
}.

Hypothesis wire : Wire.
Variables (budget : W -> nat) (ctx : context) (fuel : nat).
Hypothesis patient : Patient budget ctx.

(** What the receiver may hold back of what has arrived. *)
Definition clean (r : Receiver) (lost : list Z) : Prop :=
  match r with
  | AtWait _ => lost = []
  | AtCompleted raw _ _ | AtSubmit raw _ _ | AtLoss raw _ _ | AtDeliver raw _ => forall p, decodeCompletion raw ps = Some (p, None) -> lost = p
  | _ => True
  end.

(** After [base] the caller has [got], the queue holds the rest in order, and an
    armed receiver at most the completion it has in hand. *)
Record Inv (base got snt : list Z) (pst : option (nat * list Z)) s : Prop := {
  iv_ok : rx_ok (ch s) (rx s);
  iv_size : packetSize (ch s) = ps;
  iv_in : bulkIn (ch s) = bin;
  iv_budget : (budget (wd s) <= fuel)%nat;
  iv_sent : sent G (wd s) = snt;
  iv_posted : posted G (wd s) = pst;
  iv_queue : exists p lost, pipes (ch s) = Some p /\ Forall (fun x => x <> []) (receive p) /\
    arrived G (wd s) = base ++ got ++ concat (receive p) ++ lost /\ clean (rx s) lost
}.

Lemma Inv_world base got snt pst s w :
  Inv base got snt pst s -> same (wd s) w -> (budget w <= budget (wd s))%nat -> Inv base got snt pst (mkSt (ch s) (rx s) w).
Proof.
  intros [A1 A2 A3 A4 A5 A6 A7] (E1 & E2 & E3) Hb. split; cbn [ch rx wd]; try done; [lia|congruence|congruence|]. by rewrite E2.
Qed.

Lemma Inv_channel base got snt pst s c :
  Inv base got snt pst s -> packetSize c = packetSize (ch s) -> bulkIn c = bulkIn (ch s) -> pipes c = pipes (ch s) -> Inv base got snt pst (mkSt c (rx s) (wd s)).
Proof.
  intros [A1 A2 A3 A4 A5 A6 A7] E1 E2 E3. split; cbn [ch rx wd]; try done; [by eapply rx_ok_static|congruence|congruence|]. by rewrite E3.
Qed.

Lemma written_all buffer data : len data <= len (written buffer data) -> take (Z.to_nat (len data)) (written buffer data) = data.
Proof.
  unfold written, len. intros L. rewrite length_take, length_app, length_drop in L.
  rewrite take_take. rewrite Nat.min_l by lia. by rewrite Nat2Z.id, take_app_length.
Qed.

Ltac chosen := match goal with Choose : (forall n i w', _ -> _), Es : (exists n i, _) |- _ =>
  let n := fresh "n" in let i := fresh "i" in destruct Es as (n & i & Es); destruct (Choose _ _ _ Es) as [(E1 & E2 & E3) B] end.

Lemma Inv_step base got snt pst s s' : Inv base got snt pst s -> rstep s s' -> Inv base got snt pst s'.
Proof.
  intros IV K. pose proof (rx_ok_step _ _ (iv_ok _ _ _ _ _ IV) K) as Ok'. pose proof (um_static _ _ (rstep_unmoved _ _ K)) as St.
  assert (packetSize (ch s') = ps /\ bulkIn (ch s') = bin) as [Ep Ei].
  { destruct IV as [_ Hp Hb _ _ _ _]. unfold static in St. split; congruence. }
  destruct IV as [A1 A2 A3 A4 A5 A6 (p & lost & Q1 & Q2 & Q3 & Q4)].
  assert (forall n i w', sched_choose n (wd s) = (i, w') -> same (wd s) w' /\ (budget w' <= fuel)%nat) as Choose.
  { intros n i w' E. split; [by eapply (wr_choose wire)|]. pose proof (pt_choose _ _ patient n (wd s)) as B. rewrite E in B. cbn in B. lia. }
  assert (forall h r w', usb_Poll h (wd s) = (r, w') -> (budget w' <= fuel)%nat) as PollB.
  { intros h r w' E. pose proof (pt_poll _ _ patient h (wd s)) as B. rewrite E in B. cbn in B. lia. }
  destruct K; cbn [ch rx wd clean] in *; try (split; try done; cbn [ch rx wd]; exists p, lost; by split_and!).
  all: try (match goal with Ep : usb_Poll _ _ = (_, _) |- _ => pose proof (PollB _ _ _ Ep); destruct (wr_poll wire _ _ _ _ Ep) as (E1 & E2 & x & E3 & E4) end;
    split; cbn [ch rx wd]; try done; [congruence|congruence|]; exists p; subst lost).
  - exists []. subst x. rewrite app_nil_r in E3. rewrite E3. by split_and!.
  - exists x. rewrite E3, Q3, app_nil_r, !app_assoc. by split_and!.
  - exists x. rewrite E3, Q3, app_nil_r, !app_assoc. by split_and!.
  - exists x. rewrite E3, Q3, app_nil_r, !app_assoc. split_and!; try done. cbn [clean]. destruct E4 as [-> E4]. rewrite written_all by lia. exact E4.
  - split; try done; cbn [ch rx wd]; exists p, lost. split_and!; try done. by destruct (stopped_of c).
  - split; try done; cbn [ch rx wd]; exists p, lost. split_and!; try done. by destruct (stopped_of c).
  - match goal with Es : usb_SubmitBulk _ _ _ _ = _ |- _ => rewrite Ei in Es; destruct (wr_in wire _ _ _ _ _ Es) as (E1 & E2 & E3);
      pose proof (pt_submit _ _ patient Background bin buffer w) as B; rewrite Es in B; cbn [snd] in B end.
    split; cbn [ch rx wd]; try done; [lia|congruence|congruence|]. exists p, lost. rewrite E2. by split_and!.
  - split; try done; cbn [ch rx wd]. exists p, lost. split_and!; try done. unfold note_loss. by destruct (errors_Is _ _).
  - split; try done; cbn [ch rx wd]. exists p, lost. split_and!; try done. apply Q4. by rewrite <- Ep.
  - chosen.
    split; cbn [ch rx wd]; try done; [congruence|congruence|]. exists (mkPipes (receive p ++ [p0]) (receiveErr p) (receiveStop p) (receiveDone p)), [].
    split_and!; [unfold queued, on_pipes, taken; cbn; by rewrite Q1|cbn [receive]; by apply Forall_app; split; [|by repeat constructor]| |done].
    cbn [receive]. rewrite concat_app, E2, Q3, (Q4 p0) by (by rewrite <- A2). cbn [concat]. by rewrite !app_nil_r.
  - chosen.
    split; cbn [ch rx wd]; try done; [congruence|congruence|]. exists p, lost. rewrite E2. by split_and!.
  - split; try done; cbn [ch rx wd]. exists p, lost. split_and!; try done. unfold first_poison. by destruct (poisonErr c).
  - chosen.
    split; cbn [ch rx wd]; try done; [congruence|congruence|]. exists (mkPipes (receive p) [e] (receiveStop p) (receiveDone p)), lost.
    unfold reported, on_pipes. cbn. rewrite E2, Q1. by split_and!.
  - chosen.
    split; cbn [ch rx wd]; try done; [congruence|congruence|]. exists p, lost. rewrite E2. by split_and!.
  - split; try done; cbn [ch rx wd]. exists (mkPipes (receive p) (receiveErr p) (receiveStop p) true), lost. unfold closed, on_pipes. cbn. rewrite Q1. by split_and!.
Qed.

Lemma Stable_Inv base got snt pst : Stable (Inv base got snt pst).
Proof.
  split; [intros s IV; apply IV|intros s s'; apply Inv_step|]. intros s n w IV E.
  apply Inv_world; [done|by eapply (wr_run wire)|]. pose proof (pt_run _ _ patient (wd s)) as B. by rewrite E in B.
Qed.

(** *** The caller's checks *)

Lemma ctxErr_inv base got snt pst (Q : err -> St -> Prop) s :
  Inv base got snt pst s -> (forall e s', Inv base got snt pst s' -> unmoved (ch s) (ch s') -> Q e s') -> wp (ctxErr ctx) Q s.
Proof.
  intros IV HQ. unfold ctxErr. apply wp_bind. eapply (host_wp _ (Stable_Inv base got snt pst)); [exact IV|].
  intros s' e w' I' U E. apply wp_ret, HQ; [|done]. apply Inv_world; [done|by eapply (wr_ctx wire)|].
  pose proof (pt_ctx _ _ patient (wd s')) as B. by rewrite E in B.
Qed.

Lemma transportReady_inv base got snt pst (Q : err -> St -> Prop) s :
  Inv base got snt pst s -> device (ch s) = true ->
  (forall e s', Failed s' -> static (ch s') = static (ch s) -> Q (Some e) s') ->
  (forall s', Inv base got snt pst s' -> unmoved (ch s) (ch s') -> Q None s') -> wp transportReady Q s.
Proof.
  intros IV Hd HE HN. unfold transportReady. apply wp_bind, wp_gets. rewrite Hd. cbn [negb]. unfold restorationFailure.
  eapply (locked_wp _ (Stable_Inv base got snt pst)); [exact IV|]. intros s' I' U. replace (mkSt (id (ch s')) (rx s') (wd s')) with s' by (by destruct s').
  destruct (restorationFailure_of (ch s')) as [e|] eqn:E; [|by apply HN]. apply HE; [|apply U]. split; [apply I'|]. apply failed_reason. by rewrite E.
Qed.

(** An error with a failed channel. *)
Definition poisoned (c0 : Channel) (e : err) s : Prop := e <> None /\ Failed s /\ static (ch s) = static c0.

Lemma poison_static e s c0 : rx_ok (ch s) (rx s) -> static (ch s) = static c0 -> wp (poison e) (fun r s' => poisoned c0 r s') s.
Proof. intros Ok Hs. eapply wp_mono; [by apply poison_wp|]. intros r s' (A & B & C). split_and!; [done|done|congruence]. Qed.

(** *** Writing *)

Lemma device_static c c' : static c = static c' -> device c = device c'.
Proof. unfold static. congruence. Qed.

(** All that is left to say once something went wrong. *)
Definition sane c0 s : Prop := rx_ok (ch s) (rx s) /\ static (ch s) = static c0.

Lemma Stable_sane c0 : Stable (sane c0).
Proof. apply Stable_and; [apply Stable_ok| |done]. intros s s' E K. by rewrite (um_static _ _ (rstep_unmoved _ _ K)). Qed.

Lemma host_sane {A} (f : W -> A * W) c0 s : sane c0 s -> wp (host f) (fun _ s' => sane c0 s') s.
Proof. intros S0. eapply (host_wp _ (Stable_sane c0)); [done|]. intros s' a w' S' _ _. exact S'. Qed.

Lemma ctxErr_sane ctx' c0 s : sane c0 s -> wp (ctxErr ctx') (fun _ s' => sane c0 s') s.
Proof. intros S0. apply wp_bind. eapply wp_mono; [by apply host_sane|]. intros a s' S'. by apply wp_ret. Qed.

Lemma Inv_sane base got snt pst s c0 : Inv base got snt pst s -> static (ch s) = static c0 -> sane c0 s.
Proof. intros IV E. split; [apply IV|done]. Qed.

(** A count with a nil error is what the device has accepted. *)
Definition bulk_post base (snt data : list Z) c0 (r : Z * err) s : Prop :=
  sane c0 s /\ (snd r = None -> 0 < fst r <= len data -> Inv base [] (snt ++ take (Z.to_nat (fst r)) data) None s).

Lemma bulkWrite_wp base snt data c0 s :
  Inv base [] snt None s -> static (ch s) = static c0 -> claim c0 = true -> bulkOut c0 = bout ->
  wp (bulkWrite ctx data) (bulk_post base snt data c0) s.
Proof.
  intros IV Hs Hc Hb. unfold bulkWrite. apply wp_bind, wp_gets. cbn [id].
  assert (claim (ch s) = true /\ bulkOut (ch s) = bout) as [Ec Eb] by (unfold static in Hs; split; congruence). rewrite Ec, Eb.
  destruct (iv_queue _ _ _ _ _ IV) as (p & lost & Ep & _). rewrite bool_decide_true by (by rewrite Ep). cbn [negb orb].
  apply wp_bind. eapply (host_wp _ (Stable_Inv base [] snt None)); [exact IV|]. intros s1 [h e] w1 I1 U1 E1.
  assert (sane c0 (mkSt (ch s1) (rx s1) w1)) as S1 by (split; [apply I1|]; cbn [ch]; by rewrite (um_static _ _ U1)).
  destruct e as [e|]; [by apply wp_ret|].
  destruct (wr_out wire _ _ _ _ _ (iv_posted _ _ _ _ _ I1) E1) as (G1 & G2 & G3).
  assert (Inv base [] snt (Some (h, data)) (mkSt (ch s1) (rx s1) w1)) as I1'.
  { pose proof (pt_submit _ _ patient ctx bout data (wd s1)) as B. rewrite E1 in B. cbn in B.
    destruct I1 as [A1 A2 A3 A4 A5 A6 A7]. split; cbn [ch rx wd]; try done; [lia|congruence|]. by rewrite G2. }
  apply wp_bind. eapply (host_wp _ (Stable_Inv base [] snt (Some (h, data)))); [exact I1'|]. intros s2 [count e] w2 I2 U2 E2. cbn [ch] in U2.
  assert (sane c0 (mkSt (ch s2) (rx s2) w2)) as S2 by (split; [apply I2|]; cbn [ch]; rewrite (um_static _ _ U2); apply S1).
  destruct e as [e|].
  - apply wp_bind. eapply wp_mono; [by apply ctxErr_sane|]. intros [ce|] s3 P3; [|by apply wp_ret].
    apply wp_bind. eapply wp_mono; [by apply host_sane|]. intros [a|] s4 P4.
    + apply wp_bind. eapply wp_mono; [by apply ctxErr_sane|]. intros ce' s5 P5. apply wp_ret. split; [done|cbn [fst]; lia].
    + apply wp_bind. eapply wp_mono; [by apply host_sane|]. intros [k ke] s5 P5. apply wp_bind. eapply wp_mono; [by apply ctxErr_sane|].
      intros ce' s6 P6. apply wp_ret. split; [done|cbn [fst]; lia].
  - apply wp_ret. split; [done|]. cbn [fst snd]. intros _ Hn.
    destruct (wr_wait wire _ _ _ _ _ _ (iv_posted _ _ _ _ _ I2) E2) as (G4 & G5 & G6); [lia|].
    pose proof (pt_wait _ _ patient ctx h (wd s2)) as B. rewrite E2 in B. cbn in B.
    destruct I2 as [A1 A2 A3 A4 A5 A6 A7]. split; cbn [ch rx wd]; try done; [lia|congruence|]. by rewrite G5.
Qed.

Definition write_post base (snt output : list Z) c0 (e : err) s : Prop :=
  match e with
  | None => Inv base [] (snt ++ output) None s /\ static (ch s) = static c0
  | Some _ => poisoned c0 e s
  end.

Lemma poison_write e base snt output c0 s : sane c0 s -> wp (poison e) (write_post base snt output c0) s.
Proof. intros [Ok Es]. eapply wp_mono; [by apply poison_static|]. intros [r|] s' P; [done|by destruct P]. Qed.

Lemma ftdi_write_loop_wp base snt rest turns c0 s :
  Inv base [] snt None s -> static (ch s) = static c0 -> device c0 = true -> claim c0 = true -> bulkOut c0 = bout ->
  (length rest <= turns)%nat -> wp (write_loop turns ctx rest) (write_post base snt rest c0) s.
Proof.
  revert snt rest s. induction turns as [|turns IH]; intros snt rest s IV Hs Hd Hc Hb Ht.
  { destruct rest; [|simpl in Ht; lia]. apply wp_ret. split; [|done]. by rewrite app_nil_r. }
  destruct rest as [|x rest]; [apply wp_ret; split; [|done]; by rewrite app_nil_r|]. cbn [write_loop]. set (data := x :: rest) in *.
  apply wp_bind. eapply wp_mono; [by apply bulkWrite_wp|]. intros [count e] s1 [S1 K1]. cbn [fst snd] in K1.
  destruct ((count <? 0) || (len data <? count)) eqn:Ec; [by apply poison_write|].
  apply orb_false_iff in Ec as [C1%Z.ltb_ge C2%Z.ltb_ge]. destruct e as [e|]; [by apply poison_write|].
  destruct (Z.eqb_spec count 0) as [|C0]; [by apply poison_write|].
  specialize (K1 eq_refl ltac:(lia)). apply wp_bind. eapply transportReady_inv; [exact K1|by rewrite (device_static _ _ (proj2 S1))| |].
  - intros e s2 F2 E2. apply wp_ret. split_and!; [done|done|]. rewrite E2. apply S1.
  - intros s2 I2 U2. eapply wp_mono; [apply IH; [exact I2| |done|done|done|]|].
    + rewrite (um_static _ _ U2). apply S1.
    + rewrite length_drop. simpl in Ht |- *. lia.
    + intros [r|] s3; [done|]. intros [I3 E3]. split; [|done]. rewrite <- app_assoc, take_drop in I3. exact I3.
Qed.

(** Nothing is sent if the context has ended. *)
Lemma ftdi_writeExact_wp base snt output c0 s :
  Inv base [] snt None s -> static (ch s) = static c0 -> device c0 = true -> claim c0 = true -> bulkOut c0 = bout ->
  wp (writeExact ctx output) (fun e s' => write_post base snt output c0 e s' \/ (e <> None /\ Inv base [] snt None s' /\ static (ch s') = static c0)) s.
Proof.
  intros IV Hs Hd Hc Hb. unfold writeExact. apply wp_bind. eapply transportReady_inv; [exact IV|by rewrite (device_static _ _ Hs)| |].
  { intros e s1 F1 E1. apply wp_ret. left. split_and!; [done|done|congruence]. }
  intros s1 I1 U1. apply wp_bind. eapply ctxErr_inv; [exact I1|]. intros [e|] s2 I2 U2.
  - apply wp_ret. right. split_and!; [done|done|]. rewrite (um_static _ _ U2), (um_static _ _ U1). done.
  - eapply wp_mono; [apply ftdi_write_loop_wp; [exact I2| |done|done|done|done]|by left].
    rewrite (um_static _ _ U2), (um_static _ _ U1). done.
Qed.

(** *** Reading *)

Lemma rstep_budget s s' : rstep s s' -> (budget (wd s') <= budget (wd s))%nat.
Proof.
  destruct 1; cbn [wd]; try done; repeat match goal with
    | E : exists n i, _ |- _ => let n := fresh "n" in let i := fresh "i" in destruct E as (n & i & E); pose proof (pt_choose _ _ patient n w) as B; by rewrite E in B
    | E : usb_Poll ?h _ = _ |- _ => pose proof (pt_poll _ _ patient h w) as B; by rewrite E in B
    | E : usb_SubmitBulk ?c ?e ?d _ = _ |- _ => pose proof (pt_submit _ _ patient c e d w) as B; by rewrite E in B
    end.
Qed.

Lemma Stable_within base got snt pst n : Stable (fun s => Inv base got snt pst s /\ (budget (wd s) <= n)%nat).
Proof.
  apply Stable_and; [apply Stable_Inv| |].
  - intros s s' B K. pose proof (rstep_budget _ _ K). lia.
  - intros s k w B E. pose proof (pt_run _ _ patient (wd s)) as B'. rewrite E in B'. cbn in *. lia.
Qed.

(** What a select found ready. *)
Definition found (ev : event) c : Prop :=
  match ev with
  | Chunk => exists p, pipes c = Some p /\ receive p <> []
  | Failure => exists p, pipes c = Some p /\ receiveErr p <> []
  | Ended _ => True
  end.

Lemma ready_found p ended ev c : pipes c = p -> ev ∈ ready_events p ended -> found ev c.
Proof.
  intros Ep. unfold ready_events. destruct p as [p|]; [|destruct ended; [intros ->%list_elem_of_singleton; done|by intros ?%not_elem_of_nil]].
  rewrite !elem_of_app. intros [[K|K]|K].
  - case_bool_decide; [by apply not_elem_of_nil in K|]. apply list_elem_of_singleton in K as ->. by exists p.
  - case_bool_decide; [by apply not_elem_of_nil in K|]. apply list_elem_of_singleton in K as ->. by exists p.
  - destruct ended; [by apply list_elem_of_singleton in K as ->|by apply not_elem_of_nil in K].
Qed.

Lemma await_wp base got snt n s :
  Inv base got snt None s -> (budget (wd s) <= n)%nat ->
  wp (await n ctx) (fun ev s' => Inv base got snt None s' /\ static (ch s') = static (ch s) /\ found ev (ch s')) s.
Proof.
  revert s. induction n as [|n IH]; intros s IV B; cbn [await]; (apply wp_bind; eapply (host_wp _ (Stable_within base got snt None _)); [split; [exact IV|exact B]|]);
    intros s1 ended w1 [I1 B1] U1 E1; pose proof (wr_idle wire _ _ _ _ E1) as Sm; pose proof (pt_idle _ _ patient (wd s1)) as Bi;
    pose proof (pt_tick _ _ patient (wd s1)) as Bt; rewrite E1 in Bi, Bt; cbn [fst snd] in Bi, Bt;
    pose proof (Inv_world _ _ _ _ _ _ I1 Sm Bi) as I2; apply wp_bind, wp_gets; cbn [ch];
    (destruct (ready_events (pipes (ch s1)) ended) as [|ev evs] eqn:Er;
     [|apply (ftdi_ready_wp (ev :: evs)); [done|]; intros x k i w' Hx Ec; cbn [ch rx wd] in *; split_and!;
       [apply (Inv_world _ _ _ _ _ w' I2); [by eapply (wr_choose wire)|pose proof (pt_choose _ _ patient k w1) as Bc; by rewrite Ec in Bc]
       |apply U1|rewrite <- Er in Hx; by eapply ready_found]]).
  - destruct ended as [e|]; [unfold ready_events in Er; by apply app_eq_nil in Er as [_ ?]|]. specialize (Bt eq_refl). lia.
  - destruct ended as [e|]; [unfold ready_events in Er; by apply app_eq_nil in Er as [_ ?]|]. specialize (Bt eq_refl).
    eapply wp_mono; [apply IH; [exact I2|cbn [wd]; lia]|]. intros ev s' (I' & S' & F'). split_and!; [done| |done]. rewrite S'. apply U1.
Qed.

Definition read_post base (snt : list Z) (size : Z) c0 (r : list Z * err) s : Prop :=
  match snd r with
  | None => Inv base (fst r) snt None s /\ len (fst r) = size /\ static (ch s) = static c0
  | Some _ => poisoned c0 (snd r) s
  end.

Lemma poison_read e base snt size c0 s : sane c0 s -> wp (e ← poison e; mret ([], e)) (read_post base snt size c0) s.
Proof. intros [Ok Es]. apply wp_bind. eapply wp_mono; [by apply poison_static|]. intros [r|] s' P; [by apply wp_ret|by destruct P]. Qed.

Lemma ftdi_read_loop_wp base snt turns size got c0 s :
  Inv base got snt None s -> static (ch s) = static c0 -> len got <= size -> (Z.to_nat (size - len got) <= turns)%nat ->
  wp (read_loop turns fuel ctx size got) (read_post base snt size c0) s.
Proof.
  revert got s. induction turns as [|turns IH]; intros got s IV Hs Hl Ht; cbn [read_loop]; destruct (Z.leb_spec size (len got)).
  1, 3: apply wp_ret; split; [done|]; split; [cbn [fst]; lia|done].
  { lia. }
  apply wp_bind. eapply wp_mono; [apply await_wp; [exact IV|apply IV]|]. intros ev s1 (I1 & S1 & F1). rewrite Hs in S1.
  destruct ev as [| |e].
  - destruct F1 as (p & Ep & Ne). apply wp_bind. unfold take_chunk. apply wp_bind, wp_gets. cbn [ch]. rewrite Ep. destruct p as [[|chunk rest] errs stop done_]; [done|].
    apply wp_bind, wp_modify, wp_ret. set (c1 := set_pipes (Some (mkPipes rest errs stop done_)) (ch s1)).
    destruct (iv_queue _ _ _ _ _ I1) as (p & lost & Ep' & Fq & Ea & Cl). rewrite Ep in Ep'. injection Ep' as <-. cbn [receive concat] in *.
    apply Forall_cons in Fq as [Nc Fq].
    assert (Inv base (got ++ chunk) snt None (mkSt c1 (rx s1) (wd s1))) as I2.
    { destruct I1 as [A1 A2 A3 A4 A5 A6 _]. split; cbn [ch rx wd]; try done. exists (mkPipes rest errs stop done_), lost. split_and!; try done.
      rewrite Ea. cbn [receive]. by rewrite !app_assoc. }
    assert (static c1 = static c0) as S2 by done.
    destruct (Z.ltb_spec (size - len got) (len chunk)); [apply poison_read; by eapply Inv_sane|].
    assert (0 < len chunk) by (destruct chunk; [done|unfold len; simpl; lia]).
    apply IH; [exact I2|done|rewrite len_app; lia|rewrite len_app; lia].
  - destruct F1 as (p & Ep & Ne). apply wp_bind. unfold take_error. apply wp_bind, wp_gets. cbn [ch]. rewrite Ep. destruct p as [chunks [|e errs] stop done_]; [done|].
    apply wp_bind, wp_modify, wp_ret. apply poison_read. split; [|done]. cbn [ch rx]. eapply rx_ok_static; [|apply I1]. done.
  - apply poison_read. by eapply Inv_sane.
Qed.

Lemma readPayload_wp base snt size c0 s :
  Inv base [] snt None s -> static (ch s) = static c0 -> device c0 = true -> 0 <= size ->
  wp (readPayload fuel ctx size) (read_post base snt size c0) s.
Proof.
  intros IV Hs Hd H0'. unfold readPayload. destruct (Z.ltb_spec size 0); [lia|]. apply wp_bind.
  eapply transportReady_inv; [exact IV|by rewrite (device_static _ _ Hs)| |].
  { intros e s1 F1 E1. apply wp_ret. split_and!; [done|done|congruence]. }
  intros s1 I1 U1. assert (static (ch s1) = static c0) as S1 by (rewrite (um_static _ _ U1); done).
  apply wp_bind. eapply ctxErr_inv; [exact I1|]. intros [e|] s2 I2 U2; assert (static (ch s2) = static c0) as S2 by (rewrite (um_static _ _ U2); done).
  - apply poison_read. by eapply Inv_sane.
  - apply ftdi_read_loop_wp; [done|done|done|]. unfold len. simpl. lia.
Qed.

(** *** Exchanges *)

(** Nothing is outstanding: all that was written has been answered and taken. *)
Definition Quiet (snt : list Z) s : Prop := Inv (respond snt) [] snt None s.

Lemma nonempty_concat (q : list (list Z)) : Forall (fun x => x <> []) q -> concat q = [] -> q = [].
Proof. destruct q as [|x q]; [done|]. intros [Nx _]%Forall_cons E. cbn in E. by apply app_eq_nil in E as [-> _]. Qed.

(** Whoever has as many bytes as the answer has is given the answer, and then
    nothing else is left anywhere. *)
Lemma Inv_complete snt output resp got s :
  Inv (respond snt) got (snt ++ output) None s -> respond (snt ++ output) = respond snt ++ resp -> len got = len resp ->
  got = resp /\ Quiet (snt ++ output) s.
Proof.
  intros IV Er El. pose proof (wr_answers wire (wd s)) as [k Hk]. unfold underway in Hk.
  destruct IV as [A1 A2 A3 A4 A5 A6 (p & lost & Q1 & Q2 & Q3 & Q4)]. rewrite A5, A6, app_nil_r, Er, Q3, <- !app_assoc in Hk.
  apply app_inv_head in Hk. rewrite <- (app_nil_r resp) in Hk at 1. apply app_inj_1 in Hk as [-> Hk]; [|unfold len in El; lia].
  symmetry in Hk. apply app_eq_nil in Hk as [Hc [-> ->]%app_eq_nil]. split; [done|]. split; try done. exists p, []. rewrite Hc, Er, Q3, Hc, !app_nil_r. by split_and!.
Qed.

Lemma Quiet_queue snt s p : Quiet snt s -> pipes (ch s) = Some p -> receive p = [].
Proof.
  intros IV Ep. pose proof (wr_answers wire (wd s)) as [k Hk]. unfold underway in Hk.
  destruct IV as [A1 A2 A3 A4 A5 A6 (p' & lost & Q1 & Q2 & Q3 & Q4)]. rewrite Ep in Q1. injection Q1 as <-.
  rewrite A5, A6, app_nil_r, Q3, <- !app_assoc in Hk. rewrite <- (app_nil_r (respond snt)) in Hk at 1. apply app_inv_head in Hk. cbn [app] in Hk. symmetry in Hk.
  apply app_eq_nil in Hk as [Hc _]. by apply nonempty_concat.
Qed.

Definition outcome_post (snt output resp : list Z) c0 (r : list Z * err) s : Prop :=
  static (ch s) = static c0 /\
  match snd r with
  | None => fst r = resp /\ Quiet (snt ++ output) s
  | Some _ => Failed s \/ Quiet snt s
  end.

Lemma static_response b n c : static (set_response b n c) = static c <-> receiving c = b.
Proof. unfold static. cbn. split; [congruence|by intros ->]. Qed.

Lemma beginResponse_wp snt size c0 s :
  Quiet snt s -> static (ch s) = static c0 ->
  wp (beginResponse size) (fun e s' => match e with
    | None => Quiet snt s' /\ static (ch s') = static (set_response true size c0)
    | Some _ => sane c0 s'
    end) s.
Proof.
  intros IV Hs. unfold beginResponse. apply wp_bind, (yield_wp _ (Stable_Inv (respond snt) [] snt None)); [done|]. intros s1 I1 U1.
  assert (static (ch s1) = static c0) as S1 by (rewrite (um_static _ _ U1); done).
  apply wp_bind, wp_gets. destruct (iv_queue _ _ _ _ _ I1) as (p & lost & Ep & _). rewrite Ep. pose proof (Quiet_queue _ _ _ I1 Ep) as Eq.
  unfold begin_events. rewrite Eq, (bool_decide_true ([] = [])) by done. case_bool_decide as Ee; cbn [app].
  - apply wp_bind, wp_modify, wp_ret. split; [by apply Inv_channel|]. unfold static in *. cbn. congruence.
  - apply (ready_bind [Failure]); [done|]. intros x n i w' ->%list_elem_of_singleton Ec. apply wp_bind. unfold take_error. apply wp_bind, wp_gets. cbn [ch].
    rewrite Ep. destruct p as [chunks [|e errs] stop done_]; [done|]. apply wp_bind, wp_modify, wp_ret, wp_ret. split; [|done].
    cbn [ch rx]. eapply rx_ok_static; [|apply I1]. done.
Qed.

Lemma endResponse_wp I c0 s :
  Stable I -> (forall s' n, I s' -> I (mkSt (set_response false n (ch s')) (rx s') (wd s'))) -> I s -> static (ch s) = static (set_response true 0 c0) ->
  wp endResponse (fun _ s' => I s' /\ static (ch s') = static (set_response false 0 c0)) s.
Proof.
  intros St Hr Is Es. eapply (locked_wp _ St); [exact Is|]. intros s' I' U. split; [by apply Hr|]. cbn [ch].
  pose proof (um_static _ _ U) as E. rewrite Es in E. clear -E. unfold static in *. cbn in *. congruence.
Qed.

Lemma Failed_response s b n : Failed s -> Failed (mkSt (set_response b n (ch s)) (rx s) (wd s)).
Proof. intros [Ok F]. split; [by eapply rx_ok_static; [|exact Ok]|done]. Qed.

Lemma ftdi_exchange_wp snt output resp c0 s :
  Quiet snt s -> static (ch s) = static c0 -> receiving c0 = false -> device c0 = true -> claim c0 = true -> bulkOut c0 = bout ->
  respond (snt ++ output) = respond snt ++ resp -> len resp <= maxResponsePayload ->
  wp (exchangePayload fuel ctx output (len resp)) (outcome_post snt output resp c0) s.
Proof.
  intros IV Hs Hr Hd Hc Hb Er Hl. unfold exchangePayload. pose proof (len_nonneg resp).
  destruct (Z.ltb_spec (len resp) 0); [lia|]. destruct (Z.ltb_spec maxResponsePayload (len resp)); [lia|]. cbn [orb].
  apply wp_bind. eapply ctxErr_inv; [exact IV|]. intros [e|] s1 I1 U1; assert (static (ch s1) = static c0) as S1 by (rewrite (um_static _ _ U1); done).
  { apply wp_ret. split; [done|]. by right. }
  apply wp_bind. eapply wp_mono; [by apply beginResponse_wp|]. intros [e|] s2 K2.
  { apply wp_bind. eapply wp_mono; [apply poison_static; apply K2|]. intros [r|] s3 (N3 & F3 & E3); [|done]. apply wp_ret. split; [done|]. by left. }
  destruct K2 as [I2 S2]. set (c1 := set_response true (len resp) c0) in *.
  assert (static c1 = static (set_response true 0 c0)) as Ec1 by done.
  assert (static (set_response false 0 c0) = static c0) as Ec0 by (by apply static_response).
  apply wp_bind. eapply wp_mono; [apply (ftdi_writeExact_wp (respond snt) snt output c1); done|].
  assert (forall r s3, static (ch s3) = static c1 -> match snd r with
      | None => fst r = resp /\ Quiet (snt ++ output) s3 | Some _ => Failed s3 \/ Quiet snt s3 end ->
    wp (endResponse;; mret r) (outcome_post snt output resp c0) s3) as Finish.
  { intros [a e] s3 E3 K. cbn [fst snd] in K. rewrite Ec1 in E3.
    assert (forall I, Stable I -> (forall s' n, I s' -> I (mkSt (set_response false n (ch s')) (rx s') (wd s'))) -> I s3 ->
      (forall s', I s' -> match e with None => a = resp /\ Quiet (snt ++ output) s' | Some _ => Failed s' \/ Quiet snt s' end) ->
      wp (endResponse;; mret (a, e)) (outcome_post snt output resp c0) s3) as Go.
    { intros I St Hi I3 Out. apply wp_bind. eapply wp_mono; [by apply (endResponse_wp I c0)|]. intros [] s4 [I4 E4]. apply wp_ret.
      split; [congruence|]. cbn [fst snd]. by apply Out. }
    destruct e as [e|].
    - destruct K as [F|Q].
      + apply (Go Failed); [apply Stable_Failed|intros; by apply Failed_response|done|by left].
      + apply (Go (Quiet snt)); [apply Stable_Inv|intros; by apply Inv_channel|done|by right].
    - destruct K as [-> Q]. apply (Go (Quiet (snt ++ output))); [apply Stable_Inv|intros; by apply Inv_channel|done|done]. }
  intros [e|] s3 K3.
  - apply wp_bind, wp_ret. destruct K3 as [(_ & F3 & E3)|(_ & I3 & E3)]; (apply Finish; [done|]); [by left|by right].
  - destruct K3 as [[I3 E3]|[? _]]; [|done]. apply wp_bind. eapply wp_mono; [apply (readPayload_wp (respond snt) (snt ++ output) (len resp) c1); done|].
    intros [a [e|]] s4 K4; apply Finish; cbn [snd fst] in *.
    + apply K4.
    + left. apply K4.
    + apply K4.
    + destruct K4 as (I4 & L4 & _). by eapply Inv_complete.
Qed.
End Wired.

(** ** Streams *)

Section Streams.
Context {W T : Type} `{Env W} `{FtdiUsb W}.
Implicit Types (s : St (W := W)) (c : Channel) (w : W).
Variables (pins : edge -> bool * bool) (line : bool * bool -> T -> bool * T) (v0 d0 : Z) (t0 : T) (ps bin bout : Z) (G : Ghost (W := W)).
Let clock := fun e => line (pins e).
Hypothesis wire : Wire clock v0 d0 t0 ps bin bout G.
Variables (budget : W -> nat) (ctx : context) (fuel : nat).
Hypothesis patient : Patient budget ctx.

Abbreviation Quiet := (Quiet clock v0 d0 t0 ps bin G budget fuel).
Abbreviation target := (target clock v0 d0 t0).
Abbreviation respond := (respond clock v0 d0 t0).

(** A channel between calls: open, its endpoints known, nothing outstanding, and
    the device at the end of a command. *)
Definition Idle (snt : list Z) s : Prop :=
  Quiet snt s /\ is_Some (boundary snt v0 d0) /\
  receiving (ch s) = false /\ device (ch s) = true /\ claim (ch s) = true /\ bulkOut (ch s) = bout.

Lemma respond_app snt cmds v d r t :
  boundary snt v0 d0 = Some (v, d) -> mpsse clock cmds v d (target snt) = (r, t) -> respond (snt ++ cmds) = respond snt ++ r /\ target (snt ++ cmds) = t.
Proof.
  intros Hb Hm. unfold FtdiChannelFacts.respond, FtdiChannelFacts.target in *. rewrite (mpsse_app _ _ _ _ _ _ _ _ Hb).
  destruct (mpsse clock snt v0 d0 t0) as [r0 t1]. cbn [snd] in Hm. by rewrite Hm.
Qed.

Lemma boundary_marker cmds v d : is_Some (boundary cmds v d) -> is_Some (boundary (cmds ++ [invalidCommand; cmdSendImmediate]) v d).
Proof. intros [[v1 d1] E]. rewrite (boundary_app _ _ _ _ _ _ E). by eexists. Qed.

(** The answers to whole commands, behind the echo that ends them. *)
Lemma completeMPSSE_wp snt commands resp t c0 s :
  Quiet snt s -> static (ch s) = static c0 -> receiving c0 = false -> device c0 = true -> claim c0 = true -> bulkOut c0 = bout ->
  (exists v d, boundary snt v0 d0 = Some (v, d) /\ mpsse clock commands v d (target snt) = (resp, t)) -> whole commands ->
  len resp + 2 <= maxResponsePayload ->
  wp (completeMPSSE fuel ctx commands (len resp)) (fun r s' => static (ch s') = static c0 /\
    match snd r with
    | None => fst r = resp /\ exists snt', Quiet snt' s' /\ is_Some (boundary snt' v0 d0) /\ target snt' = t
    | Some _ => Failed s' \/ Quiet snt s'
    end) s.
Proof.
  intros IV Hs Hr Hd Hc Hb (v & d & Bd & Hm) Wh Hl. unfold completeMPSSE. set (output := commands ++ [invalidCommand; cmdSendImmediate]).
  assert (mpsse clock output v d (target snt) = (resp ++ [0xfa; invalidCommand], t)) as Hm'.
  { unfold output. destruct (Wh v d) as [[v1 d1] E]. rewrite (mpsse_app _ _ _ _ _ _ _ _ E), Hm. done. }
  destruct (respond_app _ _ _ _ _ _ Bd Hm') as [Er Et].
  assert (len resp + 2 = len (resp ++ [0xfa; invalidCommand])) as El by (rewrite len_app; done). rewrite El in *.
  apply wp_bind. eapply wp_mono; [apply (ftdi_exchange_wp clock v0 d0 t0 ps bin bout G wire budget ctx fuel patient snt output _ c0 s IV Hs Hr Hd Hc Hb Er Hl)|].
  intros [a [e|]] s' [E' K]; cbn [fst snd] in K; [by apply wp_ret|]. destruct K as [-> K].
  assert (index (resp ++ [0xfa; invalidCommand]) (len resp) = Some 0xfa /\ index (resp ++ [0xfa; invalidCommand]) (len resp + 1) = Some invalidCommand) as [I1 I2].
  { pose proof (len_nonneg resp). unfold index. destruct (Z.ltb_spec (len resp) 0); [lia|]. destruct (Z.ltb_spec (len resp + 1) 0); [lia|].
    unfold len. rewrite Nat2Z.id. replace (Z.to_nat (Z.of_nat (length resp) + 1)) with (length resp + 1)%nat by lia.
    rewrite lookup_app_r, Nat.sub_diag by lia. rewrite lookup_app_r by lia. by replace (length resp + 1 - length resp)%nat with 1%nat by lia. }
  apply wp_bind. eapply wp_lift; [exact I1|]. cbn [negb Z.eqb Pos.eqb]. apply wp_bind. eapply wp_lift; [exact I2|]. rewrite Z.eqb_refl. cbn [negb orb].
  apply wp_ret. split; [done|]. cbn [fst snd]. split; [unfold len; by rewrite Nat2Z.id, take_app_length|].
  exists (snt ++ output). split_and!; try done. rewrite (boundary_app _ _ _ _ _ _ Bd). apply boundary_marker, Wh.
Qed.

(** A stream on an idle channel: exact, or an error that poisoned the channel or
    came before any traffic. *)
Definition stream_post (h : bool * bool -> bool * bool) (P : Z -> bool) (first second : list Z) (bits : Z) (snt : list Z)
    (r : list Z * err) s' : Prop :=
  match snd r with
  | None => exists snt' samples, Idle snt' s' /\ clocks line (h <$> stream first second 0 bits) (target snt) = (samples, target snt') /\
      bytes (fst r) /\ len (fst r) = bytes_for bits /\ forall j, 0 <= j -> gbit (fst r) j = (j <? bits) && P j && sample_at samples j
  | Some _ => fst r = [] /\ (Failed s' \/ Idle snt s')
  end.

Lemma Idle_static snt c0 s s' : Idle snt s -> static (ch s) = static c0 -> static (ch s') = static c0 ->
  receiving (ch s') = false /\ device (ch s') = true /\ claim (ch s') = true /\ bulkOut (ch s') = bout.
Proof. intros (_ & _ & A & B & C & D) E E'. unfold static in *. split_and!; congruence. Qed.

Lemma clockStream_wp encode h P first second bits snt s :
  encodes encode pins h P -> ctx_nil ctx = false -> active (ch s) = true -> Idle snt s ->
  0 <= bits <= maxJTAGTransferBits -> bits <= 8 * len first -> bits <= 8 * len second ->
  wp (clockStream fuel ctx first second bits encode) (stream_post h (P first) first second bits snt) s.
Proof.
  intros He Hn Ha Id Hb H1 H2. destruct Id as (IV & Bd & R0 & D0 & C0 & B0).
  pose proof (conj IV (conj Bd (conj R0 (conj D0 (conj C0 B0)))) : Idle snt s) as Id.
  assert (forall e s', Failed s' \/ Quiet snt s' -> static (ch s') = static (ch s) -> stream_post h (P first) first second bits snt ([], Some e) s') as Bad.
  { intros e s' K E. split; [done|]. destruct K as [K|K]; [by left|right]. split; [done|]. split; [done|]. by apply (Idle_static snt (ch s) s). }
  unfold clockStream. apply wp_bind. unfold wireReady. rewrite Hn. apply wp_bind. eapply (ctxErr_inv clock v0 d0 t0 ps bin bout G wire); [done|exact IV|].
  intros [e|] s1 I1 U1; pose proof (um_static _ _ U1) as S1.
  { apply wp_ret, wp_ret, Bad; [by right|done]. }
  apply wp_bind, wp_gets. assert (active (ch s1) = true) as -> by (unfold static in S1; congruence). cbn [negb].
  eapply (transportReady_inv clock v0 d0 t0 ps bin bout G wire); [done|exact I1|by rewrite (device_static _ _ S1)| |].
  { intros e s2 F2 E2. apply wp_ret, Bad; [by left|congruence]. }
  intros s2 I2 U2. pose proof (um_static _ _ U2) as S2. rewrite S1 in S2.
  destruct (Z.ltb_spec bits 0); [lia|]. destruct (Z.ltb_spec maxJTAGTransferBits bits); [lia|].
  destruct (Z.ltb_spec (len first) ((bits + 7) / 8)); [Z.to_euclidean_division_equations; lia|].
  destruct (Z.ltb_spec (len second) ((bits + 7) / 8)); [Z.to_euclidean_division_equations; lia|]. cbn [orb].
  destruct (He first second bits) as (commands & reads & Ee & Wh & Lr & Run); [lia|done|done|].
  destruct Bd as [[v d] Bd]. destruct (Run T line v d (target snt)) as (resp & samples & t' & input & Hm & Hc & Ll & Hi & Bi & Li & Gi).
  destruct (Z.eqb_spec bits 0) as [->|Hz].
  { apply wp_ret. exists snt, samples. assert (stream first second 0 0 = []) as Es by done. rewrite Es in Hc |- *. cbn in Hc. injection Hc as <- <-.
    split; [split; [done|split; [by eexists|]]; by apply (Idle_static snt (ch s) s)|]. split_and!; try done. intros j Hj. cbn [fst].
    destruct (Z.ltb_spec j 0); [lia|]. unfold gbit. rewrite lookup_nil. cbn [default from_option]. apply Z.testbit_0_l. }
  apply wp_bind. eapply wp_lift; [exact Ee|]. cbn beta iota. rewrite <- Ll. apply wp_bind.
  eapply wp_mono; [apply (completeMPSSE_wp snt commands resp t' (ch s)); first [done|by exists v, d|unfold maxResponsePayload; lia]|].
  intros [a [e|]] s3 [E3 K3]; cbn [fst snd] in K3; [by apply wp_ret, Bad|]. destruct K3 as [-> (snt' & Q3 & Bd3 & Et)].
  apply wp_bind. eapply wp_lift; [exact Hi|]. apply wp_ret. exists snt', samples. rewrite Et. split_and!; try done.
  split; [done|]. split; [done|]. by apply (Idle_static snt (ch s) s).
Qed.

(** A failed channel refuses every stream and sends nothing. *)
Definition Silent (snt : list Z) s : Prop := Failed s /\ bulkIn (ch s) = bin /\ sent G (wd s) = snt.

Lemma rstep_sent s s' : bulkIn (ch s) = bin -> rstep s s' -> sent G (wd s') = sent G (wd s).
Proof.
  intros Hb. destruct 1; cbn [wd ch] in *; try done; repeat match goal with
    | E : exists n i, _ |- _ => let n := fresh "n" in let i := fresh "i" in destruct E as (n & i & E); by apply (wr_choose _ _ _ _ _ _ _ _ wire _ _ _ _ E)
    | E : usb_Poll _ _ = _ |- _ => by apply (wr_poll _ _ _ _ _ _ _ _ wire _ _ _ _ E)
    | E : usb_SubmitBulk _ _ _ _ = _ |- _ => rewrite Hb in E; by apply (wr_in _ _ _ _ _ _ _ _ wire _ _ _ _ _ E)
    end.
Qed.

Lemma Stable_Silent snt : Stable (Silent snt).
Proof.
  apply (Stable_and Failed (fun s => bulkIn (ch s) = bin /\ sent G (wd s) = snt) Stable_Failed).
  - intros s s' [Hb Hs] K. pose proof (um_static _ _ (rstep_unmoved _ _ K)) as St. split; [unfold static in St; congruence|]. by rewrite (rstep_sent _ _ Hb K).
  - intros s n w [Hb Hs] E. split; [done|]. cbn [wd]. rewrite <- Hs. by apply (wr_run _ _ _ _ _ _ _ _ wire _ _ _ E).
Qed.

Lemma failed_refuses encode first second bits snt s :
  Silent snt s -> wp (clockStream fuel ctx first second bits encode) (fun r s' => snd r <> None /\ Silent snt s') s.
Proof.
  intros K. unfold clockStream. apply wp_bind. apply (wp_mono _ (fun e s' => e <> None /\ Silent snt s')).
  - unfold wireReady. destruct (ctx_nil ctx); [by apply wp_ret|]. apply wp_bind. unfold ctxErr. apply wp_bind.
    eapply (host_wp _ (Stable_Silent snt)); [exact K|]. intros s1 e w1 (F1 & B1 & S1) _ E.
    assert (Silent snt (mkSt (ch s1) (rx s1) w1)) as K1.
    { split_and!; [exact F1|done|]. cbn [wd]. rewrite <- S1. by apply (wr_ctx _ _ _ _ _ _ _ _ wire _ _ _ _ E). }
    apply wp_ret. destruct e as [e|]; cbn [option_map]; [by apply wp_ret|]. apply wp_bind, wp_gets. destruct (active _); cbn [negb]; [|by apply wp_ret].
    unfold transportReady. apply wp_bind, wp_gets. destruct (device _); cbn [negb]; [|by apply wp_ret].
    eapply (locked_wp _ (Stable_Silent snt)); [exact K1|]. intros s2 K2 _. split; [apply failed_reason, K2|]. by destruct s2.
  - intros [e|] s1 [? K1]; [|done]. by apply wp_ret.
Qed.
End Streams.
