(* ===== verification/FtdiChannelLife.v ===== *)
(** * Opening and closing FTDI channels *)

From S2P Require Import Prelude Go Bits Usb UsbHost Mpsse Ftdi FtdiFacts FtdiChannel FtdiChannelFacts.
Local Open Scope Z_scope.

(** ** A host that drains aborted reads

    What closing relies on: a read that was submitted has completed once its
    endpoint was aborted without an error, the claim was closed or reports no
    cleanup pending; and the scheduler does not starve the receiver for more than
    [L] turns in a row.  [controls] are the control requests that completed. *)

Section Drained.
Context {W : Type} `{Env W} `{FtdiUsb W}.
Implicit Types (s : St (W := W)) (c : Channel) (w : W).
Variables (issued landed : nat -> W -> Prop) (controls : W -> list (Z * Z)) (lag : W -> nat) (L : nat) (bin : Z).

(** Submitted and completed transfers stay so, and no control request completes. *)
Definition advances w w' : Prop := (forall h, issued h w -> issued h w') /\ (forall h, landed h w -> landed h w') /\ controls w' = controls w.

Record Drains : Prop := {
  dr_ctx ctx w r w' : ctx_Err ctx w = (r, w') -> advances w w';
  dr_claim i w r w' : usb_claimInterface i w = (r, w') -> advances w w';
  dr_control ctx t q v i w r w' : usb_ControlTransfer ctx t q v i w = (r, w') ->
    (forall h, issued h w -> issued h w') /\ (forall h, landed h w -> landed h w') /\
    controls w' = controls w ++ (if is_nil (snd r) then [(q, v)] else []);
  dr_endpoint ctx e w r w' : usb_Endpoint ctx e w = (r, w') -> advances w w';
  dr_submit ctx e b w r w' : usb_SubmitBulk ctx e b w = (r, w') -> advances w w' /\ (e = bin -> snd r = None -> issued (fst r) w');
  dr_wait ctx h w r w' : usb_Wait ctx h w = (r, w') -> advances w w';
  dr_poll h w r w' : usb_Poll h w = (r, w') -> advances w w' /\ (landed h w -> r <> None);
  dr_abort e w r w' : usb_AbortBulk e w = (r, w') -> advances w w' /\ (e = bin -> r = None -> forall h, issued h w -> landed h w');
  dr_close w r w' : usb_CloseClaim w = (r, w') -> advances w w' /\ (r = None -> forall h, issued h w -> landed h w');
  dr_settled w : cleanupPending usb_claimPending w = false -> forall h, issued h w -> landed h w;
  dr_device w r w' : usb_CloseDevice w = (r, w') -> advances w w';
  dr_settle ctx w r w' : usb_Settle ctx w = (r, w') -> advances w w';
  dr_idle ctx w r w' : usb_Idle ctx w = (r, w') -> advances w w' /\ (lag w' <= lag w)%nat;
  dr_choose n w r w' : sched_choose n w = (r, w') -> advances w w';
  dr_run w r w' : sched_run w = (r, w') -> advances w w' /\ (r = O -> (lag w' < lag w)%nat);
  dr_lag w : (lag w <= L)%nat
}.

Hypothesis drains : Drains.

(** The reads a receiver still has to wait for, and those it can count on. *)
Definition reads_of (r : Receiver) : list usbRead :=
  match r with
  | AtWait reads | AtDeliver _ reads | AtCompleted _ _ reads | AtSubmit _ _ reads | AtLoss _ _ reads => reads
  | _ => []
  end.

Definition deep (r : Receiver) : Prop :=
  match r with
  | AtWait reads | AtDeliver _ reads => (2 <= length reads)%nat
  | AtCompleted _ _ reads | AtSubmit _ _ reads | AtLoss _ _ reads => reads <> []
  | _ => True
  end.

Definition issued_in (r : Receiver) w : Prop :=
  Forall (fun read => issued (rd_transfer read) w) (reads_of r) /\
  match r with AtLoss _ (inl read) _ => issued (rd_transfer read) w | _ => True end.

(** The receiver runs only with its pipes, and the pipes only under a claim. *)
Record Own s : Prop := {
  ow_ok : rx_ok (ch s) (rx s);
  ow_in : bulkIn (ch s) = bin;
  ow_none : pipes (ch s) = None -> rx s = NoReceiver \/ rx s = Exited;
  ow_claim : is_Some (pipes (ch s)) -> claim (ch s) = true;
  ow_done p : pipes (ch s) = Some p -> rx s <> NoReceiver /\ (receiveDone p = true <-> rx s = Exited);
  ow_deep : deep (rx s);
  ow_issued : issued_in (rx s) (wd s)
}.

Lemma issued_advances r w w' : issued_in r w -> (forall h, issued h w -> issued h w') -> issued_in r w'.
Proof.
  intros [A B] K. split; [eapply Forall_impl; [exact A|]; intros read; apply K|]. destruct r as [| | | | |raw [read|e] reads| | | | |]; auto.
Qed.

Lemma Own_world s w : Own s -> (forall h, issued h (wd s) -> issued h w) -> Own (mkSt (ch s) (rx s) w).
Proof. intros [A1 A2 A3 A4 A5 A6 A7] K. split; try done. by eapply issued_advances. Qed.

Lemma Own_channel s c : Own s -> packetSize c = packetSize (ch s) -> bulkIn c = bulkIn (ch s) -> pipes c = pipes (ch s) ->
  claim c = claim (ch s) -> Own (mkSt c (rx s) (wd s)).
Proof.
  intros [A1 A2 A3 A4 A5 A6 A7] E1 E2 E3 E4. split; cbn [ch rx wd]; rewrite ?E2, ?E3, ?E4; try done. by eapply rx_ok_static.
Qed.

Definition chosen_from w w' : Prop := exists n i, sched_choose n w = (i, w').

Lemma rstep_advances s s' : bulkIn (ch s) = bin -> rstep s s' -> advances (wd s) (wd s').
Proof.
  intros Hb. assert (forall w, advances w w) as R by (by split).
  destruct 1; cbn [wd]; try apply R; repeat match goal with
    | E : exists n i, _ |- _ => let n := fresh "n" in let i := fresh "i" in destruct E as (n & i & E); by eapply (dr_choose drains)
    | E : usb_Poll ?h _ = _ |- _ => by apply (dr_poll drains _ _ _ _ E)
    | E : usb_SubmitBulk ?c ?e ?d _ = _ |- _ => by apply (dr_submit drains _ _ _ _ _ _ E)
    end.
Qed.

Lemma done_on_pipes f c p : (forall p, receiveDone (f p) = receiveDone p) -> pipes (on_pipes f c) = Some p ->
  exists p', pipes c = Some p' /\ receiveDone p = receiveDone p'.
Proof. intros Hf. unfold on_pipes. cbn. destruct (pipes c) as [p'|]; [|done]. intros [= <-]. by exists p'. Qed.

Lemma rstep_done s s' p' : rstep s s' -> rx s <> Exited -> rx s' <> Exited -> pipes (ch s') = Some p' ->
  exists p, pipes (ch s) = Some p /\ receiveDone p' = receiveDone p.
Proof.
  intros K N N' E. destruct K; cbn [ch rx] in *; try done; try (by exists p'); try (by apply done_on_pipes in E).
  all: revert E; unfold note_loss, first_poison; repeat case_match; cbn; intros E; by exists p'.
Qed.

Lemma rstep_off s s' : rstep s s' -> (rx s' = NoReceiver <-> rx s = NoReceiver) /\
  (rx s' = Exited -> (rx s = Exited /\ s' = s) \/ (rx s = AtClose /\ ch s' = closed (ch s))) /\
  (rx s = NoReceiver \/ rx s = Exited -> s' = s).
Proof.
  destruct 1; cbn [ch rx]; split_and!; try done; try (by intros []); try (by left); try (by right);
    try (by destruct (stopped_of c)); try (by intros _; left); by intros _; right.
Qed.

Lemma exited (r : Receiver) : r = Exited \/ r <> Exited.
Proof. destruct r; (by left) || (by right). Qed.

Lemma Own_step s s' : Own s -> rstep s s' -> Own s'.
Proof.
  intros O K. pose proof (rx_ok_step _ _ (ow_ok _ O) K) as Ok'. pose proof (rstep_unmoved _ _ K) as U.
  assert (bulkIn (ch s') = bin /\ claim (ch s') = claim (ch s)) as [Ei Ec].
  { destruct U as [St _ _ _ _], O as [_ Hb _ _ _ _ _]. unfold static in St. split; congruence. }
  pose proof (rstep_advances _ _ (ow_in _ O) K) as Adv. destruct (rstep_off _ _ K) as (Off1 & Off2 & Off3).
  destruct O as [A1 A2 A3 A4 A5 A6 A7]. split; try done.
  - intros E. assert (pipes (ch s) = None) as E0.
    { destruct (pipes (ch s)) eqn:Eq; [|done]. destruct (proj2 (um_pipes _ _ U)) as [x Ex]; [by eexists|congruence]. }
    specialize (A3 E0). by rewrite (Off3 A3).
  - rewrite (um_pipes _ _ U), Ec. exact A4.
  - intros p' E'. destruct (proj1 (um_pipes _ _ U)) as [p E]; [by eexists|]. destruct (A5 p E) as [N D].
    split; [by rewrite Off1|]. destruct (exited (rx s)) as [X|X]; [rewrite (Off3 (or_intror X)) in *; congruence|].
    destruct (exited (rx s')) as [X'|X'].
    + destruct (Off2 X') as [[? _]|[_ Ech]]; [done|]. split; [done|]. intros _. rewrite Ech in E'. revert E'. unfold closed, on_pipes. cbn. rewrite E. by intros [= <-].
    + destruct (rstep_done _ _ _ K X X' E') as (p1 & E1 & ->). rewrite E in E1. injection E1 as <-. split; [|done]. intros Hd. by apply D in Hd.
  - destruct K; cbn [rx deep] in *; try done; try (by destruct (stopped_of c)).
    + destruct reads; [simpl in A6; lia|done].
    + rewrite length_app. destruct reads; [done|]. simpl. lia.
  - pose proof (issued_advances _ _ _ A7 (proj1 Adv)) as [I1 I2]. destruct K; cbn [rx wd reads_of ch] in *; (split; [|try done]); cbn [reads_of]; try done;
      try (by apply Forall_cons in I1 as [_ I1]); try (by destruct (stopped_of c)).
    + destruct e as [e|]; [done|]. cbn [rd_transfer].
      match goal with E : usb_SubmitBulk _ _ _ _ = _ |- _ => by apply (proj2 (dr_submit drains _ _ _ _ _ _ E)) end.
    + apply Forall_app. split; [done|]. by constructor.
Qed.

Lemma Stable_Own : Stable Own.
Proof.
  split; [apply ow_ok|intros s s'; apply Own_step|]. intros s n w O E. apply Own_world; [done|]. by apply (dr_run drains _ _ _ E).
Qed.

(** *** Waiting for the receiver *)

(** Steps left to a receiver that has been told to stop. *)
Definition rank (r : Receiver) : nat :=
  match r with
  | NoReceiver | Exited => 0 | AtClose => 1 | AtReport _ | AtFailed _ | AtCompleted _ _ _ => 2 | AtPoison _ => 3
  | AtWait _ => 4 | AtDeliver _ _ => 5 | AtLoss _ _ _ => 6 | AtSubmit _ _ _ => 7
  end.

(** The read it waits for next has completed. *)
Definition next_landed (r : Receiver) w : Prop :=
  match r with
  | AtWait (read :: _) | AtDeliver _ (read :: _) | AtLoss _ _ (read :: _) | AtSubmit _ _ (read :: _) => landed (rd_transfer read) w
  | _ => True
  end.

Record Draining s : Prop := {
  dg_own : Own s;
  dg_stop : stopped_of (ch s) = true;
  dg_next : next_landed (rx s) (wd s)
}.

Lemma next_advances r w w' : next_landed r w -> advances w w' -> next_landed r w'.
Proof. intros K (_ & A & _). destruct r as [|[]| |? ? []|? ? []|? ? []|? []| | | |]; cbn [next_landed] in *; auto. Qed.

Lemma draining_running s : Draining s -> rx s <> NoReceiver.
Proof. intros [O S _]. revert S. unfold stopped_of. destruct (pipes (ch s)) as [p|] eqn:E; [|done]. intros _. by apply (ow_done _ O p). Qed.

Lemma drain_step s s' : Draining s -> rstep s s' -> Draining s' /\ (rank (rx s') <= pred (rank (rx s)))%nat.
Proof.
  intros D K. pose proof (draining_running _ D) as N. destruct D as [O S Nx]. pose proof (Own_step _ _ O K) as O'.
  pose proof (um_stop _ _ (rstep_unmoved _ _ K)) as S'. rewrite S in S'. pose proof (next_advances _ _ _ Nx (rstep_advances _ _ (ow_in _ O) K)) as Nx'.
  pose proof (ow_deep _ O) as Dp.
  assert (next_landed (rx s') (wd s') /\ (rank (rx s') <= pred (rank (rx s)))%nat) as [? ?]; [|by split].
  destruct K; cbn [rx ch wd next_landed rank pred deep] in *; try done; try (split; [done|lia]); try (by rewrite S).
  - match goal with E : usb_Poll _ _ = (None, _) |- _ => by destruct (dr_poll drains _ _ _ _ E) as [_ K]; destruct (K Nx) end.
  - split; [|lia]. destruct reads; [done|]. exact Nx'.
  - congruence.
Qed.

Lemma drain_runs n s : Draining s -> wp (receiver_runs n) (fun _ s' => Draining s' /\ (rank (rx s') <= rank (rx s) - n)%nat /\ unmoved (ch s) (ch s') /\ controls (wd s') = controls (wd s)) s.
Proof.
  revert s. induction n as [|n IH]; intros s D; cbn [receiver_runs]; [apply wp_ret; split_and!; [done|lia|apply unmoved_refl|done]|].
  apply wp_bind. eapply wp_mono; [apply step_wp, (ow_ok _ (dg_own _ D))|]. intros [] s1 K. destruct (drain_step _ _ D K) as [D1 R1].
  eapply wp_mono; [by apply IH|]. intros [] s2 (D2 & R2 & U2 & C2). destruct (rstep_advances _ _ (ow_in _ (dg_own _ D)) K) as (_ & _ & C1).
  split_and!; [done|lia| |congruence]. eapply unmoved_trans; [by apply rstep_unmoved|done].
Qed.

Definition wait_left s : nat := (rank (rx s) * S L + lag (wd s))%nat.

Lemma drain_yield s :
  Draining s -> wp yield (fun _ s' => Draining s' /\ unmoved (ch s) (ch s') /\ controls (wd s') = controls (wd s) /\
    (rank (rx s') = 0 \/ wait_left s' < wait_left s)%nat) s.
Proof.
  intros D. unfold yield. apply wp_bind. unfold wp at 1, world. destruct (sched_run (wd s)) as [n w] eqn:E.
  destruct (dr_run drains _ _ _ E) as [Adv Lg].
  assert (Draining (mkSt (ch s) (rx s) w)) as D1.
  { destruct D as [O S N]. split; [apply Own_world; [done|apply Adv]|done|by eapply next_advances]. }
  destruct n as [|n].
  - apply wp_ret. split_and!; [done|apply unmoved_refl|apply Adv|]. right. unfold wait_left. cbn [rx wd]. specialize (Lg eq_refl). lia.
  - eapply wp_mono; [by apply drain_runs|]. intros [] s' (D' & R & U & C). cbn [ch rx wd] in *. destruct Adv as (_ & _ & C1). split_and!; [done|done|congruence|].
    unfold wait_left. destruct (rank (rx s)) as [|k]; [left; lia|]. pose proof (dr_lag drains (wd s')). destruct (decide (rank (rx s') = 0)%nat); [by left|right]. nia.
Qed.

Lemma rank_exited s p : Own s -> pipes (ch s) = Some p -> rank (rx s) = 0%nat <-> receiveDone p = true.
Proof.
  intros O E. destruct (ow_done _ O p E) as [N D]. rewrite D. destruct (rx s); cbn; try done; split; try done; by intros ?.
Qed.

(** The receiver ends, and nothing but its pipes has gone. *)
Lemma finishReceive_wp fuel s :
  Draining s -> (wait_left s <= fuel)%nat ->
  wp (finishReceive fuel) (fun _ s' => Own s' /\ pipes (ch s') = None /\ static (ch s') = static (ch s) /\ (failed (ch s) -> failed (ch s')) /\
    controls (wd s') = controls (wd s)) s.
Proof.
  revert s. induction fuel as [|fuel IH]; intros s D Hl; cbn [finishReceive]; apply wp_bind; (eapply wp_mono; [by apply drain_yield|]);
    intros [] s1 (D1 & U1 & C1 & R1); apply wp_bind, wp_gets; pose proof (dg_stop _ D1) as St; unfold stopped_of in St;
    destruct (pipes (ch s1)) as [p|] eqn:Ep; [|done| |done]; pose proof (rank_exited _ _ (dg_own _ D1) Ep) as Rk;
    (destruct (receiveDone p) eqn:Ed;
     [apply wp_modify; cbn [ch rx wd]; split_and!; [|done|apply U1|intros F; by apply (failed_unmoved _ _ U1) in F|done]|]).
  1, 3: destruct (dg_own _ D1) as [A1 A2 A3 A4 A5 A6 A7]; split; cbn [ch rx wd]; try done;
    first [by intros []|intros _; right; by apply (A5 p Ep)].
  - destruct R1 as [R1|R1]; [by apply Rk in R1|]. lia.
  - destruct R1 as [R1|R1]; [by apply Rk in R1|]. apply wp_bind. unfold wp at 1, world. destruct (usb_Idle Background (wd s1)) as [r w] eqn:Ei.
    destruct (dr_idle drains _ _ _ _ Ei) as [Adv Lg].
    eapply wp_mono; [apply IH|].
    + destruct D1 as [O S N]. split; [apply Own_world; [done|apply Adv]|done|by eapply next_advances].
    + unfold wait_left in *. cbn [rx wd]. lia.
    + intros [] s2 (O2 & P2 & S2 & F2 & C2). cbn [ch wd] in *. destruct Adv as (_ & _ & Ca).
      split_and!; [done|done|rewrite S2; apply U1|intros F; apply F2; by eapply failed_unmoved|congruence].
Qed.

(** *** The caller's actions *)

Definition keeps c0 (l : list (Z * Z)) s : Prop := Own s /\ unmoved c0 (ch s) /\ controls (wd s) = l.

Lemma Stable_keeps c0 l : Stable (keeps c0 l).
Proof.
  split; [intros s K; apply K|intros s s' (O & U & E) K|intros s n w (O & U & E) K].
  - split_and!; [by eapply Own_step|eapply unmoved_trans; [exact U|by apply rstep_unmoved]|].
    destruct (rstep_advances _ _ (ow_in _ O) K) as (_ & _ & ->). done.
  - destruct (dr_run drains _ _ _ K) as [(A & _ & B) _]. split_and!; [by apply Own_world|done|]. cbn [wd]. congruence.
Qed.

Lemma host_keeps {A} (f : W -> A * W) c0 l (Q : A -> St -> Prop) s :
  keeps c0 l s -> (forall w r w', f w = (r, w') -> advances w w') -> (forall r s', keeps c0 l s' -> Q r s') -> wp (host f) Q s.
Proof.
  intros K Hf HQ. eapply (host_wp _ (Stable_keeps c0 l)); [exact K|]. intros s' r w' (O & U & E) _ Ef. destruct (Hf _ _ _ Ef) as (A1 & _ & A3).
  apply HQ. split_and!; [by apply Own_world|done|]. cbn [wd]. congruence.
Qed.

Lemma recordLoss_keeps e c0 l (Q : unit -> St -> Prop) s : keeps c0 l s -> (forall s', keeps c0 l s' -> Q tt s') -> wp (recordLoss e) Q s.
Proof.
  intros K HQ. unfold recordLoss. destruct (errors_Is e _); [|by apply wp_ret, HQ]. eapply (locked_wp _ (Stable_keeps c0 l)); [exact K|].
  intros s' (O & U & E) _. apply HQ. split_and!; [by apply Own_channel| |done]. cbn [ch]. eapply unmoved_trans; [exact U|]. by split.
Qed.

Lemma failure_keeps c0 l (Q : err -> St -> Prop) s :
  keeps c0 l s -> (forall s', keeps c0 l s' -> Q (restorationFailure_of (ch s')) s') -> wp restorationFailure Q s.
Proof.
  intros K HQ. eapply (locked_wp _ (Stable_keeps c0 l)); [exact K|]. intros s' K' _. replace (mkSt (id (ch s')) (rx s') (wd s')) with s' by (by destruct s').
  by apply HQ.
Qed.

Lemma ftdi_keeps_refl s : Own s -> keeps (ch s) (controls (wd s)) s.
Proof. intros O. split_and!; [done|apply unmoved_refl|done]. Qed.

Definition requests (steps : list controlStep) : list (Z * Z) := (fun st => (cs_request st, cs_value st)) <$> steps.

(** Control requests complete in order, all of them on success. *)
Lemma control_steps_wp ctx steps c0 l s :
  keeps c0 l s -> wp (control_steps ctx steps) (fun e s' => exists k, (e = None -> k = requests steps) /\ keeps c0 (l ++ k) s') s.
Proof.
  revert l s. induction steps as [|st steps IH]; intros l s K; cbn [control_steps].
  { apply wp_ret. exists []. rewrite app_nil_r. by split. }
  apply wp_bind. unfold runControl, control. apply wp_bind, wp_bind, wp_gets, wp_bind.
  eapply (host_wp _ (Stable_keeps c0 l)); [exact K|]. intros s1 [n e] w1 (O1 & U1 & E1) _ Ef. destruct (dr_control drains _ _ _ _ _ _ _ _ Ef) as (A1 & _ & A3).
  cbn [snd] in A3.
  assert (keeps c0 (l ++ (if is_nil e then [(cs_request st, cs_value st)] else [])) (mkSt (ch s1) (rx s1) w1)) as K1.
  { split_and!; [by apply Own_world|done|]. cbn [wd]. congruence. }
  cbn beta iota. apply wp_bind. eapply recordLoss_keeps; [exact K1|]. intros s2 K2. apply wp_ret. cbn beta iota. destruct e as [e|]; cbn [is_nil] in K2.
  - apply wp_ret, wp_ret. exists []. by split.
  - apply wp_ret. eapply wp_mono; [by apply IH|]. intros e s3 (k & Ek & K3). exists ((cs_request st, cs_value st) :: k).
    split; [intros He; unfold requests; cbn; by rewrite (Ek He)|]. by rewrite <- app_assoc in K3.
Qed.

Definition drain_fuel : nat := 8 * S L.

Lemma drain_enough s : (wait_left s <= drain_fuel)%nat.
Proof. unfold wait_left, drain_fuel. pose proof (dr_lag drains (wd s)). assert (rank (rx s) <= 7)%nat by (destruct (rx s); cbn; lia). nia. Qed.

Lemma all_landed r w w' : issued_in r w -> (forall h, issued h w -> landed h w') -> next_landed r w'.
Proof.
  intros [A _] K. destruct r as [|[]| |? ? []|? ? []|? ? []|? []| | | |]; cbn [next_landed reads_of] in *; try done; apply Forall_cons in A as [A _]; auto.
Qed.

(** *** Releasing the interface *)

Definition loose c := static (set_claim false c).

Lemma loose_static c c' : static c = static c' -> loose c = loose c'.
Proof. unfold loose, static. cbn. congruence. Qed.

Definition release_post c0 l (e : err) s : Prop :=
  Own s /\ loose (ch s) = loose c0 /\ (failed c0 -> failed (ch s)) /\ controls (wd s) = l /\ (e = None -> claim (ch s) = false).

Lemma Own_unclaimed s : Own s -> pipes (ch s) = None -> Own (mkSt (set_claim false (ch s)) (rx s) (wd s)).
Proof. intros [A1 A2 A3 A4 A5 A6 A7] E. split; cbn [ch rx wd pipes claim set_claim]; try done. rewrite E. by intros []. Qed.

(** The claim is dropped after the receiver. *)
Lemma drop_wp fuel c0 l (result : err) s :
  (drain_fuel <= fuel)%nat -> keeps c0 l s -> (is_Some (pipes (ch s)) -> stopped_of (ch s) = true /\ next_landed (rx s) (wd s)) ->
  wp (c ← cget pipes; (if bool_decide (is_Some c) then finishReceive fuel else mret tt);; cmod (set_claim false);; mret result)
    (fun r s' => release_post c0 l r s' /\ r = result) s.
Proof.
  intros Hf (O & U & E) Hp. apply wp_bind, wp_gets, wp_bind.
  apply (wp_mono _ (fun _ s' => Own s' /\ pipes (ch s') = None /\ static (ch s') = static (ch s) /\ (failed (ch s) -> failed (ch s')) /\ controls (wd s') = l)).
  - case_bool_decide as Hs.
    + destruct (Hp Hs) as [St Nx]. eapply wp_mono; [apply finishReceive_wp; [by split|]|].
      * etrans; [apply drain_enough|done].
      * intros [] s' (O' & P' & S' & F' & C'). split_and!; try done. congruence.
    + apply wp_ret. split_and!; try done. destruct (pipes (ch s)) eqn:Ep; [|done]. by destruct Hs.
  - intros [] s' (O' & P' & S' & F' & C'). apply wp_bind, wp_modify, wp_ret. split; [|done]. split_and!; cbn [ch wd]; try done.
    + by apply Own_unclaimed.
    + change (loose (ch s') = loose c0). apply loose_static. rewrite S'. apply U.
    + intros F. apply (failed_unmoved _ _ U), F' in F. exact F.
Qed.

Lemma keeps_stopped c0 l s : keeps c0 l s -> (is_Some (pipes c0) -> stopped_of c0 = true) -> is_Some (pipes (ch s)) -> stopped_of (ch s) = true.
Proof. intros (_ & U & _). by rewrite (um_pipes _ _ U), (um_stop _ _ U). Qed.

Lemma closeClaim_wp fuel c0 l (result : err) s :
  (drain_fuel <= fuel)%nat -> keeps c0 l s -> claim c0 = true -> (is_Some (pipes c0) -> stopped_of c0 = true) ->
  wp (closeClaim fuel result) (fun r s' => release_post c0 l r s' /\ (r = None -> result = None)) s.
Proof.
  intros Hf K Hc Hp. unfold closeClaim. apply wp_bind. eapply (host_wp _ (Stable_keeps c0 l)); [exact K|]. intros s1 e w1 K1 _ E.
  destruct (dr_close drains _ _ _ E) as [(A1 & A2 & A3) Ld]. destruct K1 as (O1 & U1 & C1).
  assert (keeps c0 l (mkSt (ch s1) (rx s1) w1)) as K1 by (split_and!; [by apply Own_world|done|cbn [wd]; congruence]).
  assert (forall r s', release_post c0 l r s' -> r = errors_Join [result; e] -> release_post c0 l r s' /\ (r = None -> result = None)) as Fin.
  { intros r s' R ->. split; [done|]. intros J. rewrite errors_Join_None in J. by inversion J. }
  assert (forall s2, keeps c0 l s2 -> (is_Some (pipes (ch s2)) -> next_landed (rx s2) (wd s2)) ->
    wp (c ← cget pipes; (if bool_decide (is_Some c) then finishReceive fuel else mret tt);; cmod (set_claim false);; mret (errors_Join [result; e]))
      (fun r s' => release_post c0 l r s' /\ (r = None -> result = None)) s2) as Drop.
  { intros s2 K2 N2. eapply wp_mono; [apply (drop_wp fuel c0 l); [done|done|]|].
    - intros Hs. split; [by eapply keeps_stopped|by apply N2].
    - intros r s' [R ->]. by apply Fin. }
  destruct e as [e|].
  - apply wp_bind. eapply (recordLoss_keeps _ c0 l); [exact K1|]. intros s2 K2. cbn [is_nil]. apply wp_bind. unfold claim_pending.
    apply wp_bind, (yield_wp _ (Stable_keeps c0 l)); [done|]. intros s3 K3 U3. apply wp_gets.
    destruct (cleanupPending usb_claimPending (wd s3)) eqn:Ep.
    + apply wp_ret, Fin; [|done]. destruct K3 as (O3 & U3' & C3). split_and!; try done.
      * apply loose_static, U3'.
      * by apply failed_unmoved.
      * intros J. rewrite errors_Join_None in J. inversion J as [|? ? _ J2]. by inversion J2.
    + apply Drop; [done|]. intros _. eapply all_landed; [apply K3|]. by apply (dr_settled drains).
  - apply wp_bind. unfold recordLoss. cbn [errors_Is]. apply wp_ret. cbn [is_nil]. apply wp_bind, wp_ret. apply Drop; [done|]. intros _. cbn [rx wd].
    eapply all_landed; [apply O1|]. by apply Ld.
Qed.

Lemma release_weaken c0 c1 l e s : loose c1 = loose c0 -> (failed c0 -> failed c1) -> release_post c1 l e s -> release_post c0 l e s.
Proof. intros El F (A & B & C & D & E). split_and!; try done; [congruence|auto]. Qed.

Lemma keeps_release c0 l e s : keeps c0 l s -> e <> None -> release_post c0 l e s.
Proof. intros (O & U & C) He. split_and!; try done; [apply loose_static, U|by apply failed_unmoved]. Qed.

Definition stop_pipes : Channel -> Channel := on_pipes (fun p => mkPipes (receive p) (receiveErr p) true (receiveDone p)).

Lemma Own_stop s : Own s -> Own (mkSt (stop_pipes (ch s)) (rx s) (wd s)).
Proof.
  intros [A1 A2 A3 A4 A5 A6 A7]. unfold stop_pipes, on_pipes. split; cbn [ch rx wd pipes set_pipes claim]; try done.
  - rewrite fmap_None. exact A3.
  - intros Hs. apply A4. destruct (pipes (ch s)); [by eexists|by destruct Hs].
  - intros p (p' & E & ->)%fmap_Some. exact (A5 p' E).
Qed.

Lemma releaseUSB_wp fuel c0 l s : (drain_fuel <= fuel)%nat -> keeps c0 l s -> wp (releaseUSB fuel) (release_post c0 l) s.
Proof.
  intros Hf K. pose proof K as (O & U & C). unfold releaseUSB. apply wp_bind, wp_gets. cbn [id]. pose proof (um_static _ _ U) as St.
  assert (claim (ch s) = claim c0) as Ec by (unfold static in St; congruence).
  destruct (claim (ch s)) eqn:Hc; cbn [negb].
  2: { apply wp_ret. split_and!; try done; [by apply loose_static|by apply failed_unmoved]. }
  case_bool_decide as Hp; cbn [negb].
  2: { eapply wp_mono; [apply (closeClaim_wp fuel c0 l); [done|done|done|]|by intros r s' []]. rewrite <- (um_pipes _ _ U). done. }
  apply wp_bind, (yield_wp _ (Stable_keeps c0 l)); [done|]. intros s1 (O1 & U1 & C1) U1'. apply wp_bind, wp_modify. cbn [ch rx wd].
  change (on_pipes _ (ch s1)) with (stop_pipes (ch s1)). set (c1 := stop_pipes (ch s1)).
  assert (keeps c1 l (mkSt c1 (rx s1) (wd s1))) as K1 by (split_and!; [by apply Own_stop|apply unmoved_refl|done]).
  assert (stopped_of c1 = true) as S1.
  { unfold c1, stop_pipes, on_pipes, stopped_of. cbn. destruct (proj2 (um_pipes _ _ U1') Hp) as [p ->]. done. }
  assert (claim c1 = true) as Hc1 by (pose proof (um_static _ _ U1'); unfold static in *; cbn; congruence).
  assert (forall e s', release_post c1 l e s' -> release_post c0 l e s') as Weak.
  { intros e s'. apply release_weaken; [change (loose (ch s1) = loose c0); apply loose_static, U1|]. intros F. apply (failed_unmoved _ _ U1) in F. exact F. }
  apply wp_bind. eapply (host_wp _ (Stable_keeps c1 l)); [exact K1|]. intros s2 result w2 (O2 & U2 & C2) _ E.
  destruct (dr_abort drains _ _ _ _ E) as [(A1 & A2 & A3) Ld].
  assert (keeps c1 l (mkSt (ch s2) (rx s2) w2)) as K2 by (split_and!; [by apply Own_world|done|cbn [wd]; congruence]).
  destruct result as [e|].
  - apply wp_bind. eapply (recordLoss_keeps _ c1 l); [exact K2|]. intros s3 K3. cbn [is_nil negb andb]. destruct (errors_Is _ _); cbn [negb].
    + apply wp_bind, wp_ret. eapply wp_mono; [by apply (closeClaim_wp fuel c1 l)|]. intros r s' [R _]. by apply Weak.
    + apply wp_ret, Weak. by apply keeps_release.
  - apply wp_bind. unfold recordLoss. cbn [errors_Is]. apply wp_ret. cbn [is_nil negb andb]. apply wp_bind.
    eapply wp_mono; [apply finishReceive_wp; [split; [apply K2|cbn [ch]; by rewrite (um_stop _ _ U2)|]|etrans; [apply drain_enough|done]]|].
    + cbn [rx wd]. eapply all_landed; [apply O2|]. apply Ld; [apply O|done].
    + intros [] s3 (O3 & P3 & S3 & F3 & C3). cbn [ch wd] in *.
      assert (keeps (ch s3) l s3) as K3 by (split_and!; [done|apply unmoved_refl|congruence]).
      eapply wp_mono; [apply (closeClaim_wp fuel (ch s3) l); [done|done| |by rewrite P3; intros []]|].
      * pose proof (um_static _ _ U2). unfold static in *. congruence.
      * intros r s' [R _]. apply Weak. eapply release_weaken; [|..|exact R].
        -- apply loose_static. rewrite S3. apply U2.
        -- intros F. apply F3. by eapply failed_unmoved.
Qed.

(** *** Restoring the adapter *)

Definition restore_post c0 (l : list (Z * Z)) (e : err) s : Prop :=
  exists k, Own s /\ static (set_restored false (ch s)) = static (set_restored false c0) /\ (failed c0 -> failed (ch s)) /\ controls (wd s) = l ++ k /\
    (restored c0 = true -> restored (ch s) = true) /\
    (e = None -> (restored c0 || negb (claim c0) = true /\ k = [] /\ restored (ch s) = restored c0) \/ (restored (ch s) = true /\ k = requests restoreSteps)) /\
    (e <> None -> restored (ch s) = true -> failed (ch s) \/ restored c0 = true).

Lemma restored_mark c0 l s e :
  keeps c0 l s -> restored c0 = false -> forall k l0, l = l0 ++ k -> (e = None -> k = requests restoreSteps) -> (e <> None -> failed (ch s)) ->
  wp (cmod (set_restored true);; mret e) (restore_post c0 l0) s.
Proof.
  intros (O & U & C) Hr k l0 -> Hk Hf. apply wp_bind, wp_modify, wp_ret. exists k. cbn [ch rx wd]. pose proof (um_static _ _ U) as St. split_and!; try done.
  - by apply Own_channel.
  - unfold static in *. cbn. congruence.
  - intros F. apply (failed_unmoved _ _ U) in F. exact F.
  - intros He. right. split; [done|by apply Hk].
  - intros He _. left. exact (Hf He).
Qed.

Lemma restoreForClose_wp c0 l s : keeps c0 l s -> wp restoreForClose (restore_post c0 l) s.
Proof.
  intros K. pose proof K as (O & U & C). pose proof (um_static _ _ U) as St. unfold restoreForClose. apply wp_bind, wp_gets. cbn [id].
  assert (restored (ch s) = restored c0 /\ claim (ch s) = claim c0) as [-> ->] by (unfold static in St; split; congruence).
  assert (forall e k s', keeps c0 (l ++ k) s' -> (e = None -> restored c0 || negb (claim c0) = true /\ k = []) -> restore_post c0 l e s') as Same.
  { intros e k s' (O' & U' & C') He. pose proof (um_static _ _ U') as St'. exists k. split_and!; try done.
    - unfold static in *. cbn. congruence.
    - by apply failed_unmoved.
    - unfold static in *. intros ?. congruence.
    - intros E. left. destruct (He E). split_and!; [done|done|]. unfold static in *. congruence.
    - intros _ Hr. right. unfold static in *. congruence. }
  destruct (restored c0 || negb (claim c0)) eqn:Ef; [apply wp_ret, (Same None []); [by rewrite app_nil_r|done]|].
  apply orb_false_iff in Ef as [Hr Hc%negb_false_iff].
  apply wp_bind. eapply (host_keeps _ c0 l); [exact K|intros w r w' E; by apply (dr_abort drains _ _ _ _ E)|]. intros e s1 K1.
  apply wp_bind. eapply (recordLoss_keeps _ c0 l); [exact K1|]. intros s2 K2. apply wp_bind. eapply (failure_keeps c0 l); [exact K2|]. intros s3 K3.
  destruct (restorationFailure_of (ch s3)) as [reason|] eqn:Er.
  { eapply (restored_mark c0 l s3 _ K3 Hr []); [by rewrite app_nil_r| |].
    - intros E. unfold abandoned in E. rewrite errors_Join_None in E. inversion E as [|? ? _ E2]. by inversion E2.
    - intros _. apply failed_reason. by rewrite Er. }
  destruct e as [e|]; [apply wp_ret, (Same _ []); [by rewrite app_nil_r|done]|].
  apply wp_bind. eapply wp_mono; [by apply (control_steps_wp _ restoreSteps c0 l)|]. intros e s4 (k & Ek & K4). destruct e as [e|].
  - apply wp_bind. eapply (failure_keeps c0 (l ++ k)); [exact K4|]. intros s5 K5. destruct (restorationFailure_of (ch s5)) as [reason|] eqn:Er5.
    + eapply (restored_mark c0 (l ++ k) s5 _ K5 Hr k); [done| |].
      * intros E. unfold abandoned in E. rewrite errors_Join_None in E. inversion E as [|? ? E1 E2]. done.
      * intros _. apply failed_reason. by rewrite Er5.
    + apply wp_ret, (Same _ k); done.
  - eapply (restored_mark c0 (l ++ k) s4 _ K4 Hr k); [done|by intros _; apply Ek|done].
Qed.

(** *** Closing *)

(** The channel owns nothing any more. *)
Definition released s : Prop := device (ch s) = false /\ claim (ch s) = false /\ pipes (ch s) = None /\ (rx s = NoReceiver \/ rx s = Exited).

Record close_post c0 (l : list (Z * Z)) (e : err) s : Prop := {
  cp_own : Own s;
  cp_active : active (ch s) = false;
  cp_device : device (ch s) = false -> released s;
  cp_done : e = None -> released s /\ (claim c0 = true -> restored c0 = false -> controls (wd s) = l ++ requests restoreSteps);
  cp_mark : restored (ch s) = true -> restored c0 = true \/ failed (ch s) \/ controls (wd s) = l ++ requests restoreSteps
}.

Lemma unclaimed_released s : Own s -> claim (ch s) = false -> pipes (ch s) = None /\ (rx s = NoReceiver \/ rx s = Exited).
Proof.
  intros O Hc. assert (pipes (ch s) = None) as E.
  { destruct (pipes (ch s)) eqn:E; [|done]. rewrite (ow_claim _ O) in Hc; [done|by rewrite E]. }
  split; [done|]. by apply (ow_none _ O).
Qed.

(** What both ways into closing the device leave. *)
Lemma ftdi_closeDevice_wp result c1 l s :
  keeps c1 l s -> claim c1 = false -> active c1 = false -> device c1 = true ->
  wp (closeDevice result) (fun e s' => Own s' /\ active (ch s') = false /\ (device (ch s') = false -> released s') /\ controls (wd s') = l /\
    restored (ch s') = restored c1 /\ (failed c1 -> failed (ch s')) /\ (e = None -> result = None /\ released s')) s.
Proof.
  intros K Hc Ha Hd. unfold closeDevice. apply wp_bind. eapply (host_keeps _ c1 l); [exact K|intros w r w'; apply (dr_device drains)|]. intros e s1 K1.
  assert (forall s2, keeps c1 l s2 -> forall e' : err, (e' = None -> False) -> Own s2 /\ active (ch s2) = false /\ (device (ch s2) = false -> released s2) /\
    controls (wd s2) = l /\ restored (ch s2) = restored c1 /\ (failed c1 -> failed (ch s2)) /\ (e' = None -> result = None /\ released s2)) as Held.
  { intros s2 (O2 & U2 & C2) e' He. pose proof (um_static _ _ U2) as St. assert (device (ch s2) = true) as D2 by (unfold static in St; congruence).
    split_and!; try done; [unfold static in St; congruence|congruence|unfold static in St; congruence|by apply failed_unmoved]. }
  assert (forall s2, keeps c1 l s2 -> wp (cmod (set_device false);; mret (errors_Join [result; e])) (fun e s' => Own s' /\ active (ch s') = false /\ (device (ch s') = false -> released s') /\ controls (wd s') = l /\
    restored (ch s') = restored c1 /\ (failed c1 -> failed (ch s')) /\ (e = None -> result = None /\ released s')) s2) as Gone.
  { intros s2 (O2 & U2 & C2). pose proof (um_static _ _ U2) as St. assert (claim (ch s2) = false) as Hc2 by (unfold static in St; congruence).
    destruct (unclaimed_released _ O2 Hc2) as [Ep Er]. apply wp_bind, wp_modify, wp_ret. cbn [ch rx wd].
    assert (released (mkSt (set_device false (ch s2)) (rx s2) (wd s2))) as Rl by (by split_and!).
    split_and!; try done.
    - by apply Own_channel.
    - cbn. unfold static in St. congruence.
    - cbn. unfold static in St. congruence.
    - intros F. apply (failed_unmoved _ _ U2) in F. exact F.
    - intros J. rewrite errors_Join_None in J. inversion J. by split. }
  destruct e as [e|]; cbn [is_nil].
  - apply wp_bind. unfold device_pending. apply wp_bind, (yield_wp _ (Stable_keeps c1 l)); [done|]. intros s2 K2 _. apply wp_gets.
    destruct (cleanupPending usb_devicePending (wd s2)); [|by apply Gone]. apply wp_bind, wp_ret, wp_ret. apply Held; [done|].
    intros J. rewrite errors_Join_None in J. inversion J as [|? ? _ J2]. by inversion J2.
  - apply wp_bind, wp_ret. by apply Gone.
Qed.

Lemma ftdi_Close_wp fuel s :
  (drain_fuel <= fuel)%nat -> Own s -> device (ch s) = true -> wp (Close fuel) (close_post (ch s) (controls (wd s))) s.
Proof.
  intros Hf O Hd. unfold Close. apply wp_bind, wp_gets. rewrite Hd. cbn [negb]. apply wp_bind, wp_modify.
  set (c1 := set_active false (ch s)). set (l := controls (wd s)).
  assert (keeps c1 l (mkSt c1 (rx s) (wd s))) as K1 by (split_and!; [by apply Own_channel|apply unmoved_refl|done]).
  apply wp_bind. eapply wp_mono; [by apply (restoreForClose_wp c1 l)|]. intros result s2 (k & O2 & S2 & F2 & C2 & R2 & N2 & E2).
  change (restored c1) with (restored (ch s)) in *. change (claim c1) with (claim (ch s)) in *.
  apply wp_bind, wp_gets.
  assert (active (ch s2) = false /\ device (ch s2) = true) as [Ha2 Hd2] by (unfold static in S2; cbn in S2; split; congruence).
  assert (forall s', restored (ch s') = restored (ch s2) -> controls (wd s') = l ++ k -> (failed (ch s2) -> failed (ch s')) ->
    restored (ch s') = true -> restored (ch s) = true \/ failed (ch s') \/ controls (wd s') = l ++ requests restoreSteps) as Mark.
  { intros s' Er Ec Hfl Hr. rewrite Er in Hr. destruct result as [e|].
    - destruct (E2 ltac:(done) Hr) as [F|F]; [right; left; by apply Hfl|by left].
    - destruct (N2 eq_refl) as [(_ & _ & Hx)|[_ ->]]; [left; congruence|right; by right]. }
  assert (result = None -> claim (ch s) = true -> restored (ch s) = false -> k = requests restoreSteps) as Did.
  { intros -> Hc Hr. destruct (N2 eq_refl) as [(Hx & _ & _)|[_ ->]]; [|done]. by rewrite Hr, Hc in Hx. }
  destruct (negb (is_nil result) && negb (restored (ch s2))) eqn:Eb.
  { apply wp_ret. apply andb_true_iff in Eb as [Er Hr]. split; [done|done|congruence|by destruct result|]. by destruct (restored (ch s2)). }
  assert (keeps (ch s2) (l ++ k) s2) as K2 by (split_and!; [done|apply unmoved_refl|done]).
  apply wp_bind. eapply wp_mono; [by apply (releaseUSB_wp fuel (ch s2) (l ++ k))|]. intros e s3 (O3 & L3 & F3 & C3 & D3).
  assert (restored (ch s3) = restored (ch s2) /\ active (ch s3) = false /\ device (ch s3) = true) as (Er3 & Ha3 & Hd3).
  { unfold loose, static in L3. cbn in L3. split_and!; congruence. }
  assert (forall r, claim (ch s3) = false -> (r = None -> result = None) -> wp (closeDevice r) (close_post (ch s) l) s3) as Dev.
  { intros r Hc3 Hr. assert (keeps (ch s3) (l ++ k) s3) as K3 by (split_and!; [done|apply unmoved_refl|done]).
    eapply wp_mono; [by apply (ftdi_closeDevice_wp r (ch s3) (l ++ k))|]. intros e' s4 (O4 & A4 & D4 & C4 & R4 & F4 & N4). split; try done.
    - intros He. destruct (N4 He) as [Rn Rl]. split; [done|]. intros H1' H2'. rewrite C4, (Did (Hr Rn) H1' H2'). done.
    - apply Mark; [congruence|done|]. intros F. by apply F4, F3. }
  destruct e as [e|].
  - apply wp_bind, wp_gets. destruct (claim (ch s3)) eqn:Hc3.
    + apply wp_ret. split; [done|done|congruence| |].
      * intros J. rewrite errors_Join_None in J. inversion J as [|? ? _ J2]. by inversion J2.
      * by apply Mark.
    + apply Dev; [done|]. intros J. rewrite errors_Join_None in J. by inversion J.
  - apply Dev; [by apply D3|done].
Qed.

(** *** Exchanges own what they owned *)

(** If [m] returns, the channel still owns its receiver, and no control request
    was made. *)
Definition Owns {A} (m : GoM (St (W := W)) A) : Prop :=
  forall l s, Own s -> controls (wd s) = l -> ends m (fun _ s' => Own s' /\ controls (wd s') = l) s.

Lemma Owns_ret {A} (a : A) : Owns (mret a).
Proof. by intros l s O E. Qed.

Lemma Owns_bind {A B} (m : GoM St A) (f : A -> GoM St B) : Owns m -> (forall a, Owns (f a)) -> Owns (mbind f m).
Proof. intros Hm Hf l s O E. apply ends_bind. eapply ends_mono; [by apply Hm|]. intros a s' [O' E']. by apply Hf. Qed.

Lemma Owns_cget {A} (f : Channel -> A) : Owns (cget f).
Proof. by intros l s O E. Qed.

Lemma Owns_lift {A} (o : option A) : Owns (lift o).
Proof. intros l s O E. unfold ends, lift. by destruct o. Qed.

Lemma Owns_cmod f : (forall s, Own s -> Own (mkSt (f (ch s)) (rx s) (wd s))) -> Owns (cmod f).
Proof. intros Hf l s O E. split; [by apply Hf|done]. Qed.

Lemma wp_then_ends {X A} (m : GoM X A) Q (x : X) : wp m Q x -> ends m Q x.
Proof. unfold wp, ends. by destruct (m x) as [[a s']| |]. Qed.

Lemma Owns_world {A} (f : W -> A * W) : (forall w r w', f w = (r, w') -> advances w w') -> Owns (world f).
Proof.
  intros Hf l s O E. unfold ends, world. destruct (f (wd s)) as [a w] eqn:Ef. destruct (Hf _ _ _ Ef) as (A1 & _ & A3).
  split; [by apply Own_world|]. cbn [wd]. congruence.
Qed.

Lemma Owns_yield : Owns yield.
Proof.
  intros l s O E. apply wp_then_ends. eapply (yield_wp _ (Stable_keeps (ch s) l)); [split_and!; [done|apply unmoved_refl|done]|]. by intros s' (O' & _ & E') _.
Qed.

Lemma Owns_host {A} (f : W -> A * W) : (forall w r w', f w = (r, w') -> advances w w') -> Owns (host f).
Proof. intros Hf. apply Owns_bind; [apply Owns_yield|]. intros _. by apply Owns_world. Qed.

Lemma Owns_locked {A} (f : Channel -> A) g : (forall s, Own s -> Own (mkSt (g (ch s)) (rx s) (wd s))) -> Owns (locked f g).
Proof.
  intros Hg. apply Owns_bind; [apply Owns_yield|]. intros _. apply Owns_bind; [apply Owns_cget|]. intros a.
  apply Owns_bind; [by apply Owns_cmod|]. intros _. apply Owns_ret.
Qed.

Lemma Own_same s : Own s -> Own (mkSt (id (ch s)) (rx s) (wd s)).
Proof. by destruct s. Qed.
Lemma Own_poison e s : Own s -> Own (mkSt (first_poison e (ch s)) (rx s) (wd s)).
Proof. intros O. unfold first_poison. destruct (poisonErr (ch s)); [by apply Own_same|by apply Own_channel]. Qed.
Lemma Own_response b n s : Own s -> Own (mkSt (set_response b n (ch s)) (rx s) (wd s)).
Proof. intros O. by apply Own_channel. Qed.

(** Taking from the queues. *)
Lemma Own_taken s p p' : Own s -> pipes (ch s) = Some p -> receiveDone p' = receiveDone p -> Own (mkSt (set_pipes (Some p') (ch s)) (rx s) (wd s)).
Proof.
  intros [A1 A2 A3 A4 A5 A6 A7] E Ed. split; cbn [ch rx wd pipes set_pipes claim]; try done.
  - intros _. apply A4. by rewrite E.
  - intros q [= <-]. rewrite Ed. by apply A5.
Qed.

Ltac owns := repeat first
  [ apply Owns_ret | apply Owns_cget | apply Owns_lift | apply Owns_yield
  | match goal with |- Owns (locked _ _) => apply Owns_locked; intros; first [by apply Own_same|by apply Own_poison|by apply Own_response] end
  | match goal with |- Owns (mbind _ _) => apply Owns_bind; [|intro] end
  | match goal with |- Owns (match ?x with _ => _ end) => destruct x end ].

Lemma Owns_ctxErr ctx : Owns (ctxErr ctx).
Proof. apply Owns_bind; [apply Owns_host; intros w r w'; apply (dr_ctx drains)|]. intros e. owns. Qed.

Lemma Owns_poison e : Owns (poison e).
Proof. unfold poison. owns. Qed.

Lemma Owns_transportReady : Owns transportReady.
Proof. unfold transportReady, restorationFailure. owns. Qed.

Lemma Owns_select n : Owns (select n).
Proof. apply Owns_bind; [apply Owns_world; intros w r w'; apply (dr_choose drains)|]. intros i. owns. Qed.

Lemma Owns_bulkWrite ctx data : Owns (bulkWrite ctx data).
Proof.
  unfold bulkWrite. owns; try apply Owns_ctxErr; apply Owns_host; intros w r w'.
  - intros E. by apply (dr_submit drains _ _ _ _ _ _ E).
  - apply (dr_wait drains).
  - intros E. by apply (dr_abort drains _ _ _ _ E).
  - apply (dr_wait drains).
Qed.

Lemma Owns_writeExact ctx data : Owns (writeExact ctx data).
Proof.
  assert (forall turns rest, Owns (write_loop turns ctx rest)) as Loop.
  { induction turns as [|turns IH]; intros [|x rest]; cbn [write_loop]; [owns|by intros l s O E|owns|].
    owns; first [apply Owns_bulkWrite|apply Owns_poison|apply Owns_transportReady|apply IH]. }
  unfold writeExact. owns; [apply Owns_transportReady|apply Owns_ctxErr|apply Loop].
Qed.

Lemma Owns_take_chunk : Owns take_chunk.
Proof.
  intros l s O E. unfold take_chunk. apply ends_bind. unfold ends at 1, cget, gets. destruct (pipes (ch s)) as [[[|chunk rest] errs stop dn]|] eqn:Ep; [done| |done].
  unfold ends. cbn. split; [|done]. by apply (Own_taken s _ _ O Ep).
Qed.

Lemma Owns_take_error : Owns take_error.
Proof.
  intros l s O E. unfold take_error. apply ends_bind. unfold ends at 1, cget, gets. destruct (pipes (ch s)) as [[chunks [|e errs] stop dn]|] eqn:Ep; [done| |done].
  unfold ends. cbn. split; [|done]. by apply (Own_taken s _ _ O Ep).
Qed.

Lemma Owns_await fuel ctx : Owns (await fuel ctx).
Proof.
  induction fuel as [|fuel IH]; cbn [await]; (apply Owns_bind; [apply Owns_host; intros w r w' E; by apply (dr_idle drains _ _ _ _ E)|]);
    intros ended; owns; first [apply Owns_select|done|by intros l s O E].
Qed.

Lemma Owns_readPayload fuel ctx size : Owns (readPayload fuel ctx size).
Proof.
  assert (forall turns got, Owns (read_loop turns fuel ctx size got)) as Loop.
  { induction turns as [|turns IH]; intros got; cbn [read_loop]; destruct (size <=? len got); [owns|by intros l s O E|owns|].
    owns; first [apply Owns_await|apply Owns_take_chunk|apply Owns_take_error|apply Owns_poison|apply IH]. }
  unfold readPayload. owns; first [apply Owns_transportReady|apply Owns_ctxErr|apply Owns_poison|apply Loop].
Qed.

Lemma Owns_exchange fuel ctx output size : Owns (exchangePayload fuel ctx output size).
Proof.
  unfold exchangePayload, beginResponse, endResponse.
  owns; first [apply Owns_ctxErr|apply Owns_select|apply Owns_take_error|apply Owns_take_chunk|apply Owns_poison|apply Owns_writeExact
    |apply Owns_readPayload|apply Owns_cmod; intros; by apply Own_response].
Qed.

Lemma wp_owns {A} (m : GoM St A) Q s : Owns m -> Own s -> wp m Q s -> wp m (fun a s' => Q a s' /\ Own s' /\ controls (wd s') = controls (wd s)) s.
Proof. intros Hm O Hw. apply wp_ends; [done|]. by apply Hm. Qed.
End Drained.

(** ** Opening

    Over a device that answers in order and a host that drains. *)

Section Opening.
Context {W T : Type} `{Env W} `{FtdiUsb W}.
Implicit Types (s : St (W := W)) (c : Channel) (w : W).
Variables (clock : edge -> T -> bool * T) (v0 d0 : Z) (t0 : T) (ps bin bout : Z) (G : Ghost (W := W)).
Hypothesis wire : Wire clock v0 d0 t0 ps bin bout G.
Variables (budget : W -> nat) (ctx : context) (fuel : nat).
Hypothesis patient : Patient budget ctx.
Variables (issued landed : nat -> W -> Prop) (controls : W -> list (Z * Z)) (lag : W -> nat) (L : nat).
Hypothesis drains : Drains issued landed controls lag L bin.

Abbreviation Own := (Own issued bin).
Abbreviation keeps := (keeps issued controls bin).
Abbreviation Quiet := (Quiet clock v0 d0 t0 ps bin G budget fuel).
Abbreviation respond := (respond clock v0 d0 t0).

(** The other operations of opening leave the command stream alone; the endpoint
    has the packet size the answers are split by. *)
Definition unheard w w' : Prop := same G w w' /\ (budget w' <= budget w)%nat.

Record Setup : Prop := {
  su_claim i w r w' : usb_claimInterface i w = (r, w') -> unheard w w';
  su_control q v i w r w' : usb_ControlTransfer ctx requestTypeOut q v i w = (r, w') -> unheard w w';
  su_settle w r w' : usb_Settle ctx w = (r, w') -> unheard w w';
  su_endpoint w ep e w' : usb_Endpoint ctx bin w = ((ep, e), w') -> unheard w w' /\ (e = None -> MaxPacketSize ep = ps);
  su_size : ps <= 1024
}.

Hypothesis setup : Setup.

Definition Fresh (snt : list Z) w : Prop :=
  sent G w = snt /\ posted G w = None /\ arrived G w = respond snt /\ (budget w <= fuel)%nat.

Lemma Fresh_unheard snt w w' : Fresh snt w -> unheard w w' -> Fresh snt w'.
Proof. intros (A & B & C & D) [(E1 & E2 & E3) E4]. split_and!; [congruence|congruence|congruence|lia]. Qed.

Lemma run_unheard w n w' : sched_run w = (n, w') -> unheard w w'.
Proof. intros E. split; [by eapply (wr_run _ _ _ _ _ _ _ _ wire)|]. pose proof (pt_run _ _ patient w) as B. by rewrite E in B. Qed.

(** Before the receiver starts. *)
Definition calm c0 l snt s : Prop := keeps c0 l s /\ rx s = NoReceiver /\ Fresh snt (wd s).

Lemma calm_intro c0 l snt s :
  Own s -> unmoved c0 (ch s) -> controls (wd s) = l -> rx s = NoReceiver -> Fresh snt (wd s) -> calm c0 l snt s.
Proof. intros. by split_and!. Qed.

Lemma Stable_calm c0 l snt : Stable (calm c0 l snt).
Proof.
  split; [intros s (K & _); apply K| |].
  - intros s s' (K & R & F) St. destruct (rstep_off _ _ St) as (_ & _ & Off). rewrite (Off (or_introl R)). by split_and!.
  - intros s n w (K & R & F) E. split_and!; [by eapply (sb_run _ (Stable_keeps _ _ _ _ _ _ drains c0 l))|done|].
    eapply Fresh_unheard; [exact F|by eapply run_unheard].
Qed.

Lemma host_calm {A} (f : W -> A * W) c0 l snt (Q : A -> St -> Prop) s :
  calm c0 l snt s -> (forall w r w', f w = (r, w') -> advances issued landed controls w w' /\ unheard w w') ->
  (forall r s', calm c0 l snt s' -> Q r s') -> wp (host f) Q s.
Proof.
  intros K Hf HQ. eapply (host_wp _ (Stable_calm c0 l snt)); [exact K|]. intros s' r w' ((O & U & E) & R & F) _ Ef.
  destruct (Hf _ _ _ Ef) as [(A1 & _ & A3) Un]. apply HQ, calm_intro; [by apply Own_world|done|cbn [wd]; congruence|done|by eapply Fresh_unheard].
Qed.

Lemma recordLoss_calm e c0 l snt (Q : unit -> St -> Prop) s : calm c0 l snt s -> (forall s', calm c0 l snt s' -> Q tt s') -> wp (recordLoss e) Q s.
Proof.
  intros K HQ. unfold recordLoss. destruct (errors_Is e _); [|by apply wp_ret, HQ]. eapply (locked_wp _ (Stable_calm c0 l snt)); [exact K|].
  intros s' ((O & U & E) & R & F) _. apply HQ, calm_intro; try done; [by apply Own_channel|]. cbn [ch]. eapply unmoved_trans; [exact U|]. by split.
Qed.

Lemma control_steps_calm steps c0 l snt s :
  calm c0 l snt s -> wp (control_steps ctx steps) (fun e s' => exists k, (e = None -> k = requests steps) /\ calm c0 (l ++ k) snt s') s.
Proof.
  revert l s. induction steps as [|st steps IH]; intros l s K; cbn [control_steps].
  { apply wp_ret. exists []. rewrite app_nil_r. by split. }
  apply wp_bind. unfold runControl, control. apply wp_bind, wp_bind, wp_gets, wp_bind.
  eapply (host_wp _ (Stable_calm c0 l snt)); [exact K|]. intros s1 [n e] w1 ((O1 & U1 & E1) & R1 & F1) _ Ef.
  destruct (dr_control _ _ _ _ _ _ drains _ _ _ _ _ _ _ _ Ef) as (A1 & _ & A3). cbn [snd] in A3.
  assert (calm c0 (l ++ (if is_nil e then [(cs_request st, cs_value st)] else [])) snt (mkSt (ch s1) (rx s1) w1)) as K1.
  { apply calm_intro; [by apply Own_world|done|cbn [wd]; congruence|done|]. eapply Fresh_unheard; [exact F1|]. by eapply su_control. }
  cbn beta iota. apply wp_bind. eapply recordLoss_calm; [exact K1|]. intros s2 K2. apply wp_ret. cbn beta iota. destruct e as [e|]; cbn [is_nil] in K2.
  - apply wp_ret, wp_ret. exists []. by split.
  - apply wp_ret. eapply wp_mono; [by apply IH|]. intros e s3 (k & Ek & K3). exists ((cs_request st, cs_value st) :: k).
    split; [intros He; unfold requests; cbn; by rewrite (Ek He)|]. by rewrite <- app_assoc in K3.
Qed.

(** What a failed step of opening leaves to [Close]. *)
Definition frame c := static (set_packetSize 0 (set_claim false c)).
Definition unfinished c0 s : Prop := Own s /\ frame (ch s) = frame c0.

Lemma calm_unfinished c0 l snt s : calm c0 l snt s -> unfinished c0 s.
Proof. intros ((O & U & _) & _). split; [done|]. pose proof (um_static _ _ U) as E. unfold frame, static in *. cbn. congruence. Qed.

Lemma enterMPSSE_wp c0 l snt s :
  calm c0 l snt s -> claim c0 = false -> pipes c0 = None ->
  wp (enterMPSSE ctx) (fun e s' => match e with
    | None => calm (set_claim true c0) (l ++ requests enterSteps) snt s'
    | Some _ => unfinished c0 s'
    end) s.
Proof.
  intros K Hc Hp. unfold enterMPSSE. apply wp_bind. unfold claimUSB. apply wp_bind, wp_gets, wp_bind.
  eapply (host_calm _ c0 l snt); [exact K|intros w r w' E; split; [by eapply dr_claim|by eapply su_claim]|]. intros e s1 K1.
  apply wp_bind. eapply recordLoss_calm; [exact K1|]. intros s2 K2. destruct e as [e|]; [by apply wp_ret, wp_ret, (calm_unfinished _ _ _ _ K2)|].
  apply wp_bind, wp_modify, wp_ret. destruct K2 as ((O2 & U2 & C2) & R2 & F2). pose proof (um_static _ _ U2) as S2.
  assert (pipes (ch s2) = None) as P2.
  { destruct (pipes (ch s2)) eqn:E; [|done]. destruct (proj1 (um_pipes _ _ U2)) as [x Ex]; [by rewrite E|]. congruence. }
  assert (calm (set_claim true c0) l snt (mkSt (set_claim true (ch s2)) (rx s2) (wd s2))) as K3.
  { apply calm_intro; try done.
    - destruct O2 as [A1 A2 A3 A4 A5 A6 A7]. split; try done.
    - cbn [ch]. destruct U2 as [B1 B2 B3 B4 B5]. split; try done. unfold static in *. cbn. congruence. }
  apply wp_bind. eapply wp_mono; [by apply control_steps_calm|]. intros e s4 (k & Ek & K4).
  assert (forall l' s', calm (set_claim true c0) l' snt s' -> unfinished c0 s') as Un by (intros l' s' K'; by apply (calm_unfinished _ _ _ _ K')).
  destruct e as [e|]; [by apply wp_ret, (Un _ _ K4)|]. rewrite (Ek eq_refl) in K4.
  unfold settleMPSSE. apply wp_bind. eapply (host_calm _ _ _ snt); [exact K4|intros w r w' E; split; [by eapply dr_settle|by eapply su_settle]|].
  intros [e|] s5 K5; apply wp_ret; cbn [option_map]; [by apply (Un _ _ K5)|done].
Qed.

(** While the reads are submitted there are pipes but no receiver. *)
Record Posting c0 l snt (reads : list usbRead) s : Prop := {
  pg_rx : rx s = NoReceiver;
  pg_unmoved : unmoved c0 (ch s);
  pg_pipes : pipes (ch s) = Some (mkPipes [] [] false false);
  pg_controls : controls (wd s) = l;
  pg_fresh : Fresh snt (wd s);
  pg_issued : Forall (fun read => issued (rd_transfer read) (wd s)) reads
}.

Lemma Posting_world c0 l snt reads s w :
  Posting c0 l snt reads s -> advances issued landed controls (wd s) w -> unheard (wd s) w -> Posting c0 l snt reads (mkSt (ch s) (rx s) w).
Proof.
  intros [A1 A2 A3 A4 A5 A6] (B1 & _ & B3) Un. split; cbn [ch rx wd]; try done; [congruence|by eapply Fresh_unheard|].
  eapply Forall_impl; [exact A6|]. intros read. apply B1.
Qed.

Lemma Stable_Posting c0 l snt reads : Stable (Posting c0 l snt reads).
Proof.
  split.
  - intros s P. rewrite (pg_rx _ _ _ _ _ P). by split.
  - intros s s' P St. destruct (rstep_off _ _ St) as (_ & _ & Off). by rewrite (Off (or_introl (pg_rx _ _ _ _ _ P))).
  - intros s n w P E. apply Posting_world; [done|by apply (dr_run _ _ _ _ _ _ drains _ _ _ E)|by eapply run_unheard].
Qed.

Lemma submit_unheard buffer w r w' : usb_SubmitBulk ctx bin buffer w = (r, w') -> unheard w w'.
Proof. intros E. split; [by eapply (wr_in _ _ _ _ _ _ _ _ wire)|]. pose proof (pt_submit _ _ patient ctx bin buffer w) as B. by rewrite E in B. Qed.

Lemma recordLoss_posting e c0 l snt reads (Q : unit -> St -> Prop) s :
  Posting c0 l snt reads s -> (forall s', Posting c0 l snt reads s' -> Q tt s') -> wp (recordLoss e) Q s.
Proof.
  intros K HQ. unfold recordLoss. destruct (errors_Is e _); [|by apply wp_ret, HQ]. eapply (locked_wp _ (Stable_Posting c0 l snt reads)); [exact K|].
  intros s' [A1 A2 A3 A4 A5 A6] _. apply HQ. split; try done. cbn [ch]. eapply unmoved_trans; [exact A2|]. by split.
Qed.

Lemma submit_loop_wp depth reads c0 l snt s :
  Posting c0 l snt reads s -> bulkIn c0 = bin ->
  wp (submit_loop depth ctx reads) (fun r s' => exists k, Posting c0 l snt (reads ++ k) s' /\
    (snd r = None -> fst r = reads ++ k /\ length k = depth)) s.
Proof.
  revert reads s. induction depth as [|depth IH]; intros reads s P Hb; cbn [submit_loop].
  { apply wp_ret. exists []. rewrite app_nil_r. by split. }
  apply wp_bind, wp_gets, wp_bind. unfold submitUSBRead. apply wp_bind, wp_gets.
  assert (bulkIn (ch s) = bin) as -> by (pose proof (um_static _ _ (pg_unmoved _ _ _ _ _ P)); unfold static in *; congruence).
  apply wp_bind. eapply (host_wp _ (Stable_Posting c0 l snt reads)); [exact P|]. intros s1 [h e] w1 P1 _ Es.
  destruct (dr_submit _ _ _ _ _ _ drains _ _ _ _ _ _ Es) as [Adv Iss]. pose proof (Posting_world _ _ _ _ _ _ P1 Adv (submit_unheard _ _ _ _ Es)) as P2.
  destruct e as [e|].
  - apply wp_bind. eapply recordLoss_posting; [exact P2|]. intros s3 P3. apply wp_ret, wp_ret. exists []. rewrite app_nil_r. by split.
  - set (read := mkUsbRead (make_bytes (packetSize (ch s))) h).
    assert (Posting c0 l snt (reads ++ [read]) (mkSt (ch s1) (rx s1) w1)) as P3.
    { destruct P2 as [A1 A2 A3 A4 A5 A6]. split; try done. apply Forall_app. split; [done|]. constructor; [by apply Iss|constructor]. }
    apply wp_bind. eapply recordLoss_posting; [exact P3|]. intros s3 P4. apply wp_ret.
    eapply wp_mono; [by apply IH|]. intros [r e] s4 (k & P5 & K). exists (read :: k). rewrite <- app_assoc in P5. split; [done|].
    cbn [fst snd] in *. intros He. destruct (K He) as [-> <-]. by rewrite <- app_assoc.
Qed.

Lemma openUSBTransfers_wp c0 l snt s :
  calm c0 l snt s -> pipes c0 = None -> bulkIn c0 = bin -> claim c0 = true ->
  wp (openUSBTransfers ctx) (fun e s' => match e with
    | None => Quiet snt s' /\ Own s' /\ static (ch s') = static (set_packetSize ps c0) /\ controls (wd s') = l
    | Some _ => unfinished c0 s'
    end) s.
Proof.
  intros K Hp Hb Hc. unfold openUSBTransfers. apply wp_bind, wp_gets. cbn [id].
  assert (bulkIn (ch s) = bin) as -> by (destruct K as ((_ & U & _) & _); pose proof (um_static _ _ U); unfold static in *; congruence).
  apply wp_bind. eapply (host_wp _ (Stable_calm c0 l snt)); [exact K|]. intros s1 [ep e] w1 ((O1 & U1 & E1) & R1 & F1) _ Ef.
  destruct (su_endpoint setup _ _ _ _ Ef) as [Un Hps]. pose proof (dr_endpoint _ _ _ _ _ _ drains _ _ _ _ _ Ef) as (A1 & _ & A3).
  assert (calm c0 l snt (mkSt (ch s1) (rx s1) w1)) as K1 by (apply calm_intro; [by apply Own_world|done|cbn [wd]; congruence|done|by eapply Fresh_unheard]).
  apply wp_bind. eapply recordLoss_calm; [exact K1|]. intros s2 K2. destruct e as [e|]; [by apply wp_ret, (calm_unfinished _ _ _ _ K2)|].
  destruct (_ || _) eqn:Ev; [by apply wp_ret, (calm_unfinished _ _ _ _ K2)|]. apply orb_false_iff in Ev as [_ Hsz%Z.leb_gt]. unfold packetStatusSize in Hsz.
  rewrite (Hps eq_refl) in *. apply wp_bind, wp_modify, wp_bind, wp_modify. destruct K2 as ((O2 & U2 & C2) & R2 & F2). pose proof (um_static _ _ U2) as S2.
  set (c2 := set_pipes (Some (mkPipes [] [] false false)) (set_packetSize ps (ch s2))).
  assert (Posting c2 l snt [] (mkSt c2 (rx s2) (wd s2))) as P2 by (split; try done; apply unmoved_refl).
  assert (static c2 = static (set_packetSize ps c0)) as Sc by (unfold static in *; cbn; congruence).
  assert (bulkIn c2 = bin) as Hb2 by (unfold static in *; cbn; congruence).
  apply wp_bind. eapply wp_mono; [by apply (submit_loop_wp _ [] c2 l snt)|]. intros [reads e] s3 (k & P3 & Ek). cbn [app fst snd] in *.
  assert (forall s', Posting c2 l snt k s' -> static (ch s') = static (set_packetSize ps c0)) as Ps by (intros s' P; rewrite (um_static _ _ (pg_unmoved _ _ _ _ _ P)); done).
  assert (forall s', Posting c2 l snt k s' -> unfinished c0 (mkSt (set_pipes None (ch s')) (rx s') (wd s'))) as Fail.
  { intros s' P. pose proof (Ps _ P) as S'. split; [|unfold frame, static in S' |- *; cbn in S' |- *; congruence]. pose proof (pg_rx _ _ _ _ _ P) as Rx.
    split; cbn [ch rx wd]; rewrite ?Rx; try done; first [by intros []|by left|cbn; unfold static in S'; cbn in S'; congruence]. }
  destruct e as [e|].
  - apply wp_bind. eapply (host_wp _ (Stable_Posting c2 l snt k)); [exact P3|]. intros s4 a w4 P4 _ Ea. apply wp_bind, wp_modify, wp_ret.
    assert (errors_Join [Some e; a] <> None) as Nj by (intros J; rewrite errors_Join_None in J; by inversion J).
    destruct (errors_Join [Some e; a]); [|done].
    destruct (dr_abort _ _ _ _ _ _ drains _ _ _ _ Ea) as [(B1 & _ & B3) _]. pose proof (Fail _ P4) as [O' E']. cbn [ch rx wd] in *. split; [|exact E'].
    exact (Own_world issued bin _ w4 O' B1).
  - destruct (Ek eq_refl) as [-> Lk]. apply wp_bind, wp_modify, wp_ret. cbn [ch rx wd]. pose proof (Ps _ P3) as S3.
    assert (2 <= length k)%nat as Deep.
    { rewrite Lk. destruct (receiveDepth_spec maxResponsePayload ps Hsz) as [_ D]. pose proof (su_size setup). unfold maxResponsePayload, maxJTAGTransferBits, maxSWDTransferBits in *.
      change (16384 / 2 + 2) with 8194 in *. nia. }
    assert (packetSize (ch s3) = ps /\ bulkIn (ch s3) = bin /\ claim (ch s3) = true) as (E3 & E4 & E5) by (unfold static in S3; cbn in S3; split_and!; congruence).
    destruct P3 as [_ _ Pp Pc (F3 & F4 & F5 & F6) Pi].
    assert (k <> []) as Nk by (destruct k; [simpl in Deep; lia|done]).
    assert (rx_ok (ch s3) (AtWait k)) as Rk by (split; [done|intros _; congruence]).
    split_and!; try done.
    + split; cbn [ch rx wd]; try done. exists (mkPipes [] [] false false), []. split_and!; try done. cbn [receive concat app]. by rewrite F5, app_nil_r.
    + split; cbn [ch rx wd]; try done; [by rewrite Pp|]. intros p. rewrite Pp. intros [= <-]. by split.
Qed.

(** *** Synchronizing and configuring *)

Record Ready c0 l (snt : list Z) s : Prop := {
  rd_quiet : Quiet snt s;
  rd_own : Own s;
  rd_static : static (ch s) = static c0;
  rd_controls : controls (wd s) = l;
  rd_boundary : is_Some (boundary snt v0 d0)
}.

(** The endpoints of the channel being opened. *)
Definition prepared c0 : Prop := receiving c0 = false /\ device c0 = true /\ claim c0 = true /\ bulkOut c0 = bout.

Definition step_post c0 l (snt output : list Z) (e : err) s : Prop :=
  match e with
  | None => Ready c0 l (snt ++ output) s
  | Some _ => Own s /\ static (ch s) = static c0
  end.

Lemma silent_app snt output v d r :
  boundary snt v0 d0 = Some (v, d) -> (forall t, exists t', mpsse clock output v d t = (r, t')) -> respond (snt ++ output) = respond snt ++ r.
Proof.
  intros Hb Hm. unfold FtdiChannelFacts.respond. rewrite (mpsse_app _ _ _ _ _ _ _ _ Hb). destruct (mpsse clock snt v0 d0 t0) as [r0 t1].
  destruct (Hm t1) as [t' ->]. done.
Qed.

Lemma synchronize_wp c0 l snt s :
  Ready c0 l snt s -> prepared c0 -> wp (synchronize fuel ctx) (step_post c0 l snt [invalidCommand; cmdSendImmediate]) s.
Proof.
  intros [Q O S C [[v d] B]] (P1 & P2 & P3 & P4). unfold synchronize. apply wp_bind.
  assert (respond (snt ++ [invalidCommand; cmdSendImmediate]) = respond snt ++ [0xfa; invalidCommand]) as Er by (eapply silent_app; [exact B|by eexists]).
  eapply wp_mono; [apply wp_owns with (issued := issued) (controls := controls) (bin := bin);
    [eapply Owns_exchange; exact drains|done|apply (ftdi_exchange_wp clock v0 d0 t0 ps bin bout G wire budget ctx fuel patient snt _ [0xfa; invalidCommand] c0); done]|].
  intros [a [e|]] s' [[S' K] [O' C']]; cbn [fst snd] in *; [apply wp_ret; by split|]. destruct K as [-> Q'].
  apply wp_bind. eapply wp_lift; [reflexivity|]. cbn [negb Z.eqb Pos.eqb]. apply wp_bind. eapply wp_lift; [reflexivity|]. cbn [negb orb Z.eqb Pos.eqb]. apply wp_ret.
  split; try done; [congruence|]. rewrite (boundary_app _ _ _ _ _ _ B). by eexists.
Qed.

Lemma configuration_silent d v e t : mpsse clock (configuration d) v e t = ([], t).
Proof. reflexivity. Qed.

Lemma configure_wp c0 l snt s :
  Ready c0 l snt s -> prepared c0 -> wp (configure ctx) (step_post c0 l snt (configuration (divisor c0))) s.
Proof.
  intros [Q O S C [[v d] B]] (P1 & P2 & P3 & P4). unfold configure. apply wp_bind, wp_gets. assert (divisor (ch s) = divisor c0) as -> by (unfold static in S; congruence).
  assert (respond (snt ++ configuration (divisor c0)) = respond snt) as Er.
  { rewrite <- (app_nil_r (respond snt)). eapply silent_app; [exact B|]. intros t. exists t. apply configuration_silent. }
  eapply wp_mono; [apply wp_owns with (issued := issued) (controls := controls) (bin := bin);
    [eapply Owns_writeExact; exact drains|done|apply (ftdi_writeExact_wp clock v0 d0 t0 ps bin bout G wire budget ctx fuel patient (respond snt) snt _ c0); done]|].
  intros [e|] s' [K [O' C']]; cbn [step_post].
  - split; [done|]. destruct K as [(_ & _ & S')|(_ & _ & S')]; done.
  - destruct K as [[Q' S']|[? _]]; [|done]. split; try done; [|congruence|].
    + unfold FtdiChannelFacts.Quiet. by rewrite Er.
    + rewrite (boundary_app _ _ _ _ _ _ B). by eexists.
Qed.

(** *** The whole of opening *)

Definition opening (d : Z) : list Z :=
  [invalidCommand; cmdSendImmediate] ++ configuration d ++ [invalidCommand; cmdSendImmediate].

Lemma prepare_body_wp c0 l snt s :
  calm c0 l snt s -> claim c0 = false -> pipes c0 = None -> bulkIn c0 = bin -> bulkOut c0 = bout -> device c0 = true -> receiving c0 = false ->
  is_Some (boundary snt v0 d0) ->
  wp (prepare_body fuel ctx) (fun e s' => match e with
    | None => Ready (set_active true (set_packetSize ps (set_claim true c0))) (l ++ requests enterSteps) (snt ++ opening (divisor c0)) s'
    | Some _ => unfinished c0 s'
    end) s.
Proof.
  intros K Hc Hp Hb Ho Hd Hr B. unfold prepare_body. apply wp_bind. eapply wp_mono; [by apply (enterMPSSE_wp c0 l snt)|].
  intros [e|] s1 K1; [by apply wp_ret|]. set (c1 := set_claim true c0) in *. set (l1 := l ++ requests enterSteps) in *.
  apply wp_bind. eapply wp_mono; [by apply (openUSBTransfers_wp c1 l1 snt)|]. intros [e|] s2 K2; [by apply wp_ret|]. destruct K2 as (Q2 & O2 & S2 & C2).
  set (c2 := set_packetSize ps c1) in *. assert (prepared c2) as Pr by (by split_and!).
  assert (Ready c2 l1 snt s2) as R2 by (by split).
  assert (forall s', Own s' /\ static (ch s') = static c2 -> unfinished c0 s') as Un.
  { intros s' [O' S']. split; [done|]. unfold frame, static in *. cbn in S' |- *. congruence. }
  apply wp_bind. eapply wp_mono; [by apply (synchronize_wp c2 l1 snt)|]. intros [e|] s3 K3; [by apply wp_ret, Un|].
  apply wp_bind. eapply wp_mono; [by apply (configure_wp c2 l1 _ s3 K3)|]. intros [e|] s4 K4; [by apply wp_ret, Un|].
  apply wp_bind. eapply wp_mono; [by apply (synchronize_wp c2 l1 _ s4 K4)|]. intros [e|] s5 K5; [by apply wp_ret, Un|].
  apply wp_bind, wp_modify, wp_ret. destruct K5 as [Q5 O5 S5 C5 B5]. cbn [ch rx wd].
  assert ((snt ++ [invalidCommand; cmdSendImmediate]) ++ configuration (divisor c2) = snt ++ [invalidCommand; cmdSendImmediate] ++ configuration (divisor c0)) as E1 by (by rewrite <- app_assoc).
  rewrite E1 in *. rewrite <- !app_assoc in *. split; try done.
  - by apply Inv_channel.
  - by apply Own_channel.
  - cbn [ch]. unfold static in *. cbn in S5 |- *. congruence.
Qed.

Lemma fresh_own port d w : bin = bulkIn (fresh port d) -> Own (mkSt (fresh port d) NoReceiver w).
Proof. intros ->. split; cbn; try done; first [by left|by intros []]. Qed.

(** What opening leaves: no channel and nothing touched; an open channel, idle
    behind its synchronized and configured device; or a channel that was closed
    as far as it could be. *)
Definition open_post config (snt : list Z) s (r : bool * err) s' : Prop :=
  match r with
  | (false, e) => e <> None /\ ch s' = ch s /\ rx s' = rx s
  | (true, None) => exists d, clockDivisor (MaxClockHz config) = (d, None) /\ active (ch s') = true /\ clockHz (ch s') = dividedClock d /\
      Quiet (snt ++ opening d) s' /\ is_Some (boundary (snt ++ opening d) v0 d0) /\ prepared (ch s') /\ Own s' /\
      controls (wd s') = controls (wd s) ++ requests enterSteps
  | (true, Some _) => Own s' /\ active (ch s') = false /\ (device (ch s') = false -> released s')
  end.

Lemma openChannel_wp dev config snt s :
  Fresh snt (wd s) -> is_Some (boundary snt v0 d0) -> (drain_fuel L <= fuel)%nat ->
  (cfg_Port config <> PortUnspecified -> bin = bulkIn (fresh (cfg_Port config) 0) /\ bout = bulkOut (fresh (cfg_Port config) 0)) ->
  wp (openChannel fuel ctx dev config) (open_post config snt s) s.
Proof.
  intros F B Hf Hcfg. unfold openChannel. destruct (ctx_nil ctx); [by apply wp_ret|]. apply wp_bind. unfold wp at 1, world.
  destruct (ctx_Err ctx (wd s)) as [[e|] w] eqn:Ec; [by apply wp_ret|]. apply wp_bind, wp_gets. cbn [wd].
  assert (Fresh snt w /\ controls w = controls (wd s)) as [Fw Cw].
  { destruct (dr_ctx _ _ _ _ _ _ drains _ _ _ _ Ec) as (_ & _ & E). split; [|done]. eapply Fresh_unheard; [exact F|].
    split; [by eapply (wr_ctx _ _ _ _ _ _ _ _ wire)|]. pose proof (pt_ctx _ _ patient (wd s)) as P. by rewrite Ec in P. }
  destruct (newChannel dev config w) as [c|e] eqn:En; [|by apply wp_ret].
  unfold newChannel in En. destruct dev; [|done]. cbn [negb] in En. case_bool_decide as Ep; [done|]. destruct (validateSelection _ _); [done|].
  destruct (clockDivisor (MaxClockHz config)) as [d [e|]] eqn:Ed; [done|]. injection En as <-. destruct (Hcfg Ep) as [Hb Ho].
  apply wp_bind, wp_modify. cbn [ch rx wd]. set (c := fresh (cfg_Port config) d). apply wp_bind. unfold prepareChannel. apply wp_bind.
  assert (Own (mkSt c NoReceiver w)) as O0 by (by apply fresh_own).
  assert (calm c (controls w) snt (mkSt c NoReceiver w)) as K0 by (apply calm_intro; [done|apply unmoved_refl|done|done|done]).
  eapply wp_mono; [apply (prepare_body_wp c (controls w) snt); done|]. intros [e|] s1 K1.
  - destruct K1 as [O1 E1]. assert (device (ch s1) = true) as D1 by (unfold frame, static in E1; cbn in E1; congruence).
    apply wp_bind. eapply wp_mono; [apply (ftdi_Close_wp _ _ _ _ _ _ drains fuel s1); done|]. intros ce s2 P. apply wp_ret, wp_ret.
    assert (errors_Join [Some e; ce] <> None) as Nj by (intros J; rewrite errors_Join_None in J; by inversion J).
    destruct (errors_Join [Some e; ce]); [|done]. split_and!; apply P.
  - apply wp_ret, wp_ret. destruct K1 as [Q1 O1 S1 C1 B1]. exists d. rewrite Cw in C1. split_and!; try done.
    + unfold static in S1. cbn in S1. congruence.
    + unfold static in S1. cbn in S1. congruence.
    + unfold prepared. unfold static in S1. cbn in S1, Ho. split_and!; congruence.
Qed.
End Opening.
