(* ===== verification/FtdiProps.v ===== *)
(** * The contract of FTDI channels

    Whatever the schedule of the receiver, the split of the USB transfers and the
    failures of the host.  The device answers in order ([Wire]), contexts end
    ([Patient]), and the host drains what it aborts ([Drains]). *)

From S2P Require Import Prelude Go Bits Usb UsbHost Mpsse Ftdi FtdiFacts FtdiChannel FtdiChannelFacts FtdiChannelLife.
Local Open Scope Z_scope.

(** ** A bench

    A target that answers each clock with its parity so far, behind an MPSSE
    engine that takes a write five bytes at a time and answers in packets of 64
    bytes; [b_waits] is the time left. *)

Definition bench_wire (x : bool * bool) (t : bool) : bool * bool := let t := xorb t (xorb (fst x) (snd x)) in (t, t).

Record Bench := mkBench {
  b_sent : list Z; b_taken : nat; b_posted : option (nat * list Z); b_waits : nat; b_aborted : bool; b_controls : list (Z * Z)
}.

Section Bench.
Variable pins : edge -> bool * bool.

Definition bench_clock (e : edge) : bool -> bool * bool := bench_wire (pins e).
Definition bench_answers (cmds : list Z) : list Z := fst (mpsse bench_clock cmds 0 0 false).

Definition bench_env : Env Bench := {| ctx_Err := fun _ w => (None, w) |}.

Definition bench_usb : FtdiUsb Bench := {|
  usb_Identity := fun _ => mkDeviceInfo ftdiVID PIDFT232H 1 1 [] [];
  usb_claimInterface := fun _ w => (None, w);
  usb_ControlTransfer := fun _ _ q v _ w =>
    ((0, None), mkBench (b_sent w) (b_taken w) (b_posted w) (b_waits w) (b_aborted w) (b_controls w ++ [(q, v)]));
  usb_Endpoint := fun _ a w => ((mkEndpoint a TransferBulk 64, None), w);
  usb_SubmitBulk := fun _ ep data w =>
    ((0%nat, None), if ep =? 0x02 then mkBench (b_sent w) (b_taken w) (Some (0%nat, data)) (b_waits w) (b_aborted w) (b_controls w) else w);
  usb_Wait := fun _ _ w =>
    match b_posted w with
    | Some (_, data) =>
        let n := Nat.min 5 (length data) in
        ((Z.of_nat n, None),
         mkBench (b_sent w ++ take n data) (Nat.min (b_taken w) (length (bench_answers (b_sent w)))) None (b_waits w) (b_aborted w) (b_controls w))
    | None => ((0, None), w)
    end;
  usb_Poll := fun _ w =>
    if b_aborted w then (Some (0, Some (New "aborted"), []), w)
    else match take 62 (drop (b_taken w) (bench_answers (b_sent w))) with
         | [] => (None, w)
         | chunk => (Some (Z.of_nat (2 + length chunk), None, 0 :: 0 :: chunk),
                     mkBench (b_sent w) (b_taken w + length chunk) (b_posted w) (b_waits w) (b_aborted w) (b_controls w))
         end;
  usb_AbortBulk := fun ep w =>
    (None, if ep =? 0x81 then mkBench (b_sent w) (b_taken w) (b_posted w) (b_waits w) true (b_controls w) else w);
  usb_CloseClaim := fun w => (None, mkBench (b_sent w) (b_taken w) (b_posted w) (b_waits w) true (b_controls w));
  usb_claimPending := None;
  usb_CloseDevice := fun w => (None, w);
  usb_devicePending := None;
  usb_Settle := fun _ w => (None, w);
  usb_Idle := fun _ w =>
    match b_waits w with
    | O => (Some DeadlineExceeded, w)
    | S n => (None, mkBench (b_sent w) (b_taken w) (b_posted w) n (b_aborted w) (b_controls w))
    end;
  sched_run := fun w => (3%nat, w);
  sched_choose := fun _ w => (0%nat, w)
|}.

Definition bench_ghost : Ghost (W := Bench) :=
  {| sent := b_sent; arrived := fun w => take (b_taken w) (bench_answers (b_sent w)); posted := b_posted |}.

#[local] Existing Instance bench_env.
#[local] Existing Instance bench_usb.

Lemma bench_more a b k : (k <= length (bench_answers a))%nat -> take k (bench_answers (a ++ b)) = take k (bench_answers a).
Proof. intros Hk. destruct (mpsse_prefix bench_clock a b 0 0 false) as [x E]. unfold bench_answers in *. rewrite E. by apply take_app_le. Qed.

Lemma bench_same w n aborted controls : same bench_ghost w (mkBench (b_sent w) (b_taken w) (b_posted w) n aborted controls).
Proof. by split_and!. Qed.

Lemma bench_wired : Wire bench_clock 0 0 false 64 0x81 0x02 bench_ghost.
Proof.
  split; cbn -[take drop Nat.min].
  - intros w. etrans; [apply prefix_take|]. apply mpsse_prefix.
  - by intros ctx w r w' [= _ <-].
  - intros ctx w r w'. destruct (b_waits w); intros [= _ <-]; [done|apply bench_same].
  - by intros w r w' [= _ <-].
  - by intros n w r w' [= _ <-].
  - by intros ctx buffer w r w' [= _ <-].
  - by intros ctx data w h w' _ [= <- <-].
  - intros ctx h data w count w' E. rewrite E. intros [= <- <-] _. cbn [b_sent b_taken b_posted]. rewrite Nat2Z.id. split_and!; [done| |done].
    rewrite bench_more by lia. destruct (Nat.le_ge_cases (b_taken w) (length (bench_answers (b_sent w)))); [by rewrite Nat.min_l by done|].
    rewrite Nat.min_r by done. by rewrite !take_ge by done.
  - intros h w r w'. destruct (b_aborted w); [intros [= <- <-]; split_and!; [done|done|]; exists []; by rewrite app_nil_r|].
    destruct (take 62 (drop (b_taken w) (bench_answers (b_sent w)))) as [|x chunk] eqn:E; intros [= <- <-]; (split; [done|]; split; [done|]).
    { exists []. by rewrite app_nil_r. }
    exists (x :: chunk). split.
    + cbn [b_taken b_sent]. set (rest := drop (b_taken w) _) in *. change (S (length chunk)) with (length (x :: chunk)).
      assert (take (length (x :: chunk)) rest = x :: chunk) as Ec.
      { rewrite <- E, length_take. destruct (Nat.min_spec 62 (length rest)) as [[_ ->]|[Hge ->]]; [done|]. by rewrite !take_ge by lia. }
      rewrite <- Ec at 2. unfold rest. by rewrite take_take_drop.
    + assert (length (x :: chunk) <= 62)%nat as Lc by (rewrite <- E, length_take; lia).
      split; [unfold len; simpl length in *; lia|]. intros p.
      rewrite (decodeCompletion_spec 64 (0 :: 0 :: x :: chunk) (x :: chunk)); [by intros [= <-]|]. apply last_packet. unfold len. lia.
Qed.

Lemma bench_patient ctx : Patient b_waits ctx.
Proof.
  split; cbn -[take drop Nat.min Z.eqb]; try done.
  - intros _ ep data w. by destruct (ep =? 0x02).
  - intros _ h w. by destruct (b_posted w) as [[]|].
  - intros h w. destruct (b_aborted w); [done|]. by destruct (take 62 _).
  - intros w. destruct (b_waits w) eqn:E; cbn; lia.
  - intros w. destruct (b_waits w) eqn:E; cbn; [done|lia].
Qed.

Lemma bench_drains : Drains (fun _ _ => True) (fun _ w => b_aborted w = true) b_controls (fun _ => O) 0 0x81.
Proof.
  split; cbn -[take drop Nat.min Z.eqb]; try done; unfold advances.
  all: try (by intros; simplify_eq/=).
  all: try (intros ctx t q v i w r w' [= <- <-]; by split_and!).
  - intros _ e b w r w' [= _ <-]. by destruct (e =? 0x02).
  - intros _ h w r w'. destruct (b_posted w) as [[]|]; by intros [= _ <-].
  - intros h w r w'. destruct (b_aborted w) eqn:Ea; [intros [= <- <-]; by split|]. destruct (take 62 _); intros [= <- <-]; by split.
  - intros e w r w' [= <- <-]. split; [by destruct (e =? 0x81)|]. by intros ->.
  - intros _ w r w'. destruct (b_waits w); by intros [= _ <-].
Qed.

Lemma bench_setup ctx : Setup 64 0x81 bench_ghost b_waits ctx.
Proof.
  split; cbn -[take drop Nat.min]; unfold unheard; try done.
  all: intros; simplify_eq/=; by split_and!.
Qed.
End Bench.

(** ** The contracts *)

Section Contracts.
Context {W T : Type} `{Env W} `{FtdiUsb W}.
Implicit Types s : St (W := W).
Variables (line : bool * bool -> T -> bool * T) (v0 d0 : Z) (t0 : T) (ps bin bout : Z) (G : Ghost (W := W)).

(** C34: an SWD stream on an idle channel returns when its context ends, and
    whatever the receiver's schedule and the split of the transfers, the outcome
    is exact: for any target behind the device, the host's bits were driven and
    the answer has the target's sample at each undriven bit and zero elsewhere,
    after which the channel is idle again; or an error with no data, which
    poisoned the channel or came before any traffic.  A channel that has failed
    refuses every stream and sends nothing. *)
Theorem ftdi_swdio_exact budget ctx fuel direction output bits snt s :
  Wire (fun e => line (swd_pins e)) v0 d0 t0 ps bin bout G -> Patient budget ctx -> ctx_nil ctx = false ->
  0 <= bits <= maxJTAGTransferBits -> bits <= 8 * len direction -> bits <= 8 * len output ->
  (active (ch s) = true -> Idle swd_pins line v0 d0 t0 ps bin bout G budget fuel snt s ->
    wp (SWDIO fuel ctx direction output bits)
      (stream_post swd_pins line v0 d0 t0 ps bin bout G budget fuel undriven (fun j => negb (gbit direction j)) direction output bits snt) s) /\
  (Silent bin G snt s -> wp (SWDIO fuel ctx direction output bits) (fun r s' => snd r <> None /\ Silent bin G snt s') s).
Proof.
  intros Wr Pt Hn Hb H1 H2. split.
  - intros Ha Id. apply (clockStream_wp swd_pins line v0 d0 t0 ps bin bout G Wr budget ctx fuel Pt swdCommands undriven
      (fun direction j => negb (gbit direction j))); [apply swd_encodes|done..].
  - by eapply failed_refuses.
Qed.

(** The same for a JTAG stream: TMS and TDI have the stream's bits at each
    clock, and the answer has the target's TDO sample of every clock. *)
Theorem ftdi_jtagio_exact budget ctx fuel tms tdi bits snt s :
  Wire (fun e => line (jtag_pins e)) v0 d0 t0 ps bin bout G -> Patient budget ctx -> ctx_nil ctx = false ->
  0 <= bits <= maxJTAGTransferBits -> bits <= 8 * len tms -> bits <= 8 * len tdi ->
  (active (ch s) = true -> Idle jtag_pins line v0 d0 t0 ps bin bout G budget fuel snt s ->
    wp (JTAGIO fuel ctx tms tdi bits)
      (stream_post jtag_pins line v0 d0 t0 ps bin bout G budget fuel id (fun _ => true) tms tdi bits snt) s) /\
  (Silent bin G snt s -> wp (JTAGIO fuel ctx tms tdi bits) (fun r s' => snd r <> None /\ Silent bin G snt s') s).
Proof.
  intros Wr Pt Hn Hb H1 H2. split.
  - intros Ha Id. apply (clockStream_wp jtag_pins line v0 d0 t0 ps bin bout G Wr budget ctx fuel Pt jtagCommands id (fun _ _ => true)); [apply jtag_encodes|done..].
  - by eapply failed_refuses.
Qed.


(** C36: [Close] returns when the host drains: the receiver is always waited for
    before the interface is given up, and it ends although its own next read may
    have been submitted after the abort.  A nil error means that nothing is owned
    any more and, if the adapter still had to be restored, that its four requests
    completed in order.  Restoration is never taken for done otherwise, unless
    the channel had failed, and the device is not given up before the interface. *)
Theorem ftdi_close_contract fuel issued landed controls lag L s :
  Drains issued landed controls lag L bin -> (drain_fuel L <= fuel)%nat -> Own issued bin s -> device (ch s) = true ->
  wp (Close fuel) (close_post issued controls bin (ch s) (controls (wd s))) s.
Proof. intros Dr Hf O Hd. by eapply ftdi_Close_wp. Qed.
End Contracts.

(** The clock divisor is the smallest one whose clock does not exceed the
    requested ceiling; it fits its 16-bit field, and only ceilings below the
    slowest attainable clock are refused. *)
Theorem ftdi_clock_fastest (hz : Z) :
  0 <= hz < 2 ^ 32 ->
  (hz < minClockHz -> exists e, clockDivisor hz = (0, Some e)) /\
  (minClockHz <= hz -> exists d, clockDivisor hz = (d, None) /\ 0 <= d < 2 ^ 16 /\
     baseClockHz <= 2 * (d + 1) * hz /\ dividedClock d <= hz /\
     forall d', 0 <= d' -> baseClockHz <= 2 * (d' + 1) * hz -> d <= d').
Proof. apply clockDivisor_spec. Qed.


(** ** Witnesses *)

#[local] Existing Instance bench_env.

Definition bench_config : Config := mkConfig PortA 1_000_000.
Definition bench_start : St (W := Bench) := mkSt (fresh PortA 0) NoReceiver (mkBench [] 0 None 20 false []).

#[local] Notation bench_open pins := (@openChannel Bench bench_env (bench_usb pins) 20 Background true bench_config bench_start).

Definition outcome_state {A S} (o : outcome (A * S)) (s : S) : S := match o with Done (_, s) => s | _ => s end.

(** The bench after it was opened. *)
Definition bench_swd : St (W := Bench) := outcome_state (bench_open swd_pins) bench_start.
Definition bench_jtag : St (W := Bench) := outcome_state (bench_open jtag_pins) bench_start.

Lemma bench_opens : bench_open swd_pins = Done ((true, None), bench_swd) /\ bench_open jtag_pins = Done ((true, None), bench_jtag).
Proof. split; vm_compute; reflexivity. Qed.

Lemma bench_fresh pins : Fresh (bench_clock pins) 0 0 false (bench_ghost pins) b_waits 20 [] (wd bench_start).
Proof. by split_and!. Qed.

Lemma bench_boundary : is_Some (boundary [] 0 0).
Proof. by eexists. Qed.

Lemma bench_fuel : (drain_fuel 0 <= 20)%nat.
Proof. unfold drain_fuel. lia. Qed.

Lemma bench_opened pins s : bench_open pins = Done ((true, None), s) ->
  open_post (bench_clock pins) 0 0 false 64 0x81 0x02 (bench_ghost pins) b_waits 20 (fun _ _ => True) b_controls bench_config [] bench_start (true, None) s.
Proof.
  intros E. eapply wp_elim; [|exact E].
  pose proof (openChannel_wp (H0 := bench_usb pins) (bench_clock pins) 0 0 false 64 0x81 0x02 (bench_ghost pins) (bench_wired pins)
    b_waits Background 20 (bench_patient pins Background) _ _ _ _ _ (bench_drains pins) (bench_setup pins Background)
    true bench_config [] bench_start (bench_fresh pins) bench_boundary bench_fuel (fun _ => conj eq_refl eq_refl)) as P. exact P.
Qed.


Lemma ftdi_close_contract_witness :
  exists s', @Close Bench (bench_usb swd_pins) 20 bench_swd = Done (None, s') /\ released s' /\
    close_post (fun _ _ => True) b_controls 0x81 (ch bench_swd) (b_controls (wd bench_swd)) None s'.
Proof.
  assert (exists s', @Close Bench (bench_usb swd_pins) 20 bench_swd = Done (None, s')) as [s' E] by (eexists; vm_compute; reflexivity).
  destruct (bench_opened _ _ (proj1 bench_opens)) as (d & _ & _ & _ & _ & _ & Pr & O & _).
  assert (close_post (fun _ _ => True) b_controls 0x81 (ch bench_swd) (b_controls (wd bench_swd)) None s') as P.
  { eapply wp_elim; [|exact E]. 
    pose proof (ftdi_close_contract (H0 := bench_usb swd_pins) 0x81 20 _ _ _ _ _ bench_swd (bench_drains swd_pins) bench_fuel O (proj1 (proj2 Pr))) as P. exact P. }
  exists s'. split; [exact E|]. split; [exact (proj1 (cp_done _ _ _ _ _ _ _ P eq_refl))|exact P].
Defined.

Lemma bench_idle pins s : bench_open pins = Done ((true, None), s) -> exists snt, active (ch s) = true /\
  Idle pins bench_wire 0 0 false 64 0x81 0x02 (bench_ghost pins) b_waits 20 snt s.
Proof.
  intros E. destruct (bench_opened _ _ E) as (d & _ & Ha & _ & Q & B & (P1 & P2 & P3 & P4) & _). exists ([] ++ opening d). split; [exact Ha|].
  by split_and!.
Qed.

(** Four driven bits, then four samples of the parity they left. *)
Lemma ftdi_swdio_exact_witness :
  exists snt s', @SWDIO Bench bench_env (bench_usb swd_pins) 20 Background [0x0f] [0x01] 8 bench_swd = Done (([0xf0], None), s') /\
    stream_post swd_pins bench_wire 0 0 false 64 0x81 0x02 (bench_ghost swd_pins) b_waits 20 undriven
      (fun j => negb (gbit [0x0f] j)) [0x0f] [0x01] 8 snt ([0xf0], None) s'.
Proof.
  assert (exists s', @SWDIO Bench bench_env (bench_usb swd_pins) 20 Background [0x0f] [0x01] 8 bench_swd = Done (([0xf0], None), s')) as [s' E]
    by (eexists; vm_compute; reflexivity).
  destruct (bench_idle _ _ (proj1 bench_opens)) as (snt & Ha & Id). exists snt, s'. split; [exact E|].
  exact (wp_elim _ _ _ _ _ (proj1 (ftdi_swdio_exact (H0 := bench_usb swd_pins) bench_wire 0 0 false 64 0x81 0x02 (bench_ghost swd_pins) b_waits Background 20
    [0x0f] [0x01] 8 snt bench_swd (bench_wired swd_pins) (bench_patient swd_pins Background) eq_refl ltac:(vm_compute; split; discriminate)
    ltac:(vm_compute; discriminate) ltac:(vm_compute; discriminate)) Ha Id) E).
Defined.

