(* ===== verification/Cmsis.v ===== *)
(** * CMSIS-DAP sessions (cmsisdap/interface.go, types.go, transport.go,
    protocol.go, config.go, resync.go, session.go)

    One command interface of a USB device: finding it, the exchange of one
    command and its response, probe metadata, the SWD port and its
    restoration, opening and closing. *)

From S2P Require Import Prelude Go Bits Usb UsbHost.
Local Open Scope Z_scope.

(** ** Constants *)

Definition commandInfo : Z := 0x00.
Definition commandConnect : Z := 0x02.
Definition commandDisconnect : Z := 0x03.
Definition commandSWJClock : Z := 0x11.
Definition commandSWDSequence : Z := 0x1d.
Definition commandTransfer : Z := 0x05.
Definition portSWD : Z := 1.
Definition statusOK : Z := 0x00.
Definition statusError : Z := 0xff.
Definition infoVendor : Z := 0x01.
Definition infoProduct : Z := 0x02.
Definition infoSerial : Z := 0x03.
Definition infoProtocolVersion : Z := 0x04.
Definition infoFirmwareVersion : Z := 0x09.
Definition infoCapabilities : Z := 0xf0.
Definition infoPacketCount : Z := 0xfe.
Definition infoPacketSize : Z := 0xff.
Definition minimumPacketSize : Z := 4.
Definition CapabilitySWD : Z := 0.
Definition second : Z := 1_000_000_000.
Definition inputQuietInterval : Z := 100_000_000.
Definition inputSyncTimeout : Z := second.

(** ** The command interface (interface.go) *)

Record commandInterface := mkCommand {
  number : Z; alternate_ : Z; bulkOut : Endpoint; bulkIn : Endpoint; swoIn : Endpoint
}.

Definition noCommand : commandInterface := mkCommand 0 0 noEndpoint noEndpoint noEndpoint.

Definition usableBulkEndpoint (e : Endpoint) (input : bool) : bool :=
  any_bits (Address e) 0x0f && Bool.eqb (any_bits (Address e) 0x80) input &&
  bool_decide (ep_Type e = TransferBulk) && negb (MaxPacketSize e =? 0).

Definition commandInterfaceCandidate (n : Z) (a : AlternateSetting) : option commandInterface :=
  if negb (Class_ a =? 0xff) || negb (Subclass a =? 0) || negb (Protocol a =? 0) then None
  else match Endpoints a with
  | [out; inp] =>
      if negb (usableBulkEndpoint out false) || negb (usableBulkEndpoint inp true) then None
      else Some (mkCommand n (alt_Number a) out inp noEndpoint)
  | [out; inp; swo] =>
      if negb (usableBulkEndpoint out false) || negb (usableBulkEndpoint inp true) then None
      else if negb (usableBulkEndpoint swo true) || (Address swo =? Address inp) then None
      else Some (mkCommand n (alt_Number a) out inp swo)
  | _ => None
  end.

Definition matches_ (c : Configuration) : list commandInterface :=
  Interfaces c ≫= fun i => omap (commandInterfaceCandidate (if_Number i)) (Alternates i).

Definition findCommandInterface (c : Configuration) : commandInterface * err :=
  match matches_ c with
  | [] => (noCommand, Some (Sentinel cmsisdap_ErrNoV2Interface))
  | [m] => (m, None)
  | _ => (noCommand, Some (New "cmsisdap: active USB configuration has %d CMSIS-DAP v2 command interfaces"))
  end.

(** ** Metadata (types.go) *)

(** [Capabilities.Has]; a capability set is its bytes. *)
Definition Has (c : list Z) (bit : Z) : bool :=
  (bit <? len c * 8) && any_bits (default 0 (c !! Z.to_nat (bit / 8))) (Z.shiftl 1 (bit mod 8)).

Record Info := mkInfo {
  info_USB : DeviceInfo; Vendor : list Z; info_Product : list Z; info_Serial : list Z;
  ProtocolVersion : list Z; FirmwareVersion : list Z; info_Capabilities : list Z;
  PacketSize : Z; PacketCount : Z
}.

Definition newInfo (identity : DeviceInfo) : Info := mkInfo identity [] [] [] [] [] [] 0 0.

Definition with_Vendor (x : list Z) (i : Info) : Info :=
  mkInfo (info_USB i) x (info_Product i) (info_Serial i) (ProtocolVersion i) (FirmwareVersion i) (info_Capabilities i) (PacketSize i) (PacketCount i).
Definition with_Product (x : list Z) (i : Info) : Info :=
  mkInfo (info_USB i) (Vendor i) x (info_Serial i) (ProtocolVersion i) (FirmwareVersion i) (info_Capabilities i) (PacketSize i) (PacketCount i).
Definition with_Serial (x : list Z) (i : Info) : Info :=
  mkInfo (info_USB i) (Vendor i) (info_Product i) x (ProtocolVersion i) (FirmwareVersion i) (info_Capabilities i) (PacketSize i) (PacketCount i).
Definition with_ProtocolVersion (x : list Z) (i : Info) : Info :=
  mkInfo (info_USB i) (Vendor i) (info_Product i) (info_Serial i) x (FirmwareVersion i) (info_Capabilities i) (PacketSize i) (PacketCount i).
Definition with_FirmwareVersion (x : list Z) (i : Info) : Info :=
  mkInfo (info_USB i) (Vendor i) (info_Product i) (info_Serial i) (ProtocolVersion i) x (info_Capabilities i) (PacketSize i) (PacketCount i).
Definition with_Capabilities (x : list Z) (i : Info) : Info :=
  mkInfo (info_USB i) (Vendor i) (info_Product i) (info_Serial i) (ProtocolVersion i) (FirmwareVersion i) x (PacketSize i) (PacketCount i).
Definition with_PacketSize (x : Z) (i : Info) : Info :=
  mkInfo (info_USB i) (Vendor i) (info_Product i) (info_Serial i) (ProtocolVersion i) (FirmwareVersion i) (info_Capabilities i) x (PacketCount i).
Definition with_PacketCount (x : Z) (i : Info) : Info :=
  mkInfo (info_USB i) (Vendor i) (info_Product i) (info_Serial i) (ProtocolVersion i) (FirmwareVersion i) (info_Capabilities i) (PacketSize i) x.

Inductive Option_ :=
| NoOption
| WithSWD (maxClockHz : Z)
| WithCompletionTimeout (timeout : Z).

Record openConfig := mkOpenConfig { configureSWD : bool; cfg_maxClockHz : Z; cfg_completionTimeout : Z }.

(** [option.apply(&config)] *)
Definition apply (o : Option_) (c : openConfig) : openConfig * err :=
  match o with
  | NoOption => (c, None)
  | WithSWD hz =>
      if hz =? 0 then (c, Some (New "SWD clock ceiling must be greater than zero"))
      else (mkOpenConfig true hz (cfg_completionTimeout c), None)
  | WithCompletionTimeout t =>
      if t <=? 0 then (c, Some (New "completion timeout must be greater than zero"))
      else (mkOpenConfig (configureSWD c) (cfg_maxClockHz c) t, None)
  end.

Fixpoint applyOptions (l : list Option_) (c : openConfig) : openConfig * err :=
  match l with
  | [] => (c, None)
  | o :: l =>
      match apply o c with
      | (_, Some e) => (mkOpenConfig false 0 0, Some (Errorf "cmsisdap: option %d: %w" [e]))
      | (c, None) => applyOptions l c
      end
  end.

(** ** The session *)

Record Session := mkSession {
  device : bool;
  claim : bool;
  command : commandInterface;
  packetSize : Z;
  info : Info;
  poisoned : bool;
  gone : bool;
  connected : bool;
  configured : bool;
  maxClockHz : Z;
  closePrefix : err;
  completionTimeout : Z
}.

Definition set_device (x : bool) (s : Session) : Session :=
  mkSession x (claim s) (command s) (packetSize s) (info s) (poisoned s) (gone s) (connected s) (configured s) (maxClockHz s) (closePrefix s) (completionTimeout s).
Definition set_claim (x : bool) (s : Session) : Session :=
  mkSession (device s) x (command s) (packetSize s) (info s) (poisoned s) (gone s) (connected s) (configured s) (maxClockHz s) (closePrefix s) (completionTimeout s).
Definition set_command (x : commandInterface) (s : Session) : Session :=
  mkSession (device s) (claim s) x (packetSize s) (info s) (poisoned s) (gone s) (connected s) (configured s) (maxClockHz s) (closePrefix s) (completionTimeout s).
Definition set_packetSize (x : Z) (s : Session) : Session :=
  mkSession (device s) (claim s) (command s) x (info s) (poisoned s) (gone s) (connected s) (configured s) (maxClockHz s) (closePrefix s) (completionTimeout s).
Definition set_info (x : Info) (s : Session) : Session :=
  mkSession (device s) (claim s) (command s) (packetSize s) x (poisoned s) (gone s) (connected s) (configured s) (maxClockHz s) (closePrefix s) (completionTimeout s).
Definition set_poisoned (x : bool) (s : Session) : Session :=
  mkSession (device s) (claim s) (command s) (packetSize s) (info s) x (gone s) (connected s) (configured s) (maxClockHz s) (closePrefix s) (completionTimeout s).
Definition set_gone (x : bool) (s : Session) : Session :=
  mkSession (device s) (claim s) (command s) (packetSize s) (info s) (poisoned s) x (connected s) (configured s) (maxClockHz s) (closePrefix s) (completionTimeout s).
Definition set_connected (x : bool) (s : Session) : Session :=
  mkSession (device s) (claim s) (command s) (packetSize s) (info s) (poisoned s) (gone s) x (configured s) (maxClockHz s) (closePrefix s) (completionTimeout s).
Definition set_configured (x : bool) (s : Session) : Session :=
  mkSession (device s) (claim s) (command s) (packetSize s) (info s) (poisoned s) (gone s) (connected s) x (maxClockHz s) (closePrefix s) (completionTimeout s).
Definition set_maxClockHz (x : Z) (s : Session) : Session :=
  mkSession (device s) (claim s) (command s) (packetSize s) (info s) (poisoned s) (gone s) (connected s) (configured s) x (closePrefix s) (completionTimeout s).
Definition set_closePrefix (x : err) (s : Session) : Session :=
  mkSession (device s) (claim s) (command s) (packetSize s) (info s) (poisoned s) (gone s) (connected s) (configured s) (maxClockHz s) x (completionTimeout s).
Definition set_completionTimeout (x : Z) (s : Session) : Session :=
  mkSession (device s) (claim s) (command s) (packetSize s) (info s) (poisoned s) (gone s) (connected s) (configured s) (maxClockHz s) (closePrefix s) x.

(** [device] and [claim] say whether the session still holds them. *)
Definition RestorationPossible (s : Session) : bool := device s && negb (gone s) && negb (poisoned s).

Definition clearSWDConfiguration (s : Session) : Session :=
  set_maxClockHz 0 (set_configured false (set_connected false s)).

Definition abandonTargetPort (e : err) (s : Session) : Session :=
  clearSWDConfiguration (set_closePrefix (errors_Join [closePrefix s; e]) s).

Definition MaxClockHz (s : Session) : Z := if configured s then maxClockHz s else 0.

Section Ops.
Context {W : Type} `{Env W} `{UsbHost W}.

Record St := mkSt { sess : Session; world : W }.

Abbreviation M := (GoM St).

Definition sget {A} (f : Session -> A) : M A := gets (fun s => f (sess s)).
Definition smod (f : Session -> Session) : M unit := modify (fun s => mkSt (f (sess s)) (world s)).
Definition host {A} (f : W -> A * W) : M A := fun s => let (a, w) := f (world s) in Done (a, mkSt (sess s) w).

(** [ctx.Err()]; a nil context panics. *)
Definition ctxErr (ctx : context) : M err :=
  if ctx_nil ctx then panic
  else e ← host (ctx_Err ctx); mret (option_map (fun e => Sentinel (context_Err e)) e).

Definition CleanupPending (s : St) : bool :=
  connected (sess s) || claim (sess s) && cleanupPending claimCleanupPending (world s) ||
  device (sess s) && cleanupPending deviceCleanupPending (world s).

(** *** Exchanges (transport.go) *)

Definition transportReady (ctx : context) : M err :=
  s ← sget id;
  if negb (device s) then mret (Some (New "cmsisdap: session is closed"))
  else if negb (claim s) then mret (Some (New "cmsisdap: command interface is closed"))
  else if poisoned s then mret (Some (Sentinel cmsisdap_ErrSessionPoisoned))
  else if gone s then mret (Some (Sentinel usb_ErrDeviceGone))
  else if ctx_nil ctx then mret (Some (New "cmsisdap: nil transfer context"))
  else ctxErr ctx.

Definition poison (e : error) : M error :=
  smod (set_poisoned true);;
  mret (Join [e; Sentinel cmsisdap_ErrSessionPoisoned]).

(** [s.poison(errors.Join(e, cleanup))] *)
Definition poisonWith (es : list err) : M err :=
  match errors_Join es with
  | None => mret None
  | Some e => e ← poison e; mret (Some e)
  end.

Definition submissionError (e : error) : M error :=
  smod (fun s => if Is e usb_ErrDeviceGone then set_gone true s else s);;
  mret e.

Definition abortIn : M err := a ← sget (fun s => Address (bulkIn (command s))); host (AbortBulk a).
Definition abortOut : M err := a ← sget (fun s => Address (bulkOut (command s))); host (AbortBulk a).

Definition completeCommand (ctx : context) (transfer : nat) (size : Z) : M err :=
  '(count, e, _) ← host (Wait ctx transfer);
  match e with
  | Some e =>
      e1 ← abortOut; e2 ← abortIn;
      poisonWith [Some (Errorf "cmsisdap: complete command OUT: %w" [e]); errors_Join [e1; e2]]
  | None =>
      if negb (count =? size) then
        cleanup ← abortIn;
        poisonWith [Some (New "cmsisdap: command OUT completed %d of %d bytes"); cleanup]
      else mret None
  end.

Definition completeResponse (ctx : context) (transfer : nat) (response : list Z) : M (list Z * err) :=
  '(count, e, data) ← host (Wait ctx transfer);
  let response := received data response in
  match e with
  | Some e =>
      cleanup ← abortIn;
      e ← poisonWith [Some (Errorf "cmsisdap: complete response IN: %w" [e]); cleanup];
      mret ([], e)
  | None =>
      if (count <? 0) || (len response <? count) then
        e ← poison (New "cmsisdap: response IN completed with invalid count %d for %d-byte buffer"); mret ([], Some e)
      else if count =? 0 then
        e ← poison (Errorf "cmsisdap: response IN made no progress: %w" [Sentinel io_ErrNoProgress]); mret ([], Some e)
      else mret (take (Z.to_nat count) response, None)
  end.

(** The commandCompletion is the context it has started, if any; it is returned
    as the exchange leaves it. *)
Definition exchangeWithCompletion (ctx : context) (request : list Z) (completion : option context)
    : M (list Z * err * option context) :=
  let ctx := default ctx completion in
  e ← transportReady ctx;
  match e with
  | Some e => mret ([], Some e, completion)
  | None =>
      packet ← sget packetSize;
      if len request =? 0 then mret ([], Some (New "cmsisdap: empty command"), completion)
      else if packet <? len request
      then mret ([], Some (New "cmsisdap: command is %d bytes, packet size is %d"), completion)
      else
        command ← sget command;
        let response := make_bytes packet in
        '(input, e) ← host (SubmitBulk ctx (Address (bulkIn command)) response);
        match e with
        | Some e =>
            e ← submissionError (Errorf "cmsisdap: submit response IN: %w" [e]);
            mret ([], Some e, completion)
        | None =>
            '(output, e) ← host (SubmitBulk ctx (Address (bulkOut command)) request);
            match e with
            | Some e =>
                e ← submissionError (Errorf "cmsisdap: submit command OUT: %w" [e]);
                cleanup ← abortIn;
                match cleanup with
                | Some _ => e ← poisonWith [Some e; cleanup]; mret ([], e, completion)
                | None => mret ([], Some e, completion)
                end
            | None =>
                timeout ← sget completionTimeout;
                let timeout := if timeout =? 0 then second else timeout in
                let started := default (WithTimeout (WithoutCancel ctx) timeout) completion in
                e ← completeCommand started output (len request);
                match e with
                | Some e => mret ([], Some e, Some started)
                | None => r ← completeResponse started input response; mret (r, Some started)
                end
            end
        end
  end.

Definition exchange (ctx : context) (request : list Z) : M (list Z * err) :=
  '(response, e, _) ← exchangeWithCompletion ctx request None;
  mret (response, e).

(** *** Responses (config.go) *)

Definition validateCommandResponse (response : list Z) (command minimum : Z) : M err :=
  if negb (len response =? 0) && bool_decide (index response 0 = Some statusError)
  then mret (Some (New "command %#02x is not implemented"))
  else if len response <? minimum then
    e ← poison (New "short response: got %d bytes, need %d"); mret (Some e)
  else
    first ← lift (index response 0);
    if negb (first =? command) then
      e ← poison (New "response command = %#02x, want %#02x"); mret (Some e)
    else mret None.

Definition validateStatusResponse (response : list Z) (command : Z) : M err :=
  e ← validateCommandResponse response command 2;
  match e with
  | Some e => mret (Some e)
  | None =>
      status ← lift (index response 1);
      mret (if negb (status =? statusOK) then Some (New "status = %#02x, want %#02x") else None)
  end.

(** *** Metadata (protocol.go) *)

Definition infoData (ctx : context) (id : Z) : M (list Z * bool * err) :=
  '(response, e) ← exchange ctx [commandInfo; id];
  match e with
  | Some e => mret ([], false, Some (Errorf "cmsisdap: DAP_Info(%#02x): %w" [e]))
  | None =>
      if negb (len response =? 0) && bool_decide (index response 0 = Some 0xff)
      then mret ([], false, Some (New "cmsisdap: DAP_Info(%#02x): command is not implemented"))
      else if len response <? 2 then mret ([], false, Some (New "cmsisdap: DAP_Info(%#02x): short response"))
      else
        first ← lift (index response 0);
        if negb (first =? commandInfo)
        then mret ([], false, Some (New "cmsisdap: DAP_Info(%#02x): response command = %#02x"))
        else
          length ← lift (index response 1);
          packet ← sget packetSize;
          if packet - 2 <? length
          then mret ([], false, Some (New "cmsisdap: DAP_Info(%#02x): declared length %d exceeds packet size %d"))
          else if len response <? 2 + length
          then mret ([], false, Some (New "cmsisdap: DAP_Info(%#02x): got %d bytes, need %d"))
          else if length =? 0 then mret ([], false, None)
          else mret (take (Z.to_nat length) (drop 2 response), true, None)
  end.

Definition stringInfo (ctx : context) (id : Z) : M (list Z * bool * err) :=
  '(data, present, e) ← infoData ctx id;
  if negb (is_nil e) || negb present then mret ([], present, e)
  else
    last ← lift (index data (len data - 1));
    if negb (last =? 0) then mret ([], false, Some (New "cmsisdap: DAP_Info(%#02x): string is not NUL-terminated"))
    else
      let data := take (length data - 1) data in
      if existsb (fun value => value =? 0) data
      then mret ([], false, Some (New "cmsisdap: DAP_Info(%#02x): string contains an embedded NUL"))
      else if negb (utf8_Valid data)
      then mret ([], false, Some (New "cmsisdap: DAP_Info(%#02x): string is not UTF-8"))
      else mret (data, true, None).

Definition imod (f : Info -> Info) : M unit := smod (fun s => set_info (f (info s)) s).

Definition readPacketCount (ctx : context) : M err :=
  '(packetCount, present, e) ← infoData ctx infoPacketCount;
  match e with
  | Some e => mret (Some e)
  | None =>
      imod (with_PacketCount 1);;
      if negb present then mret None
      else match packetCount with
           | [n] => if n =? 0 then mret (Some (New "cmsisdap: invalid DAP_Info packet count %x"))
                    else imod (with_PacketCount n);; mret None
           | _ => mret (Some (New "cmsisdap: invalid DAP_Info packet count %x"))
           end
  end.

Definition readPacketGeometry (ctx : context) : M err :=
  '(data, present, e) ← infoData ctx infoPacketSize;
  match e with
  | Some e => mret (Some e)
  | None =>
      e ← (if negb present then mret None
           else if negb (len data =? 2)
           then mret (Some (New "cmsisdap: DAP_Info packet-size length = %d, want 2"))
           else
             size ← lift (uint16At data 0);
             if size <? minimumPacketSize
             then mret (Some (New "cmsisdap: DAP_Info packet size = %d, want at least %d"))
             else smod (set_packetSize size);; mret None);
      match e with
      | Some e => mret (Some e)
      | None =>
          packet ← sget packetSize;
          imod (with_PacketSize packet);;
          readPacketCount ctx
      end
  end.

Definition readCapabilities (ctx : context) : M err :=
  '(capabilities, present, e) ← infoData ctx infoCapabilities;
  match e with
  | Some e => mret (Some e)
  | None =>
      if negb present || (len capabilities <? 1) || (2 <? len capabilities)
      then mret (Some (New "cmsisdap: DAP_Info capabilities length = %d, want 1 or 2"))
      else imod (with_Capabilities capabilities);; mret None
  end.

Definition readStrings (ctx : context) : M err :=
  '(protocolVersion, present, e) ← stringInfo ctx infoProtocolVersion;
  match e with
  | Some e => mret (Some e)
  | None =>
      if negb present || (len protocolVersion =? 0)
      then mret (Some (New "cmsisdap: DAP_Info returned no protocol version"))
      else
        imod (with_ProtocolVersion protocolVersion);;
        '(v, _, e) ← stringInfo ctx infoVendor;
        imod (with_Vendor v);;
        match e with
        | Some e => mret (Some e)
        | None =>
            '(v, present, e) ← stringInfo ctx infoProduct;
            imod (with_Product v);;
            match e with
            | Some e => mret (Some e)
            | None =>
                (if (present : bool) then mret tt else imod (fun i => with_Product (Product (info_USB i)) i));;
                '(v, present, e) ← stringInfo ctx infoSerial;
                imod (with_Serial v);;
                match e with
                | Some e => mret (Some e)
                | None =>
                    (if (present : bool) then mret tt else imod (fun i => with_Serial (Serial (info_USB i)) i));;
                    '(v, _, e) ← stringInfo ctx infoFirmwareVersion;
                    imod (with_FirmwareVersion v);;
                    mret e
                end
            end
        end
  end.

Definition readInfo (ctx : context) : M err :=
  e ← readPacketGeometry ctx;
  match e with
  | Some e => mret (Some e)
  | None =>
      e ← readCapabilities ctx;
      match e with
      | Some e => mret (Some e)
      | None => readStrings ctx
      end
  end.

(** *** The SWD port (config.go) *)

Definition disconnect (ctx : context) : M err :=
  '(response, e) ← exchange ctx [commandDisconnect];
  match e with
  | Some e => mret (Some (Errorf "cmsisdap: DAP_Disconnect: %w" [e]))
  | None =>
      e ← validateStatusResponse response commandDisconnect;
      match e with
      | Some e => mret (Some (Errorf "cmsisdap: DAP_Disconnect: %w" [e]))
      | None => smod clearSWDConfiguration;; mret None
      end
  end.

Definition configureFailure (ctx : context) (primary : error) : M err :=
  s ← sget id;
  if negb (connected s) || poisoned s then mret (Some primary)
  else
    e ← disconnect (WithTimeout (WithoutCancel ctx) second);
    mret (errors_Join [Some primary;
      option_map (fun e => Errorf "cmsisdap: DAP_Disconnect after failed SWD configuration: %w" [e]) e]).

Definition validateSWDConfiguration (ctx : context) (maxClockHz : Z) : M err :=
  if maxClockHz =? 0 then mret (Some (New "cmsisdap: SWD clock ceiling must be greater than zero"))
  else
    e ← transportReady ctx;
    match e with
    | Some e => mret (Some e)
    | None =>
        s ← sget id;
        mret (if negb (Has (info_Capabilities (info s)) CapabilitySWD)
              then Some (New "cmsisdap: probe does not advertise SWD")
              else if packetSize s <? 5 then Some (New "cmsisdap: packet size %d cannot hold DAP_SWJ_Clock")
              else None)
    end.

Definition connectSWD (ctx : context) : M err :=
  smod (set_connected true);;
  '(response, e) ← exchange ctx [commandConnect; portSWD];
  match e with
  | Some e =>
      smod (fun s => if negb (poisoned s) then set_connected false s else s);;
      mret (Some (Errorf "cmsisdap: DAP_Connect(SWD): %w" [e]))
  | None =>
      e ← validateCommandResponse response commandConnect 2;
      match e with
      | Some e =>
          if (len response =? 1) && bool_decide (index response 0 = Some statusError) then
            smod (set_connected false);;
            mret (Some (Errorf "cmsisdap: DAP_Connect(SWD): %w" [e]))
          else configureFailure ctx (Errorf "cmsisdap: DAP_Connect(SWD): %w" [e])
      | None =>
          port ← lift (index response 1);
          if port =? 0 then
            smod (set_connected false);;
            mret (Some (New "cmsisdap: DAP_Connect(SWD) did not initialize a port"))
          else if negb (port =? portSWD)
          then configureFailure ctx (New "cmsisdap: DAP_Connect selected port %d, want SWD")
          else mret None
      end
  end.

Definition requestSWDClock (ctx : context) (maxClockHz : Z) : M err :=
  '(response, e) ← exchange ctx (commandSWJClock :: le_bytes 4 maxClockHz);
  match e with
  | Some e => mret (Some (Errorf "cmsisdap: DAP_SWJ_Clock: %w" [e]))
  | None =>
      e ← validateStatusResponse response commandSWJClock;
      mret (option_map (fun e => Errorf "cmsisdap: DAP_SWJ_Clock: %w" [e]) e)
  end.

Definition ConfigureSWD_body (ctx : context) (maxClockHz : Z) : M err :=
  s ← sget id;
  e ← (if connected s then disconnect ctx else mret None);
  match e with
  | Some e => mret (Some (Errorf "cmsisdap: disconnect before SWD reconfiguration: %w" [e]))
  | None =>
      e ← connectSWD ctx;
      match e with
      | Some e => mret (Some e)
      | None =>
          e ← requestSWDClock ctx maxClockHz;
          match e with
          | Some e => configureFailure ctx e
          | None => smod (fun s => set_maxClockHz maxClockHz (set_configured true s));; mret None
          end
      end
  end.

Definition ConfigureSWD (ctx : context) (maxClockHz : Z) : M err :=
  e ← validateSWDConfiguration ctx maxClockHz;
  match e with
  | Some e => mret (Some e)
  | None =>
      e ← ConfigureSWD_body ctx maxClockHz;
      c ← ctxErr ctx;
      mret (errors_Join [e; c])
  end.

(** *** Resynchronization (resync.go) *)

Definition finishQuietRead (transfer : nat) (capacity : Z) (waitErr : error) (expired : bool) : M (bool * err) :=
  '(count, e, _) ← host (Wait (WithTimeout Background inputQuietInterval) transfer);
  match e with
  | None =>
      if (count <? 0) || (capacity <? count)
      then mret (false, Some (Join [waitErr; New "invalid drained response count %d for %d bytes"]))
      else if expired then mret (false, None)
      else mret (false, Some waitErr)
  | Some e =>
      aborted ← gets (fun s => Aborted transfer (world s));
      if expired && aborted then mret (true, None) else mret (false, Some (Join [waitErr; e]))
  end.

Definition waitForInputQuiet (ctx : context) : M (bool * err) :=
  let quiet := WithTimeout ctx inputQuietInterval in
  packet ← sget packetSize;
  let buffer := make_bytes packet in
  endpoint ← sget (fun s => Address (bulkIn (command s)));
  '(transfer, e) ← host (SubmitBulk quiet endpoint buffer);
  match e with
  | Some e => mret (false, Some e)
  | None =>
      '(count, e, _) ← host (Wait quiet transfer);
      match e with
      | None =>
          if (count <? 0) || (len buffer <? count)
          then mret (false, Some (New "invalid stale response count %d for %d bytes"))
          else mret (false, None)
      | Some e =>
          abortErr ← abortIn;
          match abortErr with
          | Some a => mret (false, Some (Join [e; a]))
          | None =>
              expired ← (if negb (err_eqb (Some e) (context_Err DeadlineExceeded)) then mret false
                         else
                           q ← ctxErr quiet;
                           if negb (err_eqb q (context_Err DeadlineExceeded)) then mret false
                           else c ← ctxErr ctx; mret (is_nil c));
              finishQuietRead transfer (len buffer) e expired
          end
      end
  end.

Fixpoint synchronize_loop (fuel : nat) (bounded : context) : M err :=
  match fuel with
  | O => out_of_fuel
  | S fuel =>
      '(quiet, e) ← waitForInputQuiet bounded;
      c ← ctxErr bounded;
      match errors_Join [e; c] with
      | Some e =>
          e ← submissionError e;
          mret (Some (Errorf "cmsisdap: resynchronize command IN: %w" [e]))
      | None => if (quiet : bool) then mret None else synchronize_loop fuel bounded
      end
  end.

Definition synchronizeInput (fuel : nat) (ctx : context) : M err :=
  synchronize_loop fuel (WithTimeout ctx inputSyncTimeout).

(** *** Closing (session.go) *)

Definition closeTargetPort : M err :=
  s ← sget id;
  if negb (connected s) then mret None
  else
    let reason := if gone s then Some (Sentinel usb_ErrDeviceGone) else None in
    let reason := if poisoned s then errors_Join [reason; Some (Sentinel cmsisdap_ErrSessionPoisoned)] else reason in
    match reason with
    | Some reason =>
        smod (abandonTargetPort (Some (Errorf "cmsisdap: cannot disconnect active SWD port: %w" [reason])));;
        mret None
    | None =>
        e ← disconnect (WithTimeout Background second);
        match e with
        | None => mret None
        | Some e =>
            s ← sget id;
            if RestorationPossible s then mret (Some e)
            else smod (abandonTargetPort (Some e));; mret None
        end
    end.

(** The device part of [Close], with the result so far. *)
Definition closeDevice (result : err) : M err :=
  s ← sget id;
  if device s then
    e ← host CloseDevice;
    let result := errors_Join [result; e] in
    pending ← gets (fun s => cleanupPending deviceCleanupPending (world s));
    if negb (is_nil e) && pending then mret result
    else
      smod (set_device false);;
      smod (set_closePrefix None);;
      mret result
  else
    smod (set_closePrefix None);;
    mret result.

Definition Close : M err :=
  e ← closeTargetPort;
  match e with
  | Some e => mret (Some e)
  | None =>
      s ← sget id;
      let result := closePrefix s in
      if claim s then
        e ← host CloseClaim;
        let result := errors_Join [result; e] in
        pending ← gets (fun s => cleanupPending claimCleanupPending (world s));
        if negb (is_nil e) && pending then mret result
        else
          smod (set_claim false);;
          closeDevice result
      else closeDevice result
  end.

Definition closeAfterOpenFailure : M (bool * err) :=
  s ← sget id;
  if connected s && RestorationPossible s then
    e ← disconnect (WithTimeout Background second);
    match e with
    | Some e =>
        s ← sget id;
        if RestorationPossible s
        then mret (true, Some (Errorf "cmsisdap: retain SWD port after failed open: %w" [e]))
        else
          c ← Close;
          pending ← gets CleanupPending;
          mret (pending, errors_Join [Some e; c])
    | None => e ← Close; pending ← gets CleanupPending; mret (pending, e)
    end
  else e ← Close; pending ← gets CleanupPending; mret (pending, e).

(** *** Opening (session.go) *)

Definition selectedEndpoint (ctx : context) (address : Z) (input : bool) : M (Endpoint * err) :=
  '(endpoint, e) ← host (claimEndpoint ctx address);
  match e with
  | Some e => mret (noEndpoint, Some (Errorf "cmsisdap: resolve active bulk endpoint %#02x: %w" [e]))
  | None =>
      if negb (Address endpoint =? address) || negb (usableBulkEndpoint endpoint input)
      then mret (noEndpoint, Some (New "cmsisdap: invalid active bulk endpoint %#02x"))
      else mret (endpoint, None)
  end.

Definition finishOpenSession (ctx : context) (config : openConfig) : M (bool * err) :=
  if negb (configureSWD config) then mret (true, None)
  else
    e ← ConfigureSWD ctx (cfg_maxClockHz config);
    match e with
    | Some e => mret (false, Some e)
    | None => mret (true, None)
    end.

(** [openSession] once the session exists, up to its deferred call; the boolean
    says whether it is returned. *)
Definition openSession_body (fuel : nat) (ctx : context) (config : openConfig) : M (bool * err) :=
  c ← sget command;
  e ← host (claimInterface (number c));
  match e with
  | Some e => mret (false, Some (Errorf "cmsisdap: claim USB interface %d: %w" [e]))
  | None =>
      smod (set_claim true);;
      e ← host (SetAltSetting (alternate_ c));
      match e with
      | Some e => mret (false, Some (Errorf "cmsisdap: select USB interface %d alternate %d: %w" [e]))
      | None =>
          '(out, e) ← selectedEndpoint ctx (Address (bulkOut c)) false;
          match e with
          | Some e => mret (false, Some e)
          | None =>
              '(inp, e) ← selectedEndpoint ctx (Address (bulkIn c)) true;
              match e with
              | Some e => mret (false, Some e)
              | None =>
                  smod (fun s => set_packetSize (MaxPacketSize inp)
                    (set_command (mkCommand (number c) (alternate_ c) out inp (swoIn c)) s));;
                  if MaxPacketSize inp <? minimumPacketSize
                  then mret (false, Some (New "cmsisdap: active bulk IN packet size = %d, want at least %d"))
                  else
                    e ← synchronizeInput fuel ctx;
                    match e with
                    | Some e => mret (false, Some e)
                    | None =>
                        e ← readInfo ctx;
                        match e with
                        | Some e => mret (false, Some e)
                        | None => finishOpenSession ctx config
                        end
                    end
              end
          end
      end
  end.

Definition settleOpenFailure (result : bool) (e : err) : M (bool * err) :=
  match e with
  | None => mret (result, None)
  | Some _ =>
      '(retain, cleanup) ← closeAfterOpenFailure;
      mret (retain, errors_Join [e; cleanup])
  end.

Definition openSession_deferred (fuel : nat) (ctx : context) (config : openConfig) : M (bool * err) :=
  '(result, e) ← openSession_body fuel ctx config;
  c ← ctxErr ctx;
  settleOpenFailure result (errors_Join [e; c]).

Definition prepareOpen (ctx : context) (options : list Option_) (w : W) : openConfig * err * W :=
  if ctx_nil ctx then (mkOpenConfig false 0 0, Some (New "cmsisdap: nil open context"), w)
  else
    let (e, w) := ctx_Err ctx w in
    match e with
    | Some e => (mkOpenConfig false 0 0, Some (Sentinel (context_Err e)), w)
    | None => (applyOptions options (mkOpenConfig false 0 second), w)
    end.

Definition newSession (identity : DeviceInfo) (c : commandInterface) (config : openConfig) : Session :=
  mkSession true false c 0 (newInfo identity) false false false false 0 None (cfg_completionTimeout config).

(** The device is present; the session is returned where the source returns a
    non-nil one. *)
Definition openSession (fuel : nat) (ctx : context) (options : list Option_) : GoM W (option Session * err) := fun w =>
  let '(config, e, w) := prepareOpen ctx options w in
  match e with
  | Some e => let (c, w) := CloseDevice w in Done ((None, errors_Join [Some e; c]), w)
  | None =>
      let '((configuration, e), w) := ActiveConfiguration ctx w in
      match e with
      | Some e =>
          let (c, w) := CloseDevice w in
          Done ((None, errors_Join [Some (Errorf "cmsisdap: inspect active USB configuration: %w" [e]); c]), w)
      | None =>
          match findCommandInterface configuration with
          | (_, Some e) => let (c, w) := CloseDevice w in Done ((None, errors_Join [Some e; c]), w)
          | (command, None) =>
              match openSession_deferred fuel ctx config (mkSt (newSession (Identity w) command config) w) with
              | Done ((result, e), s) => Done ((if result then Some (sess s) else None, e), world s)
              | Panicked => Panicked
              | OutOfFuel => OutOfFuel
              end
          end
      end
  end.
End Ops.
