(* ===== verification/CmsisSwd.v ===== *)
(** * SWD streams over CMSIS-DAP (cmsisdap/swd.go, swj.go)

    A direction-explicit bit stream is planned as DAP_SWD_Sequence packets, all
    of it before the first is sent.  [None] is a panic, or a loop whose turns are
    used up. *)

From S2P Require Import Prelude Go Bits Usb UsbHost Cmsis.
Local Open Scope Z_scope.

Definition maxSWDTransferBits : Z := 16_384.

Record swdCapture := mkCapture { cap_offset : Z; cap_bits : Z }.
Record swdPacket := mkPacket { request : list Z; captures : list swdCapture }.

Definition dot : Z := 0x2e.

Definition protocolSupportsSWDSequence (version : list Z) : bool :=
  let parts := split dot version in
  if (len parts <? 2) || (3 <? len parts) then false
  else match mapM ParseUint32 parts with
       | Some (major :: minor :: _) => (1 <? major) || (major =? 1) && (2 <=? minor)
       | _ => false
       end.

Definition MaxTransferBits (s : Session) : Z := if configured s then maxSWDTransferBits else 0.

(** ** Bits *)

Definition swdBit (data : list Z) (bit : Z) : option bool :=
  b ← index data (bit / 8); Some (any_bits b (uint8 (Z.shiftl 1 (bit mod 8)))).

Fixpoint run_loop (n : nat) (direction : list Z) (start bits : Z) (value : bool) (count : Z) : option Z :=
  if bits <=? start + count then Some count
  else match n with
  | O => None
  | S n =>
      b ← swdBit direction (start + count);
      if bool_decide (b = value) then run_loop n direction start bits value (count + 1) else Some count
  end.

Definition swdRun (direction : list Z) (start bits : Z) : option Z :=
  value ← swdBit direction start;
  run_loop (Z.to_nat (bits - start)) direction start bits value 1.

Definition packSWDBits (data : list Z) (start bits : Z) : option (list Z) :=
  for_range bits (fun (bit : Z) (packed : list Z) =>
    b ← swdBit data (start + bit);
    if (b : bool) then
      x ← index packed (bit / 8);
      store packed (bit / 8) (Z.lor x (uint8 (Z.shiftl 1 (bit mod 8))))
    else Some packed) (make_bytes ((bits + 7) / 8)).

(** ** Planning *)

Definition swdCaptureFits (bits requestBytes responseBytes sequences packetSize : Z) : bool :=
  let descriptors := (bits + 63) / 64 in
  (responseBytes + (bits + 7) / 8 <=? packetSize) && (requestBytes + descriptors <=? packetSize) &&
  (sequences + descriptors <=? 255).

(** The request is its command, [sequences] and [body]. *)
Fixpoint packet_loop (n : nat) (direction output : list Z) (bits packetSize position sequences : Z) (body : list Z)
    (responseBytes : Z) (captures : list swdCapture) : option (list Z * list swdCapture * Z) :=
  if (bits <=? position) || (sequences =? 0xff)
  then Some (commandSWDSequence :: sequences :: body, captures, position)
  else match n with
  | O => None
  | S n =>
      driven ← swdBit direction position;
      let input := negb driven in
      run ← swdRun direction position bits;
      let requestBytes := 2 + len body in
      if input && negb (swdCaptureFits run requestBytes responseBytes sequences packetSize)
      then Some (commandSWDSequence :: sequences :: body, captures, position)
      else
        let capacity :=
          if input && (requestBytes + 1 <=? packetSize) then (packetSize - responseBytes) * 8
          else if negb input && (requestBytes + 1 <? packetSize) then (packetSize - requestBytes - 1) * 8
          else 0 in
        let count := Z.min (Z.min run 64) capacity in
        if count <=? 0 then Some (commandSWDSequence :: sequences :: body, captures, position)
        else
          let info := uint8 (Z.land count 0x3f) in
          if input then
            packet_loop n direction output bits packetSize (position + count) (uint8 (sequences + 1))
              (body ++ [Z.lor info 0x80]) (responseBytes + (count + 7) / 8) (captures ++ [mkCapture position count])
          else
            data ← packSWDBits output position count;
            packet_loop n direction output bits packetSize (position + count) (uint8 (sequences + 1))
              (body ++ info :: data) responseBytes captures
  end.

Definition planSWDPacket (direction output : list Z) (bits start packetSize : Z) : option (list Z * list swdCapture * Z) :=
  packet_loop (Z.to_nat (bits - start)) direction output bits packetSize start 0 [] 2 [].

Fixpoint stream_loop (n : nat) (direction output : list Z) (bits packetSize position : Z) (packets : list swdPacket)
    : option (list swdPacket * err) :=
  if bits <=? position then Some (packets, None)
  else match n with
  | O => None
  | S n =>
      '(request, captures, next) ← planSWDPacket direction output bits position packetSize;
      if next =? position
      then Some ([], Some (New "cmsisdap: packet size %d cannot preserve SWD direction boundary at bit %d"))
      else stream_loop n direction output bits packetSize next (packets ++ [mkPacket request captures])
  end.

Definition planSWDStream (direction output : list Z) (bits packetSize : Z) : option (list swdPacket * err) :=
  host ← swdBit direction (bits - 1);
  if negb host then Some ([], Some (New "cmsisdap: SWD sequence must end with host ownership"))
  else stream_loop (Z.to_nat bits) direction output bits packetSize 0 [].

(** ** Responses *)

Definition captureBits (data : list Z) (c : swdCapture) (input : list Z) : option (list Z) :=
  for_range (cap_bits c) (fun (bit : Z) (input : list Z) =>
    b ← swdBit data bit;
    if (b : bool) then
      let position := cap_offset c + bit in
      x ← index input (position / 8);
      store input (position / 8) (Z.lor x (uint8 (Z.shiftl 1 (position mod 8))))
    else Some input) input.

Section Ops.
Context {W : Type} `{Env W} `{UsbHost W}.
Abbreviation M := (GoM (St (W := W))).

Fixpoint decodeSWDResponse (input response : list Z) (offset : Z) (captures : list swdCapture) : M (list Z * err) :=
  match captures with
  | [] => mret (input, None)
  | c :: captures =>
      let bytes := (cap_bits c + 7) / 8 in
      if len response <? offset + bytes then
        e ← poison (New "short response: got %d bytes, need %d"); mret (input, Some e)
      else
        input ← lift (captureBits (take (Z.to_nat bytes) (drop (Z.to_nat offset) response)) c input);
        decodeSWDResponse input response (offset + bytes) captures
  end.

Definition sequenceReady (ctx : context) : M err :=
  e ← transportReady ctx;
  match e with
  | Some e => mret (Some e)
  | None =>
      s ← sget id;
      mret (if negb (configured s) then Some (New "cmsisdap: SWD is not configured")
            else if negb (protocolSupportsSWDSequence (ProtocolVersion (info s)))
            then Some (New "cmsisdap: protocol version %q does not support DAP_SWD_Sequence") else None)
  end.

Definition sequenceFailure (index : Z) (e : error) : M error :=
  e ← (if 0 <? index then poison e else mret e);
  mret (Errorf "cmsisdap: DAP_SWD_Sequence packet %d: %w" [e]).

(** The loop over packets; [index] is the number already sent. *)
Fixpoint send_loop (ctx : context) (index : Z) (input : list Z) (completion : option context) (packets : list swdPacket)
    : M (list Z * err) :=
  match packets with
  | [] => mret (input, None)
  | p :: packets =>
      '(response, e, completion) ← exchangeWithCompletion ctx (request p) completion;
      match e with
      | Some e => e ← sequenceFailure index e; mret ([], Some e)
      | None =>
          e ← validateStatusResponse response commandSWDSequence;
          match e with
          | Some e => e ← sequenceFailure index e; mret ([], Some e)
          | None =>
              '(input, e) ← decodeSWDResponse input response 2 (captures p);
              match e with
              | Some e => e ← sequenceFailure index e; mret ([], Some e)
              | None => send_loop ctx (index + 1) input completion packets
              end
          end
      end
  end.

Definition SWDIO_body (ctx : context) (direction output : list Z) (bits : Z) : M (list Z * err) :=
  packet ← sget packetSize;
  '(packets, e) ← lift (planSWDStream direction output bits packet);
  match e with
  | Some e => mret ([], Some e)
  | None => send_loop ctx 0 (make_bytes ((bits + 7) / 8)) None packets
  end.

Definition SWDIO (ctx : context) (direction output : list Z) (bits : Z) : M (list Z * err) :=
  if (bits <=? 0) || (maxSWDTransferBits <? bits) || (len direction * 8 <? bits) || (len output * 8 <? bits)
  then mret ([], Some (New "cmsisdap: invalid %d-bit SWD stream"))
  else
    e ← sequenceReady ctx;
    match e with
    | Some e => mret ([], Some e)
    | None =>
        '(input, e) ← SWDIO_body ctx direction output bits;
        c ← ctxErr ctx;
        mret (input, errors_Join [e; c])
    end.

(** ** SWJ sequences (swj.go) *)

Definition commandSWJSequence : Z := 0x12.

(** Whether the host drives every bit. *)
Definition all_driven (direction : list Z) (bits : Z) : option bool :=
  for_range bits (fun (bit : Z) (all : bool) => if all then swdBit direction bit else Some false) true.

Definition swj_body (ctx : context) (output : list Z) (bits : Z) : M (list Z * err) :=
  data ← lift (packSWDBits output 0 bits);
  '(response, e) ← exchange ctx (commandSWJSequence :: uint8 bits :: data);
  match e with
  | Some e => mret ([], Some e)
  | None =>
      e ← validateStatusResponse response commandSWJSequence;
      match e with
      | Some e => mret ([], Some e)
      | None => mret (make_bytes ((bits + 7) / 8), None)
      end
  end.

(** [swjOutput.SWDIO] *)
Definition swjOutput (ctx : context) (direction output : list Z) (bits : Z) : M (list Z * err) :=
  if (bits <=? 0) || (256 <? bits) || (len direction <? (bits + 7) / 8) || (len output <? (bits + 7) / 8)
  then mret ([], Some (New "cmsisdap: invalid %d-bit SWJ sequence"))
  else
    all ← lift (all_driven direction bits);
    if negb all then mret ([], Some (New "cmsisdap: SWJ sequence cannot sample SWDIO"))
    else
      e ← transportReady ctx;
      match e with
      | Some e => mret ([], Some e)
      | None =>
          s ← sget id;
          if negb (configured s) then mret ([], Some (New "cmsisdap: SWD is not configured"))
          else if packetSize s <? 2 + (bits + 7) / 8
          then mret ([], Some (New "cmsisdap: SWJ sequence exceeds packet size"))
          else
            '(input, e) ← swj_body ctx output bits;
            c ← ctxErr ctx;
            mret (input, errors_Join [e; c])
      end.

Definition SWJSequence (ctx : context) (output : list Z) (bits : Z) : M err :=
  if (bits <=? 0) || (256 <? bits) then mret (Some (New "cmsisdap: invalid %d-bit SWJ sequence"))
  else
    let direction := replicate (Z.to_nat ((bits + 7) / 8)) 0xff in
    '(_, e) ← swjOutput ctx direction output bits;
    mret e.
End Ops.
