(* ===== verification/CmsisRegister.v ===== *)
(** * Completed register transfers over CMSIS-DAP
    (cmsisdap/register.go, register_framing.go, register_transfer.go)

    A register transport: DAP_Transfer with its statuses, protocol entry, and
    the ownership of ORUNDETECT.  The entry sequence is package swd's, over a
    wire that can only drive. *)

From S2P Require Import Prelude Go Bits SwdFrame SwdConn DapErrors Usb UsbHost Cmsis CmsisSwd.
Local Open Scope Z_scope.

Section Transfer.
Context {W : Type} `{Env W} `{UsbHost W}.
Abbreviation M := (GoM (Cmsis.St (W := W))).

(** ** DAP_Transfer (register_transfer.go) *)

Definition invalidRegisterResponse : M (Z * RegisterStatus * err) :=
  e ← poison (Join [Errorf "cmsisdap: invalid DAP_Transfer response %x: %w" [Sentinel dap_ErrProtocol];
                    Sentinel dap_ErrIndeterminate]);
  mret (0, RegisterIndeterminate, Some e).

Definition completedRegisterResponse (response : list Z) (read : bool) : M (Z * RegisterStatus * err) :=
  count ← lift (index response 1);
  if negb (count =? 1) || read && (len response <? 7) then invalidRegisterResponse
  else mret (if read then le_value (take 4 (drop 3 response)) else 0, RegisterCompleted, None).

Definition failedRegisterResponse (response : list Z) (request : Z) (cause : sentinel) : M (Z * RegisterStatus * err) :=
  count ← lift (index response 1);
  if count =? 0 then mret (0, RegisterRejected, Some (Sentinel cause))
  else if any_bits request 2 && negb (any_bits request 1) then invalidRegisterResponse
  else if any_bits request 2 && bool_decide (cause = dap_ErrFault)
  then mret (0, RegisterCompleted, Some (Sentinel cause))
  else mret (0, RegisterIndeterminate, Some (Join [Sentinel cause; Sentinel dap_ErrIndeterminate])).

Definition decodeRegisterResponse (response : list Z) (request : Z) : M (Z * RegisterStatus * err) :=
  if (len response =? 1) && bool_decide (index response 0 = Some statusError)
  then mret (0, RegisterUnsent, Some (New "cmsisdap: DAP_Transfer is not implemented"))
  else if len response <? 3 then invalidRegisterResponse
  else
    command ← lift (index response 0);
    count ← lift (index response 1);
    if negb (command =? commandTransfer) || (1 <? count) then invalidRegisterResponse
    else
      status ← lift (index response 2);
      if status =? 1 then completedRegisterResponse response (any_bits request 2)
      else if status =? 2 then failedRegisterResponse response request dap_ErrWait
      else if status =? 4 then failedRegisterResponse response request dap_ErrFault
      else if (status =? 0) || (status =? 3) || (status =? 5) || (status =? 6) || (status =? 7) || (status =? 8)
      then mret (0, RegisterIndeterminate,
             Some (Join [Errorf "cmsisdap: target transfer status %#x: %w" [Sentinel dap_ErrProtocol];
                         Sentinel dap_ErrIndeterminate]))
      else invalidRegisterResponse.

Definition transferRegister_body (ctx : context) (request data : Z) : M (Z * RegisterStatus * err) :=
  let read := any_bits request 2 in
  let command := [commandTransfer; 0; 1; request] ++ (if read then [] else le_bytes 4 data) in
  packet ← sget packetSize;
  if (packet <? len command) || read && (packet <? 7)
  then mret (0, RegisterUnsent, Some (New "cmsisdap: packet cannot hold one register transfer"))
  else
    '(response, e) ← Cmsis.exchange ctx command;
    match e with
    | Some e =>
        p ← sget poisoned;
        if (p : bool) then mret (0, RegisterIndeterminate, Some (Join [e; Sentinel dap_ErrIndeterminate]))
        else mret (0, RegisterUnsent, Some e)
    | None => decodeRegisterResponse response request
    end.

Definition transferRegister (ctx : context) (request data : Z) : M (Z * RegisterStatus * err) :=
  e ← transportReady ctx;
  match e with
  | Some e => mret (0, RegisterUnsent, Some e)
  | None =>
      s ← sget id;
      if any_bits request 0xf0 || negb (configured s)
      then mret (0, RegisterUnsent, Some (New "cmsisdap: invalid or unconfigured register transfer"))
      else
        '(value, status, e) ← transferRegister_body ctx request data;
        c ← Cmsis.ctxErr ctx;
        mret (value, status, errors_Join [e; c])
  end.
End Transfer.

(** ** The transport (register.go) *)

Record RegisterSWD := mkRegister {
  active : bool;
  known : bool;
  originalOverrun : bool;
  identity : Z;
  bank : Z;
  bankKnown : bool
}.

Definition NewRegisterSWD : RegisterSWD := mkRegister false false false 0 0 false.

Definition set_active x r := mkRegister x (known r) (originalOverrun r) (identity r) (bank r) (bankKnown r).
Definition set_known x r := mkRegister (active r) x (originalOverrun r) (identity r) (bank r) (bankKnown r).
Definition set_original x r := mkRegister (active r) (known r) x (identity r) (bank r) (bankKnown r).
Definition set_identity x r := mkRegister (active r) (known r) (originalOverrun r) x (bank r) (bankKnown r).
Definition set_bank x k r := mkRegister (active r) (known r) (originalOverrun r) (identity r) x k.

(** register_framing.go *)
Definition validateFramingWrite (addr flags value : Z) (r : RegisterSWD) : err :=
  if negb (addr =? 4) || negb (flags =? 0) then None
  else if negb (bankKnown r) then Some (New "cmsisdap: DP bank is unknown before write at offset 4")
  else if (bank r =? 0) && any_bits value 1
  then Some (New "cmsisdap: CTRL/STAT.ORUNDETECT is owned by the register transport")
  else if (bank r =? 1) && any_bits value (Z.shiftl 3 8)
  then Some (New "cmsisdap: DLCR turnaround changes are not supported")
  else None.

Definition observeBank (addr flags value : Z) (status : RegisterStatus) (r : RegisterSWD) : RegisterSWD :=
  if negb (addr =? 8) || negb (flags =? 0) then r
  else if status =? RegisterCompleted then set_bank (Z.land value 15) true r
  else if status =? RegisterIndeterminate then set_bank (bank r) false r
  else r.

Section Register.
Context {W : Type} `{Env W} `{UsbHost W}.

(** A transport beside the session it borrows. *)
Record RSt := mkRSt { reg : RegisterSWD; session : Cmsis.St (W := W) }.

Abbreviation R := (GoM RSt).

Definition rget {A} (f : RegisterSWD -> A) : R A := gets (fun s => f (reg s)).
Definition rmod (f : RegisterSWD -> RegisterSWD) : R unit := modify (fun s => mkRSt (f (reg s)) (session s)).
Definition on_session {A} (m : GoM (Cmsis.St (W := W)) A) : R A := fun s =>
  match m (session s) with
  | Done (a, x) => Done (a, mkRSt (reg s) x)
  | Panicked => Panicked
  | OutOfFuel => OutOfFuel
  end.

(** The session as a wire for package swd: [swjOutput] always returns
    ([swjOutput_returns]). *)
#[local] Instance swjWire : SwdConn.Wire (Cmsis.St (W := W)) := {
  SwdConn.SWDIO ctx direction output bits s :=
    match swjOutput ctx direction output bits s with
    | Done r => r
    | _ => (([], None), s)
    end;
  SwdConn.MaxTransferBits := None
}.

#[local] Instance session_env : Env (Cmsis.St (W := W)) := {
  ctx_Err ctx s := let (e, w) := ctx_Err ctx (Cmsis.world s) in (e, Cmsis.mkSt (sess s) w)
}.

(** [swd.New(swjOutput{session}).JTAGToSWD(ctx)] *)
Definition enter (ctx : context) : R err := fun s =>
  match SwdConn.JTAGToSWD ctx (SwdConn.mkSt (SwdConn.New_ true []) (session s)) with
  | Done (e, x) => Done (e, mkRSt (reg s) (SwdConn.world x))
  | Panicked => Panicked
  | OutOfFuel => OutOfFuel
  end.

Definition ready (ctx : context) : R err :=
  e ← on_session (transportReady ctx);
  match e with
  | Some e => mret (Some e)
  | None =>
      s ← on_session (sget id);
      mret (if negb (configured s) || (packetSize s <? 19)
            then Some (New "cmsisdap: register transport requires configured SWD and a 19-byte packet") else None)
  end.

Definition statusCommand (ctx : context) (command : list Z) : R err :=
  '(response, e) ← on_session (Cmsis.exchange ctx command);
  match e with
  | Some e => mret (Some e)
  | None =>
      first ← lift (index command 0);
      e ← on_session (validateStatusResponse response first);
      c ← on_session (Cmsis.ctxErr ctx);
      mret (errors_Join [e; c])
  end.

Definition setGrammar (ctx : context) (overrun : bool) : R err :=
  statusCommand ctx [0x13; if overrun then 4 else 0].

(** [prepare] after the identity was accepted. *)
Definition prepare_writes (ctx : context) (id : Z) : R (Z * err) :=
  rmod (set_identity id);;
  let clear := if Z.land (Z.shiftr id 16) 1 =? 0 then Z.lor 0x1d 2 else 0x1d in
  '(_, _, e) ← on_session (transferRegister ctx 0 clear);
  match e with
  | Some e => mret (0, Some e)
  | None =>
      '(_, _, e) ← on_session (transferRegister ctx 8 0);
      match e with
      | Some e => mret (0, Some e)
      | None => '(state, _, e) ← on_session (transferRegister ctx 6 0); mret (state, e)
      end
  end.

Definition prepare (ctx : context) : R (Z * err) :=
  e ← ready ctx;
  match e with
  | Some e => mret (0, Some e)
  | None =>
      rmod (fun r => set_bank (bank r) false (set_active false r));;
      e ← statusCommand ctx [4; 8; 0; 0; 0; 0];
      match e with
      | Some e => mret (0, Some e)
      | None =>
          e ← setGrammar ctx false;
          match e with
          | Some e => mret (0, Some e)
          | None =>
              e ← enter ctx;
              match e with
              | Some e => mret (0, Some e)
              | None =>
                  '(id, _, e) ← on_session (transferRegister ctx 2 0);
                  match e with
                  | Some e => mret (0, Some e)
                  | None =>
                      r ← rget (fun r => r);
                      if (Z.land id 1 =? 0) || known r && negb (id =? identity r)
                      then mret (0, Some (Errorf "cmsisdap: invalid or changed DPIDR %#x: %w" [Sentinel dap_ErrProtocol]))
                      else prepare_writes ctx id
                  end
              end
          end
      end
  end.

Definition observeOverrun (ctx : context) (want : bool) : R (bool * err) :=
  '(state, status, e) ← on_session (transferRegister ctx 6 0);
  if negb (status =? RegisterCompleted) then mret (false, e)
  else if negb (Bool.eqb (any_bits state 1) want)
  then mret (false, errors_Join [e; Some (New "cmsisdap: ORUNDETECT did not change")])
  else mret (true, e).

(** The write that disables ORUNDETECT when the target had it enabled. *)
Definition disableOverrun (ctx : context) (state : Z) : R err :=
  if negb (any_bits state 1) then mret None
  else
    e ← setGrammar ctx true;
    match e with
    | Some e => mret (Some e)
    | None =>
        '(_, _, e) ← on_session (transferRegister ctx 4 (and_not state 1));
        match e with
        | Some e => mret (Some e)
        | None => setGrammar ctx false
        end
    end.

Definition Connect (ctx : context) : R (Z * err) :=
  '(state, e) ← prepare ctx;
  match e with
  | Some e => mret (0, Some e)
  | None =>
      rmod (fun r => if known r then r else set_known true (set_original (any_bits state 1) r));;
      e ← disableOverrun ctx state;
      match e with
      | Some e => mret (0, Some e)
      | None =>
          '(_, e) ← observeOverrun ctx false;
          match e with
          | Some e => mret (0, Some e)
          | None =>
              rmod (fun r => set_bank 0 true (set_active true r));;
              r ← rget (fun r => r);
              mret (identity r, None)
          end
      end
  end.

Definition Release (ctx : context) : R err :=
  r ← rget (fun r => r);
  if negb (known r) then mret None
  else
    '(state, e) ← prepare ctx;
    match e with
    | Some e => mret (Some e)
    | None =>
        e ← setGrammar ctx (any_bits state 1);
        match e with
        | Some e => mret (Some e)
        | None =>
            let want := if originalOverrun r then Z.lor (and_not state 1) 1 else and_not state 1 in
            '(_, _, e) ← on_session (transferRegister ctx 4 want);
            match e with
            | Some e => mret (Some e)
            | None =>
                e ← setGrammar ctx (originalOverrun r);
                match e with
                | Some e => mret (Some e)
                | None =>
                    '(restored, e) ← observeOverrun ctx (originalOverrun r);
                    (if (restored : bool) then rmod (fun r => set_active false (set_known false r)) else mret tt);;
                    mret e
                end
            end
        end
    end.

Definition CleanupPending (r : RegisterSWD) : bool := known r.

Definition transfer (ctx : context) (addr flags value : Z) : R (Z * RegisterStatus * err) :=
  r ← rget (fun r => r);
  if negb (active r) || any_bits addr (and_not 0xff 12)
  then mret (0, RegisterUnsent, Some (New "cmsisdap: inactive register transport or invalid address"))
  else match validateFramingWrite addr flags value r with
  | Some e => mret (0, RegisterUnsent, Some e)
  | None =>
      '(result, status, e) ← on_session (transferRegister ctx (Z.lor addr flags) value);
      rmod (observeBank addr flags value status);;
      (if (status =? RegisterIndeterminate) && negb (errors_Is e dap_ErrFault) then rmod (set_active false) else mret tt);;
      mret (result, status, e)
  end.

Definition ReadDP (ctx : context) (addr : Z) : R (Z * RegisterStatus * err) := transfer ctx addr 2 0.
Definition ReadAP (ctx : context) (addr : Z) : R (Z * RegisterStatus * err) := transfer ctx addr 3 0.

Definition WriteDP (ctx : context) (addr value : Z) : R (RegisterStatus * err) :=
  '(_, status, e) ← transfer ctx addr 0 value; mret (status, e).

Definition WriteAP (ctx : context) (addr value : Z) : R (RegisterStatus * err) :=
  '(_, status, e) ← transfer ctx addr 1 value; mret (status, e).
End Register.
