(* ===== verification/CmsisFacts.v ===== *)
(** * What a CMSIS-DAP session keeps true

    Every operation returns, keeps the session's ownership consistent ([Inv])
    and never reuses a poisoned or lost device; the commands a host accepts are
    recorded ([Recorded]), so that sending is at most once. *)

From S2P Require Import Prelude Go Bits Usb UsbHost Cmsis.
Local Open Scope Z_scope.

(** ** Recorded traffic *)

(** A transfer delivers bytes. *)
Class DeliversBytes (W : Type) `{UsbHost W} := wait_bytes ctx t (w : W) : bytes (snd (fst (Wait ctx t w))).

(** The OUT transfers a host accepted, in order.  Only submissions add to it. *)
Class Recorded (W : Type) `{Env W} `{UsbHost W} := {
  delivers : DeliversBytes W;
  sent : W -> list (list Z);
  sent_ctx ctx w : sent (snd (ctx_Err ctx w)) = sent w;
  sent_submit ctx ep data w :
    sent (snd (SubmitBulk ctx ep data w)) =
      sent w ++ (if is_nil (snd (fst (SubmitBulk ctx ep data w))) && negb (any_bits ep 0x80) then [data] else []);
  sent_wait ctx t w : sent (snd (Wait ctx t w)) = sent w;
  sent_abort ep w : sent (snd (AbortBulk ep w)) = sent w;
  sent_claim n w : sent (snd (claimInterface n w)) = sent w;
  sent_alt n w : sent (snd (SetAltSetting n w)) = sent w;
  sent_endpoint ctx a w : sent (snd (claimEndpoint ctx a w)) = sent w;
  sent_close_claim w : sent (snd (CloseClaim w)) = sent w;
  sent_close w : sent (snd (CloseDevice w)) = sent w
}.

(** Any host with a record beside it. *)
Record Traced (W : Type) := mkTraced { base : W; outs : list (list Z) }.
Arguments mkTraced {W}.
Arguments base {W}.
Arguments outs {W}.

Definition traced {W A} (f : W -> A * W) (t : Traced W) : A * Traced W :=
  let (a, w) := f (base t) in (a, mkTraced w (outs t)).

#[global] Instance Traced_Env {W} `{Env W} : Env (Traced W) := { ctx_Err ctx := traced (ctx_Err ctx) }.

#[global] Instance Traced_UsbHost {W} `{UsbHost W} : UsbHost (Traced W) := {
  Identity t := Identity (base t);
  ActiveConfiguration ctx := traced (ActiveConfiguration ctx);
  claimInterface n := traced (claimInterface n);
  SetAltSetting n := traced (SetAltSetting n);
  claimEndpoint ctx a := traced (claimEndpoint ctx a);
  SubmitBulk ctx ep data t :=
    let (r, w) := SubmitBulk ctx ep data (base t) in
    (r, mkTraced w (outs t ++ (if is_nil (snd r) && negb (any_bits ep 0x80) then [data] else [])));
  Wait ctx h := traced (Wait ctx h);
  Aborted h t := Aborted h (base t);
  AbortBulk ep := traced (AbortBulk ep);
  CloseClaim := traced CloseClaim;
  claimCleanupPending := option_map (fun f t => f (base t)) claimCleanupPending;
  CloseDevice := traced CloseDevice;
  deviceCleanupPending := option_map (fun f t => f (base t)) deviceCleanupPending
}.

#[global] Instance Traced_bytes {W} `{DeliversBytes W} : DeliversBytes (Traced W).
Proof.
  intros ctx t w. simpl. unfold traced. pose proof (wait_bytes ctx t (base w)) as B. by destruct (Wait ctx t (base w)).
Qed.

#[global] Instance Traced_Recorded {W} `{Env W} `{DeliversBytes W} : Recorded (Traced W).
Proof.
  refine {| sent := outs; delivers := Traced_bytes |}; intros; simpl; unfold traced;
    match goal with |- context [let (_, _) := ?x in _] => by destruct x end.
Defined.

(** ** The session's invariant *)

Record Inv (s : Session) : Prop := {
  inv_configured : configured s = true -> connected s = true;
  inv_connected : connected s = true -> device s = true /\ claim s = true;
  inv_out : any_bits (Address (bulkOut (command s))) 0x80 = false;
  inv_in : any_bits (Address (bulkIn (command s))) 0x80 = true;
  inv_packet : configured s = true -> 5 <= packetSize s
}.

(** What every operation leaves as it was, or only takes away. *)
Record later (s s' : Session) : Prop := {
  later_poisoned : poisoned s = true -> poisoned s' = true;
  later_gone : gone s = true -> gone s' = true;
  later_device : device s = false -> device s' = false;
  later_claim : claim s = false -> claim s' = false
}.

#[global] Instance later_preorder : PreOrder later.
Proof. split; [by split|]. intros a b c [] []. split; auto. Qed.

(** An exchange changes only what it learns of the stream and the device. *)
Record exchanged (s s' : Session) : Prop := {
  ex_rest : s' = set_poisoned (poisoned s') (set_gone (gone s') s);
  ex_poisoned : poisoned s = true -> poisoned s' = true;
  ex_gone : gone s = true -> gone s' = true
}.

#[global] Instance exchanged_preorder : PreOrder exchanged.
Proof.
  split; [by intros []; split|]. intros a b c [E1 P1 G1] [E2 P2 G2]. split; auto. rewrite E2, E1 at 1. done.
Qed.

Lemma exchanged_inv s s' : exchanged s s' -> Inv s -> Inv s'.
Proof. intros [-> _ _] []. by split. Qed.

Lemma exchanged_later s s' : exchanged s s' -> later s s'.
Proof. intros [-> P G]. by split. Qed.

Lemma exchanged_poison s : exchanged s (set_poisoned true s).
Proof. by destruct s. Qed.

Lemma errors_Join_Some e es : errors_Join (Some e :: es) <> None.
Proof. intros E%errors_Join_None. by apply Forall_cons in E as [? _]. Qed.

Section Facts.
Context {W : Type} `{Recorded W}.
Implicit Types s : St (W := W).
Abbreviation M := (GoM (St (W := W))).

(** ** Steps of a method *)

Lemma wp_host {A} (f : W -> A * W) (Q : A -> St -> Prop) s :
  Q (fst (f (world s))) (mkSt (sess s) (snd (f (world s)))) -> wp (host f) Q s.
Proof. unfold wp, host. by destruct (f (world s)). Qed.

Lemma wp_ctxErr ctx (Q : err -> St -> Prop) s :
  ctx_nil ctx = false ->
  (forall e w, sent w = sent (world s) -> Q e (mkSt (sess s) w)) -> wp (ctxErr ctx) Q s.
Proof.
  intros Hc HQ. unfold ctxErr. rewrite Hc. apply wp_bind, wp_host, wp_ret. apply HQ. apply sent_ctx.
Qed.

Lemma wp_poison e (Q : error -> St -> Prop) s :
  Q (Join [e; Sentinel cmsisdap_ErrSessionPoisoned]) (mkSt (set_poisoned true (sess s)) (world s)) -> wp (poison e) Q s.
Proof. done. Qed.

Lemma wp_poisonWith e es (Q : err -> St -> Prop) s :
  (forall e', Q (Some e') (mkSt (set_poisoned true (sess s)) (world s))) -> wp (poisonWith (Some e :: es)) Q s.
Proof.
  intros HQ. unfold poisonWith. destruct (errors_Join (Some e :: es)) as [e'|] eqn:E.
  - apply wp_bind, wp_poison, wp_ret. apply HQ.
  - apply errors_Join_None in E. by apply Forall_cons in E as [? _].
Qed.

Lemma wp_transportReady ctx (Q : err -> St -> Prop) s :
  (forall e w, sent w = sent (world s) -> Q (Some e) (mkSt (sess s) w)) ->
  (forall w, sent w = sent (world s) -> ctx_nil ctx = false -> device (sess s) = true -> claim (sess s) = true ->
     poisoned (sess s) = false -> gone (sess s) = false -> Q None (mkSt (sess s) w)) ->
  wp (transportReady ctx) Q s.
Proof.
  intros HE HN. assert (mkSt (sess s) (world s) = s) as Es by (by destruct s).
  assert (forall e, Q (Some e) s) as HE' by (intros e; rewrite <- Es; by apply HE).
  unfold transportReady. apply wp_bind, wp_gets. change (id (sess s)) with (sess s).
  destruct (device (sess s)) eqn:Ed; [|apply wp_ret, HE']. destruct (claim (sess s)) eqn:Ec; [|apply wp_ret, HE'].
  destruct (poisoned (sess s)) eqn:Ep; [apply wp_ret, HE'|]. destruct (gone (sess s)) eqn:Eg; [apply wp_ret, HE'|].
  destruct (ctx_nil ctx) eqn:En; [apply wp_ret, HE'|]. apply wp_ctxErr; [done|].
  intros [e|] w Hw; [by apply HE|by apply HN].
Qed.

(** ** Exchanges *)

(** What one exchange of [req] has done: nothing was accepted, or [req] was,
    once; only an answered command leaves the stream usable. *)
Definition exchange_post (req : list Z) s (resp : list Z) (e : err) (s' : St) : Prop :=
  exchanged (sess s) (sess s') /\
  match e with
  | None => bytes resp /\ 1 <= len resp <= packetSize (sess s) /\ sess s' = sess s /\ poisoned (sess s') = false /\ device (sess s) = true /\ claim (sess s) = true /\
      sent (world s') = sent (world s) ++ [req]
  | Some _ => sent (world s') = sent (world s) \/ poisoned (sess s') = true /\ sent (world s') = sent (world s) ++ [req]
  end.

Lemma wp_abortIn (Q : err -> St -> Prop) s :
  (forall e w, sent w = sent (world s) -> Q e (mkSt (sess s) w)) -> wp abortIn Q s.
Proof. intros HQ. unfold abortIn. apply wp_bind, wp_gets, wp_host, HQ, sent_abort. Qed.

Lemma wp_abortOut (Q : err -> St -> Prop) s :
  (forall e w, sent w = sent (world s) -> Q e (mkSt (sess s) w)) -> wp abortOut Q s.
Proof. intros HQ. unfold abortOut. apply wp_bind, wp_gets, wp_host, HQ, sent_abort. Qed.

Lemma wp_submissionError e (Q : error -> St -> Prop) s :
  (forall x, exchanged (sess s) x -> poisoned x = poisoned (sess s) -> Q e (mkSt x (world s))) -> wp (submissionError e) Q s.
Proof.
  intros HQ. unfold submissionError. apply wp_bind, wp_modify, wp_ret. apply HQ; destruct (Is e usb_ErrDeviceGone); by destruct (sess s).
Qed.

(** Waiting for the command, then for its response. *)
Lemma complete_wp ctx output input (req : list Z) s :
  wp (e ← completeCommand ctx output (len req);
      match e with
      | Some e => mret (([] : list Z), Some e)
      | None => completeResponse ctx input (make_bytes (packetSize (sess s)))
      end) (fun r s' => exchanged (sess s) (sess s') /\ sent (world s') = sent (world s) /\
    match snd r with
    | None => (bytes (fst r) /\ 1 <= len (fst r) <= packetSize (sess s)) /\ sess s' = sess s
    | Some _ => poisoned (sess s') = true
    end) s.
Proof.
  unfold completeCommand. apply wp_bind, wp_bind, wp_host. pose proof (sent_wait ctx output (world s)) as Hw.
  destruct (Wait ctx output (world s)) as [[[count e] d] w1]. cbn [fst snd] in *.
  destruct e as [e|].
  { apply wp_bind, wp_abortOut. intros e1 w2 Hw2. apply wp_bind, wp_abortIn. intros e2 w3 Hw3. cbn [world sess] in *.
    apply wp_poisonWith. intros e'. apply wp_ret. cbn [sess world fst snd].
    split; [apply exchanged_poison|]. split; [congruence|done]. }
  destruct (negb (count =? len req)).
  { apply wp_bind, wp_abortIn. intros e2 w3 Hw3. cbn [world sess] in *. apply wp_poisonWith. intros e'. apply wp_ret.
    cbn [sess world fst snd]. split; [apply exchanged_poison|]. split; [congruence|done]. }
  apply wp_ret. unfold completeResponse. apply wp_bind, wp_host. cbn [world sess].
  pose proof (sent_wait ctx input w1) as Hw2. pose proof (delivers ctx input w1) as Hby. destruct (Wait ctx input w1) as [[[count' e] d'] w2]. cbn [fst snd] in *.
  destruct e as [e|].
  { apply wp_bind, wp_abortIn. intros e2 w3 Hw3. cbn [world sess] in *. apply wp_bind, wp_poisonWith. intros e'. apply wp_ret.
    cbn [sess world fst snd]. split; [apply exchanged_poison|]. split; [congruence|done]. }
  assert (len (received d' (make_bytes (packetSize (sess s)))) = len (make_bytes (packetSize (sess s)))) as Hl
    by (unfold received, len; rewrite length_app, length_take, length_drop; lia).
  destruct (_ || _) eqn:Ec.
  { apply wp_bind, wp_poison, wp_ret. cbn [sess world fst snd]. split; [apply exchanged_poison|]. split; [congruence|done]. }
  destruct (Z.eqb_spec count' 0) as [|Hn].
  { apply wp_bind, wp_poison, wp_ret. cbn [sess world fst snd]. split; [apply exchanged_poison|]. split; [congruence|done]. }
  apply wp_ret. cbn [sess world fst snd]. split; [done|]. split; [congruence|]. split; [|done]. split.
  { apply Forall_take, Forall_app. split; [by apply Forall_take|apply Forall_drop, bytes_make]. }
  apply orb_false_iff in Ec as [E1 E2]. apply Z.ltb_ge in E1, E2. unfold len in *. rewrite length_take.
  unfold make_bytes in *. rewrite length_replicate in *. lia.
Qed.

Lemma exchangeWithCompletion_wp ctx req completion s :
  Inv (sess s) ->
  wp (exchangeWithCompletion ctx req completion) (fun r s' =>
    exchange_post req s (fst (fst r)) (snd (fst r)) s' /\
    (snd (fst r) = None -> ctx_nil (default ctx completion) = false)) s.
Proof.
  intros I. unfold exchangeWithCompletion. apply wp_bind. apply wp_transportReady.
  { intros e w Hw. apply wp_ret. split; [split; [done|by left]|done]. }
  intros w Hw Hn Hd Hc Hp Hg. apply wp_bind, wp_gets. cbn [sess].
  destruct (len req =? 0); [apply wp_ret; split; [split; [done|by left]|done]|].
  destruct (packetSize (sess s) <? len req); [apply wp_ret; split; [split; [done|by left]|done]|].
  apply wp_bind, wp_gets. cbn [sess]. apply wp_bind, wp_host. cbn [world sess].
  pose proof (sent_submit (default ctx completion) (Address (bulkIn (command (sess s)))) (make_bytes (packetSize (sess s))) w) as Hs.
  destruct (SubmitBulk _ (Address (bulkIn (command (sess s)))) _ w) as [[input e] w1]. cbn [fst snd] in *.
  rewrite (inv_in _ I), andb_false_r, app_nil_r in Hs.
  destruct e as [e|].
  { apply wp_bind, wp_submissionError. intros x Hx _. apply wp_ret. split; [split; [done|left; cbn [world] in *; congruence]|done]. }
  apply wp_bind, wp_host. cbn [world sess].
  pose proof (sent_submit (default ctx completion) (Address (bulkOut (command (sess s)))) req w1) as Hs2.
  destruct (SubmitBulk _ (Address (bulkOut (command (sess s)))) _ w1) as [[output e] w2]. cbn [fst snd] in *.
  rewrite (inv_out _ I), andb_true_r in Hs2.
  destruct e as [e|]; cbn [is_nil] in Hs2.
  { rewrite app_nil_r in Hs2. apply wp_bind, wp_submissionError. intros x Hx Hpx. apply wp_bind, wp_abortIn.
    intros [c|] w3 Hw3; cbn [world sess] in *.
    - apply wp_bind, wp_poisonWith. intros e'. apply wp_ret. split; [|done]. split; [|left; cbn [world]; congruence].
      cbn [sess fst snd]. transitivity x; [done|apply exchanged_poison].
    - apply wp_ret. split; [|done]. split; [done|left; cbn [world]; congruence]. }
  apply wp_bind, wp_gets. cbn [sess].
  pose proof (complete_wp (default (WithTimeout (WithoutCancel (default ctx completion))
    (if completionTimeout (sess s) =? 0 then second else completionTimeout (sess s))) completion) output input req
    (mkSt (sess s) w2)) as K.
  apply wp_bind. unfold wp, mbind, GoM_bind in K |- *. cbn [sess world] in K.
  destruct (completeCommand _ output (len req) (mkSt (sess s) w2)) as [[[e|] s1]| |]; [| |done|done].
  - destruct K as (Hx & Hsn & Hpo). split; [|done]. split; [done|]. right. cbn [snd fst] in *. split; [done|congruence].
  - destruct (completeResponse _ input _ s1) as [[[resp [e|]] s2]| |]; [| |done|done]; cbn [fst snd] in *;
      destruct K as (Hx & Hsn & Hr); (split; [split; [done|]|done]).
    + right. split; [done|congruence].
    + destruct Hr as [[Hb Hr] E]. cbn [fst snd]. split; [done|]. rewrite E. split_and!; try done; lia || congruence.
Qed.

Lemma exchange_wp ctx req s :
  Inv (sess s) ->
  wp (exchange ctx req) (fun r s' => exchange_post req s (fst r) (snd r) s' /\ (snd r = None -> ctx_nil ctx = false)) s.
Proof.
  intros I. unfold exchange. apply wp_bind. eapply wp_mono; [by apply exchangeWithCompletion_wp|].
  intros [[resp e] c] s' K. by apply wp_ret.
Qed.

(** ** Responses *)

Lemma validateCommandResponse_wp resp command minimum s :
  1 <= minimum ->
  wp (validateCommandResponse resp command minimum) (fun e s' => exchanged (sess s) (sess s') /\ world s' = world s /\
    (e = None -> s' = s /\ minimum <= len resp /\ index resp 0 = Some command)) s.
Proof.
  intros Hm. unfold validateCommandResponse. destruct (_ && _); [by apply wp_ret|].
  destruct (Z.ltb_spec (len resp) minimum).
  { apply wp_bind, wp_poison, wp_ret. split; [apply exchanged_poison|done]. }
  destruct (index resp 0) as [x|] eqn:E.
  2: { pose proof (proj2 (index_is_Some resp 0)) as K. rewrite E in K. destruct K; [lia|done]. }
  apply wp_bind. eapply wp_lift; [done|]. destruct (Z.eqb_spec x command) as [->|].
  - apply wp_ret. split; [done|]. split; [done|]. auto.
  - apply wp_bind, wp_poison, wp_ret. split; [apply exchanged_poison|done].
Qed.

Lemma validateStatusResponse_wp resp command s :
  wp (validateStatusResponse resp command) (fun e s' => exchanged (sess s) (sess s') /\ world s' = world s /\
    (e = None -> s' = s /\ 2 <= len resp /\ index resp 0 = Some command /\ index resp 1 = Some statusOK)) s.
Proof.
  unfold validateStatusResponse. apply wp_bind. eapply wp_mono; [by apply validateCommandResponse_wp|].
  intros [e|] s' (Hx & Hw & Hn); [by apply wp_ret|]. destruct (Hn eq_refl) as (-> & Hl & H0').
  destruct (index resp 1) as [x|] eqn:E.
  2: { pose proof (proj2 (index_is_Some resp 1)) as K. rewrite E in K. destruct K; [lia|done]. }
  apply wp_bind. eapply wp_lift; [done|]. apply wp_ret. split; [done|]. split; [done|].
  destruct (Z.eqb_spec x statusOK) as [->|]; [auto|done].
Qed.

End Facts.
