(* ===== verification/CmsisSwdFacts.v ===== *)
(** * Planned SWD packets do what the stream asks for

    The last part is a host with a probe that executes them. *)

From S2P Require Import Prelude Go Bits Mpsse FtdiFacts Usb UsbHost Cmsis CmsisSwd CmsisFacts.
Local Open Scope Z_scope.

(** ** Bits and runs *)

Lemma len_cons {A} (x : A) l : len (x :: l) = 1 + len l.
Proof. unfold len. simpl length. lia. Qed.

Lemma swdBit_spec data i : 0 <= i < 8 * len data -> swdBit data i = Some (gbit data i).
Proof.
  intros Hi. unfold swdBit. rewrite index_bit by done. cbn [mbind option_bind].
  assert (uint8 (Z.shiftl 1 (i mod 8)) = 2 ^ (i mod 8)) as ->.
  { rewrite Z.shiftl_mul_pow2, Z.mul_1_l by (apply Z.mod_pos_bound; lia). apply uint8_small.
    split; [apply Z.pow_nonneg; lia|]. change 256 with (2 ^ 8). apply Z.pow_lt_mono_r; try lia.
    Z.to_euclidean_division_equations; lia. }
  rewrite any_bits_bit by (apply Z.mod_pos_bound; lia). done.
Qed.

(** The bits from [p] that share its direction, [w] of them. *)
Record is_run (dir : list Z) (bits p w : Z) : Prop := {
  run_pos : 1 <= w;
  run_in : p + w <= bits;
  run_same : forall i, 0 <= i < w -> gbit dir (p + i) = gbit dir p;
  run_end : p + w = bits \/ gbit dir (p + w) <> gbit dir p
}.

Lemma is_run_unique dir bits p w w' : is_run dir bits p w -> is_run dir bits p w' -> w = w'.
Proof.
  intros [P1 I1 S1 E1] [P2 I2 S2 E2]. destruct (Z.lt_trichotomy w w') as [L|[->|L]]; [|done|].
  - destruct E1 as [|E1]; [lia|]. destruct E1. apply S2. lia.
  - destruct E2 as [|E2]; [lia|]. destruct E2. apply S1. lia.
Qed.

Lemma is_run_drop dir bits p w k : is_run dir bits p w -> 0 <= k < w -> is_run dir bits (p + k) (w - k).
Proof.
  intros [P I S E] Hk. assert (gbit dir (p + k) = gbit dir p) as Ek by (apply S; lia). split; [lia|lia| |].
  - intros i Hi. rewrite Ek, <- Z.add_assoc. apply S. lia.
  - rewrite Ek. replace (p + k + (w - k)) with (p + w) by lia. done.
Qed.

Lemma run_loop_spec n dir start bits count :
  0 <= start -> 1 <= count -> start + count <= bits -> bits - start - count <= Z.of_nat n -> bits <= 8 * len dir ->
  (forall i, 0 <= i < count -> gbit dir (start + i) = gbit dir start) ->
  exists w, run_loop n dir start bits (gbit dir start) count = Some w /\ is_run dir bits start w.
Proof.
  intros Hs. revert count. induction n as [|n IH]; intros count Hc Hb Hn Hl Hsame; cbn [run_loop].
  all: destruct (Z.leb_spec bits (start + count)); [exists count; split; [done|]; split; [done|done|done|left; lia]|].
  { lia. }
  rewrite swdBit_spec by lia. cbn [mbind option_bind]. case_bool_decide as E.
  - apply IH; try lia. intros i Hi. destruct (Z.eq_dec i count) as [->|]; [done|]. apply Hsame. lia.
  - exists count. split; [done|]. split; [done|done|done|by right].
Qed.

Lemma swdRun_spec dir start bits :
  0 <= start < bits -> bits <= 8 * len dir ->
  exists w, swdRun dir start bits = Some w /\ is_run dir bits start w.
Proof.
  intros Hs Hl. unfold swdRun. rewrite swdBit_spec by lia. cbn [mbind option_bind]. apply run_loop_spec; try lia.
  intros i Hi. f_equal. lia.
Qed.

Lemma packSWDBits_spec out start w :
  0 <= start -> 0 <= w -> start + w <= 8 * len out ->
  exists d, packSWDBits out start w = Some d /\ bytes d /\ len d = bytes_for w /\
    forall i, 0 <= i < w -> gbit d i = gbit out (start + i).
Proof.
  intros Hs Hw Hl. unfold packSWDBits. change ((w + 7) / 8) with (bytes_for w).
  pose proof (bytes_for_bound w Hw) as Hb. pose proof (len_make_bytes (bytes_for w) (bytes_for_nonneg w Hw)) as Lm.
  match goal with |- context [for_range _ ?body _] =>
    destruct (blit_spec body (fun i => gbit out (start + i)) 0 w (make_bytes (bytes_for w))) as (d & Hd & Bd & Ld & Gd)
  end; try lia; [apply bytes_make| |exists d; split; [exact Hd|]].
  - intros i d Hi Hd. cbn beta. rewrite swdBit_spec by lia. cbn [mbind option_bind]. rewrite Z.add_0_l.
    destruct (gbit out (start + i)); [done|]. by rewrite or_bit_0 by lia.
  - split; [done|]. split; [congruence|]. intros i Hi. rewrite Gd, gbit_make_bytes by lia. rewrite Z.sub_0_r, Z.add_0_l, orb_false_l.
    by destruct (Z.leb_spec 0 i), (Z.ltb_spec i w); try lia.
Qed.

(** ** What a packet's response holds *)

Fixpoint captured (s : Z -> bool) (data : list Z) (caps : list swdCapture) : Prop :=
  match caps with
  | [] => data = []
  | c :: caps => exists d rest, data = d ++ rest /\ bytes d /\ len d = bytes_for (cap_bits c) /\ 1 <= cap_bits c /\
      (forall i, 0 <= i < cap_bits c -> gbit d i = s (cap_offset c + i)) /\ captured s rest caps
  end.

Definition caps_in (lo hi : Z) (caps : list swdCapture) : Prop :=
  Forall (fun c => lo <= cap_offset c /\ cap_offset c + cap_bits c <= hi) caps.

Definition catches (j : Z) (c : swdCapture) : bool := (cap_offset c <=? j) && (j <? cap_offset c + cap_bits c).

Lemma captured_ext s s' lo hi data caps :
  (forall j, lo <= j < hi -> s j = s' j) -> caps_in lo hi caps -> captured s data caps -> captured s' data caps.
Proof.
  intros E C. revert data. induction C as [|c caps [C1 C2] C IH]; intros data; [done|]. simpl.
  intros (d & rest & -> & B & L & P & G & R). exists d, rest. split_and!; try done; [|by apply IH].
  intros i Hi. rewrite <- E by lia. by apply G.
Qed.

Lemma captured_eq s s' data caps : (forall j, s j = s' j) -> captured s data caps -> captured s' data caps.
Proof.
  intros E. revert data. induction caps as [|c caps IH]; intros data; [done|]. simpl.
  intros (d & rest & -> & B & L & P & G & R). exists d, rest. split_and!; try done; [|by apply IH].
  intros i Hi. rewrite <- E. by apply G.
Qed.

(** ** The requests of one packet *)

(** [n] sequences that clock [l] of the stream from [p] and answer [caps]. *)
Definition performs (n : nat) (body : list Z) (caps : list swdCapture) (p : Z) (l : list (bool * bool)) (size : Z) : Prop :=
  forall (T : Type) (wire : bool * bool -> T -> bool * T) t,
    exists resp samples t', swd_sequences wire n body t = (resp, t') /\ clocks wire l t = (samples, t') /\
      captured (fun j => sample_at samples (j - p)) resp caps /\ len resp = size.

Lemma count_info count : 1 <= count <= 64 ->
  sequence_count (uint8 (Z.land count 0x3f)) = count /\ Z.testbit (uint8 (Z.land count 0x3f)) 7 = false /\
  sequence_count (Z.lor (uint8 (Z.land count 0x3f)) 0x80) = count /\ Z.testbit (Z.lor (uint8 (Z.land count 0x3f)) 0x80) 7 = true.
Proof.
  intros Hc. assert (Forall (fun c => sequence_count (uint8 (Z.land c 0x3f)) = c /\ Z.testbit (uint8 (Z.land c 0x3f)) 7 = false /\
    sequence_count (Z.lor (uint8 (Z.land c 0x3f)) 0x80) = c /\ Z.testbit (Z.lor (uint8 (Z.land c 0x3f)) 0x80) 7 = true) (seqZ 1 64)) as F.
  { repeat constructor. }
  rewrite Forall_forall in F. apply F. apply elem_of_seqZ. lia.
Qed.

Lemma undriven_input dir out p c :
  (forall i, 0 <= i < c -> gbit dir (p + i) = false) -> 0 <= c ->
  undriven <$> stream dir out p c = replicate (Z.to_nat c) (false, false).
Proof.
  intros G Hc. unfold stream. rewrite <- list_fmap_compose.
  transitivity ((fun _ : Z => (false, false)) <$> seqZ 0 c).
  - apply list_fmap_ext. intros k i Hi%lookup_seqZ. simpl. unfold undriven. simpl. by rewrite G by lia.
  - by rewrite (const_fmap _ _ (false, false)), length_seqZ.
Qed.

Lemma undriven_output dir out p c d rest :
  (forall i, 0 <= i < c -> gbit dir (p + i) = true) -> (forall i, 0 <= i < c -> gbit d i = gbit out (p + i)) ->
  c <= 8 * len d -> undriven <$> stream dir out p c = (fun i => (true, gbit (d ++ rest) i)) <$> seqZ 0 c.
Proof.
  intros G D L. unfold stream. rewrite <- list_fmap_compose. apply list_fmap_ext. intros k i Hi%lookup_seqZ. simpl.
  unfold undriven. simpl. rewrite G, <- D by lia. simpl. f_equal. unfold gbit. rewrite lookup_app_l; [done|].
  unfold len in *. Z.to_euclidean_division_equations; lia.
Qed.

(** A stream's clocks, its first [c] apart. *)
Lemma clocks_stream {T} (wire : bool * bool -> T -> bool * T) dir out p c q t :
  0 <= c -> p + c <= q ->
  clocks wire (undriven <$> stream dir out p (q - p)) t =
    let (a, t1) := clocks wire (undriven <$> stream dir out p c) t in
    let (b, t2) := clocks wire (undriven <$> stream dir out (p + c) (q - (p + c))) t1 in (a ++ b, t2).
Proof.
  intros Hc Hq. replace (q - p) with (c + (q - (p + c))) by lia. by rewrite stream_app, fmap_app, clocks_app by lia.
Qed.

Lemma len_clocks_stream {T} (wire : bool * bool -> T -> bool * T) dir out p c t :
  0 <= c -> len (fst (clocks wire (undriven <$> stream dir out p c) t)) = c.
Proof. intros. rewrite len_clocks. unfold len. rewrite length_fmap, length_stream; lia. Qed.

Lemma captured_shift bs samples p c q resp caps :
  len bs = c -> caps_in (p + c) q caps -> captured (fun j => sample_at samples (j - (p + c))) resp caps ->
  captured (fun j => sample_at (bs ++ samples) (j - p)) resp caps.
Proof.
  intros L C. apply captured_ext with (p + c) q; [|done]. intros j Hj. rewrite sample_at_app_r by lia. f_equal. lia.
Qed.

Lemma performs_input dir out n body caps p c q size :
  performs n body caps (p + c) (undriven <$> stream dir out (p + c) (q - (p + c))) size ->
  caps_in (p + c) q caps -> 1 <= c <= 64 -> p + c <= q -> (forall i, 0 <= i < c -> gbit dir (p + i) = false) ->
  performs (S n) (Z.lor (uint8 (Z.land c 0x3f)) 0x80 :: body) (mkCapture p c :: caps) p
    (undriven <$> stream dir out p (q - p)) (bytes_for c + size).
Proof.
  intros P C Hc Hq G T wire t. rewrite (clocks_stream wire dir out p c) by lia.
  destruct (count_info c Hc) as (_ & _ & Hn & Hb). cbn [swd_sequences]. rewrite Hn, Hb.
  rewrite <- (undriven_input dir out p c) by (done || lia).
  pose proof (len_clocks_stream wire dir out p c t) as L.
  destruct (clocks wire (undriven <$> stream dir out p c) t) as [bs t1]. cbn [fst] in L.
  destruct (P T wire t1) as (resp & samples & t2 & -> & -> & K & S).
  exists (pack_bits bs ++ resp), (bs ++ samples), t2. split; [done|]. split; [done|].
  assert (len bs = c) as Lb by (apply L; lia). split.
  - exists (pack_bits bs), resp. cbn [cap_bits cap_offset]. rewrite len_pack_bits, Lb.
    split_and!; try done; [apply bytes_pack_bits|lia| |by apply captured_shift with c q].
    intros i Hi. rewrite gbit_pack_bits, sample_at_app_l by lia. f_equal. lia.
  - rewrite len_app, len_pack_bits. congruence.
Qed.

Lemma performs_output dir out n d body caps p c q size :
  performs n body caps (p + c) (undriven <$> stream dir out (p + c) (q - (p + c))) size ->
  caps_in (p + c) q caps -> 1 <= c <= 64 -> p + c <= q -> (forall i, 0 <= i < c -> gbit dir (p + i) = true) ->
  len d = bytes_for c -> (forall i, 0 <= i < c -> gbit d i = gbit out (p + i)) ->
  performs (S n) (uint8 (Z.land c 0x3f) :: d ++ body) caps p (undriven <$> stream dir out p (q - p)) size.
Proof.
  intros P C Hc Hq G Ld Gd T wire t. rewrite (clocks_stream wire dir out p c) by lia.
  destruct (count_info c Hc) as (Hn & Hb & _ & _). cbn [swd_sequences]. rewrite Hn, Hb.
  pose proof (bytes_for_bound c) as Bc. rewrite <- (undriven_output dir out p c d body) by (done || lia).
  pose proof (len_clocks_stream wire dir out p c t) as L.
  destruct (clocks wire (undriven <$> stream dir out p c) t) as [bs t1]. cbn [fst] in L.
  replace (drop (Z.to_nat (bytes_for c)) (d ++ body)) with body.
  2: { rewrite <- Ld. unfold len. by rewrite Nat2Z.id, drop_app_length. }
  destruct (P T wire t1) as (resp & samples & t2 & -> & -> & K & S).
  exists resp, (bs ++ samples), t2. split_and!; try done. apply captured_shift with c q; [|done|done]. apply L; lia.
Qed.

(** A position inside a target-driven phase. *)
Definition mid (dir : list Z) (bits p : Z) : Prop := 0 < p < bits /\ gbit dir (p - 1) = false /\ gbit dir p = false.

(** [k] sequences from [p] to [q], with [size] bytes of samples. *)
Record chunk (dir out : list Z) (bits p k : Z) (tail : list Z) (cs : list swdCapture) (q size : Z) : Prop := {
  ch_pos : p <= q <= bits;
  ch_count : 0 <= k;
  ch_size : 0 <= size;
  ch_performs : performs (Z.to_nat k) tail cs p (undriven <$> stream dir out p (q - p)) size;
  ch_in : caps_in p q cs;
  ch_cover j : existsb (catches j) cs = (p <=? j) && (j <? q) && negb (gbit dir j)
}.

Lemma chunk_done dir out bits p : p <= bits -> chunk dir out bits p 0 [] [] p 0.
Proof.
  intros Hp. split; try done.
  - intros T wire t. exists [], [], t. by rewrite Z.sub_diag.
  - constructor.
  - intros j. simpl. by destruct (Z.leb_spec p j), (Z.ltb_spec j p); try lia.
Qed.

Lemma chunk_input dir out bits p c k tail cs q size :
  chunk dir out bits (p + c) k tail cs q size -> 1 <= c <= 64 -> (forall i, 0 <= i < c -> gbit dir (p + i) = false) ->
  chunk dir out bits p (k + 1) (Z.lor (uint8 (Z.land c 0x3f)) 0x80 :: tail) (mkCapture p c :: cs) q (bytes_for c + size).
Proof.
  intros [Hp Hk Hs P C V] Hc G. pose proof (bytes_for_nonneg c). split; try lia.
  - replace (Z.to_nat (k + 1)) with (S (Z.to_nat k)) by lia. apply performs_input; try done; lia.
  - constructor; [simpl; lia|]. eapply Forall_impl; [exact C|]. simpl. lia.
  - intros j. simpl. rewrite V. unfold catches. cbn [cap_offset cap_bits].
    destruct (Z.leb_spec p j), (Z.ltb_spec j (p + c)), (Z.leb_spec (p + c) j), (Z.ltb_spec j q); try lia; simpl; try done.
    replace j with (p + (j - p)) by lia. rewrite G by lia. done.
Qed.

Lemma chunk_output dir out bits p c d k tail cs q size :
  chunk dir out bits (p + c) k tail cs q size -> 1 <= c <= 64 -> (forall i, 0 <= i < c -> gbit dir (p + i) = true) ->
  len d = bytes_for c -> (forall i, 0 <= i < c -> gbit d i = gbit out (p + i)) ->
  chunk dir out bits p (k + 1) (uint8 (Z.land c 0x3f) :: d ++ tail) cs q size.
Proof.
  intros [Hp Hk Hs P C V] Hc G Ld Gd. split; try lia.
  - replace (Z.to_nat (k + 1)) with (S (Z.to_nat k)) by lia. apply performs_output; try done; lia.
  - eapply Forall_impl; [exact C|]. simpl. lia.
  - intros j. rewrite V.
    destruct (Z.leb_spec p j), (Z.leb_spec (p + c) j), (Z.ltb_spec j q); try lia; simpl; try done.
    replace j with (p + (j - p)) by lia. rewrite G by lia. done.
Qed.

(** The phase at [p] fits what is left of the packet. *)
Definition fits_from (dir : list Z) (bits ps p seqs req rb : Z) : Prop :=
  forall w, is_run dir bits p w -> swdCaptureFits w req rb seqs ps = true.

Lemma swdCaptureFits_true w req rb seqs ps :
  swdCaptureFits w req rb seqs ps = true <->
  rb + bytes_for w <= ps /\ req + (w + 63) / 64 <= ps /\ seqs + (w + 63) / 64 <= 255.
Proof. unfold swdCaptureFits. change ((w + 7) / 8) with (bytes_for w). rewrite !andb_true_iff, !Z.leb_le. tauto. Qed.

(** After a sequence of [c] samples. *)
Lemma fits_after dir bits ps p w c seqs req rb :
  is_run dir bits p w -> gbit dir p = false -> 1 <= c -> (c = w \/ c = 64 /\ c <= w) ->
  swdCaptureFits w req rb seqs ps = true ->
  mid dir bits (p + c) -> fits_from dir bits ps (p + c) (seqs + 1) (req + 1) (rb + bytes_for c).
Proof.
  intros R D Hc Hcw (F1 & F2 & F3)%swdCaptureFits_true (Hm & M1 & M2) w' R'.
  assert (c < w) as Hlt.
  { destruct (run_end _ _ _ _ R) as [E|E]; [destruct Hcw; lia|].
    destruct (Z.lt_ge_cases c w); [done|]. assert (c = w) as -> by lia. congruence. }
  assert (c = 64) as -> by lia. rewrite (is_run_unique _ _ _ _ _ R' (is_run_drop _ _ _ _ 64 R ltac:(lia))).
  unfold bytes_for in *. apply swdCaptureFits_true. unfold bytes_for.
  Z.to_euclidean_division_equations; lia.
Qed.

Lemma packet_loop_spec n dir out bits ps p seqs body rb caps :
  0 <= p <= bits -> bits - p <= Z.of_nat n -> bits <= 8 * len dir -> bits <= 8 * len out ->
  0 <= seqs <= 255 -> 2 + len body <= ps -> rb <= ps ->
  (mid dir bits p -> fits_from dir bits ps p seqs (2 + len body) rb) ->
  exists k tail cs q size, packet_loop n dir out bits ps p seqs body rb caps =
      Some (commandSWDSequence :: (seqs + k) :: body ++ tail, caps ++ cs, q) /\
    chunk dir out bits p k tail cs q size /\
    seqs + k <= 255 /\ 2 + len body + len tail <= ps /\ rb + size <= ps /\ ~ mid dir bits q /\
    (q = p -> p < bits -> seqs < 255 -> 3 + len body < ps ->
       gbit dir p = false /\ exists w, is_run dir bits p w /\ swdCaptureFits w (2 + len body) rb seqs ps = false).
Proof.
  revert p seqs body rb caps. induction n as [|n IH]; intros p seqs body rb caps Hp Hn Hd Ho Hs Hr Hb Hmid; cbn [packet_loop].
  all: assert (forall P : Prop, ~ mid dir bits p -> (p < bits -> seqs < 255 -> 3 + len body < ps -> P) ->
    exists k tail cs q size, Some (commandSWDSequence :: seqs :: body, caps, p) =
      Some (commandSWDSequence :: (seqs + k) :: body ++ tail, caps ++ cs, q) /\
      chunk dir out bits p k tail cs q size /\ seqs + k <= 255 /\ 2 + len body + len tail <= ps /\ rb + size <= ps /\
      ~ mid dir bits q /\ (q = p -> p < bits -> seqs < 255 -> 3 + len body < ps -> P)) as Stop
    by (intros P Hm HP; exists 0, [], [], p, 0; rewrite Z.add_0_r, !app_nil_r; change (len []) with 0;
        split_and!; try done; try lia; apply chunk_done; lia).
  all: destruct (Z.leb_spec bits p) as [|Hlt]; [apply Stop; [unfold mid; lia|lia]|].
  { lia. }
  destruct (swdRun_spec dir p bits) as (w & Hw & R); [lia|done|].
  destruct (Z.eqb_spec seqs 0xff) as [->|Hne].
  { apply Stop; [|lia]. intros M. specialize (Hmid M w R). apply swdCaptureFits_true in Hmid as (_ & _ & F).
    pose proof (run_pos _ _ _ _ R). Z.to_euclidean_division_equations; lia. }
  rewrite swdBit_spec by lia. cbn [mbind option_bind orb]. rewrite Hw. cbn [mbind option_bind].
  pose proof (run_pos _ _ _ _ R) as Pw. pose proof (run_in _ _ _ _ R) as Iw.
  assert (forall i, 0 <= i < w -> gbit dir (p + i) = gbit dir p) as Sw by apply (run_same _ _ _ _ R).
  destruct (gbit dir p) eqn:Ed; cbn [negb andb].
  - assert (~ mid dir bits p) as Hnm by (intros (_ & _ & ?); congruence).
    destruct (Z.ltb_spec (2 + len body + 1) ps) as [Hps|Hps].
    2: { destruct (Z.leb_spec (Z.min (Z.min w 64) 0) 0) as [_|]; [|lia]. apply Stop; [done|lia]. }
    set (capacity := (ps - (2 + len body) - 1) * 8). set (c := Z.min (Z.min w 64) capacity).
    destruct (Z.leb_spec c 0) as [Hz|Hz]; [lia|].
    destruct (packSWDBits_spec out p c) as (d & -> & Bd & Ld & Gd); try lia. cbn [mbind option_bind].
    rewrite (uint8_small (seqs + 1)) by lia. pose proof (bytes_for_bound c) as Bc.
    destruct (IH (p + c) (seqs + 1) (body ++ uint8 (Z.land c 0x3f) :: d) rb caps) as (k & tail & cs & q & size & E & K & H1 & H2 & H3 & H4 & _);
      try lia; try done.
    { rewrite len_app, len_cons, Ld. lia. }
    { intros (_ & M & _). rewrite <- Z.add_sub_assoc, Sw in M by lia. done. }
    rewrite len_app, len_cons in H2. exists (k + 1), (uint8 (Z.land c 0x3f) :: d ++ tail), cs, q, size. rewrite E.
    pose proof (ch_pos _ _ _ _ _ _ _ _ _ K). rewrite len_cons, len_app. split_and!; try done; try lia.
    + rewrite <- app_assoc. by replace (seqs + (k + 1)) with (seqs + 1 + k) by lia.
    + apply chunk_output; try done; [lia|]. intros i Hi. apply Sw. lia.
  - destruct (swdCaptureFits w (2 + len body) rb seqs ps) eqn:Ef; cbn [negb].
    2: { apply Stop; [intros M; rewrite (Hmid M w R) in Ef; done|]. intros _ _ _. split; [done|by exists w]. }
    pose proof Ef as (F1 & F2 & F3)%swdCaptureFits_true.
    assert (1 <= (w + 63) / 64) as Hdesc by (Z.to_euclidean_division_equations; lia).
    destruct (Z.leb_spec (2 + len body + 1) ps); [|lia].
    pose proof (bytes_for_bound w) as Bw.
    replace (Z.min (Z.min w 64) ((ps - rb) * 8)) with (Z.min w 64) by lia. set (c := Z.min w 64).
    destruct (Z.leb_spec c 0); [lia|]. rewrite (uint8_small (seqs + 1)) by lia.
    assert (bytes_for c <= bytes_for w) as Bcw by (unfold bytes_for; apply Z.div_le_mono; lia).
    destruct (IH (p + c) (seqs + 1) (body ++ [Z.lor (uint8 (Z.land c 0x3f)) 0x80]) (rb + bytes_for c) (caps ++ [mkCapture p c]))
      as (k & tail & cs & q & size & E & K & H1 & H2 & H3 & H4 & _); try lia; try done.
    { rewrite len_app. change (len [_]) with 1. lia. }
    { rewrite len_app. change (len [_]) with 1. rewrite Z.add_assoc. eapply fits_after; eauto; lia. }
    rewrite len_app in H2. change (len [_]) with 1 in H2.
    exists (k + 1), (Z.lor (uint8 (Z.land c 0x3f)) 0x80 :: tail), (mkCapture p c :: cs), q, (bytes_for c + size).
    change ((c + 7) / 8) with (bytes_for c). rewrite E.
    pose proof (ch_pos _ _ _ _ _ _ _ _ _ K). rewrite len_cons. split_and!; try done; try lia.
    + rewrite <- !app_assoc. by replace (seqs + (k + 1)) with (seqs + 1 + k) by lia.
    + apply chunk_input; try done; [lia|]. intros i Hi. apply Sw. lia.
Qed.

(** ** Whole streams *)

(** Packets that take a stream from [p] to its end. *)
Inductive plan (dir out : list Z) (bits ps : Z) : Z -> list swdPacket -> Prop :=
| plan_done : plan dir out bits ps bits []
| plan_packet p q k tail cs size packets :
    p < q -> chunk dir out bits p k tail cs q size -> k <= 255 -> 2 + len tail <= ps -> 2 + size <= ps -> ~ mid dir bits q ->
    plan dir out bits ps q packets ->
    plan dir out bits ps p (mkPacket (commandSWDSequence :: k :: tail) cs :: packets).

(** A target-driven phase that no packet can hold. *)
Definition oversized (dir : list Z) (bits ps : Z) : Prop :=
  exists p w, 0 <= p < bits /\ ~ mid dir bits p /\ gbit dir p = false /\ is_run dir bits p w /\ swdCaptureFits w 2 2 0 ps = false.

Lemma planSWDPacket_spec dir out bits ps p :
  0 <= p < bits -> bits <= 8 * len dir -> bits <= 8 * len out -> 4 <= ps -> ~ mid dir bits p ->
  exists k tail cs q size, planSWDPacket dir out bits p ps = Some (commandSWDSequence :: k :: tail, cs, q) /\
    chunk dir out bits p k tail cs q size /\ k <= 255 /\ 2 + len tail <= ps /\ 2 + size <= ps /\ ~ mid dir bits q /\
    (q = p -> oversized dir bits ps).
Proof.
  intros Hp Hd Ho Hs Hm.
  destruct (packet_loop_spec (Z.to_nat (bits - p)) dir out bits ps p 0 [] 2 [])
    as (k & tail & cs & q & size & E & K & K1 & K2 & K3 & K4 & Hq); try lia; try done; try (change (len []) with 0; lia).
  change (len []) with 0 in *. exists k, tail, cs, q, size. split; [exact E|]. split_and!; try done; try lia.
  intros ->. destruct Hq as (Dp & w & R & F); try lia. exists p, w. split_and!; try done; lia.
Qed.

Lemma stream_loop_spec n dir out bits ps p packets :
  0 <= p <= bits -> bits - p <= Z.of_nat n -> bits <= 8 * len dir -> bits <= 8 * len out -> 4 <= ps -> ~ mid dir bits p ->
  (exists new, stream_loop n dir out bits ps p packets = Some (packets ++ new, None) /\ plan dir out bits ps p new) \/
  (exists e, stream_loop n dir out bits ps p packets = Some ([], Some e) /\ oversized dir bits ps).
Proof.
  intros Hp Hn Hd Ho Hs. revert p packets Hp Hn. induction n as [|n IH]; intros p packets Hp Hn Hm; cbn [stream_loop].
  all: destruct (Z.leb_spec bits p);
    [assert (p = bits) as -> by lia; left; exists []; rewrite app_nil_r; split; [done|constructor]|].
  { lia. }
  destruct (planSWDPacket_spec dir out bits ps p) as (k & tail & cs & q & size & -> & K & K1 & K2 & K3 & K4 & Hq);
    try lia; try done. cbn [mbind option_bind]. pose proof (ch_pos _ _ _ _ _ _ _ _ _ K).
  destruct (Z.eqb_spec q p) as [E|]; [right; eauto|].
  destruct (IH q (packets ++ [mkPacket (commandSWDSequence :: k :: tail) cs])) as [(new & -> & P)|(e & -> & O)]; try lia; try done.
  - left. eexists. split; [by rewrite <- app_assoc|]. apply plan_packet with q size; try done; lia.
  - right. eauto.
Qed.

Lemma planSWDStream_spec dir out bits ps :
  0 < bits -> bits <= 8 * len dir -> bits <= 8 * len out -> 4 <= ps ->
  (exists packets, planSWDStream dir out bits ps = Some (packets, None) /\ plan dir out bits ps 0 packets) \/
  (exists e, planSWDStream dir out bits ps = Some ([], Some e) /\ (gbit dir (bits - 1) = false \/ oversized dir bits ps)).
Proof.
  intros Hb Hd Ho Hs. unfold planSWDStream. rewrite swdBit_spec by lia. cbn [mbind option_bind].
  destruct (gbit dir (bits - 1)) eqn:E; cbn [negb]; [|right; eauto].
  destruct (stream_loop_spec (Z.to_nat bits) dir out bits ps 0 []) as [(new & K & P)|(e & K & O)]; try lia;
    [unfold mid; lia|left|right]; eauto.
Qed.

(** What the probe answers to a planned packet, for samples by position. *)
Definition response_for (ps : Z) (s : Z -> bool) (resp : list Z) (pk : swdPacket) : Prop :=
  exists data, resp = commandSWDSequence :: statusOK :: data /\ captured s data (captures pk) /\ len resp <= ps.

Lemma plan_position dir out bits ps p packets : plan dir out bits ps p packets -> p <= bits.
Proof. intros []; [lia|]. pose proof (ch_pos _ _ _ _ _ _ _ _ _ H0). lia. Qed.

Lemma plan_executes dir out bits ps p packets :
  plan dir out bits ps p packets ->
  Forall (fun pk => caps_in p bits (captures pk)) packets /\
  forall (T : Type) (wire : bool * bool -> T -> bool * T) t,
  exists resps samples t', dap_swd_sequence_all wire (request <$> packets) t = (resps, t') /\
    clocks wire (undriven <$> stream dir out p (bits - p)) t = (samples, t') /\
    Forall2 (response_for ps (fun j => sample_at samples (j - p))) resps packets.
Proof.
  induction 1 as [|p q k tail cs size packets Hq K Hk Ht Hs Hm P [IHc IH]].
  { split; [constructor|]. intros T wire t. exists [], [], t. by rewrite Z.sub_diag. }
  pose proof (plan_position _ _ _ _ _ _ P) as Hqb. split.
  { constructor; [|eapply Forall_impl; [exact IHc|]; intros pk C; eapply Forall_impl; [exact C|]; simpl; lia].
    eapply Forall_impl; [apply (ch_in _ _ _ _ _ _ _ _ _ K)|]. simpl. lia. }
  intros T wire t. replace (bits - p) with ((q - p) + (bits - q)) by lia. rewrite stream_app, fmap_app, clocks_app by lia.
  replace (p + (q - p)) with q by lia.
  pose proof (len_clocks_stream wire dir out p (q - p) t) as L.
  destruct (ch_performs _ _ _ _ _ _ _ _ _ K T wire t) as (resp & bs & t1 & E1 & E2 & C1 & S1). rewrite E2 in *. cbn [fst] in L.
  destruct (IH T wire t1) as (resps & samples & t2 & E3 & E4 & F). rewrite E4.
  exists ((commandSWDSequence :: statusOK :: resp) :: resps), (bs ++ samples), t2. split_and!; try done.
  - cbn [fmap list_fmap dap_swd_sequence_all request dap_swd_sequence]. rewrite Z.eqb_refl, E1. by rewrite E3.
  - constructor.
    + exists resp. split_and!; try done; [|rewrite !len_cons; lia]. cbn [captures].
      eapply captured_ext; [|apply (ch_in _ _ _ _ _ _ _ _ _ K)|exact C1]. intros j Hj. rewrite sample_at_app_l by lia. done.
    + assert (Forall (fun pk => caps_in q bits (captures pk)) packets) as IHc' by done. clear - F IHc' L Hq.
      induction F as [|a b l l' (data & -> & C & Hl) F IHF]; [constructor|]. apply Forall_cons in IHc' as [Cb Cs].
      constructor; [|by apply IHF]. exists data. split_and!; try done.
      eapply captured_ext; [|exact Cb|exact C]. intros j Hj. rewrite sample_at_app_r by lia. f_equal. lia.
Qed.

(** Every undriven bit is caught by one packet. *)
Lemma plan_cover dir out bits ps p packets j :
  plan dir out bits ps p packets ->
  existsb (fun pk => existsb (catches j) (captures pk)) packets = (p <=? j) && (j <? bits) && negb (gbit dir j).
Proof.
  induction 1 as [|p q k tail cs size packets Hq K Hk Ht Hs Hm P IH]; simpl.
  { by destruct (Z.leb_spec bits j), (Z.ltb_spec j bits); try lia. }
  rewrite (ch_cover _ _ _ _ _ _ _ _ _ K), IH. pose proof (plan_position _ _ _ _ _ _ P) as Hqb.
  by destruct (Z.leb_spec p j), (Z.leb_spec q j), (Z.ltb_spec j q), (Z.ltb_spec j bits); try lia; simpl; rewrite ?orb_false_r.
Qed.

Lemma plan_requests dir out bits ps p packets :
  plan dir out bits ps p packets -> Forall (fun pk => 1 <= len (request pk) <= ps) packets.
Proof.
  induction 1; constructor; [|done]. cbn [request]. rewrite !len_cons. pose proof (len_nonneg tail). lia.
Qed.

(** ** Decoding *)

Lemma captureBits_spec d c input s :
  len d = bytes_for (cap_bits c) -> 1 <= cap_bits c -> 0 <= cap_offset c ->
  cap_offset c + cap_bits c <= 8 * len input -> bytes input -> (forall i, 0 <= i < cap_bits c -> gbit d i = s (cap_offset c + i)) ->
  exists input', captureBits d c input = Some input' /\ bytes input' /\ len input' = len input /\
    forall j, 0 <= j -> gbit input' j = gbit input j || (catches j c && s j).
Proof.
  intros Ld Hb Ho Hl B G. unfold captureBits. pose proof (bytes_for_bound (cap_bits c)) as Bc.
  match goal with |- context [for_range _ ?body _] =>
    destruct (blit_spec body (fun i => s (cap_offset c + i)) (cap_offset c) (cap_bits c) input) as (i' & -> & B' & L' & G')
  end; try lia; try done.
  - intros i x Hi Hx. cbn beta. rewrite swdBit_spec by lia. cbn [mbind option_bind]. rewrite G by done.
    destruct (s (cap_offset c + i)); [done|]. by rewrite or_bit_0 by lia.
  - exists i'. split_and!; try done. intros j Hj. rewrite G' by done. unfold catches.
    by replace (cap_offset c + (j - cap_offset c)) with j by lia.
Qed.

Section Decode.
Context {W : Type}.
Implicit Types x : St (W := W).

Lemma decodeSWDResponse_spec s pre data caps input x :
  captured s data caps -> caps_in 0 (8 * len input) caps -> bytes input ->
  exists input', decodeSWDResponse input (pre ++ data) (len pre) caps x = Done ((input', None), x) /\
    bytes input' /\ len input' = len input /\
    forall j, 0 <= j -> gbit input' j = gbit input j || (existsb (catches j) caps && s j).
Proof.
  revert pre data input. induction caps as [|c caps IH]; intros pre data input.
  { intros _ _ B. exists input. split_and!; try done. intros j _. simpl. by rewrite orb_false_r. }
  simpl captured. intros (d & rest & -> & Bd & Ld & Hb & G & R) [C Cs]%Forall_cons B.
  cbn [decodeSWDResponse]. change ((cap_bits c + 7) / 8) with (bytes_for (cap_bits c)).
  pose proof (len_nonneg rest). rewrite !len_app, Ld. destruct (Z.ltb_spec (len pre + (bytes_for (cap_bits c) + len rest)) (len pre + bytes_for (cap_bits c))); [lia|].
  assert (take (Z.to_nat (bytes_for (cap_bits c))) (drop (Z.to_nat (len pre)) (pre ++ d ++ rest)) = d) as ->.
  { unfold len. rewrite Nat2Z.id, drop_app_length. rewrite <- Ld. unfold len. by rewrite Nat2Z.id, take_app_length. }
  destruct (captureBits_spec d c input s) as (i1 & E1 & B1 & L1 & G1); try done; try lia.
  unfold mbind, GoM_bind, lift. rewrite E1.
  destruct (IH (pre ++ d) rest i1) as (i2 & E2 & B2 & L2 & G2); try done; [by rewrite L1|].
  rewrite <- app_assoc, len_app, Ld in E2. exists i2. split; [exact E2|]. split_and!; try done; [congruence|].
  intros j Hj. rewrite G2, G1 by done. simpl. by destruct (gbit input j), (catches j c), (existsb (catches j) caps), (s j).
Qed.
End Decode.

(** * SWD streams over any CMSIS-DAP host

    Whatever the host answers, the commands it accepted are a prefix of the
    plan, each sent once and in order. *)

Section Safe.
Context {W : Type} `{Recorded W}.
Implicit Types x : St (W := W).

Definition sound_caps (size : Z) (caps : list swdCapture) : Prop :=
  Forall (fun c => 0 <= cap_offset c /\ 1 <= cap_bits c /\ cap_offset c + cap_bits c <= 8 * size) caps.

Lemma decodeSWDResponse_wp caps input response offset x :
  0 <= offset -> sound_caps (len input) caps -> bytes input ->
  wp (decodeSWDResponse input response offset caps) (fun r x' => exchanged (sess x) (sess x') /\ world x' = world x /\
    len (fst r) = len input /\ bytes (fst r) /\ (snd r = None -> x' = x)) x.
Proof.
  intros Ho C. revert input offset Ho C. induction caps as [|c caps IH]; intros input offset Ho C B; cbn [decodeSWDResponse].
  { by apply wp_ret. }
  apply Forall_cons in C as [(C1 & C2 & C3) Cs]. change ((cap_bits c + 7) / 8) with (bytes_for (cap_bits c)).
  pose proof (bytes_for_bound (cap_bits c)) as Bc.
  destruct (Z.ltb_spec (len response) (offset + bytes_for (cap_bits c))).
  { apply wp_bind, wp_poison, wp_ret. by split_and!; try apply exchanged_poison. }
  set (d := take _ _). assert (len d = bytes_for (cap_bits c)) as Ld.
  { subst d. unfold len in *. rewrite length_take, length_drop. lia. }
  destruct (captureBits_spec d c input (fun j => gbit d (j - cap_offset c))) as (i1 & E1 & B1 & L1 & _); try done.
  { intros i Hi. f_equal. lia. }
  apply wp_bind. eapply wp_lift; [exact E1|].
  eapply wp_mono; [apply IH; [lia|by rewrite L1|done]|]. intros r x' (K1 & K2 & K3 & K4 & K5). split_and!; try done. congruence.
Qed.

(** What sending the rest of a plan has done; [first] says nothing was sent
    before. *)
Definition send_post (first : bool) (size : Z) (requests : list (list Z)) x (r : list Z * err) x' : Prop :=
  exchanged (sess x) (sess x') /\
  match snd r with
  | None => len (fst r) = size /\ poisoned (sess x') = poisoned (sess x) /\
      sent (world x') = sent (world x) ++ requests
  | Some _ => fst r = [] /\ exists k, sent (world x') = sent (world x) ++ take k requests /\
      (poisoned (sess x') = true \/ first = true /\ (k <= 1)%nat)
  end.

Lemma sequenceFailure_wp i e x (Q : error -> St -> Prop) :
  (forall e' y, exchanged (sess x) (sess y) -> world y = world x ->
    (poisoned (sess x) = true -> poisoned (sess y) = true) -> (0 < i -> poisoned (sess y) = true) -> Q e' y) ->
  wp (sequenceFailure i e) Q x.
Proof.
  intros HQ. unfold sequenceFailure. apply wp_bind. destruct (Z.ltb_spec 0 i).
  - apply wp_poison, wp_ret. by apply HQ; try apply exchanged_poison.
  - apply wp_ret, wp_ret. apply HQ; try done. lia.
Qed.

Lemma send_loop_wp ctx i input completion packets x :
  Inv (sess x) -> 0 <= i -> bytes input ->
  Forall (fun pk => sound_caps (len input) (captures pk)) packets ->
  wp (send_loop ctx i input completion packets)
    (send_post (i =? 0) (len input) (request <$> packets) x) x.
Proof.
  revert i input completion x. induction packets as [|pk packets IH]; intros i input completion x I Hi B C; cbn [send_loop].
  { apply wp_ret. split; [done|]. cbn [fst snd fmap list_fmap]. by rewrite app_nil_r. }
  apply Forall_cons in C as [Cp Cs]. rewrite fmap_cons.
  apply wp_bind. eapply wp_mono; [by apply exchangeWithCompletion_wp|]. intros [[resp e] c] x1 [[X1 S1] _]. cbn [fst snd] in S1.
  assert (forall e0 x1, exchanged (sess x) (sess x1) ->
    (exists k, sent (world x1) = sent (world x) ++ take k (request pk :: (request <$> packets)) /\
       (poisoned (sess x1) = true \/ (k <= 1)%nat)) ->
    wp (e ← sequenceFailure i e0; mret (([] : list Z), Some e))
      (send_post (i =? 0) (len input) (request pk :: (request <$> packets)) x) x1) as Fail.
  { intros e0 x1' X (k & Sk & Pk). apply wp_bind, sequenceFailure_wp. intros e' y Xy Wy P1 P2. apply wp_ret.
    split; [by transitivity (sess x1')|]. cbn [fst snd]. split; [done|]. exists k. rewrite Wy. split; [done|].
    destruct (Z.eqb_spec i 0); [|left; apply P2; lia]. destruct Pk; auto. }
  destruct e as [e|].
  { apply Fail; [done|]. destruct S1 as [S1|[P1 S1]]; [exists 0%nat|exists 1%nat]; (split; [|auto]).
    - by rewrite app_nil_r. - by rewrite S1. }
  destruct S1 as (_ & L1 & _ & P1 & D1 & C1 & S1). apply wp_bind. eapply wp_mono; [apply validateStatusResponse_wp|].
  intros [e|] x2 (X2 & W2 & N2).
  { apply Fail; [by transitivity (sess x1)|]. exists 1%nat. rewrite W2, S1. auto. }
  destruct (N2 eq_refl) as (-> & L2 & _). clear X2 W2 N2.
  apply wp_bind. eapply wp_mono; [by apply decodeSWDResponse_wp; [|apply Cp|]|]. intros [i1 [e|]] x3 (X3 & W3 & L3 & B3 & N3).
  { apply Fail; [by transitivity (sess x1)|]. exists 1%nat. rewrite W3, S1. auto. }
  cbn [fst snd] in *. rewrite (N3 eq_refl) in *. clear X3 W3 N3 x3.
  assert (Inv (sess x1)) as I1 by by eapply exchanged_inv.
  eapply wp_mono; [apply IH; [done|lia|done|by rewrite L3]|]. rewrite L3. intros [i2 e2] x4 [X4 K4].
  split; [by transitivity (sess x1)|]. cbn [fst snd] in *. destruct (Z.eqb_spec (i + 1) 0); [lia|].
  destruct e2 as [e2|].
  - destruct K4 as [-> (k & Sk & [Pk|[]])]; [|done]. split; [done|]. exists (S k). rewrite Sk, S1, <- app_assoc. auto.
  - destruct K4 as (Lk & Pk & Sk). split; [done|]. rewrite Sk, S1, <- app_assoc. split; [|done]. rewrite Pk, P1.
    destruct (poisoned (sess x)) eqn:Ep; [|done]. rewrite (ex_poisoned _ _ X1 Ep) in P1. done.
Qed.

Lemma plan_sound dir out bits ps p packets :
  plan dir out bits ps p packets -> 0 <= p -> Forall (fun pk => sound_caps (bytes_for bits) (captures pk)) packets.
Proof.
  intros P Hp. pose proof (plan_executes _ _ _ _ _ _ P) as [C Ex]. destruct (Ex unit (fun _ t => (false, t)) tt) as (resps & sm & t' & _ & _ & F).
  pose proof (plan_position _ _ _ _ _ _ P). pose proof (bytes_for_bound bits). clear Ex P.
  revert C. induction F as [|r pk rs pks (data & _ & K & _) F IH]; intros C; [constructor|].
  apply Forall_cons in C as [C Cs]. constructor; [|by apply IH]. clear - K C Hp H2 H3.
  revert data K. induction C as [|c caps [C1 C2] C IH]; intros data K; [constructor|]. destruct K as (d & rest & -> & _ & _ & Hc & _ & K).
  constructor; [lia|by eapply IH].
Qed.

(** A returned buffer is a finished stream; otherwise a prefix of the plan was
    sent, and a session with an unfinished prefix is poisoned unless the probe
    itself refused the first command. *)
Definition SWDIO_post (dir out : list Z) (bits : Z) x (r : list Z * err) x' : Prop :=
  exchanged (sess x) (sess x') /\
  ((exists packets, planSWDStream dir out bits (packetSize (sess x)) = Some (packets, None) /\ len (fst r) = bytes_for bits /\
      poisoned (sess x') = false /\ sent (world x') = sent (world x) ++ (request <$> packets)) \/
   (fst r = [] /\ snd r <> None /\ (sent (world x') = sent (world x) \/
      exists packets k, planSWDStream dir out bits (packetSize (sess x)) = Some (packets, None) /\
        sent (world x') = sent (world x) ++ take k (request <$> packets) /\ (poisoned (sess x') = true \/ (k <= 1)%nat)))).

Lemma sequenceReady_wp ctx x :
  wp (sequenceReady ctx) (fun e x' => sess x' = sess x /\ sent (world x') = sent (world x) /\
    (e = None -> configured (sess x) = true /\ ctx_nil ctx = false /\ poisoned (sess x) = false)) x.
Proof.
  unfold sequenceReady. apply wp_bind, wp_transportReady.
  - intros e w Hw. by apply wp_ret.
  - intros w Hw Hn _ _ Hp _. apply wp_bind, wp_gets, wp_ret. cbn [sess world]. unfold id. split_and!; try done.
    by destruct (configured (sess x)).
Qed.

Lemma SWDIO_wp ctx dir out bits x :
  Inv (sess x) -> wp (SWDIO ctx dir out bits) (SWDIO_post dir out bits x) x.
Proof.
  intros I. unfold SWDIO. destruct (Z.leb_spec bits 0), (Z.ltb_spec maxSWDTransferBits bits), (Z.ltb_spec (len dir * 8) bits),
    (Z.ltb_spec (len out * 8) bits); cbn [orb]; try (apply wp_ret; split; [done|]; right; by auto).
  apply wp_bind. eapply wp_mono; [apply sequenceReady_wp|]. intros [e|] x1 (E1 & S1 & N1).
  { apply wp_ret. split; [by rewrite E1|]. right. auto. }
  destruct (N1 eq_refl) as (Hcfg & Hn & Hp). pose proof (inv_packet _ I Hcfg) as Hps.
  apply wp_bind. unfold SWDIO_body. apply wp_bind, wp_gets. rewrite E1.
  destruct (planSWDStream_spec dir out bits (packetSize (sess x))) as [(packets & Ep & P)|(e & Ep & _)]; try lia.
  - apply wp_bind. eapply wp_lift; [exact Ep|].
    pose proof (len_make_bytes (bytes_for bits) (bytes_for_nonneg bits ltac:(lia))) as Lm.
    eapply wp_mono; [apply send_loop_wp; [by rewrite E1|done|apply bytes_make|]|].
    { change ((bits + 7) / 8) with (bytes_for bits). rewrite Lm. by eapply plan_sound. }
    change ((bits + 7) / 8) with (bytes_for bits). rewrite Lm. intros [input e] x2 [X2 K2]. rewrite E1 in X2. cbn [fst snd] in K2.
    apply wp_bind, wp_ctxErr; [done|]. intros c w Hw. apply wp_ret. cbn [sess world]. split; [done|]. cbn [fst snd world sess].
    rewrite Hw. destruct e as [e|].
    + destruct K2 as [-> (k & Sk & Pk)]. right. split; [done|]. split; [apply errors_Join_Some|]. right.
      exists packets, k. rewrite Sk, S1. split_and!; try done. tauto.
    + destruct K2 as (Lk & Pk & Sk). left. exists packets. rewrite Sk, S1, Pk, E1. split_and!; done.
  - apply wp_bind. eapply wp_lift; [exact Ep|]. apply wp_ret. apply wp_bind, wp_ctxErr; [done|]. intros c w Hw. apply wp_ret.
    split; [cbn [sess]; by rewrite E1|]. right. cbn [world fst snd]. split; [done|]. split; [apply errors_Join_Some|]. left. congruence.
Qed.
End Safe.

(** * A working CMSIS-DAP probe

    A host whose device executes DAP_SWD_Sequence for any target and answers
    every command; SWD streams over it are exact. *)

Record Probe {T : Type} (wire : bool * bool -> T -> bool * T) := mkProbe {
  target : T; answer : list Z; accepted : Z
}.
Arguments mkProbe {T wire}.
Arguments target {T wire}.
Arguments answer {T wire}.
Arguments accepted {T wire}.

Section Bench.
Context {T : Type} {wire : bool * bool -> T -> bool * T}.

#[global] Instance Probe_Env : Env (Probe wire) := { ctx_Err _ p := (None, p) }.

(** Handle one is the command, handle zero its response. *)
#[global] Instance Probe_UsbHost : UsbHost (Probe wire) := {
  Identity _ := mkDeviceInfo 0 0 0 0 [] [];
  ActiveConfiguration _ p := ((noConfiguration, None), p);
  claimInterface _ p := (None, p);
  SetAltSetting _ p := (None, p);
  claimEndpoint _ _ p := ((noEndpoint, None), p);
  SubmitBulk _ endpoint data p :=
    if any_bits endpoint 0x80 then ((0%nat, None), p)
    else let (r, t) := dap_swd_sequence wire data (target p) in ((1%nat, None), mkProbe t r (len data));
  Wait _ handle p := if (handle =? 0)%nat then (len (answer p), None, answer p, p) else (accepted p, None, [], p);
  Aborted _ _ := false;
  AbortBulk _ p := (None, p);
  CloseClaim p := (None, p);
  claimCleanupPending := None;
  CloseDevice p := (None, p);
  deviceCleanupPending := None
}.

(** A session that can send. *)
Record usable (s : Session) : Prop := {
  us_device : device s = true;
  us_claim : claim s = true;
  us_poisoned : poisoned s = false;
  us_gone : gone s = false;
  us_out : any_bits (Address (bulkOut (command s))) 0x80 = false;
  us_in : any_bits (Address (bulkIn (command s))) 0x80 = true
}.

Lemma transportReady_usable ctx s p :
  usable s -> ctx_nil ctx = false -> transportReady ctx (mkSt s p) = Done (None, mkSt s p).
Proof.
  intros [D C P G _ _] Hc. unfold transportReady, sget, mbind, GoM_bind, gets. cbn [sess]. unfold id.
  rewrite D, C, P, G, Hc. unfold ctxErr. by rewrite Hc.
Qed.

Lemma wp_exact {S A} (m : GoM S A) x a x' : wp m (fun b y => b = a /\ y = x') x -> m x = Done (a, x').
Proof. unfold wp. destruct (m x) as [[]| |]; [|done..]. by intros [-> ->]. Qed.

Lemma exchange_usable ctx req completion s p resp t :
  usable s -> ctx_nil (default ctx completion) = false -> 1 <= len req <= packetSize s ->
  dap_swd_sequence wire req (target p) = (resp, t) -> 1 <= len resp <= packetSize s ->
  exists c, exchangeWithCompletion ctx req completion (mkSt s p) =
      Done ((resp, None, Some c), mkSt s (mkProbe t resp (len req))) /\ ctx_nil c = false.
Proof.
  intros U Hc Hr E Hl.
  exists (default (WithTimeout (WithoutCancel (default ctx completion)) (if completionTimeout s =? 0 then second else completionTimeout s)) completion).
  split; [|by destruct completion].
  apply wp_exact. unfold exchangeWithCompletion. apply wp_bind.
  unfold wp at 1. rewrite transportReady_usable by done. apply wp_bind, wp_gets. cbn [sess].
  destruct (Z.eqb_spec (len req) 0); [lia|]. destruct (Z.ltb_spec (packetSize s) (len req)); [lia|].
  apply wp_bind, wp_gets. cbn [sess]. apply wp_bind, wp_host. cbn [world sess SubmitBulk Probe_UsbHost].
  rewrite (us_in _ U). cbn [fst snd]. apply wp_bind, wp_host. cbn [world sess SubmitBulk Probe_UsbHost].
  rewrite (us_out _ U), E. cbn [fst snd]. apply wp_bind, wp_gets. cbn [sess]. apply wp_bind.
  unfold completeCommand. apply wp_bind, wp_host. cbn [world sess Wait Probe_UsbHost fst snd Nat.eqb accepted].
  rewrite Z.eqb_refl. cbn [negb]. apply wp_ret. apply wp_bind. unfold completeResponse. apply wp_bind, wp_host.
  cbn [world sess Wait Probe_UsbHost fst snd Nat.eqb answer].
  assert (len (received resp (make_bytes (packetSize s))) = packetSize s) as L.
  { unfold received. rewrite len_app. unfold len, make_bytes in *. rewrite length_take, length_drop, length_replicate. lia. }
  rewrite L. destruct (Z.ltb_spec (len resp) 0), (Z.ltb_spec (packetSize s) (len resp)); try lia. cbn [orb].
  destruct (Z.eqb_spec (len resp) 0); [lia|]. apply wp_ret, wp_ret. cbn [sess world].
  unfold received, len, make_bytes. rewrite Nat2Z.id, length_replicate.
  rewrite (take_ge resp) by (unfold len in Hl; lia). by rewrite take_app_length.
Qed.

Lemma validateStatus_ok data (x : St (W := Probe wire)) :
  validateStatusResponse (commandSWDSequence :: statusOK :: data) commandSWDSequence x = Done (None, x).
Proof.
  apply wp_exact. unfold validateStatusResponse, validateCommandResponse.
  change (index (commandSWDSequence :: statusOK :: data) 0) with (Some commandSWDSequence).
  change (index (commandSWDSequence :: statusOK :: data) 1) with (Some statusOK).
  rewrite bool_decide_eq_false_2, andb_false_r by done.
  destruct (Z.ltb_spec (len (commandSWDSequence :: statusOK :: data)) 2) as [L|_].
  { pose proof (len_nonneg data). rewrite !len_cons in L. lia. }
  apply wp_bind, wp_bind. eapply wp_lift; [done|]. apply wp_ret. apply wp_bind. eapply wp_lift; [done|]. by apply wp_ret.
Qed.

Lemma send_loop_usable ctx sm packets i input completion s (p : Probe wire) resps t' :
  usable s -> ctx_nil ctx = false -> (forall c, completion = Some c -> ctx_nil c = false) ->
  Forall (fun pk => 1 <= len (request pk) <= packetSize s) packets ->
  dap_swd_sequence_all wire (request <$> packets) (target p) = (resps, t') ->
  Forall2 (response_for (packetSize s) sm) resps packets ->
  Forall (fun pk => caps_in 0 (8 * len input) (captures pk)) packets -> bytes input ->
  exists input' p', send_loop ctx i input completion packets (mkSt s p) = Done ((input', None), mkSt s p') /\
    target p' = t' /\ bytes input' /\ len input' = len input /\
    forall j, 0 <= j -> gbit input' j =
      gbit input j || (existsb (fun pk => existsb (catches j) (captures pk)) packets && sm j).
Proof.
  intros U Hc. revert i input completion p resps. induction packets as [|pk packets IH];
    intros i input completion p resps Hcc Hreq E F Cs B; [|rewrite fmap_cons in E; cbn [dap_swd_sequence_all] in E].
  { injection E as <- <-. exists input, p. split_and!; try done. intros j _. simpl. by rewrite orb_false_r. }
  destruct (dap_swd_sequence wire (request pk) (target p)) as [resp t1] eqn:E1.
  destruct (dap_swd_sequence_all wire (request <$> packets) t1) as [rs t2] eqn:E2. injection E as <- <-.
  inversion F as [|? ? ? ? (data & -> & Cd & Ld) F']; subst. apply Forall_cons in Hreq as [Hreq Hreqs].
  apply Forall_cons in Cs as [Cpk Cs].
  destruct (exchange_usable ctx (request pk) completion s p (commandSWDSequence :: statusOK :: data) t1) as (c & Ex & Hn); try done.
  { destruct completion as [c|]; [by apply Hcc|done]. }
  { pose proof (len_nonneg data). rewrite !len_cons in *. lia. }
  cbn [send_loop]. unfold mbind, GoM_bind. rewrite Ex, validateStatus_ok.
  destruct (decodeSWDResponse_spec sm [commandSWDSequence; statusOK] data (captures pk) input
    (mkSt s (mkProbe (wire := wire) t1 (commandSWDSequence :: statusOK :: data) (len (request pk))))) as (i1 & Ed & B1 & L1 & G1); try done.
  cbn [app] in Ed. change (len [commandSWDSequence; statusOK]) with 2 in Ed. rewrite Ed.
  destruct (IH (i + 1) i1 (Some c) (mkProbe t1 (commandSWDSequence :: statusOK :: data) (len (request pk))) rs)
    as (i2 & p' & Es & Ht & B2 & L2 & G2); try done.
  { by intros ? [= <-]. }
  { by rewrite L1. }
  exists i2, p'. split; [exact Es|]. split_and!; try done; [congruence|]. intros j Hj. rewrite G2, G1 by done. simpl.
  by destruct (gbit input j), (existsb (catches j) (captures pk)), (existsb _ packets), (sm j).
Qed.

(** The stream goes over the wire once, exactly as asked. *)
Lemma SWDIO_usable ctx dir out bits s (p : Probe wire) :
  usable s -> ctx_nil ctx = false -> configured s = true ->
  protocolSupportsSWDSequence (ProtocolVersion (info s)) = true -> 4 <= packetSize s ->
  0 < bits <= maxSWDTransferBits -> bits <= 8 * len dir -> bits <= 8 * len out ->
  gbit dir (bits - 1) = true -> ~ oversized dir bits (packetSize s) ->
  exists input samples p', SWDIO ctx dir out bits (mkSt s p) = Done ((input, None), mkSt s p') /\
    clocks wire (undriven <$> stream dir out 0 bits) (target p) = (samples, target p') /\
    bytes input /\ len input = bytes_for bits /\
    forall j, 0 <= j -> gbit input j = (j <? bits) && negb (gbit dir j) && sample_at samples j.
Proof.
  intros U Hc Hcfg Hv Hps Hb Hd Ho Hl Hov.
  destruct (planSWDStream_spec dir out bits (packetSize s)) as [(packets & Ep & P)|(e & Ep & [?|?])]; try lia; try congruence; try done.
  destruct (plan_executes _ _ _ _ _ _ P) as [Cs Ex].
  destruct (Ex T wire (target p)) as (resps & samples & t' & E1 & E2 & F). rewrite Z.sub_0_r in E2.
  pose proof (bytes_for_bound bits) as Bb. pose proof (len_make_bytes (bytes_for bits) (bytes_for_nonneg bits ltac:(lia))) as Lm.
  destruct (send_loop_usable ctx (fun j => sample_at samples (j - 0)) packets 0 (make_bytes (bytes_for bits)) None s p resps t')
    as (input & p' & Es & Ht & B & L & G); try done; [by eapply plan_requests| |apply bytes_make|].
  { rewrite Lm. eapply Forall_impl; [exact Cs|]. intros pk C. eapply Forall_impl; [exact C|]. simpl. lia. }
  exists input, samples, p'. split; [|split_and!; try done; [by rewrite Ht|congruence|]].
  - unfold SWDIO. destruct (Z.leb_spec bits 0), (Z.ltb_spec maxSWDTransferBits bits), (Z.ltb_spec (len dir * 8) bits),
      (Z.ltb_spec (len out * 8) bits); try lia. cbn [orb].
    unfold sequenceReady, mbind, GoM_bind. rewrite transportReady_usable by done. unfold sget, gets. cbn [sess]. unfold id.
    rewrite Hcfg, Hv. cbn [negb]. unfold mret, GoM_ret, SWDIO_body, mbind, GoM_bind, sget, gets. cbn [sess].
    unfold lift. rewrite Ep. change ((bits + 7) / 8) with (bytes_for bits). rewrite Es. unfold ctxErr. rewrite Hc. done.
  - intros j Hj. rewrite G, gbit_make_bytes, (plan_cover _ _ _ _ _ _ _ P), Z.sub_0_r by done. simpl.
    by destruct (Z.leb_spec 0 j); [|lia].
Qed.
End Bench.
