(* ===== verification/CmsisLife.v ===== *)
(** * The lifecycle of a CMSIS-DAP session

    Configuring the SWD port, giving it back, and closing. *)

From S2P Require Import Prelude Go Bits Usb UsbHost Cmsis CmsisFacts.
Local Open Scope Z_scope.

Section Life.
Context {W : Type} `{Recorded W}.
Implicit Types x : St (W := W).

Lemma mkSt_eta x : mkSt (sess x) (world x) = x.
Proof. by destruct x. Qed.

Lemma Inv_clear s : Inv s -> Inv (clearSWDConfiguration s).
Proof. intros []. by split. Qed.

Lemma later_same s s' :
  poisoned s' = poisoned s -> gone s' = gone s -> device s' = device s -> claim s' = claim s -> later s s'.
Proof. intros. split; congruence. Qed.

(** ** DAP_Disconnect *)

(** A refusal or a lost exchange leaves the port as it was recorded. *)
Definition disconnect_post x (e : err) x' : Prop :=
  match e with
  | None => sess x' = clearSWDConfiguration (sess x) /\ poisoned (sess x) = false /\
      sent (world x') = sent (world x) ++ [[commandDisconnect]]
  | Some _ => exchanged (sess x) (sess x') /\
      (sent (world x') = sent (world x) \/ sent (world x') = sent (world x) ++ [[commandDisconnect]])
  end.

Lemma disconnect_wp ctx x : Inv (sess x) -> wp (disconnect ctx) (fun e x' => disconnect_post x e x') x.
Proof.
  intros I. unfold disconnect. apply wp_bind. eapply wp_mono; [by apply exchange_wp|].
  intros [resp [e|]] x1 [[X1 K1] _]; cbn [fst snd] in *.
  { apply wp_ret. split; [done|]. tauto. }
  destruct K1 as (_ & _ & E1 & P1 & _ & _ & S1). apply wp_bind. eapply wp_mono; [apply validateStatusResponse_wp|].
  intros [e|] x2 (X2 & W2 & N2).
  { apply wp_ret. split; [by rewrite E1 in X2|]. rewrite W2. auto. }
  destruct (N2 eq_refl) as [-> _]. apply wp_bind, wp_modify, wp_ret. cbn [sess world].
  rewrite E1. split_and!; try done. by rewrite <- E1.
Qed.

Lemma disconnect_post_inv x e x' : Inv (sess x) -> disconnect_post x e x' -> Inv (sess x').
Proof.
  intros I. destruct e as [e|]; [intros [X _]; by eapply exchanged_inv|]. intros [-> _]. by apply Inv_clear.
Qed.

Lemma disconnect_post_later x e x' : disconnect_post x e x' -> later (sess x) (sess x').
Proof. destruct e as [e|]; [intros [X _]; by apply exchanged_later|]. intros [-> _]. by apply later_same. Qed.

(** ** Closing *)

Definition released (s : Session) : Prop :=
  device s = false /\ claim s = false /\ connected s = false /\ configured s = false /\ closePrefix s = None.

(** Closing ends with everything given back, or with an error and cleanup still
    pending.  A port that was connected is disconnected, once, before a clean
    close. *)
Definition Close_post x (e : err) x' : Prop :=
  Inv (sess x') /\ later (sess x) (sess x') /\
  (released (sess x') \/ e <> None /\ CleanupPending x' = true) /\
  (e = None -> released (sess x') /\ closePrefix (sess x) = None /\
     sent (world x') = sent (world x) ++ (if connected (sess x) then [[commandDisconnect]] else [])).

Definition closePort_post x (e : err) x' : Prop :=
  Inv (sess x') /\ later (sess x) (sess x') /\ claim (sess x') = claim (sess x) /\ device (sess x') = device (sess x) /\
  match e with
  | Some _ => connected (sess x') = true
  | None => connected (sess x') = false /\
      (closePrefix (sess x') = None -> closePrefix (sess x) = None /\
         sent (world x') = sent (world x) ++ (if connected (sess x) then [[commandDisconnect]] else []))
  end.

Lemma errors_Join_nonnil a e : errors_Join [a; Some e] <> None.
Proof. intros E%errors_Join_None. apply Forall_cons in E as [_ E]. by apply Forall_cons in E as [? _]. Qed.

Lemma abandon_port x y e :
  Inv (sess x) -> exchanged (sess x) (sess y) -> closePort_post x None (mkSt (abandonTargetPort (Some e) (sess y)) (world y)).
Proof.
  intros I X. pose proof (exchanged_inv _ _ X I) as Iy. pose proof (exchanged_later _ _ X) as Ly. pose proof (ex_rest _ _ X) as R.
  split_and!; cbn [sess world abandonTargetPort].
  - apply Inv_clear. destruct Iy. by split.
  - transitivity (sess y); [done|]. by apply later_same.
  - change (claim (sess y) = claim (sess x)). by rewrite R.
  - change (device (sess y) = device (sess x)). by rewrite R.
  - done.
  - intros E. by apply errors_Join_nonnil in E.
Qed.

Lemma closeTargetPort_wp x : Inv (sess x) -> wp closeTargetPort (closePort_post x) x.
Proof.
  intros I. unfold closeTargetPort. apply wp_bind, wp_gets. unfold id. destruct (connected (sess x)) eqn:Ec; cbn [negb].
  2: { apply wp_ret. split_and!; try done. intros E. by rewrite Ec, app_nil_r. }
  destruct (if poisoned (sess x) then _ else _) as [reason|] eqn:Er.
  { apply wp_bind, wp_modify, wp_ret. by apply abandon_port. }
  apply wp_bind. eapply wp_mono; [by apply disconnect_wp|]. intros [e|] x1 D; cbn [disconnect_post] in D.
  - destruct D as [X _]. apply wp_bind, wp_gets. unfold id. destruct (RestorationPossible (sess x1)).
    + apply wp_ret. pose proof (ex_rest _ _ X) as R. split_and!.
      * by eapply exchanged_inv. * by apply exchanged_later. * by rewrite R. * by rewrite R. * by rewrite R.
    + apply wp_bind, wp_modify, wp_ret. by apply abandon_port.
  - destruct D as (E & _ & S). apply wp_ret. split_and!; rewrite ?E; try done; [by apply Inv_clear|].
    intros P. rewrite Ec. done.
Qed.

Lemma errors_Join_None2 a b : errors_Join [a; b] = None <-> a = None /\ b = None.
Proof. rewrite errors_Join_None. rewrite !Forall_cons. split; [intros (-> & -> & _)|intros [-> ->]]; done. Qed.

(** The device is closed last; [x0] is the session before [Close]. *)
Lemma closeDevice_wp result x :
  Inv (sess x) -> connected (sess x) = false -> claim (sess x) = false ->
  wp (closeDevice result) (fun e x' => Inv (sess x') /\ later (sess x) (sess x') /\ sent (world x') = sent (world x) /\
    (released (sess x') \/ e <> None /\ CleanupPending x' = true) /\ (e = None -> released (sess x') /\ result = None)) x.
Proof.
  intros I Ec El. assert (configured (sess x) = false) as Eg.
  { destruct (configured (sess x)) eqn:E; [|done]. rewrite (inv_configured _ I E) in Ec. done. }
  unfold closeDevice. apply wp_bind, wp_gets. unfold id. destruct (device (sess x)) eqn:Ed.
  - apply wp_bind, wp_host. pose proof (sent_close (world x)) as Sc. destruct (CloseDevice (world x)) as [e w]. cbn [fst snd] in *.
    apply wp_bind, wp_gets. cbn [world]. destruct (negb (is_nil e) && _) eqn:Ep.
    + apply andb_true_iff in Ep as [En Ep]. destruct e as [e|]; [|done]. apply wp_ret. cbn [sess world].
      split_and!; try done; [right|intros [_ ?]%errors_Join_None2; done].
      split; [by apply errors_Join_nonnil|]. unfold CleanupPending. cbn [sess world]. by rewrite Ed, Ep, orb_true_r.
    + apply wp_bind, wp_modify, wp_bind, wp_modify, wp_ret. cbn [sess world set_device set_closePrefix]. destruct I.
      assert (released (set_closePrefix None (set_device false (sess x)))) as R by done.
      split_and!; try done; [split; cbn; congruence|by auto|]. intros [-> _]%errors_Join_None2. done.
  - apply wp_bind, wp_modify, wp_ret. cbn [sess world]. destruct I.
    assert (released (set_closePrefix None (sess x))) as R by done. split_and!; try done. by left.
Qed.

Lemma Close_wp x : Inv (sess x) -> wp Close (Close_post x) x.
Proof.
  intros I. unfold Close. apply wp_bind. eapply wp_mono; [by apply closeTargetPort_wp|].
  intros [e|] x1 (I1 & L1 & Ecl & Ede & K1).
  { apply wp_ret. split_and!; try done. right. split; [done|]. unfold CleanupPending. by rewrite K1. }
  destruct K1 as [Ec K1]. apply wp_bind, wp_gets. unfold id. destruct (claim (sess x1)) eqn:El.
  - apply wp_bind, wp_host. pose proof (sent_close_claim (world x1)) as Sc. destruct (CloseClaim (world x1)) as [e w]. cbn [fst snd] in *.
    apply wp_bind, wp_gets. cbn [world]. destruct (negb (is_nil e) && _) eqn:Ep.
    + apply andb_true_iff in Ep as [En Ep]. destruct e as [e|]; [|done]. apply wp_ret. cbn [sess world].
      split_and!; try done; [right|intros [_ ?]%errors_Join_None2; done].
      split; [by apply errors_Join_nonnil|]. unfold CleanupPending. cbn [sess world]. by rewrite El, Ep, orb_true_r.
    + apply wp_bind, wp_modify. eapply wp_mono; [apply closeDevice_wp; cbn [sess]; try done|].
      { destruct I1. split; cbn; try done. intros ?. congruence. }
      intros e' x2 (I2 & L2 & S2 & R2 & N2). cbn [sess world] in *. split_and!; try done.
      * transitivity (sess x1); [done|]. transitivity (set_claim false (sess x1)); [by split|done].
      * intros E. destruct (N2 E) as [R Ej%errors_Join_None2]. destruct Ej as [Ej _]. destruct (K1 Ej) as [? Sk].
        split_and!; try done. congruence.
  - eapply wp_mono; [by apply closeDevice_wp|]. intros e' x2 (I2 & L2 & S2 & R2 & N2). split_and!; try done.
    + by transitivity (sess x1).
    + intros E. destruct (N2 E) as [R Ej]. destruct (K1 Ej) as [? Sk]. split_and!; try done. congruence.
Qed.
(** ** Configuring *)

(** Where a configuration that has not succeeded stands. *)
Definition unconfigured x x' : Prop :=
  Inv (sess x') /\ later (sess x) (sess x') /\ configured (sess x') = false.

Lemma unconfigured_trans x y z : unconfigured x y -> unconfigured y z -> unconfigured x z.
Proof. intros (_ & L1 & _) (I & L2 & C). split_and!; try done. by transitivity (sess y). Qed.

Lemma unconfigured_exchanged x x' :
  Inv (sess x) -> configured (sess x) = false -> exchanged (sess x) (sess x') -> unconfigured x x'.
Proof.
  intros I C X. split_and!; [by eapply exchanged_inv|by apply exchanged_later|]. by rewrite (ex_rest _ _ X).
Qed.

Lemma unconfigured_drop x x' : unconfigured x x' -> unconfigured x (mkSt (set_connected false (sess x')) (world x')).
Proof.
  intros (I & L & C). split_and!; [|transitivity (sess x'); [done|by apply later_same]|done].
  destruct I. by split; cbn; try congruence.
Qed.

Lemma configureFailure_wp ctx e x :
  Inv (sess x) -> configured (sess x) = false ->
  wp (configureFailure ctx e) (fun r x' => r <> None /\ unconfigured x x') x.
Proof.
  intros I C. unfold configureFailure. apply wp_bind, wp_gets. unfold id. destruct (_ || _).
  { by apply wp_ret. }
  apply wp_bind. eapply wp_mono; [by apply disconnect_wp|]. intros r x' D. apply wp_ret.
  split; [apply errors_Join_Some|]. split_and!; [by eapply disconnect_post_inv|by eapply disconnect_post_later|].
  destruct r as [r|]; [destruct D as [X _]; by rewrite (ex_rest _ _ X)|by destruct D as [-> _]].
Qed.

Definition ready_port x : Prop := Inv (sess x) /\ device (sess x) = true /\ claim (sess x) = true.

Lemma Inv_connecting x : ready_port x -> configured (sess x) = false -> Inv (set_connected true (sess x)).
Proof. intros ([] & D & C) Hf. by split. Qed.

Lemma connectSWD_wp ctx x :
  ready_port x -> configured (sess x) = false ->
  wp (connectSWD ctx) (fun e x' => unconfigured x x' /\
    (e = None -> sess x' = set_connected true (sess x) /\ sent (world x') = sent (world x) ++ [[commandConnect; portSWD]])) x.
Proof.
  intros R C. pose proof (Inv_connecting x R C) as I. unfold connectSWD. apply wp_bind, wp_modify.
  assert (unconfigured x (mkSt (set_connected true (sess x)) (world x))) as U0 by (split_and!; [done|by apply later_same|done]).
  apply wp_bind. eapply wp_mono; [by apply exchange_wp|]. intros [resp [e|]] x1 [[X1 K1] _]; cbn [fst snd] in *.
  { apply wp_bind, wp_modify, wp_ret. split; [|done].
    assert (unconfigured x x1) as U1 by (eapply unconfigured_trans; [exact U0|]; by apply unconfigured_exchanged).
    cbn [sess world] in *. destruct (poisoned (sess x1)); cbn [negb]; [by rewrite mkSt_eta|by apply unconfigured_drop]. }
  destruct K1 as (_ & Hl & E1 & P1 & _ & _ & S1). cbn [sess world] in E1, S1.
  assert (unconfigured x x1) as U1 by (eapply unconfigured_trans; [exact U0|]; by apply unconfigured_exchanged).
  apply wp_bind. eapply wp_mono; [by apply validateCommandResponse_wp|]. intros [e|] x2 (X2 & W2 & N2).
  - assert (unconfigured x1 x2) as U2 by (apply unconfigured_exchanged; [apply U1|apply U1|done]).
    destruct (_ && _).
    + apply wp_bind, wp_modify, wp_ret. split; [|done]. apply unconfigured_drop. by eapply unconfigured_trans.
    + eapply wp_mono; [apply configureFailure_wp; apply U2|]. intros r x3 [Hr U3]. split; [|done].
      eapply unconfigured_trans; [exact U1|]. by eapply unconfigured_trans.
  - destruct (N2 eq_refl) as (-> & L2 & _). destruct (index resp 1) as [port|] eqn:Ei.
    2: { pose proof (proj2 (index_is_Some resp 1)) as K. rewrite Ei in K. destruct K; [lia|done]. }
    apply wp_bind. eapply wp_lift; [done|]. destruct (port =? 0).
    { apply wp_bind, wp_modify, wp_ret. split; [by apply unconfigured_drop|done]. }
    destruct (negb _).
    + eapply wp_mono; [apply configureFailure_wp; apply U1|]. intros r x3 [Hr U3]. split; [|done]. by eapply unconfigured_trans.
    + apply wp_ret. split; [done|]. intros _. by rewrite E1.
Qed.

Lemma requestSWDClock_wp ctx hz x :
  Inv (sess x) ->
  wp (requestSWDClock ctx hz) (fun e x' => exchanged (sess x) (sess x') /\
    (e = None -> sess x' = sess x /\ sent (world x') = sent (world x) ++ [commandSWJClock :: le_bytes 4 hz])) x.
Proof.
  intros I. unfold requestSWDClock. apply wp_bind. eapply wp_mono; [by apply exchange_wp|].
  intros [resp [e|]] x1 [[X1 K1] _]; cbn [fst snd] in *; [by apply wp_ret|]. destruct K1 as (_ & _ & E1 & _ & _ & _ & S1).
  apply wp_bind. eapply wp_mono; [apply validateStatusResponse_wp|]. intros e x2 (X2 & W2 & N2). apply wp_ret.
  split; [by transitivity (sess x1)|]. destruct e; [done|]. intros _. destruct (N2 eq_refl) as [-> _]. done.
Qed.

(** A success has disconnected what was connected, connected the port and set
    the clock; anything else leaves the session unconfigured, or as it was
    because the old port could not be given back. *)
Definition configure_post (hz : Z) x (e : err) x' : Prop :=
  Inv (sess x') /\ later (sess x) (sess x') /\
  match e with
  | None => configured (sess x') = true /\ connected (sess x') = true /\ maxClockHz (sess x') = hz /\
      sent (world x') = sent (world x) ++ (if connected (sess x) then [[commandDisconnect]] else []) ++
        [[commandConnect; portSWD]; commandSWJClock :: le_bytes 4 hz]
  | Some _ => exchanged (sess x) (sess x') \/ configured (sess x') = false
  end.

Lemma configure_rest_wp ctx hz x :
  ready_port x -> configured (sess x) = false -> 5 <= packetSize (sess x) ->
  wp (e ← connectSWD ctx;
      match e with
      | Some e => mret (Some e)
      | None =>
          e ← requestSWDClock ctx hz;
          match e with
          | Some e => configureFailure ctx e
          | None => smod (fun s => set_maxClockHz hz (set_configured true s));; mret None
          end
      end) (fun e x' => Inv (sess x') /\ later (sess x) (sess x') /\
    match e with
    | None => configured (sess x') = true /\ connected (sess x') = true /\ maxClockHz (sess x') = hz /\
        sent (world x') = sent (world x) ++ [[commandConnect; portSWD]; commandSWJClock :: le_bytes 4 hz]
    | Some _ => configured (sess x') = false
    end) x.
Proof.
  intros R C Hp. apply wp_bind. eapply wp_mono; [by apply connectSWD_wp|]. intros [e|] x1 [U1 K1].
  { apply wp_ret. destruct U1 as (? & ? & ?). done. }
  destruct (K1 eq_refl) as [E1 S1]. apply wp_bind. eapply wp_mono; [apply requestSWDClock_wp, U1|]. intros [e|] x2 [X2 K2].
  - assert (unconfigured x1 x2) as U2 by (apply unconfigured_exchanged; [apply U1|apply U1|done]).
    eapply wp_mono; [apply configureFailure_wp; apply U2|]. intros [r|] x3 [Hr U3]; [|done].
    destruct (unconfigured_trans _ _ _ U1 (unconfigured_trans _ _ _ U2 U3)) as (? & ? & ?). done.
  - destruct (K2 eq_refl) as [E2 S2]. apply wp_bind, wp_modify, wp_ret. cbn [sess world].
    rewrite E2, E1. destruct U1 as (I1 & L1 & C1). rewrite E1 in I1, L1. split_and!; try done.
    + destruct I1. by split.
    + by rewrite S2, S1, <- app_assoc.
Qed.
(** [ConfigureSWD] as a whole: its context may end after a success. *)
Definition ConfigureSWD_post (hz : Z) x (r : err) x' : Prop :=
  Inv (sess x') /\ later (sess x) (sess x') /\
  (configured (sess x') = true /\ connected (sess x') = true /\ maxClockHz (sess x') = hz /\
     sent (world x') = sent (world x) ++ (if connected (sess x) then [[commandDisconnect]] else []) ++
       [[commandConnect; portSWD]; commandSWJClock :: le_bytes 4 hz] \/
   r <> None /\ (exchanged (sess x) (sess x') \/ configured (sess x') = false)).

Lemma ConfigureSWD_body_wp ctx hz x :
  ready_port x -> 5 <= packetSize (sess x) -> wp (ConfigureSWD_body ctx hz) (configure_post hz x) x.
Proof.
  intros R Hp. unfold ConfigureSWD_body. apply wp_bind, wp_gets. unfold id. apply wp_bind.
  destruct (connected (sess x)) eqn:Ec.
  - eapply wp_mono; [apply disconnect_wp, R|]. intros [e|] x1 D.
    { apply wp_ret. split_and!; [by eapply disconnect_post_inv; [apply R|]|by eapply disconnect_post_later|]. left. apply D. }
    pose proof (disconnect_post_inv _ _ _ (proj1 R) D) as I1. pose proof (disconnect_post_later _ _ _ D) as L1.
    destruct D as (E1 & _ & S1). destruct R as (I & Dv & Cl).
    eapply wp_mono; [apply configure_rest_wp; [split_and!; [done|by rewrite E1|by rewrite E1]|by rewrite E1|by rewrite E1]|].
    intros e x2 (I2 & L2 & K2). split_and!; [done|by transitivity (sess x1)|]. rewrite Ec, S1, <- app_assoc in *.
    destruct e; [by right|done].
  - apply wp_ret. assert (configured (sess x) = false) as Eg.
    { destruct (configured (sess x)) eqn:E; [|done]. by rewrite (inv_configured _ (proj1 R) E) in Ec. }
    eapply wp_mono; [by apply configure_rest_wp|]. intros e x2 (I2 & L2 & K2). split_and!; try done. rewrite Ec.
    destruct e; [by right|done].
Qed.

Lemma ConfigureSWD_wp ctx hz x : Inv (sess x) -> wp (ConfigureSWD ctx hz) (ConfigureSWD_post hz x) x.
Proof.
  intros I. unfold ConfigureSWD. apply wp_bind. unfold validateSWDConfiguration.
  destruct (hz =? 0). { apply wp_ret, wp_ret. split_and!; try done. right; split; [done|by left]. }
  apply wp_bind, wp_transportReady.
  { intros e w Hw. apply wp_ret, wp_ret. split_and!; try done. right; split; [done|by left]. }
  intros w Hw Hn Hd Hc _ _. apply wp_bind, wp_gets, wp_ret. cbn [sess]. unfold id.
  destruct (negb _). { apply wp_ret. split_and!; try done. right; split; [done|by left]. }
  destruct (Z.ltb_spec (packetSize (sess x)) 5). { apply wp_ret. split_and!; try done. right; split; [done|by left]. }
  apply wp_bind. eapply wp_mono; [by apply ConfigureSWD_body_wp|]. intros e x1 (I1 & L1 & K1). cbn [sess world] in *.
  apply wp_bind, wp_ctxErr; [done|]. intros c w' Hw'. apply wp_ret. split_and!; try done. cbn [sess world].
  destruct e as [e|]; [right; split; [apply errors_Join_Some|done]|left]. by rewrite Hw', <- Hw.
Qed.

(** ** After a failed open *)

Lemma released_clean x : released (sess x) -> CleanupPending x = false.
Proof. intros (D & C & P & _). unfold CleanupPending. by rewrite D, C, P. Qed.

(** The session is retained exactly while something is left to clean up. *)
Definition settled (r : bool * err) x : Prop :=
  Inv (sess x) /\ fst r = CleanupPending x /\ (fst r = false -> released (sess x)).

Lemma Close_settled x (f : err -> err) :
  Inv (sess x) -> wp (e ← Close; pending ← gets CleanupPending; mret (pending, f e)) settled x.
Proof.
  intros I. apply wp_bind. eapply wp_mono; [by apply Close_wp|]. intros e x' (I' & _ & R & _).
  apply wp_bind, wp_gets, wp_ret. split_and!; try done. cbn [fst]. intros E. destruct R as [?|[_ R]]; [done|congruence].
Qed.

Lemma closeAfterOpenFailure_wp x : Inv (sess x) -> wp closeAfterOpenFailure settled x.
Proof.
  intros I. unfold closeAfterOpenFailure. apply wp_bind, wp_gets. unfold id. destruct (connected (sess x)) eqn:Ec; cbn [andb].
  2: { by apply (Close_settled x id). }
  destruct (RestorationPossible (sess x)) eqn:Er; [|by apply (Close_settled x id)].
  apply wp_bind. eapply wp_mono; [by apply disconnect_wp|]. intros [e|] x1 D.
  - pose proof (disconnect_post_inv _ _ _ I D) as I1. apply wp_bind, wp_gets. unfold id.
    destruct (RestorationPossible (sess x1)).
    + apply wp_ret. destruct D as [X _]. split_and!; try done. unfold CleanupPending. rewrite (ex_rest _ _ X). cbn. by rewrite Ec.
    + by apply (Close_settled x1 (fun c => errors_Join [Some e; c])).
  - apply (Close_settled x1 id). by eapply disconnect_post_inv.
Qed.
End Life.

(** * Opening a CMSIS-DAP session

    Metadata, resynchronization, and what an opened or refused session owns. *)

(** Reading metadata changes the metadata, and what is learned of the stream. *)
Record learned (s s' : Session) : Prop := {
  le_rest : s' = set_info (info s') (set_packetSize (packetSize s') (set_poisoned (poisoned s') (set_gone (gone s') s)));
  le_poisoned : poisoned s = true -> poisoned s' = true;
  le_gone : gone s = true -> gone s' = true
}.

#[global] Instance learned_preorder : PreOrder learned.
Proof.
  split; [by intros []; split|]. intros a b c [E1 P1 G1] [E2 P2 G2]. split; auto. rewrite E2, E1 at 1. done.
Qed.

Lemma exchanged_learned s s' : exchanged s s' -> learned s s'.
Proof. intros [E P G]. split; try done. rewrite E. by destruct s. Qed.

Lemma learned_inv s s' : learned s s' -> configured s = false -> Inv s -> Inv s'.
Proof. intros [-> _ _] C []. split; cbn; try done. congruence. Qed.

Lemma learned_later s s' : learned s s' -> later s s'.
Proof. intros [-> P G]. by split. Qed.

Lemma learned_info f s : learned s (set_info (f (info s)) s).
Proof. by destruct s. Qed.

Lemma learned_packet n s : learned s (set_packetSize n s).
Proof. by destruct s. Qed.

Section Open.
Context {W : Type} `{Recorded W}.
Implicit Types x : St (W := W).
Abbreviation M := (GoM (St (W := W))).

(** A step of reading metadata. *)
Definition Learns {A} (m : M A) : Prop :=
  forall x, Inv (sess x) -> configured (sess x) = false -> wp m (fun _ x' => learned (sess x) (sess x')) x.

Lemma learned_closed s s' : learned s s' -> Inv s -> configured s = false -> Inv s' /\ configured s' = false.
Proof. intros L I C. split; [by eapply learned_inv|]. by rewrite (le_rest _ _ L). Qed.

Lemma Learns_bind {A B} (m : M A) (f : A -> M B) : Learns m -> (forall a, Learns (f a)) -> Learns (mbind f m).
Proof.
  intros Hm Hf x I C. apply wp_bind. eapply wp_mono; [by apply Hm|]. intros a x1 L1.
  destruct (learned_closed _ _ L1 I C) as [I1 C1]. eapply wp_mono; [by apply Hf|]. intros b x2 L2. by transitivity (sess x1).
Qed.

Lemma Learns_ret {A} (a : A) : Learns (mret a).
Proof. intros x I C. by apply wp_ret. Qed.

Lemma Learns_imod f : Learns (imod f).
Proof. intros x I C. apply wp_modify, learned_info. Qed.

Lemma Learns_gets {A} (f : St -> A) : Learns (gets f).
Proof. intros x I C. by apply wp_gets. Qed.

Lemma Learns_packet n : Learns (smod (set_packetSize n)).
Proof. intros x I C. apply wp_modify, learned_packet. Qed.

Lemma infoData_wp ctx n x :
  Inv (sess x) ->
  wp (infoData ctx n) (fun r x' => exchanged (sess x) (sess x') /\ (snd (fst r) = true -> 1 <= len (fst (fst r)))) x.
Proof.
  intros I. unfold infoData. apply wp_bind. eapply wp_mono; [by apply exchange_wp|].
  intros [resp [e|]] x1 [[Hx K] _]; [by apply wp_ret|]. cbn [fst snd] in K. destruct K as (B & _).
  destruct (_ && _); [by apply wp_ret|]. destruct (Z.ltb_spec (len resp) 2); [by apply wp_ret|].
  destruct (index resp 0) as [f|] eqn:E0.
  2: { pose proof (proj2 (index_is_Some resp 0)) as N. rewrite E0 in N. destruct N; [lia|done]. }
  destruct (index resp 1) as [l|] eqn:E1.
  2: { pose proof (proj2 (index_is_Some resp 1)) as N. rewrite E1 in N. destruct N; [lia|done]. }
  apply wp_bind. eapply wp_lift; [done|]. destruct (negb _); [by apply wp_ret|].
  apply wp_bind. eapply wp_lift; [done|]. apply wp_bind, wp_gets.
  destruct (_ <? l); [by apply wp_ret|]. destruct (Z.ltb_spec (len resp) (2 + l)); [by apply wp_ret|].
  destruct (Z.eqb_spec l 0) as [|Hl]; [by apply wp_ret|]. apply wp_ret. split; [done|]. intros _.
  cbn [fst snd]. unfold len in *. rewrite length_take, length_drop.
  assert (is_byte l) as [? _]; [|lia]. rewrite index_lookup in E1 by lia. by eapply Forall_lookup_1.
Qed.

Lemma Learns_infoData ctx n : Learns (infoData ctx n).
Proof. intros x I C. eapply wp_mono; [by apply infoData_wp|]. intros r x' [X _]. by apply exchanged_learned. Qed.

Lemma Learns_stringInfo ctx n : Learns (stringInfo ctx n).
Proof.
  intros x I C. unfold stringInfo. apply wp_bind. eapply wp_mono; [by apply infoData_wp|].
  intros [[data present] e] x' [X K]. cbn [fst snd] in K. apply exchanged_learned in X.
  destruct (_ || negb present) eqn:E; [by apply wp_ret|]. apply orb_false_iff in E as [_ E]. destruct present; [|done].
  specialize (K eq_refl). destruct (index data (len data - 1)) as [b|] eqn:E1.
  2: { pose proof (proj2 (index_is_Some data (len data - 1))) as N. rewrite E1 in N. destruct N; [lia|done]. }
  apply wp_bind. eapply wp_lift; [done|]. repeat (case_match; try by apply wp_ret).
Qed.

Ltac learns_step :=
  first [ apply Learns_ret | apply Learns_infoData | apply Learns_stringInfo | apply Learns_imod | apply Learns_gets
        | apply Learns_packet | apply Learns_bind; [|intros ?] | case_match ].
Ltac learns := repeat learns_step.




Lemma Learns_packetSize data : len data = 2 ->
  Learns (size ← lift (uint16At data 0);
    if size <? minimumPacketSize
    then mret (Some (New "cmsisdap: DAP_Info packet size = %d, want at least %d"))
    else smod (set_packetSize size);; mret None).
Proof.
  intros L x I C. destruct data as [|a [|b [|? ?]]]; try (unfold len in L; simpl in L; lia).
  apply wp_bind. eapply wp_lift; [done|]. case_match; [by apply wp_ret|].
  apply wp_bind, wp_modify, wp_ret, learned_packet.
Qed.

Lemma Learns_readPacketGeometry ctx : Learns (readPacketGeometry ctx).
Proof.
  unfold readPacketGeometry. apply Learns_bind; [apply Learns_infoData|]. intros [[data present] [e|]]; [apply Learns_ret|].
  apply Learns_bind.
  - destruct present; cbn [negb]; [|apply Learns_ret]. destruct (Z.eqb_spec (len data) 2); cbn [negb]; [|apply Learns_ret].
    by apply Learns_packetSize.
  - intros [e|]; [apply Learns_ret|]. learns.
Qed.

Lemma Learns_readCapabilities ctx : Learns (readCapabilities ctx).
Proof. unfold readCapabilities. learns. Qed.

Lemma Learns_readStrings ctx : Learns (readStrings ctx).
Proof. unfold readStrings. learns. Qed.

Lemma Learns_readInfo ctx : Learns (readInfo ctx).
Proof.
  unfold readInfo. apply Learns_bind; [apply Learns_readPacketGeometry|]. intros [e|]; [apply Learns_ret|].
  apply Learns_bind; [apply Learns_readCapabilities|]. intros [e|]; [apply Learns_ret|apply Learns_readStrings].
Qed.
End Open.

(** ** Resynchronization *)

(** A context with a deadline: asking it uses up what remains, and nothing the
    host does gives any back. *)
Class Timed (W : Type) `{Env W} `{UsbHost W} := {
  remaining : context -> W -> nat;
  timed_tick ctx w : fst (ctx_Err ctx w) = None -> (remaining ctx (snd (ctx_Err ctx w)) < remaining ctx w)%nat;
  timed_ctx ctx ctx' w : (remaining ctx (snd (ctx_Err ctx' w)) <= remaining ctx w)%nat;
  timed_submit ctx ctx' ep d w : (remaining ctx (snd (SubmitBulk ctx' ep d w)) <= remaining ctx w)%nat;
  timed_wait ctx ctx' t w : (remaining ctx (snd (Wait ctx' t w)) <= remaining ctx w)%nat;
  timed_abort ctx ep w : (remaining ctx (snd (AbortBulk ep w)) <= remaining ctx w)%nat;
  timed_config ctx ctx' w : (remaining ctx (snd (ActiveConfiguration ctx' w)) <= remaining ctx w)%nat;
  timed_claim ctx n w : (remaining ctx (snd (claimInterface n w)) <= remaining ctx w)%nat;
  timed_alt ctx n w : (remaining ctx (snd (SetAltSetting n w)) <= remaining ctx w)%nat;
  timed_endpoint ctx ctx' a w : (remaining ctx (snd (claimEndpoint ctx' a w)) <= remaining ctx w)%nat
}.

Section Resync.
Context {W : Type} `{Recorded W} `{!Timed W}.
Implicit Types x : St (W := W).

(** Steps that send nothing, leave the session alone and take time. *)
Definition passes (ctx : context) x x' : Prop :=
  sess x' = sess x /\ sent (world x') = sent (world x) /\ (remaining ctx (world x') <= remaining ctx (world x))%nat.

#[local] Instance passes_preorder ctx : PreOrder (passes ctx).
Proof. split; [done|]. intros a b c (E1 & S1 & R1) (E2 & S2 & R2). split_and!; [congruence|congruence|lia]. Qed.

Definition Passes (ctx : context) {A} (m : GoM (St (W := W)) A) : Prop :=
  forall x, Inv (sess x) -> wp m (fun _ x' => passes ctx x x') x.

Lemma Passes_ret ctx {A} (a : A) : Passes ctx (mret a).
Proof. intros x I. by apply wp_ret. Qed.

Lemma Passes_bind ctx {A B} (m : GoM St A) (f : A -> GoM St B) : Passes ctx m -> (forall a, Passes ctx (f a)) -> Passes ctx (mbind f m).
Proof.
  intros Hm Hf x I. apply wp_bind. eapply wp_mono; [by apply Hm|]. intros a x1 P1.
  eapply wp_mono; [apply Hf; by rewrite (proj1 P1)|]. intros b x2 P2. by transitivity x1.
Qed.

Lemma Passes_gets ctx {A} (f : St -> A) : Passes ctx (gets f).
Proof. intros x I. by apply wp_gets. Qed.

Lemma Passes_wait ctx ctx' t : Passes ctx (host (Wait ctx' t)).
Proof. intros x I. apply wp_host. split_and!; [done|apply sent_wait|apply timed_wait]. Qed.

Lemma Passes_abort ctx : Passes ctx abortIn.
Proof. intros x I. apply wp_bind, wp_gets, wp_host. split_and!; [done|apply sent_abort|apply timed_abort]. Qed.

Lemma Passes_ctxErr ctx ctx' : ctx_nil ctx' = false -> Passes ctx (ctxErr ctx').
Proof.
  intros Hn x I. unfold ctxErr. rewrite Hn. apply wp_bind, wp_host, wp_ret. split_and!; [done|apply sent_ctx|apply timed_ctx].
Qed.

Lemma Passes_submitIn ctx ctx' d {A} (k : nat * err -> GoM (St (W := W)) A) :
  (forall r, Passes ctx (k r)) ->
  Passes ctx (ep ← sget (fun s => Address (bulkIn (command s))); r ← host (SubmitBulk ctx' ep d); k r).
Proof.
  intros Hk x I. apply wp_bind, wp_gets, wp_bind, wp_host.
  eapply wp_mono; [by apply Hk|]. intros a x' P. transitivity (mkSt (sess x) (snd (SubmitBulk ctx' (Address (bulkIn (command (sess x)))) d (world x)))); [|done].
  split_and!; [done| |apply timed_submit]. cbn [world]. rewrite sent_submit.
  by rewrite (inv_in _ I), andb_false_r, app_nil_r.
Qed.

Lemma Passes_finishQuietRead ctx t capacity e expired : Passes ctx (finishQuietRead t capacity e expired).
Proof.
  apply Passes_bind; [apply Passes_wait|]. intros [[count [e'|]] d].
  - apply Passes_bind; [apply Passes_gets|]. intros a. case_match; apply Passes_ret.
  - repeat (case_match; try apply Passes_ret).
Qed.

Lemma Passes_waitForInputQuiet ctx ctx' : ctx_nil ctx' = false -> Passes ctx (waitForInputQuiet ctx').
Proof.
  intros Hn. unfold waitForInputQuiet. apply Passes_bind; [apply Passes_gets|]. intros packet.
  apply Passes_submitIn. intros [t [e|]]; [apply Passes_ret|].
  apply Passes_bind; [apply Passes_wait|]. intros [[count [e|]] d]; [|case_match; apply Passes_ret].
  apply Passes_bind; [apply Passes_abort|]. intros [a|]; [apply Passes_ret|].
  apply Passes_bind; [|intros; apply Passes_finishQuietRead]. case_match; [apply Passes_ret|].
  apply Passes_bind; [by apply Passes_ctxErr|]. intros q. case_match; [apply Passes_ret|].
  apply Passes_bind; [by apply Passes_ctxErr|]. intros; apply Passes_ret.
Qed.

(** The loop ends: with the input quiet, or with an error. *)
Lemma synchronize_loop_wp fuel ctx x :
  Inv (sess x) -> ctx_nil ctx = false -> (remaining ctx (world x) < fuel)%nat ->
  wp (synchronize_loop fuel ctx) (fun _ x' => exchanged (sess x) (sess x') /\ sent (world x') = sent (world x)) x.
Proof.
  intros I Hn. revert x I. induction fuel as [|fuel IH]; intros x I Hf; [lia|]. cbn [synchronize_loop].
  apply wp_bind. eapply wp_mono; [by apply (Passes_waitForInputQuiet ctx)|]. intros [quiet e] x1 (E1 & S1 & R1).
  unfold ctxErr. rewrite Hn. apply wp_bind, wp_bind, wp_host, wp_ret.
  pose proof (timed_tick ctx (world x1)) as Ht. pose proof (sent_ctx ctx (world x1)) as Sc.
  destruct (ctx_Err ctx (world x1)) as [c w]. cbn [fst snd] in *.
  destruct (errors_Join _) as [e'|] eqn:Ej.
  { apply wp_bind, wp_submissionError. intros y Y _. cbn [sess world] in *. apply wp_ret. rewrite E1 in Y. split; [done|]. cbn [world]. congruence. }
  apply errors_Join_None2 in Ej as [-> Ec]. destruct c as [c|]; [done|].
  destruct quiet; [apply wp_ret; split; cbn [sess world]; [by rewrite E1|congruence]|].
  specialize (Ht eq_refl). eapply wp_mono; [apply IH; [cbn [sess]; by rewrite E1|cbn [world]; lia]|].
  intros r x2 [X2 S2]. cbn [sess world] in *. rewrite E1 in X2. split; [done|congruence].
Qed.

(** ** Opening *)

Definition directions (c : commandInterface) : Prop :=
  any_bits (Address (bulkOut c)) 0x80 = false /\ any_bits (Address (bulkIn c)) 0x80 = true.

Lemma usableBulkEndpoint_dir e input : usableBulkEndpoint e input = true -> any_bits (Address e) 0x80 = input.
Proof. unfold usableBulkEndpoint. rewrite !andb_true_iff. intros [[[_ E] _] _]. by apply Bool.eqb_prop in E. Qed.

Lemma candidate_directions n a c : commandInterfaceCandidate n a = Some c -> directions c.
Proof.
  unfold commandInterfaceCandidate. destruct (_ || _); [done|].
  destruct (Endpoints a) as [|o [|i [|w [|? ?]]]]; try done;
    destruct (usableBulkEndpoint o false) eqn:Eo, (usableBulkEndpoint i true) eqn:Ei; try done; cbn [negb orb].
  - intros [= <-]. split; by apply usableBulkEndpoint_dir.
  - destruct (_ || _); [done|]. intros [= <-]. split; by apply usableBulkEndpoint_dir.
Qed.

Lemma findCommandInterface_directions cfg c : findCommandInterface cfg = (c, None) -> directions c.
Proof.
  unfold findCommandInterface. destruct (matches_ cfg) as [|m [|? ?]] eqn:E; try done. intros [= <-].
  assert (m ∈ matches_ cfg) as Hm by (rewrite E; constructor).
  unfold matches_ in Hm. apply list_elem_of_bind in Hm as (i & Hm & _). apply list_elem_of_omap in Hm as (a & _ & Ha).
  by apply candidate_directions in Ha.
Qed.

(** What a session that was opened holds. *)
Definition opened (config : openConfig) (s : Session) : Prop :=
  device s = true /\ claim s = true /\
  if configureSWD config then configured s = true /\ connected s = true /\ maxClockHz s = cfg_maxClockHz config
  else connected s = false.

Definition body_post (config : openConfig) (r : bool * err) x' : Prop :=
  Inv (sess x') /\ (snd r = None -> fst r = true /\ opened config (sess x')).

Lemma finishOpenSession_wp ctx config x :
  Inv (sess x) -> device (sess x) = true -> claim (sess x) = true -> connected (sess x) = false ->
  wp (finishOpenSession ctx config) (body_post config) x.
Proof.
  intros I Hd Hc Hn. unfold finishOpenSession. unfold body_post, opened. destruct (configureSWD config); cbn [negb].
  - apply wp_bind. eapply wp_mono; [by apply ConfigureSWD_wp|]. intros [e|] x' (I' & _ & K); apply wp_ret; (split; [done|]); [done|].
    intros _. destruct K as [(C1 & C2 & C3 & _)|[[] _]]; [|done]. destruct (inv_connected _ I' C2). done.
  - apply wp_ret. done.
Qed.

Lemma selectedEndpoint_wp ctx a input x (Q : Endpoint * err -> St -> Prop) :
  (forall r w, sent w = sent (world x) -> (forall c, (remaining c w <= remaining c (world x))%nat) ->
     (snd r = None -> any_bits (Address (fst r)) 0x80 = input) -> Q r (mkSt (sess x) w)) ->
  wp (selectedEndpoint ctx a input) Q x.
Proof.
  intros HQ. unfold selectedEndpoint. apply wp_bind, wp_host. pose proof (sent_endpoint ctx a (world x)) as S.
  pose proof (fun c => timed_endpoint c ctx a (world x)) as R.
  destruct (claimEndpoint ctx a (world x)) as [[ep [e|]] w]; cbn [fst snd] in *; [apply wp_ret; by apply HQ|].
  destruct (negb _); cbn [orb]; [apply wp_ret; by apply HQ|]. destruct (usableBulkEndpoint ep input) eqn:E; cbn [negb]; apply wp_ret; apply HQ; try done.
  intros _. by apply usableBulkEndpoint_dir.
Qed.

(** Before the port: the session has a device, and at most a claim. *)
Lemma Inv_fresh s c d p : Inv s -> connected s = false -> directions c -> Inv (set_packetSize p (set_command c (set_claim d s))).
Proof.
  intros [] Hc [D1 D2]. assert (configured s = false) by (destruct (configured s); naive_solver). split; cbn; try done; congruence.
Qed.

Lemma openSession_body_wp fuel ctx config x :
  Inv (sess x) -> ctx_nil ctx = false -> device (sess x) = true -> claim (sess x) = false -> connected (sess x) = false ->
  (remaining (WithTimeout ctx inputSyncTimeout) (world x) < fuel)%nat ->
  wp (openSession_body fuel ctx config) (body_post config) x.
Proof.
  intros I Hn Hd Hl Hc Hf. assert (configured (sess x) = false) as Hg.
  { destruct (configured (sess x)) eqn:E; [|done]. by rewrite (inv_configured _ I E) in Hc. }
  unfold openSession_body. apply wp_bind, wp_gets. apply wp_bind, wp_host.
  pose proof (timed_claim (WithTimeout ctx inputSyncTimeout) (number (command (sess x))) (world x)) as R1.
  destruct (claimInterface _ (world x)) as [[e|] w1]; cbn [fst snd] in *; [by apply wp_ret|].
  apply wp_bind, wp_modify. cbn [sess world]. apply wp_bind, wp_host. cbn [sess world].
  pose proof (timed_alt (WithTimeout ctx inputSyncTimeout) (alternate_ (command (sess x))) w1) as R2.
  assert (Inv (set_claim true (sess x))) as I1 by (destruct I; split; cbn; try done; congruence).
  destruct (SetAltSetting _ w1) as [[e|] w2]; cbn [fst snd] in *; [by apply wp_ret|].
  apply wp_bind, selectedEndpoint_wp. cbn [sess world]. intros [out [e|]] w3 _ R3 D3; [by apply wp_ret|].
  apply wp_bind, selectedEndpoint_wp. cbn [sess world]. intros [inp [e|]] w4 _ R4 D4; [by apply wp_ret|].
  cbn [fst snd] in *. specialize (D3 eq_refl). specialize (D4 eq_refl).
  apply wp_bind, wp_modify. cbn [sess world].
  set (s1 := set_packetSize _ _). assert (Inv s1) as Is by (by apply (Inv_fresh (sess x))).
  destruct (_ <? _); [by apply wp_ret|].
  apply wp_bind. unfold synchronizeInput. eapply wp_mono; [apply synchronize_loop_wp; try done|].
  { cbn [world]. specialize (R3 (WithTimeout ctx inputSyncTimeout)). specialize (R4 (WithTimeout ctx inputSyncTimeout)). lia. }
  intros [e|] x5 [X5 _]; cbn [sess] in X5; pose proof (exchanged_inv _ _ X5 Is) as I5; [by apply wp_ret|].
  apply exchanged_learned in X5. assert (configured (sess x5) = false) as C5 by (by rewrite (le_rest _ _ X5)).
  apply wp_bind. eapply wp_mono; [by apply Learns_readInfo|]. intros r x6 L6.
  destruct (learned_closed _ _ L6 I5 C5) as [I6 C6]. destruct r as [e|]; [by apply wp_ret|].
  pose proof (le_rest _ _ (transitivity X5 L6)) as E6. apply finishOpenSession_wp; [done|by rewrite E6..].
Qed.

(** An open either hands over a session that holds what was asked for, or fails;
    then the session is retained exactly while something is left to clean up,
    and otherwise everything is released. *)
Definition open_post (config : openConfig) (r : bool * err) x : Prop :=
  Inv (sess x) /\ (snd r = None -> fst r = true /\ opened config (sess x)) /\ (snd r <> None -> settled r x).

Lemma newSession_inv identity c config : directions c -> Inv (newSession identity c config).
Proof. intros []. by split. Qed.

Lemma openSession_deferred_wp fuel ctx config identity c w :
  ctx_nil ctx = false -> directions c -> (remaining (WithTimeout ctx inputSyncTimeout) w < fuel)%nat ->
  wp (openSession_deferred fuel ctx config) (open_post config) (mkSt (newSession identity c config) w).
Proof.
  intros Hn Hd Hf. unfold openSession_deferred. apply wp_bind.
  eapply wp_mono; [apply openSession_body_wp; try done; by apply newSession_inv|]. intros [result e] x1 [I1 K1]. cbn [fst snd] in *.
  apply wp_bind, wp_ctxErr; [done|]. intros c' w' _. unfold settleOpenFailure. destruct (errors_Join _) as [e'|] eqn:Ej.
  - apply wp_bind. eapply wp_mono; [by apply closeAfterOpenFailure_wp|]. intros [retain cleanup] x2 (I2 & S2 & R2).
    apply wp_ret. split; [done|]. cbn [fst snd]. split; [|done]. intros []%errors_Join_Some.
  - apply errors_Join_None2 in Ej as [-> _]. apply wp_ret. by split_and!.
Qed.

(** The same of the function that makes the session. *)
Lemma openSession_wp fuel ctx options w :
  (remaining (WithTimeout ctx inputSyncTimeout) w < fuel)%nat ->
  wp (openSession fuel ctx options) (fun r w' =>
    match r with
    | (Some s, None) => Inv s /\ opened (fst (applyOptions options (mkOpenConfig false 0 second))) s
    | (Some s, Some _) => Inv s /\ CleanupPending (mkSt s w') = true
    | (None, e) => e <> None
    end) w.
Proof.
  intros Hf. unfold wp, openSession, prepareOpen. destruct (ctx_nil ctx) eqn:Hn.
  { destruct (CloseDevice w) as [c w1]. apply errors_Join_Some. }
  pose proof (timed_ctx (WithTimeout ctx inputSyncTimeout) ctx w) as R1.
  destruct (ctx_Err ctx w) as [[e|] w1]. { destruct (CloseDevice w1). apply errors_Join_Some. }
  destruct (applyOptions options (mkOpenConfig false 0 second)) as [config [e|]]; cbn [fst snd] in *.
  { destruct (CloseDevice w1). apply errors_Join_Some. }
  pose proof (timed_config (WithTimeout ctx inputSyncTimeout) ctx w1) as R2.
  destruct (ActiveConfiguration ctx w1) as [[cfg [e|]] w2]; cbn [fst snd] in *. { destruct (CloseDevice w2). apply errors_Join_Some. }
  destruct (findCommandInterface cfg) as [c [e|]] eqn:Ec. { destruct (CloseDevice w2). apply errors_Join_Some. }
  pose proof (openSession_deferred_wp fuel ctx config (Identity w2) c w2 Hn) as K. unfold wp in K.
  destruct (openSession_deferred _ _ _ _) as [[[result e] x]| |];
    [|apply K; [by eapply findCommandInterface_directions|lia]..].
  destruct K as (I & K1 & K2); [by eapply findCommandInterface_directions|lia|]. cbn [fst snd] in *.
  destruct result, e as [e|]; try done.
  - destruct K2 as (_ & E & _); [done|]. split; [done|]. by rewrite mkSt_eta.
  - by destruct K1.
  - by destruct K1.
Qed.
End Resync.
