(* ===== verification/CmsisRegFacts.v ===== *)
(** * Register transfers over any CMSIS-DAP host

    One transfer sends at most one command; its status and error always agree
    the way package dap requires; the transport's view of the selected bank and
    its ownership of ORUNDETECT follow what was answered. *)

From S2P Require Import Prelude Go Bits SwdFrame SwdConn SwdLifecycleFacts DapErrors Usb UsbHost Cmsis CmsisSwd CmsisRegister CmsisFacts CmsisSwdFacts CmsisLife.
Local Open Scope Z_scope.

(** ** Errors that say nothing about the debug port *)

Definition port_causes : list sentinel :=
  [dap_ErrIndeterminate; swd_ErrIndeterminate; dap_ErrNotExecuted; swd_ErrNotExecuted; dap_ErrWait; dap_ErrFault; swd_ErrParity].

Definition foreign (e : error) : Prop := Forall (fun s => Is e s = false) port_causes.
Definition foreign_err (e : err) : Prop := match e with Some e => foreign e | None => True end.

(** Membership in a literal list. *)
Ltac in_causes := unfold port_causes; repeat first [apply list_elem_of_here | apply list_elem_of_further].

(** USB errors do not mention the debug port. *)
Class UsbErrors (W : Type) `{UsbHost W} := {
  foreign_submit ctx ep d w : foreign_err (snd (fst (SubmitBulk ctx ep d w)));
  foreign_wait ctx t w : foreign_err (snd (fst (fst (Wait ctx t w))));
  foreign_abort ep w : foreign_err (fst (AbortBulk ep w))
}.

Lemma Is_causes es t : Forall (fun e => Is e t = false) es -> existsb (fun c => Is c t) es = false.
Proof. induction 1 as [|e es E _ IH]; simpl; [done|]. by rewrite E, IH. Qed.

Lemma foreign_causes es : Forall foreign es -> Forall (fun t => Forall (fun e => Is e t = false) es) port_causes.
Proof.
  intros F. apply Forall_forall. intros t Ht. eapply Forall_impl; [exact F|]. intros e Fe. unfold foreign in Fe.
  rewrite Forall_forall in Fe. by apply Fe.
Qed.

Lemma foreign_Errorf f es : Forall foreign es -> foreign (Errorf f es).
Proof. intros F%foreign_causes. eapply Forall_impl; [exact F|]. intros t. apply Is_causes. Qed.

Lemma foreign_Join es : Forall foreign es -> foreign (Join es).
Proof. intros F%foreign_causes. eapply Forall_impl; [exact F|]. intros t. apply Is_causes. Qed.

Lemma foreign_New m : foreign (New m).
Proof. repeat constructor. Qed.

Lemma foreign_errors_Join es : Forall foreign_err es -> foreign_err (errors_Join es).
Proof.
  intros F. unfold errors_Join. assert (Forall foreign (omap id es)) as K.
  { induction F as [|[e|] es E _ IH]; simpl; [constructor|by constructor|done]. }
  destruct (omap id es); [done|]. by apply foreign_Join.
Qed.

Lemma foreign_context c : foreign (Sentinel (context_Err c)).
Proof. destruct c; repeat constructor. Qed.

Lemma foreign_poisoned : foreign (Sentinel cmsisdap_ErrSessionPoisoned).
Proof. repeat constructor. Qed.

#[local] Hint Resolve foreign_New foreign_context foreign_poisoned foreign_Errorf foreign_Join : core.

(** Consistency ignores foreign causes. *)
Lemma consistent_causes status e :
  (is_nil e = true -> status = RegisterCompleted) ->
  (forall t, t ∈ port_causes -> errors_Is e t = false) -> registerStatusConsistent status e = true.
Proof.
  intros Hn Hc. unfold registerStatusConsistent. destruct (is_nil e) eqn:E; [by rewrite Hn|]. cbn [forallb].
  rewrite !Hc by in_causes. done.
Qed.

Lemma consistent_foreign status e : foreign e -> registerStatusConsistent status (Some e) = true.
Proof. intros F. apply consistent_causes; [done|]. unfold foreign in F. rewrite Forall_forall in F. apply F. Qed.

Lemma errors_Is_Join e c t : errors_Is c t = false -> errors_Is (errors_Join [e; c]) t = errors_Is e t.
Proof. intros Hc. destruct e as [e|], c as [c|]; cbn in *; rewrite ?Hc, ?orb_false_r; done. Qed.

Lemma consistent_join status e c :
  foreign_err c -> registerStatusConsistent status e = true -> registerStatusConsistent status (errors_Join [e; c]) = true.
Proof.
  intros F Hc. assert (forall t, t ∈ port_causes -> errors_Is c t = false) as Fc.
  { destruct c as [c|]; [|done]. simpl in F. unfold foreign in F. by rewrite Forall_forall in F. }
  destruct e as [e|].
  - revert Hc. unfold registerStatusConsistent. cbn [forallb].
    rewrite !errors_Is_Join by (apply Fc; in_causes).
    destruct (errors_Join [Some e; c]) eqn:E; [done|]. by apply errors_Join_Some in E.
  - apply consistent_causes.
    + intros _. by apply Z.eqb_eq in Hc.
    + intros t Ht. by rewrite errors_Is_Join by by apply Fc.
Qed.

Lemma consistent_indeterminate e :
  foreign e -> registerStatusConsistent RegisterIndeterminate (Some (Join [e; Sentinel dap_ErrIndeterminate])) = true.
Proof.
  intros F. unfold foreign in F. unfold registerStatusConsistent. cbn [forallb].
  assert (forall t, t ∈ [dap_ErrNotExecuted; swd_ErrNotExecuted] ->
    errors_Is (Some (Join [e; Sentinel dap_ErrIndeterminate])) t = false) as K.
  { intros t Ht. rewrite Forall_forall in F. cbn.
    apply elem_of_cons in Ht as [->|Ht]; [|apply list_elem_of_singleton in Ht as ->]; by rewrite F by in_causes. }
  rewrite (K dap_ErrNotExecuted), (K swd_ErrNotExecuted) by in_causes. cbn. by rewrite !orb_true_r.
Qed.

(** ** The errors of an exchange *)

Ltac each :=
  repeat match goal with |- Forall _ (_ :: _) => apply Forall_cons; split | |- Forall _ [] => constructor end; simpl; auto.

Lemma foreign_gone : foreign (Sentinel usb_ErrDeviceGone).
Proof. repeat constructor. Qed.

Lemma foreign_progress : foreign (Sentinel io_ErrNoProgress).
Proof. repeat constructor. Qed.

Section Errors.
Context {W : Type} `{Env W} `{UsbErrors W}.
Abbreviation M := (GoM (Cmsis.St (W := W))).

(** Every result of [m] satisfies [P]. *)
Definition Gives {A} (P : A -> Prop) (m : M A) : Prop := forall x, wlp m (fun a _ => P a) x.

Lemma Gives_ret {A} (P : A -> Prop) a : P a -> Gives P (mret a).
Proof. intros Ha x. by apply wlp_ret. Qed.

Lemma Gives_bind {A B} (P : A -> Prop) (Q : B -> Prop) (m : M A) (f : A -> M B) :
  Gives P m -> (forall a, P a -> Gives Q (f a)) -> Gives Q (mbind f m).
Proof. intros Hm Hf x. apply wlp_bind. eapply wlp_mono; [apply Hm|]. intros a x' Ha. by apply Hf. Qed.

Lemma Gives_any {A} (m : M A) : (forall x, m x <> Panicked) -> Gives (fun _ => True) m.
Proof. intros Hm x. specialize (Hm x). unfold wlp. by destruct (m x) as [[]| |]. Qed.

Lemma Gives_host {A} (P : A -> Prop) (f : W -> A * W) : (forall w, P (fst (f w))) -> Gives P (host f).
Proof. intros Hf x. unfold wlp, host. specialize (Hf (Cmsis.world x)). by destruct (f (Cmsis.world x)). Qed.

Lemma Gives_gets {A} (f : Cmsis.St -> A) : Gives (fun _ => True) (gets f).
Proof. intros x. by apply wlp_gets. Qed.

Lemma Gives_ctxErr ctx : ctx_nil ctx = false -> Gives foreign_err (Cmsis.ctxErr ctx).
Proof.
  intros Hn. unfold Cmsis.ctxErr. rewrite Hn. apply (Gives_bind (fun _ => True)); [by apply Gives_host|].
  intros [e|] _; by apply Gives_ret; simpl.
Qed.

Lemma Gives_transportReady ctx : Gives foreign_err (transportReady ctx).
Proof.
  unfold transportReady. apply (Gives_bind (fun _ => True)); [apply Gives_gets|]. intros s _.
  pose proof foreign_gone.
  destruct (negb (device s)); [apply Gives_ret; simpl; auto|]. destruct (negb (claim s)); [apply Gives_ret; simpl; auto|].
  destruct (poisoned s); [apply Gives_ret; simpl; auto|]. destruct (gone s); [by apply Gives_ret|].
  destruct (ctx_nil ctx) eqn:E; [apply Gives_ret; simpl; auto|]. by apply Gives_ctxErr.
Qed.

Lemma Gives_poison e : foreign e -> Gives foreign (poison e).
Proof. intros F x. apply wlp_bind, wlp_modify, wlp_ret. apply foreign_Join. each. Qed.

Lemma Gives_poisonWith es : Forall foreign_err es -> Gives foreign_err (poisonWith es).
Proof.
  intros F%foreign_errors_Join. unfold poisonWith. destruct (errors_Join es) as [e|]; [|by apply Gives_ret].
  apply (Gives_bind foreign); [by apply Gives_poison|]. intros a Fa. by apply Gives_ret.
Qed.

Lemma Gives_submissionError e : foreign e -> Gives foreign (submissionError e).
Proof. intros F x. by apply wlp_bind, wlp_modify, wlp_ret. Qed.

Lemma Gives_abortIn : Gives foreign_err abortIn.
Proof. apply (Gives_bind (fun _ => True)); [apply Gives_gets|]. intros a _. apply Gives_host. intros w. apply foreign_abort. Qed.

Lemma Gives_abortOut : Gives foreign_err abortOut.
Proof. apply (Gives_bind (fun _ => True)); [apply Gives_gets|]. intros a _. apply Gives_host. intros w. apply foreign_abort. Qed.

Lemma Gives_completeCommand ctx t size : Gives foreign_err (completeCommand ctx t size).
Proof.
  unfold completeCommand. apply (Gives_bind (fun r => foreign_err (snd (fst r)))); [apply Gives_host, foreign_wait|].
  intros [[count [e|]] d] F; cbn [fst snd] in F.
  - apply (Gives_bind foreign_err); [apply Gives_abortOut|]. intros e1 F1. apply (Gives_bind foreign_err); [apply Gives_abortIn|]. intros e2 F2.
    apply Gives_poisonWith. each. apply foreign_errors_Join. each.
  - case_match; [|by apply Gives_ret]. apply (Gives_bind foreign_err); [apply Gives_abortIn|]. intros e2 F2.
    apply Gives_poisonWith. each.
Qed.

Lemma Gives_completeResponse ctx t buffer : Gives (fun r => foreign_err (snd r)) (completeResponse ctx t buffer).
Proof.
  unfold completeResponse. apply (Gives_bind (fun r => foreign_err (snd (fst r)))); [apply Gives_host, foreign_wait|].
  intros [[count [e|]] d] F; cbn [fst snd] in F.
  - apply (Gives_bind foreign_err); [apply Gives_abortIn|]. intros e2 F2.
    apply (Gives_bind foreign_err); [apply Gives_poisonWith; each|]. intros e' F'. by apply Gives_ret.
  - repeat case_match; try (by apply Gives_ret); (apply (Gives_bind foreign); [|intros e' F'; by apply Gives_ret]);
      apply Gives_poison; auto. apply foreign_Errorf. each. apply foreign_progress.
Qed.

Lemma Gives_exchange ctx req : Gives (fun r => foreign_err (snd r)) (Cmsis.exchange ctx req).
Proof.
  unfold Cmsis.exchange, exchangeWithCompletion. cbn [default from_option].
  apply (Gives_bind (fun r => foreign_err (snd (fst r)))); [|intros [[r e] c] F; by apply Gives_ret].
  apply (Gives_bind foreign_err); [apply Gives_transportReady|]. intros [e|] F; [by apply Gives_ret|].
  apply (Gives_bind (fun _ => True)); [apply Gives_gets|]. intros packet _.
  case_match; [apply Gives_ret; simpl; auto|]. case_match; [apply Gives_ret; simpl; auto|].
  apply (Gives_bind (fun _ => True)); [apply Gives_gets|]. intros c _.
  apply (Gives_bind (fun r => foreign_err (snd r))); [apply Gives_host; intros w; apply foreign_submit|].
  intros [input [e|]] F1; cbn [snd] in F1.
  { apply (Gives_bind foreign); [apply Gives_submissionError, foreign_Errorf; each|]. intros e' F'. by apply Gives_ret. }
  apply (Gives_bind (fun r => foreign_err (snd r))); [apply Gives_host; intros w; apply foreign_submit|].
  intros [output [e|]] F2; cbn [snd] in F2.
  { apply (Gives_bind foreign); [apply Gives_submissionError, foreign_Errorf; each|]. intros e' F'.
    apply (Gives_bind foreign_err); [apply Gives_abortIn|]. intros [cl|] Fc; [|by apply Gives_ret].
    apply (Gives_bind foreign_err); [apply Gives_poisonWith; each|]. intros e2 Fe2. by apply Gives_ret. }
  apply (Gives_bind (fun _ => True)); [apply Gives_gets|]. intros timeout _.
  apply (Gives_bind foreign_err); [apply Gives_completeCommand|]. intros [e|] F3; [by apply Gives_ret|].
  apply (Gives_bind (fun r => foreign_err (snd r))); [apply Gives_completeResponse|]. intros r Fr. by apply Gives_ret.
Qed.
End Errors.

(** ** One transfer *)

Section Transfers.
Context {W : Type} `{Recorded W} `{!UsbErrors W}.
Implicit Types x : Cmsis.St (W := W).

(** What decoding a response may conclude. *)
Definition decoded x (r : Z * RegisterStatus * err) x' : Prop :=
  exchanged (sess x) (sess x') /\ Cmsis.world x' = Cmsis.world x /\
  registerStatusConsistent (snd (fst r)) (snd r) = true /\
  (poisoned (sess x') = true -> poisoned (sess x) = true \/ snd (fst r) = RegisterIndeterminate).

Lemma invalidRegisterResponse_wp x : wp invalidRegisterResponse (decoded x) x.
Proof. apply wp_bind, wp_poison, wp_ret. split_and!; first [done | apply exchanged_poison | by right]. Qed.

Lemma completedRegisterResponse_wp response read x : 3 <= len response -> wp (completedRegisterResponse response read) (decoded x) x.
Proof.
  intros L. unfold completedRegisterResponse. destruct (index response 1) as [n|] eqn:E.
  2: { pose proof (proj2 (index_is_Some response 1)) as K. rewrite E in K. destruct K; [lia|done]. }
  apply wp_bind. eapply wp_lift; [done|]. case_match; [apply invalidRegisterResponse_wp|]. apply wp_ret.
  split_and!; try done. by left.
Qed.

Lemma failedRegisterResponse_wp response request cause x :
  3 <= len response -> cause = dap_ErrWait \/ cause = dap_ErrFault ->
  wp (failedRegisterResponse response request cause) (decoded x) x.
Proof.
  intros L Hc. unfold failedRegisterResponse. destruct (index response 1) as [n|] eqn:E.
  2: { pose proof (proj2 (index_is_Some response 1)) as K. rewrite E in K. destruct K; [lia|done]. }
  apply wp_bind. eapply wp_lift; [done|].
  case_match; [apply wp_ret; split_and!; [done..|destruct Hc as [->| ->]; done|by left]|].
  case_match; [apply invalidRegisterResponse_wp|].
  destruct (any_bits request 2 && bool_decide (cause = dap_ErrFault)) eqn:Ef; apply wp_ret; split_and!; try done; try (by left).
  - apply andb_true_iff in Ef as [_ ->%bool_decide_eq_true]. done.
  - by destruct Hc as [->| ->].
Qed.

Lemma decodeRegisterResponse_wp response request x :
  wp (decodeRegisterResponse response request) (decoded x) x.
Proof.
  unfold decodeRegisterResponse. destruct (_ && _).
  { apply wp_ret. split_and!; try done. by left. }
  destruct (Z.ltb_spec (len response) 3); [apply invalidRegisterResponse_wp|].
  assert (forall i, 0 <= i < 3 -> exists v, index response i = Some v) as K.
  { intros i Hi. apply index_is_Some. lia. }
  destruct (K 0) as [c ->]; [lia|]. destruct (K 1) as [n ->]; [lia|]. destruct (K 2) as [st ->]; [lia|].
  apply wp_bind. eapply wp_lift; [done|]. apply wp_bind. eapply wp_lift; [done|].
  case_match; [apply invalidRegisterResponse_wp|]. apply wp_bind. eapply wp_lift; [done|].
  destruct (st =? 1); [by apply completedRegisterResponse_wp|]. destruct (st =? 2); [apply failedRegisterResponse_wp; auto|].
  destruct (st =? 4); [apply failedRegisterResponse_wp; auto|]. match goal with |- context [if ?b then mret _ else invalidRegisterResponse] => destruct b end; [|apply invalidRegisterResponse_wp].
  apply wp_ret. split_and!; try done. by left.
Qed.

Definition transfer_command (request data : Z) : list Z :=
  [commandTransfer; 0; 1; request] ++ (if any_bits request 2 then [] else le_bytes 4 data).

(** At most the one command was sent; a poisoned session knows nothing. *)
Definition transfer_post (request data : Z) x (r : Z * RegisterStatus * err) x' : Prop :=
  exchanged (sess x) (sess x') /\ registerStatusConsistent (snd (fst r)) (snd r) = true /\
  (sent (Cmsis.world x') = sent (Cmsis.world x) /\
     (snd (fst r) = RegisterUnsent \/ snd (fst r) = RegisterIndeterminate /\ poisoned (sess x') = true) \/
   sent (Cmsis.world x') = sent (Cmsis.world x) ++ [transfer_command request data] /\
     (poisoned (sess x') = true -> snd (fst r) = RegisterIndeterminate)).

Lemma transferRegister_body_wp ctx request data x :
  Inv (sess x) -> wp (transferRegister_body ctx request data) (transfer_post request data x) x.
Proof.
  intros I. unfold transferRegister_body. apply wp_bind, wp_gets. case_match.
  { apply wp_ret. split_and!; try done. left. auto. }
  apply wp_bind. pose proof (wp_and _ _ _ _ (exchange_wp ctx (transfer_command request data) x I)
    (wp_of_wlp _ _ _ _ (Gives_exchange ctx (transfer_command request data) x) (exchange_wp ctx (transfer_command request data) x I))) as K.
  eapply wp_mono; [exact K|]. clear K. intros [resp e] x1 [[[X1 K1] _] F]. cbn [fst snd] in *.
  destruct e as [e|].
  - apply wp_bind, wp_gets. destruct (poisoned (sess x1)) eqn:Ep; apply wp_ret.
    + split_and!; [done|by apply consistent_indeterminate|]. cbn [fst snd]. destruct K1 as [K1|[_ K1]]; [left|right]; auto.
    + split_and!; [done|by apply consistent_foreign|]. cbn [fst snd]. destruct K1 as [K1|[K1 _]]; [left; auto|congruence].
  - destruct K1 as (_ & _ & E1 & P1 & _ & _ & S1). eapply wp_mono; [apply decodeRegisterResponse_wp|].
    intros r x2 (X2 & W2 & C2 & P2). split_and!; [by transitivity (sess x1)|done|]. right. rewrite W2. split; [done|].
    intros Hp. destruct (P2 Hp); [congruence|done].
Qed.

Lemma transportReady_wp ctx x :
  wp (transportReady ctx) (fun e x' => (sess x' = sess x /\ sent (Cmsis.world x') = sent (Cmsis.world x) /\
    (e = None -> ctx_nil ctx = false)) /\ foreign_err e) x.
Proof.
  assert (wp (transportReady ctx) (fun e x' => sess x' = sess x /\ sent (Cmsis.world x') = sent (Cmsis.world x) /\
    (e = None -> ctx_nil ctx = false)) x) as K by (apply wp_transportReady; [intros e w Hw|intros w Hw Hn _ _ _ _]; done).
  apply wp_and; [done|]. eapply wp_of_wlp; [apply Gives_transportReady|exact K].
Qed.

Lemma transferRegister_wp ctx request data x :
  Inv (sess x) -> wp (transferRegister ctx request data) (transfer_post request data x) x.
Proof.
  intros I. unfold transferRegister. apply wp_bind. eapply wp_mono; [apply transportReady_wp|].
  intros [e|] x1 [(E1 & S1 & N1) F1].
  { apply wp_ret. split_and!; [by rewrite E1|by apply consistent_foreign|]. left. auto. }
  apply wp_bind, wp_gets. case_match.
  { apply wp_ret. split_and!; [by rewrite E1|done|]. left. auto. }
  apply wp_bind. eapply wp_mono; [apply transferRegister_body_wp; by rewrite E1|].
  intros [[v st] e] x2 (X2 & C2 & K2). rewrite E1, S1 in *. cbn [fst snd] in *.
  assert (wp (Cmsis.ctxErr ctx) (fun c x' => (sess x' = sess x2 /\ sent (Cmsis.world x') = sent (Cmsis.world x2)) /\ foreign_err c) x2) as Kc.
  { assert (wp (Cmsis.ctxErr ctx) (fun c x' => sess x' = sess x2 /\ sent (Cmsis.world x') = sent (Cmsis.world x2)) x2) as K
      by (apply wp_ctxErr; [by apply N1|]; done).
    apply wp_and; [done|]. eapply wp_of_wlp; [apply Gives_ctxErr; by apply N1|exact K]. }
  apply wp_bind. eapply wp_mono; [exact Kc|]. intros c x3 [[E3 S3] F3]. apply wp_ret. unfold transfer_post. rewrite E3, S3.
  split_and!; [done|by apply consistent_join|done].
Qed.

(** ** Protocol entry *)

(** The session is the same but for the stream, and commands were only added. *)
Definition grown x x' : Prop :=
  exchanged (sess x) (sess x') /\ exists l, sent (Cmsis.world x') = sent (Cmsis.world x) ++ l.

#[global] Instance grown_preorder : PreOrder grown.
Proof.
  split; [intros x; split; [done|exists []; by rewrite app_nil_r]|].
  intros a b c [X1 [l1 S1]] [X2 [l2 S2]]. split; [by transitivity (sess b)|]. exists (l1 ++ l2). by rewrite S2, S1, <- app_assoc.
Qed.

Lemma grown_same x x' : exchanged (sess x) (sess x') -> sent (Cmsis.world x') = sent (Cmsis.world x) -> grown x x'.
Proof. intros X S. split; [done|]. exists []. by rewrite app_nil_r. Qed.

Lemma grown_exchange req x resp e x' : exchange_post req x resp e x' -> grown x x'.
Proof.
  intros [X K]. split; [done|]. destruct e as [e|].
  - destruct K as [K|[_ K]]; [exists []; by rewrite app_nil_r|eauto].
  - destruct K as (_ & _ & _ & _ & _ & _ & K). eauto.
Qed.

Lemma grown_inv x x' : grown x x' -> Inv (sess x) -> Inv (sess x').
Proof. intros [X _]. by apply exchanged_inv. Qed.

Lemma all_driven_spec dir bits : 0 <= bits -> bits <= 8 * len dir -> is_Some (all_driven dir bits).
Proof.
  intros Hb Hl. unfold all_driven.
  destruct (for_range_inv (fun _ (_ : bool) => True) (fun (bit : Z) (all : bool) => if all then swdBit dir bit else Some false) bits true)
    as (r & -> & _); [done| |done|eauto].
  intros i [|] Hi _; [|eauto]. rewrite swdBit_spec by lia. eauto.
Qed.

Lemma swjOutput_wp ctx dir out bits x :
  Inv (sess x) -> wp (swjOutput ctx dir out bits) (fun _ x' => grown x x') x.
Proof.
  intros I. unfold swjOutput. change ((bits + 7) / 8) with (bytes_for bits).
  destruct (Z.leb_spec bits 0), (Z.ltb_spec 256 bits), (Z.ltb_spec (len dir) (bytes_for bits)), (Z.ltb_spec (len out) (bytes_for bits));
    cbn [orb]; try by apply wp_ret.
  pose proof (bytes_for_bound bits) as Bb. destruct (all_driven_spec dir bits) as [all Ea]; [lia..|].
  apply wp_bind. eapply wp_lift; [exact Ea|]. destruct (negb all); [by apply wp_ret|].
  apply wp_bind. eapply wp_mono; [apply transportReady_wp|]. intros e x1 [(E1 & S1 & N1) _]. assert (grown x x1) as G1 by (apply grown_same; [by rewrite E1|done]).
  destruct e as [e|]; [by apply wp_ret|].
  apply wp_bind, wp_gets. case_match; [by apply wp_ret|]. case_match; [by apply wp_ret|].
  destruct (packSWDBits_spec out 0 bits) as (d & Ed & _); [lia..|]. apply wp_bind. unfold swj_body.
  apply wp_bind. eapply wp_lift; [exact Ed|]. apply wp_bind. eapply wp_mono; [apply exchange_wp; by rewrite E1|].
  intros [resp e] x2 [K2%grown_exchange _].
  assert (grown x x2) as G2 by by transitivity x1.
  assert (forall (r : list Z * err) y, grown x y ->
    wp ('(input, e) ← mret r; c ← Cmsis.ctxErr ctx; mret (input, errors_Join [e; c])) (fun _ x' => grown x x') y) as Fin.
  { intros r y Y. apply wp_bind, wp_ret. destruct r. apply wp_bind, wp_ctxErr; [by apply N1|]. intros c w Hw. apply wp_ret.
    transitivity y; [done|]. by apply grown_same. }
  destruct e as [e|]; [by apply (Fin ([], Some e))|].
  apply wp_bind. eapply wp_mono; [apply validateStatusResponse_wp|]. intros [e|] x3 (X3 & W3 & _);
    [apply (Fin ([], Some e))|apply (Fin (make_bytes ((bits + 7) / 8), None))]; (transitivity x2; [done|]); apply grown_same; by rewrite ?W3.
Qed.

(** The wire that [enter] uses never takes its default. *)
Lemma swjOutput_returns ctx dir out bits x :
  Inv (sess x) -> exists r x', swjOutput ctx dir out bits x = Done (r, x') /\ grown x x'.
Proof.
  intros I. pose proof (swjOutput_wp ctx dir out bits x I) as K. unfold wp in K.
  destruct (swjOutput ctx dir out bits x) as [[r x']| |]; [|done..]. eauto.
Qed.
End Transfers.

(** ** The transport *)

Section Transport.
Context {W : Type} `{Recorded W} `{!UsbErrors W}.
Implicit Types s : RSt (W := W).
Abbreviation R := (GoM (RSt (W := W))).

Definition rsess s : Session := sess (session s).
Definition rsent s : list (list Z) := sent (Cmsis.world (session s)).

Lemma wp_on_session {A} (m : GoM (Cmsis.St (W := W)) A) (Q : A -> RSt -> Prop) s :
  wp m (fun a x => Q a (mkRSt (reg s) x)) (session s) -> wp (on_session m) Q s.
Proof. unfold wp, on_session. by destruct (m (session s)) as [[a x]| |]. Qed.

Lemma enter_wp ctx s :
  Inv (rsess s) -> ctx_nil ctx = false ->
  wp (enter ctx) (fun _ s' => grown (session s) (session s') /\ reg s' = reg s) s.
Proof.
  intros I Hn. unfold wp, enter, JTAGToSWD, enterSWD, mbind, GoM_bind, cmod, modify.
  destruct enter_seq_ok as [seq ->]. unfold lift, SwdConn.exchange, mbind, GoM_bind, cget, gets. cbn [SwdConn.conn].
  change (wire (requireRepair (SwdConn.New_ true []))) with true. cbn [negb].
  destruct (validateCompletion _) as [e|]; [done|]. unfold SwdConn.ctxErr. pose proof (sent_ctx ctx (Cmsis.world (session s))) as Sc. rewrite Hn. cbn [SwdConn.world ctx_Err session_env].
  destruct (ctx_Err ctx (Cmsis.world (session s))) as [e w]. cbn [snd] in Sc.
  assert (grown (session s) (Cmsis.mkSt (sess (session s)) w)) as G by by apply grown_same.
  destruct e as [e|]; [done|].
  unfold wireIO. cbn [SwdConn.world SwdConn.conn SwdConn.SWDIO swjWire].
  destruct (swjOutput_returns ctx (direction seq) (output seq) (bits seq) (Cmsis.mkSt (sess (session s)) w) I) as ([inp e] & x' & -> & X).
  assert (grown (session s) x') as Gx by by etransitivity. destruct e as [e|]; [done|].
  by destruct (len inp <? (bits seq + 7) / 8).
Qed.

(** A step that leaves the transport's own state alone. *)
Definition steps s s' : Prop := grown (session s) (session s') /\ reg s' = reg s.

#[global] Instance steps_preorder : PreOrder steps.
Proof. split; [done|]. intros a b c [G1 E1] [G2 E2]. split; [by transitivity (session b)|congruence]. Qed.

Lemma steps_inv s s' : steps s s' -> Inv (rsess s) -> Inv (rsess s').
Proof. intros [G _]. by apply grown_inv. Qed.

Lemma statusCommand_wp ctx c rest s :
  Inv (rsess s) ->
  wp (statusCommand ctx (c :: rest)) (fun e s' => steps s s' /\ (e = None -> rsent s' = rsent s ++ [c :: rest])) s.
Proof.
  intros I. unfold statusCommand. apply wp_bind, wp_on_session. eapply wp_mono; [by apply exchange_wp|].
  intros [resp e] x1 [K1 N1]. pose proof (grown_exchange _ _ _ _ _ K1) as G1. destruct K1 as [X1 K1]. cbn [fst snd] in *.
  destruct e as [e|]; [by apply wp_ret|]. destruct K1 as (_ & _ & E1 & _ & _ & _ & S1).
  change (index (c :: rest) 0) with (Some c). apply wp_bind. eapply wp_lift; [done|]. apply wp_bind, wp_on_session. cbn [session].
  eapply wp_mono; [apply validateStatusResponse_wp|]. intros e x2 (X2 & W2 & _).
  apply wp_bind, wp_on_session, wp_ctxErr; [by apply N1|]. intros c' w Hw. apply wp_ret. cbn [session Cmsis.world sess] in *.
  split; [split; [|done]|].
  - transitivity x1; [done|]. apply grown_same; cbn; [done|by rewrite Hw, W2].
  - intros _. unfold rsent. cbn. by rewrite Hw, W2, S1.
Qed.

Lemma setGrammar_wp ctx o s :
  Inv (rsess s) ->
  wp (setGrammar ctx o) (fun e s' => steps s s' /\ (e = None -> rsent s' = rsent s ++ [[0x13; if o : bool then 4 else 0]])) s.
Proof. apply statusCommand_wp. Qed.

(** One transfer within an operation. *)
Lemma register_wp ctx request data s :
  Inv (rsess s) ->
  wp (on_session (transferRegister ctx request data)) (fun r s' => steps s s' /\
    (snd (fst r) = RegisterCompleted -> rsent s' = rsent s ++ [transfer_command request data]) /\
    (snd r = None -> snd (fst r) = RegisterCompleted)) s.
Proof.
  intros I. apply wp_on_session. eapply wp_mono; [by apply transferRegister_wp|]. intros [[v st] e] x (X & C & K). cbn [fst snd] in *.
  split_and!.
  - split; [|done]. split; [done|]. destruct K as [[K _]|[K _]]; [exists []; by rewrite app_nil_r|eauto].
  - intros ->. by destruct K as [[_ [K|[K _]]]|[K _]].
  - intros ->. by apply Z.eqb_eq in C.
Qed.

Lemma ready_wp ctx s :
  wp (ready ctx) (fun e s' => steps s s' /\ (e = None -> ctx_nil ctx = false)) s.
Proof.
  unfold ready. apply wp_bind, wp_on_session. eapply wp_mono; [apply transportReady_wp|]. intros e x [(E & S & N) _].
  assert (steps s (mkRSt (reg s) x)) as St by (split; [apply grown_same; cbn [session]; [by rewrite E|done]|done]).
  destruct e as [e|]; [by apply wp_ret|]. apply wp_bind, wp_on_session, wp_gets, wp_ret. split; [done|]. intros _. by apply N.
Qed.

(** What [prepare] leaves of the transport. *)
Record prepared (r r' : RegisterSWD) : Prop := {
  pr_known : known r' = known r;
  pr_original : originalOverrun r' = originalOverrun r;
  pr_identity : known r = true -> identity r' = identity r
}.

#[global] Instance prepared_preorder : PreOrder prepared.
Proof. split; [done|]. intros a b c [K1 O1 I1] [K2 O2 I2]. split; [congruence|congruence|]. intros K. rewrite I2; [by apply I1|congruence]. Qed.

Definition prepares s s' : Prop := grown (session s) (session s') /\ prepared (reg s) (reg s').

#[global] Instance prepares_preorder : PreOrder prepares.
Proof. split; [done|]. intros a b c [G1 E1] [G2 E2]. split; [by transitivity (session b)|by transitivity (reg b)]. Qed.

Lemma steps_prepares s s' : steps s s' -> prepares s s'.
Proof. intros [G E]. split; [done|]. by rewrite E. Qed.

Lemma prepares_inv s s' : prepares s s' -> Inv (rsess s) -> Inv (rsess s').
Proof. intros [G _]. by apply grown_inv. Qed.

Lemma prepare_writes_wp ctx id s :
  Inv (rsess s) -> (known (reg s) = true -> id = identity (reg s)) ->
  wp (prepare_writes ctx id) (fun r s' => prepares s s' /\ (snd r = None -> identity (reg s') = id)) s.
Proof.
  intros I Hid. unfold prepare_writes. apply wp_bind, wp_modify. set (s0 := mkRSt _ _).
  assert (prepares s s0) as P0 by (split; [done|]; by split).
  assert (identity (reg s0) = id) as Ei by done. clearbody s0.
  apply wp_bind. eapply wp_mono; [apply register_wp; by eapply prepares_inv|]. intros [[v1 st1] e1] s1 [S1 _].
  assert (prepares s s1) as P1 by (transitivity s0; [done|by apply steps_prepares]).
  destruct e1 as [e1|]; [by apply wp_ret|]. apply wp_bind. eapply wp_mono; [apply register_wp; by eapply prepares_inv|].
  intros [[v2 st2] e2] s2 [S2 _]. assert (prepares s s2) as P2 by (transitivity s1; [done|by apply steps_prepares]).
  destruct e2 as [e2|]; [by apply wp_ret|]. apply wp_bind. eapply wp_mono; [apply register_wp; by eapply prepares_inv|].
  intros [[v3 st3] e3] s3 [S3 _]. apply wp_ret. split; [transitivity s2; [done|by apply steps_prepares]|]. intros _.
  by rewrite (proj2 S3), (proj2 S2), (proj2 S1).
Qed.

Lemma prepare_wp ctx s :
  Inv (rsess s) ->
  wp (prepare ctx) (fun r s' => prepares s s' /\ (snd r = None -> ctx_nil ctx = false /\ Z.odd (identity (reg s')) = true)) s.
Proof.
  intros I. unfold prepare. apply wp_bind. eapply wp_mono; [apply ready_wp|]. intros e s1 [S1 N1].
  assert (prepares s s1) as P1 by by apply steps_prepares. destruct e as [e|]; [by apply wp_ret|]. specialize (N1 eq_refl).
  apply wp_bind, wp_modify. set (s2 := mkRSt _ _). assert (prepares s s2) as P2 by (transitivity s1; [done|]; split; [done|]; by split).
  clearbody s2. apply wp_bind. eapply wp_mono; [apply statusCommand_wp; by eapply prepares_inv|]. intros e s3 [S3 _].
  assert (prepares s s3) as P3 by (transitivity s2; [done|by apply steps_prepares]). destruct e as [e|]; [by apply wp_ret|].
  apply wp_bind. eapply wp_mono; [apply setGrammar_wp; by eapply prepares_inv|]. intros e s4 [S4 _].
  assert (prepares s s4) as P4 by (transitivity s3; [done|by apply steps_prepares]). destruct e as [e|]; [by apply wp_ret|].
  apply wp_bind. eapply wp_mono; [apply enter_wp; [by eapply prepares_inv|done]|]. intros e s5 S5.
  assert (prepares s s5) as P5 by (transitivity s4; [done|by apply steps_prepares]). destruct e as [e|]; [by apply wp_ret|].
  apply wp_bind. eapply wp_mono; [apply register_wp; by eapply prepares_inv|]. intros [[id st] e] s6 [S6 _].
  assert (prepares s s6) as P6 by (transitivity s5; [done|by apply steps_prepares]). destruct e as [e|]; [by apply wp_ret|].
  apply wp_bind, wp_gets. destruct (Z.land id 1 =? 0) eqn:Eo; cbn [orb]; [by apply wp_ret|].
  destruct (known (reg s6) && negb (id =? identity (reg s6))) eqn:Ek; [by apply wp_ret|].
  eapply wp_mono; [apply prepare_writes_wp; [by eapply prepares_inv|]|].
  { intros K. rewrite K in Ek. cbn [andb] in Ek. apply negb_false_iff, Z.eqb_eq in Ek. done. }
  intros r s7 [P7 N7]. split; [by transitivity s6|]. intros Hr. split; [done|]. rewrite N7 by done.
  apply Z.eqb_neq in Eo. change 1 with (Z.ones 1) in Eo. rewrite Z.land_ones, Zmod_odd in Eo by lia. by destruct (Z.odd id).
Qed.

Lemma observeOverrun_wp ctx want s :
  Inv (rsess s) ->
  wp (observeOverrun ctx want) (fun r s' => steps s s' /\ (snd r = None -> fst r = true) /\
    (fst r = true -> rsent s' = rsent s ++ [transfer_command 6 0])) s.
Proof.
  intros I. unfold observeOverrun. apply wp_bind. eapply wp_mono; [by apply register_wp|]. intros [[v st] e] s' (S & K & N). cbn [fst snd] in *.
  destruct (Z.eqb_spec st RegisterCompleted) as [->|Hst]; cbn [negb].
  - case_match; apply wp_ret; (split; [done|]); cbn [fst snd]; [|split; auto].
    split; [|done]. intros ?%errors_Join_None2. naive_solver.
  - apply wp_ret. split; [done|]. cbn [fst snd]. split; [|done]. intros E. by destruct Hst; apply N.
Qed.

Lemma disableOverrun_wp ctx state s : Inv (rsess s) -> wp (disableOverrun ctx state) (fun _ s' => steps s s') s.
Proof.
  intros I. unfold disableOverrun. case_match; [by apply wp_ret|].
  apply wp_bind. eapply wp_mono; [by apply setGrammar_wp|]. intros [e|] s1 [S1 _]; [by apply wp_ret|].
  apply wp_bind. eapply wp_mono; [apply register_wp; by eapply steps_inv|]. intros [[v st] e] s2 [S2 _].
  assert (steps s s2) as S02 by by transitivity s1. destruct e as [e|]; [by apply wp_ret|].
  eapply wp_mono; [apply setGrammar_wp; by eapply steps_inv|]. intros e s3 [S3 _]. by transitivity s2.
Qed.

(** Connecting records once what it must restore; success owns the port with
    bank zero selected. *)
Definition connect_post s (r : Z * err) s' : Prop :=
  grown (session s) (session s') /\
  (known (reg s) = true -> known (reg s') = true /\ originalOverrun (reg s') = originalOverrun (reg s) /\ identity (reg s') = identity (reg s)) /\
  (snd r = None -> active (reg s') = true /\ known (reg s') = true /\ bankKnown (reg s') = true /\ bank (reg s') = 0 /\
     identity (reg s') = fst r /\ Z.odd (fst r) = true).

Lemma prepares_owned s s' : prepares s s' -> known (reg s) = true ->
  known (reg s') = true /\ originalOverrun (reg s') = originalOverrun (reg s) /\ identity (reg s') = identity (reg s).
Proof. intros [_ [K O I]] E. split_and!; [congruence|done|by apply I]. Qed.

Lemma Connect_wp ctx s : Inv (rsess s) -> wp (Connect ctx) (connect_post s) s.
Proof.
  intros I. unfold Connect. apply wp_bind. eapply wp_mono; [by apply prepare_wp|]. intros [state e] s1 [P1 N1]. cbn [fst snd] in N1.
  pose proof (prepares_owned _ _ P1) as O1. destruct e as [e|]; [apply wp_ret; split_and!; [apply P1|done|done]|].
  destruct (N1 eq_refl) as [Hn Ho]. apply wp_bind, wp_modify. set (s2 := mkRSt _ _).
  assert (known (reg s2) = true /\ identity (reg s2) = identity (reg s1) /\ (known (reg s) = true -> reg s2 = reg s1)) as (K2 & I2 & E2).
  { subst s2. cbn [reg]. destruct (known (reg s1)) eqn:K; [done|]. split_and!; try done. intros E. destruct (O1 E). congruence. }
  assert (grown (session s) (session s2)) as G2 by apply P1. clearbody s2.
  assert (Inv (rsess s2)) as Is2 by by eapply grown_inv.
  apply wp_bind. eapply wp_mono; [by apply disableOverrun_wp|]. intros e s3 [G3 R3].
  assert (grown (session s) (session s3)) as G03 by by transitivity (session s2).
  assert (known (reg s) = true -> known (reg s3) = true /\ originalOverrun (reg s3) = originalOverrun (reg s) /\ identity (reg s3) = identity (reg s)) as O3.
  { intros E. rewrite R3, E2 by done. by apply O1. }
  destruct e as [e|]; [apply wp_ret; by split_and!|].
  apply wp_bind. eapply wp_mono; [apply observeOverrun_wp; by eapply grown_inv|]. intros [obs e] s4 [[G4 R4] _].
  rewrite <- R4 in O3. assert (grown (session s) (session s4)) as G04 by by transitivity (session s3).
  destruct e as [e|]; [apply wp_ret; by split_and!|].
  apply wp_bind, wp_modify, wp_bind, wp_gets, wp_ret. cbn [reg]. split_and!; [done|done|]. intros _. cbn [fst snd].
  change (active (set_bank 0 true (set_active true (reg s4)))) with true. rewrite R4, R3. split_and!; try done. cbn. by rewrite I2.
Qed.

(** Ownership of ORUNDETECT ends only with the write that puts the target's
    setting back, and a read that shows it. *)
Definition release_post s (e : err) s' : Prop :=
  grown (session s) (session s') /\
  (known (reg s) = false -> e = None /\ s' = s) /\
  (e = None -> known (reg s') = false) /\
  (known (reg s) = true -> known (reg s') = false ->
     active (reg s') = false /\ exists l want, any_bits want 1 = originalOverrun (reg s) /\
       rsent s' = rsent s ++ l ++ [transfer_command 4 want; [0x13; if originalOverrun (reg s) then 4 else 0]; transfer_command 6 0]) /\
  (known (reg s') = true -> originalOverrun (reg s') = originalOverrun (reg s)).

Lemma overrun_want state (o : bool) :
  any_bits (if o then Z.lor (and_not state 1) 1 else and_not state 1) 1 = o.
Proof.
  change 1 with (2 ^ 0) at 4. rewrite any_bits_bit by lia. destruct o.
  - by rewrite Z.lor_spec, orb_true_r.
  - unfold and_not. by rewrite Z.ldiff_spec, andb_false_r.
Qed.

Lemma release_stop s e s' : known (reg s) = true -> prepares s s' -> release_post s (Some e) s'.
Proof.
  intros K P. destruct (prepares_owned _ _ P K) as (K' & O & _). split_and!; try done; try congruence. apply P.
Qed.

Lemma Release_wp ctx s : Inv (rsess s) -> wp (Release ctx) (release_post s) s.
Proof.
  intros I. unfold Release. apply wp_bind, wp_gets. destruct (known (reg s)) eqn:K; cbn [negb].
  2: { apply wp_ret. split_and!; try done; congruence. }
  apply wp_bind. eapply wp_mono; [by apply prepare_wp|]. intros [state e] s1 [P1 _].
  destruct e as [e|]; [apply wp_ret; by apply release_stop|].
  apply wp_bind. eapply wp_mono; [apply setGrammar_wp; by eapply prepares_inv|]. intros e s2 [S2 _].
  assert (prepares s s2) as P2 by (transitivity s1; [done|by apply steps_prepares]).
  destruct e as [e|]; [apply wp_ret; by apply release_stop|].
  apply wp_bind. eapply wp_mono; [apply register_wp; by eapply prepares_inv|]. intros [[v st] e] s3 (S3 & C3 & N3). cbn [fst snd] in *.
  assert (prepares s s3) as P3 by (transitivity s2; [done|by apply steps_prepares]).
  destruct e as [e|]; [apply wp_ret; by apply release_stop|]. specialize (C3 (N3 eq_refl)).
  apply wp_bind. eapply wp_mono; [apply setGrammar_wp; by eapply prepares_inv|]. intros e s4 [S4 C4].
  assert (prepares s s4) as P4 by (transitivity s3; [done|by apply steps_prepares]).
  destruct e as [e|]; [apply wp_ret; by apply release_stop|]. specialize (C4 eq_refl).
  apply wp_bind. eapply wp_mono; [apply observeOverrun_wp; by eapply prepares_inv|]. intros [restored e] s5 (S5 & N5 & C5). cbn [fst snd] in *.
  assert (prepares s s5) as P5 by (transitivity s4; [done|by apply steps_prepares]).
  destruct restored.
  - specialize (C5 eq_refl). apply wp_bind, wp_modify, wp_ret. split_and!; try done; [apply P5|congruence|].
    intros _ _. split; [done|]. destruct P2 as [[_ [l L]] _].
    eexists l, _. split; [apply (overrun_want state (originalOverrun (reg s)))|].
    unfold rsent in *. cbn [session]. rewrite C5, C4, C3, L, <- !app_assoc. done.
  - apply wp_bind, wp_ret, wp_ret. destruct e as [e|]; [by apply release_stop|]. by specialize (N5 eq_refl).
Qed.

(** A DP write at offset four that the transport may send. *)
Definition permitted (addr flags value : Z) (r : RegisterSWD) : Prop :=
  addr = 4 -> flags = 0 -> bankKnown r = true /\ (bank r = 0 -> any_bits value 1 = false) /\
    (bank r = 1 -> any_bits value (Z.shiftl 3 8) = false).

Lemma validateFramingWrite_None addr flags value r : validateFramingWrite addr flags value r = None -> permitted addr flags value r.
Proof.
  unfold validateFramingWrite. intros E -> ->. cbn in E. destruct (bankKnown r); [|done]. cbn [negb] in E. split; [done|].
  split; intros Eb; rewrite Eb in E; cbn in E; by destruct (any_bits _ _).
Qed.

(** What one register access has done, and what the transport believes after it. *)
Definition access_post (addr flags value : Z) s (r : Z * RegisterStatus * err) s' : Prop :=
  let status := snd (fst r) in
  grown (session s) (session s') /\ registerStatusConsistent status (snd r) = true /\
  (rsent s' = rsent s /\ status <> RegisterCompleted /\ status <> RegisterRejected \/
   rsent s' = rsent s ++ [transfer_command (Z.lor addr flags) value] /\ active (reg s) = true /\ permitted addr flags value (reg s)) /\
  known (reg s') = known (reg s) /\ originalOverrun (reg s') = originalOverrun (reg s) /\
  (addr = 8 /\ flags = 0 ->
     (status = RegisterCompleted -> bank (reg s') = Z.land value 15 /\ bankKnown (reg s') = true) /\
     (status = RegisterIndeterminate -> bankKnown (reg s') = false)) /\
  (status = RegisterUnsent \/ status = RegisterRejected \/ addr <> 8 \/ flags <> 0 ->
     bank (reg s') = bank (reg s) /\ bankKnown (reg s') = bankKnown (reg s)) /\
  (active (reg s') = true -> active (reg s) = true /\
     (status = RegisterIndeterminate -> errors_Is (snd r) dap_ErrFault = true)).

Lemma observeBank_spec addr flags value status r :
  let r' := observeBank addr flags value status r in
  known r' = known r /\ originalOverrun r' = originalOverrun r /\ active r' = active r /\
  (addr = 8 /\ flags = 0 -> (status = RegisterCompleted -> bank r' = Z.land value 15 /\ bankKnown r' = true) /\
     (status = RegisterIndeterminate -> bankKnown r' = false)) /\
  (status = RegisterUnsent \/ status = RegisterRejected \/ addr <> 8 \/ flags <> 0 -> bank r' = bank r /\ bankKnown r' = bankKnown r).
Proof.
  unfold observeBank. destruct (Z.eqb_spec addr 8), (Z.eqb_spec flags 0); cbn [negb orb];
    [|split_and!; try done; lia..].
  destruct (Z.eqb_spec status RegisterCompleted) as [->|]; [split_and!; try done; intros [?|[?|[?|?]]]; done|].
  destruct (Z.eqb_spec status RegisterIndeterminate) as [->|]; split_and!; try done; intros [?|[?|[?|?]]]; done.
Qed.

Lemma transfer_wp ctx addr flags value s :
  Inv (rsess s) -> wp (transfer ctx addr flags value) (access_post addr flags value s) s.
Proof.
  intros I. unfold transfer. apply wp_bind, wp_gets.
  destruct (active (reg s)) eqn:Ea; cbn [negb orb].
  2: { apply wp_ret. split_and!; first [done | by left | congruence]. }
  destruct (any_bits addr _). { apply wp_ret. split_and!; try done. by left. }
  destruct (validateFramingWrite addr flags value (reg s)) as [e|] eqn:Ev.
  { apply wp_ret. split_and!; try done; [by apply consistent_foreign; revert Ev; unfold validateFramingWrite; repeat case_match; intros [= <-]|by left]. }
  apply validateFramingWrite_None in Ev.
  apply wp_bind, wp_on_session. eapply wp_mono; [by apply transferRegister_wp|]. intros [[v st] e] x (X & C & K). cbn [fst snd] in *.
  apply wp_bind, wp_modify. cbn [reg session].
  destruct (observeBank_spec addr flags value st (reg s)) as (K1 & K2 & K3 & K4 & K5).
  assert (grown (session s) x) as G.
  { split; [done|]. destruct K as [[K _]|[K _]]; [exists []; by rewrite app_nil_r|eauto]. }
  assert (rsent (mkRSt (reg s) x) = rsent s /\ st <> RegisterCompleted /\ st <> RegisterRejected \/
    rsent (mkRSt (reg s) x) = rsent s ++ [transfer_command (Z.lor addr flags) value] /\ active (reg s) = true /\ permitted addr flags value (reg s)) as Sx.
  { destruct K as [[K [->|[-> _]]]|[K _]]; [by left..|by right]. }
  apply wp_bind. destruct ((st =? RegisterIndeterminate) && negb (errors_Is e dap_ErrFault)) eqn:Ed.
  - apply wp_modify, wp_ret. cbn [reg session]. split_and!; try done.
  - apply wp_ret, wp_ret. unfold access_post. cbn [reg session fst snd]. split_and!; try done. rewrite K3. intros _. split; [done|]. cbn [fst snd]. intros ->.
    cbn in Ed. by destruct (errors_Is e dap_ErrFault).
Qed.
End Transport.
