(* ===== verification/CmsisProps.v ===== *)
(** * The contract of CMSIS-DAP sessions *)

From S2P Require Import Prelude Go Bits Mpsse FtdiFacts SwdConn DapErrors Usb UsbHost Cmsis CmsisSwd CmsisRegister CmsisFacts CmsisSwdFacts CmsisLife CmsisRegFacts.
Local Open Scope Z_scope.

(** ** A host to evaluate on *)

(** It acknowledges every command and runs out of time after [ticks] questions. *)
Record Ack := mkAck { last_command : list Z; ticks : nat }.

#[global] Instance Ack_Env : Env Ack := {
  ctx_Err _ a := match ticks a with
                 | O => (Some DeadlineExceeded, a)
                 | S n => (None, mkAck (last_command a) n)
                 end
}.

Definition acknowledge (command : list Z) : list Z :=
  match command with
  | c :: _ => [uint8 c; if c =? commandConnect then portSWD else statusOK]
  | [] => []
  end.

#[global] Instance Ack_UsbHost : UsbHost Ack := {
  Identity _ := mkDeviceInfo 0 0 0 0 [] [];
  ActiveConfiguration _ a := ((noConfiguration, None), a);
  claimInterface _ a := (None, a);
  SetAltSetting _ a := (None, a);
  claimEndpoint _ _ a := ((noEndpoint, None), a);
  SubmitBulk _ endpoint data a :=
    if any_bits endpoint 0x80 then ((0%nat, None), a) else ((1%nat, None), mkAck data (ticks a));
  Wait _ handle a :=
    if (handle =? 0)%nat then (len (acknowledge (last_command a)), None, acknowledge (last_command a), a)
    else (len (last_command a), None, [], a);
  Aborted _ _ := false;
  AbortBulk _ a := (None, a);
  CloseClaim a := (None, a);
  claimCleanupPending := None;
  CloseDevice a := (None, a);
  deviceCleanupPending := None
}.

#[global] Instance Ack_bytes : DeliversBytes Ack.
Proof.
  intros ctx t a. simpl. destruct (t =? 0)%nat; [|constructor]. cbn [fst snd]. unfold acknowledge.
  destruct (last_command a) as [|c l]; [constructor|]. repeat constructor; [apply is_byte_uint8..| |]; by case_match.
Qed.

#[global] Instance Ack_errors : UsbErrors (Traced Ack).
Proof.
  split; intros; simpl; unfold traced; simpl; repeat case_match; by simplify_eq/=.
Qed.

#[global] Instance Ack_timed : Timed (Traced Ack).
Proof.
  refine {| remaining _ t := ticks (base t) |}.
  - intros ctx w. simpl. unfold traced. simpl. destruct (ticks (base w)); [done|]. simpl. lia.
  - intros _ ctx' w. simpl. unfold traced. simpl. destruct (ticks (base w)) eqn:E; simpl; lia.
  - intros. simpl. by destruct (any_bits ep 0x80).
  - intros. simpl. unfold traced. simpl. by destruct (t =? 0)%nat.
  - done. - done. - done. - done. - done.
Defined.

Definition bench_info : Info := with_Capabilities [1] (with_ProtocolVersion [49; 46; 50] (newInfo (mkDeviceInfo 0 0 0 0 [] []))).

Definition bench_session (c g : bool) : Session :=
  mkSession true true
    (mkCommand 0 0 (mkEndpoint 0x02 TransferBulk 64) (mkEndpoint 0x81 TransferBulk 64) noEndpoint)
    64 bench_info false false c g 1000000 None second.

Lemma bench_inv c g : (g = true -> c = true) -> Inv (bench_session c g).
Proof. intros Hg. by split. Qed.

Definition bench_state (c g : bool) : Cmsis.St (W := Traced Ack) := Cmsis.mkSt (bench_session c g) (mkTraced (mkAck [] 100) []).

(** ** SWD streams *)

(** C24: over a probe that executes DAP_SWD_Sequence, SWDIO is the stream itself:
    whatever the target is, it is clocked with exactly the host's bits in order,
    released wherever the direction says so, and the returned buffer holds its
    sample at each undriven bit and zero elsewhere.  Only streams that end
    undriven, or have a target-driven phase no packet can hold, are outside. *)
Theorem cmsis_swdio_exact {T} (wire : bool * bool -> T -> bool * T) ctx direction output bits s (p : Probe wire) :
  usable s -> ctx_nil ctx = false -> configured s = true ->
  protocolSupportsSWDSequence (ProtocolVersion (info s)) = true -> 4 <= packetSize s ->
  0 < bits <= maxSWDTransferBits -> bits <= 8 * len direction -> bits <= 8 * len output ->
  gbit direction (bits - 1) = true -> ~ oversized direction bits (packetSize s) ->
  exists input samples p', CmsisSwd.SWDIO ctx direction output bits (Cmsis.mkSt s p) = Done ((input, None), Cmsis.mkSt s p') /\
    clocks wire (undriven <$> stream direction output 0 bits) (target p) = (samples, target p') /\
    bytes input /\ len input = bytes_for bits /\
    forall j, 0 <= j -> gbit input j = (j <? bits) && negb (gbit direction j) && sample_at samples j.
Proof. apply SWDIO_usable. Qed.

(** A target that answers each clock with its parity so far. *)
Definition parity_wire (x : bool * bool) (t : bool) : bool * bool := let t := xorb t (xorb (fst x) (snd x)) in (t, t).

Lemma bench_runs_fit : ~ oversized [0x0f; 0x0f] 12 64.
Proof.
  intros (p & w & Hp & _ & _ & R & F). apply not_true_iff_false in F. apply F. apply swdCaptureFits_true.
  pose proof (run_in _ _ _ _ R). pose proof (run_pos _ _ _ _ R). unfold bytes_for. Z.to_euclidean_division_equations; lia.
Qed.

Lemma cmsis_swdio_exact_witness :
  exists input samples (p' : Probe parity_wire),
    CmsisSwd.SWDIO Background [0x0f; 0x0f] [0x05; 0x03] 12 (Cmsis.mkSt (bench_session true true) (mkProbe false [] 0)) =
      Done ((input, None), Cmsis.mkSt (bench_session true true) p') /\
    clocks parity_wire (undriven <$> stream [0x0f; 0x0f] [0x05; 0x03] 0 12) false = (samples, target p').
Proof.
  destruct (cmsis_swdio_exact parity_wire Background [0x0f; 0x0f] [0x05; 0x03] 12 (bench_session true true) (mkProbe false [] 0))
    as (input & samples & p' & E & C & _); try by vm_compute.
  - exact bench_runs_fit.
  - by exists input, samples, p'.
Defined.

(** Planning an SWD stream returns, and refuses only a stream that ends
    undriven or a target-driven phase that no packet can hold.  Otherwise every
    request and response fits one packet, and for any target the probe's answers
    to the requests, in order, are the status and the target's samples of
    exactly this stream; no packet ends inside a target-driven phase. *)
Theorem cmsis_plan_exact (direction output : list Z) (bits packet : Z) :
  0 < bits -> bits <= 8 * len direction -> bits <= 8 * len output -> 4 <= packet ->
  (exists e, planSWDStream direction output bits packet = Some ([], Some e) /\
     (gbit direction (bits - 1) = false \/ oversized direction bits packet)) \/
  (exists packets, planSWDStream direction output bits packet = Some (packets, None) /\
     plan direction output bits packet 0 packets /\
     Forall (fun pk => 1 <= len (request pk) <= packet) packets /\
     forall T (wire : bool * bool -> T -> bool * T) t,
     exists responses samples t', dap_swd_sequence_all wire (request <$> packets) t = (responses, t') /\
       clocks wire (undriven <$> stream direction output 0 bits) t = (samples, t') /\
       Forall2 (response_for packet (sample_at samples)) responses packets).
Proof.
  intros Hb Hd Ho Hp. destruct (planSWDStream_spec direction output bits packet) as [(packets & E & P)|(e & E & K)]; try done;
    [right; exists packets|left; eauto]. split_and!; try done; [by eapply plan_requests|].
  intros T wire t. destruct (plan_executes _ _ _ _ _ _ P) as [_ Ex].
  destruct (Ex T wire t) as (resps & samples & t' & E1 & E2 & F). rewrite Z.sub_0_r in E2. exists resps, samples, t'.
  split_and!; try done. eapply Forall2_impl; [exact F|]. intros r pk (d & -> & C & L). exists d. split_and!; try done.
  eapply captured_eq; [|exact C]. intros j. cbv beta. by rewrite Z.sub_0_r.
Qed.



(** ** Lifecycle *)



(** Configuring the SWD port returns with the port connected at the
    requested clock, by exactly the commands for it, after giving back a port
    that was connected; or with an error, and then the session is as it was or
    not configured.  Ownership stays consistent throughout. *)
Theorem cmsis_configure_contract {W} `{Recorded W} ctx hz (x : Cmsis.St (W := W)) :
  Inv (sess x) -> wp (ConfigureSWD ctx hz) (ConfigureSWD_post hz x) x.
Proof. apply ConfigureSWD_wp. Qed.

(** Opening a session returns before its deadline's budget is used up.
    Without error the session holds the device and its interface, with the port
    configured if that was asked for; with one, the session is retained exactly
    while something is left to clean up, and otherwise everything is released. *)
Theorem cmsis_open_contract {W} `{Recorded W} `{!Timed W} fuel ctx config identity c (w : W) :
  ctx_nil ctx = false -> directions c -> (remaining (WithTimeout ctx inputSyncTimeout) w < fuel)%nat ->
  wp (openSession_deferred fuel ctx config) (open_post config) (Cmsis.mkSt (newSession identity c config) w).
Proof. apply openSession_deferred_wp. Qed.

(** ** Register transfers *)

Definition bench_register (a k : bool) : RegisterSWD := mkRegister a k false 0x2ba01477 0 true.

Definition bench_transport (a k : bool) : RSt (W := Traced Ack) := mkRSt (bench_register a k) (bench_state true true).

(** C27: a register access sends at most its one command, and none that would
    take ORUNDETECT or the turnaround away from the transport or write an unknown
    bank; a completed or rejected status means it was sent.  Status and error
    always agree the way package dap requires, for any host whose USB errors do
    not mention the debug port.  The selected bank is known only as the last
    SELECT write left it, and an indeterminate access ends the activation unless
    it is a fault. *)
Theorem cmsis_register_access {W} `{Recorded W} `{!UsbErrors W} ctx addr flags value (s : RSt (W := W)) :
  Inv (rsess s) -> wp (transfer ctx addr flags value) (access_post addr flags value s) s.
Proof. apply transfer_wp. Qed.

Lemma cmsis_register_access_witness :
  wp (transfer Background 4 0 1) (access_post 4 0 1 (bench_transport true true)) (bench_transport true true) /\
  match transfer Background 4 0 1 (bench_transport true true) with
  | Done (r, s) => snd (fst r) = RegisterUnsent /\ rsent s = []
  | _ => False
  end.
Proof. split; [|by vm_compute]. apply (cmsis_register_access Background 4 0 1 (bench_transport true true)). by apply bench_inv. Defined.

(** Releasing the register transport gives up its claim on ORUNDETECT only
    after writing the target's own setting back and reading it, and then it is
    inactive; a release without error has done so, an unowned transport is left
    alone, and a failed release still knows what to restore. *)
Theorem cmsis_register_release {W} `{Recorded W} `{!UsbErrors W} ctx (s : RSt (W := W)) :
  Inv (rsess s) -> wp (CmsisRegister.Release ctx) (release_post s) s.
Proof. apply Release_wp. Qed.

(** Connecting the register transport records the target's ORUNDETECT and
    identity once: a later connection keeps both, and refuses another target.
    Success leaves it active with bank zero selected and a valid identity. *)
Theorem cmsis_register_connect {W} `{Recorded W} `{!UsbErrors W} ctx (s : RSt (W := W)) :
  Inv (rsess s) -> wp (CmsisRegister.Connect ctx) (CmsisRegFacts.connect_post s) s.
Proof. apply CmsisRegFacts.Connect_wp. Qed.

