(* ===== verification/JLink.v ===== *)
(** * J-Link sessions (jlink/discovery.go, types.go, transport.go, resync.go,
    session.go)

    One application interface of a USB device: a byte stream in each direction,
    probe metadata, opening and closing. *)

From S2P Require Import Prelude Go Bits Usb UsbHost.
Local Open Scope Z_scope.

Definition commandVersion : Z := 0x01.
Definition commandInterface : Z := 0xc7.
Definition commandWorkspace : Z := 0xd4.
Definition commandCapabilitiesShort : Z := 0xe8.
Definition commandCapabilitiesLong : Z := 0xed.
Definition commandHardwareVersion : Z := 0xf0.
Definition capabilityHardwareVersion : Z := 1.
Definition capabilityWorkspace : Z := 11.
Definition capabilityInterface : Z := 17.
Definition capabilityLong : Z := 31.
Definition interfaceSWD : Z := 1.
Definition interfaceJTAG : Z := 0.
Definition second : Z := 1_000_000_000.
Definition inputQuietInterval : Z := 100_000_000.
Definition inputSyncTimeout : Z := second.

(** ** The application interface (discovery.go) *)

Definition SEGGER : Z := 0x1366.

Definition supportedPIDs : list Z :=
  [0x0101; 0x0102; 0x0103; 0x0104; 0x0105; 0x0107; 0x0108;
   0x1010; 0x1011; 0x1012; 0x1013; 0x1014; 0x1015; 0x1016; 0x1017; 0x1018;
   0x1020; 0x1024; 0x1025;
   0x1050; 0x1051; 0x1052; 0x1053; 0x1054; 0x1055; 0x1056; 0x1057; 0x1058; 0x1059;
   0x1060; 0x1061; 0x1062; 0x1063; 0x1064; 0x1065; 0x1066; 0x1067; 0x1068; 0x1069].

Definition supportedDevice (d : DeviceInfo) : bool :=
  (VID d =? SEGGER) && existsb (fun pid => PID d =? pid) supportedPIDs.

(** candidates.go *)
Definition Candidates (devices : list DeviceInfo) : list DeviceInfo := filter (fun d => supportedDevice d = true) devices.

Record applicationInterface := mkApplication {
  number : Z; alternate_ : Z; bulkIn : Endpoint; bulkOut : Endpoint
}.

Definition noApplication : applicationInterface := mkApplication 0 0 noEndpoint noEndpoint.

Definition usableBulkEndpoint (e : Endpoint) : bool :=
  any_bits (Address e) 0x0f && bool_decide (ep_Type e = TransferBulk) && negb (MaxPacketSize e =? 0).

Definition applicationCandidate (n : Z) (a : AlternateSetting) : option applicationInterface :=
  if negb (Class_ a =? 0xff) || negb (Subclass a =? 0xff) || negb (Protocol a =? 0xff) then None
  else match Endpoints a with
  | [first; second] =>
      if negb (usableBulkEndpoint first) || negb (usableBulkEndpoint second) ||
         (Z.land (Address first) 0x80 =? Z.land (Address second) 0x80) then None
      else
        let result := if any_bits (Address first) 0x80 then mkApplication n (alt_Number a) first second
                      else mkApplication n (alt_Number a) second first in
        if negb (Address (bulkOut result) =? 0) then Some result else None
  | _ => None
  end.

Definition matches_ (c : Configuration) : list applicationInterface :=
  Interfaces c ≫= fun i => omap (applicationCandidate (if_Number i)) (Alternates i).

Definition findApplicationInterface (c : Configuration) : applicationInterface * err :=
  match matches_ c with
  | [] => (noApplication, Some (New "jlink: active USB configuration has no J-Link application interface"))
  | [m] => (m, None)
  | _ => (noApplication, Some (New "jlink: active USB configuration has %d J-Link application interfaces"))
  end.

(** ** Metadata (types.go) *)

(** [Capabilities.Has]; a capability set is its bytes. *)
Definition Has (c : list Z) (bit : Z) : bool :=
  (0 <=? bit) && (bit <? len c * 8) && any_bits (default 0 (c !! Z.to_nat (bit / 8))) (Z.shiftl 1 (bit mod 8)).

Record HardwareVersion := mkHardware { Raw : Z; hw_Type : Z; Major : Z; Minor : Z; Revision : Z }.

Definition decodeHardwareVersion (raw : Z) : HardwareVersion :=
  mkHardware raw (uint8 (raw / 1_000_000 mod 100)) (uint8 (raw / 10_000 mod 100)) (uint8 (raw / 100 mod 100)) (uint8 (raw mod 100)).

(** The first byte as a backslash, an x and two hexadecimal digits. *)
Definition hex_digit (d : Z) : Z := if d <? 10 then 48 + d else 87 + d.
Definition escaped (b : Z) : list Z := [0x5c; 0x78; hex_digit (b / 16); hex_digit (b mod 16)].

Fixpoint until_nul (record : list Z) : list Z :=
  match record with
  | [] => []
  | b :: record => if b =? 0 then [] else b :: until_nul record
  end.

Fixpoint firmware_loop (n : nat) (record result : list Z) : list Z :=
  match n, record with
  | S n, b :: rest =>
      match rune_size record with
      | O => firmware_loop n rest (result ++ escaped b)
      | size => firmware_loop n (drop size record) (result ++ take size record)
      end
  | _, _ => result
  end.

Definition firmwareString (record : list Z) : list Z := firmware_loop (length record) (until_nul record) [].

Record Info := mkInfo {
  info_USB : DeviceInfo;
  Firmware : list Z;
  FirmwareRecord : list Z;
  Hardware : HardwareVersion;
  HardwareKnown : bool;
  info_Capabilities : list Z;
  Workspace : Z;
  WorkspaceKnown : bool;
  AvailableInterfaces : Z;
  SelectedInterface : Z;
  SelectedInterfaceKnown : bool
}.

Definition newInfo (d : DeviceInfo) : Info := mkInfo d [] [] (mkHardware 0 0 0 0 0) false [] 0 false 0 0 false.

Definition with_Firmware r f (i : Info) : Info :=
  mkInfo (info_USB i) f r (Hardware i) (HardwareKnown i) (info_Capabilities i) (Workspace i) (WorkspaceKnown i) (AvailableInterfaces i) (SelectedInterface i) (SelectedInterfaceKnown i).
Definition with_Hardware h (i : Info) : Info :=
  mkInfo (info_USB i) (Firmware i) (FirmwareRecord i) h true (info_Capabilities i) (Workspace i) (WorkspaceKnown i) (AvailableInterfaces i) (SelectedInterface i) (SelectedInterfaceKnown i).
Definition with_Capabilities c (i : Info) : Info :=
  mkInfo (info_USB i) (Firmware i) (FirmwareRecord i) (Hardware i) (HardwareKnown i) c (Workspace i) (WorkspaceKnown i) (AvailableInterfaces i) (SelectedInterface i) (SelectedInterfaceKnown i).
Definition with_Workspace w (i : Info) : Info :=
  mkInfo (info_USB i) (Firmware i) (FirmwareRecord i) (Hardware i) (HardwareKnown i) (info_Capabilities i) w true (AvailableInterfaces i) (SelectedInterface i) (SelectedInterfaceKnown i).
Definition with_Available a (i : Info) : Info :=
  mkInfo (info_USB i) (Firmware i) (FirmwareRecord i) (Hardware i) (HardwareKnown i) (info_Capabilities i) (Workspace i) (WorkspaceKnown i) a (SelectedInterface i) (SelectedInterfaceKnown i).
Definition with_Selected x k (i : Info) : Info :=
  mkInfo (info_USB i) (Firmware i) (FirmwareRecord i) (Hardware i) (HardwareKnown i) (info_Capabilities i) (Workspace i) (WorkspaceKnown i) (AvailableInterfaces i) x k.

Inductive Option_ :=
| NoOption
| WithSWD (maxClockHz : Z)
| WithJTAG (maxClockHz : Z).

Record openConfig := mkOpenConfig { configure : bool; interfaceID : Z; cfg_maxClockHz : Z }.

Definition withInterface (maxClockHz target : Z) (c : openConfig) : openConfig * err :=
  if maxClockHz <? 1_000 then (c, Some (New "target clock ceiling must be at least 1 kHz"))
  else if configure c && negb (interfaceID c =? target) then (c, Some (New "SWD and JTAG options cannot be combined"))
  else (mkOpenConfig true target maxClockHz, None).

(** [option.apply(&config)] *)
Definition apply (o : Option_) (c : openConfig) : openConfig * err :=
  match o with
  | NoOption => (c, None)
  | WithSWD hz => withInterface hz interfaceSWD c
  | WithJTAG hz => withInterface hz interfaceJTAG c
  end.

Fixpoint options_loop (l : list Option_) (c : openConfig) : openConfig * err :=
  match l with
  | [] => (c, None)
  | o :: l =>
      match apply o c with
      | (_, Some e) => (mkOpenConfig false 0 0, Some (Errorf "jlink: option %d: %w" [e]))
      | (c, None) => options_loop l c
      end
  end.

Definition applyOptions (l : list Option_) : openConfig * err := options_loop l (mkOpenConfig false 0 0).

(** ** The session *)

Record Session := mkSession {
  device : bool;
  claim : bool;
  application : applicationInterface;
  input : list Z;
  info : Info;
  poisoned : bool;
  configured : bool;
  clockHz : Z;
  transferBits : Z;
  delayInput : bool;
  inputCarry : bool;
  probeOwned : bool;
  scanFailed : bool;
  gone : bool;
  closing : bool
}.

Definition set_device x (s : Session) : Session :=
  mkSession x (claim s) (application s) (input s) (info s) (poisoned s) (configured s) (clockHz s) (transferBits s) (delayInput s) (inputCarry s) (probeOwned s) (scanFailed s) (gone s) (closing s).
Definition set_claim x (s : Session) : Session :=
  mkSession (device s) x (application s) (input s) (info s) (poisoned s) (configured s) (clockHz s) (transferBits s) (delayInput s) (inputCarry s) (probeOwned s) (scanFailed s) (gone s) (closing s).
Definition set_application x (s : Session) : Session :=
  mkSession (device s) (claim s) x (input s) (info s) (poisoned s) (configured s) (clockHz s) (transferBits s) (delayInput s) (inputCarry s) (probeOwned s) (scanFailed s) (gone s) (closing s).
Definition set_input x (s : Session) : Session :=
  mkSession (device s) (claim s) (application s) x (info s) (poisoned s) (configured s) (clockHz s) (transferBits s) (delayInput s) (inputCarry s) (probeOwned s) (scanFailed s) (gone s) (closing s).
Definition set_info x (s : Session) : Session :=
  mkSession (device s) (claim s) (application s) (input s) x (poisoned s) (configured s) (clockHz s) (transferBits s) (delayInput s) (inputCarry s) (probeOwned s) (scanFailed s) (gone s) (closing s).
Definition set_poisoned x (s : Session) : Session :=
  mkSession (device s) (claim s) (application s) (input s) (info s) x (configured s) (clockHz s) (transferBits s) (delayInput s) (inputCarry s) (probeOwned s) (scanFailed s) (gone s) (closing s).
Definition set_configured x (s : Session) : Session :=
  mkSession (device s) (claim s) (application s) (input s) (info s) (poisoned s) x (clockHz s) (transferBits s) (delayInput s) (inputCarry s) (probeOwned s) (scanFailed s) (gone s) (closing s).
Definition set_clock x b (s : Session) : Session :=
  mkSession (device s) (claim s) (application s) (input s) (info s) (poisoned s) (configured s) x b (delayInput s) (inputCarry s) (probeOwned s) (scanFailed s) (gone s) (closing s).
Definition set_delayInput x (s : Session) : Session :=
  mkSession (device s) (claim s) (application s) (input s) (info s) (poisoned s) (configured s) (clockHz s) (transferBits s) x (inputCarry s) (probeOwned s) (scanFailed s) (gone s) (closing s).
Definition set_inputCarry x (s : Session) : Session :=
  mkSession (device s) (claim s) (application s) (input s) (info s) (poisoned s) (configured s) (clockHz s) (transferBits s) (delayInput s) x (probeOwned s) (scanFailed s) (gone s) (closing s).
Definition set_probeOwned x (s : Session) : Session :=
  mkSession (device s) (claim s) (application s) (input s) (info s) (poisoned s) (configured s) (clockHz s) (transferBits s) (delayInput s) (inputCarry s) x (scanFailed s) (gone s) (closing s).
Definition set_scanFailed x (s : Session) : Session :=
  mkSession (device s) (claim s) (application s) (input s) (info s) (poisoned s) (configured s) (clockHz s) (transferBits s) (delayInput s) (inputCarry s) (probeOwned s) x (gone s) (closing s).
Definition set_gone x (s : Session) : Session :=
  mkSession (device s) (claim s) (application s) (input s) (info s) (poisoned s) (configured s) (clockHz s) (transferBits s) (delayInput s) (inputCarry s) (probeOwned s) (scanFailed s) x (closing s).
Definition set_closing x (s : Session) : Session :=
  mkSession (device s) (claim s) (application s) (input s) (info s) (poisoned s) (configured s) (clockHz s) (transferBits s) (delayInput s) (inputCarry s) (probeOwned s) (scanFailed s) (gone s) x.

Definition RestorationPossible (s : Session) : bool := device s && negb (closing s) && negb (gone s) && negb (poisoned s).

Definition sessionReady (s : Session) : err :=
  if negb (device s) || closing s then Some (New "jlink: session is closed")
  else if negb (claim s) then Some (New "jlink: application interface is closed")
  else if gone s then Some (Sentinel usb_ErrDeviceGone)
  else if poisoned s then Some (Sentinel jlink_ErrSessionPoisoned)
  else None.

(** Little-endian words of a response. *)
Definition le32 (l : list Z) : option Z := if len l <? 4 then None else Some (le_value (take 4 l)).
Definition le16 (l : list Z) : option Z := if len l <? 2 then None else Some (le_value (take 2 l)).

Section Ops.
Context {W : Type} `{Env W} `{UsbHost W}.

Record St := mkSt { sess : Session; world : W }.

Abbreviation M := (GoM St).

Definition sget {A} (f : Session -> A) : M A := gets (fun s => f (sess s)).
Definition smod (f : Session -> Session) : M unit := modify (fun s => mkSt (f (sess s)) (world s)).
Definition host {A} (f : W -> A * W) : M A := fun s => let (a, w) := f (world s) in Done (a, mkSt (sess s) w).

(** [ctx.Err()]; a nil context panics. *)
Definition ctxAsk (ctx : context) : M (option ctxError) := if ctx_nil ctx then panic else host (ctx_Err ctx).
Definition ctxErr (ctx : context) : M err := e ← ctxAsk ctx; mret (option_map (fun e => Sentinel (context_Err e)) e).

Definition recordLoss (e : err) : M unit :=
  smod (fun s => if errors_Is e usb_ErrDeviceGone then set_gone true s else s).

Definition poison (e : error) : M error :=
  smod (set_poisoned true);;
  mret (Join [e; Sentinel jlink_ErrSessionPoisoned]).

Definition CleanupPending (s : St) : bool :=
  claim (sess s) && cleanupPending claimCleanupPending (world s) ||
  device (sess s) && cleanupPending deviceCleanupPending (world s).

(** *** Transfers (transport.go) *)

Definition transportReady (ctx : context) : M err :=
  e ← sget sessionReady;
  match e with
  | Some e => mret (Some e)
  | None => if ctx_nil ctx then mret (Some (New "jlink: nil transfer context")) else ctxErr ctx
  end.

(** The error of a transfer that the context's end has interrupted. *)
Definition transferError (ctx : context) (e : error) : M error :=
  c ← ctxAsk ctx;
  if match c with Some c => Is e (context_Err c) | None => false end then mret e
  else
    c ← ctxErr ctx;
    mret (default e (errors_Join [Some e; c])).

(** The buffer is returned as an IN transfer leaves it. *)
Definition bulkTransfer (ctx : context) (endpoint : Z) (buffer : list Z) : M (Z * err * list Z) :=
  '(transfer, e) ← host (SubmitBulk ctx endpoint buffer);
  recordLoss e;;
  match e with
  | Some e => mret (0, Some e, buffer)
  | None =>
      '(count, e, data) ← host (Wait ctx transfer);
      recordLoss e;;
      match e with
      | None => mret (count, None, received data buffer)
      | Some e =>
          c ← ctxAsk ctx;
          match c with
          | None => e ← poison e; mret (count, Some e, received data buffer)
          | Some _ =>
              transferErr ← transferError ctx e;
              abortErr ← host (AbortBulk endpoint);
              recordLoss abortErr;;
              match abortErr with
              | Some a => e ← poison (Join [transferErr; a]); mret (0, Some e, received data buffer)
              | None =>
                  '(_, completionErr, _) ← host (Wait Background transfer);
                  e ← poison (default transferErr (errors_Join [Some transferErr; completionErr]));
                  mret (0, Some e, received data buffer)
              end
          end
      end
  end.

(** A turn sends at least one byte. *)
Fixpoint write_loop (n : nat) (ctx : context) (data : list Z) (position : Z) : M err :=
  if len data <=? position then mret None
  else match n with
  | O => out_of_fuel
  | S n =>
      endpoint ← sget (fun s => Address (bulkOut (application s)));
      '(count, e, _) ← bulkTransfer ctx endpoint (drop (Z.to_nat position) data);
      if (count <? 0) || (len data - position <? count) then
        e ← poison (New "jlink: invalid bulk-write count %d for %d bytes"); mret (Some e)
      else match e with
      | Some e => if negb (position =? 0) then e ← poison e; mret (Some e) else mret (Some e)
      | None =>
          if count =? 0 then e ← poison (Sentinel io_ErrNoProgress); mret (Some e)
          else write_loop n ctx data (position + count)
      end
  end.

Definition writeExact (ctx : context) (data : list Z) : M err :=
  e ← transportReady ctx;
  match e with
  | Some e => mret (Some e)
  | None => write_loop (length data) ctx data 0
  end.

Definition readBulk (ctx : context) : M (list Z * err) :=
  a ← sget (fun s => bulkIn (application s));
  let buffer := make_bytes (MaxPacketSize a) in
  '(count, e, buffer) ← bulkTransfer ctx (Address a) buffer;
  match e with
  | Some e => mret ([], Some e)
  | None =>
      if (count <? 0) || (len buffer <? count)
      then mret ([], Some (New "jlink: invalid bulk-read count %d for %d bytes"))
      else mret (take (Z.to_nat count) buffer, None)
  end.

(** [response] is the part already filled. *)
Fixpoint read_loop (n : nat) (ctx : context) (size : Z) (response : list Z) (zeroLength : bool) : M (list Z * err) :=
  if size <=? len response then mret (response, None)
  else match n with
  | O => out_of_fuel
  | S n =>
      pending ← sget input;
      if negb (len pending =? 0) then
        let count := Nat.min (Z.to_nat (size - len response)) (length pending) in
        smod (set_input (drop count pending));;
        read_loop n ctx size (response ++ take count pending) zeroLength
      else
        '(data, e) ← readBulk ctx;
        match e with
        | Some e => mret ([], Some e)
        | None =>
            if len data =? 0 then
              if zeroLength then mret ([], Some (Sentinel io_ErrNoProgress))
              else read_loop n ctx size response true
            else
              smod (set_input data);;
              read_loop n ctx size response false
        end
  end.

(** Two empty packets in a row end the loop, so three turns fill a byte. *)
Definition readExact (ctx : context) (size : Z) : M (list Z * err) :=
  if size <? 0 then mret ([], Some (New "jlink: negative response size %d"))
  else
    e ← transportReady ctx;
    match e with
    | Some e => mret ([], Some e)
    | None => read_loop (3 * Z.to_nat size) ctx size [] false
    end.

Definition readResponsePart (ctx : context) (size : Z) : M (list Z * err) :=
  '(response, e) ← readExact ctx size;
  match e with
  | None => mret (response, None)
  | Some e =>
      if Is e jlink_ErrSessionPoisoned then mret (response, Some e)
      else e ← poison e; mret ([], Some e)
  end.

Definition readResponse (ctx : context) (size : Z) : M (list Z * err) :=
  '(response, e) ← readResponsePart ctx size;
  match e with
  | Some e => mret ([], Some e)
  | None =>
      pending ← sget input;
      if negb (len pending =? 0) then
        e ← poison (New "jlink: response leaves an unexpected %d-byte remainder"); mret ([], Some e)
      else mret (response, None)
  end.

Definition exchange (ctx : context) (request : list Z) (responseSize : Z) : M (list Z * err) :=
  e ← writeExact ctx request;
  match e with
  | Some e => mret ([], Some e)
  | None => readResponse ctx responseSize
  end.
End Ops.
