(* ===== verification/JLinkWire.v ===== *)
(** * SWD and JTAG over a J-Link (jlink/swd.go, jtag.go)

    Configuring the target interface, and scans. *)

From S2P Require Import Prelude Go Bits Usb UsbHost JLink.
Local Open Scope Z_scope.

Definition commandClockDescribe : Z := 0xc0.
Definition commandScanV3 : Z := 0xcf.
Definition commandClockSet : Z := 0x05.
Definition capabilityClock : Z := 9.
Definition defaultTransferBits : Z := 504.
Definition minimumSWDFrameBits : Z := 136.

(** ** Bits *)

Definition streamBit (stream : list Z) (bit : Z) : option bool :=
  b ← index stream (bit / 8); Some (any_bits b (Z.shiftl 1 (bit mod 8))).

Definition setStreamBit (stream : list Z) (bit : Z) (value : bool) : option (list Z) :=
  let mask := uint8 (Z.shiftl 1 (bit mod 8)) in
  b ← index stream (bit / 8);
  store stream (bit / 8) (if value then Z.lor b mask else and_not b mask).

Definition maskUnusedBits (stream : list Z) (bits : Z) : option (list Z) :=
  let remainder := bits mod 8 in
  if remainder =? 0 then Some stream
  else b ← index stream (len stream - 1); store stream (len stream - 1) (Z.land b (Z.shiftl 1 remainder - 1)).

(** [s[:n]] of a slice without spare capacity. *)
Definition prefix (n : Z) (s : list Z) : option (list Z) := if len s <? n then None else Some (take (Z.to_nat n) s).

Definition scanStreams (direction output : list Z) (bits : Z) : option (list Z * list Z) :=
  let size := (bits + 7) / 8 in
  control ← prefix size direction;
  drive ← for_range bits (fun (bit : Z) (drive : list Z) =>
    d ← streamBit direction bit;
    o ← (if (d : bool) then streamBit output bit else Some false);
    if (o : bool) then
      x ← index drive (bit / 8);
      store drive (bit / 8) (Z.lor x (uint8 (Z.shiftl 1 (bit mod 8))))
    else Some drive) (make_bytes size);
  control ← maskUnusedBits control bits;
  Some (control, drive).

Definition delayInputSamples (direction samples : list Z) (bits : Z) (carry : bool) : option (list Z * bool) :=
  for_range bits (fun (bit : Z) '(result, carry) =>
    d ← streamBit direction bit;
    if (d : bool) then Some (result, carry)
    else
      result ← setStreamBit result bit carry;
      carry ← streamBit samples bit;
      Some (result, carry)) (samples, carry).

(** ** Limits *)

Definition scanTransferLimit (minimumBits : Z) (i : Info) : Z * err :=
  let limitBytes := defaultTransferBits / 8 in
  let limitBytes :=
    if WorkspaceKnown i then
      let workspaceBytes := if 4 <? Workspace i then (Workspace i - 4) / 2 else 0 in
      if workspaceBytes <? limitBytes then workspaceBytes else limitBytes
    else limitBytes in
  let limit := limitBytes * 8 in
  if limit <? minimumBits then (0, Some (New "jlink: probe transfer limit is only %d bits")) else (limit, None).

Definition ClockHz (s : Session) : Z := if configured s then clockHz s else 0.

Definition recoverableScan (s : Session) : bool := probeOwned s && scanFailed s && RestorationPossible s.

Definition MaxTransferBits (s : Session) : Z :=
  if negb (configured s) && negb (recoverableScan s) then 0 else transferBits s.

Section Ops.
Context {W : Type} `{Env W} `{UsbHost W}.
Abbreviation M := (GoM (St (W := W))).

Definition targetClock (ctx : context) (ceiling : Z) : M (Z * err) :=
  let rateKHz := Z.min (ceiling / 1_000) 0xfffe in
  capabilities ← sget (fun s => info_Capabilities (info s));
  '(rateKHz, e) ←
    (if Has capabilities capabilityClock then
       '(response, e) ← exchange ctx [commandClockDescribe] 6;
       match e with
       | Some e => mret (0, Some (Errorf "jlink: describe target clock: %w" [e]))
       | None =>
           base ← lift (le32 response);
           minimumDivisor ← lift (le16 (drop 4 response));
           if (base =? 0) || (minimumDivisor =? 0)
           then mret (0, Some (New "jlink: invalid target clock description"))
           else mret (Z.min rateKHz (base / minimumDivisor / 1_000), None)
       end
     else mret (rateKHz, None));
  match e with
  | Some e => mret (0, Some e)
  | None =>
      if rateKHz =? 0 then mret (0, Some (New "jlink: probe cannot provide a 1 kHz target clock"))
      else mret (rateKHz * 1_000, None)
  end.

(** [configureTarget] once nothing is configured any more. *)
Definition configureTarget_body (ctx : context) (maxClockHz target limit : Z) : M err :=
  '(response, e) ← exchange ctx [commandInterface; target] 4;
  match e with
  | Some e => mret (Some (Errorf "jlink: select %s interface: %w" [e]))
  | None =>
      previous ← lift (le32 response);
      if 32 <=? previous then mret (Some (New "jlink: invalid previous target interface %d"))
      else
        smod (fun s => set_info (with_Selected target (SelectedInterfaceKnown (info s)) (info s)) s);;
        '(clock, e) ← targetClock ctx maxClockHz;
        match e with
        | Some e => mret (Some e)
        | None =>
            e ← writeExact ctx [commandClockSet; uint8 (clock / 1_000); uint8 (Z.shiftr (clock / 1_000) 8)];
            match e with
            | Some e => mret (Some (Errorf "jlink: set %s clock: %w" [e]))
            | None =>
                smod (fun s => set_configured true (set_inputCarry false (set_delayInput (target =? interfaceSWD) (set_clock clock limit s))));;
                mret None
            end
        end
  end.

Definition configureTarget (ctx : context) (maxClockHz target minimumBits : Z) : M err :=
  if maxClockHz <? 1_000 then mret (Some (New "jlink: %s clock ceiling must be at least 1 kHz"))
  else
    e ← transportReady ctx;
    match e with
    | Some e => mret (Some e)
    | None =>
        i ← sget info;
        if negb (SelectedInterfaceKnown i) || negb (any_bits (AvailableInterfaces i) (Z.shiftl 1 target))
        then mret (Some (New "jlink: probe does not advertise configurable %s"))
        else match scanTransferLimit minimumBits i with
        | (_, Some e) => mret (Some e)
        | (limit, None) =>
            smod (fun s => set_scanFailed false (set_configured false s));;
            configureTarget_body ctx maxClockHz target limit
        end
    end.

Definition ConfigureSWD (ctx : context) (maxClockHz : Z) : M err := configureTarget ctx maxClockHz interfaceSWD minimumSWDFrameBits.
Definition ConfigureJTAG (ctx : context) (maxClockHz : Z) : M err := configureTarget ctx maxClockHz interfaceJTAG 8.

Definition recoverScan (ctx : context) : M err :=
  s ← sget id;
  if negb (recoverableScan s) then mret None
  else
    e ← (if SelectedInterface (info s) =? interfaceSWD then ConfigureSWD ctx (clockHz s) else ConfigureJTAG ctx (clockHz s));
    s ← sget id;
    (if negb (is_nil e) && RestorationPossible s then smod (set_scanFailed true) else mret tt);;
    mret e.

(** ** Scans *)

Definition scan (ctx : context) (control drive : list Z) (bits : Z) : M (list Z * err) :=
  let request := [commandScanV3; 0] ++ le_bytes 2 (bits mod 2 ^ 16) ++ control ++ drive in
  e ← writeExact ctx request;
  match e with
  | Some e => mret ([], Some (Errorf "jlink: write %s scan command: %w" [e]))
  | None =>
      '(samples, e) ← readResponsePart ctx (len control);
      match e with
      | Some e => mret ([], Some (Errorf "jlink: read %s scan samples: %w" [e]))
      | None =>
          '(status, e) ← readResponse ctx 1;
          match e with
          | Some e => mret ([], Some (Errorf "jlink: read %s scan status: %w" [e]))
          | None =>
              status ← lift (index status 0);
              if negb (status =? 0) then
                smod (fun s => set_inputCarry false (set_scanFailed true (set_configured false s)));;
                mret ([], Some (Detail (ScanError status)))
              else
                samples ← lift (maskUnusedBits samples bits);
                mret (samples, None)
          end
      end
  end.

Definition SWDIO (ctx : context) (direction output : list Z) (bits : Z) : M (list Z * err) :=
  if (bits <=? 0) || (len direction * 8 <? bits) || (len output * 8 <? bits)
  then mret ([], Some (New "jlink: invalid %d-bit SWD stream"))
  else
    e ← transportReady ctx;
    match e with
    | Some e => mret ([], Some e)
    | None =>
        s ← sget id;
        if negb (configured s) && negb (recoverableScan s) || negb (SelectedInterface (info s) =? interfaceSWD)
        then mret ([], Some (New "jlink: SWD is not configured"))
        else if transferBits s <? bits
        then mret ([], Some (New "jlink: %d-bit SWD stream exceeds %d-bit transfer limit"))
        else
          e ← recoverScan ctx;
          match e with
          | Some e => mret ([], Some e)
          | None =>
              '(control, drive) ← lift (scanStreams direction output bits);
              '(samples, e) ← scan ctx control drive bits;
              match e with
              | Some e => mret ([], Some e)
              | None =>
                  s ← sget id;
                  samples ←
                    (if delayInput s then
                       '(samples, carry) ← lift (delayInputSamples direction samples bits (inputCarry s));
                       smod (set_inputCarry carry);;
                       mret samples
                     else mret samples);
                  samples ← lift (maskUnusedBits samples bits);
                  mret (samples, None)
              end
          end
    end.

Definition JTAGIO (ctx : context) (tms tdi : list Z) (bits : Z) : M (list Z * err) :=
  if (bits <? 0) || (defaultTransferBits <? bits) || (len tms * 8 <? bits) || (len tdi * 8 <? bits)
  then mret ([], Some (New "jlink: invalid %d-bit JTAG stream"))
  else
    e ← transportReady ctx;
    match e with
    | Some e => mret ([], Some e)
    | None =>
        s ← sget id;
        if negb (configured s) && negb (recoverableScan s) || negb (SelectedInterface (info s) =? interfaceJTAG)
        then mret ([], Some (New "jlink: JTAG is not configured"))
        else if transferBits s <? bits
        then mret ([], Some (New "jlink: %d-bit JTAG stream exceeds %d-bit transfer limit"))
        else if bits =? 0 then mret ([], None)
        else
          e ← recoverScan ctx;
          match e with
          | Some e => mret ([], Some e)
          | None =>
              let size := (bits + 7) / 8 in
              control ← lift (prefix size tms ≫= fun c => maskUnusedBits c bits);
              drive ← lift (prefix size tdi ≫= fun d => maskUnusedBits d bits);
              scan ctx control drive bits
          end
    end.
End Ops.
