(* ===== verification/JLinkSession.v ===== *)
(** * Opening and closing a J-Link (jlink/session.go, resync.go, probe.go) *)

From S2P Require Import Prelude Go Bits Usb UsbHost JLink JLinkWire.
Local Open Scope Z_scope.

Definition newSession (d : DeviceInfo) (a : applicationInterface) : Session :=
  mkSession true false a [] (newInfo d) false false 0 0 false false false false false false.

Section Ops.
Context {W : Type} `{Env W} `{UsbHost W}.
Abbreviation M := (GoM (St (W := W))).

(** ** Metadata *)

Definition imod (f : Info -> Info) : M unit := smod (fun s => set_info (f (info s)) s).

Definition readVersion (ctx : context) : M err :=
  e ← writeExact ctx [commandVersion];
  match e with
  | Some e => mret (Some (Errorf "jlink: read firmware length: %w" [e]))
  | None =>
      '(length, e) ← readResponsePart ctx 2;
      match e with
      | Some e => mret (Some (Errorf "jlink: read firmware length: %w" [e]))
      | None =>
          size ← lift (le16 length);
          '(record, e) ← readResponse ctx size;
          match e with
          | Some e => mret (Some (Errorf "jlink: read firmware record: %w" [e]))
          | None => imod (with_Firmware record (firmwareString record));; mret None
          end
      end
  end.

Definition readCapabilities (ctx : context) : M err :=
  '(short, e) ← exchange ctx [commandCapabilitiesShort] 4;
  match e with
  | Some e => mret (Some (Errorf "jlink: read capabilities: %w" [e]))
  | None =>
      imod (with_Capabilities short);;
      if Has short capabilityLong then
        '(long, e) ← exchange ctx [commandCapabilitiesLong] 32;
        match e with
        | Some e => mret (Some (Errorf "jlink: read extended capabilities: %w" [e]))
        | None =>
            head ← lift (prefix 4 long);
            if negb (bool_decide (head = short))
            then mret (Some (New "jlink: extended capabilities do not preserve the short bitset"))
            else imod (with_Capabilities long);; mret None
        end
      else mret None
  end.

Definition readInterfaces (ctx : context) : M err :=
  '(response, e) ← exchange ctx [commandInterface; 0xff] 4;
  match e with
  | Some e => mret (Some (Errorf "jlink: read available target interfaces: %w" [e]))
  | None =>
      available ← lift (le32 response);
      imod (with_Available available);;
      '(response, e) ← exchange ctx [commandInterface; 0xfe] 4;
      match e with
      | Some e => mret (Some (Errorf "jlink: read selected target interface: %w" [e]))
      | None =>
          selected ← lift (le32 response);
          if 32 <=? selected then mret (Some (New "jlink: invalid selected target interface %d"))
          else imod (with_Selected (uint8 selected) true);; mret None
      end
  end.

(** The optional words, each read when the probe has the capability. *)
Definition readHardware (ctx : context) : M err :=
  c ← sget (fun s => info_Capabilities (info s));
  if Has c capabilityHardwareVersion then
    '(response, e) ← exchange ctx [commandHardwareVersion] 4;
    match e with
    | Some e => mret (Some (Errorf "jlink: read hardware version: %w" [e]))
    | None => v ← lift (le32 response); imod (with_Hardware (decodeHardwareVersion v));; mret None
    end
  else mret None.

Definition readWorkspace (ctx : context) : M err :=
  c ← sget (fun s => info_Capabilities (info s));
  if Has c capabilityWorkspace then
    '(response, e) ← exchange ctx [commandWorkspace] 4;
    match e with
    | Some e => mret (Some (Errorf "jlink: read workspace: %w" [e]))
    | None => v ← lift (le32 response); imod (with_Workspace v);; mret None
    end
  else mret None.

Definition readInfo (ctx : context) : M err :=
  e ← readVersion ctx;
  match e with
  | Some e => mret (Some e)
  | None =>
      e ← readCapabilities ctx;
      match e with
      | Some e => mret (Some e)
      | None =>
          e ← readHardware ctx;
          match e with
          | Some e => mret (Some e)
          | None =>
              e ← readWorkspace ctx;
              match e with
              | Some e => mret (Some e)
              | None =>
                  c ← sget (fun s => info_Capabilities (info s));
                  if Has c capabilityInterface then readInterfaces ctx else mret None
              end
          end
      end
  end.

(** ** Resynchronization (resync.go) *)

Definition finishQuietRead (transfer : nat) (capacity : Z) (waitErr : error) (expired : bool) : M (bool * err) :=
  '(count, e, _) ← host (Wait (WithTimeout Background inputQuietInterval) transfer);
  match e with
  | None =>
      if (count <? 0) || (capacity <? count)
      then mret (false, Some (Join [waitErr; New "invalid drained response count %d for %d bytes"]))
      else if expired then mret (false, None)
      else mret (false, Some waitErr)
  | Some e =>
      aborted ← gets (fun s => Aborted transfer (world s));
      if expired && aborted then mret (true, None) else mret (false, Some (Join [waitErr; e]))
  end.

Definition waitForInputQuiet (ctx : context) : M (bool * err) :=
  let quiet := WithTimeout ctx inputQuietInterval in
  a ← sget (fun s => bulkIn (application s));
  let buffer := make_bytes (MaxPacketSize a) in
  '(transfer, e) ← host (SubmitBulk quiet (Address a) buffer);
  match e with
  | Some e => mret (false, Some e)
  | None =>
      '(count, e, _) ← host (Wait quiet transfer);
      match e with
      | None =>
          if (count <? 0) || (len buffer <? count)
          then mret (false, Some (New "invalid stale response count %d for %d bytes"))
          else mret (false, None)
      | Some e =>
          abortErr ← host (AbortBulk (Address a));
          match abortErr with
          | Some x => mret (false, Some (Join [e; x]))
          | None =>
              expired ← (if negb (err_eqb (Some e) (context_Err DeadlineExceeded)) then mret false
                         else
                           q ← ctxErr quiet;
                           if negb (err_eqb q (context_Err DeadlineExceeded)) then mret false
                           else c ← ctxErr ctx; mret (is_nil c));
              finishQuietRead transfer (len buffer) e expired
          end
      end
  end.

Fixpoint synchronize_loop (fuel : nat) (bounded : context) : M err :=
  match fuel with
  | O => out_of_fuel
  | S fuel =>
      '(quiet, e) ← waitForInputQuiet bounded;
      c ← ctxErr bounded;
      match errors_Join [e; c] with
      | Some e =>
          recordLoss (Some e);;
          mret (Some (Errorf "jlink: resynchronize application IN: %w" [e]))
      | None => if (quiet : bool) then mret None else synchronize_loop fuel bounded
      end
  end.

Definition synchronizeInput (fuel : nat) (ctx : context) : M err :=
  synchronize_loop fuel (WithTimeout ctx inputSyncTimeout).

(** ** Closing *)

(** The device part of [Close], with the result so far. *)
Definition closeDevice (result : err) : M err :=
  s ← sget id;
  if device s then
    e ← host CloseDevice;
    recordLoss e;;
    pending ← gets (fun s => cleanupPending deviceCleanupPending (world s));
    (if is_nil e || negb pending then smod (set_device false) else mret tt);;
    mret (errors_Join [result; e])
  else mret result.

Definition Close : M err :=
  smod (fun s => set_configured false (set_closing true s));;
  s ← sget id;
  if claim s then
    e ← host CloseClaim;
    recordLoss e;;
    pending ← gets (fun s => cleanupPending claimCleanupPending (world s));
    if negb (is_nil e) && pending then mret e
    else
      smod (set_claim false);;
      closeDevice e
  else closeDevice None.

(** ** Opening *)

Definition selectedEndpoint (ctx : context) (address : Z) : M (Endpoint * err) :=
  '(endpoint, e) ← host (claimEndpoint ctx address);
  match e with
  | Some e => mret (noEndpoint, Some (Errorf "jlink: resolve active bulk %s endpoint %#02x: %w" [e]))
  | None =>
      if negb (Address endpoint =? address) || negb (usableBulkEndpoint endpoint)
      then mret (noEndpoint, Some (New "jlink: invalid active bulk %s endpoint %#02x"))
      else mret (endpoint, None)
  end.

Definition readApplicationInfo (fuel : nat) (ctx : context) : M err :=
  a ← sget application;
  '(inp, e) ← selectedEndpoint ctx (Address (bulkIn a));
  match e with
  | Some e => mret (Some e)
  | None =>
      '(out, e) ← selectedEndpoint ctx (Address (bulkOut a));
      match e with
      | Some e => mret (Some e)
      | None =>
          smod (set_application (mkApplication (number a) (alternate_ a) inp out));;
          e ← synchronizeInput fuel ctx;
          match e with
          | Some e => mret (Some e)
          | None => readInfo ctx
          end
      end
  end.

Definition configureOpen (ctx : context) (config : openConfig) : M err :=
  if negb (configure config) then mret None
  else if interfaceID config =? interfaceJTAG then ConfigureJTAG ctx (cfg_maxClockHz config)
  else ConfigureSWD ctx (cfg_maxClockHz config).

(** [openSession] once the session exists, up to its deferred call. *)
Definition openSession_body (fuel : nat) (ctx : context) (config : openConfig) : M err :=
  a ← sget application;
  e ← host (claimInterface (number a));
  match e with
  | Some e => mret (Some (Errorf "jlink: claim USB interface %d: %w" [e]))
  | None =>
      smod (set_claim true);;
      e ← host (SetAltSetting (alternate_ a));
      match e with
      | Some e => mret (Some (Errorf "jlink: select USB interface %d alternate %d: %w" [e]))
      | None =>
          e ← readApplicationInfo fuel ctx;
          match e with
          | Some e => mret (Some e)
          | None => configureOpen ctx config
          end
      end
  end.

Definition openSession_deferred (fuel : nat) (ctx : context) (config : openConfig) : M err :=
  e ← openSession_body fuel ctx config;
  match e with
  | None => mret None
  | Some e => c ← Close; mret (errors_Join [Some e; c])
  end.

Definition prepareOpen (ctx : context) (options : list Option_) (w : W) : openConfig * err * W :=
  if ctx_nil ctx then (mkOpenConfig false 0 0, Some (New "jlink: nil open context"), w)
  else
    let (e, w) := ctx_Err ctx w in
    match e with
    | Some e => (mkOpenConfig false 0 0, Some (Sentinel (context_Err e)), w)
    | None => (applyOptions options, w)
    end.

(** The timer of [waitForConfigurationInspection] and the context race; when
    the timer wins the context is found live. *)
Definition waitForConfigurationInspection (ctx : context) (w : W) : err * W :=
  let (e, w) := ctx_Err ctx w in (option_map (fun e => Sentinel (context_Err e)) e, w).

Definition context_ended (e : error) : bool := Is e (context_Err Canceled) || Is e (context_Err DeadlineExceeded).

Fixpoint inspect_loop (fuel : nat) (ctx : context) (unavailable : err) (w : W) : outcome (applicationInterface * err * W) :=
  match fuel with
  | O => OutOfFuel
  | S fuel =>
      let '((configuration, e), w) := ActiveConfiguration ctx w in
      match e with
      | None => let (a, e) := findApplicationInterface configuration in Done (a, e, w)
      | Some e =>
          if negb (Is e usb_ErrNotConfigured) then
            let e := match unavailable with
                     | Some u => if context_ended e then Join [u; e] else e
                     | None => e
                     end in
            Done (noApplication, Some (Errorf "jlink: inspect active USB configuration: %w" [e]), w)
          else
            let (waitErr, w) := waitForConfigurationInspection ctx w in
            match waitErr with
            | Some x => Done (noApplication, Some (Errorf "jlink: inspect active USB configuration: %w" [Join [e; x]]), w)
            | None => inspect_loop fuel ctx (Some e) w
            end
      end
  end.

Definition inspectApplication (fuel : nat) (ctx : context) : GoM W (applicationInterface * err) := fun w =>
  match inspect_loop fuel ctx None w with
  | Done (a, e, w) => Done ((a, e), w)
  | Panicked => Panicked
  | OutOfFuel => OutOfFuel
  end.

(** The device is present; the session is returned where the source returns a
    non-nil one. *)
Definition openSession (fuel : nat) (ctx : context) (options : list Option_) : GoM W (option Session * err) := fun w =>
  let '(config, e, w) := prepareOpen ctx options w in
  match e with
  | Some e => let (c, w) := CloseDevice w in Done ((None, errors_Join [Some e; c]), w)
  | None =>
      if negb (supportedDevice (Identity w)) then
        let (c, w') := CloseDevice w in
        Done ((None, errors_Join [Some (New "jlink: unsupported USB identity %04x:%04x"); c]), w')
      else
        let identity := Identity w in
        match inspectApplication fuel ctx w with
        | Done ((application, e), w) =>
            match e with
            | Some e => let (c, w) := CloseDevice w in Done ((None, errors_Join [Some e; c]), w)
            | None =>
                match openSession_deferred fuel ctx config (mkSt (newSession identity application) w) with
                | Done (e, s) => Done ((if is_nil e then Some (sess s) else None, e), world s)
                | Panicked => Panicked
                | OutOfFuel => OutOfFuel
                end
            end
        | Panicked => Panicked
        | OutOfFuel => OutOfFuel
        end
  end.

(** probe.go *)
Definition openProbeSession (fuel : nat) (ctx : context) (o : Option_) : GoM W (option Session * err) :=
  '(session, e) ← openSession fuel ctx [o];
  mret (option_map (set_probeOwned true) session, e).
End Ops.
