(* ===== verification/JLinkFacts.v ===== *)
(** * What a J-Link session keeps true

    The byte streams of a session over any host: operations return, and what
    was sent without a complete answer poisons the session. *)

From S2P Require Import Prelude Go Bits Usb UsbHost CmsisFacts JLink.
From S2P Require Import JLinkWire.
Local Open Scope Z_scope.

(** The host's own errors are not mistaken for a poisoned session. *)
Class SubmitErrors (W : Type) `{UsbHost W} := submit_plain ctx ep d (w : W) :
  errors_Is (snd (fst (SubmitBulk ctx ep d w))) jlink_ErrSessionPoisoned = false.

(** ** The session's invariant *)

Record JInv (s : Session) : Prop := {
  jinv_out : any_bits (Address (bulkOut (application s))) 0x80 = false;
  jinv_in : any_bits (Address (bulkIn (application s))) 0x80 = true;
  jinv_input : bytes (input s);
  jinv_bits : configured s = true -> 8 <= transferBits s <= 504;
  jinv_clock : configured s = true -> 1_000 <= clockHz s /\ clockHz s mod 1_000 = 0;
  jinv_delay : configured s = true -> delayInput s = (SelectedInterface (info s) =? interfaceSWD)
}.

(** Transfers change only the stream and what is learned of the device. *)
Record streamed (s s' : Session) : Prop := {
  sm_rest : s' = set_input (input s') (set_poisoned (poisoned s') (set_gone (gone s') s));
  sm_input : bytes (input s) -> bytes (input s');
  sm_poisoned : poisoned s = true -> poisoned s' = true;
  sm_gone : gone s = true -> gone s' = true
}.

#[global] Instance streamed_preorder : PreOrder streamed.
Proof.
  split; [by intros []; split|]. intros a b c [E1 B1 P1 G1] [E2 B2 P2 G2]. split; auto. rewrite E2, E1 at 1. done.
Qed.

Lemma streamed_inv s s' : streamed s s' -> JInv s -> JInv s'.
Proof. intros [E B _ _] [? ? I ? ? ?]. apply B in I. rewrite E. by split. Qed.

Lemma streamed_poison s : streamed s (set_poisoned true s).
Proof. by destruct s. Qed.

Lemma streamed_gone b s : streamed s (if b : bool then set_gone true s else s).
Proof. destruct b; by destruct s. Qed.

Lemma streamed_input l s : bytes l -> streamed s (set_input l s).
Proof. intros B. by destruct s. Qed.

Section Facts.
Context {W : Type} `{Recorded W} `{!SubmitErrors W}.
Implicit Types s : St (W := W).
Abbreviation M := (GoM (St (W := W))).

Lemma jwp_host {A} (f : W -> A * W) (Q : A -> St -> Prop) s :
  Q (fst (f (world s))) (mkSt (sess s) (snd (f (world s)))) -> wp (host f) Q s.
Proof. unfold wp, host. by destruct (f (world s)). Qed.

Lemma jwp_ctxAsk ctx (Q : option ctxError -> St -> Prop) s :
  ctx_nil ctx = false -> (forall e w, sent w = sent (world s) -> Q e (mkSt (sess s) w)) -> wp (ctxAsk ctx) Q s.
Proof. intros Hc HQ. unfold ctxAsk. rewrite Hc. apply jwp_host, HQ, sent_ctx. Qed.

Lemma jwp_ctxErr ctx (Q : err -> St -> Prop) s :
  ctx_nil ctx = false ->
  (forall e w, sent w = sent (world s) -> errors_Is e jlink_ErrSessionPoisoned = false -> Q e (mkSt (sess s) w)) -> wp (ctxErr ctx) Q s.
Proof.
  intros Hc HQ. unfold ctxErr. apply wp_bind, jwp_ctxAsk; [done|]. intros e w Hw. apply wp_ret, HQ; [done|]. by destruct e as [[]|].
Qed.

Lemma jwp_recordLoss e (Q : unit -> St -> Prop) s :
  Q tt (mkSt (if errors_Is e usb_ErrDeviceGone then set_gone true (sess s) else sess s) (world s)) -> wp (recordLoss e) Q s.
Proof. intros HQ. apply wp_modify. done. Qed.

Lemma jwp_poison e (Q : error -> St -> Prop) s :
  Q (Join [e; Sentinel jlink_ErrSessionPoisoned]) (mkSt (set_poisoned true (sess s)) (world s)) -> wp (poison e) Q s.
Proof. done. Qed.

Lemma jwp_transportReady ctx (Q : err -> St -> Prop) s :
  (forall e w, sent w = sent (world s) -> (Is e jlink_ErrSessionPoisoned = true -> poisoned (sess s) = true) -> Q (Some e) (mkSt (sess s) w)) ->
  (forall w, sent w = sent (world s) -> ctx_nil ctx = false -> poisoned (sess s) = false -> gone (sess s) = false -> device (sess s) = true ->
     claim (sess s) = true -> closing (sess s) = false -> Q None (mkSt (sess s) w)) ->
  wp (transportReady ctx) Q s.
Proof.
  intros HE HN. assert (mkSt (sess s) (world s) = s) as Es by (by destruct s).
  unfold transportReady. apply wp_bind, wp_gets. unfold sessionReady.
  destruct (device (sess s)) eqn:Ed; cbn [negb orb]; [|apply wp_ret; rewrite <- Es; by apply HE].
  destruct (closing (sess s)) eqn:El; [apply wp_ret; rewrite <- Es; by apply HE|].
  destruct (claim (sess s)) eqn:Ec; cbn [negb]; [|apply wp_ret; rewrite <- Es; by apply HE].
  destruct (gone (sess s)) eqn:Eg; [apply wp_ret; rewrite <- Es; by apply HE|].
  destruct (poisoned (sess s)) eqn:Ep; [apply wp_ret; rewrite <- Es; by apply HE|].
  destruct (ctx_nil ctx) eqn:En; [apply wp_ret; rewrite <- Es; by apply HE|].
  apply jwp_ctxErr; [done|]. intros [e|] w Hw Hp; [|by apply HN]. apply HE; [done|]. cbn in Hp. congruence.
Qed.

(** ** One transfer *)

(** A transfer was refused, or answered, or has poisoned the session. *)
Definition bulk_post (out : bool) (buffer : list Z) s (r : Z * err * list Z) s' : Prop :=
  streamed (sess s) (sess s') /\ input (sess s') = input (sess s) /\ len (snd r) = len buffer /\ (bytes buffer -> bytes (snd r)) /\
  match snd (fst r) with
  | None => sess s' = sess s /\ sent (world s') = sent (world s) ++ (if out then [buffer] else [])
  | Some e => (sent (world s') = sent (world s) /\ poisoned (sess s') = poisoned (sess s) /\ Is e jlink_ErrSessionPoisoned = false /\ fst (fst r) = 0) \/
      (poisoned (sess s') = true /\ Is e jlink_ErrSessionPoisoned = true /\ sent (world s') = sent (world s) ++ (if out then [buffer] else []))
  end.

Lemma len_received' data buffer : len (received data buffer) = len buffer.
Proof. unfold received, len. rewrite length_app, length_take, length_drop. lia. Qed.

Lemma bytes_received data buffer : bytes data -> bytes buffer -> bytes (received data buffer).
Proof. intros B B'. apply Forall_app. split; [by apply Forall_take|by apply Forall_drop]. Qed.

Lemma poisons_Is e : Is (Join [e; Sentinel jlink_ErrSessionPoisoned]) jlink_ErrSessionPoisoned = true.
Proof. cbn. by rewrite orb_true_r. Qed.

(** The end of every failed transfer. *)
Lemma bulk_failed out buffer data s x w e :
  streamed (sess s) x -> input x = input (sess s) -> bytes data -> sent w = sent (world s) ++ (if out : bool then [buffer] else []) ->
  forall count, wp (poison e) (fun e s' => bulk_post out buffer s (count, Some e, received data buffer) s') (mkSt x w).
Proof.
  intros X Hi B Sw count. apply jwp_poison. split_and!; cbn [sess world fst snd].
  - transitivity x; [done|apply streamed_poison].
  - done.
  - apply len_received'.
  - by apply bytes_received.
  - right. split; [done|]. split; [apply poisons_Is|done].
Qed.

Lemma bulkTransfer_wp ctx ep buffer s :
  ctx_nil ctx = false -> wp (bulkTransfer ctx ep buffer) (bulk_post (negb (any_bits ep 0x80)) buffer s) s.
Proof.
  intros Hn. unfold bulkTransfer. apply wp_bind, jwp_host. pose proof (sent_submit ctx ep buffer (world s)) as S1.
  pose proof (submit_plain ctx ep buffer (world s)) as P1.
  destruct (SubmitBulk ctx ep buffer (world s)) as [[t e] w1]. cbn [fst snd] in *. apply wp_bind, jwp_recordLoss. cbn [sess world].
  destruct e as [e|].
  { cbn [is_nil andb] in S1. rewrite app_nil_r in S1. apply wp_ret. cbn [errors_Is] in *.
    assert (forall b : bool, let x := if b then set_gone true (sess s) else sess s in
      streamed (sess s) x /\ input x = input (sess s) /\ poisoned x = poisoned (sess s)) as K
      by (intros []; split_and!; try done; apply (streamed_gone true)).
    destruct (K (Is e usb_ErrDeviceGone)) as (X & Xi & Xp). split_and!; try done. left. done. }
  cbn [is_nil andb errors_Is] in *. apply wp_bind, jwp_host. cbn [sess world].
  pose proof (sent_wait ctx t w1) as S2. pose proof (delivers ctx t w1) as B2.
  destruct (Wait ctx t w1) as [[[count e] data] w2]. cbn [fst snd] in *. apply wp_bind, jwp_recordLoss. cbn [sess world].
  assert (sent w2 = sent (world s) ++ (if negb (any_bits ep 128) then [buffer] else [])) as S by (rewrite S2, S1; done).
  destruct e as [e|].
  2: { apply wp_ret. split_and!; cbn [sess world fst snd errors_Is]; try done; [apply len_received'|by apply bytes_received]. }
  set (x := if errors_Is _ _ then _ else _). assert (streamed (sess s) x) as X by apply streamed_gone.
  assert (input x = input (sess s)) as Xi by (subst x; by destruct (errors_Is _ _)). clearbody x.
  assert (forall y w, streamed (sess s) y -> input y = input (sess s) -> sent w = sent w2 -> forall count e,
    wp (e ← poison e; mret (count, Some e, received data buffer)) (bulk_post (negb (any_bits ep 128)) buffer s) (mkSt y w)) as Fail.
  { intros y w Y Yi Sw count' e'. apply wp_bind. 
    eapply wp_mono; [exact (bulk_failed (negb (any_bits ep 128)) buffer data s y w e' Y Yi B2 (eq_trans Sw S) count')|].
    intros e2 s2 K. apply wp_ret. exact K. }
  apply wp_bind, jwp_ctxAsk; [done|]. intros c w3 S3. cbn [sess world] in *. destruct c as [c|]; [|by apply Fail].
  apply wp_bind. unfold transferError. apply wp_bind, jwp_ctxAsk; [done|]. intros c' w4 S4. cbn [sess world] in *.
  assert (forall te w, sent w = sent w2 -> wp (abortErr ← host (AbortBulk ep); recordLoss abortErr;;
      match abortErr with
      | Some a => e ← poison (Join [te; a]); mret (0, Some e, received data buffer)
      | None =>
          '(_, completionErr, _) ← host (Wait Background t);
          e ← poison (default te (errors_Join [Some te; completionErr]));
          mret (0, Some e, received data buffer)
      end) (bulk_post (negb (any_bits ep 128)) buffer s) (mkSt x w)) as Rest.
  { intros te w Sw. apply wp_bind, jwp_host. pose proof (sent_abort ep w) as Sa. cbn [sess world].
    destruct (AbortBulk ep w) as [a w5]. cbn [fst snd] in *. apply wp_bind, jwp_recordLoss. cbn [sess world].
    set (y := if errors_Is a _ then _ else _). assert (streamed (sess s) y) as Y by (transitivity x; [done|apply streamed_gone]).
    assert (input y = input (sess s)) as Yi by (subst y; by destruct (errors_Is a _)). clearbody y.
    destruct a as [a|]; [apply Fail; [done..|congruence]|]. apply wp_bind, jwp_host. cbn [sess world].
    pose proof (sent_wait Background t w5) as S6. destruct (Wait Background t w5) as [[[? ce] ?] w6]. cbn [fst snd] in *.
    apply Fail; [done..|congruence]. }
  destruct (match c' with Some c => Is e (context_Err c) | None => false end).
  - apply wp_ret. apply Rest. congruence.
  - apply wp_bind, jwp_ctxErr; [done|]. intros c2 w5 S5 _. apply wp_ret. apply Rest. cbn [world] in *. congruence.
Qed.

(** ** Writing *)

(** All of it was taken; or nothing was sent; or the session is poisoned. *)
Definition write_post s (e : err) s' : Prop :=
  streamed (sess s) (sess s') /\ input (sess s') = input (sess s) /\
  match e with
  | None => sess s' = sess s /\ exists l, sent (world s') = sent (world s) ++ l
  | Some _ => sent (world s') = sent (world s) /\ poisoned (sess s') = poisoned (sess s) \/ poisoned (sess s') = true
  end.

Lemma write_poison s x w e :
  streamed (sess s) x -> input x = input (sess s) ->
  wp (e ← poison e; mret (Some e)) (write_post s) (mkSt x w).
Proof.
  intros X Xi. apply wp_bind, jwp_poison, wp_ret. split_and!; cbn [sess]; [|done|by right].
  transitivity x; [done|apply streamed_poison].
Qed.

Lemma write_loop_wp n ctx data position s :
  JInv (sess s) -> ctx_nil ctx = false -> 0 <= position -> len data - position <= Z.of_nat n ->
  wp (write_loop n ctx data position) (fun e s' => write_post s e s' /\
    (position <> 0 -> e <> None -> poisoned (sess s') = true)) s.
Proof.
  intros I Hn. revert position s I. induction n as [|n IH]; intros position s I Hp Hl; cbn [write_loop].
  all: destruct (Z.leb_spec (len data) position);
    [apply wp_ret; split; [split_and!; try done; exists []; by rewrite app_nil_r|done]|].
  { lia. }
  apply wp_bind, wp_gets, wp_bind. eapply wp_mono; [by apply bulkTransfer_wp|].
  intros [[count e] buffer] s1 (X1 & Xi & _ & _ & K1). cbn [fst snd] in *. rewrite (jinv_out _ I) in K1. cbn [negb] in K1.
  assert (forall e0, wp (e ← poison e0; mret (Some e)) (fun e s' => write_post s e s' /\
    (position <> 0 -> e <> None -> poisoned (sess s') = true)) s1) as Fail.
  { intros e0. apply wp_bind, jwp_poison, wp_ret. split; [|done]. split_and!; cbn [sess]; [|done|by right].
    transitivity (sess s1); [done|apply streamed_poison]. }
  destruct (_ || _) eqn:Eb; [apply Fail|]. apply orb_false_iff in Eb as [E1 E2]. apply Z.ltb_ge in E1, E2.
  destruct e as [e|].
  - destruct (Z.eqb_spec position 0) as [->|]; cbn [negb]; [|apply Fail]. apply wp_ret. split; [|lia]. split_and!; try done.
    destruct K1 as [(S1 & P1 & _)|(P1 & _ & _)]; [by left|by right].
  - destruct (Z.eqb_spec count 0); [apply Fail|]. destruct K1 as [Es S1].
    eapply wp_mono; [apply (IH (position + count) s1); [by rewrite Es|lia|lia]|].
    intros e' s2 [(X2 & Xi2 & K2) N2]. rewrite Es in *. split; [split_and!; try done|].
    + destruct e' as [e'|]; [right; apply N2; [lia|done]|]. destruct K2 as [? [l L]]. split; [done|].
      exists ([drop (Z.to_nat position) data] ++ l). by rewrite L, S1, <- app_assoc.
    + intros _ He. apply N2; [lia|done].
Qed.

Lemma writeExact_wp ctx data s :
  JInv (sess s) ->
  wp (writeExact ctx data) (fun e s' => write_post s e s' /\
    (e = None -> ctx_nil ctx = false /\ poisoned (sess s) = false /\ device (sess s) = true /\ claim (sess s) = true)) s.
Proof.
  intros I. unfold writeExact. apply wp_bind, jwp_transportReady.
  - intros e w Hw _. apply wp_ret. split; [|done]. split_and!; try done. by left.
  - intros w Hw Hn Hp _ Hd Hc _. eapply wp_mono; [by apply write_loop_wp; [|done|done|unfold len; lia]|].
    intros e s' [(X & Xi & K) _]. cbn [sess world] in *. split; [|done]. split_and!; try done. by rewrite Hw in K.
Qed.

(** ** Reading *)

Definition read_post (size : Z) s (r : list Z * err) s' : Prop :=
  streamed (sess s) (sess s') /\ sent (world s') = sent (world s) /\
  match snd r with
  | None => len (fst r) = size /\ bytes (fst r) /\ poisoned (sess s') = poisoned (sess s)
  | Some e => fst r = [] /\ (Is e jlink_ErrSessionPoisoned = true -> poisoned (sess s') = true)
  end.

Lemma readBulk_wp ctx s :
  JInv (sess s) -> ctx_nil ctx = false ->
  wp (readBulk ctx) (fun r s' => streamed (sess s) (sess s') /\ input (sess s') = input (sess s) /\ sent (world s') = sent (world s) /\
    match snd r with
    | None => bytes (fst r) /\ poisoned (sess s') = poisoned (sess s)
    | Some e => Is e jlink_ErrSessionPoisoned = true -> poisoned (sess s') = true
    end) s.
Proof.
  intros I Hn. unfold readBulk. apply wp_bind, wp_gets, wp_bind. eapply wp_mono; [by apply bulkTransfer_wp|].
  intros [[count e] buffer] s1 (X1 & Xi & _ & B1 & K1). cbn [fst snd] in *. rewrite (jinv_in _ I) in K1. cbn [negb] in K1. rewrite app_nil_r in K1.
  destruct e as [e|].
  - apply wp_ret. cbn [fst snd]. destruct K1 as [(S1 & P1 & N1 & _)|(P1 & _ & S1)]; split_and!; try done. congruence.
  - destruct K1 as [Es S1]. case_match; apply wp_ret; cbn [fst snd]; split_and!; try done; [|congruence].
    apply Forall_take, B1, bytes_make.
Qed.

Lemma read_loop_wp n ctx size response zero s :
  JInv (sess s) -> ctx_nil ctx = false -> bytes response -> len response <= size ->
  3 * (size - len response) - (if input (sess s) is [] then if zero : bool then 1 else 0 else 2) <= Z.of_nat n ->
  wp (read_loop n ctx size response zero) (read_post size s) s.
Proof.
  intros I Hn. revert response zero s I. induction n as [|n IH]; intros response zero s I B Hl Hf; cbn [read_loop].
  all: destruct (Z.leb_spec size (len response)); [apply wp_ret; split; [done|]; split; [done|]; cbn [fst snd]; split_and!; [lia|done|done]|].
  { exfalso. destruct (input (sess s)); [destruct zero|]; lia. }
  apply wp_bind, wp_gets. destruct (input (sess s)) as [|b rest] eqn:Ei.
  - change (len [] =? 0) with true. cbn [negb]. apply wp_bind. eapply wp_mono; [by apply readBulk_wp|].
    intros [data e] s1 (X1 & Xi & S1 & K1). cbn [fst snd] in K1. rewrite Ei in Xi. destruct e as [e|].
    { apply wp_ret. split; [done|]. split; [done|]. by split. }
    destruct K1 as [B1 P1]. pose proof (streamed_inv _ _ X1 I) as I1. destruct data as [|d data].
    + change (len [] =? 0) with true. destruct zero; [apply wp_ret; split; [done|]; by split|].
      eapply wp_mono; [apply (IH response true s1); try done; rewrite Xi; lia|].
      intros r s2 (X2 & S2 & K2). split; [by transitivity (sess s1)|]. split; [congruence|].
      destruct (snd r); [done|]. rewrite <- P1. done.
    + change (len (d :: data) =? 0) with false. apply wp_bind, wp_modify. cbn [sess world].
      assert (streamed (sess s) (set_input (d :: data) (sess s1))) as X2 by (transitivity (sess s1); [done|by apply streamed_input]).
      eapply wp_mono; [apply (IH response false (mkSt (set_input (d :: data) (sess s1)) (world s1))); try done; cbn [sess input set_input]; [by eapply streamed_inv|destruct zero; lia]|].
      intros r s2 (X3 & S3 & K3). cbn [sess world] in *. split; [by etransitivity|]. split; [congruence|].
      destruct (snd r); [done|]. rewrite <- P1. done.
  - assert ((len (b :: rest) =? 0) = false) as -> by (apply Z.eqb_neq; unfold len; simpl; lia). cbn [negb].
    set (count := Nat.min _ _). apply wp_bind, wp_modify. cbn [sess world].
    assert (bytes (b :: rest)) as Bi by (rewrite <- Ei; apply (jinv_input _ I)).
    assert (streamed (sess s) (set_input (drop count (b :: rest)) (sess s))) as X1 by (apply streamed_input; by apply Forall_drop).
    assert (1 <= Z.of_nat count <= size - len response) as Hc by (subst count; simpl; lia).
    assert (len (response ++ take count (b :: rest)) = len response + Z.of_nat count) as Lc.
    { rewrite len_app. unfold len at 2. rewrite length_take. subst count. lia. }
    eapply wp_mono; [apply (IH _ zero (mkSt (set_input (drop count (b :: rest)) (sess s)) (world s))); cbn [sess input set_input]|].
    + by eapply streamed_inv.
    + apply Forall_app. split; [done|by apply Forall_take].
    + lia.
    + rewrite Lc. destruct (drop count (b :: rest)); [destruct zero|]; lia.
    + intros r s2 (X3 & S3 & K3). cbn [sess world] in *. split; [by etransitivity|]. split; [done|]. done.
Qed.

Lemma readExact_wp ctx size s : JInv (sess s) -> wp (readExact ctx size) (read_post size s) s.
Proof.
  intros I. unfold readExact. destruct (Z.ltb_spec size 0); [apply wp_ret; by split_and!|].
  apply wp_bind, jwp_transportReady.
  - intros e w Hw Hp. apply wp_ret. split_and!; try done.
  - intros w Hw Hn Hp _ _ _ _. 
    eapply wp_mono; [apply read_loop_wp; [done|done|constructor|change (len (@nil Z)) with 0; lia|change (len (@nil Z)) with 0; destruct (input _); lia]|].
    intros r s' (X & S & K). cbn [sess world] in *. split; [done|]. split; [congruence|done].
Qed.

(** A part of a response: on any error the session is poisoned. *)
Definition response_post (size : Z) s (r : list Z * err) s' : Prop :=
  streamed (sess s) (sess s') /\ sent (world s') = sent (world s) /\
  match snd r with
  | None => len (fst r) = size /\ bytes (fst r) /\ poisoned (sess s') = poisoned (sess s)
  | Some _ => fst r = [] /\ poisoned (sess s') = true
  end.

Lemma readResponsePart_wp ctx size s : JInv (sess s) -> wp (readResponsePart ctx size) (response_post size s) s.
Proof.
  intros I. unfold readResponsePart. apply wp_bind. eapply wp_mono; [by apply readExact_wp|].
  intros [resp e] s1 (X1 & S1 & K1). cbn [fst snd] in *. destruct e as [e|]; [|apply wp_ret; by split_and!].
  destruct K1 as [-> K1]. destruct (Is e jlink_ErrSessionPoisoned) eqn:Ep.
  - apply wp_ret. split_and!; try done. split; [done|]. by apply K1.
  - apply wp_bind, jwp_poison, wp_ret. split_and!; try done. transitivity (sess s1); [done|apply streamed_poison].
Qed.

Lemma readResponse_wp ctx size s :
  JInv (sess s) -> wp (readResponse ctx size) (fun r s' => response_post size s r s' /\ (snd r = None -> input (sess s') = [])) s.
Proof.
  intros I. unfold readResponse. apply wp_bind. eapply wp_mono; [by apply readResponsePart_wp|].
  intros [resp e] s1 (X1 & S1 & K1). cbn [fst snd] in *. destruct e as [e|]; [apply wp_ret; split; [split_and!|]; try done; by split; [|apply K1]|].
  apply wp_bind, wp_gets. destruct (input (sess s1)) as [|b l] eqn:Ei.
  - change (len [] =? 0) with true. apply wp_ret. split; [by split_and!|done].
  - assert ((len (b :: l) =? 0) = false) as -> by (apply Z.eqb_neq; unfold len; simpl; lia). cbn [negb].
    apply wp_bind, jwp_poison, wp_ret. split; [|done]. split_and!; try done. transitivity (sess s1); [done|apply streamed_poison].
Qed.

(** ** Exchanges *)

(** A complete answer, or nothing sent, or a poisoned session. *)
Definition answered (size : Z) s (r : list Z * err) s' : Prop :=
  streamed (sess s) (sess s') /\
  match snd r with
  | None => len (fst r) = size /\ bytes (fst r) /\ poisoned (sess s') = false /\ poisoned (sess s) = false /\ input (sess s') = [] /\
      device (sess s) = true /\ claim (sess s) = true /\ exists l, sent (world s') = sent (world s) ++ l
  | Some _ => sent (world s') = sent (world s) /\ poisoned (sess s') = poisoned (sess s) \/ poisoned (sess s') = true
  end.

Lemma jexchange_wp ctx req size s :
  JInv (sess s) -> wp (exchange ctx req size) (fun r s' => answered size s r s' /\ (snd r = None -> ctx_nil ctx = false)) s.
Proof.
  intros I. unfold exchange. apply wp_bind. eapply wp_mono; [by apply writeExact_wp|].
  intros [e|] s1 [(X1 & Xi & K1) N1]; [apply wp_ret; by split|]. destruct K1 as [Es [l L]]. destruct (N1 eq_refl) as (Hn & Hp & Hd & Hc).
  eapply wp_mono; [apply readResponse_wp; by rewrite Es|]. intros r s2 [(X2 & S2 & K2) Ni]. rewrite Es in *.
  split; [|done]. split; [done|]. destruct (snd r); [right; apply K2|]. destruct K2 as (Lr & Br & Pr). split_and!; try done; [congruence|by apply Ni|].
  exists l. congruence.
Qed.
End Facts.

(** * Configuring and scanning with a J-Link *)

(** What every operation only takes away. *)
Record jlater (s s' : Session) : Prop := {
  jl_poisoned : poisoned s = true -> poisoned s' = true;
  jl_gone : gone s = true -> gone s' = true;
  jl_closing : closing s = true -> closing s' = true;
  jl_device : device s = false -> device s' = false;
  jl_claim : claim s = false -> claim s' = false
}.

#[global] Instance jlater_preorder : PreOrder jlater.
Proof. split; [by split|]. intros a b c [] []. split; auto. Qed.

(** What transfers and configuration keep of the session's ownership. *)
Record jsame (s s' : Session) : Prop := {
  js_poisoned : poisoned s = true -> poisoned s' = true;
  js_gone : gone s = true -> gone s' = true;
  js_closing : closing s' = closing s;
  js_device : device s' = device s;
  js_claim : claim s' = claim s;
  js_application : application s' = application s
}.

#[global] Instance jsame_preorder : PreOrder jsame.
Proof. split; [by split|]. intros a b c [] []. split; auto; congruence. Qed.

Lemma streamed_jsame s s' : streamed s s' -> jsame s s'.
Proof. intros [-> _ P G]. by split. Qed.

Lemma jsame_same s s' :
  poisoned s' = poisoned s -> gone s' = gone s -> closing s' = closing s -> device s' = device s -> claim s' = claim s ->
  application s' = application s -> jsame s s'.
Proof. intros. split; congruence. Qed.

(** ** Limits *)

Lemma scanTransferLimit_spec m i limit : 8 <= m -> scanTransferLimit m i = (limit, None) -> m <= limit <= 504.
Proof.
  intros Hm. unfold scanTransferLimit, defaultTransferBits. change (504 / 8) with 63.
  set (n := if WorkspaceKnown i then _ else 63). assert (n <= 63) as Hn.
  { subst n. destruct (WorkspaceKnown i); [|lia]. case_match; [lia|lia]. }
  clearbody n. destruct (Z.ltb_spec (n * 8) m); [done|]. intros [= <-]. lia.
Qed.

Lemma le32_spec l : 4 <= len l -> bytes l -> exists v, le32 l = Some v /\ 0 <= v < 2 ^ 32.
Proof.
  intros L B. unfold le32. destruct (Z.ltb_spec (len l) 4); [lia|]. eexists. split; [done|].
  pose proof (le_value_range (take 4 l) (Forall_take _ 4 _ B)) as R.
  assert (len (take 4 l) = 4) as E by (unfold len in *; rewrite length_take; lia). rewrite E in R. exact R.
Qed.

Lemma le16_spec l : 2 <= len l -> bytes l -> exists v, le16 l = Some v /\ 0 <= v < 2 ^ 16.
Proof.
  intros L B. unfold le16. destruct (Z.ltb_spec (len l) 2); [lia|]. eexists. split; [done|].
  pose proof (le_value_range (take 2 l) (Forall_take _ 2 _ B)) as R.
  assert (len (take 2 l) = 2) as E by (unfold len in *; rewrite length_take; lia). rewrite E in R. exact R.
Qed.

Section Wire.
Context {W : Type} `{Recorded W} `{!SubmitErrors W}.
Implicit Types s : St (W := W).

(** The clock is a whole number of kilohertz, within the ceiling and its field. *)
Definition clock_ok (ceiling clock : Z) : Prop :=
  1_000 <= clock <= ceiling /\ clock mod 1_000 = 0 /\ clock / 1_000 <= 0xfffe.

Lemma clock_ok_rate ceiling rate : 1 <= rate <= Z.min (ceiling / 1_000) 0xfffe -> clock_ok ceiling (rate * 1_000).
Proof.
  intros Hr. pose proof (Z.mul_div_le ceiling 1_000). split; [lia|]. split; [apply Z.mod_mul; lia|]. rewrite Z.div_mul; lia.
Qed.

Lemma targetClock_wp ctx ceiling s :
  JInv (sess s) -> 1_000 <= ceiling ->
  wp (targetClock ctx ceiling) (fun r s' => streamed (sess s) (sess s') /\
    (snd r = None -> clock_ok ceiling (fst r) /\ poisoned (sess s') = poisoned (sess s))) s.
Proof.
  intros I Hc. assert (1 <= ceiling / 1_000) as Hr by (apply Z.div_le_lower_bound; lia).
  unfold targetClock. apply wp_bind, wp_gets, wp_bind. destruct (Has _ capabilityClock).
  - apply wp_bind. eapply wp_mono; [by apply jexchange_wp|]. intros [resp [e|]] s1 [[X1 K1] _]; cbn [fst snd] in K1.
    { apply wp_ret, wp_ret. by split. }
    destruct K1 as (Lr & Br & P1 & P0 & _). destruct (le32_spec resp) as (base & Eb & Rb); [lia|done|].
    destruct (le16_spec (drop 4 resp)) as (div & Ed & Rd); [unfold len in *; rewrite length_drop; lia|by apply Forall_drop|].
    apply wp_bind. eapply wp_lift; [exact Eb|]. apply wp_bind. eapply wp_lift; [exact Ed|].
    destruct (Z.eqb_spec base 0), (Z.eqb_spec div 0); cbn [orb]; try (apply wp_ret, wp_ret; by split).
    apply wp_ret. set (rate := Z.min _ _). assert (0 <= rate) as H0r.
    { subst rate. assert (0 <= base / div / 1000) by (apply Z.div_pos; [apply Z.div_pos; lia|lia]). lia. }
    destruct (Z.eqb_spec rate 0); apply wp_ret; (split; [done|]); [done|]. intros _. cbn [fst].
    split; [apply clock_ok_rate; lia|congruence].
  - apply wp_ret. destruct (Z.eqb_spec (Z.min (ceiling / 1_000) 65534) 0); apply wp_ret; (split; [done|]); [done|].
    intros _. split; [apply clock_ok_rate; lia|done].
Qed.

(** ** Configuration *)

Definition unconfigured s s' : Prop := JInv (sess s') /\ jsame (sess s) (sess s') /\ configured (sess s') = false.

Lemma unconfigured_streamed s s' :
  JInv (sess s) -> configured (sess s) = false -> streamed (sess s) (sess s') -> unconfigured s s'.
Proof. intros I C X. split_and!; [by eapply streamed_inv|by apply streamed_jsame|]. by rewrite (sm_rest _ _ X). Qed.

Lemma unconfigured_then s s1 s2 : unconfigured s s1 -> unconfigured s1 s2 -> unconfigured s s2.
Proof. intros (_ & L1 & _) (I & L2 & C). split_and!; try done. by transitivity (sess s1). Qed.

(** What a configured session promises. *)
Definition configured_as (target hz : Z) (x : Session) : Prop :=
  configured x = true /\ scanFailed x = false /\ inputCarry x = false /\ SelectedInterface (info x) = target /\
  clock_ok hz (clockHz x).

Definition configure_post (target hz : Z) s (e : err) s' : Prop :=
  JInv (sess s') /\ jsame (sess s) (sess s') /\
  match e with
  | None => configured_as target hz (sess s')
  | Some _ => sess s' = sess s /\ sent (world s') = sent (world s) \/ configured (sess s') = false
  end.

Lemma Inv_unconfigure x : JInv x -> JInv (set_scanFailed false (set_configured false x)).
Proof. intros []. by split. Qed.

Lemma configureTarget_body_wp ctx hz target limit s :
  JInv (sess s) -> configured (sess s) = false -> scanFailed (sess s) = false -> 1_000 <= hz -> 8 <= limit <= 504 ->
  wp (configureTarget_body ctx hz target limit) (fun e s' => JInv (sess s') /\ jsame (sess s) (sess s') /\
    match e with None => configured_as target hz (sess s') | Some _ => configured (sess s') = false end) s.
Proof.
  intros I C F Hh Hl. unfold configureTarget_body. apply wp_bind. eapply wp_mono; [by apply jexchange_wp|].
  intros [resp [e|]] s1 [[X1 K1] _]; cbn [fst snd] in K1; destruct (unconfigured_streamed s s1 I C X1) as (I1 & L1 & C1).
  { by apply wp_ret. }
  destruct K1 as (Lr & Br & _). destruct (le32_spec resp) as (v & Ev & _); [lia|done|].
  apply wp_bind. eapply wp_lift; [exact Ev|]. destruct (32 <=? v); [by apply wp_ret|].
  apply wp_bind, wp_modify. set (s2 := mkSt _ _).
  assert (JInv (sess s2)) as I2 by (destruct I1; split; cbn; try done; congruence).
  assert (jsame (sess s) (sess s2)) as L2 by (transitivity (sess s1); [done|by apply jsame_same]).
  assert (configured (sess s2) = false /\ scanFailed (sess s2) = false /\ SelectedInterface (info (sess s2)) = target) as (C2 & F2 & T2).
  { split_and!; [done| |done]. cbn. by rewrite (sm_rest _ _ X1). }
  clearbody s2. apply wp_bind. eapply wp_mono; [by apply targetClock_wp|]. intros [clock e] s3 [X3 K3]. cbn [fst snd] in K3.
  destruct (unconfigured_streamed s2 s3 I2 C2 X3) as (I3 & L3 & C3).
  assert (jsame (sess s) (sess s3)) as L03 by by transitivity (sess s2).
  destruct e as [e|]; [by apply wp_ret|]. destruct (K3 eq_refl) as [Hk _].
  apply wp_bind. eapply wp_mono; [by apply writeExact_wp|]. intros e s4 [(X4 & _ & K4) _].
  destruct (unconfigured_streamed s3 s4 I3 C3 X4) as (I4 & L4 & C4).
  assert (jsame (sess s) (sess s4)) as L04 by by transitivity (sess s3).
  destruct e as [e|]; [by apply wp_ret|]. destruct K4 as [E4 _].
  apply wp_bind, wp_modify, wp_ret. cbn [sess world].
  assert (SelectedInterface (info (sess s4)) = target) as T4 by (rewrite E4, (sm_rest _ _ X3); done).
  assert (scanFailed (sess s4) = false) as F4 by (rewrite E4, (sm_rest _ _ X3); done).
  split_and!.
  - destruct I4, Hk as (? & ? & ?). split; cbn; try done; intros _; [lia|by rewrite T4].
  - transitivity (sess s4); [done|by apply jsame_same].
  - split_and!; try done.
Qed.

Lemma configureTarget_wp ctx hz target m s :
  JInv (sess s) -> 8 <= m -> wp (configureTarget ctx hz target m) (configure_post target hz s) s.
Proof.
  intros I Hm. unfold configureTarget. destruct (Z.ltb_spec hz 1_000); [apply wp_ret; split_and!; try done; by left|].
  apply wp_bind, jwp_transportReady; [intros e w Hw _; apply wp_ret; split_and!; try done; by left|].
  intros w Hw _ _ _ _ _ _. apply wp_bind, wp_gets. cbn [sess].
  case_match; [apply wp_ret; split_and!; try done; by left|].
  destruct (scanTransferLimit m (info (sess s))) as [limit [e|]] eqn:El; [apply wp_ret; split_and!; try done; by left|].
  apply (scanTransferLimit_spec m _ _ Hm) in El. apply wp_bind, wp_modify. cbn [sess world].
  eapply wp_mono; [apply configureTarget_body_wp; try done; [by apply Inv_unconfigure|lia]|].
  intros e s' (I' & L' & K'). split_and!; [done|transitivity (set_scanFailed false (set_configured false (sess s))); [by apply jsame_same|done]|].
  destruct e; [by right|done].
Qed.

Lemma recoverScan_wp ctx s :
  JInv (sess s) -> (configured (sess s) = true \/ recoverableScan (sess s) = true) ->
  wp (recoverScan ctx) (fun e s' => JInv (sess s') /\ jsame (sess s) (sess s') /\
    match e with
    | None => configured (sess s') = true /\ (recoverableScan (sess s) = false -> s' = s) /\
        SelectedInterface (info (sess s')) = (if recoverableScan (sess s) then if SelectedInterface (info (sess s)) =? interfaceSWD then interfaceSWD else interfaceJTAG else SelectedInterface (info (sess s)))
    | Some _ => configured (sess s') = false \/ sent (world s') = sent (world s)
    end) s.
Proof.
  intros I Hc. unfold recoverScan. apply wp_bind, wp_gets. unfold id. destruct (recoverableScan (sess s)) eqn:Er; cbn [negb].
  2: { apply wp_ret. destruct Hc as [Hc|Hc]; [|done]. split_and!; try done. }
  set (t := if SelectedInterface (info (sess s)) =? interfaceSWD then interfaceSWD else interfaceJTAG).
  assert (wp (if SelectedInterface (info (sess s)) =? interfaceSWD then ConfigureSWD ctx (clockHz (sess s)) else ConfigureJTAG ctx (clockHz (sess s)))
    (configure_post t (clockHz (sess s)) s) s) as K.
  { subst t. case_match; apply configureTarget_wp; done. }
  apply wp_bind. eapply wp_mono; [exact K|]. intros e s1 (I1 & L1 & K1). apply wp_bind, wp_gets. unfold id.
  destruct e as [e|]; cbn [is_nil negb andb].
  - assert (forall s2, JInv (sess s2) -> jsame (sess s1) (sess s2) -> configured (sess s2) = configured (sess s1) -> sent (world s2) = sent (world s1) ->
      JInv (sess s2) /\ jsame (sess s) (sess s2) /\ (configured (sess s2) = false \/ sent (world s2) = sent (world s))) as G.
    { intros s2 I2 L2 C2 S2. split_and!; [done|by transitivity (sess s1)|]. rewrite C2, S2. destruct K1 as [[_ K1]|K1]; auto. }
    apply wp_bind. destruct (RestorationPossible (sess s1)).
    + apply wp_modify, wp_ret. apply G; first [done|destruct I1; by split|by apply jsame_same].
    + apply wp_ret, wp_ret. by apply G.
  - apply wp_bind, wp_ret, wp_ret. destruct K1 as (C1 & _ & _ & T1 & _). split_and!; try done.
Qed.
End Wire.
