(* ===== verification/JLinkScan.v ===== *)
(** * The bit streams of a J-Link scan

    What [scanStreams], [delayInputSamples] and [maskUnusedBits] make of their
    buffers, bit by bit. *)

From S2P Require Import Prelude Go Bits Mpsse FtdiFacts Usb UsbHost CmsisSwdFacts JLink JLinkWire.
From S2P Require Import CmsisFacts JLinkFacts.
Local Open Scope Z_scope.

Lemma index_byte buf k : 0 <= k < len buf -> index buf k = Some (default 0 (buf !! Z.to_nat k)).
Proof.
  intros Hk. unfold len in Hk. rewrite index_lookup by lia.
  destruct (lookup_lt_is_Some_2 buf (Z.to_nat k)) as [x ->]; [lia|done].
Qed.

Lemma store_gbit buf k b :
  0 <= k < len buf -> bytes buf -> is_byte b ->
  exists buf', store buf k b = Some buf' /\ bytes buf' /\ len buf' = len buf /\
    forall j, 0 <= j -> gbit buf' j = if j / 8 =? k then Z.testbit b (j mod 8) else gbit buf j.
Proof.
  intros Hk Hb B. rewrite store_in by done. eexists. split; [done|]. split_and!.
  - by apply Forall_insert.
  - apply len_insert.
  - intros j Hj. unfold gbit. destruct (Z.eqb_spec (j / 8) k) as [->|N].
    + rewrite list_lookup_insert_eq by (unfold len in Hk; lia). done.
    + rewrite list_lookup_insert_ne by (Z.to_euclidean_division_equations; lia). done.
Qed.

Lemma is_byte_bits b : 0 <= b -> (forall i, 8 <= i -> Z.testbit b i = false) -> is_byte b.
Proof. intros Hp Hb. unfold is_byte. split; [done|]. change 256 with (2 ^ 8). by apply bits_lt_pow2. Qed.

Lemma is_byte_land a b : is_byte a -> is_byte (Z.land a b).
Proof.
  intros Ha. apply is_byte_bits; [apply Z.land_nonneg; unfold is_byte in Ha; lia|].
  intros i Hi. by rewrite Z.land_spec, byte_bits_high.
Qed.

Lemma is_byte_ldiff a b : is_byte a -> is_byte (Z.ldiff a b).
Proof.
  intros Ha. apply is_byte_bits; [apply Z.ldiff_nonneg; unfold is_byte in Ha; lia|].
  intros i Hi. by rewrite Z.ldiff_spec, byte_bits_high.
Qed.

Lemma jstreamBit_spec buf i : 0 <= i < 8 * len buf -> JLinkWire.streamBit buf i = Some (gbit buf i).
Proof.
  intros Hi. unfold JLinkWire.streamBit. rewrite index_bit by done. cbn [mbind option_bind].
  rewrite Z.shiftl_1_l, any_bits_bit by (apply Z.mod_pos_bound; lia). done.
Qed.

Lemma setStreamBit_spec buf i v :
  0 <= i < 8 * len buf -> bytes buf ->
  exists buf', setStreamBit buf i v = Some buf' /\ bytes buf' /\ len buf' = len buf /\
    forall j, 0 <= j -> gbit buf' j = if j =? i then v else gbit buf j.
Proof.
  intros Hi Hb. unfold setStreamBit. rewrite index_bit by done. cbn [mbind option_bind].
  set (x := default 0 _). set (y := if v then _ else _).
  assert (is_byte x) as Bx by by apply bytes_default.
  assert (is_byte y) as By by (subst y; destruct v; [apply is_byte_lor; [done|apply is_byte_uint8]|by apply is_byte_ldiff]).
  destruct (store_gbit buf (i / 8) y) as (buf' & -> & B' & L' & G'); [unfold len in *; Z.to_euclidean_division_equations; lia|done|done|].
  exists buf'. split_and!; try done. intros j Hj. rewrite G' by done.
  destruct (Z.eqb_spec (j / 8) (i / 8)) as [E|N]; [|destruct (Z.eqb_spec j i); [congruence|done]].
  assert (gbit buf j = Z.testbit x (j mod 8)) as -> by (unfold gbit, x; by rewrite E).
  assert (0 <= j mod 8 < 8 /\ 0 <= i mod 8 < 8) as [Hm Hn] by (split; apply Z.mod_pos_bound; lia).
  assert (Z.testbit (uint8 (Z.shiftl 1 (i mod 8))) (j mod 8) = (j =? i)) as K.
  { change 1 with (Z.b2z true). rewrite shifted_bit, andb_true_l by lia.
    destruct (Z.eqb_spec (j mod 8) (i mod 8)), (Z.eqb_spec j i); try done; Z.to_euclidean_division_equations; lia. }
  subst y. destruct v; unfold and_not.
  - rewrite Z.lor_spec, K. destruct (j =? i); [by rewrite orb_true_r|by rewrite orb_false_r].
  - rewrite Z.ldiff_spec, K. destruct (j =? i); [by rewrite andb_false_r|by rewrite andb_true_r].
Qed.

(** Bits past the stream's end are cleared. *)
Lemma maskUnusedBits_spec buf bits :
  0 <= bits -> len buf = bytes_for bits -> bytes buf ->
  exists buf', maskUnusedBits buf bits = Some buf' /\ bytes buf' /\ len buf' = bytes_for bits /\
    forall j, 0 <= j -> gbit buf' j = (j <? bits) && gbit buf j.
Proof.
  intros Hn Hl Hb. unfold maskUnusedBits. pose proof (bytes_for_bound bits Hn) as Hf.
  destruct (Z.eqb_spec (bits mod 8) 0) as [E|N].
  - exists buf. split_and!; try done. intros j Hj. destruct (Z.ltb_spec j bits); [done|]. apply gbit_out.
    unfold bytes_for in *. Z.to_euclidean_division_equations; lia.
  - assert (0 <= len buf - 1 < len buf) as Hk by (rewrite Hl; unfold bytes_for in *; Z.to_euclidean_division_equations; lia).
    rewrite index_byte by done. cbn [mbind option_bind]. set (x := default 0 _).
    assert (0 <= bits mod 8 < 8) as Hm by (apply Z.mod_pos_bound; lia).
    destruct (store_gbit buf (len buf - 1) (Z.land x (Z.shiftl 1 (bits mod 8) - 1))) as (buf' & -> & B' & L' & G');
      [done|done|by apply is_byte_land, bytes_default|].
    exists buf'. split_and!; [done|done|congruence|]. intros j Hj. rewrite G' by done.
    destruct (Z.eqb_spec (j / 8) (len buf - 1)) as [Ej|Nj].
    + rewrite Z.shiftl_1_l, Z.sub_1_r, <- Z.ones_equiv, Z.land_spec, Z.testbit_ones by lia.
      assert (gbit buf j = Z.testbit x (j mod 8)) as -> by (unfold gbit, x; by rewrite Ej).
      rewrite andb_comm. f_equal.
      destruct (Z.leb_spec 0 (j mod 8)), (Z.ltb_spec (j mod 8) (bits mod 8)), (Z.ltb_spec j bits); try done;
        unfold bytes_for in *; Z.to_euclidean_division_equations; lia.
    + destruct (Z.ltb_spec j bits); [done|]. apply gbit_out. unfold bytes_for in *. Z.to_euclidean_division_equations; lia.
Qed.

Lemma prefix_spec n buf :
  0 <= n <= len buf -> bytes buf ->
  exists buf', prefix n buf = Some buf' /\ bytes buf' /\ len buf' = n /\ forall j, 0 <= j < 8 * n -> gbit buf' j = gbit buf j.
Proof.
  intros Hn Hb. unfold prefix. destruct (Z.ltb_spec (len buf) n); [lia|]. eexists. split; [done|]. split_and!.
  - by apply Forall_take.
  - unfold len in *. rewrite length_take. lia.
  - intros j Hj. unfold gbit. rewrite lookup_take_lt; [done|]. Z.to_euclidean_division_equations; lia.
Qed.

(** A caller's buffer cut to the stream. *)
Lemma cut_spec buf bits :
  0 <= bits <= 8 * len buf -> bytes buf ->
  exists buf', (prefix ((bits + 7) / 8) buf ≫= fun c => maskUnusedBits c bits) = Some buf' /\ bytes buf' /\ len buf' = bytes_for bits /\
    forall j, 0 <= j -> gbit buf' j = (j <? bits) && gbit buf j.
Proof.
  intros Hl Hb. change ((bits + 7) / 8) with (bytes_for bits). pose proof (bytes_for_bound bits) as Hf.
  destruct (prefix_spec (bytes_for bits) buf) as (c & -> & Bc & Lc & Gc); [lia|done|]. cbn [mbind option_bind].
  destruct (maskUnusedBits_spec c bits) as (m & -> & Bm & Lm & Gm); [lia|done|done|]. exists m. split_and!; try done.
  intros j Hj. rewrite Gm by done. destruct (Z.ltb_spec j bits); [|done]. by rewrite Gc by lia.
Qed.

Lemma scanStreams_spec direction output bits :
  0 <= bits -> bits <= 8 * len direction -> bits <= 8 * len output -> bytes direction ->
  exists control drive, scanStreams direction output bits = Some (control, drive) /\ bytes control /\ bytes drive /\
    len control = bytes_for bits /\ len drive = bytes_for bits /\
    (forall j, 0 <= j -> gbit control j = (j <? bits) && gbit direction j) /\
    (forall j, 0 <= j -> gbit drive j = (j <? bits) && (gbit direction j && gbit output j)).
Proof.
  intros Hn Hd Ho B. unfold scanStreams. change ((bits + 7) / 8) with (bytes_for bits). pose proof (bytes_for_bound bits Hn) as Hf.
  destruct (prefix_spec (bytes_for bits) direction) as (c & -> & Bc & Lc & Gc); [lia|done|]. cbn [mbind option_bind].
  pose proof (len_make_bytes (bytes_for bits) (bytes_for_nonneg bits Hn)) as Lm.
  match goal with |- context [for_range _ ?body _] =>
    destruct (blit_spec body (fun i => gbit direction i && gbit output i) 0 bits (make_bytes (bytes_for bits))) as (d & -> & Bd & Ld & Gd)
  end; try lia; [apply bytes_make| |].
  - intros i x Hi Hx. rewrite Z.add_0_l, (jstreamBit_spec direction) by lia. cbn [mbind option_bind].
    destruct (gbit direction i) eqn:Ei; [rewrite (jstreamBit_spec output) by lia; cbn [mbind option_bind]|cbn [mbind option_bind]]; cbn [andb].
    + destruct (gbit output i); [done|]. by rewrite or_bit_0 by lia.
    + by rewrite or_bit_0 by lia.
  - cbn [mbind option_bind]. destruct (maskUnusedBits_spec c bits) as (m & -> & Bm & Lc' & Gm); try done. cbn [mbind option_bind].
    exists m, d. split_and!; try done; [congruence| |].
    + intros j Hj. rewrite Gm by done. destruct (Z.ltb_spec j bits); [|done]. by rewrite Gc by lia.
    + intros j Hj. rewrite Gd, gbit_make_bytes by done. cbn [orb]. rewrite Z.sub_0_r, Z.add_0_l. by destruct (Z.leb_spec 0 j); [|lia].
Qed.

(** ** Delayed samples *)

(** The last sample taken while the target drove, before bit [n]. *)
Fixpoint last_input (direction samples : Z -> bool) (carry : bool) (n : nat) : bool :=
  match n with
  | O => carry
  | S n => if direction (Z.of_nat n) then last_input direction samples carry n else samples (Z.of_nat n)
  end.

Lemma last_input_ext d d' s s' carry n :
  (forall i, 0 <= i < Z.of_nat n -> d i = d' i /\ s i = s' i) -> last_input d s carry n = last_input d' s' carry n.
Proof.
  induction n as [|n IH]; intros E; [done|]. cbn [last_input]. destruct (E (Z.of_nat n)) as [-> ->]; [lia|].
  destruct (d' _); [|done]. apply IH. intros i Hi. apply E. lia.
Qed.

Lemma last_input_app d s d' s' carry n m :
  (forall i, 0 <= i < Z.of_nat m -> d' i = d (Z.of_nat n + i) /\ s' i = s (Z.of_nat n + i)) ->
  last_input d' s' (last_input d s carry n) m = last_input d s carry (n + m).
Proof.
  induction m as [|m IH]; intros E; [by rewrite Nat.add_0_r|]. rewrite Nat.add_succ_r. cbn [last_input].
  destruct (E (Z.of_nat m)) as [-> ->]; [lia|]. rewrite <- Nat2Z.inj_add. destruct (d _); [|done]. apply IH. intros i Hi. apply E. lia.
Qed.

Lemma delayInputSamples_spec direction samples bits carry :
  0 <= bits -> bits <= 8 * len direction -> bits <= 8 * len samples -> bytes samples ->
  exists result, delayInputSamples direction samples bits carry =
      Some (result, last_input (gbit direction) (gbit samples) carry (Z.to_nat bits)) /\
    bytes result /\ len result = len samples /\
    forall j, 0 <= j -> gbit result j =
      if (j <? bits) && negb (gbit direction j) then last_input (gbit direction) (gbit samples) carry (Z.to_nat j) else gbit samples j.
Proof.
  intros Hn Hd Hs B. unfold delayInputSamples.
  destruct (for_range_inv (fun i '(r, c) => c = last_input (gbit direction) (gbit samples) carry (Z.to_nat i) /\ bytes r /\ len r = len samples /\
      forall j, 0 <= j -> gbit r j =
        if (j <? i) && negb (gbit direction j) then last_input (gbit direction) (gbit samples) carry (Z.to_nat j) else gbit samples j)
    (fun (bit : Z) '(result, carry) =>
      d ← JLinkWire.streamBit direction bit;
      if (d : bool) then Some (result, carry)
      else result ← setStreamBit result bit carry; carry ← JLinkWire.streamBit samples bit; Some (result, carry))
    bits (samples, carry)) as ([r c] & E & -> & Br & Lr & Gr).
  - done.
  - intros i [r c] Hi (-> & Br & Lr & Gr). rewrite (jstreamBit_spec direction) by lia. cbn [mbind option_bind].
    assert (Z.to_nat (i + 1) = S (Z.to_nat i)) as Ei by lia.
    assert (Z.of_nat (Z.to_nat i) = i) as Ez by lia.
    destruct (gbit direction i) eqn:Ed.
    + eexists. split; [done|]. split_and!; try done; [rewrite Ei; cbn [last_input]; by rewrite Ez, Ed|].
      intros j Hj. rewrite Gr by done. destruct (Z.eq_dec j i) as [->|]; [rewrite Ed; by rewrite !andb_false_r|].
      by destruct (Z.ltb_spec j i), (Z.ltb_spec j (i + 1)); try lia.
    + destruct (setStreamBit_spec r i (last_input (gbit direction) (gbit samples) carry (Z.to_nat i))) as (r' & -> & Br' & Lr' & Gr'); [lia|done|].
      cbn [mbind option_bind]. rewrite (jstreamBit_spec samples) by lia. cbn [mbind option_bind]. eexists. split; [done|].
      split_and!; try done; [rewrite Ei; cbn [last_input]; by rewrite Ez, Ed|congruence|].
      intros j Hj. rewrite Gr' by done. destruct (Z.eqb_spec j i) as [->|].
      * rewrite Ed. destruct (Z.ltb_spec i (i + 1)); [done|lia].
      * rewrite Gr by done. by destruct (Z.ltb_spec j i), (Z.ltb_spec j (i + 1)); try lia.
  - split_and!; try done. intros j Hj. by destruct (Z.ltb_spec j 0); [lia|].
  - exists r. split_and!; [exact E|done|done|done].
Qed.

(** * Scans over any host

    A scan returns its samples, or the session says that it did not. *)

Section Scans.
Context {W : Type} `{Recorded W} `{!SubmitErrors W}.
Implicit Types s : St (W := W).

(** Samples of the whole stream; or nothing of it was sent; or the session can
    scan no more before it is configured anew. *)
Definition scan_post (bits : Z) s (r : list Z * err) s' : Prop :=
  JInv (sess s') /\ jsame (sess s) (sess s') /\
  match snd r with
  | None => configured (sess s') = configured (sess s) /\ info (sess s') = info (sess s) /\
      bytes (fst r) /\ len (fst r) = bytes_for bits /\ forall j, bits <= j -> gbit (fst r) j = false
  | Some _ => fst r = [] /\ (sent (world s') = sent (world s) \/ poisoned (sess s') = true \/ configured (sess s') = false)
  end.

Lemma scan_wp ctx control drive bits s :
  JInv (sess s) -> 0 <= bits -> len control = bytes_for bits ->
  wp (scan ctx control drive bits) (scan_post bits s) s.
Proof.
  intros I Hb Hc. unfold scan. apply wp_bind. eapply wp_mono; [by apply writeExact_wp|].
  intros [e|] s1 [(X1 & _ & K1) _].
  { apply wp_ret. split; [by eapply streamed_inv|]. split; [by apply streamed_jsame|]. split; [done|]. cbn [fst snd]. destruct K1 as [[]|]; auto. }
  destruct K1 as [Es _]. assert (JInv (sess s1)) as I1 by by rewrite Es.
  assert (forall s2 e, streamed (sess s1) (sess s2) -> poisoned (sess s2) = true -> scan_post bits s ([], Some e) s2) as Fail.
  { intros s2 e X2 P2. assert (streamed (sess s) (sess s2)) as X by by rewrite <- Es.
    split; [by eapply streamed_inv|]. split; [by apply streamed_jsame|]. split; [done|]. cbn [fst snd]. auto. }
  apply wp_bind. eapply wp_mono; [by apply readResponsePart_wp|]. intros [samples e] s2 (X2 & _ & K2). cbn [fst snd] in K2.
  destruct e as [e|]; [apply wp_ret; apply Fail; [done|apply K2]|]. destruct K2 as (L2 & B2 & P2).
  assert (JInv (sess s2)) as I2 by by eapply streamed_inv.
  apply wp_bind. eapply wp_mono; [by apply readResponse_wp|]. intros [status e] s3 [(X3 & _ & K3) _]. cbn [fst snd] in K3.
  assert (streamed (sess s1) (sess s3)) as X13 by by transitivity (sess s2).
  destruct e as [e|]; [apply wp_ret; apply Fail; [done|apply K3]|]. destruct K3 as (L3 & B3 & P3).
  assert (streamed (sess s) (sess s3)) as X by by rewrite <- Es. assert (JInv (sess s3)) as I3 by by eapply streamed_inv.
  apply wp_bind. eapply wp_lift; [apply index_byte; lia|]. destruct (negb _).
  - apply wp_bind, wp_modify, wp_ret. cbn [sess world]. split; [by destruct I3|]. split; [|split; [done|cbn [fst snd sess world]; auto]].
    transitivity (sess s3); [by apply streamed_jsame|by apply jsame_same].
  - destruct (maskUnusedBits_spec samples bits) as (m & Em & Bm & Lm & Gm); [done|congruence|done|].
    apply wp_bind. eapply wp_lift; [exact Em|]. apply wp_ret. cbn [fst snd].
    split; [done|]. split; [by apply streamed_jsame|]. cbn [fst snd].
    split; [by rewrite (sm_rest _ _ X)|]. split; [by rewrite (sm_rest _ _ X)|]. split_and!; try done.
    intros j Hj. rewrite Gm by lia. by destruct (Z.ltb_spec j bits); [lia|].
Qed.

(** What a scan starts from: the session as it was, or configured anew. *)
Definition prepared s s1 : Prop :=
  JInv (sess s1) /\ jsame (sess s) (sess s1) /\ configured (sess s1) = true /\
  SelectedInterface (info (sess s1)) = SelectedInterface (info (sess s)) /\
  (recoverableScan (sess s) = false -> sess s1 = sess s /\ sent (world s1) = sent (world s)).

(** The outcomes of a whole stream. *)
Definition io_post (bits : Z) s (r : list Z * err) s' : Prop :=
  JInv (sess s') /\ jsame (sess s) (sess s') /\
  match snd r with
  | None => (bits = 0 \/ configured (sess s') = true) /\ bytes (fst r) /\ len (fst r) = bytes_for bits /\ forall j, bits <= j -> gbit (fst r) j = false
  | Some _ => fst r = [] /\
      ((exists s1, (s1 = s \/ prepared s s1) /\ sent (world s') = sent (world s1)) \/ poisoned (sess s') = true \/ configured (sess s') = false)
  end.

Lemma io_refused bits s e w : JInv (sess s) -> sent w = sent (world s) -> io_post bits s ([], Some e) (mkSt (sess s) w).
Proof. intros I Hw. split; [done|]. split; [done|]. split; [done|]. left. exists s. auto. Qed.

(** The scan of a stream, once its bits are laid out. *)
Lemma prepared_scan ctx bits control drive s s1 :
  prepared s s1 -> 0 <= bits -> len control = bytes_for bits ->
  wp (scan ctx control drive bits) (fun r s' => io_post bits s r s' /\ (snd r = None -> info (sess s') = info (sess s1))) s1.
Proof.
  intros P Hb Hc. pose proof P as (I1 & L1 & C1 & T1 & _). eapply wp_mono; [by apply scan_wp|].
  intros [out e] s2 (I2 & L2 & K2). cbn [fst snd] in *. split.
  - split; [done|]. split; [by transitivity (sess s1)|]. cbn [fst snd]. destruct e as [e|].
    + destruct K2 as [-> [K2|K2]]; split; auto. left. exists s1. auto.
    + destruct K2 as (C2 & _ & ? & ? & ?). rewrite C1 in C2. auto.
  - intros ->. apply K2.
Qed.

(** The guards before a scan. *)
Lemma prepare_scan_wp ctx target (Q : err -> St -> Prop) s :
  JInv (sess s) -> (configured (sess s) = true \/ recoverableScan (sess s) = true) -> SelectedInterface (info (sess s)) = target ->
  target = interfaceSWD \/ target = interfaceJTAG ->
  (forall s1, prepared s s1 -> Q None s1) ->
  (forall e s1, JInv (sess s1) -> jsame (sess s) (sess s1) -> configured (sess s1) = false \/ sent (world s1) = sent (world s) -> Q (Some e) s1) ->
  wp (recoverScan ctx) Q s.
Proof.
  intros I Hc T Ht HN HE. eapply wp_mono; [by apply recoverScan_wp|]. intros [e|] s1 (I1 & L1 & K1); [by apply HE|].
  destruct K1 as (C1 & E1 & T1). apply HN. split_and!; try done.
  - rewrite T1, T. destruct (recoverableScan _); [|done]. by destruct Ht as [-> | ->].
  - intros F. by rewrite (E1 F).
Qed.

Lemma refused_wp bits s s0 e : 
  JInv (sess s) -> sess s0 = sess s -> sent (world s0) = sent (world s) ->
  wp (mret ([], Some e)) (io_post bits s) s0.
Proof. intros I E S. apply wp_ret. destruct s0. cbn in E, S. subst. by apply io_refused. Qed.

(** How a failed reconfiguration ends a stream. *)
Lemma recovery_failed bits s s0 s1 e :
  sess s0 = sess s -> sent (world s0) = sent (world s) -> JInv (sess s1) -> jsame (sess s0) (sess s1) ->
  configured (sess s1) = false \/ sent (world s1) = sent (world s0) -> io_post bits s ([], Some e) s1.
Proof.
  intros E S I L K. rewrite E in L. split; [done|]. split; [done|]. split; [done|]. destruct K as [K|K]; [auto|]. left. exists s. split; [auto|congruence].
Qed.

Lemma io_post_same bits s s0 r s' :
  sess s0 = sess s -> sent (world s0) = sent (world s) -> io_post bits s0 r s' -> io_post bits s r s'.
Proof.
  intros E S (I & L & K). rewrite E in L. split; [done|]. split; [done|]. destruct (snd r); [|done].
  destruct K as (-> & [(s1 & [-> |P] & K)|K]); split; auto.
  - left. exists s. split; [auto|congruence].
  - left. exists s1. split; [|done]. right. destruct P as (? & ? & ? & ? & P). rewrite E in *. split_and!; try done.
    intros F. destruct (P F). split; congruence.
Qed.

Lemma jtag_io_wp ctx tms tdi bits s :
  JInv (sess s) -> bytes tms -> bytes tdi -> wp (JTAGIO ctx tms tdi bits) (io_post bits s) s.
Proof.
  intros I Bt Bd. unfold JTAGIO. destruct (_ || _) eqn:G; [by apply refused_wp|].
  apply orb_false_iff in G as [[[G1 G2]%orb_false_iff G3]%orb_false_iff G4]. apply Z.ltb_ge in G1, G2, G3, G4.
  apply wp_bind, jwp_transportReady; [intros e w Hw _; by apply refused_wp|]. intros w Hw _ _ _ _ _ _.
  apply wp_bind, wp_gets. unfold id. cbn [sess]. destruct (_ || _) eqn:G; [by apply refused_wp|].
  apply orb_false_iff in G as [G5 G6]. apply negb_false_iff, Z.eqb_eq in G6.
  case_match; [by apply refused_wp|]. destruct (Z.eqb_spec bits 0) as [->|].
  { apply wp_ret. split; [done|]. split; [done|]. cbn [fst snd]. split; [by left|]. split; [constructor|]. split; [done|]. intros j Hj. apply gbit_out. unfold len. simpl. lia. }
  apply wp_bind. apply (prepare_scan_wp ctx interfaceJTAG); cbn [sess]; try done; [|by right| |].
  { apply andb_false_iff in G5 as [G5|G5]; apply negb_false_iff in G5; auto. }
  2: { intros e s1 I1 L1 K1. apply wp_ret. by eapply recovery_failed with (s0 := mkSt (sess s) w). }
  intros s1 P. destruct (cut_spec tms bits) as (c & Ec & Bc & Lc & Gc); [lia|done|].
  destruct (cut_spec tdi bits) as (d & Ed & Bd' & Ld & Gd); [lia|done|].
  apply wp_bind. eapply wp_lift; [exact Ec|]. apply wp_bind. eapply wp_lift; [exact Ed|].
  eapply wp_mono; [by apply (prepared_scan ctx bits c d (mkSt (sess s) w))|]. intros r s2 [K _]. by apply (io_post_same bits s (mkSt (sess s) w)).
Qed.

Lemma swd_io_wp ctx direction output bits s :
  JInv (sess s) -> bytes direction -> wp (SWDIO ctx direction output bits) (io_post bits s) s.
Proof.
  intros I Bd. unfold SWDIO. destruct (_ || _) eqn:G; [by apply refused_wp|].
  apply orb_false_iff in G as [[G1 G2]%orb_false_iff G3]. apply Z.leb_gt in G1. apply Z.ltb_ge in G2, G3.
  apply wp_bind, jwp_transportReady; [intros e w Hw _; by apply refused_wp|]. intros w Hw _ _ _ _ _ _.
  apply wp_bind, wp_gets. unfold id. cbn [sess]. destruct (_ || _) eqn:G; [by apply refused_wp|].
  apply orb_false_iff in G as [G5 G6]. apply negb_false_iff, Z.eqb_eq in G6.
  case_match; [by apply refused_wp|].
  apply wp_bind. apply (prepare_scan_wp ctx interfaceSWD); cbn [sess]; try done; [|by left| |].
  { apply andb_false_iff in G5 as [G5|G5]; apply negb_false_iff in G5; auto. }
  2: { intros e s1 I1 L1 K1. apply wp_ret. by eapply recovery_failed with (s0 := mkSt (sess s) w). }
  intros s1 P. destruct (scanStreams_spec direction output bits) as (c & d & Es & Bc & Bd' & Lc & Ld & Gc & Gd); [lia|lia|lia|done|].
  apply wp_bind. eapply wp_lift; [exact Es|]. apply wp_bind.
  eapply wp_mono; [apply (prepared_scan ctx bits c d (mkSt (sess s) w)); [done|lia|done]|]. intros [out e] s2 [K _].
  apply (io_post_same bits s) in K; [|done|done]. destruct e as [e|]; [apply wp_ret; destruct K as (? & ? & K); cbn [fst snd] in K; by destruct K as [-> ?]|].
  destruct K as (I2 & L2 & C2 & B2 & Ln2 & Z2). cbn [fst snd] in *. pose proof (bytes_for_bound bits) as Hf.
  apply wp_bind, wp_gets. unfold id. apply wp_bind.
  assert (forall x (r : list Z), JInv x -> jsame (sess s) x -> bits = 0 \/ configured x = true -> bytes r -> len r = bytes_for bits ->
    wp (samples ← lift (maskUnusedBits r bits); mret (samples, None)) (io_post bits s) (mkSt x (world s2))) as Last.
  { intros x r Ix Lx Cx Br Lr. destruct (maskUnusedBits_spec r bits) as (m & Em & Bm & Lm & Gm); [lia|done|done|].
    apply wp_bind. eapply wp_lift; [exact Em|]. apply wp_ret. split; [done|]. split; [done|]. cbn [fst snd]. split; [done|]. split_and!; try done.
    intros j Hj. rewrite Gm by lia. by destruct (Z.ltb_spec j bits); [lia|]. }
  destruct (delayInput (sess s2)).
  - destruct (delayInputSamples_spec direction out bits (inputCarry (sess s2))) as (r & Er & Br & Lr & _); [lia|lia|lia|done|].
    apply wp_bind. eapply wp_lift; [exact Er|]. apply wp_bind, wp_modify, wp_ret. apply Last; try done; [by destruct I2| |congruence].
    transitivity (sess s2); [done|by apply jsame_same].
  - apply wp_ret. destruct s2. by apply Last.
Qed.
End Scans.
