(* ===== verification/JLinkLife.v ===== *)
(** * The lifecycle of a J-Link session

    Metadata, resynchronization, opening and closing over any host. *)

From S2P Require Import Prelude Go Bits Usb UsbHost CmsisFacts CmsisLife JLink JLinkWire JLinkSession JLinkFacts.
Local Open Scope Z_scope.

(** ** Closing *)

Definition jreleased (x : Session) : Prop := device x = false /\ claim x = false /\ configured x = false /\ closing x = true.

Section Close.
Context {W : Type} `{Recorded W} `{!SubmitErrors W}.
Implicit Types s : St (W := W).

(** Everything is given back, or there is an error and cleanup is pending;
    either way the session scans no more, and nothing was sent. *)
Definition jclose_post s (e : err) s' : Prop :=
  JInv (sess s') /\ jlater (sess s) (sess s') /\ closing (sess s') = true /\ configured (sess s') = false /\
  sent (world s') = sent (world s) /\ (jreleased (sess s') \/ e <> None /\ CleanupPending s' = true) /\ (e = None -> jreleased (sess s')).

Lemma JInv_unconfigured x : JInv x -> configured x = false -> forall y,
  application y = application x -> input y = input x -> configured y = false -> JInv y.
Proof. intros [] C y A I Cy. split; rewrite ?A, ?I; try done; congruence. Qed.

Lemma recordLoss_same e x : let y := if errors_Is e usb_ErrDeviceGone then set_gone true x else x in
  application y = application x /\ input y = input x /\ configured y = configured x /\ device y = device x /\ claim y = claim x /\
  closing y = closing x /\ jlater x y.
Proof. destruct (errors_Is e usb_ErrDeviceGone); cbn; by split_and!. Qed.

Lemma closeDevice_jwp result s :
  JInv (sess s) -> claim (sess s) = false -> configured (sess s) = false -> closing (sess s) = true ->
  wp (JLinkSession.closeDevice result) (fun e s' => jclose_post s e s' /\ (e = None -> result = None)) s.
Proof.
  intros I Ec Eg Ek. unfold JLinkSession.closeDevice. apply wp_bind, wp_gets. unfold id. destruct (device (sess s)) eqn:Ed.
  2: { apply wp_ret. assert (jreleased (sess s)) by done. split; [|done]. split_and!; try done. by left. }
  apply wp_bind, jwp_host. pose proof (sent_close (world s)) as Sc. destruct (CloseDevice (world s)) as [e w]. cbn [fst snd] in *.
  apply wp_bind, jwp_recordLoss. cbn [sess world]. destruct (recordLoss_same e (sess s)) as (A & Ii & C & D & L & K & J).
  set (y := if errors_Is e _ then _ else _) in *. clearbody y. rewrite Eg in C. pose proof (JInv_unconfigured _ I Eg y A Ii C) as Iy.
  apply wp_bind, wp_gets. cbn [world]. apply wp_bind. destruct (is_nil e || _) eqn:Ep.
  - apply wp_modify, wp_ret. cbn [sess world]. rewrite Ec in L. rewrite Ek in K. assert (jreleased (set_device false y)) as R by by split_and!.
    split; [split_and!; try done|].
    + by apply (JInv_unconfigured _ Iy C).
    + transitivity y; [done|]. by split.
    + by left.
    + by intros [-> _]%errors_Join_None2.
  - apply orb_false_iff in Ep as [En Ep]. destruct e as [e|]; [|done]. apply wp_ret, wp_ret. rewrite Ek in K.
    split; [split_and!; try done|].
    + right. split; [apply errors_Join_nonnil|]. unfold JLink.CleanupPending. cbn [sess world]. rewrite D, Ed.
      by rewrite (proj1 (negb_false_iff _) Ep), orb_true_r.
    + by intros [_ ?]%errors_Join_None2.
    + by intros [_ ?]%errors_Join_None2.
Qed.

Lemma Close_jwp s : JInv (sess s) -> wp JLinkSession.Close (jclose_post s) s.
Proof.
  intros I. unfold JLinkSession.Close. apply wp_bind, wp_modify. cbn [sess world]. set (x := set_configured _ _).
  assert (JInv x) as Ix by (destruct I; by split). assert (jlater (sess s) x) as Lx by (split; done || auto).
  assert (configured x = false /\ closing x = true) as [Cx Kx] by done. apply wp_bind, wp_gets. unfold id. cbn [sess].
  assert (forall s1 e r s2, jlater (sess s) (sess s1) -> sent (world s1) = sent (world s) ->
    jclose_post s1 e s2 /\ r -> jclose_post s e s2) as Then.
  { intros s1 e r s2 L1 S1 [(I2 & L2 & K2 & C2 & S2 & R2 & N2) _]. split_and!; try done; [by transitivity (sess s1)|congruence]. }
  destruct (claim x) eqn:El.
  - apply wp_bind, jwp_host. cbn [sess world]. pose proof (sent_close_claim (world s)) as Sc. destruct (CloseClaim (world s)) as [e w]. cbn [fst snd] in *.
    apply wp_bind, jwp_recordLoss. cbn [sess world]. destruct (recordLoss_same e x) as (A & Ii & C & D & L & K & J).
    set (y := if errors_Is e _ then _ else _) in *. clearbody y. rewrite Cx in C. pose proof (JInv_unconfigured _ Ix Cx y A Ii C) as Iy.
    apply wp_bind, wp_gets. cbn [world]. destruct (negb (is_nil e) && _) eqn:Ep.
    + apply andb_true_iff in Ep as [En Ep]. destruct e as [e|]; [|done]. apply wp_ret. rewrite Kx in K. split_and!; try done.
      * by transitivity x. * right. split; [done|]. unfold JLink.CleanupPending. cbn [sess world]. by rewrite L, El, Ep.
    + apply wp_bind, wp_modify. cbn [sess world]. rewrite Kx in K.
      eapply wp_mono; [apply closeDevice_jwp; cbn [sess]; try done; by apply (JInv_unconfigured _ Iy C)|].
      intros e' s2 P. eapply Then; [| |exact P]; cbn [sess world]; [|done].
      transitivity x; [done|]. transitivity y; [done|]. by split.
  - eapply wp_mono; [by apply closeDevice_jwp|]. intros e' s2 P. eapply Then; [| |exact P]; done.
Qed.
End Close.

(** ** Metadata *)

(** Reading metadata changes the metadata and the stream. *)
Record jlearned (s s' : Session) : Prop := {
  jle_rest : s' = set_info (info s') (set_input (input s') (set_poisoned (poisoned s') (set_gone (gone s') s)));
  jle_input : bytes (input s) -> bytes (input s');
  jle_poisoned : poisoned s = true -> poisoned s' = true;
  jle_gone : gone s = true -> gone s' = true
}.

#[global] Instance jlearned_preorder : PreOrder jlearned.
Proof.
  split; [by intros []; split|]. intros a b c [E1 B1 P1 G1] [E2 B2 P2 G2]. split; auto. rewrite E2, E1 at 1. done.
Qed.

Lemma streamed_learned s s' : streamed s s' -> jlearned s s'.
Proof. intros [E B P G]. split; try done. rewrite E. by destruct s. Qed.

Lemma jlearned_closed s s' : jlearned s s' -> JInv s -> configured s = false -> JInv s' /\ configured s' = false.
Proof.
  intros [E B _ _] I C. pose proof (B (jinv_input _ I)) as Bi. assert (configured s' = false) as C' by by rewrite E. split; [|done].
  destruct I. rewrite E in C' |- *. split; cbn in *; try done; congruence.
Qed.

Section Open.
Context {W : Type} `{Recorded W} `{!SubmitErrors W} `{!Timed W}.
Implicit Types s : St (W := W).
Abbreviation M := (GoM (St (W := W))).

Definition JLearns {A} (m : M A) : Prop :=
  forall s, JInv (sess s) -> configured (sess s) = false -> wp m (fun _ s' => jlearned (sess s) (sess s')) s.

Lemma JLearns_bind_when {A B} (P : A -> Prop) (m : M A) (f : A -> M B) :
  (forall s, JInv (sess s) -> configured (sess s) = false -> wp m (fun a s' => jlearned (sess s) (sess s') /\ P a) s) ->
  (forall a, P a -> JLearns (f a)) -> JLearns (mbind f m).
Proof.
  intros Hm Hf s I C. apply wp_bind. eapply wp_mono; [by apply Hm|]. intros a s1 [L1 Pa].
  destruct (jlearned_closed _ _ L1 I C) as [I1 C1]. eapply wp_mono; [by apply Hf|]. intros b s2 L2. by transitivity (sess s1).
Qed.

Lemma JLearns_bind {A B} (m : M A) (f : A -> M B) : JLearns m -> (forall a, JLearns (f a)) -> JLearns (mbind f m).
Proof.
  intros Hm Hf. apply (JLearns_bind_when (fun _ => True)); [|auto]. intros s I C. eapply wp_mono; [by apply Hm|]. auto.
Qed.

Lemma JLearns_ret {A} (a : A) : JLearns (mret a).
Proof. intros s I C. by apply wp_ret. Qed.

Lemma JLearns_gets {A} (f : St -> A) : JLearns (gets f).
Proof. intros s I C. by apply wp_gets. Qed.

Lemma JLearns_imod f : JLearns (JLinkSession.imod f).
Proof. intros s I C. apply wp_modify. cbn [sess]. by destruct (sess s). Qed.

Lemma JLearns_lift {A B} (o : option A) a (f : A -> M B) : o = Some a -> JLearns (f a) -> JLearns (x ← lift o; f x).
Proof. intros E Hf s I C. apply wp_bind. eapply wp_lift; [exact E|]. by apply Hf. Qed.

(** An exchange answers with exactly the bytes asked for. *)
Lemma JLearns_exchange {B} ctx req size (f : list Z * err -> M B) :
  (forall e l, JLearns (f (l, Some e))) -> (forall l, len l = size -> bytes l -> JLearns (f (l, None))) ->
  JLearns (r ← JLink.exchange ctx req size; f r).
Proof.
  intros HE HN. apply (JLearns_bind_when (fun r => snd r = None -> len (fst r) = size /\ bytes (fst r))).
  - intros s I C. eapply wp_mono; [by apply jexchange_wp|]. intros r s' [[X K] _]. split; [by apply streamed_learned|].
    intros E. rewrite E in K. split; apply K.
  - intros [l [e|]] K; [apply HE|]. destruct (K eq_refl). by apply HN.
Qed.

Lemma JLearns_write {B} ctx req (f : err -> M B) : (forall e, JLearns (f e)) -> JLearns (r ← writeExact ctx req; f r).
Proof.
  intros Hf. apply JLearns_bind; [|done]. intros s I C. eapply wp_mono; [by apply writeExact_wp|]. intros e s' [(X & _) _].
  by apply streamed_learned.
Qed.

Lemma JLearns_response {B} (m : M (list Z * err)) size (f : list Z * err -> M B) :
  (forall s, JInv (sess s) -> wp m (response_post size s) s) ->
  (forall e l, JLearns (f (l, Some e))) -> (forall l, len l = size -> bytes l -> JLearns (f (l, None))) -> JLearns (r ← m; f r).
Proof.
  intros Hm HE HN. apply (JLearns_bind_when (fun r => snd r = None -> len (fst r) = size /\ bytes (fst r))).
  - intros s I C. eapply wp_mono; [by apply Hm|]. intros r s' (X & _ & K). split; [by apply streamed_learned|].
    intros E. rewrite E in K. split; apply K.
  - intros [l [e|]] K; [apply HE|]. destruct (K eq_refl). by apply HN.
Qed.

Lemma JLearns_word {B} l n (f : Z -> M B) : len l = 4 -> bytes l -> (forall v, JLearns (f v)) -> n = 4 -> JLearns (v ← lift (le32 l); f v).
Proof. intros L Bl Hf ->. destruct (le32_spec l) as (v & E & _); [lia|done|]. by eapply JLearns_lift. Qed.

Lemma JLearns_readVersion ctx : JLearns (readVersion ctx).
Proof.
  apply JLearns_write. intros [e|]; [apply JLearns_ret|].
  apply (JLearns_response _ 2); [intros; by apply readResponsePart_wp|intros; apply JLearns_ret|]. intros l L B.
  destruct (le16_spec l) as (v & E & _); [lia|done|]. eapply JLearns_lift; [exact E|].
  apply (JLearns_response _ v); [intros s I; eapply wp_mono; [by apply readResponse_wp|by intros ? ? []]|intros; apply JLearns_ret|].
  intros r _ _. apply JLearns_bind; [apply JLearns_imod|intros; apply JLearns_ret].
Qed.

Lemma JLearns_readCapabilities ctx : JLearns (JLinkSession.readCapabilities ctx).
Proof.
  apply JLearns_exchange; [intros; apply JLearns_ret|]. intros short _ _. apply JLearns_bind; [apply JLearns_imod|]. intros _.
  destruct (Has short capabilityLong); [|apply JLearns_ret]. apply JLearns_exchange; [intros; apply JLearns_ret|]. intros long L _.
  eapply JLearns_lift; [unfold prefix; by rewrite L|]. case_match; [apply JLearns_ret|].
  apply JLearns_bind; [apply JLearns_imod|intros; apply JLearns_ret].
Qed.

Ltac word := apply JLearns_exchange; [intros; apply JLearns_ret|]; intros ? ? ?; eapply JLearns_word; [done|done| |reflexivity]; intros ?.
Ltac note := apply JLearns_bind; [apply JLearns_imod|intros _].

Lemma JLearns_readInterfaces ctx : JLearns (readInterfaces ctx).
Proof. unfold readInterfaces. word. note. word. case_match; [apply JLearns_ret|]. note. apply JLearns_ret. Qed.

Lemma JLearns_readHardware ctx : JLearns (readHardware ctx).
Proof. apply JLearns_bind; [apply JLearns_gets|]. intros c. case_match; [|apply JLearns_ret]. word. note. apply JLearns_ret. Qed.

Lemma JLearns_readWorkspace ctx : JLearns (readWorkspace ctx).
Proof. apply JLearns_bind; [apply JLearns_gets|]. intros c. case_match; [|apply JLearns_ret]. word. note. apply JLearns_ret. Qed.

Lemma JLearns_readInfo ctx : JLearns (JLinkSession.readInfo ctx).
Proof.
  apply JLearns_bind; [apply JLearns_readVersion|]. intros [e|]; [apply JLearns_ret|].
  apply JLearns_bind; [apply JLearns_readCapabilities|]. intros [e|]; [apply JLearns_ret|].
  apply JLearns_bind; [apply JLearns_readHardware|]. intros [e|]; [apply JLearns_ret|].
  apply JLearns_bind; [apply JLearns_readWorkspace|]. intros [e|]; [apply JLearns_ret|].
  apply JLearns_bind; [apply JLearns_gets|]. intros c. case_match; [apply JLearns_readInterfaces|apply JLearns_ret].
Qed.
End Open.

(** * Opening a J-Link

    Resynchronization, and what an opened or refused session owns. *)

(** ** The application interface *)

Definition jdirections (a : applicationInterface) : Prop :=
  any_bits (Address (bulkOut a)) 0x80 = false /\ any_bits (Address (bulkIn a)) 0x80 = true.

Lemma land_128 x : Z.land x 128 = if Z.testbit x 7 then 128 else 0.
Proof.
  change 128 with (2 ^ 7). apply Z.bits_inj'. intros m Hm. rewrite Z.land_spec, Z.pow2_bits_eqb by lia.
  destruct (Z.eqb_spec 7 m) as [<-|N].
  - rewrite andb_true_r. destruct (Z.testbit x 7); [by rewrite Z.pow2_bits_true|by rewrite Z.testbit_0_l].
  - rewrite andb_false_r. destruct (Z.testbit x 7); [by rewrite Z.pow2_bits_false|by rewrite Z.testbit_0_l].
Qed.

Lemma applicationCandidate_directions n a m : applicationCandidate n a = Some m -> jdirections m.
Proof.
  unfold applicationCandidate. destruct (_ || _); [done|]. destruct (Endpoints a) as [|x [|y [|? ?]]]; try done.
  destruct (_ || _) eqn:E; [done|]. apply orb_false_iff in E as [_ E]. apply Z.eqb_neq in E. rewrite !land_128 in E.
  unfold jdirections, any_bits. rewrite land_128.
  destruct (Z.testbit (Address x) 7) eqn:Ex, (Z.testbit (Address y) 7) eqn:Ey; try done; cbn [negb Z.eqb bulkOut bulkIn];
    case_match; try done; intros [= <-]; cbn [bulkOut bulkIn]; by rewrite !land_128, Ex, Ey.
Qed.

Lemma findApplicationInterface_directions cfg a : findApplicationInterface cfg = (a, None) -> jdirections a.
Proof.
  unfold findApplicationInterface. destruct (JLink.matches_ cfg) as [|m [|? ?]] eqn:E; try done. intros [= <-].
  assert (m ∈ JLink.matches_ cfg) as Hm by (rewrite E; constructor).
  unfold JLink.matches_ in Hm. apply list_elem_of_bind in Hm as (i & Hm & _). apply list_elem_of_omap in Hm as (x & _ & Hx).
  by apply applicationCandidate_directions in Hx.
Qed.

Section Resync.
Context {W : Type} `{Recorded W} `{!SubmitErrors W} `{!Timed W}.
Implicit Types s : St (W := W).

(** ** Resynchronization *)

(** Steps that send nothing, leave the session alone and take time. *)
Definition jpasses (ctx : context) s s' : Prop :=
  sess s' = sess s /\ sent (world s') = sent (world s) /\ (remaining ctx (world s') <= remaining ctx (world s))%nat.

#[local] Instance jpasses_preorder ctx : PreOrder (jpasses ctx).
Proof. split; [done|]. intros a b c (E1 & S1 & R1) (E2 & S2 & R2). split_and!; [congruence|congruence|lia]. Qed.

Definition JPasses (ctx : context) {A} (m : GoM (St (W := W)) A) : Prop :=
  forall s, JInv (sess s) -> wp m (fun _ s' => jpasses ctx s s') s.

Lemma JPasses_ret ctx {A} (a : A) : JPasses ctx (mret a).
Proof. intros s I. by apply wp_ret. Qed.

Lemma JPasses_bind ctx {A B} (m : GoM St A) (f : A -> GoM St B) :
  JPasses ctx m -> (forall a, JPasses ctx (f a)) -> JPasses ctx (mbind f m).
Proof.
  intros Hm Hf s I. apply wp_bind. eapply wp_mono; [by apply Hm|]. intros a s1 P1.
  eapply wp_mono; [apply Hf; by rewrite (proj1 P1)|]. intros b s2 P2. by transitivity s1.
Qed.

Lemma JPasses_gets ctx {A} (f : St -> A) : JPasses ctx (gets f).
Proof. intros s I. by apply wp_gets. Qed.

Lemma JPasses_wait ctx ctx' t : JPasses ctx (host (Wait ctx' t)).
Proof. intros s I. apply jwp_host. split_and!; [done|apply sent_wait|apply timed_wait]. Qed.

Lemma JPasses_abort ctx ep : JPasses ctx (host (AbortBulk ep)).
Proof. intros s I. apply jwp_host. split_and!; [done|apply sent_abort|apply timed_abort]. Qed.

Lemma JPasses_ctxErr ctx ctx' : ctx_nil ctx' = false -> JPasses ctx (ctxErr ctx').
Proof.
  intros Hn s I. unfold ctxErr, ctxAsk. rewrite Hn. apply wp_bind, jwp_host, wp_ret. split_and!; [done|apply sent_ctx|apply timed_ctx].
Qed.

Lemma JPasses_finishQuietRead ctx t capacity e expired : JPasses ctx (JLinkSession.finishQuietRead t capacity e expired).
Proof.
  apply JPasses_bind; [apply JPasses_wait|]. intros [[count [e'|]] d].
  - apply JPasses_bind; [apply JPasses_gets|]. intros a. case_match; apply JPasses_ret.
  - repeat (case_match; try apply JPasses_ret).
Qed.

Lemma JPasses_quiet ctx ctx' : ctx_nil ctx' = false -> JPasses ctx (JLinkSession.waitForInputQuiet ctx').
Proof.
  intros Hn s I. unfold JLinkSession.waitForInputQuiet. apply wp_bind, wp_gets, wp_bind, jwp_host.
  set (s1 := mkSt _ _). assert (jpasses ctx s s1) as P1.
  { split_and!; [done| |apply timed_submit]. cbn [world s1]. subst s1. cbn [world]. rewrite sent_submit.
    by rewrite (jinv_in _ I), andb_false_r, app_nil_r. }
  assert (JInv (sess s1)) as I1 by by rewrite (proj1 P1). clearbody s1.
  match goal with |- wp ?m _ _ => assert (JPasses ctx m) as K end.
  - destruct (SubmitBulk _ _ _ _) as [[t [e|]] w]; cbn [fst snd]; [apply JPasses_ret|].
    apply JPasses_bind; [apply JPasses_wait|]. intros [[count [e|]] d]; [|case_match; apply JPasses_ret].
    apply JPasses_bind; [apply JPasses_abort|]. intros [a|]; [apply JPasses_ret|].
    apply JPasses_bind; [|intros; apply JPasses_finishQuietRead]. case_match; [apply JPasses_ret|].
    apply JPasses_bind; [by apply JPasses_ctxErr|]. intros q. case_match; [apply JPasses_ret|].
    apply JPasses_bind; [by apply JPasses_ctxErr|]. intros; apply JPasses_ret.
  - eapply wp_mono; [by apply K|]. intros a s2 P2. by transitivity s1.
Qed.

Lemma jsynchronize_loop_wp fuel ctx s :
  JInv (sess s) -> ctx_nil ctx = false -> (remaining ctx (world s) < fuel)%nat ->
  wp (JLinkSession.synchronize_loop fuel ctx) (fun _ s' => streamed (sess s) (sess s') /\ sent (world s') = sent (world s)) s.
Proof.
  intros I Hn. revert s I. induction fuel as [|fuel IH]; intros s I Hf; [lia|]. cbn [JLinkSession.synchronize_loop].
  apply wp_bind. eapply wp_mono; [by apply (JPasses_quiet ctx)|]. intros [quiet e] s1 (E1 & S1 & R1).
  unfold ctxErr, ctxAsk. rewrite Hn. apply wp_bind, wp_bind, jwp_host, wp_ret.
  pose proof (timed_tick ctx (world s1)) as Ht. pose proof (sent_ctx ctx (world s1)) as Sc.
  destruct (ctx_Err ctx (world s1)) as [c w]. cbn [fst snd] in *.
  destruct (errors_Join _) as [e'|] eqn:Ej.
  { apply wp_bind, jwp_recordLoss, wp_ret. cbn [sess world]. rewrite E1. split; [apply streamed_gone|congruence]. }
  apply errors_Join_None2 in Ej as [-> Ec]. destruct c as [c|]; [done|].
  destruct quiet; [apply wp_ret; split; cbn [sess world]; [by rewrite E1|congruence]|].
  specialize (Ht eq_refl). eapply wp_mono; [apply IH; [cbn [sess]; by rewrite E1|cbn [world]; lia]|].
  intros r s2 [X2 S2]. cbn [sess world] in *. rewrite E1 in X2. split; [done|congruence].
Qed.

(** ** Opening *)

Definition open_target (config : openConfig) : Z := if interfaceID config =? interfaceJTAG then interfaceJTAG else interfaceSWD.

(** What a session that was opened holds. *)
Definition jopened (config : openConfig) (x : Session) : Prop :=
  device x = true /\ claim x = true /\ closing x = false /\
  if configure config then configured_as (open_target config) (cfg_maxClockHz config) x else configured x = false.

Definition jbody_post (config : openConfig) (e : err) s' : Prop :=
  JInv (sess s') /\ (e = None -> jopened config (sess s')).

Lemma configureOpen_wp ctx config s :
  JInv (sess s) -> device (sess s) = true -> claim (sess s) = true -> closing (sess s) = false -> configured (sess s) = false ->
  wp (configureOpen ctx config) (jbody_post config) s.
Proof.
  intros I Hd Hc Hk Hg. unfold configureOpen, jbody_post, jopened, open_target. destruct (configure config); cbn [negb]; [|by apply wp_ret].
  assert (forall target m, 8 <= m -> wp (configureTarget ctx (cfg_maxClockHz config) target m)
    (fun e s' => JInv (sess s') /\ (e = None -> device (sess s') = true /\ claim (sess s') = true /\ closing (sess s') = false /\
      configured_as target (cfg_maxClockHz config) (sess s'))) s) as K.
  { intros target m Hm. eapply wp_mono; [by apply configureTarget_wp|]. intros e s' (I' & L' & K'). split; [done|]. intros ->.
    destruct L' as [_ _ -> -> -> _]. done. }
  destruct (interfaceID config =? interfaceJTAG); by apply K.
Qed.

(** An endpoint is taken only under its own address. *)
Lemma selectedEndpoint_jwp ctx a s (Q : Endpoint * err -> St -> Prop) :
  (forall r w, sent w = sent (world s) -> (forall c, (remaining c w <= remaining c (world s))%nat) ->
     (snd r = None -> Address (fst r) = a) -> Q r (mkSt (sess s) w)) ->
  wp (JLinkSession.selectedEndpoint ctx a) Q s.
Proof.
  intros HQ. unfold JLinkSession.selectedEndpoint. apply wp_bind, jwp_host. pose proof (sent_endpoint ctx a (world s)) as S.
  pose proof (fun c => timed_endpoint c ctx a (world s)) as R.
  destruct (claimEndpoint ctx a (world s)) as [[ep [e|]] w]; cbn [fst snd] in *; [apply wp_ret; by apply HQ|].
  destruct (Z.eqb_spec (Address ep) a); cbn [negb orb]; [|apply wp_ret; by apply HQ].
  destruct (negb _); apply wp_ret; by apply HQ.
Qed.

Lemma readApplicationInfo_wp fuel ctx s :
  JInv (sess s) -> ctx_nil ctx = false -> configured (sess s) = false ->
  (remaining (WithTimeout ctx inputSyncTimeout) (world s) < fuel)%nat ->
  wp (readApplicationInfo fuel ctx) (fun _ s' => JInv (sess s') /\ configured (sess s') = false /\
    device (sess s') = device (sess s) /\ claim (sess s') = claim (sess s) /\ closing (sess s') = closing (sess s)) s.
Proof.
  intros I Hn Hg Hf. unfold readApplicationInfo. apply wp_bind, wp_gets.
  apply wp_bind, selectedEndpoint_jwp. cbn [sess world]. intros [inp [e|]] w1 _ R1 A1; [by apply wp_ret|].
  apply wp_bind, selectedEndpoint_jwp. cbn [sess world]. intros [out [e|]] w2 _ R2 A2; [by apply wp_ret|].
  cbn [fst snd] in *. specialize (A1 eq_refl). specialize (A2 eq_refl). specialize (R1 (WithTimeout ctx inputSyncTimeout)).
  specialize (R2 (WithTimeout ctx inputSyncTimeout)).
  apply wp_bind, wp_modify. cbn [sess world]. set (x := set_application _ _).
  assert (JInv x) as Ix by (destruct I; split; cbn; try done; [by rewrite A2|by rewrite A1]).
  apply wp_bind. unfold JLinkSession.synchronizeInput.
  eapply wp_mono; [apply jsynchronize_loop_wp; [done|done|cbn [world]; lia]|]. intros e s3 [X3 _]. cbn [sess] in X3.
  apply streamed_learned in X3. destruct (jlearned_closed _ _ X3 Ix Hg) as [I3 C3].
  assert (forall s4, jlearned x (sess s4) -> JInv (sess s4) /\ configured (sess s4) = false /\
    device (sess s4) = device (sess s) /\ claim (sess s4) = claim (sess s) /\ closing (sess s4) = closing (sess s)) as K.
  { intros s4 L4. destruct (jlearned_closed _ _ L4 Ix Hg) as [I4 C4]. rewrite (jle_rest _ _ L4) at 3 4 5. done. }
  destruct e as [e|]; [apply wp_ret; by apply K|]. eapply wp_mono; [by apply JLearns_readInfo|]. intros r s4 L4. apply K.
  by transitivity (sess s3).
Qed.

Lemma jopenSession_body_wp fuel ctx config s :
  JInv (sess s) -> ctx_nil ctx = false -> device (sess s) = true -> closing (sess s) = false -> configured (sess s) = false ->
  (remaining (WithTimeout ctx inputSyncTimeout) (world s) < fuel)%nat ->
  wp (JLinkSession.openSession_body fuel ctx config) (jbody_post config) s.
Proof.
  intros I Hn Hd Hk Hg Hf. unfold JLinkSession.openSession_body. apply wp_bind, wp_gets, wp_bind, jwp_host.
  pose proof (timed_claim (WithTimeout ctx inputSyncTimeout) (number (application (sess s))) (world s)) as R1.
  destruct (claimInterface _ (world s)) as [[e|] w1]; cbn [fst snd] in *; [by apply wp_ret|].
  apply wp_bind, wp_modify, wp_bind, jwp_host. cbn [sess world].
  pose proof (timed_alt (WithTimeout ctx inputSyncTimeout) (alternate_ (application (sess s))) w1) as R2.
  assert (JInv (set_claim true (sess s))) as I1 by (destruct I; by split).
  destruct (SetAltSetting _ w1) as [[e|] w2]; cbn [fst snd] in *; [by apply wp_ret|].
  apply wp_bind. eapply wp_mono; [apply readApplicationInfo_wp; [done|done|done|cbn [world]; lia]|].
  intros [e|] s3 (I3 & C3 & D3 & L3 & K3); cbn [sess] in *; [by apply wp_ret|].
  apply configureOpen_wp; [done|by rewrite D3|by rewrite L3|by rewrite K3|done].
Qed.

(** A failed open has closed the session. *)
Definition jopen_post (config : openConfig) (e : err) s' : Prop :=
  JInv (sess s') /\
  match e with
  | None => jopened config (sess s')
  | Some _ => closing (sess s') = true /\ configured (sess s') = false /\ (jreleased (sess s') \/ JLink.CleanupPending s' = true)
  end.

Lemma jopenSession_deferred_wp fuel ctx config identity a w :
  ctx_nil ctx = false -> jdirections a -> (remaining (WithTimeout ctx inputSyncTimeout) w < fuel)%nat ->
  wp (JLinkSession.openSession_deferred fuel ctx config) (jopen_post config) (mkSt (JLinkSession.newSession identity a) w).
Proof.
  intros Hn [Ho Hi] Hf. unfold JLinkSession.openSession_deferred. apply wp_bind.
  eapply wp_mono; [apply jopenSession_body_wp; try done|]. intros [e|] s1 [I1 K1].
  - apply wp_bind. eapply wp_mono; [by apply Close_jwp|]. intros c s2 (I2 & _ & K2 & C2 & _ & R2 & _). apply wp_ret.
    pose proof (errors_Join_Some e [c]) as N. destruct (errors_Join [Some e; c]); [|done]. split_and!; try done.
    destruct R2 as [R2|[_ R2]]; auto.
  - apply wp_ret. split; [done|]. by apply K1.
Qed.

(** Waiting for a configuration ends with the context. *)
Lemma inspect_loop_wp fuel ctx u w :
  (remaining ctx w < fuel)%nat ->
  exists a e w', inspect_loop fuel ctx u w = Done (a, e, w') /\ (e = None -> jdirections a) /\
    forall c, (remaining c w' <= remaining c w)%nat.
Proof.
  revert u w. induction fuel as [|fuel IH]; intros u w Hf; [lia|]. cbn [inspect_loop].
  pose proof (fun c => timed_config c ctx w) as R1. destruct (ActiveConfiguration ctx w) as [[cfg e] w1]. cbn [snd] in R1.
  destruct e as [e|].
  2: { destruct (findApplicationInterface cfg) as [a e] eqn:E. exists a, e, w1. split_and!; try done. intros ->.
       by eapply findApplicationInterface_directions. }
  destruct (negb _); [by eexists _, _, _|]. unfold waitForConfigurationInspection.
  pose proof (timed_tick ctx w1) as Ht. pose proof (fun c => timed_ctx c ctx w1) as Rc. destruct (ctx_Err ctx w1) as [c w2]. cbn [fst snd] in *.
  assert (forall c, (remaining c w2 <= remaining c w)%nat) as R2 by (intros x; specialize (R1 x); specialize (Rc x); lia).
  destruct c as [c|]; cbn [option_map]; [by eexists _, _, _|].
  destruct (IH (Some e) w2) as (a & e' & w' & E & D & R); [specialize (Ht eq_refl); specialize (R1 ctx); lia|].
  exists a, e', w'. split_and!; [done|done|]. intros x. specialize (R x). specialize (R2 x). lia.
Qed.

(** The whole of [openSession]. *)
Lemma jopenSession_wp fuel ctx options w :
  (remaining ctx w < fuel)%nat -> (remaining (WithTimeout ctx inputSyncTimeout) w < fuel)%nat ->
  wp (JLinkSession.openSession fuel ctx options) (fun r w' =>
    match r with
    | (Some x, None) => JInv x /\ jopened (fst (JLink.applyOptions options)) x
    | (None, Some _) => True
    | _ => False
    end) w.
Proof.
  intros Hf Hg. assert (forall (w : W) e, wp (fun w => let (c, w) := CloseDevice w in Done ((None, errors_Join [Some e; c]), w)) (fun (r : option Session * err) w' =>
    match r with (Some x, None) => JInv x /\ jopened (fst (JLink.applyOptions options)) x | (None, Some _) => True | _ => False end) w) as Fail.
  { intros w' e. unfold wp. destruct (CloseDevice w') as [c w1]. pose proof (errors_Join_Some e [c]). by destruct (errors_Join _). }
  unfold wp, JLinkSession.openSession, JLinkSession.prepareOpen in *. destruct (ctx_nil ctx) eqn:Hn; [apply Fail|].
  pose proof (fun c => timed_ctx c ctx w) as R1. destruct (ctx_Err ctx w) as [[e|] w1]; [apply Fail|]. cbn [snd] in R1.
  destruct (JLink.applyOptions options) as [config [e|]]; cbn [fst] in *; [apply Fail|].
  destruct (negb _); [apply Fail|]. unfold inspectApplication.
  destruct (inspect_loop_wp fuel ctx None w1) as (a & e & w2 & -> & D & R2); [specialize (R1 ctx); lia|].
  destruct e as [e|]; [apply Fail|].
  pose proof (jopenSession_deferred_wp fuel ctx config (Identity w1) a w2 Hn (D eq_refl)) as K. unfold wp in K.
  specialize (R1 (WithTimeout ctx inputSyncTimeout)). specialize (R2 (WithTimeout ctx inputSyncTimeout)).
  destruct (JLinkSession.openSession_deferred _ _ _ _) as [[e x]| |]; [|apply K; lia..].
  destruct K as [I K]; [lia|]. by destruct e.
Qed.
End Resync.
