(* ===== verification/JLinkProps.v ===== *)
(** * The J-Link package's contract

    First a probe that executes the scan command for any target and answers in
    packets of the size the host asks for, over which scans are exact; then the
    contract of scans, opening and closing, over such a probe and over any host. *)

From S2P Require Import Prelude Go Bits Mpsse FtdiFacts Usb UsbHost CmsisFacts CmsisSwdFacts CmsisLife JLink JLinkWire JLinkSession JLinkFacts JLinkScan JLinkLife.
Local Open Scope Z_scope.

(** [reply] is what the probe has not yet delivered. *)
Record JProbe {T : Type} (wire : bool * bool -> T -> bool * T) (clutter : bool) := mkJProbe {
  jtarget : T; reply : list Z; room : Z; taken : Z
}.
Arguments mkJProbe {T wire clutter}.
Arguments jtarget {T wire clutter}.
Arguments reply {T wire clutter}.
Arguments room {T wire clutter}.
Arguments taken {T wire clutter}.

Section Bench.
Context {T : Type} {wire : bool * bool -> T -> bool * T} {clutter : bool}.

(** The command 0xcf: a clock count, the first line's bits and the second
    line's; the answer is a sample per clock, whatever in the unused bits, and a
    zero status. *)
Definition scan_v3 (request : list Z) (t : T) : list Z * T :=
  match request with
  | c :: z :: lo :: hi :: body =>
      if (c =? 0xcf) && (z =? 0) then
        let bits := le_value [lo; hi] in
        let size := bytes_for bits in
        let (bs, t) := clocks wire (stream (take (Z.to_nat size) body) (drop (Z.to_nat size) body) 0 bits) t in
        (pack_bits (bs ++ replicate (Z.to_nat (8 * size - bits)) clutter) ++ [0], t)
      else ([], t)
  | _ => ([], t)
  end.

#[global] Instance JProbe_Env : Env (JProbe wire clutter) := { ctx_Err _ p := (None, p) }.

(** Handle one is a write, handle zero a read. *)
#[global] Instance JProbe_UsbHost : UsbHost (JProbe wire clutter) := {
  Identity _ := mkDeviceInfo 0 0 0 0 [] [];
  ActiveConfiguration _ p := ((noConfiguration, None), p);
  claimInterface _ p := (None, p);
  SetAltSetting _ p := (None, p);
  claimEndpoint _ _ p := ((noEndpoint, None), p);
  SubmitBulk _ endpoint data p :=
    if any_bits endpoint 0x80 then ((0%nat, None), mkJProbe (jtarget p) (reply p) (len data) (taken p))
    else let (r, t) := scan_v3 data (jtarget p) in ((1%nat, None), mkJProbe t (reply p ++ r) (room p) (len data));
  Wait _ handle p :=
    if (handle =? 0)%nat
    then let d := take (Z.to_nat (room p)) (reply p) in
         (len d, None, d, mkJProbe (jtarget p) (drop (Z.to_nat (room p)) (reply p)) (room p) (taken p))
    else (taken p, None, [], p);
  Aborted _ _ := false;
  AbortBulk _ p := (None, p);
  CloseClaim p := (None, p);
  claimCleanupPending := None;
  CloseDevice p := (None, p);
  deviceCleanupPending := None
}.

Implicit Types s : St (W := JProbe wire clutter).

(** A session that can send. *)
Record jusable (x : Session) : Prop := {
  ju_device : device x = true;
  ju_claim : claim x = true;
  ju_closing : closing x = false;
  ju_poisoned : poisoned x = false;
  ju_gone : gone x = false;
  ju_out : any_bits (Address (bulkOut (application x))) 0x80 = false;
  ju_in : any_bits (Address (bulkIn (application x))) 0x80 = true;
  ju_packet : 1 <= MaxPacketSize (bulkIn (application x))
}.

Lemma jusable_input l x : jusable x -> jusable (set_input l x).
Proof. intros []. by split. Qed.

Lemma jwp_ready_bench ctx (Q : err -> St -> Prop) s :
  jusable (sess s) -> ctx_nil ctx = false -> Q None s -> wp (transportReady ctx) Q s.
Proof.
  intros [D C L P G _ _ _] Hc HQ. unfold transportReady. apply wp_bind, wp_gets. unfold sessionReady.
  rewrite D, C, L, P, G, Hc. cbn [negb orb]. unfold ctxErr, ctxAsk. rewrite Hc. apply wp_bind, jwp_host, wp_ret.
  cbn [fst snd]. by destruct s.
Qed.

(** A read takes a packet of what is left. *)
Lemma readBulk_bench ctx s :
  jusable (sess s) ->
  let n := Z.to_nat (MaxPacketSize (bulkIn (application (sess s)))) in
  wp (readBulk ctx) (fun r s' => r = (take n (reply (world s)), None) /\ sess s' = sess s /\
    jtarget (world s') = jtarget (world s) /\ reply (world s') = drop n (reply (world s))) s.
Proof.
  intros U n. unfold readBulk. apply wp_bind, wp_gets, wp_bind. unfold bulkTransfer. apply wp_bind, jwp_host.
  cbn [SubmitBulk JProbe_UsbHost]. rewrite (ju_in _ U). cbn [fst snd]. apply wp_bind, jwp_recordLoss. cbn [sess world errors_Is].
  apply wp_bind, jwp_host. cbn [world sess Wait JProbe_UsbHost Nat.eqb fst snd jtarget reply room taken].
  apply wp_bind, jwp_recordLoss. cbn [errors_Is sess world]. apply wp_ret.
  assert (len (make_bytes (MaxPacketSize (bulkIn (application (sess s))))) = Z.of_nat n) as Lm.
  { pose proof (ju_packet _ U). rewrite len_make_bytes by lia. subst n. lia. }
  rewrite Lm, Nat2Z.id. set (d := take n (reply (world s))). assert (len d <= Z.of_nat n) as Ld by (subst d; unfold len; rewrite length_take; lia).
  assert (take (Z.to_nat (len d)) (received d (make_bytes (MaxPacketSize (bulkIn (application (sess s)))))) = d) as E.
  { unfold received, len in *. rewrite Nat2Z.id, take_app_le by (rewrite length_take; lia). rewrite take_take. apply take_ge. lia. }
  assert (len (received d (make_bytes (MaxPacketSize (bulkIn (application (sess s)))))) = Z.of_nat n) as Lr.
  { by rewrite len_received'. }
  rewrite Lr. destruct (Z.ltb_spec (len d) 0); [unfold len in *; lia|]. destruct (Z.ltb_spec (Z.of_nat n) (len d)); [lia|]. cbn [orb].
  apply wp_ret. cbn [sess world jtarget reply]. rewrite E. done.
Qed.

(** Reading takes the next bytes of what the session and the probe hold. *)
Definition read_bench (k : Z) s (r : list Z * err) s' : Prop :=
  r = (take (Z.to_nat k) (input (sess s) ++ reply (world s)), None) /\ sess s' = set_input (input (sess s')) (sess s) /\
  jtarget (world s') = jtarget (world s) /\ input (sess s') ++ reply (world s') = drop (Z.to_nat k) (input (sess s) ++ reply (world s)).

Lemma read_loop_bench n ctx size response zero s :
  jusable (sess s) -> ctx_nil ctx = false -> 0 <= size - len response <= len (input (sess s) ++ reply (world s)) ->
  2 * (size - len response) - (if input (sess s) is [] then 0 else 1) <= Z.of_nat n ->
  wp (read_loop n ctx size response zero) (fun r s' => exists r', r = (response ++ fst r', snd r') /\ read_bench (size - len response) s r' s') s.
Proof.
  intros U Hn. revert response zero s U. induction n as [|n IH]; intros response zero s U Hl Hf; cbn [read_loop].
  all: destruct (Z.leb_spec size (len response));
    [apply wp_ret; exists ([], None); rewrite app_nil_r; split; [done|]; replace (size - len response) with 0 by lia; by destruct s as [[] []]|].
  { exfalso. destruct (input (sess s)); lia. }
  apply wp_bind, wp_gets. destruct (input (sess s)) as [|b rest] eqn:Ei.
  - change (len [] =? 0) with true. cbn [negb]. apply wp_bind. eapply wp_mono; [by apply readBulk_bench|].
    intros [data e] s1 ([= -> ->] & Es & Et & Er). pose proof (ju_packet _ U) as Hp.
    set (k := Z.to_nat (MaxPacketSize (bulkIn (application (sess s))))) in *. cbn [app] in Hl.
    assert (len (take k (reply (world s))) <> 0) as Hd by (unfold len in *; rewrite length_take; lia).
    apply Z.eqb_neq in Hd as ->. apply wp_bind, wp_modify. cbn [sess world].
    eapply wp_mono; [apply (IH response false (mkSt (set_input (take k (reply (world s))) (sess s1)) (world s1))); cbn [sess world input set_input]|].
    + rewrite Es. by apply jusable_input.
    + by rewrite Er, take_drop.
    + destruct (take k (reply (world s))) eqn:Ek; [|lia]. exfalso. assert (length (take k (reply (world s))) = 0%nat) as K by by rewrite Ek.
      rewrite length_take in K. unfold len in *. lia.
    + intros r s2 (r' & -> & K1 & K2 & K3 & K4). cbn [sess world input set_input] in *. rewrite Er, take_drop in K1, K4. exists r'. split; [done|].
      split_and!; rewrite ?Ei; cbn [app]; [exact K1|rewrite K2, Es at 1; done|congruence|exact K4].
  - assert ((len (b :: rest) =? 0) = false) as -> by (apply Z.eqb_neq; unfold len; simpl; lia). cbn [negb].
    set (count := Nat.min _ _). apply wp_bind, wp_modify. cbn [sess world].
    assert (1 <= Z.of_nat count <= size - len response) as Hc by (subst count; simpl; lia).
    assert (length (take count (b :: rest)) = count) as Lt by (rewrite length_take; subst count; lia).
    assert (len (response ++ take count (b :: rest)) = len response + Z.of_nat count) as Lc by (rewrite len_app; unfold len at 2; lia).
    assert (drop count (b :: rest) ++ reply (world s) = drop count ((b :: rest) ++ reply (world s))) as Ed.
    { rewrite drop_app_le; [done|]. subst count. lia. }
    eapply wp_mono; [apply (IH _ zero (mkSt (set_input (drop count (b :: rest)) (sess s)) (world s))); cbn [sess world input set_input]|].
    + by apply jusable_input.
    + rewrite Lc, Ed. assert (len (drop count ((b :: rest) ++ reply (world s))) = len ((b :: rest) ++ reply (world s)) - Z.of_nat count) as ->; [|lia].
      unfold len. rewrite length_drop, length_app. subst count. lia.
    + rewrite Lc. destruct (drop count (b :: rest)); lia.
    + intros r s2 (r' & -> & K1 & K2 & K3 & K4). cbn [sess world input set_input] in *. rewrite Lc, Ed in K1, K4.
      exists (take count (b :: rest) ++ fst r', snd r'). split; [cbn [fst snd]; by rewrite <- app_assoc|]. rewrite K1. cbn [fst snd].
      assert (Z.to_nat (size - len response) = (count + Z.to_nat (size - (len response + Z.of_nat count)))%nat) as En by lia.
      split_and!; rewrite ?Ei; [|done|done|].
      * rewrite En. rewrite <- (take_take_drop ((b :: rest) ++ reply (world s))). rewrite (take_app_le (b :: rest)) by (subst count; lia). done.
      * rewrite K4, drop_drop. by rewrite En.
Qed.

Lemma readExact_bench ctx size s :
  jusable (sess s) -> ctx_nil ctx = false -> 0 <= size <= len (input (sess s) ++ reply (world s)) ->
  wp (readExact ctx size) (read_bench size s) s.
Proof.
  intros U Hn Hl. unfold readExact. destruct (Z.ltb_spec size 0); [lia|]. apply wp_bind, jwp_ready_bench; [done|done|].
  eapply wp_mono; [apply (read_loop_bench _ ctx size [] false s); try done; change (len (@nil Z)) with 0; [lia|destruct (input (sess s)); lia]|].
  intros r s' ([a e] & -> & K). change (len (@nil Z)) with 0 in K. rewrite Z.sub_0_r in K. exact K.
Qed.

Lemma writeExact_bench ctx req s r t :
  jusable (sess s) -> ctx_nil ctx = false -> 1 <= len req -> scan_v3 req (jtarget (world s)) = (r, t) ->
  wp (writeExact ctx req) (fun e s' => e = None /\ sess s' = sess s /\ jtarget (world s') = t /\ reply (world s') = reply (world s) ++ r) s.
Proof.
  intros U Hn Hl E. unfold writeExact. apply wp_bind, jwp_ready_bench; [done|done|].
  destruct (length req) as [|n] eqn:El; [unfold len in Hl; lia|]. cbn [write_loop].
  destruct (Z.leb_spec (len req) 0); [lia|]. apply wp_bind, wp_gets, wp_bind. unfold bulkTransfer. apply wp_bind, jwp_host.
  change (drop (Z.to_nat 0) req) with req. cbn [SubmitBulk JProbe_UsbHost]. rewrite (ju_out _ U), E. cbn [fst snd].
  apply wp_bind, jwp_recordLoss. cbn [sess world errors_Is]. apply wp_bind, jwp_host. cbn [world sess Wait JProbe_UsbHost Nat.eqb fst snd taken].
  apply wp_bind, jwp_recordLoss. cbn [errors_Is sess world]. apply wp_ret.
  destruct (Z.ltb_spec (len req) 0); [lia|]. rewrite Z.sub_0_r. destruct (Z.ltb_spec (len req) (len req)); [lia|]. cbn [orb].
  destruct (Z.eqb_spec (len req) 0); [lia|]. rewrite Z.add_0_l.
  destruct n; cbn [write_loop]; (destruct (Z.leb_spec (len req) (len req)); [|lia]); by apply wp_ret.
Qed.

(** ** Scans *)

Definition idle s : Prop := input (sess s) = [] /\ reply (world s) = [].

(** The target was clocked with [l] and [out] holds a bit per clock. *)
Definition scanned (l : list (bool * bool)) (bits : Z) (f : list bool -> Z -> bool) s (out : list Z) s' : Prop :=
  exists samples, clocks wire l (jtarget (world s)) = (samples, jtarget (world s')) /\
    bytes out /\ len out = bytes_for bits /\ (forall j, 0 <= j -> gbit out j = (j <? bits) && f samples j) /\ idle s'.

Lemma len_clocks_fst l (t : T) bs t' : clocks wire l t = (bs, t') -> len bs = len l.
Proof. intros E. pose proof (len_clocks wire l t) as L. by rewrite E in L. Qed.

Lemma stream_parts control drive bits :
  0 <= bits -> len control = bytes_for bits ->
  stream (take (Z.to_nat (bytes_for bits)) (control ++ drive)) (drop (Z.to_nat (bytes_for bits)) (control ++ drive)) 0 bits =
    stream control drive 0 bits.
Proof.
  intros Hb Hc. rewrite take_app_length', drop_app_length' by (unfold len in Hc; lia). done.
Qed.

Lemma scan_answer control drive bits (t : T) samples t' :
  0 <= bits < 2 ^ 16 -> len control = bytes_for bits -> clocks wire (stream control drive 0 bits) t = (samples, t') ->
  exists body, scan_v3 ([commandScanV3; 0] ++ le_bytes 2 (bits mod 2 ^ 16) ++ control ++ drive) t = (body ++ [0], t') /\
    bytes body /\ len body = bytes_for bits /\ forall j, 0 <= j < bits -> gbit body j = sample_at samples j.
Proof.
  intros Hb Hc E. pose proof (len_clocks_fst _ _ _ _ E) as Ls. rewrite len_stream in Ls by lia.
  pose proof (bytes_for_bound bits (proj1 Hb)) as Hf.
  assert (le_value [bits mod 2 ^ 16 mod 256; bits mod 2 ^ 16 / 256 mod 256] = bits) as Ev.
  { cbn [le_value]. rewrite (Z.mod_small bits) by lia. Z.to_euclidean_division_equations; lia. }
  cbn [scan_v3 app le_bytes]. change ((commandScanV3 =? 207) && (0 =? 0)) with true. cbv iota. rewrite Ev, stream_parts, E by (lia || done).
  eexists. split; [done|]. split; [apply bytes_pack_bits|].
  assert (len (samples ++ replicate (Z.to_nat (8 * bytes_for bits - bits)) clutter) = 8 * bytes_for bits) as Lr.
  { rewrite len_app, Ls. unfold len. rewrite length_replicate. lia. }
  split.
  - rewrite len_pack_bits, Lr. unfold bytes_for at 1. Z.to_euclidean_division_equations; lia.
  - intros j Hj. rewrite gbit_pack_bits by lia. apply sample_at_app_l. lia.
Qed.

Lemma scan_bench ctx control drive bits s :
  jusable (sess s) -> ctx_nil ctx = false -> idle s -> 0 < bits < 2 ^ 16 -> len control = bytes_for bits ->
  wp (scan ctx control drive bits) (fun r s' => snd r = None /\ sess s' = sess s /\
    scanned (stream control drive 0 bits) bits sample_at s (fst r) s') s.
Proof.
  intros U Hn [Ii Ir] Hb Hc. destruct (clocks wire (stream control drive 0 bits) (jtarget (world s))) as [samples t'] eqn:E.
  destruct (scan_answer control drive bits _ _ _ ltac:(lia) Hc E) as (body & Eb & Bb & Lb & Gb).
  pose proof (bytes_for_bound bits) as Hf. unfold scan. apply wp_bind.
  eapply wp_mono; [apply (writeExact_bench ctx _ s (body ++ [0]) t'); try done; rewrite !len_app; unfold len; simpl; lia|].
  intros e s1 (-> & Es & Et & Er). rewrite Ir in Er. cbn [app] in Er. apply wp_bind. unfold readResponsePart. apply wp_bind.
  eapply wp_mono; [apply readExact_bench; [by rewrite Es|done|rewrite Es, Ii, Er; cbn [app]; rewrite len_app, Lb, Hc; unfold len; simpl; lia]|].
  intros r s2 (-> & Es2 & Et2 & Er2). rewrite Es, Ii, Er, Hc in *. cbn [app] in *. rewrite take_app_length' by (unfold len in Lb; lia).
  rewrite drop_app_length' in Er2 by (unfold len in Lb; lia). apply wp_ret. apply wp_bind. unfold readResponse. apply wp_bind. unfold readResponsePart. apply wp_bind.
  eapply wp_mono; [apply readExact_bench; [rewrite Es2; by apply jusable_input|done|rewrite Er2; unfold len; simpl; lia]|].
  intros r s3 (-> & Es3 & Et3 & Er3). rewrite Er2 in *. cbn [take drop Z.to_nat Pos.to_nat Pos.iter_op Nat.add] in *.
  change (take (Z.to_nat 1) [0]) with [0]. change (drop (Z.to_nat 1) [0]) with (@nil Z) in Er3. apply app_nil in Er3 as [Ei3 Er3].
  apply wp_ret. apply wp_bind, wp_gets. rewrite Ei3. change (len [] =? 0) with true. cbn [negb]. apply wp_ret.
  apply wp_bind. eapply wp_lift; [done|]. change (0 =? 0) with true. cbn [negb].
  destruct (maskUnusedBits_spec body bits) as (m & Em & Bm & Lm & Gm); [lia|done|done|]. apply wp_bind. eapply wp_lift; [exact Em|].
  apply wp_ret. cbn [fst snd]. split; [done|]. split.
  { rewrite Es3, Ei3, Es2. rewrite <- Ii. by destruct (sess s). }
  exists samples. split_and!; try done; [rewrite Et3, Et2, Et; done|]. intros j Hj. rewrite Gm by done.
  destruct (Z.ltb_spec j bits); [|done]. by rewrite Gb by lia.
Qed.

(** A configured session, nothing left of an earlier scan. *)
Definition scanning (target bits : Z) s : Prop :=
  jusable (sess s) /\ idle s /\ configured (sess s) = true /\ scanFailed (sess s) = false /\
  SelectedInterface (info (sess s)) = target /\ bits <= transferBits (sess s) <= 504.

Lemma recoverScan_bench ctx s (Q : err -> St -> Prop) :
  scanFailed (sess s) = false -> Q None s -> wp (recoverScan ctx) Q s.
Proof.
  intros F HQ. unfold recoverScan. apply wp_bind, wp_gets. unfold id, recoverableScan. rewrite F, andb_false_r. cbn [andb negb].
  by apply wp_ret.
Qed.

Lemma JTAGIO_bench ctx tms tdi bits s :
  ctx_nil ctx = false -> scanning interfaceJTAG bits s -> 0 < bits -> bits <= 8 * len tms -> bits <= 8 * len tdi -> bytes tms -> bytes tdi ->
  wp (JTAGIO ctx tms tdi bits) (fun r s' => snd r = None /\ sess s' = sess s /\
    scanned (stream tms tdi 0 bits) bits sample_at s (fst r) s') s.
Proof.
  intros Hn (U & Hi & C & F & S & Hl) Hb Ht Hd Bt Bd. unfold JTAGIO, defaultTransferBits.
  destruct (Z.ltb_spec bits 0); [lia|]. destruct (Z.ltb_spec 504 bits); [lia|].
  destruct (Z.ltb_spec (len tms * 8) bits); [lia|]. destruct (Z.ltb_spec (len tdi * 8) bits); [lia|]. cbn [orb].
  apply wp_bind, jwp_ready_bench; [done|done|]. apply wp_bind, wp_gets. unfold id. rewrite C, S, Z.eqb_refl. cbn [negb andb orb].
  destruct (Z.ltb_spec (transferBits (sess s)) bits); [lia|]. destruct (Z.eqb_spec bits 0); [lia|].
  apply wp_bind, recoverScan_bench; [done|].
  destruct (cut_spec tms bits) as (c & Ec & Bc & Lc & Gc); [lia|done|]. destruct (cut_spec tdi bits) as (d & Ed & Bd' & Ld & Gd); [lia|done|].
  apply wp_bind. eapply wp_lift; [exact Ec|]. apply wp_bind. eapply wp_lift; [exact Ed|].
  assert (stream tms tdi 0 bits = stream c d 0 bits) as ->.
  { symmetry. apply stream_ext; intros i Hj; rewrite Z.add_0_l; [rewrite Gc by lia|rewrite Gd by lia]; by destruct (Z.ltb_spec i bits); [|lia]. }
  apply scan_bench; [done|done|done|lia|done].
Qed.

Lemma SWDIO_bench ctx direction output bits s :
  ctx_nil ctx = false -> scanning interfaceSWD bits s -> delayInput (sess s) = true ->
  0 < bits -> bits <= 8 * len direction -> bits <= 8 * len output -> bytes direction -> bytes output ->
  wp (SWDIO ctx direction output bits) (fun r s' => snd r = None /\ exists samples,
    clocks wire (undriven <$> stream direction output 0 bits) (jtarget (world s)) = (samples, jtarget (world s')) /\
    sess s' = set_inputCarry (last_input (gbit direction) (sample_at samples) (inputCarry (sess s)) (Z.to_nat bits)) (sess s) /\
    bytes (fst r) /\ len (fst r) = bytes_for bits /\ idle s' /\
    forall j, 0 <= j -> gbit (fst r) j = (j <? bits) &&
      (if gbit direction j then sample_at samples j else last_input (gbit direction) (sample_at samples) (inputCarry (sess s)) (Z.to_nat j))) s.
Proof.
  intros Hn (U & Hi & C & F & S & Hl) D Hb Hd Ho Bd Bo. unfold SWDIO.
  destruct (Z.leb_spec bits 0); [lia|]. destruct (Z.ltb_spec (len direction * 8) bits); [lia|].
  destruct (Z.ltb_spec (len output * 8) bits); [lia|]. cbn [orb].
  apply wp_bind, jwp_ready_bench; [done|done|]. apply wp_bind, wp_gets. unfold id. rewrite C, S, Z.eqb_refl. cbn [negb andb orb].
  destruct (Z.ltb_spec (transferBits (sess s)) bits); [lia|]. apply wp_bind, recoverScan_bench; [done|].
  destruct (scanStreams_spec direction output bits) as (c & d & Es & Bc & Bd' & Lc & Ld & Gc & Gd); [lia|done|done|done|].
  apply wp_bind. eapply wp_lift; [exact Es|]. apply wp_bind.
  eapply wp_mono; [apply scan_bench; [done|done|done|lia|done]|].
  intros [out e] s1 (Ee & Es1 & samples & Ec & B1 & L1 & G1 & I1). cbn [fst snd] in *. subst e.
  assert (stream c d 0 bits = undriven <$> stream direction output 0 bits) as Est.
  { unfold stream. rewrite <- list_fmap_compose. apply list_fmap_ext. intros k i Hk%lookup_seqZ. unfold undriven. simpl.
    rewrite Gc, Gd by lia. by destruct (Z.ltb_spec (0 + i) bits); [|lia]. }
  rewrite Est in Ec. pose proof (bytes_for_bound bits) as Hf.
  apply wp_bind, wp_gets. unfold id. rewrite Es1, D.
  destruct (delayInputSamples_spec direction out bits (inputCarry (sess s))) as (r & Er & Br & Lr & Gr); [lia|done|lia|done|].
  apply wp_bind, wp_bind. eapply wp_lift; [exact Er|]. apply wp_bind, wp_modify, wp_ret.
  destruct (maskUnusedBits_spec r bits) as (m & Em & Bm & Lm & Gm); [lia|congruence|done|]. apply wp_bind. eapply wp_lift; [exact Em|].
  apply wp_ret. cbn [fst snd sess world]. split; [done|]. exists samples.
  assert (forall n, (n <= Z.to_nat bits)%nat ->
    last_input (gbit direction) (gbit out) (inputCarry (sess s)) n = last_input (gbit direction) (sample_at samples) (inputCarry (sess s)) n) as El.
  { intros n Hln. apply last_input_ext. intros i Hi'. split; [done|]. rewrite G1 by lia. by destruct (Z.ltb_spec i bits); [|lia]. }
  split_and!; try done.
  - by rewrite Es1, El.
  - intros j Hj. rewrite Gm, Gr by done. destruct (Z.ltb_spec j bits); [|done]. cbn [andb].
    destruct (gbit direction j); cbn [negb]; [|apply El; lia]. rewrite G1 by done. by destruct (Z.ltb_spec j bits); [|lia].
Qed.
End Bench.

(** * The properties of the J-Link probe *)

(** ** A probe that answers *)

(** It offers SWD and JTAG, answers each command, reports an empty input as
    quiet, and ends every other context after [pticks] questions. *)
Record Peer := mkPeer { queue : list Z; want : Z; wrote : Z; pticks : nat }.

Definition peer_answer (c : list Z) : list Z :=
  match c with
  | [1] => [4; 0; 74; 76; 65; 0]
  | [0xe8] => [0; 0; 2; 0]
  | [0xc7; 0xff] => [3; 0; 0; 0]
  | [0xc7; _] => [0; 0; 0; 0]
  | 0xcf :: _ :: lo :: hi :: _ => replicate (Z.to_nat (bytes_for (lo + 256 * hi))) 0xff ++ [0]
  | _ => []
  end.

#[global] Instance Peer_Env : Env Peer := {
  ctx_Err ctx p :=
    let tick := match pticks p with
                | O => (Some DeadlineExceeded, p)
                | S n => (None, mkPeer (queue p) (want p) (wrote p) n)
                end in
    match ctx with
    | WithTimeout _ t => if t =? inputQuietInterval then (Some DeadlineExceeded, p) else tick
    | _ => tick
    end
}.

#[global] Instance Peer_UsbHost : UsbHost Peer := {
  Identity _ := mkDeviceInfo 0x1366 0x0101 0 0 [] [];
  ActiveConfiguration _ p := ((mkConfiguration 1 [mkInterface 2 [mkAlternate 0 0xff 0xff 0xff [mkEndpoint 0x81 TransferBulk 64; mkEndpoint 0x02 TransferBulk 64]]], None), p);
  claimInterface _ p := (None, p);
  SetAltSetting _ p := (None, p);
  claimEndpoint _ a p := ((mkEndpoint a TransferBulk 64, None), p);
  SubmitBulk _ endpoint data p :=
    if any_bits endpoint 0x80 then ((0%nat, None), mkPeer (queue p) (len data) (wrote p) (pticks p))
    else ((1%nat, None), mkPeer (queue p ++ peer_answer data) (want p) (len data) (pticks p));
  Wait _ handle p :=
    if (handle =? 0)%nat then
      if bool_decide (queue p = []) then (0, Some (Sentinel (context_Err DeadlineExceeded)), [], p)
      else let d := uint8 <$> take (Z.to_nat (want p)) (queue p) in
        (len d, None, d, mkPeer (drop (Z.to_nat (want p)) (queue p)) (want p) (wrote p) (pticks p))
    else (wrote p, None, [], p);
  Aborted _ _ := true;
  AbortBulk _ p := (None, p);
  CloseClaim p := (None, p);
  claimCleanupPending := None;
  CloseDevice p := (None, p);
  deviceCleanupPending := None
}.

#[global] Instance Peer_bytes : DeliversBytes Peer.
Proof.
  intros ctx t p. simpl. destruct (t =? 0)%nat; [|constructor]. case_bool_decide; [constructor|]. cbn [fst snd].
  apply Forall_fmap, Forall_true. intros x. apply is_byte_uint8.
Qed.

#[global] Instance Peer_submit : SubmitErrors (Traced Peer).
Proof. intros ctx ep d w. simpl. by destruct (any_bits ep 128). Qed.

#[global] Instance Peer_timed : Timed (Traced Peer).
Proof.
  refine {| remaining _ t := pticks (base t) |}.
  - intros ctx w. simpl. unfold traced. simpl. destruct (pticks (base w)) eqn:E; repeat case_match; simplify_eq/=; try done; lia.
  - intros _ ctx' w. simpl. unfold traced. simpl. destruct (pticks (base w)) eqn:E; repeat case_match; simplify_eq/=; lia.
  - intros. simpl. by destruct (any_bits ep 0x80).
  - intros. simpl. unfold traced. simpl. destruct (t =? 0)%nat; [|done]. by case_bool_decide.
  - done. - done. - done. - done. - done.
Defined.

Definition peer : Traced Peer := mkTraced (mkPeer [] 0 0 100) [].

(** A session on it, for one interface. *)
Definition peer_info (target : Z) : Info := with_Selected target true (with_Available 3 (newInfo (mkDeviceInfo 0x1366 0x0101 0 0 [] []))).

Definition peer_session (target : Z) : Session :=
  mkSession true true (mkApplication 2 0 (mkEndpoint 0x81 TransferBulk 64) (mkEndpoint 0x02 TransferBulk 64)) []
    (peer_info target) false true 1_000_000 504 (target =? interfaceSWD) false true false false false.

Lemma peer_inv target : JInv (peer_session target).
Proof. by split. Qed.

(** ** Exact scans *)

(** C28: over a probe that executes the scan command, SWDIO clocks the target with
    exactly the host's bits, released wherever the direction says so, whatever
    size of packet the answer arrives in.  Each driven bit returns its own sample
    and each undriven bit the sample taken at the previous undriven clock, of
    this stream or, for the first, of the one before, which the session carries;
    unused bits are zero. *)
Theorem jlink_swdio_exact {T} (wire : bool * bool -> T -> bool * T) clutter ctx direction output bits (s : St (W := JProbe wire clutter)) :
  ctx_nil ctx = false -> scanning interfaceSWD bits s -> delayInput (sess s) = true ->
  0 < bits -> bits <= 8 * len direction -> bits <= 8 * len output -> bytes direction -> bytes output ->
  wp (SWDIO ctx direction output bits) (fun r s' => snd r = None /\ exists samples,
    clocks wire (undriven <$> stream direction output 0 bits) (jtarget (world s)) = (samples, jtarget (world s')) /\
    sess s' = set_inputCarry (last_input (gbit direction) (sample_at samples) (inputCarry (sess s)) (Z.to_nat bits)) (sess s) /\
    bytes (fst r) /\ len (fst r) = bytes_for bits /\ idle s' /\
    forall j, 0 <= j -> gbit (fst r) j = (j <? bits) &&
      (if gbit direction j then sample_at samples j else last_input (gbit direction) (sample_at samples) (inputCarry (sess s)) (Z.to_nat j))) s.
Proof. apply SWDIO_bench. Qed.

(** A target that answers each clock with its parity so far. *)
Definition jparity (x : bool * bool) (t : bool) : bool * bool := let t := xorb t (xorb (fst x) (snd x)) in (t, t).

Definition probe_state (target : Z) : St (W := JProbe jparity true) := mkSt (peer_session target) (mkJProbe false [] 0 0).

Lemma probe_scanning target : scanning target 12 (probe_state target).
Proof. by repeat split. Qed.

Lemma jlink_swdio_exact_witness :
  wp (SWDIO Background [0x0f; 0x0f] [0x05; 0x03] 12) (fun r s' => snd r = None /\ len (fst r) = 2) (probe_state interfaceSWD) /\
  match SWDIO Background [0x0f; 0x0f] [0x05; 0x03] 12 (probe_state interfaceSWD) with
  | Done ((l, None), s) => jtarget (world s) = snd (clocks jparity (undriven <$> stream [0x0f; 0x0f] [0x05; 0x03] 0 12) false)
  | _ => False
  end.
Proof.
  split; [|by vm_compute].
  eapply wp_mono; [apply (jlink_swdio_exact jparity true Background [0x0f; 0x0f] [0x05; 0x03] 12 (probe_state interfaceSWD))|].
  1: done. 1: apply probe_scanning. 1-4: by vm_compute. 1-2: by repeat constructor.
  intros r s' (E & samples & _ & _ & _ & L & _). by split.
Defined.

(** C29: over the same probe JTAGIO is equivalent to clocking the target: TMS and
    TDI have the stream's bits at each clock, the target ends where the stream
    takes it, and the buffer holds one sample per clock and zeroes after them. *)
Theorem jlink_jtagio_exact {T} (wire : bool * bool -> T -> bool * T) clutter ctx tms tdi bits (s : St (W := JProbe wire clutter)) :
  ctx_nil ctx = false -> scanning interfaceJTAG bits s -> 0 < bits -> bits <= 8 * len tms -> bits <= 8 * len tdi -> bytes tms -> bytes tdi ->
  wp (JTAGIO ctx tms tdi bits) (fun r s' => snd r = None /\ sess s' = sess s /\
    scanned (stream tms tdi 0 bits) bits sample_at s (fst r) s') s.
Proof. apply JTAGIO_bench. Qed.

Lemma jlink_jtagio_exact_witness :
  wp (JTAGIO Background [0x0f; 0x0f] [0x05; 0x03] 12) (fun r s' => snd r = None /\ sess s' = sess (probe_state interfaceJTAG)) (probe_state interfaceJTAG) /\
  match JTAGIO Background [0x0f; 0x0f] [0x05; 0x03] 12 (probe_state interfaceJTAG) with
  | Done ((l, None), s) => jtarget (world s) = snd (clocks jparity (stream [0x0f; 0x0f] [0x05; 0x03] 0 12) false)
  | _ => False
  end.
Proof.
  split; [|by vm_compute].
  eapply wp_mono; [apply (jlink_jtagio_exact jparity true Background [0x0f; 0x0f] [0x05; 0x03] 12 (probe_state interfaceJTAG))|].
  1: done. 1: apply probe_scanning. 1-3: by vm_compute. 1-2: by repeat constructor.
  intros r s' (E & S & _). by split.
Defined.

(** ** Any host *)



(** Configuring an interface returns.  Without error the interface is selected,
    its clock a whole number of kilohertz, at least one, that does not exceed the
    ceiling and fits the command's field, and no failed scan or carried sample is
    left; with one, the session is as it was and nothing was sent, or it is not
    configured.  The session's limits hold throughout. *)
Theorem jlink_configure_contract {W} `{Recorded W} `{!SubmitErrors W} ctx hz target minimum (s : St (W := W)) :
  JInv (sess s) -> 8 <= minimum -> wp (configureTarget ctx hz target minimum) (configure_post target hz s) s.
Proof. apply configureTarget_wp. Qed.

(** Opening a probe returns once its contexts have run out at the latest, with
    a session or an error and never both.  The session holds the device and its
    interface, is not closing, and is configured exactly as the options ask: for
    the interface they name, at a clock within their ceiling. *)
Theorem jlink_open_contract {W} `{Recorded W} `{!SubmitErrors W} `{!Timed W} fuel ctx options (w : W) :
  (remaining ctx w < fuel)%nat -> (remaining (WithTimeout ctx inputSyncTimeout) w < fuel)%nat ->
  wp (openSession fuel ctx options) (fun r w' =>
    match r with
    | (Some x, None) => JInv x /\ jopened (fst (applyOptions options)) x
    | (None, Some _) => True
    | _ => False
    end) w.
Proof. apply jopenSession_wp. Qed.

(** Closing returns with everything released, or with an error and cleanup
    pending; the session is closing from then on, and nothing is sent. *)
Theorem jlink_close_contract {W} `{Recorded W} `{!SubmitErrors W} (s : St (W := W)) :
  JInv (sess s) -> wp Close (jclose_post s) s.
Proof. apply Close_jwp. Qed.
