(* ===== verification/Ownership.v ===== *)
(** * Owning a probe (probe, internal/probeusb, armdebug)

    A [Probe] owns a backend and lends one protocol surface at a time; a USB
    owner moves an attachment into the session that activation makes of it; an
    Arm connection owns a probe, the debug port on its surface and the MEM-APs
    opened through it.  Every owner keeps what a failed close left pending.
    Backends and debug ports are interfaces; nil receivers, which own nothing,
    are left out. *)

From S2P Require Import Prelude Go JtagTap JtagConn JtagChain SwdConn DapTypes DapErrors DapPort.
Local Open Scope Z_scope.

(** ** The probe (probe/probe.go, jtag.go, register.go) *)

Record Info := mkInfo { Product : string; Serial : string; Function_ : string; Location : string }.

(** [Backend] with the interfaces it may implement besides.  An activation says
    whether it returned a surface. *)
Record Backend (W : Type) := mkBackend {
  b_Close : GoM W err;
  b_CleanupPending : option (W -> bool);
  b_RestorationPossible : option (W -> bool);
  b_SWD : option (context -> Z -> GoM W (bool * err));
  b_RegisterSWD : option (context -> Z -> GoM W (bool * err));
  b_JTAG : option (context -> Z -> GoM W (bool * err))
}.
Arguments mkBackend {W}. Arguments b_Close {W}. Arguments b_CleanupPending {W}. Arguments b_RestorationPossible {W}.
Arguments b_SWD {W}. Arguments b_RegisterSWD {W}. Arguments b_JTAG {W}.

(** Which of the pointers are set; [inside] is the backend's state. *)
Record Probe (W : Type) := mkProbe {
  info : Info;
  backend : bool;
  p_wire : bool;
  registers : bool;
  p_jtag : bool;
  p_closing : bool;
  inside : W
}.
Arguments mkProbe {W}. Arguments info {W}. Arguments backend {W}. Arguments p_wire {W}. Arguments registers {W}.
Arguments p_jtag {W}. Arguments p_closing {W}. Arguments inside {W}.

(** [New], given a backend *)
Definition NewProbe {W} (i : Info) (w : W) : Probe W := mkProbe i true false false false false w.

Section Probe.
Context {W : Type} `{Env W} (bk : Backend W).
Abbreviation M := (GoM (Probe W)).

#[global] Instance Probe_Env : Env (Probe W) := {|
  ctx_Err := fun ctx p =>
    let '(e, w) := ctx_Err ctx (inside p) in (e, mkProbe (info p) (backend p) (p_wire p) (registers p) (p_jtag p) (p_closing p) w)
|}.

Definition set_backend x (p : Probe W) := mkProbe (info p) x (p_wire p) (registers p) (p_jtag p) (p_closing p) (inside p).
Definition set_surfaces x y z (p : Probe W) := mkProbe (info p) (backend p) x y z (p_closing p) (inside p).
Definition set_p_closing (p : Probe W) := mkProbe (info p) (backend p) (p_wire p) (registers p) (p_jtag p) true (inside p).

(** A call of the backend. *)
Definition on_backend {A} (m : GoM W A) : M A := fun p =>
  match m (inside p) with
  | Done (a, w) => Done (a, mkProbe (info p) (backend p) (p_wire p) (registers p) (p_jtag p) (p_closing p) w)
  | Panicked => Panicked
  | OutOfFuel => OutOfFuel
  end.

Definition probe_ctxErr (ctx : context) : M err := fun p =>
  if ctx_nil ctx then Panicked
  else let '(e, p) := ctx_Err ctx p in Done ((fun e => Sentinel (context_Err e)) <$> e, p).

Definition probe_RestorationPossible (p : Probe W) : bool :=
  if negb (backend p) then false
  else match b_RestorationPossible bk with Some f => f (inside p) | None => true end.

Definition probe_CleanupPending (p : Probe W) : bool :=
  if negb (backend p) then false
  else match b_CleanupPending bk with Some f => f (inside p) | None => true end.

Definition probe_Close : M err :=
  modify (fun p => set_surfaces false false false (set_p_closing p));;
  owned ← gets backend;
  if negb owned then mret None
  else
    e ← on_backend (b_Close bk);
    pending ← gets probe_CleanupPending;
    if negb (is_nil e) && pending then mret e
    else modify (set_backend false);; mret e.

Definition canActivate (ctx : context) (hz : Z) : M err :=
  if ctx_nil ctx then mret (Some (New "probe: nil context"))
  else
    e ← probe_ctxErr ctx;
    match e with
    | Some e => mret (Some e)
    | None =>
        if hz <? 1000 then mret (Some (New "probe: clock ceiling must be at least 1 kHz"))
        else
          busy ← gets (fun p => negb (backend p) || p_closing p || p_wire p || p_jtag p || registers p);
          mret (if busy : bool then Some (New "probe: owner is not available for activation") else None)
    end.

Definition activationError (hasSurface : bool) (e : err) : M err :=
  let e := if is_nil e && negb hasSurface then Some (New "probe: backend returned no protocol surface") else e in
  match e with
  | Some e => c ← probe_Close; mret (errors_Join [Some e; c])
  | None => mret None
  end.

(** [SWD], [RegisterSWD] and [JTAG]: the surface is lent when there is no error. *)
Definition activate (op : option (context -> Z -> GoM W (bool * err))) (unsupported : sentinel) (lend : Probe W -> Probe W)
    (ctx : context) (hz : Z) : M err :=
  e ← canActivate ctx hz;
  match e with
  | Some e => mret (Some e)
  | None =>
      match op with
      | None => mret (Some (Sentinel unsupported))
      | Some f =>
          '(surface, e) ← on_backend (f ctx hz);
          e ← activationError surface e;
          match e with
          | Some e => mret (Some e)
          | None => modify lend;; mret None
          end
      end
  end.

Definition probe_SWD := activate (b_SWD bk) probe_ErrUnsupportedSWD (fun p => set_surfaces true (registers p) (p_jtag p) p).
Definition probe_RegisterSWD := activate (b_RegisterSWD bk) probe_ErrUnsupportedRegisterSWD (fun p => set_surfaces (p_wire p) true (p_jtag p) p).
Definition probe_JTAG := activate (b_JTAG bk) probe_ErrUnsupportedJTAG (fun p => set_surfaces (p_wire p) (registers p) true p).

Definition SupportsRegisterSWD (p : Probe W) : bool :=
  if negb (backend p) || p_closing p then false else bool_decide (is_Some (b_RegisterSWD bk)).
End Probe.

(** ** Borrowed surfaces *)

Section Borrowed.
Context {W : Type}.

Definition borrowed {A} (active : Probe W -> bool) (refused : A) (f : W -> A * W) (p : Probe W) : A * Probe W :=
  if active p then
    let '(a, w) := f (inside p) in (a, mkProbe (info p) (backend p) (p_wire p) (registers p) (p_jtag p) (p_closing p) w)
  else (refused, p).

#[global] Instance Borrowed_SWD `{SwdConn.Wire W} : SwdConn.Wire (Probe W) := {|
  SwdConn.SWDIO := fun ctx direction output bits =>
    borrowed p_wire ([], Some (New "probe: inactive SWD wire")) (SwdConn.SWDIO ctx direction output bits);
  SwdConn.MaxTransferBits := Some (fun p =>
    if p_wire p then match SwdConn.MaxTransferBits with Some f => f (inside p) | None => 0 end else 0)
|}.

#[global] Instance Borrowed_JTAG `{JtagConn.Wire W} : JtagConn.Wire (Probe W) := {|
  JTAGIO := fun ctx tms tdi bits => borrowed p_jtag ([], Some (New "probe: inactive JTAG wire")) (JTAGIO ctx tms tdi bits);
  JtagConn.MaxTransferBits := Some (fun p =>
    if p_jtag p then match JtagConn.MaxTransferBits with Some f => f (inside p) | None => 0 end else 0)
|}.

Definition inactive : err := Some (Sentinel probe_errInactiveRegisterSWD).

#[global] Instance Borrowed_Registers `{RegisterTransport W} : RegisterTransport (Probe W) := {|
  reg_Connect := fun ctx => borrowed registers (0, inactive) (reg_Connect ctx);
  reg_Release := fun ctx => borrowed registers inactive (reg_Release ctx);
  reg_CleanupPending := fun p => registers p && reg_CleanupPending (inside p);
  reg_ReadDP := fun ctx addr => borrowed registers (0, RegisterUnsent, inactive) (reg_ReadDP ctx addr);
  reg_WriteDP := fun ctx addr d => borrowed registers (RegisterUnsent, inactive) (reg_WriteDP ctx addr d);
  reg_ReadAP := fun ctx addr => borrowed registers (0, RegisterUnsent, inactive) (reg_ReadAP ctx addr);
  reg_WriteAP := fun ctx addr d => borrowed registers (RegisterUnsent, inactive) (reg_WriteAP ctx addr d)
|}.
End Borrowed.

(** ** The owner of a USB attachment (internal/probeusb) *)

(** Which of the pointers are set. *)
Record owner (W : Type) := mkOwner { device : bool; session : bool; attached_ : W }.
Arguments mkOwner {W}. Arguments device {W}. Arguments session {W}. Arguments attached_ {W}.

Section Owner.
Context {W : Type}.
(** The attachment and the session, to be closed; what activates a session and
    says whether there is one; whether a session lends registers. *)
Variables (dev ses : Backend W) (activateSession : context -> Z -> GoM W (bool * err)) (lendsRegisters : W -> bool).
Abbreviation M := (GoM (owner W)).

#[global] Instance owner_Env `{Env W} : Env (owner W) := {|
  ctx_Err := fun ctx o => let '(e, w) := ctx_Err ctx (attached_ o) in (e, mkOwner (device o) (session o) w)
|}.

Definition on_usb {A} (m : GoM W A) : M A := fun o =>
  match m (attached_ o) with
  | Done (a, w) => Done (a, mkOwner (device o) (session o) w)
  | Panicked => Panicked
  | OutOfFuel => OutOfFuel
  end.

(** [o.device.raw()] of a nil device panics. *)
Definition owner_activate (ctx : context) (hz : Z) : M (bool * err) :=
  present ← gets device;
  if negb present then panic
  else
    '(s, e) ← on_usb (activateSession ctx hz);
    (if s : bool then modify (fun o => mkOwner false true (attached_ o)) else mret tt);;
    mret (s, e).

Definition registerOwner_activate (ctx : context) (hz : Z) : M (bool * err) :=
  '(s, e) ← owner_activate ctx hz;
  if negb s then mret (false, e)
  else lends ← gets (fun o => lendsRegisters (attached_ o)); mret (lends, e).

Definition cleanupPending (b : Backend W) (w : W) : bool :=
  match b_CleanupPending b with Some f => f w | None => true end.

Definition owner_Close : M err :=
  has ← gets session;
  e ← (if has : bool then on_usb (b_Close ses) else mret None);
  pending ← gets (fun o => has && cleanupPending ses (attached_ o));
  if negb (is_nil e) && pending then mret e
  else
    modify (fun o => mkOwner (device o) false (attached_ o));;
    present ← gets device;
    if negb present then mret e
    else
      c ← on_usb (b_Close dev);
      modify (fun o => if is_nil c || negb (cleanupPending dev (attached_ o)) then mkOwner false (session o) (attached_ o) else o);;
      mret (errors_Join [e; c]).

Definition owner_CleanupPending (o : owner W) : bool :=
  (session o && cleanupPending ses (attached_ o)) || (device o && cleanupPending dev (attached_ o)).

Definition owner_RestorationPossible (o : owner W) : bool :=
  let possible b := match b_RestorationPossible b with Some f => f (attached_ o) | None => true end in
  if session o then possible ses else if device o then possible dev else false.

(** The backends over an attachment: [owner], [jtagOwner], [registerOwner] and
    [attachmentOwner]. *)
Definition owner_backend (swd jtag register : bool) : Backend (owner W) :=
  mkBackend owner_Close (Some owner_CleanupPending) (Some owner_RestorationPossible)
    (if swd then Some owner_activate else None) (if register then Some registerOwner_activate else None)
    (if jtag then Some owner_activate else None).
End Owner.

(** [open]: the attachment is acquired by [usb_Open]. *)
Definition probeusb_open {W} `{Env W} (usb_Open : context -> GoM W err) (i : Info) (ctx : context) (w : W) : outcome ((option Info * err) * owner W) :=
  let nothing e w := Done ((None, e), mkOwner false false w) in
  if ctx_nil ctx then nothing (Some (New "probe: nil open context")) w
  else
    let '(e, w) := ctx_Err ctx w in
    match e with
    | Some e => nothing (Some (Sentinel (context_Err e))) w
    | None =>
        match usb_Open ctx w with
        | Done (Some e, w) => nothing (Some e) w
        | Done (None, w) => Done ((Some i, None), mkOwner true false w)
        | Panicked => Panicked
        | OutOfFuel => OutOfFuel
        end
    end.

(** ** Arm connections (armdebug) *)

(** *** Configuration (config.go) *)

Record PortConfig := mkPortConfig {
  swdClock : Z;
  jtagClock : Z;
  layout : Layout;
  tapIndex : Z;
  isJTAG : bool;
  configured : bool
}.

Definition SWDP (hz : Z) : PortConfig := mkPortConfig hz 0 [] 0 false true.
Definition JTAGDP (hz : Z) (l : Layout) (i : Z) : PortConfig := mkPortConfig 0 hz l i true true.

Record Config := mkConfig { Port : PortConfig; CleanupTimeout : Z }.

Definition validatePort (p : PortConfig) : err :=
  let clock := if isJTAG p then jtagClock p else swdClock p in
  if negb (configured p) || (clock <? 1000) then Some (New "armdebug: explicit debug-port clock ceiling of at least 1 kHz required")
  else if negb (isJTAG p) then None
  else match Validate (layout p) with
  | Some e => Some e
  | None =>
      if (tapIndex p <? 0) || (len (layout p) <=? tapIndex p) then Some (New "armdebug: JTAG TAP index outside the expected chain")
      else
        let tap := default zeroSpec (layout p !! Z.to_nat (tapIndex p)) in
        if Bypass_ (ResetRegister tap) || (negb (IRBits tap =? 4) && negb (IRBits tap =? 8))
        then Some (New "armdebug: JTAG-DP requires a TAP with an IDCODE and a four- or eight-bit IR")
        else None
  end.

Definition arm_cleanupTimeout (c : Config) : Z :=
  if negb (CleanupTimeout c =? 0) then CleanupTimeout c
  else if isJTAG (Port c) then 30 * second else second.

(** *** The connection (conn.go, memap.go, open.go) *)

(** What package dap gives over a probe and the state [P] of a debug port and
    its MEM-APs, which clients name. *)
Class DebugPorts (W P Client : Type) := {
  dp_New : PortConfig -> binding -> P;
  dp_Connect : context -> GoM (Probe W * P) err;
  dp_Release : context -> GoM (Probe W * P) err;
  dp_CleanupPending : Probe W * P -> bool;
  dp_OpenMemAP : context -> APSel -> GoM (Probe W * P) (Client * err);
  dp_ReleaseMemAP : Client -> context -> GoM (Probe W * P) err
}.

(** Releases and closes, as they happen. *)
Inductive armEvent :=
| AMemAP (sel : APSel) (e : err)
| APort (e : err)
| AProbe (e : err).

(** [Conn]: whether its probe and port pointers are set. *)
Record Arm (W P Client : Type) := mkArm {
  a_probe : bool;
  a_port : bool;
  a_info : Info;
  closing : bool;
  memories : list (APSel * Client);
  cleanupTimeout_ : Z;
  events : list armEvent;
  below : Probe W * P
}.
Arguments mkArm {W P Client}. Arguments a_probe {W P Client}. Arguments a_port {W P Client}. Arguments a_info {W P Client}.
Arguments closing {W P Client}. Arguments memories {W P Client}. Arguments cleanupTimeout_ {W P Client}. Arguments events {W P Client}. Arguments below {W P Client}.

Section Arm.
Context {W P Client : Type} `{Env W} `{DebugPorts W P Client} (bk : Backend W).
Abbreviation M := (GoM (Arm W P Client)).

Definition set_a_probe x (s : Arm W P Client) : Arm W P Client := mkArm x (a_port s) (a_info s) (closing s) (memories s) (cleanupTimeout_ s) (events s) (below s).
Definition set_a_port x (s : Arm W P Client) : Arm W P Client := mkArm (a_probe s) x (a_info s) (closing s) (memories s) (cleanupTimeout_ s) (events s) (below s).
Definition set_a_closing (s : Arm W P Client) : Arm W P Client := mkArm (a_probe s) (a_port s) (a_info s) true (memories s) (cleanupTimeout_ s) (events s) (below s).
Definition set_memories x (s : Arm W P Client) : Arm W P Client := mkArm (a_probe s) (a_port s) (a_info s) (closing s) x (cleanupTimeout_ s) (events s) (below s).
Definition note x (s : Arm W P Client) : Arm W P Client := mkArm (a_probe s) (a_port s) (a_info s) (closing s) (memories s) (cleanupTimeout_ s) (events s ++ [x]) (below s).
Definition set_below x (s : Arm W P Client) : Arm W P Client := mkArm (a_probe s) (a_port s) (a_info s) (closing s) (memories s) (cleanupTimeout_ s) (events s) x.

Definition on_below {A} (m : GoM (Probe W * P) A) : M A := fun s =>
  match m (below s) with
  | Done (a, x) => Done (a, set_below x s)
  | Panicked => Panicked
  | OutOfFuel => OutOfFuel
  end.

(** A call of the probe. *)
Definition on_probe {A} (m : GoM (Probe W) A) : GoM (Probe W * P) A := fun x =>
  match m (fst x) with
  | Done (a, p) => Done (a, (p, snd x))
  | Panicked => Panicked
  | OutOfFuel => OutOfFuel
  end.

Definition arm_RestorationPossible (s : Arm W P Client) : bool := a_probe s && probe_RestorationPossible bk (fst (below s)).

Definition Port_ (s : Arm W P Client) : bool := negb (closing s) && a_port s.

Definition cleanupContext (s : Arm W P Client) : context := WithTimeout Background (cleanupTimeout_ s).

Fixpoint releaseMemAPs_loop (n : nat) : M err :=
  ms ← gets memories;
  match last ms, n with
  | None, _ => mret None
  | Some _, O => out_of_fuel
  | Some (sel, client), S n =>
      ctx ← gets cleanupContext;
      e ← on_below (dp_ReleaseMemAP client ctx);
      modify (note (AMemAP sel e));;
      match e with
      | Some e => mret (Some e)
      | None => modify (set_memories (removelast ms));; releaseMemAPs_loop n
      end
  end.

Definition releaseMemAPs : M err := n ← gets (fun s => length (memories s)); releaseMemAPs_loop n.

Definition releaseTarget : M err :=
  lost ← gets (fun s => a_probe s && negb (probe_RestorationPossible bk (fst (below s))));
  if lost : bool then
    gets (fun s => if negb (len (memories s) =? 0) || (a_port s && dp_CleanupPending (below s))
                   then Some (Sentinel armdebug_ErrRestorationAbandoned) else None)
  else
    e ← releaseMemAPs;
    match e with
    | Some e => mret (Some e)
    | None =>
        port ← gets a_port;
        if port : bool then
          ctx ← gets cleanupContext;
          e ← on_below (dp_Release ctx);
          modify (note (APort e));; mret e
        else mret None
    end.

Definition closeProbe : M err :=
  has ← gets a_probe;
  if negb has then mret None
  else
    e ← on_below (on_probe (probe_Close bk));
    modify (note (AProbe e));;
    modify (fun s => if probe_CleanupPending bk (fst (below s)) then s else set_a_probe false s);;
    mret e.

Definition arm_Close : M err :=
  modify set_a_closing;;
  e ← releaseTarget;
  possible ← gets (fun s => negb (a_probe s) || probe_RestorationPossible bk (fst (below s)));
  if negb (is_nil e) && possible then mret e
  else
    let e := if negb (is_nil e) && negb (errors_Is e armdebug_ErrRestorationAbandoned)
             then errors_Join [e; Some (Sentinel armdebug_ErrRestorationAbandoned)] else e in
    modify (fun s => set_a_port false (set_memories [] s));;
    c ← closeProbe;
    mret (errors_Join [e; c]).

(** [fail]; the flag says whether the connection is returned. *)
Definition arm_fail (cause : err) : M (bool * err) :=
  e ← arm_Close;
  held ← gets a_probe;
  mret (negb (is_nil e) && held, errors_Join [cause; e]).

Definition validateConfig (ctx : context) (c : Config) : M err :=
  if ctx_nil ctx then mret (Some (New "armdebug: nil context"))
  else
    e ← on_below (on_probe (probe_ctxErr ctx));
    match e with
    | Some e => mret (Some e)
    | None => mret (if CleanupTimeout c <? 0 then Some (New "armdebug: negative cleanup timeout") else validatePort (Port c))
    end.

Definition bind (ctx : context) (p : PortConfig) : M (binding * err) :=
  if negb (isJTAG p) then
    reg ← gets (fun s => SupportsRegisterSWD bk (fst (below s)));
    if reg : bool then e ← on_below (on_probe (probe_RegisterSWD bk ctx (swdClock p))); mret (registerBinding, e)
    else e ← on_below (on_probe (probe_SWD bk ctx (swdClock p))); mret (swdBinding, e)
  else
    e ← on_below (on_probe (probe_JTAG bk ctx (jtagClock p)));
    match e with
    | Some e => mret (unbound, Some e)
    | None =>
        match NewChain true (layout p) with
        | (_, Some e) => mret (unbound, Some e)
        | (_, None) => mret (jtagBinding, None)
        end
    end.

(** The connection that [Connect] starts from. *)
Definition newArm (p : Probe W) (timeout : Z) (x : P) : Arm W P Client := mkArm true false (info p) false [] timeout [] (p, x).

(** [Connect], from such a connection. *)
Definition arm_Connect (ctx : context) (c : Config) : M (bool * err) :=
  e ← validateConfig ctx c;
  match e with
  | Some e => arm_fail (Some e)
  | None =>
      '(b, e) ← bind ctx (Port c);
      match e with
      | Some e => arm_fail (Some e)
      | None =>
          modify (fun s => set_a_port true (set_below (fst (below s), dp_New (Port c) b) s));;
          e ← on_below (dp_Connect ctx);
          match e with
          | Some e => arm_fail (Some e)
          | None => mret (true, None)
          end
      end
  end.

(** [Open]; [openProbe] leaves the discovered probe in place and says whether
    there is one. *)
Definition arm_Open (openProbe : context -> GoM (Probe W) (bool * err)) (ctx : context) (c : Config) : M (bool * err) :=
  e ← validateConfig ctx c;
  match e with
  | Some e => mret (false, Some e)
  | None =>
      '(opened, e) ← on_below (on_probe (openProbe ctx));
      match e with
      | Some e =>
          if negb opened then mret (false, Some e)
          else modify (fun s => newArm (fst (below s)) 0 (snd (below s)));; arm_fail (Some e)
      | None =>
          if negb opened then mret (false, Some (New "armdebug: nil probe"))
          else modify (fun s => newArm (fst (below s)) (arm_cleanupTimeout c) (snd (below s)));; arm_Connect ctx c
      end
  end.

Definition arm_OpenMemAP (ctx : context) (sel : APSel) : M (option Client * err) :=
  usable ← gets (fun s => negb (closing s) && a_port s);
  if negb usable then mret (None, Some (New "armdebug: connection is not available for MEM-AP acquisition"))
  else if ctx_nil ctx then mret (None, Some (New "armdebug: nil context"))
  else
    e ← on_below (on_probe (probe_ctxErr ctx));
    match e with
    | Some e => mret (None, Some e)
    | None =>
        owned ← gets (fun s => existsb (fun m => bool_decide (fst m = sel)) (memories s));
        if owned : bool then mret (None, Some (New "armdebug: access port is already owned"))
        else
          '(client, e) ← on_below (dp_OpenMemAP ctx sel);
          match e with
          | Some e => mret (None, Some e)
          | None => modify (fun s => set_memories (memories s ++ [(sel, client)]) s);; mret (Some client, None)
          end
    end.
End Arm.

(** ** A probe over a USB attachment *)

Section OwnerFacts.
Context {W : Type} `{Env W}.
Variables (dev ses : Backend W) (activateSession : context -> Z -> GoM W (bool * err)) (lendsRegisters : W -> bool) (swd jtag register : bool).
Abbreviation bk := (owner_backend dev ses activateSession lendsRegisters swd jtag register).

(** What the attachment and the session do comes back. *)
Record usb_returns : Prop := {
  ur_device w : wp (b_Close dev) (fun _ _ => True) w;
  ur_session w : wp (b_Close ses) (fun _ _ => True) w;
  ur_activate ctx hz w : wp (activateSession ctx hz) (fun _ _ => True) w
}.
Context (returns : usb_returns).

Definition lent (p : Probe (owner W)) : bool := p_wire p || p_jtag p || registers p.

(** A lent surface has its session and there is one at most; what is owned is the
    attachment or the session; an attachment that was handed over has a session
    or is being closed; the probe lets go of nothing that is left. *)
Record owns (p : Probe (owner W)) : Prop := {
  ow_one : device (inside p) && session (inside p) = false;
  ow_lent : lent p = true -> backend p = true /\ p_closing p = false /\ session (inside p) = true;
  ow_single : (p_wire p && p_jtag p) || (p_wire p && registers p) || (p_jtag p && registers p) = false;
  ow_fresh : backend p = true -> lent p = false -> p_closing p = false -> device (inside p) = true;
  ow_gone : backend p = false -> p_closing p = true /\ device (inside p) = false /\ session (inside p) = false
}.

Lemma wp_on_usb {A} (m : GoM W A) (Q : A -> owner W -> Prop) o :
  wp m (fun a w => Q a (mkOwner (device o) (session o) w)) (attached_ o) -> wp (on_usb m) Q o.
Proof. unfold wp, on_usb. by destruct (m (attached_ o)) as [[a w]| |]. Qed.

Lemma wp_on_backend {A} (m : GoM (owner W) A) (Q : A -> Probe (owner W) -> Prop) p :
  wp m (fun a o => Q a (mkProbe (info p) (backend p) (p_wire p) (registers p) (p_jtag p) (p_closing p) o)) (inside p) -> wp (on_backend m) Q p.
Proof. unfold wp, on_backend. by destruct (m (inside p)) as [[a w]| |]. Qed.

(** Closing the owner hands nothing on, and leaves nothing when it is done. *)
Lemma owner_Close_spec o :
  device o && session o = false ->
  wp (owner_Close dev ses) (fun e o' => device o' && session o' = false /\
    (e = None \/ owner_CleanupPending dev ses o' = false -> device o' = false /\ session o' = false)) o.
Proof.
  intros Hone. unfold owner_Close. apply wp_bind, wp_gets, wp_bind.
  assert (forall e o1, device o1 = device o -> session o1 = session o ->
    wp (pending ← gets (fun o => session o1 && cleanupPending ses (attached_ o));
        if negb (is_nil e) && pending then mret e
        else modify (fun o => mkOwner (device o) false (attached_ o));;
          present ← gets device;
          if negb present then mret e
          else c ← on_usb (b_Close dev);
            modify (fun o => if is_nil c || negb (cleanupPending dev (attached_ o)) then mkOwner false (session o) (attached_ o) else o);;
            mret (errors_Join [e; c]))
      (fun e o' => device o' && session o' = false /\ (e = None \/ owner_CleanupPending dev ses o' = false -> device o' = false /\ session o' = false)) o1) as G.
  { intros e o1 Ed Es. apply wp_bind, wp_gets. destruct (negb (is_nil e) && (session o1 && cleanupPending ses (attached_ o1))) eqn:Ep.
    - apply andb_prop in Ep as [Ee Ep]. apply andb_prop in Ep as [Ess Ecp]. apply wp_ret. split; [by rewrite Ed, Es|].
      intros [->|Hc]; [done|]. unfold owner_CleanupPending in Hc. by rewrite Ess, Ecp in Hc.
    - apply wp_bind, wp_modify, wp_bind, wp_gets. cbn [device]. destruct (device o1) eqn:Edev; cbn [negb]; [|apply wp_ret; by rewrite andb_false_r].
      apply wp_bind, wp_on_usb. eapply wp_mono; [apply (ur_device returns)|]. intros c w _. cbn [attached_ device session].
      apply wp_bind, wp_modify, wp_ret. cbn [attached_ device session]. destruct (is_nil c) eqn:Ec; cbn [orb]; [done|].
      destruct (cleanupPending dev w) eqn:Ecp; cbn [negb]; [|done]. cbn [device session]. split; [by rewrite andb_false_r|].
      intros [Hj|Hc]; [|by unfold owner_CleanupPending in Hc; cbn in Hc; rewrite Ecp in Hc].
      apply errors_Join_None in Hj. by inversion Hj as [|? ? _ Hj2]; inversion Hj2; subst. }
  destruct (session o) eqn:Es.
  - apply wp_on_usb. eapply wp_mono; [apply (ur_session returns)|]. intros e w _.
    specialize (G e (mkOwner (device o) (session o) w) eq_refl). rewrite <- Es in G |- *. by apply G.
  - apply wp_ret. specialize (G None o eq_refl). rewrite Es in G. by apply G.
Qed.

(** The flags are all that counts. *)
Lemma owns_inside p o : owns p -> device o = device (inside p) -> session o = session (inside p) ->
  owns (mkProbe (info p) (backend p) (p_wire p) (registers p) (p_jtag p) (p_closing p) o).
Proof. intros [A B C D E] Ed Es. split; cbn; unfold lent in *; cbn in *; rewrite ?Ed, ?Es; done. Qed.

Lemma probe_Close_owns p :
  device (inside p) && session (inside p) = false -> (backend p = false -> device (inside p) = false /\ session (inside p) = false) ->
  wp (probe_Close bk) (fun e p' => owns p' /\ p_closing p' = true /\ (e = None -> backend p' = false)) p.
Proof.
  intros A E. unfold probe_Close. apply wp_bind, wp_modify, wp_bind, wp_gets. cbn [backend set_surfaces set_p_closing].
  destruct (backend p) eqn:Eb; cbn [negb].
  - apply wp_bind, wp_on_backend. cbn [inside set_surfaces set_p_closing]. eapply wp_mono; [by apply owner_Close_spec|].
    intros e o [Ho Hdone]. apply wp_bind, wp_gets. unfold probe_CleanupPending. cbn [backend b_CleanupPending owner_backend inside set_surfaces set_p_closing]. rewrite Eb. cbn [negb].
    destruct (negb (is_nil e) && owner_CleanupPending dev ses o) eqn:Ep.
    + apply andb_prop in Ep as [Ep _]. apply wp_ret. split; [|split; [done|by destruct e]]. by split; cbn.
    + apply wp_bind, wp_modify, wp_ret. split; [|done]. assert (device o = false /\ session o = false) as [Ed Es].
      { apply Hdone. destruct e; [right|by left]. by destruct (owner_CleanupPending dev ses o). }
      split; cbn; rewrite ?Ed, ?Es; done.
  - apply wp_ret. split; [|done]. destruct (E eq_refl) as [Ed Es]. split; cbn; rewrite ?Ed, ?Es; done.
Qed.

Lemma canActivate_owns ctx hz p :
  owns p -> wp (canActivate ctx hz) (fun e p' => owns p' /\ (e = None -> backend p' = true /\ p_closing p' = false /\ lent p' = false)) p.
Proof.
  intros Hp. unfold canActivate. destruct (ctx_nil ctx) eqn:Ec; [by apply wp_ret|]. apply wp_bind. unfold wp at 1, probe_ctxErr. rewrite Ec.
  cbn [ctx_Err Probe_Env owner_Env]. destruct (ctx_Err ctx (attached_ (inside p))) as [c w].
  set (p1 := mkProbe _ _ _ _ _ _ _). assert (owns p1) as Hp1 by (by apply owns_inside). destruct c as [c|]; cbn [fmap option_fmap option_map]; [by apply wp_ret|].
  destruct (hz <? 1000); [by apply wp_ret|]. apply wp_bind, wp_gets, wp_ret. split; [done|].
  destruct (negb (backend p1) || p_closing p1 || p_wire p1 || p_jtag p1 || registers p1) eqn:Eb; [done|]. intros _.
  unfold lent. destruct (backend p1), (p_closing p1), (p_wire p1), (p_jtag p1), (registers p1); done.
Qed.

(** An activation that hands the attachment over returns a session. *)
Lemma owner_activate_spec ctx hz o :
  device o = true -> session o = false ->
  wp (owner_activate activateSession ctx hz) (fun r o' => if fst r then device o' = false /\ session o' = true else device o' = true /\ session o' = false) o.
Proof.
  intros Ed Es. unfold owner_activate. apply wp_bind, wp_gets. rewrite Ed. cbn [negb]. apply wp_bind, wp_on_usb.
  eapply wp_mono; [apply (ur_activate returns)|]. intros [s e] w _. apply wp_bind. by destruct s; [apply wp_modify|apply wp_ret]; apply wp_ret.
Qed.

Lemma registerOwner_activate_spec ctx hz o :
  device o = true -> session o = false ->
  wp (registerOwner_activate activateSession lendsRegisters ctx hz) (fun r o' =>
    device o' && session o' = false /\ (fst r = true -> device o' = false /\ session o' = true)) o.
Proof.
  intros Ed Es. unfold registerOwner_activate. apply wp_bind. eapply wp_mono; [by apply owner_activate_spec|].
  intros [[] e] o' [Ed' Es']; cbn [negb fst] in *.
  - apply wp_bind, wp_gets, wp_ret. rewrite Ed'. by split.
  - apply wp_ret. rewrite Ed', Es'. by split.
Qed.

(** An activation keeps what is owned, whatever the session does. *)
Lemma activate_owns op unsupported lend ctx hz p :
  owns p ->
  (forall f o, op = Some f -> device o = true -> session o = false ->
    wp (f ctx hz) (fun r o' => device o' && session o' = false /\ (fst r = true -> device o' = false /\ session o' = true)) o) ->
  (forall q, inside (lend q) = inside q /\ backend (lend q) = backend q /\ p_closing (lend q) = p_closing q /\
    (lent q = false -> lent (lend q) = true /\ (p_wire (lend q) && p_jtag (lend q)) || (p_wire (lend q) && registers (lend q)) || (p_jtag (lend q) && registers (lend q)) = false)) ->
  wp (activate bk op unsupported lend ctx hz) (fun _ p' => owns p') p.
Proof.
  intros Hp Hop Hl. unfold activate. apply wp_bind. eapply wp_mono; [by apply canActivate_owns|]. intros [e|] p1 [Hp1 Hfree]; [by apply wp_ret|].
  destruct (Hfree eq_refl) as (Eb & Ec & El). destruct op as [f|]; [|by apply wp_ret]. pose proof Hp1 as [A B C D E].
  pose proof (D Eb El Ec) as Ed. assert (session (inside p1) = false) as Es by (rewrite Ed in A; exact A).
  apply wp_bind, wp_on_backend. eapply wp_mono; [by apply (Hop f)|]. intros [surface e] o [Ho Hs]. cbn [fst] in Hs.
  set (p2 := mkProbe _ _ _ _ _ _ o). unfold activationError.
  assert (forall e, wp (c ← probe_Close bk; mret (errors_Join [Some e; c])) (fun r p' => owns p' /\ r <> None) p2) as Hfail.
  { intros e0. apply wp_bind. eapply wp_mono; [apply probe_Close_owns; [done|cbn; congruence]|]. intros c p' (Hp' & _). apply wp_ret. split; [done|].
    rewrite errors_Join_None. intros Hj. by inversion Hj. }
  apply wp_bind. destruct (if is_nil e && negb surface then _ else e) as [e0|] eqn:Ee.
  - eapply wp_mono; [apply Hfail|]. intros [r|] p' [Hp' Hr]; [by apply wp_ret|done].
  - apply wp_ret, wp_bind, wp_modify, wp_ret. assert (surface = true) as -> by (destruct e, surface; done).
    destruct (Hs eq_refl) as [Ed' Es']. destruct (Hl p2) as (L1 & L2 & L3 & L4). destruct (L4 El) as [L5 L6].
    split; rewrite ?L1, ?L2, ?L3; cbn [inside backend p_closing p2]; rewrite ?Ed', ?Es'; try done; try congruence.
Qed.

(** Calls of a probe. *)
Inductive probe_call := CallClose | CallSWD (ctx : context) (hz : Z) | CallRegisterSWD (ctx : context) (hz : Z) | CallJTAG (ctx : context) (hz : Z).

Definition call_probe (c : probe_call) : GoM (Probe (owner W)) err :=
  match c with
  | CallClose => probe_Close bk
  | CallSWD ctx hz => probe_SWD bk ctx hz
  | CallRegisterSWD ctx hz => probe_RegisterSWD bk ctx hz
  | CallJTAG ctx hz => probe_JTAG bk ctx hz
  end.

Fixpoint call_all (l : list probe_call) : GoM (Probe (owner W)) (list err) :=
  match l with
  | [] => mret []
  | c :: l => e ← call_probe c; es ← call_all l; mret (e :: es)
  end.

Lemma call_owns c p : owns p -> wp (call_probe c) (fun _ p' => owns p') p.
Proof.
  assert (forall ctx hz (op : option (context -> Z -> GoM (owner W) (bool * err))),
    op = Some (owner_activate activateSession) \/ op = Some (registerOwner_activate activateSession lendsRegisters) \/ op = None ->
    forall f o, op = Some f -> device o = true -> session o = false ->
      wp (f ctx hz) (fun r o' => device o' && session o' = false /\ (fst r = true -> device o' = false /\ session o' = true)) o) as G.
  { intros ctx hz op [->|[->| ->]] f o [= <-] Ed Es; [|by apply registerOwner_activate_spec].
    eapply wp_mono; [by apply owner_activate_spec|]. intros [[] e] o' [E1 E2]; cbn in *; rewrite E1, E2; done. }
  intros Hp. destruct c; cbn [call_probe].
  - eapply wp_mono; [apply probe_Close_owns; [apply Hp|apply Hp]|]. by intros e p' (Hp' & _).
  - apply activate_owns; [done|apply G; cbn; destruct swd; tauto|]. intros q. split_and!; try done. unfold lent. cbn. destruct (p_jtag q), (registers q); by rewrite ?orb_true_r.
  - apply activate_owns; [done|apply G; cbn; destruct register; tauto|]. intros q. split_and!; try done. unfold lent. cbn. destruct (p_wire q), (p_jtag q); by rewrite ?orb_true_r.
  - apply activate_owns; [done|apply G; cbn; destruct jtag; tauto|]. intros q. split_and!; try done. unfold lent. cbn. destruct (p_wire q), (registers q); by rewrite ?orb_true_r.
Qed.

Lemma call_all_owns l p : owns p -> wp (call_all l) (fun _ p' => owns p') p.
Proof.
  revert p. induction l as [|c l IH]; intros p Hp; [by apply wp_ret|]. cbn [call_all]. apply wp_bind. eapply wp_mono; [by apply call_owns|].
  intros e p1 Hp1. apply wp_bind. eapply wp_mono; [by apply IH|]. intros es p2 Hp2. by apply wp_ret.
Qed.
End OwnerFacts.

(** ** Arm connections *)

Section ArmFacts.
Context {W P Client : Type} `{Env W} `{DebugPorts W P Client} (bk : Backend W).
Abbreviation St := (Arm W P Client).

(** What the connection calls comes back. *)
Record arm_returns : Prop := {
  ar_close w : wp (b_Close bk) (fun _ _ => True) w;
  ar_activate f ctx hz w : b_SWD bk = Some f \/ b_RegisterSWD bk = Some f \/ b_JTAG bk = Some f -> wp (f ctx hz) (fun _ _ => True) w;
  ar_connect ctx x : wp (dp_Connect ctx) (fun _ _ => True) x;
  ar_release ctx x : wp (dp_Release ctx) (fun _ _ => True) x;
  ar_memap client ctx x : wp (dp_ReleaseMemAP client ctx) (fun _ _ => True) x
}.
Context (returns : arm_returns).

Lemma wp_on_below {A} (m : GoM (Probe W * P) A) (Q : A -> St -> Prop) s :
  wp m (fun a x => Q a (set_below x s)) (below s) -> wp (on_below m) Q s.
Proof. unfold wp, on_below. by destruct (m (below s)) as [[a x]| |]. Qed.

Lemma wp_on_probe {A} (m : GoM (Probe W) A) (Q : A -> Probe W * P -> Prop) x :
  wp m (fun a p => Q a (p, snd x)) (fst x) -> wp (on_probe m) Q x.
Proof. unfold wp, on_probe. by destruct (m (fst x)) as [[a p]| |]. Qed.

(** Only the world below has moved, and what happened is noted. *)
Definition moved (s s' : St) (l : list armEvent) : Prop :=
  a_probe s' = a_probe s /\ a_port s' = a_port s /\ closing s' = closing s /\ events s' = events s ++ l.

Definition released_ok (m : APSel * Client) : armEvent := AMemAP (fst m) None.

(** MEM-APs are released from the last to the first, up to the first failure. *)
Lemma releaseMemAPs_spec n s :
  (length (memories s) <= n)%nat ->
  wp (releaseMemAPs_loop n) (fun e s' => exists gone, memories s = memories s' ++ gone /\
    match e with
    | None => memories s' = [] /\ moved s s' (released_ok <$> rev gone)
    | Some e => exists sel, fst <$> last (memories s') = Some sel /\ moved s s' ((released_ok <$> rev gone) ++ [AMemAP sel (Some e)])
    end) s.
Proof.
  revert s. induction n as [|n IH]; intros s Hn; cbn [releaseMemAPs_loop]; apply wp_bind, wp_gets;
    destruct (last (memories s)) as [[sel client]|] eqn:El.
  2, 4: apply last_None in El; rewrite El; apply wp_ret; exists []; rewrite El; split; [done|]; split; [done|]; split_and!; try done; by rewrite app_nil_r.
  { apply last_Some in El as [l El]. rewrite El, length_app in Hn. cbn in Hn. lia. }
  pose proof El as El0. apply last_Some in El as [l El]. apply wp_bind, wp_gets, wp_bind, wp_on_below. eapply wp_mono; [apply (ar_memap returns)|].
  intros e x _. apply wp_bind, wp_modify. destruct e as [e|].
  - apply wp_ret. exists []. cbn [memories note set_below]. split; [by rewrite app_nil_r|]. exists sel. by rewrite El0.
  - apply wp_bind, wp_modify. rewrite El, removelast_last. eapply wp_mono; [apply IH|].
    { cbn. rewrite El, length_app in Hn. cbn in Hn. lia. }
    intros e s' (gone & Eg & G). cbn [memories set_memories note set_below] in Eg. exists (gone ++ [(sel, client)]).
    split; [by rewrite Eg, app_assoc|]. rewrite rev_app_distr. cbn [rev app fmap list_fmap].
    destruct e as [e|].
    + destruct G as (sel' & Es & A & B & C & D). exists sel'. split; [done|]. split_and!; try done. rewrite D. cbn. by rewrite <- app_assoc.
    + destruct G as (Es & A & B & C & D). split; [done|]. split_and!; try done. rewrite D. cbn. by rewrite <- app_assoc.
Qed.

(** Whether there is something on the target to restore. *)
Definition owed (s : St) : bool := negb (len (memories s) =? 0) || (a_port s && dp_CleanupPending (below s)).
Definition lost (s : St) : bool := a_probe s && negb (probe_RestorationPossible bk (fst (below s))).

(** What was done about it, with the error it ended with. *)
Inductive target_release (s s' : St) : list armEvent -> err -> Prop :=
| tr_done gone : memories s = gone -> memories s' = [] -> target_release s s' ((released_ok <$> rev gone) ++ (if a_port s then [APort None] else [])) None
| tr_port gone e : memories s = gone -> memories s' = [] -> a_port s = true -> target_release s s' ((released_ok <$> rev gone) ++ [APort (Some e)]) (Some e)
| tr_memap gone sel e : memories s = memories s' ++ gone -> fst <$> last (memories s') = Some sel ->
    target_release s s' ((released_ok <$> rev gone) ++ [AMemAP sel (Some e)]) (Some e)
| tr_lost : lost s = true -> memories s' = memories s -> target_release s s' [] (if owed s then Some (Sentinel armdebug_ErrRestorationAbandoned) else None).

Lemma releaseTarget_spec (s : St) :
  wp (releaseTarget bk) (fun e s' => exists l, target_release s s' l e /\ moved s s' l) s.
Proof.
  unfold releaseTarget. apply wp_bind, wp_gets. fold (lost s). destruct (lost s) eqn:El.
  { apply wp_gets. exists []. split; [by apply tr_lost|]. split_and!; try done. by rewrite app_nil_r. }
  apply wp_bind. unfold releaseMemAPs. apply wp_bind, wp_gets. eapply wp_mono; [by apply releaseMemAPs_spec|].
  intros [e|] s1 (gone & Eg & G).
  { destruct G as (sel & Es & M). apply wp_ret. eexists. split; [by eapply tr_memap|done]. }
  destruct G as (Es & A & B & C & D). rewrite Es in Eg. cbn in Eg. apply wp_bind, wp_gets. rewrite B.
  destruct (a_port s) eqn:Ep.
  - apply wp_bind, wp_gets, wp_bind, wp_on_below. eapply wp_mono; [apply (ar_release returns)|]. intros e x _. apply wp_bind, wp_modify, wp_ret.
    destruct e as [e|]; eexists; (split; [|split_and!; [exact A|by rewrite Ep|exact C|cbn; rewrite D; by rewrite <- app_assoc]]).
    + by eapply tr_port.
    + pose proof (tr_done s (note (APort None) (set_below x s1)) gone Eg Es) as T. by rewrite Ep in T.
  - apply wp_ret. pose proof (tr_done s s1 gone Eg Es) as T. rewrite Ep, app_nil_r in T. exists (released_ok <$> rev gone). split; [done|].
    split_and!; try done. by rewrite B.
Qed.

(** Closing the probe: the connection keeps it only while cleanup is pending. *)
Lemma probe_Close_done p : wp (probe_Close bk) (fun e p' => e = None -> probe_CleanupPending bk p' = false) p.
Proof.
  unfold probe_Close. apply wp_bind, wp_modify, wp_bind, wp_gets. cbn [backend set_surfaces set_p_closing]. destruct (backend p) eqn:Eb; cbn [negb].
  - apply wp_bind. unfold wp at 1, on_backend. pose proof (ar_close returns (inside p)) as Hc. unfold wp in Hc. cbn [inside set_surfaces set_p_closing].
    destruct (b_Close bk (inside p)) as [[e w]| |]; [|done..]. apply wp_bind, wp_gets. case_match; [apply wp_ret; by destruct e|]. by apply wp_bind, wp_modify, wp_ret.
  - apply wp_ret. intros _. unfold probe_CleanupPending. cbn. by rewrite Eb.
Qed.

Lemma closeProbe_spec (s : St) :
  wp (closeProbe bk) (fun e s' => memories s' = memories s /\ a_port s' = a_port s /\ closing s' = closing s /\
    events s' = events s ++ (if a_probe s then [AProbe e] else []) /\ (e = None -> a_probe s' = false) /\
    (a_probe s' = true -> probe_CleanupPending bk (fst (below s')) = true)) s.
Proof.
  unfold closeProbe. apply wp_bind, wp_gets. destruct (a_probe s) eqn:Ep; cbn [negb].
  - apply wp_bind, wp_on_below, wp_on_probe. eapply wp_mono; [apply probe_Close_done|]. intros e p He. apply wp_bind, wp_modify, wp_bind, wp_modify, wp_ret.
    cbn [below note set_below fst]. destruct (probe_CleanupPending bk p) eqn:Ec; cbn; (split_and!; try done). intros ->. specialize (He eq_refl). congruence.
  - apply wp_ret. rewrite app_nil_r. split_and!; try done. congruence.
Qed.

Lemma errors_Is_abandoned e c : errors_Is e armdebug_ErrRestorationAbandoned = true -> errors_Is (errors_Join [e; c]) armdebug_ErrRestorationAbandoned = true.
Proof. destruct e as [e|]; [|done]. cbn. intros E. destruct c; cbn; by rewrite E. Qed.

(** How a close ends: the target is not restored yet but can be, and everything
    is kept; or the probe is closed, and whatever was not restored is reported
    as abandoned. *)
Lemma arm_Close_spec (s : St) :
  wp (arm_Close bk) (fun e s' => closing s' = true /\ exists l f s1, target_release (set_a_closing s) s1 l f /\
    ((f <> None /\ e = f /\ s' = s1 /\ a_probe s' = a_probe s /\ a_port s' = a_port s /\ events s' = events s ++ l /\
      (a_probe s = true -> probe_RestorationPossible bk (fst (below s')) = true)) \/
     ((f <> None -> a_probe s = true /\ errors_Is e armdebug_ErrRestorationAbandoned = true) /\
      memories s' = [] /\ a_port s' = false /\ (exists c, events s' = events s ++ l ++ (if a_probe s then [AProbe c] else [])) /\
      (e = None -> a_probe s' = false) /\ (a_probe s' = true -> probe_CleanupPending bk (fst (below s')) = true)))) s.
Proof.
  unfold arm_Close. apply wp_bind, wp_modify, wp_bind. eapply wp_mono; [apply releaseTarget_spec|]. intros f s1 (l & T & A & B & C & D).
  cbn [a_probe a_port closing events set_a_closing] in A, B, C, D. apply wp_bind, wp_gets.
  destruct (negb (is_nil f) && (negb (a_probe s1) || probe_RestorationPossible bk (fst (below s1)))) eqn:E.
  - apply andb_prop in E as [E1 E2]. apply wp_ret. split; [done|]. exists l, f, s1. split; [done|]. left. split_and!; try done; [by destruct f|].
    intros Hp. rewrite A, Hp in E2. exact E2.
  - apply wp_bind, wp_modify, wp_bind. eapply wp_mono; [apply closeProbe_spec|]. intros c s2 (M1 & M2 & M3 & M4 & M5 & M6).
    cbn [memories a_port closing events a_probe set_a_port set_memories] in M1, M2, M3, M4. apply wp_ret. split; [by rewrite M3|].
    exists l, f, s1. split; [done|]. right. split_and!; try done.
    + intros Hf. destruct f as [f|]; [|done]. cbn [is_nil negb andb] in E |- *. rewrite A in E. split; [by destruct (a_probe s)|].
      apply errors_Is_abandoned. destruct (errors_Is (Some f) armdebug_ErrRestorationAbandoned) eqn:Ea; cbn [negb]; [done|].
      cbn. by rewrite orb_true_r.
    + exists c. rewrite M4, D, A. by rewrite <- app_assoc.
    + intros He. apply errors_Join_None in He. inversion He as [|? ? _ He2]; inversion He2; subst. by apply M5.
Qed.

(** A failed setup returns the connection exactly when it still owns the probe. *)
Lemma arm_fail_spec (s : St) cause :
  a_probe s = true -> cause <> None ->
  wp (arm_fail bk cause) (fun r s' => snd r <> None /\ closing s' = true /\ fst r = a_probe s' /\
    (fst r = false -> a_port s' = false /\ memories s' = [])) s.
Proof.
  intros Hp Hc. unfold arm_fail. apply wp_bind. eapply wp_mono; [apply arm_Close_spec|]. intros e s' (Hcl & l & f & s1 & _ & G). apply wp_bind, wp_gets, wp_ret. cbn [fst snd].
  split; [rewrite errors_Join_None; intros Hj; by inversion Hj|]. split; [done|]. destruct G as [(Hf & -> & _ & Hp' & _)|(_ & Hm & Hport & _ & Hn & _)].
  - rewrite Hp', Hp. split; [by destruct f|]. by destruct f.
  - split; [|done]. destruct e as [e|]; [done|]. by rewrite Hn.
Qed.

Lemma probe_ctxErr_returns ctx (p : Probe W) : ctx_nil ctx = false -> wp (probe_ctxErr ctx) (fun _ _ => True) p.
Proof. intros Hc. unfold wp, probe_ctxErr. rewrite Hc. by destruct (ctx_Err ctx p). Qed.

Lemma activate_returns op unsupported lend ctx hz p :
  (forall f w, op = Some f -> wp (f ctx hz) (fun _ _ => True) w) -> wp (activate bk op unsupported lend ctx hz) (fun _ _ => True) p.
Proof.
  intros Hop. unfold activate. apply wp_bind. eapply wp_mono with (P := fun _ _ => True).
  { unfold canActivate. destruct (ctx_nil ctx) eqn:Hc; [by apply wp_ret|]. apply wp_bind. eapply wp_mono; [by apply probe_ctxErr_returns|].
    intros [e|] p1 _; [by apply wp_ret|]. destruct (hz <? 1000); [by apply wp_ret|]. by apply wp_bind, wp_gets, wp_ret. }
  intros [e|] p1 _; [by apply wp_ret|]. destruct op as [f|]; [|by apply wp_ret]. apply wp_bind.
  unfold wp at 1, on_backend. pose proof (Hop f (inside p1) eq_refl) as Hf. unfold wp in Hf. destruct (f ctx hz (inside p1)) as [[[b e] w]| |]; [|done..].
  apply wp_bind. unfold activationError. eapply wp_mono with (P := fun _ _ => True).
  - case_match; [|by apply wp_ret]. apply wp_bind. eapply wp_mono; [apply probe_Close_done|]. intros. by apply wp_ret.
  - intros [e'|] p2 _; [by apply wp_ret|]. by apply wp_bind, wp_modify, wp_ret.
Qed.

(** Setting up moves nothing but what is below. *)
Definition setting_up (s s' : St) : Prop :=
  a_probe s' = a_probe s /\ a_port s' = a_port s /\ closing s' = closing s /\ memories s' = memories s /\ events s' = events s.

Lemma setup_call {A} (m : GoM (Probe W) A) (s : St) : (forall p, wp m (fun _ _ => True) p) -> wp (on_below (on_probe m)) (fun _ s' => setting_up s s') s.
Proof. intros Hm. apply wp_on_below, wp_on_probe. eapply wp_mono; [apply Hm|]. by intros a p _. Qed.

Lemma validateConfig_spec ctx c (s : St) : wp (validateConfig ctx c) (fun _ s' => setting_up s s') s.
Proof.
  unfold validateConfig. destruct (ctx_nil ctx) eqn:Hc; [by apply wp_ret|]. apply wp_bind. eapply wp_mono; [apply setup_call; intros p; by apply probe_ctxErr_returns|].
  intros [e|] s1 Hs; by apply wp_ret.
Qed.

Lemma bind_spec ctx p (s : St) : wp (bind bk ctx p) (fun _ s' => setting_up s s') s.
Proof.
  assert (forall op unsupported lend hz, op = b_SWD bk \/ op = b_RegisterSWD bk \/ op = b_JTAG bk -> forall q, wp (activate bk op unsupported lend ctx hz) (fun _ _ => True) q) as G.
  { intros op u lend hz Hop q. apply activate_returns. intros f w ->. apply (ar_activate returns). destruct Hop as [<-|[<-|<-]]; auto. }
  unfold bind. destruct (isJTAG p); cbn [negb].
  - apply wp_bind. eapply wp_mono; [apply setup_call, G; auto|]. intros [e|] s1 Hs; [by apply wp_ret|]. by destruct (NewChain true (layout p)) as [o [e|]]; apply wp_ret.
  - apply wp_bind, wp_gets. destruct (SupportsRegisterSWD bk _); (apply wp_bind; eapply wp_mono; [apply setup_call, G; auto|]; intros e s1 Hs; by apply wp_ret).
Qed.

Lemma arm_Connect_spec ctx c (s : St) :
  a_probe s = true -> closing s = false -> memories s = [] ->
  wp (arm_Connect bk ctx c) (fun r s' =>
    match snd r with
    | None => fst r = true /\ a_probe s' = true /\ a_port s' = true /\ closing s' = false
    | Some _ => closing s' = true /\ fst r = a_probe s' /\ (fst r = false -> a_port s' = false /\ memories s' = [])
    end) s.
Proof.
  intros Hp Hc Hm. unfold arm_Connect.
  assert (forall e s1, a_probe s1 = true -> wp (arm_fail bk (Some e)) (fun r s' =>
    match snd r with
    | None => fst r = true /\ a_probe s' = true /\ a_port s' = true /\ closing s' = false
    | Some _ => closing s' = true /\ fst r = a_probe s' /\ (fst r = false -> a_port s' = false /\ memories s' = [])
    end) s1) as F.
  { intros e s1 H1. eapply wp_mono; [by apply arm_fail_spec|]. intros [b [e'|]] s' (N & G); [exact G|done]. }
  apply wp_bind. eapply wp_mono; [apply validateConfig_spec|]. intros e s1 (A1 & A2 & A3 & A4 & A5). destruct e as [e|]; [apply F; congruence|].
  apply wp_bind. eapply wp_mono; [apply bind_spec|]. intros [b e] s2 (B1 & B2 & B3 & B4 & B5). destruct e as [e|]; [apply F; congruence|].
  apply wp_bind, wp_modify, wp_bind, wp_on_below. eapply wp_mono; [apply (ar_connect returns)|]. intros e x _. cbn [set_below set_a_port].
  destruct e as [e|]; [apply F; cbn; congruence|]. apply wp_ret. cbn. split_and!; try done; congruence.
Qed.
End ArmFacts.

(** ** The contract *)


(** C38: closing an Arm connection, whatever package dap and the probe answer,
    returns and starts with the target: MEM-APs from the last opened to the
    first, then the debug port.  If that fails while the probe can still
    communicate, nothing else is touched and everything not yet released is kept
    for another close.  Otherwise the probe is closed last, and a target that
    was not restored is reported as abandoned.  A close without error leaves
    nothing owned, and afterwards the probe is owned only while its own cleanup
    is pending. *)
Theorem armdebug_close_contract {W P Client} `{Env W} `{DebugPorts W P Client} (bk : Backend W) (s : Arm W P Client) :
  arm_returns bk ->
  exists e s', arm_Close bk s = Done (e, s') /\ closing s' = true /\
    exists l f s1, target_release bk (set_a_closing s) s1 l f /\
    ((f <> None /\ e = f /\ s' = s1 /\ a_probe s' = a_probe s /\ a_port s' = a_port s /\ events s' = events s ++ l /\
      (a_probe s = true -> probe_RestorationPossible bk (fst (below s')) = true)) \/
     ((f <> None -> a_probe s = true /\ errors_Is e armdebug_ErrRestorationAbandoned = true) /\
      memories s' = [] /\ a_port s' = false /\ (exists c, events s' = events s ++ l ++ (if a_probe s then [AProbe c] else [])) /\
      (e = None -> a_probe s' = false) /\ (a_probe s' = true -> probe_CleanupPending bk (fst (below s')) = true))).
Proof. intros Hr. pose proof (arm_Close_spec bk Hr s) as G. by apply wp_done in G. Qed.


(** ** A rig for the witnesses *)

(** Whether the probe can still communicate. *)
Record Rig := mkRig { alive : bool }.

#[global] Instance Rig_Env : Env Rig := {| ctx_Err := fun _ w => (None, w) |}.

Definition rig_backend : Backend Rig :=
  mkBackend (fun w => Done (None, w)) None (Some alive) (Some (fun _ _ w => Done ((true, None), w))) None None.

(** The client with number 1 cannot be released. *)
#[global] Instance Rig_Ports : DebugPorts Rig bool nat := {|
  dp_New := fun _ _ => false;
  dp_Connect := fun _ '(p, _) => Done (None, (p, true));
  dp_Release := fun _ '(p, _) => Done (None, (p, false));
  dp_CleanupPending := snd;
  dp_OpenMemAP := fun _ _ x => Done ((0%nat, None), x);
  dp_ReleaseMemAP := fun client _ x => Done (if Nat.eqb client 1 then Some (New "rig: MEM-AP is stuck") else None, x)
|}.

Lemma rig_returns : arm_returns (P := bool) (Client := nat) rig_backend.
Proof. split; try done; try (by intros ctx [p x]). intros f ctx hz w [[= <-]|[?|?]]; done. Qed.

Definition rig_info : Info := mkInfo "rig" "1" "" "".
Definition rig_arm (responding : bool) (ms : list (APSel * nat)) : Arm Rig bool nat :=
  mkArm true true rig_info false ms second [] (NewProbe rig_info (mkRig responding), true).


(** The first MEM-AP is stuck: it is kept with the port and the probe; when the
    probe is gone, it is abandoned. *)
Lemma armdebug_close_contract_witness :
  (exists e s', arm_Close rig_backend (rig_arm true [(NewAPSel 0, 1%nat); (NewAPSel 1, 0%nat)]) = Done (e, s') /\
    is_nil e = false /\ closing s' = true /\ memories s' = [(NewAPSel 0, 1%nat)] /\ a_port s' = true /\ a_probe s' = true) /\
  (exists e s', arm_Close rig_backend (rig_arm false [(NewAPSel 0, 1%nat)]) = Done (e, s') /\
    errors_Is e armdebug_ErrRestorationAbandoned = true /\ closing s' = true /\ memories s' = [] /\ a_port s' = false /\ a_probe s' = false).
Proof.
  split.
  - destruct (armdebug_close_contract rig_backend (rig_arm true [(NewAPSel 0, 1%nat); (NewAPSel 1, 0%nat)]) rig_returns) as (e & s' & E & Hc & _).
    exists e, s'. split; [exact E|]. vm_compute in E. by injection E as <- <-.
  - destruct (armdebug_close_contract rig_backend (rig_arm false [(NewAPSel 0, 1%nat)]) rig_returns) as (e & s' & E & Hc & _).
    exists e, s'. split; [exact E|]. vm_compute in E. by injection E as <- <-.
Defined.

